(* ===== verification/_CoqProject ===== *)
-Q . S2P
Prelude.v
RustStr.v
Paths.v
FileStore.v
Policy.v
Ipam.v
Leases.v
Json.v
ExecQueue.v
Ports.v
Auth.v
Text.v
Limiters.v
Histogram.v
Parallel.v
Types.v
Registry.v
Records.v
Fleet.v
Start.v
Stop.v
Cleanup.v
Update.v
Sandbox.v
Teardown.v
Activity.v
Publish.v
Sweeper.v
Exec.v
Logs.v
FileTree.v
Snapshots.v
Copy.v
Cgroup.v
Sessions.v
Journal.v
StateLock.v
Dispatch.v
DiskResize.v
ProcFs.v
TokenStore.v
Deadlines.v
Confine.v
SandboxCache.v
Firewall.v
AntiSpoof.v
BridgeRules.v
Network.v
Helpers.v
Cancel.v
Lifecycle.v
Handlers.v
Repair.v
Client.v
Config.v
