(* ===== verification/Prelude.v ===== *)
(** * Enclave: a verified model of the daemon's core

    Enclave is a daemon that runs workspaces (long-lived, isolated runtimes with a
    file system, a network address and resource limits) inside sandboxes (shared root
    file systems with a budget).  A request arrives on a socket, passes the rate
    limiter and the policy, takes a lifecycle lease and runs an operation, which
    reads and writes the registry in short transactions and drives the host between
    them.  A sweeper stops and destroys what is idle, a repair rebuilds the registry
    from disk, and the clean-up operations release what a runtime held.

    ** The files and what they model (paths below src/src)

    - [Prelude]: results with coded error chains (error.rs), the state monad [stm],
      in which mutations made before an early return survive it, ordered maps, and
      the shared tactics, hints and lemmas.
    - [RustStr], [Paths]: the string and path functions of the standard library the
      sources use.
    - [FileStore]: the interface between a JSON file with a fingerprint cache and its
      clients; [Policy] (policy/) and [Registry] (registry/mod.rs, storage.rs,
      migrate.rs) are its two instances, each a refinement of one cell.
    - [Ipam] (network/ipam.rs), [Ports] (workspace/ports.rs), [Auth] (auth names,
      scopes, scrub), [Limiters] (daemon/rate_limiter.rs, network/publish/limiter.rs),
      [Histogram] (perf/histogram.rs), [Parallel] (parallel.rs), [Json]: leaf components.
    - [Leases] (daemon/leases.rs): gates, threads and guards as a step relation, and the
      sleepers of its condition variables.
    - [ExecQueue] (daemon/workers): the exec queue and the worker pools.
    - [Types], [Records]: records, limits and the helpers of
      workspace/control/state; [Fleet]: the abstract specification of the fleet and
      the steps every operation refines.
    - [Start], [Stop], [Cleanup], [Update], [Sandbox], [Teardown]: the lifecycle
      operations of workspace/control, workspace/cleanup, workspace/create and
      sandbox/lifecycle, whole handlers with their error paths and rollbacks.
    - [Activity] (workspace/activity.rs, activity_service.rs, jobs.rs), [Sweeper]
      (daemon/sweeper.rs), [Sessions] (workspace/session/stop.rs, process),
      [Journal] (operation/), [Dispatch] (daemon/request.rs, dispatch).
    - [DiskResize] (workspace/storage/resize.rs, ext4.rs), [ProcFs] (fsutil/mounts.rs
      and the parsers of session/process), [Helpers] (session/persistent/mod.rs: the
      pool of command helpers as a step relation), [Cancel] (workspace/cancel.rs).
    - [Text]: lossy decoding and JSON escapes; [Exec] (workspace/exec, the transport and
      the command loop of a helper, workspace/cwd.rs), [Logs] (workspace/logs.rs).
    - [FileTree]: file trees and the calls that change them, any of which may be refused;
      [Snapshots] (workspace/snapshot).
    - [TokenStore] (auth/storage, audit.rs, manager.rs, inject.rs, and the fsutil functions
      they use): files with owner, mode and links, and numbered calls any of which may fail.
    - [Deadlines] (deadlines.rs), [Confine] (workspace/session/security/capabilities.rs,
      userns, namespace_cache.rs), [SandboxCache] (sandbox/cache, setup_cache.rs), [Cgroup]
      (sandbox/cgroup, workspace/runtime_limits.rs): the writes to cgroupfs in their order.
    - [Copy] (workspace/cp): copies between host and workspace, on a host file system
      whose paths are resolved through links.
    - [Firewall] (hostcmd, the iptables helpers of network/nat), [AntiSpoof]
      (network/nat/anti_spoof), [BridgeRules] (network/nat), [Network] (network/veth.rs,
      bridge.rs, teardown.rs, cleanup.rs, mod.rs).
    - [Publish] (network/publish: listeners, accept loop, connections), [StateLock]
      (daemon/state_lock.rs, active_operations.rs).
    - [Lifecycle]: every operation as one step of an interleaving; [Handlers]
      (daemon/dispatch: the requests, against an interface of operations that the
      files above implement; daemon/ports.rs); [Repair] (registry/repair).
    - [Client] (client.rs); [Config] (config.rs, enclavefile.rs, commands/config_defaults.rs,
      commands/daemon/start.rs, autostart.rs, cli/daemon.rs).

    ** How code becomes definitions

    A Rust function that mutates state and returns a [Result] is a function in [stm].
    What the host answers (a system call, a child process, a lock) is a field of a
    host record, so a theorem covers every combination of failures.  A registry
    transaction [write_txn] runs atomically; its save is lost, committed, or in place
    with an error reported, as after a directory sync or an unlock that fails ([commit]);
    and its [before] field is whatever other
    requests did since the previous one, so a theorem about an operation covers every
    interleaving of it with others; where a theorem needs the others to behave, it
    assumes that they take steps of [Fleet] ([env_safe]), which is what [Lifecycle]
    proves of all of them.  [Mode] says whether others are also assumed to reserve no second
    address for a workspace that is being started.  What the stop of a session answers and
    whether the session ended are two fields ([stop_answer]), since the code also answers
    success for runtimes it gave up on.  The process table and the cgroups of [Sessions]
    are functions of an observation counter.  Error texts are abridged; their codes are not.  Machine
    integers are [Z] with their bounds and casts written out.  JSON encoding is a
    codec with a round-trip law ([TotalCodec]); timestamps are parsed by a parameter.

    ** What the theorems show

    - Fleet: from an empty registry, whatever operations run and interleave, records
      stay under their ids, names are unique in a sandbox, disk stays within budget
      and, without a second start of a workspace being started, no two records hold one
      address ([Lifecycle]).
    - Requests: the sockets the daemon listens on are those filed under a workspace;
      publishing is strict or nothing, and ports follow the start and the stop of their
      workspace ([Handlers], [Publish]).
    - The sweep: it acts only on what qualifies in the state it acts in, as a relation
      between the states it goes through ([Sweeper]).
    - The daemon: at most one owns a state directory, and acquiring it ends ([StateLock]).
    - Operations: a start is all or nothing, as far as its rollback can be carried out, and
      respects the capacities; a stop never claims more than its steps reported; a destroy
      removes what it released and nothing else, whatever it reports; files and records go
      last; batches report exactly what they did.
    - Stores: reads are current and writes are atomic through cache, lock and file; after
      an error the new content may be in place.
    - Concurrency: leases exclude each other, do not deadlock, lose no wake-up and do not
      starve; the
      exec queue is one FIFO per workspace; the worker map ends with every result in
      its place.
    - Boundaries: requests pass every gate, limits parsed from any JSON are in range,
      rate windows hold, only runtimes are signalled, secrets are scrubbed, the mount
      table is read as the kernel writes it.
    - Commands: a pooled helper is free and, while no publication of a marker fails with the
      marker in place, unmarked and never cancelled; a cancel kills the groups its markers
      name and no others ([Helpers], [Cancel]); a command's
      result reaches the daemon however its bytes arrive, a command that returns is
      recorded when its record can be written, and a log is followed without loss ([Exec], [Logs]).
    - Network: a failed attach leaves nothing on the bridge and no rule or says so, and
      touches no other interface or rule, a
      teardown reports only what is gone, the rules of a bridge are in place in their
      order, and no address of another daemon on the bridge is given out ([BridgeRules],
      [AntiSpoof], [Network]).
    - Tokens: a stored token is what a load returns, none is replaced without force, no other
      is touched, and a workspace that made no link of its token directories
      gets exactly the tokens that resolve ([TokenStore]); secrets are scrubbed ([Auth]).
    - Isolation: capabilities are exactly those of the policy and the filter, run on the
      machine it is written for, refuses exactly the listed calls; a user namespace maps
      only delegated ids ([Confine]).  Every wait is bounded ([Deadlines]); a setup key
      covers everything a setup depends on ([SandboxCache]); limits are in force before a
      process is moved, and a removal waits a bounded time ([Cgroup]).
    - Configuration: a detached daemon runs with exactly the arguments that were resolved,
      an accepted config file is one a daemon starts with, a command that deletes state
      starts no daemon by itself ([Config]); an answer is reported with the category the
      daemon gave it, however its bytes arrive ([Client]).
    - Copies: whatever archive a workspace sends, a copy out of it changes nothing of the
      host but its destination ([Copy]).
    - Disks: a resize that succeeds is verified, one that fails restores the file
      ([DiskResize]); a restore swaps the trees or puts them back, a snapshot restores the
      files, directories and links it was taken of, and garbage collection removes the oldest ([Snapshots]).
    - Theorems about a defect state what the code does on the inputs that show it
      ([disconnect_leaks_share], [journal_failure_strands_start],
      [withdrawn_window_stops_pinned], [unreadable_runtime_is_abandoned],
      [other_interface_allowed], [metadata_follows_link], [linked_injection_escapes],
      [timeout_wakes_nobody], [unreadable_live_workspace_removed],
      [unconfirmed_marker_names_pooled] and others).

    ** Bounds and fuel

    Recursion is structural but for the migration loop, whose fuel is the distance to
    the current version (proved enough), the destroy loop, which the source bounds by
    eight attempts, the polling loops of a stop and of a cancel, whose number of
    polls is the deadline and is universally quantified, and the copy of a tree, whose
    fuel is the number of its entries (proved enough).  Reads and polls of a command are
    lists of answers, and the theorems hold for every list.

    ** Not modelled

    Modes, owners and extended attributes of the trees of [FileTree]; the interleaving of
    operations on job records ([Activity] takes each as one step).
    Code whose effect is a system call or a child process and that keeps no state of
    its own: namespaces, mounts, loop devices and the bytes
    the socket proxies copy; the programs [ip], [iptables] and [tar], whose documented
    effects are host records; the writing of the archive of a host directory and the name
    server files; the command line of other commands, display and doctor; logging and timers.  Handlers that only read or that run commands and copies
    are not modelled, and an answer is its content, not its JSON. *)
From stdpp Require Export base tactics list strings gmap sorting numbers.

Declare Scope enclave_scope.
Delimit Scope enclave_scope with enclave.
Open Scope enclave_scope.

#[global] Arguments String.append !_ _ / : simpl nomatch.

(** ** Errors (src/src/error.rs) *)

(** The machine readable category of a failure. *)
Inductive ErrorCode :=
  | InvalidRequest
  | NotFound
  | Conflict
  | RateLimited
  | PolicyDenied
  | Unsupported
  | Timeout
  | CleanupIncomplete
  | Internal.

#[export] Instance ErrorCode_eq_dec : EqDecision ErrorCode.
Proof. solve_decision. Defined.

(** The stable wire name of a code. *)
Definition error_code_as_str (c : ErrorCode) : string :=
  match c with
  | InvalidRequest => "invalid_request"
  | NotFound => "not_found"
  | Conflict => "conflict"
  | RateLimited => "rate_limited"
  | PolicyDenied => "policy_denied"
  | Unsupported => "unsupported"
  | Timeout => "timeout"
  | CleanupIncomplete => "cleanup_incomplete"
  | Internal => "internal"
  end.

(** An [anyhow] error: a chain whose head is the outermost context; a link is
    either a typed [Coded] error or a plain message.  Messages carry the
    constant part of the source's format string. *)
Inductive link :=
  | LCoded (code : ErrorCode) (message : string)
  | LPlain (message : string).

Definition error := list link.

Definition coded (code : ErrorCode) (message : string) : error := [LCoded code message].
Definition plain (message : string) : error := [LPlain message].
Definition context (message : string) (e : error) : error := LPlain message :: e.

(** The category of an error: the first coded link of the chain. *)
Fixpoint code_of (e : error) : ErrorCode :=
  match e with
  | [] => Internal
  | LCoded c _ :: _ => c
  | LPlain _ :: e' => code_of e'
  end.

(** ** Fallible computations *)

Inductive result (A : Type) :=
  | Ok (a : A)
  | Err (e : error).
Arguments Ok {A} a.
Arguments Err {A} e.

#[export] Instance result_ret : MRet result := λ A a, Ok a.
#[export] Instance result_bind : MBind result := λ A B f r,
  match r with Ok a => f a | Err e => Err e end.
#[export] Instance result_fmap : FMap result := λ A B f r,
  match r with Ok a => Ok (f a) | Err e => Err e end.

Definition bail {A} (message : string) : result A := Err (plain message).
Definition bail_coded {A} (code : ErrorCode) (message : string) : result A :=
  Err (coded code message).

Definition is_ok {A} (r : result A) : bool :=
  match r with Ok _ => true | Err _ => false end.
Definition is_err {A} (r : result A) : bool := negb (is_ok r).

(** [ok_or_else] *)
Definition ok_or {A} (o : option A) (e : error) : result A :=
  match o with Some a => Ok a | None => Err e end.

(** [with_context] *)
Definition with_context {A} (message : string) (r : result A) : result A :=
  match r with Ok a => Ok a | Err e => Err (context message e) end.

(** [Result::ok] *)
Definition result_ok {A} (r : result A) : option A :=
  match r with Ok a => Some a | Err _ => None end.

Lemma bind_Ok {A B} (r : result A) (f : A → result B) b :
  r ≫= f = Ok b ↔ ∃ a, r = Ok a ∧ f a = Ok b.
Proof. destruct r; cbn; naive_solver. Qed.

Lemma bind_Err {A B} (r : result A) (f : A → result B) e :
  r ≫= f = Err e ↔ r = Err e ∨ ∃ a, r = Ok a ∧ f a = Err e.
Proof. destruct r; cbn; naive_solver. Qed.

Lemma ok_or_Ok {A} (o : option A) e a : ok_or o e = Ok a ↔ o = Some a.
Proof. destruct o; cbn; naive_solver. Qed.

Lemma is_ok_true {A} (r : result A) : is_ok r = true ↔ ∃ a, r = Ok a.
Proof. destruct r; cbn; naive_solver. Qed.

(** Wrapping an error never changes its category. *)
Lemma code_of_context m e : code_of (context m e) = code_of e.
Proof. done. Qed.

(** ** Stateful fallible computations

    A Rust function that mutates shared state and returns a [Result] keeps the
    mutations it made before an early return, so the state is threaded through
    both outcomes. *)
Definition stm (S A : Type) : Type := S → result A * S.

#[export] Instance stm_ret {S} : MRet (stm S) := λ A a st, (Ok a, st).
#[export] Instance stm_bind {S} : MBind (stm S) := λ A B f m st,
  match m st with
  | (Ok a, st') => f a st'
  | (Err e, st') => (Err e, st')
  end.

Definition lift {S A} (r : result A) : stm S A := λ st, (r, st).
Definition throw {S A} (message : string) : stm S A := lift (bail message).
Definition get {S} : stm S S := λ st, (Ok st, st).
Definition gets {S A} (f : S → A) : stm S A := λ st, (Ok (f st), st).
Definition modify {S} (f : S → S) : stm S unit := λ st, (Ok tt, f st).

(** [assert ok message]: the [?] on a host call that either worked or did not. *)
Definition assert {S} (ok : bool) (message : string) : stm S unit :=
  if ok then mret tt else throw message.

(** The result of a computation as a value, for a caller that inspects it. *)
Definition catch {S A} (m : stm S A) : stm S (result A) := λ st, let '(r, st') := m st in (Ok r, st').

(** [to_string] of an error: its outermost message. *)
Definition error_text (e : error) : string :=
  match e with LPlain m :: _ | LCoded _ m :: _ => m | [] => "" end.

Lemma stm_bind_Ok {S A B} (m : stm S A) (f : A → stm S B) st b st'' :
  (m ≫= f) st = (Ok b, st'') ↔ ∃ a st', m st = (Ok a, st') ∧ f a st' = (Ok b, st'').
Proof.
  unfold mbind, stm_bind. destruct (m st) as [[a|e] st'] eqn:E; split.
  - naive_solver.
  - intros (? & ? & [= -> ->] & ?). done.
  - intros [=].
  - intros (? & ? & [=] & ?).
Qed.

Lemma stm_bind_Err {S A B} (m : stm S A) (f : A → stm S B) st e st'' :
  (m ≫= f) st = (Err e, st'') ↔
    m st = (Err e, st'') ∨ ∃ a st', m st = (Ok a, st') ∧ f a st' = (Err e, st'').
Proof.
  unfold mbind, stm_bind. destruct (m st) as [[a|e'] st'] eqn:E; split.
  - intros ?. right. eauto.
  - intros [[=]|(? & ? & [= -> ->] & ?)]. done.
  - intros [= -> ->]. by left.
  - intros [[= -> ->]|(? & ? & [=] & ?)]. done.
Qed.

Lemma stm_bind_cases {S A B} (m : stm S A) (f : A → stm S B) st res st' : (m ≫= f) st = (res, st') →
  (∃ a st1, m st = (Ok a, st1) ∧ f a st1 = (res, st')) ∨ (∃ e, m st = (Err e, st') ∧ res = Err e).
Proof. unfold mbind, stm_bind. destruct (m st) as [[a|e] st1]; [by left; eauto|]. intros [= <- <-]. by right; eauto. Qed.

Lemma lift_Ok {S A} (r : result A) (st : S) a st' :
  lift r st = (Ok a, st') ↔ r = Ok a ∧ st' = st.
Proof. unfold lift. split; [by intros [= -> ->]|by intros [-> ->]]. Qed.
Lemma mret_Ok {S A} (x : A) (st : S) a st' :
  (mret x : stm S A) st = (Ok a, st') ↔ a = x ∧ st' = st.
Proof. unfold mret, stm_ret. split; [by intros [= -> ->]|by intros [-> ->]]. Qed.
Lemma get_Ok {S} (st : S) a st' : get st = (Ok a, st') ↔ a = st ∧ st' = st.
Proof. unfold get. split; [intros H; injection H as <- <-; done|by intros [-> ->]]. Qed.
Lemma modify_Ok {S} (f : S → S) (st : S) a st' : modify f st = (Ok a, st') ↔ a = tt ∧ st' = f st.
Proof. unfold modify. destruct a. split; [intros H; injection H as <-; done|by intros [_ ->]]. Qed.
Lemma assert_Ok {S} ok message (st : S) a st' :
  assert ok message st = (Ok a, st') ↔ a = tt ∧ ok = true ∧ st' = st.
Proof.
  unfold assert. destruct ok, a.
  - rewrite mret_Ok. tauto.
  - split; [by intros [=]|by intros (_ & [=] & _)].
Qed.
Lemma throw_Ok {S A} message (st : S) (a : A) st' : throw message st = (Ok a, st') ↔ False.
Proof. split; [by intros [=]|done]. Qed.

(** Whether a run from [st] ends in [Ok]. *)
Definition succeeds {S A} (m : stm S A) (st : S) : bool := is_ok (fst (m st)).

(** A predicate every run of [m] preserves, whatever its outcome. *)
Definition preserves {S A} (P : S → Prop) (m : stm S A) : Prop :=
  ∀ st, P st → P (m st).2.

Lemma preserves_ret {S A} (P : S → Prop) (a : A) : preserves P (mret a : stm S A).
Proof. by intros st. Qed.
Lemma preserves_lift {S A} (P : S → Prop) (r : result A) : preserves P (lift r : stm S A).
Proof. by intros st. Qed.
Lemma preserves_gets {S A} (P : S → Prop) (f : S → A) : preserves P (gets f).
Proof. by intros st. Qed.
Lemma preserves_get {S} (P : S → Prop) : preserves P (@get S).
Proof. by intros st. Qed.
Lemma preserves_assert {S} (P : S → Prop) ok m : preserves P (@assert S ok m).
Proof. intros st. by destruct ok. Qed.
Lemma preserves_modify {S} (P : S → Prop) (f : S → S) :
  (∀ st, P st → P (f st)) → preserves P (modify f).
Proof. intros Hf st Hst. by apply Hf. Qed.
Lemma preserves_bind {S A B} (P : S → Prop) (m : stm S A) (f : A → stm S B) :
  preserves P m → (∀ a, preserves P (f a)) → preserves P (m ≫= f).
Proof.
  intros Hm Hf st Hst. unfold mbind, stm_bind. specialize (Hm st Hst).
  destruct (m st) as [[a|e] st']; [by apply Hf|done].
Qed.

(** ** Machine integers *)

Definition u8_max : Z := 255.
Definition u16_max : Z := 65535.
Definition u32_max : Z := 4294967295.
Definition u64_max : Z := 18446744073709551615.

(** [u64::saturating_add], [u64::saturating_mul], [u64::saturating_sub] *)
Definition sat_add64 (a b : Z) : Z := Z.min (a + b) u64_max.
Definition sat_mul64 (a b : Z) : Z := Z.min (a * b) u64_max.
Definition sat_sub64 (a b : Z) : Z := Z.max (a - b) 0.

(** [u64::div_ceil] *)
Definition div_ceil (a b : Z) : Z := ((a + b - 1) / b)%Z.

(** The two's complement reading of a 64-bit word: [x as i64]. *)
Definition as_i64 (x : Z) : Z :=
  let r := (x mod 2 ^ 64)%Z in if (2 ^ 63 <=? r)%Z then (r - 2 ^ 64)%Z else r.

Lemma sat_add64_small a b : (a + b ≤ u64_max)%Z → sat_add64 a b = (a + b)%Z.
Proof. unfold sat_add64. lia. Qed.

Lemma sat_add64_le_max a b : (sat_add64 a b ≤ u64_max)%Z.
Proof. unfold sat_add64. lia. Qed.

Lemma as_i64_small x : (0 ≤ x < 2 ^ 63)%Z → as_i64 x = x.
Proof.
  intros H. unfold as_i64. rewrite Z.mod_small by lia.
  destruct (Z.leb_spec (2 ^ 63) x); lia.
Qed.

Lemma as_i64_large x : (2 ^ 63 ≤ x < 2 ^ 64)%Z → (as_i64 x < 0)%Z.
Proof.
  intros H. unfold as_i64. rewrite Z.mod_small by lia.
  destruct (Z.leb_spec (2 ^ 63) x); lia.
Qed.

(** ** [BTreeMap] iteration order

    A [BTreeMap<String, V>] is a [gmap string V] together with the order its
    iterators use: ascending in the byte order of the keys. *)
Section btree.
Context {A : Type}.

Definition key_le (p q : string * A) : Prop := String.le p.1 q.1.

#[global] Instance key_le_dec : RelDecision key_le.
Proof. intros p q. unfold key_le. apply _. Defined.
#[global] Instance key_le_total : Total key_le.
Proof. intros p q. unfold key_le. apply (total String.le). Qed.
#[global] Instance key_le_trans : Transitive key_le.
Proof. intros p q r. unfold key_le. apply transitivity. Qed.

Definition btree_list (m : gmap string A) : list (string * A) :=
  merge_sort key_le (map_to_list m).
Definition btree_values (m : gmap string A) : list A := (btree_list m).*2.
Definition btree_keys (m : gmap string A) : list string := (btree_list m).*1.

Lemma btree_list_perm m : btree_list m ≡ₚ map_to_list m.
Proof. apply merge_sort_Permutation. Qed.

Lemma btree_list_sorted m : Sorted key_le (btree_list m).
Proof. apply Sorted_merge_sort, _. Qed.

Lemma elem_of_btree_list m k v : (k, v) ∈ btree_list m ↔ m !! k = Some v.
Proof. rewrite btree_list_perm. apply elem_of_map_to_list. Qed.

Lemma elem_of_btree_values m v : v ∈ btree_values m ↔ ∃ k, m !! k = Some v.
Proof.
  unfold btree_values. rewrite list_elem_of_fmap. split.
  - intros [[k v'] [-> H]]. exists k. by apply elem_of_btree_list.
  - intros [k H]. exists (k, v). by rewrite elem_of_btree_list.
Qed.

Lemma NoDup_btree_keys m : NoDup (btree_keys m).
Proof. unfold btree_keys. rewrite btree_list_perm. apply NoDup_fst_map_to_list. Qed.
End btree.

(** ** Sums over finite maps

    The invariants that tie a counter to the entries it counts are sums of a
    [nat] over the values of a map. *)
Section msum.
Context `{Countable K} {A : Type}.
Implicit Types (m : gmap K A) (f : A → nat).

Definition msum f m : nat := map_fold (λ _ x acc, f x + acc) 0 m.

Lemma msum_empty f : msum f ∅ = 0.
Proof. done. Qed.

Lemma msum_insert f m k x : m !! k = None → msum f (<[k := x]> m) = f x + msum f m.
Proof. intros Hk. apply (map_fold_insert_L (λ _ x acc, f x + acc)); [intros; lia|done]. Qed.

Lemma msum_delete f m k x : m !! k = Some x → msum f m = f x + msum f (delete k m).
Proof.
  intros Hk. rewrite <-(msum_insert f (delete k m) k x) by apply lookup_delete_eq.
  by rewrite insert_delete_id.
Qed.

Lemma msum_update f m k x y :
  m !! k = Some x → msum f (<[k := y]> m) + f x = msum f m + f y.
Proof.
  intros Hk. rewrite (msum_delete f m k x Hk), <-insert_delete_eq.
  rewrite msum_insert by apply lookup_delete_eq. lia.
Qed.

Lemma msum_le f m k x : m !! k = Some x → f x ≤ msum f m.
Proof. intros Hk. rewrite (msum_delete f m k x Hk). lia. Qed.

Lemma msum_le_two f m i j x y :
  i ≠ j → m !! i = Some x → m !! j = Some y → f x + f y ≤ msum f m.
Proof.
  intros Hij Hi Hj. rewrite (msum_delete f m i x Hi).
  assert (f y ≤ msum f (delete i m)); [|lia].
  apply (msum_le f _ j). by rewrite lookup_delete_ne.
Qed.

Lemma msum_pos f m : 0 < msum f m → ∃ k x, m !! k = Some x ∧ 0 < f x.
Proof.
  induction m as [|k x m Hk IH] using map_ind; [rewrite msum_empty; lia|].
  rewrite msum_insert by done. intros Hpos. destruct (decide (0 < f x)) as [?|?].
  - exists k, x. by rewrite lookup_insert_eq.
  - destruct IH as (k' & x' & Hk' & ?); [lia|]. exists k', x'. split; [|done].
    rewrite lookup_insert_ne; [done|]. intros ->. congruence.
Qed.

(** [entry(k).or_default()]-style updates, of a key that may be absent. *)
Lemma msum_upsert f m k y :
  msum f (<[k := y]> m) + from_option f 0 (m !! k) = msum f m + f y.
Proof.
  destruct (m !! k) as [x|] eqn:Hk; cbn.
  - by apply msum_update.
  - rewrite msum_insert by done. lia.
Qed.

Lemma msum_mono f g m m' :
  (∀ k y, m' !! k = Some y → ∃ x, m !! k = Some x ∧ g y ≤ f x) → msum g m' ≤ msum f m.
Proof.
  revert m. induction m' as [|k y m' Hk IH] using map_ind; intros m Hm.
  { rewrite msum_empty. lia. }
  destruct (Hm k y) as (x & Hx & Hle); [by rewrite lookup_insert_eq|].
  rewrite msum_insert, (msum_delete f m k x) by done.
  assert (msum g m' ≤ msum f (delete k m)); [|lia].
  apply IH. intros k' y' Hy'. assert (k ≠ k') by (intros ->; congruence).
  rewrite lookup_delete_ne by done. apply Hm. by rewrite lookup_insert_ne.
Qed.

Lemma msum_zero f m : (∀ k x, m !! k = Some x → f x = 0) → msum f m = 0.
Proof.
  intros Hz. destruct (decide (msum f m = 0)) as [|Hne]; [done|].
  destruct (msum_pos f m) as (k & x & Hk & ?); [lia|]. specialize (Hz k x Hk). lia.
Qed.
End msum.

(** ** Automation *)

(** Push a hypothesis about a chain of binds apart, one case per branch. *)
Ltac case_result :=
  repeat match goal with
  | H : mbind _ _ = Ok _ |- _ => apply bind_Ok in H as (? & ? & ?)
  | H : ok_or _ _ = Ok _ |- _ => apply ok_or_Ok in H
  | H : Ok _ = Ok _ |- _ => injection H as H
  | H : Ok _ = Err _ |- _ => discriminate H
  | H : Err _ = Ok _ |- _ => discriminate H
  end; simplify_eq/=.

(** Follow a successful stateful run through its binds, down to the calls it
    makes; [H] is left with the facts about the last one. *)
Ltac stm_inv H :=
  lazymatch type of H with
  | mbind _ _ _ = (Ok _, _) =>
      let H1 := fresh H in
      apply stm_bind_Ok in H as (? & ? & H1 & H); stm_inv H1; stm_inv H
  | lift _ _ = (Ok _, _) => apply lift_Ok in H as [H ->]
  | mret _ _ = (Ok _, _) => apply mret_Ok in H as [-> ->]
  | get _ = (Ok _, _) => apply get_Ok in H as [-> ->]
  | modify _ _ = (Ok _, _) => apply modify_Ok in H as [-> ->]
  | assert _ _ _ = (Ok _, _) => apply assert_Ok in H as [-> [H ->]]
  | throw _ _ = (Ok _, _) => by apply throw_Ok in H
  | _ => idtac
  end.

Create HintDb enclave.
Create Rewrite HintDb enclave_rw.
#[export] Hint Rewrite @bind_Ok @bind_Err @ok_or_Ok @is_ok_true : enclave_rw.
#[export] Hint Resolve preserves_ret preserves_lift preserves_gets preserves_get preserves_assert
  preserves_bind : enclave.
#[export] Hint Resolve sat_add64_le_max NoDup_btree_keys btree_list_sorted : enclave.

(** A predicate that only state changes of another kind could break. *)
Ltac solve_preserves :=
  repeat first
    [ apply preserves_bind; [|intros ?]
    | apply preserves_modify; by intros
    | solve [auto with enclave] ].
