(* ===== verification/RustStr.v ===== *)
(** * Rust strings

    A Rust [&str] is its UTF-8 byte sequence, a [string] here, so [len] is
    [String.length].  This file holds the operations of [str], of the integer
    parsers and of the [Display] of integers the sources use, with the lemmas
    the parsers and printers of the components share. *)
From S2P Require Import Prelude.
From Stdlib Require Export Ascii.

Implicit Types (s p : string) (c a b : ascii).

Definition byte_of (n : nat) : ascii := ascii_of_nat n.
Definition code (c : ascii) : nat := nat_of_ascii c.

Definition in_range (lo hi : ascii) (c : ascii) : bool :=
  (code lo <=? code c) && (code c <=? code hi).

(** [char::is_ascii_digit] and its companions.  A non-ASCII character is a
    sequence of bytes above 127, so a per-character test that only accepts ASCII
    is the same test per byte. *)
Definition is_ascii_digit : ascii → bool := in_range "0" "9".
Definition is_ascii_lowercase : ascii → bool := in_range "a" "z".
Definition is_ascii_uppercase : ascii → bool := in_range "A" "Z".
Definition is_ascii_alphanumeric (c : ascii) : bool :=
  is_ascii_digit c || is_ascii_lowercase c || is_ascii_uppercase c.

Definition ascii_lower (c : ascii) : ascii :=
  if is_ascii_uppercase c then byte_of (code c + 32) else c.
Definition ascii_upper (c : ascii) : ascii :=
  if is_ascii_lowercase c then byte_of (code c - 32) else c.

Fixpoint str_all (f : ascii → bool) s : bool :=
  match s with
  | EmptyString => true
  | String c s' => f c && str_all f s'
  end.

Fixpoint str_any (f : ascii → bool) s : bool :=
  match s with
  | EmptyString => false
  | String c s' => f c || str_any f s'
  end.

Fixpoint str_map (f : ascii → ascii) s : string :=
  match s with
  | EmptyString => EmptyString
  | String c s' => String (f c) (str_map f s')
  end.

Definition to_ascii_lowercase : string → string := str_map ascii_lower.
Definition to_ascii_uppercase : string → string := str_map ascii_upper.

(** [str::replace] with single-character patterns. *)
Definition replace_char (a b : ascii) : string → string :=
  str_map (λ c, if (c =? a)%char then b else c).

Fixpoint strip_prefix p s : option string :=
  match p, s with
  | EmptyString, _ => Some s
  | String a p', String b s' => if (a =? b)%char then strip_prefix p' s' else None
  | String _ _, EmptyString => None
  end.

Definition starts_with p s : bool :=
  match strip_prefix p s with Some _ => true | None => false end.

(** [str::strip_suffix] with a single character. *)
Fixpoint strip_suffix_char (c : ascii) s : option string :=
  match s with
  | EmptyString => None
  | String a EmptyString => if (a =? c)%char then Some EmptyString else None
  | String a s' => String a <$> strip_suffix_char c s'
  end.

(** [str::split] on a character: always at least one piece. *)
Fixpoint split (c : ascii) s : list string :=
  match s with
  | EmptyString => [EmptyString]
  | String a s' =>
      if (a =? c)%char then EmptyString :: split c s'
      else match split c s' with
           | h :: t => String a h :: t
           | [] => [String a EmptyString]
           end
  end.

(** [str::rsplit_once] on a character: around its last occurrence. *)
Fixpoint rsplit_once (c : ascii) s : option (string * string) :=
  match s with
  | EmptyString => None
  | String a s' =>
      match rsplit_once c s' with
      | Some (l, r) => Some (String a l, r)
      | None => if (a =? c)%char then Some (EmptyString, s') else None
      end
  end.

(** ** [str::trim]

    The characters with the Unicode [White_Space] property, by their UTF-8
    encodings. *)
Definition bytes (l : list nat) : string :=
  fold_right (λ n s, String (byte_of n) s) EmptyString l.

Definition white_space : list string :=
  (bytes <$> [[9]; [10]; [11]; [12]; [13]; [32]; [194; 133]; [194; 160]; [225; 154; 128];
     [226; 128; 168]; [226; 128; 169]; [226; 128; 175]; [226; 129; 159]; [227; 128; 128]])
  ++ ((λ n, bytes [226; 128; 128 + n]) <$> seq 0 11).

Fixpoint first_strip (ws : list string) s : option string :=
  match ws with
  | [] => None
  | w :: ws' => match strip_prefix w s with Some r => Some r | None => first_strip ws' s end
  end.

Fixpoint trim_start_fuel (ws : list string) (fuel : nat) s : string :=
  match fuel with
  | 0 => s
  | S fuel' =>
      match first_strip ws s with
      | Some r => trim_start_fuel ws fuel' r
      | None => s
      end
  end.

Fixpoint str_rev_app s acc : string :=
  match s with
  | EmptyString => acc
  | String c s' => str_rev_app s' (String c acc)
  end.
Definition str_rev s : string := str_rev_app s EmptyString.
Arguments str_rev _ : simpl never.

(** Each round removes at least one byte, so the length is enough fuel. *)
Definition trim_start s : string := trim_start_fuel white_space (String.length s) s.
Definition trim_end s : string :=
  str_rev (trim_start_fuel (str_rev <$> white_space) (String.length s) (str_rev s)).
Definition trim s : string := trim_end (trim_start s).

(** [str::contains] *)
Fixpoint str_contains (sub s : string) : bool :=
  starts_with sub s || match s with String _ s' => str_contains sub s' | EmptyString => false end.

(** [str::split_whitespace]; [word] is the word read so far. *)
Definition word_end (word : string) (rest : list string) : list string :=
  match word with EmptyString => rest | _ => word :: rest end.
Fixpoint split_whitespace_fuel (fuel : nat) (word s : string) : list string :=
  match fuel, s with
  | O, _ | _, EmptyString => word_end word []
  | S n, String c s' =>
      match first_strip white_space s with
      | Some rest => word_end word (split_whitespace_fuel n EmptyString rest)
      | None => split_whitespace_fuel n (word +:+ String c EmptyString) s'
      end
  end.
Definition split_whitespace s : list string := split_whitespace_fuel (String.length s) EmptyString s.

(** [str::lines] *)
Definition strip_cr s : string := default s (strip_suffix_char "013" s).
Definition lines s : list string :=
  let l := split "010" s in
  strip_cr <$> match reverse l with EmptyString :: r => reverse r | _ => l end.

(** ** Unsigned integers: [str::parse::<uN>] and [Display] *)

Definition digit_value (c : ascii) : option Z :=
  if is_ascii_digit c then Some (Z.of_nat (code c - 48)) else None.

(** The accumulation loop of [from_str_radix], with its overflow checks. *)
Fixpoint parse_digits (max acc : Z) s : option Z :=
  match s with
  | EmptyString => Some acc
  | String c s' =>
      match digit_value c with
      | Some d =>
          let acc' := (acc * 10 + d)%Z in
          if (acc' <=? max)%Z then parse_digits max acc' s' else None
      | None => None
      end
  end.

(** An optional [+], then at least one digit. *)
Definition parse_uint (max : Z) s : option Z :=
  match s with
  | EmptyString => None
  | String c s' =>
      if (c =? "+")%char then
        match s' with EmptyString => None | _ => parse_digits max 0 s' end
      else parse_digits max 0 s
  end.

Definition digit_char (d : Z) : ascii := byte_of (48 + Z.to_nat d).

Fixpoint print_fuel (fuel : nat) (n : Z) (acc : string) : string :=
  match fuel with
  | 0 => acc
  | S fuel' =>
      let acc' := String (digit_char (n mod 10)) acc in
      if (n <? 10)%Z then acc' else print_fuel fuel' (n / 10) acc'
  end.

(** The decimal rendering of an unsigned integer. *)
Definition print_uint (n : Z) : string := print_fuel (S (Z.to_nat (Z.log2 n))) n EmptyString.

(** ** [Ipv4Addr]: four decimal octets without leading zeros *)

Definition parse_octet s : option Z :=
  if (1 <=? String.length s) && (String.length s <=? 3) && str_all is_ascii_digit s then
    match s with
    | String "0" (String _ _) => None
    | _ => parse_digits u8_max 0 s
    end
  else None.

Definition parse_ipv4 s : option (Z * Z * Z * Z) :=
  match split "." s with
  | [a; b; c; d] =>
      a ← parse_octet a; b ← parse_octet b; c ← parse_octet c; d ← parse_octet d;
      Some (a, b, c, d)
  | _ => None
  end.

(** ** Lemmas *)

(** A closed statement about one byte, by its 256 cases. *)
Ltac by_byte := intros [[] [] [] [] [] [] [] []]; vm_compute; intuition (done || congruence).

Lemma str_app_assoc (s1 s2 s3 : string) : (s1 +:+ s2) +:+ s3 = s1 +:+ (s2 +:+ s3).
Proof. induction s1 as [|c s1 IH]; cbn; [done|]. by rewrite IH. Qed.

Lemma str_app_nil_r s : s +:+ EmptyString = s.
Proof. induction s as [|c s IH]; cbn; [done|]. by rewrite IH. Qed.

Lemma str_all_app f s1 s2 : str_all f (s1 +:+ s2) = str_all f s1 && str_all f s2.
Proof. induction s1 as [|c s1 IH]; cbn; [done|]. by rewrite IH, andb_assoc. Qed.

Lemma str_all_impl (f g : ascii → bool) s :
  (∀ c, f c = true → g c = true) → str_all f s = true → str_all g s = true.
Proof.
  intros Hfg. induction s as [|c s IH]; cbn; [done|].
  rewrite !andb_true_iff. naive_solver.
Qed.

Lemma str_map_length f s : String.length (str_map f s) = String.length s.
Proof. induction s; cbn; auto. Qed.

Lemma str_length_app (a b : string) : String.length (a +:+ b) = (String.length a + String.length b)%nat.
Proof. induction a as [|c a IH]; cbn; [done|]. by rewrite IH. Qed.
Lemma str_all_map f g s : str_all f (str_map g s) = str_all (λ c, f (g c)) s.
Proof. induction s as [|c s IH]; cbn; [done|]. by rewrite IH. Qed.

Lemma strip_prefix_Some p s r : strip_prefix p s = Some r ↔ s = p +:+ r.
Proof.
  revert s. induction p as [|a p IH]; intros s; cbn; [naive_solver|].
  destruct s as [|b s]; [naive_solver|].
  destruct (Ascii.eqb_spec a b) as [->|Hne]; [rewrite IH|]; naive_solver.
Qed.

Lemma starts_with_spec p s : starts_with p s = true ↔ ∃ r, s = p +:+ r.
Proof.
  unfold starts_with. setoid_rewrite <-strip_prefix_Some.
  destruct (strip_prefix p s); naive_solver.
Qed.

Lemma strip_suffix_char_Some c s r :
  strip_suffix_char c s = Some r ↔ s = r +:+ String c EmptyString.
Proof.
  revert r. induction s as [|a s IH]; intros r; [by destruct r|].
  cbn [strip_suffix_char]. destruct s as [|b s].
  - destruct (Ascii.eqb_spec a c) as [->|Hne]; destruct r as [|? []]; cbn;
      split; intros; simplify_eq/=; done.
  - rewrite fmap_Some. setoid_rewrite IH. split.
    + by intros (r' & -> & ->).
    + destruct r as [|a' r]; cbn; intros; simplify_eq/=. eauto.
Qed.

Section separators.
Context (c : ascii).

(** No occurrence of the separator. *)
Definition free s : bool := str_all (λ a, negb (a =? c)%char) s.

Lemma split_free s : free s = true → split c s = [s].
Proof.
  induction s as [|a s IH]; cbn; [done|]. intros [Ha Hs]%andb_true_iff.
  destruct (a =? c)%char; [done|]. by rewrite IH.
Qed.

Lemma split_app s1 s2 : free s1 = true → split c (s1 +:+ String c s2) = s1 :: split c s2.
Proof.
  induction s1 as [|a s IH]; cbn.
  - by rewrite Ascii.eqb_refl.
  - intros [Ha Hs]%andb_true_iff. destruct (a =? c)%char; [done|].
    by rewrite IH.
Qed.

Lemma rsplit_once_free s : free s = true → rsplit_once c s = None.
Proof.
  induction s as [|a s IH]; cbn; [done|]. intros [Ha Hs]%andb_true_iff.
  rewrite IH by done. by destruct (a =? c)%char.
Qed.

Lemma rsplit_once_app l r :
  free r = true → rsplit_once c (l +:+ String c r) = Some (l, r).
Proof.
  intros Hr. induction l as [|a l IH]; cbn.
  - rewrite rsplit_once_free by done. by rewrite Ascii.eqb_refl.
  - by rewrite IH.
Qed.

Lemma split_not_nil s : split c s ≠ [].
Proof. destruct s as [|a s]; cbn; [done|]. case_match; [done|]. by case_match. Qed.

Lemma rsplit_once_Some s l r :
  rsplit_once c s = Some (l, r) → s = l +:+ String c r ∧ free r = true.
Proof.
  revert l r. induction s as [|a s IH]; cbn; [done|]. intros l r.
  destruct (rsplit_once c s) as [[l' r']|] eqn:E; intros H.
  - simplify_eq/=. destruct (IH _ _ eq_refl) as [-> ?]. done.
  - destruct (Ascii.eqb_spec a c) as [->|]; simplify_eq/=. split; [done|].
    clear IH. revert E. unfold free. induction r as [|b r IH]; cbn; [done|].
    destruct (rsplit_once c r) as [[]|]; [done|].
    destruct (b =? c)%char; naive_solver.
Qed.
End separators.

(** Printable, non-blank ASCII. *)
Definition is_ascii_graphic (c : ascii) : bool := in_range "!" "~" c.

Lemma first_strip_graphic ws c s :
  forallb (λ w, match w with String b _ => negb (is_ascii_graphic b) | EmptyString => false end) ws
    = true →
  is_ascii_graphic c = true → first_strip ws (String c s) = None.
Proof.
  induction ws as [|w ws IH]; cbn; [done|]. intros [Hw Hws]%andb_true_iff Hc.
  destruct w as [|b w]; [done|]. cbn.
  destruct (Ascii.eqb_spec b c) as [->|]; [|by apply IH].
  by rewrite Hc in Hw.
Qed.

Lemma trim_start_fuel_graphic ws fuel s :
  forallb (λ w, match w with String b _ => negb (is_ascii_graphic b) | EmptyString => false end) ws
    = true →
  str_all is_ascii_graphic s = true → trim_start_fuel ws fuel s = s.
Proof.
  intros Hws Hs. destruct fuel as [|fuel]; [done|]. destruct s as [|c s]; cbn.
  - clear Hs. enough (first_strip ws EmptyString = None) as -> by done.
    induction ws as [|[|b w] ws IH]; cbn in *; [done..|]. apply IH.
    by apply andb_true_iff in Hws as [_ ?].
  - rewrite first_strip_graphic; [done..|]. by apply andb_true_iff in Hs as [? _].
Qed.

Lemma str_rev_app_spec s acc : str_rev_app s acc = str_rev s +:+ acc.
Proof.
  unfold str_rev. revert acc. induction s as [|c s IH]; intros acc; cbn; [done|].
  rewrite IH, (IH (String c EmptyString)), str_app_assoc. done.
Qed.

Lemma str_rev_cons c s : str_rev (String c s) = str_rev s +:+ String c EmptyString.
Proof. unfold str_rev. cbn. by rewrite str_rev_app_spec. Qed.

Lemma str_rev_snoc s c : str_rev (s +:+ String c EmptyString) = String c (str_rev s).
Proof. induction s as [|a s IH]; cbn; [done|]. by rewrite !str_rev_cons, IH. Qed.

Lemma str_rev_involutive s : str_rev (str_rev s) = s.
Proof. induction s as [|c s IH]; [done|]. by rewrite str_rev_cons, str_rev_snoc, IH. Qed.

Lemma str_rev_dist (s t : string) : str_rev (s +:+ t) = str_rev t +:+ str_rev s.
Proof.
  induction s as [|c s IH]; cbn; [by rewrite str_app_nil_r|]. by rewrite !str_rev_cons, IH, str_app_assoc.
Qed.

Lemma str_all_rev f s : str_all f (str_rev s) = str_all f s.
Proof.
  induction s as [|c s IH]; [done|]. rewrite str_rev_cons, str_all_app, IH. cbn.
  by rewrite andb_true_r, andb_comm.
Qed.

Lemma trim_graphic s : str_all is_ascii_graphic s = true → trim s = s.
Proof.
  intros Hs. unfold trim, trim_end, trim_start.
  rewrite (trim_start_fuel_graphic white_space) by (done || by vm_compute).
  rewrite trim_start_fuel_graphic; [by rewrite str_rev_involutive|by vm_compute|].
  by rewrite str_all_rev.
Qed.

(** Printing and parsing of unsigned integers. *)

Lemma digit_char_value d : (0 ≤ d < 10)%Z → digit_value (digit_char d) = Some d.
Proof.
  intros Hd. assert (d ∈ [0;1;2;3;4;5;6;7;8;9]%Z) as H by set_solver by lia.
  repeat (apply elem_of_cons in H as [->|H]; [done|]). by apply not_elem_of_nil in H.
Qed.

Lemma digit_char_is_digit d : (0 ≤ d < 10)%Z → is_ascii_digit (digit_char d) = true.
Proof.
  intros Hd%digit_char_value. unfold digit_value in Hd.
  by destruct (is_ascii_digit (digit_char d)).
Qed.

Lemma parse_print_fuel max fuel n rest :
  (0 ≤ n ≤ max)%Z → (n < 2 ^ Z.of_nat fuel)%Z → (0 < fuel) →
  parse_digits max 0 (print_fuel fuel n rest) = parse_digits max n rest.
Proof.
  revert n rest. induction fuel as [|fuel IH]; intros n rest Hn Hf Hpos; [lia|].
  cbn [print_fuel].
  pose proof (Z.mod_pos_bound n 10 ltac:(lia)) as Hm.
  destruct (Z.ltb_spec n 10) as [Hlt|Hge].
  - cbn [parse_digits]. rewrite digit_char_value by done.
    rewrite Z.mod_small by lia.
    destruct (Z.leb_spec (0 * 10 + n) max); [done|lia].
  - assert (2 ^ Z.of_nat (S fuel) = 2 * 2 ^ Z.of_nat fuel)%Z as Hpow.
    { rewrite Nat2Z.inj_succ, Z.pow_succ_r; lia. }
    assert (n / 10 < 2 ^ Z.of_nat fuel)%Z.
    { apply Z.div_lt_upper_bound; lia. }
    assert (1 ≤ n / 10)%Z by (apply Z.div_le_lower_bound; lia).
    rewrite IH; [|split; [lia|]|lia|].
    + cbn [parse_digits]. rewrite digit_char_value by done.
      replace (n / 10 * 10 + n mod 10)%Z with n by (pose proof (Z.div_mod n 10); lia).
      destruct (Z.leb_spec n max); [done|lia].
    + transitivity n; [|lia]. apply Z.div_le_upper_bound; lia.
    + destruct fuel; [|lia]. cbn in *. lia.
Qed.

Lemma print_fuel_app fuel n rest : print_fuel fuel n rest = print_fuel fuel n EmptyString +:+ rest.
Proof.
  revert n rest. induction fuel as [|fuel IH]; intros n rest; cbn [print_fuel]; [done|].
  case_match; [done|]. rewrite IH, (IH _ (String _ EmptyString)), str_app_assoc. done.
Qed.

Lemma print_fuel_digits fuel n rest :
  str_all is_ascii_digit rest = true → str_all is_ascii_digit (print_fuel fuel n rest) = true.
Proof.
  revert n rest. induction fuel as [|fuel IH]; intros n rest Hr; cbn [print_fuel]; [done|].
  pose proof (Z.mod_pos_bound n 10 ltac:(lia)).
  case_match; [|apply IH]; cbn [str_all]; by rewrite digit_char_is_digit.
Qed.

Lemma print_uint_digits n : str_all is_ascii_digit (print_uint n) = true.
Proof. by apply print_fuel_digits. Qed.

Lemma print_uint_not_empty n : print_uint n ≠ EmptyString.
Proof.
  unfold print_uint. cbn [print_fuel]. case_match; [done|].
  rewrite print_fuel_app. by destruct (print_fuel _ _ EmptyString).
Qed.

(** [parse] inverts [Display] on every value of the type. *)
Lemma parse_print_uint max n : (0 ≤ n ≤ max)%Z → parse_uint max (print_uint n) = Some n.
Proof.
  intros Hn. assert (parse_digits max 0 (print_uint n) = Some n) as Hp.
  { unfold print_uint. rewrite parse_print_fuel; [done|done| |lia].
    destruct (decide (n = 0%Z)) as [->|]; [done|].
    rewrite Nat2Z.inj_succ, Z2Nat.id by apply Z.log2_nonneg.
    apply Z.log2_spec. lia. }
  pose proof (print_uint_digits n) as Hd. pose proof (print_uint_not_empty n).
  destruct (print_uint n) as [|c s]; [done|]. cbn [parse_uint].
  destruct (Ascii.eqb_spec c "+") as [->|]; [done|]. done.
Qed.

Lemma parse_digits_bound max acc s n :
  (0 ≤ acc)%Z → parse_digits max acc s = Some n → (acc ≤ n)%Z ∧ (s = EmptyString ∨ n ≤ max)%Z.
Proof.
  revert acc. induction s as [|c s IH]; intros acc Hacc; cbn; [naive_solver lia|].
  unfold digit_value. destruct (is_ascii_digit c); [|done].
  destruct (Z.leb_spec (acc * 10 + Z.of_nat (code c - 48)) max); [|done].
  intros H'. destruct (IH (acc * 10 + Z.of_nat (code c - 48))%Z ltac:(lia) H') as [? [->|?]]; [|lia].
  cbn in H'. simplify_eq. lia.
Qed.

Lemma parse_uint_bound max s n : parse_uint max s = Some n → (0 ≤ n ≤ max)%Z.
Proof.
  destruct s as [|c s]; cbn [parse_uint]; [done|].
  destruct (c =? "+")%char; [destruct s; [done|]|];
    (intros H; apply parse_digits_bound in H as [? [?|?]]; naive_solver lia).
Qed.

(** Digit strings contain none of the separators the parsers split on. *)
Lemma digits_free c s :
  is_ascii_digit c = false → str_all is_ascii_digit s = true → free c s = true.
Proof.
  intros Hc. apply str_all_impl. intros a Ha.
  destruct (Ascii.eqb_spec a c) as [->|]; [congruence|done].
Qed.

Lemma digits_graphic s :
  str_all is_ascii_digit s = true → str_all is_ascii_graphic s = true.
Proof.
  apply str_all_impl. by_byte.
Qed.

(** Octets and dotted quads. *)

Lemma parse_octet_print n : (0 ≤ n < 256)%Z → parse_octet (print_uint n) = Some n.
Proof.
  intros Hn. replace n with (Z.of_nat (Z.to_nat n)) by lia.
  assert (Z.to_nat n < 256) as Hlt by lia. revert Hlt. generalize (Z.to_nat n). clear.
  intros k Hk.
  assert (forallb (λ k, bool_decide (parse_octet (print_uint (Z.of_nat k)) = Some (Z.of_nat k)))
            (seq 0 256) = true) as Hall by by vm_compute.
  rewrite forallb_forall in Hall. specialize (Hall k).
  rewrite bool_decide_eq_true in Hall. apply Hall, in_seq. lia.
Qed.

Definition print_ipv4 (a b c d : Z) : string :=
  print_uint a +:+ "." +:+ print_uint b +:+ "." +:+ print_uint c +:+ "." +:+ print_uint d.

Lemma parse_print_ipv4 (a b c d : Z) :
  (0 ≤ a < 256)%Z → (0 ≤ b < 256)%Z → (0 ≤ c < 256)%Z → (0 ≤ d < 256)%Z →
  parse_ipv4 (print_ipv4 a b c d) = Some (a, b, c, d).
Proof.
  intros Ha Hb Hc Hd. unfold parse_ipv4, print_ipv4. cbn [String.append].
  rewrite !split_app, split_free by (apply digits_free; [done|apply print_uint_digits]).
  by rewrite !parse_octet_print.
Qed.

Lemma parse_octet_bound s n : parse_octet s = Some n → (0 ≤ n < 256)%Z.
Proof.
  unfold parse_octet. destruct (_ && _) eqn:E; [|done].
  apply andb_true_iff in E as [[E%Nat.leb_le _]%andb_true_iff _].
  intros H. assert (parse_digits u8_max 0 s = Some n) as H'.
  { repeat case_match; simplify_eq/=; done. }
  apply parse_digits_bound in H' as [? [->|?]]; unfold u8_max in *; cbn in *; lia.
Qed.

Lemma parse_ipv4_bound s (a b c d : Z) :
  parse_ipv4 s = Some (a, b, c, d) → (0 ≤ d < 256)%Z.
Proof.
  unfold parse_ipv4. intros H. repeat case_match; simplify_eq/=.
  repeat match goal with
  | H : mbind _ _ = Some _ |- _ => apply bind_Some in H as (? & ? & ?)
  end. simplify_eq/=. by eapply parse_octet_bound.
Qed.
