(* ===== verification/Paths.v ===== *)
(** * Paths

    [std::path] as the program uses it: components, equality, [join] and
    [starts_with]. *)
From S2P Require Import Prelude RustStr.

(** Components: repeated and trailing separators and inner [.] components do not
    count; a leading empty component stands for the root. *)
Definition path_components (p : string) : list string :=
  if bool_decide (p = "") then []
  else match split "/" p with
       | [] => []
       | first :: rest => first :: filter (λ c, c ≠ "" ∧ c ≠ ".") rest
       end.

(** [Path == Path] *)
Definition path_eq (a b : string) : bool := bool_decide (path_components a = path_components b).

Definition ends_with_slash (p : string) : bool :=
  match strip_suffix_char "/" p with Some _ => true | None => false end.

(** [Path::join] *)
Definition path_join (base rel : string) : string :=
  if starts_with "/" rel then rel
  else if bool_decide (base = "") then rel
  else if ends_with_slash base then base +:+ rel
  else base +:+ String "/" rel.

(** [Path::starts_with]: whole components. *)
Definition path_starts_with (p prefix : string) : bool :=
  bool_decide (take (length (path_components prefix)) (path_components p) = path_components prefix).

(** A name that is one ordinary component. *)
Definition plain_name (s : string) : bool :=
  free "/" s && negb (bool_decide (s = "")) && negb (bool_decide (s = ".")) && negb (bool_decide (s = "..")).

Lemma split_app_any c (s1 s2 : string) :
  split c (s1 +:+ String c s2) = split c s1 ++ split c s2.
Proof.
  induction s1 as [|a s1 IH]; cbn.
  - by rewrite Ascii.eqb_refl.
  - rewrite IH. destruct (a =? c)%char; [done|].
    destruct (split c s1) as [|h t] eqn:E; [by destruct (split_not_nil c s1)|done].
Qed.

Lemma plain_name_facts s : plain_name s = true → free "/" s = true ∧ s ≠ "" ∧ s ≠ ".".
Proof.
  unfold plain_name. rewrite !andb_true_iff, !negb_true_iff, !bool_decide_eq_false. tauto.
Qed.

Lemma starts_with_slash_free s : free "/" s = true → starts_with "/" s = false.
Proof.
  intros Hf. apply not_true_iff_false. rewrite starts_with_spec. intros [r ->]. by cbn in Hf.
Qed.

(** Joining one ordinary name appends one component. *)
Lemma path_components_join base s :
  plain_name s = true → path_components (path_join base s) = path_components base ++ [s].
Proof.
  intros (Hf & He & Hd)%plain_name_facts. unfold path_join. rewrite starts_with_slash_free by done.
  case_bool_decide as Hb.
  { subst base. unfold path_components. rewrite bool_decide_eq_false_2 by done. by rewrite split_free. }
  assert (∀ b : string, b ≠ "" → path_components (b +:+ String "/" s) = path_components b ++ [s]) as Hmain.
  { intros b Hne. unfold path_components. rewrite !bool_decide_eq_false_2; [|done|by destruct b].
    rewrite split_app_any, (split_free "/" s) by done.
    destruct (split "/" b) as [|h t] eqn:E; [by destruct (split_not_nil "/" b)|]. cbn [app].
    rewrite list.filter_app, filter_cons_True by done. by rewrite app_comm_cons. }
  destruct (ends_with_slash base) eqn:Hs; [|by apply Hmain].
  unfold ends_with_slash in Hs. destruct (strip_suffix_char "/" base) as [b|] eqn:Hst; [|done].
  apply strip_suffix_char_Some in Hst. subst base. rewrite str_app_assoc. cbn.
  destruct (decide (b = "")) as [->|Hne].
  - cbn. unfold path_components. rewrite !bool_decide_eq_false_2 by done. cbn. rewrite split_free by done.
    by rewrite filter_cons_True.
  - rewrite Hmain by done. f_equal. unfold path_components.
    rewrite !bool_decide_eq_false_2; [|by destruct b|done]. rewrite split_app_any.
    destruct (split "/" b) as [|h t] eqn:E; [by destruct (split_not_nil "/" b)|]. cbn [app].
    rewrite list.filter_app. cbn. by rewrite app_nil_r.
Qed.
