(* ===== verification/FileStore.v ===== *)
(** * Files with a fingerprint cache

    Both the policy (src/src/policy/engine/cache.rs, store.rs) and the registry
    (src/src/registry/storage.rs) keep one JSON file and one process-wide cache
    entry that pairs a parsed value with the identity of the file it was parsed
    from.  This file holds what the two share: the file system they see, the
    interface to the JSON library, the cache, and the coherence invariant. *)
From S2P Require Import Prelude.

(** [serde_json] on one type, as an interface: a value JSON can represent parses
    back to itself once printed (a floating point NaN is printed as null, so
    not every value of every type is one). *)
Class Codec (A raw : Type) := {
  encode : A → raw;
  decode : raw → option A;
  printable : A → Prop;
  decode_encode a : printable a → decode (encode a) = Some a;
}.

(** A type all of whose values JSON can represent. *)
Class TotalCodec (A raw : Type) := {
  #[global] total_codec :: Codec A raw;
  all_printable a : printable a;
}.

(** Device, inode, size and modification time of a file. *)
Record fingerprint := Fingerprint {
  device : Z;
  inode : Z;
  size : Z;
  modified_seconds : Z;
  modified_nanos : Z;
}.

#[export] Instance fingerprint_eq_dec : EqDecision fingerprint.
Proof. solve_decision. Defined.

Record file (raw : Type) := File {
  content : raw;
  meta : fingerprint;
  mode : Z;
}.
Arguments File {raw} _ _ _.
Arguments content {raw} _.
Arguments meta {raw} _.
Arguments mode {raw} _.

Record cache_entry (A : Type) := CacheEntry {
  entry_path : string;
  entry_fingerprint : fingerprint;
  entry_value : A;
}.
Arguments CacheEntry {A} _ _ _.
Arguments entry_path {A} _.
Arguments entry_fingerprint {A} _.
Arguments entry_value {A} _.

(** The file system and the process-wide cache slot. *)
Record fstore (raw A : Type) := FStore {
  files : gmap string (file raw);
  cache : option (cache_entry A);
}.
Arguments FStore {raw A} _ _.
Arguments files {raw A} _.
Arguments cache {raw A} _.

Section store.
Context {A raw : Type} `{!Codec A raw} (load : raw → option A).
Implicit Types (st : fstore raw A) (p : string).

Definition set_file p (f : file raw) st : fstore raw A :=
  FStore (<[p := f]> (files st)) (cache st).
Definition set_cache (c : option (cache_entry A)) st : fstore raw A :=
  FStore (files st) c.

(** The rename of [write_file_atomic]: the content appears under a new identity
    [fp]. *)
Definition write_file p (a : A) (m : Z) (fp : fingerprint) : fstore raw A → fstore raw A :=
  set_file p (File (encode a) fp m).

(** [write_file_atomic]: [renamed] is the identity of the new file, when the
    write got as far as the rename; [synced], whether the directory could be
    synced after it.  A failed sync reports an error with the new file in
    place. *)
Definition write_file_atomic (renamed : option fingerprint) (synced : bool) p (a : A) (m : Z)
    : stm (fstore raw A) unit :=
  match renamed with
  | None => throw "failed to write the file"
  | Some fp => modify (write_file p a m fp);; assert synced "failed to fsync directory"
  end.

(** The cached value, when the entry is for this path and this file. *)
Definition cache_hit p (fp : fingerprint) st : option A :=
  match cache st with
  | Some e =>
      if bool_decide (entry_path e = p) && bool_decide (entry_fingerprint e = fp)
      then Some (entry_value e) else None
  | None => None
  end.

(** The value a reader that ignores the cache would load. *)
Definition loaded p st : option A := f ← files st !! p; load (content f).

(** A cache entry whose identity is the current file's holds what that file
    loads as. *)
Definition coherent_by st : Prop :=
  ∀ e f, cache st = Some e → files st !! entry_path e = Some f →
    meta f = entry_fingerprint e → load (content f) = Some (entry_value e).

(** A replaced file gets an identity the cache has not seen. *)
Definition fresh_fp p (fp : fingerprint) st : Prop :=
  ∀ e, cache st = Some e → entry_path e = p → entry_fingerprint e ≠ fp.

Lemma coherent_hit p f st a :
  coherent_by st → files st !! p = Some f → cache_hit p (meta f) st = Some a →
  loaded p st = Some a.
Proof.
  intros Hc Hf. unfold cache_hit, loaded. rewrite Hf. cbn.
  destruct (cache st) as [e|] eqn:He; [|done].
  case_bool_decide as Hp; [|done]. case_bool_decide as Hfp; [|done]. cbn.
  intros [= <-]. subst p. by apply (Hc e f).
Qed.

Lemma coherent_set_file p f st :
  coherent_by st → fresh_fp p (meta f) st → coherent_by (set_file p f st).
Proof.
  intros Hc Hfr e f' He. unfold set_file in *. cbn in *.
  destruct (decide (entry_path e = p)) as [<-|Hne].
  - rewrite lookup_insert_eq. intros [= <-] Hm. by destruct (Hfr e He eq_refl).
  - rewrite lookup_insert_ne by done. by apply Hc.
Qed.

Lemma coherent_set_cache p f a st :
  files st !! p = Some f → load (content f) = Some a →
  coherent_by (set_cache (Some (CacheEntry p (meta f) a)) st).
Proof. intros Hf Ha e f' [= <-]. cbn. intros. by simplify_eq. Qed.

(** Changing only the permission bits keeps the identity and the content. *)
Lemma coherent_chmod p f m st :
  coherent_by st → files st !! p = Some f →
  coherent_by (set_file p (File (content f) (meta f) m) st).
Proof.
  intros Hc Hf e f' He. cbn. destruct (decide (entry_path e = p)) as [<-|Hne].
  - rewrite lookup_insert_eq. intros [= <-]. cbn. by apply Hc.
  - rewrite lookup_insert_ne by done. by apply Hc.
Qed.
End store.

(** [with_file_lock]: an operation under the lock; an unlock that fails turns its
    success into an error. *)
Definition with_file_lock {S T} (locked unlocked : bool) (operation : stm S T) : stm S T := λ st,
  if negb locked then (bail "failed to lock", st)
  else
    match operation st with
    | (Ok value, st') => (if unlocked then Ok value else bail "failed to unlock", st')
    | (Err e, st') => (if unlocked then Err e else with_context "failed to unlock" (Err e), st')
    end.

Arguments coherent_hit {A raw load} _ _ _ _ _ _ _.
Arguments coherent_set_file {A raw load} _ _ _ _ _.
Arguments coherent_set_cache {A raw load} _ _ _ _ _ _.
Arguments coherent_chmod {A raw load} _ _ _ _ _ _.

Abbreviation parsed := (loaded decode).
Abbreviation coherent := (coherent_by decode).

#[export] Hint Resolve coherent_set_file coherent_set_cache coherent_chmod : enclave.

(** A codec whose documents are the values themselves, for concrete runs. *)
Definition identity_codec (A : Type) : Codec A A :=
  {| encode := λ a, a; decode := Some; printable := λ _, True; decode_encode := λ a _, eq_refl |}.
Definition identity_total (A : Type) : TotalCodec A A :=
  {| total_codec := identity_codec A; all_printable := λ _, I |}.
