(* ===== verification/Policy.v ===== *)
(** * The policy engine (src/src/policy)

    Who may run which action: the decision procedure, the rule edits, the
    policy file with its fingerprint cache, and the authorization of one
    request. *)
From S2P Require Import Prelude RustStr FileStore.

(** ** Data (policy/types.rs) *)

Definition POLICY_VERSION : Z := 1.

Record PolicyRule := mkRule {
  rule_uid : option Z;
  rule_allow : list string;
  rule_deny : list string;
}.

Record Policy := mkPolicy {
  policy_version : Z;
  default_allow : bool;
  rules : list PolicyRule;
}.

Definition default_policy : Policy := mkPolicy POLICY_VERSION true [].

#[export] Instance PolicyRule_eq_dec : EqDecision PolicyRule.
Proof. solve_decision. Defined.
#[export] Instance Policy_eq_dec : EqDecision Policy.
Proof. solve_decision. Defined.

(** ** The decision (policy/engine/decision.rs) *)

Definition matches_pattern (pattern action : string) : bool :=
  if bool_decide (pattern = "*") then true
  else match strip_suffix_char "*" pattern with
       | Some prefix => starts_with prefix action
       | None => bool_decide (action = pattern)
       end.

Definition denies (action : string) (r : PolicyRule) : bool :=
  existsb (λ p, matches_pattern p action) (rule_deny r).
Definition allows (action : string) (r : PolicyRule) : bool :=
  existsb (λ p, matches_pattern p action) (rule_allow r).

(** The loop over one group: the first deny answers, an allow is remembered. *)
Fixpoint rule_group_loop (group : list PolicyRule) (action : string) (allow_matched : bool)
    : option bool :=
  match group with
  | [] => if allow_matched then Some true else None
  | r :: group' =>
      if denies action r then Some false
      else rule_group_loop group' action (if allows action r then true else allow_matched)
  end.

Definition evaluate_rule_group (group : list PolicyRule) (action : string) : option bool :=
  rule_group_loop group action false.

Definition evaluate_policy_decision (policy : Policy) (uid : Z) (action : string) : option bool :=
  match evaluate_rule_group (filter (λ r, rule_uid r = Some uid) (rules policy)) action with
  | Some decision => Some decision
  | None => evaluate_rule_group (filter (λ r, rule_uid r = None) (rules policy)) action
  end.

(** ** Authorization of one request (policy/engine/authorize.rs) *)

Definition POLICY_EXEMPT_ACTIONS : list string :=
  ["ping"; "shutdown"; "daemon.health"; "policy.get"].
Definition ROOT_ONLY_ACTIONS : list string :=
  ["policy.set_default"; "policy.allow"; "policy.deny"; "policy.clear"].

Definition is_policy_exempt (action : string) : bool :=
  bool_decide (action ∈ POLICY_EXEMPT_ACTIONS).
Definition is_root_only (action : string) : bool :=
  bool_decide (action ∈ ROOT_ONLY_ACTIONS).

(** What one call finds on the host: whether each system call it may make
    succeeds, and the identity a written file gets. *)
Record io := mkIo {
  io_mkdir : bool;
  io_stat : bool;
  io_read : bool;
  io_chmod : bool;
  io_lock : bool;
  io_cache_lock : bool;
  io_init_write : option fingerprint;
  io_write : option fingerprint;
  io_synced : bool;
}.

Section store.
Context {raw : Type} `{!TotalCodec Policy raw}.
Abbreviation store := (fstore raw Policy).
Implicit Types (dir path : string) (h : io).

(** ** The policy file (policy/engine/store.rs, cache.rs) *)

Definition policy_path dir : string := dir +:+ "/policy.json".

Definition policy_fingerprint h path : stm store fingerprint :=
  o ← gets (λ st, files st !! path);
  match o with
  | Some f => if io_stat h then mret (meta f) else throw "failed to stat policy"
  | None => throw "failed to stat policy"
  end.

Definition cached_policy h path : stm store (option Policy) :=
  fp ← policy_fingerprint h path;
  if io_cache_lock h then gets (cache_hit path fp) else mret None.

Definition update_policy_cache h path (policy : Policy) : stm store unit :=
  fp ← policy_fingerprint h path;
  if io_cache_lock h then modify (set_cache (Some (CacheEntry path fp policy))) else mret tt.

Definition ensure_policy_permissions h path : stm store unit :=
  o ← gets (λ st, files st !! path);
  match o with
  | None => throw "failed to stat"
  | Some f =>
      assert (io_stat h) "failed to stat";;
      if bool_decide (Z.land (mode f) 511 = 384%Z) then mret tt
      else assert (io_chmod h) "failed to set mode";;
           modify (set_file path (File (content f) (meta f) 384))
  end.

Definition save_policy_unlocked h (w : option fingerprint) dir (policy : Policy)
    : stm store unit :=
  assert (io_mkdir h) "failed to create state dir";;
  write_file_atomic w (io_synced h) (policy_path dir) policy 384;;
  ensure_policy_permissions h (policy_path dir).

Definition load_policy_unlocked h dir : stm store Policy :=
  o ← gets (λ st, files st !! policy_path dir);
  match o with
  | None => throw "failed to read policy"
  | Some f =>
      assert (io_read h) "failed to read policy";;
      lift (ok_or (decode (content f)) (plain "invalid policy"))
  end.

Definition ensure_policy h dir : stm store unit :=
  assert (io_mkdir h) "failed to create state dir";;
  o ← gets (λ st, files st !! policy_path dir);
  match o with
  | Some _ => ensure_policy_permissions h (policy_path dir)
  | None =>
      assert (io_lock h) "failed to lock";;
      save_policy_unlocked h (io_init_write h) dir default_policy;;
      ensure_policy_permissions h (policy_path dir)
  end.

Definition with_policy {T} h dir (operation : Policy → result T) : stm store T :=
  ensure_policy h dir;;
  hit ← cached_policy h (policy_path dir);
  match hit with
  | Some policy => lift (operation policy)
  | None =>
      assert (io_lock h) "failed to lock";;
      policy ← load_policy_unlocked h dir;
      update_policy_cache h (policy_path dir) policy;;
      lift (operation policy)
  end.

Definition with_policy_mut {T} h dir (operation : Policy → result (Policy * T))
    : stm store T :=
  ensure_policy h dir;;
  assert (io_lock h) "failed to lock";;
  policy ← load_policy_unlocked h dir;
  r ← lift (operation policy);
  save_policy_unlocked h (io_write h) dir r.1;;
  update_policy_cache h (policy_path dir) r.1;;
  mret r.2.

Definition load_policy h dir : stm store Policy := with_policy h dir Ok.

Definition authorize h dir (uid : Z) (action : string) : stm store unit :=
  if bool_decide (uid = 0%Z) then mret tt
  else if is_root_only action then throw "policy denied action: restricted to root"
  else if is_policy_exempt action then mret tt
  else
    policy ← load_policy h dir;
    match evaluate_policy_decision policy uid action with
    | Some true => mret tt
    | Some false => throw "policy denied action"
    | None =>
        if default_allow policy then mret tt else throw "policy denied action (default deny)"
    end.

(** ** Rule edits (policy/engine/rules.rs) *)

Definition validate_action_pattern (action : string) : result unit :=
  if (String.length action =? 0) || (120 <? String.length action)
  then bail "action pattern must be 1-120 characters"
  else if str_all (λ c, is_ascii_alphanumeric c || bool_decide (c ∈ [".";"*";"_";"-"]%char)) action
  then Ok tt
  else bail "action pattern contains invalid character".

Definition upsert_in_rule (action : string) (is_allow : bool) (r : PolicyRule) : PolicyRule :=
  let push l := if bool_decide (action ∈ l) then l else l ++ [action] in
  let drop l := filter (λ x, x ≠ action) l in
  if is_allow then mkRule (rule_uid r) (push (rule_allow r)) (drop (rule_deny r))
  else mkRule (rule_uid r) (drop (rule_allow r)) (push (rule_deny r)).

(** The loop of [upsert_rule]: the first rule of this uid is edited, and a rule
    is appended when there is none. *)
Fixpoint upsert_rules (uid : option Z) (action : string) (is_allow : bool)
    (rs : list PolicyRule) : list PolicyRule :=
  match rs with
  | [] => [if is_allow then mkRule uid [action] [] else mkRule uid [] [action]]
  | r :: rs' =>
      if bool_decide (rule_uid r = uid) then upsert_in_rule action is_allow r :: rs'
      else r :: upsert_rules uid action is_allow rs'
  end.

Definition set_rules (policy : Policy) (rs : list PolicyRule) : Policy :=
  mkPolicy (policy_version policy) (default_allow policy) rs.

Definition edited (f : Policy → Policy) (policy : Policy) : result (Policy * Policy) :=
  Ok (f policy, f policy).

Definition upsert_rule h dir (uid : option Z) (action : string) (is_allow : bool)
    : stm store Policy :=
  lift (validate_action_pattern action);;
  with_policy_mut h dir
    (edited (λ p, set_rules p (upsert_rules uid action is_allow (rules p)))).

Definition add_allow_rule h dir uid action := upsert_rule h dir uid action true.
Definition add_deny_rule h dir uid action := upsert_rule h dir uid action false.

Definition set_default_allow h dir (b : bool) : stm store Policy :=
  with_policy_mut h dir (edited (λ p, mkPolicy (policy_version p) b (rules p))).

Definition clear_rules h dir (uid : option Z) : stm store Policy :=
  with_policy_mut h dir (edited (λ p,
    set_rules p match uid with
                | Some target => filter (λ r, rule_uid r ≠ Some target) (rules p)
                | None => []
                end)).
End store.

(** ** The decision procedure is order independent *)

Lemma rule_group_loop_spec group action b :
  rule_group_loop group action b =
    if existsb (denies action) group then Some false
    else if b || existsb (allows action) group then Some true else None.
Proof.
  revert b. induction group as [|r group IH]; intros b; cbn.
  - by rewrite orb_false_r.
  - destruct (denies action r); [done|]. rewrite IH. cbn.
    destruct (allows action r), b; done.
Qed.

Lemma evaluate_rule_group_spec group action :
  evaluate_rule_group group action =
    if existsb (denies action) group then Some false
    else if existsb (allows action) group then Some true else None.
Proof. apply rule_group_loop_spec. Qed.

Lemma existsb_elem_of {A} (f : A → bool) l : existsb f l = true ↔ ∃ x, x ∈ l ∧ f x = true.
Proof. rewrite existsb_exists. by setoid_rewrite list_elem_of_In. Qed.

#[export] Instance existsb_proper {A} (f : A → bool) : Proper ((≡ₚ) ==> (=)) (existsb f).
Proof.
  intros l k Hlk. apply eq_true_iff_eq. rewrite !existsb_elem_of. by setoid_rewrite Hlk.
Qed.

#[export] Instance evaluate_rule_group_proper :
  Proper ((≡ₚ) ==> (=) ==> (=)) evaluate_rule_group.
Proof. intros g g' Hg a a' <-. by rewrite !evaluate_rule_group_spec, !(existsb_proper _ _ _ Hg). Qed.

(** The decision for a uid and an action does not depend on the order in
    which the rules were added: two policies whose rules are permutations of
    each other decide every request alike. *)
Theorem decision_order_independent p p' uid action :
  rules p ≡ₚ rules p' →
  evaluate_policy_decision p uid action = evaluate_policy_decision p' uid action.
Proof. intros Hp. unfold evaluate_policy_decision.
  by rewrite !(evaluate_rule_group_proper _ _ (filter_Permutation _ _ _ Hp) _ _ eq_refl). Qed.

Lemma decision_order_independent_witness :
  evaluate_policy_decision (mkPolicy 1 true [mkRule None ["*"] []; mkRule None [] ["workspace.*"]])
    7 "workspace.stop" =
  evaluate_policy_decision (mkPolicy 1 true [mkRule None [] ["workspace.*"]; mkRule None ["*"] []])
    7 "workspace.stop".
Proof. apply decision_order_independent. cbn. apply perm_swap. Defined.

(** What a policy promises: a rule of the uid's own beats a wildcard one, a deny
    beats an allow at the same specificity, and the default answers the rest. *)
Definition permitted (p : Policy) (uid : Z) (action : string) : Prop :=
  let own f := ∃ r, r ∈ rules p ∧ rule_uid r = Some uid ∧ f action r = true in
  let wild f := ∃ r, r ∈ rules p ∧ rule_uid r = None ∧ f action r = true in
  ¬ own denies ∧ (own allows ∨ (¬ wild denies ∧ (wild allows ∨ default_allow p = true))).

Lemma existsb_group (f : PolicyRule → bool) (P : PolicyRule → Prop) `{∀ r, Decision (P r)} rs :
  existsb f (filter P rs) = true ↔ ∃ r, r ∈ rs ∧ P r ∧ f r = true.
Proof. rewrite existsb_elem_of. setoid_rewrite list_elem_of_filter. naive_solver. Qed.

Lemma decision_permitted p uid action :
  default (default_allow p) (evaluate_policy_decision p uid action) = true ↔
    permitted p uid action.
Proof.
  unfold evaluate_policy_decision, permitted. rewrite !evaluate_rule_group_spec.
  rewrite <-(existsb_group (denies action) (λ r, rule_uid r = Some uid)).
  rewrite <-(existsb_group (allows action) (λ r, rule_uid r = Some uid)).
  rewrite <-(existsb_group (denies action) (λ r, rule_uid r = None)).
  rewrite <-(existsb_group (allows action) (λ r, rule_uid r = None)).
  repeat (destruct (existsb _ _)); destruct (default_allow p); cbn; intuition congruence.
Qed.

(** ** The policy file and its cache *)

Section store_facts.
Context {raw : Type} `{!TotalCodec Policy raw}.
Abbreviation store := (fstore raw Policy).
Implicit Types (dir path : string) (h : io) (st : store).

(** Every host call of the request succeeds. *)
Definition healthy h : Prop :=
  io_mkdir h = true ∧ io_stat h = true ∧ io_read h = true ∧ io_chmod h = true ∧
  io_lock h = true ∧ io_cache_lock h = true.

(** The identities the request's writes get are not the cached one. *)
Definition fresh_io h dir st : Prop :=
  (∀ fp, io_init_write h = Some fp → fresh_fp (policy_path dir) fp st) ∧
  (∀ fp, io_write h = Some fp → fresh_fp (policy_path dir) fp st).

Definition chmod path f m st : store := set_file path (File (content f) (meta f) m) st.

Lemma parsed_chmod path (f : file raw) m st :
  files st !! path = Some f → parsed path (chmod path f m st) = parsed path st.
Proof. intros Hf. unfold loaded, chmod. cbn. by rewrite lookup_insert_eq, Hf. Qed.

Lemma permissions_healthy h path (f : file raw) st :
  healthy h → files st !! path = Some f →
  ∃ m, ensure_policy_permissions h path st = (Ok tt, chmod path f m st).
Proof.
  intros (?&Hs&?&Hc&_) Hf. unfold ensure_policy_permissions.
  cbn. unfold mbind, stm_bind. cbn. rewrite Hf, Hs. cbn. case_bool_decide; cbn.
  - exists (mode f). unfold chmod, set_file. destruct st as [fs c], f. cbn in *.
    by rewrite insert_id.
  - rewrite Hc. cbn. by eexists.
Qed.

Lemma ensure_healthy h dir (f : file raw) st :
  healthy h → files st !! policy_path dir = Some f →
  ∃ m, ensure_policy h dir st = (Ok tt, chmod (policy_path dir) f m st).
Proof.
  intros Hh Hf. destruct (permissions_healthy h (policy_path dir) f st Hh Hf) as [m Hm].
  exists m. destruct Hh as (Hmk&_). unfold ensure_policy, mbind, stm_bind. rewrite Hmk. cbn.
  by rewrite Hf.
Qed.

(** A read answers with what the file holds, whether or not the cache does. *)
Lemma with_policy_healthy {T} h dir (op : Policy → result T) p st :
  healthy h → coherent st → parsed (policy_path dir) st = Some p →
  ∃ st', with_policy h dir op st = (op p, st') ∧
    parsed (policy_path dir) st' = Some p ∧ coherent st'.
Proof.
  intros Hh Hc Hp. pose proof Hp as Hp'.
  unfold loaded in Hp'. apply bind_Some in Hp' as (f & Hf & Hdec).
  destruct (ensure_healthy h dir f st Hh Hf) as [m Hm].
  destruct Hh as (?&Hs&Hr&?&Hl&Hcl).
  set (st1 := chmod (policy_path dir) f m st) in *.
  assert (coherent st1) as Hc1 by by apply coherent_chmod.
  assert (parsed (policy_path dir) st1 = Some p) as Hp1 by by (unfold st1; rewrite parsed_chmod).
  assert (files st1 !! policy_path dir = Some (File (content f) (meta f) m)) as Hf1
    by (cbn; apply lookup_insert_eq).
  unfold with_policy, mbind, stm_bind. rewrite Hm. cbn -[st1 decode].
  unfold cached_policy, policy_fingerprint, mbind, stm_bind. cbn -[st1 decode].
  rewrite Hf1, Hs. cbn -[st1 decode]. rewrite Hcl. cbn -[st1 decode].
  destruct (cache_hit (policy_path dir) (meta f) st1) as [a|] eqn:Hhit.
  - cbn -[st1]. exists st1. pose proof (coherent_hit _ _ _ _ Hc1 Hf1 Hhit). by simplify_eq.
  - cbn -[st1 decode]. rewrite Hl. cbn -[st1 decode].
    unfold load_policy_unlocked, mbind, stm_bind. cbn -[st1 decode].
    rewrite Hf1. cbn -[st1 decode]. rewrite Hr. cbn -[st1 decode]. rewrite Hdec. cbn -[st1 decode].
    unfold update_policy_cache, policy_fingerprint, mbind, stm_bind. cbn -[st1 decode].
    rewrite Hf1, Hs. cbn -[st1 decode]. rewrite Hcl. cbn -[st1 decode].
    eexists. split; [done|]. split.
    + unfold loaded. cbn -[st1 decode]. by rewrite Hf1.
    + by apply (coherent_set_cache _ (File (content f) (meta f) m)).
Qed.

(** Steps that leave the cache slot alone and keep coherence. *)
Definition keeps st st' : Prop := (coherent st → coherent st') ∧ cache st' = cache st.

Lemma permissions_effect h path st r st' :
  ensure_policy_permissions h path st = (r, st') →
  keeps st st' ∧ parsed path st' = parsed path st.
Proof.
  unfold ensure_policy_permissions, mbind, stm_bind, keeps. cbn.
  destruct (files st !! path) as [f|] eqn:Hf; [|by intros [= <- <-]]. cbn.
  destruct (io_stat h); [|by intros [= <- <-]]. cbn.
  case_bool_decide; [by intros [= <- <-]|]. cbn.
  destruct (io_chmod h); intros [= <- <-]; cbn; [|done].
  split; [|by apply (parsed_chmod path f)].
  split; [intros; by apply coherent_chmod|done].
Qed.

Lemma save_effect h w dir p st r st' :
  (∀ fp, w = Some fp → fresh_fp (policy_path dir) fp st) →
  save_policy_unlocked h w dir p st = (r, st') →
  keeps st st' ∧ (r = Ok tt → parsed (policy_path dir) st' = Some p).
Proof.
  intros Hfr. unfold save_policy_unlocked, mbind, stm_bind. cbn.
  destruct (io_mkdir h); [|by intros [= <- <-]]. cbn.
  destruct w as [fp|]; [|by intros [= <- <-]]. cbn -[ensure_policy_permissions]. unfold mbind, stm_bind.
  cbn -[ensure_policy_permissions]. destruct (io_synced h); cbn -[ensure_policy_permissions].
  2:{ intros [= <- <-]. split; [|done]. split; [|done]. intros Hc. apply coherent_set_file; [done|]. by apply Hfr. }
  intros H. apply permissions_effect in H as [[Hco Hca] Hp]. split.
  - split; [|done]. intros Hc. apply Hco, coherent_set_file; [done|]. by apply Hfr.
  - intros _. rewrite Hp. unfold loaded. cbn. rewrite lookup_insert_eq. apply decode_encode, all_printable.
Qed.

Lemma ensure_effect h dir st r st' :
  (∀ fp, io_init_write h = Some fp → fresh_fp (policy_path dir) fp st) →
  ensure_policy h dir st = (r, st') →
  keeps st st' ∧
  (r = Ok tt → parsed (policy_path dir) st' =
     match files st !! policy_path dir with
     | Some f => decode (content f) | None => Some default_policy end).
Proof.
  intros Hfr. unfold ensure_policy, mbind, stm_bind. cbn.
  destruct (io_mkdir h); [|by intros [= <- <-]]. cbn -[ensure_policy_permissions].
  destruct (files st !! policy_path dir) as [f|] eqn:Hf.
  - intros [? Hp]%permissions_effect. split; [done|]. intros _. rewrite Hp.
    unfold loaded. by rewrite Hf.
  - cbn -[ensure_policy_permissions save_policy_unlocked].
    destruct (io_lock h); [|by intros [= <- <-]].
    cbn -[ensure_policy_permissions save_policy_unlocked].
    destruct (save_policy_unlocked _ _ _ _ st) as [[[]|e] st1] eqn:Hs.
    + apply save_effect in Hs as [[Hc1 Hc2] Hp1]; [|done].
      intros [[Hc3 Hc4] Hp2]%permissions_effect. split; [split; [auto|congruence]|].
      intros _. rewrite Hp2. auto.
    + intros [= <- <-]. apply save_effect in Hs as [? ?]; [|done]. done.
Qed.

Lemma update_cache_effect h path p st r st' :
  update_policy_cache h path p st = (r, st') → parsed path st = Some p →
  (coherent st → coherent st') ∧ parsed path st' = Some p.
Proof.
  unfold update_policy_cache, policy_fingerprint, mbind, stm_bind. cbn.
  destruct (files st !! path) as [f|] eqn:Hf; [|by intros [= <- <-]].
  destruct (io_stat h); [|by intros [= <- <-]]. cbn.
  destruct (io_cache_lock h); intros [= <- <-] Hp; [|done]. split; [|done].
  intros _. apply coherent_set_cache; [done|]. unfold loaded in Hp. by rewrite Hf in Hp.
Qed.

(** A rule edit: on success the file holds the edited policy, and on every
    outcome the cache stays coherent. *)
Lemma with_policy_mut_effect {T} h dir (op : Policy → result (Policy * T)) st r st' :
  fresh_io h dir st → with_policy_mut h dir op st = (r, st') →
  (coherent st → coherent st') ∧
  (∀ t, r = Ok t → ∃ p p', default default_policy (parsed (policy_path dir) st) = p ∧
     op p = Ok (p', t) ∧ parsed (policy_path dir) st' = Some p').
Proof.
  intros [Hi Hw]. unfold with_policy_mut, mbind at 1, stm_bind at 1.
  destruct (ensure_policy h dir st) as [[[]|e] st1] eqn:He;
    apply ensure_effect in He as [[Hc1 Hca1] Hp1]; try done; [|by intros [= <- <-]].
  specialize (Hp1 eq_refl). cbn -[load_policy_unlocked]. unfold mbind, stm_bind.
  destruct (io_lock h); cbn; [|by intros [= <- <-]].
  unfold load_policy_unlocked, mbind, stm_bind. cbn.
  destruct (files st1 !! policy_path dir) as [f|] eqn:Hf; cbn; [|by intros [= <- <-]].
  destruct (io_read h); cbn; [|by intros [= <- <-]].
  destruct (decode (content f)) as [p|] eqn:Hd; cbn; [|by intros [= <- <-]].
  destruct (op p) as [[p' t]|e] eqn:Ho; cbn -[save_policy_unlocked update_policy_cache];
    [|by intros [= <- <-]].
  destruct (save_policy_unlocked h (io_write h) dir p' st1) as [[[]|e] st2] eqn:Hs;
    apply save_effect in Hs as [[Hc2 Hca2] Hp2]; try (intros; unfold fresh_fp; rewrite Hca1; by apply Hw).
  2:{ intros [= <- <-]. split; [auto|done]. }
  destruct (update_policy_cache h (policy_path dir) p' st2) as [[[]|e] st3] eqn:Hu;
    apply update_cache_effect in Hu as [Hc3 Hp3]; auto; intros [= <- <-]; (split; [auto|done || idtac]).
  intros t' [= <-]. exists p, p'. split; [|done].
  assert (parsed (policy_path dir) st1 = Some p) as Hp by (unfold loaded; by rewrite Hf).
  rewrite Hp in Hp1. unfold loaded. destruct (files st !! policy_path dir); cbn; [|congruence].
  by rewrite <-Hp1.
Qed.
End store_facts.

(** ** The promises of the engine *)

Section promises.
Context {raw : Type} `{!TotalCodec Policy raw}.
Abbreviation store := (fstore raw Policy).
Implicit Types (dir path : string) (h : io) (st : store).

(** C11: A request is let through exactly when the caller is root, or the
    action is not one that edits the policy and is either exempt or permitted
    by the policy the file holds now, whatever the cache holds. *)
Theorem authorize_iff h dir uid action p st :
  healthy h → coherent st → parsed (policy_path dir) st = Some p →
  succeeds (authorize h dir uid action) st = true ↔
    (uid = 0%Z ∨
     ((action ∉ ROOT_ONLY_ACTIONS) ∧
        (action ∈ POLICY_EXEMPT_ACTIONS ∨ permitted p uid action))).
Proof.
  intros Hh Hc Hp. unfold succeeds, authorize, is_root_only, is_policy_exempt.
  case_bool_decide as Hu; [naive_solver|].
  case_bool_decide as Hr; [naive_solver|].
  case_bool_decide as He; [naive_solver|].
  rewrite <-decision_permitted. unfold mbind, stm_bind, load_policy.
  destruct (with_policy_healthy h dir Ok p st Hh Hc Hp) as (st' & -> & _).
  destruct (evaluate_policy_decision p uid action) as [[]|]; cbn; [intuition congruence..|].
  destruct (default_allow p); cbn; intuition congruence.
Qed.

(** After a deny rule was added, its uid is refused every action its
    pattern matches, except the exempt ones, by every later request. *)
Theorem deny_takes_effect h h' dir uid pattern action p st st' :
  uid ≠ 0%Z → matches_pattern pattern action = true → action ∉ POLICY_EXEMPT_ACTIONS →
  coherent st → fresh_io h dir st → healthy h' →
  add_deny_rule h dir (Some uid) pattern st = (Ok p, st') →
  succeeds (authorize h' dir uid action) st' = false.
Proof.
  intros Hu Hm He Hc Hfr Hh H. apply not_true_iff_false. unfold add_deny_rule, upsert_rule in H.
  apply stm_bind_Ok in H as ([] & st0 & Hv & H).
  assert (st0 = st) as -> by (unfold lift in Hv; by simplify_eq).
  apply with_policy_mut_effect in H as [Hc' H]; [|done].
  destruct (H p eq_refl) as (q & q' & _ & Ho & Hp). injection Ho as <- <-.
  erewrite authorize_iff by eauto. intros [?|[_ [?|[Hno _]]]]; [done..|].
  apply Hno. cbn [rules set_rules]. clear -Hm.
  induction (rules q) as [|r rs IH]; cbn [upsert_rules].
  - exists (mkRule (Some uid) [] [pattern]). unfold denies. cbn. rewrite Hm. split; [set_solver|done].
  - case_bool_decide as Hr.
    + exists (upsert_in_rule pattern false r). split; [set_solver|]. split; [done|].
      unfold denies. apply existsb_elem_of. exists pattern. split; [|done].
      cbn. case_bool_decide; set_solver.
    + destruct IH as (x & ? & ? & ?). exists x. set_solver.
Qed.

(** After an allow rule was added, its uid may run every action the pattern
    matches that does not edit the policy, unless some other deny pattern
    among that uid's rules still matches the action. *)
Theorem allow_takes_effect h h' dir uid pattern action p st st' :
  matches_pattern pattern action = true → action ∉ ROOT_ONLY_ACTIONS →
  (∀ r d, r ∈ rules p → rule_uid r = Some uid → d ∈ rule_deny r →
     matches_pattern d action = false) →
  coherent st → fresh_io h dir st → healthy h' →
  add_allow_rule h dir (Some uid) pattern st = (Ok p, st') →
  succeeds (authorize h' dir uid action) st' = true.
Proof.
  intros Hm Hroot Hno Hc Hfr Hh H. unfold add_allow_rule, upsert_rule in H.
  apply stm_bind_Ok in H as ([] & st0 & Hv & H).
  assert (st0 = st) as -> by (unfold lift in Hv; by simplify_eq).
  apply with_policy_mut_effect in H as [Hc' H]; [|done].
  destruct (H p eq_refl) as (q & q' & _ & Ho & Hp). injection Ho as <- Hq.
  erewrite authorize_iff by eauto. right. split; [done|]. right. rewrite Hq. split.
  - intros (r & Hr & Hru & Hd). unfold denies in Hd. apply existsb_elem_of in Hd as (d & ? & Hd).
    by rewrite (Hno r d) in Hd.
  - left. rewrite <-Hq. cbn [rules set_rules]. clear -Hm.
    induction (rules q) as [|r rs IH]; cbn [upsert_rules].
    + exists (mkRule (Some uid) [pattern] []). unfold allows. cbn. rewrite Hm.
      split; [set_solver|done].
    + case_bool_decide as Hr.
      * exists (upsert_in_rule pattern true r). split; [set_solver|]. split; [done|].
        unfold allows. apply existsb_elem_of. exists pattern. split; [|done].
        cbn. case_bool_decide; set_solver.
      * destruct IH as (x & ? & ? & ?). exists x. set_solver.
Qed.
End promises.

(** A concrete host: one policy file, an empty cache. *)
Definition sample_fp (n : Z) : fingerprint := Fingerprint 1 n 100 1700000000 0.
Definition sample_store (p : Policy) : fstore Policy Policy :=
  FStore {["/s/policy.json" := File p (sample_fp 1) 384]} None.
Definition sample_io : io := mkIo true true true true true true None (Some (sample_fp 2)) true.

Lemma sample_coherent p : coherent_by (decode (Codec := identity_codec Policy)) (sample_store p).
Proof. by intros e f. Qed.
Lemma sample_healthy : healthy sample_io.
Proof. done. Qed.
Lemma sample_fresh p : fresh_io sample_io "/s" (sample_store p).
Proof. by split. Qed.

Lemma authorize_iff_witness :
  let p := mkPolicy 1 false [mkRule (Some 7%Z) ["workspace.*"] ["workspace.destroy"]] in
  succeeds (authorize (TotalCodec0 := identity_total Policy) sample_io "/s" 7 "workspace.stop")
    (sample_store p) = true ↔
    ((7 = 0)%Z ∨ (("workspace.stop" ∉ ROOT_ONLY_ACTIONS) ∧
      ("workspace.stop" ∈ POLICY_EXEMPT_ACTIONS ∨ permitted p 7 "workspace.stop"))).
Proof.
  intros p.
  apply (authorize_iff (TotalCodec0 := identity_total Policy) sample_io "/s" 7 "workspace.stop" p
           (sample_store p)); [apply sample_healthy|apply sample_coherent|by vm_compute].
Defined.

Lemma deny_takes_effect_witness :
  let st' := (add_deny_rule (TotalCodec0 := identity_total Policy) sample_io "/s" (Some 7%Z)
                "workspace.*" (sample_store default_policy)).2 in
  succeeds (authorize (TotalCodec0 := identity_total Policy) sample_io "/s" 7 "workspace.stop") st' = false.
Proof.
  refine (deny_takes_effect (TotalCodec0 := identity_total Policy) sample_io sample_io "/s" 7
    "workspace.*" "workspace.stop" (mkPolicy 1 true [mkRule (Some 7%Z) [] ["workspace.*"]])
    (sample_store default_policy) _ _ _ _ _ _ _ _);
    [done|by vm_compute|apply (bool_decide_unpack _); by vm_compute|apply sample_coherent|apply sample_fresh
    |apply sample_healthy|by vm_compute].
Defined.

Lemma allow_takes_effect_witness :
  let st' := (add_allow_rule (TotalCodec0 := identity_total Policy) sample_io "/s" (Some 7%Z)
                "workspace.*" (sample_store (mkPolicy 1 false []))).2 in
  succeeds (authorize (TotalCodec0 := identity_total Policy) sample_io "/s" 7 "workspace.stop") st' = true.
Proof.
  refine (allow_takes_effect (TotalCodec0 := identity_total Policy) sample_io sample_io "/s" 7
    "workspace.*" "workspace.stop" (mkPolicy 1 false [mkRule (Some 7%Z) ["workspace.*"] []])
    (sample_store (mkPolicy 1 false [])) _ _ _ _ _ _ _ _);
    [by vm_compute|apply (bool_decide_unpack _); by vm_compute| |apply sample_coherent|apply sample_fresh
    |apply sample_healthy|by vm_compute].
  intros r d Hr _ Hd. apply elem_of_cons in Hr as [->|Hr]; [by apply not_elem_of_nil in Hd|].
  by apply not_elem_of_nil in Hr.
Defined.
