(* ===== verification/Ipam.v ===== *)
(** * Workspace addresses (src/src/network/ipam.rs)

    The pool 10.200.0.10 .. 10.200.0.254 as four 64-bit words, the allocator
    over it, and the text form of an address. *)
From S2P Require Import Prelude RustStr.

Definition SUBNET_PREFIX : Z * Z * Z := (10, 200, 0)%Z.
Definition POOL_START : Z := 10.
Definition POOL_END : Z := 254.

(** [u64::trailing_zeros] of a non-zero word. *)
Fixpoint ctz_pos (p : positive) : Z :=
  match p with
  | xO q => 1 + ctz_pos q
  | _ => 0
  end.
Definition trailing_zeros (w : Z) : Z :=
  match w with Zpos p => ctz_pos p | _ => 64 end.

(** [!word] on a [u64]. *)
Definition not64 (w : Z) : Z := Z.lxor w u64_max.

Record IpBitmap := mkBitmap { bits : list Z }.

Definition empty_bitmap : IpBitmap := mkBitmap [0; 0; 0; 0]%Z.

Definition mark (bm : IpBitmap) (octet : Z) : IpBitmap :=
  if negb ((POOL_START <=? octet) && (octet <=? POOL_END))%Z then bm
  else
    let index := Z.to_nat (octet - POOL_START) in
    mkBitmap (alter (λ w, Z.lor w (Z.shiftl 1 (Z.of_nat (index `mod` 64)))) (index / 64) (bits bm)).

Definition from_used (used : gset Z) : IpBitmap :=
  foldl mark empty_bitmap (elements used).

(** The loop over the words, from the word at [word_index] on. *)
Fixpoint allocate_loop (word_index : nat) (words : list Z) : option Z :=
  match words with
  | [] => None
  | word :: words' =>
      let available := not64 word in
      if bool_decide (available = 0%Z) then allocate_loop (S word_index) words'
      else
        let octet := (POOL_START + (Z.of_nat word_index * 64 + trailing_zeros available))%Z in
        if (octet <=? POOL_END)%Z then Some octet else allocate_loop (S word_index) words'
  end.

Definition allocate (bm : IpBitmap) : option Z := allocate_loop 0 (bits bm).

Definition format_ip (host : Z) : string :=
  let '(a, b, c) := SUBNET_PREFIX in print_ipv4 a b c host.

Definition allocate_ip (used : gset Z) : result string :=
  match allocate (from_used used) with
  | Some octet => Ok (format_ip octet)
  | None => bail ("IP address pool exhausted (" +:+ format_ip POOL_START +:+ "–" +:+
                  format_ip POOL_END +:+ ")")
  end.

Definition parse_host_octet (ip : string) : option Z :=
  '(a, b, c, d) ← parse_ipv4 ip;
  let '(p0, p1, p2) := SUBNET_PREFIX in
  if bool_decide (a = p0) && bool_decide (b = p1) && bool_decide (c = p2)
  then Some d else None.

Definition is_in_subnet (address : string) : bool :=
  match parse_ipv4 (default address (head (split "/" address))) with
  | Some (a, b, c, _) => bool_decide ((a, b, c) = SUBNET_PREFIX)
  | None => false
  end.

(** [network::collect_used_ips] *)
Definition collect_used_ips (ips : list string) : gset Z := list_to_set (omap parse_host_octet ips).

(** ** Bits *)

Definition word_ok (w : Z) : Prop := (0 ≤ w ≤ u64_max)%Z.

Lemma u64_max_ones : u64_max = Z.ones 64.
Proof. done. Qed.

Lemma not64_testbit w i :
  (0 ≤ i < 64)%Z → Z.testbit (not64 w) i = negb (Z.testbit w i).
Proof.
  intros Hi. unfold not64. rewrite Z.lxor_spec, u64_max_ones, Z.ones_spec_low by lia.
  apply xorb_true_r.
Qed.

Lemma not64_ok w : word_ok w → word_ok (not64 w).
Proof.
  intros Hw. unfold word_ok, not64 in *. split.
  - apply Z.lxor_nonneg. unfold u64_max in *. lia.
  - replace u64_max with (2 ^ 64 - 1)%Z in * by done.
    enough (Z.lxor w (2 ^ 64 - 1) < 2 ^ 64)%Z by lia.
    destruct (decide (Z.lxor w (2 ^ 64 - 1) = 0)%Z) as [->|Hne]; [lia|].
    apply Z.log2_lt_pow2; [|].
    + assert (0 ≤ Z.lxor w (2 ^ 64 - 1))%Z by (apply Z.lxor_nonneg; lia). lia.
    + eapply Z.le_lt_trans; [apply Z.log2_lxor; lia|]. apply Z.max_lub_lt.
      * destruct (decide (w = 0)%Z) as [->|]; [done|]. apply Z.log2_lt_pow2; lia.
      * apply Z.log2_lt_pow2; lia.
Qed.

Lemma ctz_pos_spec p :
  (0 ≤ ctz_pos p)%Z ∧ Z.testbit (Zpos p) (ctz_pos p) = true ∧
  (∀ i, 0 ≤ i < ctz_pos p → Z.testbit (Zpos p) i = false)%Z.
Proof.
  induction p as [p IH|p IH|]; cbn [ctz_pos].
  - split; [lia|]. split; [done|]. lia.
  - destruct IH as (H0 & H1 & H2). rewrite Pos2Z.pos_xO.
    split; [lia|]. split.
    + replace (1 + ctz_pos p)%Z with (Z.succ (ctz_pos p)) by lia.
      by rewrite Z.double_bits_succ.
    + intros i Hi. destruct (decide (i = 0)%Z) as [->|]; [by rewrite Z.testbit_even_0|].
      replace i with (Z.succ (i - 1)) by lia. rewrite Z.double_bits_succ. apply H2. lia.
  - split; [lia|]. split; [done|]. lia.
Qed.

Lemma trailing_zeros_spec w :
  word_ok w → w ≠ 0%Z →
  (0 ≤ trailing_zeros w < 64)%Z ∧ Z.testbit w (trailing_zeros w) = true ∧
  (∀ i, 0 ≤ i < trailing_zeros w → Z.testbit w i = false)%Z.
Proof.
  unfold word_ok. intros Hw Hne. destruct w as [|p|p]; [done| |lia]. cbn [trailing_zeros].
  destruct (ctz_pos_spec p) as (H0 & H1 & H2). split; [|done]. split; [done|].
  destruct (Z.lt_ge_cases (ctz_pos p) 64) as [|Hge]; [done|].
  rewrite (Z.bits_above_log2 (Zpos p)) in H1; [done|lia|].
  eapply Z.lt_le_trans; [|exact Hge]. apply Z.log2_lt_pow2; [lia|]. unfold u64_max in Hw. lia.
Qed.

(** The pool index [i] is marked. *)
Definition bit_at (bm : IpBitmap) (i : nat) : bool :=
  match bits bm !! (i / 64) with
  | Some w => Z.testbit w (Z.of_nat (i `mod` 64))
  | None => false
  end.

Definition bitmap_ok (bm : IpBitmap) : Prop :=
  length (bits bm) = 4 ∧ Forall word_ok (bits bm).

Lemma word_ok_lor_bit w b : word_ok w → b < 64 → word_ok (Z.lor w (Z.shiftl 1 (Z.of_nat b))).
Proof.
  unfold word_ok. intros Hw Hb. rewrite Z.shiftl_1_l. split; [apply Z.lor_nonneg; lia|].
  replace u64_max with (2 ^ 64 - 1)%Z in * by done.
  assert (0 < 2 ^ Z.of_nat b)%Z by lia.
  assert (0 < Z.lor w (2 ^ Z.of_nat b))%Z as Hpos.
  { enough (Z.lor w (2 ^ Z.of_nat b) ≠ 0)%Z by (assert (0 ≤ Z.lor w (2 ^ Z.of_nat b))%Z
      by (apply Z.lor_nonneg; lia); lia).
    intros [_ ?]%Z.lor_eq_0_iff. lia. }
  enough (Z.lor w (2 ^ Z.of_nat b) < 2 ^ 64)%Z by lia.
  apply Z.log2_lt_pow2; [done|]. rewrite Z.log2_lor by lia. apply Z.max_lub_lt.
  - destruct (decide (w = 0)%Z) as [->|]; [done|]. apply Z.log2_lt_pow2; lia.
  - rewrite Z.log2_pow2; lia.
Qed.

Lemma mark_ok bm octet : bitmap_ok bm → bitmap_ok (mark bm octet).
Proof.
  unfold mark. intros [Hl Hw]. case_match; [done|]. split; cbn [bits].
  - by rewrite length_alter.
  - apply Forall_alter; [done|]. intros w Hlk Hwok. apply word_ok_lor_bit; [done|].
    apply Nat.mod_upper_bound. lia.
Qed.

Lemma mark_bit bm octet i :
  bitmap_ok bm → i < 256 →
  bit_at (mark bm octet) i =
    bit_at bm i || bool_decide ((POOL_START ≤ octet ≤ POOL_END)%Z ∧
                                (octet = POOL_START + Z.of_nat i)%Z).
Proof.
  intros [Hl Hw] Hi. unfold mark, POOL_START, POOL_END.
  destruct (Z.leb_spec 10 octet), (Z.leb_spec octet 254); cbn [negb andb];
    try (rewrite bool_decide_eq_false_2, orb_false_r by lia; done).
  unfold bit_at. cbn [bits]. set (j := Z.to_nat (octet - 10)).
  destruct (decide (j / 64 = i / 64)) as [Heq|Hne].
  - rewrite Heq, list_lookup_alter_eq.
    destruct (bits bm !! (i / 64)) as [w|] eqn:E.
    2:{ apply lookup_ge_None in E. assert (i / 64 < 4) by (apply Nat.Div0.div_lt_upper_bound; lia).
        lia. }
    cbn [fmap option_fmap option_map]. rewrite Z.lor_spec, Z.shiftl_1_l, Z.pow2_bits_eqb by lia. f_equal.
    apply eq_true_iff_eq. rewrite bool_decide_eq_true, Z.eqb_eq.
    pose proof (Nat.div_mod_eq i 64). pose proof (Nat.div_mod_eq j 64). unfold j in *. lia.
  - rewrite list_lookup_alter_ne by done. rewrite bool_decide_eq_false_2, orb_false_r; [done|].
    intros [_ Ho]. apply Hne. unfold j. f_equal. lia.
Qed.

Lemma empty_bit i : bit_at empty_bitmap i = false.
Proof.
  unfold bit_at. destruct (bits empty_bitmap !! (i / 64)) as [w|] eqn:E; [|done].
  apply list_elem_of_lookup_2 in E.
  assert (w = 0)%Z as ->; [|apply Z.testbit_0_l].
  cbn in E. set_solver.
Qed.

Lemma from_used_spec used :
  bitmap_ok (from_used used) ∧
  ∀ i, i < 245 → bit_at (from_used used) i = bool_decide ((POOL_START + Z.of_nat i)%Z ∈ used).
Proof.
  unfold from_used.
  assert (∀ l bm, bitmap_ok bm →
    bitmap_ok (foldl mark bm l) ∧ ∀ i, i < 245 →
    bit_at (foldl mark bm l) i = bit_at bm i || bool_decide ((POOL_START + Z.of_nat i)%Z ∈ l)) as Hf.
  { induction l as [|o l IH]; intros bm Hok; cbn.
    - split; [done|]. intros i Hi. rewrite bool_decide_eq_false_2, orb_false_r; [done|].
      apply not_elem_of_nil.
    - destruct (IH (mark bm o) (mark_ok _ _ Hok)) as [H1 H2]. split; [done|]. intros i Hi.
      rewrite H2, mark_bit by (done || lia). rewrite <-orb_assoc. f_equal.
      apply eq_true_iff_eq. rewrite orb_true_iff, !bool_decide_eq_true, elem_of_cons.
      unfold POOL_START, POOL_END in *. intuition lia. }
  destruct (Hf (elements used) empty_bitmap) as [H1 H2].
  { split; [done|]. repeat constructor; unfold u64_max; lia. }
  split; [done|]. intros i Hi. rewrite H2 by done.
  replace (bit_at empty_bitmap i) with false.
  - cbn. apply eq_true_iff_eq. by rewrite !bool_decide_eq_true, elem_of_elements.
  - symmetry. apply empty_bit.
Qed.

(** ** The allocator finds the lowest free address *)

(** No index of the words scanned so far is free. *)
Lemma allocate_loop_spec wi words (free_at : Z → Prop) :
  Forall word_ok words →
  (∀ k w, words !! k = Some w → ∀ b, (0 ≤ b < 64)%Z →
     Z.testbit w b = false ↔ free_at (POOL_START + (Z.of_nat (wi + k) * 64 + b))%Z) →
  match allocate_loop wi words with
  | Some o => (POOL_START + Z.of_nat wi * 64 ≤ o ≤ POOL_END)%Z ∧ free_at o ∧
      ∀ o', (POOL_START + Z.of_nat wi * 64 ≤ o' < o)%Z → ¬ free_at o'
  | None => ∀ o', (POOL_START + Z.of_nat wi * 64 ≤ o' <
                   POOL_START + Z.of_nat (wi + length words) * 64)%Z →
      (o' ≤ POOL_END)%Z → ¬ free_at o'
  end.
Proof.
  revert wi. induction words as [|w words IH]; intros wi Hok Hfree.
  { cbn. intros o' Ho'. lia. }
  inversion Hok as [|? ? Hw Hws]; subst.
  assert (∀ b, (0 ≤ b < 64)%Z →
    Z.testbit w b = false ↔ free_at (POOL_START + (Z.of_nat wi * 64 + b))%Z) as H0.
  { intros b Hb. rewrite (Hfree 0 w eq_refl b Hb). by rewrite Nat.add_0_r. }
  assert (∀ k w', words !! k = Some w' → ∀ b, (0 ≤ b < 64)%Z →
     Z.testbit w' b = false ↔ free_at (POOL_START + (Z.of_nat (S wi + k) * 64 + b))%Z) as HS.
  { intros k w' Hk b Hb. rewrite (Hfree (S k) w' Hk b Hb).
    by replace (wi + S k) with (S wi + k) by lia. }
  specialize (IH (S wi) Hws HS). clear Hfree HS. cbn [allocate_loop length].
  (* addresses of this word below a given bit *)
  assert (∀ o' n, (0 ≤ n ≤ 64)%Z → (∀ b, 0 ≤ b < n → Z.testbit w b = true)%Z →
    (POOL_START + Z.of_nat wi * 64 ≤ o' < POOL_START + Z.of_nat wi * 64 + n)%Z →
    ¬ free_at o') as Hbelow.
  { intros o' n Hn Hb Ho' Hf.
    assert (0 ≤ o' - POOL_START - Z.of_nat wi * 64 < n)%Z as Hr by lia.
    pose proof (Hb _ Hr) as Ht. apply not_false_iff_true in Ht. apply Ht, H0; [lia|].
    by replace (POOL_START + (Z.of_nat wi * 64 + (o' - POOL_START - Z.of_nat wi * 64)))%Z
      with o' by lia. }
  assert (∀ b, (0 ≤ b < 64)%Z → Z.testbit w b = negb (Z.testbit (not64 w) b)) as Hneg.
  { intros b Hb. by rewrite not64_testbit, negb_involutive. }
  case_bool_decide as Hz.
  - assert (∀ o', (POOL_START + Z.of_nat wi * 64 ≤ o' < POOL_START + Z.of_nat wi * 64 + 64)%Z →
      ¬ free_at o') as Hno.
    { intros o'. apply Hbelow; [lia|]. intros b Hb. by rewrite Hneg, Hz, Z.bits_0 by lia. }
    destruct (allocate_loop (S wi) words) as [o|].
    + destruct IH as (? & ? & IH). split; [lia|]. split; [done|]. intros o' Ho'.
      destruct (Z.lt_ge_cases o' (POOL_START + Z.of_nat wi * 64 + 64)); [apply Hno|apply IH]; lia.
    + intros o' Ho' He.
      destruct (Z.lt_ge_cases o' (POOL_START + Z.of_nat wi * 64 + 64)); [apply Hno|apply IH]; lia.
  - destruct (trailing_zeros_spec (not64 w) (not64_ok _ Hw) Hz) as (Hr & Ht & Hlow).
    set (t := trailing_zeros (not64 w)) in *.
    assert (∀ o', (POOL_START + Z.of_nat wi * 64 ≤ o' < POOL_START + Z.of_nat wi * 64 + t)%Z →
      ¬ free_at o') as Hno.
    { intros o'. apply Hbelow; [lia|]. intros b Hb. by rewrite Hneg, Hlow by lia. }
    destruct (Z.leb_spec (POOL_START + (Z.of_nat wi * 64 + t)) POOL_END) as [Hle|Hgt].
    + split; [lia|]. split; [apply H0; [lia|]; by rewrite Hneg, Ht by lia|].
      intros o' Ho'. apply Hno. lia.
    + destruct (allocate_loop (S wi) words) as [o|].
      * destruct IH as (? & ? & IH). lia.
      * intros o' Ho' He. apply Hno. lia.
Qed.

Lemma bit_at_split bm k w b :
  bits bm !! k = Some w → (0 ≤ b < 64)%Z →
  bit_at bm (Z.to_nat (POOL_START + (Z.of_nat k * 64 + b) - POOL_START)) = Z.testbit w b.
Proof.
  intros Hk Hb. unfold bit_at, POOL_START.
  replace (Z.to_nat (10 + (Z.of_nat k * 64 + b) - 10)) with (k * 64 + Z.to_nat b) by lia.
  rewrite Nat.div_add_l, Nat.div_small, Nat.add_0_r, Hk by lia.
  rewrite Nat.add_comm, Nat.Div0.mod_add, Nat.mod_small by lia. by rewrite Z2Nat.id by lia.
Qed.

(** The allocator's contract. *)
Lemma allocate_spec used :
  match allocate (from_used used) with
  | Some o => (POOL_START ≤ o ≤ POOL_END)%Z ∧ (o ∉ used) ∧
      ∀ o', (POOL_START ≤ o' < o)%Z → o' ∈ used
  | None => ∀ o, (POOL_START ≤ o ≤ POOL_END)%Z → o ∈ used
  end.
Proof.
  destruct (from_used_spec used) as [[Hl Hw] Hb].
  set (free_at := λ o, bit_at (from_used used) (Z.to_nat (o - POOL_START)) = false).
  assert (∀ o, (POOL_START ≤ o ≤ POOL_END)%Z → free_at o ↔ o ∉ used) as Hfree.
  { intros o Ho. unfold free_at, POOL_START, POOL_END in *. rewrite Hb by lia.
    rewrite bool_decide_eq_false. by replace (10 + Z.of_nat (Z.to_nat (o - 10)))%Z with o by lia. }
  pose proof (allocate_loop_spec 0 (bits (from_used used)) free_at Hw) as Hloop.
  unfold allocate. rewrite Hl in Hloop.
  assert (∀ o, (POOL_START ≤ o ≤ POOL_END)%Z → ¬ free_at o → o ∈ used) as Hused.
  { intros o Ho Hn. destruct (decide (o ∈ used)); [done|]. by destruct Hn; apply Hfree. }
  unfold POOL_START, POOL_END in *.
  destruct (allocate_loop 0 (bits (from_used used))) as [o|].
  - destruct Hloop as (Ho & Hf & Hlow).
    { intros k w Hk b Hbb. unfold free_at. cbn [Nat.add]. by rewrite (bit_at_split _ k w b). }
    split; [lia|]. split; [by apply Hfree; [lia|]|]. intros o' Ho'. apply Hused; [lia|].
    apply Hlow. lia.
  - intros o Ho. apply Hused; [done|]. apply Hloop; [|lia|lia].
    intros k w Hk b Hbb. unfold free_at. cbn [Nat.add]. by rewrite (bit_at_split _ k w b).
Qed.

(** ** Properties *)

(** The reference allocator: try the addresses of the pool one by one, from the
    bottom. *)
Definition first_free (used : gset Z) : option Z :=
  snd <$> list_find (λ o, o ∉ used) (seqZ POOL_START (POOL_END - POOL_START + 1)).

Lemma lookup_pool i o :
  seqZ POOL_START (POOL_END - POOL_START + 1) !! i = Some o ↔
  o = (POOL_START + Z.of_nat i)%Z ∧ i < 245.
Proof. rewrite lookup_seqZ. unfold POOL_START, POOL_END. lia. Qed.

(** C39: the word-wise allocator ([!word], [trailing_zeros], bound test on the
    last word) agrees on every set of used octets with the plain scan of the
    pool 10..254 for the first octet that is not used: it skips no free address,
    never returns a used one or one outside the pool, and prefers the lowest. *)
Theorem allocate_first_free (used : gset Z) : allocate (from_used used) = first_free used.
Proof.
  pose proof (allocate_spec used) as Hs. unfold first_free.
  destruct (allocate (from_used used)) as [o|].
  - destruct Hs as (Ho & Hn & Hlow). symmetry. apply fmap_Some.
    exists (Z.to_nat (o - POOL_START), o). split; [|done]. apply list_find_Some.
    unfold POOL_START, POOL_END in *. split_and!.
    + apply lookup_pool. unfold POOL_START. lia.
    + done.
    + intros j y Hy Hlt. apply lookup_pool in Hy as [-> ?]. unfold POOL_START in *.
      apply dec_stable. assert ((10 + Z.of_nat j)%Z ∈ used) by (apply Hlow; lia). tauto.
  - symmetry. apply fmap_None, list_find_None, Forall_lookup. intros i o Hi Hn.
    apply lookup_pool in Hi as [-> ?]. apply Hn, Hs. unfold POOL_START, POOL_END. lia.
Qed.

Lemma parse_host_octet_range (ip : string) (o : Z) : parse_host_octet ip = Some o → (0 ≤ o < 256)%Z.
Proof.
  unfold parse_host_octet, SUBNET_PREFIX. intros ([[[a b] c] d] & Hp & Hd)%bind_Some. destruct (_ && _); [|done].
  injection Hd as <-. by apply parse_ipv4_bound in Hp.
Qed.
Lemma parse_host_octet_format o : (0 ≤ o < 256)%Z → parse_host_octet (format_ip o) = Some o.
Proof.
  intros Ho. unfold parse_host_octet, format_ip, SUBNET_PREFIX.
  by rewrite parse_print_ipv4 by lia.
Qed.

Lemma format_ip_in_subnet o : (0 ≤ o < 256)%Z → is_in_subnet (format_ip o) = true.
Proof.
  intros Ho. unfold is_in_subnet.
  assert (split "/" (format_ip o) = [format_ip o]) as ->.
  { apply split_free. unfold format_ip, SUBNET_PREFIX, print_ipv4, free. rewrite !str_all_app.
    repeat (apply andb_true_intro; split);
      try (apply digits_free; [done|apply print_uint_digits]); done. }
  cbn [head default from_option id]. unfold format_ip, SUBNET_PREFIX.
  by rewrite parse_print_ipv4 by lia.
Qed.

(** An address handed out lies in the pool and outside the used set. *)
Lemma allocate_ip_Ok used ip :
  allocate_ip used = Ok ip →
  ∃ o, parse_host_octet ip = Some o ∧ (POOL_START ≤ o ≤ POOL_END)%Z ∧ (o ∉ used).
Proof.
  unfold allocate_ip. pose proof (allocate_spec used) as Hs.
  destruct (allocate (from_used used)) as [o|]; [|done]. intros [= <-].
  destruct Hs as (Ho & Hn & _). exists o. split_and!; [|lia|lia|done].
  apply parse_host_octet_format. unfold POOL_START, POOL_END in *. lia.
Qed.

(** Handing out an address and recording its text never hands out the same
    address twice. If [allocate_ip] returns an address for the addresses [ips]
    recorded as text (of running workspaces, some possibly malformed), the
    address parses back to an octet of the pool that [ips] did not use, and
    after recording it the used set is exactly one octet larger. It fails only
    when all 245 octets of the pool are recorded. *)
Theorem allocate_ip_fresh (ips : list string) :
  match allocate_ip (collect_used_ips ips) with
  | Ok ip => ∃ o, parse_host_octet ip = Some o ∧ (POOL_START ≤ o ≤ POOL_END)%Z ∧
      (o ∉ collect_used_ips ips) ∧ (ip ∉ ips) ∧ is_in_subnet ip = true ∧
      collect_used_ips (ip :: ips) = {[ o ]} ∪ collect_used_ips ips
  | Err _ => ∀ o, (POOL_START ≤ o ≤ POOL_END)%Z → o ∈ collect_used_ips ips
  end.
Proof.
  unfold allocate_ip. pose proof (allocate_spec (collect_used_ips ips)) as Hs.
  destruct (allocate _) as [o|]; [|done]. destruct Hs as (Ho & Hn & _).
  assert (parse_host_octet (format_ip o) = Some o) as Hp.
  { apply parse_host_octet_format. unfold POOL_START, POOL_END in *. lia. }
  exists o. split_and!; [done|lia|lia|done| | |].
  - intros Hin. apply Hn, elem_of_list_to_set, list_elem_of_omap. eauto.
  - apply format_ip_in_subnet. unfold POOL_START, POOL_END in *. lia.
  - unfold collect_used_ips. cbn [omap list_omap]. rewrite Hp. done.
Qed.
