(* ===== verification/Leases.v ===== *)
(** * Lifecycle leases (src/src/daemon/leases.rs)

    The gates that serialize overlapping lifecycle operations.  A gate is a
    mutex-protected [GateState] with a condition variable: every critical
    section is one atomic step here, and a thread blocked in [wait_timeout] is
    a thread with its [waiting] flag set.  What is safe must be safe however threads
    are woken, so [step] lets a waiting thread try again at any moment; who is
    asleep and whom [notify_all] wakes is added in [cv_step].  Counters are [nat]: they never
    exceed the number of threads. *)
From S2P Require Import Prelude RustStr.

(** ** One gate *)

Record GateState := mkGate { shared : nat; exclusive : bool; waiting_exclusive : nat }.
Definition gate_default : GateState := mkGate 0 false 0.

Inductive GateMode := Shared | Exclusive.

#[export] Instance GateMode_eq_dec : EqDecision GateMode.
Proof. solve_decision. Defined.
#[export] Instance GateState_eq_dec : EqDecision GateState.
Proof. solve_decision. Defined.

Definition is_exclusive (m : GateMode) : bool :=
  match m with Exclusive => true | Shared => false end.

(** The [admitted] test of the loop in [Gate::acquire]. *)
Definition admitted (m : GateMode) (st : GateState) : bool :=
  match m with
  | Shared => negb (exclusive st) && bool_decide (waiting_exclusive st = 0)
  | Exclusive => negb (exclusive st) && bool_decide (shared st = 0)
  end.

Definition register (m : GateMode) (st : GateState) : GateState :=
  if is_exclusive m then mkGate (shared st) (exclusive st) (S (waiting_exclusive st)) else st.

Definition unregister (m : GateMode) (st : GateState) : GateState :=
  if is_exclusive m then mkGate (shared st) (exclusive st) (pred (waiting_exclusive st)) else st.

Definition gate_take (m : GateMode) (st : GateState) : GateState :=
  match m with
  | Shared => mkGate (S (shared st)) (exclusive st) (waiting_exclusive st)
  | Exclusive => mkGate (shared st) true (waiting_exclusive st)
  end.

(** One turn of the admission loop, for a thread that is registered: admitted
    threads leave the queue and take the gate, the others keep waiting. *)
Definition gate_turn (m : GateMode) (st : GateState) : bool * GateState :=
  if admitted m st then (true, gate_take m (unregister m st)) else (false, st).

(** The first critical section of [Gate::acquire]: register, then one turn. *)
Definition gate_enter (m : GateMode) (st : GateState) : bool * GateState :=
  gate_turn m (register m st).

(** The critical section of a thread whose deadline has passed. *)
Definition gate_timeout (m : GateMode) (st : GateState) : GateState := unregister m st.

(** [Drop for GateGuard] *)
Definition gate_release (m : GateMode) (st : GateState) : GateState :=
  match m with
  | Shared => mkGate (pred (shared st)) (exclusive st) (waiting_exclusive st)
  | Exclusive => mkGate (shared st) false (waiting_exclusive st)
  end.

Fixpoint join (sep : string) (l : list string) : string :=
  match l with
  | [] => ""
  | [s] => s
  | s :: l' => s +:+ sep +:+ join sep l'
  end.

Definition describe (st : GateState) : string :=
  let held :=
    (if exclusive st then ["one exclusive operation"] else []) ++
    (if bool_decide (0 < shared st) then [print_uint (Z.of_nat (shared st)) +:+ " workspace operation(s)"] else []) ++
    (if bool_decide (0 < waiting_exclusive st)
     then [print_uint (Z.of_nat (waiting_exclusive st)) +:+ " waiting operation(s)"] else []) in
  match held with [] => "no holder recorded" | _ => join ", " held end.

(** ** Scopes and the gates they need *)

Inductive LeaseScope :=
  | Global
  | Sandbox (sandbox : string)
  | Workspace (sandbox workspace : string).

Inductive gate_id :=
  | GlobalGate
  | SandboxGate (sandbox : string)
  | WorkspaceGate (sandbox workspace : string).

#[export] Instance LeaseScope_eq_dec : EqDecision LeaseScope.
Proof. solve_decision. Defined.
#[export] Instance gate_id_eq_dec : EqDecision gate_id.
Proof. solve_decision. Defined.
#[export] Instance gate_id_countable : Countable gate_id.
Proof.
  refine (inj_countable'
    (λ g, match g with GlobalGate => inl tt | SandboxGate s => inr (inl s)
                     | WorkspaceGate s w => inr (inr (s, w)) end)
    (λ x, match x with inl _ => GlobalGate | inr (inl s) => SandboxGate s
                     | inr (inr (s, w)) => WorkspaceGate s w end) _).
  by intros [].
Defined.

(** The gates [LifecycleLeases::acquire] takes, in order. *)
Definition acquire_plan (scope : LeaseScope) : list (gate_id * GateMode) :=
  match scope with
  | Global => [(GlobalGate, Exclusive)]
  | Sandbox sandbox => [(GlobalGate, Shared); (SandboxGate sandbox, Exclusive)]
  | Workspace sandbox workspace =>
      [(GlobalGate, Shared); (WorkspaceGate sandbox workspace, Exclusive);
       (SandboxGate sandbox, Shared)]
  end.

(** [LifecycleLeases::acquire_workspace_only] *)
Definition workspace_only_plan (sandbox workspace : string) : list (gate_id * GateMode) :=
  [(WorkspaceGate sandbox workspace, Exclusive); (SandboxGate sandbox, Shared)].

(** ** The daemon's threads

    [held]: the guards the thread owns, oldest first.  [todo]: the gates the
    [acquire] call it is inside has still to take.  [waiting]: it is registered
    at the first of them and blocked on the condition variable. *)
Record thread := mkThread {
  held : list (gate_id * GateMode);
  todo : list (gate_id * GateMode);
  waiting : bool }.
Definition idle : thread := mkThread [] [] false.

#[export] Instance thread_eq_dec : EqDecision thread.
Proof. solve_decision. Defined.

Record leases := mkLeases { gates : gmap gate_id GateState; threads : gmap nat thread }.

(** [sandbox_gate], [workspace_gate]: [entry(..).or_default()]. *)
Definition gate (s : leases) (g : gate_id) : GateState := default gate_default (gates s !! g).

Definition update (s : leases) (g : gate_id) (st : GateState) (i : nat) (t : thread) : leases :=
  mkLeases (<[g := st]> (gates s)) (<[i := t]> (threads s)).

Definition init (n : nat) : leases :=
  mkLeases ∅ (list_to_map ((λ i, (i, idle)) <$> seq 0 n)).

Inductive label :=
  | LAcquire (scope : LeaseScope)           (* call [acquire] *)
  | LAcquireOnly (sandbox workspace : string) (* call [acquire_workspace_only] *)
  | LEnter                                  (* lock the next gate for the first time *)
  | LWake                                   (* woken in [wait_timeout]: another turn *)
  | LTimeout                                (* the deadline passed: [acquire] fails *)
  | LRelease (k : nat).                     (* drop the [k]th guard *)

(** One atomic step of thread [i]; [None] when the thread is not at that point. *)
Definition step (i : nat) (l : label) (s : leases) : option leases :=
  t ← threads s !! i;
  match l with
  | LAcquire scope =>
      match held t, todo t with
      | [], [] => Some (mkLeases (gates s) (<[i := mkThread [] (acquire_plan scope) false]> (threads s)))
      | _, _ => None
      end
  | LAcquireOnly sandbox workspace =>
      match todo t with
      | [] =>
          if forallb (λ p, bool_decide (p.1 = GlobalGate)) (held t)
          then Some (mkLeases (gates s)
                 (<[i := mkThread (held t) (workspace_only_plan sandbox workspace) false]> (threads s)))
          else None
      | _ => None
      end
  | LEnter =>
      match todo t with
      | (g, m) :: rest =>
          if waiting t then None
          else match gate_enter m (gate s g) with
               | (true, st) => Some (update s g st i (mkThread (held t ++ [(g, m)]) rest false))
               | (false, st) => Some (update s g st i (mkThread (held t) (todo t) true))
               end
      | [] => None
      end
  | LWake =>
      match todo t with
      | (g, m) :: rest =>
          if waiting t then
            match gate_turn m (gate s g) with
            | (true, st) => Some (update s g st i (mkThread (held t ++ [(g, m)]) rest false))
            | (false, st) => Some s
            end
          else None
      | [] => None
      end
  | LTimeout =>
      match todo t with
      | (g, m) :: _ =>
          if waiting t && negb (admitted m (gate s g))
          then Some (update s g (gate_timeout m (gate s g)) i (mkThread (held t) [] false))
          else None
      | [] => None
      end
  | LRelease k =>
      match todo t, held t !! k with
      | [], Some (g, m) =>
          Some (update s g (gate_release m (gate s g)) i (mkThread (delete k (held t)) [] false))
      | _, _ => None
      end
  end.

Inductive reachable : leases → Prop :=
  | reach_init n : reachable (init n)
  | reach_step s s' i l : reachable s → step i l s = Some s' → reachable s'.

Fixpoint run (sched : list (nat * label)) (s : leases) : option leases :=
  match sched with
  | [] => Some s
  | (i, l) :: sched' => step i l s ≫= run sched'
  end.

(** ** Invariant *)

Definition holds (g : gate_id) (m : GateMode) (t : thread) : nat :=
  length (filter (λ p, p = (g, m)) (held t)).
Definition waits (g : gate_id) (t : thread) : nat :=
  if waiting t && bool_decide (head (todo t) = Some (g, Exclusive)) then 1 else 0.
Definition flag (b : bool) : nat := if b then 1 else 0.

(** The counters of a gate are exactly the guards and the registrations of the
    threads, and an exclusive holder is alone. *)
Definition gate_ok (st : GateState) (ts : gmap nat thread) (g : gate_id) : Prop :=
  shared st = msum (holds g Shared) ts ∧
  flag (exclusive st) = msum (holds g Exclusive) ts ∧
  waiting_exclusive st = msum (waits g) ts ∧
  (exclusive st = true → shared st = 0).

Definition rank (g : gate_id) : nat :=
  match g with GlobalGate => 0 | WorkspaceGate _ _ => 1 | SandboxGate _ => 2 end.

Definition lower (p q : gate_id * GateMode) : Prop := rank p.1 < rank q.1.

(** The lock order: what a thread waits for ranks above what it holds. *)
Definition thread_ok (t : thread) : Prop :=
  (∀ p q, p ∈ held t → q ∈ todo t → lower p q) ∧ StronglySorted lower (todo t) ∧
  (waiting t = true → todo t ≠ []).

Definition inv (s : leases) : Prop :=
  (∀ g, gate_ok (gate s g) (threads s) g) ∧
  ∀ i t, threads s !! i = Some t → thread_ok t.

Lemma gate_update s g st i t g' :
  gate (update s g st i t) g' = if decide (g' = g) then st else gate s g'.
Proof.
  unfold gate, update. cbn. case_decide; subst.
  - by rewrite lookup_insert_eq.
  - by rewrite lookup_insert_ne.
Qed.

Lemma holds_snoc g m h g' m' td td' w w' :
  holds g m (mkThread (h ++ [(g', m')]) td w) =
  holds g m (mkThread h td' w') + (if decide ((g', m') = (g, m)) then 1 else 0).
Proof.
  unfold holds. cbn [held]. rewrite list.filter_app, length_app. f_equal.
  rewrite filter_cons. by case_decide.
Qed.

Lemma holds_delete g m h k g' m' td w t :
  h !! k = Some (g', m') → held t = h →
  holds g m t =
  holds g m (mkThread (delete k h) td w) + (if decide ((g', m') = (g, m)) then 1 else 0).
Proof.
  intros Hk Ht. unfold holds. cbn [held]. rewrite Ht.
  rewrite <-(take_drop_middle h k (g', m') Hk) at 1. rewrite delete_take_drop.
  rewrite !list.filter_app, !length_app, filter_cons. case_decide; cbn [length]; lia.
Qed.

(** Replacing one thread moves the sums by the difference of its shares. *)
Lemma gate_ok_update st st' ts g i t t' :
  gate_ok st ts g → ts !! i = Some t →
  shared st' + holds g Shared t = shared st + holds g Shared t' →
  flag (exclusive st') + holds g Exclusive t = flag (exclusive st) + holds g Exclusive t' →
  waiting_exclusive st' + waits g t = waiting_exclusive st + waits g t' →
  (exclusive st' = true → shared st' = 0) →
  gate_ok st' (<[i := t']> ts) g.
Proof.
  intros (H1 & H2 & H3 & H4) Hi E1 E2 E3 E4.
  pose proof (msum_update (holds g Shared) _ _ _ t' Hi).
  pose proof (msum_update (holds g Exclusive) _ _ _ t' Hi).
  pose proof (msum_update (waits g) _ _ _ t' Hi).
  split_and!; [lia..|done].
Qed.

(** A step changes one thread and, unless it only starts a call, one gate; the
    invariant follows from the arithmetic at that gate. *)
Lemma inv_update s g st i t t' :
  inv s → threads s !! i = Some t → thread_ok t' →
  (∀ g', g' ≠ g → (∀ m, holds g' m t' = holds g' m t) ∧ waits g' t' = waits g' t) →
  shared st + holds g Shared t = shared (gate s g) + holds g Shared t' →
  flag (exclusive st) + holds g Exclusive t = flag (exclusive (gate s g)) + holds g Exclusive t' →
  waiting_exclusive st + waits g t = waiting_exclusive (gate s g) + waits g t' →
  (exclusive st = true → shared st = 0) →
  inv (update s g st i t').
Proof.
  intros [Hg Ht] Hi Hok Hother E1 E2 E3 E4. split.
  - intros g'. rewrite gate_update. unfold update. cbn [threads].
    destruct (decide (g' = g)) as [->|Hne].
    + by apply (gate_ok_update (gate s g) _ _ _ _ t).
    + destruct (Hother g' Hne) as [Hh Hw].
      apply (gate_ok_update (gate s g') _ _ _ _ t); [apply Hg|done|..];
        rewrite ?Hh, ?Hw; [lia..|apply Hg].
  - intros j t''. unfold update. cbn [threads]. rewrite lookup_insert_Some.
    intros [[<- <-]|[_ Hj]]; [done|by eapply Ht].
Qed.

(** ** Every step preserves the invariant *)

Lemma acquire_plan_sorted scope : StronglySorted lower (acquire_plan scope).
Proof. destruct scope; repeat constructor; unfold lower; cbn; lia. Qed.
Lemma workspace_only_plan_sorted sb ws : StronglySorted lower (workspace_only_plan sb ws).
Proof. repeat constructor; unfold lower; cbn; lia. Qed.
#[local] Hint Resolve acquire_plan_sorted workspace_only_plan_sorted : enclave.

(** The part of the invariant that concerns gates does not look at a call that
    has not reached its first gate. *)
Lemma inv_begin s i t t' :
  inv s → threads s !! i = Some t → thread_ok t' →
  held t' = held t → waiting t = false → waiting t' = false →
  inv (mkLeases (gates s) (<[i := t']> (threads s))).
Proof.
  intros [Hg Ht] Hi Hok Hh Hw Hw'. split.
  - intros g. apply (gate_ok_update (gate s g) _ _ _ _ t); [apply Hg|done|..];
      unfold holds, waits; rewrite ?Hh, ?Hw, ?Hw'; [done..|apply Hg].
  - intros j t''. cbn [threads]. rewrite lookup_insert_Some.
    intros [[<- <-]|[_ Hj]]; [done|by eapply Ht].
Qed.

(** Leaving the queue of [g] with the gate taken; [reg]: the thread was
    registered before this step. *)
Lemma inv_taken s i h td g m rest (reg : bool) :
  inv s → threads s !! i = Some (mkThread h td reg) → td = (g, m) :: rest →
  admitted m (gate s g) = true ∨ (reg = false ∧ admitted m (register m (gate s g)) = true) →
  inv (update s g
    (gate_take m (unregister m (if reg then gate s g else register m (gate s g)))) i
    (mkThread (h ++ [(g, m)]) rest false)).
Proof.
  intros Hinv Hi -> Hadm. pose proof Hinv as [Hg Ht].
  destruct (Ht _ _ Hi) as (Hlow & Hsort & _). cbn in Hlow, Hsort.
  inversion Hsort as [|? ? Hsort' Hall]; subst. rewrite list.Forall_forall in Hall.
  assert (∀ g' m', g' ≠ g → holds g' m' (mkThread (h ++ [(g, m)]) rest false) =
            holds g' m' (mkThread h ((g, m) :: rest) reg)) as Hne.
  { intros g' m' Hgg. rewrite (holds_snoc _ _ _ _ _ _ ((g, m) :: rest) _ reg).
    rewrite decide_False by congruence. lia. }
  assert (waits g (mkThread h ((g, m) :: rest) reg) = flag (reg && is_exclusive m)) as Hw.
  { unfold waits. cbn. destruct reg, m; cbn; try done.
    - by rewrite bool_decide_eq_false_2 by congruence.
    - by rewrite bool_decide_eq_true_2. }
  pose proof (msum_le (waits g) _ _ _ Hi) as Hle. destruct (Hg g) as (_ & _ & Hwe & _).
  eapply inv_update; [done|done| | | | | |].
  - split_and!; [|done|done]. cbn. intros p q [Hp| ->%list_elem_of_singleton]%elem_of_app Hq.
    + apply Hlow; [done|]. apply elem_of_cons. by right.
    + by apply Hall.
  - intros g' Hgg. split; [intros m'; by apply Hne|]. unfold waits. cbn.
    destruct reg; [|done]. rewrite bool_decide_eq_false_2; [done|congruence].
  - rewrite (holds_snoc _ _ _ _ _ _ ((g, m) :: rest) _ reg).
    destruct m, reg; cbn; repeat case_decide; simplify_eq; lia.
  - rewrite (holds_snoc _ _ _ _ _ _ ((g, m) :: rest) _ reg).
    unfold admitted in Hadm. destruct m, reg; cbn in *; repeat case_decide; simplify_eq; try lia;
    destruct (exclusive (gate s g)); cbn in *; intuition (discriminate || lia).
  - rewrite Hw in *. unfold waits at 1. cbn. destruct m, reg; cbn in *; lia.
  - destruct (Hg g) as (_ & _ & _ & Hex).
    unfold admitted in Hadm. destruct m, reg; cbn in *;
    repeat case_bool_decide; destruct (exclusive (gate s g)); cbn in *;
      intuition (discriminate || lia).
Qed.

(** Joining the queue of [g] without being admitted. *)
Lemma inv_blocked s i h g m rest :
  inv s → threads s !! i = Some (mkThread h ((g, m) :: rest) false) →
  inv (update s g (register m (gate s g)) i (mkThread h ((g, m) :: rest) true)).
Proof.
  intros Hinv Hi. pose proof Hinv as [Hg Ht]. destruct (Ht _ _ Hi) as (Hlow & Hsort & _).
  destruct (Hg g) as (_ & _ & _ & Hex).
  assert (∀ b, waits g (mkThread h ((g, m) :: rest) b) = flag (b && is_exclusive m)) as Hw.
  { intros b. unfold waits. cbn. destruct b, m; cbn; try done.
    - by rewrite bool_decide_eq_false_2 by congruence.
    - by rewrite bool_decide_eq_true_2. }
  eapply inv_update; [done|done| | | | | |]; try (destruct m; done).
  - intros g' Hgg. split; [done|]. unfold waits. cbn.
    rewrite bool_decide_eq_false_2; [done|congruence].
  - rewrite !Hw. destruct m; cbn; lia.
Qed.

Lemma inv_timeout s i h g m rest :
  inv s → threads s !! i = Some (mkThread h ((g, m) :: rest) true) →
  inv (update s g (gate_timeout m (gate s g)) i (mkThread h [] false)).
Proof.
  intros Hinv Hi. pose proof Hinv as [Hg Ht]. destruct (Ht _ _ Hi) as (Hlow & Hsort & _).
  destruct (Hg g) as (_ & _ & Hwe & Hex).
  assert (waits g (mkThread h ((g, m) :: rest) true) = flag (is_exclusive m)) as Hw.
  { unfold waits. cbn. destruct m; cbn.
    - by rewrite bool_decide_eq_false_2 by congruence.
    - by rewrite bool_decide_eq_true_2. }
  pose proof (msum_le (waits g) _ _ _ Hi) as Hle.
  eapply inv_update; [done|done| | | | | |]; try (destruct m; done).
  - split_and!; cbn; [set_solver|constructor|done].
  - intros g' Hgg. split; [done|]. unfold waits. cbn.
    rewrite bool_decide_eq_false_2; [done|congruence].
  - rewrite Hw in *. unfold waits at 1. destruct m; cbn in *; lia.
Qed.

Lemma inv_release s i t k g m :
  inv s → threads s !! i = Some t → todo t = [] → held t !! k = Some (g, m) →
  inv (update s g (gate_release m (gate s g)) i (mkThread (delete k (held t)) [] false)).
Proof.
  intros Hinv Hi Htd Hk. pose proof Hinv as [Hg Ht].
  destruct (Hg g) as (Hs & He & Hwe & Hex).
  assert (∀ g', waits g' t = 0) as Hw.
  { intros g'. unfold waits. rewrite Htd. cbn. by rewrite andb_false_r. }
  pose proof (msum_le (holds g m) _ _ _ Hi) as Hle.
  assert (∀ g' m', holds g' m' t = holds g' m' (mkThread (delete k (held t)) [] false) +
            (if decide ((g, m) = (g', m')) then 1 else 0)) as Hd.
  { intros. by apply holds_delete. }
  eapply inv_update; [done|done| | | | | |].
  - split_and!; cbn; [set_solver|constructor|done].
  - intros g' Hgg. rewrite Hw. split; [|done]. intros m'. rewrite (Hd g' m').
    rewrite decide_False by congruence. lia.
  - pose proof (Hd g Shared). destruct m; cbn -[holds]; repeat case_decide; simplify_eq; lia.
  - pose proof (Hd g Exclusive). destruct m; cbn -[holds]; repeat case_decide; simplify_eq; try lia.
    destruct (exclusive (gate s g)); cbn in *; lia.
  - rewrite Hw. destruct m; cbn; lia.
  - destruct m; cbn; [|done]. intros Hx. specialize (Hex Hx). lia.
Qed.

Lemma step_inv i l s s' : inv s → step i l s = Some s' → inv s'.
Proof.
  intros Hinv Hstep. unfold step in Hstep.
  destruct (threads s !! i) as [[h td w]|] eqn:Hi; [|done]. cbn in Hstep.
  pose proof (proj2 Hinv _ _ Hi) as (Hlow & Hsort & Hw). cbn in Hlow, Hsort, Hw.
  destruct l as [scope|sb ws| | | |k].
  - destruct h, td; simplify_eq/=. eapply inv_begin; [done|done| |done| |done].
    + split_and!; cbn; [set_solver|auto with enclave|done].
    + cbn. destruct w; [by destruct Hw|done].
  - destruct td; [|done]. destruct (forallb _ h) eqn:Hf; simplify_eq/=.
    eapply inv_begin; [done|done| |done| |done].
    + split_and!; cbn; [|auto with enclave|done]. intros p q Hp Hq.
      rewrite forallb_forall in Hf. specialize (Hf p). rewrite bool_decide_eq_true in Hf.
      unfold lower. rewrite Hf by (by apply list_elem_of_In). cbn.
      unfold workspace_only_plan in Hq. set_unfold in Hq. destruct Hq as [->|[->|[]]]; cbn; lia.
    + cbn. destruct w; [by destruct Hw|done].
  - destruct td as [|[g m] rest]; [done|]. destruct w; [done|].
    unfold gate_enter, gate_turn in Hstep. destruct (admitted m _) eqn:Ha; simplify_eq/=.
    + eapply (inv_taken s i h _ g m rest false); [done|done|done|]. by right.
    + by apply inv_blocked.
  - destruct td as [|[g m] rest]; [done|]. destruct w; [|done].
    unfold gate_turn in Hstep. destruct (admitted m _) eqn:Ha; simplify_eq/=; [|done].
    eapply (inv_taken s i h _ g m rest true); [done|done|done|]. by left.
  - destruct td as [|[g m] rest]; [done|]. destruct w; [|done].
    destruct (admitted m _) eqn:Ha; simplify_eq/=. by eapply inv_timeout.
  - destruct td as [|[g m] rest]; [|done]. destruct (h !! k) as [[g m]|] eqn:Hk; simplify_eq/=.
    by apply (inv_release s i (mkThread h [] w)).
Qed.

Lemma init_thread n i t : threads (init n) !! i = Some t → t = idle.
Proof.
  unfold init. cbn. intros H. apply elem_of_list_to_map_2 in H.
  apply list_elem_of_fmap in H as (j & [= -> ->] & _). done.
Qed.

Lemma reachable_inv s : reachable s → inv s.
Proof.
  induction 1 as [n|s s' i l _ IH Hs]; [|by eapply step_inv]. split.
  - intros g. unfold gate. cbn. rewrite lookup_empty. cbn.
    split_and!; cbn; [| | |done]; symmetry; apply msum_zero;
      by intros i t ->%init_thread.
  - intros i t ->%init_thread. split_and!; cbn; [set_solver|constructor|done].
Qed.

(** ** What the leases guarantee *)

(** The resources an operation of a scope touches: a workspace of a sandbox. *)
Definition covers (scope : LeaseScope) (sandbox workspace : string) : bool :=
  match scope with
  | Global => true
  | Sandbox s => bool_decide (s = sandbox)
  | Workspace s w => bool_decide (s = sandbox) && bool_decide (w = workspace)
  end.

(** The thread owns a complete lease of the scope. *)
Definition owns (t : thread) (scope : LeaseScope) : Prop := acquire_plan scope ⊆ held t.

#[export] Instance owns_dec t scope : Decision (owns t scope).
Proof. unfold owns. apply _. Defined.

Lemma holds_pos g m t : (g, m) ∈ held t ↔ 0 < holds g m t.
Proof.
  unfold holds. split.
  - intros Hin. assert ((g, m) ∈ filter (λ p, p = (g, m)) (held t)) as H.
    { by apply list_elem_of_filter. }
    destruct (filter _ _); [by apply not_elem_of_nil in H|cbn; lia].
  - destruct (filter _ (held t)) as [|p l] eqn:E; [cbn; lia|]. intros _.
    assert (p ∈ filter (λ p, p = (g, m)) (held t)) as H by (rewrite E; by apply elem_of_cons; left).
    apply list_elem_of_filter in H as [-> ?]. done.
Qed.

(** A gate held exclusively is held by nobody else, in any mode. *)
Lemma exclusive_alone s g i j ti tj m :
  inv s → threads s !! i = Some ti → threads s !! j = Some tj →
  (g, Exclusive) ∈ held ti → (g, m) ∈ held tj → i = j.
Proof.
  intros [Hg _] Hi Hj He Hm. destruct (decide (i = j)) as [|Hne]; [done|exfalso].
  destruct (Hg g) as (Hs & Hx & _ & Hex). apply holds_pos in He, Hm.
  pose proof (msum_le (holds g Exclusive) _ _ _ Hi).
  destruct (exclusive (gate s g)); cbn in Hx; [|lia]. specialize (Hex eq_refl). destruct m.
  - pose proof (msum_le (holds g Shared) _ _ _ Hj). lia.
  - pose proof (msum_le_two (holds g Exclusive) _ i j ti tj Hne Hi Hj). lia.
Qed.

(** Scopes that touch a common resource meet at a gate one of them needs
    exclusively. *)
Lemma overlap_gate c1 c2 sb ws :
  covers c1 sb ws = true → covers c2 sb ws = true →
  ∃ g m1 m2, (g, m1) ∈ acquire_plan c1 ∧ (g, m2) ∈ acquire_plan c2 ∧
    (m1 = Exclusive ∨ m2 = Exclusive).
Proof.
  intros H1 H2.
  destruct c1 as [|s1|s1 w1], c2 as [|s2|s2 w2]; cbn in *;
    rewrite ?andb_true_iff, ?bool_decide_eq_true in *; destruct_and?; subst;
    try (by exists GlobalGate; do 2 eexists; split_and!;
         [apply elem_of_cons; by left..|auto]).
  - exists (SandboxGate sb), Exclusive, Exclusive. set_solver.
  - exists (SandboxGate sb), Exclusive, Shared. set_solver.
  - exists (SandboxGate sb), Shared, Exclusive. set_solver.
  - exists (WorkspaceGate sb ws), Exclusive, Exclusive. set_solver.
Qed.

(** C2: mutual exclusion.  In every reachable state of any number of threads
    acquiring, waiting, timing out and releasing in any interleaving, two
    threads that own leases never own scopes that touch a common workspace: a
    global operation runs alone, a sandbox-wide one excludes every operation on
    that sandbox, and two operations on one workspace exclude each other. *)
Theorem lease_mutual_exclusion s i j ti tj c1 c2 :
  reachable s → threads s !! i = Some ti → threads s !! j = Some tj → i ≠ j →
  owns ti c1 → owns tj c2 →
  ∀ sb ws, covers c1 sb ws && covers c2 sb ws = false.
Proof.
  intros Hr Hi Hj Hne H1 H2 sb ws. apply andb_false_iff.
  destruct (covers c1 sb ws) eqn:E1; [right|by left].
  destruct (covers c2 sb ws) eqn:E2; [|done]. exfalso. apply Hne.
  destruct (overlap_gate _ _ _ _ E1 E2) as (g & m1 & m2 & Hg1 & Hg2 & Hm).
  apply H1 in Hg1. apply H2 in Hg2. apply reachable_inv in Hr.
  destruct Hm; subst; [|symmetry]; by eapply exclusive_alone.
Qed.

(** ** The condition variables *)

(** The leases, and the waiting threads that are asleep: blocked in [wait_timeout] and not
    notified since. *)
Record monitors := mkMonitors { now : leases; asleep : gset nat }.

Definition waits_at (s : leases) (g : gate_id) (i : nat) : bool :=
  match threads s !! i with
  | Some t => waiting t && bool_decide (fst <$> head (todo t) = Some g)
  | None => false
  end.
(** [notify_all] on the condition variable of a gate. *)
Definition notify_all (g : gate_id) (c : monitors) : monitors :=
  mkMonitors (now c) (filter (λ j, waits_at (now c) g j = false) (asleep c)).
(** After its own step a thread sleeps if it waits. *)
Definition settle (i : nat) (s : leases) (a : gset nat) : gset nat :=
  match threads s !! i with Some t => if waiting t then {[i]} ∪ a else a ∖ {[i]} | None => a end.

(** A step with its effect on the sleepers: a thread tries again only once it is
    awake, its deadline wakes it as well, and the drop of a guard ends in [notify_all]. *)
Definition cv_step (i : nat) (l : label) (c : monitors) : option monitors :=
  match l with
  | LWake => if bool_decide (i ∈ asleep c) then None
             else s' ← step i l (now c); Some (mkMonitors s' (settle i s' (asleep c)))
  | LRelease k =>
      t ← threads (now c) !! i;
      p ← held t !! k;
      s' ← step i l (now c);
      Some (notify_all p.1 (mkMonitors s' (asleep c)))
  | _ => s' ← step i l (now c); Some (mkMonitors s' (settle i s' (asleep c)))
  end.

Inductive cv_reachable : monitors → Prop :=
  | cv_init n : cv_reachable (mkMonitors (init n) ∅)
  | cv_next c c' i l : cv_reachable c → cv_step i l c = Some c' → cv_reachable c'
  | cv_spurious c i : cv_reachable c → cv_reachable (mkMonitors (now c) (asleep c ∖ {[i]})).

Fixpoint cv_run (sched : list (nat * label)) (c : monitors) : option monitors :=
  match sched with
  | [] => Some c
  | (i, l) :: sched' => cv_step i l c ≫= cv_run sched'
  end.
Lemma cv_run_reachable sched c c' : cv_reachable c → cv_run sched c = Some c' → cv_reachable c'.
Proof.
  revert c. induction sched as [|[i l] sched IH]; cbn; intros c Hc H; [by simplify_eq|].
  apply bind_Some in H as (c1 & H1 & H). eapply IH; [|done]. by eapply cv_next.
Qed.

(** A thread that sleeps at a gate is not admitted, or only held back new shared holders
    before, and then a shared holder is there whose release will wake it. *)
Definition sleeps_for_reason (c : monitors) : Prop :=
  ∀ j t g m rest, j ∈ asleep c → threads (now c) !! j = Some t → todo t = (g, m) :: rest →
    waiting t = true ∧ (admitted m (gate (now c) g) = true → m = Shared ∧ 0 < shared (gate (now c) g)).

Lemma step_others i l s s' j : step i l s = Some s' → j ≠ i → threads s' !! j = threads s !! j.
Proof.
  intros H Hne. unfold step in H. destruct (threads s !! i) as [t|]; [|done]. cbn in H.
  destruct l; repeat (case_match; simplify_eq/=; try done); by rewrite lookup_insert_ne.
Qed.

(** A gate that was only taken, joined or left by others gives no sleeper a new
    reason to run, unless a shared holder is there. *)
Lemma taken_keeps m m' st : admitted m' (gate_take m st) = true → m' = Shared ∧ 0 < shared (gate_take m st).
Proof. destruct m, m'; cbn; rewrite ?andb_true_iff, ?bool_decide_eq_true; try done; [split; [done|lia]|lia|naive_solver..]. Qed.
Lemma registered_keeps m m' st : admitted m' (register m st) = true → admitted m' st = true ∧ shared (register m st) = shared st.
Proof.
  destruct m, m'; cbn; rewrite ?andb_true_iff, ?bool_decide_eq_true; try done; lia.
Qed.
Lemma timeout_keeps m m' st : admitted m st = false → admitted m' (gate_timeout m st) = true →
  admitted m' st = true ∧ shared (gate_timeout m st) = shared st ∨ m' = Shared ∧ 0 < shared (gate_timeout m st).
Proof.
  destruct m; [by left|]. destruct m'; cbn; [|by left]. intros Ha [He%negb_true_iff _]%andb_true_iff. right.
  split; [done|]. rewrite He in Ha. cbn in Ha. apply bool_decide_eq_false in Ha. lia.
Qed.

(** One thread moved and changed one gate. *)
Lemma sleeps_update c i t0 g0 st t a :
  sleeps_for_reason c → threads (now c) !! i = Some t0 → a ⊆ {[i]} ∪ asleep c →
  (∀ m, admitted m st = true → m = Shared ∧ 0 < shared st ∨
     admitted m (gate (now c) g0) = true ∧ shared st = shared (gate (now c) g0)) →
  (i ∈ a → waiting t = true ∧ ∃ m rest, todo t = (g0, m) :: rest ∧ admitted m st = false) →
  sleeps_for_reason (mkMonitors (update (now c) g0 st i t) a).
Proof.
  intros Hc Hi Ha Hst Hown j u g m rest Hj Hu Htd. cbn [now asleep] in *. unfold update in Hu. cbn [threads] in Hu.
  rewrite gate_update. destruct (decide (j = i)) as [->|Hne].
  - rewrite lookup_insert_eq in Hu. injection Hu as <-. destruct (Hown Hj) as (Hw & m' & rest' & Htd' & Hadm).
    rewrite Htd' in Htd. injection Htd as <- <- <-. split; [done|]. rewrite decide_True by done. congruence.
  - rewrite lookup_insert_ne in Hu by done.
    destruct (Hc j u g m rest ltac:(set_solver) Hu Htd) as [Hw Hadm]. split; [done|].
    case_decide as Hg; [subst|done]. intros [?|[H1 ->]]%Hst; [done|by apply Hadm].
Qed.

Lemma cv_step_sleeps i l c c' : inv (now c) → sleeps_for_reason c → cv_step i l c = Some c' → sleeps_for_reason c'.
Proof.
  intros Hinv Hc H. destruct (threads (now c) !! i) as [[h td w]|] eqn:Hi;
    [|destruct l; cbn in H; unfold step in H; rewrite ?Hi in H; cbn in H; by repeat case_match].
  assert (∀ u, waiting u = false → sleeps_for_reason
    (mkMonitors (mkLeases (gates (now c)) (<[i := u]> (threads (now c)))) (asleep c ∖ {[i]}))) as Hplain.
  { intros u Hu j t g m rest Hj. cbn [now asleep threads] in *. rewrite lookup_insert_ne by set_solver.
    apply Hc. set_solver. }
  unfold cv_step in H. destruct l as [scope|sb ws| | | |k].
  - unfold step in H. rewrite Hi in H. cbn in H. destruct h, td; try done. cbn in H. injection H as <-.
    unfold settle. cbn [threads]. rewrite lookup_insert_eq. by apply Hplain.
  - unfold step in H. rewrite Hi in H. cbn in H. destruct td; [|done]. destruct (forallb _ _); [|done]. cbn in H.
    injection H as <-. unfold settle. cbn [threads]. rewrite lookup_insert_eq. by apply Hplain.
  - unfold step in H. rewrite Hi in H. cbn in H. destruct td as [|[g m] rest]; [done|]. destruct w; [done|].
    unfold gate_enter, gate_turn in H. destruct (admitted m (register m _)) eqn:Ha; cbn in H; injection H as <-;
      unfold settle; unfold update at 2; cbn [threads]; rewrite lookup_insert_eq; cbn [waiting].
    + eapply sleeps_update; [done|done|set_solver| |set_solver]. intros m' ?%taken_keeps. by left.
    + eapply sleeps_update; [done|done|set_solver| |by eauto]. intros m' ?%registered_keeps. by right.
  - case_bool_decide as Hin; [done|]. unfold step in H. rewrite Hi in H. cbn in H.
    destruct td as [|[g m] rest]; [done|]. destruct w; [|done].
    unfold gate_turn in H. destruct (admitted m _) eqn:Ha; cbn in H; injection H as <-; unfold settle.
    + unfold update at 2; cbn [threads]. rewrite lookup_insert_eq. cbn [waiting].
      eapply sleeps_update; [done|done|set_solver| |set_solver]. intros m' ?%taken_keeps. by left.
    + rewrite Hi. cbn [waiting]. intros j t g' m' rest' Hj Ht Htd. cbn [now asleep] in *.
      destruct (decide (j = i)) as [->|]; [|apply (Hc j t g' m' rest'); [set_solver|done..]].
      rewrite Hi in Ht. injection Ht as <-. cbn in Htd. injection Htd as <- <- <-. split; [done|]. congruence.
  - unfold step in H. rewrite Hi in H. cbn in H. destruct td as [|[g m] rest]; [done|]. destruct w; [|done].
    destruct (admitted m _) eqn:Ha; [done|]. cbn in H. injection H as <-. unfold settle, update at 2. cbn [threads].
    rewrite lookup_insert_eq. cbn [waiting]. eapply sleeps_update; [done|done|set_solver| |set_solver].
    intros m' Hm'. destruct (timeout_keeps _ _ _ Ha Hm'); auto.
  - rewrite Hi in H. cbn in H. destruct (h !! k) as [[g m]|] eqn:Hk; [|done]. cbn in H. unfold step in H.
    rewrite Hi in H. cbn in H. destruct td; [|done]. rewrite Hk in H. cbn in H. injection H as <-.
    intros j t g' m' rest'. unfold notify_all. cbn [now asleep]. intros [Hj Hin]%elem_of_filter Ht Htd.
    rewrite gate_update. unfold waits_at in Hj. unfold update in Ht, Hj. cbn [threads] in Ht, Hj.
    rewrite Ht, Htd in Hj.
    destruct (decide (j = i)) as [->|Hne]; [rewrite lookup_insert_eq in Ht; by injection Ht as <-|].
    rewrite lookup_insert_ne in Ht by done.
    destruct (Hc j t g' m' rest' Hin Ht Htd) as [Hw Hadm]. rewrite Hw in Hj. cbn in Hj. apply bool_decide_eq_false in Hj.
    split; [done|]. rewrite decide_False by congruence. done.
Qed.

Lemma cv_reachable_ok c : cv_reachable c → reachable (now c) ∧ sleeps_for_reason c.
Proof.
  induction 1 as [n|c c' i l _ [Hr Hs] Hstep|c i _ [Hr Hs]].
  - split; [constructor|]. intros j t g m rest Hj. by apply not_elem_of_empty in Hj.
  - split; [|by eapply cv_step_sleeps; [apply reachable_inv| |]].
    destruct l; cbn in Hstep; repeat case_match; try done;
      repeat (match goal with H : _ ≫= _ = Some _ |- _ => apply bind_Some in H as (? & ? & H) end);
      simplify_eq/=; by eapply reach_step.
  - split; [done|]. intros j t g m rest Hj. apply Hs. set_solver.
Qed.

(** A thread that can move: it runs with its lease, is about to lock a gate for the
    first time, or waits at a gate that would admit it and is awake. *)
Definition can_move (c : monitors) (i : nat) (t : thread) : bool :=
  match todo t with
  | [] => negb (bool_decide (held t = []))
  | (g, m) :: _ => negb (waiting t) || (bool_decide (i ∉ asleep c) && admitted m (gate (now c) g))
  end.
Definition movable (c : monitors) : Prop := ∃ j t, threads (now c) !! j = Some t ∧ can_move c j t = true.

Lemma holder_of s g m : inv s → 0 < msum (holds g m) (threads s) →
  ∃ j t, threads s !! j = Some t ∧ (g, m) ∈ held t.
Proof. intros _ (j & t & Hj & H)%msum_pos. exists j, t. split; [done|]. by apply holds_pos. Qed.

(** Somebody holds a gate at which a thread cannot go on, or the exclusive waiter it gives
    way to is awake and admitted. *)
Lemma blocked_by c i t g m rest :
  inv (now c) → sleeps_for_reason c → threads (now c) !! i = Some t → todo t = (g, m) :: rest → can_move c i t = false →
  (∃ j u m', threads (now c) !! j = Some u ∧ (g, m') ∈ held u) ∨ movable c.
Proof.
  intros Hinv Hsl Hi Htd Hc. pose proof (proj1 Hinv g) as (Hs & Hx & Hw & _).
  destruct (decide (0 < msum (holds g Shared) (threads (now c)))) as [Hp|Hp].
  { apply holder_of in Hp as (j & u & ? & ?); [|done]. left. eauto. }
  destruct (decide (0 < msum (holds g Exclusive) (threads (now c)))) as [Hp'|Hp'].
  { apply holder_of in Hp' as (j & u & ? & ?); [|done]. left. eauto. }
  right. assert (exclusive (gate (now c) g) = false) as He by (destruct (exclusive _); cbn in *; lia).
  assert (∀ j u m' rest', threads (now c) !! j = Some u → todo u = (g, m') :: rest' →
    admitted m' (gate (now c) g) = true → can_move c j u = true) as Hawake.
  { intros j u m' rest' Hj Hu Hadm. unfold can_move. rewrite Hu, Hadm, andb_true_r. apply orb_true_iff. right.
    apply bool_decide_eq_true. intros Hin. destruct (Hsl j u g m' rest' Hin Hj Hu) as [_ Hr].
    destruct (Hr Hadm) as [_ ?]. lia. }
  assert (admitted m (gate (now c) g) = false) as Hadm.
  { destruct (admitted m _) eqn:E; [|done]. by rewrite (Hawake i t m rest) in Hc. }
  destruct (msum_pos (waits g) (threads (now c))) as (j & u & Hj & Hpos).
  { rewrite <-Hw. destruct m; unfold admitted in Hadm; rewrite He in Hadm; cbn in Hadm;
      apply bool_decide_eq_false in Hadm; lia. }
  exists j, u. split; [done|]. unfold waits in Hpos. destruct (waiting u); cbn in Hpos; [|lia].
  case_bool_decide as Hh; [|lia]. destruct (todo u) as [|[g' m'] rest'] eqn:Hu; simplify_eq/=.
  eapply Hawake; [done|done|]. cbn. rewrite He. cbn. apply bool_decide_eq_true. lia.
Qed.

(** A holder of a gate either runs or wants a gate of higher rank. *)
Lemma holder_next c j t g m :
  inv (now c) → threads (now c) !! j = Some t → (g, m) ∈ held t →
  can_move c j t = true ∨ ∃ g' m' rest, todo t = (g', m') :: rest ∧ rank g < rank g'.
Proof.
  intros Hinv Hj Hh. destruct (proj2 Hinv _ _ Hj) as (Hlow & _ & _).
  unfold can_move. destruct (todo t) as [|[g' m'] rest] eqn:Htd.
  - left. destruct (held t); [by apply not_elem_of_nil in Hh|done].
  - right. exists g', m', rest. split; [done|].
    apply (Hlow (g, m) (g', m')); [done|apply elem_of_cons; by left].
Qed.

Lemma waiting_progress c n : inv (now c) → sleeps_for_reason c →
  ∀ i t g m rest, threads (now c) !! i = Some t → todo t = (g, m) :: rest → 2 - rank g ≤ n → movable c.
Proof.
  intros Hinv Hsl. induction n as [|n IH]; intros i t g m rest Hi Htd Hn;
    (destruct (can_move c i t) eqn:Hc; [by exists i, t|]);
    (destruct (blocked_by c i t g m rest Hinv Hsl Hi Htd Hc) as [(j & t' & m' & Hj & Hh)|]; [|done]);
    destruct (holder_next c j t' g m' Hinv Hj Hh) as [|(g' & m'' & rest' & Htd' & Hrk)]; try (by exists j, t').
  - destruct g, g'; cbn in *; lia.
  - apply (IH j t' g' m'' rest'); [done..|]. destruct g, g'; cbn in *; lia.
Qed.

(** C30: no deadlock and no lost wake-up.  Waiting threads sleep until the drop of a guard of
    their gate notifies them, a spurious wake-up or their deadline.  In any reachable
    state in which some thread is inside [acquire], at least one thread can move although
    nobody times out and no wake-up is spurious: it runs with a lease it will drop, it is
    about to try a gate, or it waits, awake, at a gate that admits it.  Holding back
    new shared holders while an exclusive one waits, and the nested
    [acquire_workspace_only] under the global gate, introduce no cycle. *)
Theorem lease_no_deadlock c i t :
  cv_reachable c → threads (now c) !! i = Some t → todo t ≠ [] →
  ∃ j t', threads (now c) !! j = Some t' ∧ can_move c j t' = true ∧
    ∃ l c', l ∈ [LRelease 0; LEnter; LWake] ∧ cv_step j l c = Some c'.
Proof.
  intros [Hr Hsl]%cv_reachable_ok Hi Htd. destruct (todo t) as [|[g m] rest] eqn:E; [done|].
  destruct (waiting_progress c 2 (reachable_inv _ Hr) Hsl i t g m rest Hi E) as (j & t' & Hj & Hmv); [lia|].
  exists j, t'. split; [done|]. split; [done|]. unfold can_move in Hmv. destruct (todo t') as [|[g' m'] rest'] eqn:Et.
  - exists (LRelease 0). destruct (held t') as [|[g' m'] l] eqn:Eh; [done|]. eexists. split; [by left|].
    cbn. rewrite Hj. cbn. rewrite Eh. cbn. unfold step. rewrite Hj. cbn. by rewrite Et, Eh.
  - destruct (waiting t') eqn:Ew; cbn in Hmv.
    + apply andb_true_iff in Hmv as [Hin%bool_decide_eq_true Ha]. exists LWake. eexists. split; [set_solver|].
      cbn. rewrite bool_decide_eq_false_2 by tauto. unfold step. rewrite Hj. cbn. rewrite Et, Ew. unfold gate_turn. by rewrite Ha.
    + exists LEnter. cbn. unfold step. rewrite Hj. cbn. rewrite Et, Ew. destruct (gate_enter m' _) as [[|] st]; eexists; (split; [set_solver|done]).
Qed.

(** Giving up on an exclusive gate notifies nobody: a shared waiter that was held back
    only for the one that timed out stays asleep at a gate that admits it, until a holder
    drops its guard. *)
Theorem timeout_wakes_nobody :
  ∃ c t, cv_reachable c ∧ threads (now c) !! 2 = Some t ∧ todo t = [(GlobalGate, Shared); (SandboxGate "s", Exclusive)] ∧
    2 ∈ asleep c ∧ admitted Shared (gate (now c) GlobalGate) = true.
Proof.
  destruct (cv_run [(0, LAcquire (Sandbox "r")); (0, LEnter); (1, LAcquire Global); (1, LEnter); (2, LAcquire (Sandbox "s"));
    (2, LEnter); (1, LTimeout)] (mkMonitors (init 3) ∅)) as [c|] eqn:E; [|by vm_compute in E].
  exists c. eexists. split; [by eapply cv_run_reachable; [apply cv_init|]|].
  vm_compute in E. injection E as <-. split_and!; [reflexivity|done|by apply (bool_decide_unpack _)|done].
Qed.

(** Starvation freedom of admission.  While a thread waits for exclusive
    access to a gate, no step of any thread adds a shared holder to it, so the
    holders it waits for can only get fewer. *)
Theorem waiting_exclusive_not_overtaken s s' i t g rest j l :
  reachable s → threads s !! i = Some t → waiting t = true →
  todo t = (g, Exclusive) :: rest → step j l s = Some s' →
  shared (gate s' g) ≤ shared (gate s g).
Proof.
  intros Hr Hi Hw Htd Hstep. apply reachable_inv in Hr as [Hg _].
  destruct (Hg g) as (_ & _ & Hwe & _).
  assert (1 ≤ waiting_exclusive (gate s g)) as Hpos.
  { rewrite Hwe. etrans; [|by eapply msum_le]. unfold waits. rewrite Hw, Htd. cbn.
    by rewrite bool_decide_eq_true_2. }
  unfold step in Hstep. destruct (threads s !! j) as [[h td w]|]; [|done].
  destruct l; cbn in Hstep; unfold gate_enter, gate_turn in Hstep;
    repeat (case_match; simplify_eq/=; try done; try lia);
    rewrite gate_update; case_decide; subst; try lia;
    match goal with m : GateMode |- _ => destruct m end; cbn in *; try lia;
    match goal with H : _ && _ = true |- _ => apply andb_true_iff in H as [_ H];
      apply bool_decide_eq_true in H; lia | _ => idtac end.
Qed.

(** A gate with no holder in conflict and no waiter admits at once. *)
Lemma enter_free s i h g m rest :
  inv s → threads s !! i = Some (mkThread h ((g, m) :: rest) false) →
  (∀ j t, threads s !! j = Some t → waiting t = false ∧
     ∀ m', (g, m') ∈ held t → m = Shared ∧ m' = Shared) →
  ∃ st, step i LEnter s = Some (update s g st i (mkThread (h ++ [(g, m)]) rest false)).
Proof.
  intros [Hg _] Hi Hfree. unfold step. rewrite Hi. cbn.
  destruct (Hg g) as (Hs & Hx & Hw & _).
  rewrite msum_zero in Hw by (intros j t Hj; unfold waits; by rewrite (proj1 (Hfree j t Hj))).
  rewrite msum_zero in Hx.
  2:{ intros j t Hj. destruct (decide (0 < holds g Exclusive t)) as [H|]; [|lia].
      apply holds_pos in H. by destruct (proj2 (Hfree j t Hj) _ H). }
  destruct (exclusive (gate s g)) eqn:He; [done|].
  unfold gate_enter, gate_turn. destruct m; cbn; rewrite He; cbn.
  - rewrite bool_decide_eq_true_2 by done. eauto.
  - rewrite msum_zero in Hs.
    2:{ intros j t Hj. destruct (decide (0 < holds g Shared t)) as [H|]; [|lia].
        apply holds_pos in H. by destruct (proj2 (Hfree j t Hj) _ H). }
    rewrite bool_decide_eq_true_2 by done. eauto.
Qed.

Lemma enter_all s i h td :
  inv s → threads s !! i = Some (mkThread h td false) →
  (∀ j t, j ≠ i → threads s !! j = Some t → waiting t = false ∧
     ∀ g m m', (g, m) ∈ td → (g, m') ∈ held t → m = Shared ∧ m' = Shared) →
  ∃ s', run (replicate (length td) (i, LEnter)) s = Some s' ∧
    threads s' !! i = Some (mkThread (h ++ td) [] false).
Proof.
  revert s h. induction td as [|[g m] rest IH]; intros s h Hinv Hi Hfree.
  { exists s. by rewrite app_nil_r. }
  destruct (enter_free s i h g m rest Hinv Hi) as [st Hst].
  { intros j t Hj. destruct (decide (j = i)) as [->|Hne].
    - simplify_eq. split; [done|]. intros m' Hm'.
      destruct (proj2 Hinv _ _ Hi) as (Hlow & _). cbn in Hlow.
      pose proof (Hlow (g, m') (g, m) Hm' (list_elem_of_here _ _)) as Hl. unfold lower in Hl. cbn in Hl. lia.
    - destruct (Hfree j t Hne Hj) as [? Hc]. split; [done|]. intros m' Hm'.
      apply (Hc g); [apply elem_of_cons; by left|done]. }
  cbn [length replicate run]. rewrite Hst. cbn [mbind option_bind].
  destruct (IH (update s g st i (mkThread (h ++ [(g, m)]) rest false)) (h ++ [(g, m)]))
    as (s' & Hrun & Ht').
  - by eapply step_inv.
  - cbn. by rewrite lookup_insert_eq.
  - intros j t Hne. cbn. rewrite lookup_insert_ne by done. intros Hj.
    destruct (Hfree j t Hne Hj) as [? Hc]. split; [done|]. intros g' m1 m2 H1 H2.
    apply (Hc g'); [apply elem_of_cons; by right|done].
  - exists s'. split; [done|]. by rewrite <-app_assoc in Ht'.
Qed.

(** A resource every operation of the scope touches. *)
Definition sample (c : LeaseScope) : string * string :=
  match c with
  | Global => ("", "")
  | Sandbox s => (s, "")
  | Workspace s w => (s, w)
  end.

(** Scopes that touch nothing in common only share gates in shared mode. *)
Lemma disjoint_plans c c' g m m' :
  (∀ sb ws, covers c sb ws && covers c' sb ws = false) →
  (g, m) ∈ acquire_plan c → (g, m') ∈ acquire_plan c' → m = Shared ∧ m' = Shared.
Proof.
  intros Hd Hm Hm'. pose proof (Hd (sample c).1 (sample c).2) as H1.
  pose proof (Hd (sample c').1 (sample c').2) as H2. clear Hd.
  destruct c as [|s1|s1 w1], c' as [|s2|s2 w2]; cbn in H1, H2, Hm, Hm';
    rewrite ?andb_false_iff, ?bool_decide_eq_false in H1, H2; try (intuition congruence);
    set_unfold in Hm; set_unfold in Hm'; destruct_or?; simplify_eq/=; intuition congruence.
Qed.

(** Unrelated operations always proceed.  A thread that asks for a scope
    while every other thread is outside [acquire] and owns nothing, or a lease
    of a scope touching none of its workspaces, takes all its gates without
    waiting once: as many gate entries as the scope has gates give it the whole
    lease. *)
Theorem unrelated_scopes_proceed s i c :
  reachable s → threads s !! i = Some idle →
  (∀ j t, j ≠ i → threads s !! j = Some t → todo t = [] ∧
     (held t = [] ∨ ∃ c', held t = acquire_plan c' ∧
        ∀ sb ws, covers c sb ws && covers c' sb ws = false)) →
  ∃ s', run ((i, LAcquire c) :: replicate (length (acquire_plan c)) (i, LEnter)) s = Some s' ∧
    threads s' !! i = Some (mkThread (acquire_plan c) [] false).
Proof.
  intros Hr Hi Hothers. apply reachable_inv in Hr.
  assert (step i (LAcquire c) s =
    Some (mkLeases (gates s) (<[i := mkThread [] (acquire_plan c) false]> (threads s)))) as Hst.
  { unfold step. by rewrite Hi. }
  cbn [run]. rewrite Hst. cbn [mbind option_bind].
  apply (enter_all _ i []); [by eapply step_inv|cbn; by rewrite lookup_insert_eq|].
  intros j t Hne. cbn. rewrite lookup_insert_ne by done. intros Hj.
  destruct (Hothers j t Hne Hj) as [Htd Hheld].
  destruct (proj2 Hr j t Hj) as (_ & _ & Hw). split.
  { destruct (waiting t); [by destruct Hw|done]. }
  intros g m m' Hm Hm'. destruct Hheld as [Hn|(c' & Hc' & Hd)].
  - rewrite Hn in Hm'. by apply not_elem_of_nil in Hm'.
  - rewrite Hc' in Hm'. by eapply disjoint_plans.
Qed.

(** No lease leaks.  When every thread has dropped its guards and none is
    queued, whatever mixture of completed and timed out calls came before, every
    gate is back in its initial state. *)
Theorem gates_return_to_default s :
  reachable s → (∀ i t, threads s !! i = Some t → held t = [] ∧ waiting t = false) →
  ∀ g, gate s g = gate_default.
Proof.
  intros Hr Hidle g. apply reachable_inv in Hr as [Hg _].
  destruct (Hg g) as (Hs & Hx & Hw & _).
  rewrite msum_zero in Hs, Hx, Hw
    by (intros i t Hi; destruct (Hidle i t Hi) as [Hh Hwt]; unfold holds, waits;
        by rewrite ?Hh, ?Hwt).
  destruct (gate s g) as [sh ex we]; cbn in *. subst. by destruct ex.
Qed.

(** ** Instances *)

Lemma run_reachable sched s s' : reachable s → run sched s = Some s' → reachable s'.
Proof.
  revert s. induction sched as [|[i l] sched IH]; intros s Hr Hrun; cbn in Hrun; [by simplify_eq|].
  destruct (step i l s) as [s1|] eqn:E; [|done]. by eapply IH; [eapply reach_step|].
Qed.

Definition after (n : nat) (sched : list (nat * label)) : leases :=
  default (init 0) (run sched (init n)).

Lemma after_reachable n sched :
  bool_decide (is_Some (run sched (init n))) = true → reachable (after n sched).
Proof.
  intros Hs%bool_decide_eq_true. unfold after. destruct (run sched (init n)) eqn:E.
  - eapply run_reachable; [apply (reach_init n)|]. done.
  - by destruct Hs.
Qed.

(** Two workspaces of one sandbox leased at the same time. *)
Definition two_workspaces : list (nat * label) :=
  [(0, LAcquire (Workspace "a" "x")); (0, LEnter); (0, LEnter);
   (1, LAcquire (Workspace "a" "y")); (1, LEnter); (1, LEnter); (0, LEnter); (1, LEnter)].

(** ... and a sandbox-wide operation queued behind them. *)
Definition queued_sandbox : list (nat * label) :=
  two_workspaces ++ [(2, LAcquire (Sandbox "a")); (2, LEnter); (2, LEnter)].

Lemma lease_mutual_exclusion_witness :
  covers (Workspace "a" "x") "a" "x" && covers (Workspace "a" "y") "a" "x" = false.
Proof.
  apply (lease_mutual_exclusion (after 3 queued_sandbox) 0 1
    (mkThread (acquire_plan (Workspace "a" "x")) [] false)
    (mkThread (acquire_plan (Workspace "a" "y")) [] false)
    (Workspace "a" "x") (Workspace "a" "y")).
  - apply after_reachable. by vm_compute.
  - by vm_compute.
  - by vm_compute.
  - lia.
  - intros p Hp. exact Hp.
  - intros p Hp. exact Hp.
Defined.

Lemma lease_no_deadlock_witness :
  ∃ c, cv_run queued_sandbox (mkMonitors (init 3) ∅) = Some c ∧ 2 ∈ asleep c ∧
  ∃ j t', threads (now c) !! j = Some t' ∧ can_move c j t' = true ∧
    ∃ l c', l ∈ [LRelease 0; LEnter; LWake] ∧ cv_step j l c = Some c'.
Proof.
  destruct (cv_run queued_sandbox (mkMonitors (init 3) ∅)) as [c|] eqn:E; [|by vm_compute in E].
  exists c. split; [done|]. assert (cv_reachable c) as Hc by (by eapply cv_run_reachable; [apply cv_init|]).
  assert (threads (now c) !! 2 = Some (mkThread [(GlobalGate, Shared)] [(SandboxGate "a", Exclusive)] true)) as Ht
    by (vm_compute in E; by injection E as <-).
  split; [vm_compute in E; injection E as <-; by apply (bool_decide_unpack _)|].
  by apply (lease_no_deadlock c 2 (mkThread [(GlobalGate, Shared)] [(SandboxGate "a", Exclusive)] true)).
Defined.

Lemma waiting_exclusive_not_overtaken_witness :
  shared (gate (after 4 (queued_sandbox ++ [(3, LAcquire (Workspace "a" "z")); (3, LEnter); (3, LEnter); (3, LEnter)]))
    (SandboxGate "a")) ≤
  shared (gate (after 4 (queued_sandbox ++ [(3, LAcquire (Workspace "a" "z")); (3, LEnter); (3, LEnter)]))
    (SandboxGate "a")).
Proof.
  apply (waiting_exclusive_not_overtaken _ _ 2
    (mkThread [(GlobalGate, Shared)] [(SandboxGate "a", Exclusive)] true) (SandboxGate "a") [] 3 LEnter).
  - apply after_reachable. by vm_compute.
  - by vm_compute.
  - done.
  - done.
  - by vm_compute.
Defined.

Lemma unrelated_scopes_proceed_witness :
  ∃ s', run ((1, LAcquire (Workspace "a" "y")) :: replicate 3 (1, LEnter))
          (after 2 (take 3 two_workspaces ++ [(0, LEnter)])) = Some s' ∧
    threads s' !! 1 = Some (mkThread (acquire_plan (Workspace "a" "y")) [] false).
Proof.
  apply (unrelated_scopes_proceed _ 1 (Workspace "a" "y")).
  - apply after_reachable. by vm_compute.
  - by vm_compute.
  - intros j t Hj Ht.
    assert (threads (after 2 (take 3 two_workspaces ++ [(0, LEnter)])) =
      <[0 := mkThread (acquire_plan (Workspace "a" "x")) [] false]> {[ 1 := idle ]}) as E
      by by vm_compute.
    rewrite E in Ht. rewrite lookup_insert_Some in Ht.
    destruct Ht as [[<- <-]|[_ Ht]].
    + split; [done|]. right. exists (Workspace "a" "x"). split; [done|]. intros sb ws. cbn.
      repeat case_bool_decide; subst; done.
    + apply lookup_singleton_Some in Ht as [<- <-]. done.
Defined.

Lemma gates_return_to_default_witness :
  gate (after 1 [(0, LAcquire (Sandbox "a")); (0, LEnter); (0, LEnter); (0, LRelease 0); (0, LRelease 0)])
    (SandboxGate "a") = gate_default.
Proof.
  apply gates_return_to_default.
  - apply after_reachable. by vm_compute.
  - intros i t Ht.
    assert (threads (after 1 [(0, LAcquire (Sandbox "a")); (0, LEnter); (0, LEnter);
              (0, LRelease 0); (0, LRelease 0)]) = {[ 0 := idle ]}) as E by by vm_compute.
    rewrite E in Ht. apply lookup_singleton_Some in Ht as [<- <-]. done.
Defined.
