(* ===== verification/Json.v ===== *)
(** * JSON request values

    The part of [serde_json::Value] the daemon reads request parameters with:
    field lookup and the typed accessors.  An object is its map as an
    association list with distinct keys. *)
From S2P Require Import Prelude.
From Stdlib Require Import QArith.
#[local] Open Scope Z_scope.

#[warnings="-register-all"]
Inductive Value :=
  | Null
  | Bool (b : bool)
  | Number (n : Z)                          (** an integer *)
  | Decimal (q : Q)                         (** a number with a fraction *)
  | Str (s : string)
  | Array (l : list Value)
  | Object (fields : list (string * Value)).

Fixpoint assoc {A} (key : string) (l : list (string * A)) : option A :=
  match l with
  | [] => None
  | (k, v) :: l' => if bool_decide (k = key) then Some v else assoc key l'
  end.

(** [Value::get(field)] *)
Definition value_get (field : string) (v : Value) : option Value :=
  match v with Object fields => assoc field fields | _ => None end.

Definition as_str (v : Value) : option string :=
  match v with Str s => Some s | _ => None end.
Definition as_bool (v : Value) : option bool :=
  match v with Bool b => Some b | _ => None end.

Definition as_u64 (v : Value) : option Z :=
  match v with Number n => if (0 <=? n) && (n <=? u64_max) then Some n else None | _ => None end.
Definition as_array (v : Value) : option (list Value) :=
  match v with Array l => Some l | _ => None end.
Definition is_null (v : Value) : bool := match v with Null => true | _ => false end.

(** [Iterator::find_map] *)
Fixpoint find_map {A B} (f : A → option B) (l : list A) : option B :=
  match l with
  | [] => None
  | a :: l' => match f a with Some b => Some b | None => find_map f l' end
  end.

(** [Option::filter] *)
Definition option_filter {A} (f : A → bool) (o : option A) : option A :=
  match o with Some a => if f a then Some a else None | None => None end.
