(* ===== verification/ExecQueue.v ===== *)
(** * Request worker pools (src/src/daemon/workers/mod.rs, workers/request.rs)

    The classification of a request, the queues of the three pools, and the
    exec pool's queue with its per-workspace admission.  A socket is its
    number; whether its client has gone is asked of the kernel ([poll], [recv])
    each time the queue is swept, so it is an argument of the operations that
    sweep.  Every method holds the queue's mutex throughout, so each one is an
    atomic step; [next] is the step of a worker that finds a ready job. *)
From S2P Require Import Prelude RustStr Json.

Definition CONTROL_QUEUE_CAPACITY : nat := 128.
Definition TRANSFER_QUEUE_CAPACITY : nat := 8.
Definition EXEC_QUEUE_CAPACITY : nat := 512.

(** ** Classification *)

Inductive RequestClass := Control | Exec | Transfer.

#[export] Instance RequestClass_eq_dec : EqDecision RequestClass.
Proof. solve_decision. Defined.

Record Request := mkRequest { action : string; params : Value; operation_id : option string }.

Record PeekedRequest := mkPeeked { class : RequestClass; workspace_key_of : option string }.
Definition default_peeked : PeekedRequest := mkPeeked Control None.

Definition workspace_key_from_params (params : Value) : option string :=
  option_filter (λ value, negb (bool_decide (value = "")))
    (find_map (λ field, value_get field params ≫= as_str) ["workspace"; "workspace_id"; "name"]).

(** [peek_request] on the outcome of peeking and parsing the request line:
    [None] when no complete line has arrived or the line is not a request. *)
Definition peek_request (line : option Request) : PeekedRequest :=
  match line with
  | None => default_peeked
  | Some request =>
      let class :=
        if bool_decide (action request = "workspace.cp") then Transfer
        else if bool_decide (action request = "workspace.exec" ∨ action request = "sandbox.exec_setup")
        then Exec else Control in
      mkPeeked class
        (if bool_decide (class = Exec) then workspace_key_from_params (params request) else None)
  end.

(** ** The exec queue *)

Record RequestJob := mkJob { stream : nat; workspace_key : option string }.

#[export] Instance RequestJob_eq_dec : EqDecision RequestJob.
Proof. solve_decision. Defined.

Record ExecQueueState := mkQueue {
  ready : list RequestJob;
  pending : gmap string (list nat);
  pending_count : nat;
  in_flight : gmap string nat;
  closed : bool }.

Definition empty_queue : ExecQueueState := mkQueue [] ∅ 0 ∅ false.

Inductive ExecEnqueueError := Full (job : RequestJob) | Closed.

Definition discard_disconnected (gone : nat → bool) (st : ExecQueueState) : ExecQueueState :=
  let ready' := filter (λ job, gone (stream job) = false) (ready st) in
  let pending' := filter (λ kv : string * list nat, kv.2 ≠ [])
    ((λ l, filter (λ s, gone s = false) l) <$> pending st) in
  mkQueue ready' pending' (msum length pending') (in_flight st) (closed st).

Definition flying (st : ExecQueueState) (key : string) : nat := default 0 (in_flight st !! key).
Definition waiting_of (st : ExecQueueState) (key : string) : list nat := default [] (pending st !! key).

(** The guard of the [match] in [enqueue]: over its share, or behind others. *)
Definition must_wait (per_workspace : option nat) (st : ExecQueueState) (key : string) : bool :=
  match per_workspace with Some limit => bool_decide (limit ≤ flying st key) | None => false end
  || negb (bool_decide (waiting_of st key = [])).

Definition fly (key : string) (st : ExecQueueState) : gmap string nat :=
  <[key := S (flying st key)]> (in_flight st).

Definition enqueue (per_workspace : option nat) (gone : nat → bool) (job : RequestJob)
    (capacity : nat) (st0 : ExecQueueState) : (unit + ExecEnqueueError) * ExecQueueState :=
  let st := discard_disconnected gone st0 in
  if closed st then (inr Closed, st)
  else if bool_decide (capacity ≤ length (ready st) + pending_count st) then (inr (Full job), st)
  else match workspace_key job with
       | Some key =>
           if must_wait per_workspace st key
           then (inl tt, mkQueue (ready st)
                  (<[key := waiting_of st key ++ [stream job]]> (pending st))
                  (S (pending_count st)) (in_flight st) (closed st))
           else (inl tt, mkQueue (ready st ++ [job]) (pending st) (pending_count st)
                  (fly key st) (closed st))
       | None => (inl tt, mkQueue (ready st ++ [job]) (pending st) (pending_count st)
                  (in_flight st) (closed st))
       end.

(** What a worker in [next] does once it holds the lock: leave ([Some None]),
    take a job, or go back to waiting ([None]). *)
Definition next (st : ExecQueueState) : option (option RequestJob) * ExecQueueState :=
  if closed st then (Some None, st)
  else match ready st with
       | job :: rest => (Some (Some job), mkQueue rest (pending st) (pending_count st) (in_flight st) (closed st))
       | [] => (None, st)
       end.

(** The release of a share at the start of [finish]. *)
Definition land (key : string) (st : ExecQueueState) : ExecQueueState :=
  match in_flight st !! key with
  | Some count =>
      let in_flight' :=
        if bool_decide (pred count = 0) then delete key (in_flight st)
        else <[key := pred count]> (in_flight st) in
      mkQueue (ready st) (pending st) (pending_count st) in_flight' (closed st)
  | None => st
  end.

Definition has_room (per_workspace : option nat) (st : ExecQueueState) (key : string) : bool :=
  match per_workspace with Some limit => bool_decide (flying st key < limit) | None => true end.

Definition finish (per_workspace : option nat) (gone : nat → bool) (workspace_key : option string)
    (st0 : ExecQueueState) : ExecQueueState :=
  let st := discard_disconnected gone st0 in
  match workspace_key with
  | None => st
  | Some key =>
      let st := land key st in
      if has_room per_workspace st key then
        match pending st !! key with
        | Some (s :: rest) =>
            mkQueue (ready st ++ [mkJob s (Some key)]) (<[key := rest]> (pending st))
              (pred (pending_count st)) (fly key st) (closed st)
        | _ => st
        end
      else st
  end.

Definition close (st : ExecQueueState) : ExecQueueState := mkQueue [] ∅ 0 (in_flight st) true.

(** ** The pools *)

(** A [sync_channel]: its buffer and whether a receiver is left. *)
Record channel := mkChannel { buffer : list RequestJob; connected : bool }.

Record pools := mkPools {
  control : channel; transfer : channel; exec_queue : ExecQueueState; per_workspace : option nat }.

Inductive submitted :=
  | Queued (c : RequestClass)
  | RejectedBusy (c : RequestClass) (capacity : nat)
  | QueueClosed (c : RequestClass).

Definition try_send (job : RequestJob) (capacity : nat) (ch : channel) : option bool * channel :=
  if negb (connected ch) then (None, ch)
  else if bool_decide (length (buffer ch) < capacity)
       then (Some true, mkChannel (buffer ch ++ [job]) (connected ch))
       else (Some false, ch).

Definition submit (gone : nat → bool) (s : nat) (line : option Request) (p : pools) : submitted * pools :=
  let peeked := peek_request line in
  let job := mkJob s (if bool_decide (class peeked = Exec) then workspace_key_of peeked else None) in
  match class peeked with
  | Exec =>
      let '(r, q) := enqueue (per_workspace p) gone job EXEC_QUEUE_CAPACITY (exec_queue p) in
      let p' := mkPools (control p) (transfer p) q (per_workspace p) in
      match r with
      | inl _ => (Queued Exec, p')
      | inr (Full _) => (RejectedBusy Exec EXEC_QUEUE_CAPACITY, p')
      | inr Closed => (QueueClosed Exec, p')
      end
  | Transfer =>
      let '(r, ch) := try_send job TRANSFER_QUEUE_CAPACITY (transfer p) in
      let p' := mkPools (control p) ch (exec_queue p) (per_workspace p) in
      match r with
      | Some true => (Queued Transfer, p')
      | Some false => (RejectedBusy Transfer TRANSFER_QUEUE_CAPACITY, p')
      | None => (QueueClosed Transfer, p')
      end
  | Control =>
      let '(r, ch) := try_send job CONTROL_QUEUE_CAPACITY (control p) in
      let p' := mkPools ch (transfer p) (exec_queue p) (per_workspace p) in
      match r with
      | Some true => (Queued Control, p')
      | Some false => (RejectedBusy Control CONTROL_QUEUE_CAPACITY, p')
      | None => (QueueClosed Control, p')
      end
  end.

(** ** Runs of the exec pool

    The queue with the jobs its workers are serving. *)
Record exec_pool := mkExec { queue : ExecQueueState; running : list RequestJob }.
Definition exec_init : exec_pool := mkExec empty_queue [].

Inductive exec_label :=
  | EEnqueue (gone : nat → bool) (job : RequestJob)
  | ENext
  | EFinish (gone : nat → bool) (k : nat)   (* the worker serving the [k]th job is done *)
  | EClose.

Definition exec_step (per_workspace : option nat) (capacity : nat) (l : exec_label) (s : exec_pool)
    : option exec_pool :=
  match l with
  | EEnqueue gone job => Some (mkExec (enqueue per_workspace gone job capacity (queue s)).2 (running s))
  | ENext =>
      match next (queue s) with
      | (Some (Some job), q) => Some (mkExec q (running s ++ [job]))
      | _ => None
      end
  | EFinish gone k =>
      job ← running s !! k;
      Some (mkExec (finish per_workspace gone (workspace_key job) (queue s)) (delete k (running s)))
  | EClose => Some (mkExec (close (queue s)) (running s))
  end.

(** Runs whose steps all satisfy [P]. *)
Inductive exec_steps (P : exec_label → Prop) (per_workspace : option nat) (capacity : nat)
    : exec_pool → exec_pool → Prop :=
  | exec_refl s : exec_steps P per_workspace capacity s s
  | exec_more s s' s'' l :
      exec_steps P per_workspace capacity s s' → P l →
      exec_step per_workspace capacity l s' = Some s'' →
      exec_steps P per_workspace capacity s s''.

Definition any_label (l : exec_label) : Prop := True.

(** ** The queue of one workspace

    A workspace's requests wait in two places: those admitted in [ready], the
    others in [pending]. *)
Definition ready_of (st : ExecQueueState) (key : string) : list nat :=
  stream <$> filter (λ job, workspace_key job = Some key) (ready st).
Definition lineup (st : ExecQueueState) (key : string) : list nat :=
  ready_of st key ++ waiting_of st key.
Definition serving (jobs : list RequestJob) (key : string) : nat :=
  length (filter (λ job, workspace_key job = Some key) jobs).

Definition alive (gone : nat → bool) (l : list nat) : list nat := filter (λ s, gone s = false) l.

Lemma discard_ready_of gone st key :
  ready_of (discard_disconnected gone st) key = alive gone (ready_of st key).
Proof.
  unfold ready_of, alive, discard_disconnected. cbn [ready].
  induction (ready st) as [|job l IH]; [done|]. rewrite !filter_cons.
  repeat case_decide; csimpl; rewrite ?filter_cons; repeat case_decide; csimpl; try done;
    by rewrite IH.
Qed.

Lemma discard_pending gone st key :
  pending (discard_disconnected gone st) !! key =
    l ← pending st !! key; match alive gone l with [] => None | l' => Some l' end.
Proof.
  unfold discard_disconnected. cbn [pending]. rewrite map_lookup_filter, lookup_fmap.
  destruct (pending st !! key) as [l|]; cbn; [|done]. unfold alive.
  destruct (filter _ l) eqn:E; cbn.
  - rewrite option_guard_False; [done|]. tauto.
  - by rewrite option_guard_True.
Qed.

Lemma discard_waiting gone st key :
  waiting_of (discard_disconnected gone st) key = alive gone (waiting_of st key).
Proof.
  unfold waiting_of. rewrite discard_pending. destruct (pending st !! key) as [l|]; cbn -[alive]; [|done].
  by destruct (alive gone l).
Qed.

Lemma discard_lineup gone st key :
  lineup (discard_disconnected gone st) key = alive gone (lineup st key).
Proof.
  unfold lineup. rewrite discard_ready_of, discard_waiting. unfold alive.
  by rewrite list.filter_app.
Qed.

Lemma discard_count gone st :
  pending_count (discard_disconnected gone st) = msum length (pending (discard_disconnected gone st)).
Proof. done. Qed.

Lemma discard_shrinks gone st :
  length (ready (discard_disconnected gone st)) ≤ length (ready st) ∧
  msum length (pending (discard_disconnected gone st)) ≤ msum length (pending st).
Proof.
  split; [apply length_filter|]. apply msum_mono. intros k l. rewrite discard_pending.
  destruct (pending st !! k) as [l0|]; cbn; [|done]. intros H. exists l0. split; [done|].
  pose proof (length_filter (λ s, gone s = false) l0). unfold alive in H.
  destruct (filter _ l0); simplify_eq/=; lia.
Qed.

Lemma alive_all l : alive (λ _, false) l = l.
Proof. unfold alive. induction l as [|s l IH]; [done|]. by rewrite filter_cons_True, IH. Qed.

Lemma ready_of_snoc rd pd c fl cl job key :
  ready_of (mkQueue (rd ++ [job]) pd c fl cl) key =
  ready_of (mkQueue rd pd c fl cl) key ++
    (if decide (workspace_key job = Some key) then [stream job] else []).
Proof.
  unfold ready_of. cbn [ready]. rewrite list.filter_app, fmap_app. f_equal.
  rewrite filter_cons. by case_decide.
Qed.

Lemma waiting_of_insert rd pd c fl cl key l key' :
  waiting_of (mkQueue rd (<[key := l]> pd) c fl cl) key' =
  if decide (key' = key) then l else waiting_of (mkQueue rd pd c fl cl) key'.
Proof.
  unfold waiting_of. cbn [pending]. case_decide; subst.
  - by rewrite lookup_insert_eq.
  - by rewrite lookup_insert_ne.
Qed.

Lemma waiting_of_eq st key l : pending st !! key = Some l → waiting_of st key = l.
Proof. intros E. unfold waiting_of. by rewrite E. Qed.

Lemma flying_fly key st rd pd c cl key' :
  flying (mkQueue rd pd c (fly key st) cl) key' =
  if decide (key' = key) then S (flying st key') else flying st key'.
Proof.
  unfold flying at 1, fly. cbn [in_flight]. case_decide; subst.
  - by rewrite lookup_insert_eq.
  - by rewrite lookup_insert_ne.
Qed.

Lemma flying_land key st key' :
  flying (land key st) key' = if decide (key' = key) then pred (flying st key') else flying st key'.
Proof.
  unfold flying, land. destruct (in_flight st !! key) as [n|] eqn:E; cbn [in_flight].
  - case_bool_decide as Hn; case_decide; subst;
      rewrite ?lookup_delete_eq, ?lookup_delete_ne, ?lookup_insert_eq, ?lookup_insert_ne, ?E by done;
      cbn; done.
  - case_decide; subst; [by rewrite E|done].
Qed.

(** ** First in, first out per workspace *)

Definition own (job : RequestJob) (key : string) : list nat :=
  if decide (workspace_key job = Some key) then [stream job] else [].

(** What each operation does to the abstract queues, one FIFO queue of sockets
    per workspace, before [a] and after [b]. *)
Definition fifo_step (per_workspace : option nat) (capacity : nat) (l : exec_label) (s : exec_pool)
    (a b : string → list nat) : Prop :=
  match l with
  | EEnqueue gone job =>
      match (enqueue per_workspace gone job capacity (queue s)).1 with
      | inl _ => ∀ key, b key = alive gone (a key) ++ own job key
      | inr _ => ∀ key, b key = alive gone (a key)
      end
  | ENext => ∃ job, head (ready (queue s)) = Some job ∧ ∀ key, a key = own job key ++ b key
  | EFinish gone _ => ∀ key, b key = alive gone (a key)
  | EClose => ∀ key, b key = []
  end.

Lemma must_wait_false pw st key : must_wait pw st key = false →
  waiting_of st key = [] ∧ ∀ n, pw = Some n → flying st key < n.
Proof.
  unfold must_wait. intros [Hl Hp]%orb_false_iff. apply negb_false_iff, bool_decide_eq_true in Hp.
  split; [done|]. intros n ->. apply bool_decide_eq_false in Hl. lia.
Qed.

Lemma enqueue_lineup pw gone job cap st key :
  lineup (enqueue pw gone job cap st).2 key =
  alive gone (lineup st key) ++
    match (enqueue pw gone job cap st).1 with inl _ => own job key | inr _ => [] end.
Proof.
  rewrite <-discard_lineup. unfold enqueue, own. set (d := discard_disconnected gone st).
  destruct (closed d); [by rewrite app_nil_r|].
  case_bool_decide; [by rewrite app_nil_r|]. destruct (workspace_key job) as [key'|] eqn:Hk.
  - destruct (must_wait pw d key') eqn:Hw; cbn [fst snd].
    + unfold lineup. rewrite waiting_of_insert, <-app_assoc. f_equal.
      repeat case_decide; simplify_eq; [done|]. by rewrite app_nil_r.
    + apply must_wait_false in Hw as [Hw _]. unfold lineup. rewrite ready_of_snoc, Hk.
      assert (∀ rd c fl cl, waiting_of (mkQueue rd (pending d) c fl cl) key = waiting_of d key)
        as -> by done.
      repeat case_decide; simplify_eq; [|by rewrite !app_nil_r]. by rewrite Hw, !app_nil_r.
  - cbn [fst snd]. unfold lineup. rewrite ready_of_snoc, Hk. cbn. by rewrite !app_nil_r.
Qed.

Lemma finish_lineup pw gone wk st key :
  lineup (finish pw gone wk st) key = alive gone (lineup st key).
Proof.
  rewrite <-discard_lineup. unfold finish. set (d := discard_disconnected gone st).
  destruct wk as [key'|]; [|done].
  assert (∀ k, lineup (land key' d) k = lineup d k) as Hland.
  { intros k. unfold land. by destruct (in_flight d !! key'). }
  rewrite <-Hland. generalize (land key' d). intros e.
  destruct (has_room pw e key'); [|done].
  destruct (pending e !! key') as [[|s rest]|] eqn:E; [done| |done].
  unfold lineup. rewrite ready_of_snoc, waiting_of_insert. cbn [workspace_key stream].
  repeat case_decide; simplify_eq; cbn; rewrite ?app_nil_r; [|done].
  rewrite <-app_assoc. unfold waiting_of. rewrite E. done.
Qed.

(** C8: the two-level exec queue implements one first-in-first-out queue per
    workspace.  Whatever the share limit and whoever disconnects when, a request
    accepted joins the back of its workspace's line, a worker always takes the
    front of the line of the job's workspace, finishing a command (which moves a
    pending request to the ready queue) changes no line, a refused request joins
    none, and only requests whose clients are gone leave out of turn. *)
Theorem exec_queue_refines_fifo pw cap l s s' :
  exec_step pw cap l s = Some s' →
  fifo_step pw cap l s (lineup (queue s)) (lineup (queue s')).
Proof.
  destruct l as [gone job| |gone k|]; cbn; intros H.
  - simplify_eq. cbn. pose proof (enqueue_lineup pw gone job cap (queue s)) as He.
    destruct (enqueue _ _ _ _ _).1; intros key; rewrite He; [done|by rewrite app_nil_r].
  - unfold next in H. destruct (closed (queue s)); [done|].
    destruct (ready (queue s)) as [|job rest] eqn:E; simplify_eq. cbn.
    exists job. split; [done|]. intros key. unfold lineup, ready_of, own. rewrite E. cbn [ready].
    rewrite filter_cons. by repeat case_decide.
  - destruct (running s !! k) as [job|]; simplify_eq/=. intros key. apply finish_lineup.
  - simplify_eq. done.
Qed.

(** ** Capacity and shares *)

(** The counters agree with what they count, and nobody exceeds a share. *)
Definition pool_ok (pw : option nat) (cap : nat) (s : exec_pool) : Prop :=
  pending_count (queue s) = msum length (pending (queue s)) ∧
  length (ready (queue s)) + pending_count (queue s) ≤ cap ∧
  (∀ key, serving (running s) key + length (ready_of (queue s) key) ≤ flying (queue s) key) ∧
  (∀ key n, pw = Some n → flying (queue s) key ≤ n).

Lemma discard_ok pw cap gone q rn :
  pool_ok pw cap (mkExec q rn) → pool_ok pw cap (mkExec (discard_disconnected gone q) rn).
Proof.
  intros (Hc & Hcap & Hs & Hl). destruct (discard_shrinks gone q) as [H1 H2]. cbn [queue running] in *.
  split_and!; cbn [queue running]; [done| | |done].
  - rewrite discard_count. lia.
  - intros key. rewrite discard_ready_of. specialize (Hs key).
    pose proof (length_filter (λ s, gone s = false) (ready_of q key)). unfold alive.
    change (flying (discard_disconnected gone q) key) with (flying q key). lia.
Qed.

Lemma serving_snoc rn job key :
  serving (rn ++ [job]) key = serving rn key + length (own job key).
Proof.
  unfold serving, own. rewrite list.filter_app, length_app, filter_cons. by case_decide.
Qed.

Lemma serving_delete rn k job key :
  rn !! k = Some job → serving rn key = serving (delete k rn) key + length (own job key).
Proof.
  intros Hk. unfold serving, own. rewrite <-(take_drop_middle rn k job Hk) at 1.
  rewrite delete_take_drop, !list.filter_app, !length_app, filter_cons.
  case_decide; cbn [length]; lia.
Qed.

Lemma ready_of_snoc_length rd pd c fl cl job key pd' c' fl' cl' :
  length (ready_of (mkQueue (rd ++ [job]) pd c fl cl) key) =
  length (ready_of (mkQueue rd pd' c' fl' cl') key) + length (own job key).
Proof. rewrite ready_of_snoc, length_app. unfold own. by case_decide. Qed.

Lemma enqueue_ok pw cap gone job q rn :
  pool_ok pw cap (mkExec q rn) → pool_ok pw cap (mkExec (enqueue pw gone job cap q).2 rn).
Proof.
  intros Hok. apply (discard_ok _ _ gone) in Hok. unfold enqueue.
  set (d := discard_disconnected gone q) in *. destruct Hok as (Hc & Hcap & Hs & Hl).
  cbn [queue running] in *. destruct (closed d); [done|]. case_bool_decide as Hfull; [done|].
  destruct (workspace_key job) as [key|] eqn:Hk; [destruct (must_wait pw d key) eqn:Hw|];
    cbn [snd]; (split_and!; cbn [queue running ready pending pending_count]).
  - pose proof (msum_upsert length (pending d) key (waiting_of d key ++ [stream job])) as Hm.
    rewrite length_app in Hm. unfold waiting_of in Hm at 2.
    destruct (pending d !! key); cbn [from_option default length] in Hm; unfold id in Hm; lia.
  - lia.
  - done.
  - done.
  - done.
  - rewrite length_app. cbn [length]. lia.
  - apply must_wait_false in Hw as [_ Hw]. intros key'.
    rewrite (ready_of_snoc_length _ _ _ _ _ _ _ (pending d) (pending_count d) (in_flight d) (closed d)).
    specialize (Hs key'). rewrite flying_fly. unfold own. rewrite Hk.
    repeat case_decide; simplify_eq; cbn [length]; unfold ready_of in *; cbn [ready] in *; lia.
  - apply must_wait_false in Hw as [_ Hw]. intros key' n Hn. rewrite flying_fly.
    specialize (Hw n Hn). specialize (Hl key' n Hn). case_decide; simplify_eq; lia.
  - done.
  - rewrite length_app. cbn [length]. lia.
  - intros key'. specialize (Hs key').
    rewrite (ready_of_snoc_length _ _ _ _ _ _ _ (pending d) (pending_count d) (in_flight d) (closed d)).
    unfold own. rewrite Hk. cbn [length]. rewrite decide_False by done.
    unfold ready_of, flying in *; cbn [ready in_flight length] in *; lia.
  - done.
Qed.

Lemma land_fields key st :
  ready (land key st) = ready st ∧ pending (land key st) = pending st ∧
  pending_count (land key st) = pending_count st ∧ closed (land key st) = closed st.
Proof. unfold land. by destruct (in_flight st !! key). Qed.

Lemma land_ok pw cap key q rn k job :
  pool_ok pw cap (mkExec q rn) → rn !! k = Some job → workspace_key job = Some key →
  pool_ok pw cap (mkExec (land key q) (delete k rn)).
Proof.
  intros (Hc & Hcap & Hs & Hl) Hk Hkey. cbn [queue running] in *.
  destruct (land_fields key q) as (Hr & Hp & Hpc & _).
  split_and!; cbn [queue running]; rewrite ?Hr, ?Hp, ?Hpc; [done|done| |].
  - intros key'. specialize (Hs key'). rewrite (serving_delete _ _ _ key' Hk) in Hs.
    unfold own in Hs. rewrite Hkey in Hs. rewrite flying_land. unfold ready_of in *. rewrite Hr.
    repeat case_decide; simplify_eq; cbn [length] in *; lia.
  - intros key' n Hn. rewrite flying_land. specialize (Hl key' n Hn). case_decide; lia.
Qed.

Lemma promote_ok pw cap key q rn s rest :
  pool_ok pw cap (mkExec q rn) → has_room pw q key = true → pending q !! key = Some (s :: rest) →
  pool_ok pw cap (mkExec
    (mkQueue (ready q ++ [mkJob s (Some key)]) (<[key := rest]> (pending q))
       (pred (pending_count q)) (fly key q) (closed q)) rn).
Proof.
  intros (Hc & Hcap & Hs & Hl) Hroom Hp. cbn [queue running] in *.
  pose proof (msum_update length _ _ _ rest Hp) as Hm. cbn [length] in Hm.
  split_and!; cbn [queue running ready pending pending_count].
  - lia.
  - rewrite length_app. cbn [length]. lia.
  - intros key'. specialize (Hs key').
    rewrite (ready_of_snoc_length _ _ _ _ _ _ _ (pending q) (pending_count q) (in_flight q) (closed q)).
    rewrite flying_fly. unfold own. cbn [workspace_key].
    repeat case_decide; simplify_eq; cbn [length]; unfold ready_of in *; cbn [ready] in *; lia.
  - intros key' n Hn. rewrite flying_fly. specialize (Hl key' n Hn). unfold has_room in Hroom.
    rewrite Hn in Hroom. apply bool_decide_eq_true in Hroom. case_decide; subst; lia.
Qed.

Lemma exec_step_ok pw cap l s s' :
  pool_ok pw cap s → exec_step pw cap l s = Some s' → pool_ok pw cap s'.
Proof.
  destruct s as [q rn]. intros Hok H. destruct l as [gone job| |gone k|]; cbn in H.
  - simplify_eq. by apply enqueue_ok.
  - unfold next in H. destruct (closed q) eqn:Hcl; [done|].
    destruct (ready q) as [|job rest] eqn:E; simplify_eq. destruct Hok as (Hc & Hcap & Hs & Hl).
    cbn [queue running] in *. split_and!; cbn [queue running ready pending_count pending]; [done| | |done].
    + rewrite E in Hcap. cbn in Hcap. lia.
    + intros key. specialize (Hs key). rewrite serving_snoc. unfold ready_of, own in *.
      rewrite E in Hs. rewrite filter_cons in Hs. cbn [ready].
      unfold flying in *. cbn [in_flight]. case_decide; rewrite ?fmap_cons in Hs; cbn [length] in *; lia.
  - destruct (rn !! k) as [job|] eqn:Hk; simplify_eq/=. apply (discard_ok _ _ gone) in Hok.
    unfold finish. set (d := discard_disconnected gone q) in *.
    destruct (workspace_key job) as [key|] eqn:Hkey.
    + pose proof (land_ok _ _ key _ _ _ _ Hok Hk Hkey) as Hok'.
      destruct (has_room pw (land key d) key) eqn:Hroom; [|done].
      destruct (pending (land key d) !! key) as [[|s rest]|] eqn:E; [done| |done].
      by apply promote_ok.
    + destruct Hok as (Hc & Hcap & Hs & Hl). split_and!; [done..| |done]. intros key.
      specialize (Hs key). cbn [queue running] in *. rewrite (serving_delete _ _ _ key Hk) in Hs. lia.
  - simplify_eq. destruct Hok as (Hc & Hcap & Hs & Hl). cbn [queue running] in *.
    split_and!; cbn; [done|lia| |done]. intros key. specialize (Hs key).
    change (flying (close q) key) with (flying q key). unfold serving in Hs. lia.
Qed.

Lemma exec_steps_invariant (I : exec_pool → Prop) P pw cap s s' :
  (∀ l t t', P l → I t → exec_step pw cap l t = Some t' → I t') →
  I s → exec_steps P pw cap s s' → I s'.
Proof. intros Hstep HI. induction 1; eauto. Qed.

Lemma exec_init_ok pw cap : pool_ok pw cap exec_init.
Proof.
  assert (∀ key, flying empty_queue key = 0) as Hf.
  { intros key. unfold flying. cbn [empty_queue in_flight]. by rewrite lookup_empty. }
  split_and!; cbn [exec_init queue running].
  - done.
  - cbn. lia.
  - intros key. by rewrite Hf.
  - intros key n _. rewrite Hf. lia.
Qed.

(** The exec pool never holds more than its capacity of waiting requests
    (ready and pending together, 512 in the daemon), its pending counter is
    exact, and with a share limit of [n] the commands of one workspace that are
    running or released to the workers never exceed [n], in every run with any
    interleaving of arrivals, completions and disconnects. *)
Theorem exec_pool_bounds pw cap s :
  exec_steps any_label pw cap exec_init s →
  pending_count (queue s) = msum length (pending (queue s)) ∧
  length (ready (queue s)) + msum length (pending (queue s)) ≤ cap ∧
  ∀ key n, pw = Some n → serving (running s) key + length (ready_of (queue s) key) ≤ n.
Proof.
  intros Hs. assert (pool_ok pw cap s) as (Hc & Hcap & Hsv & Hl).
  { eapply exec_steps_invariant; [|apply exec_init_ok|done]. intros. by eapply exec_step_ok. }
  split_and!; [done|lia|]. intros key n Hn. specialize (Hsv key). specialize (Hl key n Hn). lia.
Qed.

(** ** Nobody is stranded while clients stay *)

(** No client has gone away when the queue is swept. *)
Definition calm (l : exec_label) : Prop :=
  match l with
  | EEnqueue gone _ | EFinish gone _ => ∀ s, gone s = false
  | ENext | EClose => True
  end.

(** Shares are exact, and a workspace with requests pending uses its share. *)
Definition calm_ok (pw : option nat) (s : exec_pool) : Prop :=
  (closed (queue s) = true → pending (queue s) = ∅) ∧
  (closed (queue s) = false → ∀ key,
     flying (queue s) key = serving (running s) key + length (ready_of (queue s) key)) ∧
  (∀ key, waiting_of (queue s) key ≠ [] → ∃ n, pw = Some n ∧ n ≤ flying (queue s) key).

Lemma alive_calm gone l : (∀ s, gone s = false) → alive gone l = l.
Proof.
  intros Hg. unfold alive. induction l as [|s l IH]; [done|]. by rewrite filter_cons_True, IH.
Qed.

Lemma calm_discard pw gone q rn :
  (∀ s, gone s = false) → calm_ok pw (mkExec q rn) →
  calm_ok pw (mkExec (discard_disconnected gone q) rn).
Proof.
  intros Hg (H1 & H2 & H3). split_and!; cbn [queue running] in *.
  - intros Hc. apply map_empty. intros key. rewrite discard_pending.
    rewrite H1 by done. by rewrite lookup_empty.
  - intros Hc key. rewrite discard_ready_of, alive_calm by done. by apply H2.
  - intros key. rewrite discard_waiting, alive_calm by done. apply H3.
Qed.

Lemma must_wait_true pw st key : must_wait pw st key = true →
  (∃ n, pw = Some n ∧ n ≤ flying st key) ∨ waiting_of st key ≠ [].
Proof.
  unfold must_wait. intros [Hl|Hp]%orb_true_iff.
  - left. destruct pw as [n|]; [|done]. apply bool_decide_eq_true in Hl. eauto.
  - right. by apply negb_true_iff, bool_decide_eq_false in Hp.
Qed.

Lemma calm_enqueue pw gone job cap q rn :
  (∀ s, gone s = false) → calm_ok pw (mkExec q rn) →
  calm_ok pw (mkExec (enqueue pw gone job cap q).2 rn).
Proof.
  intros Hg Hok. apply (calm_discard _ gone) in Hok; [|done]. unfold enqueue.
  set (d := discard_disconnected gone q) in *. pose proof Hok as (H1 & H2 & H3). cbn [queue running] in *.
  destruct (closed d) eqn:Hcl; [done|]. specialize (H2 eq_refl).
  case_bool_decide; [done|].
  destruct (workspace_key job) as [key|] eqn:Hk; [destruct (must_wait pw d key) eqn:Hw|]; cbn [snd];
    (split_and!; cbn [queue running]; [done| |]).
  - intros _ key'. apply H2.
  - intros key'. rewrite waiting_of_insert. case_decide as Hd; [subst|apply H3]. intros _.
    apply must_wait_true in Hw as [Hw|Hw]; [done|]. by apply H3.
  - intros _ key'.
    rewrite (ready_of_snoc_length _ _ _ _ _ _ _ (pending d) (pending_count d) (in_flight d) (closed d)).
    rewrite flying_fly, (H2 key'). unfold own. rewrite Hk. unfold ready_of. cbn [ready].
    repeat case_decide; simplify_eq; cbn [length]; lia.
  - intros key' Hne. destruct (H3 key' Hne) as (n & Hn & Hle). exists n. split; [done|].
    rewrite flying_fly. case_decide; lia.
  - intros _ key'.
    rewrite (ready_of_snoc_length _ _ _ _ _ _ _ (pending d) (pending_count d) (in_flight d) (closed d)).
    unfold own. rewrite Hk, decide_False by done. cbn [length]. rewrite Nat.add_0_r. apply H2.
  - apply H3.
Qed.

Lemma calm_finish pw gone q rn k job :
  (∀ s, gone s = false) → calm_ok pw (mkExec q rn) → rn !! k = Some job →
  calm_ok pw (mkExec (finish pw gone (workspace_key job) q) (delete k rn)).
Proof.
  intros Hg Hok Hk. apply (calm_discard _ gone) in Hok; [|done]. unfold finish.
  set (d := discard_disconnected gone q) in *. destruct Hok as (H1 & H2 & H3). cbn [queue running] in *.
  pose proof (λ key, serving_delete rn k job key Hk) as Hsd.
  destruct (workspace_key job) as [key|] eqn:Hkey.
  2:{ split_and!; cbn [queue running]; [done| |done]. intros Hc key. rewrite (H2 Hc key), Hsd.
      unfold own. rewrite Hkey. cbn [length]. rewrite decide_False by done. cbn. lia. }
  destruct (land_fields key d) as (Hr & Hp & Hpc & Hcl).
  assert (closed d = false → ∀ key', flying (land key d) key' =
    serving (delete k rn) key' + length (ready_of (land key d) key')) as H2'.
  { intros Hc key'. rewrite flying_land. specialize (H2 Hc key'). specialize (Hsd key').
    unfold own in Hsd. rewrite Hkey in Hsd. unfold ready_of in *. rewrite Hr.
    repeat case_decide; simplify_eq; cbn [length] in *; lia. }
  assert (∀ key', waiting_of (land key d) key' = waiting_of d key') as Hwt.
  { intros key'. unfold waiting_of. by rewrite Hp. }
  destruct (has_room pw (land key d) key) eqn:Hroom.
  - destruct (pending (land key d) !! key) as [[|s rest]|] eqn:E.
    2:{ destruct (closed d) eqn:Hc; [by rewrite Hp, H1, lookup_empty in E|].
        split_and!; cbn [queue running closed pending]; [congruence| |].
        - intros _ key'.
          rewrite (ready_of_snoc_length _ _ _ _ _ _ _ (pending d) (pending_count d) (in_flight d) (closed d)).
          rewrite flying_fly, H2' by done. unfold own, ready_of. cbn [workspace_key ready].
          repeat case_decide; simplify_eq; cbn [length]; lia.
        - intros key'. rewrite waiting_of_insert, flying_fly, flying_land. case_decide as Hkk; [subst|].
          + intros _. rewrite Hp in E. destruct (H3 key) as (n & Hn & Hle).
            { by rewrite (waiting_of_eq _ _ _ E). }
            exists n. split; [done|]. lia.
          + change (waiting_of (land key d) key' ≠ [] → ∃ n, pw = Some n ∧ n ≤ flying d key').
            rewrite Hwt. apply H3. }
    all: split_and!; cbn [queue running]; rewrite ?Hcl, ?Hp; [done|done|];
      intros key'; rewrite Hwt, flying_land; case_decide as Hkk; [subst|apply H3];
      rewrite <-Hwt; unfold waiting_of; by rewrite E.
  - split_and!; cbn [queue running]; rewrite ?Hcl, ?Hp; [done|done|].
    intros key'. rewrite Hwt. rewrite flying_land. case_decide as Hkk; [subst|apply H3]. intros _.
    unfold has_room in Hroom. destruct pw as [n|]; [|done]. exists n. split; [done|].
    apply bool_decide_eq_false in Hroom. rewrite flying_land in Hroom. case_decide; [lia|done].
Qed.

Lemma calm_step pw cap l s s' :
  calm l → calm_ok pw s → exec_step pw cap l s = Some s' → calm_ok pw s'.
Proof.
  destruct s as [q rn]. destruct l as [gone job| |gone k|]; cbn; intros Hg Hok H.
  - simplify_eq. by apply calm_enqueue.
  - unfold next in H. destruct (closed q) eqn:Hcl; [done|].
    destruct (ready q) as [|job rest] eqn:E; simplify_eq. destruct Hok as (H1 & H2 & H3).
    cbn [queue running] in *. split_and!; cbn [queue running closed pending]; [done| |done].
    intros _ key. rewrite serving_snoc. specialize (H2 Hcl key). unfold flying, ready_of, own in *.
    cbn [in_flight ready]. rewrite H2, E, filter_cons.
    case_decide; rewrite ?fmap_cons; cbn [length]; lia.
  - destruct (rn !! k) as [job|] eqn:Hk; simplify_eq/=. by apply calm_finish.
  - simplify_eq. split_and!; cbn; [done|done|]. intros key. unfold waiting_of. cbn.
    by rewrite lookup_empty.
Qed.

(** Work conservation.  As long as no queued client disconnects, a workspace
    with requests pending always has a command running or released to the
    workers, whose completion will release the next one: with a share of at
    least one, admission never strands a request. *)
Theorem pending_has_a_releaser pw cap s key :
  exec_steps calm pw cap exec_init s → pw ≠ Some 0 →
  waiting_of (queue s) key ≠ [] →
  0 < serving (running s) key + length (ready_of (queue s) key).
Proof.
  intros Hs Hpw Hw. assert (calm_ok pw s) as (H1 & H2 & H3).
  { eapply exec_steps_invariant; [|split_and!|done].
    - intros. by eapply calm_step.
    - done.
    - intros _ k. unfold flying. cbn. by rewrite lookup_empty.
    - intros k. unfold waiting_of. cbn. by rewrite lookup_empty. }
  destruct (H3 key Hw) as (n & Hn & Hle). rewrite <-H2.
  - destruct n; [done|lia].
  - destruct (closed (queue s)); [|done]. unfold waiting_of in Hw. by rewrite H1, lookup_empty in Hw.
Qed.

(** ** A share lost to a disconnect *)

(** The workspace's share is used up by nobody. *)
Definition leaked (n : nat) (key : string) (s : exec_pool) : Prop :=
  n ≤ flying (queue s) key ∧ serving (running s) key = 0 ∧ ready_of (queue s) key = [].

Lemma leaked_step n cap key l s s' :
  leaked n key s → exec_step (Some n) cap l s = Some s' → leaked n key s'.
Proof.
  destruct s as [q rn]. intros (Hf & Hs & Hr) H. cbn [queue running] in *.
  assert (∀ gone, ready_of (discard_disconnected gone q) key = []) as Hd.
  { intros gone. by rewrite discard_ready_of, Hr. }
  destruct l as [gone job| |gone k|]; cbn in H.
  - simplify_eq. unfold enqueue. specialize (Hd gone).
    change (flying q key) with (flying (discard_disconnected gone q) key) in Hf.
    set (d := discard_disconnected gone q) in *.
    destruct (closed d); [done|]. case_bool_decide; [done|].
    destruct (workspace_key job) as [key'|] eqn:Hk; [destruct (must_wait _ d key') eqn:Hw|];
      cbn [snd]; (split_and!; cbn [queue running]; [|done|]); try done.
    + rewrite flying_fly. case_decide; lia.
    + rewrite ready_of_snoc, Hk. case_decide; simplify_eq.
      * apply must_wait_false in Hw as [_ Hw]. specialize (Hw n eq_refl). lia.
      * unfold ready_of in *. cbn [ready]. by rewrite app_nil_r.
    + rewrite ready_of_snoc, Hk. unfold ready_of in *. cbn [ready]. by rewrite Hd.
  - unfold next in H. destruct (closed q); [done|].
    destruct (ready q) as [|job rest] eqn:E; simplify_eq. unfold ready_of in Hr.
    rewrite E, filter_cons in Hr. case_decide as Hk; [done|].
    split_and!; cbn [queue running]; [done| |done]. rewrite serving_snoc, Hs. unfold own.
    by rewrite decide_False.
  - destruct (rn !! k) as [job|] eqn:Hk; simplify_eq/=. rewrite (serving_delete _ _ _ key Hk) in Hs.
    specialize (Hd gone). change (flying q key) with (flying (discard_disconnected gone q) key) in Hf.
    unfold finish. set (d := discard_disconnected gone q) in *.
    assert (workspace_key job ≠ Some key) as Hne.
    { intros Hj. unfold own in Hs. rewrite decide_True in Hs by done. cbn in Hs. lia. }
    destruct (workspace_key job) as [key'|]; [|by split_and!; cbn [queue running]; [|lia|]].
    assert (key ≠ key') by congruence. destruct (land_fields key' d) as (Hrd & _).
    assert (leaked n key (mkExec (land key' d) (delete k rn))) as Hl.
    { split_and!; cbn [queue running]; [|lia|].
      - rewrite flying_land. by case_decide.
      - unfold ready_of in *. by rewrite Hrd. }
    destruct (has_room _ _ key'); [|done].
    destruct (pending (land key' d) !! key') as [[|s rest]|]; [done| |done].
    destruct Hl as (Hl1 & Hl2 & Hl3). split_and!; cbn [queue running] in *; [|done|].
    + rewrite flying_fly. case_decide; lia.
    + rewrite ready_of_snoc. cbn [workspace_key]. rewrite decide_False by congruence.
      unfold ready_of in *. cbn [ready]. by rewrite app_nil_r.
  - simplify_eq. done.
Qed.

(** Share of one: a request of workspace "a" is admitted, its client leaves
    before a worker takes it, and a second request of "a" arrives. *)
Definition leak_schedule : list exec_label :=
  [EEnqueue (λ _, false) (mkJob 1 (Some "a")); EEnqueue (λ s, bool_decide (s = 1)) (mkJob 2 (Some "a"))].

Fixpoint exec_run (pw : option nat) (cap : nat) (ls : list exec_label) (s : exec_pool) : option exec_pool :=
  match ls with
  | [] => Some s
  | l :: ls' => exec_step pw cap l s ≫= exec_run pw cap ls'
  end.

(** The admission state loses a share when a client disconnects after its
    request was admitted and before a worker took it: [discard_disconnected]
    drops the job from the ready queue and leaves its [in_flight] count.  With
    a share of one, two arrivals reach a state where a connected client waits
    in workspace "a" with no command of "a" admitted or running, and in no
    continuation, whatever arrives, finishes or disconnects, is a request of
    "a" ever served again. *)
Theorem disconnect_leaks_share :
  ∃ s, exec_run (Some 1) EXEC_QUEUE_CAPACITY leak_schedule exec_init = Some s ∧
    waiting_of (queue s) "a" = [2] ∧ running s = [] ∧ ready (queue s) = [] ∧ closed (queue s) = false ∧
    ∀ s', exec_steps any_label (Some 1) EXEC_QUEUE_CAPACITY s s' →
      ∀ job, job ∈ running s' → workspace_key job ≠ Some "a".
Proof.
  eexists. split; [by vm_compute|]. split_and!; [by vm_compute..|].
  intros s' Hs job Hjob Hk. eapply (exec_steps_invariant (leaked 1 "a")) in Hs.
  - destruct Hs as (_ & Hs & _). unfold serving in Hs.
    apply length_zero_iff_nil in Hs.
    assert (job ∈ filter (λ job, workspace_key job = Some "a") (running s')) as Hin
      by by apply list_elem_of_filter.
    rewrite Hs in Hin. by apply not_elem_of_nil in Hin.
  - intros l t t' _ Ht Hst. by eapply leaked_step.
  - split_and!; [|by vm_compute..]. by vm_compute.
Qed.

(** ** The pools do not interfere *)

(** Each pool saturates on its own.  Submitting a connection touches only
    the queue of its class, and a control request (a request line that has not
    arrived counts as one) is queued whenever the control channel has room,
    however full the exec and transfer queues are; a full queue is answered
    with a rejection, never by blocking. *)
Theorem submit_isolated gone s line p :
  let '(outcome, p') := submit gone s line p in
  match class (peek_request line) with
  | Exec => control p' = control p ∧ transfer p' = transfer p ∧
      (closed (exec_queue p) = false →
       outcome = Queued Exec ∨ outcome = RejectedBusy Exec EXEC_QUEUE_CAPACITY)
  | Transfer => control p' = control p ∧ exec_queue p' = exec_queue p ∧
      (connected (transfer p) = true →
       outcome = if bool_decide (length (buffer (transfer p)) < TRANSFER_QUEUE_CAPACITY)
                 then Queued Transfer else RejectedBusy Transfer TRANSFER_QUEUE_CAPACITY)
  | Control => transfer p' = transfer p ∧ exec_queue p' = exec_queue p ∧
      (connected (control p) = true →
       outcome = if bool_decide (length (buffer (control p)) < CONTROL_QUEUE_CAPACITY)
                 then Queued Control else RejectedBusy Control CONTROL_QUEUE_CAPACITY)
  end.
Proof.
  unfold submit. destruct (class (peek_request line)) eqn:Hc.
  - unfold try_send. destruct (connected (control p)); cbn; [|done].
    by case_bool_decide.
  - unfold enqueue. cbn [discard_disconnected closed].
    destruct (closed (exec_queue p)); [done|].
    repeat (case_match; simplify_eq/=); auto.
  - unfold try_send. destruct (connected (transfer p)); cbn; [|done].
    by case_bool_decide.
Qed.

(** ** Instances *)

Lemma exec_run_steps P pw cap ls s s' :
  Forall P ls → exec_run pw cap ls s = Some s' → exec_steps P pw cap s s'.
Proof.
  intros HP Hrun. enough (∀ s0, exec_steps P pw cap s0 s → exec_steps P pw cap s0 s') as H
    by (apply H; constructor).
  revert s Hrun. induction HP as [|l ls Hl _ IH]; cbn; intros s Hrun s0 H0; [by simplify_eq|].
  destruct (exec_step pw cap l s) as [s1|] eqn:E; [|done].
  eapply IH; [exact Hrun|]. by eapply exec_more.
Qed.

Definition exec_after (pw : option nat) (ls : list exec_label) : exec_pool :=
  default exec_init (exec_run pw EXEC_QUEUE_CAPACITY ls exec_init).

(** Two commands of one workspace under a share of one. *)
Definition busy_schedule : list exec_label :=
  [EEnqueue (λ _, false) (mkJob 1 (Some "a")); ENext; EEnqueue (λ _, false) (mkJob 2 (Some "a"))].

Lemma exec_queue_refines_fifo_witness :
  fifo_step (Some 1) EXEC_QUEUE_CAPACITY (EFinish (λ _, false) 0) (exec_after (Some 1) busy_schedule)
    (lineup (queue (exec_after (Some 1) busy_schedule)))
    (lineup (queue (exec_after (Some 1) (busy_schedule ++ [EFinish (λ _, false) 0])))).
Proof. apply exec_queue_refines_fifo. by vm_compute. Defined.

Lemma exec_pool_bounds_witness :
  pending_count (queue (exec_after (Some 1) busy_schedule)) = 1 ∧
  serving (running (exec_after (Some 1) busy_schedule)) "a" +
    length (ready_of (queue (exec_after (Some 1) busy_schedule)) "a") ≤ 1.
Proof.
  destruct (exec_pool_bounds (Some 1) EXEC_QUEUE_CAPACITY (exec_after (Some 1) busy_schedule))
    as (H1 & H2 & H3).
  - apply (exec_run_steps _ _ _ busy_schedule); [by repeat constructor|by vm_compute].
  - split; [by vm_compute|]. by apply H3.
Defined.

Lemma pending_has_a_releaser_witness :
  0 < serving (running (exec_after (Some 1) busy_schedule)) "a" +
      length (ready_of (queue (exec_after (Some 1) busy_schedule)) "a").
Proof.
  apply (pending_has_a_releaser (Some 1) EXEC_QUEUE_CAPACITY (exec_after (Some 1) busy_schedule) "a").
  - apply (exec_run_steps _ _ _ busy_schedule); [by repeat constructor|by vm_compute].
  - done.
  - by vm_compute.
Defined.
