(* ===== verification/Ports.v ===== *)
(** * Published ports (src/src/workspace/ports.rs)

    The text forms of a published port and of its host binding, duplicate
    detection, and the merge of declared ports with the publisher's report. *)
From S2P Require Import Prelude RustStr.

Definition LOOPBACK_HOST_IP : string := "127.0.0.1".
Definition TCP_PROTOCOL : string := "tcp".

Record PublishedPortSpec := mkSpec {
  spec_host_ip : string; spec_host_port : Z; spec_workspace_port : Z; spec_protocol : string }.

Record PublishedPortBinding := mkBinding {
  binding_host_ip : string; binding_host_port : Z; binding_protocol : string }.

Inductive PublishedPortState := Configured | Active | Failed.

Record PublishedPortStatus := mkStatus {
  status_host_ip : string;
  status_host_port : Z;
  status_workspace_ip : option string;
  status_workspace_port : Z;
  status_protocol : string;
  status_state : PublishedPortState;
  status_error : option string }.

#[export] Instance PublishedPortSpec_eq_dec : EqDecision PublishedPortSpec.
Proof. solve_decision. Defined.
#[export] Instance PublishedPortBinding_eq_dec : EqDecision PublishedPortBinding.
Proof. solve_decision. Defined.
#[export] Instance PublishedPortBinding_countable : Countable PublishedPortBinding.
Proof.
  refine (inj_countable' (λ b, (binding_host_ip b, binding_host_port b, binding_protocol b))
    (λ '(ip, port, proto), mkBinding ip port proto) _).
  by intros [].
Defined.
#[export] Instance PublishedPortState_eq_dec : EqDecision PublishedPortState.
Proof. solve_decision. Defined.
#[export] Instance PublishedPortStatus_eq_dec : EqDecision PublishedPortStatus.
Proof. solve_decision. Defined.

Definition normalize_protocol (raw ctx : string) : result string :=
  let protocol := to_ascii_lowercase (trim raw) in
  if bool_decide (protocol = TCP_PROTOCOL) then Ok protocol
  else bail ("published port spec '" +:+ ctx +:+ "' uses unsupported protocol '" +:+ raw +:+
             "'; only tcp is supported").

Definition validate_host_ip (host_ip ctx : string) : result unit :=
  if bool_decide (host_ip = LOOPBACK_HOST_IP) then Ok tt
  else bail ("published port spec '" +:+ ctx +:+ "' uses unsupported host IP '" +:+ host_ip +:+
             "'; only 127.0.0.1 is allowed").

Definition parse_port (raw label ctx : string) : result Z :=
  let failure := plain ("published port spec '" +:+ ctx +:+ "' has invalid " +:+ label +:+
                        " '" +:+ raw +:+ "'") in
  port ← ok_or (parse_uint u16_max raw) failure;
  if bool_decide (port = 0%Z) then Err failure else Ok port.

(** The protocol suffix both text forms share. *)
Definition split_protocol (trimmed : string) : string * string :=
  match rsplit_once "/" trimmed with
  | Some (base, protocol) => (base, protocol)
  | None => (trimmed, TCP_PROTOCOL)
  end.

Definition spec_parse (raw : string) : result PublishedPortSpec :=
  let trimmed := trim raw in
  if bool_decide (trimmed = "") then bail "published port spec must not be empty"
  else
    let '(base, protocol_raw) := split_protocol trimmed in
    protocol ← normalize_protocol protocol_raw trimmed;
    match split ":" base with
    | [host_ip; host_port_raw; workspace_port_raw] =>
        _ ← validate_host_ip host_ip trimmed;
        host_port ← parse_port host_port_raw "host port" trimmed;
        workspace_port ← parse_port workspace_port_raw "workspace port" trimmed;
        Ok (mkSpec host_ip host_port workspace_port protocol)
    | _ => bail ("published port spec '" +:+ trimmed +:+
                 "' must use HOST_IP:HOST_PORT:WORKSPACE_PORT[/tcp]")
    end.

(** [Display for PublishedPortSpec] *)
Definition spec_display (s : PublishedPortSpec) : string :=
  spec_host_ip s +:+ ":" +:+ print_uint (spec_host_port s) +:+ ":" +:+
  print_uint (spec_workspace_port s) +:+ "/" +:+ spec_protocol s.

Definition binding_of (host_ip : string) (host_port : Z) (protocol : string) : PublishedPortBinding :=
  mkBinding host_ip host_port protocol.
Definition spec_binding (s : PublishedPortSpec) : PublishedPortBinding :=
  binding_of (spec_host_ip s) (spec_host_port s) (spec_protocol s).
Definition status_binding (s : PublishedPortStatus) : PublishedPortBinding :=
  binding_of (status_host_ip s) (status_host_port s) (status_protocol s).

Definition binding_parse (raw : string) : result PublishedPortBinding :=
  let trimmed := trim raw in
  if bool_decide (trimmed = "") then bail "published port binding must not be empty"
  else
    let '(base, protocol_raw) := split_protocol trimmed in
    protocol ← normalize_protocol protocol_raw trimmed;
    match rsplit_once ":" base with
    | Some (host_ip, host_port_raw) =>
        _ ← validate_host_ip host_ip trimmed;
        host_port ← parse_port host_port_raw "host port" trimmed;
        Ok (mkBinding host_ip host_port protocol)
    | None => bail ("published port binding '" +:+ trimmed +:+ "' must use HOST_IP:HOST_PORT[/tcp]")
    end.

Definition binding_display (b : PublishedPortBinding) : string :=
  binding_host_ip b +:+ ":" +:+ print_uint (binding_host_port b) +:+ "/" +:+ binding_protocol b.

Definition status_configured (s : PublishedPortSpec) : PublishedPortStatus :=
  mkStatus (spec_host_ip s) (spec_host_port s) None (spec_workspace_port s) (spec_protocol s) Configured None.
Definition status_active (s : PublishedPortSpec) (workspace_ip : string) : PublishedPortStatus :=
  mkStatus (spec_host_ip s) (spec_host_port s) (Some workspace_ip) (spec_workspace_port s)
    (spec_protocol s) Active None.
Definition status_failed (s : PublishedPortSpec) (error : string) : PublishedPortStatus :=
  mkStatus (spec_host_ip s) (spec_host_port s) None (spec_workspace_port s) (spec_protocol s)
    Failed (Some error).

(** The loop of [validate_published_ports], with the bindings seen so far. *)
Fixpoint validate_loop (bindings : gset PublishedPortBinding) (specs : list PublishedPortSpec) : result unit :=
  match specs with
  | [] => Ok tt
  | spec :: specs' =>
      let binding := spec_binding spec in
      if decide (binding ∈ bindings)
      then bail ("duplicate published host binding '" +:+ binding_host_ip binding +:+ ":" +:+
                 print_uint (binding_host_port binding) +:+ "' in workspace configuration")
      else validate_loop ({[ binding ]} ∪ bindings) specs'
  end.
Definition validate_published_ports (specs : list PublishedPortSpec) : result unit :=
  validate_loop ∅ specs.

Definition configured_port_statuses (specs : list PublishedPortSpec) : list PublishedPortStatus :=
  status_configured <$> specs.

(** The derived order of bindings: address, then port, then protocol. *)
Definition binding_le (a b : PublishedPortBinding) : Prop :=
  (binding_host_ip a ≠ binding_host_ip b ∧ String.le (binding_host_ip a) (binding_host_ip b)) ∨
  (binding_host_ip a = binding_host_ip b ∧
    ((binding_host_port a < binding_host_port b)%Z ∨
     (binding_host_port a = binding_host_port b ∧ String.le (binding_protocol a) (binding_protocol b)))).
#[export] Instance binding_le_dec : RelDecision binding_le.
Proof. intros a b. unfold binding_le. apply _. Defined.

Definition entry_le (p q : PublishedPortBinding * PublishedPortStatus) : Prop := binding_le p.1 q.1.
#[export] Instance entry_le_dec : RelDecision entry_le.
Proof. intros p q. unfold entry_le. apply _. Defined.

(** [BTreeMap::into_values] *)
Definition into_values (m : gmap PublishedPortBinding PublishedPortStatus) : list PublishedPortStatus :=
  (merge_sort entry_le (map_to_list m)).*2.

Definition by_binding (runtime_statuses : list PublishedPortStatus) : gmap PublishedPortBinding PublishedPortStatus :=
  foldl (λ m status, <[status_binding status := status]> m) ∅ runtime_statuses.

Fixpoint merge_loop (m : gmap PublishedPortBinding PublishedPortStatus) (specs : list PublishedPortSpec)
    : list PublishedPortStatus :=
  match specs with
  | [] => into_values m
  | spec :: specs' =>
      match m !! spec_binding spec with
      | Some status => status :: merge_loop (delete (spec_binding spec) m) specs'
      | None => status_configured spec :: merge_loop m specs'
      end
  end.

Definition merge_published_port_statuses (specs : list PublishedPortSpec)
    (runtime_statuses : list PublishedPortStatus) : list PublishedPortStatus :=
  merge_loop (by_binding runtime_statuses) specs.

(** ** Text forms *)

Definition port_ok (p : Z) : Prop := (1 ≤ p ≤ u16_max)%Z.
Definition spec_valid (s : PublishedPortSpec) : Prop :=
  spec_host_ip s = LOOPBACK_HOST_IP ∧ port_ok (spec_host_port s) ∧
  port_ok (spec_workspace_port s) ∧ spec_protocol s = TCP_PROTOCOL.
Definition binding_valid (b : PublishedPortBinding) : Prop :=
  binding_host_ip b = LOOPBACK_HOST_IP ∧ port_ok (binding_host_port b) ∧
  binding_protocol b = TCP_PROTOCOL.

Lemma parse_port_Ok raw label ctx p :
  parse_port raw label ctx = Ok p → port_ok p.
Proof.
  unfold parse_port, port_ok. intros H. case_result. case_bool_decide; case_result.
  match goal with H : parse_uint _ _ = Some _ |- _ => apply parse_uint_bound in H end. lia.
Qed.

Lemma parse_port_print p label ctx : port_ok p → parse_port (print_uint p) label ctx = Ok p.
Proof.
  intros Hp. unfold parse_port. rewrite parse_print_uint by (unfold port_ok, u16_max in *; lia).
  cbn. rewrite bool_decide_eq_false_2; [done|]. unfold port_ok in Hp. lia.
Qed.

Lemma normalize_tcp ctx : normalize_protocol TCP_PROTOCOL ctx = Ok TCP_PROTOCOL.
Proof. done. Qed.

Lemma split_protocol_tcp base :
  split_protocol (base +:+ "/tcp") = (base, TCP_PROTOCOL).
Proof. unfold split_protocol. by rewrite (rsplit_once_app "/" base "tcp"). Qed.

Lemma spec_parse_valid raw s : spec_parse raw = Ok s → spec_valid s.
Proof.
  unfold spec_parse. case_bool_decide; [done|].
  destruct (split_protocol (trim raw)) as [base proto]. intros Hr. case_result.
  repeat (case_match; try done). case_result.
  unfold validate_host_ip, normalize_protocol in *. repeat case_bool_decide; case_result.
  split_and!; cbn; [done|by eapply parse_port_Ok..|done].
Qed.

Lemma binding_parse_valid raw b : binding_parse raw = Ok b → binding_valid b.
Proof.
  unfold binding_parse. case_bool_decide; [done|].
  destruct (split_protocol (trim raw)) as [base proto]. intros Hr. case_result.
  repeat (case_match; try done). case_result.
  unfold validate_host_ip, normalize_protocol in *. repeat case_bool_decide; case_result.
  split_and!; cbn; [done|by eapply parse_port_Ok|done].
Qed.

Lemma print_uint_free c n : is_ascii_digit c = false → free c (print_uint n) = true.
Proof. intros Hc. apply digits_free; [done|apply print_uint_digits]. Qed.

Lemma spec_display_shape hp wp :
  spec_display (mkSpec LOOPBACK_HOST_IP hp wp TCP_PROTOCOL) =
  (LOOPBACK_HOST_IP +:+ String ":" (print_uint hp +:+ String ":" (print_uint wp))) +:+ "/tcp".
Proof.
  unfold spec_display. cbn [spec_host_ip spec_host_port spec_workspace_port spec_protocol].
  rewrite !str_app_assoc. f_equal. cbn [String.append]. f_equal. by rewrite !str_app_assoc.
Qed.

Lemma binding_display_shape hp :
  binding_display (mkBinding LOOPBACK_HOST_IP hp TCP_PROTOCOL) =
  (LOOPBACK_HOST_IP +:+ String ":" (print_uint hp)) +:+ "/tcp".
Proof.
  unfold binding_display. cbn [binding_host_ip binding_host_port binding_protocol].
  by rewrite !str_app_assoc.
Qed.

Lemma graphic_app s1 s2 :
  str_all is_ascii_graphic s1 = true → str_all is_ascii_graphic s2 = true →
  str_all is_ascii_graphic (s1 +:+ s2) = true.
Proof. intros H1 H2. by rewrite str_all_app, H1, H2. Qed.

Lemma print_uint_graphic n : str_all is_ascii_graphic (print_uint n) = true.
Proof. apply digits_graphic, print_uint_digits. Qed.

Lemma cons_graphic c s :
  is_ascii_graphic c = true → str_all is_ascii_graphic s = true →
  str_all is_ascii_graphic (String c s) = true.
Proof. intros Hc Hs. cbn. by rewrite Hc, Hs. Qed.

#[local] Hint Resolve graphic_app print_uint_graphic cons_graphic : enclave.

Lemma spec_parse_display s : spec_valid s → spec_parse (spec_display s) = Ok s.
Proof.
  destruct s as [ip hp wp proto]. intros (Hip & Hhp & Hwp & Hpr). cbn [spec_host_ip spec_host_port spec_workspace_port spec_protocol] in *. subst.
  rewrite spec_display_shape. unfold spec_parse. rewrite trim_graphic.
  2:{ apply graphic_app; [|done]. apply graphic_app; [done|]. auto with enclave. }
  rewrite bool_decide_eq_false_2 by done.
  rewrite split_protocol_tcp, normalize_tcp. cbn [mbind result_bind].
  rewrite split_app by done. rewrite split_app by (by apply print_uint_free).
  rewrite split_free by (by apply print_uint_free).
  unfold validate_host_ip. rewrite bool_decide_eq_true_2 by done. cbn [mbind result_bind].
  rewrite !parse_port_print by done. done.
Qed.

Lemma binding_parse_display b : binding_valid b → binding_parse (binding_display b) = Ok b.
Proof.
  destruct b as [ip hp proto]. intros (Hip & Hhp & Hpr). cbn [binding_host_ip binding_host_port binding_protocol] in *. subst.
  rewrite binding_display_shape. unfold binding_parse. rewrite trim_graphic.
  2:{ apply graphic_app; [|done]. apply graphic_app; [done|]. auto with enclave. }
  rewrite bool_decide_eq_false_2 by done.
  rewrite split_protocol_tcp, normalize_tcp. cbn [mbind result_bind].
  rewrite rsplit_once_app by (by apply print_uint_free).
  unfold validate_host_ip. rewrite bool_decide_eq_true_2 by done. cbn [mbind result_bind].
  rewrite !parse_port_print by done. done.
Qed.

(** Parsing and printing a published port are inverse on what the parser
    accepts.  A text that parses yields a loopback TCP port with both ports in
    1..65535 whatever spelling it used (surrounding white space, upper case
    protocol, omitted suffix, leading zeros or plus signs), and the printed form
    of that port, or of any such port, parses back to it; the same holds for
    bindings. *)
Theorem ports_roundtrip :
  (∀ raw s, spec_parse raw = Ok s → spec_valid s ∧ spec_parse (spec_display s) = Ok s) ∧
  (∀ s, spec_valid s → spec_parse (spec_display s) = Ok s) ∧
  (∀ raw b, binding_parse raw = Ok b → binding_valid b ∧ binding_parse (binding_display b) = Ok b) ∧
  (∀ s, spec_valid s → binding_parse (binding_display (spec_binding s)) = Ok (spec_binding s)).
Proof.
  split_and!.
  - intros raw s H%spec_parse_valid. split; [done|]. by apply spec_parse_display.
  - apply spec_parse_display.
  - intros raw b H%binding_parse_valid. split; [done|]. by apply binding_parse_display.
  - intros s (Hip & Hhp & _ & Hpr). by apply binding_parse_display.
Qed.

(** ** Duplicates and the merge *)

Lemma validate_loop_Ok seen specs :
  validate_loop seen specs = Ok tt ↔
  NoDup (spec_binding <$> specs) ∧ (∀ s, s ∈ specs → (spec_binding s ∉ seen)).
Proof.
  revert seen. induction specs as [|s specs IH]; intros seen; cbn.
  { split; [|done]. intros _. split; [constructor|]. intros s Hs. by apply not_elem_of_nil in Hs. }
  case_decide as Hin.
  - split; [done|]. intros [_ H]. exfalso. apply (H s); [apply elem_of_cons; by left|done].
  - rewrite IH, list.NoDup_cons, list_elem_of_fmap. split.
    + intros [Hnd Hs]. split_and!; [|done|].
      * intros (s' & Hb & Hs'). apply (Hs s' Hs'). rewrite Hb. set_solver.
      * intros s' [->|Hs']%elem_of_cons; [done|]. specialize (Hs s' Hs'). set_solver.
    + intros [[Hn Hnd] Hs]. split; [done|]. intros s' Hs'.
      assert (spec_binding s' ≠ spec_binding s) by (intros E; apply Hn; eauto).
      assert (s' ∈ s :: specs) as Hin' by (apply elem_of_cons; by right).
      specialize (Hs s' Hin'). set_solver.
Qed.

(** The duplicate check accepts exactly the port lists whose host bindings
    (address, port and protocol) are pairwise distinct. *)
Theorem validate_ports_iff specs :
  validate_published_ports specs = Ok tt ↔ NoDup (spec_binding <$> specs).
Proof.
  unfold validate_published_ports. rewrite validate_loop_Ok. split; [tauto|].
  intros H. split; [done|]. intros s _. apply not_elem_of_empty.
Qed.

(** The last report for a binding. *)
Definition latest (b : PublishedPortBinding) (l : list PublishedPortStatus) : option PublishedPortStatus :=
  list.last (filter (λ s, status_binding s = b) l).

Lemma by_binding_lookup l b : by_binding l !! b = latest b l.
Proof.
  unfold by_binding, latest.
  induction l as [|s l IH] using rev_ind; [done|]. rewrite foldl_app, list.filter_app. cbn [foldl].
  rewrite filter_cons. destruct (decide (status_binding s = b)) as [<-|Hne].
  - by rewrite lookup_insert_eq, filter_nil, last_snoc.
  - by rewrite lookup_insert_ne, filter_nil, app_nil_r.
Qed.

(** The map's entries are filed under their own binding. *)
Definition keyed (m : gmap PublishedPortBinding PublishedPortStatus) : Prop :=
  ∀ b s, m !! b = Some s → status_binding s = b.

Lemma keyed_by_binding l : keyed (by_binding l).
Proof.
  intros b s. rewrite by_binding_lookup. unfold latest. intros H.
  apply last_Some_elem_of, list_elem_of_filter in H as [? _]. done.
Qed.

Lemma into_values_perm m : into_values m ≡ₚ (map_to_list m).*2.
Proof. unfold into_values. by rewrite merge_sort_Permutation. Qed.

Lemma elem_of_into_values m s : s ∈ into_values m ↔ ∃ b, m !! b = Some s.
Proof.
  rewrite into_values_perm, list_elem_of_fmap. split.
  - intros ([b s'] & -> & H). exists b. by apply elem_of_map_to_list.
  - intros [b H]. exists (b, s). by rewrite elem_of_map_to_list.
Qed.

Lemma bindings_into_values m : keyed m → status_binding <$> into_values m ≡ₚ (map_to_list m).*1.
Proof.
  intros Hk. rewrite into_values_perm, <-list_fmap_compose.
  apply reflexive_eq, list_fmap_ext. intros i [b s] H. cbn. apply Hk.
  apply elem_of_map_to_list. by eapply list_elem_of_lookup_2.
Qed.

Lemma keyed_delete m b : keyed m → keyed (delete b m).
Proof. intros Hk b' s. rewrite lookup_delete_Some. intros [_ H]. by apply Hk. Qed.

Lemma merge_loop_prefix m specs :
  NoDup (spec_binding <$> specs) →
  take (length specs) (merge_loop m specs) =
    (λ spec, default (status_configured spec) (m !! spec_binding spec)) <$> specs.
Proof.
  revert m. induction specs as [|spec specs IH]; intros m Hnd; [done|].
  rewrite fmap_cons in *. apply list.NoDup_cons in Hnd as [Hn Hnd].
  cbn [merge_loop length]. destruct (m !! spec_binding spec) as [s|] eqn:E;
    cbn [take default from_option]; f_equal; rewrite IH by done; [|done].
  apply list_fmap_ext. intros i spec' Hi. rewrite lookup_delete_ne; [done|].
  intros Heq. apply Hn. rewrite Heq. apply list_elem_of_fmap_2. by eapply list_elem_of_lookup_2.
Qed.

Lemma merge_loop_complete m specs b s : m !! b = Some s → s ∈ merge_loop m specs.
Proof.
  revert m. induction specs as [|spec specs IH]; intros m Hb; cbn [merge_loop].
  { apply elem_of_into_values. eauto. }
  destruct (m !! spec_binding spec) as [s'|] eqn:E; apply elem_of_cons.
  - destruct (decide (spec_binding spec = b)) as [<-|Hne]; [left; congruence|right].
    apply IH. by rewrite lookup_delete_ne.
  - right. by apply IH.
Qed.

Lemma merge_loop_sound m specs s :
  keyed m → s ∈ merge_loop m specs →
  status_binding s ∈ (spec_binding <$> specs) ∨ m !! status_binding s = Some s.
Proof.
  revert m. induction specs as [|spec specs IH]; intros m Hk; cbn [merge_loop].
  { rewrite elem_of_into_values. intros [b Hb]. right. by rewrite (Hk _ _ Hb). }
  rewrite fmap_cons. destruct (m !! spec_binding spec) as [s'|] eqn:E; intros [->|Hs]%elem_of_cons.
  - left. rewrite (Hk _ _ E). apply elem_of_cons. by left.
  - destruct (IH _ (keyed_delete _ _ Hk) Hs) as [H|H]; [left; apply elem_of_cons; by right|].
    apply lookup_delete_Some in H as [_ H]. by right.
  - left. apply elem_of_cons. by left.
  - destruct (IH _ Hk Hs) as [H|H]; [left; apply elem_of_cons; by right|by right].
Qed.

Lemma merge_loop_NoDup m specs :
  NoDup (spec_binding <$> specs) → keyed m → NoDup (status_binding <$> merge_loop m specs).
Proof.
  revert m. induction specs as [|spec specs IH]; intros m Hnd Hk; cbn [merge_loop].
  { rewrite bindings_into_values by done. apply NoDup_fst_map_to_list. }
  rewrite fmap_cons in Hnd. apply list.NoDup_cons in Hnd as [Hn Hnd].
  destruct (m !! spec_binding spec) as [s'|] eqn:E; rewrite fmap_cons; apply list.NoDup_cons.
  - split; [|by apply IH; [|apply keyed_delete]]. rewrite (Hk _ _ E).
    intros (s & Hb & Hs)%list_elem_of_fmap.
    apply merge_loop_sound in Hs as [Hs|Hs]; [by rewrite <-Hb in Hs|rewrite <-Hb in Hs|by apply keyed_delete].
    by rewrite lookup_delete_eq in Hs.
  - split; [|by apply IH]. intros (s & Hb & Hs)%list_elem_of_fmap.
    change (status_binding (status_configured spec)) with (spec_binding spec) in Hb.
    apply merge_loop_sound in Hs as [Hs|Hs]; [by rewrite <-Hb in Hs|rewrite <-Hb in Hs|done].
    congruence.
Qed.

(** Merging the declared ports with the publisher's report, for a port list
    that passed validation: the first entries are the declared ports in their
    declared order, each with its latest report or as configured; the latest
    report of every other binding follows; and no binding is listed twice. *)
Theorem merge_statuses_spec specs runtime :
  validate_published_ports specs = Ok tt →
  take (length specs) (merge_published_port_statuses specs runtime) =
    (λ spec, default (status_configured spec) (latest (spec_binding spec) runtime)) <$> specs ∧
  (∀ b s, latest b runtime = Some s → s ∈ merge_published_port_statuses specs runtime) ∧
  NoDup (status_binding <$> merge_published_port_statuses specs runtime).
Proof.
  unfold validate_published_ports, merge_published_port_statuses. intros [Hnd _]%validate_loop_Ok.
  split_and!.
  - rewrite merge_loop_prefix by done. apply list_fmap_ext. intros i spec _.
    by rewrite by_binding_lookup.
  - intros b s. rewrite <-by_binding_lookup. apply merge_loop_complete.
  - apply merge_loop_NoDup; [done|apply keyed_by_binding].
Qed.

Lemma merge_statuses_spec_witness :
  let web := mkSpec "127.0.0.1" 8080 80 "tcp" in
  let api := mkSpec "127.0.0.1" 9090 90 "tcp" in
  take 2 (merge_published_port_statuses [web; api] [status_failed api "in use"; status_active api "10.200.0.10"]) =
    [status_configured web; status_active api "10.200.0.10"].
Proof.
  intros web api.
  destruct (merge_statuses_spec [web; api] [status_failed api "in use"; status_active api "10.200.0.10"])
    as [H _]; [by vm_compute|]. exact H.
Defined.
