(* ===== verification/Auth.v ===== *)
(** * Credentials (src/src/auth)

    Names of token files and environment tokens (names.rs), the namespaces
    tokens live in (scope.rs, storage/paths.rs), the provider table
    (providers.rs), which credentials a workspace resolves to (resolution.rs)
    and the scrubbing of their values from command output (scrub.rs).

    Rust strings are their UTF-8 bytes.  The character classes the validators
    test are ASCII, and every byte of a non-ASCII character is outside them, so
    testing bytes gives the verdict testing characters gives. *)
From S2P Require Import Prelude RustStr Json.

(** ** Names *)

Definition MAX_ENV_TOKEN_LEN : nat := 64.

Definition validate_token_name (name : string) : result unit :=
  match name with
  | EmptyString => bail "token name must not be empty"
  | String first chars =>
      if negb (is_ascii_lowercase first || is_ascii_digit first || (first =? "_")%char)
      then bail "token name must start with a lowercase ASCII letter, a digit, or '_'"
      else if negb (str_all (λ c, is_ascii_lowercase c || is_ascii_digit c || (c =? "-")%char) chars)
      then bail "token name may only contain lowercase ASCII letters, digits, and '-'"
      else Ok tt
  end.

Definition validate_env_token_name (env_token : string) : result unit :=
  match env_token with
  | EmptyString => bail "environment token name must not be empty"
  | String first chars =>
      if MAX_ENV_TOKEN_LEN <? String.length env_token
      then bail "environment token name must be at most 64 characters"
      else if negb (is_ascii_uppercase first || (first =? "_")%char)
      then bail "environment token name must start with an ASCII uppercase letter or '_'"
      else if negb (str_all (λ c, is_ascii_uppercase c || is_ascii_digit c || (c =? "_")%char) chars)
      then bail "environment token name may only contain ASCII uppercase letters, digits, and '_'"
      else Ok tt
  end.

Definition slot_for_env_token (env_token : string) : result string :=
  _ ← validate_env_token_name env_token;
  let lowered := to_ascii_lowercase env_token in
  match strip_prefix "_" lowered with
  | Some rest => Ok ("_" +:+ replace_char "_" "-" rest)
  | None => Ok (replace_char "_" "-" lowered)
  end.

(** ** Providers *)

Definition PROVIDERS : list (string * string) :=
  [("enclave", "ENCLAVE_TOKEN"); ("github", "GITHUB_TOKEN"); ("npm", "NPM_TOKEN")].

Definition supported_providers : list string := PROVIDERS.*1.

Definition provider_env_var (provider : string) : option string :=
  find_map (λ '(name, env), if bool_decide (name = provider) then Some env else None) PROVIDERS.

Definition provider_for_env_var (env_var : string) : option string :=
  let normalized := to_ascii_uppercase (trim env_var) in
  find_map (λ '(name, env), if bool_decide (env = normalized) then Some name else None) PROVIDERS.

(** ** Namespaces *)

Definition MAX_USER_ID_LEN : nat := 64.

Inductive TokenScope := SharedScope | UserScope (user_id : string).

Definition for_owner (owner : option string) : TokenScope :=
  match owner with Some user_id => UserScope user_id | None => SharedScope end.
Definition user_id (scope : TokenScope) : option string :=
  match scope with SharedScope => None | UserScope u => Some u end.

Definition user_id_char (c : ascii) : bool :=
  is_ascii_alphanumeric c || (c =? "+")%char || (c =? "-")%char || (c =? "_")%char || (c =? ".")%char.

Definition validate_user_id (u : string) : result unit :=
  if bool_decide (u = "") then bail "user id must not be empty"
  else if MAX_USER_ID_LEN <? String.length u then bail "user id must be at most 64 characters"
  else if bool_decide (u = "." ∨ u = "..") then bail "user id must not be '.' or '..'"
  else if negb (str_all user_id_char u)
  then bail "user id may only contain ASCII letters, digits, and '+', '-', '_', '.'"
  else Ok tt.

(** [token_dir_if_exists] and [ensure_token_dir]: the directory of a namespace,
    below the state directory. *)
Definition token_dir (scope : TokenScope) : result string :=
  match scope with
  | SharedScope => Ok "auth"
  | UserScope u => _ ← validate_user_id u; Ok ("auth/users/" +:+ u)
  end.

Definition token_path_for_name (dir name : string) : result string :=
  _ ← validate_token_name name; Ok (dir +:+ "/" +:+ name +:+ ".token").

(** The file a token is stored in and loaded from. *)
Definition token_file (scope : TokenScope) (name : string) : result string :=
  _ ← validate_token_name name;
  dir ← token_dir scope;
  token_path_for_name dir name.

(** ** Resolution

    [load scope name]: what the token store answers while a workspace's
    credentials are resolved. *)
Record WorkspaceAuthToken := mkToken { name : string; env_var : string; token : string }.

#[export] Instance WorkspaceAuthToken_eq_dec : EqDecision WorkspaceAuthToken.
Proof. solve_decision. Defined.

Section resolution.
Context (load : TokenScope → string → result (option string)).

Definition env_token_slot (env_var : string) : result string :=
  match provider_for_env_var env_var with
  | Some provider => Ok provider
  | None => slot_for_env_token env_var
  end.

Definition resolve_providers (owner : option string) (auth_providers : list string) : list WorkspaceAuthToken :=
  omap (λ provider,
    env_var ← provider_env_var provider;
    match load (for_owner owner) provider with
    | Ok (Some token) => Some (mkToken provider env_var token)
    | Ok None | Err _ => None
    end) auth_providers.

Definition resolve_env_tokens (owner : option string) (env_tokens : list string) : list WorkspaceAuthToken :=
  omap (λ env_var,
    match env_token_slot env_var with
    | Err _ => None
    | Ok slot =>
        match load (for_owner owner) slot with
        | Ok (Some token) => Some (mkToken slot env_var token)
        | Ok None | Err _ => None
        end
    end) env_tokens.

Definition merge_channels (providers env : list WorkspaceAuthToken) : list WorkspaceAuthToken :=
  foldl (λ credentials token,
    if existsb (λ existing, bool_decide (name existing = name token)) credentials
    then credentials else credentials ++ [token]) providers env.

Definition injectable (owner : option string) (auth_providers env_tokens : list string)
    : list WorkspaceAuthToken * list WorkspaceAuthToken :=
  (resolve_providers owner auth_providers, resolve_env_tokens owner env_tokens).

Definition credentials (owner : option string) (auth_providers env_tokens : list string)
    : list WorkspaceAuthToken :=
  merge_channels (resolve_providers owner auth_providers) (resolve_env_tokens owner env_tokens).

End resolution.

(** ** Scrubbing *)

Definition REDACTED : string := "[REDACTED]".

Fixpoint str_take (n : nat) (s : string) : string :=
  match n, s with S n', String c s' => String c (str_take n' s') | _, _ => EmptyString end.
Fixpoint str_drop (n : nat) (s : string) : string :=
  match n, s with 0, _ => s | S n', String _ s' => str_drop n' s' | _, EmptyString => EmptyString end.

(** [max_by_key] keeps the last of the longest. *)
Definition longest_match (secrets : list string) (s : string) : option string :=
  foldl (λ best secret,
    if starts_with secret s then
      match best with
      | Some b => if String.length b <=? String.length secret then Some secret else best
      | None => Some secret
      end
    else best) None secrets.

(** A byte that continues a character, and the length of a character from its
    first byte ([len_utf8]). *)
Definition is_continuation (c : ascii) : bool := (128 <=? code c) && (code c <? 192).
Definition char_len (c : ascii) : nat :=
  if code c <? 128 then 1 else if code c <? 224 then 2 else if code c <? 240 then 3 else 4.

(** The loop of [scrub_secrets] on the text from [index] on; [None] is the panic
    of slicing [text[index..]] off a character boundary.  Each turn consumes at
    least one byte. *)
Fixpoint scrub_loop (fuel : nat) (secrets : list string) (s : string) : option string :=
  match fuel, s with
  | _, EmptyString => Some EmptyString
  | 0, _ => None
  | S fuel', String c _ =>
      match longest_match secrets s with
      | Some secret => (λ out, REDACTED +:+ out) <$> scrub_loop fuel' secrets (str_drop (String.length secret) s)
      | None =>
          if is_continuation c then None
          else (λ out, str_take (char_len c) s +:+ out) <$> scrub_loop fuel' secrets (str_drop (char_len c) s)
      end
  end.

Definition scrub_secrets (text : string) (secrets : list string) : option string :=
  let secrets := filter (λ s, s ≠ "") secrets in
  match secrets with
  | [] => Some text
  | _ => scrub_loop (String.length text) secrets text
  end.

(** ** Slots *)

Definition env_first (c : ascii) : bool := is_ascii_uppercase c || (c =? "_")%char.
Definition env_char (c : ascii) : bool := is_ascii_uppercase c || is_ascii_digit c || (c =? "_")%char.
Definition slot_char (c : ascii) : ascii :=
  let l := ascii_lower c in if (l =? "_")%char then "-"%char else l.
Definition unslot_char (c : ascii) : ascii := ascii_upper (if (c =? "-")%char then "_"%char else c).

Lemma env_token_shape s :
  validate_env_token_name s = Ok tt →
  ∃ first chars, s = String first chars ∧ env_first first = true ∧ str_all env_char chars = true.
Proof.
  destruct s as [|first chars]; cbn [validate_env_token_name]; [done|].
  intros H. repeat case_match; simplify_eq. exists first, chars.
  rewrite !negb_false_iff in *. done.
Qed.

Lemma slot_shape first chars :
  validate_env_token_name (String first chars) = Ok tt →
  slot_for_env_token (String first chars) = Ok (String (ascii_lower first) (str_map slot_char chars)).
Proof.
  intros H. unfold slot_for_env_token. rewrite H. cbn [mbind result_bind].
  apply env_token_shape in H as (? & ? & [= <- <-] & Hf & _).
  unfold to_ascii_lowercase, replace_char. cbn [str_map].
  assert (str_map (λ c, if (c =? "_")%char then "-"%char else c) (str_map ascii_lower chars)
          = str_map slot_char chars) as Hm.
  { clear. induction chars as [|c s IH]; [done|]. cbn. by rewrite IH. }
  cbn [strip_prefix].
  destruct ("_" =? ascii_lower first)%char eqn:E.
  - apply Ascii.eqb_eq in E. rewrite <-E. cbn. by rewrite Hm.
  - cbn [str_map]. rewrite Hm, Ascii.eqb_sym, E. done.
Qed.

Lemma unslot_first c : env_first c = true → ascii_upper (ascii_lower c) = c.
Proof. revert c. by_byte. Qed.
Lemma unslot_slot c : env_char c = true → unslot_char (slot_char c) = c.
Proof. revert c. by_byte. Qed.

Lemma str_map_cancel (f g : ascii → ascii) P s :
  (∀ c, P c = true → g (f c) = c) → str_all P s = true → str_map g (str_map f s) = s.
Proof.
  intros Hgf. induction s as [|c s IH]; cbn; [done|]. intros [Hc Hs]%andb_true_iff.
  by rewrite Hgf, IH.
Qed.

Lemma slot_injective a b s :
  slot_for_env_token a = Ok s → slot_for_env_token b = Ok s → a = b.
Proof.
  intros Ha Hb.
  assert (∀ x, slot_for_env_token x = Ok s → ∃ f r, s = String (ascii_lower f) (str_map slot_char r) ∧
    x = String f r ∧ env_first f = true ∧ str_all env_char r = true) as Hx.
  { intros x Hx. pose proof Hx as Hv. unfold slot_for_env_token in Hv. apply bind_Ok in Hv as ([] & Hv & _).
    pose proof Hv as (f & r & -> & Hf & Hr)%env_token_shape.
    rewrite slot_shape in Hx by done. exists f, r. by simplify_eq. }
  destruct (Hx a Ha) as (f & r & -> & -> & Hf & Hr).
  destruct (Hx b Hb) as (f' & r' & Heq & -> & Hf' & Hr'). injection Heq as Hl Hm. f_equal.
  - by rewrite <-(unslot_first f), <-(unslot_first f'), Hl.
  - by rewrite <-(str_map_cancel slot_char unslot_char env_char r unslot_slot Hr),
      <-(str_map_cancel slot_char unslot_char env_char r' unslot_slot Hr'), Hm.
Qed.

Lemma slot_first_ok c : env_first c = true →
  is_ascii_lowercase (ascii_lower c) || is_ascii_digit (ascii_lower c) || (ascii_lower c =? "_")%char = true.
Proof. revert c. by_byte. Qed.
Lemma slot_char_ok c : env_char c = true →
  is_ascii_lowercase (slot_char c) || is_ascii_digit (slot_char c) || (slot_char c =? "-")%char = true.
Proof. revert c. by_byte. Qed.

(** The slot of an environment token.  Every valid environment token name
    derives a slot, the slot is a name the token store accepts, and two
    different names never derive the same slot, the leading underscore
    included. *)
Theorem slot_total_and_injective a :
  validate_env_token_name a = Ok tt →
  ∃ s, slot_for_env_token a = Ok s ∧ validate_token_name s = Ok tt ∧
    ∀ b, slot_for_env_token b = Ok s → b = a.
Proof.
  intros Ha. pose proof Ha as (f & r & -> & Hf & Hr)%env_token_shape.
  eexists. split; [by apply slot_shape|]. split.
  - cbn [validate_token_name]. rewrite slot_first_ok by done. cbn [negb].
    rewrite str_all_map, (str_all_impl env_char _ r); [done| |done]. intros c. apply slot_char_ok.
  - intros b Hb. eapply slot_injective; [done|]. by apply slot_shape.
Qed.

Lemma slot_total_and_injective_witness :
  ∃ s, slot_for_env_token "_MY_KEY2" = Ok s ∧ validate_token_name s = Ok tt ∧
    ∀ b, slot_for_env_token b = Ok s → b = "_MY_KEY2".
Proof. apply slot_total_and_injective. by vm_compute. Defined.

Lemma env_upper s : str_all env_char s = true → to_ascii_uppercase s = s.
Proof.
  unfold to_ascii_uppercase. induction s as [|c s IH]; cbn; [done|].
  intros [Hc Hs]%andb_true_iff. rewrite IH by done. f_equal. revert c Hc. by_byte.
Qed.

Lemma env_graphic s : str_all env_char s = true → str_all is_ascii_graphic s = true.
Proof. apply str_all_impl. by_byte. Qed.

Lemma env_token_chars s : validate_env_token_name s = Ok tt → str_all env_char s = true.
Proof.
  intros (f & r & -> & Hf & Hr)%env_token_shape. cbn. rewrite Hr, andb_true_r.
  unfold env_first, env_char in *. by destruct (is_ascii_uppercase f), (is_ascii_digit f).
Qed.

Lemma find_map_Some {A B} (f : A → option B) l b :
  find_map f l = Some b → ∃ a, a ∈ l ∧ f a = Some b.
Proof.
  induction l as [|a l IH]; cbn; [done|]. destruct (f a) eqn:E; intros H; simplify_eq.
  - exists a. split; [apply elem_of_cons; by left|done].
  - destruct (IH H) as (a' & ? & ?). exists a'. split; [apply elem_of_cons; by right|done].
Qed.

Lemma provider_for_valid a p :
  validate_env_token_name a = Ok tt → provider_for_env_var a = Some p → (p, a) ∈ PROVIDERS.
Proof.
  intros Ha%env_token_chars. unfold provider_for_env_var.
  rewrite trim_graphic, env_upper by (by try apply env_graphic).
  intros ([n e] & Hin & H)%find_map_Some. case_bool_decide; by simplify_eq.
Qed.

Lemma provider_slot p v : (p, v) ∈ PROVIDERS → slot_for_env_token (to_ascii_uppercase p) = Ok p.
Proof. unfold PROVIDERS. set_unfold. intros [[= -> ->]|[[= -> ->]|[[= -> ->]|[]]]]; by vm_compute. Qed.

Lemma provider_var_unique p v w : (p, v) ∈ PROVIDERS → (p, w) ∈ PROVIDERS → v = w.
Proof. unfold PROVIDERS. set_unfold. intuition congruence. Qed.

(** Which environment tokens read the same slot.  Two different valid names
    share a slot exactly in the three cases of the provider table: a provider's
    variable ([GITHUB_TOKEN]) and the provider's own name in upper case
    ([GITHUB]); every other pair of names reads distinct slots. *)
Theorem env_token_slot_collisions a b s :
  validate_env_token_name a = Ok tt → validate_env_token_name b = Ok tt →
  env_token_slot a = Ok s → env_token_slot b = Ok s →
  a = b ∨ ∃ v, (s, v) ∈ PROVIDERS ∧
    ((a = v ∧ b = to_ascii_uppercase s) ∨ (b = v ∧ a = to_ascii_uppercase s)).
Proof.
  intros Ha Hb. unfold env_token_slot.
  destruct (provider_for_env_var a) as [p|] eqn:Ea, (provider_for_env_var b) as [q|] eqn:Eb;
    intros Hsa Hsb; simplify_eq.
  - apply provider_for_valid in Ea, Eb; [|done..]. left. by eapply provider_var_unique.
  - apply provider_for_valid in Ea; [|done]. right. exists a. split; [done|]. left. split; [done|].
    eapply slot_injective; [done|]. by eapply provider_slot.
  - apply provider_for_valid in Eb; [|done]. right. exists b. split; [done|]. right. split; [done|].
    eapply slot_injective; [done|]. by eapply provider_slot.
  - left. by eapply slot_injective.
Qed.

Lemma env_token_slot_collisions_witness :
  "GITHUB_TOKEN" = "GITHUB" ∨ ∃ v, ("github", v) ∈ PROVIDERS ∧
    (("GITHUB_TOKEN" = v ∧ "GITHUB" = to_ascii_uppercase "github") ∨
     ("GITHUB" = v ∧ "GITHUB_TOKEN" = to_ascii_uppercase "github")).
Proof. apply env_token_slot_collisions; by vm_compute. Defined.

(** ** Token files *)

Lemma token_name_free s : validate_token_name s = Ok tt → free "/" s = true.
Proof.
  destruct s as [|f r]; cbn [validate_token_name]; [done|]. intros H. repeat case_match; simplify_eq.
  rewrite negb_false_iff in *. unfold free. cbn. apply andb_true_intro. split.
  - revert f H0. by_byte.
  - eapply str_all_impl; [|exact H1]. by_byte.
Qed.

Lemma user_id_free u : validate_user_id u = Ok tt → free "/" u = true.
Proof.
  unfold validate_user_id. intros H. repeat case_match; simplify_eq. rewrite negb_false_iff in *.
  unfold free. eapply str_all_impl; [|done]. by_byte.
Qed.

Lemma user_id_plain u : validate_user_id u = Ok tt → u ≠ "" ∧ u ≠ "." ∧ u ≠ "..".
Proof.
  unfold validate_user_id. repeat case_bool_decide; repeat case_match; intros; simplify_eq; tauto.
Qed.

Lemma app_free_slash a b : free "/" a = true → free "/" b = true → free "/" (a +:+ b) = true.
Proof. unfold free. intros Ha Hb. by rewrite str_all_app, Ha, Hb. Qed.

(** The components of a token's path. *)
Lemma token_file_components scope n f :
  token_file scope n = Ok f →
  split "/" f = match scope with SharedScope => ["auth"] | UserScope u => ["auth"; "users"; u] end
                ++ [n +:+ ".token"].
Proof.
  unfold token_file, token_path_for_name. intros H.
  apply bind_Ok in H as ([] & Hname & H). apply bind_Ok in H as (dir & Hd & H).
  apply bind_Ok in H as ([] & _ & H). injection H as <-.
  assert (free "/" (n +:+ ".token") = true) as Hn by (apply app_free_slash; [by apply token_name_free|done]).
  destruct scope as [|u]; cbn [token_dir] in Hd.
  - injection Hd as <-. change ("/" +:+ (n +:+ ".token")) with (String "/" (n +:+ ".token")).
    rewrite split_app by done. by rewrite split_free.
  - apply bind_Ok in Hd as ([] & Hu & Hd). injection Hd as <-.
    change (split "/" ("auth" +:+ String "/" ("users" +:+ String "/" (u +:+ String "/" (n +:+ ".token"))))
            = ["auth"; "users"; u; n +:+ ".token"]).
    rewrite (split_app "/" "auth"), (split_app "/" "users") by done.
    rewrite (split_app "/" u) by (by apply user_id_free). by rewrite split_free.
Qed.

Lemma str_app_inj_r (a b s : string) : a +:+ s = b +:+ s → a = b.
Proof.
  revert b. induction a as [|c a IH]; intros [|d b] H; [done| | |].
  - apply (f_equal String.length) in H. cbn in H. rewrite str_length_app in H. lia.
  - apply (f_equal String.length) in H. cbn in H. rewrite str_length_app in H. lia.
  - injection H as -> H. f_equal. by apply IH.
Qed.

(** Token files do not alias.  Two tokens are stored in the same file only if
    they are the same name in the same namespace, so no user's token is readable
    or writable through another user's namespace or the shared one; and the path
    has no component that could leave the directory it names. *)
Theorem token_file_injective scope scope' n n' f :
  token_file scope n = Ok f → token_file scope' n' = Ok f →
  scope = scope' ∧ n = n' ∧ Forall (λ c, c ≠ "" ∧ c ≠ "." ∧ c ≠ "..") (split "/" f).
Proof.
  intros Hf Hf'. pose proof (token_file_components _ _ _ Hf) as H1.
  pose proof (token_file_components _ _ _ Hf') as H2. rewrite H1 in H2.
  assert (n +:+ ".token" = n' +:+ ".token" ∧ scope = scope') as [En ->].
  { destruct scope, scope'; simplify_eq/=; done. }
  apply str_app_inj_r in En as ->. split_and!; [done..|]. rewrite H1.
  unfold token_file in Hf. apply bind_Ok in Hf as ([] & Hn & Hf).
  apply bind_Ok in Hf as (dir & Hd & _). apply Forall_app. split.
  - destruct scope' as [|u]; [by repeat constructor|]. cbn in Hd.
    apply bind_Ok in Hd as ([] & Hu & _). apply user_id_plain in Hu. repeat (apply list.Forall_cons; split); by try apply Forall_nil_2.
  - constructor; [|done]. destruct n' as [|c r]; [done|]. split_and!; [done| |].
    + by destruct r.
    + destruct r as [|d r]; [done|]. by destruct r.
Qed.

Lemma token_file_injective_witness :
  UserScope "ana" = UserScope "ana" ∧ "github" = "github" ∧
  Forall (λ c, c ≠ "" ∧ c ≠ "." ∧ c ≠ "..") (split "/" "auth/users/ana/github.token").
Proof. by apply token_file_injective. Defined.

(** ** What a workspace resolves to *)

Section resolved.
Context (load : TokenScope → string → result (option string)).

(** The token is what the store holds under its name. *)
Definition stored (owner : option string) (t : WorkspaceAuthToken) : Prop :=
  load (for_owner owner) (name t) = Ok (Some (token t)).

Lemma resolve_providers_stored owner ps t : t ∈ resolve_providers load owner ps → stored owner t.
Proof.
  unfold resolve_providers. intros (p & _ & H)%list_elem_of_omap.
  apply bind_Some in H as (v & _ & H). repeat case_match; simplify_eq. done.
Qed.

Lemma resolve_env_tokens_stored owner es t : t ∈ resolve_env_tokens load owner es → stored owner t.
Proof.
  unfold resolve_env_tokens. intros (e & _ & H)%list_elem_of_omap.
  repeat case_match; simplify_eq. done.
Qed.

Lemma merge_channels_spec ps es :
  (∀ t, t ∈ merge_channels ps es → t ∈ ps ++ es) ∧
  (∀ t, t ∈ ps ++ es → ∃ c, c ∈ merge_channels ps es ∧ name c = name t).
Proof.
  unfold merge_channels. revert ps. induction es as [|e es IH]; intros ps; cbn [foldl].
  { rewrite app_nil_r. eauto. }
  destruct (existsb _ ps) eqn:Ex.
  - destruct (IH ps) as [I1 I2]. split.
    + intros t Ht. apply I1 in Ht. set_solver.
    + intros t [Ht|[->|Ht]%elem_of_cons]%elem_of_app.
      * apply I2. set_solver.
      * apply existsb_exists in Ex as (c & Hc & En). apply bool_decide_eq_true in En.
        apply list_elem_of_In in Hc. destruct (I2 c) as (c' & ? & ?); [set_solver|].
        exists c'. split; [done|congruence].
      * apply I2. set_solver.
  - destruct (IH (ps ++ [e])) as [I1 I2]. split.
    + intros t Ht. apply I1 in Ht. set_solver.
    + intros t Ht. apply I2. set_solver.
Qed.

(** Deduplicating the two channels loses no secret.  The values a workspace is
    handed through its providers and its environment tokens, together, are
    exactly the values of its resolved credentials: every injected value is in
    the list that command output is scrubbed of, although a credential declared
    twice is listed once. *)
Theorem credentials_cover_injected owner ps es :
  let '(providers, env) := injectable load owner ps es in
  ∀ secret, secret ∈ (token <$> providers ++ env) ↔ secret ∈ (token <$> credentials load owner ps es).
Proof.
  cbn [injectable]. intros secret. unfold credentials.
  destruct (merge_channels_spec (resolve_providers load owner ps) (resolve_env_tokens load owner es))
    as [Hsub Hcov].
  assert (∀ t, t ∈ resolve_providers load owner ps ++ resolve_env_tokens load owner es → stored owner t) as Hst.
  { intros t [Ht|Ht]%elem_of_app; [by eapply resolve_providers_stored|by eapply resolve_env_tokens_stored]. }
  rewrite !list_elem_of_fmap. split.
  - intros (t & -> & Ht). destruct (Hcov t Ht) as (c & Hc & En). exists c. split; [|done].
    pose proof (Hst t Ht) as H1. pose proof (Hst c (Hsub c Hc)) as H2. unfold stored in *. congruence.
  - intros (c & -> & Hc). exists c. split; [done|]. by apply Hsub.
Qed.

End resolved.

(** ** Scrubbing *)

(** The encoding of one character: a first byte and the continuation bytes it
    announces.  (UTF-8 is stricter; what follows needs no more.) *)
Definition is_char (ch : string) : Prop :=
  ∃ c r, ch = String c r ∧ is_continuation c = false ∧ str_all is_continuation r = true ∧
    S (String.length r) = char_len c.

Inductive utf8 : string → Prop :=
  | utf8_nil : utf8 ""
  | utf8_cons ch s : is_char ch → utf8 s → utf8 (ch +:+ s).

Lemma str_take_app a b : str_take (String.length a) (a +:+ b) = a.
Proof. induction a as [|c a IH]; cbn; [by destruct b|]. by rewrite IH. Qed.
Lemma str_drop_app a b : str_drop (String.length a) (a +:+ b) = b.
Proof. induction a as [|c a IH]; cbn; [done|]. by rewrite IH. Qed.

Lemma str_app_eq a b a' b' :
  a +:+ b = a' +:+ b' → String.length a = String.length a' → a = a' ∧ b = b'.
Proof.
  revert a'. induction a as [|c a IH]; intros [|c' a'] H Hl; try done.
  injection H as -> H. injection Hl as Hl. destruct (IH _ H Hl) as [-> ->]. done.
Qed.

(** Of two ways to cut a string, the longer first part extends the shorter. *)
Lemma str_app_cut a b a' b' :
  a +:+ b = a' +:+ b' → String.length a' ≤ String.length a → ∃ d, a = a' +:+ d ∧ b' = d +:+ b.
Proof.
  revert a. induction a' as [|c' a' IH]; intros a H Hl; [by exists a|].
  destruct a as [|c a]; cbn in Hl; [lia|]. injection H as -> H.
  destruct (IH a H) as (d & -> & ->); [lia|]. by exists d.
Qed.

Lemma is_char_cons c r : is_char (String c r) →
  is_continuation c = false ∧ str_all is_continuation r = true ∧ S (String.length r) = char_len c.
Proof. intros (c' & r' & [= <- <-] & ?). done. Qed.

Lemma utf8_head c s : utf8 (String c s) → is_continuation c = false ∧
  ∃ r s', s = r +:+ s' ∧ is_char (String c r) ∧ utf8 s'.
Proof.
  inversion 1 as [|ch s0 Hch Hs Heq]. destruct Hch as (c' & r & -> & Hc & Hr & Hl).
  cbn in Heq. simplify_eq. split; [done|]. exists r, s0. split_and!; [done| |done].
  exists c, r. done.
Qed.

(** Cutting a whole-character prefix off leaves whole characters. *)
Lemma utf8_strip p s : utf8 p → utf8 (p +:+ s) → utf8 s.
Proof.
  induction 1 as [|ch p Hch Hp IH]; [done|]. rewrite str_app_assoc.
  destruct Hch as (c & r & -> & Hc & Hr & Hl). cbn [String.append].
  intros (_ & r' & s' & Heq & Hch' & Hs')%utf8_head. apply IH.
  apply is_char_cons in Hch' as (_ & _ & Hl').
  apply str_app_eq in Heq as [-> <-]; [done|lia].
Qed.

Lemma starts_with_app p s : starts_with p s = true ↔ ∃ r, s = p +:+ r.
Proof. apply starts_with_spec. Qed.

Lemma longest_match_spec secrets s :
  match longest_match secrets s with
  | Some sec => sec ∈ secrets ∧ starts_with sec s = true ∧
      ∀ sec', sec' ∈ secrets → starts_with sec' s = true → String.length sec' ≤ String.length sec
  | None => ∀ sec, sec ∈ secrets → starts_with sec s = false
  end.
Proof.
  unfold longest_match. induction secrets as [|x l IH] using rev_ind.
  { cbn. intros sec H. by apply not_elem_of_nil in H. }
  rewrite foldl_app. cbn [foldl]. destruct (foldl _ None l) as [b|].
  - destruct IH as (H1 & H2 & H3). destruct (starts_with x s) eqn:Ex.
    + destruct (Nat.leb_spec (String.length b) (String.length x)).
      * split_and!; [set_solver|done|]. intros sec' [Hs|Hs]%elem_of_app Hsw.
        -- specialize (H3 _ Hs Hsw). lia.
        -- apply list_elem_of_singleton in Hs as ->. lia.
      * split_and!; [set_solver|done|]. intros sec' [Hs|Hs]%elem_of_app Hsw; [by apply H3|].
        apply list_elem_of_singleton in Hs as ->. lia.
    + split_and!; [set_solver|done|]. intros sec' [Hs|Hs]%elem_of_app Hsw; [by apply H3|].
      apply list_elem_of_singleton in Hs as ->. congruence.
  - destruct (starts_with x s) eqn:Ex.
    + split_and!; [set_solver|done|]. intros sec' [Hs|Hs]%elem_of_app Hsw.
      * rewrite IH in Hsw by done. done.
      * by apply list_elem_of_singleton in Hs as ->.
    + intros sec [Hs|Hs]%elem_of_app; [by apply IH|]. by apply list_elem_of_singleton in Hs as ->.
Qed.

(** What the loop did: characters copied and secrets removed, in order. *)
Inductive seg := Copy (ch : string) | Redact (secret : string).

Definition seg_text (x : seg) : string := match x with Copy ch => ch | Redact s => s end.
Definition seg_out (x : seg) : string := match x with Copy ch => ch | Redact _ => REDACTED end.
Fixpoint concat (l : list string) : string :=
  match l with [] => "" | s :: l' => s +:+ concat l' end.

(** A faithful trace: the text cut into segments, where a secret is removed only
    when it is the longest that matches, and a character is kept only where
    none does. *)
Inductive traced (secrets : list string) : string → list seg → Prop :=
  | traced_nil : traced secrets "" []
  | traced_redact sec s segs :
      sec ∈ secrets →
      (∀ sec', sec' ∈ secrets → starts_with sec' (sec +:+ s) = true → String.length sec' ≤ String.length sec) →
      traced secrets s segs → traced secrets (sec +:+ s) (Redact sec :: segs)
  | traced_copy ch s segs :
      is_char ch → (∀ sec, sec ∈ secrets → starts_with sec (ch +:+ s) = false) →
      traced secrets s segs → traced secrets (ch +:+ s) (Copy ch :: segs).

Lemma traced_text secrets s segs : traced secrets s segs → concat (seg_text <$> segs) = s.
Proof. induction 1; cbn; by try f_equal. Qed.

Lemma scrub_loop_traced secrets fuel s :
  Forall (λ sec, utf8 sec ∧ sec ≠ "") secrets → utf8 s → String.length s ≤ fuel →
  ∃ segs, traced secrets s segs ∧ scrub_loop fuel secrets s = Some (concat (seg_out <$> segs)).
Proof.
  intros Hsec. revert s. induction fuel as [|fuel IH]; intros s Hs Hl.
  { destruct s; [|cbn in Hl; lia]. exists []. split; [constructor|done]. }
  destruct s as [|c s]; [exists []; split; [constructor|done]|].
  cbn [scrub_loop]. pose proof (longest_match_spec secrets (String c s)) as Hm.
  destruct (longest_match secrets (String c s)) as [sec|].
  - destruct Hm as (Hin & (r & Hr)%starts_with_app & Hmax). rewrite Hr, str_drop_app.
    rewrite list.Forall_forall in Hsec. destruct (Hsec sec Hin) as [Hu Hne].
    destruct (IH r) as (segs & Ht & ->).
    + apply (utf8_strip sec); [done|]. by rewrite <-Hr.
    + apply (f_equal String.length) in Hr. rewrite str_length_app in Hr. destruct sec; [done|].
      cbn in *. lia.
    + exists (Redact sec :: segs). split; [|done]. constructor; [done| |done].
      rewrite <-Hr. done.
  - apply utf8_head in Hs as (Hc & r & s' & -> & Hch & Hs'). rewrite Hc.
    pose proof (is_char_cons _ _ Hch) as (_ & _ & Hcl).
    replace (String c (r +:+ s')) with (String c r +:+ s') in * by done.
    replace (char_len c) with (String.length (String c r)) by done.
    rewrite str_take_app, str_drop_app.
    destruct (IH s') as (segs & Ht & ->); [done| |].
    + rewrite str_length_app in Hl. cbn in Hl. lia.
    + exists (Copy (String c r) :: segs). split; [|done]. by constructor.
Qed.

Lemma traced_app secrets s l1 l2 :
  traced secrets s (l1 ++ l2) → ∃ s', traced secrets s' l2.
Proof.
  revert s. induction l1 as [|x l1 IH]; intros s H; [by exists s|].
  inversion H; subst; by eapply IH.
Qed.

Lemma concat_app l1 l2 : concat (l1 ++ l2) = concat l1 +:+ concat l2.
Proof. induction l1 as [|s l IH]; cbn; [done|]. by rewrite IH, str_app_assoc. Qed.

(** A run of copied characters holds no secret, also not across characters. *)
Lemma copied_run_clean secrets s run l2 sec a b :
  traced secrets s ((Copy <$> run) ++ l2) → sec ∈ secrets → utf8 sec → sec ≠ "" →
  concat run ≠ a +:+ (sec +:+ b).
Proof.
  intros Ht Hin Hu Hne. revert s a Ht. induction run as [|ch run IH]; intros s a Ht Heq.
  { destruct a; cbn in Heq; [|done]. by destruct sec. }
  cbn [fmap list_fmap app] in Ht. inversion Ht as [| |ch' s' segs Hch Hno Ht' E1 E2]; subst.
  cbn [concat] in Heq. destruct a as [|a0 a].
  - cbn in Heq. apply traced_text in Ht'.
    assert (starts_with sec (ch +:+ s') = true) as Hsw; [|rewrite Hno in Hsw; done].
    apply starts_with_app. exists (b +:+ concat (seg_text <$> l2)).
    rewrite <-Ht'. rewrite fmap_app, concat_app.
    assert (concat (seg_text <$> (Copy <$> run)) = concat run) as ->.
    { clear. induction run as [|x run IH]; [done|]. cbn. by rewrite <-IH. }
    rewrite <-!str_app_assoc. f_equal. exact Heq.
  - destruct (Nat.le_gt_cases (String.length ch) (String.length (String a0 a))) as [Hle|Hgt].
    + symmetry in Heq. apply str_app_cut in Heq as (d & Ha & Hd); [|done].
      by eapply IH.
    + apply str_app_cut in Heq as (d & Hd & Hs); [|lia].
      destruct Hch as (c & r & -> & Hc & Hr & Hcl). cbn in Hd. injection Hd as -> ->.
      rewrite str_all_app in Hr. apply andb_true_iff in Hr as [_ Hr].
      destruct sec as [|x sec]; [done|]. apply utf8_head in Hu as [Hx _].
      destruct d as [|d0 d]; cbn in Hs, Hr.
      * cbn [String.length] in Hgt. rewrite str_app_nil_r in Hgt. lia.
      * injection Hs as -> Hs. rewrite Hx in Hr. done.
Qed.

Lemma char_decomposition text : utf8 text → ∃ run, Forall is_char run ∧ concat run = text.
Proof.
  induction 1 as [|ch s Hch _ (run & Hrun & <-)]; [by exists []|].
  exists (ch :: run). split; [|done]. by apply list.Forall_cons.
Qed.

(** C38: scrubbing command output.  For text and secrets that are UTF-8 the loop
    never slices inside a character and terminates with a result, and the
    result is the text with whole secrets replaced: the text is a sequence of
    kept characters and removed secrets, the output is that sequence with each
    secret written as [REDACTED], each removed secret is the longest that
    matches where it stands, and no run of kept characters contains any
    non-empty secret, at any position. *)
Theorem scrub_removes_every_secret text secrets :
  utf8 text → Forall utf8 secrets →
  ∃ segs, scrub_secrets text secrets = Some (concat (seg_out <$> segs)) ∧
    concat (seg_text <$> segs) = text ∧
    (∀ l1 sec l2, segs = l1 ++ Redact sec :: l2 → sec ∈ secrets ∧ sec ≠ "" ∧
       ∀ sec', sec' ∈ secrets → starts_with sec' (concat (seg_text <$> Redact sec :: l2)) = true →
         String.length sec' ≤ String.length sec) ∧
    (∀ l1 run l2, segs = l1 ++ (Copy <$> run) ++ l2 →
       ∀ sec a b, sec ∈ secrets → sec ≠ "" → concat run ≠ a +:+ (sec +:+ b)).
Proof.
  intros Htext Hsec. unfold scrub_secrets. rewrite list.Forall_forall in Hsec.
  assert (∀ sec, sec ∈ filter (λ s, s ≠ "") secrets ↔ sec ∈ secrets ∧ sec ≠ "") as Hf.
  { intros sec. rewrite list_elem_of_filter. tauto. }
  assert (Forall (λ sec, utf8 sec ∧ sec ≠ "") (filter (λ s, s ≠ "") secrets)) as Hok.
  { apply list.Forall_forall. intros sec [? ?]%Hf. auto. }
  set (live := filter (λ s, s ≠ "") secrets) in *.
  assert (∃ segs, traced live text segs ∧
    match live with [] => Some text | _ => scrub_loop (String.length text) live text end
    = Some (concat (seg_out <$> segs))) as (segs & Ht & ->).
  { destruct live as [|x l].
    - destruct (char_decomposition text Htext) as (run & Hrun & <-). exists (Copy <$> run).
      clear -Hrun. induction Hrun as [|ch run Hch _ (IH1 & [= IH2])]; cbn; [split; [constructor|done]|].
      split; [constructor; [done| |done]; intros sec H; by apply not_elem_of_nil in H|].
      by rewrite <-IH2.
    - by apply scrub_loop_traced. }
  exists segs. split_and!; [done|by eapply traced_text| |].
  - intros l1 sec l2 ->. apply traced_app in Ht as [s' Ht].
    inversion Ht as [|sec0 s0 segs0 Hin Hmax Ht'|]; subst. apply Hf in Hin as [? ?]. split_and!; [done..|].
    intros sec' Hin' Hsw. destruct (decide (sec' = "")) as [->|]; [cbn; lia|].
    apply Hmax; [by apply Hf|]. apply traced_text in Ht'. by rewrite <-Ht'.
  - intros l1 run l2 -> sec a b Hin Hne. apply traced_app in Ht as [s' Ht].
    eapply copied_run_clean; [done|by apply Hf|by apply Hsec|done].
Qed.

Lemma ascii_utf8 s : str_all is_ascii_graphic s = true → utf8 s.
Proof.
  induction s as [|c s IH]; [constructor|]. cbn. intros [Hc Hs]%andb_true_iff.
  change (String c s) with (String c "" +:+ s). constructor; [|by apply IH].
  exists c, "". split_and!; try done; revert c Hc; by_byte.
Qed.

Lemma scrub_removes_every_secret_witness :
  ∃ segs, scrub_secrets "key=abcdef;abc" ["abc"; "abcdef"; ""] = Some (concat (seg_out <$> segs)) ∧
    concat (seg_out <$> segs) = "key=[REDACTED];[REDACTED]".
Proof.
  destruct (scrub_removes_every_secret "key=abcdef;abc" ["abc"; "abcdef"; ""]) as (segs & H & _).
  - by apply ascii_utf8.
  - repeat (apply list.Forall_cons; split; [by apply ascii_utf8|]). by apply Forall_nil_2.
  - exists segs. split; [exact H|].
    assert (scrub_secrets "key=abcdef;abc" ["abc"; "abcdef"; ""] = Some "key=[REDACTED];[REDACTED]") as E
      by by vm_compute.
    rewrite E in H. by injection H.
Defined.
