(* ===== verification/Text.v ===== *)
(** * Captured bytes as text

    What becomes of the bytes of a command: [String::from_utf8_lossy], which replaces
    every ill-formed piece by one character, and the escapes [serde_json] writes a
    string with.  The output limits of the program are sums of what these two can add. *)
From S2P Require Import Prelude RustStr Auth.
#[local] Open Scope nat_scope.

(** ** Well-formed characters *)

Definition between (lo hi : nat) (c : ascii) : bool := (lo <=? code c) && (code c <=? hi).
Definition is_ascii_byte (c : ascii) : bool := code c <? 128.

(** How many bytes the first one announces; none for a byte that cannot be first. *)
Definition utf8_width (c : ascii) : nat :=
  if is_ascii_byte c then 1 else if between 194 223 c then 2 else if between 224 239 c then 3
  else if between 240 244 c then 4 else 0.

(** The second byte of a longer character: no overlong form, no surrogate, nothing
    beyond the last code point. *)
Definition second_of_three (a b : ascii) : bool :=
  if code a =? 224 then between 160 191 b else if code a =? 237 then between 128 159 b else is_continuation b.
Definition second_of_four (a b : ascii) : bool :=
  if code a =? 240 then between 144 191 b else if code a =? 244 then between 128 143 b else is_continuation b.

Inductive strict_char : string → Prop :=
  | strict_one a : utf8_width a = 1 → strict_char (String a "")
  | strict_two a b : utf8_width a = 2 → is_continuation b = true → strict_char (String a (String b ""))
  | strict_three a b c : utf8_width a = 3 → second_of_three a b = true → is_continuation c = true →
      strict_char (String a (String b (String c "")))
  | strict_four a b c d : utf8_width a = 4 → second_of_four a b = true → is_continuation c = true →
      is_continuation d = true → strict_char (String a (String b (String c (String d "")))).

Inductive strict_utf8 : string → Prop :=
  | strict_nil : strict_utf8 ""
  | strict_cons ch s : strict_char ch → strict_utf8 s → strict_utf8 (ch +:+ s).

(** ** [String::from_utf8_lossy] *)

(** U+FFFD *)
Definition REPLACEMENT : string := bytes [239; 191; 189].

(** An ill-formed piece ends before the first byte that cannot continue it. *)
Fixpoint from_utf8_lossy (s : string) : string :=
  match s with
  | EmptyString => EmptyString
  | String a r =>
      match utf8_width a with
      | 1 => String a (from_utf8_lossy r)
      | 2 => match r with
             | String b r2 => if is_continuation b then String a (String b (from_utf8_lossy r2))
                              else REPLACEMENT +:+ from_utf8_lossy r
             | EmptyString => REPLACEMENT
             end
      | 3 => match r with
             | String b r2 =>
                 if second_of_three a b then
                   match r2 with
                   | String c r3 => if is_continuation c then String a (String b (String c (from_utf8_lossy r3)))
                                    else REPLACEMENT +:+ from_utf8_lossy r2
                   | EmptyString => REPLACEMENT
                   end
                 else REPLACEMENT +:+ from_utf8_lossy r
             | EmptyString => REPLACEMENT
             end
      | 4 => match r with
             | String b r2 =>
                 if second_of_four a b then
                   match r2 with
                   | String c r3 =>
                       if is_continuation c then
                         match r3 with
                         | String d r4 =>
                             if is_continuation d then String a (String b (String c (String d (from_utf8_lossy r4))))
                             else REPLACEMENT +:+ from_utf8_lossy r3
                         | EmptyString => REPLACEMENT
                         end
                       else REPLACEMENT +:+ from_utf8_lossy r2
                   | EmptyString => REPLACEMENT
                   end
                 else REPLACEMENT +:+ from_utf8_lossy r
             | EmptyString => REPLACEMENT
             end
      | _ => REPLACEMENT +:+ from_utf8_lossy r
      end
  end.

(** ** JSON escapes *)

Definition hex_char (n : nat) : ascii := byte_of (if n <? 10 then 48 + n else 87 + n).
Definition json_escape_byte (c : ascii) : string :=
  match code c with
  | 34 => bytes [92; 34]
  | 92 => bytes [92; 92]
  | 8 => bytes [92; 98]
  | 9 => bytes [92; 116]
  | 10 => bytes [92; 110]
  | 12 => bytes [92; 102]
  | 13 => bytes [92; 114]
  | n => if n <? 32 then bytes [92; 117; 48; 48] +:+ String (hex_char (n / 16)) (String (hex_char (n mod 16)) "")
         else String c ""
  end.
Fixpoint json_escape (s : string) : string :=
  match s with EmptyString => EmptyString | String c s' => json_escape_byte c +:+ json_escape s' end.

(** * Lemmas *)

Lemma json_escape_app s t : json_escape (s +:+ t) = json_escape s +:+ json_escape t.
Proof. induction s as [|c s IH]; cbn; [done|]. by rewrite IH, str_app_assoc. Qed.

(** One byte becomes at most six, and no line break survives. *)
Lemma escape_byte_length c : String.length (json_escape_byte c) ≤ 6.
Proof. destruct c as [[] [] [] [] [] [] [] []]; vm_compute; lia. Qed.
Lemma escape_byte_free c : free "010" (json_escape_byte c) = true.
Proof. by destruct c as [[] [] [] [] [] [] [] []]; vm_compute. Qed.

Lemma json_escape_free s : free "010" (json_escape s) = true.
Proof.
  induction s as [|c s IH]; [done|]. cbn [json_escape]. unfold free in *. rewrite str_all_app, IH, andb_true_r.
  apply escape_byte_free.
Qed.

(** The replacement is not escaped. *)
Lemma escape_replacement s : json_escape (REPLACEMENT +:+ s) = REPLACEMENT +:+ json_escape s.
Proof. done. Qed.

Lemma width_one a : utf8_width a = 1 → is_ascii_byte a = true.
Proof. unfold utf8_width. destruct (is_ascii_byte a); [done|]. by repeat case_match. Qed.

Lemma lossy_char ch s : strict_char ch → from_utf8_lossy (ch +:+ s) = ch +:+ from_utf8_lossy s.
Proof.
  destruct 1 as [a Ha|a b Ha Hb|a b c Ha Hb Hc|a b c d Ha Hb Hc Hd]; cbn [String.append from_utf8_lossy]; rewrite Ha.
  - done.
  - by rewrite Hb.
  - by rewrite Hb, Hc.
  - by rewrite Hb, Hc, Hd.
Qed.

(** Text that is well formed is not changed. *)
Lemma lossy_strict s : strict_utf8 s → from_utf8_lossy s = s.
Proof. induction 1 as [|ch s Hch _ IH]; [done|]. by rewrite lossy_char, IH. Qed.

Lemma strict_utf8_app s t : strict_utf8 s → strict_utf8 t → strict_utf8 (s +:+ t).
Proof. induction 1 as [|ch s Hch _ IH]; [done|]. intros Ht. rewrite str_app_assoc. constructor; auto. Qed.

Lemma ascii_strict s : str_all is_ascii_byte s = true → strict_utf8 s.
Proof.
  induction s as [|a s IH]; [constructor|]. cbn [str_all]. intros [Ha Hs]%andb_true_iff.
  change (String a s) with (String a "" +:+ s). constructor; [|auto]. constructor. unfold utf8_width. by rewrite Ha.
Qed.

Lemma escape_cons a t : String.length (json_escape (String a t)) ≤ 6 + String.length (json_escape t).
Proof. cbn [json_escape]. rewrite str_length_app. pose proof (escape_byte_length a). lia. Qed.

(** However ill-formed, captured bytes written as a JSON string take at most six bytes
    each. *)
Lemma escaped_lossy_length s : String.length (json_escape (from_utf8_lossy s)) ≤ 6 * String.length s.
Proof.
  remember (String.length s) as n eqn:En. assert (String.length s ≤ n) as Hn by lia. rewrite En. clear En.
  revert s Hn. induction n as [|n IH]; intros s Hn; [destruct s; cbn in *; lia|].
  destruct s as [|a r]; [cbn; lia|]. cbn [String.length] in Hn |- *.
  assert (∀ t, String.length t ≤ String.length r →
    String.length (json_escape (REPLACEMENT +:+ from_utf8_lossy t)) ≤ 6 * S (String.length r)) as Hrep.
  { intros t Ht. rewrite escape_replacement, str_length_app. specialize (IH t). cbn [String.length REPLACEMENT bytes]. cbn. lia. }
  pose proof (Hrep "") as Hrep0. specialize (Hrep0 ltac:(cbn; lia)).
  cbn [from_utf8_lossy]. destruct (utf8_width a) as [|[|[|[|[|?]]]]]; [by apply Hrep| | | | |by apply Hrep].
  - pose proof (escape_cons a (from_utf8_lossy r)). specialize (IH r). lia.
  - destruct r as [|b r2]; [done|]. case_match; [|by apply Hrep]. cbn [String.length] in *.
    pose proof (escape_cons a (String b (from_utf8_lossy r2))). pose proof (escape_cons b (from_utf8_lossy r2)).
    specialize (IH r2). lia.
  - destruct r as [|b r2]; [done|]. case_match; [|by apply Hrep]. destruct r2 as [|c r3]; [done|].
    case_match; [|apply Hrep; cbn; lia]. cbn [String.length] in *.
    pose proof (escape_cons a (String b (String c (from_utf8_lossy r3)))). pose proof (escape_cons b (String c (from_utf8_lossy r3))).
    pose proof (escape_cons c (from_utf8_lossy r3)). specialize (IH r3). lia.
  - destruct r as [|b r2]; [done|]. case_match; [|by apply Hrep]. destruct r2 as [|c r3]; [done|].
    case_match; [|apply Hrep; cbn; lia]. destruct r3 as [|d r4]; [done|]. case_match; [|apply Hrep; cbn; lia].
    cbn [String.length] in *. pose proof (escape_cons a (String b (String c (String d (from_utf8_lossy r4))))).
    pose proof (escape_cons b (String c (String d (from_utf8_lossy r4)))). pose proof (escape_cons c (String d (from_utf8_lossy r4))).
    pose proof (escape_cons d (from_utf8_lossy r4)). specialize (IH r4). lia.
Qed.

(** ** Well-formedness *)

(** [String::from_utf8] succeeds exactly when nothing would be replaced. *)
Definition is_utf8 (s : string) : bool := String.eqb (from_utf8_lossy s) s.
Lemma strict_is_utf8 s : strict_utf8 s → is_utf8 s = true.
Proof. intros H. unfold is_utf8. rewrite lossy_strict by done. apply String.eqb_refl. Qed.

Lemma replacement_strict : strict_char REPLACEMENT.
Proof. by apply strict_three. Qed.

(** Lossy text is well formed. *)
Lemma lossy_is_strict s : strict_utf8 (from_utf8_lossy s).
Proof.
  remember (String.length s) as n eqn:En. assert (String.length s ≤ n) as Hn by lia. clear En.
  revert s Hn. induction n as [|n IH]; intros s Hn; [destruct s; [constructor|cbn in Hn; lia]|].
  destruct s as [|a r]; [constructor|]. cbn [String.length] in Hn.
  assert (∀ t, String.length t ≤ String.length r → strict_utf8 (REPLACEMENT +:+ from_utf8_lossy t)) as Hrep
    by (intros t Ht; constructor; [apply replacement_strict|apply IH; lia]).
  pose proof (Hrep "" ltac:(cbn; lia)) as Hrep0.
  assert (∀ ch t, strict_char ch → String.length t ≤ String.length r → strict_utf8 (ch +:+ from_utf8_lossy t)) as Hch
    by (intros ch t Hc Ht; constructor; [done|apply IH; lia]).
  cbn [from_utf8_lossy]. destruct (utf8_width a) as [|[|[|[|[|?]]]]] eqn:Ew; [by apply Hrep| | | | |by apply Hrep].
  - apply (Hch (String a "") r); [by constructor|lia].
  - destruct r as [|b r2]; [done|]. case_match eqn:Eb; [|by apply Hrep].
    apply (Hch (String a (String b "")) r2); [by constructor|cbn; lia].
  - destruct r as [|b r2]; [done|]. case_match eqn:Eb; [|by apply Hrep]. destruct r2 as [|c r3]; [done|].
    case_match eqn:Ec; [|apply Hrep; cbn; lia]. apply (Hch (String a (String b (String c ""))) r3); [by constructor|cbn; lia].
  - destruct r as [|b r2]; [done|]. case_match eqn:Eb; [|by apply Hrep]. destruct r2 as [|c r3]; [done|].
    case_match eqn:Ec; [|apply Hrep; cbn; lia]. destruct r3 as [|d r4]; [done|]. case_match eqn:Ed; [|apply Hrep; cbn; lia].
    apply (Hch (String a (String b (String c (String d "")))) r4); [by constructor|cbn; lia].
Qed.

Lemma escape_byte_ascii c : is_ascii_byte c = true → str_all is_ascii_byte (json_escape_byte c) = true.
Proof. by destruct c as [[] [] [] [] [] [] [] []]; vm_compute. Qed.
Lemma escape_high_byte c : is_ascii_byte c = false → json_escape_byte c = String c "".
Proof. by destruct c as [[] [] [] [] [] [] [] []]; vm_compute. Qed.
Lemma continuation_high c : is_continuation c = true → is_ascii_byte c = false.
Proof. by destruct c as [[] [] [] [] [] [] [] []]; vm_compute. Qed.
Lemma width_high a : 1 < utf8_width a → is_ascii_byte a = false.
Proof. unfold utf8_width. destruct (is_ascii_byte a); [lia|done]. Qed.
Lemma second_high (a b : ascii) : second_of_three a b = true ∨ second_of_four a b = true → is_ascii_byte b = false.
Proof.
  unfold second_of_three, second_of_four, is_continuation, between, is_ascii_byte. intros H. apply Nat.ltb_ge.
  destruct H as [H|H]; repeat (case_match; [apply andb_true_iff in H as [H%Nat.leb_le _]; lia|]);
    apply andb_true_iff in H as [H%Nat.leb_le _]; lia.
Qed.

Lemma escape_strict_char ch : strict_char ch → strict_utf8 (json_escape ch).
Proof.
  intros Hch. destruct Hch as [a Ha|a b Ha Hb|a b c Ha Hb Hc|a b c d Ha Hb Hc Hd] eqn:E; cbn [json_escape].
  - rewrite str_app_nil_r. by apply ascii_strict, escape_byte_ascii, width_one.
  - rewrite !escape_high_byte by eauto using continuation_high, width_high with lia.
    clear E. cbn. rewrite <- (str_app_nil_r (String a _)). constructor; [by constructor|constructor].
  - rewrite !escape_high_byte by eauto using continuation_high, second_high, width_high with lia.
    clear E. cbn. rewrite <- (str_app_nil_r (String a _)). constructor; [by constructor|constructor].
  - rewrite !escape_high_byte by eauto using continuation_high, second_high, width_high with lia.
    clear E. cbn. rewrite <- (str_app_nil_r (String a _)). constructor; [by constructor|constructor].
Qed.
Lemma escape_strict s : strict_utf8 s → strict_utf8 (json_escape s).
Proof.
  induction 1 as [|ch s Hch _ IH]; [constructor|]. rewrite json_escape_app. by apply strict_utf8_app; [apply escape_strict_char|].
Qed.
