(* ===== verification/Limiters.v ===== *)
(** * Limits on connections and requests

    The connection budgets of the port publisher
    (src/src/network/publish/limiter.rs) and the request rate limiter
    (src/src/daemon/rate_limiter.rs). *)
From S2P Require Import Prelude.

(** ** Connection budgets

    Each limiter is a counter behind a mutex, so taking and dropping a slot are
    atomic steps; a connection takes the slot of its port, then the daemon-wide
    one, and any number of connections do so at once. *)

Record ConnectionLimiter := mkLimiter { active : nat; limit : nat }.

Definition new_limiter (l : nat) : ConnectionLimiter := mkLimiter 0 l.

Definition try_acquire (l : ConnectionLimiter) : option ConnectionLimiter :=
  if bool_decide (limit l ≤ active l) then None else Some (mkLimiter (S (active l)) (limit l)).

(** [Drop for Permit] *)
Definition release (l : ConnectionLimiter) : ConnectionLimiter := mkLimiter (pred (active l)) (limit l).

(** Where a connection is in [ConnectionBudget::try_acquire] and after it: the
    permits it owns. *)
Inductive permit_state :=
  | NoPermit
  | PublisherOnly (port : nat)       (* between the two [try_acquire] calls *)
  | Rejecting (port : nat)           (* [?] returned: the publisher permit is being dropped *)
  | Holding (port : nat)             (* a [ConnectionPermit] *)
  | ClosingGlobal.                   (* its first field is dropped, its second not yet *)

Record budgets := mkBudgets {
  publishers : gmap nat ConnectionLimiter;
  global_limiter : ConnectionLimiter;
  connections : gmap nat permit_state }.

Inductive budget_label := TakePublisher (port : nat) | TakeGlobal | DropRejected | DropPublisher | DropGlobal.

Definition set_connection (s : budgets) (c : nat) (p : permit_state) : gmap nat permit_state :=
  <[c := p]> (connections s).

Definition budget_step (c : nat) (l : budget_label) (s : budgets) : option budgets :=
  state ← connections s !! c;
  match l, state with
  | TakePublisher port, NoPermit =>
      lim ← publishers s !! port;
      match try_acquire lim with
      | Some lim' => Some (mkBudgets (<[port := lim']> (publishers s)) (global_limiter s)
                             (set_connection s c (PublisherOnly port)))
      | None => Some s
      end
  | TakeGlobal, PublisherOnly port =>
      match try_acquire (global_limiter s) with
      | Some g => Some (mkBudgets (publishers s) g (set_connection s c (Holding port)))
      | None => Some (mkBudgets (publishers s) (global_limiter s) (set_connection s c (Rejecting port)))
      end
  | DropRejected, Rejecting port =>
      lim ← publishers s !! port;
      Some (mkBudgets (<[port := release lim]> (publishers s)) (global_limiter s)
              (set_connection s c NoPermit))
  | DropPublisher, Holding port =>
      lim ← publishers s !! port;
      Some (mkBudgets (<[port := release lim]> (publishers s)) (global_limiter s)
              (set_connection s c ClosingGlobal))
  | DropGlobal, ClosingGlobal =>
      Some (mkBudgets (publishers s) (release (global_limiter s)) (set_connection s c NoPermit))
  | _, _ => None
  end.

Inductive budget_reachable : budgets → Prop :=
  | budget_init ports glob conns :
      (∀ port lim, ports !! port = Some lim → active lim = 0) → active glob = 0 →
      (∀ c p, conns !! c = Some p → p = NoPermit) →
      budget_reachable (mkBudgets ports glob conns)
  | budget_next s s' c l :
      budget_reachable s → budget_step c l s = Some s' → budget_reachable s'.

(** The slots a connection owns. *)
Definition owns_publisher (port : nat) (p : permit_state) : nat :=
  match p with
  | PublisherOnly q | Rejecting q | Holding q => if decide (q = port) then 1 else 0
  | NoPermit | ClosingGlobal => 0
  end.
Definition owns_global (p : permit_state) : nat :=
  match p with Holding _ | ClosingGlobal => 1 | _ => 0 end.

Definition budget_ok (s : budgets) : Prop :=
  (∀ port lim, publishers s !! port = Some lim →
     active lim = msum (owns_publisher port) (connections s) ∧ active lim ≤ limit lim) ∧
  active (global_limiter s) = msum owns_global (connections s) ∧
  active (global_limiter s) ≤ limit (global_limiter s).

Lemma try_acquire_Some l l' : try_acquire l = Some l' →
  active l' = S (active l) ∧ limit l' = limit l ∧ active l' ≤ limit l'.
Proof. unfold try_acquire. case_bool_decide; intros; simplify_eq. cbn. lia. Qed.

(** One connection changes its permits, and the counters move with it. *)
Lemma budget_ok_update s c p p' ports g :
  budget_ok s → connections s !! c = Some p →
  (∀ q lim', ports !! q = Some lim' → ∃ lim, publishers s !! q = Some lim ∧
     active lim' + owns_publisher q p = active lim + owns_publisher q p' ∧
     (active lim' ≤ limit lim' ∨ active lim' ≤ active lim ∧ limit lim' = limit lim)) →
  active g + owns_global p = active (global_limiter s) + owns_global p' → active g ≤ limit g →
  budget_ok (mkBudgets ports g (set_connection s c p')).
Proof.
  intros (Hp & Hg & Hgl) Hc Hports E3 E4. unfold set_connection. split_and!; cbn; [| |done].
  - intros q lim' Hq. destruct (Hports _ _ Hq) as (lim & Hl & E1 & E2). destruct (Hp _ _ Hl).
    pose proof (msum_update (owns_publisher q) _ _ _ p' Hc) as Hm. split; [lia|].
    destruct E2 as [|[? ?]]; lia.
  - pose proof (msum_update owns_global _ _ _ p' Hc). lia.
Qed.

Lemma budget_step_ok c l s s' : budget_ok s → budget_step c l s = Some s' → budget_ok s'.
Proof.
  intros Hok H. pose proof Hok as (Hp & Hg & Hgl). unfold budget_step in H.
  destruct (connections s !! c) as [p|] eqn:Hc; [|done]. cbn in H.
  assert (∀ f : permit_state → nat, f p ≤ msum f (connections s)) as Hle by (intros; by eapply msum_le).
  assert (∀ q lim, publishers s !! q = Some lim → owns_publisher q p ≤ active lim) as Hpos.
  { intros q lim Hq. destruct (Hp _ _ Hq) as [-> _]. apply Hle. }
  pose proof (Hle owns_global) as Hgpos. rewrite <-Hg in Hgpos.
  destruct l as [port| | | |], p as [|q|q|q|]; simplify_eq/=.
  - destruct (publishers s !! port) as [lim|] eqn:Hl; simplify_eq/=.
    destruct (try_acquire lim) as [lim'|] eqn:Ht; simplify_eq/=; [|done].
    apply try_acquire_Some in Ht as (H1 & H2 & H3).
    apply (budget_ok_update s c NoPermit); [done|done| |done|done].
    intros q lq [[<- <-]|[Hne Hq]]%lookup_insert_Some; cbn.
    + exists lim. rewrite decide_True by done. split; [done|]. lia.
    + exists lq. rewrite decide_False by done. split; [done|]. lia.
  - destruct (try_acquire (global_limiter s)) as [g|] eqn:Ht; simplify_eq/=.
    + apply try_acquire_Some in Ht as (H1 & H2 & H3).
      apply (budget_ok_update s c (PublisherOnly q)); [done|done| |cbn; lia|lia].
      intros q' lq Hq. exists lq. split; [done|]. cbn. lia.
    + apply (budget_ok_update s c (PublisherOnly q)); [done|done| |done|done].
      intros q' lq Hq. exists lq. split; [done|]. cbn. lia.
  - destruct (publishers s !! q) as [lim|] eqn:Hl; simplify_eq/=.
    apply (budget_ok_update s c (Rejecting q)); [done|done| |done|done].
    intros q' lq [[<- <-]|[Hne Hq]]%lookup_insert_Some; cbn.
    + exists lim. specialize (Hpos _ _ Hl). rewrite decide_True in * by done. split; [done|]. lia.
    + exists lq. rewrite decide_False by done. split; [done|]. lia.
  - destruct (publishers s !! q) as [lim|] eqn:Hl; simplify_eq/=.
    apply (budget_ok_update s c (Holding q)); [done|done| |done|done].
    intros q' lq [[<- <-]|[Hne Hq]]%lookup_insert_Some; cbn.
    + exists lim. specialize (Hpos _ _ Hl). rewrite decide_True in * by done. split; [done|]. lia.
    + exists lq. rewrite decide_False by done. split; [done|]. lia.
  - apply (budget_ok_update s c ClosingGlobal); [done|done| |cbn; lia|cbn; lia].
    intros q' lq Hq. exists lq. split; [done|]. cbn. lia.
Qed.

Lemma budget_reachable_ok s : budget_reachable s → budget_ok s.
Proof.
  induction 1 as [ports glob conns Hports Hglob Hconns|]; [|by eapply budget_step_ok].
  split_and!; cbn.
  - intros port lim Hl. specialize (Hports _ _ Hl). split; [|lia]. rewrite Hports. symmetry.
    apply msum_zero. by intros c p ->%Hconns.
  - rewrite Hglob. symmetry. apply msum_zero. by intros c p ->%Hconns.
  - lia.
Qed.

(** The proxied connections of a port. *)
Definition proxied (port : nat) (p : permit_state) : nat :=
  match p with Holding q => if decide (q = port) then 1 else 0 | _ => 0 end.
Definition proxied_any (p : permit_state) : nat := match p with Holding _ => 1 | _ => 0 end.

(** C32: the connection budgets hold and leak nothing.  In every interleaving of
    connections being accepted, rejected by the daemon-wide budget and closed,
    the proxied connections of a port never exceed the port's budget, all of
    them together never exceed the daemon's, and once every connection is gone
    every budget is entirely free again. *)
Theorem connection_budgets_hold s :
  budget_reachable s →
  (∀ port lim, publishers s !! port = Some lim → msum (proxied port) (connections s) ≤ limit lim) ∧
  msum proxied_any (connections s) ≤ limit (global_limiter s) ∧
  ((∀ c p, connections s !! c = Some p → p = NoPermit) →
     active (global_limiter s) = 0 ∧ ∀ port lim, publishers s !! port = Some lim → active lim = 0).
Proof.
  intros (Hp & Hg & Hgl)%budget_reachable_ok. split_and!.
  - intros port lim Hl. destruct (Hp _ _ Hl) as [Ha Hle]. etrans; [|exact Hle]. rewrite Ha.
    apply msum_mono. intros c p Hc. exists p. split; [done|]. destruct p; cbn; case_decide || idtac; lia.
  - etrans; [|exact Hgl]. rewrite Hg. apply msum_mono. intros c p Hc. exists p. split; [done|].
    destruct p; cbn; lia.
  - intros Hidle. split.
    + rewrite Hg. apply msum_zero. by intros c p ->%Hidle.
    + intros port lim Hl. destruct (Hp _ _ Hl) as [-> _]. apply msum_zero. by intros c p ->%Hidle.
Qed.

Lemma connection_budgets_hold_witness :
  msum (proxied 80) (connections (mkBudgets {[ 80 := mkLimiter 1 1 ]} (mkLimiter 1 1) {[ 1 := Holding 80 ]})) ≤ 1.
Proof.
  destruct (connection_budgets_hold
    (mkBudgets {[ 80 := mkLimiter 1 1 ]} (mkLimiter 1 1) {[ 1 := Holding 80 ]})) as (H & _ & _).
  - eapply (budget_next _ _ 1 TakeGlobal); [eapply (budget_next _ _ 1 (TakePublisher 80));
      [apply (budget_init {[ 80 := new_limiter 1 ]} (new_limiter 1) {[ 1 := NoPermit ]})|]|].
    + by intros port lim [<- <-]%lookup_singleton_Some.
    + done.
    + by intros c p [<- <-]%lookup_singleton_Some.
    + by vm_compute.
    + by vm_compute.
  - apply (H 80 (mkLimiter 1 1)). by vm_compute.
Defined.

(** ** Request rate

    Times are ticks of the monotonic clock; [duration_since] of a later instant
    is zero, which subtraction on [nat] computes. *)

Record RateLimitState := mkRate { window_started : nat; count : nat }.
Record RateLimiter := mkRateLimiter {
  window : nat; max_requests : nat; per_uid : gmap Z RateLimitState;
  global_rate : RateLimitState; global_max_requests : nat }.

Definition with_global_limit (now window max_requests global_max_requests : nat) : RateLimiter :=
  mkRateLimiter window max_requests ∅ (mkRate now 0) global_max_requests.

(** The window logic [allow_global] and [allow_per_uid] share. *)
Definition admit_in_window (window max now : nat) (st : RateLimitState) : bool * RateLimitState :=
  let st := if bool_decide (window ≤ now - window_started st) then mkRate now 0 else st in
  if bool_decide (max ≤ count st) then (false, st)
  else (true, mkRate (window_started st) (S (count st))).

Definition allow_global (now : nat) (r : RateLimiter) : bool * RateLimiter :=
  let '(ok, st) := admit_in_window (window r) (global_max_requests r) now (global_rate r) in
  (ok, mkRateLimiter (window r) (max_requests r) (per_uid r) st (global_max_requests r)).

Definition allow_per_uid (now : nat) (uid : Z) (r : RateLimiter) : bool * RateLimiter :=
  let entry := default (mkRate now 0) (per_uid r !! uid) in
  let '(ok, st) := admit_in_window (window r) (max_requests r) now entry in
  (ok, mkRateLimiter (window r) (max_requests r) (<[uid := st]> (per_uid r)) (global_rate r)
         (global_max_requests r)).

(** One request: the two clocks are read when the two locks are taken. *)
Record request_at := mkReq { global_now : nat; uid_now : nat; req_uid : Z }.

Definition allow (q : request_at) (r : RateLimiter) : bool * RateLimiter :=
  let '(ok, r) := allow_global (global_now q) r in
  if ok then allow_per_uid (uid_now q) (req_uid q) r else (false, r).

(** The verdicts on a sequence of requests. *)
Fixpoint verdicts (qs : list request_at) (r : RateLimiter) : list (request_at * bool) :=
  match qs with
  | [] => []
  | q :: qs' => let '(ok, r') := allow q r in (q, ok) :: verdicts qs' r'
  end.

Definition granted (P : request_at → bool) (l : list (request_at * bool)) : nat :=
  length (filter (λ p : request_at * bool, P p.1 && p.2 = true) l).

Lemma granted_cons P q ok l :
  granted P ((q, ok) :: l) = (if P q && ok then 1 else 0) + granted P l.
Proof. unfold granted. rewrite filter_cons. cbn. by destruct (P q && ok). Qed.

(** How many more requests a window can grant, for requests made before [until]:
    what is left of it, and one whole window if it can end before then. *)
Definition room (window max until : nat) (st : RateLimitState) : nat :=
  (max - count st) + (if bool_decide (until ≤ window_started st + window) then 0 else max).

Lemma admit_in_window_room window max now from st ok st' :
  from ≤ now < from + window →
  admit_in_window window max now st = (ok, st') →
  (if ok then 1 else 0) + room window max (from + window) st' ≤ room window max (from + window) st.
Proof.
  intros Hnow. unfold admit_in_window, room. intros H.
  repeat case_bool_decide; simplify_eq/=; lia.
Qed.

Lemma room_bound window max until st : room window max until st ≤ 2 * max.
Proof. unfold room. case_bool_decide; lia. Qed.

Lemma allow_fields q r :
  window (allow q r).2 = window r ∧ max_requests (allow q r).2 = max_requests r ∧
  global_max_requests (allow q r).2 = global_max_requests r.
Proof.
  unfold allow, allow_global, allow_per_uid. repeat case_match; simplify_eq/=; done.
Qed.

(** The room left to one user: a user without an entry has a whole window, opened
    by its first request. *)
Definition uid_room (uid : Z) (until : nat) (r : RateLimiter) : nat :=
  match per_uid r !! uid with
  | Some st => room (window r) (max_requests r) until st
  | None => 2 * max_requests r
  end.

Lemma allow_uid_room q r from uid :
  from ≤ uid_now q < from + window r →
  (if bool_decide (req_uid q = uid) && (allow q r).1 then 1 else 0) +
    uid_room uid (from + window r) (allow q r).2 ≤ uid_room uid (from + window r) r.
Proof.
  intros Hnow. unfold allow, allow_global.
  destruct (admit_in_window (window r) (global_max_requests r) (global_now q) (global_rate r)) as [[] g];
    [|rewrite andb_false_r; done].
  unfold allow_per_uid. cbn [per_uid window max_requests].
  destruct (admit_in_window (window r) (max_requests r) (uid_now q) _) as [ok st] eqn:E.
  apply (admit_in_window_room _ _ _ from) in E; [|done]. cbn [fst snd]. unfold uid_room.
  cbn [per_uid window max_requests]. case_bool_decide as Hu.
  - subst. rewrite lookup_insert_eq. cbn [andb].
    destruct (per_uid r !! req_uid q) as [st0|]; cbn [default from_option] in E; [unfold id in E; lia|].
    pose proof (room_bound (window r) (max_requests r) (from + window r) (mkRate (uid_now q) 0)). lia.
  - rewrite lookup_insert_ne by done. cbn [andb]. lia.
Qed.

Lemma allow_global_room q r from :
  from ≤ global_now q < from + window r →
  (if (allow q r).1 then 1 else 0) +
    room (window r) (global_max_requests r) (from + window r) (global_rate (allow q r).2) ≤
  room (window r) (global_max_requests r) (from + window r) (global_rate r).
Proof.
  intros Hnow. unfold allow, allow_global.
  destruct (admit_in_window (window r) (global_max_requests r) (global_now q) (global_rate r)) as [ok g] eqn:E.
  apply (admit_in_window_room _ _ _ from) in E; [|done]. destruct ok; [|done].
  unfold allow_per_uid. cbn [per_uid window max_requests]. destruct (admit_in_window _ _ _ _) as [[] st];
    cbn [fst snd global_rate]; lia.
Qed.

(** The rate the limiter enforces.  Over any span of one window, from any
    state the limiter can be in, at most twice the per-user limit of requests is
    granted to a user, and at most twice the daemon limit to all users together:
    a fixed window can be used up at its end and the next one at its start, and
    no more. *)
Theorem rate_limit_bound r qs from :
  Forall (λ q, from ≤ uid_now q < from + window r ∧ from ≤ global_now q < from + window r) qs →
  (∀ uid, granted (λ q, bool_decide (req_uid q = uid)) (verdicts qs r) ≤ 2 * max_requests r) ∧
  granted (λ _, true) (verdicts qs r) ≤ 2 * global_max_requests r.
Proof.
  intros Hqs.
  assert (∀ uid, granted (λ q, bool_decide (req_uid q = uid)) (verdicts qs r) ≤ uid_room uid (from + window r) r) as Hu.
  { intros uid. revert r Hqs. induction qs as [|q qs IH]; intros r Hqs; [cbn; lia|].
    apply list.Forall_cons in Hqs as [[Hq _] Hqs]. cbn [verdicts].
    pose proof (allow_uid_room q r from uid Hq) as Hr. pose proof (allow_fields q r) as (Hw & _).
    destruct (allow q r) as [ok r'] eqn:E. cbn [fst snd] in *. rewrite granted_cons.
    rewrite <-Hw in Hqs. specialize (IH r' Hqs). rewrite Hw in IH. lia. }
  assert (granted (λ _, true) (verdicts qs r) ≤
          room (window r) (global_max_requests r) (from + window r) (global_rate r)) as Hg.
  { clear Hu. revert r Hqs. induction qs as [|q qs IH]; intros r Hqs; [cbn; lia|].
    apply list.Forall_cons in Hqs as [[_ Hq] Hqs]. cbn [verdicts].
    pose proof (allow_global_room q r from Hq) as Hr. pose proof (allow_fields q r) as (Hw & _ & Hm).
    destruct (allow q r) as [ok r'] eqn:E. cbn [fst snd] in *. rewrite granted_cons.
    rewrite <-Hw in Hqs. specialize (IH r' Hqs). rewrite Hw, Hm in IH. cbn [andb]. lia. }
  split.
  - intros uid. etrans; [apply Hu|]. unfold uid_room. case_match; [apply room_bound|lia].
  - etrans; [exact Hg|]. apply room_bound.
Qed.

Lemma rate_limit_bound_witness :
  granted (λ q, bool_decide (req_uid q = 1000%Z))
    (verdicts [mkReq 9 9 1000; mkReq 9 9 1000; mkReq 10 10 1000; mkReq 11 11 1000]
       (with_global_limit 0 10 1 100)) ≤ 2.
Proof.
  destruct (rate_limit_bound (with_global_limit 0 10 1 100)
    [mkReq 9 9 1000; mkReq 9 9 1000; mkReq 10 10 1000; mkReq 11 11 1000] 5) as [H _].
  - repeat (apply list.Forall_cons; split; [cbn; lia|]). by apply Forall_nil_2.
  - apply H.
Defined.
