(* ===== verification/Histogram.v ===== *)
(** * Latency histograms (src/src/perf/histogram.rs)

    Eight bounded buckets of 64-bit counters, and the percentile estimate read
    off them. *)
From S2P Require Import Prelude.
Open Scope Z_scope.

Definition LATENCY_BUCKETS_US : list Z := [100; 500; 1000; 5000; 10000; 50000; 250000; u64_max].
Definition LOCK_WAIT_BUCKETS_US : list Z := LATENCY_BUCKETS_US.
Definition PHASE_BUCKETS_US : list Z := [1000; 5000; 10000; 25000; 50000; 100000; 250000; u64_max].

(** [Iterator::position] of the first bound the sample does not exceed. *)
Fixpoint position (elapsed_us : Z) (buckets : list Z) : option nat :=
  match buckets with
  | [] => None
  | limit :: rest => if elapsed_us <=? limit then Some 0%nat else S <$> position elapsed_us rest
  end.

Definition bucket_index (elapsed_us : Z) (buckets : list Z) : nat :=
  default (length buckets - 1)%nat (position elapsed_us buckets).

(** [fetch_add] wraps. *)
Definition record_histogram (histogram : list Z) (elapsed_us : Z) (buckets : list Z) : list Z :=
  alter (λ c, (c + 1) mod 2 ^ 64) (bucket_index elapsed_us buckets) histogram.

Definition bucket_upper_bound (index : nat) (buckets : list Z) : Z :=
  match buckets !! index with
  | Some limit => if bool_decide (limit = u64_max) then default 0 (buckets !! (length buckets - 2)%nat) else limit
  | None => default 0 (buckets !! (length buckets - 2)%nat)
  end.

Fixpoint cumulative_loop (index : nat) (cumulative target : Z) (counts buckets : list Z) : option Z :=
  match counts with
  | [] => None
  | count :: counts' =>
      let cumulative := cumulative + count in
      if target <=? cumulative then Some (bucket_upper_bound index buckets)
      else cumulative_loop (S index) cumulative target counts' buckets
  end.

Definition sum (counts : list Z) : Z := foldr Z.add 0 counts.

Definition percentile_of_buckets (counts : list Z) (percent : Z) (buckets : list Z) : option Z :=
  let total := sum counts in
  if bool_decide (total = 0) then None
  else
    let target := Z.max (div_ceil (sat_mul64 total percent) 100) 1 in
    cumulative_loop 0 0 target counts buckets.

(** [percentile_us]: the counters are loaded one by one. *)
Definition percentile_us (histogram : list Z) (percent : Z) (buckets : list Z) : option Z :=
  percentile_of_buckets histogram percent buckets.

(** [record_named_phase_latency]: one histogram per phase name. *)
Definition record_named_phase_latency (name : string) (elapsed_us : Z) (phases : gmap string (list Z))
    : gmap string (list Z) :=
  let counts := default (replicate 8 0) (phases !! name) in
  <[name := alter (λ c, c + 1) (bucket_index elapsed_us PHASE_BUCKETS_US) counts]> phases.

(** The histogram after a list of samples, from empty. *)
Definition histogram_of (buckets samples : list Z) : list Z :=
  foldl (λ h x, record_histogram h x buckets) (replicate (length buckets) 0) samples.

(** ** Counters *)

(** How many samples fall into bucket [i], and into the buckets up to [i]. *)
Definition in_bucket (buckets : list Z) (i : nat) (samples : list Z) : nat :=
  length (filter (λ x, bucket_index x buckets = i) samples).
Definition up_to_bucket (buckets : list Z) (i : nat) (samples : list Z) : nat :=
  length (filter (λ x, (bucket_index x buckets ≤ i)%nat) samples).

Lemma position_bound x buckets i : position x buckets = Some i → (i < length buckets)%nat.
Proof.
  revert i. induction buckets as [|b l IH]; intros i; cbn; [done|].
  destruct (x <=? b); [intros; simplify_eq; lia|].
  destruct (position x l) as [j|]; intros; simplify_eq/=. specialize (IH j eq_refl). lia.
Qed.

Lemma bucket_index_bound x buckets : buckets ≠ [] → (bucket_index x buckets < length buckets)%nat.
Proof.
  unfold bucket_index. intros Hne. destruct (position x buckets) as [i|] eqn:E; cbn.
  - by eapply position_bound.
  - destruct buckets; [done|cbn; lia].
Qed.

Lemma position_mono x y buckets j :
  x ≤ y → position y buckets = Some j → ∃ i, position x buckets = Some i ∧ (i ≤ j)%nat.
Proof.
  intros Hxy. revert j. induction buckets as [|b l IH]; intros j; cbn; [done|].
  destruct (Z.leb_spec y b).
  - intros [= <-]. exists 0%nat. rewrite (proj2 (Z.leb_le x b)) by lia. done.
  - destruct (position y l) as [j'|]; [|done]. intros [= <-].
    destruct (IH j' eq_refl) as (i & -> & Hi). destruct (x <=? b).
    + exists 0%nat. split; [done|lia].
    + exists (S i). split; [done|lia].
Qed.

(** A larger sample never falls into a lower bucket. *)
Lemma bucket_index_mono x y buckets :
  x ≤ y → buckets ≠ [] → (bucket_index x buckets ≤ bucket_index y buckets)%nat.
Proof.
  intros Hxy Hne. destruct (position y buckets) as [j|] eqn:Ey.
  - destruct (position_mono x y buckets j Hxy Ey) as (i & Ei & Hi).
    unfold bucket_index. by rewrite Ei, Ey.
  - pose proof (bucket_index_bound x buckets Hne). unfold bucket_index at 2. rewrite Ey. cbn. lia.
Qed.

Lemma histogram_snoc buckets samples x :
  histogram_of buckets (samples ++ [x]) = record_histogram (histogram_of buckets samples) x buckets.
Proof. unfold histogram_of. by rewrite foldl_app. Qed.

Lemma histogram_length buckets samples : length (histogram_of buckets samples) = length buckets.
Proof.
  induction samples as [|x l IH] using rev_ind; [apply length_replicate|].
  rewrite histogram_snoc. unfold record_histogram. by rewrite length_alter.
Qed.

Lemma in_bucket_snoc buckets i samples x :
  in_bucket buckets i (samples ++ [x]) =
  (in_bucket buckets i samples + if decide (bucket_index x buckets = i) then 1 else 0)%nat.
Proof.
  unfold in_bucket. rewrite list.filter_app, length_app, filter_cons. by case_decide.
Qed.

Lemma in_bucket_le buckets i samples : (in_bucket buckets i samples ≤ length samples)%nat.
Proof. apply length_filter. Qed.

(** Below 2^64 samples no counter wraps: it is the number of samples of its
    bucket. *)
Lemma histogram_lookup buckets samples i :
  Z.of_nat (length samples) ≤ u64_max → (i < length buckets)%nat →
  histogram_of buckets samples !! i = Some (Z.of_nat (in_bucket buckets i samples)).
Proof.
  intros Hlen Hi. induction samples as [|x l IH] using rev_ind.
  - cbn. by rewrite lookup_replicate_2.
  - rewrite length_app in Hlen. cbn in Hlen. rewrite histogram_snoc, in_bucket_snoc.
    unfold record_histogram. pose proof (in_bucket_le buckets i l). case_decide as Hd.
    + subst. rewrite list_lookup_alter_eq, IH by lia. cbn. f_equal.
      rewrite Z.mod_small; unfold u64_max in *; lia.
    + rewrite list_lookup_alter_ne, IH by (done || lia). f_equal. lia.
Qed.

(** ** The percentile *)

Lemma up_to_step buckets i samples :
  up_to_bucket buckets (S i) samples = (up_to_bucket buckets i samples + in_bucket buckets (S i) samples)%nat.
Proof.
  unfold up_to_bucket, in_bucket. induction samples as [|x l IH]; [done|]. rewrite !filter_cons.
  repeat case_decide; cbn [length]; lia.
Qed.

Lemma up_to_zero buckets samples : up_to_bucket buckets 0 samples = in_bucket buckets 0 samples.
Proof.
  unfold up_to_bucket, in_bucket. induction samples as [|x l IH]; [done|]. rewrite !filter_cons.
  repeat case_decide; cbn [length]; lia.
Qed.

Lemma up_to_last buckets samples :
  buckets ≠ [] → up_to_bucket buckets (length buckets - 1) samples = length samples.
Proof.
  intros Hne. unfold up_to_bucket. induction samples as [|x l IH]; [done|]. rewrite filter_cons.
  pose proof (bucket_index_bound x buckets Hne). rewrite decide_True by lia. cbn [length]. lia.
Qed.

(** The loop stops at the first bucket [b] whose cumulative count reaches the
    target. *)
Lemma cumulative_loop_stops buckets samples target b index counts :
  Z.of_nat (length samples) ≤ u64_max →
  counts = drop index (histogram_of buckets samples) → (index ≤ b < length buckets)%nat →
  (∀ i, (i < b)%nat → Z.of_nat (up_to_bucket buckets i samples) < target) →
  target ≤ Z.of_nat (up_to_bucket buckets b samples) →
  ∀ cum, cum = match index with O => 0 | S j => Z.of_nat (up_to_bucket buckets j samples) end →
  cumulative_loop index cum target counts buckets = Some (bucket_upper_bound b buckets).
Proof.
  intros Hlen -> Hb Hbelow Hreach. remember (b - index)%nat as n eqn:Hn.
  revert index Hb Hn. induction n as [|n IH]; intros index Hb Hn cum Hcum;
    rewrite (drop_S _ (Z.of_nat (in_bucket buckets index samples)) index) by (apply histogram_lookup; [done|lia]);
    cbn [cumulative_loop];
    assert (cum + Z.of_nat (in_bucket buckets index samples) = Z.of_nat (up_to_bucket buckets index samples)) as ->
      by (subst cum; destruct index; [rewrite up_to_zero|rewrite up_to_step]; lia).
  - assert (index = b) as -> by lia. rewrite (proj2 (Z.leb_le _ _)) by lia. done.
  - specialize (Hbelow index ltac:(lia)) as Hlt. rewrite (proj2 (Z.leb_gt _ _)) by lia.
    apply (IH (S index)); [lia|lia|done].
Qed.

Lemma sum_drop buckets samples index :
  Z.of_nat (length samples) ≤ u64_max → (index ≤ length buckets)%nat →
  sum (drop index (histogram_of buckets samples)) +
    match index with O => 0 | S j => Z.of_nat (up_to_bucket buckets j samples) end =
  match length buckets with O => 0 | S j => Z.of_nat (up_to_bucket buckets j samples) end.
Proof.
  intros Hlen Hi. remember (length buckets - index)%nat as n eqn:Hn. revert index Hi Hn.
  induction n as [|n IH]; intros index Hi Hn.
  - assert (index = length buckets) as -> by lia.
    rewrite drop_ge by (rewrite histogram_length; lia). cbn. lia.
  - rewrite (drop_S _ (Z.of_nat (in_bucket buckets index samples)) index) by (apply histogram_lookup; [done|lia]).
    unfold sum in *. cbn [foldr]. rewrite <-(IH (S index)) by lia.
    destruct index; [rewrite up_to_zero|rewrite up_to_step]; lia.
Qed.

Lemma histogram_total buckets samples :
  Z.of_nat (length samples) ≤ u64_max → buckets ≠ [] →
  sum (histogram_of buckets samples) = Z.of_nat (length samples).
Proof.
  intros Hlen Hne. pose proof (sum_drop buckets samples 0 Hlen ltac:(lia)) as H.
  rewrite drop_0, Z.add_0_r in H. rewrite H. pose proof (up_to_last buckets samples Hne) as Hl.
  destruct buckets as [|b l]; [done|]. cbn [length] in *. by rewrite Nat.sub_1_r in Hl; cbn in Hl; rewrite Hl.
Qed.

(** The nearest-rank percentile: the sample at position [ceil (n * percent / 100)]
    of the sorted samples, counting from one. *)
Definition rank_of (n : nat) (percent : Z) : nat :=
  Z.to_nat (Z.max (div_ceil (Z.of_nat n * percent) 100) 1).
Definition nearest_rank (samples : list Z) (percent : Z) : option Z :=
  merge_sort Z.le samples !! (rank_of (length samples) percent - 1)%nat.

(** In a sorted list, at least [k] elements are at most the [k]th, and fewer than
    [k] are below it. *)
Lemma sorted_rank (l : list Z) (k : nat) (v : Z) :
  StronglySorted Z.le l → l !! k = Some v →
  (S k ≤ length (filter (λ x, (x ≤ v)%Z) l))%nat ∧ (length (filter (λ x, (x < v)%Z) l) ≤ k)%nat.
Proof.
  intros Hs. revert k. induction Hs as [|x l Hs IH Hall]; intros k Hk; [done|].
  rewrite list.Forall_forall in Hall. rewrite !filter_cons. destruct k as [|k]; cbn in Hk.
  - simplify_eq. rewrite decide_True by lia. rewrite decide_False by lia. cbn [length]. split; [lia|].
    assert (filter (λ x, x < v) l = []) as ->; [|done].

    destruct (filter (λ x, x < v) l) as [|y ys] eqn:E; [done|].
    assert (y ∈ filter (λ x, x < v) l) as Hy by (rewrite E; apply elem_of_cons; by left).
    apply list_elem_of_filter in Hy as [Hy1 Hy2]. specialize (Hall y Hy2). lia.
  - destruct (IH k Hk) as [H1 H2]. assert (x ≤ v) by (apply Hall; by eapply list_elem_of_lookup_2).
    rewrite decide_True by lia. cbn [length]. split; [lia|]. case_decide; cbn [length]; lia.
Qed.

Lemma filter_length_perm (P : Z → Prop) `{∀ x, Decision (P x)} l l' :
  l ≡ₚ l' → length (filter P l) = length (filter P l').
Proof. by intros ->. Qed.

Lemma filter_length_impl (P Q : Z → Prop) `{∀ x, Decision (P x)} `{∀ x, Decision (Q x)} l :
  (∀ x, P x → Q x) → (length (filter P l) ≤ length (filter Q l))%nat.
Proof.
  intros HPQ. induction l as [|x l IH]; [done|]. rewrite !filter_cons.
  repeat case_decide; cbn [length]; try lia. by exfalso; eauto.
Qed.

(** The percentile estimate.  For fewer than 2^64 / 100 recorded samples, the
    estimate for a percentage of 1 to 100 is exactly the reported bound of the
    bucket that holds the true nearest-rank percentile of the samples: counting
    by bucket never moves a percentile to a neighbouring bucket. *)
Theorem percentile_estimate buckets samples percent v :
  buckets ≠ [] → samples ≠ [] → 1 ≤ percent ≤ 100 → Z.of_nat (length samples) * 100 ≤ u64_max →
  nearest_rank samples percent = Some v →
  percentile_of_buckets (histogram_of buckets samples) percent buckets =
    Some (bucket_upper_bound (bucket_index v buckets) buckets).
Proof.
  intros Hb Hne Hp Hlen Hv. unfold nearest_rank in Hv.
  set (n := length samples) in *. assert (n ≠ 0)%nat as Hn by (destruct samples; done).
  assert (Z.of_nat n ≤ u64_max) as Hlen' by lia.
  unfold percentile_of_buckets. rewrite histogram_total by done. fold n.
  rewrite bool_decide_eq_false_2 by lia.
  assert (sat_mul64 (Z.of_nat n) percent = Z.of_nat n * percent) as ->
    by (unfold sat_mul64; rewrite Z.min_l; nia).
  set (target := Z.max (div_ceil (Z.of_nat n * percent) 100) 1).
  assert (rank_of n percent = Z.to_nat target) as Hrank by done. rewrite Hrank in Hv.
  pose proof (Sorted_merge_sort Z.le samples) as Hsort.
  apply Sorted_StronglySorted in Hsort; [|intros ???; lia].
  pose proof (merge_sort_Permutation Z.le samples) as Hperm.
  destruct (sorted_rank _ _ _ Hsort Hv) as [Hge Hlt].
  rewrite (filter_length_perm _ _ _ Hperm) in Hge. rewrite (filter_length_perm _ _ _ Hperm) in Hlt.
  apply (cumulative_loop_stops buckets samples); [done|by rewrite drop_0| | | |done].
  - split; [lia|by apply bucket_index_bound].
  - intros i Hi. assert (up_to_bucket buckets i samples ≤ length (filter (λ x, (x < v)%Z) samples))%nat; [|lia].
    apply filter_length_impl. intros x Hx.
    destruct (Z.lt_ge_cases x v) as [|Hge']; [done|].
    pose proof (bucket_index_mono v x buckets Hge' Hb). lia.
  - assert (length (filter (λ x, (x ≤ v)%Z) samples) ≤ up_to_bucket buckets (bucket_index v buckets) samples)%nat; [|lia].
    apply filter_length_impl. intros x Hx. by apply bucket_index_mono.
Qed.

Lemma percentile_estimate_witness :
  percentile_of_buckets (histogram_of LATENCY_BUCKETS_US [40; 700; 90; 300000; 60]) 95 LATENCY_BUCKETS_US
    = Some (bucket_upper_bound (bucket_index 300000 LATENCY_BUCKETS_US) LATENCY_BUCKETS_US).
Proof. apply percentile_estimate; [done|done|lia|by vm_compute|by vm_compute]. Defined.
