(* ===== verification/Parallel.v ===== *)
(** * Bounded parallel batches (src/src/parallel.rs)

    [map_bounded] runs a job per item on a few threads that share a queue and a
    result vector, each behind a mutex: popping an item and storing a result are
    atomic steps, and the threads take them in any order. *)
From S2P Require Import Prelude RustStr.

Definition MAX_WORKERS : Z := 64.

(** [env_worker_count] on the variable's value, [None] when it is not set. *)
Definition env_worker_count (value : option string) (default_count : Z) : Z :=
  match value ≫= parse_uint u64_max with
  | Some n => if ((1 <=? n) && (n <=? MAX_WORKERS))%Z then n else default_count
  | None => default_count
  end.

(** [Ord::clamp] *)
Definition clamp (lo hi n : Z) : Z := Z.max lo (Z.min n hi).

Definition worker_count (value : option string) (jobs default_count : Z) : Z :=
  if bool_decide (jobs = 0%Z) then 0%Z else clamp 1 jobs (env_worker_count value default_count).

Section batch.
Context {T R : Type} (job : T → R).

(** [busy]: what each worker is running; [results]: the shared vector. *)
Record batch := mkBatch { todo : list (nat * T); busy : gmap nat (option (nat * T)); results : list (option R) }.

Definition start (items : list T) (workers : nat) : batch :=
  mkBatch (imap pair items)
    (list_to_map ((λ w, (w, None)) <$> seq 0 (Nat.max 1 (Nat.min workers (length items)))))
    (replicate (length items) None).

(** One step of worker [w]: an idle worker claims the next item, a busy one
    stores its result. *)
Definition batch_step (w : nat) (s : batch) : option batch :=
  match busy s !! w with
  | Some None =>
      match todo s with
      | next :: rest => Some (mkBatch rest (<[w := Some next]> (busy s)) (results s))
      | [] => None
      end
  | Some (Some (index, item)) =>
      Some (mkBatch (todo s) (<[w := None]> (busy s)) (<[index := Some (job item)]> (results s)))
  | None => None
  end.

Inductive batch_run : nat → batch → batch → Prop :=
  | batch_done s : batch_run 0 s s
  | batch_more n s s' s'' w : batch_run n s s' → batch_step w s' = Some s'' → batch_run (S n) s s''.

(** No worker can move: the scope returns. *)
Definition finished (s : batch) : Prop := ∀ w, batch_step w s = None.

Definition occupied (b : option (nat * T)) : nat := match b with Some _ => 1 | None => 0 end.

(** What is left to do: two steps per unclaimed item, one per claimed item. *)
Definition work_left (s : batch) : nat := 2 * length (todo s) + msum occupied (busy s).

(** Every item is unclaimed, being run by one worker, or has its result. *)
Definition claimed (s : batch) (i : nat) (x : T) : Prop :=
  (i, x) ∈ todo s ∨ ∃ w, busy s !! w = Some (Some (i, x)).
Definition batch_ok (items : list T) (s : batch) : Prop :=
  length (results s) = length items ∧ (∃ w b, busy s !! w = Some b) ∧
  (∀ i x, claimed s i x → items !! i = Some x) ∧
  (∀ i x, items !! i = Some x → claimed s i x ∨ results s !! i = Some (Some (job x))).

Lemma start_ok items workers : items ≠ [] → batch_ok items (start items workers).
Proof.
  intros Hne. assert (∀ w p, busy (start items workers) !! w ≠ Some (Some p)) as Hidle.
  { intros w p H. apply elem_of_list_to_map_2, list_elem_of_fmap in H as (? & [=] & _). }
  split_and!.
  - apply length_replicate.
  - exists 0, None. unfold start. cbn [busy].
    destruct (Nat.max 1 (Nat.min workers (length items))) as [|k] eqn:E; [lia|]. cbn.
    by rewrite lookup_insert_eq.
  - intros i x [H|[w H]]; [|by apply Hidle in H]. cbn in H.
    apply list_elem_of_lookup in H as [k H]. rewrite list_lookup_imap in H.
    destruct (items !! k) eqn:E; cbn in H; by simplify_eq.
  - intros i x Hi. left. left. cbn. apply list_elem_of_lookup. exists i.
    by rewrite list_lookup_imap, Hi.
Qed.

Lemma batch_step_ok items w s s' : batch_ok items s → batch_step w s = Some s' → batch_ok items s'.
Proof.
  intros (Hlen & Hw & Hsound & Hall) H. unfold batch_step in H.
  destruct (busy s !! w) as [[[index item]|]|] eqn:Eb; [| |done].
  - simplify_eq. split_and!; cbn.
    + by rewrite length_insert.
    + exists w, None. by rewrite lookup_insert_eq.
    + intros i x [Hi|[w' Hi]]; [apply Hsound; by left|]. cbn in Hi.
      apply lookup_insert_Some in Hi as [[_ [=]]|[_ Hi]]. apply Hsound. right. eauto.
    + intros i x Hi. assert (items !! index = Some item) as Hit by (apply Hsound; right; eauto).
      destruct (decide (i = index)) as [->|Hne].
      * right. assert (x = item) as -> by congruence. apply list_lookup_insert_eq.
        rewrite Hlen. by eapply lookup_lt_Some.
      * destruct (Hall i x Hi) as [[Hc|[w' Hc]]|Hc].
        -- left. by left.
        -- left. right. exists w'. cbn. rewrite lookup_insert_ne; [done|]. intros ->. congruence.
        -- right. by rewrite list_lookup_insert_ne.
  - destruct (todo s) as [|next rest] eqn:Et; [done|]. simplify_eq. split_and!; cbn; [done| | |].
    + exists w, (Some next). by rewrite lookup_insert_eq.
    + intros i x [Hi|[w' Hi]]; cbn in Hi.
      * apply Hsound. left. rewrite Et. apply elem_of_cons. by right.
      * apply lookup_insert_Some in Hi as [[<- Hn]|[_ Hi]].
        -- injection Hn as ->. apply Hsound. left. rewrite Et. apply elem_of_cons. by left.
        -- apply Hsound. right. eauto.
    + intros i x Hi. destruct (Hall i x Hi) as [[Hc|[w' Hc]]|Hc]; [| |by right]; left.
      * rewrite Et in Hc. apply elem_of_cons in Hc as [<-|Hc]; [right|by left].
        exists w. cbn. by rewrite lookup_insert_eq.
      * right. exists w'. cbn. rewrite lookup_insert_ne; [done|]. intros ->. congruence.
Qed.

Lemma batch_step_work w s s' : batch_step w s = Some s' → work_left s = S (work_left s').
Proof.
  unfold batch_step, work_left. destruct (busy s !! w) as [[[index item]|]|] eqn:Eb; [| |done].
  - intros. simplify_eq. cbn. pose proof (msum_update occupied _ _ _ None Eb). cbn in *. lia.
  - destruct (todo s) as [|next rest]; [done|]. intros. simplify_eq. cbn.
    pose proof (msum_update occupied _ _ _ (Some next) Eb). cbn in *. lia.
Qed.

Lemma batch_stuck items s : batch_ok items s → finished s →
  todo s = [] ∧ ∀ w p, busy s !! w ≠ Some (Some p).
Proof.
  intros (_ & (w0 & b & Hw) & _) Hf.
  assert (∀ w p, busy s !! w ≠ Some (Some p)) as Hb.
  { intros w [i x] H. specialize (Hf w). unfold batch_step in Hf. by rewrite H in Hf. }
  split; [|done]. specialize (Hf w0). unfold batch_step in Hf. rewrite Hw in Hf.
  destruct b as [p|]; [by apply Hb in Hw|]. by destruct (todo s).
Qed.

Lemma start_work items workers : work_left (start items workers) = 2 * length items.
Proof.
  unfold work_left, start. cbn [todo busy]. rewrite length_imap, msum_zero; [lia|].
  intros w b H. apply elem_of_list_to_map_2, list_elem_of_fmap in H as (? & [= -> ->] & _). done.
Qed.

(** A batch computes the map.  However many workers run it and however their
    steps interleave, a batch over [n] items takes exactly [2n] steps before no
    worker can move, and then every result is the job applied to the item of
    its position: no item is skipped, run twice for different positions or
    reported out of order. *)
Theorem map_bounded_correct items workers n s :
  items ≠ [] → batch_run n (start items workers) s →
  n + work_left s = 2 * length items ∧
  (finished s → n = 2 * length items ∧ results s = (Some ∘ job) <$> items).
Proof.
  intros Hne Hrun.
  assert (batch_ok items s ∧ n + work_left s = 2 * length items) as [Hok Hwork].
  { rewrite <-(start_work items workers). remember (start items workers) as s0 eqn:Hs0.
    induction Hrun as [|n s0 s' s'' w _ IH Hstep].
    - subst. split; [by apply start_ok|lia].
    - destruct (IH Hs0) as [Hok' Hw']. split; [by eapply batch_step_ok|].
      apply batch_step_work in Hstep. lia. }
  split; [done|]. intros Hf. destruct (batch_stuck _ _ Hok Hf) as [Ht Hb].
  assert (work_left s = 0) as H0.
  { unfold work_left. rewrite Ht, msum_zero; [done|]. intros w [p|] Hw; [by apply Hb in Hw|done]. }
  split; [lia|]. destruct Hok as (Hlen & _ & _ & Hall). apply list_eq. intros i.
  rewrite list_lookup_fmap. destruct (items !! i) as [x|] eqn:Hi; cbn.
  - destruct (Hall i x Hi) as [[Hc|[w Hc]]|Hc]; [|by apply Hb in Hc|done].
    rewrite Ht in Hc. by apply not_elem_of_nil in Hc.
  - apply lookup_ge_None in Hi. apply lookup_ge_None. lia.
Qed.

End batch.

Lemma map_bounded_correct_witness :
  ∃ s, batch_run (λ n, n * n) 4 (start [3; 5] 8) s ∧ 4 + work_left s = 2 * length [3; 5] ∧
    (finished (λ n, n * n) s → 4 = 2 * length [3; 5] ∧ results s = (Some ∘ λ n, n * n) <$> [3; 5]).
Proof.
  assert (∃ s, batch_run (λ n, n * n) 4 (start [3; 5] 8) s) as [s Hs].
  { eexists. eapply (batch_more _ _ _ _ _ 0); [eapply (batch_more _ _ _ _ _ 1);
      [eapply (batch_more _ _ _ _ _ 0); [eapply (batch_more _ _ _ _ _ 1);
        [constructor|]|]|]|]; vm_compute; reflexivity. }
  exists s. split; [exact Hs|]. by apply (map_bounded_correct (λ n, n * n) [3; 5] 8).
Defined.
