(* ===== verification/Types.v ===== *)
(** * Records and limits

    The sandbox and workspace records (src/src/sandbox/types.rs,
    src/src/workspace/types), their resource limits
    (src/src/resource_limits.rs), and how an update changes them. *)
From S2P Require Import Prelude Ports.
From Stdlib Require Import QArith.
Open Scope Z_scope.

(** ** Floating point percentages

    The values an [f64] can take, with the finite ones as rationals; [==] and
    [<=] are false on NaN. *)
Inductive f64 := NaN | Infinite (negative : bool) | Finite (q : Q).

Definition is_finite (x : f64) : bool := match x with Finite _ => true | _ => false end.
Definition f64_le (x y : f64) : bool :=
  match x, y with
  | NaN, _ | _, NaN => false
  | Infinite true, _ => true
  | _, Infinite false => true
  | Infinite false, _ => false
  | _, Infinite true => false
  | Finite p, Finite q => Qle_bool p q
  end.
Definition f64_eq (x y : f64) : bool := f64_le x y && f64_le y x.
Definition option_eq {A} (eq : A → A → bool) (x y : option A) : bool :=
  match x, y with Some a, Some b => eq a b | None, None => true | _, _ => false end.

Definition mib (bytes : Z) : Z := bytes / (1024 * 1024).

(** ** Limit validation (resource_limits.rs) *)

Definition MIN_MEMORY_BYTES : Z := 16 * 1024 * 1024.

Definition validate_memory_bytes (value : option Z) : result unit :=
  match value with
  | None => Ok tt
  | Some bytes =>
      if bytes <? MIN_MEMORY_BYTES then bail "memory limit must be at least 16 MiB" else Ok tt
  end.

Definition validate_cpu_percent (value : f64) : result unit :=
  if negb (is_finite value) then bail "cpu_percent must be a finite number"
  else if f64_le value (Finite 0) then bail "cpu_percent must be greater than 0"
  else if negb (f64_le value (Finite (100 # 1))) then bail "cpu_percent must be less than or equal to 100"
  else Ok tt.

Definition validate_optional_cpu (value : option f64) : result unit :=
  match value with Some v => validate_cpu_percent v | None => Ok tt end.

Lemma cpu_ok v : is_ok (validate_cpu_percent v) = true → ∃ q, v = Finite q ∧ (0 < q <= 100)%Q.
Proof.
  unfold validate_cpu_percent. destruct v as [| |q]; try done. cbn [is_finite negb f64_le].
  destruct (Qle_bool q 0) eqn:E1; [done|]. destruct (Qle_bool q (100 # 1)) eqn:E2; [|done]. intros _.
  exists q. split; [done|]. split; [|by apply Qle_bool_iff].
  apply Qnot_le_lt. rewrite <-Qle_bool_iff. congruence.
Qed.

(** ** Sandboxes (sandbox/types.rs) *)

Inductive SandboxStatus := SbStarting | SbRunning | SbPaused | SbStopping | SbStopped.

Definition sandbox_status_as_str (s : SandboxStatus) : string :=
  match s with
  | SbStarting => "starting" | SbRunning => "running" | SbPaused => "paused"
  | SbStopping => "stopping" | SbStopped => "stopped"
  end.
Definition sandbox_is_transitional (s : SandboxStatus) : bool :=
  match s with SbStarting | SbStopping => true | _ => false end.
Definition rootfs_is_mounted (s : SandboxStatus) : bool :=
  match s with SbStarting | SbRunning | SbPaused | SbStopping => true | SbStopped => false end.
Definition sandbox_is_active (s : SandboxStatus) : bool :=
  match s with SbRunning | SbPaused => true | _ => false end.

#[export] Instance SandboxStatus_eq_dec : EqDecision SandboxStatus.
Proof. solve_decision. Defined.

Record SandboxLimits := mkSbLimits {
  sb_cpu_percent : option f64;
  sb_memory_bytes : option Z;
  sb_max_processes : option Z;
  sb_disk_bytes : option Z;
  max_running_workspaces : option Z }.

Record SandboxLimitsUpdate := mkSbUpdate {
  up_cpu_percent : option (option f64);
  up_memory_bytes : option (option Z);
  up_max_processes : option (option Z);
  up_disk_bytes : option (option Z);
  up_max_running : option (option Z) }.

Definition sandbox_limits_validate (l : SandboxLimits) : result unit :=
  _ ← validate_optional_cpu (sb_cpu_percent l);
  _ ← validate_memory_bytes (sb_memory_bytes l);
  if bool_decide (max_running_workspaces l = Some 0)
  then bail "max_running_workspaces must be greater than 0" else Ok tt.

Definition has_limits (l : SandboxLimits) : bool :=
  bool_decide (is_Some (sb_cpu_percent l)) || bool_decide (is_Some (sb_memory_bytes l)) ||
  bool_decide (is_Some (sb_max_processes l)).

Definition check_disk_budget (l : SandboxLimits) (already_allocated requested_bytes : Z) : result unit :=
  match sb_disk_bytes l with
  | None => Ok tt
  | Some budget =>
      let total := sat_add64 already_allocated requested_bytes in
      if budget <? total then bail "the sandbox disk budget would be exceeded" else Ok tt
  end.

Definition check_disk_budget_covers (l : SandboxLimits) (allocated_bytes : Z) : result unit :=
  match sb_disk_bytes l with
  | None => Ok tt
  | Some budget =>
      if budget <? allocated_bytes
      then bail "the sandbox's workspaces already allocate more than the requested budget" else Ok tt
  end.

(** One [if let Some(..)] block of an update: the new value and whether it
    changed. *)
Definition set_field {A} (eq : A → A → bool) (new : option (option A)) (old : option A) : option A * bool :=
  match new with
  | Some v => (v, negb (option_eq eq old v))
  | None => (old, false)
  end.

(** [SandboxLimits::apply_update]: the fields are assigned in order and an early
    return keeps the assignments made before it. *)
Definition sandbox_apply_update (u : SandboxLimitsUpdate) : stm SandboxLimits bool := λ l,
  match validate_optional_cpu (default None (up_cpu_percent u)) with
  | Err e => (Err e, l)
  | Ok _ =>
      let '(cpu, c1) := set_field f64_eq (up_cpu_percent u) (sb_cpu_percent l) in
      let '(mem, c2) := set_field Z.eqb (up_memory_bytes u) (sb_memory_bytes l) in
      let '(procs, c3) := set_field Z.eqb (up_max_processes u) (sb_max_processes l) in
      let '(disk, c4) := set_field Z.eqb (up_disk_bytes u) (sb_disk_bytes l) in
      if bool_decide (up_max_running u = Some (Some 0))
      then (bail "max_running_workspaces must be greater than 0",
            mkSbLimits cpu mem procs disk (max_running_workspaces l))
      else
        let '(running, c5) := set_field Z.eqb (up_max_running u) (max_running_workspaces l) in
        let l' := mkSbLimits cpu mem procs disk running in
        match sandbox_limits_validate l' with
        | Err e => (Err e, l')
        | Ok _ => (Ok (c1 || c2 || c3 || c4 || c5), l')
        end
  end.

Inductive BootstrapMethod := Debootstrap | CachedRootfs.

Definition bootstrap_display (m : BootstrapMethod) : string :=
  match m with Debootstrap => "debootstrap" | CachedRootfs => "cached_rootfs" end.
Definition bootstrap_from_str (s : string) : result BootstrapMethod :=
  if bool_decide (s = "debootstrap") then Ok Debootstrap
  else if bool_decide (s = "cached_rootfs") then Ok CachedRootfs
  else bail ("unknown bootstrap method '" +:+ s +:+ "'; valid values: debootstrap, cached_rootfs").

Record SandboxMetadata := mkSandbox {
  sb_id : string;
  sb_name : string;
  suite : string;
  mirror : string;
  bootstrap_method : BootstrapMethod;
  sb_created_at : string;
  sandbox_path : string;
  rootfs_path : string;
  rootfs_lower_path : option string;
  mounted_rootfs_path : string;
  workspaces_path : string;
  home_base_path : string;
  sb_limits : SandboxLimits;
  sb_status : SandboxStatus }.

Definition with_sb_limits (l : SandboxLimits) (s : SandboxMetadata) : SandboxMetadata :=
  mkSandbox (sb_id s) (sb_name s) (suite s) (mirror s) (bootstrap_method s) (sb_created_at s)
    (sandbox_path s) (rootfs_path s) (rootfs_lower_path s) (mounted_rootfs_path s)
    (workspaces_path s) (home_base_path s) l (sb_status s).
Definition with_sb_status (st : SandboxStatus) (s : SandboxMetadata) : SandboxMetadata :=
  mkSandbox (sb_id s) (sb_name s) (suite s) (mirror s) (bootstrap_method s) (sb_created_at s)
    (sandbox_path s) (rootfs_path s) (rootfs_lower_path s) (mounted_rootfs_path s)
    (workspaces_path s) (home_base_path s) (sb_limits s) st.

(** ** Workspaces (workspace/types) *)

Inductive WorkspaceStatus := Starting | Running | Stopping | Stopped.

#[export] Instance WorkspaceStatus_eq_dec : EqDecision WorkspaceStatus.
Proof. solve_decision. Defined.

Definition is_transitional (s : WorkspaceStatus) : bool :=
  match s with Starting | Stopping => true | _ => false end.
Definition may_have_runtime (s : WorkspaceStatus) : bool :=
  match s with Starting | Running | Stopping => true | Stopped => false end.
Definition is_running (s : WorkspaceStatus) : bool := match s with Running => true | _ => false end.
Definition status_as_str (s : WorkspaceStatus) : string :=
  match s with
  | Starting => "starting" | Running => "running" | Stopping => "stopping" | Stopped => "stopped"
  end.

Record WorkspaceLimits := mkWsLimits {
  cpu_seconds : option Z;
  cpu_percent : option f64;
  memory_bytes : option Z;
  max_processes : option Z;
  max_open_files : option Z;
  disk_bytes : option Z }.

Record WorkspaceLimitsUpdate := mkWsUpdate {
  wu_clear_tmp_on_restart : option bool;
  wu_keep_running : option bool;
  wu_idle_stop_after_secs : option (option Z);
  wu_destroy_after_secs : option (option Z);
  wu_cpu_seconds : option (option Z);
  wu_cpu_percent : option (option f64);
  wu_memory_bytes : option (option Z);
  wu_max_processes : option (option Z);
  wu_max_open_files : option (option Z);
  wu_disk_bytes : option (option Z) }.

(** [Option::or] *)
Definition option_or {A} (x y : option A) : option A := match x with Some _ => x | None => y end.

Definition apply_defaults (l : WorkspaceLimits) (cpu : option f64) (procs : option Z) : WorkspaceLimits :=
  mkWsLimits (cpu_seconds l) (option_or (cpu_percent l) cpu) (memory_bytes l)
    (option_or (max_processes l) procs) (max_open_files l) (disk_bytes l).

Definition workspace_limits_validate (l : WorkspaceLimits) : result unit :=
  _ ← validate_optional_cpu (cpu_percent l);
  _ ← (if bool_decide (max_processes l = Some 0) then bail "max_processes must be greater than 0" else Ok tt);
  validate_memory_bytes (memory_bytes l).

(** [WorkspaceLimits::apply_update]; the first assignment precedes the only
    early return. *)
Definition workspace_apply_update (u : WorkspaceLimitsUpdate) : stm WorkspaceLimits bool := λ l,
  let '(secs, c1) := set_field Z.eqb (wu_cpu_seconds u) (cpu_seconds l) in
  match validate_optional_cpu (default None (wu_cpu_percent u)) with
  | Err e => (Err e, mkWsLimits secs (cpu_percent l) (memory_bytes l) (max_processes l)
                       (max_open_files l) (disk_bytes l))
  | Ok _ =>
      let '(cpu, c2) := set_field f64_eq (wu_cpu_percent u) (cpu_percent l) in
      let '(mem, c3) := set_field Z.eqb (wu_memory_bytes u) (memory_bytes l) in
      let '(procs, c4) := set_field Z.eqb (wu_max_processes u) (max_processes l) in
      let '(files, c5) := set_field Z.eqb (wu_max_open_files u) (max_open_files l) in
      let '(disk, c6) := set_field Z.eqb (wu_disk_bytes u) (disk_bytes l) in
      let l' := mkWsLimits secs cpu mem procs files disk in
      match workspace_limits_validate l' with
      | Err e => (Err e, l')
      | Ok _ => (Ok (c1 || c2 || c3 || c4 || c5 || c6), l')
      end
  end.

Record NamespaceRefs := mkRefs { refs_mount : string; refs_pid : string }.
Definition default_refs : NamespaceRefs := mkRefs "unassigned" "unassigned".

#[export] Instance NamespaceRefs_eq_dec : EqDecision NamespaceRefs.
Proof. solve_decision. Defined.

Record WorkspaceMetadata := mkWorkspace {
  id : string;
  sandbox_id : string;
  name : string;
  created_at : string;
  last_request_at : option string;
  last_process_activity_at : option string;
  last_stopped_at : option string;
  workspace_path : string;
  filesystem_path : string;
  filesystem_mount_target : string;
  home_mount_source_path : option string;
  sandbox_rootfs_path : string;
  overlay_home_base_path : string;
  overlay_home_upper_path : string;
  overlay_home_work_path : string;
  overlay_home_merged_path : string;
  auth_providers : list string;
  owner : option string;
  env_tokens : list string;
  published_ports : list PublishedPortSpec;
  status : WorkspaceStatus;
  runtime_pid : option Z;
  runtime_starttime_ticks : option Z;
  namespace_refs : NamespaceRefs;
  clear_tmp_on_restart : bool;
  keep_running : bool;
  idle_stop_after_secs : option Z;
  destroy_after_secs : option Z;
  limits : WorkspaceLimits;
  assigned_ip : option string }.

(** Field updates of the workspace record the lifecycle makes. *)
Definition with_runtime (st : WorkspaceStatus) (pid ticks : option Z) (ip : option string)
    (refs : NamespaceRefs) (stopped_at : option string) (rootfs : string) (w : WorkspaceMetadata)
    : WorkspaceMetadata :=
  mkWorkspace (id w) (sandbox_id w) (name w) (created_at w) (last_request_at w)
    (last_process_activity_at w) stopped_at (workspace_path w) (filesystem_path w)
    (filesystem_mount_target w) (home_mount_source_path w) rootfs
    (overlay_home_base_path w) (overlay_home_upper_path w) (overlay_home_work_path w)
    (overlay_home_merged_path w) (auth_providers w) (owner w) (env_tokens w) (published_ports w)
    st pid ticks refs (clear_tmp_on_restart w) (keep_running w) (idle_stop_after_secs w)
    (destroy_after_secs w) (limits w) ip.

Definition with_status (st : WorkspaceStatus) (w : WorkspaceMetadata) : WorkspaceMetadata :=
  with_runtime st (runtime_pid w) (runtime_starttime_ticks w) (assigned_ip w) (namespace_refs w)
    (last_stopped_at w) (sandbox_rootfs_path w) w.

Definition with_limits (l : WorkspaceLimits) (w : WorkspaceMetadata) : WorkspaceMetadata :=
  mkWorkspace (id w) (sandbox_id w) (name w) (created_at w) (last_request_at w)
    (last_process_activity_at w) (last_stopped_at w) (workspace_path w) (filesystem_path w)
    (filesystem_mount_target w) (home_mount_source_path w) (sandbox_rootfs_path w)
    (overlay_home_base_path w) (overlay_home_upper_path w) (overlay_home_work_path w)
    (overlay_home_merged_path w) (auth_providers w) (owner w) (env_tokens w) (published_ports w)
    (status w) (runtime_pid w) (runtime_starttime_ticks w) (namespace_refs w)
    (clear_tmp_on_restart w) (keep_running w) (idle_stop_after_secs w) (destroy_after_secs w)
    l (assigned_ip w).

Definition with_disk_bytes (d : option Z) (l : WorkspaceLimits) : WorkspaceLimits :=
  mkWsLimits (cpu_seconds l) (cpu_percent l) (memory_bytes l) (max_processes l) (max_open_files l) d.
Definition with_memory_bytes (m : option Z) (l : WorkspaceLimits) : WorkspaceLimits :=
  mkWsLimits (cpu_seconds l) (cpu_percent l) m (max_processes l) (max_open_files l) (disk_bytes l).

Definition with_activity (request process : option string) (w : WorkspaceMetadata) : WorkspaceMetadata :=
  mkWorkspace (id w) (sandbox_id w) (name w) (created_at w) request process
    (last_stopped_at w) (workspace_path w) (filesystem_path w)
    (filesystem_mount_target w) (home_mount_source_path w) (sandbox_rootfs_path w)
    (overlay_home_base_path w) (overlay_home_upper_path w) (overlay_home_work_path w)
    (overlay_home_merged_path w) (auth_providers w) (owner w) (env_tokens w) (published_ports w)
    (status w) (runtime_pid w) (runtime_starttime_ticks w) (namespace_refs w)
    (clear_tmp_on_restart w) (keep_running w) (idle_stop_after_secs w) (destroy_after_secs w)
    (limits w) (assigned_ip w).

(** ** Updates are exact *)

(** What a caller asked for: the named fields replaced, the others kept. *)
Definition pick {A} (new : option (option A)) (old : option A) : option A := default old new.

Definition sandbox_requested (u : SandboxLimitsUpdate) (l : SandboxLimits) : SandboxLimits :=
  mkSbLimits (pick (up_cpu_percent u) (sb_cpu_percent l)) (pick (up_memory_bytes u) (sb_memory_bytes l))
    (pick (up_max_processes u) (sb_max_processes l)) (pick (up_disk_bytes u) (sb_disk_bytes l))
    (pick (up_max_running u) (max_running_workspaces l)).

Definition workspace_requested (u : WorkspaceLimitsUpdate) (l : WorkspaceLimits) : WorkspaceLimits :=
  mkWsLimits (pick (wu_cpu_seconds u) (cpu_seconds l)) (pick (wu_cpu_percent u) (cpu_percent l))
    (pick (wu_memory_bytes u) (memory_bytes l)) (pick (wu_max_processes u) (max_processes l))
    (pick (wu_max_open_files u) (max_open_files l)) (pick (wu_disk_bytes u) (disk_bytes l)).

Lemma set_field_fst {A} eq new (old : option A) : (set_field eq new old).1 = pick new old.
Proof. by destruct new. Qed.

Lemma set_field_snd_false {A} (eq : A → A → bool) new (old : option A) :
  (set_field eq new old).2 = false ↔ (∀ v, new = Some v → option_eq eq old v = true).
Proof.
  destruct new as [v|]; cbn.
  - rewrite negb_false_iff. split; [by intros H v' [= <-]|auto].
  - split; [done|auto].
Qed.

Lemma optional_cpu_pick new old :
  is_ok (validate_optional_cpu (default None new)) = false →
  is_ok (validate_optional_cpu (pick new old)) = false.
Proof. by destruct new as [[v|]|]. Qed.

Lemma is_ok_bind_false {A B} (r : result A) (f : A → result B) :
  is_ok r = false → is_ok (r ≫= f) = false.
Proof. by destruct r. Qed.

Lemma sandbox_apply_update_Ok u l changed l' :
  sandbox_apply_update u l = (Ok changed, l') → l' = sandbox_requested u l.
Proof.
  unfold sandbox_apply_update, sandbox_requested. rewrite <-(set_field_fst f64_eq), <-!(set_field_fst Z.eqb).
  intros H. repeat case_match; by simplify_eq.
Qed.

(** A sandbox limits update is all the caller asked for or refused.  It is
    accepted exactly when the limits it asks for are valid, and then stores
    exactly those (named limits replaced, also by "no limit", the others kept)
    and reports "unchanged" exactly when every named limit already had that
    value. *)
Theorem sandbox_update_exact u l :
  match sandbox_apply_update u l with
  | (Ok changed, l') =>
      l' = sandbox_requested u l ∧ sandbox_limits_validate l' = Ok tt ∧
      (changed = false ↔
        (∀ v, up_cpu_percent u = Some v → option_eq f64_eq (sb_cpu_percent l) v = true) ∧
        (∀ v, up_memory_bytes u = Some v → option_eq Z.eqb (sb_memory_bytes l) v = true) ∧
        (∀ v, up_max_processes u = Some v → option_eq Z.eqb (sb_max_processes l) v = true) ∧
        (∀ v, up_disk_bytes u = Some v → option_eq Z.eqb (sb_disk_bytes l) v = true) ∧
        (∀ v, up_max_running u = Some v → option_eq Z.eqb (max_running_workspaces l) v = true))
  | (Err _, _) => is_ok (sandbox_limits_validate (sandbox_requested u l)) = false
  end.
Proof.
  unfold sandbox_apply_update.
  destruct (validate_optional_cpu (default None (up_cpu_percent u))) as [[]|e] eqn:Ecpu.
  2:{ unfold sandbox_limits_validate. apply is_ok_bind_false, optional_cpu_pick. by rewrite Ecpu. }
  destruct (set_field f64_eq (up_cpu_percent u) (sb_cpu_percent l)) as [cpu c1] eqn:E1.
  destruct (set_field Z.eqb (up_memory_bytes u) (sb_memory_bytes l)) as [mem c2] eqn:E2.
  destruct (set_field Z.eqb (up_max_processes u) (sb_max_processes l)) as [procs c3] eqn:E3.
  destruct (set_field Z.eqb (up_disk_bytes u) (sb_disk_bytes l)) as [disk c4] eqn:E4.
  case_bool_decide as Hz.
  { unfold sandbox_limits_validate, sandbox_requested, pick. cbn. rewrite Hz. cbn.
    destruct (validate_optional_cpu (default (sb_cpu_percent l) _)); [|done].
    cbn [mbind result_bind]. by destruct (validate_memory_bytes _). }
  destruct (set_field Z.eqb (up_max_running u) (max_running_workspaces l)) as [run c5] eqn:E5.
  assert (mkSbLimits cpu mem procs disk run = sandbox_requested u l) as ->.
  { unfold sandbox_requested. by rewrite <-(set_field_fst f64_eq), <-!(set_field_fst Z.eqb), E1, E2, E3, E4, E5. }
  destruct (sandbox_limits_validate (sandbox_requested u l)) as [[]|] eqn:Ev; [|done].
  split_and!; [done..|]. rewrite !orb_false_iff.
  rewrite <-!(set_field_snd_false f64_eq), <-!(set_field_snd_false Z.eqb), E1, E2, E3, E4, E5.
  cbn. tauto.
Qed.

(** The same for a workspace's limits. *)
Theorem workspace_update_exact u l :
  match workspace_apply_update u l with
  | (Ok changed, l') =>
      l' = workspace_requested u l ∧ workspace_limits_validate l' = Ok tt ∧
      (changed = false ↔
        (∀ v, wu_cpu_seconds u = Some v → option_eq Z.eqb (cpu_seconds l) v = true) ∧
        (∀ v, wu_cpu_percent u = Some v → option_eq f64_eq (cpu_percent l) v = true) ∧
        (∀ v, wu_memory_bytes u = Some v → option_eq Z.eqb (memory_bytes l) v = true) ∧
        (∀ v, wu_max_processes u = Some v → option_eq Z.eqb (max_processes l) v = true) ∧
        (∀ v, wu_max_open_files u = Some v → option_eq Z.eqb (max_open_files l) v = true) ∧
        (∀ v, wu_disk_bytes u = Some v → option_eq Z.eqb (disk_bytes l) v = true))
  | (Err _, _) => is_ok (workspace_limits_validate (workspace_requested u l)) = false
  end.
Proof.
  unfold workspace_apply_update.
  destruct (set_field Z.eqb (wu_cpu_seconds u) (cpu_seconds l)) as [secs c1] eqn:E1.
  destruct (validate_optional_cpu (default None (wu_cpu_percent u))) as [[]|e] eqn:Ecpu.
  2:{ unfold workspace_limits_validate. apply is_ok_bind_false, optional_cpu_pick. by rewrite Ecpu. }
  destruct (set_field f64_eq (wu_cpu_percent u) (cpu_percent l)) as [cpu c2] eqn:E2.
  destruct (set_field Z.eqb (wu_memory_bytes u) (memory_bytes l)) as [mem c3] eqn:E3.
  destruct (set_field Z.eqb (wu_max_processes u) (max_processes l)) as [procs c4] eqn:E4.
  destruct (set_field Z.eqb (wu_max_open_files u) (max_open_files l)) as [files c5] eqn:E5.
  destruct (set_field Z.eqb (wu_disk_bytes u) (disk_bytes l)) as [disk c6] eqn:E6.
  assert (mkWsLimits secs cpu mem procs files disk = workspace_requested u l) as ->.
  { unfold workspace_requested.
    by rewrite <-(set_field_fst f64_eq), <-!(set_field_fst Z.eqb), E1, E2, E3, E4, E5, E6. }
  destruct (workspace_limits_validate (workspace_requested u l)) as [[]|] eqn:Ev; [|done].
  split_and!; [done..|]. rewrite !orb_false_iff.
  rewrite <-!(set_field_snd_false f64_eq), <-!(set_field_snd_false Z.eqb), E1, E2, E3, E4, E5, E6.
  cbn. tauto.
Qed.

(** Disk budgets on 64-bit sizes. *)
Lemma check_disk_budget_Ok l a r :
  check_disk_budget l a r = Ok tt ↔ ∀ budget, sb_disk_bytes l = Some budget → sat_add64 a r ≤ budget.
Proof.
  unfold check_disk_budget. destruct (sb_disk_bytes l) as [b|].
  - destruct (Z.ltb_spec b (sat_add64 a r)); split; try done.
    + intros H'. specialize (H' b eq_refl). lia.
    + intros _ b' [= <-]. lia.
  - by split.
Qed.

Lemma check_disk_budget_covers_Ok l a :
  check_disk_budget_covers l a = Ok tt ↔ ∀ budget, sb_disk_bytes l = Some budget → a ≤ budget.
Proof.
  unfold check_disk_budget_covers. destruct (sb_disk_bytes l) as [b|].
  - destruct (Z.ltb_spec b a); split; try done.
    + intros H'. specialize (H' b eq_refl). lia.
    + intros _ b' [= <-]. lia.
  - by split.
Qed.
