(* ===== verification/Registry.v ===== *)
(** * The registry (src/src/registry)

    The durable record of which sandboxes and workspaces exist: its schema
    migration, the file with its fingerprint cache, the read and the write
    transaction, and the resolution of selectors.

    A write transaction runs a closure that mutates the registry and may touch
    the rest of the host ([W]); when it fails, the registry it mutated is
    dropped and the host effects stay.  The file-and-cache implementation is
    shown to refine [transact], a cell holding one registry, and the lifecycle
    components are written against that cell. *)
From S2P Require Import Prelude FileStore Types.
Open Scope Z_scope.

(** ** Data (registry/mod.rs) *)

Definition REGISTRY_VERSION : Z := 1.

Record RegistrySandbox := mkEntry {
  metadata : SandboxMetadata;
  workspaces : gmap string WorkspaceMetadata }.

Record Registry := mkRegistry {
  version : Z;
  generation : Z;
  sandboxes : gmap string RegistrySandbox }.

Definition default_registry : Registry := mkRegistry REGISTRY_VERSION 0 ∅.

Definition with_version (v : Z) (r : Registry) : Registry := mkRegistry v (generation r) (sandboxes r).
Definition with_sandboxes (s : gmap string RegistrySandbox) (r : Registry) : Registry :=
  mkRegistry (version r) (generation r) s.
Definition bump_generation (r : Registry) : Registry :=
  mkRegistry (version r) (sat_add64 (generation r) 1) (sandboxes r).

(** ** Migration (registry/migrate.rs) *)

Record MigrationStep := mkStep { step_from : Z; step_to : Z }.

(** The [while] loop; [fuel] bounds the number of versions still to cross. *)
Fixpoint migrate_loop (fuel : nat) (r : Registry) (applied : list MigrationStep)
    : result (Registry * list MigrationStep) :=
  if version r <? REGISTRY_VERSION then
    match fuel with
    | O => bail "out of fuel"
    | S fuel' =>
        let from := version r in
        if from =? 0
        then migrate_loop fuel' (with_version (from + 1) r) (applied ++ [mkStep from (from + 1)])
        else bail "no migration from registry schema version"
    end
  else Ok (r, applied).

Definition migrate (r : Registry) : result (Registry * list MigrationStep) :=
  if REGISTRY_VERSION <? version r
  then bail "registry schema version is newer than this binary supports"
  else migrate_loop (Z.to_nat (REGISTRY_VERSION - version r)) r [].

(** ** Storage (registry/storage.rs, registry/mod.rs) *)

Definition validate_registry_version (v : Z) : result unit :=
  if REGISTRY_VERSION <? v
  then bail "registry schema version is newer than this binary supports" else Ok tt.

(** What one call finds on the host: whether each system call it may make
    succeeds, and the identity a written file gets. *)
Record registry_io := mkRegistryIo {
  rio_mkdir : bool;
  rio_stat : bool;
  rio_read : bool;
  rio_lock : bool;
  rio_cache_lock : bool;
  rio_init_write : option fingerprint;
  rio_init_synced : bool;
  rio_write : option fingerprint;
  rio_synced : bool;
  rio_unlock : bool }.

(** An operation on the first half of a pair of states. *)
Definition on_fst {S W A} (m : stm S A) : stm (S * W) A := λ st,
  let '(r, s') := m st.1 in (r, (s', st.2)).

Section storage.
Context {raw : Type} `{!Codec Registry raw}.
Abbreviation store := (fstore raw Registry).
Implicit Types (dir path : string) (h : registry_io).

Definition registry_path dir : string := dir +:+ "/registry.json".
Definition registry_lock_path dir : string := dir +:+ "/registry.lock".

Definition registry_fingerprint h path : stm store (option fingerprint) :=
  o ← gets (λ st, files st !! path);
  assert (rio_stat h) "failed to stat registry";;
  mret (meta <$> o).

Definition with_cached_registry {T} h path (operation : Registry → result T) : stm store (option T) :=
  o ← registry_fingerprint h path;
  match o with
  | None => mret None
  | Some fp =>
      assert (rio_cache_lock h) "registry cache lock poisoned";;
      hit ← gets (cache_hit path fp);
      match hit with
      | None => mret None
      | Some registry => lift (Some <$> operation registry)
      end
  end.

Definition update_cache h dir (registry : Registry) : stm store unit := λ st,
  match registry_fingerprint h (registry_path dir) st with
  | (Ok (Some fp), st') =>
      if rio_cache_lock h
      then (Ok tt, set_cache (Some (CacheEntry (registry_path dir) fp registry)) st')
      else (Ok tt, st')
  | (_, st') => (Ok tt, st')
  end.

(** The record a file's text stands for: parsed, checked and migrated. *)
Definition parse_registry (text : raw) : result (Registry * list MigrationStep) :=
  registry ← ok_or (decode text) (plain "invalid registry");
  _ ← validate_registry_version (version registry);
  with_context "failed to migrate registry" (migrate registry).

Definition load_registry_with_migrations h dir : stm store (Registry * list MigrationStep) :=
  o ← gets (λ st, files st !! registry_path dir);
  match o with
  | None => throw "failed to read registry"
  | Some f => assert (rio_read h) "failed to read registry";; lift (parse_registry (content f))
  end.

Definition load_registry_unlocked h dir : stm store Registry :=
  r ← load_registry_with_migrations h dir; mret r.1.

Definition save_registry_unlocked h dir (registry : Registry) : stm store unit :=
  assert (version registry =? REGISTRY_VERSION) "refusing to write registry schema version";;
  write_file_atomic (rio_write h) (rio_synced h) (registry_path dir) registry 384.

Definition ensure_registry h dir : stm store unit :=
  assert (rio_mkdir h) "failed to create state dir";;
  o ← gets (λ st, files st !! registry_path dir);
  match o with
  | Some _ => mret tt
  | None =>
      with_file_lock (rio_lock h) (rio_unlock h)
        (write_file_atomic (rio_init_write h) (rio_init_synced h) (registry_path dir) default_registry 384)
  end.

Definition with_registry {T} h dir (operation : Registry → result T) : stm store T :=
  ensure_registry h dir;;
  first ← with_cached_registry h (registry_path dir) operation;
  match first with
  | Some t => mret t
  | None =>
      with_file_lock (rio_lock h) (rio_unlock h)
        (again ← with_cached_registry h (registry_path dir) operation;
         match again with
         | Some t => mret t
         | None =>
             registry ← load_registry_unlocked h dir;
             t ← lift (operation registry);
             update_cache h dir registry;;
             mret t
         end)
  end.

(** The critical section of a write: run the closure on the loaded registry,
    then save and cache what it left. *)
Definition run_and_save {W T} h dir (operation : stm (Registry * W) T) (registry : Registry)
    : stm (store * W) T := λ st,
  match operation (registry, st.2) with
  | (Err e, (_, w)) => (Err e, (st.1, w))
  | (Ok out, (registry', w)) =>
      (on_fst (save_registry_unlocked h dir (bump_generation registry'));;
       on_fst (update_cache h dir (bump_generation registry'));;
       mret out) (st.1, w)
  end.

Definition with_registry_mut {W T} h dir (operation : stm (Registry * W) T) : stm (store * W) T :=
  on_fst (ensure_registry h dir);;
  with_file_lock (rio_lock h) (rio_unlock h)
    (registry ← on_fst (load_registry_unlocked h dir);
     run_and_save h dir operation registry).
End storage.

(** ** Selectors (sandbox/util/identity.rs, workspace/control/state/resolve.rs) *)

(** The shared shape of the two resolvers: an exact id wins, otherwise the one
    entry with that name. *)
Definition resolve_in {A} (named : A → string) (m : gmap string A) (selector : string)
    (not_found ambiguous : string) : result string :=
  if bool_decide (is_Some (m !! selector)) then Ok selector
  else
    match filter (λ p : string * A, named p.2 = selector) (btree_list m) with
    | [] => bail_coded NotFound not_found
    | [p] => Ok p.1
    | _ => bail_coded Conflict ambiguous
    end.

Definition resolve_sandbox_id (r : Registry) (selector : string) : result string :=
  resolve_in (λ e, sb_name (metadata e)) (sandboxes r) selector
    ("sandbox '" +:+ selector +:+ "' not found (by id or name)")
    ("sandbox name '" +:+ selector +:+ "' is ambiguous; use id instead").

Definition resolve_workspace_id (e : RegistrySandbox) (selector : string) : result string :=
  resolve_in name (workspaces e) selector
    ("workspace '" +:+ selector +:+ "' not found in sandbox '" +:+ sb_id (metadata e) +:+ "'")
    ("workspace name '" +:+ selector +:+ "' is ambiguous in sandbox '" +:+ sb_id (metadata e) +:+ "'").

(** ** The abstract registry cell *)

(** How the save of a transaction ended: the old registry is still in place, the
    new one is in place but an error was reported (the directory could not be
    synced after the rename, or the lock not released), or it was confirmed. *)
Inductive commit := Lost | Unconfirmed | Committed.
#[export] Instance commit_eq_dec : EqDecision commit.
Proof. solve_decision. Defined.

(** A write transaction on a cell: refused before it ran, failed in the closure,
    lost when it was saved, in place but reported failed, or committed, the last
    two under the next generation. *)
Definition transact {W T} (reachable : bool) (saved : commit) (operation : stm (Registry * W) T)
    : stm (Registry * W) T := λ st,
  if negb reachable then (bail "the registry cannot be read", st)
  else
    match operation st with
    | (Err e, (_, w)) => (Err e, (st.1, w))
    | (Ok out, (registry', w)) =>
        if negb (version registry' =? REGISTRY_VERSION) then (bail "failed to write registry", (st.1, w))
        else
          match saved with
          | Lost => (bail "failed to write registry", (st.1, w))
          | Unconfirmed => (bail "failed to confirm the registry write", (bump_generation registry', w))
          | Committed => (Ok out, (bump_generation registry', w))
          end
    end.

(** ** Migration facts *)

Lemma migrate_loop_current fuel r applied :
  version r = REGISTRY_VERSION → migrate_loop fuel r applied = Ok (r, applied).
Proof. intros Hv. destruct fuel; cbn; rewrite Hv; done. Qed.

Lemma migrate_current r : version r = REGISTRY_VERSION → migrate r = Ok (r, []).
Proof. intros Hv. unfold migrate. rewrite Hv. cbn. by rewrite migrate_loop_current. Qed.

Lemma with_version_self r : with_version (version r) r = r.
Proof. by destruct r. Qed.

(** Migration is total on every version up to the current one and touches
    nothing but the version: a record this binary can read comes out at the
    current version with its sandboxes and generation intact, one step per
    version crossed, a newer record is refused, and migrating again does
    nothing. *)
Theorem migrate_exact r :
  0 ≤ version r →
  match migrate r with
  | Ok (r', steps) =>
      version r ≤ REGISTRY_VERSION ∧ r' = with_version REGISTRY_VERSION r ∧
      steps = (if version r =? 0 then [mkStep 0 1] else []) ∧ migrate r' = Ok (r', [])
  | Err _ => REGISTRY_VERSION < version r
  end.
Proof.
  intros Hpos. destruct (decide (version r = 0)) as [H0|H0].
  { destruct r as [v g s]. cbn in H0. subst v. cbn. by split_and!. }
  destruct (decide (version r = REGISTRY_VERSION)) as [H1|H1].
  { rewrite migrate_current by done. destruct (Z.eqb_spec (version r) 0); [done|].
    split_and!; [lia| |done|by apply migrate_current]. by rewrite <-H1, with_version_self. }
  unfold migrate, REGISTRY_VERSION in *. destruct (Z.ltb_spec 1 (version r)); [cbn; lia|lia].
Qed.

Lemma migrate_exact_witness :
  let r := mkRegistry 0 7 ∅ in migrate r = Ok (mkRegistry 1 7 ∅, [mkStep 0 1]).
Proof.
  intros r. assert (H := migrate_exact r ltac:(done)).
  destruct (migrate r) as [[r' steps]|] eqn:E; [|by vm_compute in E].
  destruct H as (_ & -> & -> & _). reflexivity.
Defined.

(** ** The file and its cache refine the cell *)

Section refinement.
Context {raw W : Type} `{!Codec Registry raw}.
Abbreviation store := (fstore raw Registry).
Implicit Types (dir : string) (h : registry_io) (st : store).

Definition load (text : raw) : option Registry := fst <$> result_ok (parse_registry text).

(** The registry a state directory stands for; a missing file is the empty one. *)
Definition view dir st : option Registry :=
  match files st !! registry_path dir with
  | None => Some default_registry
  | Some f => load (content f)
  end.

Definition registry_coherent : store → Prop := coherent_by load.

(** Whatever the call writes gets an identity the cache has not seen. *)
Definition fresh_registry_io h dir st : Prop :=
  (∀ fp, rio_init_write h = Some fp → fresh_fp (registry_path dir) fp st) ∧
  (∀ fp, rio_write h = Some fp → fresh_fp (registry_path dir) fp st).

Definition registry_healthy h : Prop :=
  rio_mkdir h = true ∧ rio_stat h = true ∧ rio_read h = true ∧ rio_lock h = true ∧
  rio_cache_lock h = true ∧ is_Some (rio_init_write h) ∧ rio_init_synced h = true ∧
  is_Some (rio_write h) ∧ rio_synced h = true ∧ rio_unlock h = true.

Lemma load_current r : printable r → version r = REGISTRY_VERSION → load (encode r) = Some r.
Proof.
  intros Hp Hv. unfold load, parse_registry. rewrite decode_encode by done. cbn -[migrate].
  unfold validate_registry_version. rewrite Hv. cbn -[migrate]. by rewrite migrate_current.
Qed.

(** What [ensure_registry] leaves: the same view, a file when it succeeded, and
    an untouched cache slot. *)
Lemma ensure_registry_effect h dir st r st' :
  printable default_registry → fresh_registry_io h dir st →
  ensure_registry h dir st = (r, st') →
  (registry_coherent st → registry_coherent st') ∧ cache st' = cache st ∧
  view dir st' = view dir st ∧ (r = Ok tt → is_Some (files st' !! registry_path dir)) ∧
  (registry_healthy h → r = Ok tt).
Proof.
  intros Hpr [Hi _]. unfold ensure_registry, mbind, stm_bind. cbn.
  assert (∀ res, (registry_healthy h → res = Ok tt) → res ≠ Ok tt → (res, st) = (r, st') →
    (registry_coherent st → registry_coherent st') ∧ cache st' = cache st ∧
    view dir st' = view dir st ∧ (r = Ok tt → is_Some (files st' !! registry_path dir)) ∧
    (registry_healthy h → r = Ok tt)) as Hnone.
  { intros res Hh Hne [= <- <-]. by split_and!. }
  destruct (rio_mkdir h) eqn:Hm; [|apply Hnone; [by intros (?&_); congruence|done]]. cbn.
  destruct (files st !! registry_path dir) as [f|] eqn:Hf; cbn.
  { intros [= <- <-]. split_and!; [done..|by rewrite Hf|done]. }
  unfold with_file_lock. destruct (rio_lock h) eqn:Hl; cbn.
  2:{ apply Hnone; [by intros (?&?&?&?&_); congruence|done]. }
  unfold write_file_atomic, mbind, stm_bind. destruct (rio_init_write h) as [fp|] eqn:Hw; cbn.
  2:{ assert (registry_healthy h → False) by (intros (?&?&?&?&?&[? ?]&?); congruence).
      destruct (rio_unlock h); (apply Hnone; [by intros ?; exfalso; auto|done]). }
  clear Hnone.
  assert (∀ res : result unit, (registry_healthy h → res = Ok tt) →
    (res, write_file (registry_path dir) default_registry 384 fp st) = (r, st') →
    (registry_coherent st → registry_coherent st') ∧ cache st' = cache st ∧
    view dir st' = view dir st ∧ (r = Ok tt → is_Some (files st' !! registry_path dir)) ∧
    (registry_healthy h → r = Ok tt)) as Hany.
  { intros res Hh [= <- <-]. split_and!; try done.
    - intros Hc. apply coherent_set_file; [done|]. by apply Hi.
    - unfold view. cbn. rewrite lookup_insert_eq, Hf. by apply load_current.
    - intros _. cbn. rewrite lookup_insert_eq. by eexists. }
  destruct (rio_init_synced h) eqn:Hy; cbn; destruct (rio_unlock h) eqn:Hu; apply Hany;
    intros (?&?&?&?&?&?&?&?&?&?); congruence.
Qed.

Lemma load_unlocked_effect h dir f st :
  files st !! registry_path dir = Some f →
  (load_registry_unlocked h dir st).2 = st ∧
  (∀ r, (load_registry_unlocked h dir st).1 = Ok r → view dir st = Some r) ∧
  (∀ r, rio_read h = true → view dir st = Some r → (load_registry_unlocked h dir st).1 = Ok r).
Proof.
  intros Hf. unfold load_registry_unlocked, load_registry_with_migrations, mbind, stm_bind, view, load.
  cbn -[parse_registry]. rewrite Hf. cbn -[parse_registry].
  destruct (rio_read h); cbn -[parse_registry]; [|done].
  destruct (parse_registry (content f)) as [[r s]|e]; cbn; naive_solver.
Qed.

Lemma registry_cache_effect h dir r st :
  loaded load (registry_path dir) st = Some r →
  ∃ st', update_cache h dir r st = (Ok tt, st') ∧ files st' = files st ∧
    (registry_coherent st → registry_coherent st').
Proof.
  unfold update_cache, registry_fingerprint, mbind, stm_bind, loaded. cbn.
  destruct (files st !! registry_path dir) as [f|] eqn:Hf; [|done]. cbn. intros Hl.
  destruct (rio_stat h); cbn; [|by eexists].
  destruct (rio_cache_lock h); cbn; [|by eexists].
  eexists. split_and!; [done..|]. intros _. by apply coherent_set_cache.
Qed.

Lemma registry_save_effect h dir r st res st' :
  printable r → fresh_registry_io h dir st → save_registry_unlocked h dir r st = (res, st') →
  (registry_coherent st → registry_coherent st') ∧
  ((version r = REGISTRY_VERSION ∧ loaded load (registry_path dir) st' = Some r) ∨
   (is_ok res = false ∧ st' = st)) ∧
  (registry_healthy h → version r = REGISTRY_VERSION → res = Ok tt).
Proof.
  intros Hp [_ Hw]. unfold save_registry_unlocked, write_file_atomic, mbind, stm_bind.
  destruct (Z.eqb_spec (version r) REGISTRY_VERSION) as [Hv|Hv]; cbn.
  2:{ intros [= <- <-]. split_and!; [done|by right|]. intros ? ?. done. }
  destruct (rio_write h) as [fp|] eqn:Hfp; cbn.
  2:{ intros [= <- <-]. split_and!; [done|auto|]. intros (?&?&?&?&?&?&?&[? ?]&?). congruence. }
  intros H. assert (st' = write_file (registry_path dir) r 384 fp st) as ->.
  { by destruct (rio_synced h); injection H as <- <-. }
  split_and!.
  - intros; apply coherent_set_file; auto.
  - left. split; [done|]. unfold loaded. cbn. rewrite lookup_insert_eq. by apply load_current.
  - intros (?&?&?&?&?&?&?&?&Hy&?) _. rewrite Hy in H. by injection H as <-.
Qed.

Lemma view_loaded dir st r : loaded load (registry_path dir) st = Some r → view dir st = Some r.
Proof. unfold loaded, view. by destruct (files st !! registry_path dir). Qed.

Lemma run_and_save_effect {T} h dir (op : stm (Registry * W) T) r st w res st' w' :
  fresh_registry_io h dir st → view dir st = Some r →
  (∀ out r' w1, op (r, w) = (Ok out, (r', w1)) → printable (bump_generation r')) →
  run_and_save h dir op r (st, w) = (res, (st', w')) →
  (registry_coherent st → registry_coherent st') ∧
  ∃ saved res0 r', transact true saved op (r, w) = (res0, (r', w')) ∧
    result_ok res0 = result_ok res ∧ view dir st' = Some r' ∧
    (registry_healthy h → saved = Committed).
Proof.
  intros Hfr Hv Hpr. unfold run_and_save, transact. cbn -[save_registry_unlocked update_cache].
  destruct (op (r, w)) as [[out|e] [r1 w1]] eqn:Hop.
  2:{ intros [= <- <- <-]. split; [done|]. by exists Committed, (Err e), r. }
  specialize (Hpr out r1 w1 eq_refl). unfold mbind, stm_bind, on_fst.
  cbn -[save_registry_unlocked update_cache].
  destruct (save_registry_unlocked h dir (bump_generation r1) st) as [[[]|e] st1] eqn:Hs;
    apply registry_save_effect in Hs as (Hc1 & [[Hver Hl]|[Hno Hst]] & Hh); try done; cbn -[update_cache];
    try (assert (version r1 = REGISTRY_VERSION) as Hver1 by exact Hver).
  - destruct (registry_cache_effect h dir _ _ Hl) as (st2 & Hu & Hfs & Hc2).
    rewrite Hu. cbn. intros [= <- <- <-]. split; [auto|].
    exists Committed, (Ok out), (bump_generation r1). rewrite Hver1. cbn.
    split_and!; try done. apply view_loaded. unfold loaded. by rewrite Hfs.
  - intros [= <- <- <-]. split; [auto|].
    exists Unconfirmed, (bail "failed to confirm the registry write"), (bump_generation r1).
    rewrite Hver1. cbn. split_and!; try done; [by apply view_loaded|].
    intros Hg. by specialize (Hh Hg Hver).
  - subst st1. intros [= <- <- <-]. split; [auto|].
    destruct (Z.eqb_spec (version r1) REGISTRY_VERSION) as [Hver|Hver].
    + exists Lost, (bail "failed to write registry"), r. split_and!; try done.
      intros Hg. by specialize (Hh Hg Hver).
    + exists Committed, (bail "failed to write registry"), r. by split_and!.
Qed.

(** A transaction reported failed at the end is the same one unconfirmed. *)
Lemma transact_unconfirmed {T} saved (op : stm (Registry * W) T) (st st' : Registry * W) res :
  transact true saved op st = (res, st') →
  ∃ saved' e, transact true saved' op st = (Err e, st').
Proof.
  unfold transact. cbn. destruct (op st) as [[out|e] [r1 w1]].
  2:{ intros [= <- <-]. by exists Lost, e. }
  destruct (version r1 =? REGISTRY_VERSION); cbn.
  2:{ intros [= <- <-]. exists Lost. by eexists. }
  destruct saved; intros [= <- <-]; [exists Lost|exists Unconfirmed|exists Unconfirmed]; by eexists.
Qed.

(** C3: a write transaction through the lock, the file and the cache is one
    transaction on a cell holding one registry.  Whatever fails, the state
    directory stands for the registry before it or for the closure's result
    under the next generation, never for anything else.  A caller told Ok finds
    the closure's result there; one told an error may find either, since the
    directory sync and the unlock can fail after the rename.  On a healthy host
    nothing is refused, and the cache keeps agreeing with the file. *)
Theorem registry_write_refines_cell {T} h dir (op : stm (Registry * W) T) r st w res st' w' :
  printable default_registry → registry_coherent st → fresh_registry_io h dir st →
  view dir st = Some r →
  (∀ out r' w1, op (r, w) = (Ok out, (r', w1)) → printable (bump_generation r')) →
  with_registry_mut h dir op (st, w) = (res, (st', w')) →
  registry_coherent st' ∧
  ∃ reachable saved res0 r', transact reachable saved op (r, w) = (res0, (r', w')) ∧
    result_ok res0 = result_ok res ∧ view dir st' = Some r' ∧
    (is_ok res = true → reachable = true ∧ saved = Committed) ∧
    (registry_healthy h → reachable = true ∧ saved = Committed).
Proof.
  intros Hd Hc Hfr Hv Hpr. unfold with_registry_mut.
  unfold mbind at 1, stm_bind at 1, on_fst at 1. cbn [fst snd].
  destruct (ensure_registry h dir st) as [[[]|e] st1] eqn:He;
    apply ensure_registry_effect in He as (Hc1 & Hca & Hv1 & Hfile & Hok); try done.
  2:{ intros [= <- <- <-]. split; [auto|]. exists false, Lost, (bail "the registry cannot be read"), r.
      rewrite Hv1. split_and!; try done; intros Hh; by specialize (Hok Hh). }
  unfold with_file_lock. destruct (rio_lock h) eqn:Hl; cbn [negb].
  2:{ intros [= <- <- <-]. split; [auto|]. exists false, Lost, (bail "the registry cannot be read"), r.
      rewrite Hv1. split_and!; try done; intros (?&?&?&?&?); congruence. }
  destruct (Hfile eq_refl) as [f Hf]. unfold mbind, stm_bind, on_fst at 1. cbn [fst snd].
  destruct (load_unlocked_effect h dir f st1 Hf) as (Hst & Hld1 & Hld2).
  destruct (load_registry_unlocked h dir st1) as [[r1|e] st2]; cbn in Hst, Hld1, Hld2; subst st2.
  2:{ intros H. assert (is_ok res = false ∧ st' = st1 ∧ w' = w) as (Hres & -> & ->).
      { by destruct (rio_unlock h); injection H as <- <- <-. }
      split; [auto|]. exists false, Lost, (bail "the registry cannot be read"), r.
      rewrite Hv1. split_and!; try done; [by destruct res|congruence..|];
        intros (?&?&Hr&?); exfalso; by specialize (Hld2 r Hr ltac:(congruence)). }
  assert (r1 = r) as -> by (specialize (Hld1 r1 eq_refl); congruence).
  destruct (run_and_save h dir op r (st1, w)) as [res1 [st2 w2]] eqn:Hrun.
  apply run_and_save_effect in Hrun as (Hc2 & saved & res0 & r' & Ht & Hres & Hv2 & Hh);
    [|by destruct Hfr as [? ?]; split; intros fp Hfp; unfold fresh_fp; rewrite Hca; naive_solver|congruence|done].
  assert (registry_healthy h → rio_unlock h = true) as Hun by (unfold registry_healthy; tauto).
  destruct res1 as [out|e], res0 as [out0|e0]; try done.
  - assert (saved = Committed) as ->.
    { unfold transact in Ht. cbn in Ht. destruct (op (r, w)) as [[] []]; [|done].
      destruct (version _ =? _); [|done]. by destruct saved. }
    destruct (rio_unlock h); intros [= <- <- <-]; (split; [auto|]).
    + exists true, Committed, (Ok out0), r'. split_and!; [done|done|done|auto|auto].
    + destruct (transact_unconfirmed _ _ _ _ _ Ht) as (saved' & e & Ht').
      exists true, saved', (Err e), r'. split_and!; try done; intros Hg; by specialize (Hun Hg).
  - intros H. assert (is_ok res = false ∧ st' = st2 ∧ w' = w2) as (Hno & -> & ->).
    { by destruct (rio_unlock h); injection H as <- <- <-. }
    split; [auto|]. exists true, saved, (Err e0), r'. split_and!; try done; [by destruct res|congruence|auto].
Qed.

(** A lookup through the cache leaves the state alone, and a hit answers for the
    registry the file stands for. *)
Lemma with_cached_effect {T} h dir (op : Registry → result T) f st :
  registry_coherent st → files st !! registry_path dir = Some f →
  (with_cached_registry h (registry_path dir) op st).2 = st ∧
  match (with_cached_registry h (registry_path dir) op st).1 with
  | Ok (Some t) => ∃ r, view dir st = Some r ∧ op r = Ok t
  | Ok None => True
  | Err e => registry_healthy h → ∃ r, view dir st = Some r ∧ op r = Err e
  end.
Proof.
  intros Hc Hf. unfold with_cached_registry, registry_fingerprint, mbind, stm_bind. cbn.
  rewrite Hf. destruct (rio_stat h) eqn:Hs; cbn.
  2:{ split; [done|]. intros (?&?&_). congruence. }
  destruct (rio_cache_lock h) eqn:Hl; cbn.
  2:{ split; [done|]. intros (?&?&?&?&?&_). congruence. }
  destruct (cache_hit (registry_path dir) (meta f) st) as [r|] eqn:Hhit; cbn; [|done].
  assert (view dir st = Some r) by by eapply view_loaded, coherent_hit.
  destruct (op r) as [t|e] eqn:Ho; cbn; eauto.
Qed.

(** A read answers from the registry the state directory stands for, never
    from a stale cache: an answer is the closure's on that registry, on a healthy
    host there always is one, and reading changes neither that registry nor the
    cache's agreement with the file. *)
Theorem registry_read_is_current {T} h dir (op : Registry → result T) st res st' :
  printable default_registry → registry_coherent st → fresh_registry_io h dir st →
  with_registry h dir op st = (res, st') →
  registry_coherent st' ∧ view dir st' = view dir st ∧
  (∀ t, res = Ok t → ∃ r, view dir st = Some r ∧ op r = Ok t) ∧
  (∀ r, registry_healthy h → view dir st = Some r → res = op r).
Proof.
  intros Hd Hc Hfr. unfold with_registry, mbind at 1, stm_bind at 1.
  destruct (ensure_registry h dir st) as [[[]|e] st1] eqn:He;
    apply ensure_registry_effect in He as (Hc1 & Hca & Hv1 & Hfile & Hok); try done.
  2:{ intros [= <- <-]. split_and!; [auto..|done|]. intros r Hh. by specialize (Hok Hh). }
  destruct (Hfile eq_refl) as [f Hf]. specialize (Hc1 Hc).
  destruct (with_cached_effect h dir op f st1 Hc1 Hf) as [Hst Hres].
  unfold mbind at 1, stm_bind at 1.
  destruct (with_cached_registry h (registry_path dir) op st1) as [[[t|]|e] st2] eqn:Hcached;
    cbn in Hst, Hres; subst st2; rewrite <-Hv1.
  - intros [= <- <-]. destruct Hres as (r0 & Hr0 & Ho). split_and!; [done..| |].
    + intros t' [= <-]. eauto.
    + intros r _ Hr. congruence.
  - unfold with_file_lock. destruct (rio_lock h) eqn:Hl; cbn [negb].
    2:{ intros [= <- <-]. split_and!; [done..|]. intros r (?&?&?&?&_). congruence. }
    unfold mbind at 1, stm_bind at 1. rewrite Hcached. unfold mbind, stm_bind.
    assert (registry_healthy h → rio_unlock h = true) as Hun by (unfold registry_healthy; tauto).
    destruct (load_unlocked_effect h dir f st1 Hf) as (Hst & Hld1 & Hld2).
    destruct (load_registry_unlocked h dir st1) as [[r1|e] st2]; cbn in Hst, Hld1, Hld2; subst st2.
    + specialize (Hld1 r1 eq_refl). unfold lift at 1. destruct (op r1) as [t|e] eqn:Ho.
      2:{ intros [= <- <-]. split_and!; [done..|by destruct (rio_unlock h)|].
          intros r Hg Hr. rewrite (Hun Hg). congruence. }
      assert (loaded load (registry_path dir) st1 = Some r1) as Hlo.
      { unfold loaded, view in *. by rewrite Hf in *. }
      destruct (registry_cache_effect h dir _ _ Hlo) as (st2 & Hu & Hfs & Hc2). rewrite Hu. cbn.
      intros [= <- <-]. split_and!; [auto| | |].
      * unfold view. by rewrite Hfs.
      * destruct (rio_unlock h); [|done]. intros t' [= <-]. eauto.
      * intros r Hg Hr. rewrite (Hun Hg). congruence.
    + intros [= <- <-]. split_and!; [done..|by destruct (rio_unlock h)|]. intros r (?&?&Hr&_) Hv.
      by specialize (Hld2 r Hr Hv).
  - intros [= <- <-]. split_and!; [done..|]. intros r Hh Hr. destruct (Hres Hh) as (r0 & ? & ?). congruence.
Qed.
End refinement.

(** ** Selector resolution *)

Section resolve.
Context {A : Type} (named : A → string).
Implicit Types (m : gmap string A).

Lemma named_matches m selector k v :
  (k, v) ∈ filter (λ p : string * A, named p.2 = selector) (btree_list m) ↔
    m !! k = Some v ∧ named v = selector.
Proof. rewrite list_elem_of_filter, elem_of_btree_list. naive_solver. Qed.

Lemma named_matches_NoDup m selector :
  NoDup (filter (λ p : string * A, named p.2 = selector) (btree_list m)).
Proof. apply list.NoDup_filter. eapply NoDup_fmap_1. apply NoDup_btree_keys. Qed.

Lemma resolve_in_exact m selector nf amb :
  match resolve_in named m selector nf amb with
  | Ok k => ∃ v, m !! k = Some v ∧
      (k = selector ∨ m !! selector = None ∧ named v = selector ∧
         ∀ k' v', m !! k' = Some v' → named v' = selector → k' = k)
  | Err e =>
      m !! selector = None ∧
      ((code_of e = NotFound ∧ ∀ k v, m !! k = Some v → named v ≠ selector) ∨
       (code_of e = Conflict ∧ ∃ k1 k2 v1 v2, k1 ≠ k2 ∧ m !! k1 = Some v1 ∧ m !! k2 = Some v2 ∧
          named v1 = selector ∧ named v2 = selector))
  end.
Proof.
  unfold resolve_in. case_bool_decide as Hs.
  { destruct Hs as [v Hv]. exists v. auto. }
  apply eq_None_not_Some in Hs. pose proof (named_matches m selector) as Hm.
  pose proof (named_matches_NoDup m selector) as Hnd.
  destruct (filter _ (btree_list m)) as [|[k1 v1] [|[k2 v2] l]].
  - split; [done|]. left. split; [done|]. intros k v Hk Hn.
    by apply (not_elem_of_nil (k, v)), Hm.
  - cbn. destruct (proj1 (Hm k1 v1)) as [? ?]; [by apply list_elem_of_singleton|].
    exists v1. split; [done|]. right. split_and!; [done..|]. intros k' v' Hk' Hn'.
    assert ((k', v') ∈ [(k1, v1)]) as Hin by by apply Hm.
    apply list_elem_of_singleton in Hin. congruence.
  - split; [done|]. right. split; [done|].
    destruct (proj1 (Hm k1 v1)) as [? ?]; [by left|].
    destruct (proj1 (Hm k2 v2)) as [? ?]; [by right; left|].
    exists k1, k2, v1, v2. split_and!; [|done..]. intros ->.
    apply list.NoDup_cons in Hnd as [Hnot _]. apply Hnot. assert (v1 = v2) as -> by congruence. by left.
Qed.

Lemma resolve_in_key m selector nf amb k :
  resolve_in named m selector nf amb = Ok k → is_Some (m !! k).
Proof.
  intros H. pose proof (resolve_in_exact m selector nf amb) as Hx. rewrite H in Hx.
  destruct Hx as (v & ? & _). by exists v.
Qed.
End resolve.

(** A selector names a workspace by its id first, otherwise by its name; a
    name two workspaces share is a conflict and is never guessed, and one nobody
    has is not found. *)
Theorem resolve_workspace_exact e selector :
  match resolve_workspace_id e selector with
  | Ok k => ∃ w, workspaces e !! k = Some w ∧
      (k = selector ∨ workspaces e !! selector = None ∧ name w = selector ∧
         ∀ k' w', workspaces e !! k' = Some w' → name w' = selector → k' = k)
  | Err err =>
      workspaces e !! selector = None ∧
      ((code_of err = NotFound ∧ ∀ k w, workspaces e !! k = Some w → name w ≠ selector) ∨
       (code_of err = Conflict ∧ ∃ k1 k2 w1 w2, k1 ≠ k2 ∧
          workspaces e !! k1 = Some w1 ∧ workspaces e !! k2 = Some w2 ∧
          name w1 = selector ∧ name w2 = selector))
  end.
Proof. apply resolve_in_exact. Qed.

(** A resolved selector is a key of the map it was resolved in. *)
Lemma resolve_workspace_key e selector k :
  resolve_workspace_id e selector = Ok k → is_Some (workspaces e !! k).
Proof. apply resolve_in_key. Qed.
Lemma resolve_sandbox_key r selector k :
  resolve_sandbox_id r selector = Ok k → is_Some (sandboxes r !! k).
Proof. apply resolve_in_key. Qed.

(** ** Concrete runs *)

Definition registry_fp (n : Z) : fingerprint := Fingerprint 1 n 100 1700000000 0.
Definition sample_registry_io : registry_io :=
  mkRegistryIo true true true true true (Some (registry_fp 8)) true (Some (registry_fp 9)) true true.

(** A directory whose file was written by a release with schema version 0. *)
Definition sample_registry_store : fstore Registry Registry :=
  FStore {["/s/registry.json" := File (mkRegistry 0 4 ∅) (registry_fp 1) 384]} None.

Definition touch : stm (Registry * unit) Z := λ st, (Ok (generation st.1), st).

Lemma sample_registry_coherent :
  registry_coherent (Codec0 := identity_codec Registry) sample_registry_store.
Proof. by intros e f. Qed.
Lemma sample_registry_fresh : fresh_registry_io sample_registry_io "/s" sample_registry_store.
Proof. by split. Qed.
Lemma sample_registry_healthy : registry_healthy sample_registry_io.
Proof. by split_and!. Qed.

Lemma registry_write_refines_cell_witness :
  let st' := (with_registry_mut (Codec0 := identity_codec Registry) sample_registry_io "/s" touch
                (sample_registry_store, tt)).2.1 in
  view (Codec0 := identity_codec Registry) "/s" st' = Some (mkRegistry 1 5 ∅).
Proof.
  intros st'.
  destruct (registry_write_refines_cell (Codec0 := identity_codec Registry) sample_registry_io "/s" touch
    (mkRegistry 1 4 ∅) sample_registry_store tt (Ok 4) st' tt)
    as (_ & reachable & saved & res0 & r' & Ht & _ & Hv & _ & Hh);
    [done|apply sample_registry_coherent|apply sample_registry_fresh|by vm_compute|done|by vm_compute|].
  destruct (Hh sample_registry_healthy) as [-> ->]. injection Ht as <- <-. exact Hv.
Defined.

Lemma registry_read_is_current_witness :
  (with_registry (Codec0 := identity_codec Registry) sample_registry_io "/s"
     (λ r, Ok (version r)) sample_registry_store).1 = Ok 1.
Proof.
  destruct (with_registry (Codec0 := identity_codec Registry) sample_registry_io "/s"
     (λ r, Ok (version r)) sample_registry_store) as [res st'] eqn:E.
  destruct (registry_read_is_current (Codec0 := identity_codec Registry) sample_registry_io "/s"
    (λ r, Ok (version r)) sample_registry_store res st') as (_ & _ & _ & H);
    [done|apply sample_registry_coherent|apply sample_registry_fresh|exact E|].
  exact (H (mkRegistry 1 4 ∅) sample_registry_healthy eq_refl).
Defined.
