(* ===== verification/Records.v ===== *)
(** * Lifecycle records

    What the lifecycle operations share (src/src/workspace/control/state,
    src/src/workspace/control/query.rs, src/src/workspace/create/mod.rs): the
    registry together with the rest of the host, one registry transaction as
    an operation sees it, the record updates, and the queries the operations
    decide by.

    An operation is a sequence of transactions; between two of them other
    requests run.  [before] is what they did, so a statement that quantifies
    over it covers every interleaving. *)
From S2P Require Import Prelude RustStr Ipam Ports Types Registry.
Open Scope Z_scope.

(** The durable copies of the records, and the sessions that are running. *)
Record Host := mkHost {
  workspace_json : gmap string WorkspaceMetadata;
  sandbox_json : gmap string SandboxMetadata;
  sessions : gset Z }.

Abbreviation world := (Registry * Host)%type.

Record txn_host := mkTxn {
  before : world → world;
  reachable : bool;
  saved : commit }.

(** [with_registry_mut], as the cell the file store refines. *)
Definition write_txn {T} (t : txn_host) (op : stm world T) : stm world T := λ st,
  transact (reachable t) (saved t) op (before t st).

(** [with_registry] *)
Definition read_txn {T} (t : txn_host) (op : Registry → result T) : stm world T := λ st,
  let st' := before t st in
  (if reachable t then op st'.1 else bail "the registry cannot be read", st').

(** [let _ = ..]: the outcome is dropped, the effects stay. *)
Definition ignore {S A} (m : stm S A) : stm S unit := λ st, (Ok tt, (m st).2).

(** [match .. { Ok(a) => .., Err(error) => .. }] *)
Definition on_error {S A} (m : stm S A) (handler : error → stm S A) : stm S A := λ st,
  match m st with
  | (Ok a, st') => (Ok a, st')
  | (Err e, st') => handler e st'
  end.

(** ** Access to records *)

Definition not_found (what : string) {A} : result A := bail (what +:+ " not found").

Definition find_workspace (r : Registry) (sid wid : string) : option WorkspaceMetadata :=
  e ← sandboxes r !! sid; workspaces e !! wid.

Definition set_workspace (sid wid : string) (w : WorkspaceMetadata) (r : Registry) : Registry :=
  with_sandboxes (alter (λ e, mkEntry (metadata e) (<[wid := w]> (workspaces e))) sid (sandboxes r)) r.
Definition remove_workspace_record (sid wid : string) (r : Registry) : Registry :=
  with_sandboxes (alter (λ e, mkEntry (metadata e) (delete wid (workspaces e))) sid (sandboxes r)) r.
Definition set_metadata (sid : string) (m : SandboxMetadata) (r : Registry) : Registry :=
  with_sandboxes (alter (λ e, mkEntry m (workspaces e)) sid (sandboxes r)) r.

Definition on_registry (f : Registry → Registry) : stm world unit := modify (λ st, (f st.1, st.2)).
Definition get_sandbox (sid : string) : stm world RegistrySandbox :=
  r ← get; lift (ok_or (sandboxes r.1 !! sid) (plain ("sandbox '" +:+ sid +:+ "' not found"))).
Definition get_workspace (sid wid : string) : stm world WorkspaceMetadata :=
  r ← get; lift (ok_or (find_workspace r.1 sid wid) (plain ("workspace '" +:+ wid +:+ "' not found"))).
Definition put_workspace (sid wid : string) (w : WorkspaceMetadata) : stm world unit :=
  on_registry (set_workspace sid wid w).

(** ** Writing a record (workspace/control/state/record.rs) *)

Definition persist_workspace_metadata (ok : bool) (w : WorkspaceMetadata) : stm world unit :=
  assert ok "failed to persist workspace metadata";;
  modify (λ st, (st.1, mkHost (<[workspace_path w +:+ "/workspace.json" := w]> (workspace_json st.2))
                         (sandbox_json st.2) (sessions st.2))).

Definition persist_sandbox_metadata (ok : bool) (m : SandboxMetadata) : stm world unit :=
  assert ok "failed to write sandbox metadata";;
  modify (λ st, (st.1, mkHost (workspace_json st.2)
                         (<[sandbox_path m +:+ "/sandbox.json" := m]> (sandbox_json st.2)) (sessions st.2))).

(** What a call to stop a session comes to: what it reports, and whether the
    session has ended.  The two are independent: a failed stop may have ended
    the session, and the stop also answers Ok for a record it takes for stale, or
    a process it cannot read or does not own, which it leaves running
    (session/stop.rs, modelled in [Sessions]). *)
Record stop_answer := mkStopAnswer { sa_ok : bool; sa_ended : bool }.

(** [session::stop_session] *)
Definition stop_session (a : stop_answer) (pid : Z) : stm world unit :=
  modify (λ st, (st.1, mkHost (workspace_json st.2) (sandbox_json st.2)
                         (if sa_ended a then sessions st.2 ∖ {[pid]} else sessions st.2)));;
  assert (sa_ok a) "failed to stop session".

(** The stop said so, and it was so. *)
Definition truthful (a : stop_answer) : Prop := sa_ok a = true → sa_ended a = true.
Definition ended : stop_answer := mkStopAnswer true true.

(** [resolve_namespace_ref_path]: both branches answer the path below the
    workspace. *)
Definition resolve_namespace_ref_path (w : WorkspaceMetadata) (configured default_name : string) : string :=
  let default_path := workspace_path w +:+ "/ns/" +:+ default_name in
  if bool_decide (configured = "") || bool_decide (configured = "unassigned") then default_path
  else default_path.

Definition namespace_ref_paths (w : WorkspaceMetadata) : string * string :=
  (resolve_namespace_ref_path w (refs_mount (namespace_refs w)) "mnt.ref",
   resolve_namespace_ref_path w (refs_pid (namespace_refs w)) "pid.ref").

Definition normalize_namespace_ref_paths (w : WorkspaceMetadata) : WorkspaceMetadata :=
  let '(mount, pid) := namespace_ref_paths w in
  with_runtime (status w) (runtime_pid w) (runtime_starttime_ticks w) (assigned_ip w)
    (mkRefs mount pid) (last_stopped_at w) (sandbox_rootfs_path w) w.

(** What a stop finds on the host: whether the release of the workspace's
    resources succeeds, whether its verification is complete, whether the
    record can be written, and the clock. *)
Record stop_host := mkStop {
  st_cleanup : bool;
  st_certificate : bool;
  st_persist : bool;
  st_now : string }.

(** The record of a stopped workspace. *)
Definition stopped_record (now : string) (w : WorkspaceMetadata) : WorkspaceMetadata :=
  with_runtime Stopped None None None default_refs (Some now) (sandbox_rootfs_path w) w.

Definition mark_workspace_stopped (h : stop_host) (sid wid : string) : stm world unit :=
  w ← get_workspace sid wid;
  let w' := stopped_record (st_now h) w in
  put_workspace sid wid w';;
  persist_workspace_metadata (st_persist h) w'.

Definition commit_workspace_stopped (h : stop_host) (sid wid : string) : stm world unit :=
  get_workspace sid wid;;
  mark_workspace_stopped h sid wid;;
  assert (st_certificate h) "workspace cleanup is incomplete".

Definition set_workspace_stopped (h : stop_host) (sid wid : string) : stm world unit :=
  get_workspace sid wid;;
  assert (st_cleanup h) "workspace cleanup failed";;
  commit_workspace_stopped h sid wid.

(** ** What a sandbox and the fleet hold *)

(** [sandbox.workspaces.values().filter_map(|w| w.limits.disk_bytes).fold(0, saturating_add)] *)
Definition disk_total (l : list WorkspaceMetadata) : Z :=
  foldl sat_add64 0 (omap (λ w, disk_bytes (limits w)) l).

Definition sandbox_workspace_disk_bytes (e : RegistrySandbox) : Z :=
  disk_total (btree_values (workspaces e)).
Definition sandbox_workspace_disk_bytes_excluding (e : RegistrySandbox) (wid : string) : Z :=
  disk_total (filter (λ w, id w ≠ wid) (btree_values (workspaces e))).

Definition fleet (r : Registry) : list WorkspaceMetadata :=
  btree_values (sandboxes r) ≫= λ e, btree_values (workspaces e).

(** [collect_all_used_ip_octets]; [others] are the octets the bridge shows
    other daemons holding. *)
Definition collect_all_used_ip_octets (others : gset Z) (r : Registry) : gset Z :=
  collect_used_ips (omap assigned_ip (fleet r)) ∪ others.

Definition occupies (w : WorkspaceMetadata) : bool :=
  match status w with Starting | Running => true | _ => false end.
Definition occupies_slot (wid : string) (w : WorkspaceMetadata) : bool :=
  negb (bool_decide (id w = wid)) && occupies w.

Definition count_slots (wid : string) (l : list WorkspaceMetadata) : Z :=
  Z.of_nat (length (filter (λ w, occupies_slot wid w = true) l)).

(** [ensure_start_capacity]; [daemon_max] is the configured daemon-wide limit. *)
Definition ensure_start_capacity (daemon_max : option Z) (r : Registry) (sid wid : string) : result unit :=
  e ← ok_or (sandboxes r !! sid) (plain ("sandbox '" +:+ sid +:+ "' not found"));
  _ ← match max_running_workspaces (sb_limits (metadata e)) with
      | Some limit =>
          if limit <=? count_slots wid (btree_values (workspaces e))
          then bail_coded Conflict "sandbox is at its running-workspace limit" else Ok tt
      | None => Ok tt
      end;
  match daemon_max with
  | Some limit =>
      if limit <=? count_slots wid (fleet r)
      then bail_coded Conflict "the daemon is at its running-workspace limit" else Ok tt
  | None => Ok tt
  end.

Definition effective_rootfs_path (m : SandboxMetadata) : string :=
  if sandbox_is_active (sb_status m) && negb (bool_decide (mounted_rootfs_path m = ""))
  then mounted_rootfs_path m else rootfs_path m.

Definition normalize_sandbox_metadata (m : SandboxMetadata) : SandboxMetadata :=
  let dir := sandbox_path m in
  let or_default (s d : string) := if bool_decide (s = "") then d else s in
  mkSandbox (sb_id m) (sb_name m) (suite m) (mirror m) (bootstrap_method m) (sb_created_at m)
    (sandbox_path m) (rootfs_path m) (rootfs_lower_path m)
    (or_default (mounted_rootfs_path m) (dir +:+ "/runtime/rootfs.mnt"))
    (or_default (workspaces_path m) (dir +:+ "/workspaces"))
    (or_default (home_base_path m) (dir +:+ "/home-base"))
    (sb_limits m) (sb_status m).

(** ** Queries (workspace/control/query.rs) *)

Definition sandbox_of (r : Registry) (selector : string) : result (string * RegistrySandbox) :=
  sid ← resolve_sandbox_id r selector;
  e ← ok_or (sandboxes r !! sid) (plain ("sandbox '" +:+ sid +:+ "' not found"));
  Ok (sid, e).

Definition workspace_of (r : Registry) (sandbox_selector workspace_selector : string)
    : result (string * string * RegistrySandbox * WorkspaceMetadata) :=
  p ← sandbox_of r sandbox_selector;
  wid ← resolve_workspace_id p.2 workspace_selector;
  w ← ok_or (workspaces p.2 !! wid) (plain ("workspace '" +:+ wid +:+ "' not found"));
  Ok (p.1, wid, p.2, w).

Definition workspace_metadata (r : Registry) (sandbox_selector workspace_selector : string)
    : result WorkspaceMetadata :=
  snd <$> workspace_of r sandbox_selector workspace_selector.

(** [sort_by], stable: an element goes before the later ones it does not
    exceed. *)
Fixpoint insert_by {A} (le : A → A → bool) (x : A) (l : list A) : list A :=
  match l with
  | [] => [x]
  | y :: l' => if le x y then x :: y :: l' else y :: insert_by le x l'
  end.
Definition sort_by {A} (le : A → A → bool) (l : list A) : list A := foldr (insert_by le) [] l.
Definition str_le (a b : string) : bool := bool_decide (String.le a b).

Definition list_workspaces (r : Registry) (selector : option string) : result (list WorkspaceMetadata) :=
  l ← match selector with
      | Some s => p ← sandbox_of r s; Ok (btree_values (workspaces p.2))
      | None => Ok (fleet r)
      end;
  Ok (sort_by (λ a b, str_le (created_at a) (created_at b)) l).

Definition list_workspace_items (r : Registry) (selector : string)
    : result (list (string * string * WorkspaceStatus)) :=
  p ← sandbox_of r selector;
  Ok (sort_by (λ a b, str_le a.1.1 b.1.1)
        ((λ w, (id w, name w, status w)) <$> btree_values (workspaces p.2))).

(** ** Sorting is a sorted permutation *)

Section sorting.
Context {A : Type} (le : A → A → bool).
Hypothesis le_total : ∀ x y, le x y = true ∨ le y x = true.
Hypothesis le_trans : ∀ x y z, le x y = true → le y z = true → le x z = true.

Lemma insert_by_perm x l : insert_by le x l ≡ₚ x :: l.
Proof. induction l as [|y l IH]; cbn; [done|]. destruct (le x y); [done|]. rewrite IH. apply perm_swap. Qed.
Lemma sort_by_perm l : sort_by le l ≡ₚ l.
Proof. induction l as [|x l IH]; cbn; [done|]. by rewrite insert_by_perm, IH. Qed.

Lemma insert_by_sorted x l :
  StronglySorted (λ a b, le a b = true) l → StronglySorted (λ a b, le a b = true) (insert_by le x l).
Proof.
  induction 1 as [|y l Hl IH Hy]; cbn; [repeat constructor|]. destruct (le x y) eqn:E.
  - constructor; [by constructor|]. apply list.Forall_cons. split; [done|].
    eapply list.Forall_impl; [exact Hy|]. intros z Hz. cbn in *. eauto.
  - constructor; [done|]. apply list.Forall_forall. intros z. rewrite insert_by_perm, elem_of_cons.
    intros [->|Hz]; [by destruct (le_total x y); [congruence|]|]. rewrite list.Forall_forall in Hy. auto.
Qed.
Lemma sort_by_sorted l : StronglySorted (λ a b, le a b = true) (sort_by le l).
Proof. induction l; cbn; [constructor|by apply insert_by_sorted]. Qed.
End sorting.

Lemma str_le_total a b : str_le a b = true ∨ str_le b a = true.
Proof. unfold str_le. rewrite !bool_decide_eq_true. apply (total String.le). Qed.
Lemma str_le_trans a b c : str_le a b = true → str_le b c = true → str_le a c = true.
Proof. unfold str_le. rewrite !bool_decide_eq_true. apply (transitivity (R := String.le)). Qed.
