(* ===== verification/Fleet.v ===== *)
(** * What the registry promises about the fleet

    The changes a registry transaction may make, as an abstract step relation
    with the guards the code checks, and the invariant every such step keeps:
    records sit under their own ids, names are unique in a sandbox, no sandbox
    holds more disk than its budget and, in the strict reading, no two workspaces
    hold the same address. *)
From S2P Require Import Prelude Ipam Ports Types Registry Records.
Open Scope Z_scope.

(** ** Lookups after an update *)

Lemma find_set_workspace sid wid w r sid' wid' :
  find_workspace (set_workspace sid wid w r) sid' wid' =
    if decide (sid' = sid ∧ wid' = wid ∧ is_Some (sandboxes r !! sid))
    then Some w else find_workspace r sid' wid'.
Proof.
  unfold find_workspace, set_workspace. cbn. destruct (decide (sid' = sid)) as [->|Hne].
  - rewrite lookup_alter_eq. destruct (sandboxes r !! sid) as [e|] eqn:He; cbn.
    + destruct (decide (wid' = wid)) as [->|Hw].
      * rewrite lookup_insert_eq. by rewrite decide_True by done.
      * rewrite lookup_insert_ne by done. by rewrite decide_False by naive_solver.
    + rewrite decide_False; [done|]. intros (_ & _ & [? ?]). done.
  - rewrite lookup_alter_ne by done. by rewrite decide_False by naive_solver.
Qed.

Lemma find_remove_workspace sid wid r sid' wid' w :
  find_workspace (remove_workspace_record sid wid r) sid' wid' = Some w →
  find_workspace r sid' wid' = Some w.
Proof.
  unfold find_workspace, remove_workspace_record. cbn. destruct (decide (sid' = sid)) as [->|Hne].
  - rewrite lookup_alter_eq. destruct (sandboxes r !! sid); cbn; [|done].
    intros [_ ?]%lookup_delete_Some. done.
  - by rewrite lookup_alter_ne by done.
Qed.

Lemma find_set_metadata sid m r sid' wid' :
  find_workspace (set_metadata sid m r) sid' wid' = find_workspace r sid' wid'.
Proof.
  unfold find_workspace, set_metadata. cbn. destruct (decide (sid' = sid)) as [->|Hne].
  - rewrite lookup_alter_eq. by destruct (sandboxes r !! sid).
  - by rewrite lookup_alter_ne by done.
Qed.

Lemma find_workspace_Some r sid wid w :
  find_workspace r sid wid = Some w ↔ ∃ e, sandboxes r !! sid = Some e ∧ workspaces e !! wid = Some w.
Proof. unfold find_workspace. apply bind_Some. Qed.

Lemma find_workspace_bump r sid wid :
  find_workspace (bump_generation r) sid wid = find_workspace r sid wid.
Proof. done. Qed.

Lemma elem_of_fleet r w : w ∈ fleet r ↔ ∃ sid wid, find_workspace r sid wid = Some w.
Proof.
  unfold fleet. rewrite list_elem_of_bind. setoid_rewrite elem_of_btree_values. split.
  - intros (e & [wid Hw] & [sid He]). exists sid, wid. apply find_workspace_Some. eauto.
  - intros (sid & wid & (e & He & Hw)%find_workspace_Some). eauto 10.
Qed.

(** ** Disk totals *)

Definition disk_of (w : WorkspaceMetadata) : Z := default 0 (disk_bytes (limits w)).
Definition disk_nat (w : WorkspaceMetadata) : nat := Z.to_nat (disk_of w).

Lemma disk_total_sum_from a l :
  0 ≤ a ≤ u64_max → Forall (λ w, 0 ≤ disk_of w) l →
  foldl sat_add64 a (omap (λ w, disk_bytes (limits w)) l)
    = Z.min (a + Z.of_nat (sum_list_with disk_nat l)) u64_max.
Proof.
  revert a. induction l as [|w l IH]; intros a Ha Hl; cbn.
  { rewrite Z.add_0_r. lia. }
  apply list.Forall_cons in Hl as [Hw Hl]. unfold disk_of in Hw.
  assert (disk_nat w = Z.to_nat (default 0 (disk_bytes (limits w)))) as -> by done.
  destruct (disk_bytes (limits w)) as [d|]; cbn in Hw |- *.
  - rewrite IH; [|unfold sat_add64, u64_max in *; lia|done]. unfold sat_add64, u64_max. lia.
  - rewrite IH by done. lia.
Qed.

Lemma disk_total_sum l :
  Forall (λ w, 0 ≤ disk_of w) l → disk_total l = Z.min (Z.of_nat (sum_list_with disk_nat l)) u64_max.
Proof. intros Hl. unfold disk_total. rewrite disk_total_sum_from by (done || unfold u64_max; lia). done. Qed.

Lemma sum_list_with_perm {A} (f : A → nat) l l' :
  l ≡ₚ l' → sum_list_with f l = sum_list_with f l'.
Proof. induction 1; cbn; lia. Qed.

Lemma msum_values {A} (f : A → nat) (m : gmap string A) : msum f m = sum_list_with f (btree_values m).
Proof.
  unfold btree_values, msum.
  rewrite (sum_list_with_perm f _ ((map_to_list m).*2)) by by rewrite btree_list_perm.
  rewrite map_fold_foldr. induction (map_to_list m) as [|[k x] l IH]; cbn; [done|by rewrite IH].
Qed.

Definition disks_ok (e : RegistrySandbox) : Prop :=
  ∀ wid w, workspaces e !! wid = Some w → 0 ≤ disk_of w.
Definition ids_ok (e : RegistrySandbox) : Prop :=
  ∀ wid w, workspaces e !! wid = Some w → id w = wid.

Lemma values_disks_ok (m : gmap string WorkspaceMetadata) :
  (∀ wid w, m !! wid = Some w → 0 ≤ disk_of w) → Forall (λ w, 0 ≤ disk_of w) (btree_values m).
Proof. intros H. apply list.Forall_forall. intros w [wid Hw]%elem_of_btree_values. eauto. Qed.

Lemma sandbox_disk_sum e :
  disks_ok e →
  sandbox_workspace_disk_bytes e = Z.min (Z.of_nat (msum disk_nat (workspaces e))) u64_max.
Proof.
  intros H. unfold sandbox_workspace_disk_bytes.
  by rewrite disk_total_sum, msum_values by by apply values_disks_ok.
Qed.

Lemma sum_filter_delete (m : gmap string WorkspaceMetadata) wid :
  (∀ k w, m !! k = Some w → id w = k) →
  sum_list_with disk_nat (filter (λ w, id w ≠ wid) (btree_values m)) = msum disk_nat (delete wid m).
Proof.
  intros Hids. unfold btree_values.
  assert (∀ l : list (string * WorkspaceMetadata), (∀ k w, (k, w) ∈ l → id w = k) →
    sum_list_with disk_nat (filter (λ w, id w ≠ wid) l.*2)
      = sum_list_with disk_nat (filter (λ p, p.1 ≠ wid) l).*2) as Hl.
  { induction l as [|[k w] l IH]; intros Hin; [done|]. cbn [fmap list_fmap snd fst].
    rewrite !filter_cons. cbn [fst].
    assert (id w = k) as -> by (apply Hin; left).
    rewrite decide_bool_decide. case_bool_decide; case_decide; try done; cbn; rewrite IH; try done;
      intros; apply Hin; by right. }
  rewrite Hl by (intros k w Hin; apply Hids; by apply elem_of_btree_list).
  rewrite (sum_list_with_perm _ _ ((filter (λ p, p.1 ≠ wid) (map_to_list m)).*2))
    by by rewrite btree_list_perm.
  rewrite msum_values. unfold btree_values.
  rewrite (sum_list_with_perm _ (btree_list (delete wid m)).*2 ((map_to_list (delete wid m)).*2))
    by by rewrite btree_list_perm.
  apply sum_list_with_perm, fmap_Permutation, NoDup_Permutation.
  - apply list.NoDup_filter, NoDup_map_to_list.
  - apply NoDup_map_to_list.
  - intros [k w]. rewrite list_elem_of_filter, !elem_of_map_to_list, lookup_delete_Some. naive_solver.
Qed.

Lemma sandbox_disk_sum_excluding e wid :
  disks_ok e → ids_ok e →
  sandbox_workspace_disk_bytes_excluding e wid
    = Z.min (Z.of_nat (msum disk_nat (delete wid (workspaces e)))) u64_max.
Proof.
  intros Hd Hi. unfold sandbox_workspace_disk_bytes_excluding.
  rewrite disk_total_sum, sum_filter_delete; [done|done|].
  apply list.Forall_forall. intros w [_ [k Hk]%elem_of_btree_values]%list_elem_of_filter. eauto.
Qed.

(** ** The abstract steps *)

(** The address of a workspace, as the octet it occupies in the pool. *)
Definition octet_of (w : WorkspaceMetadata) : option Z := assigned_ip w ≫= parse_host_octet.

(** What no update but a resize changes of a record. *)
Definition same_identity (w w' : WorkspaceMetadata) : Prop :=
  id w' = id w ∧ name w' = name w.

(** Two readings of the steps and of the invariant.  The strict one also promises
    that addresses are distinct, and asks of a step that it invents none; the
    other makes no promise about addresses and asks nothing of them. *)
Class Mode := strict : bool.

Inductive fleet_step {M : Mode} : Registry → Registry → Prop :=
  | step_edit r sid wid w w' :
      find_workspace r sid wid = Some w → same_identity w w' →
      disk_bytes (limits w') = disk_bytes (limits w) →
      (strict = true → assigned_ip w' = assigned_ip w ∨ assigned_ip w' = None) →
      fleet_step r (set_workspace sid wid w' r)
  | step_reserve r sid wid w w' ip o :
      find_workspace r sid wid = Some w → same_identity w w' →
      disk_bytes (limits w') = disk_bytes (limits w) →
      assigned_ip w' = Some ip → parse_host_octet ip = Some o →
      (∀ u, u ∈ fleet r → octet_of u ≠ Some o) →
      fleet_step r (set_workspace sid wid w' r)
  | step_resize r sid wid e w w' n :
      sandboxes r !! sid = Some e → workspaces e !! wid = Some w → same_identity w w' →
      assigned_ip w' = assigned_ip w → disk_bytes (limits w') = Some n → 0 ≤ n →
      (disk_of w < n →
        check_disk_budget (sb_limits (metadata e)) (sandbox_workspace_disk_bytes_excluding e wid) n = Ok tt) →
      fleet_step r (set_workspace sid wid w' r)
  | step_create r sid e w :
      sandboxes r !! sid = Some e → assigned_ip w = None → 0 ≤ disk_of w →
      check_disk_budget (sb_limits (metadata e)) (sandbox_workspace_disk_bytes e) (disk_of w) = Ok tt →
      (∀ wid u, workspaces e !! wid = Some u → name u ≠ name w) →
      fleet_step r (set_workspace sid (id w) w r)
  | step_remove r sid wid : fleet_step r (remove_workspace_record sid wid r)
  | step_sandbox r sid e m :
      sandboxes r !! sid = Some e → sb_id m = sb_id (metadata e) →
      (sb_disk_bytes (sb_limits m) = sb_disk_bytes (sb_limits (metadata e)) ∨
       check_disk_budget_covers (sb_limits m) (sandbox_workspace_disk_bytes e) = Ok tt) →
      fleet_step r (set_metadata sid m r)
  | step_add_sandbox r m :
      (∀ budget, sb_disk_bytes (sb_limits m) = Some budget → 0 ≤ budget) →
      fleet_step r (with_sandboxes (<[sb_id m := mkEntry m ∅]> (sandboxes r)) r)
  | step_remove_sandbox r sid : fleet_step r (with_sandboxes (delete sid (sandboxes r)) r)
  | step_same r r' : sandboxes r' = sandboxes r → fleet_step r r'.

(** ** The invariant *)

Record fleet_ok {M : Mode} (r : Registry) : Prop := mkFleetOk {
  ok_sandbox_ids sid e : sandboxes r !! sid = Some e → sb_id (metadata e) = sid;
  ok_ids sid e : sandboxes r !! sid = Some e → ids_ok e;
  ok_disks sid e : sandboxes r !! sid = Some e → disks_ok e;
  ok_names sid e wid1 wid2 w1 w2 : sandboxes r !! sid = Some e →
    workspaces e !! wid1 = Some w1 → workspaces e !! wid2 = Some w2 → name w1 = name w2 → wid1 = wid2;
  ok_budget sid e budget : sandboxes r !! sid = Some e →
    sb_disk_bytes (sb_limits (metadata e)) = Some budget → sandbox_workspace_disk_bytes e ≤ budget;
  ok_addresses sid1 wid1 sid2 wid2 w1 w2 o : strict = true →
    find_workspace r sid1 wid1 = Some w1 → find_workspace r sid2 wid2 = Some w2 →
    octet_of w1 = Some o → octet_of w2 = Some o → sid1 = sid2 ∧ wid1 = wid2 }.

(** Setting one record touches one entry. *)
Lemma sandboxes_set_workspace sid wid w r sid' e' :
  sandboxes (set_workspace sid wid w r) !! sid' = Some e' →
  (sid' ≠ sid ∧ sandboxes r !! sid' = Some e') ∨
  (sid' = sid ∧ ∃ e, sandboxes r !! sid = Some e ∧ e' = mkEntry (metadata e) (<[wid := w]> (workspaces e))).
Proof.
  unfold set_workspace. cbn. destruct (decide (sid' = sid)) as [->|Hne].
  - rewrite lookup_alter_eq. destruct (sandboxes r !! sid) as [e|]; cbn; [|done].
    intros [= <-]. right. eauto.
  - rewrite lookup_alter_ne by done. auto.
Qed.

(** A record that is written under its own id, keeps the names distinct, does
    not exceed the budget and takes no address another record holds. *)
Lemma set_workspace_ok {M : Mode} sid wid w' r e :
  fleet_ok r → sandboxes r !! sid = Some e → id w' = wid → 0 ≤ disk_of w' →
  (∀ wid2 w2, workspaces e !! wid2 = Some w2 → wid2 ≠ wid → name w2 ≠ name w') →
  (∀ budget, sb_disk_bytes (sb_limits (metadata e)) = Some budget →
     Z.min (Z.of_nat (disk_nat w' + msum disk_nat (delete wid (workspaces e)))) u64_max ≤ budget) →
  (strict = true → ∀ sid2 wid2 w2 o, find_workspace r sid2 wid2 = Some w2 → (sid2, wid2) ≠ (sid, wid) →
     octet_of w' = Some o → octet_of w2 ≠ Some o) →
  fleet_ok (set_workspace sid wid w' r).
Proof.
  intros [Hsid Hids Hd Hn Hb Ha] He Hid Hdisk Hname Hbudget Hoct.
  assert (∀ wid2 w2, <[wid := w']> (workspaces e) !! wid2 = Some w2 →
    (wid2 = wid ∧ w2 = w') ∨ (wid2 ≠ wid ∧ workspaces e !! wid2 = Some w2)) as Hlook.
  { intros wid2 w2. destruct (decide (wid2 = wid)) as [->|].
    - rewrite lookup_insert_eq. intros [= <-]. auto.
    - rewrite lookup_insert_ne by done. auto. }
  split.
  - intros sid' e' [[_ H]|[-> (e0 & H & ->)]]%sandboxes_set_workspace; [eauto|]. cbn. eauto.
  - intros sid' e' [[_ H]|[-> (e0 & H & ->)]]%sandboxes_set_workspace; [eauto|]. simplify_eq.
    intros wid2 w2 [[-> ->]|[_ ?]]%Hlook; [done|]. eapply Hids; eauto.
  - intros sid' e' [[_ H]|[-> (e0 & H & ->)]]%sandboxes_set_workspace; [eauto|]. simplify_eq.
    intros wid2 w2 [[-> ->]|[_ ?]]%Hlook; [done|]. eapply Hd; eauto.
  - intros sid' e' wid1 wid2 w1 w2 [[_ H]|[-> (e0 & H & ->)]]%sandboxes_set_workspace; [eauto|].
    simplify_eq. cbn. intros [[-> ->]|[? ?]]%Hlook [[-> ->]|[? ?]]%Hlook ?; [done| | |eauto].
    + exfalso. by eapply Hname.
    + exfalso. by eapply Hname.
  - intros sid' e' budget [[_ H]|[-> (e0 & H & ->)]]%sandboxes_set_workspace; [eauto|]. simplify_eq.
    intros Hbud. rewrite sandbox_disk_sum; cbn.
    + rewrite <-insert_delete_eq, msum_insert by apply lookup_delete_eq. by apply Hbudget.
    + intros wid2 w2 [[-> ->]|[_ ?]]%Hlook; [done|]. eapply Hd; eauto.
  - intros sid1 wid1 sid2 wid2 w1 w2 o Hst. specialize (Hoct Hst). rewrite !find_set_workspace.
    destruct (decide _) as [(-> & -> & _)|N1]; destruct (decide _) as [(-> & -> & _)|N2]; [done| | |eauto].
    + intros [= <-] H2 Ho1 Ho2. exfalso. eapply (Hoct sid2 wid2); eauto. intros [= -> ->]. naive_solver.
    + intros H1 [= <-] Ho1 Ho2. exfalso. eapply (Hoct sid1 wid1); eauto. intros [= -> ->]. naive_solver.
Qed.

Lemma disk_nat_eq w : 0 ≤ disk_of w → Z.of_nat (disk_nat w) = disk_of w.
Proof. unfold disk_nat. lia. Qed.

Lemma msum_delete_le {A} (f : A → nat) (m : gmap string A) k : (msum f (delete k m) ≤ msum f m)%nat.
Proof.
  destruct (m !! k) as [x|] eqn:Hk; [rewrite (msum_delete f m k x Hk); lia|].
  by rewrite delete_id.
Qed.

(** The budget clause of [set_workspace_ok], from the check the code makes. *)
Lemma budget_replaced e wid w w' budget :
  disks_ok e → workspaces e !! wid = Some w → 0 ≤ disk_of w' ≤ disk_of w →
  sandbox_workspace_disk_bytes e ≤ budget →
  Z.min (Z.of_nat (disk_nat w' + msum disk_nat (delete wid (workspaces e)))) u64_max ≤ budget.
Proof.
  intros Hd Hw Hle Hb. rewrite sandbox_disk_sum in Hb by done.
  rewrite (msum_delete _ _ _ _ Hw) in Hb.
  pose proof (disk_nat_eq w'). pose proof (disk_nat_eq w). lia.
Qed.

Lemma budget_checked limits used n d x budget :
  check_disk_budget limits (Z.min (Z.of_nat used) u64_max) n = Ok tt →
  sb_disk_bytes limits = Some budget → 0 ≤ n → Z.of_nat d = n → (x ≤ used)%nat →
  Z.min (Z.of_nat (d + x)) u64_max ≤ budget.
Proof.
  intros Hc Hb Hn Hd Hx. rewrite check_disk_budget_Ok in Hc. specialize (Hc budget Hb).
  unfold sat_add64 in Hc. lia.
Qed.

Lemma edit_ok {M : Mode} r sid wid w w' :
  fleet_ok r → find_workspace r sid wid = Some w → same_identity w w' →
  disk_bytes (limits w') = disk_bytes (limits w) →
  (strict = true → ∀ sid2 wid2 w2 o, find_workspace r sid2 wid2 = Some w2 → (sid2, wid2) ≠ (sid, wid) →
     octet_of w' = Some o → octet_of w2 ≠ Some o) →
  fleet_ok (set_workspace sid wid w' r).
Proof.
  intros Hok (e & He & Hw)%find_workspace_Some [Hid Hname] Hdisk Hoct.
  assert (disk_of w' = disk_of w) as Hdo by (unfold disk_of; by rewrite Hdisk).
  pose proof (ok_disks r Hok sid e He) as Hd.
  apply (set_workspace_ok sid wid w' r e); try done.
  - rewrite Hid. by apply (ok_ids r Hok sid e He).
  - rewrite Hdo. by apply (Hd wid).
  - intros wid2 w2 H2 Hne Hn. apply Hne. rewrite Hname in Hn. by eapply (ok_names r Hok sid e).
  - intros budget Hb. eapply budget_replaced; [done..| |by eapply (ok_budget r Hok)].
    rewrite Hdo. pose proof (Hd wid w Hw). lia.
Qed.

Lemma octet_of_ip w w' : assigned_ip w' = assigned_ip w → octet_of w' = octet_of w.
Proof. unfold octet_of. by intros ->. Qed.

(** Steps that drop records or touch a sandbox's own record. *)
Lemma shrink_ok {M : Mode} r r' :
  fleet_ok r →
  (∀ sid e', sandboxes r' !! sid = Some e' → ∃ e, sandboxes r !! sid = Some e ∧
     sb_id (metadata e') = sb_id (metadata e) ∧ workspaces e' ⊆ workspaces e ∧
     (sb_disk_bytes (sb_limits (metadata e')) = sb_disk_bytes (sb_limits (metadata e)) ∨
      check_disk_budget_covers (sb_limits (metadata e')) (sandbox_workspace_disk_bytes e) = Ok tt)) →
  fleet_ok r'.
Proof.
  intros Hok Hsub. pose proof Hok as [Hsid Hids Hd Hn Hb Ha].
  assert (∀ sid wid w, find_workspace r' sid wid = Some w → find_workspace r sid wid = Some w) as Hfind.
  { intros sid wid w (e' & He' & Hw)%find_workspace_Some. destruct (Hsub sid e' He') as (e & He & _ & Hs & _).
    apply find_workspace_Some. exists e. split; [done|]. by eapply lookup_weaken. }
  assert (∀ sid e', sandboxes r' !! sid = Some e' → disks_ok e') as Hd'.
  { intros sid e' He' wid w Hw. destruct (Hsub sid e' He') as (e & He & _ & Hs & _).
    eapply Hd; [done|]. by eapply lookup_weaken. }
  split.
  - intros sid e' He'. destruct (Hsub sid e' He') as (e & He & -> & _). eauto.
  - intros sid e' He' wid w Hw. destruct (Hsub sid e' He') as (e & He & _ & Hs & _).
    eapply Hids; [done|]. by eapply lookup_weaken.
  - done.
  - intros sid e' wid1 wid2 w1 w2 He' H1 H2 Heq. destruct (Hsub sid e' He') as (e & He & _ & Hs & _).
    eapply (Hn sid e); [done|by eapply lookup_weaken..|done].
  - intros sid e' budget He' Hbud. destruct (Hsub sid e' He') as (e & He & _ & Hs & Hlim).
    assert (sandbox_workspace_disk_bytes e' ≤ sandbox_workspace_disk_bytes e) as Hle.
    { rewrite !sandbox_disk_sum by eauto.
      assert (msum disk_nat (workspaces e') ≤ msum disk_nat (workspaces e))%nat; [|lia].
      apply msum_mono. intros k y Hy. exists y. split; [by eapply lookup_weaken|lia]. }
    destruct Hlim as [Heq|Hc].
    + specialize (Hb sid e budget He). rewrite Heq in Hbud. specialize (Hb Hbud). lia.
    + rewrite check_disk_budget_covers_Ok in Hc. specialize (Hc budget Hbud). lia.
  - intros sid1 wid1 sid2 wid2 w1 w2 o Hst H1%Hfind H2%Hfind. eauto.
Qed.

Lemma resize_ok {M : Mode} r sid wid e w w' n :
  fleet_ok r → sandboxes r !! sid = Some e → workspaces e !! wid = Some w → same_identity w w' →
  assigned_ip w' = assigned_ip w → disk_bytes (limits w') = Some n → 0 ≤ n →
  (disk_of w < n →
    check_disk_budget (sb_limits (metadata e)) (sandbox_workspace_disk_bytes_excluding e wid) n = Ok tt) →
  fleet_ok (set_workspace sid wid w' r).
Proof.
  intros Hok He Hw [Hid Hname] Hip Hd Hn Hb.
  pose proof (ok_disks _ Hok sid e He) as Hds. pose proof (ok_ids _ Hok sid e He) as Hi.
  assert (disk_of w' = n) as Hdn by (unfold disk_of; by rewrite Hd).
  apply (set_workspace_ok sid wid w' _ e); try done.
  - rewrite Hid. by apply Hi.
  - lia.
  - intros wid2 w2 H2 Hne Hn2. apply Hne. rewrite Hname in Hn2. by eapply (ok_names _ Hok sid e).
  - intros budget Hbud. destruct (Z.lt_ge_cases (disk_of w) n) as [Hlt|Hge].
    + specialize (Hb Hlt). rewrite sandbox_disk_sum_excluding in Hb by done.
      apply (budget_checked _ _ _ _ _ _ Hb Hbud); [lia|rewrite disk_nat_eq; lia|done].
    + eapply budget_replaced; [done..| |by eapply (ok_budget _ Hok)]. lia.
  - intros Hst sid2 wid2 w2 o H2 Hne Ho Ho2. rewrite (octet_of_ip w w' Hip) in Ho. apply Hne.
    destruct (ok_addresses _ Hok sid2 wid2 sid wid w2 w o Hst); try done; [|congruence].
    apply find_workspace_Some. eauto.
Qed.

Lemma create_ok {M : Mode} r sid e w :
  fleet_ok r → sandboxes r !! sid = Some e → assigned_ip w = None → 0 ≤ disk_of w →
  check_disk_budget (sb_limits (metadata e)) (sandbox_workspace_disk_bytes e) (disk_of w) = Ok tt →
  (∀ wid u, workspaces e !! wid = Some u → name u ≠ name w) →
  fleet_ok (set_workspace sid (id w) w r).
Proof.
  intros Hok He Hip Hd Hb Hname. pose proof (ok_disks _ Hok sid e He) as Hds.
  apply (set_workspace_ok sid (id w) w _ e); try done.
  - intros wid2 w2 H2 _. by apply (Hname wid2).
  - intros budget Hbud. rewrite sandbox_disk_sum in Hb by done.
    apply (budget_checked _ _ _ _ _ _ Hb Hbud); [lia|rewrite disk_nat_eq; lia|apply msum_delete_le].
  - intros _ sid2 wid2 w2 o _ _ Ho. unfold octet_of in Ho. by rewrite Hip in Ho.
Qed.

Lemma add_sandbox_ok {M : Mode} r m :
  fleet_ok r → (∀ budget, sb_disk_bytes (sb_limits m) = Some budget → 0 ≤ budget) →
  fleet_ok (with_sandboxes (<[sb_id m := mkEntry m ∅]> (sandboxes r)) r).
Proof.
  intros [Hsid Hids Hds Hn Hb Ha] Hm.
  assert (∀ sid e, <[sb_id m := mkEntry m ∅]> (sandboxes r) !! sid = Some e →
    (sid = sb_id m ∧ e = mkEntry m ∅) ∨ sandboxes r !! sid = Some e) as Hlook.
  { intros sid e. destruct (decide (sid = sb_id m)) as [->|].
    - rewrite lookup_insert_eq. intros [= <-]. auto.
    - rewrite lookup_insert_ne by done. auto. }
  assert (∀ sid wid w, find_workspace (with_sandboxes (<[sb_id m := mkEntry m ∅]> (sandboxes r)) r) sid wid
    = Some w → find_workspace r sid wid = Some w) as Hfind.
  { intros sid wid w (e & [[-> ->]|He]%Hlook & Hw)%find_workspace_Some; [by cbn in Hw; rewrite lookup_empty in Hw|].
    apply find_workspace_Some. eauto. }
  split.
  - intros sid e [[-> ->]|He]%Hlook; eauto.
  - intros sid e [[-> ->]|He]%Hlook; [by intros ??|eauto].
  - intros sid e [[-> ->]|He]%Hlook; [by intros ??|eauto].
  - intros sid e ???? [[-> ->]|He]%Hlook; [done|eauto].
  - intros sid e budget [[-> ->]|He]%Hlook; [|eauto]. cbn. intros Hbud.
    rewrite sandbox_disk_sum by by intros ??. cbn [workspaces]. rewrite msum_empty. cbn.
    specialize (Hm budget Hbud). lia.
  - intros sid1 wid1 sid2 wid2 w1 w2 o Hst H1%Hfind H2%Hfind. eauto.
Qed.

(** Every abstract step keeps the invariant. *)
Lemma fleet_step_ok {M : Mode} r r' : fleet_ok r → fleet_step r r' → fleet_ok r'.
Proof.
  intros Hok Hstep. revert Hok.
  destruct Hstep as [r0 sid wid w w' Hf Hs Hd Hip | r0 sid wid w w' ip o Hf Hs Hd Hip Ho Hfree
    | r0 sid wid e w w' n He Hw Hs Hip Hd Hn Hb | r0 sid e w He Hip Hd Hb Hname
    | r0 sid wid | r0 sid e m He Hm Hl | r0 m Hm | r0 sid | r0 r1 Hs]; intros Hok.
  - apply (edit_ok _ sid wid w); try done. intros Hst sid2 wid2 w2 o H2 Hne Ho Ho2. specialize (Hip Hst).
    destruct Hip as [Hip|Hip]; [|unfold octet_of in Ho; by rewrite Hip in Ho].
    rewrite (octet_of_ip w w' Hip) in Ho. apply Hne.
    destruct (ok_addresses _ Hok sid2 wid2 sid wid w2 w o Hst); [done..|]. congruence.
  - apply (edit_ok _ sid wid w); try done. intros _ sid2 wid2 w2 o' H2 Hne Ho' Ho2.
    unfold octet_of in Ho'. rewrite Hip in Ho'. cbn in Ho'. simplify_eq.
    apply (Hfree w2); [|done]. apply elem_of_fleet. eauto.
  - by eapply resize_ok.
  - by eapply create_ok.
  - apply (shrink_ok r0); [done|]. unfold remove_workspace_record. cbn.
    intros sid' e'. destruct (decide (sid' = sid)) as [->|Hne].
    + rewrite lookup_alter_eq. destruct (sandboxes r0 !! sid) as [e|]; cbn; [|done].
      intros [= <-]. exists e. cbn. split_and!; try done; [apply delete_subseteq|by left].
    + rewrite lookup_alter_ne by done. intros He'. exists e'. split_and!; try done. by left.
  - apply (shrink_ok r0); [done|]. unfold set_metadata. cbn.
    intros sid' e'. destruct (decide (sid' = sid)) as [->|Hne].
    + rewrite lookup_alter_eq, He. cbn. intros [= <-]. by exists e.
    + rewrite lookup_alter_ne by done. intros He'. exists e'. split_and!; try done. by left.
  - by apply add_sandbox_ok.
  - apply (shrink_ok r0); [done|]. cbn. intros sid' e' [_ He']%lookup_delete_Some.
    exists e'. split_and!; try done. by left.
  - apply (shrink_ok r0); [done|]. rewrite Hs. intros sid' e' He'. exists e'. split_and!; try done. by left.
Qed.

(** A registry is reachable when some sequence of steps produces it from the
    empty one. *)
Definition fleet_reachable {M : Mode} (r : Registry) : Prop := rtc fleet_step default_registry r.

Lemma fleet_ok_default {M : Mode} : fleet_ok default_registry.
Proof. by split; intros *; cbn; rewrite ?lookup_empty. Qed.

Lemma fleet_steps_ok {M : Mode} r r' : rtc fleet_step r r' → fleet_ok r → fleet_ok r'.
Proof. induction 1; eauto using fleet_step_ok. Qed.

Lemma fleet_reachable_ok {M : Mode} r : fleet_reachable r → fleet_ok r.
Proof. intros Hr. eapply fleet_steps_ok; [done|apply fleet_ok_default]. Qed.

#[export] Hint Resolve fleet_step_ok : enclave.

(** ** Transactions and operations that refine the steps *)

Lemma get_workspace_Ok sid wid (st : world) w st' :
  get_workspace sid wid st = (Ok w, st') ↔ st' = st ∧ find_workspace st.1 sid wid = Some w.
Proof.
  unfold get_workspace. rewrite stm_bind_Ok. setoid_rewrite get_Ok. setoid_rewrite lift_Ok.
  setoid_rewrite ok_or_Ok. naive_solver.
Qed.
Lemma get_sandbox_Ok sid (st : world) e st' :
  get_sandbox sid st = (Ok e, st') ↔ st' = st ∧ sandboxes st.1 !! sid = Some e.
Proof.
  unfold get_sandbox. rewrite stm_bind_Ok. setoid_rewrite get_Ok. setoid_rewrite lift_Ok.
  setoid_rewrite ok_or_Ok. naive_solver.
Qed.
Lemma persist_workspace_Ok ok w (st : world) u st' :
  persist_workspace_metadata ok w st = (Ok u, st') → ok = true ∧ st'.1 = st.1.
Proof. intros H. unfold persist_workspace_metadata in H. stm_inv H. auto. Qed.
Lemma persist_sandbox_Ok ok m (st : world) u st' :
  persist_sandbox_metadata ok m st = (Ok u, st') → ok = true ∧ st'.1 = st.1.
Proof. intros H. unfold persist_sandbox_metadata in H. stm_inv H. auto. Qed.

(** [stm_inv], through the record accesses. *)
Ltac world_inv H :=
  lazymatch type of H with
  | mbind _ _ _ = (Ok _, _) =>
      let H1 := fresh H in
      apply stm_bind_Ok in H as (? & ? & H1 & H); world_inv H1; world_inv H
  | get_workspace _ _ _ = (Ok _, _) => apply get_workspace_Ok in H as [-> H]
  | get_sandbox _ _ = (Ok _, _) => apply get_sandbox_Ok in H as [-> H]
  | put_workspace _ _ _ _ = (Ok _, _) => unfold put_workspace, on_registry in H; stm_inv H
  | on_registry _ _ = (Ok _, _) => unfold on_registry in H; stm_inv H
  | _ => stm_inv H
  end.

(** A closure whose successful runs are steps. *)
Definition refines {M : Mode} {A} (c : stm world A) : Prop :=
  ∀ st out st', c st = (Ok out, st') → fleet_ok st.1 → rtc fleet_step st.1 st'.1.

(** An operation all of whose runs, failed ones included, are steps. *)
Definition fleet_safe {M : Mode} {A} (m : stm world A) : Prop :=
  ∀ st, fleet_ok st.1 → rtc fleet_step st.1 (m st).2.1.

(** What other requests did before a transaction were steps too. *)
Definition env_safe {M : Mode} (t : txn_host) : Prop :=
  ∀ st, fleet_ok st.1 → rtc fleet_step st.1 (before t st).1.

Lemma fleet_safe_bind {M : Mode} {A B} (m : stm world A) (f : A → stm world B) :
  fleet_safe m → (∀ a, fleet_safe (f a)) → fleet_safe (m ≫= f).
Proof.
  intros Hm Hf st Hst. unfold mbind, stm_bind. specialize (Hm st Hst).
  destruct (m st) as [[a|e] st']; [|done]. etrans; [done|]. apply Hf. by eapply fleet_steps_ok.
Qed.
Lemma fleet_safe_frame {M : Mode} {A} (m : stm world A) : (∀ st, (m st).2.1 = st.1) → fleet_safe m.
Proof. intros Hm st _. by rewrite Hm. Qed.
Lemma fleet_safe_ret {M : Mode} {A} (a : A) : fleet_safe (mret a).
Proof. by apply fleet_safe_frame. Qed.
Lemma fleet_safe_lift {M : Mode} {A} (r : result A) : fleet_safe (lift r).
Proof. by apply fleet_safe_frame. Qed.
Lemma fleet_safe_throw {M : Mode} {A} message : fleet_safe (throw message : stm world A).
Proof. by apply fleet_safe_frame. Qed.
Lemma fleet_safe_assert {M : Mode} ok message : fleet_safe (assert ok message).
Proof. apply fleet_safe_frame. by destruct ok. Qed.
Lemma stop_session_registry a p st : (stop_session a p st).2.1 = st.1.
Proof. unfold stop_session, mbind, stm_bind. cbn. by destruct (sa_ok a). Qed.
Lemma fleet_safe_stop_session {M : Mode} a p : fleet_safe (stop_session a p).
Proof. apply fleet_safe_frame. apply stop_session_registry. Qed.
Lemma fleet_safe_persist {M : Mode} ok w : fleet_safe (persist_workspace_metadata ok w).
Proof. apply fleet_safe_frame. by destruct ok. Qed.
Lemma fleet_safe_ignore {M : Mode} {A} (m : stm world A) : fleet_safe m → fleet_safe (ignore m).
Proof. intros Hm st Hst. by apply Hm. Qed.
Lemma fleet_safe_on_error {M : Mode} {A} (m : stm world A) handler :
  fleet_safe m → (∀ e, fleet_safe (handler e)) → fleet_safe (on_error m handler).
Proof.
  intros Hm Hh st Hst. unfold on_error. specialize (Hm st Hst).
  destruct (m st) as [[a|e] st']; [done|]. etrans; [done|]. apply Hh. by eapply fleet_steps_ok.
Qed.
Lemma fleet_safe_read {M : Mode} {A} t (op : Registry → result A) : env_safe t → fleet_safe (read_txn t op).
Proof. intros Ht st Hst. unfold read_txn. by apply Ht. Qed.

Lemma write_txn_steps {M : Mode} {A} t (c : stm world A) st :
  refines c → fleet_ok (before t st).1 → rtc fleet_step (before t st).1 (write_txn t c st).2.1.
Proof.
  intros Hc Hok. unfold write_txn, transact. destruct (reachable t); cbn; [|done].
  destruct (c (before t st)) as [[a|e] [r' h']] eqn:E; [|done].
  destruct (negb _); [done|].
  assert (rtc fleet_step (before t st).1 (bump_generation r')) as Hs.
  { etrans; [by eapply (Hc _ a (r', h'))|]. apply rtc_once. by apply step_same. }
  by destruct (saved t).
Qed.
(** The outcomes of a transaction: committed under the next generation, in place
    though reported failed, or the registry it began with. *)
Lemma write_txn_cases {A} t (c : stm world A) st res st' :
  write_txn t c st = (res, st') →
  (∃ a st1, res = Ok a ∧ c (before t st) = (Ok a, st1) ∧ st' = (bump_generation st1.1, st1.2)) ∨
  (is_ok res = false ∧ st'.1 = (before t st).1 ∧
     (st'.2 = (before t st).2 ∨ st'.2 = (c (before t st)).2.2)) ∨
  (∃ a st1, is_ok res = false ∧ saved t = Unconfirmed ∧ c (before t st) = (Ok a, st1) ∧
     st' = (bump_generation st1.1, st1.2)).
Proof.
  unfold write_txn, transact. destruct (reachable t); cbn; [|intros [= <- <-]; right; left; auto].
  destruct (c (before t st)) as [[a|e] [r1 h1]] eqn:E; [|intros [= <- <-]; right; left; auto].
  destruct (negb _); [intros [= <- <-]; right; left; auto|].
  destruct (saved t); intros [= <- <-]; [right; left; auto| |].
  - right. right. exists a, (r1, h1). auto.
  - left. exists a, (r1, h1). auto.
Qed.

(** When the save is either lost or confirmed, a failed transaction left the
    registry alone. *)
Definition conclusive (t : txn_host) : Prop := saved t ≠ Unconfirmed.

Lemma write_txn_conclusive {A} t (c : stm world A) st res st' :
  conclusive t → write_txn t c st = (res, st') →
  (∃ a st1, res = Ok a ∧ c (before t st) = (Ok a, st1) ∧ st' = (bump_generation st1.1, st1.2)) ∨
  (is_ok res = false ∧ st'.1 = (before t st).1 ∧
     (st'.2 = (before t st).2 ∨ st'.2 = (c (before t st)).2.2)).
Proof. intros Hs [?|[?|(? & ? & _ & ? & _)]]%write_txn_cases; auto. done. Qed.
Lemma fleet_safe_write {M : Mode} {A} t (c : stm world A) : env_safe t → refines c → fleet_safe (write_txn t c).
Proof.
  intros Ht Hc st Hst. etrans; [by apply Ht|]. apply write_txn_steps; [done|].
  eapply fleet_steps_ok; [by apply Ht|done].
Qed.

(** The same from states that satisfy [P] only. *)
Definition safe_from {M : Mode} {A} (P : world → Prop) (m : stm world A) : Prop :=
  ∀ st, P st → fleet_ok st.1 → rtc fleet_step st.1 (m st).2.1.

Lemma safe_from_bind {M : Mode} {A B} (P : world → Prop) (Q : A → world → Prop) (m : stm world A) (f : A → stm world B) :
  safe_from P m → (∀ st a st', P st → m st = (Ok a, st') → Q a st') →
  (∀ a, safe_from (Q a) (f a)) → safe_from P (m ≫= f).
Proof.
  intros Hm Hq Hf st HP Hst. unfold mbind, stm_bind. specialize (Hm st HP Hst). specialize (Hq st).
  destruct (m st) as [[a|e] st']; [|done]. etrans; [done|]. apply Hf; [by apply Hq|].
  by eapply fleet_steps_ok.
Qed.
Lemma safe_from_on_error {M : Mode} {A} (P : world → Prop) (m : stm world A) handler :
  safe_from P m → (∀ e, fleet_safe (handler e)) → safe_from P (on_error m handler).
Proof.
  intros Hm Hh st HP Hst. unfold on_error. specialize (Hm st HP Hst).
  destruct (m st) as [[a|e] st']; [done|]. etrans; [done|]. apply Hh. by eapply fleet_steps_ok.
Qed.
Lemma safe_from_any {M : Mode} {A} (P : world → Prop) (m : stm world A) : fleet_safe m → safe_from P m.
Proof. intros Hm st _. apply Hm. Qed.
Lemma on_error_Ok {S A} (m : stm S A) handler st a st' :
  (∀ e st1, is_ok (handler e st1).1 = false) →
  on_error m handler st = (Ok a, st') → m st = (Ok a, st').
Proof.
  intros Hh. unfold on_error. destruct (m st) as [[b|e] st1]; [done|]. intros H.
  specialize (Hh e st1). by rewrite H in Hh.
Qed.

#[export] Hint Resolve fleet_safe_ret fleet_safe_lift fleet_safe_throw fleet_safe_assert
  fleet_safe_stop_session fleet_safe_persist fleet_safe_ignore fleet_safe_on_error fleet_safe_read
  fleet_safe_write : enclave.

(** A record update that keeps identity and disk, and keeps or drops the address,
    is a step. *)
Definition harmless (w w' : WorkspaceMetadata) : Prop :=
  same_identity w w' ∧ disk_bytes (limits w') = disk_bytes (limits w) ∧
  (assigned_ip w' = assigned_ip w ∨ assigned_ip w' = None).

Lemma harmless_step {M : Mode} r sid wid w w' :
  find_workspace r sid wid = Some w → harmless w w' → fleet_step r (set_workspace sid wid w' r).
Proof. intros Hf (? & ? & ?). by eapply step_edit; eauto. Qed.

Lemma harmless_stopped now w : harmless w (stopped_record now w).
Proof. unfold harmless, same_identity. cbn. auto. Qed.

Lemma mark_workspace_stopped_refines {M : Mode} h sid wid : refines (mark_workspace_stopped h sid wid).
Proof.
  intros st out st' H Hok. unfold mark_workspace_stopped in H. world_inv H.
  apply persist_workspace_Ok in H as [_ ->]. apply rtc_once. cbn.
  eapply harmless_step; [done|apply harmless_stopped].
Qed.

Lemma refines_bind {M : Mode} {A B} (m : stm world A) (f : A → stm world B) :
  refines m → (∀ a, refines (f a)) → refines (m ≫= f).
Proof.
  intros Hm Hf st out st' H Hok. apply stm_bind_Ok in H as (a & st1 & H1 & H2).
  etrans; [by eapply Hm|]. eapply Hf; [done|]. eapply fleet_steps_ok; [by eapply Hm|done].
Qed.
Lemma refines_frame {M : Mode} {A} (m : stm world A) : (∀ st a st', m st = (Ok a, st') → st'.1 = st.1) → refines m.
Proof. intros Hm st a st' H _. by rewrite (Hm _ _ _ H). Qed.
Lemma refines_get_workspace {M : Mode} sid wid : refines (get_workspace sid wid).
Proof. apply refines_frame. intros st a st' H. world_inv H. done. Qed.
Lemma refines_get_sandbox {M : Mode} sid : refines (get_sandbox sid).
Proof. apply refines_frame. intros st a st' H. world_inv H. done. Qed.
Lemma refines_assert {M : Mode} ok m : refines (assert ok m).
Proof. apply refines_frame. intros st a st' H. stm_inv H. done. Qed.
Lemma refines_throw {M : Mode} {A} m : refines (throw m : stm world A).
Proof. intros st a st' H. stm_inv H. Qed.

#[export] Hint Resolve refines_bind refines_get_workspace refines_get_sandbox refines_assert
  refines_throw mark_workspace_stopped_refines : enclave.

Lemma commit_workspace_stopped_refines {M : Mode} h sid wid : refines (commit_workspace_stopped h sid wid).
Proof. unfold commit_workspace_stopped. auto with enclave. Qed.
#[export] Hint Resolve commit_workspace_stopped_refines : enclave.

Lemma set_workspace_stopped_refines {M : Mode} h sid wid : refines (set_workspace_stopped h sid wid).
Proof. unfold set_workspace_stopped. auto with enclave. Qed.
#[export] Hint Resolve set_workspace_stopped_refines : enclave.
