(* ===== verification/Start.v ===== *)
(** * Starting a workspace (src/src/workspace/control/start)

    The transitions a start records, the launch as the sequence of host steps it
    is, and the whole operation.  Of the rollbacks, the session, the record and
    the directory are state here; the network, cgroup and storage calls are
    modelled by their answers, which show in the error the caller gets (what the
    calls themselves do is in [Network], [Cgroup] and [Cleanup]). *)
From S2P Require Import Prelude Ipam Types Registry Records Fleet.
Open Scope Z_scope.

(** ** Transitions (start/transition.rs) *)

(** The closure of [mark_workspace_starting]: capacity, then an address, then the
    record. *)
Definition mark_workspace_starting (daemon_max : option Z) (others : gset Z) (persist : bool)
    (sid wid : string) : stm world string :=
  st ← get;
  lift (ensure_start_capacity daemon_max st.1 sid wid);;
  ip ← lift (allocate_ip (collect_all_used_ip_octets others st.1));
  w ← get_workspace sid wid;
  let w' := with_runtime Starting (runtime_pid w) (runtime_starttime_ticks w) (Some ip)
              (namespace_refs w) (last_stopped_at w) (sandbox_rootfs_path w) w in
  put_workspace sid wid w';;
  persist_workspace_metadata persist w';;
  mret ip.

(** The closure of [mark_workspace_start_failed]. *)
Definition mark_workspace_start_failed (h : stop_host) (sid wid : string) : stm world unit :=
  get_sandbox sid;;
  set_workspace_stopped h sid wid.

(** The closure of [release_dead_runtime_resources]. *)
Definition release_dead_runtime_resources (h : stop_host) (sid wid : string)
    (snapshot : WorkspaceMetadata) : stm world unit :=
  get_sandbox sid;;
  latest ← get_workspace sid wid;
  if negb (bool_decide (runtime_pid latest = runtime_pid snapshot)) ||
     negb (bool_decide (runtime_starttime_ticks latest = runtime_starttime_ticks snapshot)) ||
     negb (bool_decide (assigned_ip latest = assigned_ip snapshot))
  then throw "workspace changed while its dead runtime was being released; retry"
  else set_workspace_stopped h sid wid.

Record WorkspaceRuntimeStart := mkStarted {
  pid : Z;
  starttime_ticks : Z;
  started_ip : string }.

(** [persist_started_workspace_runtime], outside the registry lock. *)
Definition started_record (started : WorkspaceRuntimeStart) (w : WorkspaceMetadata) : WorkspaceMetadata :=
  normalize_namespace_ref_paths
    (with_runtime Running (Some (pid started)) (Some (starttime_ticks started))
       (Some (started_ip started)) (namespace_refs w) (last_stopped_at w) (sandbox_rootfs_path w) w).

Definition persist_started_workspace_runtime (write_refs persist : bool)
    (w : WorkspaceMetadata) (started : WorkspaceRuntimeStart) : stm world WorkspaceMetadata :=
  let record := started_record started w in
  assert write_refs "failed to write namespace refs";;
  persist_workspace_metadata persist record;;
  mret record.

(** The closure that commits the runtime. *)
Definition commit_runtime (prepared : WorkspaceMetadata) (sid wid : string) : stm world WorkspaceMetadata :=
  get_sandbox sid;;
  w ← get_workspace sid wid;
  if bool_decide (status w ≠ Starting)
  then throw "workspace changed while a start was in progress; refusing to commit runtime metadata"
  else
    let w' := with_runtime Running (runtime_pid prepared) (runtime_starttime_ticks prepared)
                (assigned_ip prepared) (namespace_refs prepared) (last_stopped_at w)
                (sandbox_rootfs_path prepared) w in
    put_workspace sid wid w';;
    mret w'.

(** ** The target (start/target.rs) *)

Definition reject_obvious_capacity_conflict := ensure_start_capacity.

Definition with_rootfs_path (p : string) (w : WorkspaceMetadata) : WorkspaceMetadata :=
  with_runtime (status w) (runtime_pid w) (runtime_starttime_ticks w) (assigned_ip w)
    (namespace_refs w) (last_stopped_at w) p w.

Definition resolve_start_target (daemon_max : option Z) (sandbox_selector workspace_selector : string)
    (r : Registry) : result (string * string * SandboxMetadata * WorkspaceMetadata) :=
  p ← sandbox_of r sandbox_selector;
  let '(sid, e) := p in
  if bool_decide (sb_status (metadata e) ≠ SbRunning) then bail "sandbox is stopped; start sandbox first"
  else
    wid ← resolve_workspace_id e workspace_selector;
    if sandbox_is_transitional (sb_status (metadata e))
    then bail "wait for the sandbox to settle before starting workspaces"
    else
      w ← ok_or (workspaces e !! wid) (plain ("workspace '" +:+ wid +:+ "' not found"));
      if is_transitional (status w) then bail "wait for the current operation to finish"
      else
        _ ← (if bool_decide (status w ≠ Running)
             then reject_obvious_capacity_conflict daemon_max r sid wid else Ok tt);
        Ok (sid, wid, metadata e, with_rootfs_path (effective_rootfs_path (metadata e)) w).

(** [Option::zip] *)
Definition option_zip {A B} (x : option A) (y : option B) : option (A * B) :=
  match x, y with Some a, Some b => Some (a, b) | _, _ => None end.

Record refresh_host := mkRefresh {
  rf_process_matches : Z → Z → bool;
  rf_read_refs : bool;
  rf_txn : txn_host;
  rf_write_refs : bool }.

Definition refresh_runtime_refs (write_refs : bool) (sid wid : string) (pid starttime : Z)
    : stm world WorkspaceMetadata :=
  get_sandbox sid;;
  w ← get_workspace sid wid;
  if bool_decide (runtime_pid w ≠ Some pid) || bool_decide (runtime_starttime_ticks w ≠ Some starttime)
  then throw "workspace runtime identity changed while refreshing namespace refs"
  else
    let w' := normalize_namespace_ref_paths w in
    put_workspace sid wid w';;
    assert write_refs "failed to write namespace refs";;
    mret w'.

Definition refresh_live_runtime (h : refresh_host) (sid : string) (snapshot : WorkspaceMetadata)
    : stm world (option WorkspaceMetadata) :=
  match option_zip (runtime_pid snapshot) (runtime_starttime_ticks snapshot) with
  | None => mret None
  | Some (p, starttime) =>
      if negb (rf_process_matches h p starttime) then mret None
      else
        assert (rf_read_refs h) "failed to read namespace refs";;
        w ← write_txn (rf_txn h) (refresh_runtime_refs (rf_write_refs h) sid (id snapshot) p starttime);
        mret (Some w)
  end.

Definition release_dead_runtime (t : txn_host) (h : stop_host) (sid wid : string)
    (snapshot : WorkspaceMetadata) : stm world WorkspaceMetadata :=
  write_txn t (release_dead_runtime_resources h sid wid snapshot);;
  mret (with_runtime Stopped None None None (namespace_refs snapshot) (last_stopped_at snapshot)
          (sandbox_rootfs_path snapshot) snapshot).

(** ** The launch (start/launch.rs) *)

Record launch_host := mkLaunch {
  lh_storage : bool;
  lh_source : bool;
  lh_session : option (Z * Z);       (** pid and start time of the session *)
  lh_limits : bool;
  lh_auth : bool;
  lh_network : bool;
  lh_stop : stop_answer }.            (** what stopping a session that is to be undone comes to *)

Definition start_session (h : launch_host) : stm world (Z * Z) :=
  match lh_session h with
  | None => throw "failed to start session"
  | Some s =>
      modify (λ st, (st.1, mkHost (workspace_json st.2) (sandbox_json st.2) ({[s.1]} ∪ sessions st.2)));;
      mret s
  end.

(** A later step failed: the session is stopped and its cgroups are removed, best
    effort (the outcomes are only logged), and the error is kept. *)
Definition undo_session {A} (h : launch_host) (s : Z * Z) (message : string) : stm world A :=
  ignore (stop_session (lh_stop h) s.1);;
  throw message.

Definition launch_workspace_runtime (h : launch_host) (reserved_ip : string)
    : stm world WorkspaceRuntimeStart :=
  assert (lh_storage h) "workspace storage is not ready";;
  assert (lh_source h) "workspace source is unavailable";;
  s ← start_session h;
  if negb (lh_limits h) then undo_session h s "failed to apply workspace cgroup limits"
  else if negb (lh_auth h) then undo_session h s "failed to sync workspace auth"
  else if negb (lh_network h && bool_decide (is_Some (parse_host_octet reserved_ip)))
  then undo_session h s "failed to attach or validate workspace networking"
  else mret (mkStarted s.1 s.2 reserved_ip).

(** ** The operation (start/mod.rs) *)

Record start_host := mkStart {
  sh_daemon_max : option Z;
  sh_resolve : txn_host;
  sh_refresh : refresh_host;
  sh_release : txn_host;
  sh_release_host : stop_host;
  sh_journal : bool;
  sh_reserve : txn_host;
  sh_others : gset Z;
  sh_reserve_persist : bool;
  sh_phase_verify : bool;
  sh_rootfs_ready : bool;
  sh_phase_launch : bool;
  sh_launch : launch_host;
  sh_phase_commit : bool;
  sh_write_refs : bool;
  sh_persist : bool;
  sh_commit : txn_host;
  sh_stop_session : stop_answer;
  sh_remove_cgroups : bool;
  sh_teardown_network : bool;          (** the teardown's report is complete *)
  sh_unmount_storage : bool;
  sh_succeed : bool;
  sh_rollback : txn_host;
  sh_rollback_host : stop_host;
  sh_sweep : txn_host;
  sh_sweep_remove : bool }.

(** [sweep_directory_of_unregistered_workspace]: the directory goes only when the
    registry could be read and no longer names the workspace. *)
Definition sweep_directory_of_unregistered_workspace (t : txn_host) (removed : bool)
    (sandbox : SandboxMetadata) (workspace : WorkspaceMetadata) : stm world unit := λ st,
  match read_txn t (λ r, Ok (bool_decide (is_Some (find_workspace r (sb_id sandbox) (id workspace))))) st with
  | (Ok false, st') =>
      if removed
      then (Ok tt, (st'.1, mkHost (delete (workspace_path workspace +:+ "/workspace.json") (workspace_json st'.2))
                             (sandbox_json st'.2) (sessions st'.2)))
      else (Ok tt, st')
  | (_, st') => (Ok tt, st')
  end.

Section operation.
Context (h : start_host).

(** [let _ = mark_workspace_start_failed(..)] *)
Definition give_back (sid wid : string) : stm world unit :=
  ignore (write_txn (sh_rollback h) (mark_workspace_start_failed (sh_rollback_host h) sid wid)).

(** The rollback of a launched runtime: the session, the network, the cgroups and
    the storage, then the record, then the directory when no record names it. *)
Definition undo_runtime (sandbox : SandboxMetadata) (sid wid : string) (snapshot : WorkspaceMetadata)
    (started : WorkspaceRuntimeStart) : stm world unit :=
  ignore (stop_session (sh_stop_session h) (pid started));;
  give_back sid wid;;
  sweep_directory_of_unregistered_workspace (sh_sweep h) (sh_sweep_remove h) sandbox snapshot.

(** The error of a refused commit names a rollback that is not complete. *)
Definition rollback_failure (e : error) : error :=
  if sh_teardown_network h && sh_remove_cgroups h && sh_unmount_storage h then e
  else context "workspace startup rollback incomplete" e.

(** The part after the runtime was launched. *)
Definition record_runtime (sandbox : SandboxMetadata) (sid wid : string) (snapshot : WorkspaceMetadata)
    (started : WorkspaceRuntimeStart) : stm world WorkspaceMetadata :=
  assert (sh_phase_commit h) "failed to write journal phase";;
  prepared ← on_error
    (persist_started_workspace_runtime (sh_write_refs h) (sh_persist h) snapshot started)
    (λ e, undo_runtime sandbox sid wid snapshot started;;
          lift (Err (context "failed to record the launched workspace runtime" e)));
  metadata ← on_error
    (write_txn (sh_commit h) (commit_runtime prepared sid wid))
    (λ e, undo_runtime sandbox sid wid snapshot started;;
          lift (Err (rollback_failure e)));
  assert (sh_succeed h) "failed to close journal";;
  mret metadata.

(** The part after the address was reserved and the journal opened. *)
Definition launch_reserved (sandbox : SandboxMetadata) (sid wid : string) (snapshot : WorkspaceMetadata)
    (reserved_ip : string) : stm world WorkspaceMetadata :=
  assert (sh_phase_verify h) "failed to write journal phase";;
  if negb (sh_rootfs_ready h) then give_back sid wid;; throw "sandbox rootfs is not ready"
  else
    assert (sh_phase_launch h) "failed to write journal phase";;
    started ← on_error (launch_workspace_runtime (sh_launch h) reserved_ip)
                (λ e, give_back sid wid;; lift (Err e));
    record_runtime sandbox sid wid snapshot started.

(** The journal and the reservation, written together; each outcome of the pair
    has its own answer. *)
Definition reserve_and_launch (sandbox : SandboxMetadata) (sid wid : string) (snapshot : WorkspaceMetadata)
    : stm world WorkspaceMetadata := λ st,
  match write_txn (sh_reserve h)
          (mark_workspace_starting (sh_daemon_max h) (sh_others h) (sh_reserve_persist h) sid wid) st with
  | (reserve, st') =>
      match sh_journal h, reserve with
      | true, Ok reserved_ip => launch_reserved sandbox sid wid snapshot reserved_ip st'
      | true, Err e => (Err e, st')
      | false, Ok _ => (give_back sid wid;; throw "failed to begin journal") st'
      | false, Err _ => (bail "failed to begin journal", st')
      end
  end.

Definition start_workspace_with_security (sandbox_selector workspace_selector : string)
    : stm world WorkspaceMetadata :=
  target ← read_txn (sh_resolve h)
    (resolve_start_target (sh_daemon_max h) sandbox_selector workspace_selector);
  let '(sid, wid, sandbox, snapshot) := target in
  if bool_decide (status snapshot = Running) then
    live ← refresh_live_runtime (sh_refresh h) sid snapshot;
    match live with
    | Some metadata => mret metadata
    | None =>
        snapshot' ← release_dead_runtime (sh_release h) (sh_release_host h) sid wid snapshot;
        reserve_and_launch sandbox sid wid snapshot'
    end
  else reserve_and_launch sandbox sid wid snapshot.
End operation.

(** ** The reservation *)

Definition reserved_record (ip : string) (w : WorkspaceMetadata) : WorkspaceMetadata :=
  with_runtime Starting (runtime_pid w) (runtime_starttime_ticks w) (Some ip)
    (namespace_refs w) (last_stopped_at w) (sandbox_rootfs_path w) w.

Lemma used_octet others r u o : u ∈ fleet r → octet_of u = Some o → o ∈ collect_all_used_ip_octets others r.
Proof.
  intros Hu (ip & Hip & Ho)%bind_Some. unfold collect_all_used_ip_octets, collect_used_ips.
  apply elem_of_union_l, elem_of_list_to_set, list_elem_of_omap.
  exists ip. split; [|done]. apply list_elem_of_omap. eauto.
Qed.

Lemma mark_workspace_starting_Ok max others persist sid wid st ip st' :
  mark_workspace_starting max others persist sid wid st = (Ok ip, st') →
  ∃ w o, find_workspace st.1 sid wid = Some w ∧
    st'.1 = set_workspace sid wid (reserved_record ip w) st.1 ∧ sessions st'.2 = sessions st.2 ∧
    ensure_start_capacity max st.1 sid wid = Ok tt ∧
    parse_host_octet ip = Some o ∧ (o ∉ others) ∧ (∀ u, u ∈ fleet st.1 → octet_of u ≠ Some o).
Proof.
  intros H. unfold mark_workspace_starting in H. apply stm_bind_Ok in H as (st0 & st1 & H0 & H).
  stm_inv H0. apply stm_bind_Ok in H as (u0 & st1 & Hcap & H). stm_inv Hcap. destruct u0.
  apply stm_bind_Ok in H as (ip' & st1 & Hal & H). stm_inv Hal.
  apply stm_bind_Ok in H as (w & st1 & Hw & H). world_inv Hw.
  apply stm_bind_Ok in H as (u1 & st1 & Hput & H). world_inv Hput.
  apply stm_bind_Ok in H as (u2 & st2 & Hper & H). stm_inv H.
  apply allocate_ip_Ok in Hal as (o & Ho & _ & Hn). exists w, o. unfold persist_workspace_metadata in Hper.
  stm_inv Hper. cbn. split_and!; try done.
  - intros Hin. apply Hn. unfold collect_all_used_ip_octets. by apply elem_of_union_r.
  - intros u Hu Huo. apply Hn. by eapply used_octet.
Qed.

Lemma mark_workspace_starting_refines {M : Mode} max others persist sid wid :
  refines (mark_workspace_starting max others persist sid wid).
Proof.
  intros st ip st' (w & o & Hf & -> & _ & _ & Ho & _ & Hfree)%mark_workspace_starting_Ok _.
  apply rtc_once. by eapply (step_reserve _ _ _ w _ ip o).
Qed.

(** ** Every run of a start keeps the fleet's promises *)

Lemma mark_workspace_start_failed_refines {M : Mode} h sid wid : refines (mark_workspace_start_failed h sid wid).
Proof. unfold mark_workspace_start_failed. auto with enclave. Qed.

Lemma release_dead_runtime_refines {M : Mode} h sid wid snapshot :
  refines (release_dead_runtime_resources h sid wid snapshot).
Proof.
  unfold release_dead_runtime_resources. apply refines_bind; [auto with enclave|]. intros _.
  apply refines_bind; [auto with enclave|]. intros latest.
  destruct (_ || _ || _); auto with enclave.
Qed.

Lemma harmless_refs refs w :
  harmless w (with_runtime (status w) (runtime_pid w) (runtime_starttime_ticks w) (assigned_ip w)
                refs (last_stopped_at w) (sandbox_rootfs_path w) w).
Proof. unfold harmless, same_identity. cbn. auto. Qed.

Lemma refresh_runtime_refs_refines {M : Mode} b sid wid p t : refines (refresh_runtime_refs b sid wid p t).
Proof.
  intros st w' st' H Hok. unfold refresh_runtime_refs in H.
  apply stm_bind_Ok in H as (e & st1 & H1 & H). world_inv H1.
  apply stm_bind_Ok in H as (w & st1 & H2 & H). world_inv H2.
  destruct (_ || _); [stm_inv H|]. world_inv H.
  apply rtc_once. eapply harmless_step; [done|apply harmless_refs].
Qed.
#[export] Hint Resolve mark_workspace_starting_refines mark_workspace_start_failed_refines
  release_dead_runtime_refines refresh_runtime_refs_refines : enclave.

(** While this start is in flight, the requests that run in between leave the
    address of its own record alone as long as it is still [Starting]. *)
Definition keeps_reservation (sid wid : string) (t : txn_host) : Prop :=
  ∀ st w', find_workspace (before t st).1 sid wid = Some w' → status w' = Starting →
    ∃ w, find_workspace st.1 sid wid = Some w ∧ status w = Starting ∧ assigned_ip w' = assigned_ip w.

Definition holds_reservation (sid wid ip : string) (st : world) : Prop :=
  ∀ w, find_workspace st.1 sid wid = Some w → status w = Starting → assigned_ip w = Some ip.

Lemma commit_runtime_Ok prepared sid wid st w' st' :
  commit_runtime prepared sid wid st = (Ok w', st') →
  ∃ w, find_workspace st.1 sid wid = Some w ∧ status w = Starting ∧ st' = (set_workspace sid wid w' st.1, st.2) ∧
    w' = with_runtime Running (runtime_pid prepared) (runtime_starttime_ticks prepared)
           (assigned_ip prepared) (namespace_refs prepared) (last_stopped_at w)
           (sandbox_rootfs_path prepared) w.
Proof.
  intros H. unfold commit_runtime in H. apply stm_bind_Ok in H as (e & st1 & H1 & H). world_inv H1.
  apply stm_bind_Ok in H as (w & st1 & H2 & H). world_inv H2.
  case_bool_decide as Hs; [stm_inv H|]. world_inv H. exists w. split_and!; try done.
Qed.

Lemma launch_safe {M : Mode} h ip : fleet_safe (launch_workspace_runtime h ip).
Proof.
  unfold launch_workspace_runtime, start_session, undo_session.
  repeat (apply fleet_safe_bind; [auto with enclave|intros _]).
  apply fleet_safe_bind.
  - destruct (lh_session h); [|auto with enclave]. apply fleet_safe_bind; [|auto with enclave].
    by apply fleet_safe_frame.
  - intros s. repeat case_match; auto using fleet_safe_bind with enclave.
Qed.

Lemma launch_ip h ip st started st' :
  launch_workspace_runtime h ip st = (Ok started, st') →
  started_ip started = ip ∧ st'.1 = st.1 ∧
  lh_session h = Some (pid started, starttime_ticks started) ∧
  sessions st'.2 = {[pid started]} ∪ sessions st.2.
Proof.
  unfold launch_workspace_runtime, start_session, undo_session. intros H.
  apply stm_bind_Ok in H as (u1 & st1 & H1 & H). stm_inv H1.
  apply stm_bind_Ok in H as (u2 & st2 & H2 & H). stm_inv H2.
  apply stm_bind_Ok in H as (s & st3 & H3 & H). destruct (lh_session h) as [s0|]; [|stm_inv H3].
  stm_inv H3. repeat case_match; try by (apply stm_bind_Ok in H as (? & ? & _ & H); stm_inv H).
  stm_inv H. destruct s0. cbn. by split_and!.
Qed.

Section safety.
Context {M : Mode}.
Context (h : start_host) (sid wid : string).
Hypothesis Hrb : env_safe (sh_rollback h).
Hypothesis Hco : env_safe (sh_commit h).
Hypothesis Hsw : env_safe (sh_sweep h).
Hypothesis Hkeep : strict = true → keeps_reservation sid wid (sh_commit h).

Lemma give_back_safe : fleet_safe (give_back h sid wid).
Proof. unfold give_back. auto with enclave. Qed.
Hint Resolve give_back_safe : enclave.

Lemma sweep_directory_registry t b sb w st :
  (sweep_directory_of_unregistered_workspace t b sb w st).2.1 = (before t st).1 ∧
  sessions (sweep_directory_of_unregistered_workspace t b sb w st).2.2 = sessions (before t st).2.
Proof.
  unfold sweep_directory_of_unregistered_workspace, read_txn. destruct (reachable t); [|done].
  case_bool_decide; [done|]. by destruct b.
Qed.
Lemma undo_runtime_safe sb snapshot started : fleet_safe (undo_runtime h sb sid wid snapshot started).
Proof.
  unfold undo_runtime. repeat (apply fleet_safe_bind; [auto with enclave|intros _]).
  intros st Hok. rewrite (proj1 (sweep_directory_registry _ _ _ _ st)). by apply Hsw.
Qed.
Hint Resolve undo_runtime_safe : enclave.

Lemma sweep_directory_Ok t b sb w st :
  (sweep_directory_of_unregistered_workspace t b sb w st).1 = Ok tt.
Proof.
  unfold sweep_directory_of_unregistered_workspace, read_txn. destruct (reachable t); [|done].
  case_bool_decide; [done|]. by destruct b.
Qed.
Lemma undo_runtime_fails {A} sb snapshot started e st :
  (undo_runtime h sb sid wid snapshot started;; lift (Err e) : stm world A) st
    = (Err e, (undo_runtime h sb sid wid snapshot started st).2).
Proof.
  unfold mbind at 1, stm_bind at 1. destruct (undo_runtime _ _ _ _ _ _ st) as [res st'] eqn:E.
  assert (res = Ok tt) as ->; [|done].
  unfold undo_runtime, mbind, stm_bind in E. cbn -[sweep_directory_of_unregistered_workspace] in E.
  pose proof (f_equal fst E) as Hr. by rewrite sweep_directory_Ok in Hr.
Qed.

Lemma commit_steps prepared ip st :
  fleet_ok st.1 → holds_reservation sid wid ip st → assigned_ip prepared = Some ip →
  rtc fleet_step st.1 (write_txn (sh_commit h) (commit_runtime prepared sid wid) st).2.1.
Proof.
  intros Hok Hres Hip. etrans; [by apply Hco|].
  assert (fleet_ok (before (sh_commit h) st).1) as Hok' by by eapply fleet_steps_ok; [apply Hco|].
  unfold write_txn, transact. destruct (reachable (sh_commit h)); cbn; [|done].
  destruct (commit_runtime _ _ _ _) as [[w'|e] [r1 h1]] eqn:E; [|done].
  destruct (negb _); [done|].
  apply commit_runtime_Ok in E as (w & Hw & Hs & [= -> ->] & ->).
  set (w' := with_runtime _ _ _ _ _ _ _ _).
  assert (rtc fleet_step (before (sh_commit h) st).1
    (bump_generation (set_workspace sid wid w' (before (sh_commit h) st).1))) as Hstep; [|by destruct (saved _)].
  apply rtc_l with (set_workspace sid wid w' (before (sh_commit h) st).1); [|apply rtc_once; by apply step_same].
  apply (step_edit _ _ _ w); [done|done|done|]. intros Hstr. left.
  destruct (Hkeep Hstr st w Hw Hs) as (w0 & Hw0 & Hs0 & Hw1). cbn. rewrite Hip, Hw1. symmetry. by apply Hres.
Qed.

Lemma persist_started_Ok b1 b2 w started st prepared st' :
  persist_started_workspace_runtime b1 b2 w started st = (Ok prepared, st') →
  prepared = started_record started w ∧ st'.1 = st.1 ∧ sessions st'.2 = sessions st.2.
Proof.
  unfold persist_started_workspace_runtime, persist_workspace_metadata. intros E. stm_inv E. done.
Qed.

Lemma persist_started_frame b1 b2 w started st :
  let st' := (persist_started_workspace_runtime b1 b2 w started st).2 in
  st'.1 = st.1 ∧ sessions st'.2 = sessions st.2.
Proof. by destruct b1, b2. Qed.

Lemma record_runtime_safe sb snapshot started :
  safe_from (holds_reservation sid wid (started_ip started)) (record_runtime h sb sid wid snapshot started).
Proof.
  unfold record_runtime. set (P := holds_reservation sid wid (started_ip started)).
  apply safe_from_bind with (λ _, P); [apply safe_from_any; auto with enclave| |intros _].
  { intros st a st' HP E. by stm_inv E. }
  apply safe_from_bind with (λ prepared st, P st ∧ assigned_ip prepared = Some (started_ip started)).
  - apply safe_from_on_error; [|auto using fleet_safe_bind with enclave].
    apply safe_from_any. unfold persist_started_workspace_runtime. auto using fleet_safe_bind with enclave.
  - intros st prepared st' HP E. apply on_error_Ok in E; [|intros; by rewrite undo_runtime_fails].
    apply persist_started_Ok in E as (-> & E & _). split; [|done].
    intros w. rewrite E. apply HP.
  - intros prepared. apply safe_from_bind with (λ _ _, True).
    + apply safe_from_on_error; [|auto using fleet_safe_bind with enclave].
      intros st [HP Hip] Hok. by eapply commit_steps.
    + done.
    + intros m. apply safe_from_any. auto using fleet_safe_bind with enclave.
Qed.

Lemma launch_reserved_safe sb snapshot ip :
  safe_from (holds_reservation sid wid ip) (launch_reserved h sb sid wid snapshot ip).
Proof.
  unfold launch_reserved. set (P := holds_reservation sid wid ip).
  apply safe_from_bind with (λ _, P); [apply safe_from_any; auto with enclave| |intros _].
  { intros st a st' HP E. by stm_inv E. }
  destruct (negb (sh_rootfs_ready h)); [apply safe_from_any; auto using fleet_safe_bind with enclave|].
  apply safe_from_bind with (λ _, P); [apply safe_from_any; auto with enclave| |intros _].
  { intros st a st' HP E. by stm_inv E. }
  apply safe_from_bind with (λ started, holds_reservation sid wid (started_ip started)).
  - apply safe_from_on_error; [apply safe_from_any, launch_safe|auto using fleet_safe_bind with enclave].
  - intros st started st' HP E. apply on_error_Ok in E; [|done].
    apply launch_ip in E as (-> & E & _). intros w. rewrite E. apply HP.
  - intros started. apply record_runtime_safe.
Qed.

Lemma reserve_and_launch_safe sb snapshot :
  env_safe (sh_reserve h) → fleet_safe (reserve_and_launch h sb sid wid snapshot).
Proof.
  intros Hre st Hst. unfold reserve_and_launch.
  assert (Hs := fleet_safe_write (sh_reserve h) _ Hre
    (mark_workspace_starting_refines (sh_daemon_max h) (sh_others h) (sh_reserve_persist h) sid wid) st Hst).
  destruct (write_txn _ _ st) as [reserve st'] eqn:E. cbn in Hs.
  assert (fleet_ok st'.1) as Hok' by by eapply fleet_steps_ok.
  destruct (sh_journal h), reserve as [ip|e]; try exact Hs; (etrans; [exact Hs|]).
  - apply launch_reserved_safe; [|done].
    apply write_txn_cases in E as [(? & [r1 h1] & [= <-] & Em & ->)|[[? _]|(? & ? & ? & _)]]; [|done..].
    apply mark_workspace_starting_Ok in Em as (w & o & Hw & Hr1 & _). cbn in Hr1. subst r1.
    intros w'. cbn. rewrite find_workspace_bump.
    rewrite find_set_workspace, decide_True; [by intros [= <-]|].
    apply find_workspace_Some in Hw as (e & ? & _). split_and!; try done.
  - assert (fleet_safe (A := WorkspaceMetadata) (give_back h sid wid;; throw "failed to begin journal")) as Hg
      by auto using fleet_safe_bind with enclave.
    by apply Hg.
Qed.
End safety.

Lemma refresh_live_runtime_safe {M : Mode} h sid snapshot :
  env_safe (rf_txn h) → fleet_safe (refresh_live_runtime h sid snapshot).
Proof.
  intros Ht. unfold refresh_live_runtime. destruct (option_zip _ _) as [[p t]|]; [|auto with enclave].
  destruct (negb _); [auto with enclave|]. auto using fleet_safe_bind with enclave.
Qed.

(** The other requests that run while a start is in flight keep the fleet's
    promises; in the strict reading they also leave the reservation of the
    workspace being started alone. *)
Definition start_env {M : Mode} (h : start_host) (sandbox_selector workspace_selector : string) (st : world) : Prop :=
  env_safe (sh_resolve h) ∧ env_safe (rf_txn (sh_refresh h)) ∧ env_safe (sh_release h) ∧
  env_safe (sh_reserve h) ∧ env_safe (sh_commit h) ∧ env_safe (sh_rollback h) ∧ env_safe (sh_sweep h) ∧
  ∀ sid wid m snapshot, strict = true →
    resolve_start_target (sh_daemon_max h) sandbox_selector workspace_selector
      (before (sh_resolve h) st).1 = Ok (sid, wid, m, snapshot) →
    keeps_reservation sid wid (sh_commit h).

Lemma start_workspace_steps {M : Mode} h sb ws st :
  start_env h sb ws st → fleet_ok st.1 →
  rtc fleet_step st.1 (start_workspace_with_security h sb ws st).2.1.
Proof.
  intros (H1 & H2 & H3 & H4 & H5 & H6 & H7 & Hk) Hok. unfold start_workspace_with_security, mbind at 1, stm_bind at 1.
  unfold read_txn. assert (Hs := H1 st Hok).
  assert (fleet_ok (before (sh_resolve h) st).1) as Hok1 by by eapply fleet_steps_ok.
  destruct (reachable (sh_resolve h)); [|done].
  destruct (resolve_start_target _ _ _ _) as [[[[sid wid] m] snapshot]|e] eqn:E; [|done].
  specialize (λ Hstr, Hk sid wid m snapshot Hstr eq_refl). etrans; [exact Hs|]. clear Hs E.
  assert (∀ s, fleet_safe (reserve_and_launch h m sid wid s)) as Hrl by (intros; by apply reserve_and_launch_safe).
  revert Hok1. generalize (before (sh_resolve h) st). intros st1 Hok1.
  case_bool_decide; [|by apply Hrl].
  match goal with |- rtc _ _ (?m st1).2.1 => enough (fleet_safe m) as Hs by by apply Hs end.
  apply fleet_safe_bind; [|intros [w|]].
  - by apply refresh_live_runtime_safe.
  - apply fleet_safe_ret.
  - unfold release_dead_runtime. auto using fleet_safe_bind with enclave.
Qed.

(** ** Capacity *)

Definition running_in (l : list WorkspaceMetadata) : Z :=
  Z.of_nat (length (filter (λ w, occupies w = true) l)).

Lemma length_filter_sum {A} (P : A → bool) (l : list A) :
  length (filter (λ a, P a = true) l) = sum_list_with (λ a, if P a then 1%nat else 0%nat) l.
Proof.
  induction l as [|a l IH]; [done|]. rewrite filter_cons. cbn [sum_list_with foldr].
  case_decide as Ha; [rewrite Ha; cbn [length]; by rewrite IH|].
  apply not_true_is_false in Ha. rewrite Ha. by rewrite IH.
Qed.

Lemma count_slots_delete wid (m : gmap string WorkspaceMetadata) :
  (∀ k w, m !! k = Some w → id w = k) →
  count_slots wid (btree_values m)
    = Z.of_nat (msum (λ w, if occupies w then 1%nat else 0%nat) (delete wid m)).
Proof.
  intros Hids. unfold count_slots. rewrite length_filter_sum, <-msum_values. f_equal.
  destruct (m !! wid) as [w|] eqn:Hw.
  - rewrite (msum_delete _ m wid w) by done. unfold occupies_slot at 1.
    rewrite (Hids wid w Hw), bool_decide_eq_true_2 by done. cbn.
    apply Nat.le_antisymm; apply msum_mono; intros k y [? Hy]%lookup_delete_Some; exists y;
      rewrite lookup_delete_ne by done; (split; [done|]); unfold occupies_slot;
      rewrite (Hids k y Hy), bool_decide_eq_false_2 by done; done.
  - rewrite delete_id by done. apply Nat.le_antisymm; apply msum_mono; intros k y Hy; exists y;
      (split; [done|]); unfold occupies_slot; rewrite (Hids k y Hy), bool_decide_eq_false_2 by congruence; done.
Qed.

Lemma running_in_set e wid w :
  occupies w = true → ids_ok e →
  running_in (btree_values (<[wid := w]> (workspaces e))) = 1 + count_slots wid (btree_values (workspaces e)).
Proof.
  intros Ho Hids. unfold running_in. rewrite length_filter_sum, <-msum_values.
  rewrite <-insert_delete_eq, msum_insert by apply lookup_delete_eq. rewrite Ho.
  rewrite (count_slots_delete wid (workspaces e) Hids). lia.
Qed.

Lemma sum_list_with_bind {A B} (f : B → nat) (g : A → list B) (l : list A) :
  sum_list_with f (l ≫= g) = sum_list_with (λ a, sum_list_with f (g a)) l.
Proof. induction l as [|a l IH]; [done|]. cbn. rewrite sum_list_with_app. by rewrite IH. Qed.

Lemma fleet_sum f r : sum_list_with f (fleet r) = msum (λ e, msum f (workspaces e)) (sandboxes r).
Proof.
  unfold fleet. rewrite sum_list_with_bind, msum_values.
  induction (btree_values (sandboxes r)) as [|e l IH]; cbn; [done|]. by rewrite IH, msum_values.
Qed.

(** No id is used in two sandboxes; workspace ids end in random characters. *)
Definition unique_ids (r : Registry) : Prop :=
  ∀ sid1 sid2 wid, is_Some (find_workspace r sid1 wid) → is_Some (find_workspace r sid2 wid) → sid1 = sid2.

Definition slot (w : WorkspaceMetadata) : nat := if occupies w then 1%nat else 0%nat.

Lemma running_fleet_set {M : Mode} r sid wid w e :
  fleet_ok r → unique_ids r → sandboxes r !! sid = Some e → is_Some (workspaces e !! wid) →
  occupies w = true → running_in (fleet (set_workspace sid wid w r)) = 1 + count_slots wid (fleet r).
Proof.
  intros Hok Hu He [w0 Hw0] Ho. unfold running_in, count_slots. rewrite !length_filter_sum, !fleet_sum.
  set (e' := mkEntry (metadata e) (<[wid := w]> (workspaces e))).
  assert (sandboxes (set_workspace sid wid w r) = <[sid := e']> (sandboxes r)) as ->.
  { unfold set_workspace. cbn. apply map_eq. intros k. destruct (decide (k = sid)) as [->|].
    - by rewrite lookup_alter_eq, lookup_insert_eq, He.
    - by rewrite lookup_alter_ne, lookup_insert_ne. }
  rewrite <-insert_delete_eq, msum_insert by apply lookup_delete_eq.
  rewrite (msum_delete (λ e, msum _ (workspaces e)) (sandboxes r) sid e He).
  assert (∀ sid2 e2, sandboxes r !! sid2 = Some e2 → sid2 ≠ sid →
    msum (λ a, if occupies_slot wid a then 1%nat else 0%nat) (workspaces e2) = msum slot (workspaces e2)) as Hoth.
  { intros sid2 e2 He2 Hne. pose proof (count_slots_delete wid (workspaces e2) (ok_ids r Hok sid2 e2 He2)) as Hc.
    unfold count_slots in Hc. rewrite length_filter_sum, <-msum_values, delete_id in Hc; [unfold slot; lia|].
    apply eq_None_not_Some. intros Hs. apply Hne, (Hu sid2 sid wid).
    - unfold find_workspace. by rewrite He2.
    - unfold find_workspace. rewrite He. by exists w0. }
  assert (msum (λ e, msum slot (workspaces e)) (delete sid (sandboxes r))
    = msum (λ e, msum (λ a, if occupies_slot wid a then 1%nat else 0%nat) (workspaces e)) (delete sid (sandboxes r)))
    as Hrest.
  { apply Nat.le_antisymm; apply msum_mono; intros k y [? Hy]%lookup_delete_Some; exists y;
      rewrite lookup_delete_ne by done; (split; [done|]); by rewrite (Hoth k y). }
  pose proof (running_in_set e wid w Ho (ok_ids r Hok sid e He)) as Hin.
  unfold running_in, count_slots in Hin. rewrite !length_filter_sum, <-!msum_values in Hin.
  cbn [workspaces e']. unfold slot in *. lia.
Qed.

(** C25: the check and the reservation are one transaction, so a start never takes
    a slot that is not there: after a start has marked its workspace [Starting],
    the workspaces that are starting or running are within the sandbox's limit,
    and within the daemon's over the whole fleet. *)
Theorem start_respects_capacity {M : Mode} max others persist sid wid st ip st' e' :
  fleet_ok st.1 → mark_workspace_starting max others persist sid wid st = (Ok ip, st') →
  sandboxes st'.1 !! sid = Some e' →
  (∀ limit, max_running_workspaces (sb_limits (metadata e')) = Some limit →
     running_in (btree_values (workspaces e')) ≤ limit) ∧
  (∀ limit, max = Some limit → unique_ids st.1 → running_in (fleet st'.1) ≤ limit).
Proof.
  intros Hok (w & o & Hw & Hst' & _ & Hcap & _)%mark_workspace_starting_Ok He'.
  apply find_workspace_Some in Hw as (e & He & Hw). unfold ensure_start_capacity in Hcap. rewrite He in Hcap.
  rewrite Hst' in He'. apply sandboxes_set_workspace in He' as [[? _]|[_ (e0 & He0 & ->)]]; [done|].
  simplify_eq. cbn [metadata workspaces].
  apply bind_Ok in Hcap as (e1 & [= <-] & Hcap). apply bind_Ok in Hcap as ([] & Hsb & Hdm). split.
  - intros limit Hl. rewrite Hl in Hsb. destruct (Z.leb_spec limit (count_slots wid (btree_values (workspaces e)))); [done|].
    rewrite running_in_set; [lia|done|]. by apply (ok_ids _ Hok sid).
  - intros limit -> Hu. destruct (Z.leb_spec limit (count_slots wid (fleet st.1))); [done|].
    rewrite Hst', (running_fleet_set _ _ _ _ e); [lia|done..|by exists w|done].
Qed.

(** ** A start is all or nothing *)

Definition works (t : txn_host) : Prop := reachable t = true ∧ saved t = Committed.
Definition stop_works (h : stop_host) : Prop :=
  st_cleanup h = true ∧ st_certificate h = true ∧ st_persist h = true.

Section all_or_nothing.
Context (h : start_host) (sid wid : string) (p : Z).

(** What the operation knows of the world: the record of its workspace, and
    whether its session runs. *)
Definition at_state (w : WorkspaceMetadata) (live : bool) (st : world) : Prop :=
  find_workspace st.1 sid wid = Some w ∧ version st.1 = REGISTRY_VERSION ∧
  bool_decide (p ∈ sessions st.2) = live.

(** The lease keeps other lifecycle operations away from this workspace. *)
Definition quiet (t : txn_host) : Prop :=
  ∀ w live st, at_state w live st → at_state w live (before t st).

Hypothesis Hq_reserve : quiet (sh_reserve h).
Hypothesis Hq_commit : quiet (sh_commit h).
Hypothesis Hq_rollback : quiet (sh_rollback h).
Hypothesis Hq_sweep : quiet (sh_sweep h).
Hypothesis Hreserve : conclusive (sh_reserve h).
Hypothesis Hworks : works (sh_rollback h) ∧ stop_works (sh_rollback_host h).
Hypothesis Hphases : sh_phase_verify h = true ∧ sh_phase_launch h = true ∧ sh_phase_commit h = true ∧
  sh_succeed h = true.
Hypothesis Hstop : sa_ended (lh_stop (sh_launch h)) = true ∧ sa_ended (sh_stop_session h) = true.
Hypothesis Hpid : ∀ s, lh_session (sh_launch h) = Some s → s.1 = p.

Lemma at_state_set w w' live st :
  at_state w live st → at_state w' live (set_workspace sid wid w' st.1, st.2).
Proof.
  intros (Hf & Hv & Hl). split_and!; [|done..]. cbn. rewrite find_set_workspace, decide_True; [done|].
  apply find_workspace_Some in Hf as (e & ? & _). split_and!; [done..|by exists e].
Qed.

Lemma give_back_effect w live st :
  at_state w live st →
  ∃ st', give_back h sid wid st = (Ok tt, st') ∧
    at_state (stopped_record (st_now (sh_rollback_host h)) w) live st'.
Proof.
  intros Hat%Hq_rollback. destruct Hworks as [[Hr Hs] (Hc & Hce & Hp)].
  unfold give_back, ignore, write_txn, transact. rewrite Hr. cbn [negb].
  generalize dependent (before (sh_rollback h) st). intros st1 Hat. pose proof Hat as (Hf & Hv & _).
  pose proof Hf as (e & He & Hw)%find_workspace_Some.
  unfold mark_workspace_start_failed, set_workspace_stopped, commit_workspace_stopped, mark_workspace_stopped,
    get_sandbox, get_workspace, persist_workspace_metadata, put_workspace, on_registry, mbind, stm_bind.
  cbn. rewrite He. cbn. rewrite Hf. cbn. rewrite Hc. cbn. rewrite Hf. cbn. rewrite ?Hf. cbn.
  rewrite Hp, Hce. cbn. rewrite Hs, Hv. cbn. eexists. split; [done|]. by eapply (at_state_set w _ live st1).
Qed.

Lemma stop_session_effect a w live st : sa_ended a = true →
  at_state w live st → ∃ st', ignore (stop_session a p) st = (Ok tt, st') ∧ at_state w false st'.
Proof.
  intros Ha (Hf & Hv & _). eexists. split; [done|]. unfold stop_session, mbind, stm_bind. rewrite Ha. cbn.
  assert (∀ r : bool, (assert r "failed to stop session" : stm world unit)
    (st.1, mkHost (workspace_json st.2) (sandbox_json st.2) (sessions st.2 ∖ {[p]})) =
    (if r then Ok tt else bail "failed to stop session",
     (st.1, mkHost (workspace_json st.2) (sandbox_json st.2) (sessions st.2 ∖ {[p]})))) as -> by by intros [].
  split_and!; [done..|]. apply bool_decide_eq_false. cbn. set_solver.
Qed.

Lemma reserve_sessions max others persist st :
  sessions (mark_workspace_starting max others persist sid wid st).2.2 = sessions st.2.
Proof.
  apply (λ H, H : preserves (λ st', sessions st'.2 = sessions st.2) _); [|done].
  unfold mark_workspace_starting, get_workspace, put_workspace, on_registry, persist_workspace_metadata.
  solve_preserves.
Qed.

Lemma reserve_effect w st res st' :
  at_state w false st →
  write_txn (sh_reserve h)
    (mark_workspace_starting (sh_daemon_max h) (sh_others h) (sh_reserve_persist h) sid wid) st = (res, st') →
  match res with
  | Ok ip => at_state (reserved_record ip w) false st' ∧ is_Some (parse_host_octet ip)
  | Err _ => at_state w false st'
  end.
Proof.
  intros Hat%Hq_reserve H. apply write_txn_conclusive in H; [|exact Hreserve].
  generalize dependent (before (sh_reserve h) st). intros st1 (Hf & Hv & Hl).
  pose proof (reserve_sessions (sh_daemon_max h) (sh_others h) (sh_reserve_persist h) st1) as Hse.
  intros [(ip & [r1 h1] & -> & Em & ->)|(Hno & E1 & E2)].
  - rewrite Em in Hse. cbn in Hse.
    apply mark_workspace_starting_Ok in Em as (w0 & o & Hw & Hr1 & _ & _ & Ho & _).
    cbn in Hr1. subst r1. assert (w0 = w) as -> by congruence.
    split; [|by exists o]. assert (at_state w false st1) as Hat by done.
    destruct (at_state_set w (reserved_record ip w) false st1 Hat) as (Hf' & _ & _).
    split_and!; [exact Hf'|done|]. cbn. by rewrite Hse.
  - destruct res; [done|]. unfold at_state. rewrite E1. split_and!; [done..|].
    destruct E2 as [-> | ->]; [done|]. by rewrite Hse.
Qed.

Lemma commit_effect prepared w live st res st' :
  at_state w live st → status w = Starting →
  write_txn (sh_commit h) (commit_runtime prepared sid wid) st = (res, st') →
  match res with
  | Ok w' => at_state w' live st' ∧ status w' = Running ∧ runtime_pid w' = runtime_pid prepared ∧
      assigned_ip w' = assigned_ip prepared
  | Err _ => ∃ w', at_state w' live st'
  end.
Proof.
  intros Hat%Hq_commit Hst. unfold write_txn, transact. destruct (reachable _); [|intros [= <- <-]; by exists w]. cbn [negb].
  generalize dependent (before (sh_commit h) st). intros st1 Hat. pose proof Hat as (Hf & Hv & Hl).
  destruct (commit_runtime prepared sid wid st1) as [[w'|e] [r1 h1]] eqn:Em.
  - apply commit_runtime_Ok in Em as (w0 & Hw & _ & [= -> ->] & Hw').
    assert (at_state w' live (bump_generation (set_workspace sid wid w' st1.1), st1.2)) as Hat'
      by (destruct (at_state_set w w' live st1 Hat) as (Hf' & _ & _); by split_and!).
    destruct (negb _); [intros [= <- <-]; by exists w|].
    destruct (saved _); intros [= <- <-]; [by exists w|by exists w'|]. split; [done|]. by rewrite Hw'.
  - intros [= <- <-]. unfold commit_runtime, get_sandbox, get_workspace, mbind, stm_bind in Em.
    pose proof Hf as (e0 & He0 & _)%find_workspace_Some. cbn in Em. rewrite He0 in Em. cbn in Em.
    rewrite Hf in Em. cbn in Em. rewrite bool_decide_eq_false_2 in Em by naive_solver. by cbn in Em.
Qed.

(** The record a failed start leaves. *)
Definition given_back (w : WorkspaceMetadata) : Prop :=
  status w = Stopped ∧ runtime_pid w = None ∧ assigned_ip w = None.

Lemma undo_runtime_effect sb snapshot ticks ip w live st :
  at_state w live st →
  ∃ w', at_state w' false (undo_runtime h sb sid wid snapshot (mkStarted p ticks ip) st).2 ∧ given_back w'.
Proof.
  intros Hat. destruct (stop_session_effect (sh_stop_session h) w live st (proj2 Hstop) Hat) as (st1 & E1 & Hat1).
  destruct (give_back_effect w false st1 Hat1) as (st2 & E2 & Hat2).
  exists (stopped_record (st_now (sh_rollback_host h)) w). split; [|done].
  unfold undo_runtime, mbind, stm_bind. cbn [pid]. rewrite E1, E2.
  destruct (sweep_directory_registry (sh_sweep h) (sh_sweep_remove h) sb snapshot st2) as [F1 F2].
  apply Hq_sweep in Hat2. unfold at_state. by rewrite F1, F2.
Qed.

Lemma record_runtime_effect sb snapshot ticks ip w st res st' :
  at_state w true st → status w = Starting →
  record_runtime h sb sid wid snapshot (mkStarted p ticks ip) st = (res, st') →
  match res with
  | Ok w' => at_state w' true st' ∧ status w' = Running ∧ runtime_pid w' = Some p ∧ assigned_ip w' = Some ip
  | Err _ => ∃ w', at_state w' false st' ∧ given_back w'
  end.
Proof.
  intros Hat Hst. destruct Hphases as (_ & _ & Hph & Hsu).
  unfold record_runtime, mbind at 1, stm_bind at 1. rewrite Hph. cbn [assert mret stm_ret].
  unfold mbind at 1, stm_bind at 1, on_error at 1.
  destruct (persist_started_workspace_runtime _ _ _ _ st) as [[prepared|e] st1] eqn:E.
  - apply persist_started_Ok in E as (-> & E1 & E2).
    assert (at_state w true st1) as Hat1 by (unfold at_state; rewrite E1, E2; exact Hat).
    unfold mbind at 1, stm_bind at 1, on_error at 1.
    destruct (write_txn _ _ st1) as [r2 st2] eqn:Ec. apply (commit_effect _ w true) in Ec; [|done..].
    destruct r2 as [m|e].
    + unfold mbind, stm_bind. rewrite Hsu. cbn. intros [= <- <-]. destruct Ec as (? & ? & -> & ->). done.
    + destruct Ec as [w1 Hat2]. rewrite undo_runtime_fails. intros [= <- <-]. by eapply undo_runtime_effect.
  - assert (st1.1 = st.1 ∧ sessions st1.2 = sessions st.2) as [E1 E2].
    { pose proof (persist_started_frame (sh_write_refs h) (sh_persist h) snapshot (mkStarted p ticks ip) st) as Hfr.
      by rewrite E in Hfr. }
    assert (at_state w true st1) as Hat1 by (unfold at_state; rewrite E1, E2; exact Hat).
    rewrite undo_runtime_fails. intros [= <- <-]. by eapply undo_runtime_effect.
Qed.

Lemma undo_session_effect {A} w live s message st (res : result A) st' :
  at_state w live st → s.1 = p → undo_session (sh_launch h) s message st = (res, st') →
  is_ok res = false ∧ at_state w false st'.
Proof.
  intros Hat Hs. unfold undo_session. rewrite Hs.
  destruct (stop_session_effect _ w live st (proj1 Hstop) Hat) as (st1 & E & Hat1). unfold mbind, stm_bind.
  rewrite E. by intros [= <- <-].
Qed.

Lemma launch_effect ip w st res st' :
  at_state w false st → is_Some (parse_host_octet ip) →
  launch_workspace_runtime (sh_launch h) ip st = (res, st') →
  match res with
  | Ok started => pid started = p ∧ started_ip started = ip ∧ at_state w true st'
  | Err _ => at_state w false st'
  end.
Proof.
  intros Hat Hip. unfold launch_workspace_runtime, mbind, stm_bind.
  destruct (lh_storage _); cbn [assert mret stm_ret throw lift bail]; [|by intros [= <- <-]].
  destruct (lh_source _); cbn [assert mret stm_ret throw lift bail]; [|by intros [= <- <-]].
  unfold start_session. generalize Hpid.
  case (lh_session (sh_launch h)); [intros s Hp|by intros _ [= <- <-]]. pose proof (Hp s eq_refl) as Hs1. unfold mbind, stm_bind. cbn [modify mret stm_ret].
  set (st1 := (st.1, mkHost _ _ _)).
  assert (at_state w true st1) as Hat1.
  { destruct Hat as (?&?&_). split_and!; [done..|]. apply bool_decide_eq_true. cbn. set_solver. }
  destruct (negb (lh_limits _)); [|destruct (negb (lh_auth _)); [|destruct (negb _)]];
    [intros Hu; apply (undo_session_effect w true) in Hu as [Ho ?]; [|done..]; by destruct res..|].
  intros [= <- <-]. split; [exact Hs1|done].
Qed.

(** C4: a start is all or nothing for the record and the session.  While the
    workspace's lease keeps other lifecycle operations away, the journal can be
    written, the reservation is saved or lost for certain, and a rollback can
    write the registry, release the resources and end the session it stops, a
    start either leaves its workspace [Running] with a live session and the
    address it reserved, or gives everything back: the record is the one it
    found or a stopped one without address and runtime, and no session of this
    start is left running. *)
Theorem start_all_or_nothing sb snapshot w0 st res st' :
  at_state w0 false st → reserve_and_launch h sb sid wid snapshot st = (res, st') →
  match res with
  | Ok w => at_state w true st' ∧ status w = Running ∧ runtime_pid w = Some p ∧
      ∃ ip, (write_txn (sh_reserve h)
               (mark_workspace_starting (sh_daemon_max h) (sh_others h) (sh_reserve_persist h) sid wid) st).1 = Ok ip ∧
        assigned_ip w = Some ip
  | Err _ => ∃ w, at_state w false st' ∧ (w = w0 ∨ given_back w)
  end.
Proof.
  intros Hat. unfold reserve_and_launch. destruct (write_txn _ _ st) as [reserve st1] eqn:E.
  apply (reserve_effect w0) in E; [|done]. destruct Hphases as (Hp1 & Hp2 & _ & _).
  destruct reserve as [ip|e]; [|destruct (sh_journal h); intros [= <- <-]; exists w0; by auto].
  destruct E as [Hat1 Hip].
  assert (∀ (A : Type) (e : error), ∃ st2 : world, (give_back h sid wid;; lift (Err e)) st1 = (@Err A e, st2) ∧
    ∃ w, at_state w false st2 ∧ (w = w0 ∨ given_back w)) as Hback.
  { intros A e. destruct (give_back_effect _ _ _ Hat1) as (st2 & E2 & Hat2). exists st2.
    unfold mbind, stm_bind. rewrite E2. split; [done|]. eexists. split; [done|]. by right. }
  destruct (sh_journal h).
  2:{ destruct (Hback WorkspaceMetadata (plain "failed to begin journal")) as (st2 & E2 & Hat2).
      unfold throw, bail. rewrite E2. by intros [= <- <-]. }
  unfold launch_reserved, mbind at 1, stm_bind at 1. rewrite Hp1. cbn [assert mret stm_ret].
  destruct (sh_rootfs_ready h); cbn [negb].
  2:{ destruct (Hback WorkspaceMetadata (plain "sandbox rootfs is not ready")) as (st2 & E2 & Hat2).
      unfold throw, bail. rewrite E2. by intros [= <- <-]. }
  unfold mbind at 1, stm_bind at 1. rewrite Hp2. cbn [assert mret stm_ret].
  unfold mbind at 1, stm_bind at 1, on_error at 1.
  destruct (launch_workspace_runtime _ ip st1) as [[started|e] st2] eqn:El;
    apply (launch_effect ip (reserved_record ip w0)) in El; try done.
  - destruct El as (Hp & Hsip & Hat2). destruct started as [p' ticks ip']. cbn in Hp, Hsip. subst p' ip'.
    intros Hrec. apply (record_runtime_effect sb snapshot ticks ip (reserved_record ip w0)) in Hrec; [|done..].
    destruct res as [w|e]; [|destruct Hrec as (w & ? & ?); eauto]. destruct Hrec as (? & ? & ? & Hwip).
    split_and!; try done. by exists ip.
  - destruct (give_back_effect _ _ _ El) as (st3 & E3 & Hat3). unfold mbind, stm_bind. rewrite E3.
    intros [= <- <-]. eexists. split; [done|]. by right.
Qed.
End all_or_nothing.

(** The rollback does not cover the journal.  When the note that opens the
    next phase cannot be written after the reservation, the start reports an
    error and leaves its workspace [Starting] with the address held, however
    healthy everything else is; [start/mod.rs] says such a record has no
    operation that will ever finish it. *)
Theorem journal_failure_strands_start h sb sid wid p snapshot w0 st res st' ip st1 :
  at_state sid wid p w0 false st → quiet sid wid p (sh_reserve h) → conclusive (sh_reserve h) →
  sh_journal h = true → sh_phase_verify h = false →
  write_txn (sh_reserve h)
    (mark_workspace_starting (sh_daemon_max h) (sh_others h) (sh_reserve_persist h) sid wid) st = (Ok ip, st1) →
  reserve_and_launch h sb sid wid snapshot st = (res, st') →
  is_ok res = false ∧ ∃ w, find_workspace st'.1 sid wid = Some w ∧ status w = Starting ∧ assigned_ip w = Some ip.
Proof.
  intros Hat Hq Hcc Hj Hp E. unfold reserve_and_launch. rewrite E, Hj.
  unfold launch_reserved, mbind, stm_bind. rewrite Hp. intros [= <- <-]. split; [done|].
  apply (reserve_effect h sid wid p Hq Hcc w0) in E as [(Hf & _) _]; [|done].
  exists (reserved_record ip w0). done.
Qed.

(** ** Concrete runs *)

Definition sample_limits : WorkspaceLimits := mkWsLimits None None None None None None.
Definition sample_workspace (wid nm : string) (st : WorkspaceStatus) (p : option Z) (ip : option string)
    : WorkspaceMetadata :=
  mkWorkspace wid "s" nm "2024-01-01T00:00:00Z" None None None ("/s/" +:+ wid) "" "/home" None "" "" "" "" ""
    [] None [] [] st p p default_refs false false None None sample_limits ip.
Definition sample_sandbox (max : option Z) : SandboxMetadata :=
  mkSandbox "s" "box" "stable" "" Debootstrap "2024-01-01T00:00:00Z" "/s" "/s/rootfs" None "" "" ""
    (mkSbLimits None None None None max) SbRunning.
Definition sample_world (max : option Z) (ws : list WorkspaceMetadata) : world :=
  (mkRegistry 1 0 {["s" := mkEntry (sample_sandbox max) (list_to_map ((λ w, (id w, w)) <$> ws))]},
   mkHost ∅ ∅ ∅).

Definition sample_txn : txn_host := mkTxn (λ st, st) true Committed.
Definition sample_stop : stop_host := mkStop true true true "2024-01-02T00:00:00Z".
Definition sample_refresh : refresh_host := mkRefresh (λ _ _, true) true sample_txn true.

(** A host on which everything works, but for the phase note, the launch and the
    network as given. *)
Definition sample_start (phase network : bool) : start_host :=
  mkStart None sample_txn sample_refresh sample_txn sample_stop true sample_txn ∅ true phase true true
    (mkLaunch true true (Some (42, 7)) true true network ended) true true true sample_txn ended true true true true
    sample_txn sample_stop sample_txn true.

Lemma quiet_sample sid wid p : quiet sid wid p sample_txn.
Proof. by intros w live st. Qed.

Lemma start_all_or_nothing_witness :
  let stopped := sample_workspace "a" "web" Stopped None None in
  let st := sample_world None [stopped] in
  let run b := reserve_and_launch (sample_start true b) (sample_sandbox None) "s" "a" stopped st in
  is_ok (run true).1 = true ∧
  (∃ w, at_state "s" "a" 42 w true (run true).2 ∧ status w = Running) ∧
  (∃ w, at_state "s" "a" 42 w false (run false).2).
Proof.
  intros stopped st run.
  assert (at_state "s" "a" 42 stopped false st) as Hat by by split_and!; vm_compute.
  split; [by vm_compute|]. split.
  - destruct (run true) as [res st'] eqn:E.
    pose proof (start_all_or_nothing (sample_start true true) "s" "a" 42 (quiet_sample _ _ _)
      (quiet_sample _ _ _) (quiet_sample _ _ _) (quiet_sample _ _ _) ltac:(done) ltac:(by split_and!)
      ltac:(by split_and!) ltac:(by split) ltac:(by intros s [= <-]) (sample_sandbox None) stopped stopped st res st' Hat E) as H.
    destruct res as [w|e]; [|by vm_compute in E]. exists w. by destruct H as (? & ? & _).
  - destruct (run false) as [res st'] eqn:E.
    pose proof (start_all_or_nothing (sample_start true false) "s" "a" 42 (quiet_sample _ _ _)
      (quiet_sample _ _ _) (quiet_sample _ _ _) (quiet_sample _ _ _) ltac:(done) ltac:(by split_and!)
      ltac:(by split_and!) ltac:(by split) ltac:(by intros s [= <-]) (sample_sandbox None) stopped stopped st res st' Hat E) as H.
    destruct res as [w|e]; [by vm_compute in E|]. destruct H as (w & ? & _). by exists w.
Defined.

Lemma journal_failure_strands_start_witness :
  let stopped := sample_workspace "a" "web" Stopped None None in
  ∃ w, find_workspace (reserve_and_launch (sample_start false true) (sample_sandbox None) "s" "a" stopped
         (sample_world None [stopped])).2.1 "s" "a" = Some w ∧ status w = Starting.
Proof.
  intros stopped. set (st := sample_world None [stopped]).
  destruct (reserve_and_launch (sample_start false true) (sample_sandbox None) "s" "a" stopped st) as [res st'] eqn:E.
  destruct (write_txn sample_txn (mark_workspace_starting None ∅ true "s" "a") st) as [[ip|] st1] eqn:E1;
    [|by vm_compute in E1].
  destruct (journal_failure_strands_start (sample_start false true) (sample_sandbox None) "s" "a" 42 stopped stopped st res st' ip st1)
    as (_ & w & ? & ? & _); [by split_and!; vm_compute|apply quiet_sample|done|done|done|exact E1|exact E|].
  by exists w.
Defined.

Lemma sample_world_ok {M : Mode} max w :
  id w = "a" → assigned_ip w = None → disk_bytes (limits w) = None → fleet_ok (sample_world max [w]).1.
Proof.
  intros Hid Hip Hd.
  set (r1 := with_sandboxes (<["s" := mkEntry (sample_sandbox max) ∅]> ∅) default_registry).
  assert (fleet_ok r1) as Hok1.
  { apply (fleet_step_ok default_registry); [apply fleet_ok_default|].
    by apply (step_add_sandbox default_registry (sample_sandbox max)). }
  apply (fleet_step_ok (set_workspace "s" "a" w r1)); [|by apply step_same; cbn; rewrite Hid].
  apply (fleet_step_ok r1); [done|]. rewrite <-Hid.
  apply (step_create r1 "s" (mkEntry (sample_sandbox max) ∅));
    [done|done|unfold disk_of; by rewrite Hd|done|done].
Qed.

Lemma start_respects_capacity_witness :
  let st := sample_world (Some 1) [sample_workspace "a" "web" Stopped None None] in
  let st' := (mark_workspace_starting (Some 1) ∅ true "s" "a" st).2 in
  running_in (fleet st'.1) ≤ 1.
Proof.
  intros st st'.
  refine (proj2 (start_respects_capacity (M := true) (Some 1) ∅ true "s" "a" st "10.200.0.10" st'
    (mkEntry (sample_sandbox (Some 1)) {["a" := reserved_record "10.200.0.10"
       (sample_workspace "a" "web" Stopped None None)]}) _ _ _) 1 eq_refl _);
    [by apply sample_world_ok|by vm_compute|by vm_compute|].
  intros sid1 sid2 wid [w1 (e1 & H1 & _)%find_workspace_Some] [w2 (e2 & H2 & _)%find_workspace_Some].
  cbn in H1, H2. apply lookup_singleton_Some in H1 as [<- _]. by apply lookup_singleton_Some in H2 as [<- _].
Defined.
