(* ===== verification/Stop.v ===== *)
(** * Stopping and destroying workspaces (src/src/workspace/control/stop, destroy)

    The teardown of one workspace with its journal and its rollbacks, the batch
    stop's registry half, and the destroy loop that resolves the workspace again
    when a runtime appeared while it was being cleaned. *)
From S2P Require Import Prelude Ipam Types Registry Records Fleet Start.
Open Scope Z_scope.

(** ** Transitions (stop/mod.rs) *)

Definition mark_workspace_stopping (persist : bool) (sid wid : string) : stm world unit :=
  w ← get_workspace sid wid;
  let w' := with_status Stopping w in
  put_workspace sid wid w';;
  persist_workspace_metadata persist w'.

Definition restore_status (persist : bool) (previous : WorkspaceStatus) (sid wid : string) : stm world unit :=
  w ← get_workspace sid wid;
  if bool_decide (status w ≠ Stopping) then mret tt
  else
    let w' := with_status previous w in
    put_workspace sid wid w';;
    persist_workspace_metadata persist w'.

(** The closure that commits a stop. *)
Definition commit_stop (h : stop_host) (current : WorkspaceMetadata) (sid wid : string)
    : stm world WorkspaceMetadata :=
  get_sandbox sid;;
  latest ← get_workspace sid wid;
  if negb (bool_decide (runtime_pid latest = runtime_pid current)) ||
     negb (bool_decide (runtime_starttime_ticks latest = runtime_starttime_ticks current))
  then throw "workspace changed while it was stopping; refusing stale metadata commit"
  else
    commit_workspace_stopped h sid wid;;
    get_workspace sid wid.

Record stop_op_host := mkStopOp {
  so_read : txn_host;
  so_journal : bool;
  so_mark : txn_host;
  so_mark_persist : bool;
  so_phase_stop : bool;
  so_rollback : txn_host;
  so_rollback_persist : bool;
  so_live_session : option Z;          (** [session::live_session_pid] *)
  so_stop : stop_answer;
  so_phase_cleanup : bool;
  so_cleanup : bool;
  so_commit : txn_host;
  so_commit_host : stop_host;
  so_succeed : bool }.

Section operation.
Context (h : stop_op_host).

Definition rollback_workspace_stopping (sid wid : string) (previous : WorkspaceStatus) : stm world unit :=
  ignore (write_txn (so_rollback h) (restore_status (so_rollback_persist h) previous sid wid)).

Definition stop_target (current : WorkspaceMetadata) : option Z :=
  let in_flight := if bool_decide (status current = Starting) then so_live_session h else None in
  match runtime_pid current with Some p => Some p | None => in_flight end.

(** The part after the [Stopping] transition and the journal are on disk. *)
Definition tear_down (sid wid : string) (current : WorkspaceMetadata) : stm world WorkspaceMetadata :=
  match stop_target current with
  | Some p => stop_session (so_stop h) p
  | None => mret tt
  end;;
  assert (so_phase_cleanup h) "failed to write journal phase";;
  assert (so_cleanup h) "workspace cleanup failed";;
  metadata ← write_txn (so_commit h) (commit_stop (so_commit_host h) current sid wid);
  assert (so_succeed h) "failed to close journal";;
  mret metadata.

Definition stop_resolved (sid wid : string) (current : WorkspaceMetadata) : stm world WorkspaceMetadata := λ st,
  match write_txn (so_mark h) (mark_workspace_stopping (so_mark_persist h) sid wid) st with
  | (stopping, st') =>
      match so_journal h, stopping with
      | true, Ok _ =>
          if so_phase_stop h then tear_down sid wid current st'
          else (rollback_workspace_stopping sid wid (status current);;
                throw "failed to write journal phase") st'
      | true, Err e => (Err e, st')
      | false, Ok _ => (rollback_workspace_stopping sid wid (status current);;
                        throw "failed to begin journal") st'
      | false, Err _ => (bail "failed to begin journal", st')
      end
  end.

Definition stop_workspace_with_certificate (sandbox_selector workspace_selector : string)
    : stm world WorkspaceMetadata :=
  target ← read_txn (so_read h) (λ r, workspace_of r sandbox_selector workspace_selector);
  let '(sid, wid, _, current) := target in
  stop_resolved sid wid current.
End operation.

(** ** Stopping every workspace of a sandbox (stop/batch.rs) *)

(** The targets, and the ids whose release succeeded: [failed_pids] are the
    sessions that did not stop, [network_incomplete] the workspaces whose network
    is still held, [cleanup_failed] those whose host cleanup failed. *)
Definition batch_targets (e : RegistrySandbox) : list WorkspaceMetadata :=
  filter (λ w, may_have_runtime (status w) = true) (btree_values (workspaces e)).

Definition confirmed_stopped (targets : list WorkspaceMetadata) (failed_pids : list Z)
    (network_incomplete cleanup_failed : list string) : list string :=
  let stopped := id <$> filter (λ w, match runtime_pid w with
                                     | Some p => bool_decide (p ∉ failed_pids)
                                     | None => true end = true) targets in
  let owners := id <$> filter (λ w, is_Some (assigned_ip w)) targets in
  filter (λ wid, wid ∉ cleanup_failed)
    (filter (λ wid, wid ∉ network_incomplete ∨ wid ∉ owners) stopped).

(** The closure that records them. *)
Fixpoint mark_all_stopped (h : stop_host) (sid : string) (ids : list string) : stm world unit :=
  match ids with
  | [] => mret tt
  | wid :: ids' => mark_workspace_stopped h sid wid;; mark_all_stopped h sid ids'
  end.

(** ** Destroying (destroy/one.rs) *)

Inductive CleanupMode := Normal | Force.
Definition is_force (m : CleanupMode) : bool := match m with Force => true | Normal => false end.
Definition cleanup_mode_as_str (m : CleanupMode) : string :=
  match m with Normal => "normal" | Force => "force" end.

Record RetainedResource := mkRetained { resource : string; detail : string }.
Record CleanupOutcome := mkOutcome { files_removed : bool; retained : list RetainedResource }.
Definition outcome_is_complete (o : CleanupOutcome) : bool :=
  files_removed o && bool_decide (retained o = []).

Definition retained_summary (l : list RetainedResource) : string :=
  String.concat "; " ((λ x, resource x +:+ ": " +:+ detail x) <$> l).

Definition DESTROY_ATTEMPTS : nat := 8.

Definition current_workspace (sid wid : string) (r : Registry)
    : result (option (SandboxMetadata * WorkspaceMetadata)) :=
  Ok (e ← sandboxes r !! sid; w ← workspaces e !! wid; Some (metadata e, w)).

(** The closure that removes the record, unless it names a runtime this pass did
    not stop. *)
Definition remove_record (snapshot : WorkspaceMetadata) (sid wid : string) : stm world bool :=
  st ← get;
  match sandboxes st.1 !! sid with
  | None => mret true
  | Some e =>
      match workspaces e !! wid with
      | None => mret true
      | Some current =>
          if bool_decide (runtime_pid current = runtime_pid snapshot) &&
             bool_decide (runtime_starttime_ticks current = runtime_starttime_ticks snapshot)
          then on_registry (remove_workspace_record sid wid);; mret true
          else mret false
      end
  end.

Record attempt_host := mkAttempt {
  da_read : txn_host;
  da_phase_cleanup : bool;
  da_cleanup : option CleanupOutcome;   (** [cleanup_workspace_artifacts] *)
  da_phase_retained : bool;
  da_certificate : bool;
  da_phase_remove : bool;
  da_remove : txn_host;
  da_remove_directory : bool }.

Definition destroy_attempt (h : attempt_host) (mode : CleanupMode) (sid wid : string)
    : stm world (option (option (WorkspaceMetadata * CleanupOutcome))) :=
  current ← read_txn (da_read h) (current_workspace sid wid);
  match current with
  | None => mret (Some None)
  | Some (_, w) =>
      assert (da_phase_cleanup h) "failed to write journal phase";;
      match da_cleanup h with
      | None => throw "workspace cleanup failed"
      | Some outcome =>
          (if bool_decide (retained outcome = []) then mret tt
           else assert (da_phase_retained h) "failed to write journal phase");;
          if negb (is_force mode) && negb (da_certificate h)
          then lift (bail_coded CleanupIncomplete "workspace destroy left resources behind")
          else
            assert (da_phase_remove h) "failed to write journal phase";;
            removed ← write_txn (da_remove h) (remove_record w sid wid);
            if removed : bool then
              (if files_removed outcome
               then assert (da_remove_directory h) "failed to remove workspace directory" else mret tt);;
              mret (Some (Some (w, outcome)))
            else mret None
      end
  end.

(** The bounded loop: an attempt that found a new runtime is repeated. *)
Fixpoint destroy_loop (attempts : list attempt_host) (mode : CleanupMode) (sid wid : string)
    : stm world (option (WorkspaceMetadata * CleanupOutcome)) :=
  match attempts with
  | [] => throw "workspace kept gaining a runtime while it was being destroyed"
  | h :: attempts' =>
      r ← destroy_attempt h mode sid wid;
      match r with Some out => mret out | None => destroy_loop attempts' mode sid wid end
  end.

Definition destroy_one (host : nat → attempt_host) : CleanupMode → string → string →
    stm world (option (WorkspaceMetadata * CleanupOutcome)) :=
  destroy_loop (host <$> seq 0 DESTROY_ATTEMPTS).

Definition destroy_workspace_with_mode (read : txn_host) (journal succeed : bool) (host : nat → attempt_host)
    (mode : CleanupMode) (sandbox_selector workspace_selector : string)
    : stm world (string * list RetainedResource) :=
  target ← read_txn read (λ r, workspace_of r sandbox_selector workspace_selector);
  let '(_, _, e, w) := target in
  assert journal "failed to begin journal";;
  destroyed ← destroy_one host mode (sb_id (metadata e)) (id w);
  assert succeed "failed to close journal";;
  mret (id w, match destroyed with Some d => retained d.2 | None => [] end).

(** ** Safety *)

Lemma harmless_status s w : harmless w (with_status s w).
Proof. unfold harmless, same_identity. cbn. auto. Qed.

Lemma put_harmless_refines {M : Mode} sid wid w w' persist :
  harmless w w' → ∀ st u st', find_workspace st.1 sid wid = Some w →
  (put_workspace sid wid w';; persist_workspace_metadata persist w') st = (Ok u, st') →
  rtc fleet_step st.1 st'.1.
Proof.
  intros Hh st u st' Hf H. apply stm_bind_Ok in H as (u1 & st1 & H1 & H). world_inv H1.
  apply persist_workspace_Ok in H as [_ ->]. apply rtc_once. by eapply harmless_step.
Qed.

Lemma mark_workspace_stopping_refines {M : Mode} persist sid wid : refines (mark_workspace_stopping persist sid wid).
Proof.
  intros st u st' H _. unfold mark_workspace_stopping in H. apply stm_bind_Ok in H as (w & st1 & H1 & H).
  world_inv H1. by eapply put_harmless_refines; [apply harmless_status| |].
Qed.

Lemma restore_status_refines {M : Mode} persist previous sid wid : refines (restore_status persist previous sid wid).
Proof.
  intros st u st' H _. unfold restore_status in H. apply stm_bind_Ok in H as (w & st1 & H1 & H). world_inv H1.
  case_bool_decide; [by stm_inv H|]. by eapply put_harmless_refines; [apply harmless_status| |].
Qed.

Lemma commit_stop_refines {M : Mode} h current sid wid : refines (commit_stop h current sid wid).
Proof.
  unfold commit_stop. apply refines_bind; [auto with enclave|intros _].
  apply refines_bind; [auto with enclave|intros latest]. destruct (_ || _); auto with enclave.
Qed.

Lemma remove_record_refines {M : Mode} snapshot sid wid : refines (remove_record snapshot sid wid).
Proof.
  intros st u st' H _. unfold remove_record in H. apply stm_bind_Ok in H as (st0 & st1 & H1 & H). stm_inv H1.
  destruct (sandboxes st.1 !! sid) as [e|]; [|by stm_inv H].
  destruct (workspaces e !! wid) as [w|]; [|by stm_inv H].
  destruct (_ && _); [|by stm_inv H]. world_inv H. apply rtc_once, step_remove.
Qed.

Lemma mark_all_stopped_refines {M : Mode} h sid ids : refines (mark_all_stopped h sid ids).
Proof.
  induction ids as [|wid ids IH]; cbn; [|auto with enclave].
  apply refines_frame. intros st u st' H. by stm_inv H.
Qed.
#[export] Hint Resolve mark_workspace_stopping_refines restore_status_refines commit_stop_refines
  remove_record_refines mark_all_stopped_refines : enclave.

Definition stop_env {M : Mode} (h : stop_op_host) : Prop :=
  env_safe (so_read h) ∧ env_safe (so_mark h) ∧ env_safe (so_rollback h) ∧ env_safe (so_commit h).

Lemma stop_workspace_safe {M : Mode} h sb ws : stop_env h → fleet_safe (stop_workspace_with_certificate h sb ws).
Proof.
  intros (H1 & H2 & H3 & H4). unfold stop_workspace_with_certificate.
  apply fleet_safe_bind; [auto with enclave|]. intros [[[sid wid] e] current] st Hst.
  assert (∀ previous, fleet_safe (rollback_workspace_stopping h sid wid previous)) as Hrb
    by (intros; unfold rollback_workspace_stopping; auto with enclave).
  assert (fleet_safe (tear_down h sid wid current)) as Htd.
  { unfold tear_down. apply fleet_safe_bind; [destruct (stop_target h current); auto with enclave|].
    auto using fleet_safe_bind with enclave. }
  assert (∀ m, fleet_safe (A := WorkspaceMetadata)
    (rollback_workspace_stopping h sid wid (status current);; throw m)) as Hrt
    by auto using fleet_safe_bind with enclave.
  unfold stop_resolved.
  assert (Hm := fleet_safe_write (so_mark h) _ H2 (mark_workspace_stopping_refines (so_mark_persist h) sid wid) st Hst).
  destruct (write_txn _ _ st) as [stopping st']. cbn in Hm.
  assert (fleet_ok st'.1) as Hst' by by eapply fleet_steps_ok.
  destruct (so_journal h), stopping; try exact Hm; (etrans; [exact Hm|]).
  - destruct (so_phase_stop h); [by apply Htd|by apply Hrt].
  - by apply Hrt.
Qed.

Definition attempt_env {M : Mode} (h : attempt_host) : Prop := env_safe (da_read h) ∧ env_safe (da_remove h).

Lemma destroy_attempt_safe {M : Mode} h mode sid wid : attempt_env h → fleet_safe (destroy_attempt h mode sid wid).
Proof.
  intros [H1 H2]. unfold destroy_attempt. apply fleet_safe_bind; [auto with enclave|].
  intros [[m w]|]; [|auto with enclave]. apply fleet_safe_bind; [auto with enclave|intros _].
  destruct (da_cleanup h) as [o|]; [|auto with enclave].
  apply fleet_safe_bind; [case_bool_decide; auto with enclave|intros _].
  destruct (_ && _); [auto with enclave|]. apply fleet_safe_bind; [auto with enclave|intros _].
  apply fleet_safe_bind; [auto with enclave|]. intros []; [|auto with enclave].
  apply fleet_safe_bind; [destruct (files_removed o); auto with enclave|auto with enclave].
Qed.

Lemma destroy_loop_safe {M : Mode} hs mode sid wid :
  Forall attempt_env hs → fleet_safe (destroy_loop hs mode sid wid).
Proof.
  induction 1 as [|h hs Hh Hhs IH]; cbn; [auto with enclave|].
  apply fleet_safe_bind; [by apply destroy_attempt_safe|]. intros [out|]; auto with enclave.
Qed.

(** ** A stop never claims more than it did *)

Section outcome.
Context (h : stop_op_host) (sid wid : string) (p : Z).
Hypothesis Hq_mark : quiet sid wid p (so_mark h).
Hypothesis Hq_rollback : quiet sid wid p (so_rollback h).
Hypothesis Hq_commit : quiet sid wid p (so_commit h).

Abbreviation at_st := (at_state sid wid p).

(** A transaction whose closure does not touch sessions: the record is what it
    was, or what the closure made of it, whether or not the caller was told. *)
Lemma txn_effect {A} t (c : stm world A) w live st res st' :
  quiet sid wid p t → (∀ st0, sessions (c st0).2.2 = sessions st0.2) → at_st w live st →
  write_txn t c st = (res, st') →
  (is_ok res = false ∧ at_st w live st') ∨
  (∃ a st0 st1, at_st w live st0 ∧ c st0 = (Ok a, st1) ∧ st' = (bump_generation st1.1, st1.2) ∧
     (is_ok res = true → res = Ok a)).
Proof.
  intros Hq Hc Hat%Hq [(a & st1 & -> & ? & ?)|[(Hr & E1 & E2)|(a & st1 & Hr & _ & ? & ?)]]%write_txn_cases.
  - right. exists a, (before t st), st1. done.
  - left. split; [done|]. destruct Hat as (Hf & Hv & Hl). unfold at_state. rewrite E1. split_and!; [done..|].
    destruct E2 as [->| ->]; [done|]. by rewrite Hc.
  - right. exists a, (before t st), st1. split_and!; [done..|]. by rewrite Hr.
Qed.

Lemma put_effect w w' live persist st u st' :
  at_st w live st → (put_workspace sid wid w';; persist_workspace_metadata persist w') st = (Ok u, st') →
  at_st w' live st'.
Proof.
  intros Hat H. apply stm_bind_Ok in H as (u1 & st1 & H1 & H). world_inv H1.
  unfold persist_workspace_metadata in H. stm_inv H.
  destruct (at_state_set sid wid p w w' live st Hat) as (?&?&?). done.
Qed.

Lemma mark_stopping_sessions persist st :
  sessions (mark_workspace_stopping persist sid wid st).2.2 = sessions st.2.
Proof.
  apply (λ H, H : preserves (λ st', sessions st'.2 = sessions st.2) _); [|done].
  unfold mark_workspace_stopping, get_workspace, put_workspace, on_registry, persist_workspace_metadata.
  solve_preserves.
Qed.
Lemma restore_status_sessions persist previous st :
  sessions (restore_status persist previous sid wid st).2.2 = sessions st.2.
Proof.
  apply (λ H, H : preserves (λ st', sessions st'.2 = sessions st.2) _); [|done].
  unfold restore_status, get_workspace, put_workspace, on_registry, persist_workspace_metadata.
  apply preserves_bind; [solve_preserves|intros w]. case_bool_decide; solve_preserves.
Qed.
Lemma commit_stop_sessions hs current st :
  sessions (commit_stop hs current sid wid st).2.2 = sessions st.2.
Proof.
  apply (λ H, H : preserves (λ st', sessions st'.2 = sessions st.2) _); [|done].
  unfold commit_stop, commit_workspace_stopped, mark_workspace_stopped, get_sandbox, get_workspace, put_workspace,
    on_registry, persist_workspace_metadata.
  apply preserves_bind; [solve_preserves|intros _]. apply preserves_bind; [solve_preserves|intros w].
  destruct (_ || _); [apply preserves_lift|]. solve_preserves.
Qed.

Lemma mark_stopping_effect w live st res st' :
  at_st w live st →
  write_txn (so_mark h) (mark_workspace_stopping (so_mark_persist h) sid wid) st = (res, st') →
  at_st (with_status Stopping w) live st' ∨ (is_ok res = false ∧ at_st w live st').
Proof.
  intros Hat E. apply (txn_effect _ _ w live) in E as [?|(u & st0 & st1 & Hat0 & Hc & -> & _)]; [auto| |done| |done].
  - left. unfold mark_workspace_stopping in Hc. apply stm_bind_Ok in Hc as (w1 & st2 & H1 & Hc). world_inv H1.
    destruct Hat0 as (Hf0 & Hrest). assert (w1 = w) as -> by congruence.
    apply (put_effect w _ live) in Hc; [exact Hc|by split].
  - intros. apply mark_stopping_sessions.
Qed.

Lemma rollback_effect w live previous st :
  at_st (with_status Stopping w) live st →
  ∃ st' w', rollback_workspace_stopping h sid wid previous st = (Ok tt, st') ∧ at_st w' live st' ∧
    (w' = with_status Stopping w ∨ w' = with_status previous w).
Proof.
  intros Hat. unfold rollback_workspace_stopping, ignore.
  destruct (write_txn _ _ st) as [res st'] eqn:E. cbn.
  apply (txn_effect _ _ (with_status Stopping w) live) in E
    as [[_ ?]|(u & st0 & st1 & Hat0 & Hc & -> & _)]; [| |done| |done].
  - exists st', (with_status Stopping w). auto.
  - unfold restore_status in Hc. apply stm_bind_Ok in Hc as (w1 & st2 & H1 & Hc). world_inv H1.
    pose proof Hat0 as (Hf0 & Hrest). assert (w1 = with_status Stopping w) as -> by congruence.
    rewrite bool_decide_eq_false_2 in Hc by (intros Hn; by apply Hn). eapply (put_effect _ _ live) in Hc; [|done].
    exists (bump_generation st1.1, st1.2), (with_status previous w). split_and!; [done|done|by right].
  - intros. apply restore_status_sessions.
Qed.

Lemma commit_stop_Ok hs current w live st w' st' :
  at_st w live st → commit_stop hs current sid wid st = (Ok w', st') →
  w' = stopped_record (st_now hs) w ∧ st_certificate hs = true ∧ at_st w' live st'.
Proof.
  intros Hat H. unfold commit_stop in H. apply stm_bind_Ok in H as (e & st1 & H1 & H). world_inv H1.
  apply stm_bind_Ok in H as (w1 & st1 & H2 & H). world_inv H2.
  destruct Hat as (Hf & Hrest). assert (w1 = w) as -> by congruence.
  destruct (_ || _); [stm_inv H|]. apply stm_bind_Ok in H as (u & st2 & Hc & H). world_inv H.
  unfold commit_workspace_stopped in Hc. apply stm_bind_Ok in Hc as (w1 & st3 & H3 & Hc). world_inv H3.
  apply stm_bind_Ok in Hc as (u1 & st3 & Hm & Hc). stm_inv Hc.
  unfold mark_workspace_stopped in Hm. apply stm_bind_Ok in Hm as (w2 & st4 & H4 & Hm). world_inv H4.
  assert (w2 = w) as -> by congruence. apply (put_effect w _ live) in Hm; [|by split].
  pose proof Hm as (Hf' & _). assert (w' = stopped_record (st_now hs) w) as -> by congruence. done.
Qed.

Lemma stop_session_effects a w live st res st' :
  at_st w live st → stop_session a p st = (res, st') →
  is_ok res = sa_ok a ∧ ∃ live', at_st w live' st' ∧ (sa_ended a = true → live' = false).
Proof.
  intros (Hf & Hv & Hl) H. unfold stop_session, mbind, stm_bind in H. cbn in H.
  assert (is_ok res = sa_ok a ∧ st' = (st.1, mkHost (workspace_json st.2) (sandbox_json st.2)
    (if sa_ended a then sessions st.2 ∖ {[p]} else sessions st.2))) as [-> ->].
  { by destruct (sa_ok a); injection H as <- <-. }
  split; [done|]. eexists. split; [by split_and!|]. intros ->. apply bool_decide_eq_false. cbn. set_solver.
Qed.

(** What a committed stop rests on. *)
Definition stop_grounds (current : WorkspaceMetadata) (live : bool) : Prop :=
  (stop_target h current = Some p → sa_ok (so_stop h) = true ∧ (sa_ended (so_stop h) = true → live = false)) ∧
  so_cleanup h = true ∧ st_certificate (so_commit_host h) = true.

Lemma tear_down_effect w live current st res st' :
  (∀ q, stop_target h current = Some q → q = p) → at_st w live st → tear_down h sid wid current st = (res, st') →
  ∃ live', (at_st w live' st' ∧ is_ok res = false) ∨
    (at_st (stopped_record (st_now (so_commit_host h)) w) live' st' ∧ stop_grounds current live').
Proof.
  intros Hp Hat. unfold tear_down, mbind at 1, stm_bind at 1.
  destruct ((match stop_target h current with
             | Some p0 => stop_session (so_stop h) p0 | None => mret tt end : stm world unit) st) as [r1 st1] eqn:Es.
  intros H.
  assert (∃ live1, at_st w live1 st1 ∧ (is_ok r1 = true → stop_target h current = Some p →
    sa_ok (so_stop h) = true ∧ (sa_ended (so_stop h) = true → live1 = false))) as (live1 & Hat1 & Hgone).
  { destruct (stop_target h current) as [q|] eqn:Et.
    - rewrite (Hp q eq_refl) in Es. apply (stop_session_effects _ w live) in Es as (-> & live1 & ? & ?); [|done].
      by exists live1.
    - injection Es as <- <-. by exists live. }
  clear Es. exists live1. revert H.
  destruct r1 as [u|e]; [|intros [= <- <-]; by left]. specialize (Hgone eq_refl).
  unfold mbind at 1, stm_bind at 1. destruct (so_phase_cleanup h); cbn [assert mret stm_ret throw lift bail];
    [|intros [= <- <-]; by left].
  unfold mbind at 1, stm_bind at 1. destruct (so_cleanup h) eqn:Hcl; cbn [assert mret stm_ret throw lift bail];
    [|intros [= <- <-]; by left].
  unfold mbind at 1, stm_bind at 1. destruct (write_txn _ _ st1) as [r2 st2] eqn:E.
  apply (txn_effect _ _ w live1) in E as [[Hr Hat2]|(w' & st3 & st4 & Hat3 & Hc & -> & Hr)];
    [|..|done|intros; apply commit_stop_sessions|done].
  - destruct r2; [done|]. intros [= <- <-]. by left.
  - apply (commit_stop_Ok _ _ w live1) in Hc as (-> & Hcert & Hat4); [|done].
    intros H. right. assert (st' = (bump_generation st4.1, st4.2)) as ->.
    { destruct r2 as [w2|]; [|by injection H]. unfold mbind, stm_bind in H. destruct (so_succeed h); by injection H. }
    split; [exact Hat4|]. by split_and!.
Qed.

End outcome.

(** ** A destroy removes only what it released *)

Lemma remove_record_Ok snapshot sid wid st removed st' :
  remove_record snapshot sid wid st = (Ok removed, st') →
  if removed : bool then
    find_workspace st'.1 sid wid = None ∧
    (∀ w, find_workspace st.1 sid wid = Some w →
       runtime_pid w = runtime_pid snapshot ∧ runtime_starttime_ticks w = runtime_starttime_ticks snapshot)
  else st' = st.
Proof.
  intros H. unfold remove_record in H. apply stm_bind_Ok in H as (st0 & st1 & H1 & H). stm_inv H1.
  unfold find_workspace. destruct (sandboxes st.1 !! sid) as [e|] eqn:He; cbn.
  2:{ stm_inv H. rewrite He. by split. }
  destruct (workspaces e !! wid) as [w|] eqn:Hw.
  2:{ stm_inv H. rewrite He. cbn. by rewrite Hw. }
  destruct (_ && _) eqn:Hb; [|by stm_inv H].
  apply andb_true_iff in Hb as [H1%bool_decide_eq_true H2%bool_decide_eq_true].
  world_inv H. cbn. rewrite lookup_alter_eq, He. cbn. rewrite lookup_delete_eq. naive_solver.
Qed.

(** What one attempt that destroyed the workspace [w] did. *)
Definition destroyed_by (h : attempt_host) (mode : CleanupMode) (sid wid : string)
    (w : WorkspaceMetadata) (o : CleanupOutcome) (st : world) : Prop :=
  find_workspace (before (da_read h) st).1 sid wid = Some w ∧ da_cleanup h = Some o ∧
  (mode = Normal → da_certificate h = true) ∧
  ∀ cur, find_workspace (before (da_remove h) (before (da_read h) st)).1 sid wid = Some cur →
    runtime_pid cur = runtime_pid w ∧ runtime_starttime_ticks cur = runtime_starttime_ticks w.

(** The requests that run in between leave the record in place. *)
Definition keeps_record (sid wid : string) (t : txn_host) : Prop :=
  ∀ st, is_Some (find_workspace st.1 sid wid) → is_Some (find_workspace (before t st).1 sid wid).

(** The outcomes of the transaction that removes the record. *)
Lemma remove_txn_cases t w sid wid st res st' :
  write_txn t (remove_record w sid wid) st = (res, st') →
  (res ≠ Ok false ∧ find_workspace st'.1 sid wid = None ∧
   (∀ cur, find_workspace (before t st).1 sid wid = Some cur →
      runtime_pid cur = runtime_pid w ∧ runtime_starttime_ticks cur = runtime_starttime_ticks w)) ∨
  (res ≠ Ok true ∧ find_workspace st'.1 sid wid = find_workspace (before t st).1 sid wid).
Proof.
  intros [(a & st1 & -> & Hc & ->)|[(Hr & E & _)|(a & st1 & Hr & _ & Hc & ->)]]%write_txn_cases.
  - apply remove_record_Ok in Hc. destruct a; [by left|]. subst st1. by right.
  - right. split; [by intros ->|by rewrite E].
  - apply remove_record_Ok in Hc. destruct a; [left; split; [by intros ->|done]|].
    subst st1. right. split; [by intros ->|done].
Qed.

(** One attempt destroyed the workspace, whatever it went on to report, or it left
    the record in place. *)
Lemma destroy_attempt_cases h mode sid wid st res st' :
  destroy_attempt h mode sid wid st = (res, st') →
  (∃ w o, find_workspace st'.1 sid wid = None ∧ destroyed_by h mode sid wid w o st ∧
     (∀ r, res = Ok r → r = Some (Some (w, o)))) ∨
  ((∀ d, res ≠ Ok (Some (Some d))) ∧
   (keeps_record sid wid (da_read h) → keeps_record sid wid (da_remove h) →
    is_Some (find_workspace st.1 sid wid) → is_Some (find_workspace st'.1 sid wid))).
Proof.
  intros H. unfold destroy_attempt in H. unfold read_txn, mbind at 1, stm_bind at 1 in H.
  set (st1 := before (da_read h) st) in *.
  assert (∀ r : result (option (option (WorkspaceMetadata * CleanupOutcome))), (∀ d, r ≠ Ok (Some (Some d))) →
    (r, st1) = (res, st') → (∀ d, res ≠ Ok (Some (Some d))) ∧
   (keeps_record sid wid (da_read h) → keeps_record sid wid (da_remove h) →
    is_Some (find_workspace st.1 sid wid) → is_Some (find_workspace st'.1 sid wid))) as Hstay.
  { intros r Hr [= <- <-]. split; [done|]. intros Hk _ Hs. by apply Hk. }
  destruct (reachable (da_read h)); cbn in H; [|right; by refine (Hstay _ _ H)].
  destruct (_ ≫= _) as [[m w]|] eqn:Hcur; [|right; by refine (Hstay _ _ H)].
  apply bind_Some in Hcur as (e & He & (w2 & Hw & [= <- <-])%bind_Some).
  assert (find_workspace st1.1 sid wid = Some w2) as Hf by (apply find_workspace_Some; eauto).
  unfold mbind at 1, stm_bind at 1 in H. destruct (da_phase_cleanup h); cbn in H; [|right; by refine (Hstay _ _ H)].
  destruct (da_cleanup h) as [o|] eqn:Hc; [|right; by refine (Hstay _ _ H)].
  unfold mbind at 1, stm_bind at 1 in H.
  destruct ((if bool_decide (retained o = []) then mret tt
    else assert (da_phase_retained h) "failed to write journal phase") st1) as [r2 st2] eqn:E2.
  assert (st2 = st1) as -> by (case_bool_decide; [|destruct (da_phase_retained h)]; by injection E2).
  destruct r2 as [u|err]; [|right; by refine (Hstay _ _ H)].
  destruct (negb (is_force mode) && negb (da_certificate h)) eqn:Hm; [right; by refine (Hstay _ _ H)|].
  unfold mbind at 1, stm_bind at 1 in H. destruct (da_phase_remove h); cbn -[write_txn] in H; [|right; by refine (Hstay _ _ H)].
  unfold mbind at 1, stm_bind at 1 in H. destruct (write_txn _ _ st1) as [r3 st3] eqn:E3.
  apply remove_txn_cases in E3 as [(Hno & Hgone & Hsame)|[Hno Hkept]].
  - left. exists w2, o. assert (st'.1 = st3.1 ∧ (∀ r, res = Ok r → r = Some (Some (w2, o)))) as [-> Hres].
    { destruct r3 as [[]|]; [|done|by injection H as <- <-].
      unfold mbind, stm_bind in H. destruct (files_removed o); [destruct (da_remove_directory h)|];
        injection H as <- <-; (split; [done|]); intros r [=]; auto. }
    split; [done|]. split; [|done]. split_and!; [done..| |done]. intros ->. by destruct (da_certificate h).
  - right. destruct r3 as [[]|]; [done| |]; injection H as <- <-; (split; [done|]);
      intros Hk1 Hk2 Hs; rewrite Hkept; by apply Hk2, Hk1.
Qed.

(** C27: a destroy removes a record only when the record still names the runtime
    this destroy released: whatever other requests did in between and whatever
    the destroy reports, an error included, the record it removed is the one of
    the cleaned runtime, and in normal mode the certificate had found nothing
    left on the host.  A destroy that reports a removed workspace did remove it;
    otherwise the record is still there, as far as no other request removed it.
    A runtime that appeared in between keeps its record, and the loop of eight
    attempts starts again. *)
Theorem destroy_removes_only_what_it_released host mode sid wid st res st' :
  destroy_one host mode sid wid st = (res, st') →
  (∀ w o, res = Ok (Some (w, o)) → find_workspace st'.1 sid wid = None ∧
     ∃ i st1, (i < DESTROY_ATTEMPTS)%nat ∧ destroyed_by (host i) mode sid wid w o st1) ∧
  ((∀ i, keeps_record sid wid (da_read (host i)) ∧ keeps_record sid wid (da_remove (host i))) →
   is_Some (find_workspace st.1 sid wid) → find_workspace st'.1 sid wid = None →
   ∃ i st1 w o, (i < DESTROY_ATTEMPTS)%nat ∧ destroyed_by (host i) mode sid wid w o st1).
Proof.
  unfold destroy_one. intros H.
  assert (∀ l st, destroy_loop (host <$> l) mode sid wid st = (res, st') →
    (∃ i st1 w o, i ∈ l ∧ find_workspace st'.1 sid wid = None ∧ destroyed_by (host i) mode sid wid w o st1 ∧
       (∀ d, res = Ok (Some d) → d = (w, o))) ∨
    ((∀ d, res ≠ Ok (Some d)) ∧
     ((∀ i, keeps_record sid wid (da_read (host i)) ∧ keeps_record sid wid (da_remove (host i))) →
      is_Some (find_workspace st.1 sid wid) → is_Some (find_workspace st'.1 sid wid)))) as Hl.
  { clear H st. induction l as [|i l IH]; intros st H; [by injection H as <- <-; right|]. cbn in H.
    unfold mbind at 1, stm_bind at 1 in H. destruct (destroy_attempt _ _ _ _ st) as [r1 st1] eqn:E1.
    apply destroy_attempt_cases in E1 as [(w & o & Hg & Hd & Hr)|[Hn Hk]].
    - left. exists i, st, w, o. destruct r1 as [r|e].
      + rewrite (Hr r eq_refl) in H. injection H as <- <-. split_and!; [by left|done..|by intros d [= <-]].
      + injection H as <- <-. split_and!; [by left|done..].
    - destruct r1 as [[out|]|e].
      + injection H as <- <-. right. split; [intros d [= ->]; by eapply Hn|]. intros Hall. by apply Hk; apply Hall.
      + destruct (IH st1 H) as [(j & st2 & w & o & Hj & ?)|[Hn' Hk']]; [left|right].
        * exists j, st2, w, o. split; [by right|done].
        * split; [done|]. intros Hall Hs. apply Hk'; [done|]. by apply Hk; [apply Hall..|].
      + injection H as <- <-. right. split; [done|]. intros Hall. by apply Hk; apply Hall. }
  destruct (Hl _ _ H) as [(i & st1 & w & o & Hi & Hg & Hd & Hr)|[Hn Hk]].
  - apply elem_of_seq in Hi as [_ Hi]. split; [|eauto 10]. intros w' o' Heq. split; [done|].
    specialize (Hr _ Heq) as [= -> ->]. eauto.
  - split; [intros w o ->; by destruct (Hn (w, o))|]. intros Hall Hs Hnone. destruct (Hk Hall Hs). congruence.
Qed.

(** A workspace that is being stopped does not count against the running
    limits although its runtime still exists, so giving up a stop can exceed
    them: with a limit of one, stop [a], start [b] in its place, then let the
    stop of [a] roll back because its journal cannot be written, and two
    workspaces run. *)
Theorem stopping_slot_overcommits :
  let a := sample_workspace "a" "web" Running (Some 42) None in
  let b := sample_workspace "b" "db" Stopped None None in
  ∃ st1 st2 st3 ip e,
    write_txn sample_txn (mark_workspace_stopping true "s" "a") (sample_world (Some 1) [a; b]) = (Ok tt, st1) ∧
    write_txn sample_txn (mark_workspace_starting None ∅ true "s" "b") st1 = (Ok ip, st2) ∧
    write_txn sample_txn (restore_status true Running "s" "a") st2 = (Ok tt, st3) ∧
    sandboxes st3.1 !! "s" = Some e ∧ max_running_workspaces (sb_limits (metadata e)) = Some 1 ∧
    running_in (btree_values (workspaces e)) = 2.
Proof.
  intros a b. set (st0 := sample_world (Some 1) [a; b]).
  exists (write_txn sample_txn (mark_workspace_stopping true "s" "a") st0).2.
  set (st1 := (write_txn sample_txn (mark_workspace_stopping true "s" "a") st0).2).
  exists (write_txn sample_txn (mark_workspace_starting None ∅ true "s" "b") st1).2.
  set (st2 := (write_txn sample_txn (mark_workspace_starting None ∅ true "s" "b") st1).2).
  exists (write_txn sample_txn (restore_status true Running "s" "a") st2).2, "10.200.0.10".
  eexists. split_and!; by vm_compute.
Qed.

(** ** Concrete runs *)

(** A host on which everything works, but for the certificate as given. *)
Definition sample_stop_op (certificate : bool) : stop_op_host :=
  mkStopOp sample_txn true sample_txn true true sample_txn true None ended true true sample_txn
    (mkStop true certificate true "2024-01-02T00:00:00Z") true.


Definition sample_attempt : attempt_host :=
  mkAttempt sample_txn true (Some (mkOutcome true [])) true true true sample_txn true.

Lemma destroy_removes_only_what_it_released_witness :
  let w := sample_workspace "a" "web" Running (Some 42) None in
  find_workspace (destroy_one (λ _, sample_attempt) Normal "s" "a" (sample_world None [w])).2.1 "s" "a" = None.
Proof.
  intros w. destruct (destroy_one (λ _, sample_attempt) Normal "s" "a" (sample_world None [w])) as [res st'] eqn:E.
  assert (res = Ok (Some (w, mkOutcome true []))) as -> by (vm_compute in E; by injection E as <- _).
  exact (proj1 (proj1 (destroy_removes_only_what_it_released (λ _, sample_attempt) Normal "s" "a" _ _ st' E)
           w _ eq_refl)).
Defined.
