(* ===== verification/Cleanup.v ===== *)
(** * Releasing what a workspace holds

    The teardown of one workspace (src/src/workspace/cleanup), the network part of
    it (src/src/network/cleanup.rs), and the certificate that re-reads the host
    afterwards (src/src/workspace/certificate).

    The state is what the host holds for one workspace; what a call of the host
    answers is a field of [release_host], and a call that reports success has
    released its resource. *)
From S2P Require Import Prelude RustStr Paths Ipam Ports Types Stop.
Open Scope Z_scope.

(** ** What the host holds *)

Record held := mkHeld {
  h_runtime : option Z;          (** the pid of the live runtime *)
  h_cgroup : bool;
  h_legacy : bool;               (** the cgroup named from the pid *)
  h_rules : bool;                (** anti-spoofing rules *)
  h_veth : bool;
  h_mounts : bool;               (** mounts Enclave made below the directory *)
  h_foreign : bool;              (** mounts it did not make *)
  h_loop : bool;
  h_markers : bool;              (** pid, ready and namespace reference files *)
  h_files : list string;         (** artifacts left in the directory *)
  h_dir : bool }.

Definition set_runtime (r : option Z) (s : held) : held :=
  mkHeld r (h_cgroup s) (h_legacy s) (h_rules s) (h_veth s) (h_mounts s) (h_foreign s) (h_loop s) (h_markers s)
    (h_files s) (h_dir s).
Definition set_cgroups (c l : bool) (s : held) : held :=
  mkHeld (h_runtime s) c l (h_rules s) (h_veth s) (h_mounts s) (h_foreign s) (h_loop s) (h_markers s)
    (h_files s) (h_dir s).
Definition set_network (r v : bool) (s : held) : held :=
  mkHeld (h_runtime s) (h_cgroup s) (h_legacy s) r v (h_mounts s) (h_foreign s) (h_loop s) (h_markers s)
    (h_files s) (h_dir s).
Definition set_mounts (m l : bool) (s : held) : held :=
  mkHeld (h_runtime s) (h_cgroup s) (h_legacy s) (h_rules s) (h_veth s) m (h_foreign s) l (h_markers s)
    (h_files s) (h_dir s).
Definition set_files (f : list string) (d : bool) (s : held) : held :=
  mkHeld (h_runtime s) (h_cgroup s) (h_legacy s) (h_rules s) (h_veth s) (h_mounts s) (h_foreign s) (h_loop s)
    (h_markers s) f d.

(** What the host answers. *)
Record release_host := mkRelease {
  rl_stop : bool;
  rl_cgroup : bool;
  rl_legacy : bool;
  rl_rules : bool;
  rl_veth : bool;
  rl_tmp : bool;
  rl_unmount : bool;
  rl_mountinfo : bool;
  rl_remove : string → bool;
  rl_remove_dir : bool }.

(** ** The pieces *)

(** [session::stop_session] and [session::process_matches] *)
Definition stop_runtime (h : release_host) (p : Z) : stm held bool := λ s,
  (Ok (rl_stop h), if rl_stop h && bool_decide (h_runtime s = Some p) then set_runtime None s else s).
Definition process_matches (p : Z) : stm held bool := gets (λ s, bool_decide (h_runtime s = Some p)).

(** [remove_workspace_cgroups] *)
Definition remove_workspace_cgroups (h : release_host) (pid : option Z) : stm held bool := λ s,
  let s' := set_cgroups (h_cgroup s && negb (rl_cgroup h))
              (h_legacy s && negb (bool_decide (is_Some pid) && rl_legacy h)) s in
  (Ok (rl_cgroup h && (bool_decide (pid = None) || rl_legacy h)), s').

Record NetworkCleanupReport := mkNetworkReport {
  nr_workspace_id : string;
  nr_assigned_ip : string;
  nr_veth_host : bool;                       (** whether the interface name could be derived *)
  anti_spoof_rules_absent : bool;
  veth_absent : bool;
  nr_failures : list string }.

Definition report_is_complete (r : NetworkCleanupReport) : bool :=
  nr_veth_host r && anti_spoof_rules_absent r && veth_absent r && bool_decide (nr_failures r = []).

Definition teardown_workspace_network (h : release_host) (assigned_ip workspace_id : string)
    : stm held NetworkCleanupReport := λ s,
  match parse_host_octet assigned_ip with
  | None => (Ok (mkNetworkReport workspace_id assigned_ip false false false ["workspace-ip"]), s)
  | Some _ =>
      (Ok (mkNetworkReport workspace_id assigned_ip true (rl_rules h) (rl_veth h)
             ((if rl_rules h then [] else ["anti-spoofing-rules"]) ++ (if rl_veth h then [] else ["veth"]))),
       set_network (h_rules s && negb (rl_rules h)) (h_veth s && negb (rl_veth h)) s)
  end.

(** [ensure_workspace_storage_unmounted] *)
Definition ensure_workspace_storage_unmounted (h : release_host) : stm held bool := λ s,
  (Ok (rl_unmount h), if rl_unmount h then set_mounts false false s else s).

(** [release_workspace_storage] *)
Definition release_workspace_storage (h : release_host) (w : WorkspaceMetadata) : stm held unit :=
  (if clear_tmp_on_restart w then assert (rl_tmp h) "failed to reset workspace tmp" else mret tt);;
  ok ← ensure_workspace_storage_unmounted h;
  assert ok "failed to unmount workspace storage".

(** [run_workspace_stop_cleanup]: the network and the storage are torn down side by
    side, so the storage outcome is known whatever the network answers. *)
Definition run_workspace_stop_cleanup (h : release_host) (w : WorkspaceMetadata)
    (network_already_cleaned storage_already_unmounted : bool) : stm held (option NetworkCleanupReport) :=
  cgroups ← remove_workspace_cgroups h (runtime_pid w);
  assert cgroups "workspace cgroup cleanup incomplete";;
  report ← match network_already_cleaned, assigned_ip w with
           | false, Some ip => r ← teardown_workspace_network h ip (id w); mret (Some r)
           | _, _ => mret None
           end;
  storage ← (λ s, let '(r, s') := (if storage_already_unmounted then mret tt else release_workspace_storage h w) s in
                  (Ok r, s'));
  match report with
  | Some r =>
      if report_is_complete r then lift storage;; mret report
      else throw "network cleanup incomplete"
  | None => lift storage;; mret report
  end.

(** ** The directory (artifacts.rs) *)

Inductive lstat := Absent | Symlink | Present | Unreadable.

Record paths_host := mkPaths {
  ph_lstat : string → lstat;
  ph_canonicalize : string → option string;
  ph_within : string → string → option string }.   (** [ensure_path_within] *)

Definition id_char (c : ascii) : bool := is_ascii_alphanumeric c || (c =? "-")%char || (c =? "_")%char.

Definition workspace_dir_for_cleanup (h : paths_host) (m : SandboxMetadata) (w : WorkspaceMetadata)
    : result (option string) :=
  if bool_decide (id w = "") || negb (str_all id_char (id w)) then bail "workspace id is unsafe for cleanup"
  else
    let root := workspaces_path m in
    let path := workspace_path w in
    if negb (path_eq root (path_join (sandbox_path m) "workspaces")) || negb (path_eq path (path_join root (id w)))
    then bail "workspace paths do not match their sandbox layout"
    else match ph_lstat h (sandbox_path m) with
    | Absent => Ok None
    | Unreadable => bail "failed to inspect sandbox path"
    | Symlink => bail "sandbox path is a symlink"
    | Present =>
        sandbox_root ← ok_or (ph_canonicalize h (sandbox_path m)) (plain "failed to resolve sandbox path");
        if negb (path_eq root (path_join sandbox_root "workspaces"))
        then bail "workspace root does not match expected path"
        else if negb (path_eq path (path_join root (id w)))
        then bail "workspace path does not match expected path"
        else match ph_lstat h root with
        | Symlink => bail "sandbox workspace root is a symlink"
        | Absent => Ok None
        | Unreadable => bail "failed to inspect the workspace root"
        | Present =>
            match ph_lstat h path with
            | Symlink => bail "workspace path is a symlink"
            | Absent => Ok None
            | Unreadable => bail "failed to inspect the workspace path"
            | Present =>
                canonical ← ok_or (ph_within h root path) (plain "workspace directory escapes its root");
                if path_eq canonical (path_join root (id w)) then Ok (Some canonical)
                else bail "workspace path resolves unexpectedly"
            end
        end
    end.

Definition ARTIFACTS : list string :=
  ["workspace.json"; "fs.img"; "ns"; "home-upper"; "home-work"; "home-merged"; "runtime"; "fs"].

(** [remove_path_if_present], on an artifact of the directory and on the
    directory itself with everything in it. *)
Definition remove_artifact (h : release_host) (a : string) : stm held unit := λ s,
  if bool_decide (a ∈ h_files s) then
    if rl_remove h a then (Ok tt, set_files (filter (λ x, x ≠ a) (h_files s)) (h_dir s) s)
    else (bail "failed to remove an artifact", s)
  else (Ok tt, s).
Fixpoint remove_artifacts (h : release_host) (l : list string) : stm held unit :=
  match l with
  | [] => mret tt
  | a :: l' => remove_artifact h a;; remove_artifacts h l'
  end.
Definition remove_directory (h : release_host) : stm held unit := λ s,
  if h_dir s then
    if rl_remove_dir h then (Ok tt, set_files [] false s) else (bail "failed to remove directory", s)
  else (Ok tt, s).

Definition keep_if (b : bool) (what why : string) : list RetainedResource :=
  if b then [mkRetained what why] else [].

(** The resources that could not be released, in the order they are tried. *)
Definition release_all (h : release_host) (w : WorkspaceMetadata) : stm held (list RetainedResource) :=
  r1 ← match runtime_pid w with
       | Some p =>
           stopped ← stop_runtime h p;
           alive ← process_matches p;
           cgroups ← remove_workspace_cgroups h (Some p);
           mret (keep_if (negb stopped) "runtime" "did not stop" ++
                 keep_if alive "runtime" "is still alive after stop" ++
                 keep_if (negb cgroups) "cgroups" "workspace cgroup cleanup incomplete")
       | None => mret []
       end;
  r2 ← match assigned_ip w with
       | Some ip =>
           report ← teardown_workspace_network h ip (id w);
           mret (keep_if (negb (report_is_complete report)) "network" "network cleanup incomplete")
       | None => mret []
       end;
  unmounted ← ensure_workspace_storage_unmounted h;
  s ← get;
  mret (r1 ++ r2 ++ keep_if (negb unmounted) "mounts" "failed to unmount workspace storage" ++
        keep_if (rl_mountinfo h && h_foreign s) "foreign_mounts" "not created by Enclave").

Definition cleanup_workspace_artifacts (h : release_host) (ph : paths_host) (m : SandboxMetadata)
    (w : WorkspaceMetadata) (mode : CleanupMode) : stm held CleanupOutcome :=
  path ← lift (workspace_dir_for_cleanup ph m w);
  kept ← release_all h w;
  if negb (bool_decide (kept = [])) && negb (is_force mode)
  then lift (bail_coded CleanupIncomplete "workspace cleanup incomplete, retaining workspace files and registry record")
  else if negb (bool_decide (kept = [])) then mret (mkOutcome false kept)
  else
    match path with
    | Some _ =>
        remove_artifacts h ARTIFACTS;;
        remove_directory h;;
        s ← get;
        assert (negb (h_dir s)) "workspace directory still exists"
    | None => mret tt
    end;;
    mret (mkOutcome true []).

Definition remove_workspace_directory_after_record_removal (h : release_host) (ph : paths_host)
    (m : SandboxMetadata) (w : WorkspaceMetadata) : stm held bool :=
  path ← lift (workspace_dir_for_cleanup ph m w);
  match path with
  | None => mret false
  | Some _ =>
      s ← get;
      if negb (h_dir s) then mret false
      else
        remove_directory h;;
        s' ← get;
        assert (negb (h_dir s')) "workspace directory was recreated while the destroy ran";;
        mret true
  end.

(** ** The certificate (certificate/record.rs, verify.rs) *)

Record WorkspaceCleanupCertificate := mkCertificate {
  runtime_exited : bool;
  cgroup_absent : bool;
  mounts_absent : bool;
  loop_device_absent : bool;
  runtime_files_removed : bool;
  network_complete : option bool;
  ports_released : option bool;
  cert_files_removed : option bool;
  cert_failures : list string }.

Definition certificate_is_complete (c : WorkspaceCleanupCertificate) : bool :=
  bool_decide (cert_failures c = []) && runtime_exited c && cgroup_absent c && mounts_absent c &&
  loop_device_absent c && runtime_files_removed c && default true (network_complete c) &&
  default true (ports_released c) && default true (cert_files_removed c).

(** [record]: a failed check adds its name. *)
Definition record_check (name : string) (ok : bool) : list string := if ok then [] else [name].

Definition verify_workspace_cleanup (h : release_host) (w : WorkspaceMetadata)
    (network : option NetworkCleanupReport) (s : held) : WorkspaceCleanupCertificate :=
  let exited := match runtime_pid w, runtime_starttime_ticks w with
                | Some p, Some _ => negb (bool_decide (h_runtime s = Some p))
                | _, _ => true
                end in
  let mounts := rl_mountinfo h && negb (h_mounts s) in
  let net := report_is_complete <$> network in
  mkCertificate exited (negb (h_cgroup s)) mounts (negb (h_loop s)) (negb (h_markers s)) net None None
    (record_check "runtime" exited ++ record_check "cgroup" (negb (h_cgroup s)) ++
     record_check "mounts" mounts ++ record_check "loop_device" (negb (h_loop s)) ++
     record_check "runtime_files" (negb (h_markers s)) ++ record_check "network" (default true net)).

(** [surviving] are the inventory's resources that are still there. *)
Definition verify_workspace_destroyed (h : release_host) (w : WorkspaceMetadata) (network_complete : bool)
    (surviving : list string) (s : held) : WorkspaceCleanupCertificate :=
  let c := verify_workspace_cleanup h w None s in
  let net := match assigned_ip w ≫= parse_host_octet with
             | Some _ => record_check "veth" (negb (h_veth s)) ++ record_check "firewall" (negb (h_rules s))
             | None => []
             end in
  mkCertificate (runtime_exited c) (cgroup_absent c) (mounts_absent c) (loop_device_absent c)
    (runtime_files_removed c) (Some network_complete) None (Some (negb (h_dir s)))
    (cert_failures c ++ record_check "files" (negb (h_dir s)) ++ net ++ surviving).

(** What [destroy_one] does with the two: release, then verify. *)
Definition release_and_verify (h : release_host) (ph : paths_host) (m : SandboxMetadata) (w : WorkspaceMetadata)
    (mode : CleanupMode) (surviving : list string) : stm held CleanupOutcome :=
  outcome ← cleanup_workspace_artifacts h ph m w mode;
  s ← get;
  let complete := negb (bool_decide ("network" ∈ (resource <$> retained outcome))) in
  if negb (is_force mode) && negb (certificate_is_complete (verify_workspace_destroyed h w complete surviving s))
  then lift (bail_coded CleanupIncomplete "workspace destroy left resources behind, retaining its registry record")
  else mret outcome.

(** ** The directory is the workspace's own *)

Lemma id_char_free s : str_all id_char s = true → free "/" s = true.
Proof. apply str_all_impl. by_byte. Qed.

Lemma id_plain s : s ≠ "" → str_all id_char s = true → plain_name s = true.
Proof.
  intros Hne Hs. unfold plain_name. rewrite id_char_free by done. rewrite bool_decide_eq_false_2 by done.
  rewrite !bool_decide_eq_false_2; [done| |]; intros ->; by vm_compute in Hs.
Qed.

(** A cleanup only ever deletes the workspace's own directory: the path it
    resolves is the sandbox's directory, then [workspaces], then the workspace's
    id as one ordinary component, and neither the sandbox directory, the
    workspaces directory nor the workspace directory is a symbolic link. *)
Theorem cleanup_directory_is_own h m w p :
  workspace_dir_for_cleanup h m w = Ok (Some p) →
  path_components p = path_components (sandbox_path m) ++ ["workspaces"; id w] ∧
  plain_name (id w) = true ∧
  ph_lstat h (sandbox_path m) = Present ∧ ph_lstat h (workspaces_path m) = Present ∧
  ph_lstat h (workspace_path w) = Present.
Proof.
  unfold workspace_dir_for_cleanup. destruct (_ || _) eqn:Hid; [done|].
  apply orb_false_iff in Hid as [He%bool_decide_eq_false Hc%negb_false_iff]. pose proof (id_plain _ He Hc) as Hpl.
  destruct (negb (path_eq (workspaces_path m) _) || _) eqn:Hl; [done|].
  apply orb_false_iff in Hl as [Hroot%negb_false_iff Hpath%negb_false_iff].
  apply bool_decide_eq_true in Hroot, Hpath. rewrite path_components_join in Hroot, Hpath by done.
  destruct (ph_lstat h (sandbox_path m)) eqn:H1; try done. intros H. case_result.
  destruct (negb (path_eq _ (path_join x _))); [done|]. destruct (negb (path_eq (workspace_path w) _)); [done|].
  destruct (ph_lstat h (workspaces_path m)) eqn:H2; try done.
  destruct (ph_lstat h (workspace_path w)) eqn:H3; try done. case_result.
  destruct (path_eq x0 _) eqn:Hcan; [|done]. injection H4 as <-. apply bool_decide_eq_true in Hcan.
  rewrite path_components_join in Hcan by done. by rewrite Hcan, Hroot, <-app_assoc.
Qed.

(** ** Files go last *)

(** The resources the record names are gone. *)
Definition released_by (h : release_host) (w : WorkspaceMetadata) (s : held) : Prop :=
  (∀ p, runtime_pid w = Some p → h_runtime s ≠ Some p ∧ h_cgroup s = false ∧ h_legacy s = false) ∧
  (∀ ip, assigned_ip w = Some ip → is_Some (parse_host_octet ip) ∧ h_rules s = false ∧ h_veth s = false) ∧
  h_mounts s = false ∧ h_loop s = false ∧ (rl_mountinfo h = true → h_foreign s = false).

Definition same_files (s s' : held) : Prop := h_files s' = h_files s ∧ h_dir s' = h_dir s.

Lemma keep_if_nil b x y : keep_if b x y = [] → b = false.
Proof. by destruct b. Qed.

Lemma report_complete h ip wid s r s' :
  teardown_workspace_network h ip wid s = (Ok r, s') → report_is_complete r = true →
  is_Some (parse_host_octet ip) ∧ h_rules s' = false ∧ h_veth s' = false.
Proof.
  unfold teardown_workspace_network. destruct (parse_host_octet ip); intros [= <- <-]; [|done].
  unfold report_is_complete. destruct (rl_rules h), (rl_veth h); cbn; try done. intros _.
  rewrite !andb_false_r. split_and!; [by eexists|done..].
Qed.

(** What the release leaves: it touches no file, and when it keeps nothing all is
    released. *)
Lemma release_all_effect h w s kept s' :
  release_all h w s = (Ok kept, s') → same_files s s' ∧ (kept = [] → released_by h w s').
Proof.
  intros H. unfold release_all in H.
  apply stm_bind_Ok in H as (r1 & s1 & H1 & H). apply stm_bind_Ok in H as (r2 & s2 & H2 & H).
  apply stm_bind_Ok in H as (u & s3 & H3 & H). apply stm_bind_Ok in H as (s4 & s5 & H4 & H).
  stm_inv H4. stm_inv H. injection H3 as <- Hs'.
  assert (same_files s s1 ∧ (r1 = [] → ∀ p, runtime_pid w = Some p →
    h_runtime s1 ≠ Some p ∧ h_cgroup s1 = false ∧ h_legacy s1 = false)) as [Hf1 Hr1].
  { destruct (runtime_pid w) as [p|]; [|by stm_inv H1]. unfold stop_runtime, process_matches, remove_workspace_cgroups in H1.
    unfold mbind, stm_bind in H1. cbn in H1. injection H1 as <- <-. split; [unfold same_files; cbn; by destruct (rl_stop h && _)|].
    intros [Hst%keep_if_nil [Hal%keep_if_nil Hcg%keep_if_nil]%app_nil]%app_nil p' [= <-].
    apply negb_false_iff in Hst, Hcg. apply andb_true_iff in Hcg as [Hc Hg].
    apply bool_decide_eq_false in Hal. cbn. by rewrite Hc, Hg, !andb_false_r. }
  assert (same_files s1 s2 ∧ h_runtime s2 = h_runtime s1 ∧ h_cgroup s2 = h_cgroup s1 ∧ h_legacy s2 = h_legacy s1 ∧
    (r2 = [] → ∀ ip, assigned_ip w = Some ip → is_Some (parse_host_octet ip) ∧ h_rules s2 = false ∧ h_veth s2 = false))
    as (Hf2 & E1 & E2 & E3 & Hr2).
  { destruct (assigned_ip w) as [ip|]; [|by stm_inv H2]. apply stm_bind_Ok in H2 as (rep & sn & H2 & Hn).
    stm_inv Hn. split_and!.
    1-4: unfold teardown_workspace_network in H2; destruct (parse_host_octet ip); by injection H2 as _ <-.
    intros Hk%keep_if_nil ip' [= <-]. apply negb_false_iff in Hk. by eapply report_complete. }
  split.
  - destruct Hf1 as [A1 A2], Hf2 as [B1 B2]. subst s3. split; destruct (rl_unmount h); cbn; congruence.
  - intros [-> [-> [Hm%keep_if_nil Hfo%keep_if_nil]%app_nil]%app_nil]%app_nil. apply negb_false_iff in Hm.
    rewrite Hm in Hs'. subst s3. split_and!; cbn; rewrite ?E1, ?E2, ?E3; auto.
    intros Hmi. rewrite Hmi in Hfo. by cbn in Hfo.
Qed.

Lemma release_all_total h w s : ∃ kept s', release_all h w s = (Ok kept, s').
Proof.
  unfold release_all, mbind, stm_bind, stop_runtime, process_matches, remove_workspace_cgroups,
    teardown_workspace_network, ensure_workspace_storage_unmounted.
  destruct (runtime_pid w), (assigned_ip w) as [ip|]; cbn; try destruct (parse_host_octet ip); cbn; by do 2 eexists.
Qed.

Lemma released_by_files h w s f d : released_by h w s → released_by h w (set_files f d s).
Proof. done. Qed.

(** Removing files touches files only. *)
Lemma remove_artifacts_effect h l s r s' :
  remove_artifacts h l s = (r, s') → ∃ f, s' = set_files f (h_dir s) s.
Proof.
  revert s. induction l as [|a l IH]; intros s.
  { intros [= _ <-]. exists (h_files s). by destruct s. }
  cbn [remove_artifacts]. unfold mbind, stm_bind, remove_artifact at 1.
  case_bool_decide; [|apply IH]. destruct (rl_remove h a).
  - intros H'. apply IH in H' as [f ->]. by exists f.
  - intros [= _ <-]. exists (h_files s). by destruct s.
Qed.
Lemma remove_directory_effect h s r s' :
  remove_directory h s = (r, s') → (∃ f d, s' = set_files f d s) ∧ (is_ok r = true → h_dir s' = false).
Proof.
  unfold remove_directory. destruct (h_dir s) eqn:Hd; [destruct (rl_remove_dir h)|]; intros [= <- <-].
  - split; [by eexists _, _|done].
  - split; [exists (h_files s), (h_dir s); by destruct s|done].
  - split; [exists (h_files s), (h_dir s); by destruct s|done].
Qed.

(** C28: files go last.  Whatever a cleanup returns, if it deleted anything then
    every resource the record names had been released: the recorded runtime is
    dead and its cgroups gone, the interface and its rules are gone, nothing
    Enclave mounted is mounted, and no foreign mount was seen below the
    directory.  Otherwise the files are as they were; in normal mode anything
    that is kept is then an error, in force mode it is reported.  A complete
    outcome has removed the directory. *)
Theorem cleanup_deletes_last h ph m w mode s res s' :
  cleanup_workspace_artifacts h ph m w mode s = (res, s') →
  (same_files s s' ∨ released_by h w s') ∧
  match res with
  | Ok o =>
      if files_removed o then
        retained o = [] ∧ released_by h w s' ∧
        (∀ p, workspace_dir_for_cleanup ph m w = Ok (Some p) → h_dir s' = false)
      else mode = Force ∧ retained o ≠ [] ∧ same_files s s'
  | Err _ => True
  end.
Proof.
  unfold cleanup_workspace_artifacts, mbind, stm_bind, lift at 1. intros H.
  destruct (workspace_dir_for_cleanup ph m w) as [path|e] eqn:Hp; [|injection H as <- <-; split; [by left|done]].
  destruct (release_all_total h w s) as (kept & s1 & Hr). rewrite Hr in H.
  apply release_all_effect in Hr as [Hf Hrel]. case_bool_decide as Hk; cbn [negb andb] in H.
  2:{ destruct mode; cbn in H; injection H as <- <-; (split; [by left|done]). }
  specialize (Hrel Hk). destruct path as [path|].
  2:{ injection H as <- <-. split; [by left|]. split_and!; [done|done|]. intros p [=]. }
  destruct (remove_artifacts h ARTIFACTS s1) as [[[]|e] s2] eqn:H1; apply remove_artifacts_effect in H1 as [f ->].
  2:{ injection H as <- <-. split; [right; by apply released_by_files|done]. }
  destruct (remove_directory h _) as [[[]|e] s3] eqn:H2; apply remove_directory_effect in H2 as [(f' & d & ->) Hd].
  2:{ injection H as <- <-. split; [right; by apply released_by_files|done]. }
  specialize (Hd eq_refl). cbn in H, Hd. subst d. cbn in H. injection H as <- <-.
  split; [right; by apply released_by_files|]. by split_and!.
Qed.

(** ** A destroy that can never finish *)

Lemma release_all_keeps_cgroup h w s kept s' :
  runtime_pid w = None → release_all h w s = (Ok kept, s') →
  h_cgroup s' = h_cgroup s ∧ h_runtime s' = h_runtime s.
Proof.
  intros Hp H. unfold release_all in H. rewrite Hp in H. apply stm_bind_Ok in H as (r1 & s1 & H1 & H). stm_inv H1.
  apply stm_bind_Ok in H as (r2 & s2 & H2 & H). apply stm_bind_Ok in H as (u & s3 & H3 & H).
  apply stm_bind_Ok in H as (s4 & s5 & H4 & H). stm_inv H4. stm_inv H. injection H3 as <- <-.
  assert (h_cgroup s2 = h_cgroup s ∧ h_runtime s2 = h_runtime s) as [<- <-]; [|by destruct (rl_unmount h)].
  destruct (assigned_ip w) as [ip|]; [|by stm_inv H2]. apply stm_bind_Ok in H2 as (rep & sn & H2 & Hn). stm_inv Hn.
  unfold teardown_workspace_network in H2. destruct (parse_host_octet ip); by injection H2 as _ <-.
Qed.

Lemma cleanup_keeps_cgroup h ph m w mode s res s' :
  runtime_pid w = None → cleanup_workspace_artifacts h ph m w mode s = (res, s') →
  h_cgroup s' = h_cgroup s ∧ h_runtime s' = h_runtime s.
Proof.
  intros Hp. unfold cleanup_workspace_artifacts, mbind, stm_bind, lift at 1. intros H.
  destruct (workspace_dir_for_cleanup ph m w) as [path|e]; [|by injection H as <- <-].
  destruct (release_all_total h w s) as (kept & s1 & Hr). rewrite Hr in H.
  apply release_all_keeps_cgroup in Hr as [<- <-]; [|done].
  destruct (negb _ && _); [by injection H as <- <-|]. destruct (negb _); [by injection H as <- <-|].
  destruct path as [path|]; [|by injection H as <- <-].
  destruct (remove_artifacts h ARTIFACTS s1) as [[[]|e] s2] eqn:H1; apply remove_artifacts_effect in H1 as [f ->];
    [|by injection H as <- <-].
  destruct (remove_directory h _) as [[[]|e] s3] eqn:H2; apply remove_directory_effect in H2 as [(f' & d & ->) _];
    [|by injection H as <- <-].
  cbn in H. destruct d; by injection H as <- <-.
Qed.

Lemma cleanup_normal_removes h ph m w s o s' :
  cleanup_workspace_artifacts h ph m w Normal s = (Ok o, s') → files_removed o = true.
Proof.
  unfold cleanup_workspace_artifacts. intros H. apply stm_bind_Ok in H as (path & s1 & _ & H).
  apply stm_bind_Ok in H as (kept & s2 & _ & H). destruct (bool_decide _); cbn [negb andb is_force] in H.
  - apply stm_bind_Ok in H as (? & ? & _ & H). by stm_inv H.
  - by stm_inv H.
Qed.

(** A workspace whose record names no runtime but whose cgroup exists, as a
    launch interrupted before its commit leaves it, can never be destroyed in
    normal mode: the release removes a cgroup only for a recorded pid, the
    certificate refuses while the cgroup is there, and this is so however often
    it is retried and whatever the host answers; a runtime living in the cgroup
    keeps running.  With a host that answers, the refused destroy has already
    deleted the workspace's files. *)
Theorem destroy_without_pid_never_completes h ph m w surviving s :
  runtime_pid w = None → h_cgroup s = true →
  is_ok (release_and_verify h ph m w Normal surviving s).1 = false ∧
  h_cgroup (release_and_verify h ph m w Normal surviving s).2 = true ∧
  h_runtime (release_and_verify h ph m w Normal surviving s).2 = h_runtime s ∧
  (∀ o s', cleanup_workspace_artifacts h ph m w Normal s = (Ok o, s') →
     (release_and_verify h ph m w Normal surviving s).2 = s' ∧ files_removed o = true).
Proof.
  intros Hp Hc. destruct (cleanup_workspace_artifacts h ph m w Normal s) as [res s'] eqn:E.
  pose proof (cleanup_keeps_cgroup _ _ _ _ _ _ _ _ Hp E) as [Hc' Hr].
  assert (∃ e, release_and_verify h ph m w Normal surviving s = (Err e, s')) as [e ->].
  { unfold release_and_verify, mbind, stm_bind. rewrite E. destruct res as [o|e]; [|by eexists].
    cbn -[certificate_is_complete]. set (c := certificate_is_complete _).
    assert (c = false) as ->; [|by eexists].
    unfold c, certificate_is_complete. cbn. rewrite Hc', Hc. cbn. by rewrite !andb_false_r. }
  split_and!; cbn; [done|congruence|done|]. intros o s'' [= -> <-]. split; [done|].
  by eapply cleanup_normal_removes.
Qed.

(** A stop's cleanup that reports success has released everything it was asked
    to: the cgroup, the interface and its rules unless they were torn down
    already, and the mounts unless they were unmounted already. *)
Lemma stop_cleanup_releases h w nclean sclean s report s' :
  run_workspace_stop_cleanup h w nclean sclean s = (Ok report, s') →
  h_cgroup s' = false ∧ (is_Some (runtime_pid w) → h_legacy s' = false) ∧
  (nclean = false → ∀ ip, assigned_ip w = Some ip → h_rules s' = false ∧ h_veth s' = false) ∧
  (h_mounts s' = (if sclean then h_mounts s else false) ∧ h_loop s' = (if sclean then h_loop s else false)) ∧
  same_files s s'.
Proof.
  intros H. unfold run_workspace_stop_cleanup in H.
  apply stm_bind_Ok in H as (c & s1 & H1 & H). injection H1 as Hc Hs1.
  apply stm_bind_Ok in H as (u & s2 & H2 & H). stm_inv H2. rewrite H2 in Hc.
  apply andb_true_iff in Hc as [Hcg Hleg].
  assert (h_cgroup s1 = false ∧ (is_Some (runtime_pid w) → h_legacy s1 = false) ∧ same_files s s1 ∧
    h_mounts s1 = h_mounts s ∧ h_loop s1 = h_loop s) as (A1 & A2 & A3 & A4 & A5).
  { subst s1. cbn. rewrite Hcg, andb_false_r. split_and!; [done| |done..]. intros [p Hp]. rewrite Hp in Hleg |- *.
    cbn in Hleg |- *. by rewrite Hleg, andb_false_r. }
  apply stm_bind_Ok in H as (rep & s2 & H3 & H). apply stm_bind_Ok in H as (st & s3 & H4 & H).
  assert (s' = s3 ∧ st = Ok tt ∧ ∀ r, rep = Some r → report_is_complete r = true) as (-> & Hst & Hrep).
  { destruct rep as [r|]; [destruct (report_is_complete r) eqn:Hr; [|stm_inv H]|];
      apply stm_bind_Ok in H as (v & s4 & H5 & H); stm_inv H; apply lift_Ok in H5 as [-> ->]; destruct v;
      split_and!; try done. by intros ? [= <-]. }
  assert (h_cgroup s2 = h_cgroup s1 ∧ h_legacy s2 = h_legacy s1 ∧ same_files s1 s2 ∧
    h_mounts s2 = h_mounts s1 ∧ h_loop s2 = h_loop s1 ∧
    (nclean = false → ∀ ip, assigned_ip w = Some ip → h_rules s2 = false ∧ h_veth s2 = false)) as (B1 & B2 & B3 & B5 & B6 & B4).
  { destruct nclean, (assigned_ip w) as [ip|]; try (stm_inv H3; by split_and!).
    apply stm_bind_Ok in H3 as (r & s4 & H5 & H3). stm_inv H3. pose proof (Hrep r eq_refl) as Hcomp.
    split_and!; [unfold teardown_workspace_network in H5; destruct (parse_host_octet ip); by injection H5 as _ <-..|].
    intros _ ip' [= <-]. by eapply report_complete. }
  assert (h_cgroup s3 = h_cgroup s2 ∧ h_legacy s3 = h_legacy s2 ∧ h_rules s3 = h_rules s2 ∧ h_veth s3 = h_veth s2 ∧
    same_files s2 s3 ∧ h_mounts s3 = (if sclean then h_mounts s2 else false) ∧
    h_loop s3 = (if sclean then h_loop s2 else false)) as (C1 & C2 & C3 & C4 & C5 & C6 & C7).
  { subst st. destruct sclean; [injection H4 as <-; by split_and!|].
    destruct (release_workspace_storage h w s2) as [r s4] eqn:E. injection H4 as Hr Hs. subst r s4.
    unfold release_workspace_storage in E. apply stm_bind_Ok in E as (v & s5 & E1 & E).
    assert (s5 = s2) as -> by (destruct (clear_tmp_on_restart w); by stm_inv E1).
    apply stm_bind_Ok in E as (ok & s6 & E2 & E). injection E2 as Hok Hs6. apply assert_Ok in E as (_ & E & Hs3). rewrite E in Hok.
    rewrite Hok in Hs6. subst s3 s6. by split_and!. }
  destruct A3 as [F1 F2], B3 as [G1 G2], C5 as [I1 I2].
  split_and!; [congruence|intros Hp; rewrite C2, B2; auto|intros Hn ip Hip; rewrite C3, C4; eauto|..|split; congruence].
  all: by destruct sclean; congruence.
Qed.

(** ** Examples *)

Definition example_host : release_host := mkRelease true true true true true true true true (λ _, true) true.
Definition example_paths : paths_host :=
  mkPaths (λ _, Present) (λ p, Some p) (λ _ p, Some p).
Definition example_sandbox : SandboxMetadata :=
  mkSandbox "s" "dev" "bookworm" "" CachedRootfs "" "/t/s" "/t/s/rootfs" None "" "/t/s/workspaces" ""
    (mkSbLimits None None None None None) SbRunning.
Definition example_workspace (p : option Z) (ip : option string) : WorkspaceMetadata :=
  mkWorkspace "a" "s" "web" "" None None None "/t/s/workspaces/a" "" "" None "" "" "" "" "" [] None [] [] Starting
    p p default_refs true false None None (mkWsLimits None None None None None None) ip.
Definition example_held : held :=
  mkHeld (Some 42) true false true true true false true false ["workspace.json"; "fs.img"] true.

Lemma cleanup_directory_is_own_witness :
  workspace_dir_for_cleanup example_paths example_sandbox (example_workspace None None)
    = Ok (Some "/t/s/workspaces/a") ∧
  path_components "/t/s/workspaces/a" = path_components "/t/s" ++ ["workspaces"; "a"].
Proof.
  split; [by vm_compute|].
  by destruct (cleanup_directory_is_own example_paths example_sandbox (example_workspace None None)
    "/t/s/workspaces/a" ltac:(by vm_compute)).
Defined.

Lemma cleanup_deletes_last_witness :
  ∃ s', cleanup_workspace_artifacts example_host example_paths example_sandbox
      (example_workspace (Some 42) (Some "10.200.0.10")) Normal example_held = (Ok (mkOutcome true []), s') ∧
    released_by example_host (example_workspace (Some 42) (Some "10.200.0.10")) s' ∧ h_dir s' = false.
Proof.
  destruct (cleanup_workspace_artifacts example_host example_paths example_sandbox
    (example_workspace (Some 42) (Some "10.200.0.10")) Normal example_held) as [res s'] eqn:E.
  pose proof (cleanup_deletes_last _ _ _ _ _ _ _ _ E) as [_ H].
  assert (res = Ok (mkOutcome true [])) as -> by (vm_compute in E; by injection E as <- _).
  destruct H as (_ & Hrel & Hd). exists s'. split_and!; [done|done|].
  apply (Hd "/t/s/workspaces/a"). by vm_compute.
Defined.

(** A live runtime the record does not name: the files go, the destroy fails. *)
Lemma destroy_without_pid_never_completes_witness :
  let run := release_and_verify example_host example_paths example_sandbox
               (example_workspace None (Some "10.200.0.10")) Normal [] example_held in
  is_ok run.1 = false ∧ h_runtime run.2 = Some 42 ∧ h_dir run.2 = false.
Proof.
  intros run.
  destruct (destroy_without_pid_never_completes example_host example_paths example_sandbox
    (example_workspace None (Some "10.200.0.10")) [] example_held eq_refl eq_refl) as (H1 & _ & H2 & _).
  split_and!; [exact H1|exact H2|by vm_compute].
Defined.
