(* ===== verification/Update.v ===== *)
(** * Defining and resizing workspaces

    Creating a workspace (src/src/workspace/create), changing its definition
    (src/src/workspace/control/update/mod.rs) and resizing it
    (src/src/workspace/control/update/resize.rs). *)
From S2P Require Import Prelude RustStr Auth Ipam Ports Types Registry Records Fleet Start Stop.
Open Scope Z_scope.

(** ** What a definition has to satisfy (create/definition.rs) *)

Definition name_char (c : ascii) : bool :=
  is_ascii_alphanumeric c || (c =? "-")%char || (c =? "_")%char.

(** [validate_name], of workspaces and of sandboxes. *)
Definition validate_name (what name : string) : result unit :=
  if (String.length name =? 0)%nat || (63 <? String.length name)%nat
  then bail (what +:+ " name must be 1-63 characters")
  else
    match name with
    | EmptyString => bail ("invalid " +:+ what +:+ " name")
    | String first rest =>
        if negb (is_ascii_alphanumeric first)
        then bail (what +:+ " name must start with an ASCII letter or digit")
        else if str_all name_char rest then Ok tt
        else bail (what +:+ " name contains invalid character")
    end.

(** A [BTreeSet<String>] collected and iterated. *)
Definition btree_set (l : list string) : list string := merge_sort String.le (remove_dups l).

Fixpoint normalize_each (f : string → string) (check : string → result unit) (l : list string)
    : result (list string) :=
  match l with
  | [] => Ok []
  | x :: l' =>
      let y := f (trim x) in
      if bool_decide (y = "") then normalize_each f check l'
      else _ ← check y; rest ← normalize_each f check l'; Ok (y :: rest)
  end.

Definition normalize_auth_providers (l : list string) : result (list string) :=
  btree_set <$> normalize_each to_ascii_lowercase
    (λ p, match provider_env_var p with
          | Some _ => Ok tt | None => bail ("unsupported auth provider '" +:+ p +:+ "'") end) l.

Definition normalize_owner (owner : option string) : result (option string) :=
  match owner with
  | None => Ok None
  | Some o =>
      let o := trim o in
      if bool_decide (o = "") then Ok None
      else match validate_user_id o with Ok _ => Ok (Some o) | Err _ => bail "invalid workspace owner" end
  end.

Definition normalize_env_tokens (l : list string) : result (list string) :=
  btree_set <$> normalize_each to_ascii_uppercase
    (λ t, match validate_env_token_name t with
          | Ok _ => Ok tt | Err _ => bail ("invalid environment token '" +:+ t +:+ "'") end) l.

(** [fsutil::slugify] of an ASCII name. *)
Fixpoint slug_chars (s : string) (previous_dash : bool) : string :=
  match s with
  | EmptyString => EmptyString
  | String c s' =>
      let n := ascii_lower c in
      if is_ascii_alphanumeric n then String n (slug_chars s' false)
      else if negb previous_dash then String "-" (slug_chars s' true) else slug_chars s' previous_dash
  end.
Fixpoint trim_start_dash (s : string) : string :=
  match s with String "-" s' => trim_start_dash s' | _ => s end.
Definition trim_dash (s : string) : string := str_rev (trim_start_dash (str_rev (trim_start_dash s))).
Definition slugify (input fallback : string) : string :=
  let trimmed := trim_dash (slug_chars input false) in
  if bool_decide (trimmed = "") then fallback else trimmed.

Definition generate_id (fallback name random : string) : string := slugify name fallback +:+ "-" +:+ random.

Definition MIN_DISK_BYTES : Z := 32 * 1024 * 1024.

Definition validate_workspace_storage_limits (home_mount_source : option string) (disk : option Z) : result unit :=
  match disk with
  | None => Ok tt
  | Some bytes =>
      if bytes <? MIN_DISK_BYTES then bail "workspace disk quota is too small"
      else match home_mount_source with
           | Some _ => bail "workspace disk quota is not supported with host mounts"
           | None => Ok tt
           end
  end.

(** ** Creating a workspace (create/mod.rs) *)

Record WorkspaceCreateOptions := mkCreate {
  co_limits : WorkspaceLimits;
  co_home_mount_source : option string;
  co_auth_providers : list string;
  co_owner : option string;
  co_env_tokens : list string;
  co_published_ports : list PublishedPortSpec;
  co_clear_tmp_on_restart : bool;
  co_keep_running : bool;
  co_idle_stop_after_secs : option Z;
  co_destroy_after_secs : option Z }.

Record create_host := mkCreateHost {
  ch_default_cpu : option f64;
  ch_default_processes : option Z;
  ch_check : txn_host;
  ch_random : string;
  ch_directory : option string;        (** the workspace directory inside its sandbox *)
  ch_layout : bool;
  ch_home : option (option string);    (** [resolve_home_mount_source] *)
  ch_now : string;
  ch_activity_now : string;
  ch_persist : bool;
  ch_storage : bool;
  ch_commit : txn_host }.

Definition require_running (e : RegistrySandbox) : result unit :=
  if bool_decide (sb_status (metadata e) ≠ SbRunning)
  then bail "sandbox is stopped; start it before creating workspaces" else Ok tt.

Definition name_taken (e : RegistrySandbox) (nm : string) : bool :=
  existsb (λ w, bool_decide (name w = nm)) (btree_values (workspaces e)).

(** The read-only check before anything is created. *)
Definition check_create (selector nm : string) (limits : WorkspaceLimits) (r : Registry) : result SandboxMetadata :=
  p ← sandbox_of r selector;
  _ ← require_running p.2;
  if name_taken p.2 nm then bail_coded Conflict "workspace name already exists"
  else
    _ ← check_disk_budget (sb_limits (metadata p.2)) (sandbox_workspace_disk_bytes p.2)
          (default 0 (disk_bytes limits));
    Ok (metadata p.2).

(** The closure that commits the record: the same rules again, under the lock. *)
Definition commit_create (selector : string) (w : WorkspaceMetadata) : stm world WorkspaceMetadata :=
  st ← get;
  p ← lift (sandbox_of st.1 selector);
  lift (require_running p.2);;
  lift (check_disk_budget (sb_limits (metadata p.2)) (sandbox_workspace_disk_bytes p.2)
          (default 0 (disk_bytes (limits w))));;
  (if name_taken p.2 (name w)
   then lift (bail_coded Conflict "workspace name already exists") else mret tt);;
  put_workspace p.1 (id w) w;;
  mret w.

Definition new_workspace (h : create_host) (sandbox : SandboxMetadata) (wid dir nm : string)
    (home : option string) (l : WorkspaceLimits) (providers : list string) (owner : option string)
    (tokens : list string) (o : WorkspaceCreateOptions) : WorkspaceMetadata :=
  mkWorkspace wid (sb_id sandbox) nm (ch_now h) (Some (ch_activity_now h)) None None
    dir (dir +:+ "/fs") "/home" home (effective_rootfs_path sandbox) (home_base_path sandbox)
    (dir +:+ "/home-upper") (dir +:+ "/home-work") (dir +:+ "/home-merged")
    providers owner tokens (co_published_ports o) Stopped None None
    (mkRefs (dir +:+ "/ns/mnt.ref") (dir +:+ "/ns/pid.ref"))
    (co_clear_tmp_on_restart o) (co_keep_running o) (co_idle_stop_after_secs o)
    (co_destroy_after_secs o) l None.

Definition create_workspace_with_options (h : create_host) (selector nm : string)
    (o : WorkspaceCreateOptions) : stm world WorkspaceMetadata :=
  lift (validate_name "workspace" nm);;
  let l := apply_defaults (co_limits o) (ch_default_cpu h) (ch_default_processes h) in
  lift (workspace_limits_validate l);;
  providers ← lift (normalize_auth_providers (co_auth_providers o));
  owner ← lift (normalize_owner (co_owner o));
  tokens ← lift (normalize_env_tokens (co_env_tokens o));
  lift (validate_published_ports (co_published_ports o));;
  lift (validate_workspace_storage_limits (co_home_mount_source o) (disk_bytes l));;
  sandbox ← read_txn (ch_check h) (check_create selector nm l);
  let wid := generate_id "workspace" nm (ch_random h) in
  dir ← lift (ok_or (ch_directory h) (plain "workspace directory escapes its sandbox"));
  assert (ch_layout h) "failed to create workspace layout";;
  home ← lift (ok_or (ch_home h) (plain "invalid home mount source"));
  let w := new_workspace h sandbox wid dir nm home l providers owner tokens o in
  persist_workspace_metadata (ch_persist h) w;;
  assert (ch_storage h) "failed to initialize workspace storage";;
  on_error (write_txn (ch_commit h) (commit_create selector w))
    (λ e, lift (Err (context "failed to commit workspace metadata" e))).

(** ** Changing a definition (control/update/mod.rs) *)

Record WorkspaceDefinitionUpdate := mkDefinitionUpdate {
  du_auth_providers : option (list string);
  du_owner : option (option string);
  du_env_tokens : option (list string);
  du_published_ports : option (list PublishedPortSpec);
  du_limits : WorkspaceLimitsUpdate }.

(** [Option::map(..).transpose()] *)
Definition traverse_opt {A B} (f : A → result B) (o : option A) : result (option B) :=
  match o with Some a => Some <$> f a | None => Ok None end.

(** One [if let Some(..)] block. *)
Definition assign {A} `{EqDecision A} (new : option A) (old : A) : A * bool :=
  match new with Some v => (v, negb (bool_decide (old = v))) | None => (old, false) end.

Definition with_definition (providers : list string) (ow : option string) (tokens : list string)
    (ports : list PublishedPortSpec) (clear keep : bool) (idle destroy : option Z) (l : WorkspaceLimits)
    (w : WorkspaceMetadata) : WorkspaceMetadata :=
  mkWorkspace (id w) (sandbox_id w) (name w) (created_at w) (last_request_at w)
    (last_process_activity_at w) (last_stopped_at w) (workspace_path w) (filesystem_path w)
    (filesystem_mount_target w) (home_mount_source_path w) (sandbox_rootfs_path w)
    (overlay_home_base_path w) (overlay_home_upper_path w) (overlay_home_work_path w)
    (overlay_home_merged_path w) providers ow tokens ports (status w) (runtime_pid w)
    (runtime_starttime_ticks w) (namespace_refs w) clear keep idle destroy l (assigned_ip w).

(** The closure. *)
Definition apply_definition (storage persist : bool) (sandbox_selector workspace_selector : string)
    (providers : option (list string)) (ow : option (option string)) (tokens : option (list string))
    (ports : option (list PublishedPortSpec)) (u : WorkspaceLimitsUpdate) : stm world WorkspaceMetadata :=
  st ← get;
  t ← lift (workspace_of st.1 sandbox_selector workspace_selector);
  let '(sid, wid, _, w) := t in
  assert (bool_decide (wu_disk_bytes u = None)) "workspace disk allocation changes require workspace resize";;
  let '(providers', c1) := assign providers (auth_providers w) in
  let '(ow', c2) := assign ow (owner w) in
  let '(tokens', c3) := assign tokens (env_tokens w) in
  let '(ports', c4) := assign ports (published_ports w) in
  let '(clear, c5) := assign (wu_clear_tmp_on_restart u) (clear_tmp_on_restart w) in
  let '(keep, c6) := assign (wu_keep_running u) (keep_running w) in
  let '(idle, c7) := assign (wu_idle_stop_after_secs u) (idle_stop_after_secs w) in
  let '(destroy, c8) := assign (wu_destroy_after_secs u) (destroy_after_secs w) in
  let '(r, l) := workspace_apply_update u (limits w) in
  let w' := with_definition providers' ow' tokens' ports' clear keep idle destroy l w in
  put_workspace sid wid w';;
  c9 ← lift r;
  lift (validate_workspace_storage_limits (home_mount_source_path w) (disk_bytes l));;
  (if c1 || c2 || c3 || c4 || c5 || c6 || c7 || c8 || c9
   then assert storage "failed to create workspace storage";; persist_workspace_metadata persist w'
   else mret tt);;
  mret w'.

Definition update_workspace_definition (t : txn_host) (storage persist : bool)
    (sandbox_selector workspace_selector : string) (u : WorkspaceDefinitionUpdate) : stm world WorkspaceMetadata :=
  providers ← lift (traverse_opt normalize_auth_providers (du_auth_providers u));
  ow ← lift (traverse_opt normalize_owner (du_owner u));
  tokens ← lift (traverse_opt normalize_env_tokens (du_env_tokens u));
  ports ← lift (traverse_opt (λ ps, _ ← validate_published_ports ps; Ok ps) (du_published_ports u));
  write_txn t (apply_definition storage persist sandbox_selector workspace_selector
                 providers ow tokens ports (du_limits u)).

(** ** Resizing (control/update/resize.rs) *)

Record ResizePlan := mkPlan {
  plan_sandbox_id : string;
  plan_workspace_id : string;
  plan_sandbox : SandboxMetadata;
  plan_workspace : WorkspaceMetadata;
  plan_previous_disk : option Z;
  plan_other_disk : Z }.

Record WorkspaceResizeResult := mkResized {
  rs_workspace_id : string;
  rs_workspace_name : string;
  rs_previous_disk : option Z;
  rs_new_disk : option Z;
  rs_previous_memory : option Z;
  rs_new_memory : option Z;
  rs_restarted : bool }.

Definition plan_result (p : ResizePlan) (disk memory : option Z) (restarted : bool) : WorkspaceResizeResult :=
  mkResized (plan_workspace_id p) (name (plan_workspace p)) (plan_previous_disk p) disk
    (memory_bytes (limits (plan_workspace p))) memory restarted.

Definition read_resize_plan (sandbox_selector workspace_selector : string) (r : Registry) : result ResizePlan :=
  p ← sandbox_of r sandbox_selector;
  let '(sid, e) := p in
  if bool_decide (sb_status (metadata e) ≠ SbRunning) then bail "sandbox is stopped; start it before resizing"
  else
    wid ← resolve_workspace_id e workspace_selector;
    w ← ok_or (workspaces e !! wid) (plain ("workspace '" +:+ workspace_selector +:+ "' not found"));
    if is_transitional (status w) then bail "wait for the current operation to finish before resizing"
    else Ok (mkPlan sid wid (metadata e) w (disk_bytes (limits w))
               (sandbox_workspace_disk_bytes_excluding e wid)).

(** The closure of [set_workspace_disk_bytes]: the check and the write are one
    transaction. *)
Definition set_workspace_disk_bytes (persist : bool) (sid wid : string) (n : Z) : stm world unit :=
  e ← get_sandbox sid;
  w ← lift (ok_or (workspaces e !! wid) (plain "workspace not found"));
  (if default 0 (disk_bytes (limits w)) <? n
   then lift (check_disk_budget (sb_limits (metadata e)) (sandbox_workspace_disk_bytes_excluding e wid) n)
   else mret tt);;
  let w' := with_limits (with_disk_bytes (Some n) (limits w)) w in
  put_workspace sid wid w';;
  persist_workspace_metadata persist w'.

(** The closure of [set_workspace_memory_bytes]. *)
Definition set_workspace_memory_bytes (persist : bool) (sid wid : string) (m : option Z) : stm world unit :=
  w ← get_workspace sid wid;
  let w' := with_limits (with_memory_bytes m (limits w)) w in
  put_workspace sid wid w';;
  lift (workspace_limits_validate (limits w'));;
  persist_workspace_metadata persist w'.

(** The closure that commits the relaunched runtime. *)
Definition commit_restart (write_refs persist : bool) (started : WorkspaceRuntimeStart) (sid wid : string)
    : stm world unit :=
  w ← get_workspace sid wid;
  if bool_decide (status w ≠ Starting)
  then throw "workspace changed while a resize restart was in progress; refusing to commit runtime metadata"
  else
    let w' := normalize_namespace_ref_paths
                (with_runtime Running (Some (pid started)) (Some (starttime_ticks started))
                   (Some (started_ip started)) (namespace_refs w) (last_stopped_at w)
                   (sandbox_rootfs_path w) w) in
    put_workspace sid wid w';;
    assert write_refs "failed to write namespace refs";;
    persist_workspace_metadata persist w'.

Record resize_host := mkResizeHost {
  rh_daemon_max : option Z;
  rh_plan : txn_host;
  rh_image_plan : bool;                (** [plan_workspace_disk_resize] *)
  rh_memory : txn_host;
  rh_memory_persist : bool;
  rh_sync : bool;
  rh_mark : txn_host;
  rh_mark_persist : bool;
  rh_stop : stop_answer;
  rh_stopped : txn_host;
  rh_stopped_host : stop_host;
  rh_unmounted : bool;
  rh_image : option (Z * Z);           (** previous and new size of the image *)
  rh_disk : txn_host;
  rh_disk_persist : bool;
  rh_restore : bool;
  rh_reread : txn_host;
  rh_reserve : txn_host;
  rh_others : gset Z;
  rh_reserve_persist : bool;
  rh_launch : launch_host;
  rh_commit : txn_host;
  rh_commit_refs : bool;
  rh_commit_persist : bool;
  rh_undo_stop : stop_answer;
  rh_rollback : txn_host;
  rh_rollback_host : stop_host }.

Section resize.
Context (h : resize_host).

Definition stop_workspace_for_resize (p : ResizePlan) : stm world unit :=
  let '(sid, wid) := (plan_sandbox_id p, plan_workspace_id p) in
  write_txn (rh_mark h) (mark_workspace_stopping (rh_mark_persist h) sid wid);;
  match runtime_pid (plan_workspace p) with
  | Some q => stop_session (rh_stop h) q
  | None => mret tt
  end;;
  write_txn (rh_stopped h) (get_sandbox sid;; set_workspace_stopped (rh_stopped_host h) sid wid).

Definition give_back_restart (sid wid : string) : stm world unit :=
  ignore (write_txn (rh_rollback h) (mark_workspace_start_failed (rh_rollback_host h) sid wid)).

Definition restart_workspace_after_resize (p : ResizePlan) : stm world unit :=
  let '(sid, wid) := (plan_sandbox_id p, plan_workspace_id p) in
  read_txn (rh_reread h) (λ r, ok_or (find_workspace r sid wid) (plain "workspace not found"));;
  ip ← write_txn (rh_reserve h)
         (mark_workspace_starting (rh_daemon_max h) (rh_others h) (rh_reserve_persist h) sid wid);
  started ← on_error (launch_workspace_runtime (rh_launch h) ip)
              (λ e, give_back_restart sid wid;; lift (Err e));
  on_error (write_txn (rh_commit h) (commit_restart (rh_commit_refs h) (rh_commit_persist h) started sid wid))
    (λ e, ignore (stop_session (rh_undo_stop h) (pid started));;
          give_back_restart sid wid;;
          lift (Err e)).

Definition resize_workspace_image (p : ResizePlan) : stm world (option Z * bool) :=
  let was_running := is_running (status (plan_workspace p)) in
  (if was_running then stop_workspace_for_resize p else mret tt);;
  assert (rh_unmounted h) "failed to unmount workspace before resizing";;
  image ← lift (ok_or (rh_image h) (plain "failed to resize workspace disk"));
  on_error
    (write_txn (rh_disk h)
       (set_workspace_disk_bytes (rh_disk_persist h) (plan_sandbox_id p) (plan_workspace_id p) image.2))
    (λ e, lift (Err (context (if rh_restore h then "restored workspace disk image to its previous size"
                              else "could not restore workspace disk image to its previous size") e)));;
  (if was_running then restart_workspace_after_resize p else mret tt);;
  mret (Some image.2, was_running).

Definition resize_workspace_with_security (sandbox_selector workspace_selector : string)
    (new_disk : option Z) (new_memory : option (option Z)) : stm world WorkspaceResizeResult :=
  p ← read_txn (rh_plan h) (read_resize_plan sandbox_selector workspace_selector);
  let current_memory := memory_bytes (limits (plan_workspace p)) in
  let disk_change := match new_disk with
                     | Some n => if bool_decide (Some n = plan_previous_disk p) then None else Some n
                     | None => None end in
  let memory_change := match new_memory with
                       | Some m => if bool_decide (m = current_memory) then None else Some m
                       | None => None end in
  match disk_change, memory_change with
  | None, None => mret (plan_result p (plan_previous_disk p) current_memory false)
  | _, _ =>
      match disk_change with
      | Some n =>
          assert (bool_decide (home_mount_source_path (plan_workspace p) = None))
            "disk resize is only supported for Enclave-managed storage";;
          match plan_previous_disk p with
          | None => throw "workspace has no Enclave-managed disk allocation"
          | Some current =>
              (if current <? n
               then lift (check_disk_budget (sb_limits (plan_sandbox p)) (plan_other_disk p) n) else mret tt);;
              assert (rh_image_plan h) "the disk image cannot be resized"
          end
      | None => mret tt
      end;;
      match memory_change with
      | Some m => write_txn (rh_memory h)
                    (set_workspace_memory_bytes (rh_memory_persist h) (plan_sandbox_id p) (plan_workspace_id p) m)
      | None => mret tt
      end;;
      r ← match disk_change with
          | Some _ => resize_workspace_image p
          | None => assert (rh_sync h) "failed to apply runtime limits";; mret (plan_previous_disk p, false)
          end;
      mret (plan_result p r.1 (default current_memory memory_change) r.2)
  end.
End resize.

(** ** Safety *)

Lemma name_taken_false e nm : name_taken e nm = false → ∀ wid u, workspaces e !! wid = Some u → name u ≠ nm.
Proof.
  intros H wid u Hu Hn. apply not_true_iff_false in H. apply H. unfold name_taken.
  apply existsb_exists. exists u. split; [|by rewrite bool_decide_eq_true].
  apply list_elem_of_In, elem_of_btree_values. eauto.
Qed.

Lemma sandbox_of_Ok r selector sid e : sandbox_of r selector = Ok (sid, e) → sandboxes r !! sid = Some e.
Proof. unfold sandbox_of. intros H. case_result. done. Qed.

Lemma workspace_of_Ok r sb ws sid wid e w :
  workspace_of r sb ws = Ok (sid, wid, e, w) → sandboxes r !! sid = Some e ∧ workspaces e !! wid = Some w.
Proof.
  unfold workspace_of. intros ([sid' e'] & Hs%sandbox_of_Ok & H)%bind_Ok. case_result. done.
Qed.

Lemma commit_create_Ok selector w st out st' :
  commit_create selector w st = (Ok out, st') →
  ∃ sid e, sandbox_of st.1 selector = Ok (sid, e) ∧ sb_status (metadata e) = SbRunning ∧
    check_disk_budget (sb_limits (metadata e)) (sandbox_workspace_disk_bytes e) (disk_of w) = Ok tt ∧
    (∀ wid u, workspaces e !! wid = Some u → name u ≠ name w) ∧ out = w ∧
    st' = (set_workspace sid (id w) w st.1, st.2).
Proof.
  intros H. unfold commit_create in H. apply stm_bind_Ok in H as (st0 & st1 & H1 & H). stm_inv H1.
  apply stm_bind_Ok in H as ([sid e] & st1 & H2 & H). stm_inv H2.
  apply stm_bind_Ok in H as (u1 & st1 & H3 & H). stm_inv H3.
  apply stm_bind_Ok in H as (u2 & st1 & H4 & H). stm_inv H4. destruct u2.
  apply stm_bind_Ok in H as (u3 & st1 & H5 & H).
  destruct (name_taken e (name w)) eqn:Hn; cbn [snd] in H5; rewrite Hn in H5; [by stm_inv H5|]. stm_inv H5. world_inv H.
  exists sid, e. split_and!; try done.
  - unfold require_running in H3. destruct (decide (sb_status (metadata e) = SbRunning)) as [|Hs]; [done|].
    cbn [snd] in H3. by rewrite bool_decide_eq_true_2 in H3.
  - by apply name_taken_false.
Qed.

Lemma commit_create_refines {M : Mode} selector w :
  assigned_ip w = None → 0 ≤ disk_of w → refines (commit_create selector w).
Proof.
  intros Hip Hd st out st' (sid & e & Hs%sandbox_of_Ok & _ & Hb & Hn & _ & ->)%commit_create_Ok _.
  apply rtc_once. by eapply step_create.
Qed.

Lemma storage_limits_nonneg home d : validate_workspace_storage_limits home d = Ok tt → 0 ≤ default 0 d.
Proof.
  unfold validate_workspace_storage_limits. destruct d as [b|]; [|done]. cbn.
  destruct (Z.ltb_spec b MIN_DISK_BYTES); [done|]. unfold MIN_DISK_BYTES in *. lia.
Qed.

Definition create_env {M : Mode} (h : create_host) : Prop := env_safe (ch_check h) ∧ env_safe (ch_commit h).

Lemma create_workspace_safe {M : Mode} h selector nm o : create_env h → fleet_safe (create_workspace_with_options h selector nm o).
Proof.
  intros [H1 H2]. unfold create_workspace_with_options.
  do 2 (apply fleet_safe_bind; [auto with enclave|intros ?]).
  apply fleet_safe_bind; [auto with enclave|intros providers].
  apply fleet_safe_bind; [auto with enclave|intros owner].
  apply fleet_safe_bind; [auto with enclave|intros tokens].
  apply fleet_safe_bind; [auto with enclave|intros ?].
  set (l := apply_defaults _ _ _). intros st Hst. unfold mbind at 1, stm_bind at 1, lift at 1.
  destruct (validate_workspace_storage_limits (co_home_mount_source o) (disk_bytes l)) as [[]|] eqn:Hl; [|done].
  apply storage_limits_nonneg in Hl. revert st Hst.
  match goal with |- ∀ st, _ → rtc _ _ (?m st).2.1 => change (fleet_safe m) end.
  apply fleet_safe_bind; [auto with enclave|intros sandbox].
  apply fleet_safe_bind; [auto with enclave|intros dir].
  apply fleet_safe_bind; [auto with enclave|intros ?].
  apply fleet_safe_bind; [auto with enclave|intros home].
  apply fleet_safe_bind; [auto with enclave|intros ?].
  apply fleet_safe_bind; [auto with enclave|intros ?].
  apply fleet_safe_on_error; [|auto with enclave]. apply fleet_safe_write; [done|].
  by apply commit_create_refines.
Qed.

(** A limits update that names no disk keeps the disk. *)
Lemma workspace_apply_update_disk u l :
  wu_disk_bytes u = None → disk_bytes (workspace_apply_update u l).2 = disk_bytes l.
Proof.
  intros Hu. unfold workspace_apply_update.
  destruct (set_field Z.eqb (wu_cpu_seconds u) _) as [a1 c1].
  destruct (validate_optional_cpu _); [|done].
  destruct (set_field f64_eq _ _) as [a2 c2]. destruct (set_field Z.eqb (wu_memory_bytes u) _) as [a3 c3].
  destruct (set_field Z.eqb (wu_max_processes u) _) as [a4 c4].
  destruct (set_field Z.eqb (wu_max_open_files u) _) as [a5 c5]. rewrite Hu. cbn.
  by destruct (workspace_limits_validate _).
Qed.

Lemma apply_definition_refines {M : Mode} storage persist sb ws a1 a2 a3 a4 u :
  refines (apply_definition storage persist sb ws a1 a2 a3 a4 u).
Proof.
  intros st out st' H _. unfold apply_definition in H.
  apply stm_bind_Ok in H as (st0 & st1 & H1 & H). stm_inv H1.
  apply stm_bind_Ok in H as ([[[sid wid] e] w] & st1 & H2 & H). stm_inv H2.
  apply workspace_of_Ok in H2 as [He Hw].
  apply stm_bind_Ok in H as (u3 & st1 & H3 & H). stm_inv H3. apply bool_decide_eq_true in H3.
  repeat (destruct (assign _ _) as [? ?] in H).
  pose proof (workspace_apply_update_disk u (limits w) H3) as Hdisk.
  destruct (workspace_apply_update u (limits w)) as [r lim].
  apply stm_bind_Ok in H as (u4 & st1 & H4 & H). world_inv H4.
  apply stm_bind_Ok in H as (c9 & st1 & H5 & H). stm_inv H5.
  apply stm_bind_Ok in H as (u6 & st1 & H6 & H). stm_inv H6.
  apply stm_bind_Ok in H as (u7 & st2 & H7 & H). stm_inv H.
  set (w' := with_definition _ _ _ _ _ _ _ _ _ _) in *.
  assert (st2.1 = set_workspace sid wid w' st.1) as ->.
  { destruct (_ || _); [|by stm_inv H7]. apply stm_bind_Ok in H7 as (u8 & st3 & H8 & H7). stm_inv H8.
    by apply persist_workspace_Ok in H7 as [_ ->]. }
  apply rtc_once. apply (harmless_step _ _ _ w); [apply find_workspace_Some; eauto|].
  split_and!; [done| |by left]. exact Hdisk.
Qed.

Lemma update_definition_safe {M : Mode} t storage persist sb ws u :
  env_safe t → fleet_safe (update_workspace_definition t storage persist sb ws u).
Proof.
  intros Ht. unfold update_workspace_definition.
  repeat (apply fleet_safe_bind; [auto with enclave|intros ?]).
  apply fleet_safe_write; [done|]. apply apply_definition_refines.
Qed.

Lemma set_disk_refines {M : Mode} persist sid wid n : 0 ≤ n → refines (set_workspace_disk_bytes persist sid wid n).
Proof.
  intros Hn st u st' H _. unfold set_workspace_disk_bytes in H.
  apply stm_bind_Ok in H as (e & st1 & H1 & H). world_inv H1.
  apply stm_bind_Ok in H as (w & st1 & H2 & H). stm_inv H2. apply ok_or_Ok in H2.
  apply stm_bind_Ok in H as (u3 & st1 & H3 & H).
  assert (st1 = st ∧ (disk_of w < n → check_disk_budget (sb_limits (metadata e))
    (sandbox_workspace_disk_bytes_excluding e wid) n = Ok tt)) as [-> Hb].
  { unfold disk_of. destruct (Z.ltb_spec (default 0 (disk_bytes (limits w))) n).
    - stm_inv H3. by destruct u3.
    - apply mret_Ok in H3 as [_ ->]. split; [done|lia]. }
  apply stm_bind_Ok in H as (u4 & st1 & H4 & H). world_inv H4. apply persist_workspace_Ok in H as [_ ->].
  apply rtc_once. by eapply (step_resize _ _ _ e w).
Qed.

Lemma set_memory_refines {M : Mode} persist sid wid m : refines (set_workspace_memory_bytes persist sid wid m).
Proof.
  intros st u st' H _. unfold set_workspace_memory_bytes in H.
  apply stm_bind_Ok in H as (w & st1 & H1 & H). world_inv H1.
  apply stm_bind_Ok in H as (u2 & st1 & H2 & H). world_inv H2.
  apply stm_bind_Ok in H as (u3 & st1 & H3 & H). stm_inv H3.
  apply persist_workspace_Ok in H as [_ ->]. apply rtc_once, (harmless_step _ _ _ w); [done|].
  split_and!; [done|done|by left].
Qed.
#[export] Hint Resolve set_disk_refines set_memory_refines : enclave.

Section resize_safety.
Context {M : Mode}.
Context (h : resize_host).
Hypothesis Henv : Forall env_safe [rh_plan h; rh_memory h; rh_mark h; rh_stopped h; rh_disk h; rh_reread h;
  rh_reserve h; rh_commit h; rh_rollback h].
Hypothesis Himage : ∀ image, rh_image h = Some image → 0 ≤ image.2.

Lemma resize_env t :
  t ∈ [rh_plan h; rh_memory h; rh_mark h; rh_stopped h; rh_disk h; rh_reread h; rh_reserve h; rh_commit h;
       rh_rollback h] → env_safe t.
Proof. intros Ht. rewrite list.Forall_forall in Henv. auto. Qed.

Lemma commit_restart_steps b1 b2 started sid wid st :
  (strict = true → keeps_reservation sid wid (rh_commit h)) → fleet_ok st.1 →
  holds_reservation sid wid (started_ip started) st →
  rtc fleet_step st.1 (write_txn (rh_commit h) (commit_restart b1 b2 started sid wid) st).2.1.
Proof.
  intros Hkeep Hok Hres. assert (env_safe (rh_commit h)) as Hco by (apply resize_env; set_solver).
  etrans; [by apply Hco|].
  destruct (write_txn _ _ st) as [res st'] eqn:E.
  assert (∀ a st1, commit_restart b1 b2 started sid wid (before (rh_commit h) st) = (Ok a, st1) →
    rtc fleet_step (before (rh_commit h) st).1 (bump_generation st1.1)) as Hdone.
  2:{ apply write_txn_cases in E as [(a & st1 & -> & E & ->)|[(_ & E & _)|(a & st1 & _ & _ & E & ->)]];
        [by eapply Hdone|by cbn; rewrite E|by eapply Hdone]. }
  clear E. intros a st1 E.
  unfold commit_restart in E. apply stm_bind_Ok in E as (w & st2 & H1 & E). world_inv H1.
  destruct (bool_decide (status w ≠ Starting)) eqn:Hs; [stm_inv E|].
  apply bool_decide_eq_false, dec_stable in Hs.
  apply stm_bind_Ok in E as (u1 & st3 & H2 & E). world_inv H2.
  apply stm_bind_Ok in E as (u2 & st4 & H3 & E). stm_inv H3.
  apply persist_workspace_Ok in E as [_ E].
  set (w' := normalize_namespace_ref_paths _) in E.
  apply rtc_l with (set_workspace sid wid w' (before (rh_commit h) st).1);
    [|apply rtc_once; apply step_same; cbn; by rewrite E].
  apply (step_edit _ _ _ w); [done|done|done|]. intros Hstr. left.
  destruct (Hkeep Hstr st w H1 Hs) as (w0 & Hw0 & Hs0 & Hw1). cbn. rewrite Hw1. symmetry. by apply Hres.
Qed.

Lemma give_back_restart_safe sid wid : fleet_safe (give_back_restart h sid wid).
Proof.
  unfold give_back_restart. apply fleet_safe_ignore, fleet_safe_write; [apply resize_env; set_solver|].
  auto with enclave.
Qed.

Lemma restart_safe p :
  (strict = true → keeps_reservation (plan_sandbox_id p) (plan_workspace_id p) (rh_commit h)) →
  fleet_safe (restart_workspace_after_resize h p).
Proof.
  intros Hkeep. unfold restart_workspace_after_resize. set (sid := plan_sandbox_id p) in *.
  set (wid := plan_workspace_id p) in *. pose proof (give_back_restart_safe sid wid) as Hg.
  apply fleet_safe_bind; [apply fleet_safe_read, resize_env; set_solver|intros _].
  intros st Hst. apply (safe_from_bind (λ _, True) (λ ip, holds_reservation sid wid ip)); [| | |done|done].
  - apply safe_from_any, fleet_safe_write; [apply resize_env; set_solver|auto with enclave].
  - intros st1 ip st2 _ [(a & st3 & [= <-] & E & ->)|[[? _]|(? & ? & ? & _)]]%write_txn_cases; [|done..].
    apply mark_workspace_starting_Ok in E as (w & o & Hw & Hr & _).
    intros w'. cbn. rewrite find_workspace_bump, Hr, find_set_workspace, decide_True; [by intros [= <-]|].
    apply find_workspace_Some in Hw as (e & ? & _). split_and!; try done.
  - intros ip. apply safe_from_bind with (λ started, holds_reservation sid wid (started_ip started)).
    + apply safe_from_on_error; [apply safe_from_any, launch_safe|auto using fleet_safe_bind with enclave].
    + intros st1 started st2 HP E. apply on_error_Ok in E; [|done].
      apply launch_ip in E as (-> & E & _). intros w. rewrite E. apply HP.
    + intros started. apply safe_from_on_error; [|auto 10 using fleet_safe_bind with enclave].
      intros st1 HP Hok. by apply commit_restart_steps.
Qed.

Lemma stop_for_resize_safe p : fleet_safe (stop_workspace_for_resize h p).
Proof.
  unfold stop_workspace_for_resize.
  apply fleet_safe_bind; [apply fleet_safe_write; [apply resize_env; set_solver|auto with enclave]|intros _].
  apply fleet_safe_bind; [destruct (runtime_pid _); auto with enclave|intros _].
  apply fleet_safe_write; [apply resize_env; set_solver|auto with enclave].
Qed.

Lemma resize_image_safe p :
  (strict = true → keeps_reservation (plan_sandbox_id p) (plan_workspace_id p) (rh_commit h)) →
  fleet_safe (resize_workspace_image h p).
Proof.
  intros Hkeep. unfold resize_workspace_image.
  apply fleet_safe_bind; [destruct (is_running _); auto using stop_for_resize_safe with enclave|intros _].
  apply fleet_safe_bind; [auto with enclave|intros _].
  intros st Hst. apply (safe_from_bind (λ _, True) (λ image _, 0 ≤ image.2)); [| | |done|done].
  - apply safe_from_any. auto with enclave.
  - intros st1 image st2 _ E. apply lift_Ok in E as [E%ok_or_Ok _]. by apply Himage.
  - intros image st1 Hi Hok1. revert st1 Hok1.
    match goal with |- ∀ st, _ → rtc _ _ (?m st).2.1 => change (fleet_safe m) end.
    apply fleet_safe_bind.
    { apply fleet_safe_on_error; [|auto with enclave].
      apply fleet_safe_write; [apply resize_env; set_solver|auto with enclave]. }
    intros _. apply fleet_safe_bind; [destruct (is_running _); [by apply restart_safe|auto with enclave]|].
    auto with enclave.
Qed.

Lemma resize_steps sb ws new_disk new_memory st :
  (∀ p, strict = true → read_resize_plan sb ws (before (rh_plan h) st).1 = Ok p →
     keeps_reservation (plan_sandbox_id p) (plan_workspace_id p) (rh_commit h)) →
  fleet_ok st.1 → rtc fleet_step st.1 (resize_workspace_with_security h sb ws new_disk new_memory st).2.1.
Proof.
  intros Hkeep Hok. unfold resize_workspace_with_security.
  apply (safe_from_bind (λ st', st' = st)
    (λ p _, strict = true → keeps_reservation (plan_sandbox_id p) (plan_workspace_id p) (rh_commit h)));
    [| | |done|done].
  - apply safe_from_any, fleet_safe_read, resize_env. set_solver.
  - intros st1 p st2 -> E. unfold read_txn in E. destruct (reachable _); [|done]. injection E as E _.
    intros Hstr. by apply Hkeep.
  - intros p st1 Hk Hok1. revert st1 Hok1.
    match goal with |- ∀ st, _ → rtc _ _ (?m st).2.1 => change (fleet_safe m) end.
    set (disk_change := match new_disk with Some _ => _ | None => _ end).
    set (memory_change := match new_memory with Some _ => _ | None => _ end).
    assert (fleet_safe (match disk_change with
      | Some n => assert (bool_decide (home_mount_source_path (plan_workspace p) = None))
                    "disk resize is only supported for Enclave-managed storage";;
                  match plan_previous_disk p with
                  | None => throw "workspace has no Enclave-managed disk allocation"
                  | Some current =>
                      (if current <? n then lift (check_disk_budget (sb_limits (plan_sandbox p)) (plan_other_disk p) n)
                       else mret tt);; assert (rh_image_plan h) "the disk image cannot be resized" end
      | None => mret tt end)) as H1.
    { destruct disk_change as [n|]; [|auto with enclave]. apply fleet_safe_bind; [auto with enclave|intros _].
      destruct (plan_previous_disk p); [|auto with enclave].
      apply fleet_safe_bind; [destruct (_ <? _); auto with enclave|auto with enclave]. }
    assert (∀ (B : Type) (k : stm world B), fleet_safe k → fleet_safe (match memory_change with
      | Some m => write_txn (rh_memory h) (set_workspace_memory_bytes (rh_memory_persist h) (plan_sandbox_id p)
                    (plan_workspace_id p) m) | None => mret tt end;; k)) as H2.
    { intros B k Hk2. apply fleet_safe_bind; [|done]. destruct memory_change; [|auto with enclave].
      apply fleet_safe_write; [apply resize_env; set_solver|auto with enclave]. }
    assert (fleet_safe (match disk_change with Some _ => resize_workspace_image h p
      | None => assert (rh_sync h) "failed to apply runtime limits";; mret (plan_previous_disk p, false) end)) as H3.
    { destruct disk_change; [by apply resize_image_safe|]. auto using fleet_safe_bind with enclave. }
    destruct disk_change, memory_change; auto using fleet_safe_bind with enclave.
Qed.
End resize_safety.
