(* ===== verification/Sandbox.v ===== *)
(** * Sandboxes and recovery

    The sandbox lifecycle (src/src/sandbox/lifecycle) and the reconciliation of
    interrupted transitions with what is running (src/src/sandbox/lifecycle.rs,
    src/src/workspace/control/state/reconcile.rs). *)
From S2P Require Import Prelude RustStr Ipam Ports Types Registry Records Fleet Start Stop Update.
Open Scope Z_scope.

Definition put_metadata (sid : string) (m : SandboxMetadata) : stm world unit :=
  on_registry (set_metadata sid m).

(** [registry.sandboxes.get_mut(..)] after [resolve_sandbox_id] *)
Definition resolve_entry (selector : string) : stm world (string * RegistrySandbox) :=
  st ← get; lift (sandbox_of st.1 selector).

(** ** Limits (sandbox/lifecycle/update.rs) *)

Definition with_budget (d : option Z) (l : SandboxLimits) : SandboxLimits :=
  mkSbLimits (sb_cpu_percent l) (sb_memory_bytes l) (sb_max_processes l) d (max_running_workspaces l).

Definition update_sandbox_limits (persist : bool) (selector : string) (u : SandboxLimitsUpdate)
    : stm world SandboxMetadata :=
  p ← resolve_entry selector;
  let '(sid, e) := p in
  match up_disk_bytes u with
  | Some budget => lift (check_disk_budget_covers (with_budget budget (sb_limits (metadata e)))
                           (sandbox_workspace_disk_bytes e))
  | None => mret tt
  end;;
  let '(r, l) := sandbox_apply_update u (sb_limits (metadata e)) in
  let m := with_sb_limits l (metadata e) in
  put_metadata sid m;;
  changed ← lift r;
  (if changed : bool then persist_sandbox_metadata persist m else mret tt);;
  mret m.

(** ** Creating and destroying (sandbox/lifecycle/create.rs, destroy.rs) *)

(** The closure that commits a sandbox that was bootstrapped. *)
Definition insert_sandbox (m : SandboxMetadata) : stm world unit :=
  on_registry (λ r, with_sandboxes (<[sb_id m := mkEntry m ∅]> (sandboxes r)) r).

Definition ALLOWED_SUITES : list string :=
  ["bookworm"; "bullseye"; "trixie"; "sid"; "stable"; "testing"; "oldstable"].

Definition suite_char (c : ascii) : bool := is_ascii_lowercase c || is_ascii_digit c || (c =? "-")%char.

Definition ends_with_char (c : ascii) (s : string) : bool :=
  match strip_suffix_char c s with Some _ => true | None => false end.

(** A character of the [char::is_whitespace] class anywhere in the text. *)
Fixpoint has_whitespace (s : string) : bool :=
  match first_strip white_space s with
  | Some _ => true
  | None => match s with EmptyString => false | String _ s' => has_whitespace s' end
  end.

Definition validate_debootstrap_inputs (suite mirror : string) : result unit :=
  if (String.length suite =? 0)%nat || (32 <? String.length suite)%nat then bail "suite must be 1-32 characters"
  else if negb (str_all suite_char suite) then bail "suite contains invalid characters"
  else if starts_with "-" suite then bail "suite must not start with '-'"
  else if bool_decide (suite ∉ ALLOWED_SUITES) then bail "unsupported suite"
  else if (String.length mirror =? 0)%nat || (200 <? String.length mirror)%nat
  then bail "mirror must be 1-200 characters"
  else if has_whitespace mirror then bail "mirror must not contain whitespace"
  else if negb (starts_with "http://" mirror || starts_with "https://" mirror)
  then bail "mirror must start with http:// or https://"
  else if starts_with "file://" mirror then bail "file:// mirrors are not allowed"
  else
    let host_part := match strip_prefix "http://" mirror with
                     | Some h => h
                     | None => default "" (strip_prefix "https://" mirror)
                     end in
    let host := default "" (head (split "/" host_part)) in
    if bool_decide (host = "") || ends_with_char ":" host then bail "mirror URL must include a host" else Ok tt.

Record sandbox_create_host := mkSbCreate {
  sc_root : bool;
  sc_init : bool;
  sc_state_dir : string;
  sc_random : string;
  sc_layout : bool;
  sc_bootstrap : option (option string);   (** the shared base, when there is one *)
  sc_overlay : bool;
  sc_copy : bool;
  sc_now : string;
  sc_persist : bool;
  sc_commit : txn_host }.

Definition create_sandbox_with_options (h : sandbox_create_host) (nm suite mirror : string)
    (method : BootstrapMethod) (l : SandboxLimits) : stm world SandboxMetadata :=
  lift (validate_name "sandbox" nm);;
  lift (sandbox_limits_validate l);;
  match method with
  | Debootstrap => lift (validate_debootstrap_inputs suite mirror)
  | CachedRootfs => mret tt
  end;;
  assert (sc_root h) "sandbox creation requires root privileges";;
  assert (sc_init h) "failed to initialize storage";;
  let sid := generate_id "sandbox" nm (sc_random h) in
  let dir := sc_state_dir h +:+ "/sandboxes/" +:+ sid in
  assert (sc_layout h) "failed to create sandbox layout";;
  base ← lift (ok_or (sc_bootstrap h) (plain "bootstrap failed"));
  lower ← match base with
          | None => mret None
          | Some lower =>
              if sc_overlay h then mret (Some lower)
              else assert (sc_copy h) "failed to copy cached rootfs";; mret None
          end;
  let m := mkSandbox sid nm suite mirror method (sc_now h) dir (dir +:+ "/rootfs") lower
             (dir +:+ "/runtime/rootfs.mnt") (dir +:+ "/workspaces") (dir +:+ "/home-base") l SbStopped in
  persist_sandbox_metadata (sc_persist h) m;;
  write_txn (sc_commit h) (insert_sandbox m);;
  mret m.

(** The closure that removes a sandbox's record. *)
Definition remove_sandbox_record (sid : string) : stm world unit :=
  e ← get_sandbox sid;
  if bool_decide (workspaces e ≠ ∅) then throw "sandbox still has workspace records after cleanup"
  else on_registry (λ r, with_sandboxes (delete sid (sandboxes r)) r).

(** ** Starting, stopping and pausing (sandbox/lifecycle/start.rs, stop.rs) *)

(** A closure that sets the status of one sandbox and persists its record. *)
Definition set_sandbox_status (persist : bool) (f : SandboxMetadata → SandboxMetadata) (status : SandboxStatus)
    (sid : string) : stm world SandboxMetadata :=
  e ← get_sandbox sid;
  let m := with_sb_status status (f (metadata e)) in
  put_metadata sid m;;
  persist_sandbox_metadata persist m;;
  mret m.

Definition mark_sandbox_starting (persist : bool) (selector : string) : stm world string :=
  p ← resolve_entry selector;
  if sandbox_is_transitional (sb_status (metadata p.2))
  then throw "wait for the current operation to finish"
  else set_sandbox_status persist (λ m, m) SbStarting p.1;; mret p.1.

Definition mark_sandbox_stopping (persist : bool) (selector : string) : stm world string :=
  p ← resolve_entry selector;
  set_sandbox_status persist (λ m, m) SbStopping p.1;; mret p.1.

(** The closure that mounts the rootfs and commits [running]. *)
Definition commit_sandbox_running (layout mounted persist : bool) (sid : string) : stm world SandboxMetadata :=
  e ← get_sandbox sid;
  put_metadata sid (normalize_sandbox_metadata (metadata e));;
  assert layout "failed to create sandbox layout";;
  assert mounted "failed to mount rootfs";;
  set_sandbox_status persist (λ m, m) SbRunning sid.

Record sandbox_start_host := mkSbStart {
  ss_journal : bool;
  ss_phase_mark : bool;
  ss_mark : txn_host;
  ss_mark_persist : bool;
  ss_phase_mount : bool;
  ss_layout : bool;
  ss_mounted : bool;
  ss_commit : txn_host;
  ss_commit_persist : bool;
  ss_rollback : txn_host;
  ss_rollback_persist : bool;
  ss_phase_sync : bool;
  ss_sync : bool;
  ss_succeed : bool }.

Definition start_sandbox (h : sandbox_start_host) (selector : string) : stm world SandboxMetadata :=
  assert (ss_journal h) "failed to begin journal";;
  assert (ss_phase_mark h) "failed to write journal phase";;
  sid ← write_txn (ss_mark h) (mark_sandbox_starting (ss_mark_persist h) selector);
  assert (ss_phase_mount h) "failed to write journal phase";;
  m ← on_error
        (write_txn (ss_commit h)
           (commit_sandbox_running (ss_layout h) (ss_mounted h) (ss_commit_persist h) sid))
        (λ e, ignore (write_txn (ss_rollback h)
                        (set_sandbox_status (ss_rollback_persist h) (λ m, m) SbStopped sid));;
              lift (Err e));
  assert (ss_phase_sync h) "failed to write journal phase";;
  assert (ss_sync h) "failed to sync runtime limits";;
  assert (ss_succeed h) "failed to close journal";;
  mret m.

Record sandbox_stop_host := mkSbStop {
  sp_journal : bool;
  sp_phase_mark : bool;
  sp_mark : txn_host;
  sp_mark_persist : bool;
  sp_phase_unmount : bool;
  sp_read : txn_host;
  sp_unmounted : bool;
  sp_commit : txn_host;
  sp_commit_persist : bool;
  sp_phase_cgroup : bool;
  sp_cgroup : bool;
  sp_succeed : bool }.

Definition stop_sandbox (h : sandbox_stop_host) (selector : string) : stm world SandboxMetadata :=
  assert (sp_journal h) "failed to begin journal";;
  assert (sp_phase_mark h) "failed to write journal phase";;
  sid ← write_txn (sp_mark h) (mark_sandbox_stopping (sp_mark_persist h) selector);
  assert (sp_phase_unmount h) "failed to write journal phase";;
  read_txn (sp_read h) (λ r, e ← ok_or (sandboxes r !! sid) (plain "sandbox not found");
                             Ok (normalize_sandbox_metadata (metadata e)));;
  assert (sp_unmounted h) "failed to unmount rootfs";;
  m ← write_txn (sp_commit h) (set_sandbox_status (sp_commit_persist h) normalize_sandbox_metadata SbStopped sid);
  assert (sp_phase_cgroup h) "failed to write journal phase";;
  assert (sp_cgroup h) "failed to remove sandbox cgroup";;
  assert (sp_succeed h) "failed to close journal";;
  mret m.

Record sandbox_freeze_host := mkFreeze {
  fz_journal : bool;
  fz_read : txn_host;
  fz_phase : bool;
  fz_freeze : bool;                  (** [freeze_workspaces_in_sandbox] *)
  fz_commit : txn_host;
  fz_commit_persist : bool;
  fz_succeed : bool }.

(** [pause_sandbox] and [resume_sandbox]: from one status to the other, with the
    cgroup frozen or thawed first. *)
Definition freeze_transition (required target : SandboxStatus) (h : sandbox_freeze_host) (selector : string)
    : stm world SandboxMetadata :=
  assert (fz_journal h) "failed to begin journal";;
  m ← read_txn (fz_read h) (λ r,
        p ← sandbox_of r selector;
        if bool_decide (sb_status (metadata p.2) ≠ required)
        then bail ("sandbox is " +:+ sandbox_status_as_str (sb_status (metadata p.2)))
        else Ok (metadata p.2));
  assert (fz_phase h) "failed to write journal phase";;
  assert (fz_freeze h) "sandbox cgroup does not support freezing";;
  m' ← write_txn (fz_commit h) (set_sandbox_status (fz_commit_persist h) (λ m, m) target (sb_id m));
  assert (fz_succeed h) "failed to close journal";;
  mret m'.
Definition pause_sandbox := freeze_transition SbRunning SbPaused.
Definition resume_sandbox := freeze_transition SbPaused SbRunning.

(** ** Recovery (sandbox/lifecycle.rs, control/state/reconcile.rs) *)

(** What reconciling one workspace finds. *)
Record reconcile_host := mkReconcile {
  rc_orphan : option Z;                (** a live runtime the record does not name *)
  rc_stop : stop_answer;
  rc_cleanup : bool;
  rc_now : string;
  rc_ref_files : bool;
  rc_process_matches : Z → Z → bool;
  rc_refs_match : bool;
  rc_read_refs : bool;
  rc_write_refs : bool;
  rc_persist : bool }.

Definition transitional_runtime (h : reconcile_host) (w : WorkspaceMetadata) : option Z :=
  match option_zip (runtime_pid w) (runtime_starttime_ticks w) with
  | Some (p, _) => Some p
  | None => rc_orphan h
  end.

Definition refs_recorded (value : string) : bool :=
  negb (bool_decide (value = "")) && negb (bool_decide (value = "unassigned")).

(** [let _ =] with its outcome: whether the call succeeded. *)
Definition attempt {S A} (m : stm S A) : stm S bool := λ st,
  let '(r, st') := m st in (Ok (is_ok r), st').

Definition reconcile_workspace_runtime_state (h : reconcile_host) (w : WorkspaceMetadata)
    : stm world (WorkspaceMetadata * bool) :=
  if is_transitional (status w) then
    stopped ← match transitional_runtime h w with
              | Some p => attempt (stop_session (rc_stop h) p)
              | None => mret true
              end;
    if negb stopped then mret (w, false)
    else if negb (rc_cleanup h) then mret (w, false)
    else
      let w' := stopped_record (rc_now h) w in
      persist_workspace_metadata (rc_persist h) w';;
      mret (w', true)
  else if negb (is_running (status w)) then
    let holds := bool_decide (is_Some (runtime_pid w)) || bool_decide (is_Some (assigned_ip w)) in
    let stale := holds || refs_recorded (refs_mount (namespace_refs w)) ||
                 refs_recorded (refs_pid (namespace_refs w)) || rc_ref_files h in
    if negb stale then mret (w, false)
    else if holds && negb (rc_cleanup h) then mret (w, false)
    else
      let stopped_at := match last_stopped_at w with Some t => Some t | None => Some (rc_now h) end in
      let w' := with_runtime (status w) None None None default_refs stopped_at (sandbox_rootfs_path w) w in
      persist_workspace_metadata (rc_persist h) w';;
      mret (w', true)
  else
    let live := match option_zip (runtime_pid w) (runtime_starttime_ticks w) with
                | Some (p, t) => rc_process_matches h p t
                | None => false
                end in
    if negb live then
      if negb (rc_cleanup h) then mret (w, false)
      else
        let w' := stopped_record (rc_now h) w in
        persist_workspace_metadata (rc_persist h) w';;
        mret (w', true)
    else if rc_refs_match h then mret (w, false)
    else
      assert (rc_read_refs h) "failed to read namespace refs";;
      let w' := normalize_namespace_ref_paths w in
      assert (rc_write_refs h) "failed to write namespace refs";;
      persist_workspace_metadata (rc_persist h) w';;
      mret (w', true).

(** The closure of [reconcile_workspace_states], over the records in order; the
    first error ends it. *)
Fixpoint reconcile_records (host : string → string → reconcile_host) (records : list (string * string))
    : stm world Z :=
  match records with
  | [] => mret 0
  | (sid, wid) :: records' =>
      w ← get_workspace sid wid;
      r ← reconcile_workspace_runtime_state (host sid wid) w;
      put_workspace sid wid r.1;;
      n ← reconcile_records host records';
      mret ((if r.2 : bool then 1 else 0) + n)
  end.

Definition all_records (r : Registry) : list (string * string) :=
  btree_list (sandboxes r) ≫= λ p, (λ wid, (p.1, wid)) <$> btree_keys (workspaces p.2).

Definition reconcile_workspace_states (host : string → string → reconcile_host) : stm world Z :=
  st ← get; reconcile_records host (all_records st.1).

(** The closure that rolls one interrupted sandbox transition back. *)
Definition settle_sandbox (persist : bool) (sid : string) : stm world unit :=
  st ← get;
  match sandboxes st.1 !! sid with
  | None => mret tt
  | Some e =>
      let m := with_sb_status SbStopped (metadata e) in
      put_metadata sid m;;
      persist_sandbox_metadata persist m
  end.

(** [reconcile_sandbox_states]: [unmounted] is whether the rootfs of an interrupted
    sandbox could be unmounted. *)
Record settle_host := mkSettle {
  sh_read : txn_host;
  sh_unmounted : string → bool;
  sh_write : string → txn_host;
  sh_persist : string → bool }.

Fixpoint settle_sandboxes (h : settle_host) (l : list SandboxMetadata) : stm world Z :=
  match l with
  | [] => mret 0
  | m :: l' =>
      if sh_unmounted h (sb_id m) then
        write_txn (sh_write h (sb_id m)) (settle_sandbox (sh_persist h (sb_id m)) (sb_id m));;
        n ← settle_sandboxes h l';
        mret (1 + n)
      else settle_sandboxes h l'
  end.

Definition interrupted_sandboxes (r : Registry) : list SandboxMetadata :=
  normalize_sandbox_metadata <$>
    filter (λ m, sandbox_is_transitional (sb_status m) = true) (metadata <$> btree_values (sandboxes r)).

Definition reconcile_sandbox_states (h : settle_host) : stm world Z :=
  l ← read_txn (sh_read h) (λ r, Ok (interrupted_sandboxes r));
  settle_sandboxes h l.

Definition reconcile_runtime_state (h : settle_host) (t : txn_host) (host : string → string → reconcile_host)
    : stm world Z :=
  n ← reconcile_sandbox_states h;
  k ← write_txn t (reconcile_workspace_states host);
  mret (n + k).

(** ** Activity (workspace/activity.rs) *)

Inductive ActivityKind := Request | Process.

Definition touched (kind : ActivityKind) (stamp : string) (w : WorkspaceMetadata) : WorkspaceMetadata :=
  match kind with
  | Request => with_activity (Some stamp) (last_process_activity_at w) w
  | Process => with_activity (Some stamp) (Some stamp) w
  end.

Definition touch (persist : bool) (stamp : string) (kind : ActivityKind) (sid wid : string) : stm world bool :=
  st ← get;
  match find_workspace st.1 sid wid with
  | None => mret false
  | Some w =>
      put_workspace sid wid (touched kind stamp w);;
      persist_workspace_metadata persist (touched kind stamp w);;
      mret true
  end.

Definition touch_registry_only (stamp : string) (kind : ActivityKind) (sid wid : string) : stm world unit :=
  st ← get;
  match find_workspace st.1 sid wid with
  | None => mret tt
  | Some w => put_workspace sid wid (touched kind stamp w)
  end.

(** ** Safety *)

Lemma resolve_entry_Ok selector st p st' :
  resolve_entry selector st = (Ok p, st') → st' = st ∧ sandboxes st.1 !! p.1 = Some p.2.
Proof.
  intros H. unfold resolve_entry in H. apply stm_bind_Ok in H as (st0 & st1 & H1 & H). stm_inv H1. stm_inv H.
  destruct p as [sid e]. split; [done|]. by eapply sandbox_of_Ok.
Qed.

Lemma put_metadata_step {M : Mode} r sid e m :
  sandboxes r !! sid = Some e → sb_id m = sb_id (metadata e) → sb_limits m = sb_limits (metadata e) →
  fleet_step r (set_metadata sid m r).
Proof. intros He Hid Hl. eapply step_sandbox; [done..|]. left. by rewrite Hl. Qed.

Definition keeps_limits (f : SandboxMetadata → SandboxMetadata) : Prop :=
  ∀ m, sb_id (f m) = sb_id m ∧ sb_limits (f m) = sb_limits m.

Lemma keeps_limits_id : keeps_limits (λ m, m).
Proof. done. Qed.
Lemma keeps_limits_normalize : keeps_limits normalize_sandbox_metadata.
Proof. done. Qed.

Lemma set_sandbox_status_refines {M : Mode} persist f status sid :
  keeps_limits f → refines (set_sandbox_status persist f status sid).
Proof.
  intros Hf st m st' H _. unfold set_sandbox_status in H.
  apply stm_bind_Ok in H as (e & st1 & H1 & H). world_inv H1.
  apply stm_bind_Ok in H as (u & st1 & H2 & H). unfold put_metadata in H2. world_inv H2.
  apply stm_bind_Ok in H as (u2 & st1 & H3 & H). apply persist_sandbox_Ok in H3 as [_ H3]. stm_inv H.
  rewrite H3. apply rtc_once. destruct (Hf (metadata e)). by eapply put_metadata_step.
Qed.

Lemma update_sandbox_limits_refines {M : Mode} persist selector u : refines (update_sandbox_limits persist selector u).
Proof.
  intros st out st' H _. unfold update_sandbox_limits in H.
  apply stm_bind_Ok in H as ([sid e] & st1 & H1 & H). apply resolve_entry_Ok in H1 as [-> He]. cbn in He.
  apply stm_bind_Ok in H as (u1 & st1 & H2 & H).
  assert (st1 = st ∧ ∀ budget, up_disk_bytes u = Some budget →
    check_disk_budget_covers (with_budget budget (sb_limits (metadata e))) (sandbox_workspace_disk_bytes e) = Ok tt)
    as [-> Hfits].
  { destruct (up_disk_bytes u); stm_inv H2; (split; [done|]); intros b [= <-]. by destruct u1. }
  destruct (sandbox_apply_update u (sb_limits (metadata e))) as [r l] eqn:Hup.
  apply stm_bind_Ok in H as (u2 & st2 & H3 & H). unfold put_metadata in H3. world_inv H3.
  apply stm_bind_Ok in H as (changed & st2 & H4 & H). stm_inv H4. subst r. apply sandbox_apply_update_Ok in Hup as ->.
  apply stm_bind_Ok in H as (u3 & st3 & H5 & H). stm_inv H.
  assert (st3.1 = set_metadata sid (with_sb_limits (sandbox_requested u (sb_limits (metadata e))) (metadata e)) st.1)
    as -> by (destruct changed; [by apply persist_sandbox_Ok in H5 as [_ ->]|by stm_inv H5]).
  apply rtc_once, (step_sandbox _ _ e); [done|done|]. cbn.
  destruct (up_disk_bytes u) as [budget|] eqn:Hu; [|by left]. right. pose proof (Hfits _ eq_refl) as Hf.
  rewrite check_disk_budget_covers_Ok in Hf |- *. cbn. by rewrite Hu.
Qed.

Lemma insert_sandbox_refines {M : Mode} m :
  (∀ budget, sb_disk_bytes (sb_limits m) = Some budget → 0 ≤ budget) → refines (insert_sandbox m).
Proof. intros Hm st u st' H _. unfold insert_sandbox in H. world_inv H. by apply rtc_once, step_add_sandbox. Qed.

Lemma remove_sandbox_refines {M : Mode} sid : refines (remove_sandbox_record sid).
Proof.
  intros st u st' H _. unfold remove_sandbox_record in H. apply stm_bind_Ok in H as (e & st1 & H1 & H).
  world_inv H1. destruct (bool_decide _); [stm_inv H|]. world_inv H. apply rtc_once, step_remove_sandbox.
Qed.

Lemma resolve_entry_refines {M : Mode} selector : refines (resolve_entry selector).
Proof. apply refines_frame. intros st p st' H. by apply resolve_entry_Ok in H as [-> _]. Qed.
Lemma refines_ret {M : Mode} {A} (a : A) : refines (mret a).
Proof. apply refines_frame. intros st x st' H. by stm_inv H. Qed.
#[export] Hint Resolve update_sandbox_limits_refines remove_sandbox_refines resolve_entry_refines refines_ret
  keeps_limits_id keeps_limits_normalize set_sandbox_status_refines : enclave.

Lemma mark_sandbox_starting_refines {M : Mode} persist selector : refines (mark_sandbox_starting persist selector).
Proof.
  unfold mark_sandbox_starting. apply refines_bind; [auto with enclave|]. intros p.
  destruct (sandbox_is_transitional _); auto with enclave.
Qed.
Lemma mark_sandbox_stopping_refines {M : Mode} persist selector : refines (mark_sandbox_stopping persist selector).
Proof. unfold mark_sandbox_stopping. auto with enclave. Qed.

Lemma commit_sandbox_running_refines {M : Mode} a b c sid : refines (commit_sandbox_running a b c sid).
Proof.
  unfold commit_sandbox_running. intros st m st' H Hok. apply stm_bind_Ok in H as (e & st1 & H1 & H).
  world_inv H1. apply stm_bind_Ok in H as (u & st1 & H2 & H). unfold put_metadata in H2. world_inv H2.
  set (st1 := (set_metadata _ _ _, _)) in H.
  assert (fleet_step st.1 st1.1) as Hs by by eapply put_metadata_step.
  apply rtc_l with st1.1; [done|].
  assert (refines (assert a "failed to create sandbox layout";; assert b "failed to mount rootfs";;
    set_sandbox_status c (λ m, m) SbRunning sid)) as Hr by auto with enclave.
  by eapply Hr; [|eapply fleet_step_ok].
Qed.
#[export] Hint Resolve mark_sandbox_starting_refines mark_sandbox_stopping_refines
  commit_sandbox_running_refines : enclave.

Lemma start_sandbox_safe {M : Mode} h selector :
  Forall env_safe [ss_mark h; ss_commit h; ss_rollback h] → fleet_safe (start_sandbox h selector).
Proof.
  rewrite !list.Forall_cons. intros (H1 & H2 & H3 & _). unfold start_sandbox.
  auto 15 using fleet_safe_bind with enclave.
Qed.
Lemma stop_sandbox_safe {M : Mode} h selector :
  Forall env_safe [sp_mark h; sp_read h; sp_commit h] → fleet_safe (stop_sandbox h selector).
Proof.
  rewrite !list.Forall_cons. intros (H1 & H2 & H3 & _). unfold stop_sandbox.
  auto 15 using fleet_safe_bind with enclave.
Qed.
Lemma freeze_transition_safe {M : Mode} required target h selector :
  Forall env_safe [fz_read h; fz_commit h] → fleet_safe (freeze_transition required target h selector).
Proof.
  rewrite !list.Forall_cons. intros (H1 & H2 & _). unfold freeze_transition.
  auto 15 using fleet_safe_bind with enclave.
Qed.

Lemma create_sandbox_safe {M : Mode} h nm su mi method l :
  (∀ budget, sb_disk_bytes l = Some budget → 0 ≤ budget) → env_safe (sc_commit h) →
  fleet_safe (create_sandbox_with_options h nm su mi method l).
Proof.
  intros Hb Ht. unfold create_sandbox_with_options.
  do 2 (apply fleet_safe_bind; [auto with enclave|intros _]).
  apply fleet_safe_bind; [destruct method; auto with enclave|intros _].
  do 3 (apply fleet_safe_bind; [auto with enclave|intros _]).
  apply fleet_safe_bind; [auto with enclave|intros base].
  apply fleet_safe_bind; [destruct base; [destruct (sc_overlay h)|]; auto using fleet_safe_bind with enclave|].
  intros lower. apply fleet_safe_bind; [apply fleet_safe_frame; intros st; by destruct (sc_persist h)|intros _].
  apply fleet_safe_bind; [apply fleet_safe_write; [done|by apply insert_sandbox_refines]|auto with enclave].
Qed.

(** ** What reconciling one record does *)

(** A record no runtime and no host resource belongs to. *)
Definition released (w : WorkspaceMetadata) : Prop :=
  runtime_pid w = None ∧ runtime_starttime_ticks w = None ∧ assigned_ip w = None ∧
  namespace_refs w = default_refs ∧ is_Some (last_stopped_at w).

(** The record a successful reconciliation leaves: the one it found, one whose
    runtime is gone, or a live one with fresh references. *)
Inductive reconciled (h : reconcile_host) (w : WorkspaceMetadata) : WorkspaceMetadata → bool → Prop :=
  | rec_kept : reconciled h w w false
  | rec_released w' : status w' = (if is_running (status w) || is_transitional (status w) then Stopped else status w) →
      released w' → harmless w w' → rc_cleanup h = true ∨ runtime_pid w = None ∧ assigned_ip w = None →
      reconciled h w w' true
  | rec_live p t : status w = Running → runtime_pid w = Some p → runtime_starttime_ticks w = Some t →
      rc_process_matches h p t = true → reconciled h w (normalize_namespace_ref_paths w) true.

Lemma persist_and_report_Ok ok w st v changed st' :
  (persist_workspace_metadata ok w;; mret (w, true)) st = (Ok (v, changed), st') →
  v = w ∧ changed = true ∧ st'.1 = st.1 ∧ sessions st'.2 = sessions st.2 ∧
  workspace_json st'.2 !! (workspace_path w +:+ "/workspace.json") = Some w.
Proof.
  unfold persist_workspace_metadata. destruct ok; cbn; intros [= <- <- <-]. cbn.
  by rewrite lookup_insert_eq.
Qed.

Lemma reported_Ok (p q : WorkspaceMetadata * bool) (st st' : world) :
  (mret p : stm world _) st = (Ok q, st') → q = p ∧ st' = st.
Proof. by intros [= -> ->]. Qed.

(** What closing the transition of a record that names the session [p] rests on:
    the stop reported success, and the session is gone if that was true. *)
Definition stop_confirmed (a : stop_answer) (p : Z) (st : world) : Prop :=
  sa_ok a = true ∧ (sa_ended a = true → p ∉ sessions st.2).

Lemma attempt_stop_Ok a p st stopped st' :
  attempt (stop_session a p) st = (Ok stopped, st') →
  st'.1 = st.1 ∧ (stopped = true → stop_confirmed a p st').
Proof.
  unfold attempt, stop_session, stop_confirmed, mbind, stm_bind. cbn.
  destruct (sa_ok a); cbn; intros [= <- <-]; cbn; (split; [done|]); [|done].
  intros _. split; [done|]. intros ->. set_solver.
Qed.

Lemma released_stopped now w : released (stopped_record now w).
Proof. split_and!; done. Qed.

(** The three branches of the reconciliation, by the status of the record. *)
Lemma reconcile_transitional_cases h w st w' changed st' :
  is_transitional (status w) = true →
  reconcile_workspace_runtime_state h w st = (Ok (w', changed), st') →
  st'.1 = st.1 ∧
  ((w', changed) = (w, false) ∨
   (w', changed) = (stopped_record (rc_now h) w, true) ∧ rc_cleanup h = true ∧
   (∀ p, transitional_runtime h w = Some p → stop_confirmed (rc_stop h) p st') ∧
   workspace_json st'.2 !! (workspace_path w +:+ "/workspace.json") = Some w').
Proof.
  intros Ht H. unfold reconcile_workspace_runtime_state in H. rewrite Ht in H.
  apply stm_bind_Ok in H as (stopped & st1 & H1 & H).
  assert (st1.1 = st.1 ∧ (stopped = true → ∀ p, transitional_runtime h w = Some p → stop_confirmed (rc_stop h) p st1))
    as [Hst Hgone].
  { destruct (transitional_runtime h w) as [q|]; [|by stm_inv H1].
    apply attempt_stop_Ok in H1 as [Hst Hq]. split; [done|]. intros Hs p [= <-]. by apply Hq. }
  destruct stopped; cbn [negb] in H; [|by apply reported_Ok in H as [-> ->]; split; [|left]].
  destruct (rc_cleanup h); cbn [negb] in H; [|by apply reported_Ok in H as [-> ->]; split; [|left]].
  apply persist_and_report_Ok in H as (-> & -> & Hr & Hs & Hj). rewrite Hr. split; [done|]. right.
  split_and!; try done. unfold stop_confirmed. rewrite Hs. by apply Hgone.
Qed.

Lemma reconcile_stopped_cases h w st w' changed st' :
  is_transitional (status w) = false → is_running (status w) = false →
  reconcile_workspace_runtime_state h w st = (Ok (w', changed), st') →
  st'.1 = st.1 ∧
  ((w', changed) = (w, false) ∨
   changed = true ∧ status w' = status w ∧ released w' ∧ harmless w w' ∧
   (rc_cleanup h = true ∨ runtime_pid w = None ∧ assigned_ip w = None) ∧
   workspace_json st'.2 !! (workspace_path w +:+ "/workspace.json") = Some w').
Proof.
  intros Ht Hr H. unfold reconcile_workspace_runtime_state in H. rewrite Ht, Hr in H. cbn [negb] in H.
  destruct (negb (_ || _ || _ || _)); [by apply reported_Ok in H as [-> ->]; split; [|left]|].
  destruct ((_ || _) && _) eqn:Hc; [by apply reported_Ok in H as [-> ->]; split; [|left]|].
  apply persist_and_report_Ok in H as (-> & -> & Hst & _ & Hj). split; [done|]. right.
  split_and!; try done.
  - split_and!; try done. by destruct (last_stopped_at w); eexists.
  - split; [done|]. split; [done|]. by right.
  - apply andb_false_iff in Hc as [[Hp Hi]%orb_false_iff|Hc]; [right|left; by destruct (rc_cleanup h)].
    apply bool_decide_eq_false, eq_None_not_Some in Hp. by apply bool_decide_eq_false, eq_None_not_Some in Hi.
Qed.

Lemma reconcile_running_cases h w st w' changed st' :
  status w = Running →
  reconcile_workspace_runtime_state h w st = (Ok (w', changed), st') →
  st'.1 = st.1 ∧
  ((w', changed) = (w, false) ∨
   changed = true ∧ workspace_json st'.2 !! (workspace_path w +:+ "/workspace.json") = Some w' ∧
   (w' = stopped_record (rc_now h) w ∧ rc_cleanup h = true ∨
    w' = normalize_namespace_ref_paths w ∧
      ∃ p t, runtime_pid w = Some p ∧ runtime_starttime_ticks w = Some t ∧ rc_process_matches h p t = true)).
Proof.
  intros Hr H. unfold reconcile_workspace_runtime_state in H. rewrite Hr in H. cbn [is_transitional is_running negb] in H.
  destruct (match option_zip _ _ with Some _ => _ | None => _ end) eqn:Hlive; cbn [negb] in H.
  - destruct (rc_refs_match h); [by apply reported_Ok in H as [-> ->]; split; [|left]|].
    apply stm_bind_Ok in H as (u1 & st1 & H1 & H). stm_inv H1.
    apply stm_bind_Ok in H as (u2 & st2 & H2 & H). stm_inv H2.
    apply persist_and_report_Ok in H as (-> & -> & Hst & _ & Hj). split; [done|]. right.
    split_and!; try done. right. split; [done|].
    destruct (runtime_pid w) as [p|], (runtime_starttime_ticks w) as [t|]; try done. by exists p, t.
  - destruct (rc_cleanup h) eqn:Hc; cbn [negb] in H; [|by apply reported_Ok in H as [-> ->]; split; [|left]].
    apply persist_and_report_Ok in H as (-> & -> & Hst & _ & Hj). split; [done|]. right.
    split_and!; try done. by left.
Qed.

Lemma reconcile_cases h w st w' changed st' :
  reconcile_workspace_runtime_state h w st = (Ok (w', changed), st') →
  reconciled h w w' changed ∧ st'.1 = st.1 ∧
  (changed = true → workspace_json st'.2 !! (workspace_path w +:+ "/workspace.json") = Some w') ∧
  (changed = true → is_transitional (status w) = true →
     ∀ p, transitional_runtime h w = Some p → stop_confirmed (rc_stop h) p st').
Proof.
  intros H. destruct (is_transitional (status w)) eqn:Ht.
  { apply reconcile_transitional_cases in H as [Hst [[= -> ->]|([= -> ->] & Hc & Hp & Hj)]]; [by split_and!; [apply rec_kept|..]| |done].
    split_and!; auto. apply rec_released; [by rewrite Ht, orb_true_r|apply released_stopped|apply harmless_stopped|auto]. }
  destruct (is_running (status w)) eqn:Hr.
  - assert (status w = Running) as Hrun by by destruct (status w).
    apply reconcile_running_cases in H as [Hst [[= -> ->]|(-> & Hj & [[-> Hc]|(-> & p & t & ? & ? & ?)])]];
      [by split_and!; [apply rec_kept|..]| | |done].
    + split_and!; auto; [|done]. apply rec_released; [by rewrite Hr|apply released_stopped|apply harmless_stopped|auto].
    + split_and!; auto; [|done]. by eapply rec_live.
  - apply reconcile_stopped_cases in H as [Hst [[= -> ->]|(-> & Hs & Hrel & Hh & Hc & Hj)]];
      [by split_and!; [apply rec_kept|..]| |done..].
    split_and!; auto; [|done]. apply rec_released; [by rewrite Hr, Ht|done..].
Qed.

(** A record that needs no reconciliation. *)
Definition settled (h : reconcile_host) (w : WorkspaceMetadata) : Prop :=
  is_transitional (status w) = false ∧
  (status w = Running → ∃ p t, runtime_pid w = Some p ∧ runtime_starttime_ticks w = Some t ∧
                               rc_process_matches h p t = true) ∧
  (status w ≠ Running → released w).

Lemma reconciled_settled h w w' : reconciled h w w' true → settled h w'.
Proof.
  intros H. remember true as changed eqn:Ec. destruct H as [|w' Hs Hrel _ _|p t Hr Hp Ht Hm]; [done| |].
  - assert (is_transitional (status w') = false ∧ status w' ≠ Running) as [Ht Hr] by (rewrite Hs; by destruct (status w)).
    by split_and!.
  - split_and!; cbn; [by rewrite Hr|by exists p, t|done].
Qed.

Lemma reconcile_settled h w st :
  settled h w → rc_ref_files h = false → rc_refs_match h = true →
  reconcile_workspace_runtime_state h w st = (Ok (w, false), st).
Proof.
  intros (Ht & Hr & Hs) Hf Hm. unfold reconcile_workspace_runtime_state. rewrite Ht.
  destruct (is_running (status w)) eqn:Hrun; cbn [negb].
  - destruct Hr as (p & t & -> & -> & Hp); [by destruct (status w)|]. cbn. by rewrite Hp, Hm.
  - destruct Hs as (-> & _ & -> & -> & _); [by intros E; rewrite E in Hrun|]. by rewrite Hf.
Qed.

(** With a host that answers, reconciling returns a record nothing is left to do for. *)
Definition answers (h : reconcile_host) : Prop :=
  sa_ok (rc_stop h) = true ∧ rc_cleanup h = true ∧ rc_persist h = true ∧ rc_read_refs h = true ∧ rc_write_refs h = true.

Lemma reconcile_total h w st :
  answers h → ∃ w' changed st', reconcile_workspace_runtime_state h w st = (Ok (w', changed), st') ∧
    is_transitional (status w') = false ∧
    (status w' = Running → ∃ p t, runtime_pid w' = Some p ∧ runtime_starttime_ticks w' = Some t ∧
                                  rc_process_matches h p t = true).
Proof.
  intros (Hs & Hc & Hp & Hrd & Hwr). unfold reconcile_workspace_runtime_state, persist_workspace_metadata.
  rewrite Hc, Hp, Hrd, Hwr. destruct (is_transitional (status w)) eqn:Ht.
  { unfold attempt, stop_session, mbind, stm_bind. rewrite Hs. destruct (transitional_runtime h w); cbn; by do 3 eexists. }
  destruct (is_running (status w)) eqn:Hr; cbn [negb].
  - assert (status w = Running) as Hw by by destruct (status w).
    destruct (runtime_pid w) as [p|] eqn:Ep, (runtime_starttime_ticks w) as [t|] eqn:Et; cbn;
      [|by do 3 eexists..].
    destruct (rc_process_matches h p t) eqn:Em; cbn; [|by do 3 eexists].
    destruct (rc_refs_match h); cbn; do 3 eexists; (split; [done|]); cbn; rewrite Hw, Ep, Et; naive_solver.
  - assert (status w = Stopped) as Hw by by destruct (status w).
    rewrite andb_false_r. destruct (negb _); cbn; do 3 eexists; (split; [done|]); cbn; by rewrite Hw.
Qed.

(** C7: reconciling a record with what is running either leaves it alone or
    settles it: the new record is in no transition, claims a runtime only when
    that process is alive, otherwise holds no pid, address or namespace
    reference, keeps its identity, and is the one written to the workspace's
    directory; an interrupted transition is only closed once the stop of its
    runtime reported success, and then the runtime is gone if that was true; and
    reconciling the settled record again changes nothing, as long as the same
    processes are alive, no reference file is left and the references match.
    When the host can stop, release and write, reconciling always ends outside
    any transition. *)
Theorem reconcile_settles h w st :
  (∀ w' changed st', reconcile_workspace_runtime_state h w st = (Ok (w', changed), st') →
     if changed then
       settled h w' ∧ harmless w w' ∧
       workspace_json st'.2 !! (workspace_path w +:+ "/workspace.json") = Some w' ∧
       (is_transitional (status w) = true → ∀ p, transitional_runtime h w = Some p →
          stop_confirmed (rc_stop h) p st') ∧
       (∀ h' st2, rc_process_matches h' = rc_process_matches h → rc_ref_files h' = false → rc_refs_match h' = true →
          reconcile_workspace_runtime_state h' w' st2 = (Ok (w', false), st2))
     else w' = w) ∧
  (answers h → ∃ w' changed st', reconcile_workspace_runtime_state h w st = (Ok (w', changed), st') ∧
     is_transitional (status w') = false ∧
     (status w' = Running → ∃ p t, runtime_pid w' = Some p ∧ runtime_starttime_ticks w' = Some t ∧
                                   rc_process_matches h p t = true)).
Proof.
  split; [|by apply reconcile_total]. intros w' [] st' H; apply reconcile_cases in H as (Hrec & _ & Hj & Hgone).
  - pose proof (reconciled_settled _ _ _ Hrec) as Hs. split_and!; auto.
    + clear -Hrec. inversion Hrec; subst; [done|]. unfold harmless, same_identity. cbn. auto.
    + intros h' st2 Hm. apply reconcile_settled. unfold settled in *. by rewrite Hm.
  - by inversion Hrec.
Qed.

(** An interrupted start whose runtime the record does not name yet. *)
Definition sample_recovery : reconcile_host :=
  mkReconcile (Some 77) ended true "2026-01-01T00:00:00Z" false (λ _ _, false) false true true true.

Lemma reconcile_settles_witness :
  ∃ w' st', reconcile_workspace_runtime_state sample_recovery
      (sample_workspace "a" "web" Starting None (Some "10.200.0.10"))
      (default_registry, mkHost ∅ ∅ {[77]}) = (Ok (w', true), st') ∧
    settled sample_recovery w' ∧ 77 ∉ sessions st'.2.
Proof.
  set (w := sample_workspace _ _ _ _ _). set (st := (default_registry, _)).
  destruct (reconcile_workspace_runtime_state sample_recovery w st) as [[[w' [|]]|e] st'] eqn:E;
    [|by vm_compute in E..].
  destruct (reconcile_settles sample_recovery w st) as [H _]. destruct (H _ _ _ E) as (Hs & _ & _ & Hg & _).
  exists w', st'. split_and!; [done|done|]. by apply (Hg eq_refl 77 eq_refl).
Defined.

(** ** The remaining closures *)

Lemma put_workspace_step {M : Mode} sid wid w w' st :
  find_workspace st.1 sid wid = Some w → harmless w w' →
  rtc fleet_step st.1 (put_workspace sid wid w' st).2.1.
Proof. intros Hf Hh. apply rtc_once. by eapply harmless_step. Qed.

Lemma reconciled_harmless h w w' changed : reconciled h w w' changed → harmless w w'.
Proof. intros [|??? Hh _|????]; [|done|]; unfold harmless, same_identity; cbn; auto. Qed.

Lemma reconcile_records_refines {M : Mode} host records : refines (reconcile_records host records).
Proof.
  induction records as [|[sid wid] records IH]; cbn [reconcile_records].
  { apply refines_frame. intros st a st' H. by stm_inv H. }
  intros st n st' H Hok. apply stm_bind_Ok in H as (w & st1 & H1 & H). world_inv H1.
  apply stm_bind_Ok in H as ([w' changed] & st1 & H2 & H).
  apply reconcile_cases in H2 as (Hrec & Hst & _). apply reconciled_harmless in Hrec.
  apply stm_bind_Ok in H as (u & st2 & H3 & H). unfold put_workspace, on_registry in H3. stm_inv H3. cbn in H.
  apply stm_bind_Ok in H as (k & st3 & H4 & H). stm_inv H.
  assert (rtc fleet_step st.1 (set_workspace sid wid w' st.1)) as Hs by by eapply rtc_once, harmless_step.
  etrans; [done|]. rewrite Hst in H4. apply (IH _ _ _ H4). by eapply fleet_steps_ok.
Qed.
Lemma reconcile_workspace_states_refines {M : Mode} host : refines (reconcile_workspace_states host).
Proof.
  intros st n st' H. unfold reconcile_workspace_states in H. apply stm_bind_Ok in H as (st1 & st2 & H1 & H).
  stm_inv H1. by eapply reconcile_records_refines.
Qed.

Lemma settle_sandbox_refines {M : Mode} persist sid : refines (settle_sandbox persist sid).
Proof.
  intros st u st' H _. unfold settle_sandbox in H. apply stm_bind_Ok in H as (st1 & st2 & H1 & H). stm_inv H1.
  destruct (sandboxes st.1 !! sid) as [e|] eqn:He; [|by stm_inv H].
  apply stm_bind_Ok in H as (u1 & st1 & H1 & H). unfold put_metadata in H1. world_inv H1.
  apply persist_sandbox_Ok in H as [_ ->]. apply rtc_once. by eapply put_metadata_step.
Qed.
#[export] Hint Resolve reconcile_workspace_states_refines settle_sandbox_refines : enclave.

Lemma settle_sandboxes_safe {M : Mode} h l :
  (∀ sid, env_safe (sh_write h sid)) → fleet_safe (settle_sandboxes h l).
Proof.
  intros Hw. induction l as [|m l IH]; cbn; [auto with enclave|].
  destruct (sh_unmounted h (sb_id m)); [|done]. auto using fleet_safe_bind with enclave.
Qed.

Lemma reconcile_runtime_state_safe {M : Mode} h t host :
  env_safe (sh_read h) → (∀ sid, env_safe (sh_write h sid)) → env_safe t →
  fleet_safe (reconcile_runtime_state h t host).
Proof.
  intros Hr Hw Ht. unfold reconcile_runtime_state, reconcile_sandbox_states.
  auto using fleet_safe_bind, settle_sandboxes_safe with enclave.
Qed.

Lemma harmless_touched kind stamp w : harmless w (touched kind stamp w).
Proof. destruct kind; unfold harmless, same_identity; cbn; auto. Qed.

Lemma touch_refines {M : Mode} persist stamp kind sid wid : refines (touch persist stamp kind sid wid).
Proof.
  intros st b st' H _. unfold touch in H. apply stm_bind_Ok in H as (st1 & st2 & H1 & H). stm_inv H1.
  destruct (find_workspace st.1 sid wid) as [w|] eqn:Hw; [|by stm_inv H].
  apply stm_bind_Ok in H as (u1 & st1 & H1 & H). world_inv H1.
  apply stm_bind_Ok in H as (u2 & st2 & H2 & H). apply persist_workspace_Ok in H2 as [_ H2]. stm_inv H.
  rewrite H2. eapply rtc_once, harmless_step; [done|apply harmless_touched].
Qed.
Lemma touch_registry_only_refines {M : Mode} stamp kind sid wid : refines (touch_registry_only stamp kind sid wid).
Proof.
  intros st b st' H _. unfold touch_registry_only in H. apply stm_bind_Ok in H as (st1 & st2 & H1 & H). stm_inv H1.
  destruct (find_workspace st.1 sid wid) as [w|] eqn:Hw; [|by stm_inv H]. world_inv H.
  eapply rtc_once, harmless_step; [done|apply harmless_touched].
Qed.
#[export] Hint Resolve touch_refines touch_registry_only_refines : enclave.
