(* ===== verification/Teardown.v ===== *)
(** * Many workspaces at once

    Stopping every workspace of a sandbox (src/src/workspace/control/stop/batch.rs)
    with the cleanup they share (src/src/workspace/cleanup/batch.rs), destroying a
    sandbox (src/src/sandbox/lifecycle/destroy.rs), and wiping the fleet
    (src/src/workspace/control/destroy/batch.rs). *)
From S2P Require Import Prelude RustStr Ipam Types Registry Records Fleet Start Stop Cleanup Update Sandbox.
Open Scope Z_scope.

(** ** The shared cleanup (cleanup/batch.rs) *)

(** What the host holds, by workspace. *)
Abbreviation held_by := (gmap string held).
Definition nothing_held : held := mkHeld None false false false false false false false false [] false.

(** A call about one workspace. *)
Definition on_workspace {A} (wid : string) (m : stm held A) : stm held_by A := λ st,
  let '(r, s) := m (default nothing_held (st !! wid)) in (r, <[wid := s]> st).

(** The network teardown of the batch, and who it failed for. *)
Fixpoint batch_networks (host : string → release_host) (l : list WorkspaceMetadata) : stm held_by (list string) :=
  match l with
  | [] => mret []
  | w :: l' =>
      failed ← match assigned_ip w with
               | Some ip =>
                   r ← on_workspace (id w) (teardown_workspace_network (host (id w)) ip (id w));
                   mret (if report_is_complete r then [] else [id w])
               | None => mret []
               end;
      rest ← batch_networks host l';
      mret (failed ++ rest)
  end.

(** [ensure_workspace_storage_unmounted_many] *)
Fixpoint batch_unmount (l : list WorkspaceMetadata) : stm held_by unit :=
  match l with
  | [] => mret tt
  | w :: l' => on_workspace (id w) (modify (set_mounts false false));; batch_unmount l'
  end.

(** One job: the pre-failures keep it from running. *)
Definition batch_job (host : string → release_host) (failed : list string) (network storage : bool)
    (w : WorkspaceMetadata) : stm held_by (list string) := λ st,
  if bool_decide (id w ∈ failed) then (Ok [id w], st)
  else
    let '(r, st') := on_workspace (id w) (run_workspace_stop_cleanup (host (id w)) w network storage) st in
    (Ok (if is_ok r then [] else [id w]), st').

(** The jobs; each touches its own workspace, so the order they run in does not
    matter.  The answer is the workspaces whose cleanup failed. *)
Fixpoint batch_jobs (host : string → release_host) (failed : list string) (network storage : bool)
    (l : list WorkspaceMetadata) : stm held_by (list string) :=
  match l with
  | [] => mret []
  | w :: l' =>
      bad ← batch_job host failed network storage w;
      rest ← batch_jobs host failed network storage l';
      mret (bad ++ rest)
  end.

Definition run_workspace_stop_cleanups (host : string → release_host) (batch_unmounts : bool)
    (network_already_cleaned : bool) (l : list WorkspaceMetadata) : stm held_by (list string) :=
  if bool_decide (l = []) then mret []
  else
    network ← (if network_already_cleaned then mret [] else batch_networks host l);
    let tmp := id <$> filter (λ w, clear_tmp_on_restart w && negb (rl_tmp (host (id w))) = true) l in
    (if batch_unmounts then batch_unmount l else mret tt);;
    batch_jobs host (network ++ tmp) network_already_cleaned batch_unmounts l.

(** ** Stopping a sandbox's workspaces (stop/batch.rs) *)

Record batch_host := mkBatch {
  bh_targets : txn_host;
  bh_sessions : option (list Z);           (** the pids reported as failed; [None] when the call fails *)
  bh_ended : gset Z;                       (** the sessions that ended *)
  bh_network : string → bool;              (** whether a workspace's network report is complete *)
  bh_jobs : txn_host;
  bh_cleanup : string → bool;              (** whether a workspace's cleanup succeeds *)
  bh_commit : txn_host;
  bh_commit_host : stop_host;
  bh_idle : txn_host }.

(** [stop_sessions_batch_with_hook]: what it reports and which sessions ended are
    independent, as for [stop_session]; a pid whose record it takes for stale is
    reported stopped without being signalled. *)
Definition stop_sessions (failed : option (list Z)) (ended : gset Z) (pids : list Z) : stm world (list Z) :=
  modify (λ st, (st.1, mkHost (workspace_json st.2) (sandbox_json st.2)
                         (sessions st.2 ∖ (ended ∩ list_to_set pids))));;
  lift (ok_or failed (plain "failed to stop sessions")).

(** The workspaces whose network report is incomplete: the teardown, which starts
    once the sessions are signalled, covers the ones that hold an address. *)
Definition network_incomplete (h : batch_host) (targets : list WorkspaceMetadata) : list string :=
  id <$> filter (λ w, is_Some (assigned_ip w) ∧ bh_network h (id w) = false) targets.

(** The workspaces whose session is not reported as failed and whose network is not
    still held; one that records no pid is among them. *)
Definition stopped_ids (h : batch_host) (targets : list WorkspaceMetadata) (failed : list Z) : list string :=
  confirmed_stopped targets failed (network_incomplete h targets) [].

Definition session_failed (failed : list Z) (w : WorkspaceMetadata) : Prop :=
  ∃ p, runtime_pid w = Some p ∧ p ∈ failed.
#[export] Instance session_failed_dec failed w : Decision (session_failed failed w).
Proof.
  unfold session_failed. destruct (runtime_pid w) as [p|].
  - destruct (decide (p ∈ failed)); [left; eauto|right; naive_solver].
  - right. naive_solver.
Defined.

Definition cleanup_failed (h : batch_host) (jobs : list string) : list string :=
  filter (λ wid, bh_cleanup h wid = false) jobs.

(** The confirmed ones are recorded in one transaction. *)
Definition commit_confirmed (h : batch_host) (selector : string) (confirmed : list string) : stm world unit :=
  if bool_decide (confirmed = []) then mret tt
  else write_txn (bh_commit h) (p ← resolve_entry selector; mark_all_stopped (bh_commit_host h) p.1 confirmed).

Definition stop_running_workspaces_in_sandbox (h : batch_host) (selector : string) : stm world (list string) :=
  targets ← read_txn (bh_targets h) (λ r, p ← sandbox_of r selector; Ok (batch_targets p.2));
  failed ← stop_sessions (bh_sessions h) (bh_ended h) (omap runtime_pid targets);
  let stopped := stopped_ids h targets failed in
  jobs ← (if bool_decide (stopped = []) then mret []
          else read_txn (bh_jobs h) (λ r,
                 p ← sandbox_of r selector;
                 Ok (filter (λ wid, is_Some (workspaces p.2 !! wid)) stopped)));
  let bad := cleanup_failed h jobs in
  commit_confirmed h selector (filter (λ wid, wid ∉ bad) stopped);;
  read_txn (bh_idle h) (λ r, _ ← sandbox_of r selector; Ok tt);;
  mret ((id <$> filter (session_failed failed) targets) ++ network_incomplete h targets ++ bad).

(** ** Destroying a sandbox (sandbox/lifecycle/destroy.rs) *)

Record wipe_host := mkWipe {
  wh_read : txn_host;
  wh_journal : bool;
  wh_succeed : bool;
  wh_attempt : nat → attempt_host }.

Fixpoint destroy_each (host : string → wipe_host) (mode : CleanupMode) (sid : string) (wids : list string)
    : stm world (list RetainedResource * list string) :=
  match wids with
  | [] => mret ([], [])
  | wid :: wids' =>
      r ← (λ st,
             let '(r, st') := destroy_workspace_with_mode (wh_read (host wid)) (wh_journal (host wid))
                                (wh_succeed (host wid)) (wh_attempt (host wid)) mode sid wid st in
             (Ok (match r with
                  | Ok report => ((λ x, mkRetained ("workspace " +:+ wid +:+ " " +:+ resource x) (detail x))
                                    <$> report.2, [])
                  | Err _ => ([], [wid])
                  end), st'));
      rest ← destroy_each host mode sid wids';
      mret (r.1 ++ rest.1, r.2 ++ rest.2)
  end.

Record sandbox_destroy_host := mkSbDestroy {
  sd_resolve : txn_host;
  sd_journal : bool;
  sd_phase_workspaces : bool;
  sd_each : string → wipe_host;
  sd_exists : bool;
  sd_phase_release : bool;
  sd_kept : list RetainedResource;         (** rootfs, overlay, foreign mounts, cgroup *)
  sd_phase_directory : bool;
  sd_own_directory : bool;                 (** [ensure_path_within] *)
  sd_directory_removed : bool;
  sd_phase_retained : bool;
  sd_phase_record : bool;
  sd_remove_txn : txn_host;
  sd_succeed : bool }.

Definition destroy_sandbox_with_mode (h : sandbox_destroy_host) (selector : string) (mode : CleanupMode)
    : stm world (string * list RetainedResource) :=
  p ← read_txn (sd_resolve h) (λ r, sandbox_of r selector);
  let '(sid, e) := p in
  assert (sd_journal h) "failed to begin journal";;
  assert (sd_phase_workspaces h) "failed to write journal phase";;
  r ← destroy_each (sd_each h) mode sid (btree_keys (workspaces e));
  assert (bool_decide (r.2 = [])) "cannot destroy sandbox while workspace cleanup is incomplete";;
  let kept := if sd_exists h then r.1 ++ sd_kept h else r.1 in
  (if sd_exists h then
     assert (sd_phase_release h) "failed to write journal phase";;
     (if bool_decide (kept = []) then
        assert (sd_phase_directory h) "failed to write journal phase";;
        assert (sd_own_directory h) "sandbox directory escapes the sandboxes directory";;
        assert (sd_directory_removed h) "failed to fully destroy sandbox"
      else mret tt)
   else mret tt);;
  assert (bool_decide (kept = []) || is_force mode) "sandbox resources were retained";;
  (if bool_decide (kept = []) then mret tt else assert (sd_phase_retained h) "failed to write journal phase");;
  assert (sd_phase_record h) "failed to write journal phase";;
  write_txn (sd_remove_txn h) (remove_sandbox_record sid);;
  assert (sd_succeed h) "failed to close journal";;
  mret (sid, kept).

(** ** Wiping the fleet (destroy/batch.rs) *)

Record BatchDestroyReport := mkBatchReport {
  br_removed : list string;
  br_errors : list string;
  br_retained : gmap string (list RetainedResource) }.

(** The workers take the plan's entries from a queue; each destroy is its own
    sequence of transactions, so the plan is followed in its order here and other
    interleavings are what the transactions' [before] ranges over. *)
Fixpoint destroy_plan (host : string → string → nat → attempt_host) (mode : CleanupMode)
    (plan : list (string * string)) : stm world BatchDestroyReport :=
  match plan with
  | [] => mret (mkBatchReport [] [] ∅)
  | (sid, wid) :: plan' =>
      r ← (λ st, let '(r, st') := destroy_one (host sid wid) mode sid wid st in (Ok r, st'));
      rest ← destroy_plan host mode plan';
      mret match r with
           | Ok (Some (w, o)) =>
               mkBatchReport (id w :: br_removed rest) (br_errors rest)
                 (br_retained rest ∪ (if outcome_is_complete o then ∅ else {[id w := retained o]}))
           | Ok None => rest
           | Err _ => mkBatchReport (br_removed rest) (wid :: br_errors rest) (br_retained rest)
           end
  end.

Definition destroy_all_workspaces (read : txn_host) (host : string → string → nat → attempt_host)
    (mode : CleanupMode) : stm world BatchDestroyReport :=
  plan ← read_txn read (λ r, Ok (btree_values (sandboxes r) ≫= λ e,
            (λ w, (sb_id (metadata e), id w)) <$> btree_values (workspaces e)));
  destroy_plan host mode plan.

(** ** The shared cleanup is honest *)

(** The computation answers, and leaves every workspace outside [l] alone. *)
Definition confined {A} (l : list string) (m : stm held_by A) : Prop :=
  ∀ st, ∃ a st', m st = (Ok a, st') ∧ ∀ k, k ∉ l → st' !! k = st !! k.

Lemma confined_ret {A} l (a : A) : confined l (mret a).
Proof. intros st. eauto. Qed.
Lemma confined_bind {A B} l (m : stm held_by A) (f : A → stm held_by B) :
  confined l m → (∀ a, confined l (f a)) → confined l (m ≫= f).
Proof.
  intros Hm Hf st. destruct (Hm st) as (a & st1 & E1 & H1), (Hf a st1) as (b & st2 & E2 & H2).
  exists b, st2. unfold mbind, stm_bind. rewrite E1. split; [done|]. intros k Hk. by rewrite H2, H1.
Qed.
Lemma confined_weaken {A} l l' (m : stm held_by A) : confined l m → l ⊆ l' → confined l' m.
Proof. intros Hm Hl st. destruct (Hm st) as (a & st' & E & H). exists a, st'. split; [done|]. auto. Qed.
Lemma confined_on {A} wid (m : stm held A) :
  (∀ s, is_ok (m s).1 = true) → confined [wid] (on_workspace wid m).
Proof.
  intros Hm st. unfold on_workspace. specialize (Hm (default nothing_held (st !! wid))).
  destruct (m _) as [[a|] s]; [|done]. eexists _, _. split; [done|]. intros k Hk.
  apply lookup_insert_ne. set_solver.
Qed.

Lemma batch_networks_confined host l : confined (id <$> l) (batch_networks host l).
Proof.
  induction l as [|w l IH]; [apply confined_ret|]. cbn. apply confined_bind.
  - destruct (assigned_ip w) as [ip|]; [|apply confined_ret]. apply confined_bind; [|intros; apply confined_ret].
    apply (confined_weaken [id w]); [|set_solver]. apply confined_on. intros s.
    unfold teardown_workspace_network. by destruct (parse_host_octet ip).
  - intros. apply confined_bind; [|intros; apply confined_ret]. eapply confined_weaken; [done|set_solver].
Qed.

Lemma batch_unmount_effect l st :
  ∃ st', batch_unmount l st = (Ok tt, st') ∧ (∀ k, k ∉ id <$> l → st' !! k = st !! k) ∧
  ∀ w, w ∈ l → ∃ s, st' !! id w = Some s ∧ h_mounts s = false ∧ h_loop s = false.
Proof.
  revert st. induction l as [|w l IH]; intros st; cbn.
  { exists st. split_and!; [done..|]. by intros w []%not_elem_of_nil. }
  unfold mbind at 1, stm_bind at 1, on_workspace at 1, modify. cbn.
  destruct (IH (<[id w := set_mounts false false (default nothing_held (st !! id w))]> st)) as (st' & -> & H1 & H2).
  exists st'. split_and!; [done| |].
  - intros k Hk. rewrite H1 by set_solver. apply lookup_insert_ne. set_solver.
  - intros w' [->|Hin]%elem_of_cons; [|auto]. destruct (decide (id w ∈ id <$> l)) as [(w2 & Heq & Hin)%list_elem_of_fmap|Hn].
    + rewrite Heq. auto.
    + rewrite H1 by done. rewrite lookup_insert_eq. eauto.
Qed.

(** What a workspace still holds after a cleanup that did not fail for it. *)
Definition released_stop (w : WorkspaceMetadata) (network_already_cleaned : bool) (s : held) : Prop :=
  h_cgroup s = false ∧ h_mounts s = false ∧ h_loop s = false ∧
  (network_already_cleaned = false → ∀ ip, assigned_ip w = Some ip → h_rules s = false ∧ h_veth s = false).

Lemma batch_jobs_effect host failed nclean storage l st :
  NoDup (id <$> l) →
  (storage = true → ∀ w, w ∈ l → ∃ s, st !! id w = Some s ∧ h_mounts s = false ∧ h_loop s = false) →
  ∃ bad st', batch_jobs host failed nclean storage l st = (Ok bad, st') ∧
    (∀ k, k ∉ id <$> l → st' !! k = st !! k) ∧
    (∀ w, w ∈ l → id w ∉ bad → id w ∉ failed ∧ ∃ s, st' !! id w = Some s ∧ released_stop w nclean s).
Proof.
  revert st. induction l as [|w l IH]; intros st Hnd Hst.
  { exists [], st. split_and!; [done..|]. by intros w []%not_elem_of_nil. }
  cbn [fmap list_fmap] in Hnd. apply list.NoDup_cons in Hnd as [Hw Hnd].
  assert (∃ b st1, batch_job host failed nclean storage w st = (Ok b, st1) ∧
     (∀ k, k ≠ id w → st1 !! k = st !! k) ∧
     (id w ∉ b → id w ∉ failed ∧ ∃ s, st1 !! id w = Some s ∧ released_stop w nclean s))
    as (b & st1 & E1 & Hout & Hin).
  { unfold batch_job. case_bool_decide as Hf; [by eexists _, st; split_and!; [done..|set_solver]|].
    unfold on_workspace. destruct (run_workspace_stop_cleanup _ _ _ _ _) as [r s] eqn:E.
    eexists _, _. split_and!; [done|intros; by apply lookup_insert_ne|]. destruct r as [rep|]; [|set_solver].
    intros _. split; [done|]. exists s. split; [apply lookup_insert_eq|].
    apply stop_cleanup_releases in E as (H1 & _ & H2 & [H3 H4] & _). unfold released_stop.
    destruct storage; [|by split_and!].
    destruct (Hst eq_refl w) as (s0 & Hs0 & H5 & H6); [by left|]. rewrite Hs0 in H3, H4. cbn in H3, H4.
    rewrite H3, H4. by split_and!. }
  destruct (IH st1 Hnd) as (bad & st' & E2 & Hout2 & Hin2).
  { intros Hs w' Hw'. rewrite Hout; [by apply Hst; [|right]|]. intros Heq. apply Hw. rewrite <-Heq. by apply list_elem_of_fmap_2. }
  exists (b ++ bad), st'. cbn [batch_jobs].
  unfold mbind, stm_bind. rewrite E1, E2. split_and!; [done| |].
  - intros k Hk. rewrite Hout2 by set_solver. apply Hout. set_solver.
  - intros w' [->|Hw']%elem_of_cons Hb.
    + destruct (Hin ltac:(set_solver)) as (? & s & Hs & ?). split; [done|]. exists s. by rewrite Hout2 by done.
    + apply Hin2; [done|]. set_solver.
Qed.

(** The batch cleanup is honest: it always answers, and a workspace its answer
    does not name holds no cgroup, no mount and no loop device any more, and no
    network unless the caller had already taken that down; its [/tmp] was reset
    where it asks for that; and nothing of a workspace outside the batch was
    touched. *)
Theorem batch_cleanup_honest host batch_unmounts nclean l st :
  NoDup (id <$> l) →
  ∃ failed st', run_workspace_stop_cleanups host batch_unmounts nclean l st = (Ok failed, st') ∧
    (∀ w, w ∈ l → id w ∉ failed →
       (∃ s, st' !! id w = Some s ∧ released_stop w nclean s) ∧
       (clear_tmp_on_restart w = true → rl_tmp (host (id w)) = true)) ∧
    (∀ k, k ∉ id <$> l → st' !! k = st !! k).
Proof.
  intros Hnd. unfold run_workspace_stop_cleanups. case_bool_decide as Hl.
  { subst. exists [], st. split_and!; [done| |done]. by intros w []%not_elem_of_nil. }
  assert (confined (id <$> l) (if nclean then mret [] else batch_networks host l)) as Hn
    by (destruct nclean; [apply confined_ret|apply batch_networks_confined]).
  destruct (Hn st) as (network & st1 & E1 & H1). unfold mbind at 1, stm_bind at 1. rewrite E1.
  assert (∃ st2, (if batch_unmounts then batch_unmount l else mret tt) st1 = (Ok tt, st2) ∧
    (∀ k, k ∉ id <$> l → st2 !! k = st1 !! k) ∧
    (batch_unmounts = true → ∀ w, w ∈ l → ∃ s, st2 !! id w = Some s ∧ h_mounts s = false ∧ h_loop s = false))
    as (st2 & E2 & H2 & H3).
  { destruct batch_unmounts; [|by exists st1]. destruct (batch_unmount_effect l st1) as (st2 & ? & ? & ?). by exists st2. }
  unfold mbind, stm_bind. rewrite E2.
  destruct (batch_jobs_effect host (network ++ (id <$> filter (λ w, clear_tmp_on_restart w && negb (rl_tmp (host (id w))) = true) l))
    nclean batch_unmounts l st2 Hnd H3) as (bad & st' & E3 & H4 & H5).
  exists bad, st'. split_and!; [done| |intros; by rewrite H4, H2, H1].
  intros w Hw Hb. destruct (H5 w Hw Hb) as [Hf Hs]. split; [done|]. intros Ht.
  destruct (rl_tmp (host (id w))) eqn:Htmp; [done|]. destruct Hf. apply elem_of_app. right.
  apply list_elem_of_fmap_2, list_elem_of_filter. by rewrite Ht, Htmp.
Qed.

(** ** A batch stop is honest *)

Lemma sandbox_of_id r sid e : sandboxes r !! sid = Some e → sandbox_of r sid = Ok (sid, e).
Proof.
  intros He. unfold sandbox_of, resolve_sandbox_id, resolve_in. rewrite bool_decide_eq_true_2 by by rewrite He.
  cbn. by rewrite He.
Qed.

Lemma stopped_record_twice now w : stopped_record now (stopped_record now w) = stopped_record now w.
Proof. done. Qed.

Lemma mark_all_stopped_effect hs sid ids e st u st' :
  sandboxes st.1 !! sid = Some e → mark_all_stopped hs sid ids st = (Ok u, st') →
  ∃ e', sandboxes st'.1 !! sid = Some e' ∧ metadata e' = metadata e ∧
    ∀ wid, workspaces e' !! wid =
      if decide (wid ∈ ids) then stopped_record (st_now hs) <$> workspaces e !! wid else workspaces e !! wid.
Proof.
  revert e st. induction ids as [|i ids IH]; intros e st He H; cbn in H.
  { stm_inv H. exists e. done. }
  apply stm_bind_Ok in H as (u1 & st1 & H1 & H). unfold mark_workspace_stopped in H1.
  apply stm_bind_Ok in H1 as (w & st2 & H2 & H1). world_inv H2.
  apply stm_bind_Ok in H1 as (u2 & st3 & H3 & H1). world_inv H3.
  unfold persist_workspace_metadata in H1. stm_inv H1.
  unfold find_workspace in H2. rewrite He in H2. cbn in H2.
  edestruct IH as (e' & He' & Hm & Hw); [|exact H|].
  { cbn. by rewrite lookup_alter_eq, He. }
  exists e'. split_and!; [done..|]. intros wid. rewrite Hw. cbn.
  destruct (decide (wid = i)) as [->|Hne].
  - rewrite lookup_insert_eq, H2. destruct (decide (i ∈ i :: ids)) as [_|[]]; [|by left].
    by destruct (decide (i ∈ ids)).
  - rewrite lookup_insert_ne by done. destruct (decide (wid ∈ ids)); [rewrite decide_True by by right|rewrite decide_False by set_solver]; done.
Qed.

Lemma mark_all_stopped_sessions hs sid ids (S : gset Z) : preserves (λ st, sessions st.2 = S) (mark_all_stopped hs sid ids).
Proof.
  induction ids; cbn; [solve_preserves|]. apply preserves_bind; [|done].
  unfold mark_workspace_stopped, get_workspace, put_workspace, on_registry, persist_workspace_metadata. solve_preserves.
Qed.

Section batch_stop.
Context (h : batch_host) (sid : string) (e : RegistrySandbox).
Hypothesis Hkeys : ∀ wid w, workspaces e !! wid = Some w → id w = wid.

Definition pids_of : list Z := omap runtime_pid (btree_values (workspaces e)).

(** The lease on the sandbox: other requests leave its entry alone and do not bring
    its sessions back. *)
Definition leased (t : txn_host) : Prop := ∀ st,
  sandboxes (before t st).1 !! sid = sandboxes st.1 !! sid ∧
  ∀ p, p ∈ pids_of → p ∉ sessions st.2 → p ∉ sessions (before t st).2.

Hypothesis Hl_targets : leased (bh_targets h).
Hypothesis Hl_jobs : leased (bh_jobs h).
Hypothesis Hl_commit : leased (bh_commit h).
Hypothesis Hl_idle : leased (bh_idle h).

(** What the stop of one workspace achieved. *)
Definition reported_stopped (w w' : WorkspaceMetadata) (st : world) : Prop :=
  w' = stopped_record (st_now (bh_commit_host h)) w ∧
  (∀ p, runtime_pid w = Some p →
     (∃ failed, bh_sessions h = Some failed ∧ p ∉ failed) ∧ (p ∈ bh_ended h → p ∉ sessions st.2)) ∧
  (is_Some (assigned_ip w) → bh_network h (id w) = true) ∧ bh_cleanup h (id w) = true.

Lemma elem_of_stopped_ids failed wid :
  wid ∈ stopped_ids h (batch_targets e) failed ↔
  ∃ w, workspaces e !! wid = Some w ∧ may_have_runtime (status w) = true ∧ ¬ session_failed failed w ∧
    wid ∉ network_incomplete h (batch_targets e).
Proof.
  unfold stopped_ids, confirmed_stopped, network_incomplete, batch_targets, session_failed.
  rewrite !list_elem_of_filter, !list_elem_of_fmap. split.
  - intros (_ & Hn & w & -> & (Hp & (Hr & [k Hw]%elem_of_btree_values)%list_elem_of_filter)%list_elem_of_filter).
    pose proof (Hkeys _ _ Hw) as Hid. rewrite Hid. exists w. split_and!; [done..| |].
    + intros (p & E & Hin). rewrite E in Hp. by apply bool_decide_eq_true in Hp.
    + intros (w' & Heq & (Hi & Ht)%list_elem_of_filter)%list_elem_of_fmap. destruct Hn as [Hn|Hn]; apply Hn; exists w';
        (split; [congruence|]); apply list_elem_of_filter; naive_solver.
  - intros (w & Hw & Hr & Hf & Hn). split; [apply not_elem_of_nil|]. split.
    + left. intros (w' & ? & Hin). apply Hn, list_elem_of_fmap. eauto.
    + exists w. split; [symmetry; eauto|]. apply list_elem_of_filter. split.
      * destruct (runtime_pid w) as [p|]; [|done]. apply bool_decide_eq_true. naive_solver.
      * apply list_elem_of_filter. split; [done|]. apply elem_of_btree_values. eauto.
Qed.

Lemma elem_of_targets wid w :
  workspaces e !! wid = Some w → may_have_runtime (status w) = true → w ∈ batch_targets e.
Proof. intros. apply list_elem_of_filter. split; [done|]. apply elem_of_btree_values. eauto. Qed.

Lemma read_leased {A} t (f : string * RegistrySandbox → result A) st :
  leased t → sandboxes st.1 !! sid = Some e →
  read_txn t (λ r, p ← sandbox_of r sid; f p) st =
    (if reachable t then f (sid, e) else bail "the registry cannot be read", before t st).
Proof.
  intros Ht He. unfold read_txn. destruct (reachable t); [|done].
  rewrite (sandbox_of_id _ _ e) by by rewrite (proj1 (Ht st)). done.
Qed.
(** The stop answered with [failed], and the sessions it ended are gone. *)
Definition sessions_gone (failed : list Z) (st : world) : Prop :=
  bh_sessions h = Some failed ∧
  ∀ wid w p, workspaces e !! wid = Some w → may_have_runtime (status w) = true →
    runtime_pid w = Some p → p ∈ bh_ended h → p ∉ sessions st.2.

Lemma sessions_gone_before failed t st : leased t → sessions_gone failed st → sessions_gone failed (before t st).
Proof.
  intros Ht [Hs Hg]. split; [done|]. intros wid w p Hw Hr Hp Hend. apply (proj2 (Ht st)); [|by eapply Hg].
  apply list_elem_of_omap. exists w. split; [|done]. apply elem_of_btree_values. eauto.
Qed.

(** The entry, with the sessions of the targets that stopped gone. *)
Definition holds_entry (failed : list Z) (st : world) : Prop :=
  sandboxes st.1 !! sid = Some e ∧ sessions_gone failed st.

Lemma holds_before failed t st : leased t → holds_entry failed st → holds_entry failed (before t st).
Proof. intros Ht [H1 H2]. split; [by rewrite (proj1 (Ht st))|by apply sessions_gone_before]. Qed.

Lemma stop_sessions_gone failed st st' :
  sandboxes st.1 !! sid = Some e →
  stop_sessions (bh_sessions h) (bh_ended h) (omap runtime_pid (batch_targets e)) st = (Ok failed, st') →
  holds_entry failed st'.
Proof.
  intros He H. unfold stop_sessions in H. apply stm_bind_Ok in H as (u & st1 & H1 & H).
  apply modify_Ok in H1 as [_ ->]. apply lift_Ok in H as [H%ok_or_Ok ->].
  split; [done|]. split; [done|]. intros wid w p Hw Hr Hp Hend. cbn.
  apply not_elem_of_difference. right. apply elem_of_intersection. split; [done|].
  apply elem_of_list_to_set, list_elem_of_omap. eauto using elem_of_targets.
Qed.

(** What the stop leaves behind, by workspace. *)
Definition batch_outcome (res : result (list string)) (st : world) : Prop :=
  ∃ e', sandboxes st.1 !! sid = Some e' ∧ metadata e' = metadata e ∧
    ∀ wid w, workspaces e !! wid = Some w →
      (workspaces e' !! wid = Some w ∧
        (may_have_runtime (status w) = true → ∀ failed, res = Ok failed → wid ∈ failed)) ∨
      (∃ w', workspaces e' !! wid = Some w' ∧ reported_stopped w w' st).

Lemma unchanged_outcome res st : sandboxes st.1 !! sid = Some e → is_ok res = false → batch_outcome res st.
Proof. intros He Hr. exists e. split_and!; [done..|]. intros wid w Hw. left. split; [done|]. intros _ ? ->. done. Qed.

Lemma target_cases failed jobs wid w :
  workspaces e !! wid = Some w →
  (∀ x, x ∈ jobs ↔ x ∈ stopped_ids h (batch_targets e) failed) →
  let bad := cleanup_failed h jobs in
  let confirmed := filter (λ x, x ∉ bad) (stopped_ids h (batch_targets e) failed) in
  (wid ∈ confirmed ∧ may_have_runtime (status w) = true ∧ ¬ session_failed failed w ∧
     (is_Some (assigned_ip w) → bh_network h (id w) = true) ∧ bh_cleanup h (id w) = true) ∨
  (wid ∉ confirmed ∧ (may_have_runtime (status w) = true →
     wid ∈ (id <$> filter (session_failed failed) (batch_targets e)) ++ network_incomplete h (batch_targets e) ++ bad)).
Proof.
  intros Hw Hjobs bad confirmed. pose proof (Hkeys _ _ Hw) as Hid.
  destruct (decide (wid ∈ confirmed)) as [Hc|Hc].
  - left. split; [done|]. apply list_elem_of_filter in Hc as [Hb Hs].
    pose proof Hs as (w' & Hw' & Hr & Hf & Hn)%elem_of_stopped_ids. assert (w' = w) as -> by congruence.
    split_and!; [done..| |].
    + intros Hip. destruct (bh_network h (id w)) eqn:Hnet; [done|]. destruct Hn.
      apply list_elem_of_fmap. exists w. split; [done|]. apply list_elem_of_filter. eauto using elem_of_targets.
    + destruct (bh_cleanup h (id w)) eqn:Hcl; [done|]. destruct Hb. apply list_elem_of_filter.
      rewrite <-Hid at 1. split; [done|]. by apply Hjobs.
  - right. split; [done|]. intros Hr. rewrite !elem_of_app.
    destruct (decide (session_failed failed w)).
    { left. apply list_elem_of_fmap. exists w. split; [done|]. apply list_elem_of_filter. eauto using elem_of_targets. }
    right. destruct (decide (wid ∈ network_incomplete h (batch_targets e))) as [|Hn]; [by left|right].
    destruct (decide (wid ∈ bad)); [done|]. destruct Hc. apply list_elem_of_filter. split; [done|].
    apply elem_of_stopped_ids. eauto.
Qed.

Lemma commit_confirmed_effect failed confirmed st r st' :
  holds_entry failed st → commit_confirmed h sid confirmed st = (r, st') →
  (∃ e', sandboxes st'.1 !! sid = Some e' ∧ metadata e' = metadata e ∧ sessions_gone failed st' ∧
     ∀ x, workspaces e' !! x = if decide (x ∈ confirmed) then stopped_record (st_now (bh_commit_host h)) <$> workspaces e !! x
                               else workspaces e !! x) ∨
  (is_ok r = false ∧ sandboxes st'.1 !! sid = Some e).
Proof.
  intros Hst H. pose proof Hst as [He Hg]. unfold commit_confirmed in H. case_bool_decide as Hc.
  - injection H as <- <-. left. exists e. split_and!; [done..|]. intros x. rewrite decide_False; [done|].
    rewrite Hc. apply not_elem_of_nil.
  - destruct (holds_before failed (bh_commit h) st Hl_commit Hst) as [He0 Hg0].
    assert (∀ u st2, (p ← resolve_entry sid; mark_all_stopped (bh_commit_host h) p.1 confirmed)
      (before (bh_commit h) st) = (Ok u, st2) → st' = (bump_generation st2.1, st2.2) →
      ∃ e', sandboxes st'.1 !! sid = Some e' ∧ metadata e' = metadata e ∧ sessions_gone failed st' ∧
       ∀ x, workspaces e' !! x = if decide (x ∈ confirmed) then stopped_record (st_now (bh_commit_host h)) <$> workspaces e !! x
                                 else workspaces e !! x) as Hdone.
    2:{ apply write_txn_cases in H as [(u & st2 & -> & Hrun & Hst2)|[(Hr & E1 & _)|(u & st2 & _ & _ & Hrun & Hst2)]];
          [left; by eapply Hdone| |left; by eapply Hdone].
        right. split; [done|]. by rewrite E1, (proj1 (Hl_commit st)). }
    clear H. intros u st2 Hrun ->. apply stm_bind_Ok in Hrun as (p & st3 & H3 & Hrun). unfold resolve_entry in H3.
    apply stm_bind_Ok in H3 as (s0 & st4 & H4 & H3). stm_inv H4. apply lift_Ok in H3 as [H3 ->].
    rewrite (sandbox_of_id _ _ e) in H3 by done. injection H3 as <-. cbn in Hrun.
    pose proof (mark_all_stopped_sessions (bh_commit_host h) sid confirmed _ (before (bh_commit h) st) eq_refl) as Hs.
    rewrite Hrun in Hs. cbn in Hs.
    destruct (mark_all_stopped_effect _ _ _ _ _ _ _ He0 Hrun) as (e' & He' & Hm & Hw).
    exists e'. split_and!; [done..| |done]. destruct Hg0 as [Hf0 Hg0]. split; [done|].
    intros wid w p ????. cbn. rewrite Hs. by eapply Hg0.
Qed.

Lemma idle_read_effect {A} (a : A) st r st' :
  (read_txn (bh_idle h) (λ r, _ ← sandbox_of r sid; Ok tt);; mret a) st = (r, st') →
  st' = before (bh_idle h) st ∧ ∀ l, r = Ok l → l = a.
Proof.
  unfold mbind, stm_bind, read_txn. destruct (if reachable _ then _ else _); intros [= <- <-]; naive_solver.
Qed.

Lemma commit_batch_outcome failed jobs st res st' :
  holds_entry failed st → (∀ x, x ∈ jobs ↔ x ∈ stopped_ids h (batch_targets e) failed) →
  let bad := cleanup_failed h jobs in
  let confirmed := filter (λ x, x ∉ bad) (stopped_ids h (batch_targets e) failed) in
  (commit_confirmed h sid confirmed;;
   read_txn (bh_idle h) (λ r, _ ← sandbox_of r sid; Ok tt);;
   mret ((id <$> filter (session_failed failed) (batch_targets e)) ++ network_incomplete h (batch_targets e) ++ bad))
    st = (res, st') → batch_outcome res st'.
Proof.
  intros Hst Hjobs bad confirmed H. unfold mbind at 1, stm_bind at 1 in H.
  destruct (commit_confirmed h sid confirmed st) as [r1 st1] eqn:E1.
  apply (commit_confirmed_effect failed) in E1 as [(e' & He' & Hm & Hg' & Hw')|[Hr1 He1]]; [| |done].
  2:{ destruct r1; [done|]. injection H as <- <-. by apply unchanged_outcome. }
  assert (∃ t, leased t ∧ st' = before t st1 ∧ ∀ l, res = Ok l →
    l = (id <$> filter (session_failed failed) (batch_targets e)) ++ network_incomplete h (batch_targets e) ++ bad)
    as (t & Ht & -> & Hres).
  { destruct r1 as [u|err]; [|injection H as <- <-; by exists (mkTxn (λ st, st) true Committed)].
    apply idle_read_effect in H as [-> Hres]. by exists (bh_idle h). }
  exists e'. rewrite (proj1 (Ht _)). split_and!; [done..|]. intros wid w Hw. rewrite Hw', Hw.
  destruct (target_cases failed jobs wid w Hw Hjobs) as [(Hc & Hr & Hf & Hn & Hcl)|[Hc Ha]].
  - right. rewrite decide_True by done. eexists. split; [done|]. split_and!; [done| |done..].
    intros p Hp. destruct (sessions_gone_before failed t st1 Ht Hg') as [Hb Hg]. split.
    + exists failed. split; [done|]. intros Hin. apply Hf. by exists p.
    + by eapply Hg.
  - left. rewrite decide_False by done. split; [done|]. intros Hr l Hl. rewrite (Hres l Hl). by apply Ha.
Qed.

(** C29: stopping the workspaces of a sandbox in one pass is honest, whatever fails,
    while the lease on the sandbox keeps other lifecycle operations away: each
    workspace's record is either untouched, and then a workspace that may own a
    runtime is named in the failures the stop returns, or it is recorded
    [Stopped], and then the session it recorded, if it recorded one, was not
    reported as failed (and is gone if it did end), its network was torn down if
    it had an address, and its cleanup succeeded. *)
Theorem batch_stop_honest st res st' :
  sandboxes st.1 !! sid = Some e → stop_running_workspaces_in_sandbox h sid st = (res, st') →
  batch_outcome res st'.
Proof.
  intros He H. unfold stop_running_workspaces_in_sandbox in H.
  unfold mbind at 1, stm_bind at 1 in H. rewrite read_leased in H by done.
  assert (sandboxes (before (bh_targets h) st).1 !! sid = Some e) as He1 by by rewrite (proj1 (Hl_targets _)).
  destruct (reachable (bh_targets h)); [|injection H as <- <-; by apply unchanged_outcome]. cbn [snd] in H.
  unfold mbind at 1, stm_bind at 1 in H. destruct (stop_sessions _ _ _) as [[failed|err] st2] eqn:E2.
  2:{ unfold stop_sessions, mbind, stm_bind in E2. destruct (bh_sessions h); [done|].
      injection E2 as <- <-. injection H as <- <-. by apply unchanged_outcome. }
  apply stop_sessions_gone in E2; [|done].
  assert (∀ x, x ∈ filter (λ wid, is_Some (workspaces e !! wid)) (stopped_ids h (batch_targets e) failed) ↔
    x ∈ stopped_ids h (batch_targets e) failed) as Hj.
  { intros x. rewrite list_elem_of_filter. split; [by intros []|]. intros Hx. split; [|done].
    apply elem_of_stopped_ids in Hx as (w & -> & _). eauto. }
  unfold mbind at 1, stm_bind at 1 in H. case_bool_decide as Hs.
  - cbn [mret stm_ret] in H. eapply commit_batch_outcome in H; [done..|]. by rewrite Hs.
  - destruct E2 as [He2 Hg2]. rewrite read_leased in H by done.
    destruct (reachable (bh_jobs h)).
    + eapply commit_batch_outcome in H; [done|by apply holds_before|]. exact Hj.
    + injection H as <- <-. apply unchanged_outcome; [|done]. by rewrite (proj1 (Hl_jobs _)).
Qed.
End batch_stop.

(** ** A sandbox is destroyed last *)

Definition present (sid : string) (st : world) : Prop := is_Some (sandboxes st.1 !! sid).
(** Other requests may do anything but remove the sandbox. *)
Definition keeps_sandbox (sid : string) (t : txn_host) : Prop :=
  ∀ st, present sid st → present sid (before t st).

Lemma present_write {A} sid t (c : stm world A) :
  keeps_sandbox sid t → preserves (present sid) c → preserves (present sid) (write_txn t c).
Proof.
  intros Ht Hc st Hst. apply Ht in Hst. apply Hc in Hst as Hst'.
  destruct (write_txn t c st) as [res st'] eqn:E. unfold present.
  apply write_txn_cases in E as [(a & st1 & _ & E & ->)|[(_ & E & _)|(a & st1 & _ & _ & E & ->)]]; cbn.
  - rewrite E in Hst'. exact Hst'.
  - rewrite E. exact Hst.
  - rewrite E in Hst'. exact Hst'.
Qed.
Lemma present_read {A} sid t (f : Registry → result A) :
  keeps_sandbox sid t → preserves (present sid) (read_txn t f).
Proof. intros Ht st Hst. by apply Ht. Qed.

Lemma present_remove_record sid snapshot sid' wid : preserves (present sid) (remove_record snapshot sid' wid).
Proof.
  intros st Hst. unfold remove_record, on_registry, mbind, stm_bind, get, modify. cbn.
  destruct (sandboxes st.1 !! sid'); [|done]. cbn. destruct (workspaces _ !! wid); [|done]. cbn.
  destruct (_ && _); [|done]. unfold present. cbn. by apply lookup_alter_is_Some.
Qed.
#[local] Hint Resolve present_write present_read present_remove_record : enclave.

Definition attempt_keeps (sid : string) (h : attempt_host) : Prop :=
  keeps_sandbox sid (da_read h) ∧ keeps_sandbox sid (da_remove h).

Lemma present_attempt sid h mode sid' wid :
  attempt_keeps sid h → preserves (present sid) (destroy_attempt h mode sid' wid).
Proof.
  intros [Hr Hw]. unfold destroy_attempt. apply preserves_bind; [auto with enclave|]. intros [[m w]|]; [|solve_preserves].
  apply preserves_bind; [solve_preserves|intros _]. destruct (da_cleanup h); [|solve_preserves].
  apply preserves_bind; [case_bool_decide; solve_preserves|intros _]. destruct (_ && _); [solve_preserves|].
  apply preserves_bind; [solve_preserves|intros _]. apply preserves_bind; [auto with enclave|].
  intros []; [|solve_preserves]. destruct (files_removed _); solve_preserves.
Qed.

Lemma present_destroy_one sid host mode sid' wid :
  (∀ n, attempt_keeps sid (host n)) → preserves (present sid) (destroy_one host mode sid' wid).
Proof.
  intros Hk. unfold destroy_one. induction (seq 0 DESTROY_ATTEMPTS) as [|n l IH]; cbn; [solve_preserves|]. apply preserves_bind; [by apply present_attempt|].
  intros []; solve_preserves.
Qed.

Definition wipe_keeps (sid : string) (h : wipe_host) : Prop :=
  keeps_sandbox sid (wh_read h) ∧ ∀ n, attempt_keeps sid (wh_attempt h n).

Lemma present_destroy_workspace sid h mode sb ws :
  wipe_keeps sid h →
  preserves (present sid) (destroy_workspace_with_mode (wh_read h) (wh_journal h) (wh_succeed h) (wh_attempt h) mode sb ws).
Proof.
  intros [Hr Ha]. unfold destroy_workspace_with_mode. apply preserves_bind; [auto with enclave|].
  intros [[[s w] e] m]. apply preserves_bind; [solve_preserves|intros _].
  apply preserves_bind; [by apply present_destroy_one|]. intros d. apply preserves_bind; [solve_preserves|].
  intros. solve_preserves.
Qed.

Lemma present_destroy_each sid host mode wids :
  (∀ wid, wipe_keeps sid (host wid)) → preserves (present sid) (destroy_each host mode sid wids).
Proof.
  intros Hk. induction wids as [|wid wids IH]; cbn; [solve_preserves|]. apply preserves_bind; [|solve_preserves].
  intros st Hst. pose proof (present_destroy_workspace sid (host wid) mode sid wid (Hk wid) st Hst) as H.
  by destruct (destroy_workspace_with_mode _ _ _ _ _ _ _ st).
Qed.

(** A failed run keeps [P]. *)
Definition err_keeps {A} (P : world → Prop) (m : stm world A) : Prop :=
  ∀ st e st', P st → m st = (Err e, st') → P st'.
Lemma err_keeps_bind {A B} P (m : stm world A) (f : A → stm world B) :
  preserves P m → (∀ a, err_keeps P (f a)) → err_keeps P (m ≫= f).
Proof.
  intros Hm Hf st e st' Hst H. apply Hm in Hst. unfold mbind, stm_bind in H.
  destruct (m st) as [[a|e'] st1]; cbn in Hst; [by eapply Hf|]. by injection H as _ <-.
Qed.

Definition sandbox_keeps (sid : string) (h : sandbox_destroy_host) : Prop :=
  (∀ wid, wipe_keeps sid (sd_each h wid)) ∧ keeps_sandbox sid (sd_remove_txn h) ∧ conclusive (sd_remove_txn h).

(** The end of the destroy: once the record is gone only the journal can fail. *)
Lemma removal_err_keeps {A} h sid (a : A) :
  keeps_sandbox sid (sd_remove_txn h) → conclusive (sd_remove_txn h) → sd_succeed h = true →
  err_keeps (present sid)
    (write_txn (sd_remove_txn h) (remove_sandbox_record sid);; assert (sd_succeed h) "failed to close journal";; mret a).
Proof.
  intros Hk Hcc Hs st e st' Hst H. unfold mbind at 1, stm_bind at 1 in H. rewrite Hs in H.
  destruct (write_txn _ _ st) as [[u|e'] st1] eqn:E; [done|]. injection H as _ <-.
  apply write_txn_conclusive in E as [(? & ? & ? & _)|(_ & E & _)]; [done| |done].
  unfold present. rewrite E. by apply Hk.
Qed.

Lemma removal_removes {A} h sid (a : A) st r st' :
  (write_txn (sd_remove_txn h) (remove_sandbox_record sid);; assert (sd_succeed h) "failed to close journal";; mret a)
    st = (Ok r, st') →
  r = a ∧ ∃ (st1 : world) e, sandboxes st1.1 !! sid = Some e ∧ workspaces e = ∅ ∧
    sandboxes st'.1 = delete sid (sandboxes st1.1).
Proof.
  intros H. apply stm_bind_Ok in H as (u & st1 & H1 & H). apply stm_bind_Ok in H as (u2 & st2 & H2 & H).
  apply assert_Ok in H2 as (_ & _ & ->). apply mret_Ok in H as [-> ->]. split; [done|].
  apply write_txn_cases in H1 as [(? & st3 & _ & H1 & ->)|[[? _]|(? & ? & ? & _)]]; [|done..].
  unfold remove_sandbox_record in H1. apply stm_bind_Ok in H1 as (e & st4 & H4 & H1). world_inv H4.
  case_bool_decide as He; [stm_inv H1|]. unfold on_registry in H1. apply modify_Ok in H1 as [_ ->].
  exists (before (sd_remove_txn h) st), e. split_and!; [done| |done].
  destruct (decide (workspaces e = ∅)); [done|]. by destruct He.
Qed.

(** A sandbox's record is the last thing a destroy removes.  A destroy that
    reports success removed the record at a moment when it held no workspace, in
    normal mode it retained nothing, and unless something was retained the
    sandbox's own directory was removed first.  A destroy that fails leaves the
    record for the next attempt, as long as nobody else removes it, the removal is
    saved or lost for certain and the journal can be closed. *)
Theorem sandbox_record_removed_last h selector mode st res st' :
  destroy_sandbox_with_mode h selector mode st = (res, st') →
  match res with
  | Ok (sid, kept) =>
      (∃ (st1 : world) e, sandboxes st1.1 !! sid = Some e ∧ workspaces e = ∅ ∧
         sandboxes st'.1 = delete sid (sandboxes st1.1)) ∧
      (mode = Normal → kept = []) ∧
      (kept = [] → sd_exists h = true → sd_own_directory h = true ∧ sd_directory_removed h = true)
  | Err _ =>
      ∀ sid e, sandbox_of (before (sd_resolve h) st).1 selector = Ok (sid, e) → sandbox_keeps sid h →
        sd_succeed h = true → present sid st'
  end.
Proof.
  intros H. unfold destroy_sandbox_with_mode in H. destruct res as [[sid kept]|err].
  - apply stm_bind_Ok in H as ([sid' e] & st1 & H1 & H). apply stm_bind_Ok in H as (u1 & st2 & _ & H).
    apply stm_bind_Ok in H as (u2 & st3 & _ & H). apply stm_bind_Ok in H as (r & st4 & _ & H).
    apply stm_bind_Ok in H as (u3 & st5 & _ & H). apply stm_bind_Ok in H as (u4 & st6 & Hdir & H).
    apply stm_bind_Ok in H as (u5 & st7 & Hforce & H). apply stm_bind_Ok in H as (u6 & st8 & _ & H).
    apply stm_bind_Ok in H as (u7 & st9 & _ & H). apply removal_removes in H as [[= -> ->] Hrem].
    apply assert_Ok in Hforce as (_ & Hf & _).
    split_and!; [done|intros ->; by rewrite orb_false_r, bool_decide_eq_true in Hf|].
    intros Hk Hex. rewrite Hex in Hdir, Hk. rewrite Hk in Hdir. rewrite bool_decide_eq_true_2 in Hdir by done.
    apply stm_bind_Ok in Hdir as (v1 & s1 & _ & Hdir). apply stm_bind_Ok in Hdir as (v2 & s2 & _ & Hdir).
    apply stm_bind_Ok in Hdir as (v3 & s3 & Ho & Hdir). apply assert_Ok in Ho as (_ & Ho & _).
    by apply assert_Ok in Hdir as (_ & Hd & _).
  - intros sid e Hr (Hk1 & Hk2 & Hk3) Hs. unfold mbind at 1, stm_bind at 1, read_txn in H. cbn in H. rewrite Hr in H.
    assert (present sid (before (sd_resolve h) st)) as Hp.
    { unfold sandbox_of in Hr. case_result. by exists e. }
    destruct (reachable (sd_resolve h)); [|by injection H as _ <-].
    revert H. revert Hp. generalize (before (sd_resolve h) st). intros st0 Hp H.
    match type of H with ?m st0 = _ => enough (err_keeps (present sid) m) as Hm by (eapply Hm; eassumption) end. clear H.
    do 2 (apply err_keeps_bind; [solve_preserves|intros ?]).
    apply err_keeps_bind; [by apply present_destroy_each|intros r]. apply err_keeps_bind; [solve_preserves|intros ?].
    apply err_keeps_bind; [destruct (sd_exists h); [|solve_preserves]; case_bool_decide; solve_preserves|intros ?].
    apply err_keeps_bind; [solve_preserves|intros ?].
    apply err_keeps_bind; [case_bool_decide; solve_preserves|intros ?].
    apply err_keeps_bind; [solve_preserves|intros ?]. by apply removal_err_keeps.
Qed.

(** ** The fleet stays within its steps *)

Lemma fleet_safe_outcome {M : Mode} {A B} (m : stm world A) (f : result A → B) :
  fleet_safe m → fleet_safe (λ st, let '(r, st') := m st in (Ok (f r), st')).
Proof. intros Hm st Hst. specialize (Hm st Hst). by destruct (m st). Qed.

Lemma destroy_workspace_safe {M : Mode} read journal succeed host mode sb ws :
  env_safe read → (∀ n, attempt_env (host n)) →
  fleet_safe (destroy_workspace_with_mode read journal succeed host mode sb ws).
Proof.
  intros Hr Ha. unfold destroy_workspace_with_mode. apply fleet_safe_bind; [auto with enclave|].
  intros [[[sid wid] e] w]. apply fleet_safe_bind; [auto with enclave|intros _].
  apply fleet_safe_bind; [|intros d; apply fleet_safe_bind; auto with enclave].
  apply destroy_loop_safe, list.Forall_forall. intros h (n & -> & _)%list_elem_of_fmap. apply Ha.
Qed.

Definition batch_env {M : Mode} (h : batch_host) : Prop :=
  Forall env_safe [bh_targets h; bh_jobs h; bh_commit h; bh_idle h].

Lemma stop_batch_safe {M : Mode} h selector : batch_env h → fleet_safe (stop_running_workspaces_in_sandbox h selector).
Proof.
  intros (H1 & (H2 & (H3 & (H4 & _)%list.Forall_cons)%list.Forall_cons)%list.Forall_cons)%list.Forall_cons.
  unfold stop_running_workspaces_in_sandbox, commit_confirmed. apply fleet_safe_bind; [auto with enclave|intros targets].
  apply fleet_safe_bind; [apply fleet_safe_frame; intros st; unfold stop_sessions; by destruct (bh_sessions h)|intros f].
  apply fleet_safe_bind; [case_bool_decide; auto with enclave|intros jobs].
  apply fleet_safe_bind; [case_bool_decide; [auto with enclave|]|auto using fleet_safe_bind with enclave].
  apply fleet_safe_write; [done|]. apply refines_bind; [auto with enclave|]. intros. apply mark_all_stopped_refines.
Qed.

Definition wipe_env {M : Mode} (h : wipe_host) : Prop := env_safe (wh_read h) ∧ ∀ n, attempt_env (wh_attempt h n).

Lemma destroy_each_safe {M : Mode} host mode sid wids :
  (∀ wid, wipe_env (host wid)) → fleet_safe (destroy_each host mode sid wids).
Proof.
  intros Hh. induction wids as [|wid wids IH]; cbn; [auto with enclave|].
  apply fleet_safe_bind; [|auto using fleet_safe_bind with enclave].
  destruct (Hh wid). by apply fleet_safe_outcome, destroy_workspace_safe.
Qed.

Definition sandbox_destroy_env {M : Mode} (h : sandbox_destroy_host) : Prop :=
  env_safe (sd_resolve h) ∧ (∀ wid, wipe_env (sd_each h wid)) ∧ env_safe (sd_remove_txn h).

Lemma destroy_sandbox_safe {M : Mode} h selector mode :
  sandbox_destroy_env h → fleet_safe (destroy_sandbox_with_mode h selector mode).
Proof.
  intros (H1 & H2 & H3). unfold destroy_sandbox_with_mode. apply fleet_safe_bind; [auto with enclave|intros [sid e]].
  do 2 (apply fleet_safe_bind; [auto with enclave|intros _]).
  apply fleet_safe_bind; [by apply destroy_each_safe|intros r]. apply fleet_safe_bind; [auto with enclave|intros _].
  apply fleet_safe_bind; [destruct (sd_exists h); [case_bool_decide|]; auto using fleet_safe_bind with enclave|intros _].
  apply fleet_safe_bind; [auto with enclave|intros _].
  apply fleet_safe_bind; [case_bool_decide; auto with enclave|intros _].
  auto using fleet_safe_bind with enclave.
Qed.

Lemma destroy_all_safe {M : Mode} read host mode :
  env_safe read → (∀ sid wid n, attempt_env (host sid wid n)) → fleet_safe (destroy_all_workspaces read host mode).
Proof.
  intros Hr Hh. unfold destroy_all_workspaces. apply fleet_safe_bind; [auto with enclave|intros plan].
  induction plan as [|[sid wid] plan IH]; cbn [destroy_plan]; [auto with enclave|].
  apply fleet_safe_bind; [|auto using fleet_safe_bind with enclave].
  apply (fleet_safe_outcome (destroy_one (host sid wid) mode sid wid) (λ r, r)).
  apply destroy_loop_safe, list.Forall_forall. intros h (n & -> & _)%list_elem_of_fmap. apply Hh.
Qed.

(** ** Concrete runs *)

Lemma batch_cleanup_honest_witness :
  let a := example_workspace (Some 42) (Some "10.200.0.10") in
  let b := with_status Running (sample_workspace "b" "db" Running None None) in
  let host wid := if bool_decide (wid = "b") then mkRelease true false true true true true true true (λ _, true) true
                  else example_host in
  NoDup (id <$> [a; b]) ∧
  ∃ st', run_workspace_stop_cleanups host true false [a; b] {[id a := example_held; "b" := example_held]}
           = (Ok ["b"], st') ∧
    ∃ s, st' !! id a = Some s ∧ released_stop a false s.
Proof.
  intros a b host. assert (NoDup (id <$> [a; b])) as Hnd by (apply (bool_decide_unpack _); by vm_compute).
  split; [done|].
  destruct (batch_cleanup_honest host true false [a; b] {[id a := example_held; "b" := example_held]} Hnd)
    as (failed & st' & E & Hrel & _). exists st'.
  assert (failed = ["b"]) as -> by (vm_compute in E; by injection E as <- _). split; [exact E|].
  destruct (Hrel a) as [Hs _]; [by left|apply (bool_decide_unpack _); by vm_compute|done].
Defined.

Definition sample_batch (failed : list Z) : batch_host :=
  mkBatch sample_txn (Some failed) {[42]} (λ _, true) sample_txn (λ _, true) sample_txn
    (mkStop true true true "2024-01-02T00:00:00Z") sample_txn.

Lemma batch_stop_honest_witness :
  let a := sample_workspace "a" "web" Running (Some 42) None in
  let b := sample_workspace "b" "db" Running (Some 43) None in
  let st := ((sample_world None [a; b]).1, mkHost ∅ ∅ {[42; 43]}) in
  ∃ st' e', stop_running_workspaces_in_sandbox (sample_batch [43]) "s" st = (Ok ["b"], st') ∧
    sandboxes st'.1 !! "s" = Some e' ∧ (∃ w, workspaces e' !! "a" = Some w ∧ status w = Stopped) ∧
    workspaces e' !! "b" = Some b.
Proof.
  intros a b st. destruct (sandboxes st.1 !! "s") as [e|] eqn:He; [|by vm_compute in He].
  destruct (stop_running_workspaces_in_sandbox (sample_batch [43]) "s" st) as [res st'] eqn:E.
  assert (res = Ok ["b"]) as -> by (vm_compute in E; by injection E as <- _).
  assert (e = mkEntry (metadata e) (list_to_map [("a", a); ("b", b)])) as Hent
    by (vm_compute in He; injection He as <-; by vm_compute).
  assert (∀ t, before t = (λ st, st) → leased "s" e t) as Hl by (intros [bf r s] Hbf; cbn in Hbf; subst bf; by split).
  destruct (batch_stop_honest (sample_batch [43]) "s" e) with (st := st) (res := Ok ["b"] : result (list string)) (st' := st')
    as (e' & He' & Hm & Hw); [|by apply Hl..|done|done|].
  { rewrite Hent. intros wid w. cbn. rewrite !lookup_insert_Some, lookup_empty. by intros [[<- <-]|[_ [[<- <-]|[_ [=]]]]]. }
  exists st', e'. split_and!; [done..| |].
  - destruct (Hw "a" a) as [[_ Hin]|(w' & Hw' & -> & _)]; [by rewrite Hent| |by eexists].
    specialize (Hin eq_refl ["b"] eq_refl). by apply list_elem_of_singleton in Hin.
  - destruct (Hw "b" b) as [[Hb _]|(w' & Hw' & -> & Hp & _)]; [by rewrite Hent|done|].
    destruct (Hp 43 eq_refl) as [(failed & [= <-] & Hf) _]. destruct Hf. by left.
Defined.

Definition sample_wipe : wipe_host := mkWipe sample_txn true true (λ _, sample_attempt).
Definition sample_destroy (directory_removed : bool) : sandbox_destroy_host :=
  mkSbDestroy sample_txn true true (λ _, sample_wipe) true true [] true true directory_removed true true sample_txn true.

Lemma sandbox_record_removed_last_witness :
  let w := sample_workspace "a" "web" Stopped None None in
  let st := sample_world None [w] in
  (∃ st', destroy_sandbox_with_mode (sample_destroy true) "s" Normal st = (Ok ("s", []), st') ∧
     sandboxes st'.1 !! "s" = None) ∧
  (∃ err st', destroy_sandbox_with_mode (sample_destroy false) "s" Normal st = (Err err, st') ∧ present "s" st').
Proof.
  intros w st. split.
  - destruct (destroy_sandbox_with_mode (sample_destroy true) "s" Normal st) as [res st'] eqn:E.
    assert (res = Ok ("s", [])) as -> by (vm_compute in E; by injection E as <- _).
    destruct (sandbox_record_removed_last _ _ _ _ _ _ E) as [(st1 & e & _ & _ & Hst') _].
    exists st'. split; [done|]. rewrite Hst'. apply lookup_delete_eq.
  - destruct (destroy_sandbox_with_mode (sample_destroy false) "s" Normal st) as [res st'] eqn:E.
    destruct res as [o|err]; [by vm_compute in E|].
    pose proof (sandbox_record_removed_last _ _ _ _ _ _ E) as Hp.
    exists err, st'. split; [done|].
    destruct (sandboxes st.1 !! "s") as [e|] eqn:He; [|by vm_compute in He].
    apply (Hp "s" e); [exact (sandbox_of_id _ _ _ He)| |exact eq_refl].
    assert (keeps_sandbox "s" sample_txn) as Hk by (intros st1 H1; exact H1). by split_and!.
Defined.
