(* ===== verification/Activity.v ===== *)
(** * What keeps a workspace awake

    The idle rules (src/src/workspace/activity.rs), the durable job records
    (src/src/workspace/jobs.rs) and the live half of activity
    (src/src/workspace/activity_service.rs): command leases, leases of CLI
    processes, and the daemon's copy of the running jobs.

    A timestamp is parsed by [chrono], so its reader is an argument: it answers
    nanoseconds since the epoch.  The process table is an argument as well. *)
From S2P Require Import Prelude RustStr Types Registry Records Fleet.
Open Scope Z_scope.

(** ** Idle rules (workspace/activity.rs) *)

(** [TimeDelta::num_seconds] of a difference in nanoseconds. *)
Definition num_seconds (d : Z) : Z := Z.quot d 1000000000.

Section clock.
Context (parse_timestamp : string → option Z).

(** [Option::max] over the timestamps that parse. *)
Definition opt_max (a b : option Z) : option Z :=
  match a, b with
  | Some x, Some y => Some (Z.max x y)
  | Some x, None => Some x
  | None, b => b
  end.

Definition last_activity (w : WorkspaceMetadata) : option Z :=
  opt_max (last_request_at w ≫= parse_timestamp) (last_process_activity_at w ≫= parse_timestamp).

Definition idle_for_secs (w : WorkspaceMetadata) (now : Z) : option Z :=
  (λ last, Z.max (num_seconds (now - last)) 0) <$> last_activity w.

Definition is_idle (w : WorkspaceMetadata) (idle_after_secs now active_commands : Z) : bool :=
  if negb (bool_decide (status w = Running)) || keep_running w || (idle_after_secs =? 0) || (0 <? active_commands)
  then false
  else match idle_for_secs w now with Some idle => as_i64 idle_after_secs <=? idle | None => false end.

Definition idle_threshold (w : WorkspaceMetadata) (daemon_default : option Z) : option Z :=
  match idle_stop_after_secs w with Some s => Some s | None => daemon_default end.
Definition destroy_threshold (w : WorkspaceMetadata) (daemon_default : option Z) : option Z :=
  match destroy_after_secs w with Some s => Some s | None => daemon_default end.

(** Whether the retention window of a stopped workspace is over. *)
Definition retention_over (w : WorkspaceMetadata) (threshold now : Z) : bool :=
  match last_stopped_at w ≫= parse_timestamp with
  | Some stopped => as_i64 threshold <=? num_seconds (now - stopped)
  | None => false
  end.

(** [destroy_candidates], its filter. *)
Definition destroy_candidate (default_secs : option Z) (now : Z) (w : WorkspaceMetadata) : bool :=
  bool_decide (status w = Stopped) && negb (keep_running w) &&
  match destroy_threshold w default_secs with
  | Some t => negb (t =? 0) && retention_over w t now
  | None => false
  end.

(** ** Job records (workspace/jobs.rs) *)

Inductive JobMode := Foreground | Background.
Inductive JobStatus := JobRunning | JobExited | JobFailed | JobCancelled.
#[export] Instance JobMode_eq_dec : EqDecision JobMode.
Proof. solve_decision. Defined.
#[export] Instance JobStatus_eq_dec : EqDecision JobStatus.
Proof. solve_decision. Defined.
Definition is_terminal (s : JobStatus) : bool := negb (bool_decide (s = JobRunning)).

Record JobRecord := mkJob {
  job_id : string;
  job_sandbox_id : string;
  job_workspace_id : string;
  mode : JobMode;
  command : list string;
  started_at : string;
  finished_at : option string;
  job_pid : option Z;
  starttime_ticks : option Z;
  process_group : option Z;
  job_status : JobStatus;
  exit_code : option Z;
  ttl_secs : option Z;
  job_keep_running : bool;
  job_error : option string }.

(** The fields an outcome sets. *)
Definition with_outcome (s : JobStatus) (code : option Z) (err : option string) (stamp : string) (j : JobRecord)
    : JobRecord :=
  mkJob (job_id j) (job_sandbox_id j) (job_workspace_id j) (mode j) (command j) (started_at j) (Some stamp)
    (job_pid j) (starttime_ticks j) (process_group j) s code (ttl_secs j) (job_keep_running j) err.

Definition expired (j : JobRecord) (at_ : Z) : bool :=
  match ttl_secs j with
  | Some ttl =>
      if 0 <? ttl then
        match parse_timestamp (started_at j) with
        | Some started => as_i64 ttl <=? num_seconds (at_ - started)
        | None => false
        end
      else false
  | None => false
  end.

Definition job_id_char (c : ascii) : bool := is_ascii_alphanumeric c || (c =? "-")%char || (c =? "_")%char.

(** The directory of records, and the daemon's live state. *)
Record ExternalLease := mkExternal {
  ext_sandbox_id : string;
  ext_workspace_id : string;
  owner_pid : Z;
  owner_starttime_ticks : Z }.

Record Activity := mkActivity {
  job_files : gmap string JobRecord;
  leases : gmap string Z;
  external : gmap string ExternalLease;
  live_jobs : gmap string JobRecord }.

Definition with_files (f : gmap string JobRecord → gmap string JobRecord) (a : Activity) : Activity :=
  mkActivity (f (job_files a)) (leases a) (external a) (live_jobs a).
Definition with_leases (f : gmap string Z → gmap string Z) (a : Activity) : Activity :=
  mkActivity (job_files a) (f (leases a)) (external a) (live_jobs a).
Definition with_external (f : gmap string ExternalLease → gmap string ExternalLease) (a : Activity) : Activity :=
  mkActivity (job_files a) (leases a) (f (external a)) (live_jobs a).
Definition with_live (f : gmap string JobRecord → gmap string JobRecord) (a : Activity) : Activity :=
  mkActivity (job_files a) (leases a) (external a) (f (live_jobs a)).

(** What the host answers: whether a record can be written, by job id, and the clock. *)
Record job_host := mkJobHost {
  jh_list : bool;
  jh_persist : string → bool;
  jh_stamp : string;
  jh_process : Z → Z → bool;               (** [process_matches] *)
  jh_group : Z → Z → bool;                 (** a process of the group is alive *)
  jh_exits : string → bool }.              (** whether a job ends when it is signalled *)

Definition job_path (jid : string) : result string :=
  if bool_decide (jid = "") || negb (str_all job_id_char jid) then bail "invalid job id" else Ok (jid +:+ ".json").

Definition persist_job (h : job_host) (j : JobRecord) : stm Activity unit :=
  lift (job_path (job_id j));;
  assert (jh_persist h (job_id j)) "failed to persist job";;
  modify (with_files <[job_id j := j]>).

Definition load_job (jid : string) : stm Activity JobRecord :=
  lift (job_path jid);;
  a ← get; lift (ok_or (job_files a !! jid) (plain "failed to read job")).

Definition list_jobs (h : job_host) : stm Activity (list JobRecord) :=
  assert (jh_list h) "failed to read the jobs directory";;
  a ← get; mret (sort_by (λ x y, str_le (started_at x) (started_at y)) (btree_values (job_files a))).

Definition owned_by (sid wid : string) (j : JobRecord) : bool :=
  bool_decide (job_sandbox_id j = sid) && bool_decide (job_workspace_id j = wid).

Definition list_for_workspace (h : job_host) (sid wid : string) : stm Activity (list JobRecord) :=
  l ← list_jobs h; mret (filter (λ j, owned_by sid wid j = true) l).

Definition finish (h : job_host) (jid : string) (s : JobStatus) (code : option Z) (err : option string)
    : stm Activity unit :=
  j ← load_job jid;
  persist_job h (with_outcome s code err (jh_stamp h) j).

Definition finish_if_running (h : job_host) (jid : string) (s : JobStatus) (code : option Z) (err : option string)
    : stm Activity bool :=
  j ← load_job jid;
  if is_terminal (job_status j) then mret false
  else persist_job h (with_outcome s code err (jh_stamp h) j);; mret true.

Fixpoint cancel_each (h : job_host) (reason : string) (l : list JobRecord) : stm Activity Z :=
  match l with
  | [] => mret 0
  | j :: l' =>
      if is_terminal (job_status j) then cancel_each h reason l'
      else
        persist_job h (with_outcome JobCancelled (exit_code j) (Some reason) (jh_stamp h) j);;
        n ← cancel_each h reason l'; mret (n + 1)
  end.
Definition cancel_running_for_workspace (h : job_host) (sid wid reason : string) : stm Activity Z :=
  l ← list_for_workspace h sid wid; cancel_each h reason l.

(** ** The live state (workspace/activity_service.rs) *)

Definition workspace_key (sid wid : string) : string := sid +:+ "/" +:+ wid.

Definition acquire (sid wid : string) (a : Activity) : Activity :=
  let key := workspace_key sid wid in
  with_leases <[key := default 0 (leases a !! key) + 1]> a.

Definition release (key : string) (a : Activity) : Activity :=
  match leases a !! key with
  | Some count =>
      if sat_sub64 count 1 =? 0 then with_leases (delete key) a
      else with_leases <[key := sat_sub64 count 1]> a
  | None => a
  end.

Definition begin_external (token sid wid : string) (pid ticks : Z) (a : Activity) : Activity :=
  with_external <[token := mkExternal sid wid pid ticks]> a.
Definition end_external (token : string) (a : Activity) : bool * Activity :=
  (bool_decide (is_Some (external a !! token)), with_external (delete token) a).

Definition owner_alive (h : job_host) (l : ExternalLease) : bool := jh_process h (owner_pid l) (owner_starttime_ticks l).
Definition reap_external (h : job_host) (a : Activity) : Activity :=
  with_external (filter (λ p, owner_alive h p.2 = true)) a.
Definition active_commands (h : job_host) (sid wid : string) (a : Activity) : Z * Activity :=
  let live := default 0 (leases a !! workspace_key sid wid) in
  let a' := reap_external h a in
  let mine := filter (λ p : string * ExternalLease, ext_sandbox_id p.2 = sid ∧ ext_workspace_id p.2 = wid)
                (btree_list (external a')) in
  (sat_add64 live (Z.of_nat (length mine)), a').

Definition job_alive (h : job_host) (j : JobRecord) : bool :=
  match job_pid j, starttime_ticks j with
  | Some p, Some t =>
      jh_process h p t || match process_group j with Some g => jh_group h g t | None => false end
  | _, _ => false
  end.

Definition update_job (j : JobRecord) (a : Activity) : Activity := with_live <[job_id j := j]> a.

Definition jobs_for_workspace (sid wid : string) (a : Activity) : list JobRecord :=
  filter (λ j, owned_by sid wid j = true) (btree_values (live_jobs a)).

Definition has_active_foreground_job (h : job_host) (sid wid : string) (a : Activity) : bool :=
  existsb (λ j, bool_decide (mode j = Foreground) && bool_decide (job_status j = JobRunning) && job_alive h j)
    (jobs_for_workspace sid wid a).

Definition keeps_workspace_running (sid wid : string) (a : Activity) : bool :=
  existsb (λ j, bool_decide (mode j = Background) && job_keep_running j && bool_decide (job_status j = JobRunning))
    (jobs_for_workspace sid wid a).

Definition prune_terminal_jobs (sid wid : string) (a : Activity) : Activity :=
  with_live (filter (λ p, owned_by sid wid p.2 = false ∨ job_status p.2 = JobRunning)) a.

Definition job_processes (sid wid : string) (a : Activity) : gmap Z string :=
  list_to_map (reverse (omap (λ j, match process_group j with
                                   | Some g => if (0 <=? g) then Some (g, job_id j) else None
                                   | None => None end)
    (filter (λ j, mode j = Background ∧ job_status j = JobRunning) (jobs_for_workspace sid wid a)))).

(** [load_live_jobs] *)
Definition load_live_jobs (h : job_host) : stm Activity unit :=
  l ← list_jobs h;
  modify (with_live (λ _, list_to_map (reverse ((λ j, (job_id j, j)) <$>
    filter (λ j, job_status j = JobRunning ∧ job_alive h j = true) l)))).

Definition refresh_jobs_for_workspace (h : job_host) (sid wid : string) : stm Activity unit :=
  l ← list_for_workspace h sid wid;
  modify (λ a, foldl (λ a j, if bool_decide (job_status j = JobRunning) && job_alive h j then update_job j a else a) a l).

Definition finish_job (h : job_host) (jid : string) (s : JobStatus) (code : option Z) (err : option string)
    : stm Activity bool :=
  changed ← finish_if_running h jid s code err;
  if changed : bool
  then modify (with_live (alter (with_outcome s code err (jh_stamp h)) jid));; mret true
  else mret false.

(** The record of a job whose process is gone. *)
Definition lost_job (h : job_host) (why : string) (j : JobRecord) : JobRecord :=
  with_outcome JobFailed (exit_code j) (Some why) (jh_stamp h) j.

(** [reap_expired_jobs], one expired job: [terminate_job] signals the group and
    answers whether it is gone. *)
Definition reap_job (h : job_host) (j : JobRecord) : stm Activity (list (string * string)) :=
  if negb (job_alive h j) then
    let j' := lost_job h "background job exited before its TTL expired" j in
    persist_job h j';; modify (update_job j');; mret []
  else
    let exited := jh_exits h (job_id j) in
    let j' := with_outcome (if exited then JobCancelled else JobFailed) (exit_code j)
                (Some (if exited then "background job TTL expired"
                       else "background job TTL expired but its process group survived SIGKILL")) (jh_stamp h) j in
    persist_job h j';; modify (update_job j');;
    mret (if exited then [(job_workspace_id j, job_id j)] else []).
Fixpoint reap_each (h : job_host) (l : list JobRecord) : stm Activity (list (string * string)) :=
  match l with
  | [] => mret []
  | j :: l' => r ← reap_job h j; rest ← reap_each h l'; mret (r ++ rest)
  end.
Definition reap_expired_jobs (h : job_host) (now : Z) : stm Activity (list (string * string)) :=
  l ← list_jobs h;
  reap_each h (filter (λ j, job_status j = JobRunning ∧ mode j = Background ∧ expired j now = true) l).

(** [reconcile_jobs] and [reconcile_workspace_jobs] *)
Fixpoint reconcile_each (h : job_host) (l : list JobRecord) : stm Activity Z :=
  match l with
  | [] => mret 0
  | j :: l' =>
      if is_terminal (job_status j) || job_alive h j then reconcile_each h l'
      else
        persist_job h (lost_job h "the daemon restarted while this job was running" j);;
        n ← reconcile_each h l'; mret (n + 1)
  end.
Definition reconcile_jobs (h : job_host) : stm Activity Z := l ← list_jobs h; reconcile_each h l.

Fixpoint reconcile_workspace_each (h : job_host) (l : list JobRecord) : stm Activity Z :=
  match l with
  | [] => mret 0
  | j :: l' =>
      if is_terminal (job_status j) then reconcile_workspace_each h l'
      else if job_alive h j then modify (update_job j);; reconcile_workspace_each h l'
      else
        let j' := lost_job h "job process exited before its supervisor observed it" j in
        persist_job h j';; modify (update_job j');;
        n ← reconcile_workspace_each h l'; mret (n + 1)
  end.
Definition reconcile_workspace_jobs (h : job_host) (sid wid : string) : stm Activity Z :=
  l ← list_for_workspace h sid wid; reconcile_workspace_each h l.

(** ** Candidates *)

Definition idle_candidate (h : job_host) (default_secs : option Z) (now : Z) (a : Activity) (w : WorkspaceMetadata)
    : bool :=
  match idle_threshold w default_secs with
  | None => false
  | Some t =>
      if keeps_workspace_running (sandbox_id w) (id w) a || has_active_foreground_job h (sandbox_id w) (id w) a
      then false
      else is_idle w t now (active_commands h (sandbox_id w) (id w) a).1
  end.

(** [None] sorts first. *)
Definition opt_lt (a b : option Z) : bool :=
  match a, b with
  | None, Some _ => true
  | Some x, Some y => x <? y
  | _, None => false
  end.
Definition lru_le (a b : WorkspaceMetadata) : bool :=
  opt_lt (last_activity a) (last_activity b) ||
  (bool_decide (last_activity a = last_activity b) && str_le (id a) (id b)).

(** Asking for the active commands of a workspace drops the leases of exited owners,
    which changes no answer. *)
Definition idle_candidates (h : job_host) (default_secs : option Z) (now : Z) (a : Activity) (r : Registry)
    : list WorkspaceMetadata :=
  sort_by lru_le (filter (λ w, idle_candidate h default_secs now a w = true) (fleet r)).

Definition running_workspaces (sid : option string) (r : Registry) : list WorkspaceMetadata :=
  filter (λ w, status w = Running)
    (filter (λ e, default true ((λ s, bool_decide (sb_id (metadata e) = s)) <$> sid) = true) (btree_values (sandboxes r))
       ≫= λ e, btree_values (workspaces e)).

Definition destroy_candidates (default_secs : option Z) (now : Z) (r : Registry) : list WorkspaceMetadata :=
  filter (λ w, destroy_candidate default_secs now w = true) (fleet r).
End clock.

(** ** Command leases count the requests in flight *)

(** The service together with the guards that were handed out and not dropped yet.
    A request takes a guard and its end drops it; every other operation of the
    service leaves the leases alone. *)
Inductive lease_step : Activity * list string → Activity * list string → Prop :=
  | lease_take sid wid a guards :
      lease_step (a, guards) (acquire sid wid a, workspace_key sid wid :: guards)
  | lease_drop key g1 g2 a :
      lease_step (a, g1 ++ key :: g2) (release key a, g1 ++ g2)
  | lease_other a a' guards :
      leases a' = leases a → lease_step (a, guards) (a', guards).

Definition count_key (key : string) (guards : list string) : nat := length (filter (λ k, k = key) guards).

Definition leases_exact (st : Activity * list string) : Prop :=
  ∀ key, leases st.1 !! key =
    if bool_decide (count_key key st.2 = 0%nat) then None else Some (Z.of_nat (count_key key st.2)).

Lemma count_key_cons key k g : count_key key (k :: g) = ((if decide (k = key) then 1 else 0) + count_key key g)%nat.
Proof. unfold count_key. rewrite filter_cons. by destruct (decide (k = key)). Qed.
Lemma count_key_app key g1 g2 : count_key key (g1 ++ g2) = (count_key key g1 + count_key key g2)%nat.
Proof. unfold count_key. by rewrite list.filter_app, length_app. Qed.

Lemma lease_step_exact st st' : lease_step st st' → leases_exact st → leases_exact st'.
Proof.
  intros H Hex. destruct H as [sid wid a guards|key g1 g2 a|a a' guards Heq].
  - intros key. unfold acquire, with_leases. cbn [fst snd leases]. rewrite count_key_cons. specialize (Hex key). cbn [fst snd] in Hex.
    destruct (decide (workspace_key sid wid = key)) as [<-|Hne]; cbv iota.
    + rewrite lookup_insert_eq, Hex. repeat case_bool_decide; unfold default; cbn [from_option]; unfold Datatypes.id; try lia; f_equal; lia.
    + by rewrite lookup_insert_ne.
  - intros key'. pose proof (Hex key) as Hk. pose proof (Hex key') as Hk'. cbn [fst snd] in Hk, Hk'.
    rewrite count_key_app, count_key_cons in Hk, Hk'. rewrite decide_True in Hk by done.
    rewrite bool_decide_eq_false_2 in Hk by lia. unfold release. rewrite Hk. unfold sat_sub64. cbn [fst snd].
    rewrite count_key_app. destruct (decide (key = key')) as [<-|Hne].
    + destruct (Z.eqb_spec (Z.max (Z.of_nat (count_key key g1 + (1 + count_key key g2)) - 1) 0) 0) as [H0|H0];
        cbn; [rewrite lookup_delete_eq|rewrite lookup_insert_eq].
      * by rewrite bool_decide_eq_true_2 by lia.
      * rewrite bool_decide_eq_false_2 by lia. f_equal. lia.
    + destruct (_ =? 0); cbn; [rewrite lookup_delete_ne by done|rewrite lookup_insert_ne by done]; done.
  - intros key. cbn [fst]. rewrite Heq. apply Hex.
Qed.

Definition no_activity : Activity := mkActivity ∅ ∅ ∅ ∅.
Lemma leases_exact_start : leases_exact (no_activity, []).
Proof. intros key. cbn. by rewrite lookup_empty. Qed.

Lemma lease_steps_exact st st' : rtc lease_step st st' → leases_exact st → leases_exact st'.
Proof. induction 1; [done|]. eauto using lease_step_exact. Qed.

Lemma is_idle_busy parse w t now n : 0 < n → is_idle parse w t now n = false.
Proof. intros Hn. unfold is_idle. rewrite (proj2 (Z.ltb_lt _ _) Hn), !orb_true_r. done. Qed.

Lemma active_commands_guards h sid wid a guards :
  leases_exact (a, guards) → 0 < Z.of_nat (count_key (workspace_key sid wid) guards) ≤ u64_max →
  Z.of_nat (count_key (workspace_key sid wid) guards) ≤ (active_commands h sid wid a).1.
Proof.
  intros Hex Hn. unfold active_commands. cbn [fst]. specialize (Hex (workspace_key sid wid)). cbn [fst snd] in Hex. rewrite Hex.
  rewrite bool_decide_eq_false_2 by lia. unfold default, Datatypes.id; cbn [from_option]. unfold sat_add64. lia.
Qed.

(** The idle decision never takes a workspace from under a request.  After any
    interleaving of requests that take and drop command leases, the lease table
    counts exactly the guards still held, is empty when none is, and a workspace
    with a guard is no idle candidate, whatever its timestamps and thresholds
    say. *)
Theorem busy_workspace_not_idle h parse default_secs now st a guards w :
  leases_exact st → rtc lease_step st (a, guards) →
  (∀ key, leases a !! key = if bool_decide (count_key key guards = 0%nat) then None
                            else Some (Z.of_nat (count_key key guards))) ∧
  (guards = [] → leases a = ∅) ∧
  (workspace_key (sandbox_id w) (id w) ∈ guards → Z.of_nat (length guards) ≤ u64_max →
     idle_candidate parse h default_secs now a w = false).
Proof.
  intros H0 Hrun. pose proof (lease_steps_exact _ _ Hrun H0) as Hex. split_and!; [exact Hex| |].
  - intros ->. apply map_empty. intros key. apply Hex.
  - intros Hin Hlen. unfold idle_candidate. destruct (idle_threshold w default_secs); [|done].
    destruct (_ || _); [done|]. apply is_idle_busy.
    assert (0 < count_key (workspace_key (sandbox_id w) (id w)) guards)%nat as Hpos.
    { unfold count_key. destruct (filter _ guards) eqn:E; [|cbn; lia].
      assert (workspace_key (sandbox_id w) (id w) ∈ filter (λ k, k = workspace_key (sandbox_id w) (id w)) guards) as Hin'
        by (by apply list_elem_of_filter). rewrite E in Hin'. by apply not_elem_of_nil in Hin'. }
    pose proof (length_filter (λ k, k = workspace_key (sandbox_id w) (id w)) guards) as Hle.
    unfold count_key in *.
    eapply Z.lt_le_trans; [|apply (active_commands_guards h _ _ _ _ Hex)]; unfold count_key; lia.
Qed.

(** ** The order of eviction *)

Lemma lru_le_total parse x y : lru_le parse x y = true ∨ lru_le parse y x = true.
Proof.
  unfold lru_le. destruct (last_activity parse x) as [a|], (last_activity parse y) as [b|]; cbn; auto.
  - destruct (Z.lt_trichotomy a b) as [H|[->|H]]; [left; by rewrite (proj2 (Z.ltb_lt _ _) H)| |
      right; by rewrite (proj2 (Z.ltb_lt _ _) H)].
    rewrite Z.ltb_irrefl, bool_decide_eq_true_2 by done. apply str_le_total.
  - apply str_le_total.
Qed.
Lemma lru_le_trans parse x y z : lru_le parse x y = true → lru_le parse y z = true → lru_le parse x z = true.
Proof.
  unfold lru_le. rewrite !orb_true_iff, !andb_true_iff, !bool_decide_eq_true.
  destruct (last_activity parse x), (last_activity parse y), (last_activity parse z); cbn; rewrite ?Z.ltb_lt;
    intros [?|[? ?]] [?|[? ?]]; simplify_eq; try done; try (left; lia); right; eauto using str_le_trans.
Qed.

(** At least [t] seconds lie between two instants. *)
Lemma num_seconds_le t d : 0 < t → t ≤ num_seconds d → t * 1000000000 ≤ d.
Proof.
  unfold num_seconds. intros Ht H. destruct (Z.le_gt_cases 0 d) as [Hd|Hd].
  - pose proof (Z.mul_quot_le d 1000000000 Hd ltac:(done)). lia.
  - pose proof (Z.quot_opp_l d 1000000000 ltac:(done)). pose proof (Z.quot_pos (- d) 1000000000). lia.
Qed.

(** The workspaces a sweep may stop are exactly the ones that qualify, least
    recently used first: each is running, not pinned, holds no command lease and
    no live job that keeps it, has a non-zero idle window, and saw no request and
    no process activity within it; ties are broken by id.  (A window is taken as a
    signed 64-bit number, so this is about windows below 2^63 seconds.) *)
Theorem idle_candidates_lru parse h default_secs now a r :
  StronglySorted (λ x y, lru_le parse x y = true) (idle_candidates parse h default_secs now a r) ∧
  ∀ w, w ∈ idle_candidates parse h default_secs now a r →
    w ∈ fleet r ∧ status w = Running ∧ keep_running w = false ∧
    keeps_workspace_running (sandbox_id w) (id w) a = false ∧
    has_active_foreground_job h (sandbox_id w) (id w) a = false ∧
    (active_commands h (sandbox_id w) (id w) a).1 ≤ 0 ∧
    ∃ t last, idle_threshold w default_secs = Some t ∧ t ≠ 0 ∧ last_activity parse w = Some last ∧
      (0 ≤ t < 9223372036854775808 → t * 1000000000 ≤ now - last).
Proof.
  split; [apply sort_by_sorted; eauto using lru_le_total, lru_le_trans|].
  intros w. unfold idle_candidates. rewrite sort_by_perm, list_elem_of_filter.
  unfold idle_candidate, is_idle, idle_for_secs. intros [H Hw].
  destruct (idle_threshold w default_secs) as [t|] eqn:Et; [|done].
  destruct (keeps_workspace_running _ _ a), (has_active_foreground_job _ _ _ a); try done. cbn [orb] in H.
  destruct (negb _ || _ || _ || _) eqn:Hg; [done|].
  apply orb_false_iff in Hg as [[[H1%negb_false_iff%bool_decide_eq_true H2]%orb_false_iff H3%Z.eqb_neq]%orb_false_iff H4%Z.ltb_ge].
  destruct (last_activity parse w) as [last|]; cbn in H; [|done]. apply Z.leb_le in H.
  split_and!; [done..|]. exists t, last. split_and!; [done..|]. intros Ht.
  rewrite as_i64_small in H by done. apply num_seconds_le; lia.
Qed.

(** The retention window of a stopped workspace is kept: below 2^63 seconds,
    the sweep selects a workspace for deletion only when it is stopped, not
    pinned, its window is not zero, and at least that much time has passed since
    it stopped. *)
Theorem retention_is_kept parse default_secs now r w :
  w ∈ destroy_candidates parse default_secs now r →
  w ∈ fleet r ∧ status w = Stopped ∧ keep_running w = false ∧
  ∃ t stamp stopped, destroy_threshold w default_secs = Some t ∧ t ≠ 0 ∧
    last_stopped_at w = Some stamp ∧ parse stamp = Some stopped ∧
    (0 ≤ t < 9223372036854775808 → t * 1000000000 ≤ now - stopped).
Proof.
  unfold destroy_candidates. rewrite list_elem_of_filter. unfold destroy_candidate, retention_over.
  intros [[[H1%bool_decide_eq_true H2%negb_true_iff]%andb_true_iff H3]%andb_true_iff Hw].
  destruct (destroy_threshold w default_secs) as [t|]; [|done].
  apply andb_true_iff in H3 as [Ht%negb_true_iff%Z.eqb_neq H3].
  destruct (last_stopped_at w) as [stamp|]; cbn in H3; [|done]. destruct (parse stamp) as [stopped|] eqn:E; [|done].
  apply Z.leb_le in H3. split_and!; [done..|]. exists t, stamp, stopped. split_and!; [done..|].
  intros Hr. rewrite as_i64_small in H3 by done. apply num_seconds_le; lia.
Qed.

(** A window of 2^63 seconds or more, which every parser of the field accepts,
    does not mean a long time but none: it turns negative, so a workspace that asks
    to be kept that long after a stop is selected for deletion at the very next
    sweep, and one that asks to idle that long is selected for a stop. *)
Theorem huge_window_is_no_window parse h default_secs now a w t stamp stopped :
  9223372036854775808 ≤ t ≤ u64_max → parse stamp = Some stopped → stopped ≤ now →
  (destroy_after_secs w = Some t → status w = Stopped → keep_running w = false → last_stopped_at w = Some stamp →
     destroy_candidate parse default_secs now w = true) ∧
  (idle_stop_after_secs w = Some t → status w = Running → keep_running w = false → last_request_at w = Some stamp →
     keeps_workspace_running (sandbox_id w) (id w) a = false →
     has_active_foreground_job h (sandbox_id w) (id w) a = false →
     (active_commands h (sandbox_id w) (id w) a).1 = 0 →
     idle_candidate parse h default_secs now a w = true).
Proof.
  intros Ht Hp Hle.
  assert (as_i64 t < 0) as Hneg. { unfold u64_max in *. apply as_i64_large. lia. }
  assert (t =? 0 = false) as Hz by (apply Z.eqb_neq; lia). split.
  - intros Hd Hs Hk Hl. unfold destroy_candidate, destroy_threshold, retention_over.
    rewrite Hs, Hk, Hd, Hl, Hz. cbn [mbind option_bind]. rewrite Hp. rewrite bool_decide_eq_true_2 by done. cbn [negb andb].
    apply Z.leb_le. unfold num_seconds. pose proof (Z.quot_pos (now - stopped) 1000000000 ltac:(lia) ltac:(lia)). lia.
  - intros Hd Hs Hk Hl Hkw Hf Hc. unfold idle_candidate, idle_threshold, is_idle, idle_for_secs, last_activity.
    rewrite Hd, Hkw, Hf, Hc, Hs, Hk, Hl, Hz. cbn [mbind option_bind]. rewrite Hp. rewrite bool_decide_eq_true_2 by done.
    cbn [negb orb Z.ltb]. destruct (last_process_activity_at w ≫= parse); cbn; apply Z.leb_le; lia.
Qed.

(** ** Job records *)

(** Records are filed under their own id. *)
Definition filed (a : Activity) : Prop := ∀ jid j, job_files a !! jid = Some j → job_id j = jid.

(** The record [j] is on file with its outcome, and the daemon's copy of it is one
    that [L] allows. *)
Definition settled (jid : string) (j : JobRecord) (L : option JobRecord → Prop) (a : Activity) : Prop :=
  filed a ∧ job_files a !! jid = Some j ∧ is_terminal (job_status j) = true ∧ L (live_jobs a !! jid).

Lemma elem_of_listed h a l st' j :
  list_jobs h a = (Ok l, st') → st' = a ∧ (j ∈ l ↔ ∃ jid, job_files a !! jid = Some j).
Proof.
  intros H. unfold list_jobs in H. apply stm_bind_Ok in H as (u & st1 & H1 & H). apply assert_Ok in H1 as (_ & _ & ->).
  apply stm_bind_Ok in H as (a' & st1 & H1 & H). apply get_Ok in H1 as [-> ->]. apply mret_Ok in H as [-> ->].
  split; [done|]. rewrite sort_by_perm. apply elem_of_btree_values.
Qed.

Section settled.
Context (h : job_host) (jid : string) (j : JobRecord) (L : option JobRecord → Prop).

(** Writing the outcome of a record that still runs. *)
Lemma settled_persist j' : is_terminal (job_status j) = true → job_id j' ≠ jid →
  preserves (settled jid j L) (persist_job h j').
Proof.
  intros Hj Hne. unfold persist_job. do 2 (apply preserves_bind; [solve_preserves|intros _]).
  apply preserves_modify. intros a (Hf & Hl & Ht & HL). split_and!; [|cbn|done..].
  - intros k x. cbn. rewrite lookup_insert_Some. intros [[<- <-]|[_ Hx]]; [done|by apply Hf].
  - by rewrite lookup_insert_ne.
Qed.

Lemma settled_frame f :
  (∀ a, job_files (f a) = job_files a) → (∀ a, L (live_jobs a !! jid) → L (live_jobs (f a) !! jid)) →
  preserves (settled jid j L) (modify f).
Proof.
  intros Hf Hlive. apply preserves_modify. intros a (H1 & H2 & H3 & H4). unfold settled, filed. rewrite Hf. by split_and!; [..|apply Hlive].
Qed.
Lemma settled_update x : job_id x ≠ jid → preserves (settled jid j L) (modify (update_job x)).
Proof. intros Hne. apply settled_frame; [done|]. intros a HL. cbn. by rewrite lookup_insert_ne. Qed.

(** In a listing, what still runs is another record. *)
Definition others_run (l : list JobRecord) : Prop :=
  is_terminal (job_status j) = true ∧ Forall (λ x, is_terminal (job_status x) = false → job_id x ≠ jid) l.

Lemma others_run_cons x l : others_run (x :: l) →
  (is_terminal (job_status x) = false → job_id x ≠ jid) ∧ others_run l.
Proof. intros [Hj [Hx Hl]%list.Forall_cons]. by split_and!. Qed.

Lemma settled_listed l a st' : settled jid j L a → list_jobs h a = (Ok l, st') → st' = a ∧ others_run l.
Proof.
  intros (Hf & Hl & Ht & _) H. split; [by destruct (elem_of_listed _ _ _ _ j H)|]. split; [done|].
  apply list.Forall_forall. intros x Hx Hr Hid.
  apply (proj1 (proj2 (elem_of_listed _ _ _ _ x H))) in Hx as [k Hk].
  pose proof (Hf _ _ Hk). assert (x = j) as -> by congruence. congruence.
Qed.

(** An operation that works off a listing. *)
Lemma settled_over {A} (f : list JobRecord → stm Activity A) :
  (∀ l, others_run l → preserves (settled jid j L) (f l)) → preserves (settled jid j L) (l ← list_jobs h; f l).
Proof.
  intros Hf a Ha. unfold mbind, stm_bind. destruct (list_jobs h a) as [[l|e] a'] eqn:E.
  - destruct (settled_listed _ _ _ Ha E) as [-> Ho]. by apply Hf.
  - unfold list_jobs, mbind, stm_bind in E. destruct (jh_list h); [done|]. by injection E as _ <-.
Qed.

Lemma others_run_filter (P : JobRecord → Prop) `{!∀ x, Decision (P x)} l : others_run l → others_run (filter P l).
Proof. intros [Hj Hl]. split; [done|]. rewrite list.Forall_forall in Hl |- *.
  intros x [_ Hx]%list_elem_of_filter. auto. Qed.

Lemma settled_over_workspace {A} sid wid (f : list JobRecord → stm Activity A) :
  (∀ l, others_run l → preserves (settled jid j L) (f l)) →
  preserves (settled jid j L) (l ← list_for_workspace h sid wid; f l).
Proof.
  intros Hf a Ha.
  pose proof (settled_over (λ l, f (filter (λ j, owned_by sid wid j = true) l))
    ltac:(intros; by apply Hf, others_run_filter) a Ha) as H.
  unfold list_for_workspace, mbind, stm_bind in H |- *. by destruct (list_jobs h a) as [[]].
Qed.

Lemma settled_cancel reason l : others_run l → preserves (settled jid j L) (cancel_each h reason l).
Proof.
  induction l as [|x l IH]; intros Hl; cbn; [solve_preserves|]. pose proof (proj1 Hl) as Hj.
  apply others_run_cons in Hl as [Hx Hl]. destruct (is_terminal (job_status x)) eqn:Ht; [auto|].
  apply preserves_bind; [apply settled_persist; auto|intros _]. apply preserves_bind; [auto|solve_preserves].
Qed.

Lemma settled_reap l : others_run l → Forall (λ x, is_terminal (job_status x) = false) l →
  preserves (settled jid j L) (reap_each h l).
Proof.
  induction l as [|x l IH]; intros Hl Hr; cbn; [solve_preserves|]. pose proof (proj1 Hl) as Hj.
  apply others_run_cons in Hl as [Hx Hl]. apply list.Forall_cons in Hr as [Hrx Hr].
  apply preserves_bind; [|intros ?; apply preserves_bind; [auto|solve_preserves]].
  unfold reap_job. destruct (negb _); (apply preserves_bind; [apply settled_persist; auto|intros _];
    apply preserves_bind; [apply settled_update; auto|solve_preserves]).
Qed.

Lemma settled_reconcile l : others_run l → preserves (settled jid j L) (reconcile_each h l).
Proof.
  induction l as [|x l IH]; intros Hl; cbn; [solve_preserves|]. pose proof (proj1 Hl) as Hj.
  apply others_run_cons in Hl as [Hx Hl]. destruct (is_terminal (job_status x)) eqn:Ht; [auto|]. cbn.
  destruct (job_alive h x); [auto|]. apply preserves_bind; [apply settled_persist; auto|intros _].
  apply preserves_bind; [auto|solve_preserves].
Qed.

Lemma settled_reconcile_workspace l : others_run l → preserves (settled jid j L) (reconcile_workspace_each h l).
Proof.
  induction l as [|x l IH]; intros Hl; cbn; [solve_preserves|]. pose proof (proj1 Hl) as Hj.
  apply others_run_cons in Hl as [Hx Hl]. destruct (is_terminal (job_status x)) eqn:Ht; [auto|].
  destruct (job_alive h x); [apply preserves_bind; [apply settled_update; auto|auto]|].
  apply preserves_bind; [apply settled_persist; auto|intros _].
  apply preserves_bind; [apply settled_update; auto|intros _]. apply preserves_bind; [auto|solve_preserves].
Qed.

Lemma settled_finish_if_running k s code err : preserves (settled jid j L) (finish_if_running h k s code err).
Proof.
  intros a Ha. unfold finish_if_running, load_job, mbind, stm_bind, lift, get, mret, stm_ret. cbn.
  destruct (job_path k) as [p|]; [|done]. cbn. destruct (job_files a !! k) as [x|] eqn:Hk; cbn; [|done].
  destruct (is_terminal (job_status x)) eqn:Ht; [done|]. pose proof Ha as (Hf & Hl & Hj & _).
  assert (job_id x ≠ jid). { rewrite (Hf _ _ Hk). intros ->. congruence. }
  pose proof (settled_persist (with_outcome s code err (jh_stamp h) x) Hj ltac:(done) a Ha) as Hp.
  by destruct (persist_job h _ a) as [[]].
Qed.

Lemma settled_finish_job k s code err : preserves (settled jid j L) (finish_job h k s code err).
Proof.
  intros a Ha. pose proof (settled_finish_if_running k s code err a Ha) as Hfin.
  unfold finish_job. unfold mbind at 1, stm_bind at 1.
  destruct (finish_if_running h k s code err a) as [[[]|] a1] eqn:E; cbn [snd] in Hfin |- *; [|done..].
  assert (k ≠ jid) as Hne.
  { intros ->. destruct Ha as (_ & Hl & Ht & _).
    unfold finish_if_running, load_job, mbind, stm_bind, lift, get, mret, stm_ret in E. cbn in E.
    destruct (job_path jid); [|done]. cbn in E. rewrite Hl in E. cbn in E. by rewrite Ht in E. }
  destruct Hfin as (H1 & H2 & H3 & H4). split_and!; [done..|].
  assert (alter (with_outcome s code err (jh_stamp h)) k (live_jobs a1) !! jid = live_jobs a1 !! jid) as Heq
    by by apply lookup_alter_ne. exact (eq_rect_r L H4 Heq).
Qed.

Lemma refresh_settled l :
  others_run l → preserves (settled jid j L)
    (modify (λ a, foldl (λ a j, if bool_decide (job_status j = JobRunning) && job_alive h j then update_job j a else a) a l)).
Proof.
  intros Hl. apply preserves_modify. induction l as [|x l IH]; [done|]. intros a Ha. cbn.
  apply others_run_cons in Hl as [Hx Hl]. apply IH; [done|].
  destruct (_ && _) eqn:E; [|done]. apply andb_true_iff in E as [E%bool_decide_eq_true _].
  apply (settled_update x); [|done]. apply Hx. unfold is_terminal. by rewrite E.
Qed.
End settled.

(** Everything that touches job records once a job was started; the live copies are
    loaded anew only when the daemon restarts. *)
Inductive job_op (parse : string → option Z) (restart : bool) (a : Activity) : Activity → Prop :=
  | job_finish_if_running h k s code err : job_op parse restart a (finish_if_running h k s code err a).2
  | job_finish h k s code err : job_op parse restart a (finish_job h k s code err a).2
  | job_cancel h sid wid reason : job_op parse restart a (cancel_running_for_workspace h sid wid reason a).2
  | job_reap h now : job_op parse restart a (reap_expired_jobs parse h now a).2
  | job_reconcile h : job_op parse restart a (reconcile_jobs h a).2
  | job_reconcile_workspace h sid wid : job_op parse restart a (reconcile_workspace_jobs h sid wid a).2
  | job_refresh h sid wid : job_op parse restart a (refresh_jobs_for_workspace h sid wid a).2
  | job_load h : restart = true → job_op parse restart a (load_live_jobs h a).2
  | job_prune sid wid : job_op parse restart a (prune_terminal_jobs sid wid a)
  | job_other a' : job_files a' = job_files a → live_jobs a' = live_jobs a → job_op parse restart a a'.

Lemma job_ops_settled parse restart jid j L a a' :
  (restart = true → ∀ o, L o) → (∀ x, L (Some x) → job_status x = JobRunning ∨ L None) →
  rtc (job_op parse restart) a a' → settled jid j L a → settled jid j L a'.
Proof.
  intros HL Hp. induction 1 as [|a1 a2 a3 Hop _ IH]; [done|]. intros Ha. apply IH. clear IH. destruct Hop.
  - by apply settled_finish_if_running.
  - by apply settled_finish_job.
  - by apply settled_over_workspace; [apply settled_cancel|].
  - apply (settled_over h jid j); [|done]. intros l Hl. apply settled_reap; [by apply others_run_filter|].
    apply list.Forall_forall. intros x (Hx & _)%list_elem_of_filter. unfold is_terminal. destruct Hx as [-> _]. done.
  - by apply (settled_over h jid j); [apply settled_reconcile|].
  - by apply settled_over_workspace; [apply settled_reconcile_workspace|].
  - apply settled_over_workspace; [|done]. apply refresh_settled.
  - apply (settled_over h jid j); [|done]. intros l _. apply settled_frame; [done|]. auto.
  - destruct Ha as (H1 & H2 & H3 & H4). split_and!; [done..|]. cbn. rewrite map_lookup_filter.
    destruct (live_jobs a1 !! jid) as [x|]; [|done]. cbn. case_guard; [done|]. cbn. destruct (Hp x H4); [|done]. tauto.
  - destruct Ha as (H1 & H2 & H3 & H4). unfold settled, filed. rewrite H, H0. by split_and!.
Qed.

(** The first outcome of a job is final as long as no two of the operations on its record
    overlap: once the record says exited, failed or cancelled, no later cancellation,
    time-out, reconciliation or report of its supervisor changes it, in whatever order they
    come, restarts of the daemon included.  (Nothing in the code keeps them apart:
    [stale_expiry_overwrites] is a time-out that waits while the supervisor reports.) *)
Theorem job_outcome_final parse a a' jid j :
  filed a → job_files a !! jid = Some j → is_terminal (job_status j) = true → rtc (job_op parse true) a a' →
  job_files a' !! jid = Some j.
Proof.
  intros Hf Hl Ht Hrun. by apply (job_ops_settled parse true jid j (λ _, True)) in Hrun as (_ & ? & _); auto.
Qed.

Lemma persist_job_Ok h j a u a' :
  persist_job h j a = (Ok u, a') → a' = with_files <[job_id j := j]> a.
Proof.
  intros H. unfold persist_job in H. apply stm_bind_Ok in H as (p & a1 & H1 & H). apply lift_Ok in H1 as [_ ->].
  apply stm_bind_Ok in H as (u1 & a2 & H2 & H). apply assert_Ok in H2 as (_ & _ & ->). by apply modify_Ok in H as [_ ->].
Qed.

Lemma persist_job_runs h j a :
  is_ok (job_path (job_id j)) = true → jh_persist h (job_id j) = true →
  persist_job h j a = (Ok tt, with_files <[job_id j := j]> a).
Proof.
  intros Hp Hw. unfold persist_job, mbind, stm_bind, lift. destruct (job_path (job_id j)); [|done]. by rewrite Hw.
Qed.

Definition cancelled_on_file (jid : string) (a : Activity) : Prop :=
  ∃ j, job_files a !! jid = Some j ∧ job_status j = JobCancelled.

Lemma cancel_each_effect h reason l a n a' jid :
  cancel_each h reason l a = (Ok n, a') →
  (filed a → filed a') ∧ live_jobs a' = live_jobs a ∧
  (cancelled_on_file jid a ∨ (∃ f, f ∈ l ∧ job_id f = jid ∧ is_terminal (job_status f) = false) →
   cancelled_on_file jid a').
Proof.
  revert a n. induction l as [|x l IH]; intros a n H; cbn in H.
  { apply mret_Ok in H as [_ ->]. split_and!; [done..|]. intros [?|(f & []%not_elem_of_nil & _)]. done. }
  destruct (is_terminal (job_status x)) eqn:Ht.
  { apply IH in H as (H0 & H1 & H2). split_and!; [done..|]. intros [?|(f & [->|Hin]%elem_of_cons & ? & ?)]; [auto|congruence|eauto 10]. }
  apply stm_bind_Ok in H as (u & a1 & Hp & H). apply persist_job_Ok in Hp as ->.
  apply stm_bind_Ok in H as (m & a2 & Hc & H). apply mret_Ok in H as [_ ->].
  apply IH in Hc as (H0 & H1 & H2). split_and!; [|done|].
  - intros Hf. apply H0. intros k y. cbn. rewrite lookup_insert_Some. intros [[<- <-]|[_ Hy]]; [done|by apply Hf].
  - intros Hcase. apply H2. destruct (decide (job_id x = jid)) as [Heq|Hne].
    + left. eexists. cbn. rewrite Heq, lookup_insert_eq. done.
    + destruct Hcase as [(j & Hj & ?)|(f & [->|Hin]%elem_of_cons & ? & ?)]; [left|done|right; eauto].
      exists j. cbn. by rewrite lookup_insert_ne.
Qed.

Lemma cancel_running_effect h sid wid reason a n a' jid f :
  cancel_running_for_workspace h sid wid reason a = (Ok n, a') → filed a →
  job_files a !! jid = Some f → owned_by sid wid f = true → is_terminal (job_status f) = false →
  filed a' ∧ live_jobs a' = live_jobs a ∧ cancelled_on_file jid a'.
Proof.
  intros H Hf Hl Ho Ht. unfold cancel_running_for_workspace in H. apply stm_bind_Ok in H as (l & a1 & Hls & H).
  unfold list_for_workspace in Hls. apply stm_bind_Ok in Hls as (l1 & a2 & Hls & H1). apply mret_Ok in H1 as [-> ->].
  destruct (elem_of_listed _ _ _ _ f Hls) as [-> Hin].
  apply (cancel_each_effect _ _ _ _ _ _ jid) in H as (H0 & H1 & H2). split_and!; [auto..|]. apply H2. right.
  exists f. split_and!; [|by apply Hf|done]. apply list_elem_of_filter. split; [done|]. apply Hin. eauto.
Qed.

(** Stopping a workspace can pin its next runtime for good.  The stop cancels
    the records of the jobs on disk but not the daemon's copies, and from then on
    nothing ever brings the two together: pruning keeps the copies because they
    still say running, the supervisor's report is dropped because the record
    already has an outcome, and the reconciliations only look at records that
    still run.  So a background job that was to keep its workspace running goes on
    doing so after it was cancelled, until the daemon restarts. *)
Theorem cancelled_job_pins_workspace parse h sid wid reason a n a1 a2 jid f j :
  filed a → job_files a !! jid = Some f → owned_by sid wid f = true → job_status f = JobRunning →
  live_jobs a !! jid = Some j → owned_by sid wid j = true → job_status j = JobRunning →
  mode j = Background → job_keep_running j = true →
  cancel_running_for_workspace h sid wid reason a = (Ok n, a1) →
  rtc (job_op parse false) (prune_terminal_jobs sid wid a1) a2 →
  cancelled_on_file jid a2 ∧ keeps_workspace_running sid wid a2 = true.
Proof.
  intros Hf Hfile Hof Hrf Hlive Hoj Hrj Hm Hk Hc Hrun.
  apply (cancel_running_effect _ _ _ _ _ _ _ jid f) in Hc as (Hf1 & Hlive1 & x & Hx & Hcx); [|done..|unfold is_terminal; by rewrite Hrf].
  assert (rtc (job_op parse false) a1 a2) as Hrun' by (eapply rtc_l; [apply job_prune|exact Hrun]).
  apply (job_ops_settled parse false jid x (λ o, o = Some j)) in Hrun' as (_ & H2 & _ & H4); [|done|intros y [= ->]; by left|].
  2:{ split_and!; [done..| |by rewrite Hlive1]. unfold is_terminal. by rewrite Hcx. }
  split; [by exists x|]. unfold keeps_workspace_running. apply existsb_exists. exists j. split.
  - apply list_elem_of_In, list_elem_of_filter. split; [done|]. apply elem_of_btree_values. eauto.
  - by rewrite Hm, Hk, Hrj.
Qed.

(** A command that is still running in the foreground is reported as failed: its
    record has no process identity until it ends, and a sweep takes a running
    record without one for a job whose process is gone. *)
Theorem sweep_fails_running_foreground h sid wid a j :
  filed a → job_files a = {[job_id j := j]} → owned_by sid wid j = true → job_status j = JobRunning →
  job_pid j = None → jh_list h = true → jh_persist h (job_id j) = true → is_ok (job_path (job_id j)) = true →
  ∃ a' j', reconcile_workspace_jobs h sid wid a = (Ok 1, a') ∧
    job_files a' !! job_id j = Some j' ∧ job_status j' = JobFailed.
Proof.
  intros Hf Hfiles Ho Hr Hp Hl Hw Hpath.
  assert (list_for_workspace h sid wid a = (Ok [j], a)) as E.
  { unfold list_for_workspace, list_jobs, mbind, stm_bind. rewrite Hl. cbn. rewrite Hfiles.
    assert (btree_list {[job_id j := j]} = [(job_id j, j)]) as Hb.
    { apply Permutation_singleton_r. rewrite btree_list_perm. by rewrite map_to_list_singleton. }
    unfold btree_values. rewrite Hb. cbn. by rewrite Ho. }
  set (j' := lost_job h "job process exited before its supervisor observed it" j).
  exists (update_job j' (with_files <[job_id j := j']> a)), j'. split_and!; [|exact (lookup_insert_eq (job_files a) (job_id j) j')|done].
  unfold reconcile_workspace_jobs. unfold mbind at 1, stm_bind at 1. rewrite E. cbn [reconcile_workspace_each].
  unfold is_terminal, job_alive. rewrite Hr, Hp, bool_decide_eq_true_2 by done. cbn [negb]. unfold mbind, stm_bind.
  fold j'. by rewrite (persist_job_runs h j' a).
Qed.

(** ** Concrete runs *)

(** A host on which everything works, with one live process. *)
Definition sample_jobs : job_host := mkJobHost true (λ _, true) "t9" (λ p t, (p =? 7) && (t =? 1)) (λ _ _, false) (λ _, true).
Definition sample_job (s : JobStatus) (p : option Z) : JobRecord :=
  mkJob "job-1" "s" "a" Background ["sleep"] "t0" None p p None s None None true None.
(** Seconds in the digits after the letter. *)
Definition sample_clock (s : string) : option Z :=
  if bool_decide (s = "t0") then Some 0 else if bool_decide (s = "t9") then Some 9000000000 else None.
Definition sample_idle (st : WorkspaceStatus) (window : Z) : WorkspaceMetadata :=
  mkWorkspace "a" "s" "web" "t0" (Some "t0") None (Some "t0") "/s/a" "" "/home" None "" "" "" "" ""
    [] None [] [] st None None default_refs false false (Some window) (Some window)
    (mkWsLimits None None None None None None) None.

Lemma busy_workspace_not_idle_witness :
  let w := sample_idle Running 5 in
  idle_candidate sample_clock sample_jobs None 9000000000 no_activity w = true ∧
  idle_candidate sample_clock sample_jobs None 9000000000 (acquire "s" "a" no_activity) w = false.
Proof.
  intros w. split; [by vm_compute|].
  apply (busy_workspace_not_idle sample_jobs sample_clock None 9000000000 (no_activity, []) _ ["s/a"] w);
    [apply leases_exact_start|apply rtc_once; exact (lease_take "s" "a" no_activity [])|by left|by vm_compute].
Defined.

Definition sample_fleet (w : WorkspaceMetadata) : Registry :=
  mkRegistry 1 0 {["s" := mkEntry (mkSandbox "s" "box" "stable" "" Debootstrap "t0" "/s" "/s/rootfs" None "" "" ""
    (mkSbLimits None None None None None) SbRunning) {[id w := w]}]}.

Lemma retention_is_kept_witness :
  let w := sample_idle Stopped 5 in
  destroy_candidates sample_clock None 9000000000 (sample_fleet w) = [w] ∧ 5 * 1000000000 ≤ 9000000000 - 0.
Proof.
  intros w. assert (destroy_candidates sample_clock None 9000000000 (sample_fleet w) = [w]) as E by by vm_compute.
  split; [exact E|].
  destruct (retention_is_kept sample_clock None 9000000000 (sample_fleet w) w)
    as (_ & _ & _ & t & stamp & stopped & [= <-] & _ & [= <-] & Hs & H); [rewrite E; by left|].
  vm_compute in Hs. injection Hs as <-. apply H. lia.
Defined.

Lemma huge_window_is_no_window_witness :
  let t := 9223372036854775808 in
  destroy_candidates sample_clock None 0 (sample_fleet (sample_idle Stopped t)) ≠ [] ∧
  destroy_candidate sample_clock None 0 (sample_idle Stopped t) = true ∧
  idle_candidate sample_clock sample_jobs None 0 no_activity (sample_idle Running t) = true.
Proof.
  intros t. assert (9223372036854775808 ≤ t ≤ u64_max) as Ht by (unfold t, u64_max; lia).
  split; [by vm_compute|]. split.
  - by apply (huge_window_is_no_window sample_clock sample_jobs None 0 no_activity (sample_idle Stopped t) t "t0" 0).
  - by apply (huge_window_is_no_window sample_clock sample_jobs None 0 no_activity (sample_idle Running t) t "t0" 0).
Defined.

Lemma filed_one j l e v : filed (mkActivity {[job_id j := j]} l e v).
Proof. intros k x H. cbn [job_files] in H. by apply lookup_singleton_Some in H as [<- <-]. Qed.

Lemma job_outcome_final_witness :
  let a := mkActivity {["job-1" := sample_job JobCancelled (Some 7)]} ∅ ∅ ∅ in
  job_files (finish_job sample_jobs "job-1" JobFailed (Some 9) None a).2 !! "job-1"
    = Some (sample_job JobCancelled (Some 7)).
Proof.
  intros a. apply (job_outcome_final sample_clock a).
  - apply (filed_one (sample_job JobCancelled (Some 7))).
  - done.
  - done.
  - apply rtc_once, job_finish.
Defined.

(** A time-out works on the record it listed: when the supervisor reports the end of the command while
    the time-out waits for the group, the report is overwritten. *)
Lemma stale_expiry_overwrites :
  let listed := mkJob "job-1" "s" "a" Background ["sleep"] "t0" None (Some 7) (Some 1) (Some 7) JobRunning None None true None in
  let reported := (finish_job sample_jobs "job-1" JobExited (Some 0) None (mkActivity {["job-1" := listed]} ∅ ∅ ∅)).2 in
  (job_status <$> job_files reported !! "job-1") = Some JobExited ∧
  (job_status <$> job_files (reap_job sample_jobs listed reported).2 !! "job-1") = Some JobCancelled.
Proof. by vm_compute. Qed.

Lemma cancelled_job_pins_workspace_witness :
  let j := sample_job JobRunning (Some 7) in
  let a := mkActivity {["job-1" := j]} ∅ ∅ {["job-1" := j]} in
  let a1 := prune_terminal_jobs "s" "a" (cancel_running_for_workspace sample_jobs "s" "a" "workspace stopped" a).2 in
  let a2 := (finish_job sample_jobs "job-1" JobFailed (Some 9) None a1).2 in
  keeps_workspace_running "s" "a" a2 = true ∧ idle_candidate sample_clock sample_jobs None 9000000000 a2 (sample_idle Running 5) = false.
Proof.
  intros j a a1 a2. assert (keeps_workspace_running "s" "a" a2 = true) as H.
  { refine (proj2 (cancelled_job_pins_workspace sample_clock sample_jobs "s" "a" "workspace stopped" a 1
      (cancel_running_for_workspace sample_jobs "s" "a" "workspace stopped" a).2 a2 "job-1" j j
      _ eq_refl eq_refl eq_refl eq_refl eq_refl eq_refl eq_refl eq_refl _ _)).
    - apply (filed_one j).
    - by vm_compute.
    - apply rtc_once, job_finish. }
  split; [exact H|]. unfold idle_candidate. cbn [idle_threshold idle_stop_after_secs sample_idle sandbox_id id]. by rewrite H.
Defined.

Lemma sweep_fails_running_foreground_witness :
  let j := mkJob "job-1" "s" "a" Foreground ["make"] "t0" None None None None JobRunning None None false None in
  ∃ a' j', reconcile_workspace_jobs sample_jobs "s" "a" (mkActivity {["job-1" := j]} ∅ ∅ ∅) = (Ok 1, a') ∧
    job_files a' !! "job-1" = Some j' ∧ job_status j' = JobFailed.
Proof.
  intros j. apply (sweep_fails_running_foreground sample_jobs "s" "a" (mkActivity {["job-1" := j]} ∅ ∅ ∅) j); try done.
  apply (filed_one j).
Defined.
