(* ===== verification/Publish.v ===== *)
(** * Published ports in the daemon (src/src/network/publish/)

    The publisher owns the host listeners of the running workspaces and the threads that
    serve them.  This file models the publisher's tables and the sockets behind them, and
    the way a withdrawal reaches connection threads that are blocked in a read. *)
From S2P Require Import Prelude RustStr Ports Types Registry Records.

(** ** The publisher (publisher/types.rs, publication.rs) *)

(** [WorkspacePublishKey] *)
Abbreviation publish_key := (string * string)%type.

(** A listener with its accept thread. *)
Record ActivePublication := mkPublication { pub_key : publish_key; pub_spec : PublishedPortSpec; pub_ip : string }.
Definition pub_status (p : ActivePublication) : PublishedPortStatus := status_active (pub_spec p) (pub_ip p).

(** The tables, and the sockets the process has bound. *)
Record publisher := mkPublisher {
  active : gmap publish_key (list ActivePublication);
  failed : gmap publish_key (list PublishedPortStatus);
  listening : gmap (string * Z) ActivePublication }.
Definition new_publisher : publisher := mkPublisher ∅ ∅ ∅.

Inductive PublishMode := Strict | BestEffort.

Definition address (s : PublishedPortSpec) : string * Z := (spec_host_ip s, spec_host_port s).
Definition pub_address (p : ActivePublication) : string * Z := address (pub_spec p).

Definition set_tables (a : gmap publish_key (list ActivePublication)) (f : gmap publish_key (list PublishedPortStatus))
    (s : publisher) : publisher := mkPublisher a f (listening s).
Definition set_listening (l : gmap (string * Z) ActivePublication) (s : publisher) : publisher :=
  mkPublisher (active s) (failed s) l.

Section publisher.
(** Whether the system gives the address to the process: a listener of another process
    may have it. *)
Context (free : PublishedPortSpec → bool).

(** [ActivePublication::bind]: the address must not be bound, by the daemon either. *)
Definition bind (key : publish_key) (ip : string) (spec : PublishedPortSpec) : stm publisher ActivePublication :=
  s ← get;
  if bool_decide (is_Some (listening s !! address spec)) || negb (free spec)
  then throw "failed to publish: host port already in use"
  else
    let p := mkPublication key spec ip in
    modify (λ s, set_listening (<[address spec := p]> (listening s)) s);;
    mret p.

(** [ActivePublication::shutdown]: the accept thread ends and its listener closes. *)
Definition shutdown (p : ActivePublication) : stm publisher unit :=
  modify (λ s, set_listening (delete (pub_address p) (listening s)) s).
Fixpoint shutdown_publications (l : list ActivePublication) : stm publisher unit :=
  match l with [] => mret tt | p :: l' => shutdown p;; shutdown_publications l' end.

Definition take_active_publications (key : publish_key) : stm publisher (list ActivePublication) :=
  s ← get;
  modify (set_tables (delete key (active s)) (delete key (failed s)));;
  mret (default [] (active s !! key)).
Definition clear_failed_statuses (key : publish_key) : stm publisher unit :=
  modify (λ s, set_tables (active s) (delete key (failed s)) s).
(** Publications that the insertion replaces are dropped, which shuts them down. *)
Definition store_workspace_state (key : publish_key) (a : list ActivePublication) (f : list PublishedPortStatus)
    : stm publisher unit :=
  s ← get;
  shutdown_publications (default [] (active s !! key));;
  modify (λ s, set_tables
    (if bool_decide (a = []) then delete key (active s) else <[key := a]> (active s))
    (if bool_decide (f = []) then delete key (failed s) else <[key := f]> (failed s)) s).

Fixpoint bind_each (key : publish_key) (ip : string) (mode : PublishMode) (bound : list ActivePublication)
    (failures : list PublishedPortStatus) (specs : list PublishedPortSpec)
    : stm publisher (list ActivePublication * list PublishedPortStatus) :=
  match specs with
  | [] => mret (bound, failures)
  | spec :: rest =>
      r ← catch (bind key ip spec);
      match r with
      | Ok p => bind_each key ip mode (bound ++ [p]) failures rest
      | Err e =>
          match mode with
          | Strict => shutdown_publications bound;; clear_failed_statuses key;; lift (Err e)
          | BestEffort => bind_each key ip mode bound (failures ++ [status_failed spec (error_text e)]) rest
          end
      end
  end.

Definition apply_workspace_ports (sandbox_id workspace_id workspace_ip : string) (specs : list PublishedPortSpec)
    (mode : PublishMode) : stm publisher (list PublishedPortStatus) :=
  lift (validate_published_ports specs);;
  let key := (sandbox_id, workspace_id) in
  old ← take_active_publications key;
  shutdown_publications old;;
  r ← bind_each key workspace_ip mode [] [] specs;
  store_workspace_state key r.1 r.2;;
  mret ((pub_status <$> r.1) ++ r.2).

Definition clear_workspace_ports (sandbox_id workspace_id : string) : stm publisher unit :=
  old ← take_active_publications (sandbox_id, workspace_id);
  shutdown_publications old.
End publisher.

(** ** What is served (publisher/report.rs) *)

Definition has_active_workspace_ports (sandbox_id workspace_id : string) (s : publisher) : bool :=
  match active s !! (sandbox_id, workspace_id) with Some (_ :: _) => true | _ => false end.
Definition status_le (a b : PublishedPortStatus) : bool :=
  match String.compare (status_host_ip a) (status_host_ip b) with
  | Lt => true
  | Gt => false
  | Eq =>
      if status_host_port a =? status_host_port b then
        if status_workspace_port a =? status_workspace_port b
        then match String.compare (status_protocol a) (status_protocol b) with Gt => false | _ => true end
        else status_workspace_port a <? status_workspace_port b
      else status_host_port a <? status_host_port b
  end%Z.
Definition workspace_statuses (sandbox_id workspace_id : string) (s : publisher) : list PublishedPortStatus :=
  let key := (sandbox_id, workspace_id) in
  sort_by status_le ((pub_status <$> default [] (active s !! key)) ++ default [] (failed s !! key)).

(** * The publisher owns its listeners *)

(** While a call holds publications of [key] in its hands: the sockets are those of the
    tables and those it holds, and every publication is filed under its own workspace. *)
Record pub_inv (key : publish_key) (held : list ActivePublication) (s : publisher) : Prop := {
  inv_sockets : ∀ a p, listening s !! a = Some p ↔
    pub_address p = a ∧ (p ∈ held ∨ ∃ l, active s !! pub_key p = Some l ∧ p ∈ l);
  inv_filed : ∀ k l p, active s !! k = Some l → p ∈ l → pub_key p = k;
  inv_some : ∀ k l, active s !! k = Some l → l ≠ [] ∧ NoDup l;
  inv_held : Forall (λ p, pub_key p = key) held ∧ NoDup held;
  inv_out : held = [] ∨ active s !! key = None }.

Lemma pub_inv_key key key' s : pub_inv key [] s → pub_inv key' [] s.
Proof. intros [? ? ? ? ?]. split; try done. split; constructor. by left. Qed.

Lemma new_publisher_inv key : pub_inv key [] new_publisher.
Proof.
  split; cbn; try done.
  - intros a p. split; [done|]. intros [_ [?%not_elem_of_nil|(l & ? & _)]]; done.
  - split; constructor.
  - by left.
Qed.

Lemma shutdown_inv key p held s : pub_inv key (p :: held) s → pub_inv key held (set_listening (delete (pub_address p) (listening s)) s).
Proof.
  intros [S F N [H1 H2] O]. apply list.Forall_cons in H1 as [Hp H1]. apply list.NoDup_cons in H2 as [Hn H2].
  assert (active s !! key = None) as Hout by by destruct O.
  assert (listening s !! pub_address p = Some p) as Hl by (apply S; split; [done|]; left; by left).
  split; cbn; try done; [|by right]. intros a q. rewrite lookup_delete_Some, S. split.
  - intros [Hne [Ha [[->|Hin]%elem_of_cons|Hin]]]; [done|by split; [|left]|by split; [|right]].
  - intros [<- Hin]. split; [|split; [done|]; destruct Hin; [left; by right|by right]].
    intros E. assert (listening s !! pub_address q = Some q) as Hq.
    { apply S. split; [done|]. destruct Hin; [left; by right|by right]. }
    rewrite <- E, Hl in Hq. injection Hq as <-. destruct Hin as [?|(l & El & _)]; [done|]. by rewrite Hp, Hout in El.
Qed.
Lemma shutdown_all_inv key held s : pub_inv key held s →
  ∃ s', shutdown_publications held s = (Ok tt, s') ∧ pub_inv key [] s' ∧ active s' = active s ∧ failed s' = failed s.
Proof.
  revert s. induction held as [|p held IH]; intros s H; cbn; [by exists s|]. apply shutdown_inv in H.
  destruct (IH _ H) as (s' & E & H' & Ha & Hf). exists s'. done.
Qed.

Lemma take_inv key s : pub_inv key [] s →
  let '(r, s') := take_active_publications key s in
  ∃ old, r = Ok old ∧ pub_inv key old s' ∧ active s' = delete key (active s) ∧ failed s' = delete key (failed s).
Proof.
  intros [S F N _ _]. cbn. eexists. split; [done|]. split; [|done].
  assert (∀ p, p ∈ default [] (active s !! key) ↔ ∃ l, active s !! key = Some l ∧ p ∈ l) as Hold.
  { intros p. destruct (active s !! key) as [l|]; cbn; [split; [by exists l|]; by intros (? & [= <-] & ?)|].
    split; [by intros ?%not_elem_of_nil|]. by intros (? & [=] & _). }
  split; cbn.
  - intros a p. rewrite S, Hold. split; (intros [Ha Hp]; split; [done|]).
    + destruct Hp as [?%not_elem_of_nil|(l & El & Hp)]; [done|]. destruct (decide (pub_key p = key)) as [Hk|Hne];
        [rewrite Hk in El; left; eauto|].
      right. exists l. by rewrite lookup_delete_ne.
    + right. destruct Hp as [(l & El & Hp)|(l & El & Hp)].
      * rewrite (F _ _ _ El Hp). eauto.
      * apply lookup_delete_Some in El as [_ El]. eauto.
  - intros k l p [_ El]%lookup_delete_Some. by eapply F.
  - intros k l [_ El]%lookup_delete_Some. by eapply N.
  - destruct (active s !! key) as [l|] eqn:El; cbn; [|by split; constructor]. split; [|by eapply N].
    apply list.Forall_forall. intros p Hp. by eapply F.
  - right. by rewrite lookup_delete_eq.
Qed.

Section serving.
Context (free : PublishedPortSpec → bool).

Lemma bind_inv key ip spec held s r s' : pub_inv key held s → active s !! key = None → bind free key ip spec s = (r, s') →
  match r with
  | Ok p => p = mkPublication key spec ip ∧ pub_inv key (held ++ [p]) s' ∧ active s' = active s ∧ failed s' = failed s
  | Err _ => s' = s
  end.
Proof.
  intros [S F N [H1 H2] O] Hout. unfold bind, get, modify, mbind, stm_bind. destruct (_ || _) eqn:E.
  { by intros [= <- <-]. }
  apply orb_false_iff in E as [E%bool_decide_eq_false _]. intros [= <- <-]. split; [done|]. split; [|done].
  assert (listening s !! address spec = None) as Hfree by (destruct (listening s !! address spec) eqn:Ea; [destruct E; by eexists|done]).
  set (p := mkPublication key spec ip). split; cbn; try done.
  - intros a q. rewrite lookup_insert. case_decide as Ha.
    + subst a. split.
      * intros [= <-]. split; [done|]. left. rewrite elem_of_app, list_elem_of_singleton. by right.
      * intros [Ha Hq]. assert (q = p) as ->; [|done]. destruct Hq as [[Hq|Hq%list_elem_of_singleton]%elem_of_app|Hq]; [|done|];
          (assert (listening s !! address spec = Some q) as Hs; [apply S; auto|congruence]).
    + rewrite S. split; (intros [Hq Hp]; split; [done|]); [destruct Hp as [?|?]; [left|by right]; rewrite elem_of_app; by left|].
      destruct Hp as [[Hp|Hp%list_elem_of_singleton]%elem_of_app|Hp]; [by left|subst q; done|by right].
  - split; [apply Forall_app; by split; [|constructor]|]. apply list.NoDup_app. split; [done|]. split; [|by apply NoDup_singleton].
    intros q Hq ->%list_elem_of_singleton. assert (listening s !! address spec = Some p) as Hs; [|congruence].
    apply S. split; [done|by left].
  - by right.
Qed.

(** What the loop over the specifications leaves: publications and failures that
    together answer for every specification, or nothing. *)
Lemma bind_each_inv key ip mode specs bound failures s r s' :
  pub_inv key bound s → active s !! key = None → failed s !! key = None →
  bind_each free key ip mode bound failures specs s = (r, s') →
  active s' = active s ∧ failed s' = failed s ∧
  match r with
  | Ok (b, f) => pub_inv key b s' ∧ ∃ new bad, b = bound ++ new ∧ f = failures ++ bad ∧
      Forall (λ p, pub_ip p = ip) new ∧ (mode = Strict → bad = [] ∧ pub_spec <$> new = specs) ∧
      spec_binding <$> specs ≡ₚ (spec_binding <$> (pub_spec <$> new)) ++ (status_binding <$> bad)
  | Err _ => mode = Strict ∧ pub_inv key [] s'
  end.
Proof.
  revert bound failures s. induction specs as [|spec specs IH]; intros bound failures s H Ha Hf; cbn [bind_each].
  { intros [= <- <-]. do 2 (split; [done|]). split; [done|]. exists [], []. rewrite !app_nil_r. done. }
  unfold mbind at 1, stm_bind at 1. unfold catch at 1.
  destruct (bind free key ip spec s) as [[p|e] s1] eqn:Eb.
  - destruct (bind_inv _ _ _ _ _ _ _ H Ha Eb) as (-> & H1 & Ha1 & Hf1). intros E.
    rewrite <- Ha1 in Ha. rewrite <- Hf1 in Hf. destruct (IH _ _ _ H1 Ha Hf E) as (Ha2 & Hf2 & Hr).
    split; [congruence|]. split; [congruence|]. destruct r as [[b f]|e]; [|done].
    destruct Hr as (H2 & new & bad & -> & -> & Hip & Hs & Hc). split; [done|].
    exists (mkPublication key spec ip :: new), bad. rewrite <- app_assoc. split; [done|]. split; [done|].
    split; [by constructor|]. split; [intros [-> <-]%Hs; done|]. cbn. by rewrite Hc.
  - pose proof (bind_inv _ _ _ _ _ _ _ H Ha Eb) as ->. destruct mode.
    + destruct (shutdown_all_inv _ _ _ H) as (s2 & E2 & H2 & Ha2 & Hf2). unfold mbind, stm_bind. rewrite E2.
      cbn. intros [= <- <-]. cbn. split; [done|]. split; [rewrite Hf2; by apply delete_id|]. split; [done|].
      destruct H2 as [S2 F2 N2 [I2 J2] O2]. by split.
    + intros E. destruct (IH _ _ _ H Ha Hf E) as (Ha2 & Hf2 & Hr). split; [done|]. split; [done|].
      destruct r as [[b f]|e']; [|done]. destruct Hr as (H2 & new & bad & -> & -> & Hip & Hs & Hc). split; [done|].
      exists new, (status_failed spec (error_text e) :: bad). rewrite <- app_assoc. split; [done|]. split; [done|].
      split; [done|]. split; [done|]. cbn. rewrite Hc. by rewrite Permutation_middle.
Qed.

Lemma store_inv key b f s : pub_inv key b s → active s !! key = None → failed s !! key = None →
  ∃ s', store_workspace_state key b f s = (Ok tt, s') ∧ pub_inv key [] s' ∧
    active s' = (if bool_decide (b = []) then active s else <[key := b]> (active s)) ∧
    failed s' = (if bool_decide (f = []) then failed s else <[key := f]> (failed s)).
Proof.
  intros [S F N [H1 H2] O] Ha Hf. unfold store_workspace_state, get, modify, mbind, stm_bind. rewrite Ha. cbn. eexists.
  split; [done|]. cbn. rewrite !delete_id by done. split; [|done].
  rewrite list.Forall_forall in H1. case_bool_decide as Hb; [subst b; split; try done; by left|]. split; cbn.
  - intros a p. rewrite S. split; (intros [Hp Hin]; split; [done|]).
    + right. destruct Hin as [Hin|(l & El & Hin)].
      * exists b. rewrite (H1 _ Hin), lookup_insert_eq. done.
      * exists l. rewrite lookup_insert_ne; [done|]. intros E. rewrite <- E in El. congruence.
    + destruct Hin as [?%not_elem_of_nil|(l & El & Hin)]; [done|].
      apply lookup_insert_Some in El as [[_ <-]|[_ El]]; [by left|right; eauto].
  - intros k l p [[<- <-]|[_ El]]%lookup_insert_Some Hp; [auto|by eapply F].
  - intros k l [[<- <-]|[_ El]]%lookup_insert_Some; [done|by eapply N].
  - split; constructor.
  - by left.
Qed.

(** A whole call, with the publications and the failures it made. *)
Lemma apply_spec sandbox_id workspace_id ip specs mode s r s' :
  let key := (sandbox_id, workspace_id) in
  pub_inv key [] s → apply_workspace_ports free sandbox_id workspace_id ip specs mode s = (r, s') →
  pub_inv key [] s' ∧ (∀ k, k ≠ key → active s' !! k = active s !! k ∧ failed s' !! k = failed s !! k) ∧
  match r with
  | Ok statuses => ∃ new bad, statuses = (pub_status <$> new) ++ bad ∧
      Forall (λ p, pub_ip p = ip) new ∧ (mode = Strict → bad = [] ∧ pub_spec <$> new = specs) ∧
      spec_binding <$> specs ≡ₚ (spec_binding <$> (pub_spec <$> new)) ++ (status_binding <$> bad) ∧
      default [] (active s' !! key) = new ∧ default [] (failed s' !! key) = bad
  | Err _ =>
      (is_ok (validate_published_ports specs) = false ∧ s' = s) ∨
      (mode = Strict ∧ active s' !! key = None ∧ failed s' !! key = None)
  end.
Proof.
  intros key H. unfold apply_workspace_ports. fold key. unfold mbind at 1, stm_bind at 1. cbn.
  destruct (validate_published_ports specs) as [[]|e]; [|intros [= <- <-]; split_and!; try done; left; done].
  pose proof (take_inv key s H) as Ht. unfold mbind at 1, stm_bind at 1.
  destruct (take_active_publications key s) as [r0 s0]. destruct Ht as (old & -> & H0 & Ha0 & Hf0).
  destruct (shutdown_all_inv _ _ _ H0) as (s1 & E1 & H1 & Ha1 & Hf1). unfold mbind at 1, stm_bind at 1. rewrite E1.
  assert (active s1 !! key = None) as Hka by (rewrite Ha1, Ha0; apply lookup_delete_eq).
  assert (failed s1 !! key = None) as Hkf by (rewrite Hf1, Hf0; apply lookup_delete_eq).
  assert (∀ k, k ≠ key → active s1 !! k = active s !! k ∧ failed s1 !! k = failed s !! k) as Hother
    by (intros k Hk; rewrite Ha1, Hf1, Ha0, Hf0, !lookup_delete_ne; done).
  unfold mbind at 1, stm_bind at 1. destruct (bind_each free key ip mode [] [] specs s1) as [[[b f]|e] s2] eqn:E2;
    destruct (bind_each_inv _ _ _ _ _ _ _ _ _ H1 Hka Hkf E2) as (Ha2 & Hf2 & Hr).
  - destruct Hr as (H2 & new & bad & -> & -> & Hip & Hs & Hc). cbn [app fst snd] in *.
    rewrite <- Ha2 in Hka. rewrite <- Hf2 in Hkf.
    destruct (store_inv key new bad s2 H2 Hka Hkf) as (s3 & E3 & H3 & Ha3 & Hf3). unfold mbind, stm_bind. rewrite E3.
    intros [= <- <-]. split; [done|]. split.
    { intros k Hk. destruct (Hother k Hk) as [<- <-]. rewrite Ha3, Hf3, <- Ha2, <- Hf2. clear Ha3 Hf3.
      split; case_bool_decide; [done|by rewrite lookup_insert_ne|done|by rewrite lookup_insert_ne]. }
    exists new, bad. split_and!; try done.
    + rewrite Ha3. clear Ha3 Hf3. case_bool_decide as Hn; [rewrite Hka; by subst new|by rewrite lookup_insert_eq].
    + rewrite Hf3. clear Ha3 Hf3. case_bool_decide as Hn; [rewrite Hkf; by subst bad|by rewrite lookup_insert_eq].
  - intros [= <- <-]. destruct Hr as [-> H2]. split; [done|]. rewrite Ha2, Hf2. split; [done|]. by right.
Qed.


Lemma clear_inv sandbox_id workspace_id s : let key := (sandbox_id, workspace_id) in
  pub_inv key [] s → ∃ s', clear_workspace_ports sandbox_id workspace_id s = (Ok tt, s') ∧ pub_inv key [] s' ∧
    active s' = delete key (active s) ∧ failed s' = delete key (failed s).
Proof.
  intros key H. unfold clear_workspace_ports. fold key. pose proof (take_inv key s H) as Ht. unfold mbind, stm_bind.
  destruct (take_active_publications key s) as [r0 s0]. destruct Ht as (old & -> & H0 & Ha0 & Hf0).
  destruct (shutdown_all_inv _ _ _ H0) as (s1 & E1 & H1 & Ha1 & Hf1). exists s1. rewrite E1, Ha1, Hf1. done.
Qed.
End serving.

(** ** Any sequence of calls *)

Inductive publisher_op :=
  | ApplyPorts (free : PublishedPortSpec → bool) (sandbox_id workspace_id ip : string) (specs : list PublishedPortSpec)
      (mode : PublishMode)
  | ClearPorts (sandbox_id workspace_id : string).
Definition run_publisher_op (s : publisher) (o : publisher_op) : publisher :=
  match o with
  | ApplyPorts free sid wid ip specs mode => (apply_workspace_ports free sid wid ip specs mode s).2
  | ClearPorts sid wid => (clear_workspace_ports sid wid s).2
  end.

Lemma run_publisher_inv ops s key : pub_inv key [] s → pub_inv key [] (foldl run_publisher_op s ops).
Proof.
  revert s. induction ops as [|o ops IH]; intros s H; cbn; [done|]. apply IH. destruct o as [free sid wid ip specs mode|sid wid]; cbn.
  - destruct (apply_workspace_ports free sid wid ip specs mode s) as [r s'] eqn:E.
    eapply pub_inv_key, apply_spec; [|exact E]. by eapply pub_inv_key.
  - destruct (clear_inv sid wid s) as (s' & -> & H' & _); [by eapply pub_inv_key|]. by eapply pub_inv_key.
Qed.

(** The publisher knows every listener.  After any sequence of publications and
    withdrawals, whatever could be bound: a socket is open exactly when its publication
    is filed under its workspace, no workspace is filed with an empty list, and so a
    workspace that reports no active ports has no listener at all. *)
Theorem listeners_are_filed ops sandbox_id workspace_id :
  let s := foldl run_publisher_op new_publisher ops in
  (∀ a p, listening s !! a = Some p ↔ pub_address p = a ∧ ∃ l, active s !! pub_key p = Some l ∧ p ∈ l) ∧
  (has_active_workspace_ports sandbox_id workspace_id s = false ↔
     ∀ a p, listening s !! a = Some p → pub_key p ≠ (sandbox_id, workspace_id)) ∧
  (let s' := (clear_workspace_ports sandbox_id workspace_id s).2 in
     has_active_workspace_ports sandbox_id workspace_id s' = false ∧
     ∀ a p, listening s' !! a = Some p → pub_key p ≠ (sandbox_id, workspace_id)).
Proof.
  cbv zeta. set (s := foldl _ _ _). assert (∀ key, pub_inv key [] s) as H by (intros; apply run_publisher_inv, new_publisher_inv).
  assert (∀ s, pub_inv (sandbox_id, workspace_id) [] s → (∀ a p, listening s !! a = Some p ↔ pub_address p = a ∧ ∃ l, active s !! pub_key p = Some l ∧ p ∈ l)) as Hs.
  { intros s0 [S _ _ _ _] a p. rewrite S. split; (intros [? Hp]; split; [done|]); [|by right].
    by destruct Hp as [?%not_elem_of_nil|]. }
  assert (∀ s, pub_inv (sandbox_id, workspace_id) [] s → has_active_workspace_ports sandbox_id workspace_id s = false ↔
     ∀ a p, listening s !! a = Some p → pub_key p ≠ (sandbox_id, workspace_id)) as Hact.
  { intros s0 H0. unfold has_active_workspace_ports. split.
    - intros Hn a p (_ & l & El & Hp)%Hs Hk; [|done]. rewrite Hk in El. rewrite El in Hn. destruct l; [by apply not_elem_of_nil in Hp|done].
    - intros Hn. destruct (active s0 !! (sandbox_id, workspace_id)) as [[|p l]|] eqn:El; [done| |done].
      assert (p ∈ p :: l) as Hp by by left. pose proof (inv_filed _ _ _ H0 _ _ _ El Hp) as Hk.
      destruct (Hn (pub_address p) p); [|done]. apply Hs; [done|]. split; [done|]. exists (p :: l). by rewrite Hk. }
  split; [by apply Hs|]. split; [by apply Hact|].
  destruct (clear_inv sandbox_id workspace_id s (H _)) as (s' & -> & H' & Ha & _). cbn [snd].
  assert (has_active_workspace_ports sandbox_id workspace_id s' = false) as Hn
    by (unfold has_active_workspace_ports; by rewrite Ha, lookup_delete_eq).
  split; [done|]. by apply Hact.
Qed.

Definition sample_spec (port : Z) : PublishedPortSpec := mkSpec "127.0.0.1" port 80 "tcp".

(** ** Connections (proxy.rs, connection.rs) *)

(** One direction of a proxied connection ([copy_until_shutdown]): about to look at the
    shutdown flag, blocked in a read, or over. *)
Inductive copier := Looking | Reading | Over.
(** A connection thread: whether it is registered in the [ConnectionSet], whether its
    sockets were shut down, and its two directions; before its registration it has none.
    The registration fails, and the connection runs on, when a socket cannot be duplicated. *)
Record connection := mkConnection {
  registered : bool;
  sockets_down : bool;
  copiers : option (copier * copier) }.
Record served_port := mkPort { stop_flag : bool; withdrawn : bool; connections : list connection }.

(** [shutdown_all] *)
Definition shutdown_all (l : list connection) : list connection :=
  (λ c, if registered c then mkConnection true true (copiers c) else c) <$> l.

Definition look (flag : bool) : copier := if flag then Over else Reading.

Inductive port_step : served_port → served_port → Prop :=
  | port_accepts s : stop_flag s = false →
      port_step s (mkPort (stop_flag s) (withdrawn s) (mkConnection false false None :: connections s))
  | port_registers s l1 l2 r : connections s = l1 ++ mkConnection false false None :: l2 →
      port_step s (mkPort (stop_flag s) (withdrawn s) (l1 ++ mkConnection r false (Some (Looking, Looking)) :: l2))
  | port_gives_up s l1 l2 : connections s = l1 ++ mkConnection false false None :: l2 →
      port_step s (mkPort (stop_flag s) (withdrawn s) (l1 ++ l2))
  | port_looks s l1 l2 r d other up : connections s = l1 ++ mkConnection r d (Some (if up : bool then (Looking, other) else (other, Looking))) :: l2 →
      port_step s (mkPort (stop_flag s) (withdrawn s)
        (l1 ++ mkConnection r d (Some (if up then (look (stop_flag s), other) else (other, look (stop_flag s)))) :: l2))
  | port_reads s l1 l2 r d other up next : connections s = l1 ++ mkConnection r d (Some (if up : bool then (Reading, other) else (other, Reading))) :: l2 →
      next = Looking ∨ next = Over → (d = true → next = Over) →
      port_step s (mkPort (stop_flag s) (withdrawn s)
        (l1 ++ mkConnection r d (Some (if up then (next, other) else (other, next))) :: l2))
  | port_leaves s l1 l2 r d : connections s = l1 ++ mkConnection r d (Some (Over, Over)) :: l2 →
      port_step s (mkPort (stop_flag s) (withdrawn s) (l1 ++ l2))
  | port_stops s : port_step s (mkPort true (withdrawn s) (connections s))
  | port_withdraws s : stop_flag s = true → port_step s (mkPort true true (shutdown_all (connections s))).

(** No direction of the connection is left blocked. *)
Definition woken (c : connection) : Prop :=
  sockets_down c = true ∨ match copiers c with Some (a, b) => a ≠ Reading ∧ b ≠ Reading | None => True end.
Definition port_inv (s : served_port) : Prop :=
  withdrawn s = true → stop_flag s = true ∧ Forall (λ c, registered c = true → woken c) (connections s).

Lemma port_step_inv s s' : port_inv s → port_step s s' → port_inv s'.
Proof.
  unfold port_inv. intros Hs Hstep. revert Hs.
  destruct Hstep as [s Hf|s l1 l2 r E|s l1 l2 E|s l1 l2 r d o up E|s l1 l2 r d o up next E Hn Hd|s l1 l2 r d E|s|s Hf];
    intros Hw H; cbn in *; try rewrite E in Hw; rewrite ?Forall_app, ?list.Forall_cons in *.
  - destruct (Hw H). congruence.
  - destruct (Hw H) as (Hfl & H1 & _ & H2). split_and!; [done|done| |done]. intros _. by right.
  - naive_solver.
  - destruct (Hw H) as (Hfl & H1 & Hc & H2). split_and!; [done|done| |done]. rewrite Hfl. unfold look, woken in *. cbn in *.
    destruct up; naive_solver.
  - destruct (Hw H) as (Hfl & H1 & Hc & H2). split_and!; [done|done| |done]. unfold woken in *. cbn in *.
    destruct up; naive_solver.
  - naive_solver.
  - naive_solver.
  - split; [done|]. unfold shutdown_all. apply Forall_fmap, list.Forall_forall. intros [r d c] _. cbn. destruct r; cbn; [by left|done].
Qed.

(** A withdrawal reaches every connection.  However accepts, registrations, reads
    and the withdrawal of a port interleave: once the port is withdrawn, no direction of
    a registered connection is blocked in a read whose sockets are still open, and
    whichever looks at the flag next is over. *)
Theorem withdrawal_wakes_connections s :
  rtc port_step (mkPort false false []) s → withdrawn s = true →
  look (stop_flag s) = Over ∧
  ∀ c a b, c ∈ connections s → registered c = true → sockets_down c = false →
    copiers c = Some (a, b) → a ≠ Reading ∧ b ≠ Reading.
Proof.
  intros Hs Hw. assert (port_inv s) as Hi.
  { assert (port_inv (mkPort false false [])) as H0 by done. revert H0. clear Hw. induction Hs; eauto using port_step_inv. }
  destruct (Hi Hw) as [Hf Hwo]. rewrite list.Forall_forall in Hwo. split; [by rewrite Hf|]. intros c a b Hc Hr Hd Hab.
  destruct (Hwo c Hc Hr) as [?|H]; [congruence|]. by rewrite Hab in H.
Qed.
Lemma withdrawal_wakes_connections_witness :
  ∃ s, rtc port_step (mkPort false false []) s ∧ withdrawn s = true ∧
    connections s = [mkConnection true true (Some (Reading, Looking))] ∧ look (stop_flag s) = Over.
Proof.
  assert (rtc port_step (mkPort false false []) (mkPort true true [mkConnection true true (Some (Reading, Looking))])) as Hs.
  { eapply rtc_l; [by apply port_accepts|]. eapply rtc_l; [by apply (port_registers _ [] [] true)|].
    eapply rtc_l; [by apply (port_looks _ [] [] true false Looking true)|].
    eapply rtc_l; [apply port_stops|]. eapply rtc_l; [by apply port_withdraws|]. apply rtc_refl. }
  eexists. split; [exact Hs|]. split; [done|]. split; [done|]. by destruct (withdrawal_wakes_connections _ Hs eq_refl).
Defined.

(** ** The accept loop *)

Inductive poll_answer := PollTimeout | PollReady | PollInterrupted | PollError.
(** What the loop does: reap connections that have been quiet for the idle timeout, and
    accept. *)
Inductive port_action := ReapIdle | AcceptOne.

(** [wait_for_accept], over the flag and the answer at each turn: the outcome, if there
    is one yet, and the answers left. *)
Fixpoint wait_for_accept (events : list (bool * poll_answer)) : option bool * list (bool * poll_answer) :=
  match events with
  | [] => (None, [])
  | (true, _) :: rest => (Some false, rest)
  | (false, PollReady) :: rest => (Some true, rest)
  | (false, PollError) :: rest => (Some false, rest)
  | (false, (PollTimeout | PollInterrupted)) :: rest => wait_for_accept rest
  end.
(** [run_accept_loop]; every accept consumes answers, so their number bounds the turns. *)
Fixpoint accept_loop (fuel : nat) (events : list (bool * poll_answer)) : list port_action :=
  match fuel with
  | O => []
  | S fuel =>
      match wait_for_accept events with
      | (Some true, rest) => ReapIdle :: AcceptOne :: accept_loop fuel rest
      | _ => []
      end
  end.
Definition run_accept_loop (events : list (bool * poll_answer)) : list port_action := accept_loop (S (length events)) events.

(** Quiet connections of a port that nobody connects to are never reaped: the wait
    returns only when a client is there, so however many poll intervals pass, the reaper
    does not run. *)
Theorem quiet_port_is_never_reaped n : run_accept_loop (replicate n (false, PollTimeout)) = [].
Proof.
  unfold run_accept_loop. cbn [accept_loop].
  assert (wait_for_accept (replicate n (false, PollTimeout)) = (None, [])) as -> by (induction n; done). done.
Qed.
