(* ===== verification/Sweeper.v ===== *)
(** * The idle sweep (src/src/daemon/sweeper.rs)

    One sweep of the daemon: refresh the jobs, end the ones whose time is up, stop
    what is idle and destroy what outlived its retention.  The candidate lists are
    snapshots, so every action takes the workspace's lifecycle lease and decides
    again on the current record; requests that run in between are the [before] of
    the transactions and the [ch_between] of the activity state and the publisher.
    Counting the commands of a workspace also forgets external leases whose owner is
    gone; since every count leaves those out, a sweep's state keeps them. *)
From S2P Require Import Prelude RustStr Publish Types Registry Records Fleet Start Stop Update Sandbox Teardown Activity.
Open Scope Z_scope.

(** The policy a sweep enforces (daemon/policy.rs). *)
Record IdlePolicy := mkPolicy {
  policy_idle_stop_after_secs : option Z;
  policy_destroy_after_secs : option Z;
  default_workspace_cpu_percent : option f64;
  default_workspace_max_processes : option Z;
  task_count_threshold : Z;
  detached_process_threshold : Z;
  policy_max_running : option Z;
  sweep_interval_nanos : Z;
  sweep_enabled : bool;
  evict_idle : bool }.

(** [IdlePolicy::validate] *)
Definition policy_validate (p : IdlePolicy) : result unit :=
  match default_workspace_cpu_percent p with Some v => validate_cpu_percent v | None => Ok tt end;;
  if bool_decide (default_workspace_max_processes p = Some 0)
  then bail "default_workspace_max_processes must be greater than 0"
  else if task_count_threshold p =? 0 then bail "task_count_threshold must be greater than 0"
  else if bool_decide (policy_max_running p = Some 0) then bail "max_running_workspaces must be greater than 0"
  else if sweep_interval_nanos p =? 0 then bail "sweep_interval must be greater than 0"
  else Ok tt.

(** The registry and its host, the activity state and the port publisher. *)
Abbreviation sweep_state := (world * (Activity * publisher))%type.

Definition on_world {A} (m : stm world A) : stm sweep_state A := λ st,
  let '(r, w) := m st.1 in (r, (w, st.2)).
Definition on_activity {A} (m : stm Activity A) : stm sweep_state A := λ st,
  let '(r, a) := m st.2.1 in (r, (st.1, (a, st.2.2))).
Definition on_publisher {A} (m : stm publisher A) : stm sweep_state A := λ st,
  let '(r, p) := m st.2.2 in (r, (st.1, (st.2.1, p))).
(** The outcome as a value: a failure is logged and the sweep goes on. *)
Definition attempt {S A} (m : stm S A) : stm S (result A) := λ st, let '(r, st') := m st in (Ok r, st').

Section sweep.
Context {M : Mode}.
Context (parse_timestamp : string → option Z) (policy : IdlePolicy) (now : Z).

(** ** The decisions under the lease *)

Definition may_idle_stop (h : job_host) (connections : bool) (a : Activity) (current : WorkspaceMetadata) : bool :=
  let '(sid, wid) := (sandbox_id current, id current) in
  if negb (bool_decide (status current = Running)) || (0 <? (active_commands h sid wid a).1) ||
     has_active_foreground_job h sid wid a || connections || keeps_workspace_running sid wid a
  then false
  else match idle_threshold current (policy_idle_stop_after_secs policy) with
       | Some t => is_idle parse_timestamp current t now (active_commands h sid wid a).1
       | None => true
       end.

Definition may_destroy (h : job_host) (a : Activity) (current : WorkspaceMetadata) : bool :=
  if negb (bool_decide (status current = Stopped)) || keep_running current ||
     (0 <? (active_commands h (sandbox_id current) (id current) a).1)
  then false
  else match destroy_threshold current (policy_destroy_after_secs policy) with
       | Some t => negb ((t =? 0) || negb (retention_over parse_timestamp current t now))
       | None => false
       end.

(** ** One candidate *)

Record candidate_host := mkCandidate {
  ch_lease : bool;                         (** whether the lifecycle lease was acquired in time *)
  ch_between : Activity * publisher → Activity * publisher;  (** what requests did to them since the listing *)
  ch_read : txn_host;
  ch_jobs : job_host;
  ch_connections : bool;                   (** live connections to published ports *)
  ch_stop : stop_op_host;
  ch_wipe : wipe_host }.

(** The current record, read under the lease. *)
Definition reread (h : candidate_host) (w : WorkspaceMetadata) : stm sweep_state (option WorkspaceMetadata) :=
  modify (λ st, (st.1, ch_between h st.2));;
  r ← attempt (on_world (read_txn (ch_read h) (λ r, workspace_metadata r (sandbox_id w) (id w))));
  mret (result_ok r).

(** The stop of the workspace and what follows a stop that succeeded. *)
Definition stop_idle (h : candidate_host) (c : WorkspaceMetadata) : stm sweep_state unit :=
  stopped ← attempt (on_world (stop_workspace_with_certificate (ch_stop h) (sandbox_id c) (id c)));
  match stopped with
  | Ok m =>
      on_activity (modify (prune_terminal_jobs (sandbox_id m) (id m)));;
      on_publisher (clear_workspace_ports (sandbox_id m) (id m))
  | Err _ => mret tt
  end.

Definition sweep_idle_one (h : candidate_host) (w : WorkspaceMetadata) : stm sweep_state unit :=
  if negb (ch_lease h) then mret tt
  else
    current ← reread h w;
    match current with
    | None => mret tt
    | Some c =>
        st ← get;
        if may_idle_stop (ch_jobs h) (ch_connections h) st.2.1 c then stop_idle h c else mret tt
    end.

Definition destroy_expired (h : candidate_host) (c : WorkspaceMetadata) : stm sweep_state unit :=
  attempt (on_world (destroy_workspace_with_mode (wh_read (ch_wipe h)) (wh_journal (ch_wipe h))
    (wh_succeed (ch_wipe h)) (wh_attempt (ch_wipe h)) Normal (sandbox_id c) (id c)));;
  mret tt.

Definition sweep_destroy_one (h : candidate_host) (w : WorkspaceMetadata) : stm sweep_state unit :=
  if negb (ch_lease h) then mret tt
  else
    current ← reread h w;
    match current with
    | None => mret tt
    | Some c =>
        st ← get;
        if may_destroy (ch_jobs h) st.2.1 c then destroy_expired h c else mret tt
    end.

Fixpoint sweep_each (one : WorkspaceMetadata → stm sweep_state unit) (l : list WorkspaceMetadata)
    : stm sweep_state unit :=
  match l with
  | [] => mret tt
  | w :: l' => one w;; sweep_each one l'
  end.

(** ** One sweep *)

Record sweep_host := mkSweep {
  sw_running : txn_host;
  sw_jobs : job_host;
  sw_idle : txn_host;
  sw_idle_one : string → candidate_host;
  sw_expired : txn_host;
  sw_destroy_one : string → candidate_host }.

Fixpoint refresh_jobs (h : job_host) (l : list WorkspaceMetadata) : stm sweep_state unit :=
  match l with
  | [] => mret tt
  | w :: l' => attempt (on_activity (reconcile_workspace_jobs h (sandbox_id w) (id w)));; refresh_jobs h l'
  end.

Definition sweep_at (h : sweep_host) : stm sweep_state unit :=
  running ← on_world (read_txn (sw_running h) (λ r, Ok (running_workspaces None r)));
  refresh_jobs (sw_jobs h) running;;
  on_activity (reap_expired_jobs parse_timestamp (sw_jobs h) now);;
  st ← get;
  candidates ← (if evict_idle policy
                then on_world (read_txn (sw_idle h) (λ r,
                       Ok (idle_candidates parse_timestamp (sw_jobs h) (policy_idle_stop_after_secs policy) now st.2.1 r)))
                else mret []);
  sweep_each (λ w, sweep_idle_one (sw_idle_one h (id w)) w) candidates;;
  expired_workspaces ← on_world (read_txn (sw_expired h) (λ r,
       Ok (destroy_candidates parse_timestamp (policy_destroy_after_secs policy) now r)));
  sweep_each (λ w, sweep_destroy_one (sw_destroy_one h (id w)) w) expired_workspaces.

(** ** What a sweep may do to the daemon *)

(** What must hold of a workspace when it is stopped for being idle: nothing uses it,
    and it is idle and not pinned by the window that applies, when one still does. *)
Record stoppable (ch : candidate_host) (a : Activity) (c : WorkspaceMetadata) : Prop := {
  stop_leased : ch_lease ch = true;
  stop_running : status c = Running;
  stop_commands : (active_commands (ch_jobs ch) (sandbox_id c) (id c) a).1 ≤ 0;
  stop_foreground : has_active_foreground_job (ch_jobs ch) (sandbox_id c) (id c) a = false;
  stop_connections : ch_connections ch = false;
  stop_keeps : keeps_workspace_running (sandbox_id c) (id c) a = false;
  stop_idle_window t : idle_threshold c (policy_idle_stop_after_secs policy) = Some t →
    keep_running c = false ∧ is_idle parse_timestamp c t now (active_commands (ch_jobs ch) (sandbox_id c) (id c) a).1 = true }.

(** What must hold of a workspace when it is destroyed for its age. *)
Record destroyable (ch : candidate_host) (a : Activity) (c : WorkspaceMetadata) : Prop := {
  destroy_leased : ch_lease ch = true;
  destroy_stopped : status c = Stopped;
  destroy_unpinned : keep_running c = false;
  destroy_commands : (active_commands (ch_jobs ch) (sandbox_id c) (id c) a).1 ≤ 0;
  destroy_window : ∃ t, destroy_threshold c (policy_destroy_after_secs policy) = Some t ∧ t ≠ 0 ∧
    retention_over parse_timestamp c t now = true }.

(** One step of the daemon during a sweep.  [c] is the record in the registry of the
    very state the sweep acts in. *)
Inductive sweep_step (h : sweep_host) : sweep_state → sweep_state → Prop :=
  | others_listed t st : t ∈ [sw_running h; sw_idle h; sw_expired h] → sweep_step h st (before t st.1, st.2)
  | others_ran ch st : (∃ wid, ch = sw_idle_one h wid ∨ ch = sw_destroy_one h wid) →
      sweep_step h st (before (ch_read ch) st.1, ch_between ch st.2)
  | jobs_refreshed sid wid st :
      sweep_step h st (st.1, ((reconcile_workspace_jobs (sw_jobs h) sid wid st.2.1).2, st.2.2))
  | jobs_reaped st :
      sweep_step h st (st.1, ((reap_expired_jobs parse_timestamp (sw_jobs h) now st.2.1).2, st.2.2))
  | idle_stopped wid c sid st :
      let ch := sw_idle_one h wid in
      evict_idle policy = true → workspace_metadata st.1.1 sid wid = Ok c → stoppable ch st.2.1 c →
      sweep_step h st (stop_idle ch c st).2
  | age_destroyed wid c sid st :
      let ch := sw_destroy_one h wid in
      workspace_metadata st.1.1 sid wid = Ok c → destroyable ch st.2.1 c →
      sweep_step h st (destroy_expired ch c st).2.

(** Whatever it answers, the operation went from state to state by such steps. *)
Definition stepwise {A} (h : sweep_host) (m : stm sweep_state A) : Prop := ∀ st, rtc (sweep_step h) st (m st).2.

Lemma stepwise_bind {A B} h (m : stm sweep_state A) (f : A → stm sweep_state B) :
  stepwise h m → (∀ a, stepwise h (f a)) → stepwise h (m ≫= f).
Proof.
  intros Hm Hf st. specialize (Hm st). unfold mbind, stm_bind.
  destruct (m st) as [[a|e] st1]; [|done]. etrans; [exact Hm|apply Hf].
Qed.
Lemma stepwise_frame {A} h (m : stm sweep_state A) : (∀ st, (m st).2 = st) → stepwise h m.
Proof. intros H st. by rewrite H. Qed.
Lemma stepwise_attempt {A} h (m : stm sweep_state A) : stepwise h m → stepwise h (attempt m).
Proof. intros Hm st. specialize (Hm st). unfold attempt. by destruct (m st). Qed.
Lemma stepwise_ret_bind {A B} h (a : A) (f : A → stm sweep_state B) : stepwise h (f a) → stepwise h (mret a ≫= f).
Proof. exact Datatypes.id. Qed.
Lemma on_activity_state {A} (m : stm Activity A) st : (on_activity m st).2 = (st.1, ((m st.2.1).2, st.2.2)).
Proof. unfold on_activity. by destruct (m st.2.1). Qed.
Lemma stepwise_listing {A} h t (f : Registry → result A) :
  t ∈ [sw_running h; sw_idle h; sw_expired h] → stepwise h (on_world (read_txn t f)).
Proof. intros Ht st. apply rtc_once. by apply (others_listed h t st). Qed.
Lemma stepwise_each h one l : (∀ w, stepwise h (one w)) → stepwise h (sweep_each one l).
Proof.
  intros Hone. induction l as [|w l IH]; cbn; [by apply stepwise_frame|]. by apply stepwise_bind.
Qed.
Lemma stepwise_refresh h l : stepwise h (refresh_jobs (sw_jobs h) l).
Proof.
  induction l as [|w l IH]; cbn; [by apply stepwise_frame|].
  apply stepwise_bind; [|done]. apply stepwise_attempt. intros st. rewrite on_activity_state. apply rtc_once, jobs_refreshed.
Qed.

Lemma reread_eq h w st :
  reread h w st = (Ok (if reachable (ch_read h) then result_ok (workspace_metadata (before (ch_read h) st.1).1 (sandbox_id w) (id w))
                       else None), (before (ch_read h) st.1, ch_between h st.2)).
Proof. unfold reread, attempt, on_world, read_txn, mbind, stm_bind. cbn. by destruct (reachable (ch_read h)). Qed.

(** A turn under the lease: others ran, the record was read, and if it and the
    activity state of that moment pass [test] then [act] runs there. *)
Lemma turn_stepwise h ch w (test : Activity → WorkspaceMetadata → bool) act :
  (∃ wid, ch = sw_idle_one h wid ∨ ch = sw_destroy_one h wid) →
  (∀ c st, workspace_metadata st.1.1 (sandbox_id w) (id w) = Ok c → test st.2.1 c = true → sweep_step h st (act c st).2) →
  stepwise h (current ← reread ch w;
    match current with
    | None => mret tt
    | Some c => st ← get; if test st.2.1 c then act c else mret tt
    end).
Proof.
  intros Hch Hact st. unfold mbind at 1, stm_bind at 1. rewrite reread_eq.
  set (st1 := (before (ch_read ch) st.1, ch_between ch st.2)).
  assert (sweep_step h st st1) as H1 by by apply others_ran.
  destruct (reachable (ch_read ch)); [|by apply rtc_once].
  destruct (workspace_metadata _ _ _) as [c|e] eqn:Hc; cbn [result_ok]; [|by apply rtc_once].
  unfold mbind, stm_bind. cbn [get]. destruct (test st1.2.1 c) eqn:Ht; [|by apply rtc_once].
  eapply rtc_l; [exact H1|]. apply rtc_once. by apply Hact.
Qed.

Lemma may_idle_stop_true ch a c :
  ch_lease ch = true → may_idle_stop (ch_jobs ch) (ch_connections ch) a c = true → stoppable ch a c.
Proof.
  unfold may_idle_stop. destruct (_ || _) eqn:E; [done|].
  apply orb_false_iff in E as [[[[E1%negb_false_iff%bool_decide_eq_true E2%Z.ltb_ge]%orb_false_iff E3]%orb_false_iff
    E4]%orb_false_iff E5].
  intros Hl H. split; try done. intros t Ht. rewrite Ht in H. split; [|done].
  unfold is_idle in H. by destruct (keep_running c); rewrite ?orb_true_r in H.
Qed.

Lemma may_destroy_true ch a c :
  ch_lease ch = true → may_destroy (ch_jobs ch) a c = true → destroyable ch a c.
Proof.
  unfold may_destroy. destruct (_ || _) eqn:E; [done|].
  apply orb_false_iff in E as [[E1%negb_false_iff%bool_decide_eq_true E2]%orb_false_iff E3%Z.ltb_ge].
  destruct (destroy_threshold _ _) as [t|] eqn:Ht; [|done]. intros Hl [H1%Z.eqb_neq H2%negb_false_iff]%negb_true_iff%orb_false_iff.
  split; [done..|]. by exists t.
Qed.

Lemma sweep_idle_one_stepwise h w :
  evict_idle policy = true → stepwise h (sweep_idle_one (sw_idle_one h (id w)) w).
Proof.
  intros Hev. unfold sweep_idle_one. destruct (ch_lease _) eqn:Hl; [|by apply stepwise_frame].
  apply (turn_stepwise h _ w (may_idle_stop _ _)); [eauto|]. intros c st Hc Hm.
  eapply idle_stopped; [done|exact Hc|by apply may_idle_stop_true].
Qed.

Lemma sweep_destroy_one_stepwise h w : stepwise h (sweep_destroy_one (sw_destroy_one h (id w)) w).
Proof.
  unfold sweep_destroy_one. destruct (ch_lease _) eqn:Hl; [|by apply stepwise_frame].
  apply (turn_stepwise h _ w (may_destroy _)); [eauto|]. intros c st Hc Hm.
  eapply age_destroyed; [exact Hc|by apply may_destroy_true].
Qed.

(** C5: a sweep acts only on what qualifies at the moment it acts.  However it ends,
    and whatever other requests do while it runs, the state of the daemon goes through
    other requests' steps, job bookkeeping, which leaves the registry, the sessions and
    the ports alone, and two kinds of act: the stop of a workspace, only with eviction on,
    under its lifecycle lease, while the registry of that very state records it running, no
    command, foreground job, open connection or keep-running job uses it, and it is not
    pinned and is idle by the window that applies to it; and the destroy of one, under
    its lease, while it is recorded stopped, not pinned, not in use, and its retention
    window is over.  (Where the window itself was taken away since the listing, the stop
    asks neither for idleness nor for the pin: [withdrawn_window_stops_pinned].) *)
Theorem sweep_acts_on_current_state h st res st' : sweep_at h st = (res, st') → rtc (sweep_step h) st st'.
Proof.
  intros H. replace st' with (sweep_at h st).2 by by rewrite H. clear H. revert st. change (stepwise h (sweep_at h)).
  unfold sweep_at. apply stepwise_bind; [apply stepwise_listing; set_solver|intros running].
  apply stepwise_bind; [apply stepwise_refresh|intros _].
  apply stepwise_bind; [intros st; rewrite on_activity_state; apply rtc_once, jobs_reaped|intros _].
  apply stepwise_bind; [by apply stepwise_frame|intros s].
  assert (∀ cs, (evict_idle policy = false → cs = []) →
    stepwise h (sweep_each (λ w, sweep_idle_one (sw_idle_one h (id w)) w) cs;;
      expired_workspaces ← on_world (read_txn (sw_expired h) (λ r,
         Ok (destroy_candidates parse_timestamp (policy_destroy_after_secs policy) now r)));
      sweep_each (λ w, sweep_destroy_one (sw_destroy_one h (id w)) w) expired_workspaces)) as Hrest.
  { intros cs Hcs. apply stepwise_bind; [|intros _].
    - destruct (evict_idle policy) eqn:Hev; [|by rewrite Hcs; [apply stepwise_frame|]].
      apply stepwise_each; intros; by apply sweep_idle_one_stepwise.
    - apply stepwise_bind; [apply stepwise_listing; set_solver|intros es].
      apply stepwise_each; intros; apply sweep_destroy_one_stepwise. }
  destruct (evict_idle policy); [|by apply stepwise_ret_bind, Hrest].
  apply stepwise_bind; [apply stepwise_listing; set_solver|intros cs; by apply Hrest].
Qed.

(** Taking the idle window away while a sweep is under way does not save the
    workspace but removes the check: with no window left, the second decision asks
    neither whether the workspace is idle nor whether it is pinned, and stops it. *)
Theorem withdrawn_window_stops_pinned h a c :
  status c = Running → keep_running c = true → idle_threshold c (policy_idle_stop_after_secs policy) = None →
  (active_commands h (sandbox_id c) (id c) a).1 = 0 → has_active_foreground_job h (sandbox_id c) (id c) a = false →
  keeps_workspace_running (sandbox_id c) (id c) a = false →
  may_idle_stop h false a c = true ∧
  ∀ t, is_idle parse_timestamp c t now (active_commands h (sandbox_id c) (id c) a).1 = false.
Proof.
  intros Hs Hk Ht Hc Hf Hr. split.
  - unfold may_idle_stop. rewrite Hs, Hc, Hf, Hr, Ht. done.
  - intros t. unfold is_idle. rewrite Hk, orb_true_r. done.
Qed.

(** ** The fleet stays within its steps *)

Definition sweep_safe {A} (m : stm sweep_state A) : Prop :=
  ∀ st, fleet_ok st.1.1 → rtc fleet_step st.1.1 (m st).2.1.1.

Lemma sweep_safe_bind {A B} (m : stm sweep_state A) (f : A → stm sweep_state B) :
  sweep_safe m → (∀ a, sweep_safe (f a)) → sweep_safe (m ≫= f).
Proof.
  intros Hm Hf st Hst. specialize (Hm st Hst). unfold mbind, stm_bind.
  destruct (m st) as [[a|e] st1]; [|done]. etrans; [exact Hm|]. apply Hf. by eapply fleet_steps_ok.
Qed.
Lemma sweep_safe_frame {A} (m : stm sweep_state A) : (∀ st, (m st).2.1 = st.1) → sweep_safe m.
Proof. intros H st _. by rewrite H. Qed.
Lemma sweep_safe_world {A} (m : stm world A) : fleet_safe m → sweep_safe (on_world m).
Proof. intros Hm st Hst. specialize (Hm st.1 Hst). unfold on_world. by destruct (m st.1). Qed.
Lemma sweep_safe_attempt {A} (m : stm sweep_state A) : sweep_safe m → sweep_safe (attempt m).
Proof. intros Hm st Hst. specialize (Hm st Hst). unfold attempt. by destruct (m st). Qed.
Lemma sweep_safe_activity {A} (m : stm Activity A) : sweep_safe (on_activity m).
Proof. apply sweep_safe_frame. intros st. unfold on_activity. by destruct (m st.2.1). Qed.
Lemma sweep_safe_publisher {A} (m : stm publisher A) : sweep_safe (on_publisher m).
Proof. apply sweep_safe_frame. intros st. unfold on_publisher. by destruct (m st.2.2). Qed.
#[local] Hint Resolve sweep_safe_world sweep_safe_attempt sweep_safe_activity : enclave.

Definition candidate_env (h : candidate_host) : Prop :=
  env_safe (ch_read h) ∧ stop_env (ch_stop h) ∧ wipe_env (ch_wipe h).
Definition sweep_env (h : sweep_host) : Prop :=
  env_safe (sw_running h) ∧ env_safe (sw_idle h) ∧ env_safe (sw_expired h) ∧
  (∀ wid, candidate_env (sw_idle_one h wid)) ∧ (∀ wid, candidate_env (sw_destroy_one h wid)).

Lemma sweep_safe_ret {A} (a : A) : sweep_safe (mret a).
Proof. by apply sweep_safe_frame. Qed.
Lemma sweep_each_safe one l : (∀ w, sweep_safe (one w)) → sweep_safe (sweep_each one l).
Proof.
  intros Hone. induction l as [|w l IH]; cbn; [apply sweep_safe_ret|].
  by apply sweep_safe_bind.
Qed.

Lemma reread_safe h w : env_safe (ch_read h) → sweep_safe (reread h w).
Proof.
  intros Hr. unfold reread. apply sweep_safe_bind; [by apply sweep_safe_frame|intros _].
  apply sweep_safe_bind; [auto with enclave|intros; apply sweep_safe_ret].
Qed.

Lemma stop_idle_safe h c : candidate_env h → sweep_safe (stop_idle h c).
Proof.
  intros (_ & Hs & _). unfold stop_idle.
  apply sweep_safe_bind; [by apply sweep_safe_attempt, sweep_safe_world, stop_workspace_safe|intros [m|e]; [|apply sweep_safe_ret]].
  apply sweep_safe_bind; [apply sweep_safe_activity|intros _; apply sweep_safe_publisher].
Qed.

Lemma sweep_idle_one_safe h w : candidate_env h → sweep_safe (sweep_idle_one h w).
Proof.
  intros Hh. unfold sweep_idle_one. destruct (negb _); [apply sweep_safe_ret|].
  apply sweep_safe_bind; [by apply reread_safe, Hh|intros [c|]; [|apply sweep_safe_ret]].
  apply sweep_safe_bind; [by apply sweep_safe_frame|intros s].
  destruct (may_idle_stop _ _ _ _); [by apply stop_idle_safe|apply sweep_safe_ret].
Qed.

Lemma sweep_destroy_one_safe h w : candidate_env h → sweep_safe (sweep_destroy_one h w).
Proof.
  intros (Hr & _ & Hw1 & Hw2). unfold sweep_destroy_one. destruct (negb _); [apply sweep_safe_ret|].
  apply sweep_safe_bind; [by apply reread_safe|intros [c|]; [|apply sweep_safe_ret]].
  apply sweep_safe_bind; [by apply sweep_safe_frame|intros s]. destruct (may_destroy _ _ _); [|apply sweep_safe_ret].
  apply sweep_safe_bind; [by apply sweep_safe_attempt, sweep_safe_world, destroy_workspace_safe|intros _; apply sweep_safe_ret].
Qed.

Lemma refresh_jobs_safe h l : sweep_safe (refresh_jobs h l).
Proof.
  induction l as [|w l IH]; cbn; [apply sweep_safe_ret|]. apply sweep_safe_bind; [auto with enclave|done].
Qed.

Lemma sweep_at_safe h : sweep_env h → sweep_safe (sweep_at h).
Proof.
  intros (H1 & H2 & H3 & H4 & H5). unfold sweep_at. apply sweep_safe_bind; [auto with enclave|intros running].
  apply sweep_safe_bind; [apply refresh_jobs_safe|intros _]. apply sweep_safe_bind; [auto with enclave|intros _].
  apply sweep_safe_bind; [by apply sweep_safe_frame|intros s].
  apply sweep_safe_bind; [destruct (evict_idle policy); [auto with enclave|apply sweep_safe_ret]|intros cs].
  apply sweep_safe_bind; [apply sweep_each_safe; intros; by apply sweep_idle_one_safe|intros ss].
  apply sweep_safe_bind; [auto with enclave|intros es].
  apply sweep_each_safe; intros; by apply sweep_destroy_one_safe.
Qed.
End sweep.

(** ** Concrete runs *)

Definition sample_policy (evict : bool) : IdlePolicy :=
  mkPolicy None None None None 1 0 None 60000000000 true evict.
Definition sample_candidate (connections : bool) : candidate_host :=
  mkCandidate true Datatypes.id sample_txn sample_jobs connections (sample_stop_op true) sample_wipe.
Definition sample_sweep (connections : bool) : sweep_host :=
  mkSweep sample_txn sample_jobs sample_txn (λ _, sample_candidate connections) sample_txn (λ _, sample_candidate connections).

(** One idle workspace is stopped and its ports are withdrawn; with an open connection,
    or with eviction off, nothing changes. *)
Lemma sweep_acts_on_current_state_witness :
  let st : sweep_state := ((sample_fleet (sample_idle Running 5), mkHost ∅ ∅ ∅),
    (no_activity, let p := mkPublication ("s", "a") (sample_spec 80) "10.0.0.2" in
                  mkPublisher {[("s", "a") := [p]]} ∅ {[pub_address p := p]})) in
  let run evict connections := sweep_at sample_clock (sample_policy evict) 9000000000 (sample_sweep connections) st in
  rtc (sweep_step sample_clock (sample_policy true) 9000000000 (sample_sweep false)) st (run true false).2 ∧
  (status <$> find_workspace (run true false).2.1.1 "s" "a") = Some Stopped ∧
  has_active_workspace_ports "s" "a" (run true false).2.2.2 = false ∧
  (run true true).2 = st ∧ (run false false).2 = st.
Proof.
  intros st run. split_and!; [|by vm_compute..].
  eapply (sweep_acts_on_current_state sample_clock (sample_policy true) 9000000000 (sample_sweep false) st).
  apply surjective_pairing.
Defined.

Lemma withdrawn_window_stops_pinned_witness :
  let w := mkWorkspace "a" "s" "web" "t0" (Some "t0") None (Some "t0") "/s/a" "" "/home" None "" "" "" "" ""
    [] None [] [] Running None None default_refs false true None None (mkWsLimits None None None None None None) None in
  may_idle_stop sample_clock (sample_policy true) 9000000000 sample_jobs false no_activity w = true.
Proof. intros w. by apply (withdrawn_window_stops_pinned sample_clock (sample_policy true) 9000000000 sample_jobs no_activity w). Defined.
