(* ===== verification/Exec.v ===== *)
(** * Running a command (src/src/workspace/exec, session/persistent/transport.rs,
    commands/internal/persistent/command.rs)

    A command runs in a helper, which captures its output and answers with one line; the
    daemon reads the line while it watches its client, records the job, scrubs the
    output and logs it.  What the system calls answer is a list of answers, so the
    theorems hold for every way the bytes arrive. *)
From S2P Require Import Prelude RustStr Paths Auth Text Types Registry Records Fleet Start Sandbox Activity.
Open Scope Z_scope.

(** ** Capturing output (commands/internal/persistent/command.rs) *)

Definition MAX_HELPER_OUTPUT_BYTES : Z := 16 * 1024 * 1024.

Inductive read_answer := ReadData (s : string) | ReadEof | ReadBlock | ReadInterrupted | ReadFailed.

Definition str_len (s : string) : Z := Z.of_nat (String.length s).

(** [drain_pipe]: whether the pipe is closed, with the output so far; the list of
    answers ends where the pipe has no more to give. *)
Fixpoint drain_pipe (answers : list read_answer) (output : string) : result bool * string :=
  match answers with
  | [] | ReadBlock :: _ => (Ok false, output)
  | ReadData s :: rest =>
      drain_pipe rest
        (if str_len output <? MAX_HELPER_OUTPUT_BYTES
         then output +:+ str_take (Z.to_nat (Z.min (str_len s) (MAX_HELPER_OUTPUT_BYTES - str_len output))) s
         else output)
  | ReadEof :: _ => (Ok true, output)
  | ReadInterrupted :: rest => drain_pipe rest output
  | ReadFailed :: _ => (bail "failed to read persistent command output", output)
  end.

(** Everything that was read. *)
Fixpoint read_bytes (answers : list read_answer) : string :=
  match answers with
  | [] | ReadBlock :: _ | ReadEof :: _ | ReadFailed :: _ => ""
  | ReadData s :: rest => s +:+ read_bytes rest
  | ReadInterrupted :: rest => read_bytes rest
  end.

(** The answer a helper writes: [PersistentCommandResponse] and a line break. *)
Definition print_i32 (n : Z) : string := if n <? 0 then String "-" (print_uint (- n)) else print_uint n.
Definition quote : string := bytes [34%nat].
Definition json_string (s : string) : string := quote +:+ json_escape s +:+ quote.
Definition json_field (name value : string) : string := json_string name +:+ ":" +:+ value.
Definition command_response (exit_code : Z) (stdout stderr : string) : string :=
  "{" +:+ json_field "exit_code" (print_i32 exit_code) +:+ "," +:+ json_field "stdout" (json_string (from_utf8_lossy stdout)) +:+
  "," +:+ json_field "stderr" (json_string (from_utf8_lossy stderr)) +:+ "}".

(** ** Reading the answer (transport.rs) *)

Definition MAX_HELPER_RESPONSE_BYTES : Z := 2 * MAX_HELPER_OUTPUT_BYTES * 6 + 64 * 1024.

Inductive transport_error := HelperTimeout | HelperClosed | ClientDisconnected.

(** The bytes before the first line break. *)
Fixpoint first_line (s : string) : option string :=
  match s with
  | EmptyString => None
  | String c s' => if (c =? "010")%char then Some EmptyString else String c <$> first_line s'
  end.

(** The inner loop of [read_response]. *)
Inductive drained := Line (line : string) | Broken (e : transport_error) | Waiting (response : string).
Fixpoint read_available (answers : list read_answer) (response : string) : drained :=
  match answers with
  | [] | ReadBlock :: _ => Waiting response
  | ReadEof :: _ => Broken HelperClosed
  | ReadData s :: rest =>
      let response' := response +:+ s in
      if MAX_HELPER_RESPONSE_BYTES <? str_len response' then Broken HelperClosed
      else match first_line response' with
           | Some line => if is_utf8 line then Line line else Broken HelperClosed
           | None => read_available rest response'
           end
  | ReadInterrupted :: rest => read_available rest response
  | ReadFailed :: _ => Broken HelperClosed
  end.

Inductive poll_result := PollInterrupt | PollBroken | Polled (helper_ready : bool).
Record poll_turn := mkTurn {
  deadline_passed : bool;
  polled : poll_result;
  answers : list read_answer;
  client_gone : bool }.             (** [client_stream.is_some_and(client_disconnected)] *)

(** [None]: still waiting when the turns end. *)
Fixpoint read_response (turns : list poll_turn) (response : string) : option (string + transport_error) :=
  match turns with
  | [] => None
  | t :: rest =>
      if deadline_passed t then Some (inr HelperTimeout)
      else
        match polled t with
        | PollInterrupt => read_response rest response
        | PollBroken => Some (inr HelperClosed)
        | Polled ready =>
            match (if ready then read_available (answers t) response else Waiting response) with
            | Line line => Some (inl line)
            | Broken e => Some (inr e)
            | Waiting response' =>
                if client_gone t then Some (inr ClientDisconnected) else read_response rest response'
            end
        end
  end.

(** [client_disconnected]: the events of the poll, and what a peek of one byte read. *)
Definition client_disconnected (polled : Z) (hangup readable : bool) (peeked : Z) : bool :=
  if polled <=? 0 then false else if hangup then true else if negb readable then false else peeked =? 0.

(** ** Draining a command's pipes (commands/internal/persistent/command.rs) *)

Inductive wait_status := Exited (code : Z) | Signaled (signal : Z) | StillAlive | OtherStatus.

(** A turn of [drain_command_pipes]: the poll with the events of each descriptor it
    watched, what each pipe gives if it is drained now, and what [waitpid] says. *)
Record drain_turn := mkDrain {
  poll_failed : bool;
  out_ready : bool;
  err_ready : bool;
  out_answers : list read_answer;
  err_answers : list read_answer;
  waited : option wait_status }.

(** A reader, or none once its pipe is closed, with what it has read. *)
Record pipe := mkPipe { is_open : bool; captured : string }.
Definition drain_if (ready : bool) (answers : list read_answer) (p : pipe) : result pipe :=
  if is_open p && ready
  then match drain_pipe answers (captured p) with
       | (Ok closed, output) => Ok (mkPipe (negb closed) output)
       | (Err e, _) => Err e
       end
  else Ok p.

(** The loop until the child has a status.  The events of the standard error are those
    of the second descriptor while the standard output is open, of the first after. *)
Fixpoint drain_until_exit (turns : list drain_turn) (o e : pipe) : option (result (Z * pipe * pipe)) :=
  match turns with
  | [] => None
  | t :: rest =>
      if (is_open o || is_open e) && poll_failed t then Some (bail "failed to poll persistent command output")
      else
        match drain_if (out_ready t) (out_answers t) o with
        | Err err => Some (Err err)
        | Ok o' =>
            let stderr_ready := if is_open o' then err_ready t else if is_open o then out_ready t else err_ready t in
            match drain_if stderr_ready (err_answers t) e with
            | Err err => Some (Err err)
            | Ok e' =>
                match waited t with
                | None => Some (bail "failed to poll command child")
                | Some (Exited code) => Some (Ok (code, o', e'))
                | Some (Signaled signal) => Some (Ok (128 + signal, o', e'))
                | Some StillAlive | Some OtherStatus => drain_until_exit rest o' e'
                end
            end
        end
  end.

(** [drain_after_exit]: whether the pipe was closed, and what was captured of it. *)
Fixpoint drain_after_exit (turns : list poll_turn) (p : pipe) : option (result (bool * string)) :=
  if negb (is_open p) then Some (Ok (true, captured p))
  else
    match turns with
    | [] => None
    | t :: rest =>
        if deadline_passed t then Some (Ok (false, captured p))
        else
          match polled t with
          | PollInterrupt | Polled false => drain_after_exit rest p
          | PollBroken => Some (bail "failed to poll persistent command output")
          | Polled true =>
              match drain_if true (answers t) p with
              | Err e => Some (Err e)
              | Ok p' => drain_after_exit rest p'
              end
          end
    end.

(** Exit code, the two streams, and whether the drain after the exit timed out. *)
Definition drain_command_pipes (turns : list drain_turn) (out_turns err_turns : list poll_turn) :
    option (result (Z * string * string * bool)) :=
  match drain_until_exit turns (mkPipe true "") (mkPipe true "") with
  | None => None
  | Some (Err e) => Some (Err e)
  | Some (Ok (code, o, e)) =>
      match drain_after_exit out_turns o with
      | None => None
      | Some (Err err) => Some (Err err)
      | Some (Ok (out_closed, out)) =>
          match drain_after_exit err_turns e with
          | None => None
          | Some (Err err) => Some (Err err)
          | Some (Ok (err_closed, err)) => Some (Ok (code, out, err, negb out_closed || negb err_closed))
          end
      end
  end.

(** ** The working directory (workspace/cwd.rs) *)

(** [char::is_control]: the C0 and C1 controls; the second byte decides for the latter. *)
Fixpoint has_control (s : string) : bool :=
  match s with
  | EmptyString => false
  | String c s' =>
      (code c <? 32)%nat || (code c =? 127)%nat ||
      ((code c =? 194)%nat && match s' with String d _ => between 128 159 d | EmptyString => false end) || has_control s'
  end.
Definition sanitize_workspace_cwd (cwd : string) : string :=
  if bool_decide (cwd = "") || has_control cwd then "/home"
  else if bool_decide (".." ∈ path_components cwd) then "/home"
  else
    let parts := filter (λ c, c ≠ "" ∧ c ≠ ".") (path_components cwd) in
    if negb (bool_decide (head parts = Some "home")) then "/home"
    else if (length parts =? 1)%nat then "/home"
    else "/" +:+ String.concat "/" parts.

(** ** Executing a command (workspace/exec/mod.rs, credentials.rs) *)

Record PersistentCommandOutput := mkOutput {
  out_exit_code : Z; out_stdout : string; out_stderr : string; out_helper_pid : option Z }.
Record WorkspaceExecResult := mkExecResult {
  xr_job_id : option string; xr_exit_code : Z; xr_stdout : string; xr_stderr : string;
  xr_mount_ns : string; xr_pid_ns : string; xr_background_job_id : option string }.

(** ** The runtime log (workspace/logs.rs) *)

(** [char::escape_default]; [continued b] are the six bits of a continuation byte. *)
Fixpoint hex_digits (fuel n : nat) (acc : string) : string :=
  match fuel with
  | O => acc
  | S f => let acc := String (hex_char (n mod 16)) acc in if (n <? 16)%nat then acc else hex_digits f (n / 16) acc
  end.
Definition escape_unicode (n : nat) : string := bytes [92; 117; 123]%nat +:+ hex_digits 6 n "" +:+ "}".
Definition escape_ascii (c : ascii) : string :=
  match code c with
  | 9%nat => bytes [92; 116]%nat
  | 10%nat => bytes [92; 110]%nat
  | 13%nat => bytes [92; 114]%nat
  | 34%nat => bytes [92; 34]%nat
  | 39%nat => bytes [92; 39]%nat
  | 92%nat => bytes [92; 92]%nat
  | n => if (32 <=? n)%nat && (n <=? 126)%nat then String c "" else escape_unicode n
  end.
Definition continued (c : ascii) : nat := (code c - 128)%nat.
Fixpoint sanitize_log_header_field (s : string) : string :=
  match s with
  | EmptyString => EmptyString
  | String a r =>
      match utf8_width a, r with
      | 2%nat, String b r2 => escape_unicode ((code a - 192) * 64 + continued b) +:+ sanitize_log_header_field r2
      | 3%nat, String b (String c r3) =>
          escape_unicode (((code a - 224) * 64 + continued b) * 64 + continued c) +:+ sanitize_log_header_field r3
      | 4%nat, String b (String c (String d r4)) =>
          escape_unicode ((((code a - 240) * 64 + continued b) * 64 + continued c) * 64 + continued d) +:+
          sanitize_log_header_field r4
      | _, _ => escape_ascii a +:+ sanitize_log_header_field r
      end
  end.

Definition newline : string := String "010" "".
Definition log_entry (timestamp cwd : string) (command : list string) (exit_code : Z) (stdout stderr : string) : string :=
  "[" +:+ timestamp +:+ "] workspace command" +:+ newline +:+
  "cwd: " +:+ sanitize_log_header_field cwd +:+ newline +:+
  "command: " +:+ sanitize_log_header_field (String.concat " " command) +:+ newline +:+
  "exit_code: " +:+ print_i32 exit_code +:+ newline +:+
  "stdout:" +:+ newline +:+ stdout +:+ newline +:+
  "stderr:" +:+ newline +:+ stderr +:+ newline +:+ "---" +:+ newline.

(** The records, the jobs, the runtime log and the names of the audit. *)
Record exec_state := mkExecState {
  ex_world : world; ex_jobs : Activity; ex_log : string; ex_audit : list string }.
Definition on_exec_world {A} (m : stm world A) : stm exec_state A := λ st,
  let '(r, w) := m (ex_world st) in (r, mkExecState w (ex_jobs st) (ex_log st) (ex_audit st)).
Definition on_exec_jobs {A} (m : stm Activity A) : stm exec_state A := λ st,
  let '(r, a) := m (ex_jobs st) in (r, mkExecState (ex_world st) a (ex_log st) (ex_audit st)).

Record exec_host := mkExecHost {
  xh_read : txn_host;
  xh_tokens : option (list WorkspaceAuthToken);          (** [inject_workspace_auth] *)
  xh_job_id : string;
  xh_started : string;
  xh_first : job_host;
  xh_touch : nat → txn_host * bool * string;
  xh_mounted : bool;                             (** the disk image is mounted or can be *)
  xh_meanwhile : Activity → Activity;            (** what others do while the command runs *)
  xh_run : result PersistentCommandOutput;       (** [execute_persistent_command] *)
  xh_ticks : Z → option Z;
  xh_group : Z → option Z;
  xh_last : job_host;
  xh_audit : bool;
  xh_namespaces : option (string * string);      (** [read_namespace_refs] *)
  xh_log : string * nat }.                       (** the time, and how far the write of the entry gets *)

(** [JobRecord::new] *)
Definition new_job (jid started sid wid : string) (m : JobMode) (command : list string) (ttl : option Z) (keep : bool) : JobRecord :=
  mkJob jid sid wid m command started None None None None JobRunning None ttl keep None.

(** The identity of the process that ran a job. *)
Definition with_process (p ticks group : option Z) (j : JobRecord) : JobRecord :=
  mkJob (job_id j) (job_sandbox_id j) (job_workspace_id j) (mode j) (command j) (started_at j) (finished_at j)
    p ticks group (job_status j) (exit_code j) (ttl_secs j) (job_keep_running j) (job_error j).

(** [credentials::redact]; [None] is a panic. *)
Definition redact (tokens : list WorkspaceAuthToken) (text : string) : option string :=
  match tokens with [] => Some text | _ => scrub_secrets text (Auth.token <$> tokens) end.

Section exec.
Context (h : exec_host).

Definition touch_process (n : nat) (w : WorkspaceMetadata) : stm exec_state unit :=
  let '(t, persist, stamp) := xh_touch h n in
  on_exec_world (write_txn t (touch persist stamp Process (sandbox_id w) (id w)));; mret tt.

(** The record of a command that returned. *)
Definition finished_job (o : PersistentCommandOutput) (j : JobRecord) : JobRecord :=
  let pid := out_helper_pid o in
  let group := match pid with
               | Some p => match xh_group h p with Some g => if g =? p then Some g else None | None => None end
               | None => None
               end in
  with_outcome (if out_exit_code o =? 0 then JobExited else JobFailed) (Some (out_exit_code o)) (job_error j)
    (jh_stamp (xh_last h)) (with_process pid (pid ≫= xh_ticks h) group j).

(** [record_injection] *)
Definition record_injection (tokens : list WorkspaceAuthToken) : stm exec_state unit :=
  match tokens with
  | [] => mret tt
  | _ => if xh_audit h
         then modify (λ st, mkExecState (ex_world st) (ex_jobs st) (ex_log st) (ex_audit st ++ (Auth.name <$> tokens)))
         else mret tt
  end.
Definition appended_entry (cwd : string) (command : list string) (exit_code : Z) (stdout stderr : string) : string :=
  str_take (xh_log h).2 (log_entry (xh_log h).1 cwd command exit_code stdout stderr).
Definition append_workspace_command_log (cwd : string) (command : list string) (exit_code : Z) (stdout stderr : string) :
    stm exec_state unit :=
  modify (λ st, mkExecState (ex_world st) (ex_jobs st) (ex_log st +:+ appended_entry cwd command exit_code stdout stderr)
                  (ex_audit st)).

(** What follows the command. *)
Definition report_command (w : WorkspaceMetadata) (cwd : string) (command : list string) (scrub : bool)
    (tokens : list WorkspaceAuthToken) (j : JobRecord) (o : PersistentCommandOutput) : stm exec_state WorkspaceExecResult :=
  on_exec_jobs (persist_job (xh_last h) (finished_job o j));;
  touch_process 2 w;;
  logged_stdout ← lift (ok_or (redact tokens (out_stdout o)) (plain "panic"));
  logged_stderr ← lift (ok_or (redact tokens (out_stderr o)) (plain "panic"));
  record_injection tokens;;
  append_workspace_command_log cwd command (out_exit_code o) logged_stdout logged_stderr;;
  mret (mkExecResult (Some (job_id j)) (out_exit_code o)
          (if scrub then logged_stdout else out_stdout o) (if scrub then logged_stderr else out_stderr o)
          (from_option fst "unknown" (xh_namespaces h)) (from_option snd "unknown" (xh_namespaces h)) None).

Definition run_command (w : WorkspaceMetadata) (cwd : string) (command : list string) (scrub : bool)
    (tokens : list WorkspaceAuthToken) (j : JobRecord) : stm exec_state WorkspaceExecResult :=
  match (if xh_mounted h then xh_run h else bail "failed to mount workspace storage") with
  | Err e =>
      on_exec_jobs (persist_job (xh_last h) (with_outcome JobFailed (exit_code j) (Some (error_text e)) (jh_stamp (xh_last h)) j));;
      catch (touch_process 1 w);;
      lift (Err e)
  | Ok o => report_command w cwd command scrub tokens j o
  end.

Definition exec_workspace_command_with_options (sb ws cwd : string) (command : list string) (scrub : bool)
    (ttl : option Z) : stm exec_state WorkspaceExecResult :=
  assert (negb (bool_decide (command = []))) "workspace exec requires a command";;
  w ← on_exec_world (read_txn (xh_read h) (λ r, workspace_metadata r sb ws));
  assert (is_running (status w)) "workspace is not running; start workspace first";;
  let cwd := sanitize_workspace_cwd cwd in
  lift (ok_or (runtime_pid w) (plain "workspace has no runtime pid; restart workspace"));;
  tokens ← lift (ok_or (xh_tokens h) (plain "failed to inject workspace auth"));
  let j := new_job (xh_job_id h) (xh_started h) (sandbox_id w) (id w) Foreground command ttl false in
  on_exec_jobs (persist_job (xh_first h) j);;
  touch_process 0 w;;
  on_exec_jobs (modify (xh_meanwhile h));;
  run_command w cwd command scrub tokens j.
End exec.

(** ** Detached commands (workspace/exec/detached.rs) *)

Record detached_host := mkDetached {
  dh_job_id : string;
  dh_started : string;
  dh_jobs : job_host;
  dh_spawned : option Z;                          (** the pid of the helper *)
  dh_ticks : option Z;
  dh_group : option Z;                            (** [process_group_id] *)
  dh_touch : txn_host * bool * string }.

Definition fail_detached (h : detached_host) (why : string) (j : JobRecord) : stm exec_state unit :=
  let j' := with_outcome JobFailed (exit_code j) (Some why) (jh_stamp (dh_jobs h)) j in
  on_exec_jobs (persist_job (dh_jobs h) j');;
  on_exec_jobs (modify (update_job j')).

Definition spawn_workspace_command_detached (h : detached_host) (w : WorkspaceMetadata) (command : list string)
    (ttl : option Z) (keep : bool) : stm exec_state JobRecord :=
  let j := new_job (dh_job_id h) (dh_started h) (sandbox_id w) (id w) Background command ttl keep in
  on_exec_jobs (persist_job (dh_jobs h) j);;
  on_exec_jobs (modify (update_job j));;
  match (if bool_decide (command = []) then bail "workspace command helper requires a command"
         else if negb (is_running (status w)) then bail "workspace is not running; start workspace first"
         else ok_or (dh_spawned h) (plain "failed to execute workspace command via internal helper")) with
  | Err e => fail_detached h (error_text e) j;; lift (Err e)
  | Ok pid =>
      match dh_ticks h with
      | None =>
          fail_detached h "failed to record detached command start time" (with_process (Some pid) None None j);;
          throw "failed to record detached command start time"
      | Some ticks =>
          let group := match dh_group h with Some g => if g =? pid then Some g else None | None => None end in
          let j := with_process (Some pid) (Some ticks) group j in
          on_exec_jobs (persist_job (dh_jobs h) j);;
          on_exec_jobs (modify (update_job j));;
          (let '(t, persist, stamp) := dh_touch h in
           on_exec_world (write_txn t (touch persist stamp Process (sandbox_id w) (id w)));; mret tt);;
          mret j
      end
  end.

(** The waiter, once the helper has exited and its group has been signalled: [status] is
    the helper's exit code, absent for a signal, [None] when it could not be waited for. *)
Definition detached_outcome (status : option (option Z)) (group_survived : bool) : JobStatus * option Z * option string :=
  (match status with
   | Some (Some 0) => if group_survived then JobFailed else JobExited
   | _ => JobFailed
   end,
   default None status,
   if group_survived then Some "the command exited but processes it started are still running" else None).
Definition await_detached (h : job_host) (jid : string) (status : option (option Z)) (group_survived : bool) : stm exec_state unit :=
  let '(s, code, error) := detached_outcome status group_survived in
  catch (on_exec_jobs (finish_job h jid s code error));; mret tt.

(** * What a command's output goes through *)

Lemma str_take_length n s : String.length (str_take n s) = Nat.min n (String.length s).
Proof. revert s. induction n as [|n IH]; intros [|c s]; cbn; [done..|]. by rewrite IH. Qed.
Lemma str_take_all n s : (String.length s ≤ n)%nat → str_take n s = s.
Proof. revert s. induction n as [|n IH]; intros [|c s] H; cbn in *; [done|lia|done|]. by rewrite IH by lia. Qed.
Lemma str_take_app_any n s t : str_take n (s +:+ t) = str_take n s +:+ str_take (n - String.length s) t.
Proof.
  revert n. induction s as [|c s IH]; intros n; cbn [String.append String.length].
  - rewrite Nat.sub_0_r. by destruct n.
  - destruct n as [|n]; [done|]. cbn. by rewrite IH.
Qed.

Lemma drain_pipe_output answers output :
  str_len output ≤ MAX_HELPER_OUTPUT_BYTES →
  (drain_pipe answers output).2 = str_take (Z.to_nat MAX_HELPER_OUTPUT_BYTES) (output +:+ read_bytes answers).
Proof.
  set (cap := MAX_HELPER_OUTPUT_BYTES). unfold str_len. revert output.
  induction answers as [|a answers IH]; intros output H; cbn [drain_pipe read_bytes snd].
  { rewrite str_app_nil_r, str_take_all; [done|lia]. }
  destruct a as [s| | | |]; cbn [snd]; try (rewrite str_app_nil_r, str_take_all; [done|lia]); [|by apply IH].
  fold cap. unfold str_len. destruct (Z.ltb_spec (Z.of_nat (String.length output)) cap) as [Hlt|Hge].
  - assert (str_take (Z.to_nat (Z.min (Z.of_nat (String.length s)) (cap - Z.of_nat (String.length output)))) s =
            str_take (Z.to_nat cap - String.length output) s) as ->.
    { destruct (Nat.le_ge_cases (String.length s) (Z.to_nat cap - String.length output)).
      - rewrite !str_take_all; [done|lia|lia].
      - f_equal. lia. }
    rewrite IH; [|rewrite str_length_app, str_take_length; lia].
    rewrite !str_app_assoc, !(str_take_app_any _ output). f_equal. rewrite !str_take_app_any, str_take_length.
    destruct (Nat.le_ge_cases (String.length s) (Z.to_nat cap - String.length output)) as [Hs|Hs].
    + rewrite (str_take_all _ (str_take _ s)) by (rewrite str_take_length; lia). f_equal. f_equal. lia.
    + rewrite (str_take_all _ (str_take _ s)) by (rewrite str_take_length; lia). f_equal. f_equal. lia.
  - rewrite IH by lia. rewrite !(str_take_app_any _ output), !str_take_all by lia.
    replace (Z.to_nat cap - String.length output)%nat with 0%nat by lia. by destruct (read_bytes answers), (s +:+ read_bytes answers).
Qed.

(** ** The answer is read as it was written *)

Lemma first_line_app line rest : free "010" line = true → first_line (line +:+ String "010" rest) = Some line.
Proof.
  induction line as [|c line IH]; cbn; [done|]. intros [Hc Hl]%andb_true_iff. apply negb_true_iff in Hc. by rewrite Hc, IH.
Qed.
Lemma first_line_free s : free "010" s = true → first_line s = None.
Proof.
  induction s as [|c s IH]; cbn; [done|]. intros [Hc Hl]%andb_true_iff. apply negb_true_iff in Hc. by rewrite Hc, IH.
Qed.
Lemma first_line_Some s line : first_line s = Some line → free "010" line = true ∧ ∃ rest, s = line +:+ String "010" rest.
Proof.
  revert line. induction s as [|c s IH]; intros line; cbn; [done|].
  destruct (c =? "010")%char eqn:Ec.
  - intros [= <-]. apply Ascii.eqb_eq in Ec as ->. split; [done|]. by exists s.
  - intros (line' & [Hf [rest ->]]%IH & ->)%fmap_Some. cbn. rewrite Ec. split; [done|]. by exists rest.
Qed.

(** The bytes a turn reads, when it reads any. *)
Definition turn_bytes (t : poll_turn) : string :=
  match polled t with Polled true => read_bytes (answers t) | _ => "" end.
Fixpoint turns_bytes (turns : list poll_turn) : string :=
  match turns with [] => "" | t :: rest => turn_bytes t +:+ turns_bytes rest end.

(** A turn that ends nothing by itself. *)
Definition calm_answer (a : read_answer) : bool := match a with ReadEof | ReadFailed => false | _ => true end.
Definition calm (t : poll_turn) : bool :=
  negb (deadline_passed t) && match polled t with PollBroken => false | _ => true end && forallb calm_answer (answers t).

Lemma read_available_line answers response line :
  read_available answers response = Line line → is_utf8 line = true ∧ free "010" line = true ∧
  (∃ rest, response +:+ read_bytes answers = line +:+ String "010" rest) ∧ str_len line < MAX_HELPER_RESPONSE_BYTES.
Proof.
  revert response. induction answers as [|a answers IH]; intros response; cbn [read_available]; [done|].
  destruct a as [s| | | |]; try done; [|by apply IH]. cbv zeta. destruct (Z.ltb_spec MAX_HELPER_RESPONSE_BYTES (str_len (response +:+ s))); [done|].
  destruct (first_line (response +:+ s)) as [l|] eqn:E.
  - destruct (is_utf8 l) eqn:Eu; [|done]. intros [= <-]. apply first_line_Some in E as [Hf [rest E]]. split_and!; [done..| |].
    + cbn. exists (rest +:+ read_bytes answers). by rewrite <- str_app_assoc, E, str_app_assoc.
    + unfold str_len in *. rewrite E, str_length_app in H. cbn in H. lia.
  - intros H'%IH. cbn. by rewrite str_app_assoc in H'.
Qed.
Lemma read_available_waiting answers response response' :
  read_available answers response = Waiting response' → response' = response +:+ read_bytes answers.
Proof.
  revert response. induction answers as [|a answers IH]; intros response; cbn [read_available].
  - intros [= <-]. cbn. by rewrite str_app_nil_r.
  - destruct a as [s| | | |]; try done.
    + cbv zeta. case_match; [done|]. repeat case_match; try done. intros ->%IH. cbn. by rewrite str_app_assoc.
    + intros [= <-]. cbn. by rewrite str_app_nil_r.
    + by intros ->%IH.
Qed.

Lemma str_len_app s t : str_len (s +:+ t) = str_len s + str_len t.
Proof. unfold str_len. rewrite str_length_app. lia. Qed.
Lemma str_len_pos s : 0 ≤ str_len s.
Proof. unfold str_len. lia. Qed.

Section one_line.
Context (line : string) (Hfree : free "010" line = true) (Hutf : is_utf8 line = true).
Context (Hlen : str_len line < MAX_HELPER_RESPONSE_BYTES).

Lemma proper_prefix response more : response +:+ more = line +:+ String "010" "" → more ≠ "" →
  free "010" response = true ∧ str_len response ≤ str_len line.
Proof.
  intros E Hm. assert (String.length response ≤ String.length line)%nat as Hl.
  { apply (f_equal String.length) in E. rewrite !str_length_app in E.
    change (String.length (String "010" "")) with 1%nat in E. destruct more as [|c more]; [done|].
    change (String.length (String c more)) with (S (String.length more)) in E. lia. }
  symmetry in E. destruct (str_app_cut _ _ _ _ E Hl) as (d & Hd & _). unfold str_len. split; [|lia].
  clear -Hfree Hd. subst line. unfold free in *. rewrite str_all_app in Hfree. by apply andb_true_iff in Hfree as [? _].
Qed.

(** As long as something is missing, the daemon waits for it. *)
Lemma read_available_pending answers response todo :
  forallb calm_answer answers = true → response +:+ (read_bytes answers +:+ todo) = line +:+ String "010" "" → todo ≠ "" →
  read_available answers response = Waiting (response +:+ read_bytes answers).
Proof.
  revert response. induction answers as [|a answers IH]; intros response Hc E Ht; cbn [read_available read_bytes].
  { by rewrite str_app_nil_r. }
  cbn in Hc. apply andb_true_iff in Hc as [Ha Hc]. destruct a as [s| | | |]; try done; [|by rewrite str_app_nil_r|by apply IH].
  cbv zeta. cbn [read_bytes] in E. rewrite !str_app_assoc in E.
  assert ((response +:+ s) +:+ (read_bytes answers +:+ todo) = line +:+ String "010" "") as E' by by rewrite str_app_assoc.
  destruct (proper_prefix _ _ E') as [Hf Hl]; [by destruct (read_bytes answers), todo|].
  destruct (Z.ltb_spec MAX_HELPER_RESPONSE_BYTES (str_len (response +:+ s))); [lia|]. rewrite (first_line_free _ Hf).
  rewrite IH; [|done..]. by rewrite str_app_assoc.
Qed.

(** When the last piece is there, the daemon has the line. *)
Lemma read_available_complete answers response :
  forallb calm_answer answers = true → free "010" response = true → response +:+ read_bytes answers = line +:+ String "010" "" →
  read_available answers response = Line line.
Proof.
  revert response. induction answers as [|a answers IH]; intros response Hc Hr E; cbn [read_available].
  all: assert (response ≠ line +:+ String "010" "") as Hne
    by (intros ->; rewrite (first_line_app line "") in * || (apply first_line_free in Hr; by rewrite first_line_app in Hr)).
  { cbn in E. by rewrite str_app_nil_r in E. }
  cbn in Hc. apply andb_true_iff in Hc as [Ha Hc]. destruct a as [s| | | |]; try done; cbn [read_bytes] in E;
    [|by rewrite str_app_nil_r in E|by apply IH].
  cbv zeta. rewrite <- str_app_assoc in E. destruct (decide (read_bytes answers = "")) as [Hz|Hz].
  - rewrite Hz, str_app_nil_r in E. rewrite E, first_line_app, Hutf by done. rewrite str_len_app.
    destruct (Z.ltb_spec MAX_HELPER_RESPONSE_BYTES (str_len line + str_len (String "010" ""))) as [H|]; [|done].
    change (str_len (String "010" "")) with 1 in H. lia.
  - destruct (proper_prefix _ _ E Hz) as [Hf Hl].
    destruct (Z.ltb_spec MAX_HELPER_RESPONSE_BYTES (str_len (response +:+ s))); [lia|]. rewrite (first_line_free _ Hf). by apply IH.
Qed.

Lemma read_response_pieces before t after response :
  Forall (λ t, calm t = true ∧ client_gone t = false) before → calm t = true → free "010" response = true →
  response +:+ (turns_bytes before +:+ turn_bytes t) = line +:+ String "010" "" → turn_bytes t ≠ "" →
  read_response (before ++ t :: after) response = Some (inl line).
Proof.
  revert response. induction before as [|b before IH]; intros response Hb Ht Hr E Hne; cbn [app read_response].
  - unfold calm in Ht. apply andb_true_iff in Ht as [[Hd Hp]%andb_true_iff Ha]. apply negb_true_iff in Hd. rewrite Hd.
    unfold turn_bytes in *. destruct (polled t) as [| |[]]; try done. by rewrite read_available_complete.
  - apply list.Forall_cons in Hb as [[Hc Hg] Hb]. unfold calm in Hc.
    apply andb_true_iff in Hc as [[Hd Hp]%andb_true_iff Ha]. apply negb_true_iff in Hd. rewrite Hd.
    cbn [turns_bytes] in E. unfold turn_bytes at 1 in E. destruct (polled b) as [| |[]]; try done.
    + by apply IH.
    + rewrite str_app_assoc in E. rewrite (read_available_pending _ _ (turns_bytes before +:+ turn_bytes t)); [|done|done|].
      * rewrite Hg. apply IH; [done..| |by rewrite str_app_assoc|done].
        apply (proper_prefix _ (turns_bytes before +:+ turn_bytes t)); [by rewrite str_app_assoc|]. by destruct (turns_bytes before), (turn_bytes t).
      * by destruct (turns_bytes before), (turn_bytes t).
    + rewrite Hg. by apply IH.
Qed.
End one_line.

(** ** The answer of a helper *)

Lemma print_fuel_length fuel n acc : (String.length (print_fuel fuel n acc) ≤ fuel + String.length acc)%nat.
Proof.
  revert n acc. induction fuel as [|fuel IH]; intros n acc; cbn [print_fuel]; [lia|]. case_match; [cbn; lia|].
  etrans; [apply IH|]. cbn. lia.
Qed.
Lemma print_uint_length n : 0 ≤ n < 2 ^ 31 + 1 → str_len (print_uint n) ≤ 33.
Proof.
  intros H. unfold str_len, print_uint. pose proof (print_fuel_length (S (Z.to_nat (Z.log2 n))) n "") as Hl. cbn [String.length] in Hl.
  assert (Z.log2 n ≤ 31) by (transitivity (Z.log2 (2 ^ 31)); [apply Z.log2_le_mono; lia|done]). lia.
Qed.
Lemma print_i32_length n : - 2 ^ 31 ≤ n < 2 ^ 31 → str_len (print_i32 n) ≤ 34.
Proof.
  intros H. unfold print_i32. destruct (Z.ltb_spec n 0).
  - change (String "-" ?x) with (String "-" "" +:+ x). rewrite str_len_app. pose proof (print_uint_length (- n) ltac:(lia)).
    change (str_len (String "-" "")) with 1. lia.
  - pose proof (print_uint_length n ltac:(lia)). lia.
Qed.
Lemma print_i32_chars n : str_all (λ c, is_ascii_digit c || (c =? "-")%char) (print_i32 n) = true.
Proof.
  assert (∀ m, str_all (λ c, is_ascii_digit c || (c =? "-")%char) (print_uint m) = true) as H
    by (intros m; eapply str_all_impl; [|apply print_uint_digits]; intros c ->; done).
  unfold print_i32. destruct (n <? 0); [|apply H]. cbn [str_all]. by rewrite H.
Qed.

Lemma response_length code out err :
  - 2 ^ 31 ≤ code < 2 ^ 31 → str_len out ≤ MAX_HELPER_OUTPUT_BYTES → str_len err ≤ MAX_HELPER_OUTPUT_BYTES →
  str_len (command_response code out err) < MAX_HELPER_RESPONSE_BYTES.
Proof.
  intros Hc Ho He. unfold command_response, json_field, json_string. rewrite !str_len_app.
  assert (∀ s, str_len (json_escape (from_utf8_lossy s)) ≤ 6 * str_len s) as Hl
    by (intros s; unfold str_len; pose proof (escaped_lossy_length s); lia).
  pose proof (Hl out). pose proof (Hl err). pose proof (print_i32_length code Hc).
  assert (∀ s n, str_len s =? n = true → str_len s = n) as Hk by (intros s n; apply Z.eqb_eq).
  rewrite (Hk "{" 1), (Hk "," 1), (Hk ":" 1), (Hk "}" 1), (Hk quote 1), (Hk (json_escape "exit_code") 9),
    (Hk (json_escape "stdout") 6), (Hk (json_escape "stderr") 6) by done.
  unfold MAX_HELPER_RESPONSE_BYTES in *. lia.
Qed.

Lemma response_free code out err : free "010" (command_response code out err) = true.
Proof.
  unfold command_response, json_field, json_string. unfold free. rewrite !str_all_app.
  pose proof (json_escape_free (from_utf8_lossy out)) as Ho. pose proof (json_escape_free (from_utf8_lossy err)) as He.
  unfold free in Ho, He. rewrite Ho, He.
  assert (str_all (λ a, negb (a =? "010")%char) (print_i32 code) = true) as ->; [|done].
  eapply str_all_impl; [|apply print_i32_chars]. intros c Hc. by destruct c as [[] [] [] [] [] [] [] []].
Qed.
Lemma response_utf8 code out err : is_utf8 (command_response code out err) = true.
Proof.
  apply strict_is_utf8. unfold command_response, json_field, json_string.
  assert (strict_utf8 (print_i32 code)) as Hp
    by (apply ascii_strict; eapply str_all_impl; [|apply print_i32_chars]; intros c Hc; by destruct c as [[] [] [] [] [] [] [] []]).
  repeat apply strict_utf8_app; try done; try (by apply ascii_strict); apply escape_strict, lossy_is_strict.
Qed.

(** Everything captured of one stream, over all the times its pipe was drained. *)
Definition capture (drains : list (list read_answer)) : string := foldl (λ out a, (drain_pipe a out).2) "" drains.
Definition written (drains : list (list read_answer)) : string := foldr (λ a s, read_bytes a +:+ s) "" drains.

Lemma capture_exact drains : capture drains = str_take (Z.to_nat MAX_HELPER_OUTPUT_BYTES) (written drains).
Proof.
  assert (∀ out, str_len out ≤ MAX_HELPER_OUTPUT_BYTES →
    foldl (λ out a, (drain_pipe a out).2) out drains = str_take (Z.to_nat MAX_HELPER_OUTPUT_BYTES) (out +:+ written drains)) as H;
    [|by apply (H "")].
  unfold str_len. induction drains as [|a drains IH]; intros out Ho; cbn [foldl written foldr].
  { rewrite str_app_nil_r, str_take_all; [done|lia]. }
  fold (written drains). rewrite drain_pipe_output by done. rewrite IH by (rewrite str_take_length; lia).
  set (cap := Z.to_nat MAX_HELPER_OUTPUT_BYTES) in *. rewrite <- str_app_assoc.
  rewrite (str_take_app_any cap (out +:+ read_bytes a)), (str_take_app_any cap (str_take cap _)), str_take_length.
  rewrite (str_take_all cap (str_take cap _)) by (rewrite str_take_length; lia). f_equal.
  destruct (Nat.le_ge_cases (String.length (out +:+ read_bytes a)) cap).
  - f_equal. lia.
  - replace (cap - String.length (out +:+ read_bytes a))%nat with 0%nat by lia.
    replace (cap - Nat.min cap (String.length (out +:+ read_bytes a)))%nat with 0%nat by lia. done.
Qed.

(** One more drain of a pipe: nothing is lost and nothing read twice. *)
Lemma capture_snoc drains a : capture (drains ++ [a]) = (drain_pipe a (capture drains)).2.
Proof. unfold capture. by rewrite foldl_app. Qed.
(** Whether a drain meets the end of the stream. *)
Fixpoint meets_eof (answers : list read_answer) : bool :=
  match answers with
  | ReadEof :: _ => true
  | ReadData _ :: rest | ReadInterrupted :: rest => meets_eof rest
  | _ => false
  end.

(** The drains of the two pipes up to the turn that sees the exit, the last one
    included: a pipe is drained when it is ready, until a drain meets its end. *)
Fixpoint reads_until_exit (turns : list drain_turn) (o e : bool)
    : list (list read_answer) * list (list read_answer) * bool * bool :=
  match turns with
  | [] => ([], [], o, e)
  | t :: rest =>
      let outs := if o && out_ready t then [out_answers t] else [] in
      let o' := o && negb (existsb meets_eof outs) in
      let errs := if e && (if o' then err_ready t else if o then out_ready t else err_ready t)
                  then [err_answers t] else [] in
      let e' := e && negb (existsb meets_eof errs) in
      match waited t with
      | Some StillAlive | Some OtherStatus =>
          let '(outs', errs', o2, e2) := reads_until_exit rest o' e' in (outs ++ outs', errs ++ errs', o2, e2)
      | _ => (outs, errs, o', e')
      end
  end.

(** The drains of one pipe after the exit: at every poll that finds it ready, until its
    end or the deadline. *)
Fixpoint reads_after_exit (turns : list poll_turn) (is_open : bool) : list (list read_answer) :=
  if negb is_open then []
  else
    match turns with
    | [] => []
    | t :: rest =>
        if deadline_passed t then []
        else match polled t with
             | Polled true => answers t :: reads_after_exit rest (negb (meets_eof (answers t)))
             | _ => reads_after_exit rest true
             end
    end.

(** Everything that is read of the standard output and of the standard error. *)
Definition output_reads (drains : list drain_turn) (out_turns : list poll_turn) : list (list read_answer) :=
  let '(outs, _, o, _) := reads_until_exit drains true true in outs ++ reads_after_exit out_turns o.
Definition error_reads (drains : list drain_turn) (err_turns : list poll_turn) : list (list read_answer) :=
  let '(_, errs, _, e) := reads_until_exit drains true true in errs ++ reads_after_exit err_turns e.

Lemma drain_pipe_closed answers output closed out : drain_pipe answers output = (Ok closed, out) → closed = meets_eof answers.
Proof.
  revert output. induction answers as [|a answers IH]; intros output; cbn [drain_pipe meets_eof]; [by intros [= <- _]|].
  destruct a; try (by intros [= <- _]); [apply IH|apply IH].
Qed.

(** A pipe that captured exactly [drains], and is closed when one of them met its end. *)
Definition reads (p : pipe) (drains : list (list read_answer)) : Prop :=
  captured p = capture drains ∧ is_open p = negb (existsb meets_eof drains).

Lemma drain_if_reads ready a p p' drains : reads p drains → drain_if ready a p = Ok p' →
  let more := if is_open p && ready then [a] else [] in
  reads p' (drains ++ more) ∧ is_open p' = is_open p && negb (existsb meets_eof more).
Proof.
  intros [Hp Ho]. unfold drain_if. destruct (is_open p) eqn:Eo, ready; cbn [andb].
  2-4: intros [= <-]; rewrite app_nil_r; split; [split; [done|by rewrite Eo]|by rewrite Eo].
  destruct (drain_pipe a (captured p)) as [[closed|e] out] eqn:E; [|done]. intros [= <-].
  apply drain_pipe_closed in E as Hc. cbn. rewrite orb_false_r. split; [|by rewrite Hc]. split; cbn.
  - by rewrite capture_snoc, <- Hp, E.
  - rewrite existsb_app. cbn. by rewrite orb_false_r, negb_orb, <- Ho, Hc.
Qed.

Lemma drain_until_exit_reads turns o e outs errs code o' e' :
  reads o outs → reads e errs → drain_until_exit turns o e = Some (Ok (code, o', e')) →
  (∃ t, t ∈ turns ∧ (waited t = Some (Exited code) ∨ ∃ signal, waited t = Some (Signaled signal) ∧ code = 128 + signal)) ∧
  let '(more_out, more_err, oo, ee) := reads_until_exit turns (is_open o) (is_open e) in
  reads o' (outs ++ more_out) ∧ reads e' (errs ++ more_err) ∧ is_open o' = oo ∧ is_open e' = ee.
Proof.
  revert o e outs errs. induction turns as [|t turns IH]; intros o e outs errs Ho He;
    cbn [drain_until_exit reads_until_exit]; [done|].
  case_match; [done|].
  destruct (drain_if (out_ready t) _ o) as [o1|] eqn:Eo; [|done]. destruct (drain_if _ _ e) as [e1|] eqn:Ee; [|done].
  eapply drain_if_reads in Eo as [Ho1 Eo]; [|exact Ho]. eapply drain_if_reads in Ee as [He1 Ee]; [|exact He].
  cbv zeta in *. rewrite Eo in Ee, He1. set (mo := if is_open o && _ then _ else _) in *.
  set (me := if is_open e && _ then _ else _) in *.
  assert (∀ c, (waited t = Some (Exited c) ∨ ∃ signal, waited t = Some (Signaled signal) ∧ c = 128 + signal) →
    ∃ t0, t0 ∈ t :: turns ∧ (waited t0 = Some (Exited c) ∨ ∃ signal, waited t0 = Some (Signaled signal) ∧ c = 128 + signal))
    as Hhere by (intros c Hc; exists t; split; [by left|done]).
  destruct (waited t) as [[c|s| |]|] eqn:Ew; try done; intros E.
  1,2: injection E as <- <- <-; split; [apply Hhere; eauto|by split_and!].
  all: destruct (IH _ _ _ _ Ho1 He1 E) as [(t' & Ht' & Hw) Hrest]; (split; [exists t'; split; [by right|done]|]);
    rewrite <- Eo, <- Ee; destruct (reads_until_exit turns (is_open o1) (is_open e1)) as [[[mo' me'] oo] ee];
    rewrite !app_assoc; done.
Qed.

Lemma drain_after_exit_reads turns p closed out drains : reads p drains →
  drain_after_exit turns p = Some (Ok (closed, out)) →
  let more := reads_after_exit turns (is_open p) in
  out = capture (drains ++ more) ∧ (closed = true → existsb meets_eof (drains ++ more) = true).
Proof.
  revert p drains. induction turns as [|t turns IH]; intros p drains Hp; cbn [drain_after_exit reads_after_exit];
    destruct (is_open p) eqn:Eo; cbn [negb]; try done.
  1,3: intros [= <- <-]; cbv zeta; rewrite app_nil_r; split; [apply Hp|intros _];
    destruct Hp as [_ Hp]; rewrite Eo in Hp; by destruct (existsb meets_eof drains).
  destruct (deadline_passed t); [intros [= <- <-]; cbv zeta; rewrite app_nil_r; split; [apply Hp|done]|].
  destruct (polled t) as [| |[]]; try done.
  - intros H. specialize (IH _ _ Hp H). by rewrite Eo in IH.
  - destruct (drain_if true _ p) as [p'|] eqn:E; [|done]. eapply drain_if_reads in E as [Hp' E]; [|exact Hp].
    rewrite Eo in Hp', E. cbn [andb existsb] in Hp', E. rewrite orb_false_r in E.
    intros H. destruct (IH _ _ Hp' H) as [IH1 IH2]. rewrite E, <- app_assoc in IH1, IH2. by split.
  - intros H. specialize (IH _ _ Hp H). by rewrite Eo in IH.
Qed.

(** What a wait status of the kernel can be. *)
Definition real_status (t : drain_turn) : Prop :=
  match waited t with Some (Exited c) => 0 ≤ c ≤ 255 | Some (Signaled s) => 1 ≤ s ≤ 64 | _ => True end.

(** C17: the result of a command reaches the daemon.  However a command's output arrives
    at its helper, the helper answers the status the command ended with and, of each
    stream, the first sixteen mebibytes of everything its pipe gave up to the exit and,
    after it, up to the end of the stream or the deadline, in order and byte for byte;
    unless it reports that it gave up at the deadline, both streams were read to their
    end; its answer is one line of well-formed text below the limit of the daemon,
    whatever bytes were captured; and however that line is cut into reads and polls, the
    daemon reads exactly it, even if its client leaves at that moment. *)
Theorem command_result_delivered drains out_turns err_turns code out err timed_out before t after :
  Forall real_status drains →
  drain_command_pipes drains out_turns err_turns = Some (Ok (code, out, err, timed_out)) →
  let answer := command_response code out err in
  Forall (λ t, calm t = true ∧ client_gone t = false) before → calm t = true →
  turns_bytes before +:+ turn_bytes t = answer +:+ String "010" "" → turn_bytes t ≠ "" →
  (∃ d, d ∈ drains ∧ (waited d = Some (Exited code) ∨ ∃ signal, waited d = Some (Signaled signal) ∧ code = 128 + signal)) ∧
  out = str_take (Z.to_nat MAX_HELPER_OUTPUT_BYTES) (written (output_reads drains out_turns)) ∧
  err = str_take (Z.to_nat MAX_HELPER_OUTPUT_BYTES) (written (error_reads drains err_turns)) ∧
  (timed_out = false → existsb meets_eof (output_reads drains out_turns) = true ∧
                       existsb meets_eof (error_reads drains err_turns) = true) ∧
  read_response (before ++ t :: after) "" = Some (inl answer).
Proof.
  intros Hreal Hd answer Hb Ht E Hne. unfold drain_command_pipes in Hd.
  destruct (drain_until_exit drains _ _) as [[[[c o] e]|]|] eqn:E1; try done.
  destruct (drain_after_exit out_turns o) as [[[oc o2]|]|] eqn:E2; try done.
  destruct (drain_after_exit err_turns e) as [[[ec e2]|]|] eqn:E3; try done. injection Hd as <- <- <- Htime.
  apply (drain_until_exit_reads _ _ _ [] []) in E1 as [Hcode E1]; [|by split..]. cbn [is_open] in E1.
  unfold output_reads, error_reads.
  destruct (reads_until_exit drains true true) as [[[mo me] oo] ee]. destruct E1 as (Ho & He & <- & <-).
  eapply drain_after_exit_reads in E2 as [Eo2 Co2]; [|exact Ho].
  eapply drain_after_exit_reads in E3 as [Ee2 Ce2]; [|exact He]. cbn [app] in *.
  split; [done|]. split; [rewrite Eo2; apply capture_exact|]. split; [rewrite Ee2; apply capture_exact|].
  split; [by intros ->; destruct oc, ec; auto|].
  assert (∀ drains, str_len (capture drains) ≤ MAX_HELPER_OUTPUT_BYTES) as Hcap
    by (intros l; assert (0 ≤ MAX_HELPER_OUTPUT_BYTES) by done; rewrite capture_exact; unfold str_len; rewrite str_take_length; lia).
  assert (- 2 ^ 31 ≤ c < 2 ^ 31).
  { destruct Hcode as (d & Hd & Hw). rewrite list.Forall_forall in Hreal. specialize (Hreal _ Hd). unfold real_status in Hreal.
    destruct Hw as [Hw|(s & Hw & ->)]; rewrite Hw in Hreal; lia. }
  apply read_response_pieces; [apply response_free|apply response_utf8|by apply response_length; [|rewrite ?Eo2, ?Ee2; apply Hcap..]|done..].
Qed.

Lemma command_result_delivered_witness :
  let answer := command_response 0 "hi" "" in
  let drain := mkDrain false true false [ReadData "h"; ReadBlock] [] (Some StillAlive) in
  let exit := mkDrain false false true [] [ReadEof] (Some (Exited 0)) in
  let rest := mkTurn false (Polled true) [ReadData "i"; ReadEof] false in
  let first := mkTurn false (Polled true) [ReadData (str_take 9 answer); ReadBlock] false in
  let last := mkTurn false (Polled true) [ReadInterrupted; ReadData (str_drop 9 answer +:+ String "010" "")] true in
  drain_command_pipes [drain; exit] [rest] [] = Some (Ok (0, "hi", "", false)) ∧
  read_response [first; last] "" = Some (inl answer).
Proof.
  intros answer drain exit rest first last.
  assert (drain_command_pipes [drain; exit] [rest] [] = Some (Ok (0, "hi", "", false))) as H by (by vm_compute).
  split; [exact H|].
  refine (proj2 (proj2 (proj2 (proj2 (command_result_delivered [drain; exit] [rest] [] 0 "hi" "" false [first] last [] _ H _ _ _ _))))).
  - apply list.Forall_cons. split; [exact I|]. apply list.Forall_cons. split; [unfold real_status; cbn; lia|apply list.Forall_nil_2].
  - apply list.Forall_cons. split; [by vm_compute|apply list.Forall_nil_2].
  - by vm_compute.
  - by vm_compute.
  - by vm_compute.
Defined.

(** Whatever is read as an answer was sent, up to its first line break. *)
Lemma answer_was_sent turns response line :
  read_response turns response = Some (inl line) →
  free "010" line = true ∧ ∃ rest, response +:+ turns_bytes turns = line +:+ String "010" rest.
Proof.
  revert response. induction turns as [|t turns IH]; intros response; cbn [read_response turns_bytes]; [done|].
  case_match; [done|]. unfold turn_bytes. destruct (polled t) as [| |[]]; try done.
  - by intros ?%IH.
  - destruct (read_available (answers t) response) as [l|e|r] eqn:E; [|done|].
    + intros [= ->]. apply read_available_line in E as (_ & Hf & [rest E] & _). split; [done|].
      exists (rest +:+ turns_bytes turns). by rewrite <- str_app_assoc, E, str_app_assoc.
    + apply read_available_waiting in E as ->. case_match; [done|]. intros H'%IH. by rewrite str_app_assoc in H'.
  - case_match; [done|]. by intros ?%IH.
Qed.

(** The working directory and the command line of a log entry take one line each,
    whatever characters they are made of: no caller can write a header of its own. *)
Lemma hex_digits_free fuel n acc : free "010" acc = true → free "010" (hex_digits fuel n acc) = true.
Proof.
  revert n acc. induction fuel as [|fuel IH]; intros n acc Hacc; cbn [hex_digits]; [done|].
  assert (free "010" (String (hex_char (n mod 16)) acc) = true) as H.
  { unfold free in *. cbn [str_all]. rewrite Hacc, andb_true_r. pose proof (Nat.mod_upper_bound n 16 ltac:(lia)) as Hn.
    revert Hn. generalize (n mod 16)%nat as m. intros m Hm. do 16 (destruct m as [|m]; [done|]). lia. }
  case_match; [exact H|]. by apply IH.
Qed.
Lemma escape_unicode_free n : free "010" (escape_unicode n) = true.
Proof.
  unfold escape_unicode, free. rewrite !str_all_app. rewrite !andb_true_iff. split; [by vm_compute|]. split; [|done].
  by apply hex_digits_free.
Qed.
Lemma escape_ascii_free c : free "010" (escape_ascii c) = true.
Proof. by destruct c as [[] [] [] [] [] [] [] []]; vm_compute. Qed.

Lemma header_one_line s : free "010" (sanitize_log_header_field s) = true.
Proof.
  assert (∀ x y, free "010" x = true → free "010" y = true → free "010" (x +:+ y) = true) as Happ.
  { intros x y Hx Hy. unfold free in *. by rewrite str_all_app, Hx, Hy. }
  revert s. fix IH 1. intros [|a r]; [done|]. cbn [sanitize_log_header_field].
  pose proof (Happ _ _ (escape_ascii_free a) (IH r)) as Ha.
  destruct (utf8_width a) as [|[|[|[|[|n]]]]]; try exact Ha.
  - destruct r as [|b r2]; [exact Ha|]. apply Happ; [apply escape_unicode_free|apply (IH r2)].
  - destruct r as [|b [|c r3]]; try exact Ha. apply Happ; [apply escape_unicode_free|apply (IH r3)].
  - destruct r as [|b [|c [|d r4]]]; try exact Ha. apply Happ; [apply escape_unicode_free|apply (IH r4)].
Qed.

(** ** The outcome of a command *)

(** What a step of the records leaves alone. *)
Definition same_jobs (st st' : exec_state) : Prop :=
  ex_jobs st' = ex_jobs st ∧ ex_log st' = ex_log st ∧ ex_audit st' = ex_audit st.
Lemma on_world_same {A} (m : stm world A) st r st' : on_exec_world m st = (r, st') → same_jobs st st'.
Proof. unfold on_exec_world. destruct (m (ex_world st)). by intros [= _ <-]. Qed.

Lemma touch_total stamp kind sid wid (st : world) :
  ∃ b r w, touch true stamp kind sid wid st = (Ok b, (r, w)) ∧ version r = version st.1.
Proof.
  unfold touch, mbind, stm_bind, get. destruct (find_workspace st.1 sid wid); [|by exists false, st.1, st.2; destruct st].
  eexists true, _, _. split; reflexivity.
Qed.

Section outcome.
Context (h : exec_host).

Lemma touch_same n w st r st' : touch_process h n w st = (r, st') → same_jobs st st'.
Proof.
  unfold touch_process. destruct (xh_touch h n) as [[t persist] stamp]. unfold mbind, stm_bind.
  destruct (on_exec_world _ st) as [r1 st1] eqn:E. apply on_world_same in E. destruct r1; by intros [= _ <-].
Qed.

(** A host whose registry is current and can be written, with its records. *)
Definition touches (n : nat) : Prop := let '(t, persist, _) := xh_touch h n in
  reachable t = true ∧ saved t = Committed ∧ persist = true ∧ ∀ st, version (before t st).1 = REGISTRY_VERSION.
Lemma touch_works n w st : touches n → ∃ st', touch_process h n w st = (Ok tt, st') ∧ same_jobs st st'.
Proof.
  intros Ht. destruct (touch_process h n w st) as [r st'] eqn:E. pose proof (touch_same _ _ _ _ _ E) as Hs.
  exists st'. split; [|done]. f_equal. unfold touches in Ht. unfold touch_process in E.
  destruct (xh_touch h n) as [[t persist] stamp]. destruct Ht as (H1 & H2 & -> & H3).
  unfold mbind, stm_bind, on_exec_world, write_txn, transact in E. rewrite H1, H2 in E. cbn [negb] in E.
  destruct (touch_total stamp Process (sandbox_id w) (id w) (before t (ex_world st))) as (b & r1 & w1 & Et & Hv).
  rewrite Et, Hv, H3, Z.eqb_refl in E. by injection E as <- _.
Qed.

Lemma persist_Ok (jh : job_host) j st u st' : on_exec_jobs (persist_job jh j) st = (Ok u, st') →
  st' = mkExecState (ex_world st) (with_files <[job_id j := j]> (ex_jobs st)) (ex_log st) (ex_audit st).
Proof.
  unfold on_exec_jobs. destruct (persist_job jh j (ex_jobs st)) as [r a] eqn:E. intros [= -> <-]. unfold persist_job in E.
  apply stm_bind_Ok in E as (p & a1 & E1 & E). apply lift_Ok in E1 as [_ ->].
  apply stm_bind_Ok in E as (u2 & a2 & E2 & E). apply assert_Ok in E2 as (_ & _ & ->). by apply modify_Ok in E as [_ ->].
Qed.
Lemma persist_works (jh : job_host) j st : jh_persist jh (job_id j) = true → is_ok (job_path (job_id j)) = true →
  is_ok (on_exec_jobs (persist_job jh j) st).1 = true.
Proof.
  intros H1 H2. unfold on_exec_jobs, persist_job. unfold mbind, stm_bind, lift. cbn.
  destruct (job_path (job_id j)); [|done]. by rewrite H1.
Qed.
Lemma persist_Err (jh : job_host) j st e st' : on_exec_jobs (persist_job jh j) st = (Err e, st') → st' = st.
Proof.
  unfold on_exec_jobs. destruct (persist_job jh j (ex_jobs st)) as [r a] eqn:E. intros [= -> <-].
  assert (a = ex_jobs st) as ->; [|by destruct st]. unfold persist_job in E.
  apply stm_bind_Err in E as [E|(p & a1 & E1 & E)]; [by injection E as _ <-|]. apply lift_Ok in E1 as [_ ->].
  apply stm_bind_Err in E as [E|(u2 & a2 & E2 & E)]; [|done].
  destruct (jh_persist jh (job_id j)); [done|by injection E as _ <-].
Qed.

(** The record of a command, as [report_command] leaves it. *)
Lemma report_command_spec w cwd command scrub tokens j o st res st' :
  report_command h w cwd command scrub tokens j o st = (res, st') →
  (jh_persist (xh_last h) (job_id j) = true → is_ok (job_path (job_id j)) = true →
     job_files (ex_jobs st') !! job_id j = Some (finished_job h o j)) ∧
  ∀ r, res = Ok r → job_files (ex_jobs st') !! job_id j = Some (finished_job h o j) ∧
      xr_job_id r = Some (job_id j) ∧ xr_exit_code r = out_exit_code o ∧
      ∃ out err, redact tokens (out_stdout o) = Some out ∧ redact tokens (out_stderr o) = Some err ∧
        xr_stdout r = (if scrub then out else out_stdout o) ∧ xr_stderr r = (if scrub then err else out_stderr o) ∧
        ex_log st' = ex_log st +:+ appended_entry h cwd command (out_exit_code o) out err ∧
        ex_audit st' = ex_audit st ++ (if xh_audit h then Auth.name <$> tokens else []).
Proof.
  intros H. unfold report_command in H. unfold mbind at 1, stm_bind at 1 in H.
  pose proof (persist_works (xh_last h) (finished_job h o j) st) as Hok. cbn in Hok.
  destruct (on_exec_jobs _ st) as [[u1|e1] st1] eqn:E1.
  2: { split; [intros Hp Hj; by specialize (Hok Hp Hj)|]. injection H as <- _. done. }
  apply persist_Ok in E1. clear Hok.
  unfold mbind at 1, stm_bind at 1 in H. destruct (touch_process h 2 w st1) as [r2 st2] eqn:E2.
  apply touch_same in E2 as (Hj2 & Hl2 & Ha2).
  assert (job_files (ex_jobs st2) !! job_id j = Some (finished_job h o j)) as Hf
    by (rewrite Hj2; subst st1; cbn; apply lookup_insert_eq).
  destruct r2 as [u2|e2]; [|injection H as <- <-; by split].
  unfold mbind at 1, stm_bind at 1, lift at 1 in H. destruct (redact tokens (out_stdout o)) as [out|]; cbn in H;
    [|injection H as <- <-; by split].
  unfold mbind at 1, stm_bind at 1, lift at 1 in H. destruct (redact tokens (out_stderr o)) as [err|]; cbn in H;
    [|injection H as <- <-; by split].
  assert (ex_log st2 = ex_log st ∧ ex_audit st2 = ex_audit st) as [Hl Ha] by (rewrite Hl2, Ha2; by subst st1).
  unfold record_injection, append_workspace_command_log, modify, mbind, stm_bind, mret in H. cbn in H.
  destruct tokens as [|tok tokens]; destruct (xh_audit h); cbn in H; injection H as <- <-; cbn; rewrite <- ?Hl, <- ?Ha;
    (split; [done|]); intros r [= <-]; cbn; (split; [done|]); (split; [done|]); (split; [done|]); exists out, err;
    split_and!; rewrite ?app_nil_r; done.
Qed.

(** A request that is refused leaves the jobs alone; one that is not runs its command
    under a record. *)
Lemma exec_reaches sb ws cwd command scrub ttl st res st' :
  exec_workspace_command_with_options h sb ws cwd command scrub ttl st = (res, st') →
  ((∃ e, res = Err e) ∧ (touches 0 → same_jobs st st')) ∨
  ∃ w tokens st1, let j := new_job (xh_job_id h) (xh_started h) (sandbox_id w) (id w) Foreground command ttl false in
    xh_tokens h = Some tokens ∧ ex_log st1 = ex_log st ∧ ex_audit st1 = ex_audit st ∧
    run_command h w (sanitize_workspace_cwd cwd) command scrub tokens j st1 = (res, st').
Proof.
  intros H. unfold exec_workspace_command_with_options in H.
  apply stm_bind_cases in H as [(u1 & st1 & H1 & H)|(e & H1 & He)]; [apply assert_Ok in H1 as (_ & _ & ->)|].
  2: { left. split; [eauto|]. intros _. destruct (negb _); [done|by injection H1 as _ <-]. }
  apply stm_bind_cases in H as [(w & st1 & H1 & H)|(e & H1 & He)]; apply on_world_same in H1 as Hs; [|left; eauto].
  destruct Hs as (Ej1 & El1 & Ea1). assert (∀ e, res = Err e → st' = st1 → (∃ e, res = Err e) ∧ (touches 0 → same_jobs st st')) as Hstop
    by (intros e He ->; split; [eauto|intros _; by split_and!]).
  apply stm_bind_cases in H as [(u2 & st2 & H2' & H)|(e & H2' & He)]; [apply assert_Ok in H2' as (_ & _ & ->)|].
  2: { left. apply (Hstop e He). destruct (is_running _); [done|by injection H2' as _ <-]. }
  cbv zeta in H. apply stm_bind_cases in H as [(pid & st2 & H3 & H)|(e & H3 & He)]; [apply lift_Ok in H3 as [_ ->]|].
  2: { left. apply (Hstop e He). by injection H3 as _ <-. }
  apply stm_bind_cases in H as [(tokens & st2 & H3 & H)|(e & H3 & He)]; [apply lift_Ok in H3 as [Htok ->]|].
  2: { left. apply (Hstop e He). by injection H3 as _ <-. }
  apply stm_bind_cases in H as [(u3 & st3 & E2 & H)|(e & E2 & He)]; [apply persist_Ok in E2|apply persist_Err in E2].
  2: { left. by apply (Hstop e He). }
  apply stm_bind_cases in H as [(u4 & st4 & E3 & H)|(e & E3 & He)].
  2: { left. split; [eauto|]. intros H0. destruct (touch_works 0 w st3 H0) as (st5 & E3' & _). by rewrite E3 in E3'. }
  apply touch_same in E3 as (_ & El3 & Ea3).
  apply stm_bind_cases in H as [(u5 & st6 & E4 & H)|(e & E4 & He)]; [injection E4 as _ <-|done].
  right. exists w, tokens. eexists. split; [by destruct (xh_tokens h); [injection Htok as ->|]|].
  split; [|split; [|exact H]]; cbn; [rewrite El3, <- El1|rewrite Ea3, <- Ea1]; by subst st3.
Qed.

End outcome.

(** A detached command and its record: what a caller is answered is what is on disk and
    in the daemon's memory, an identified process; a failed one is recorded as failed in
    both. *)
Lemma detached_recorded h w command ttl keep st res st' :
  let jid := dh_job_id h in
  spawn_workspace_command_detached h w command ttl keep st = (res, st') →
  match res with
  | Ok j => job_id j = jid ∧ is_Some (job_pid j) ∧ is_Some (starttime_ticks j) ∧ job_status j = JobRunning ∧
      (∀ g, process_group j = Some g → job_pid j = Some g) ∧
      job_files (ex_jobs st') !! jid = Some j ∧ live_jobs (ex_jobs st') !! jid = Some j
  | Err _ => jh_persist (dh_jobs h) jid = true → is_ok (job_path jid) = true → dh_spawned h = None ∨ dh_ticks h = None →
      ∃ j, job_files (ex_jobs st') !! jid = Some j ∧ live_jobs (ex_jobs st') !! jid = Some j ∧ job_status j = JobFailed
  end.
Proof.
  intros jid H. unfold spawn_workspace_command_detached in H. cbv zeta in H. set (j := new_job _ _ _ _ _ _ _ _) in H.
  assert (∀ why j0 st1 (m : exec_state → result JobRecord * exec_state) r st2, job_id j0 = jid →
    jh_persist (dh_jobs h) jid = true → is_ok (job_path jid) = true → (∀ st, (m st).2 = st) →
    (fail_detached h why j0 ≫= λ _, m) st1 = (r, st2) →
    ∃ j, job_files (ex_jobs st2) !! jid = Some j ∧ live_jobs (ex_jobs st2) !! jid = Some j ∧ job_status j = JobFailed) as Hfail.
  { intros why j0 st1 m r st2 Hid Hp Hj Hm E. unfold fail_detached in E. set (j' := with_outcome _ _ _ _ j0) in E.
    unfold mbind, stm_bind in E. assert (is_ok (on_exec_jobs (persist_job (dh_jobs h) j') st1).1 = true) as Hok
      by (apply persist_works; cbn; by rewrite Hid).
    destruct (on_exec_jobs (persist_job (dh_jobs h) j') st1) as [[u|e] st3] eqn:E3; [|done]. apply persist_Ok in E3.
    cbn in E. specialize (Hm (mkExecState (ex_world st3) (update_job j' (ex_jobs st3)) (ex_log st3) (ex_audit st3))).
    rewrite E in Hm. cbn in Hm. subst st2 st3. cbn. rewrite Hid, !lookup_insert_eq. by eexists. }
  apply stm_bind_cases in H as [(u1 & st1 & H1 & H)|(e & H1 & ->)].
  2: { intros Hp Hj. pose proof (persist_works (dh_jobs h) j st Hp Hj) as Hok. by rewrite H1 in Hok. }
  apply stm_bind_cases in H as [(u2 & st2 & H2 & H)|(e & H2 & ->)]; [|done].
  destruct (if bool_decide (command = []) then _ else _) as [pid|e] eqn:Es.
  2: { destruct res as [j'|e']; [|intros Hp Hj _; eapply (Hfail _ j); [..|exact H]; done].
       apply stm_bind_Ok in H as (u3 & st3 & _ & H). by apply lift_Ok in H as [? _]. }
  destruct (dh_ticks h) as [ticks|] eqn:Et.
  2: { destruct res as [j'|e']; [|intros Hp Hj _; eapply (Hfail _ (with_process (Some pid) None None j)); [..|exact H]; done].
       apply stm_bind_Ok in H as (u3 & st3 & _ & H). by apply throw_Ok in H. }
  destruct res as [j'|e'].
  2: { intros _ _ [Hn|Hn]; [|done]. rewrite Hn in Es. by repeat case_match. }
  set (jf := with_process _ _ _ j) in H. apply stm_bind_Ok in H as (u3 & st3 & H3 & H). apply persist_Ok in H3.
  apply stm_bind_Ok in H as (u4 & st4 & H4 & H). injection H4 as _ <-.
  apply stm_bind_Ok in H as (u5 & st5 & H5 & H). apply mret_Ok in H as [-> ->].
  assert (ex_jobs st5 = update_job jf (ex_jobs st3)) as Ej.
  { destruct (dh_touch h) as [[t persist] stamp]. apply stm_bind_Ok in H5 as (b & st6 & H5 & H6). apply mret_Ok in H6 as [_ ->].
    by apply on_world_same in H5 as [-> _]. }
  rewrite Ej, H3. cbn. rewrite !lookup_insert_eq. split_and!; try done.
  intros g. destruct (dh_group h) as [g'|]; [|done]. destruct (Z.eqb_spec g' pid) as [Hg|]; [|done]. intros [= <-]. by f_equal.
Qed.

(** ** Where a command may start *)

Lemma has_control_split s : has_control s = existsb has_control (split "/" s).
Proof.
  induction s as [|c s IH]; [done|]. cbn [has_control split]. rewrite IH. clear IH.
  destruct (c =? "/")%char eqn:Ec.
  { apply Ascii.eqb_eq in Ec as ->. done. }
  destruct s as [|d s]; cbn [split existsb has_control]; [by rewrite !orb_false_r|].
  destruct (d =? "/")%char eqn:Ed.
  - apply Ascii.eqb_eq in Ed as ->. cbn. by rewrite !andb_false_r, !orb_false_r.
  - destruct (split "/" s) as [|h t] eqn:Es; [by destruct (split_not_nil "/" s)|]. cbn. by rewrite <- !orb_assoc.
Qed.

Lemma split_concat parts : parts ≠ [] → Forall (λ p, free "/" p = true) parts → split "/" (String.concat "/" parts) = parts.
Proof.
  intros Hne. induction 1 as [|p parts Hp Hps IH]; [done|]. destruct parts as [|q parts]; cbn [String.concat].
  - by apply split_free.
  - change ("/" +:+ ?x) with (String "/" x). rewrite split_app_any, split_free by done. cbn. f_equal. by apply IH.
Qed.

Lemma filter_all {A} (P : A → Prop) `{∀ x, Decision (P x)} l : Forall P l → filter P l = l.
Proof. induction 1 as [|x l Hx _ IH]; [done|]. by rewrite filter_cons_True, IH. Qed.

Lemma split_pieces_free s : Forall (λ p, free "/" p = true) (split "/" s).
Proof.
  induction s as [|c s IH]; cbn [split]; [by repeat constructor|]. destruct (c =? "/")%char eqn:Ec; [by constructor|].
  destruct (split "/" s) as [|h t]; [constructor; [cbn; by rewrite Ec|constructor]|].
  apply list.Forall_cons in IH as [Hh Ht]. constructor; [|done]. unfold free in *. cbn [str_all]. by rewrite Ec, Hh.
Qed.

(** A command starts below the home of its workspace.  Whatever working directory a
    request names, the one that is used is absolute, has [home] as its first component
    and no [.], [..] or empty one after it, contains no control character, and is its own
    normal form. *)
Theorem cwd_stays_home cwd :
  let r := sanitize_workspace_cwd cwd in
  (∃ rest, path_components r = "" :: "home" :: rest ∧ Forall (λ c, c ≠ "" ∧ c ≠ "." ∧ c ≠ "..") rest) ∧
  has_control r = false ∧ sanitize_workspace_cwd r = r.
Proof.
  assert (∀ r, r = "/home" → (∃ rest, path_components r = "" :: "home" :: rest ∧ Forall (λ c, c ≠ "" ∧ c ≠ "." ∧ c ≠ "..") rest) ∧
    has_control r = false ∧ sanitize_workspace_cwd r = r) as Hhome.
  { intros r ->. split; [|by vm_compute]. exists []. split; [by vm_compute|constructor]. }
  cbv zeta. unfold sanitize_workspace_cwd at 1 2 4 5.
  destruct (bool_decide (cwd = "") || has_control cwd) eqn:Ec; [by apply Hhome|]. apply orb_false_iff in Ec as [Hne%bool_decide_eq_false Hctl].
  case_bool_decide as Hup; [by apply Hhome|]. set (parts := filter _ _). cbv zeta.
  destruct (negb (bool_decide (head parts = Some "home"))) eqn:Eh; [by apply Hhome|].
  apply negb_false_iff, bool_decide_eq_true in Eh. destruct (length parts =? 1)%nat eqn:El; [by apply Hhome|].
  assert (Forall (λ p, p ∈ split "/" cwd ∧ p ≠ "" ∧ p ≠ "." ∧ p ≠ "..") parts) as Hparts.
  { apply list.Forall_forall. intros p [[H1 H2] Hp]%list_elem_of_filter. split_and!; [|done|done|by intros ->].
    unfold path_components in Hp. rewrite bool_decide_eq_false_2 in Hp by done. destruct (split "/" cwd) as [|f l]; [done|].
    apply elem_of_cons in Hp as [->|[_ Hp]%list_elem_of_filter]; [by left|by right]. }
  destruct parts as [|p0 rest] eqn:Ep; [done|]. injection Eh as ->.
  assert (split "/" ("/" +:+ String.concat "/" ("home" :: rest)) = "" :: "home" :: rest) as Hs.
  { change ("/" +:+ ?x) with (String "/" x). cbn [split]. rewrite Ascii.eqb_refl. f_equal. apply split_concat; [done|].
    eapply list.Forall_impl; [exact Hparts|]. intros p [Hp _]. pose proof (split_pieces_free cwd) as Hf. rewrite list.Forall_forall in Hf. auto. }
  set (r := "/" +:+ _) in *.
  assert (path_components r = "" :: "home" :: rest) as Hr.
  { unfold path_components. rewrite bool_decide_eq_false_2 by done. rewrite Hs. f_equal. apply filter_all.
    eapply list.Forall_impl; [exact Hparts|]. cbn. tauto. }
  assert (has_control r = false) as Hctl'.
  { rewrite has_control_split, Hs. apply not_true_iff_false. rewrite has_control_split in Hctl. apply not_true_iff_false in Hctl.
    rewrite existsb_exists in *. intros (p & Hp & Hc). apply Hctl. exists p. split; [|done].
    destruct Hp as [<-|Hp]; [done|]. rewrite list.Forall_forall in Hparts. apply list_elem_of_In, Hparts. by apply list_elem_of_In. }
  split; [|split; [done|]].
  - exists rest. split; [done|]. apply list.Forall_cons in Hparts as [_ Hrest]. eapply list.Forall_impl; [exact Hrest|]. cbn. tauto.
  - unfold sanitize_workspace_cwd. rewrite Hctl'. rewrite bool_decide_eq_false_2 by done. cbn [orb].
    rewrite Hr. rewrite bool_decide_eq_false_2.
    + assert (filter (λ c, c ≠ "" ∧ c ≠ ".") ("" :: "home" :: rest) = "home" :: rest) as ->; [|cbn [head]; rewrite bool_decide_eq_true_2 by done; cbn [negb]; by rewrite El].
      rewrite filter_cons_False by tauto. apply filter_all. eapply list.Forall_impl; [exact Hparts|]. cbn. tauto.
    + intros [?|Hin]%elem_of_cons; [done|]. rewrite list.Forall_forall in Hparts. by apply Hparts in Hin as (_ & _ & _ & ?).
Qed.

(** ** Concrete runs *)

Definition current_txn : txn_host := mkTxn (λ st, (mkRegistry REGISTRY_VERSION 0 (sandboxes st.1), st.2)) true Committed.

(** A command that prints its credential, on a host where everything works; [meanwhile]
    is what others do to the jobs while it runs. *)
Definition sample_exec (meanwhile : Activity → Activity) (touch_saved : commit) : exec_host :=
  mkExecHost sample_txn (Some [Auth.mkToken "GITHUB" "GITHUB_TOKEN" "s3cret"]) "job-1" "t1" sample_jobs
    (λ _, (mkTxn (before current_txn) true touch_saved, true, "t2")) true meanwhile
    (Ok (mkOutput 0 "key=s3cret" "" (Some 50))) (λ _, Some 5) (λ p, Some p) sample_jobs true None ("t3", 200%nat).
Definition sample_exec_state : exec_state :=
  mkExecState (sample_world None [sample_workspace "a" "web" Running (Some 42) None]) (mkActivity ∅ ∅ ∅ ∅) "" [].

Lemma sample_touches meanwhile n : touches (sample_exec meanwhile Committed) n.
Proof. by repeat split. Qed.


(** A command that a stop cancels while it runs is recorded as cancelled, and then, when
    it returns, as having exited: its record is written without looking at the one on
    disk. *)
Lemma exec_overwrites_cancel :
  let stop a := (cancel_running_for_workspace sample_jobs "s" "a" "workspace stopped" a).2 in
  let during := stop (persist_job sample_jobs (new_job "job-1" "t1" "s" "a" Foreground ["env"] None false) (mkActivity ∅ ∅ ∅ ∅)).2 in
  let after := (exec_workspace_command_with_options (sample_exec stop Committed) "box" "web" "/home" ["env"] true None sample_exec_state).2 in
  job_status <$> job_files during !! "job-1" = Some JobCancelled ∧ job_status <$> job_files (ex_jobs after) !! "job-1" = Some JobExited.
Proof. by vm_compute. Qed.

(** A command whose first activity stamp cannot be written is refused, and its record
    goes on saying that it runs. *)
Lemma refused_exec_stays_running :
  let '(r, st) := exec_workspace_command_with_options (sample_exec (λ a, a) Lost) "box" "web" "/home" ["env"] true None sample_exec_state in
  is_ok r = false ∧ job_status <$> job_files (ex_jobs st) !! "job-1" = Some JobRunning.
Proof. by vm_compute. Qed.
