(* ===== verification/Logs.v ===== *)
(** * Reading a workspace's log (src/src/workspace/logs.rs)

    A reader asks for the end of the log, or follows it: each answer carries the offset
    to ask from next.  The log is a file that other commands append to, so what is read
    may be longer than what was measured. *)
From S2P Require Import Prelude RustStr Auth Text Types Registry Records Exec.
Open Scope Z_scope.

Definition MAX_LOG_READ_BYTES : Z := 1048576.
Definition MAX_LOG_DELTA_BYTES : Z := 128 * 1024.

(** One opening of the file: its identity ([log_stream_id]), its length when it was
    measured, and its bytes when they were read. *)
Record log_view := mkView { lv_stream : string; lv_len : Z; lv_bytes : string }.

Record WorkspaceLogsResult := mkLogs {
  lr_content : string; lr_next_offset : Z; lr_reset : bool; lr_stream_id : option string; lr_has_more : bool }.

Record TailRead := mkTail { tail_content : string; tail_truncated : bool; tail_end : Z; tail_stream : string }.

Definition drop_bytes (n : Z) (s : string) : string := str_drop (Z.to_nat n) s.
Definition take_bytes (n : Z) (s : string) : string := str_take (Z.to_nat n) s.

Definition read_tail_bytes (v : log_view) (max_bytes : Z) : TailRead :=
  let offset := Z.max 0 (lv_len v - max_bytes) in
  let raw := drop_bytes offset (lv_bytes v) in
  mkTail (from_utf8_lossy raw) (0 <? offset) (Z.max offset (str_len (lv_bytes v))) (lv_stream v).

(** The file is opened once to measure it and, when the offset means nothing any more,
    again to read its end. *)
Definition read_log_delta (v : log_view) (again : option log_view) (offset : Z) (expected_stream_id : option string)
    : result WorkspaceLogsResult :=
  let replaced := match expected_stream_id with Some e => negb (String.eqb e (lv_stream v)) | None => false end in
  if replaced || (lv_len v <? offset) then
    v' ← ok_or again (plain "failed to open the log");
    let t := read_tail_bytes v' MAX_LOG_READ_BYTES in
    Ok (mkLogs (tail_content t) (tail_end t) true (Some (tail_stream t)) false)
  else
    let available := lv_len v - offset in
    let limit := Z.min available MAX_LOG_DELTA_BYTES in
    let raw := take_bytes limit (drop_bytes offset (lv_bytes v)) in
    Ok (mkLogs (from_utf8_lossy raw) (offset + str_len raw) false (Some (lv_stream v)) (limit <? available)).

Definition join_lines (l : list string) : string := String.concat (String "010" "") l.
Definition tail_lines (input : string) (limit : nat) : string :=
  let l := lines input in join_lines (drop (length l - limit) l).

(** [None]: there is no log yet. *)
Definition workspace_logs (t : txn_host) (file again : option log_view) (sb ws : string) (tail : option nat)
    (offset : option Z) (stream_id : option string) : stm world WorkspaceLogsResult :=
  read_txn t (λ r,
    _ ← workspace_metadata r sb ws;
    match file with
    | None => Ok (mkLogs "" 0 (bool_decide (is_Some offset)) None false)
    | Some v =>
        match offset with
        | Some offset => read_log_delta v again offset stream_id
        | None =>
            let t := read_tail_bytes v MAX_LOG_READ_BYTES in
            let content := match tail with Some limit => tail_lines (tail_content t) limit | None => tail_content t end in
            Ok (mkLogs (if tail_truncated t
                        then "[enclave] log output truncated to last 1048576 bytes" +:+ String "010" "" +:+ content
                        else content)
                  (tail_end t) false (Some (tail_stream t)) false)
        end
    end).

(** * Following a log *)

(** A client that asks again from where the last answer ended. *)
Fixpoint follow (views : list log_view) (stream : string) (offset : Z) : list WorkspaceLogsResult :=
  match views with
  | [] => []
  | v :: views' =>
      match read_log_delta v None offset (Some stream) with
      | Ok r => r :: follow views' stream (lr_next_offset r)
      | Err _ => []
      end
  end.

(** A log that is only appended to, and in the end holds [full]: each time it is opened
    it is at least as long as the last time. *)
Fixpoint appended (full stream : string) (low : Z) (views : list log_view) : Prop :=
  match views with
  | [] => True
  | v :: views' =>
      lv_stream v = stream ∧ low ≤ lv_len v ≤ str_len (lv_bytes v) ∧ (∃ more, full = lv_bytes v +:+ more) ∧
      appended full stream (lv_len v) views'
  end.

Definition last_offset (offset : Z) (rs : list WorkspaceLogsResult) : Z := foldl (λ _ r, lr_next_offset r) offset rs.
Definition slice (full : string) (lo hi : Z) : string := take_bytes (hi - lo) (drop_bytes lo full).

Lemma str_drop_length n s : String.length (str_drop n s) = (String.length s - n)%nat.
Proof. revert s. induction n as [|n IH]; intros [|c s]; cbn; [done..|]. by rewrite IH. Qed.
Lemma str_drop_add a b s : str_drop (a + b) s = str_drop b (str_drop a s).
Proof. revert s. induction a as [|a IH]; intros s; [done|]. destruct s as [|c s]; cbn; [by destruct b|]. apply IH. Qed.
Lemma str_take_drop_join a b s : str_take a s +:+ str_take b (str_drop a s) = str_take (a + b) s.
Proof. revert s. induction a as [|a IH]; intros s; [done|]. destruct s as [|c s]; cbn; [by destruct b|]. by rewrite IH. Qed.
Lemma str_drop_prefix n s t : (n ≤ String.length s)%nat → str_drop n (s +:+ t) = str_drop n s +:+ t.
Proof. revert s. induction n as [|n IH]; intros [|c s] H; cbn in *; [done|done|lia|]. apply IH. lia. Qed.
Lemma str_take_prefix n s t : (n ≤ String.length s)%nat → str_take n (s +:+ t) = str_take n s.
Proof.
  intros H. rewrite str_take_app_any. replace (n - String.length s)%nat with 0%nat by lia. cbn. apply str_app_nil_r.
Qed.

Lemma slice_join full a b c : 0 ≤ a ≤ b → b ≤ c → slice full a b +:+ slice full b c = slice full a c.
Proof.
  intros H1 H2. unfold slice, take_bytes, drop_bytes. replace (Z.to_nat b) with (Z.to_nat a + Z.to_nat (b - a))%nat by lia.
  rewrite str_drop_add, str_take_drop_join. f_equal. lia.
Qed.
Lemma slice_empty full a : slice full a a = "".
Proof. unfold slice, take_bytes. rewrite Z.sub_diag. by destruct (drop_bytes a full). Qed.
Lemma slice_prefix s t a b : 0 ≤ a ≤ b → b ≤ str_len s → slice (s +:+ t) a b = slice s a b.
Proof.
  unfold slice, take_bytes, drop_bytes, str_len. intros H1 H2. rewrite str_drop_prefix by lia. apply str_take_prefix.
  rewrite str_drop_length. lia.
Qed.
Lemma slice_len s a b : 0 ≤ a ≤ b → b ≤ str_len s → str_len (slice s a b) = b - a.
Proof. unfold slice, take_bytes, drop_bytes, str_len. intros H1 H2. rewrite str_take_length, str_drop_length. lia. Qed.

Lemma delta_spec full v offset stream low : 0 ≤ offset ≤ low → appended full stream low [v] →
  let next := Z.min (lv_len v) (offset + MAX_LOG_DELTA_BYTES) in
  read_log_delta v None offset (Some stream) =
    Ok (mkLogs (from_utf8_lossy (slice full offset next)) next false (Some stream) (next <? lv_len v)) ∧ offset ≤ next ≤ lv_len v.
Proof.
  intros Ho (Hs & Hl & [more ->] & _) next. unfold read_log_delta. rewrite Hs, String.eqb_refl. cbn [negb orb].
  assert (0 < MAX_LOG_DELTA_BYTES) by done. destruct (Z.ltb_spec (lv_len v) offset); [lia|]. cbv zeta.
  assert (offset ≤ next ≤ lv_len v) as Hn by (unfold next; lia). split; [|done].
  assert (take_bytes (Z.min (lv_len v - offset) MAX_LOG_DELTA_BYTES) (drop_bytes offset (lv_bytes v)) = slice (lv_bytes v) offset next) as ->
    by (unfold slice; f_equal; unfold next; lia).
  rewrite slice_prefix, slice_len by lia. f_equal. f_equal; [lia|].
  unfold next. destruct (Z.ltb_spec (Z.min (lv_len v - offset) MAX_LOG_DELTA_BYTES) (lv_len v - offset)),
    (Z.ltb_spec (Z.min (lv_len v) (offset + MAX_LOG_DELTA_BYTES)) (lv_len v)); lia.
Qed.

(** What each answer says of the view it was read from, and of the bytes it holds. *)
Definition answers_view (v : log_view) (r : WorkspaceLogsResult) : Prop :=
  lr_reset r = false ∧ lr_next_offset r ≤ lv_len v ∧ (lr_has_more r = false ↔ lr_next_offset r = lv_len v).
Definition holds_bytes (s : string) (r : WorkspaceLogsResult) : Prop :=
  lr_content r = from_utf8_lossy s ∧ str_len s ≤ MAX_LOG_DELTA_BYTES ∧ (lr_has_more r = true → str_len s = MAX_LOG_DELTA_BYTES).

Lemma follow_spec full stream views low offset :
  0 ≤ offset ≤ low → appended full stream low views →
  let rs := follow views stream offset in
  offset ≤ last_offset offset rs ∧ Forall2 answers_view views rs ∧
  ∃ slices, Forall2 holds_bytes slices rs ∧ foldr String.append "" slices = slice full offset (last_offset offset rs).
Proof.
  revert low offset. induction views as [|v views IH]; intros low offset Ho Ha; cbn [follow].
  { split; [cbn; lia|]. split; [constructor|]. exists []. cbn. by rewrite slice_empty. }
  destruct Ha as (Hs & Hl & Hm & Ha). destruct (delta_spec full v offset stream low Ho) as [E Hn]; [done|]. rewrite E.
  set (next := Z.min _ _) in *. cbn [lr_next_offset].
  destruct (IH (lv_len v) next) as (H3 & H4 & slices & H5 & H2); [lia|done|].
  destruct Hm as [more ->]. assert (0 < MAX_LOG_DELTA_BYTES) by done.
  assert (str_len (slice (lv_bytes v +:+ more) offset next) = next - offset) as Hlen by (rewrite slice_prefix, slice_len; lia).
  change (last_offset offset (?r :: ?l)) with (last_offset (lr_next_offset r) l). cbn [lr_next_offset].
  split; [lia|]. split.
  - constructor; [|done]. split_and!; cbn; [done|lia|]. destruct (Z.ltb_spec next (lv_len v)); split; intros; try done; lia.
  - exists (slice (lv_bytes v +:+ more) offset next :: slices). split; [|cbn [foldr]; rewrite H2; apply slice_join; lia].
    constructor; [|done]. split; [done|]. rewrite Hlen. cbn. unfold next. split; [lia|].
    destruct (Z.ltb_spec (Z.min (lv_len v) (offset + MAX_LOG_DELTA_BYTES)) (lv_len v)); [lia|done].
Qed.

(** Following a log misses nothing and repeats nothing.  While a log is only appended
    to, every answer continues where the last one ended, none is a reset or larger than
    the limit, and together they hold the bytes of the log from the first offset to the
    last; an answer that says there is no more has reached the end of the log as it was,
    one that says there is more has filled its limit, and where no answer cuts a character
    their texts are the log's. *)
Theorem follow_delivers_log full stream offset views :
  0 ≤ offset → appended full stream offset views →
  let rs := follow views stream offset in
  Forall2 answers_view views rs ∧
  ∃ slices, Forall2 holds_bytes slices rs ∧ foldr String.append "" slices = slice full offset (last_offset offset rs) ∧
    (Forall strict_utf8 slices → foldr String.append "" (lr_content <$> rs) = slice full offset (last_offset offset rs)).
Proof.
  intros Ho Ha rs. destruct (follow_spec full stream views offset offset) as (_ & H1 & slices & H2 & H3); [lia|done|].
  split; [done|]. exists slices. split_and!; [done..|]. intros Hs. fold rs in H2, H3. rewrite <- H3. clear -Hs H2.
  induction H2 as [|s r slices rs Hr _ IH]; [done|]. apply list.Forall_cons in Hs as [Hs Hss]. cbn. destruct Hr as [-> _].
  by rewrite lossy_strict, IH.
Qed.

Lemma follow_delivers_log_witness :
  let views := [mkView "8:2" 2 "abc"; mkView "8:2" 5 "abcde"] in
  let rs := follow views "8:2" 1 in
  Forall2 answers_view views rs ∧ ∃ slices, Forall2 holds_bytes slices rs ∧ foldr String.append "" slices = "bcde".
Proof.
  intros views rs. destruct (follow_delivers_log "abcde" "8:2" 1 views) as (H1 & slices & H2 & H3 & _).
  - lia.
  - cbn. split_and!; try done; [exists "de"|exists ""]; done.
  - split; [exact H1|]. exists slices. split; [exact H2|]. rewrite H3. by vm_compute.
Defined.

(** An answer ends where its limit ends, in the middle of a character or not: a character
    that straddles the limit reaches the client as replacements, although the log is
    well-formed text. *)
Definition straddling : string := N.iter 131071 (String "a") (bytes [195; 169]%nat).
Lemma follow_breaks_characters :
  strict_utf8 straddling ∧
  let v := mkView "8:2" 131073 straddling in
  let rs := follow [v; v] "8:2" 0 in
  last_offset 0 rs = 131073 ∧ foldr String.append "" (lr_content <$> rs) ≠ straddling.
Proof.
  split.
  - unfold straddling. induction (131071%N) as [|n IH] using N.peano_ind.
    + apply (strict_cons (bytes [195; 169]%nat) ""); [by constructor|constructor].
    + rewrite N.iter_succ. by apply (strict_cons (String "a" "")); [constructor|].
  - split; [by vm_compute|]. apply String.eqb_neq. by vm_compute.
Qed.
