(* ===== verification/FileTree.v ===== *)
(** * File trees and the calls that change them

    A file system is a finite map from paths, lists of names, to nodes.  The calls below
    are the ones the program moves trees with ([std::fs]); every call takes a number, and
    a host decides by it which calls it refuses and what a refused one leaves behind.

    [copy_dir_recursive] (src/src/workspace/snapshot/paths.rs) is a loop over a stack of
    directories.  It copies a tree exactly, without its special files, or fails. *)
From S2P Require Import Prelude.

Abbreviation path := (list string).
Inductive node := NFile (data : string) | NDir | NLink | NSpecial.
#[export] Instance node_eq_dec : EqDecision node.
Proof. solve_decision. Defined.
Abbreviation files := (gmap (list string) node).

(** ** Subtrees *)

(** The rest of [k] below [p]. *)
Fixpoint strip_path (p k : path) : option path :=
  match p, k with
  | [], _ => Some k
  | a :: p', b :: k' => if bool_decide (a = b) then strip_path p' k' else None
  | _ :: _, [] => None
  end.
Definition subtree {A} (p : path) (m : gmap path A) : gmap path A :=
  list_to_map (omap (λ kx, (λ q, (q, kx.2)) <$> strip_path p kx.1) (map_to_list m)).
Definition without {A} (p : path) (m : gmap path A) : gmap path A := filter (λ kx, strip_path p kx.1 = None) m.
Definition graft {A} (p : path) (t m : gmap path A) : gmap path A := kmap (app p) t ∪ m.

Lemma strip_path_Some p k q : strip_path p k = Some q ↔ k = p ++ q.
Proof.
  revert k. induction p as [|a p IH]; intros [|b k]; cbn; [naive_solver..|]. case_bool_decide as E.
  - subst. rewrite IH. naive_solver.
  - naive_solver.
Qed.
Lemma strip_path_app p q : strip_path p (p ++ q) = Some q.
Proof. by apply strip_path_Some. Qed.
Lemma strip_path_None p k : strip_path p k = None ↔ ∀ q, k ≠ p ++ q.
Proof.
  rewrite eq_None_not_Some. split.
  - intros H q ->. apply H. rewrite strip_path_app. eauto.
  - intros H [q Hq]. apply strip_path_Some in Hq. by eapply H.
Qed.

Lemma lookup_subtree {A} (p : path) (m : gmap path A) (q : path) : subtree p m !! q = m !! (p ++ q).
Proof.
  apply option_eq. intros x. unfold subtree. rewrite <- elem_of_list_to_map.
  - rewrite list_elem_of_omap. split.
    + intros ([k y] & Hk & E). cbn in E. destruct (strip_path p k) as [q'|] eqn:Eq; [|done]. injection E as -> ->.
      apply strip_path_Some in Eq as ->. by apply elem_of_map_to_list.
    + intros H. exists (p ++ q, x). split; [by apply elem_of_map_to_list|]. cbn. by rewrite strip_path_app.
  - pose proof (NoDup_fst_map_to_list m) as Hnd. revert Hnd. generalize (map_to_list m) as l.
    induction l as [|[k y] l IH]; cbn; [constructor|]. rewrite list.NoDup_cons. intros [Hk Hnd].
    destruct (strip_path p k) as [q'|] eqn:Eq; cbn; [|by apply IH]. apply list.NoDup_cons. split; [|by apply IH].
    intros ((q2 & y2) & -> & Hin)%list_elem_of_fmap. apply list_elem_of_omap in Hin as ([k2 y3] & Hin & E). cbn in E.
    destruct (strip_path p k2) as [q3|] eqn:Eq2; [|done]. injection E as -> ->.
    apply strip_path_Some in Eq as ->, Eq2 as ->. apply Hk. apply list_elem_of_fmap. by exists (p ++ q2, y2).
Qed.
Lemma lookup_without {A} (p : path) (m : gmap path A) (k : path) : without p m !! k = match strip_path p k with Some _ => None | None => m !! k end.
Proof.
  unfold without. destruct (strip_path p k) eqn:E.
  - apply map_lookup_filter_None. right. intros x _ [=]. congruence.
  - destruct (m !! k) eqn:Em; [by apply map_lookup_filter_Some|]. apply map_lookup_filter_None. by left.
Qed.
Lemma lookup_graft {A} (p : path) (t m : gmap path A) (k : path) :
  graft p t m !! k = match strip_path p k with
                     | Some q => match t !! q with Some x => Some x | None => m !! k end
                     | None => m !! k
                     end.
Proof.
  unfold graft. rewrite lookup_union. destruct (strip_path p k) as [q|] eqn:E.
  - apply strip_path_Some in E as ->. rewrite lookup_kmap by (intros ???; by simplify_list_eq).
    destruct (t !! q), (m !! (p ++ q)); done.
  - assert (kmap (app p) t !! k = None) as ->; [|by destruct (m !! k)].
    apply lookup_kmap_None; [intros ???; by simplify_list_eq|]. intros i ->. rewrite strip_path_app in E. done.
Qed.

(** ** Calls *)

(** Which calls are refused; which entries a refused removal has removed already; where a
    refused copy stops and what it leaves there. *)
Record faults := mkFaults {
  refused : nat → bool;
  debris : nat → path → bool;
  torn : nat → path → option (option string) }.
Definition no_faults : faults := mkFaults (λ _, false) (λ _ _, false) (λ _ _, None).

Record disk := mkDisk { on_disk : files; calls : nat }.

Section calls.
Context (h : faults).

Definition tick : stm disk nat := λ st, (Ok (calls st), mkDisk (on_disk st) (S (calls st))).
Definition on_files (f : files → files) : stm disk unit := modify (λ st, mkDisk (f (on_disk st)) (calls st)).

(** [Path::exists] *)
Definition exists_path (p : path) : stm disk bool := gets (λ st, bool_decide (is_Some (on_disk st !! p))).

(** A directory can replace an empty one only, anything else no directory. *)
Definition may_replace (from to : path) (m : files) : bool :=
  match m !! to with
  | None => true
  | Some NDir => bool_decide (m !! from = Some NDir) && bool_decide (delete [] (subtree to m) = ∅)
  | Some _ => negb (bool_decide (m !! from = Some NDir))
  end.
Definition move {A} (from to : path) (m : gmap path A) : gmap path A := graft to (subtree from m) (without to (without from m)).
Definition rename (from to : path) : stm disk unit :=
  n ← tick;
  m ← gets on_disk;
  assert (negb (refused h n)) "failed to move";;
  assert (bool_decide (is_Some (m !! from)) && may_replace from to m &&
          bool_decide (m !! removelast to = Some NDir)) "failed to move";;
  on_files (move from to).

(** [remove_dir_all] of a path that is there; the path itself goes last. *)
Definition swept (n : nat) (p k : path) : bool := debris h n k && negb (bool_decide (k = p)).
Definition remove_dir_all (p : path) : stm disk unit :=
  n ← tick;
  if refused h n
  then on_files (filter (λ kx, strip_path p kx.1 = None ∨ swept n p kx.1 = false));; throw "failed to remove"
  else on_files (without p).

Definition parents (p : path) : list path := (λ n, take n p) <$> seq 0 (S (length p)).
Definition create_dir_all (p : path) : stm disk unit :=
  n ← tick;
  m ← gets on_disk;
  assert (negb (refused h n)) "failed to create";;
  assert (forallb (λ q, match m !! q with None | Some NDir => true | Some _ => false end) (parents p)) "failed to create";;
  on_files (λ m, m ∪ list_to_map ((λ q, (q, NDir)) <$> parents p)).

(** [reset_path] *)
Definition reset_path (p : path) : stm disk unit :=
  there ← exists_path p;
  (if there : bool then remove_dir_all p else mret tt);;
  create_dir_all p.

(** ** [copy_dir_recursive] *)

(** The destination starts as what is there; [shuffle] is the order entries are read in. *)
Context (shuffle : list (string * node) → list (string * node)).
Definition read_dir (p : path) (m : files) : list (string * node) :=
  shuffle (omap (λ kx, match strip_path p kx.1 with Some [n] => Some (n, kx.2) | _ => None end) (map_to_list m)).

Definition copy_file (torn : path → option (option string)) (p : path) (data : string) : stm files unit :=
  t ← get;
  match torn p with
  | Some part => modify (λ t, match part with Some s => <[p := NFile s]> t | None => t end);; throw "failed to copy file"
  | None =>
      assert (match t !! p with None | Some (NFile _) => true | Some _ => false end) "failed to copy file";;
      modify (<[p := NFile data]>)
  end.
Definition copy_dir (torn : path → option (option string)) (p : path) : stm files unit :=
  t ← get;
  assert (bool_decide (torn p = None) && match t !! p with None | Some NDir => true | Some _ => false end) "failed to create";;
  modify (<[p := NDir]>).

Fixpoint copy_entries (torn : path → option (option string)) (dir : path) (entries : list (string * node))
    (stack : list path) : stm files (list path) :=
  match entries with
  | [] => mret stack
  | (n, NLink) :: _ => throw "refusing to copy symlink"
  | (n, NDir) :: rest => copy_entries torn dir rest ((dir ++ [n]) :: stack)
  | (n, NFile data) :: rest => copy_file torn (dir ++ [n]) data;; copy_entries torn dir rest stack
  | (n, NSpecial) :: rest => copy_entries torn dir rest stack
  end.
Fixpoint copy_loop (torn : path → option (option string)) (src : files) (fuel : nat) (stack : list path) : stm files unit :=
  match fuel, stack with
  | _, [] => mret tt
  | O, _ => throw "still copying"
  | S fuel', dir :: stack' =>
      copy_dir torn dir;;
      stack'' ← copy_entries torn dir (read_dir dir src) stack';
      copy_loop torn src fuel' stack''
  end.

(** One directory for each turn, so the entries of the source bound the turns. *)
Definition copy_tree (torn : path → option (option string)) (src : files) : stm files unit :=
  copy_loop torn src (S (base.size src)) [[]].

Definition copy_dir_recursive (src dst : path) : stm disk unit :=
  there ← exists_path src;
  if there : bool
  then
    create_dir_all dst;;
    n ← tick;
    m ← gets on_disk;
    let '(r, t) := copy_tree (torn h n) (subtree src m) (subtree dst m) in
    on_files (λ m, graft dst t (without dst m));;
    lift r
  else create_dir_all dst.
End calls.

(** ** What a copy is *)

Definition tree_ok (t : files) : Prop :=
  t !! [] = Some NDir ∧ ∀ p n, is_Some (t !! (p ++ [n])) → t !! p = Some NDir.
Definition linkless (t : files) : Prop := ∀ p, t !! p ≠ Some NLink.
Definition regular (t : files) : files := filter (λ kx, kx.2 ≠ NSpecial) t.

Lemma lookup_regular t p : regular t !! p = match t !! p with Some NSpecial => None | x => x end.
Proof.
  unfold regular. destruct (t !! p) as [x|] eqn:E; [|apply map_lookup_filter_None; by left].
  destruct x; try by apply map_lookup_filter_Some. apply map_lookup_filter_None. right. intros x Hx Hne. rewrite E in Hx. by injection Hx as <-.
Qed.

Section copying.
Context (shuffle : list (string * node) → list (string * node)).
Hypothesis shuffle_perm : ∀ l, shuffle l ≡ₚ l.

Lemma elem_of_read_dir p m n x : (n, x) ∈ read_dir shuffle p m ↔ m !! (p ++ [n]) = Some x.
Proof.
  unfold read_dir. rewrite shuffle_perm, list_elem_of_omap. split.
  - intros ([k y] & Hk%elem_of_map_to_list & E). cbn in E. destruct (strip_path p k) as [[|? []]|] eqn:Es; try done.
    injection E as -> ->. by apply strip_path_Some in Es as ->.
  - intros H. exists (p ++ [n], x). split; [by apply elem_of_map_to_list|]. cbn. by rewrite strip_path_app.
Qed.

Lemma NoDup_read_dir p m : NoDup (read_dir shuffle p m).*1.
Proof.
  unfold read_dir. rewrite shuffle_perm. pose proof (NoDup_fst_map_to_list m) as Hnd. revert Hnd. generalize (map_to_list m) as l.
  induction l as [|[k y] l IH]; cbn; [constructor|]. rewrite list.NoDup_cons. intros [Hk Hnd].
  destruct (strip_path p k) as [[|n []]|] eqn:Es; cbn; try by apply IH. apply list.NoDup_cons. split; [|by apply IH].
  intros ((n' & x') & -> & Hin)%list_elem_of_fmap. apply list_elem_of_omap in Hin as ([k2 y2] & Hin & E). cbn in E.
  destruct (strip_path p k2) as [[|? []]|] eqn:Es2; try done. injection E as -> ->.
  apply strip_path_Some in Es as ->, Es2 as ->. apply Hk, list_elem_of_fmap. by exists (p ++ [n'], x').
Qed.

Context (torn : path → option (option string)).

Lemma copy_dir_Ok p t u t' : copy_dir torn p t = (Ok u, t') → t' = <[p := NDir]> t.
Proof.
  unfold copy_dir. intros (t1 & ? & [-> ->]%get_Ok & H)%stm_bind_Ok.
  apply stm_bind_Ok in H as (? & ? & (_ & _ & ->)%assert_Ok & H). by apply modify_Ok in H as [_ ->].
Qed.
Lemma copy_file_Ok p d t u t' : copy_file torn p d t = (Ok u, t') → t' = <[p := NFile d]> t.
Proof.
  unfold copy_file. intros (t1 & ? & [-> ->]%get_Ok & H)%stm_bind_Ok. destruct (torn p) as [part|].
  - by apply stm_bind_Ok in H as (? & ? & _ & []%throw_Ok).
  - apply stm_bind_Ok in H as (? & ? & (_ & _ & ->)%assert_Ok & H). by apply modify_Ok in H as [_ ->].
Qed.

(** The entries of one directory: its files are copied and its directories pushed. *)
Lemma copy_entries_Ok dir l stack t stack' t' : NoDup l.*1 →
  copy_entries torn dir l stack t = (Ok stack', t') →
  (∀ n, (n, NLink) ∉ l) ∧
  (∃ new, stack' = new ++ stack ∧ NoDup new ∧ ∀ p, p ∈ new ↔ ∃ n, p = dir ++ [n] ∧ (n, NDir) ∈ l) ∧
  (∀ n d, (n, NFile d) ∈ l → t' !! (dir ++ [n]) = Some (NFile d)) ∧
  ∀ k, (∀ n d, k = dir ++ [n] → (n, NFile d) ∉ l) → t' !! k = t !! k.
Proof.
  revert stack t. induction l as [|[n x] l IH]; intros stack t Hnd.
  { cbn. intros [-> ->]%mret_Ok. split; [intros n Hn; by apply not_elem_of_nil in Hn|].
    split; [exists []; split; [done|]; split; [constructor|]; intros p; split; [by intros ?%not_elem_of_nil|]; by intros (? & _ & ?%not_elem_of_nil)|].
    split; [by intros n d ?%not_elem_of_nil|done]. }
  cbn in Hnd. apply list.NoDup_cons in Hnd as [Hn Hnd].
  assert (∀ y, (n, y) ∉ l) as Hfresh by (intros y Hy; apply Hn, list_elem_of_fmap; by exists (n, y)).
  destruct x as [d| | |]; cbn; intros H.
  - apply stm_bind_Ok in H as (u & t1 & ->%copy_file_Ok & H).
    destruct (IH _ _ Hnd H) as (Hl & (new & -> & Hndn & Hnew) & Hf & Hk). split_and!.
    + intros n'. rewrite elem_of_cons. intros [[=]|?]. by eapply Hl.
    + exists new. split_and!; [done..|]. intros p. rewrite Hnew. setoid_rewrite elem_of_cons. naive_solver.
    + intros n' d'. rewrite elem_of_cons. intros [[= -> ->]|?]; [|by apply Hf]. rewrite Hk; [apply lookup_insert_eq|].
      intros n2 d2 E. simplify_list_eq. apply Hfresh.
    + intros k Hkk. rewrite Hk; [|intros n' d' E Hin; eapply Hkk; [exact E|by apply list_elem_of_further]].
      apply lookup_insert_ne. intros <-. eapply (Hkk n d); [done|]. by apply list_elem_of_here.
  - destruct (IH _ _ Hnd H) as (Hl & (new & -> & Hndn & Hnew) & Hf & Hk). split_and!.
    + intros n'. rewrite elem_of_cons. intros [[=]|?]. by eapply Hl.
    + exists (new ++ [dir ++ [n]]). rewrite <- app_assoc. split_and!; [done|..].
      * apply list.NoDup_app. split_and!; [done| |repeat constructor; by intros ?%not_elem_of_nil].
        intros p Hp%Hnew ->%list_elem_of_singleton. destruct Hp as (n' & E & Hin). simplify_list_eq. by eapply Hfresh.
      * intros p. rewrite elem_of_app, Hnew, list_elem_of_singleton. setoid_rewrite elem_of_cons. naive_solver.
    + intros n' d'. rewrite elem_of_cons. intros [[=]|?]. by apply Hf.
    + intros k Hkk. apply Hk. intros n' d' E Hin. eapply Hkk; [exact E|by apply list_elem_of_further].
  - by apply throw_Ok in H.
  - destruct (IH _ _ Hnd H) as (Hl & (new & -> & Hndn & Hnew) & Hf & Hk). split_and!.
    + intros n'. rewrite elem_of_cons. intros [[=]|?]. by eapply Hl.
    + exists new. split_and!; [done..|]. intros p. rewrite Hnew. setoid_rewrite elem_of_cons. naive_solver.
    + intros n' d'. rewrite elem_of_cons. intros [[=]|?]. by apply Hf.
    + intros k Hkk. apply Hk. intros n' d' E Hin. eapply Hkk; [exact E|by apply list_elem_of_further].
Qed.

(** The loop: [D] are the directories done, the stack the ones found below them. *)
Record copied (src t0 : files) (D : gset path) (stack : list path) (t : files) : Prop := {
  cp_nodup : NoDup stack;
  cp_fresh : ∀ p, p ∈ stack → p ∉ D;
  cp_dirs : ∀ p, p ∈ D ∨ p ∈ stack → src !! p = Some NDir;
  cp_root : [] ∈ D ∨ [] ∈ stack;
  cp_closed : ∀ p n, p ∈ D → src !! (p ++ [n]) = Some NDir → p ++ [n] ∈ D ∨ p ++ [n] ∈ stack;
  cp_parent : ∀ p n, p ++ [n] ∈ D ∨ p ++ [n] ∈ stack → p ∈ D;
  cp_links : ∀ p n, p ∈ D → src !! (p ++ [n]) ≠ Some NLink;
  cp_made : ∀ p, p ∈ D → t !! p = Some NDir;
  cp_files : ∀ p n d, p ∈ D → src !! (p ++ [n]) = Some (NFile d) → t !! (p ++ [n]) = Some (NFile d);
  cp_rest : ∀ k, k ∉ D → (∀ p n d, k = p ++ [n] → p ∈ D → src !! k ≠ Some (NFile d)) → t !! k = t0 !! k }.

Lemma copied_start src t0 : src !! [] = Some NDir → copied src t0 ∅ [[]] t0.
Proof.
  intros Hr. split; try set_solver.
  - constructor; [by intros ?%not_elem_of_nil|constructor].
  - intros p n [?|H%list_elem_of_singleton]; [set_solver|]. by destruct p.
Qed.

Lemma copied_step src t0 D dir stack t u t1 stack' t' : copied src t0 D (dir :: stack) t →
  copy_dir torn dir t = (Ok u, t1) → copy_entries torn dir (read_dir shuffle dir src) stack t1 = (Ok stack', t') →
  copied src t0 ({[dir]} ∪ D) stack' t'.
Proof.
  intros [Hnd Hfresh Hdirs Hroot Hclosed Hparent Hlinks Hmade Hfiles Hrest] ->%copy_dir_Ok H.
  assert (dir ∉ D) as Hdir by (apply Hfresh, list_elem_of_here).
  assert (src !! dir = Some NDir) as Hsd by (apply Hdirs; right; apply list_elem_of_here).
  apply copy_entries_Ok in H as (Hl & (new & -> & Hndn & Hnew) & Hf & Hk); [|apply NoDup_read_dir].
  setoid_rewrite elem_of_read_dir in Hl. setoid_rewrite elem_of_read_dir in Hnew.
  setoid_rewrite elem_of_read_dir in Hf. setoid_rewrite elem_of_read_dir in Hk.
  assert (∀ p, p ∈ new → p ∉ D ∧ p ∉ dir :: stack) as Hold.
  { intros p (n & -> & _)%Hnew. split; intros Hin; apply Hdir, (Hparent dir n); auto. }
  apply list.NoDup_cons in Hnd as [Hds Hnd]. split.
  - apply list.NoDup_app. split_and!; [done| |done]. intros p [_ Hp]%Hold Hs. apply Hp. by apply list_elem_of_further.
  - intros p. rewrite elem_of_app. intros [Hp|Hp].
    + destruct (Hold p Hp) as [? Hp2]. rewrite elem_of_cons in Hp2. set_solver.
    + specialize (Hfresh p ltac:(by apply list_elem_of_further)). assert (p ≠ dir) by (by intros ->). set_solver.
  - intros p [Hp|Hp].
    + apply elem_of_union in Hp as [->%elem_of_singleton|Hp]; [done|]. auto.
    + apply elem_of_app in Hp as [(n & -> & ?)%Hnew|Hp]; [done|]. apply Hdirs. right. by apply list_elem_of_further.
  - destruct Hroot as [?|[ ->|?]%elem_of_cons]; [set_solver|set_solver|]. right. apply elem_of_app. auto.
  - intros p n [->%elem_of_singleton|Hp]%elem_of_union Hs.
    + right. apply elem_of_app. left. apply Hnew. eauto.
    + destruct (Hclosed p n Hp Hs) as [?|[ ->|?]%elem_of_cons]; [set_solver|set_solver|]. right. apply elem_of_app. auto.
  - intros p n [[E%elem_of_singleton|Hp]%elem_of_union|[(n' & E & _)%Hnew|Hp]%elem_of_app].
    + assert (p ∈ D); [|set_solver]. apply (Hparent p n). right. rewrite E. apply list_elem_of_here.
    + assert (p ∈ D); [eauto|set_solver].
    + simplify_list_eq. set_solver.
    + assert (p ∈ D); [|set_solver]. apply (Hparent p n). right. by apply list_elem_of_further.
  - intros p n [->%elem_of_singleton|Hp]%elem_of_union; [apply Hl|auto].
  - intros p Hp. assert (src !! p = Some NDir) as Hsp by (apply elem_of_union in Hp as [->%elem_of_singleton|Hp]; auto).
    rewrite Hk by (intros n d ->; congruence). destruct (decide (p = dir)) as [ ->|Hne]; [apply lookup_insert_eq|].
    rewrite lookup_insert_ne by done. apply Hmade. set_solver.
  - intros p n d [->%elem_of_singleton|Hp]%elem_of_union Hs; [by apply Hf|].
    rewrite Hk by (intros n' d' E; simplify_list_eq; congruence). rewrite lookup_insert_ne by (intros ->; congruence). eauto.
  - intros k Hkd Hkf. rewrite Hk by (intros n d -> ?; eapply (Hkf dir n d); [done|set_solver|done]).
    rewrite lookup_insert_ne by set_solver. apply Hrest; [set_solver|]. intros p n d -> Hp. eapply Hkf; [done|set_solver].
Qed.

Lemma copy_loop_Ok src t0 fuel D stack t u t' : copied src t0 D stack t →
  copy_loop shuffle torn src fuel stack t = (Ok u, t') → ∃ D', copied src t0 D' [] t'.
Proof.
  revert D stack t. induction fuel as [|fuel IH]; intros D [|dir stack] t Hc; cbn [copy_loop]; intros H.
  - apply mret_Ok in H as [_ ->]. eauto.
  - by apply throw_Ok in H.
  - apply mret_Ok in H as [_ ->]. eauto.
  - apply stm_bind_Ok in H as (u1 & t1 & E1 & H). apply stm_bind_Ok in H as (stack' & t2 & E2 & H).
    eapply IH; [|exact H]. by eapply copied_step.
Qed.

Lemma copied_all src t0 D t : tree_ok src → copied src t0 D [] t → linkless src ∧ t = regular src ∪ t0.
Proof.
  intros [Hr Hup] Hc. assert (∀ p, src !! p = Some NDir → p ∈ D) as Hall.
  { induction p as [|n p IH] using rev_ind; intros Hp.
    - by destruct (cp_root _ _ _ _ _ Hc) as [?|?%not_elem_of_nil].
    - assert (p ∈ D) as HpD by (apply IH, (Hup p n); by rewrite Hp).
      by destruct (cp_closed _ _ _ _ _ Hc p n HpD Hp) as [?|?%not_elem_of_nil]. }
  assert (∀ p n, is_Some (src !! (p ++ [n])) → p ∈ D) as Hpar by eauto.
  assert (linkless src) as Hl.
  { intros p Hp. destruct p as [|n p _] using rev_ind; [congruence|]. apply (cp_links _ _ _ _ _ Hc p n); eauto. }
  split; [done|]. apply map_eq. intros k. rewrite lookup_union, lookup_regular. destruct (src !! k) as [x|] eqn:Ek.
  - destruct x as [d| | |].
    + destruct k as [|n p _] using rev_ind; [congruence|]. rewrite (cp_files _ _ _ _ _ Hc p n d) by eauto. by destruct (t0 !! _).
    + rewrite (cp_made _ _ _ _ _ Hc) by eauto. by destruct (t0 !! k).
    + by destruct (Hl k).
    + rewrite (cp_rest _ _ _ _ _ Hc); [by destruct (t0 !! k)| |by intros ???; congruence].
      intros Hk. pose proof (cp_dirs _ _ _ _ _ Hc k (or_introl Hk)). congruence.
  - rewrite (cp_rest _ _ _ _ _ Hc); [by destruct (t0 !! k)| |by intros ???; congruence].
    intros Hk. pose proof (cp_dirs _ _ _ _ _ Hc k (or_introl Hk)). congruence.
Qed.

(** Nothing but a link or a refused call stops a copy. *)
Definition room_for (src t : files) : Prop := ∀ p,
  match src !! p with
  | Some NDir => t !! p = None ∨ t !! p = Some NDir
  | Some (NFile _) => t !! p = None ∨ ∃ d, t !! p = Some (NFile d)
  | _ => True
  end.

Lemma copy_entries_works dir l stack t : (∀ p, torn p = None) → (∀ n, (n, NLink) ∉ l) →
  (∀ n d, (n, NFile d) ∈ l → t !! (dir ++ [n]) = None ∨ ∃ d', t !! (dir ++ [n]) = Some (NFile d')) →
  ∃ stack' t', copy_entries torn dir l stack t = (Ok stack', t').
Proof.
  intros Ht. revert stack t. induction l as [|[n x] l IH]; intros stack t Hl Hf; cbn; [by repeat eexists|].
  assert (∀ n, (n, NLink) ∉ l) by (intros n' Hin; apply (Hl n'); by apply list_elem_of_further).
  assert (∀ n d, (n, NFile d) ∈ l → t !! (dir ++ [n]) = None ∨ ∃ d', t !! (dir ++ [n]) = Some (NFile d')) as Hf'
    by (intros n' d' Hin; apply (Hf n' d'); by apply list_elem_of_further).
  destruct x as [d| | |]; [|by apply IH| |by apply IH].
  - unfold copy_file, get, modify, mbind, stm_bind. rewrite Ht.
    assert (∀ B (a b : B), match t !! (dir ++ [n]) with None | Some (NFile _) => a | Some _ => b end = a) as Hok
      by (intros B a b; destruct (Hf n d) as [E|[? E]]; [apply list_elem_of_here|by rewrite E|by rewrite E]).
    rewrite Hok. cbn. apply IH; [done|]. intros n' d' Hin. destruct (decide (n' = n)) as [->|Hne].
    + rewrite lookup_insert_eq. eauto.
    + rewrite lookup_insert_ne by (intros E; simplify_list_eq). eauto.
  - destruct (Hl n). apply list_elem_of_here.
Qed.

Lemma copy_loop_works src t0 fuel D stack t : (∀ p, torn p = None) → linkless src → room_for src t0 →
  copied src t0 D stack t → (base.size (dom src) ≤ fuel + base.size D)%nat →
  is_ok (copy_loop shuffle torn src fuel stack t).1 = true.
Proof.
  intros Ht Hl Hroom. revert D stack t. induction fuel as [|fuel IH]; intros D [|dir stack] t Hc Hfuel; cbn [copy_loop]; try done;
    assert (dir ∉ D) as Hfresh by (eapply cp_fresh; [exact Hc|apply list_elem_of_here]);
    assert (src !! dir = Some NDir) as Hdir by (eapply cp_dirs; [exact Hc|right; apply list_elem_of_here]);
    assert ({[dir]} ∪ D ⊆ dom src) as Hsub by (intros q Hq; apply elem_of_dom; apply elem_of_union in Hq as [->%elem_of_singleton|Hq];
      [by rewrite Hdir|rewrite (cp_dirs _ _ _ _ _ Hc q) by auto; eauto]);
    apply subseteq_size in Hsub; rewrite size_union, size_singleton in Hsub by set_solver; [lia|].
  assert (t !! dir = t0 !! dir) as Hr.
  { apply (cp_rest _ _ _ _ _ Hc); [done|]. intros p n d _ _. congruence. }
  assert (copy_dir torn dir t = (Ok tt, <[dir := NDir]> t)) as E1.
  { unfold copy_dir, get, assert, modify, mbind, stm_bind. rewrite Ht, Hr. specialize (Hroom dir). rewrite Hdir in Hroom.
    by destruct Hroom as [-> | ->]. }
  unfold mbind at 1, stm_bind at 1. rewrite E1.
  edestruct (copy_entries_works dir (read_dir shuffle dir src) stack (<[dir := NDir]> t)) as (stack' & t' & E2); [done|..].
  { intros n Hn%elem_of_read_dir. by apply (Hl _ Hn). }
  { intros n d Hn%elem_of_read_dir. rewrite lookup_insert_ne by (intros E; by apply (f_equal length) in E; rewrite length_app in E; cbn in E; lia).
    rewrite (cp_rest _ _ _ _ _ Hc); [specialize (Hroom (dir ++ [n])); by rewrite Hn in Hroom| |].
    - intros Hin. pose proof (cp_dirs _ _ _ _ _ Hc _ (or_introl Hin)). congruence.
    - intros p n' d' E Hp. by simplify_list_eq. }
  unfold mbind at 1, stm_bind at 1. rewrite E2. apply (IH ({[dir]} ∪ D)).
  - by eapply copied_step.
  - rewrite size_union, size_singleton by set_solver. lia.
Qed.

(** A copy that succeeds is the source without its special files, over what was there;
    and it succeeds for every tree without links that has room. *)
Lemma copy_tree_Ok src t u t' : tree_ok src → copy_tree shuffle torn src t = (Ok u, t') → linkless src ∧ t' = regular src ∪ t.
Proof.
  intros Hok H. apply (copy_loop_Ok src t _ ∅) in H as [D H]; [by apply (copied_all _ _ D)|]. apply copied_start, Hok.
Qed.
Lemma copy_tree_works src t : (∀ p, torn p = None) → tree_ok src → linkless src → room_for src t →
  copy_tree shuffle torn src t = (Ok tt, regular src ∪ t).
Proof.
  intros Ht Hok Hl Hroom. assert (is_ok (copy_tree shuffle torn src t).1 = true) as H.
  { apply (copy_loop_works src t _ ∅); try done; [apply copied_start, Hok|]. rewrite size_dom. lia. }
  destruct (copy_tree shuffle torn src t) as [[[]|e] t'] eqn:E; [|done]. by apply copy_tree_Ok in E as [_ ->].
Qed.
End copying.

(** ** Where a call reaches *)

(** Neither path is above the other. *)
Definition apart (p q : path) : Prop := strip_path p q = None ∧ strip_path q p = None.
#[export] Instance apart_sym : Symmetric apart.
Proof. intros p q [? ?]. by split. Qed.

Lemma strip_path_long p q r : strip_path p q = None → strip_path p (q ++ r) = None ∨ ∃ s, s ≠ [] ∧ p = q ++ s.
Proof.
  revert q. induction p as [|a p IH]; intros [|b q]; cbn; try done.
  - intros _. right. by exists (a :: p).
  - case_bool_decide; [|by left]. subst. intros [?|(s & ? & ->)]%IH; [by left|right; eauto].
Qed.
Lemma apart_below p q r : apart p q → strip_path p (q ++ r) = None.
Proof.
  intros [H1 H2]. destruct (strip_path_long p q r H1) as [?|(s & _ & ->)]; [done|]. by rewrite strip_path_app in H2.
Qed.
Lemma apart_ne p q : apart p q → p ≠ q.
Proof. intros [H _] ->. rewrite <- (app_nil_r q) in H at 2. by rewrite strip_path_app in H. Qed.
Lemma strip_shorter p k : (length k < length p)%nat → strip_path p k = None.
Proof. intros H. apply strip_path_None. intros q ->. rewrite length_app in H. lia. Qed.
Lemma strip_removelast p q : strip_path p q = None → strip_path p (removelast q) = None.
Proof.
  intros H. apply strip_path_None. intros r E. destruct q as [|n q _] using rev_ind.
  { symmetry in E. by apply app_eq_nil in E as [-> ->]. }
  rewrite removelast_last in E. subst. by rewrite <- app_assoc, strip_path_app in H.
Qed.

Lemma here_subtree {A} (p : path) (m : gmap path A) : m !! p = subtree p m !! [].
Proof. by rewrite lookup_subtree, app_nil_r. Qed.

(** What [m'] may differ from [m] in: below [ps], and in directories above them that
    were missing. *)
Definition only (ps : list path) (m m' : files) : Prop :=
  (∀ q, Forall (apart q) ps → subtree q m' = subtree q m) ∧
  ∀ k x, Forall (λ p, strip_path p k = None) ps → m !! k = Some x → m' !! k = Some x.

#[export] Instance only_refl ps : Reflexive (only ps).
Proof. by intros m. Qed.
#[export] Instance only_trans ps : Transitive (only ps).
Proof. intros m1 m2 m3 [H1 H1'] [H2 H2']. split; [intros q Hq; by rewrite H2, H1|eauto]. Qed.
Lemma only_weaken ps qs m m' : (∀ p, p ∈ ps → p ∈ qs) → only ps m m' → only qs m m'.
Proof.
  intros Hsub [H1 H2]. split.
  - intros q Hq. apply H1. rewrite list.Forall_forall in *. eauto.
  - intros k x Hk. apply H2. rewrite list.Forall_forall in *. eauto.
Qed.

Lemma subtree_ext {A} (p : path) (m m' : gmap path A) : (∀ q, m !! (p ++ q) = m' !! (p ++ q)) → subtree p m = subtree p m'.
Proof. intros H. apply map_eq. intros q. by rewrite !lookup_subtree. Qed.

Lemma only_without (p : path) (m : files) : only [p] m (without p m).
Proof.
  split.
  - intros q [Hq _]%list.Forall_cons. apply subtree_ext. intros r. rewrite lookup_without.
    by rewrite apart_below by by symmetry.
  - intros k x [Hk _]%list.Forall_cons E. by rewrite lookup_without, Hk.
Qed.
Lemma only_graft p t m : only [p] m (graft p t m).
Proof.
  split.
  - intros q [Hq _]%list.Forall_cons. apply subtree_ext. intros r. rewrite lookup_graft.
    by rewrite apart_below by by symmetry.
  - intros k x [Hk _]%list.Forall_cons E. by rewrite lookup_graft, Hk.
Qed.
Lemma only_move (a b : path) (m : files) : only [a; b] m (move a b m).
Proof.
  unfold move. etrans; [|eapply only_weaken; [|apply only_graft]; set_solver].
  etrans; [|eapply only_weaken; [|apply only_without]; set_solver]. eapply only_weaken; [|apply only_without]; set_solver.
Qed.
Lemma only_filter p (f : path → bool) m : only [p] m (filter (λ kx, strip_path p kx.1 = None ∨ f kx.1 = false) m).
Proof.
  split.
  - intros q [Hq _]%list.Forall_cons. apply subtree_ext. intros r. apply option_eq. intros x. rewrite map_lookup_filter_Some.
    cbn. rewrite apart_below by by symmetry. naive_solver.
  - intros k x [Hk _]%list.Forall_cons E. apply map_lookup_filter_Some. cbn. auto.
Qed.

Lemma elem_of_parents p k : k ∈ parents p ↔ k `prefix_of` p.
Proof.
  unfold parents. rewrite list_elem_of_fmap. split.
  - intros (n & -> & _). apply prefix_take.
  - intros [r ->]. exists (length k). rewrite take_app_length, elem_of_seq, length_app. split; [done|lia].
Qed.
Lemma lookup_parents (p : path) (m : files) (k : path) : (m ∪ list_to_map ((λ q, (q, NDir)) <$> parents p)) !! k =
  match m !! k with Some x => Some x | None => if decide (k `prefix_of` p) then Some NDir else None end.
Proof.
  rewrite lookup_union. assert ((list_to_map ((λ q, (q, NDir)) <$> parents p) : files) !! k
    = if decide (k `prefix_of` p) then Some NDir else None) as ->; [|destruct (m !! k), (decide _); done].
  case_decide as H.
  - apply elem_of_list_to_map_1'; [|apply list_elem_of_fmap; exists k; by rewrite elem_of_parents].
    intros y (q & [= -> ->] & _)%list_elem_of_fmap. done.
  - apply not_elem_of_list_to_map_1. rewrite <- list_fmap_compose. intros (q & -> & Hq)%list_elem_of_fmap.
    by apply elem_of_parents in Hq.
Qed.
Lemma only_parents (p : path) (m : files) : only [p] m (m ∪ list_to_map ((λ q, (q, NDir)) <$> parents p)).
Proof.
  split.
  - intros q [Hq _]%list.Forall_cons. apply subtree_ext. intros r. rewrite lookup_parents.
    destruct (m !! (q ++ r)); [done|]. rewrite decide_False; [done|]. intros [s ->]. destruct Hq as [Hq _].
    by rewrite <- app_assoc, strip_path_app in Hq.
  - intros k x _ E. by rewrite lookup_parents, E.
Qed.

(** A computation that stays below [ps], whatever is refused. *)
Definition reaches {A} (ps : list path) (m : stm disk A) : Prop := ∀ st r st', m st = (r, st') →
  only ps (on_disk st) (on_disk st') ∧ (calls st ≤ calls st')%nat.

Section reach.
Context (ps : list path).
Lemma reaches_bind {A B} (m : stm disk A) (f : A → stm disk B) : reaches ps m → (∀ a, reaches ps (f a)) → reaches ps (m ≫= f).
Proof.
  intros Hm Hf st r st'. unfold mbind, stm_bind. destruct (m st) as [[a|e] st1] eqn:E; apply Hm in E as [? ?].
  - intros [? ?]%Hf. split; [by etrans|lia].
  - by intros [= <- <-].
Qed.
Lemma reaches_still {A} (m : stm disk A) : (∀ st, (m st).2 = st) → reaches ps m.
Proof. intros H st r st' E. specialize (H st). rewrite E in H. cbn in H. subst. by split. Qed.
Lemma reaches_ret {A} (a : A) : reaches ps (mret a).
Proof. by apply reaches_still. Qed.
Lemma reaches_lift {A} (r : result A) : reaches ps (lift r).
Proof. by apply reaches_still. Qed.
Lemma reaches_throw {A} message : reaches ps (throw message : stm disk A).
Proof. by apply reaches_still. Qed.
Lemma reaches_gets {A} (f : disk → A) : reaches ps (gets f).
Proof. by apply reaches_still. Qed.
Lemma reaches_assert ok message : reaches ps (assert ok message).
Proof. apply reaches_still. intros st. by destruct ok. Qed.
Lemma reaches_tick : reaches ps tick.
Proof. intros st r st' [= <- <-]. cbn. split; [done|lia]. Qed.
Lemma reaches_catch {A} (m : stm disk A) : reaches ps m → reaches ps (catch m).
Proof. intros Hm st r st'. unfold catch. destruct (m st) as [r1 st1] eqn:E. intros [= <- <-]. by eapply Hm. Qed.
Lemma reaches_files f : (∀ m, only ps m (f m)) → reaches ps (on_files f).
Proof. intros Hf st r st' [= <- <-]. by split. Qed.
Lemma reaches_exists p : reaches ps (exists_path p).
Proof. apply reaches_gets. Qed.
End reach.

Lemma reaches_weaken {A} ps qs (m : stm disk A) : (∀ p, p ∈ ps → p ∈ qs) → reaches ps m → reaches qs m.
Proof. intros Hsub Hm st r st' E. destruct (Hm _ _ _ E). split; [by eapply only_weaken|done]. Qed.

Create HintDb reach.
#[export] Hint Resolve reaches_ret reaches_lift reaches_throw reaches_gets reaches_assert reaches_tick reaches_catch
  reaches_exists only_without only_graft only_move only_filter only_parents : reach.
#[export] Hint Extern 3 (reaches _ (_ ≫= _)) => apply reaches_bind; [|intros ?] : reach.
#[export] Hint Extern 3 (reaches _ (on_files _)) => apply reaches_files; intros ? : reach.
#[export] Hint Extern 4 (reaches _ (if ?b then _ else _)) => destruct b : reach.
Ltac reach := eauto 20 with reach.

Section effects.
Context (h : faults).

Lemma reaches_rename a b : reaches [a; b] (rename h a b).
Proof. unfold rename. reach. Qed.
Lemma reaches_remove p : reaches [p] (remove_dir_all h p).
Proof. unfold remove_dir_all. reach. Qed.
Lemma reaches_create p : reaches [p] (create_dir_all h p).
Proof. unfold create_dir_all. reach. Qed.

Lemma rename_Ok a b st u st' : rename h a b st = (Ok u, st') → on_disk st' = move a b (on_disk st).
Proof.
  unfold rename. intros (n & st1 & [= <- <-] & H)%stm_bind_Ok. apply stm_bind_Ok in H as (m & st2 & [= <- <-] & H).
  apply stm_bind_Ok in H as (? & ? & (_ & _ & ->)%assert_Ok & H). apply stm_bind_Ok in H as (? & ? & (_ & _ & ->)%assert_Ok & H).
  by apply modify_Ok in H as [_ ->].
Qed.
Lemma rename_works a b st : refused h (calls st) = false → is_Some (on_disk st !! a) → on_disk st !! b = None →
  on_disk st !! removelast b = Some NDir → rename h a b st = (Ok tt, mkDisk (move a b (on_disk st)) (S (calls st))).
Proof.
  intros Hr Ha Hb Hp. unfold rename, tick, gets, assert, on_files, modify, mbind, stm_bind, may_replace. cbn.
  rewrite Hr, Hb, Hp. by rewrite (bool_decide_eq_true_2 _ Ha), bool_decide_eq_true_2.
Qed.
Lemma remove_Ok p st u st' : remove_dir_all h p st = (Ok u, st') → on_disk st' = without p (on_disk st).
Proof.
  unfold remove_dir_all. intros (n & st1 & [= <- <-] & H)%stm_bind_Ok. destruct (refused h _).
  - by apply stm_bind_Ok in H as (? & ? & _ & []%throw_Ok).
  - by apply modify_Ok in H as [_ ->].
Qed.
Lemma remove_works p st : refused h (calls st) = false →
  remove_dir_all h p st = (Ok tt, mkDisk (without p (on_disk st)) (S (calls st))).
Proof. intros Hr. unfold remove_dir_all, tick, on_files, modify, mbind, stm_bind. cbn. by rewrite Hr. Qed.
Lemma create_Ok p st u st' : create_dir_all h p st = (Ok u, st') →
  on_disk st' = on_disk st ∪ list_to_map ((λ q, (q, NDir)) <$> parents p).
Proof.
  unfold create_dir_all. intros (n & st1 & [= <- <-] & H)%stm_bind_Ok. apply stm_bind_Ok in H as (m & st2 & [= <- <-] & H).
  apply stm_bind_Ok in H as (? & ? & (_ & _ & ->)%assert_Ok & H). apply stm_bind_Ok in H as (? & ? & (_ & _ & ->)%assert_Ok & H).
  by apply modify_Ok in H as [_ ->].
Qed.
End effects.
#[export] Hint Resolve reaches_rename reaches_remove reaches_create : reach.

(** The views after a call. *)
Lemma subtree_without {A} (p : path) (m : gmap path A) : subtree p (without p m) = ∅.
Proof. apply map_eq. intros q. by rewrite lookup_subtree, lookup_without, strip_path_app, lookup_empty. Qed.
Lemma subtree_graft {A} (p : path) (t m : gmap path A) : subtree p (graft p t (without p m)) = t.
Proof.
  apply map_eq. intros q. rewrite lookup_subtree, lookup_graft, lookup_without, strip_path_app. by destruct (t !! q).
Qed.
Lemma subtree_move_to {A} (a b : path) (m : gmap path A) : subtree b (move a b m) = subtree a m.
Proof. apply subtree_graft. Qed.
Lemma subtree_move_from (a b : path) (m : files) : apart a b → subtree a (move a b m) = ∅.
Proof.
  intros Hab. assert (Forall (apart a) [b]) as H by (apply list.Forall_cons; split; [done|apply list.Forall_nil_2]).
  unfold move. rewrite (proj1 (only_graft b _ _)), (proj1 (only_without b _)) by done. apply subtree_without.
Qed.
Lemma subtree_parents (p : path) (m : files) : subtree p (m ∪ list_to_map ((λ q, (q, NDir)) <$> parents p)) = subtree p m ∪ {[ [] := NDir ]}.
Proof.
  apply map_eq. intros q. rewrite lookup_subtree, lookup_parents, lookup_union, lookup_subtree.
  destruct (m !! (p ++ q)) as [x|]; [by destruct ((_ : files) !! q)|]. destruct q as [|n q].
  - by rewrite app_nil_r, decide_True.
  - rewrite decide_False, lookup_singleton_ne; [done|done|]. intros [r E]. apply (f_equal length) in E. rewrite !length_app in E. cbn in E. lia.
Qed.

(** A tree that is there has a root. *)
Definition rooted (t : files) : Prop := t !! [] = None → t = ∅.

Section reset_copy.
Context (h : faults) (shuffle : list (string * node) → list (string * node)).
Hypothesis shuffle_perm : ∀ l, shuffle l ≡ₚ l.

Lemma reaches_reset p : reaches [p] (reset_path h p).
Proof. unfold reset_path. reach. Qed.

Lemma create_Err p st e st' : create_dir_all h p st = (Err e, st') → on_disk st' = on_disk st.
Proof.
  intros H. assert (∀ b message (st1 : disk), assert b message st1 = (Err e, st') → st' = st1) as Ha
    by (intros b message st1; destruct b; [by intros [=]|by intros [= _ <-]]).
  unfold create_dir_all in H. apply stm_bind_Err in H as [[=]|(n & st1 & [= <- <-] & H)].
  apply stm_bind_Err in H as [[=]|(m & st2 & [= <- <-] & H)].
  apply stm_bind_Err in H as [->%Ha|(? & ? & (_ & _ & ->)%assert_Ok & H)]; [done|].
  by apply stm_bind_Err in H as [->%Ha|(? & ? & _ & [=])].
Qed.
Lemma create_rooted p st r st' : rooted (subtree p (on_disk st)) → create_dir_all h p st = (r, st') →
  rooted (subtree p (on_disk st')) ∧ (is_ok r = true → subtree p (on_disk st') = subtree p (on_disk st) ∪ {[ [] := NDir ]}).
Proof.
  intros Hp H. destruct r as [u|e]; [|by apply create_Err in H as ->].
  apply create_Ok in H. rewrite H, subtree_parents. split; [|done]. unfold rooted. rewrite lookup_union, lookup_singleton_eq.
  by destruct (subtree p (on_disk st) !! []).
Qed.

(** No call leaves a tree without its root. *)
Lemma remove_rooted p : preserves (λ st, rooted (subtree p (on_disk st))) (remove_dir_all h p).
Proof.
  intros st Hp. unfold remove_dir_all, tick, on_files, modify, throw, lift, mbind, stm_bind. cbn [on_disk calls snd].
  destruct (refused h (calls st)); cbn [on_disk snd]; [|by rewrite subtree_without]. intros Hn. apply map_eq. intros q.
  rewrite lookup_subtree, app_nil_r in Hn. rewrite lookup_empty, lookup_subtree.
  destruct (filter _ _ !! (p ++ q)) as [x|] eqn:E; [|done]. apply map_lookup_filter_Some in E as [E _].
  destruct (on_disk st !! p) as [y|] eqn:Ep.
  - rewrite map_lookup_filter_None in Hn. destruct Hn as [?|Hn]; [congruence|]. destruct (Hn y Ep). right. cbn. unfold swept.
    rewrite bool_decide_eq_true_2 by done. by rewrite andb_false_r.
  - rewrite <- lookup_subtree, Hp in E; [done|]. by rewrite <- here_subtree.
Qed.
Lemma reset_rooted p : preserves (λ st, rooted (subtree p (on_disk st))) (reset_path h p).
Proof.
  unfold reset_path. apply preserves_bind; [apply preserves_gets|intros there]. apply preserves_bind.
  - destruct there; [apply remove_rooted|apply preserves_ret].
  - intros _ st Hst. destruct (create_dir_all h p st) as [r st'] eqn:E. by apply create_rooted in E as [? _].
Qed.

(** Emptying a path that is not there makes an empty directory. *)
Lemma reset_path_fresh p st u st' : subtree p (on_disk st) = ∅ → reset_path h p st = (Ok u, st') →
  subtree p (on_disk st') = {[ [] := NDir ]}.
Proof.
  intros Hp H. unfold reset_path, exists_path, gets, mbind, stm_bind in H. rewrite here_subtree, Hp in H. cbn in H.
  apply create_rooted in H as [_ H]; [|by rewrite Hp]. by rewrite H, Hp, (left_id_L ∅ (∪)).
Qed.

(** A copy only adds to its destination. *)
Lemma copy_keeps torn k src : preserves (λ t : files, is_Some (t !! k)) (copy_tree shuffle torn src).
Proof.
  assert (∀ p x, preserves (λ t : files, is_Some (t !! k)) (modify (<[p := x]>))) as Hins.
  { intros p x. apply preserves_modify. intros t. destruct (decide (p = k)) as [->|].
    - rewrite lookup_insert_eq. eauto.
    - by rewrite lookup_insert_ne. }
  assert (∀ p, preserves (λ t : files, is_Some (t !! k)) (copy_dir torn p)) as Hdir.
  { intros p. apply preserves_bind; [apply preserves_get|intros t]. apply preserves_bind; [apply preserves_assert|auto]. }
  assert (∀ dir l stack, preserves (λ t : files, is_Some (t !! k)) (copy_entries torn dir l stack)) as Hent.
  { intros dir l. induction l as [|[n [d| | |]] l IH]; intros stack; cbn; try apply preserves_ret; try apply preserves_lift; auto.
    apply preserves_bind; [|auto]. unfold copy_file. apply preserves_bind; [apply preserves_get|intros t].
    destruct (torn _) as [[s|]|].
    - apply preserves_bind; [apply Hins|intros; apply preserves_lift].
    - apply preserves_bind; [by apply preserves_modify|intros; apply preserves_lift].
    - apply preserves_bind; [apply preserves_assert|auto]. }
  unfold copy_tree. generalize (S (base.size src)) as fuel, [[] : path] as stack.
  induction fuel as [|fuel IH]; intros [|dir stack]; cbn; try apply preserves_ret; try apply preserves_lift.
  apply preserves_bind; [apply Hdir|intros _]. apply preserves_bind; [apply Hent|auto].
Qed.

Lemma reaches_copy src dst : reaches [dst] (copy_dir_recursive h shuffle src dst).
Proof.
  unfold copy_dir_recursive. apply reaches_bind; [reach|intros []]; [|reach]. apply reaches_bind; [reach|intros _].
  apply reaches_bind; [reach|intros n]. apply reaches_bind; [reach|intros m]. destruct (copy_tree _ _ _ _) as [r t].
  apply reaches_bind; [|reach]. apply reaches_files. intros m'. etrans; [apply only_without|apply only_graft].
Qed.

Lemma copy_rooted src dst st r st' : apart src dst → rooted (subtree dst (on_disk st)) →
  copy_dir_recursive h shuffle src dst st = (r, st') →
  rooted (subtree dst (on_disk st')) ∧
  (is_ok r = true → tree_ok (subtree src (on_disk st)) →
     linkless (subtree src (on_disk st)) ∧
     subtree dst (on_disk st') = regular (subtree src (on_disk st)) ∪ (subtree dst (on_disk st) ∪ {[ [] := NDir ]})).
Proof.
  intros Hap Hroot H. unfold copy_dir_recursive in H. unfold mbind at 1, stm_bind at 1, exists_path at 1, gets at 1 in H.
  rewrite here_subtree in H. case_bool_decide as Hsrc.
  2:{ apply create_rooted in H as [? ?]; [|done]. split; [done|]. intros _ [Hr _]. rewrite Hr in Hsrc. by destruct Hsrc. }
  unfold mbind at 1, stm_bind at 1 in H. destruct (create_dir_all h dst st) as [[u|e] st1] eqn:E1.
  2:{ injection H as <- <-. apply create_rooted in E1 as [? _]; done. }
  assert (subtree src (on_disk st1) = subtree src (on_disk st)) as Hs.
  { apply reaches_create in E1 as [[E1 _] _]. apply E1, list.Forall_cons. split; [done|apply list.Forall_nil_2]. }
  apply create_rooted in E1 as [_ E1]; [|done]. specialize (E1 eq_refl).
  unfold tick, gets, on_files, modify, lift, mbind, stm_bind in H. cbn [on_disk calls] in H. rewrite Hs, E1 in H.
  destruct (copy_tree shuffle _ _ _) as [rc t] eqn:Ec. injection H as <- <-. cbn [on_disk]. rewrite subtree_graft. split.
  - intros Hn. pose proof (copy_keeps (torn h (calls st1)) [] (subtree src (on_disk st)) (subtree dst (on_disk st) ∪ {[ [] := NDir ]})) as Hk.
    rewrite Ec in Hk. cbn in Hk. rewrite Hn in Hk. destruct Hk as [x Hx]; [|done].
    rewrite lookup_union, lookup_singleton_eq. destruct (subtree dst (on_disk st) !! []); cbn; eauto.
  - intros Hr Ht. destruct rc as [[]|e]; [|done]. by apply copy_tree_Ok in Ec.
Qed.
End reset_copy.
#[export] Hint Resolve reaches_reset reaches_copy : reach.
