(* ===== verification/Snapshots.v ===== *)
(** * Snapshots (src/src/workspace/snapshot)

    A snapshot is a copy of a workspace's file system and of the upper layer of its home
    under [snapshots/<name>].  A restore moves the live trees aside, copies the snapshot
    in and, if that fails, moves them back; the two tiers differ in what the live file
    system is, a directory or a disk image, which is written here as the tree it holds.

    The disk is a [FileTree.disk]: any call may be refused. *)
From S2P Require Import Prelude RustStr Paths Types Registry Records Start FileTree.
#[local] Open Scope nat_scope.

(** ** Names and paths (paths.rs) *)

Definition snapshot_char (c : ascii) : bool := is_ascii_alphanumeric c || (c =? "-")%char || (c =? "_")%char.
Definition validate_snapshot_name (name : string) : result unit :=
  if bool_decide (name = "") || (63 <? String.length name) then bail "snapshot name must be 1-63 characters"
  else if bool_decide (name = ".") || bool_decide (name = "..") || str_contains ".." name
  then bail "snapshot name must not contain '.' path traversal segments"
  else if str_all snapshot_char name then Ok tt else bail "snapshot name contains invalid character".

(** The names a path is made of. *)
Definition names_of (s : string) : path := filter (λ c, c ≠ "" ∧ c ≠ ".") (path_components s).
Definition snapshots_root (w : WorkspaceMetadata) : path := names_of (workspace_path w) ++ ["snapshots"].
Definition snapshot_path (w : WorkspaceMetadata) (name : string) : path := snapshots_root w ++ [name].

(** ** Restoring (restore/directory.rs, restore/disk_image.rs) *)

Record SnapshotRestorePaths := mkRestorePaths {
  snapshot_fs : path;
  snapshot_home_upper : path;
  backup_root : path;
  fs_path : path;
  upper_path : path;
  work_path : path;
  merged_path : path }.

Section restore.
Context (h : faults) (shuffle : list (string * node) → list (string * node)).

Definition move_if_there (from to : path) : stm disk unit :=
  there ← exists_path from; if there : bool then rename h from to else mret tt.
Definition remove_if_there (p : path) : stm disk unit :=
  there ← exists_path p; if there : bool then remove_dir_all h p else mret tt.
Definition try_remove (p : path) : stm disk unit :=
  there ← exists_path p; if there : bool then ignore (remove_dir_all h p) else mret tt.

(** The live file system and the upper layer go to the backup; the scratch layers of the
    overlay go away. *)
Definition set_aside (r : SnapshotRestorePaths) (live backup : path) : stm disk unit :=
  move_if_there live backup;;
  move_if_there (upper_path r) (backup_root r ++ ["home-upper"]);;
  remove_if_there (work_path r);;
  remove_if_there (merged_path r).
Definition put_back (r : SnapshotRestorePaths) (live backup : path) : stm disk unit :=
  try_remove live;;
  try_remove (upper_path r);;
  move_if_there backup live;;
  move_if_there (backup_root r ++ ["home-upper"]) (upper_path r).

Definition copy_into_directory (r : SnapshotRestorePaths) : stm disk unit :=
  reset_path h (fs_path r);;
  reset_path h (upper_path r);;
  reset_path h (work_path r);;
  reset_path h (merged_path r);;
  copy_dir_recursive h shuffle (snapshot_fs r) (fs_path r);;
  copy_dir_recursive h shuffle (snapshot_home_upper r) (upper_path r).
Definition restore_directory_snapshot (r : SnapshotRestorePaths) : stm disk unit :=
  let backup_fs := backup_root r ++ ["fs"] in
  set_aside r (fs_path r) backup_fs;;
  on_error (copy_into_directory r) (λ e, put_back r (fs_path r) backup_fs;; lift (Err e)).

(** A disk image is the tree it holds; [fresh] is what a new one holds once it is mounted
    ([ensure_workspace_storage_ready]).  What is written below the mount point is
    written to it. *)
Context (fresh : files).
Definition ensure_workspace_storage_ready (image : path) : stm disk unit :=
  there ← exists_path image;
  (if there : bool then mret tt
   else n ← tick;
        if refused h n then on_files (<[image := NFile ""]>);; throw "failed to format ext4 disk image"
        else on_files (graft image fresh));;
  n ← tick;
  assert (negb (refused h n)) "failed to mount quota-backed workspace image".
Definition ensure_workspace_storage_unmounted : stm disk unit :=
  n ← tick; assert (negb (refused h n)) "failed to unmount workspace storage".

Definition copy_into_image (image : path) (r : SnapshotRestorePaths) : stm disk unit :=
  reset_path h (upper_path r);;
  reset_path h (work_path r);;
  reset_path h (merged_path r);;
  ensure_workspace_storage_ready image;;
  copy_result ← catch (copy_dir_recursive h shuffle (snapshot_fs r) image;;
                       copy_dir_recursive h shuffle (snapshot_home_upper r) (upper_path r));
  unmount_result ← catch ensure_workspace_storage_unmounted;
  lift copy_result;;
  lift unmount_result.
Definition restore_disk_image_snapshot (image : path) (r : SnapshotRestorePaths) : stm disk unit :=
  let backup_image := backup_root r ++ ["fs.img"] in
  ensure_workspace_storage_unmounted;;
  set_aside r image backup_image;;
  (there ← exists_path (fs_path r); if there : bool then create_dir_all h (fs_path r) else mret tt);;
  on_error (copy_into_image image r)
    (λ e, ignore ensure_workspace_storage_unmounted;; put_back r image backup_image;; lift (Err e)).

(** ** The entry point (restore/mod.rs) *)

Definition restore_tier (disk_image : bool) (image : path) (r : SnapshotRestorePaths) : stm disk unit :=
  if disk_image then restore_disk_image_snapshot image r else restore_directory_snapshot r.

Context (within : path → bool).                 (** [ensure_path_within] *)

Definition uses_disk_image (w : WorkspaceMetadata) : bool :=
  match disk_bytes (limits w), home_mount_source_path w with Some _, None => true | _, _ => false end.
Definition image_path (w : WorkspaceMetadata) : path := names_of (workspace_path w) ++ ["fs.img"].
Definition restore_paths (w : WorkspaceMetadata) (name : string) : SnapshotRestorePaths :=
  mkRestorePaths (snapshot_path w name ++ ["fs"]) (snapshot_path w name ++ ["home-upper"])
    (names_of (workspace_path w) ++ [".restore-backup"]) (names_of (filesystem_path w))
    (names_of (overlay_home_upper_path w)) (names_of (overlay_home_work_path w)) (names_of (overlay_home_merged_path w)).

Definition restore_snapshot_filesystem (w : WorkspaceMetadata) (name : string) : stm disk unit :=
  let r := restore_paths w name in
  assert (within (names_of (workspace_path w)) && within (snapshot_path w name)) "path escapes its directory";;
  there ← exists_path (snapshot_path w name);
  assert there "snapshot not found";;
  fs_there ← exists_path (snapshot_fs r);
  upper_there ← exists_path (snapshot_home_upper r);
  assert (fs_there && upper_there) "snapshot is incomplete";;
  remove_if_there (backup_root r);;
  create_dir_all h (backup_root r);;
  assert (within (fs_path r) && within (upper_path r) && within (work_path r) && within (merged_path r))
    "path escapes its directory";;
  result ← catch (restore_tier (uses_disk_image w) (image_path w) r);
  remove_if_there (backup_root r);;
  lift result.

(** [restore_workspace_snapshot]: one transaction, with the host and the disk behind the
    registry. *)
Definition on_world {A} (m : stm world A) : stm (Registry * (Host * disk)) A := λ st,
  let '(res, (reg, host)) := m (st.1, st.2.1) in (res, (reg, (host, st.2.2))).
Definition on_snapshots {A} (m : stm disk A) : stm (Registry * (Host * disk)) A := λ st,
  let '(res, d) := m st.2.2 in (res, (st.1, (st.2.1, d))).
Definition restore_workspace_snapshot (reachable : bool) (saved : commit) (session : stop_answer) (hs : stop_host) (sb ws name : string)
    : stm (Registry * (Host * disk)) WorkspaceMetadata :=
  transact reachable saved
    (r ← get;
     p ← lift (workspace_of r.1 sb ws);
     let '(sid, wid, _, w) := p in
     lift (validate_snapshot_name name);;
     (if may_have_runtime (status w)
      then match runtime_pid w with Some pid => on_world (stop_session session pid) | None => mret tt end;;
           on_world (set_workspace_stopped hs sid wid)
      else mret tt);;
     on_snapshots (restore_snapshot_filesystem w name);;
     on_world (get_workspace sid wid)).

(** ** Taking a snapshot (create.rs) *)

Record SnapshotMetadata := mkSnapshot { snapshot_name : string; snapshot_created_at : string }.
Record WorkspaceSnapshotInfo := mkInfo { info_name : string; info_created_at : string; info_path : path }.

Context (print_metadata : SnapshotMetadata → string) (parse_metadata : string → option SnapshotMetadata).

Definition write_file (p : path) (data : string) : stm disk unit :=
  n ← tick; assert (negb (refused h n)) "failed to write";; on_files (<[p := NFile data]>).

(** [with_workspace_storage_mounted]; [mounted] is whether the image is mounted already. *)
Definition with_workspace_storage_mounted {A} (w : WorkspaceMetadata) (mounted : bool) (operation : stm disk A) : stm disk A :=
  if negb (uses_disk_image w) || mounted then operation
  else
    ensure_workspace_storage_ready (image_path w);;
    result ← catch operation;
    ignore ensure_workspace_storage_unmounted;;
    lift result.

Definition live_of (w : WorkspaceMetadata) : path := if uses_disk_image w then image_path w else names_of (filesystem_path w).
Definition create_workspace_snapshot (w : WorkspaceMetadata) (mounted : bool) (name now : string) : stm disk WorkspaceSnapshotInfo :=
  lift (validate_snapshot_name name);;
  assert (within (names_of (workspace_path w))) "path escapes its directory";;
  create_dir_all h (snapshots_root w);;
  let snapshot_dir := snapshot_path w name in
  assert (within snapshot_dir) "path escapes its directory";;
  there ← exists_path snapshot_dir;
  assert (negb there) "snapshot already exists";;
  create_dir_all h snapshot_dir;;
  on_error
    (with_workspace_storage_mounted w mounted
       (assert (within (names_of (filesystem_path w)) && within (names_of (overlay_home_upper_path w))) "path escapes its directory";;
        copy_dir_recursive h shuffle (live_of w) (snapshot_dir ++ ["fs"]);;
        copy_dir_recursive h shuffle (names_of (overlay_home_upper_path w)) (snapshot_dir ++ ["home-upper"]);;
        write_file (snapshot_dir ++ ["snapshot.json"]) (print_metadata (mkSnapshot name now));;
        mret (mkInfo name now snapshot_dir)))
    (λ e, remove_if_there snapshot_dir;; lift (Err e)).

(** ** Listing and collecting (list.rs) *)

Definition snapshot_info (m : files) (root : path) (entry : string * node) : result (option WorkspaceSnapshotInfo) :=
  match entry.2 with
  | NDir =>
      let p := root ++ [entry.1] in
      match m !! (p ++ ["snapshot.json"]) with
      | Some (NFile raw) =>
          match parse_metadata raw with
          | Some s => Ok (Some (mkInfo (snapshot_name s) (snapshot_created_at s) p))
          | None => bail "failed to parse snapshot.json"
          end
      | Some _ => bail "failed to read snapshot.json"
      | None => Ok (Some (mkInfo entry.1 "<unknown>" p))
      end
  | _ => Ok None
  end.
Fixpoint snapshot_infos (m : files) (root : path) (entries : list (string * node)) : result (list WorkspaceSnapshotInfo) :=
  match entries with
  | [] => Ok []
  | entry :: rest =>
      i ← snapshot_info m root entry;
      l ← snapshot_infos m root rest;
      Ok (match i with Some i => i :: l | None => l end)
  end.
Definition list_workspace_snapshots (w : WorkspaceMetadata) (m : files) : result (list WorkspaceSnapshotInfo) :=
  if negb (within (names_of (workspace_path w)) && within (snapshots_root w)) then bail "path escapes its directory"
  else match m !! snapshots_root w with
       | None => Ok []
       | Some _ =>
           l ← snapshot_infos m (snapshots_root w) (read_dir shuffle (snapshots_root w) m);
           Ok (sort_by (λ a b, str_le (info_name a) (info_name b)) l)
       end.

(** Newest first, by time and then by name. *)
Definition newer (a b : WorkspaceSnapshotInfo) : bool :=
  if bool_decide (info_created_at a = info_created_at b) then str_le (info_name b) (info_name a)
  else str_le (info_created_at b) (info_created_at a).
Definition newest_first (l : list WorkspaceSnapshotInfo) : list WorkspaceSnapshotInfo := sort_by newer l.

(** A worker removes its chunk until a removal is refused; the trees of two chunks are
    apart, so the workers run one after the other here. *)
Fixpoint remove_chunk (chunk : list WorkspaceSnapshotInfo) : stm disk (list WorkspaceSnapshotInfo) :=
  match chunk with
  | [] => mret []
  | s :: rest => remove_if_there (info_path s);; removed ← remove_chunk rest; mret (s :: removed)
  end.
Fixpoint chunks {A} (fuel size : nat) (l : list A) : list (list A) :=
  match fuel, l with
  | S fuel', _ :: _ => take size l :: chunks fuel' size (drop size l)
  | _, _ => []
  end.
Fixpoint run_chunks (l : list (list WorkspaceSnapshotInfo)) : stm disk (list (result (list WorkspaceSnapshotInfo))) :=
  match l with
  | [] => mret []
  | chunk :: rest => r ← catch (remove_chunk chunk); results ← run_chunks rest; mret (r :: results)
  end.
(** The first failure, or everything that was removed. *)
Fixpoint collect (results : list (result (list WorkspaceSnapshotInfo))) : result (list WorkspaceSnapshotInfo) :=
  match results with
  | [] => Ok []
  | r :: rest => removed ← r; more ← collect rest; Ok (removed ++ more)
  end.

Definition gc_workspace_snapshots (w : WorkspaceMetadata) (keep : nat) : stm disk (list WorkspaceSnapshotInfo) :=
  m ← gets on_disk;
  all ← lift (list_workspace_snapshots w m);
  if length all <=? keep then mret []
  else
    let to_remove := drop keep (newest_first all) in
    let worker_count := length to_remove `min` 4 in
    let chunk_size := (length to_remove + worker_count - 1) / worker_count in
    results ← run_chunks (chunks (length to_remove) chunk_size to_remove);
    lift (collect results).

(** ** Archives (archive.rs) *)

(** [Path::extension] and the suffixes [tar] compresses for. *)
Definition extension (file_name : string) : option string :=
  match rsplit_once "." file_name with
  | Some (stem, ext) => if bool_decide (stem = "") then None else Some ext
  | None => None
  end.
Definition output_uses_gzip (file_name : string) : bool :=
  bool_decide (extension file_name = Some "gz") || bool_decide (extension file_name = Some "tgz").

Definition ensure_snapshot_layout (dir : path) (m : files) : result unit :=
  let there p := bool_decide (is_Some (m !! p)) in
  if negb (there dir) then bail "snapshot not found"
  else if there (dir ++ ["fs"]) && there (dir ++ ["home-upper"]) && there (dir ++ ["snapshot.json"]) then Ok tt
  else bail "snapshot is incomplete".

(** [is_file] and [is_dir] look through a link: [target] is what it points to. *)
Context (target : path → node).
Definition kind_of (m : files) (p : path) : option node := match m !! p with Some NLink => Some (target p) | x => x end.
Definition is_file (m : files) (p : path) : bool := match kind_of m p with Some (NFile _) => true | _ => false end.
Definition is_dir (m : files) (p : path) : bool := bool_decide (kind_of m p = Some NDir).
Definition looks_like_snapshot_dir (m : files) (p : path) : bool :=
  is_file m (p ++ ["snapshot.json"]) && is_dir m (p ++ ["fs"]) && is_dir m (p ++ ["home-upper"]).
Definition locate_extracted_snapshot (m : files) (extract_dir : path) : result path :=
  if looks_like_snapshot_dir m extract_dir then Ok extract_dir
  else
    match filter (λ e, e.2 = NDir ∧ looks_like_snapshot_dir m (extract_dir ++ [e.1]) = true) (read_dir shuffle extract_dir m) with
    | [e] => Ok (extract_dir ++ [e.1])
    | [] => bail "archive did not contain a recognizable snapshot layout"
    | _ => bail "archive contained multiple snapshot-like directories"
    end.
Definition read_snapshot_metadata (m : files) (dir : path) : result SnapshotMetadata :=
  match kind_of m (dir ++ ["snapshot.json"]) with
  | Some (NFile raw) =>
      match parse_metadata raw with
      | Some s => validate_snapshot_name (snapshot_name s);; Ok s
      | None => bail "failed to parse snapshot.json"
      end
  | _ => bail "snapshot archive did not contain snapshot.json"
  end.

(** [archive] is what [tar] extracts, if it can; [temp_dir] is new. *)
Definition import_workspace_snapshot_archive (w : WorkspaceMetadata) (archive : option files) (temp_dir : path)
    (name : option string) (replace : bool) : stm disk WorkspaceSnapshotInfo :=
  assert (within (names_of (workspace_path w))) "path escapes its directory";;
  create_dir_all h (snapshots_root w);;
  create_dir_all h temp_dir;;
  outcome ← catch
    (extracted ← lift (ok_or archive (plain "failed to run tar -xf"));
     on_files (λ m, graft temp_dir extracted (without temp_dir m));;
     m ← gets on_disk;
     root ← lift (locate_extracted_snapshot m temp_dir);
     metadata ← lift (read_snapshot_metadata m root);
     let target_name := default (snapshot_name metadata) name in
     lift (validate_snapshot_name target_name);;
     let destination := snapshots_root w ++ [target_name] in
     there ← exists_path destination;
     (if there : bool
      then assert replace "snapshot already exists; pass --replace to overwrite it";; remove_dir_all h destination
      else mret tt);;
     copy_dir_recursive h shuffle root destination;;
     write_file (destination ++ ["snapshot.json"]) (print_metadata (mkSnapshot target_name (snapshot_created_at metadata)));;
     mret (mkInfo target_name (snapshot_created_at metadata) destination));
  ignore (remove_dir_all h temp_dir);;
  lift outcome.
End restore.

(** * A restore swaps the trees or puts them back *)

Abbreviation view p st := (subtree p (on_disk st)).

Fixpoint all_apart (l : list path) : Prop :=
  match l with [] => True | p :: l' => Forall (apart p) l' ∧ all_apart l' end.

(** Splits the facts that paths are apart; solves what follows from them. *)
Ltac apart_facts :=
  repeat match goal with
  | H : all_apart (_ :: _) |- _ => destruct H as [? H]
  | H : all_apart [] |- _ => clear H
  | H : Forall (apart _) (_ :: _) |- _ => apply list.Forall_cons in H as [? H]
  | H : Forall (apart _) [] |- _ => clear H
  end.
Ltac apart :=
  repeat (apply list.Forall_cons; split); try apply list.Forall_nil_2; first [assumption | symmetry; assumption].

Lemma reach_view {A} ps (m : stm disk A) q st r st' : reaches ps m → m st = (r, st') → Forall (apart q) ps →
  view q st' = view q st.
Proof. intros Hm E Hq. by apply (Hm _ _ _ E). Qed.

(** The directory a path lies in stays, whatever happens below it and elsewhere. *)
Lemma reach_parent {A} ps (m : stm disk A) q st r st' : reaches ps m → m st = (r, st') → q ≠ [] →
  Forall (λ p, p = q ∨ apart p q) ps → on_disk st !! removelast q = Some NDir → on_disk st' !! removelast q = Some NDir.
Proof.
  intros Hm E Hq Hps. apply (Hm _ _ _ E). eapply list.Forall_impl; [exact Hps|]. intros p [->|[Hp _]]; [|by apply strip_removelast].
  apply strip_shorter. destruct q as [|n q _] using rev_ind; [done|]. rewrite removelast_last, length_app. cbn. lia.
Qed.

Section swap.
Context (h : faults).

Lemma reaches_move a b : reaches [a; b] (move_if_there h a b).
Proof. unfold move_if_there. reach. Qed.
Lemma reaches_remove_if p : reaches [p] (remove_if_there h p).
Proof. unfold remove_if_there. reach. Qed.
Lemma reaches_ignore {A} ps (m : stm disk A) : reaches ps m → reaches ps (ignore m).
Proof. intros Hm st r st'. unfold ignore. intros [= <- <-]. eapply Hm. apply surjective_pairing. Qed.
Lemma reaches_try p : reaches [p] (try_remove h p).
Proof. unfold try_remove. apply reaches_bind; [reach|]. intros []; [apply reaches_ignore|]; reach. Qed.

Lemma move_if_there_Ok a b st u st' : apart a b → rooted (view a st) → view b st = ∅ →
  move_if_there h a b st = (Ok u, st') → view b st' = view a st ∧ view a st' = ∅.
Proof.
  intros Hab Ha Hb. unfold move_if_there. intros (there & st1 & [= <- <-] & H)%stm_bind_Ok. case_bool_decide as He.
  - apply rename_Ok in H as ->. by rewrite subtree_move_to, subtree_move_from.
  - apply mret_Ok in H as [_ ->]. rewrite here_subtree in He.
    assert (view a st = ∅) as -> by (apply Ha; by destruct (view a st !! []) eqn:E; [destruct He; eauto|]). done.
Qed.
Lemma move_if_there_works a b st : (∀ n, calls st ≤ n → refused h n = false) → view b st = ∅ →
  on_disk st !! removelast b = Some NDir → ∃ st', move_if_there h a b st = (Ok tt, st').
Proof.
  intros Hr Hb Hp. unfold move_if_there, exists_path, gets, mbind, stm_bind. case_bool_decide as He; [|by eexists].
  rewrite rename_works; [by eexists|by apply Hr|done| |done]. by rewrite here_subtree, Hb.
Qed.
Lemma remove_if_there_Ok p st u st' : rooted (view p st) → remove_if_there h p st = (Ok u, st') → view p st' = ∅.
Proof.
  intros Hp. unfold remove_if_there. intros (there & st1 & [= <- <-] & H)%stm_bind_Ok. case_bool_decide as He.
  - apply remove_Ok in H as ->. apply subtree_without.
  - apply mret_Ok in H as [_ ->]. rewrite here_subtree in He. apply Hp. by destruct (view p st !! []) eqn:E; [destruct He; eauto|].
Qed.
Lemma try_remove_works p st : (∀ n, calls st ≤ n → refused h n = false) → rooted (view p st) →
  ∃ st', try_remove h p st = (Ok tt, st') ∧ view p st' = ∅.
Proof.
  intros Hr Hp. unfold try_remove, exists_path, gets, ignore, mbind, stm_bind. case_bool_decide as He.
  - rewrite remove_works by by apply Hr. eexists. split; [done|]. apply subtree_without.
  - eexists. split; [done|]. rewrite here_subtree in He. apply Hp. by destruct (view p st !! []) eqn:E; [destruct He; eauto|].
Qed.
End swap.
#[export] Hint Resolve reaches_move reaches_remove_if reaches_try reaches_ignore : reach.

Section put_back.
Context (h : faults) (r : SnapshotRestorePaths) (live backup : path).
Let upper := upper_path r.
Let backup_upper := backup_root r ++ ["home-upper"].
Hypothesis paths_apart : all_apart [live; upper; work_path r; merged_path r; backup; backup_upper].

Lemma reaches_set_aside : reaches [live; upper; work_path r; merged_path r; backup; backup_upper] (set_aside h r live backup).
Proof.
  clear paths_apart. unfold set_aside. fold upper backup_upper.
  repeat (apply reaches_bind; [|intros _]); (eapply reaches_weaken; [|reach]); set_solver.
Qed.

Lemma set_aside_Ok st u st' :
  rooted (view live st) → rooted (view upper st) → rooted (view (work_path r) st) → rooted (view (merged_path r) st) →
  view backup st = ∅ → view backup_upper st = ∅ → set_aside h r live backup st = (Ok u, st') →
  view backup st' = view live st ∧ view backup_upper st' = view upper st ∧
  view live st' = ∅ ∧ view upper st' = ∅ ∧ view (work_path r) st' = ∅ ∧ view (merged_path r) st' = ∅.
Proof.
  intros Hl Hu Hw Hm Hb Hbu H. pose proof paths_apart as Hap. apart_facts. unfold set_aside in H. fold upper backup_upper in H.
  apply stm_bind_Ok in H as (u1 & st1 & E1 & H). apply stm_bind_Ok in H as (u2 & st2 & E2 & H).
  apply stm_bind_Ok in H as (u3 & st3 & E3 & E4).
  assert (∀ q, Forall (apart q) [live; backup] → view q st1 = view q st) as F1 by (intros q; apply (reach_view _ _ _ _ _ _ (reaches_move h _ _) E1)).
  assert (∀ q, Forall (apart q) [upper; backup_upper] → view q st2 = view q st1) as F2 by (intros q; apply (reach_view _ _ _ _ _ _ (reaches_move h _ _) E2)).
  assert (∀ q, Forall (apart q) [work_path r] → view q st3 = view q st2) as F3 by (intros q; apply (reach_view _ _ _ _ _ _ (reaches_remove_if h _) E3)).
  assert (∀ q, Forall (apart q) [merged_path r] → view q st' = view q st3) as F4 by (intros q; apply (reach_view _ _ _ _ _ _ (reaches_remove_if h _) E4)).
  apply move_if_there_Ok in E1 as [V1 V1']; [|done..].
  apply move_if_there_Ok in E2 as [V2 V2']; [|apart|by rewrite F1 by apart|by rewrite F1 by apart].
  apply remove_if_there_Ok in E3; [|by rewrite F2, F1 by apart]. apply remove_if_there_Ok in E4; [|by rewrite F3, F2, F1 by apart].
  split_and!; rewrite ?F4 by apart; rewrite ?F3 by apart; rewrite ?F2 by apart; rewrite ?V2, ?V2', ?V1, ?V1', ?F1 by apart; done.
Qed.

Lemma put_back_works st : (∀ n, calls st ≤ n → refused h n = false) →
  rooted (view live st) → rooted (view upper st) → rooted (view backup st) → rooted (view backup_upper st) →
  live ≠ [] → upper ≠ [] → on_disk st !! removelast live = Some NDir → on_disk st !! removelast upper = Some NDir →
  ∃ st', put_back h r live backup st = (Ok tt, st') ∧ view live st' = view backup st ∧ view upper st' = view backup_upper st.
Proof.
  intros Hr Hl Hu Hb Hbu Hln Hun Hlp Hup. pose proof paths_apart as Hap. apart_facts. unfold put_back. fold upper backup_upper.
  destruct (try_remove_works h live st Hr Hl) as (st1 & E1 & V1).
  pose proof (reaches_try h live _ _ _ E1) as [[F1 P1] N1].
  assert (∀ q, q ≠ [] → q = live ∨ apart live q → on_disk st !! removelast q = Some NDir → on_disk st1 !! removelast q = Some NDir) as P1'.
  { intros q Hq Ha. eapply reach_parent; [apply reaches_try|exact E1|done|]. apply list.Forall_cons. split; [naive_solver|apply list.Forall_nil_2]. }
  destruct (try_remove_works h upper st1) as (st2 & E2 & V2); [intros n ?; apply Hr; lia|by rewrite F1 by apart|].
  pose proof (reaches_try h upper _ _ _ E2) as [[F2 P2] N2].
  assert (∀ q, q ≠ [] → q = upper ∨ apart upper q → on_disk st1 !! removelast q = Some NDir → on_disk st2 !! removelast q = Some NDir) as P2'.
  { intros q Hq Ha. eapply reach_parent; [apply reaches_try|exact E2|done|]. apply list.Forall_cons. split; [naive_solver|apply list.Forall_nil_2]. }
  destruct (move_if_there_works h backup live st2) as (st3 & E3); [intros n ?; apply Hr; lia|by rewrite F2 by apart| |].
  { apply P2'; [done|right; apart|]. apply P1'; auto. }
  pose proof (reaches_move h backup live _ _ _ E3) as [[F3 _] N3].
  destruct (move_if_there_works h backup_upper upper st3) as (st4 & E4); [intros n ?; apply Hr; lia|by rewrite F3 by apart| |].
  { eapply reach_parent; [apply reaches_move|exact E3|done| |].
    - apply list.Forall_cons. split; [right; apart|]. apply list.Forall_cons. split; [right; apart|apply list.Forall_nil_2].
    - apply P2'; [done|by left|]. apply P1'; [done|right; apart|done]. }
  pose proof (reaches_move h backup_upper upper _ _ _ E4) as [[F4 _] _].
  exists st4. unfold mbind, stm_bind. rewrite E1, E2, E3. split; [done|].
  apply move_if_there_Ok in E3 as [V3 _]; [|apart|by rewrite F2, F1 by apart|by rewrite F2 by apart].
  apply move_if_there_Ok in E4 as [V4 _]; [|apart|by rewrite F3, F2, F1 by apart|by rewrite F3 by apart].
  split; [by rewrite F4, V3, F2, F1 by apart|]. by rewrite V4, F3, F2, F1 by apart.
Qed.
End put_back.

Lemma view_rooted {A} ps (m : stm disk A) q : reaches ps m → Forall (apart q) ps → preserves (λ st, rooted (view q st)) m.
Proof. intros Hm Hq st Hst. by rewrite (reach_view _ _ _ _ _ _ Hm (surjective_pairing _) Hq). Qed.

Lemma regular_root (src : files) : tree_ok src → regular src ∪ ({[ [] := NDir ]} ∪ {[ [] := NDir ]}) = regular src.
Proof.
  intros [Hr _]. apply map_eq. intros k. rewrite !lookup_union. destruct k as [|n k].
  - by rewrite lookup_regular, Hr, lookup_singleton_eq.
  - rewrite lookup_singleton_ne by done. by destruct (regular src !! _).
Qed.

Section copy_in.
Context (h : faults) (shuffle : list (string * node) → list (string * node)) (shuffle_perm : ∀ l, shuffle l ≡ₚ l).

Lemma copy_keeps_rooted src dst : apart src dst → preserves (λ st, rooted (view dst st)) (copy_dir_recursive h shuffle src dst).
Proof.
  intros Ha st Hst. destruct (copy_dir_recursive h shuffle src dst st) as [r st'] eqn:E. by eapply copy_rooted in E as [? _].
Qed.

(** A tree copied into a directory that is empty. *)
Lemma copy_Ok src dst st u st' : apart src dst → tree_ok (view src st) → view dst st = {[ [] := NDir ]} →
  copy_dir_recursive h shuffle src dst st = (Ok u, st') →
  linkless (view src st) ∧ view dst st' = regular (view src st).
Proof.
  intros Ha Hok Hd E. eapply copy_rooted in E as [_ E]; [|done|exact Ha|].
  - destruct (E eq_refl Hok) as [? E']. split; [done|]. rewrite E', Hd. by apply regular_root.
  - rewrite Hd. intros H. by rewrite lookup_singleton_eq in H.
Qed.

Section directory.
Context (r : SnapshotRestorePaths).
Hypothesis paths_apart :
  all_apart [fs_path r; upper_path r; work_path r; merged_path r; snapshot_fs r; snapshot_home_upper r].

Lemma reaches_copy_into_directory :
  reaches [fs_path r; upper_path r; work_path r; merged_path r] (copy_into_directory h shuffle r).
Proof.
  clear paths_apart shuffle_perm. unfold copy_into_directory. repeat (apply reaches_bind; [|intros _]); (eapply reaches_weaken; [|reach]); set_solver.
Qed.

Lemma copy_into_directory_rooted q : q = fs_path r ∨ q = upper_path r →
  preserves (λ st, rooted (view q st)) (copy_into_directory h shuffle r).
Proof.
  pose proof paths_apart as Hap. apart_facts. unfold copy_into_directory.
  assert (∀ q p, q ∈ [fs_path r; upper_path r] → p = q ∨ apart q p → preserves (λ st, rooted (view q st)) (reset_path h p)) as Hreset.
  { intros q' p _ [-> | Hp]; [apply reset_rooted|]. eapply view_rooted; [apply reaches_reset|apart]. }
  intros [-> | ->]; (do 4 (apply preserves_bind; [apply Hreset; [set_solver|first [by left | right; apart]]|intros _]));
    apply preserves_bind; intros;
    first [apply copy_keeps_rooted; apart | eapply view_rooted; [apply reaches_copy|apart]].
Qed.

Lemma copy_into_directory_Ok st u st' : view (fs_path r) st = ∅ → view (upper_path r) st = ∅ →
  tree_ok (view (snapshot_fs r) st) → tree_ok (view (snapshot_home_upper r) st) →
  copy_into_directory h shuffle r st = (Ok u, st') →
  linkless (view (snapshot_fs r) st) ∧ linkless (view (snapshot_home_upper r) st) ∧
  view (fs_path r) st' = regular (view (snapshot_fs r) st) ∧
  view (upper_path r) st' = regular (view (snapshot_home_upper r) st).
Proof.
  intros Hf Hu Hsf Hsu H. pose proof paths_apart as Hap. apart_facts. unfold copy_into_directory in H.
  apply stm_bind_Ok in H as (u1 & st1 & E1 & H). apply stm_bind_Ok in H as (u2 & st2 & E2 & H).
  apply stm_bind_Ok in H as (u3 & st3 & E3 & H). apply stm_bind_Ok in H as (u4 & st4 & E4 & H).
  apply stm_bind_Ok in H as (u5 & st5 & E5 & E6).
  destruct (reaches_reset h _ _ _ _ E1) as [[F1 _] _]. destruct (reaches_reset h _ _ _ _ E2) as [[F2 _] _].
  destruct (reaches_reset h _ _ _ _ E3) as [[F3 _] _]. destruct (reaches_reset h _ _ _ _ E4) as [[F4 _] _].
  destruct (reaches_copy h shuffle _ _ _ _ _ E5) as [[F5 _] _]. destruct (reaches_copy h shuffle _ _ _ _ _ E6) as [[F6 _] _].
  apply reset_path_fresh in E1; [|done]. apply reset_path_fresh in E2; [|by rewrite F1 by apart].
  assert (∀ q, Forall (apart q) [fs_path r; upper_path r; work_path r; merged_path r] → view q st4 = view q st) as F.
  { intros q Hq. apart_facts. by rewrite F4, F3, F2, F1 by apart. }
  apply copy_Ok in E5 as [L5 V5]; [|apart|by rewrite F by apart|by rewrite F4, F3, F2 by apart].
  apply copy_Ok in E6 as [L6 V6]; [|apart|by rewrite F5, F by apart|by rewrite F5, F4, F3 by apart].
  rewrite F in L5, V5 by apart. rewrite F5, F in L6, V6 by apart. by rewrite F6 by apart.
Qed.
End directory.

Section image.
Context (fresh : files) (image : path) (r : SnapshotRestorePaths).
Hypothesis fresh_root : fresh !! [] = Some NDir.
Hypothesis paths_apart :
  all_apart [image; upper_path r; work_path r; merged_path r; snapshot_fs r; snapshot_home_upper r].

Lemma reaches_unmount ps : reaches ps (ensure_workspace_storage_unmounted h).
Proof. unfold ensure_workspace_storage_unmounted. reach. Qed.
Lemma only_file (p : path) (x : node) (m : files) : only [p] m (<[p := x]> m).
Proof.
  split.
  - intros q [Hq _]%list.Forall_cons. apply subtree_ext. intros s. apply lookup_insert_ne. intros ->.
    destruct Hq as [Hq _]. by rewrite strip_path_app in Hq.
  - intros k y [Hk _]%list.Forall_cons E. rewrite lookup_insert_ne; [done|]. intros ->.
    rewrite <- (app_nil_r k) in Hk at 2. by rewrite strip_path_app in Hk.
Qed.
Lemma reaches_ready : reaches [image] (ensure_workspace_storage_ready h fresh image).
Proof.
  unfold ensure_workspace_storage_ready. apply reaches_bind; [reach|intros there]. apply reaches_bind; [|reach].
  destruct there; [reach|]. apply reaches_bind; [reach|intros n]. destruct (refused h n); [|reach].
  apply reaches_bind; [|reach]. apply reaches_files. intros m. apply only_file.
Qed.

Lemma ready_rooted : preserves (λ st, rooted (view image st)) (ensure_workspace_storage_ready h fresh image).
Proof.
  assert (preserves (λ st, rooted (view image st)) tick) as Htick. { intros st Hst. exact Hst. }
  unfold ensure_workspace_storage_ready. apply preserves_bind; [apply preserves_gets|intros there].
  apply preserves_bind; [|intros _; apply preserves_bind; [exact Htick|intros; apply preserves_assert]].
  destruct there; [apply preserves_ret|]. apply preserves_bind; [exact Htick|intros n]. destruct (refused h n).
  - apply preserves_bind; [|intros; apply preserves_lift]. apply preserves_modify. intros st _. unfold rooted. cbn [on_disk].
    by rewrite lookup_subtree, app_nil_r, lookup_insert_eq.
  - apply preserves_modify. intros st _. unfold rooted. cbn [on_disk]. rewrite lookup_subtree, app_nil_r, lookup_graft.
    rewrite <- (app_nil_r image) at 2. by rewrite strip_path_app, fresh_root.
Qed.
Lemma ready_fresh st u st' : view image st = ∅ → ensure_workspace_storage_ready h fresh image st = (Ok u, st') →
  view image st' = fresh.
Proof.
  intros Hi H. unfold ensure_workspace_storage_ready, exists_path, gets in H. unfold mbind at 1, stm_bind at 1 in H.
  rewrite here_subtree, Hi in H. cbn [bool_decide] in H. apply stm_bind_Ok in H as (u1 & st1 & E & H).
  apply stm_bind_Ok in H as (n & st2 & [= <- <-] & (_ & _ & ->)%assert_Ok). cbn [on_disk].
  apply stm_bind_Ok in E as (n & st3 & [= <- <-] & E). destruct (refused h _).
  - by apply stm_bind_Ok in E as (? & ? & _ & []%throw_Ok).
  - apply modify_Ok in E as [_ ->]. cbn [on_disk]. apply map_eq. intros q.
    rewrite lookup_subtree, lookup_graft, strip_path_app, <- lookup_subtree, Hi, lookup_empty. by destruct (fresh !! q).
Qed.

Lemma reaches_copy_into_image : reaches [image; upper_path r; work_path r; merged_path r] (copy_into_image h shuffle fresh image r).
Proof.
  clear paths_apart shuffle_perm fresh_root. assert (∀ A (m : stm disk A) p, reaches [p] m → p ∈ [image; upper_path r; work_path r; merged_path r] →
    reaches [image; upper_path r; work_path r; merged_path r] m) as Hw
    by (intros A m p Hm Hp; eapply reaches_weaken; [|exact Hm]; by intros q ->%list_elem_of_singleton).
  unfold copy_into_image. do 3 (apply reaches_bind; [eapply Hw; [apply reaches_reset|set_solver]|intros _]).
  apply reaches_bind; [eapply Hw; [apply reaches_ready|set_solver]|intros _].
  apply reaches_bind; [apply reaches_catch|intros c].
  { apply reaches_bind; [|intros _]; (eapply Hw; [apply reaches_copy|set_solver]). }
  apply reaches_bind; [apply reaches_catch, reaches_unmount|intros ?]. apply reaches_bind; reach.
Qed.

Lemma preserves_catch {A} (P : disk → Prop) (m : stm disk A) : preserves P m → preserves P (catch m).
Proof. intros Hm st Hst. unfold catch. specialize (Hm st Hst). by destruct (m st). Qed.

Lemma copy_into_image_rooted q : q = image ∨ q = upper_path r →
  preserves (λ st, rooted (view q st)) (copy_into_image h shuffle fresh image r).
Proof.
  pose proof paths_apart as Hap. apart_facts. unfold copy_into_image.
  intros [-> | ->]; (do 3 (apply preserves_bind;
    [first [apply reset_rooted | eapply view_rooted; [apply reaches_reset|apart]]|intros _]));
    (apply preserves_bind; [first [apply ready_rooted | eapply view_rooted; [apply reaches_ready|apart]]|intros _]);
    (apply preserves_bind; [apply preserves_catch, preserves_bind;
       [first [apply copy_keeps_rooted; apart | eapply view_rooted; [apply reaches_copy|apart]]|intros _;
        first [apply copy_keeps_rooted; apart | eapply view_rooted; [apply reaches_copy|apart]]]|intros c]);
    (apply preserves_bind; [apply preserves_catch; by intros st; apply (view_rooted [] _ _ (reaches_unmount []) (list.Forall_nil_2 _))|intros c2]);
    (apply preserves_bind; [apply preserves_lift|intros; apply preserves_lift]).
Qed.

Lemma copy_into_image_Ok st u st' : view image st = ∅ → view (upper_path r) st = ∅ →
  tree_ok (view (snapshot_fs r) st) → tree_ok (view (snapshot_home_upper r) st) →
  copy_into_image h shuffle fresh image r st = (Ok u, st') →
  linkless (view (snapshot_fs r) st) ∧ linkless (view (snapshot_home_upper r) st) ∧
  view image st' = regular (view (snapshot_fs r) st) ∪ fresh ∧
  view (upper_path r) st' = regular (view (snapshot_home_upper r) st).
Proof.
  intros Hi Hu Hsf Hsu H. pose proof paths_apart as Hap. apart_facts. unfold copy_into_image in H.
  apply stm_bind_Ok in H as (u1 & st1 & E1 & H). apply stm_bind_Ok in H as (u2 & st2 & E2 & H).
  apply stm_bind_Ok in H as (u3 & st3 & E3 & H). apply stm_bind_Ok in H as (u4 & st4 & E4 & H).
  apply stm_bind_Ok in H as (copied & st6 & Ec & H). apply stm_bind_Ok in H as (unmounted & st7 & Em & H).
  apply stm_bind_Ok in H as (u8 & st8 & [-> ->]%lift_Ok & [_ ->]%lift_Ok).
  unfold catch in Ec. destruct ((copy_dir_recursive h shuffle _ image;; _) st4) as [rc st6'] eqn:E56. injection Ec as -> ->.
  apply stm_bind_Ok in E56 as (u5 & st5 & E5 & E6).
  destruct (reaches_reset h _ _ _ _ E1) as [[F1 _] _]. destruct (reaches_reset h _ _ _ _ E2) as [[F2 _] _].
  destruct (reaches_reset h _ _ _ _ E3) as [[F3 _] _]. destruct (reaches_ready _ _ _ E4) as [[F4 _] _].
  destruct (reaches_copy h shuffle _ _ _ _ _ E5) as [[F5 _] _]. destruct (reaches_copy h shuffle _ _ _ _ _ E6) as [[F6 _] _].
  destruct (reaches_catch [] _ (reaches_unmount []) _ _ _ Em) as [[F7 _] _].
  apply reset_path_fresh in E1; [|done]. apply ready_fresh in E4; [|by rewrite F3, F2, F1 by apart].
  assert (∀ q, Forall (apart q) [image; upper_path r; work_path r; merged_path r] → view q st4 = view q st) as F.
  { intros q Hq. apart_facts. by rewrite F4, F3, F2, F1 by apart. }
  apply copy_rooted in E5 as [_ E5]; [|done|apart|rewrite E4; unfold rooted; by rewrite fresh_root].
  rewrite F in E5 by apart. destruct (E5 eq_refl Hsf) as [L5 V5]. rewrite E4 in V5.
  apply copy_Ok in E6 as [L6 V6]; [|apart|by rewrite F5, F by apart|by rewrite F5, F4, F3, F2 by apart].
  rewrite F5, F in L6, V6 by apart. rewrite !F7, F6, V5, V6 by (apart || apply list.Forall_nil_2). split_and!; [done..| |done]. f_equal.
  apply map_eq. intros [|n q]; rewrite lookup_union; [by rewrite fresh_root, lookup_singleton_eq|].
  rewrite lookup_singleton_ne by done. by destruct (fresh !! (n :: q)); cbn.
Qed.
End image.
End copy_in.

(** The two tiers at once: where the live file system is, where it is backed up, what is
    done before it is moved, and how the snapshot is copied in. *)
Section tiers.
Context (h : faults) (shuffle : list (string * node) → list (string * node)) (fresh : files).
Context (disk_image : bool) (image : path) (r : SnapshotRestorePaths).

Definition live_path : path := if disk_image then image else fs_path r.
Definition backup_path : path := backup_root r ++ [if disk_image then "fs.img" else "fs"].
Definition move_aside : stm disk unit :=
  if disk_image
  then ensure_workspace_storage_unmounted h;; set_aside h r image backup_path;;
       (there ← exists_path (fs_path r); if there : bool then create_dir_all h (fs_path r) else mret tt)
  else set_aside h r (fs_path r) backup_path.
Definition copy_in : stm disk unit :=
  if disk_image then copy_into_image h shuffle fresh image r else copy_into_directory h shuffle r.
Definition undo : stm disk unit :=
  if disk_image
  then ignore (ensure_workspace_storage_unmounted h);; put_back h r image backup_path
  else put_back h r (fs_path r) backup_path.
Lemma restore_phases st :
  restore_tier h shuffle fresh disk_image image r st = match move_aside st with
                    | (Ok _, st1) => match copy_in st1 with
                                     | (Ok u, st2) => (Ok u, st2)
                                     | (Err e, st2) => match undo st2 with
                                                       | (Ok _, st3) => (Err e, st3)
                                                       | (Err e', st3) => (Err e', st3)
                                                       end
                                     end
                    | (Err e, st1) => (Err e, st1)
                    end.
Proof.
  unfold restore_tier, move_aside, copy_in, undo, backup_path. destruct disk_image.
  - unfold restore_disk_image_snapshot, on_error, mbind, stm_bind, ignore, lift.
    destruct (ensure_workspace_storage_unmounted h st) as [[]]; [|done]. destruct (set_aside h r image _ _) as [[]]; [|done].
    by destruct (exists_path _ _) as [[b|] st1].
  - unfold restore_directory_snapshot, on_error, mbind, stm_bind, lift. destruct (set_aside _ _ _ _ _) as [[]]; [|done].
    destruct (copy_into_directory _ _ _ _) as [[]]; [done|]. by destruct (put_back _ _ _ _ _) as [[]].
Qed.

(** What a restore starts from: paths that do not overlap, trees that have their roots, a
    complete snapshot and an empty backup. *)
Record restorable (st : disk) : Prop := {
  ra_shuffle : ∀ l, shuffle l ≡ₚ l;
  ra_fresh : fresh !! [] = Some NDir;
  ra_apart : all_apart [live_path; upper_path r; work_path r; merged_path r; backup_path; backup_root r ++ ["home-upper"];
                        snapshot_fs r; snapshot_home_upper r];
  ra_mount : disk_image = true → Forall (apart (fs_path r))
    [live_path; upper_path r; work_path r; merged_path r; backup_path; backup_root r ++ ["home-upper"];
     snapshot_fs r; snapshot_home_upper r];
  ra_below : live_path ≠ [] ∧ upper_path r ≠ [] ∧ on_disk st !! removelast live_path = Some NDir ∧
    on_disk st !! removelast (upper_path r) = Some NDir;
  ra_rooted : rooted (view live_path st) ∧ rooted (view (upper_path r) st) ∧ rooted (view (work_path r) st) ∧
    rooted (view (merged_path r) st);
  ra_backup : view backup_path st = ∅ ∧ view (backup_root r ++ ["home-upper"]) st = ∅;
  ra_snapshot : tree_ok (view (snapshot_fs r) st) ∧ tree_ok (view (snapshot_home_upper r) st) }.

Ltac all_apart := cbn [all_apart]; repeat match goal with |- _ ∧ _ => split end; try exact I; apart.

Lemma move_aside_Ok st u st' : restorable st → move_aside st = (Ok u, st') →
  view backup_path st' = view live_path st ∧ view (backup_root r ++ ["home-upper"]) st' = view (upper_path r) st ∧
  view live_path st' = ∅ ∧ view (upper_path r) st' = ∅ ∧
  (∀ q, q = snapshot_fs r ∨ q = snapshot_home_upper r → view q st' = view q st) ∧
  on_disk st' !! removelast live_path = Some NDir ∧ on_disk st' !! removelast (upper_path r) = Some NDir.
Proof.
  intros [_ _ Hap Hmnt (Hln & Hun & Hlp & Hup) (Hl & Hu & Hw & Hm) [Hb Hbu] _] H. apart_facts.
  assert (∀ sta stb ua, view live_path sta = view live_path st → set_aside h r live_path backup_path sta = (Ok ua, stb) →
    on_disk sta = on_disk st →
    view backup_path stb = view live_path st ∧ view (backup_root r ++ ["home-upper"]) stb = view (upper_path r) st ∧
    view live_path stb = ∅ ∧ view (upper_path r) stb = ∅ ∧
    (∀ q, q = snapshot_fs r ∨ q = snapshot_home_upper r → view q stb = view q st) ∧
    on_disk stb !! removelast live_path = Some NDir ∧ on_disk stb !! removelast (upper_path r) = Some NDir) as Haside.
  { intros sta stb ua _ E Hd. pose proof (reaches_set_aside h r live_path backup_path) as Hr.
    destruct (Hr _ _ _ E) as [[F _] _].
    assert (∀ q, q = live_path ∨ q = upper_path r → q ≠ [] → on_disk st !! removelast q = Some NDir →
      on_disk stb !! removelast q = Some NDir) as Hpar.
    { intros q Hq Hqn. rewrite <- Hd. eapply reach_parent; [exact Hr|exact E|done|].
      repeat (apply list.Forall_cons; split); try apply list.Forall_nil_2; destruct Hq as [-> | ->];
        first [by left | right; assumption | right; symmetry; assumption]. }
    apply set_aside_Ok in E as (? & ? & ? & ? & _); [|all_apart|by rewrite Hd..]. rewrite Hd in *. split_and!; [done..| |by apply Hpar; auto|by apply Hpar; auto].
    intros q [-> | ->]; apply F; apart. }
  unfold move_aside in H. unfold live_path, backup_path in *. destruct disk_image.
  - apply stm_bind_Ok in H as (u1 & st1 & E1 & H). apply stm_bind_Ok in H as (u2 & st2 & E2 & H).
    assert (on_disk st1 = on_disk st) as Hd1.
    { unfold ensure_workspace_storage_unmounted in E1. by apply stm_bind_Ok in E1 as (n & ? & [= <- <-] & (_ & _ & ->)%assert_Ok). }
    destruct (Haside st1 st2 u2) as (V1 & V2 & V3 & V4 & V5 & P1 & P2); [by rewrite Hd1|done|done|].
    apply stm_bind_Ok in H as (there & st3 & [= <- <-] & H). specialize (Hmnt eq_refl). apart_facts. case_bool_decide.
    + assert (∀ q, apart (fs_path r) q → view q st' = view q st2) as F.
      { intros q Hq. eapply reach_view; [apply reaches_create|exact H|apart]. }
      assert (∀ q, q ≠ [] → apart (fs_path r) q → on_disk st2 !! removelast q = Some NDir → on_disk st' !! removelast q = Some NDir) as P.
      { intros q Hqn Hq. eapply reach_parent; [apply reaches_create|exact H|done|]. apply list.Forall_cons. split; [by right|apply list.Forall_nil_2]. }
      rewrite !F by assumption. split_and!; [done..| |by apply P|by apply P].
      intros q Hq. rewrite F by (destruct Hq as [-> | ->]; assumption). by apply V5.
    + apply mret_Ok in H as [_ ->]. by split_and!.
  - by eapply Haside.
Qed.

Lemma copy_in_rooted st res st' q : restorable st → q = live_path ∨ q = upper_path r →
  ∀ st1, rooted (view q st1) → copy_in st1 = (res, st') → rooted (view q st').
Proof.
  intros [Hperm Hfr Hap _ _ _ _ _] Hq st1 Hr E. apart_facts.
  assert (preserves (λ st, rooted (view q st)) copy_in) as Hp; [|specialize (Hp st1 Hr); by rewrite E in Hp].
  unfold copy_in, live_path in *. destruct disk_image.
  - apply copy_into_image_rooted; [done|done|all_apart|done].
  - apply copy_into_directory_rooted; [done|all_apart|done].
Qed.
Lemma reaches_copy_in : reaches [live_path; upper_path r; work_path r; merged_path r] copy_in.
Proof. unfold copy_in, live_path. destruct disk_image; [apply reaches_copy_into_image|apply reaches_copy_into_directory]. Qed.
Lemma copy_in_Ok st st1 u st' : restorable st → view live_path st1 = ∅ → view (upper_path r) st1 = ∅ →
  (∀ q, q = snapshot_fs r ∨ q = snapshot_home_upper r → view q st1 = view q st) → copy_in st1 = (Ok u, st') →
  linkless (view (snapshot_fs r) st) ∧ linkless (view (snapshot_home_upper r) st) ∧
  view live_path st' = regular (view (snapshot_fs r) st) ∪ (if disk_image then fresh else ∅) ∧
  view (upper_path r) st' = regular (view (snapshot_home_upper r) st).
Proof.
  intros [Hperm Hfr Hap _ _ _ _ [Hs1 Hs2]] Hl Hu Hsame E. apart_facts. rewrite <- !Hsame in * by auto.
  unfold copy_in, live_path in *. destruct disk_image.
  - eapply copy_into_image_Ok; try done. all_apart.
  - rewrite (right_id_L ∅ (∪)). eapply copy_into_directory_Ok; try done. all_apart.
Qed.

Lemma undo_works st2 : all_apart [live_path; upper_path r; work_path r; merged_path r; backup_path; backup_root r ++ ["home-upper"]] →
  (∀ n, calls st2 ≤ n → refused h n = false) →
  rooted (view live_path st2) → rooted (view (upper_path r) st2) →
  rooted (view backup_path st2) → rooted (view (backup_root r ++ ["home-upper"]) st2) →
  live_path ≠ [] → upper_path r ≠ [] → on_disk st2 !! removelast live_path = Some NDir →
  on_disk st2 !! removelast (upper_path r) = Some NDir →
  ∃ st3, undo st2 = (Ok tt, st3) ∧ view live_path st3 = view backup_path st2 ∧
    view (upper_path r) st3 = view (backup_root r ++ ["home-upper"]) st2.
Proof.
  intros Hap Hr. unfold undo, live_path, backup_path in *. destruct disk_image; [|by apply put_back_works].
  destruct (ensure_workspace_storage_unmounted h st2) as [ru st2'] eqn:E.
  destruct (reaches_unmount h [] _ _ _ E) as [[F P] Hn].
  assert (on_disk st2' = on_disk st2) as Hd.
  { unfold ensure_workspace_storage_unmounted, tick, assert, mbind, stm_bind in E.
    destruct (refused h (calls st2)); by injection E as _ <-. }
  unfold ignore, mbind, stm_bind. rewrite E. cbn [snd]. rewrite <- Hd. intros. apply put_back_works; try done.
  intros n Hle. apply Hr. lia.
Qed.
End tiers.

(** C14: a restore swaps the trees or puts them back.  For a directory and for a disk
    image, a restore that succeeds leaves in the file system and in the upper layer of
    the home exactly the trees of the snapshot, special files apart, over what a new
    image holds.  One that fails while the snapshot is copied in, for whatever reason and
    however far it got, leaves both trees as they were before it and answers with that
    failure, provided the calls that undo it are not refused. *)
Theorem restore_or_put_back h shuffle fresh disk_image image r st res st' :
  let live := live_path disk_image image r in
  restorable shuffle fresh disk_image image r st →
  restore_tier h shuffle fresh disk_image image r st = (res, st') →
  (res = Ok tt →
     linkless (view (snapshot_fs r) st) ∧ linkless (view (snapshot_home_upper r) st) ∧
     view live st' = regular (view (snapshot_fs r) st) ∪ (if disk_image then fresh else ∅) ∧
     view (upper_path r) st' = regular (view (snapshot_home_upper r) st)) ∧
  ∀ u st1 e st2, move_aside h disk_image image r st = (Ok u, st1) →
    copy_in h shuffle fresh disk_image image r st1 = (Err e, st2) → (∀ n, calls st2 ≤ n → refused h n = false) →
    res = Err e ∧ view live st' = view live st ∧ view (upper_path r) st' = view (upper_path r) st.
Proof.
  intros live Hra. rewrite restore_phases. pose proof Hra as [_ _ Hap _ (Hln & Hun & _) (Hl & Hu & _) _ _]. intros H. split.
  - intros ->. destruct (move_aside _ _ _ _ st) as [[u|] st1] eqn:E1; [|done].
    destruct (copy_in _ _ _ _ _ _ st1) as [[u2|] st2] eqn:E2; [|by destruct (undo _ _ _ _ st2) as [[]]]. injection H as _ ->.
    destruct (move_aside_Ok _ _ _ _ _ _ _ _ _ Hra E1) as (_ & _ & V3 & V4 & V5 & _). by eapply copy_in_Ok.
  - intros u st1 e st2 E1 E2 Hr. rewrite E1, E2 in H.
    destruct (move_aside_Ok _ _ _ _ _ _ _ _ _ Hra E1) as (V1 & V2 & V3 & V4 & V5 & P1 & P2).
    destruct (reaches_copy_in _ _ _ _ _ _ _ _ _ E2) as [[F _] _]. apart_facts. subst live.
    assert (∀ q, q = live_path disk_image image r ∨ q = upper_path r → q ≠ [] → on_disk st1 !! removelast q = Some NDir →
      on_disk st2 !! removelast q = Some NDir) as Hpar.
    { intros q Hq Hqn. eapply reach_parent; [apply reaches_copy_in|exact E2|done|].
      repeat (apply list.Forall_cons; split); try apply list.Forall_nil_2; destruct Hq as [-> | ->];
        first [by left | right; assumption | right; symmetry; assumption]. }
    destruct (undo_works h disk_image image r st2) as (st3 & E3 & W1 & W2).
    + cbn [all_apart]. repeat match goal with |- _ ∧ _ => split end; try exact I; apart.
    + done.
    + eapply copy_in_rooted; [exact Hra|by left| |exact E2]. by rewrite V3.
    + eapply copy_in_rooted; [exact Hra|by right| |exact E2]. by rewrite V4.
    + rewrite F, V1 by apart. exact Hl.
    + rewrite F, V2 by apart. exact Hu.
    + done.
    + done.
    + apply Hpar; auto.
    + apply Hpar; auto.
    + rewrite E3 in H. injection H as <- <-. by rewrite W1, W2, !F by apart.
Qed.

(** * Collecting snapshots *)

Lemma newer_total a b : newer a b = true ∨ newer b a = true.
Proof.
  unfold newer. case_bool_decide as E1; case_bool_decide as E2; try congruence; [apply str_le_total|apply str_le_total].
Qed.
Lemma newer_trans a b c : newer a b = true → newer b c = true → newer a c = true.
Proof.
  unfold newer. destruct (decide (info_created_at a = info_created_at b)) as [E1|E1];
    destruct (decide (info_created_at b = info_created_at c)) as [E2|E2];
    rewrite ?(bool_decide_eq_true_2 _ E1), ?(bool_decide_eq_false_2 _ E1), ?(bool_decide_eq_true_2 _ E2), ?(bool_decide_eq_false_2 _ E2).
  - rewrite bool_decide_eq_true_2 by congruence. eauto using str_le_trans.
  - rewrite bool_decide_eq_false_2 by congruence. by rewrite E1.
  - rewrite bool_decide_eq_false_2 by congruence. by rewrite <- E2.
  - intros Hab Hbc. rewrite bool_decide_eq_false_2; [eauto using str_le_trans|]. intros E. apply E1.
    unfold str_le in *. rewrite bool_decide_eq_true in *. rewrite <- E in Hbc. by apply (anti_symm String.le).
Qed.

Lemma concat_chunks {A} fuel size (l : list A) : 0 < size → length l ≤ fuel → concat (chunks fuel size l) = l.
Proof.
  intros Hs. revert l. induction fuel as [|fuel IH]; intros [|x l] Hl; cbn in *; try done; [lia|].
  rewrite IH; [by rewrite take_drop|]. rewrite length_drop. cbn. lia.
Qed.

Section collecting.
Context (h : faults) (shuffle : list (string * node) → list (string * node)) (within : path → bool).
Context (parse_metadata : string → option SnapshotMetadata).
Hypothesis shuffle_perm : ∀ l, shuffle l ≡ₚ l.

Lemma snapshot_infos_paths m root entries l : snapshot_infos parse_metadata m root entries = Ok l →
  info_path <$> l = (λ e, root ++ [e.1]) <$> filter (λ e, e.2 = NDir) entries.
Proof.
  revert l. induction entries as [|[n x] rest IH]; intros l; cbn [snapshot_infos]; [by intros [= <-]|].
  destruct (snapshot_info _ _ _ _) as [i|] eqn:Ei; cbn [mbind result_bind]; [|done].
  destruct (snapshot_infos _ _ _ rest) as [l'|] eqn:El; cbn [mbind result_bind]; [|done]. intros [= <-]. unfold snapshot_info in Ei. cbn in Ei.
  specialize (IH _ eq_refl). rewrite list.filter_cons. cbn [snd].
  destruct x; rewrite ?decide_False by done; try (injection Ei as <-; exact IH). rewrite decide_True by done.
  assert (∃ i', i = Some i' ∧ info_path i' = root ++ [n]) as (i' & -> & Hi').
  { destruct (m !! _) as [[raw| | |]|]; try done; [destruct (parse_metadata raw); [|done]|]; injection Ei as <-; eauto. }
  cbn [fmap list_fmap fst]. by f_equal.
Qed.

Lemma list_paths w m l : list_workspace_snapshots shuffle within parse_metadata w m = Ok l →
  (∀ s, s ∈ l → ∃ n, info_path s = snapshots_root w ++ [n] ∧ m !! (snapshots_root w ++ [n]) = Some NDir) ∧ NoDup (info_path <$> l).
Proof.
  unfold list_workspace_snapshots. case_match; [done|]. destruct (m !! snapshots_root w) as [root_node|];
    [|intros [= <-]; split; [by intros s ?%not_elem_of_nil|constructor]].
  destruct (snapshot_infos _ _ _ _) as [infos|] eqn:E; cbn; [|done]. intros [= <-]. apply snapshot_infos_paths in E. split.
  - intros s Hs. rewrite sort_by_perm in Hs.
    assert (info_path s ∈ info_path <$> infos) as Hp by (apply list_elem_of_fmap; eauto). rewrite E in Hp.
    apply list_elem_of_fmap in Hp as ([n x] & Hp & [Hx Hin]%list_elem_of_filter). cbn in *. subst x. exists n. split; [done|].
    by apply elem_of_read_dir in Hin.
  - rewrite sort_by_perm, E. pose proof (NoDup_read_dir shuffle shuffle_perm (snapshots_root w) m) as Hnd. revert Hnd.
    generalize (read_dir shuffle (snapshots_root w) m) as entries. induction entries as [|[n x] rest IH]; [constructor|]. cbn [fmap list_fmap fst].
    rewrite list.NoDup_cons. intros [Hn Hnd]. rewrite list.filter_cons. cbn [snd]. case_decide; [|by apply IH]. cbn [fmap list_fmap fst]. apply list.NoDup_cons.
    split; [|by apply IH]. intros ([n' x'] & E' & [_ Hin]%list_elem_of_filter)%list_elem_of_fmap. cbn in E'. simplify_list_eq.
    apply Hn, list_elem_of_fmap. by exists (n', x').
Qed.

Lemma siblings_apart (root : path) n n' : n ≠ n' → apart (root ++ [n]) (root ++ [n']).
Proof.
  intros Hn. split; apply strip_path_None; intros q E; rewrite <- app_assoc in E; by simplify_list_eq.
Qed.

Lemma reaches_chunk chunk : reaches (info_path <$> chunk) (remove_chunk h chunk).
Proof.
  induction chunk as [|s rest IH]; cbn [remove_chunk fmap list_fmap]; [reach|].
  apply reaches_bind; [eapply reaches_weaken; [|apply reaches_remove_if]; set_solver|intros _].
  apply reaches_bind; [eapply reaches_weaken; [|exact IH]; set_solver|reach].
Qed.
Lemma reaches_chunks l : reaches (info_path <$> concat l) (run_chunks h l).
Proof.
  induction l as [|chunk rest IH]; cbn [run_chunks concat]; [reach|]. rewrite fmap_app.
  apply reaches_bind; [apply reaches_catch; eapply reaches_weaken; [|apply reaches_chunk]; set_solver|intros ?].
  apply reaches_bind; [eapply reaches_weaken; [|exact IH]; set_solver|reach].
Qed.

Lemma remove_chunk_Ok chunk st removed st' : all_apart (info_path <$> chunk) →
  Forall (λ s, rooted (view (info_path s) st)) chunk → remove_chunk h chunk st = (Ok removed, st') →
  removed = chunk ∧ Forall (λ s, view (info_path s) st' = ∅) chunk.
Proof.
  revert st removed. induction chunk as [|s rest IH]; intros st removed Hap Hr; cbn [remove_chunk]; intros H.
  { apply mret_Ok in H as [-> ->]. split; [done|apply list.Forall_nil_2]. }
  apply stm_bind_Ok in H as (u & st1 & E1 & H). apply stm_bind_Ok in H as (l & st2 & E2 & [-> ->]%mret_Ok).
  destruct Hap as [Ha Hap]. apply list.Forall_cons in Hr as [Hr1 Hr].
  destruct (reaches_remove_if h _ _ _ _ E1) as [[F1 _] _]. destruct (reaches_chunk _ _ _ _ E2) as [[F2 _] _].
  apply remove_if_there_Ok in E1; [|done].
  destruct (IH st1 l Hap) as [-> Hv]; [|done|split; [done|]].
  - rewrite list.Forall_forall in *. intros s' Hs'. rewrite F1; [auto|]. apply list.Forall_cons. split; [|apply list.Forall_nil_2].
    symmetry. apply (proj1 (list.Forall_forall _ _) Ha), list_elem_of_fmap. eauto.
  - apply list.Forall_cons. split; [|done]. by rewrite F2.
Qed.

Lemma all_apart_app k l : all_apart (k ++ l) → all_apart k ∧ all_apart l ∧ ∀ p q, p ∈ k → q ∈ l → apart p q.
Proof.
  induction k as [|p k IH]; cbn; [by intros ?; split_and!; [..|intros ?? ?%not_elem_of_nil]|].
  intros [[Hp1 Hp2]%list.Forall_app (? & ? & Hkl)%IH]. split_and!; [done..|]. intros p' q [->|Hp']%elem_of_cons Hq; [|by apply Hkl].
  by apply (proj1 (list.Forall_forall _ _) Hp2).
Qed.
Lemma run_chunks_total l st : ∃ results st', run_chunks h l st = (Ok results, st').
Proof.
  revert st. induction l as [|chunk rest IH]; intros st; cbn [run_chunks]; [by repeat eexists|].
  unfold mbind, stm_bind, catch. destruct (remove_chunk h chunk st) as [rc st1]. destruct (IH st1) as (rs & st2 & ->). by repeat eexists.
Qed.
Lemma run_chunks_Ok l st results st' removed : all_apart (info_path <$> concat l) →
  Forall (λ s, rooted (view (info_path s) st)) (concat l) → run_chunks h l st = (Ok results, st') →
  collect results = Ok removed → removed = concat l ∧ Forall (λ s, view (info_path s) st' = ∅) (concat l).
Proof.
  revert st results removed. induction l as [|chunk rest IH]; intros st results removed Hap Hr; cbn [run_chunks concat]; intros H.
  { apply mret_Ok in H as [-> ->]. cbn. intros [= <-]. split; [done|apply list.Forall_nil_2]. }
  apply stm_bind_Ok in H as (rc & st1 & E1 & H). apply stm_bind_Ok in H as (rs & st2 & E2 & [-> ->]%mret_Ok). cbn [collect].
  unfold catch in E1. destruct (remove_chunk h chunk st) as [rc' st1'] eqn:Ec. injection E1 as -> ->.
  destruct rc as [gone|]; cbn [mbind result_bind]; [|done]. destruct (collect rs) as [more|] eqn:Em; cbn [mbind result_bind]; [|done].
  intros [= <-]. cbn [concat] in Hap, Hr. rewrite fmap_app in Hap. apply list.Forall_app in Hr as [Hr1 Hr2].
  apply all_apart_app in Hap as (Ha1 & Ha2 & Hcross).
  destruct (reaches_chunk _ _ _ _ Ec) as [[F1 _] _]. destruct (reaches_chunks _ _ _ _ E2) as [[F2 _] _].
  apply remove_chunk_Ok in Ec as [-> V1]; [|done..]. destruct (IH st1 rs more Ha2) as [-> V2]; [|done..|].
  - rewrite list.Forall_forall in *. intros s Hs. rewrite F1; [auto|]. apply list.Forall_forall. intros q Hq. symmetry.
    apply Hcross; [done|]. apply list_elem_of_fmap. eauto.
  - split; [done|]. apply list.Forall_app. split; [|done]. rewrite list.Forall_forall in *. intros s Hs. rewrite F2; [auto|].
    apply list.Forall_forall. intros q Hq. apply Hcross; [|done]. apply list_elem_of_fmap. eauto.
Qed.

Lemma paths_all_apart root l : NoDup (info_path <$> l) → (∀ s, s ∈ l → ∃ n, info_path s = root ++ [n]) → all_apart (info_path <$> l).
Proof.
  induction l as [|s l IH]; cbn [fmap list_fmap all_apart]; [done|]. rewrite list.NoDup_cons. intros [Hs Hnd] Hn. split.
  - apply list.Forall_forall. intros q Hq. destruct (Hn s) as [n En]; [apply list_elem_of_here|].
    pose proof Hq as (s' & -> & Hs')%list_elem_of_fmap. destruct (Hn s') as [n' En']; [by apply list_elem_of_further|].
    rewrite En, En'. apply siblings_apart. intros ->. apply Hs. by rewrite En, <- En'.
  - apply IH; [done|]. intros s' Hs'. apply Hn. by apply list_elem_of_further.
Qed.

(** Garbage collection removes the oldest.  It removes exactly the snapshots after
    the first [keep] in the order of their times, newest first, and reports them; no kept
    snapshot is older than a removed one, and whatever is refused, no kept snapshot is
    touched and no other one is reported. *)
Theorem gc_keeps_newest w keep all st res st' :
  list_workspace_snapshots shuffle within parse_metadata w (on_disk st) = Ok all →
  gc_workspace_snapshots h shuffle within parse_metadata w keep st = (res, st') →
  let kept := take keep (newest_first all) in
  let old := drop keep (newest_first all) in
  newest_first all ≡ₚ all ∧
  (∀ a b, a ∈ kept → b ∈ old → newer a b = true) ∧
  (∀ s, s ∈ kept → view (info_path s) st' = view (info_path s) st) ∧
  ∀ removed, res = Ok removed → removed = old ∧ ∀ s, s ∈ removed → view (info_path s) st' = ∅.
Proof.
  intros Hall H kept old.
  assert (newest_first all ≡ₚ all) as Hperm by apply sort_by_perm. split; [done|]. split.
  { intros a b Ha Hb. apply (StronglySorted_app_1_elem_of (λ a b, newer a b = true) kept old); [|done..].
    unfold kept, old. rewrite take_drop. apply sort_by_sorted; [apply newer_total|apply newer_trans]. }
  apply list_paths in Hall as Hl. destruct Hl as [Hpaths Hnd].
  assert (all_apart (info_path <$> kept ++ old)) as Hap.
  { unfold kept, old. rewrite take_drop. apply (paths_all_apart (snapshots_root w)); [by rewrite Hperm|].
    intros s Hs. rewrite Hperm in Hs. destruct (Hpaths s Hs) as (n & ? & _). eauto. }
  unfold gc_workspace_snapshots in H. unfold mbind at 1, stm_bind at 1, gets at 1 in H. unfold mbind at 1, stm_bind at 1, lift at 1 in H.
  rewrite Hall in H. destruct (length all <=? keep) eqn:Elen.
  { apply Nat.leb_le in Elen. assert (old = []) as Hold by (unfold old; rewrite drop_ge; [done|by rewrite Hperm]).
    injection H as <- <-. split; [done|]. intros removed [= <-]. by rewrite Hold; split; [|intros s ?%not_elem_of_nil]. }
  apply Nat.leb_gt in Elen. fold old in H.
  assert (0 < length old) as Hlen by (unfold old; rewrite length_drop, Hperm; lia).
  set (size := (length old + _ - 1) / _) in H. assert (0 < size) as Hsize.
  { unfold size. apply Nat.div_str_pos. lia. }
  destruct (run_chunks_total (chunks (length old) size old) st) as (results & st1 & Er).
  unfold mbind, stm_bind in H. rewrite Er in H. injection H as <- <-.
  pose proof (concat_chunks (length old) size old Hsize ltac:(done)) as Hcc.
  rewrite fmap_app in Hap. apply all_apart_app in Hap as (_ & Hold & Hcross). split.
  - intros s Hs. apply (reaches_chunks _ _ _ _ Er). rewrite Hcc. apply list.Forall_forall. intros q Hq.
    apply Hcross; [|done]. apply list_elem_of_fmap. eauto.
  - intros removed Hrem. assert (Forall (λ s, rooted (view (info_path s) st)) old) as Hroot.
    { apply list.Forall_forall. intros s Hs. unfold old in Hs. destruct (Hpaths s) as (n & En & Hn).
      { rewrite <- Hperm. by eapply subseteq_drop. }
      unfold rooted. by rewrite <- here_subtree, En, Hn. }
    destruct (run_chunks_Ok (chunks (length old) size old) st results st1 removed) as [-> V]; [by rewrite Hcc|by rewrite Hcc|done..|].
    rewrite Hcc in *. split; [done|]. by apply list.Forall_forall.
Qed.
End collecting.

(** * Taking a snapshot and restoring it *)

Lemma subtree_app (p q : path) (m : files) : subtree (p ++ q) m = subtree q (subtree p m).
Proof. apply map_eq. intros k. by rewrite !lookup_subtree, app_assoc. Qed.
Lemma apart_child p q n : apart p q → apart p (q ++ [n]).
Proof.
  intros Hpq. split; [by apply apart_below|]. apply strip_path_None. intros s ->. destruct Hpq as [_ H].
  by rewrite <- app_assoc, strip_path_app in H.
Qed.
Lemma regular_regular t : regular (regular t) = regular t.
Proof. apply map_eq. intros k. rewrite !lookup_regular. by destruct (t !! k) as [[]|]. Qed.

Section taking.
Context (h : faults) (shuffle : list (string * node) → list (string * node)) (shuffle_perm : ∀ l, shuffle l ≡ₚ l).
Context (fresh : files) (within : path → bool) (print_metadata : SnapshotMetadata → string).
Context (w : WorkspaceMetadata) (mounted : bool) (name now : string).
Let live := live_of w.
Let upper := names_of (overlay_home_upper_path w).
Let dir := snapshot_path w name.
Hypothesis paths_apart : all_apart [live; upper; dir].

Lemma ready_exists image st u st' : is_Some (on_disk st !! image) →
  ensure_workspace_storage_ready h fresh image st = (Ok u, st') → on_disk st' = on_disk st.
Proof.
  intros Hi H. unfold ensure_workspace_storage_ready, exists_path, gets in H. unfold mbind at 1, stm_bind at 1 in H.
  rewrite bool_decide_eq_true_2 in H by done. apply stm_bind_Ok in H as (u1 & st1 & [_ ->]%mret_Ok & H).
  by apply stm_bind_Ok in H as (n & st2 & [= <- <-] & (_ & _ & ->)%assert_Ok).
Qed.

Lemma mounted_Ok {A} (m : stm disk A) st a st' : is_Some (on_disk st !! live) →
  with_workspace_storage_mounted h fresh w mounted m st = (Ok a, st') →
  ∃ st1 st2, on_disk st1 = on_disk st ∧ m st1 = (Ok a, st2) ∧ on_disk st' = on_disk st2.
Proof.
  intros Hl. unfold with_workspace_storage_mounted. destruct (negb (uses_disk_image w) || mounted) eqn:E; [by eauto|].
  apply orb_false_iff in E as [E%negb_false_iff _]. unfold live, live_of in Hl. rewrite E in Hl. intros H.
  apply stm_bind_Ok in H as (u & st1 & E1 & H). apply ready_exists in E1; [|done]. unfold catch, mbind, stm_bind in H.
  destruct (m st1) as [r st2] eqn:Em. unfold ignore in H.
  assert (on_disk (ensure_workspace_storage_unmounted h st2).2 = on_disk st2) as Hd.
  { unfold ensure_workspace_storage_unmounted, tick, assert, mbind, stm_bind. by destruct (refused h (calls st2)). }
  injection H as -> <-. by exists st1, st2.
Qed.

Lemma create_view p q st u st' : strip_path q p = None → create_dir_all h p st = (Ok u, st') → view q st' = view q st.
Proof.
  intros Hq ->%create_Ok. apply subtree_ext. intros s. rewrite lookup_parents. destruct (on_disk st !! (q ++ s)); [done|].
  rewrite decide_False; [done|]. intros [s' ->]. by rewrite <- app_assoc, strip_path_app in Hq.
Qed.
Lemma above_dir q : apart q dir → strip_path q (snapshots_root w) = None.
Proof.
  intros [Hq _]. apply strip_path_None. intros s E. unfold dir, snapshot_path in Hq.
  by rewrite E, <- app_assoc, strip_path_app in Hq.
Qed.

(** What the body of [create_workspace_snapshot] writes into its new directory. *)
Definition write_snapshot : stm disk WorkspaceSnapshotInfo :=
  assert (within (names_of (filesystem_path w)) && within upper) "path escapes its directory";;
  copy_dir_recursive h shuffle live (dir ++ ["fs"]);;
  copy_dir_recursive h shuffle upper (dir ++ ["home-upper"]);;
  write_file h (dir ++ ["snapshot.json"]) (print_metadata (mkSnapshot name now));;
  mret (mkInfo name now dir).

Lemma write_snapshot_Ok st info st' : tree_ok (view live st) → tree_ok (view upper st) → view dir st = {[ [] := NDir ]} →
  write_snapshot st = (Ok info, st') →
  info = mkInfo name now dir ∧ linkless (view live st) ∧ linkless (view upper st) ∧
  view (dir ++ ["fs"]) st' = regular (view live st) ∧ view (dir ++ ["home-upper"]) st' = regular (view upper st) ∧
  on_disk st' !! (dir ++ ["snapshot.json"]) = Some (NFile (print_metadata (mkSnapshot name now))) ∧
  view live st' = view live st ∧ view upper st' = view upper st.
Proof.
  intros Hl Hu Hdir H. pose proof paths_apart as Hap. apart_facts.
  assert (∀ n, view (dir ++ [n]) st = ∅) as Hchild.
  { intros n. rewrite subtree_app, Hdir. apply map_eq. intros q. by rewrite lookup_subtree, lookup_singleton_ne. }
  assert (apart live (dir ++ ["fs"]) ∧ apart live (dir ++ ["home-upper"]) ∧ apart live (dir ++ ["snapshot.json"]) ∧
    apart upper (dir ++ ["fs"]) ∧ apart upper (dir ++ ["home-upper"]) ∧ apart upper (dir ++ ["snapshot.json"]))
    as (? & ? & ? & ? & ? & ?) by (split_and!; by apply apart_child).
  assert (apart (dir ++ ["fs"]) (dir ++ ["home-upper"]) ∧ apart (dir ++ ["fs"]) (dir ++ ["snapshot.json"]) ∧
    apart (dir ++ ["home-upper"]) (dir ++ ["snapshot.json"])) as (? & ? & ?) by (split_and!; by apply siblings_apart).
  unfold write_snapshot in H. apply stm_bind_Ok in H as (? & ? & (_ & _ & ->)%assert_Ok & H).
  apply stm_bind_Ok in H as (u1 & st1 & E1 & H). apply stm_bind_Ok in H as (u2 & st2 & E2 & H).
  apply stm_bind_Ok in H as (u3 & st3 & E3 & [-> ->]%mret_Ok). unfold write_file in E3.
  apply stm_bind_Ok in E3 as (n & ? & [= <- <-] & E3). apply stm_bind_Ok in E3 as (? & ? & (_ & _ & ->)%assert_Ok & E3).
  apply modify_Ok in E3 as [_ ->]. cbn [on_disk].
  destruct (reaches_copy h shuffle _ _ _ _ _ E1) as [[F1 _] _]. destruct (reaches_copy h shuffle _ _ _ _ _ E2) as [[F2 _] _].
  pose proof (λ q Hq, proj1 (only_file (dir ++ ["snapshot.json"]) (NFile (print_metadata (mkSnapshot name now))) (on_disk st2)) q Hq) as F3.
  rewrite lookup_insert_eq, !F3 by apart.
  apply copy_rooted in E1 as [_ E1]; [|done|apart|by rewrite Hchild]. destruct (E1 eq_refl Hl) as [L1 V1].
  apply copy_rooted in E2 as [_ E2]; [|done|apart|by rewrite F1, Hchild by apart].
  rewrite F1 in E2 by apart. destruct (E2 eq_refl Hu) as [L2 V2]. rewrite F1 in V2 by apart. rewrite Hchild, (left_id_L ∅ (∪)) in V1, V2.
  assert (∀ t : files, tree_ok t → regular t ∪ {[ [] := NDir ]} = regular t) as Hroot.
  { intros t Ht. rewrite <- (regular_root t Ht) at 2. by rewrite (idemp_L (∪)). }
  split_and!; [done..| | |done| |].
  - by rewrite F2, V1, Hroot by apart.
  - by rewrite V2, Hroot.
  - by rewrite F2, F1 by apart.
  - by rewrite F2, F1 by apart.
Qed.

Lemma create_Ok_trees st info st' : tree_ok (view live st) → tree_ok (view upper st) → rooted (view dir st) →
  create_workspace_snapshot h shuffle fresh within print_metadata w mounted name now st = (Ok info, st') →
  info = mkInfo name now dir ∧ linkless (view live st) ∧ linkless (view upper st) ∧
  view (dir ++ ["fs"]) st' = regular (view live st) ∧ view (dir ++ ["home-upper"]) st' = regular (view upper st) ∧
  on_disk st' !! (dir ++ ["snapshot.json"]) = Some (NFile (print_metadata (mkSnapshot name now))) ∧
  view live st' = view live st ∧ view upper st' = view upper st.
Proof.
  intros Hl Hu Hdir H. pose proof paths_apart as Hap. apart_facts. unfold create_workspace_snapshot in H. fold live upper dir in H.
  apply stm_bind_Ok in H as (? & ? & [_ ->]%lift_Ok & H). apply stm_bind_Ok in H as (? & ? & (_ & _ & ->)%assert_Ok & H).
  apply stm_bind_Ok in H as (u1 & st1 & E1 & H). apply stm_bind_Ok in H as (? & ? & (_ & _ & ->)%assert_Ok & H).
  apply stm_bind_Ok in H as (there & ? & [= <- <-] & H). apply stm_bind_Ok in H as (? & ? & (_ & Hn & ->)%assert_Ok & H).
  apply stm_bind_Ok in H as (u2 & st2 & E2 & H).
  assert (view dir st1 = view dir st) as Vd by (eapply create_view; [|exact E1]; apply strip_shorter;
    unfold dir, snapshot_path; rewrite length_app; cbn; lia).
  assert (∀ q, apart q dir → view q st2 = view q st) as F.
  { intros q Hq. rewrite (create_view _ _ _ _ _ (proj1 Hq) E2). by apply (create_view _ _ _ _ _ (above_dir q Hq) E1). }
  assert (view dir st = ∅) as Hempty.
  { apply Hdir. rewrite <- Vd, <- here_subtree. apply negb_true_iff, bool_decide_eq_false in Hn. by apply eq_None_not_Some. }
  apply create_rooted in E2 as [_ E2]; [|by rewrite Vd]. specialize (E2 eq_refl). rewrite Vd, Hempty, (left_id_L ∅ (∪)) in E2.
  unfold on_error in H. destruct (with_workspace_storage_mounted _ _ _ _ _ st2) as [[i|e] st3] eqn:Em; [|by apply stm_bind_Ok in H as (? & ? & _ & [[=] _]%lift_Ok)].
  injection H as -> ->. apply mounted_Ok in Em as (st4 & st5 & D4 & Em & D5);
    [|rewrite here_subtree, F by apart; destruct Hl as [-> _]; eauto].
  apply write_snapshot_Ok in Em; rewrite ?D4; [|by rewrite F by apart|by rewrite F by apart|done].
  rewrite D5. by rewrite D4, !F in Em by apart.
Qed.

Lemma reaches_write_snapshot : reaches [live; dir ++ ["fs"]; dir ++ ["home-upper"]; dir ++ ["snapshot.json"]]
  (with_workspace_storage_mounted h fresh w mounted write_snapshot).
Proof.
  clear paths_apart shuffle_perm. set (ps := [live; _; _; _]).
  assert (∀ A (m : stm disk A) p, reaches [p] m → p ∈ ps → reaches ps m) as Hw
    by (intros A m p Hm Hp; eapply reaches_weaken; [|exact Hm]; by intros q ->%list_elem_of_singleton).
  assert (reaches ps write_snapshot) as Hbody.
  { unfold write_snapshot. apply reaches_bind; [reach|intros _].
    do 2 (apply reaches_bind; [eapply Hw; [apply reaches_copy|set_solver]|intros _]). apply reaches_bind; [|reach].
    apply (Hw _ _ (dir ++ ["snapshot.json"])); [|set_solver]. unfold write_file. apply reaches_bind; [reach|intros n].
    apply reaches_bind; [reach|intros _]. apply reaches_files. intros m. apply only_file. }
  unfold with_workspace_storage_mounted. destruct (negb (uses_disk_image w) || mounted) eqn:E; [exact Hbody|].
  apply orb_false_iff in E as [E%negb_false_iff _]. apply reaches_bind; [|intros _].
  - apply (Hw _ _ live); [|set_solver]. unfold live, live_of. rewrite E. apply reaches_ready.
  - apply reaches_bind; [by apply reaches_catch|intros ?]. apply reaches_bind; [apply reaches_ignore, reaches_unmount|reach].
Qed.

(** A snapshot that is not taken leaves its name as it was, unless the removal of what was
    written is refused as well: no partial snapshot stays behind. *)
Lemma create_Err_undone st e st' : is_Some (on_disk st !! live) → rooted (view dir st) →
  create_workspace_snapshot h shuffle fresh within print_metadata w mounted name now st = (Err e, st') →
  refused h (pred (calls st')) = false → view dir st' = view dir st.
Proof.
  intros Hl Hdir H Hr. pose proof paths_apart as Hap. apart_facts. unfold create_workspace_snapshot in H. fold live upper dir in H.
  assert (∀ b message (st1 : disk) e, assert b message st1 = (Err e, st') → st' = st1) as Ha
    by (intros b message st1 e'; destruct b; [by intros [=]|by intros [= _ <-]]).
  apply stm_bind_Err in H as [[= _ <-]|(? & ? & [_ ->]%lift_Ok & H)]; [done|].
  apply stm_bind_Err in H as [->%Ha|(? & ? & (_ & _ & ->)%assert_Ok & H)]; [done|].
  apply stm_bind_Err in H as [->%create_Err|(u1 & st1 & E1 & H)]; [done|].
  assert (view dir st1 = view dir st) as Vd by (eapply create_view; [|exact E1]; apply strip_shorter;
    unfold dir, snapshot_path; rewrite length_app; cbn; lia).
  apply stm_bind_Err in H as [->%Ha|(? & ? & (_ & _ & ->)%assert_Ok & H)]; [done|].
  apply stm_bind_Err in H as [[=]|(there & ? & [= <- <-] & H)].
  apply stm_bind_Err in H as [->%Ha|(? & ? & (_ & Hn & ->)%assert_Ok & H)]; [done|].
  apply stm_bind_Err in H as [->%create_Err|(u2 & st2 & E2 & H)]; [done|].
  assert (view dir st = ∅) as ->.
  { apply Hdir. rewrite <- Vd, <- here_subtree. apply negb_true_iff, bool_decide_eq_false in Hn. by apply eq_None_not_Some. }
  assert (on_disk st2 !! dir = Some NDir) as Hmade.
  { apply create_Ok in E2 as ->. rewrite lookup_parents. destruct (on_disk st1 !! dir) as [made|] eqn:Ex; [|by rewrite decide_True].
    apply negb_true_iff, bool_decide_eq_false in Hn. destruct Hn. eauto. }
  fold write_snapshot in H. unfold on_error in H.
  destruct (with_workspace_storage_mounted _ _ _ _ _ st2) as [[i|e'] st3] eqn:Em; [done|].
  assert (on_disk st3 !! dir = Some NDir) as Hstill.
  { eapply reaches_write_snapshot; [exact Em| |exact Hmade]. apply list.Forall_cons. split; [by match goal with Ha : apart live dir |- _ => apply Ha end|].
    repeat (apply list.Forall_cons; split); try apply list.Forall_nil_2; apply strip_shorter; rewrite length_app; cbn; lia. }
  unfold remove_if_there, exists_path, gets, mbind, stm_bind in H.
  rewrite (bool_decide_eq_true_2 (is_Some (on_disk st3 !! dir))) in H by (rewrite Hstill; eauto).
  destruct (refused h (calls st3)) eqn:Er.
  - unfold remove_dir_all, tick, on_files, modify, throw, lift, mbind, stm_bind in H. cbn [calls on_disk] in H. rewrite Er in H. injection H as _ <-.
    cbn [calls pred] in Hr. congruence.
  - rewrite remove_works in H by done. injection H as _ <-. apply subtree_without.
Qed.
End taking.


(** ** Examples *)

Definition snapshot_workspace (st : WorkspaceStatus) (p : option Z) : WorkspaceMetadata :=
  mkWorkspace "a" "s" "web" "2024-01-01T00:00:00Z" None None None "/w" "/w/fs" "/home" None "" "" "/w/upper" "/w/work" "/w/merged"
    [] None [] [] st p p default_refs false false None None sample_limits None.
Definition snapshot_disk (body : string) (snapshots : list (path * node)) : disk :=
  mkDisk (list_to_map (snapshots ++ [([], NDir); (["w"], NDir); (["w"; "fs"], NDir); (["w"; "fs"; "notes"], NFile body);
    (["w"; "upper"], NDir); (["w"; "upper"; ".profile"], NFile "x"); (["w"; "work"], NDir); (["w"; "merged"], NDir)])) 0.
Definition taken (name body : string) : list (path * node) :=
  let dir := ["w"; "snapshots"; name] in
  [(["w"; "snapshots"], NDir); (dir, NDir); (dir ++ ["fs"], NDir); (dir ++ ["fs"; "notes"], NFile body);
   (dir ++ ["home-upper"], NDir); (dir ++ ["snapshot.json"], NFile name)].
Definition sample_print (s : SnapshotMetadata) : string := snapshot_name s.
Definition sample_parse (raw : string) : option SnapshotMetadata := Some (mkSnapshot raw raw).
Definition fresh_image : files := {[ [] := NDir ]}.

(** The trees of the examples are well formed: every path but the root has its directory. *)
Definition tree_okb (t : files) : bool :=
  bool_decide (t !! [] = Some NDir) &&
  forallb (λ kx, match kx.1 with [] => true | _ => bool_decide (t !! removelast kx.1 = Some NDir) end) (map_to_list t).
Lemma tree_okb_ok t : tree_okb t = true → tree_ok t.
Proof.
  unfold tree_okb. intros [H1%bool_decide_eq_true H2]%andb_true_iff. split; [done|]. intros p n [x Hx].
  rewrite forallb_forall in H2. specialize (H2 (p ++ [n], x)). rewrite <- list_elem_of_In, elem_of_map_to_list in H2.
  specialize (H2 Hx). cbn [fst] in H2. rewrite removelast_last in H2. destruct p; by apply bool_decide_eq_true in H2.
Qed.
Definition apartb (p q : path) : bool := bool_decide (strip_path p q = None) && bool_decide (strip_path q p = None).
Fixpoint all_apartb (l : list path) : bool :=
  match l with [] => true | p :: l' => forallb (apartb p) l' && all_apartb l' end.
Lemma all_apartb_ok l : all_apartb l = true → all_apart l.
Proof.
  induction l as [|p l IH]; cbn; [done|]. intros [H1 H2]%andb_true_iff. split; [|by apply IH]. apply list.Forall_forall. intros q Hq.
  rewrite forallb_forall in H1. specialize (H1 q). rewrite <- list_elem_of_In in H1. specialize (H1 Hq).
  unfold apartb in H1. apply andb_true_iff in H1 as [?%bool_decide_eq_true ?%bool_decide_eq_true]. by split.
Qed.

Definition restore_disk : disk := snapshot_disk "new" ((["w"; ".restore-backup"], NDir) :: taken "good" "old").
Lemma sample_restorable :
  let w := snapshot_workspace Stopped None in
  restorable (λ l, l) fresh_image (uses_disk_image w) (image_path w) (restore_paths w "good") restore_disk.
Proof.
  intros w. split.
  - intros l. reflexivity.
  - reflexivity.
  - apply all_apartb_ok. reflexivity.
  - intros H. discriminate H.
  - split_and!; [intros H; discriminate H|intros H; discriminate H|reflexivity|reflexivity].
  - split_and!; intros H; vm_compute in H; discriminate H.
  - split; reflexivity.
  - split; apply tree_okb_ok; reflexivity.
Qed.

(** What a run ended in. *)
Lemma ran {A} (run : result A * disk) r st : run.1 = r → st = run.2 → run = (r, st).
Proof. by destruct run; cbn; intros -> ->. Qed.

(** A restore that works, and one whose copy is cut short in the file system. *)
Definition sample_tier (h : faults) (st : disk) : result unit * disk :=
  let w := snapshot_workspace Stopped None in
  restore_tier h (λ l, l) fresh_image (uses_disk_image w) (image_path w) (restore_paths w "good") st.
Definition torn_copy : faults :=
  mkFaults (λ _, false) (λ _ _, false) (λ _ p, if bool_decide (p = ["notes"]) then Some (Some "ol") else None).
Definition restored_disk : disk := (sample_tier no_faults restore_disk).2.
Definition kept_disk : disk := (sample_tier torn_copy restore_disk).2.
Definition copy_failed : error := [LPlain "failed to copy file"].
Lemma sample_restored : sample_tier no_faults restore_disk = (Ok tt, restored_disk).
Proof. apply ran; [vm_compute; reflexivity|reflexivity]. Qed.
Lemma sample_kept : sample_tier torn_copy restore_disk = (Err copy_failed, kept_disk).
Proof. apply ran; [vm_compute; reflexivity|reflexivity]. Qed.
Definition sample_move : result unit * disk :=
  let w := snapshot_workspace Stopped None in
  move_aside torn_copy (uses_disk_image w) (image_path w) (restore_paths w "good") restore_disk.
Definition sample_copy (st : disk) : result unit * disk :=
  let w := snapshot_workspace Stopped None in
  copy_in torn_copy (λ l, l) fresh_image (uses_disk_image w) (image_path w) (restore_paths w "good") st.
Definition moved_disk : disk := sample_move.2.
Definition torn_disk : disk := (sample_copy moved_disk).2.
Lemma sample_moved : sample_move = (Ok tt, moved_disk).
Proof. apply ran; [vm_compute; reflexivity|reflexivity]. Qed.
Lemma sample_torn : sample_copy moved_disk = (Err copy_failed, torn_disk).
Proof. apply ran; [vm_compute; reflexivity|reflexivity]. Qed.

Lemma restore_or_put_back_witness :
  view ["w"; "fs"] restored_disk = regular (view ["w"; "snapshots"; "good"; "fs"] restore_disk) ∪ ∅ ∧
  view ["w"; "fs"] kept_disk = view ["w"; "fs"] restore_disk.
Proof.
  split.
  - exact (proj1 (proj2 (proj2 (proj1 (restore_or_put_back _ _ _ _ _ _ _ _ _ sample_restorable sample_restored) eq_refl)))).
  - exact (proj1 (proj2 (proj2 (restore_or_put_back _ _ _ _ _ _ _ _ _ sample_restorable sample_kept) tt moved_disk copy_failed torn_disk
      sample_moved sample_torn (λ n _, eq_refl)))).
Defined.

Definition before_disk : disk := snapshot_disk "mine" [(["w"; ".restore-backup"], NDir)].
Definition taken_disk : disk :=
  (create_workspace_snapshot no_faults (λ l, l) fresh_image (λ _, true) sample_print (snapshot_workspace Stopped None) false "good" "t1"
     before_disk).2.
Definition spoilt_disk : disk := mkDisk (<[["w"; "fs"; "notes"] := NFile "spoilt"]> (on_disk taken_disk)) 0.
Definition back_disk : disk := (sample_tier no_faults spoilt_disk).2.
Lemma sample_taken :
  create_workspace_snapshot no_faults (λ l, l) fresh_image (λ _, true) sample_print (snapshot_workspace Stopped None) false "good" "t1"
    before_disk = (Ok (mkInfo "good" "t1" ["w"; "snapshots"; "good"]), taken_disk).
Proof. apply ran; [vm_compute; reflexivity|reflexivity]. Qed.
Lemma sample_back : sample_tier no_faults spoilt_disk = (Ok tt, back_disk).
Proof. apply ran; [vm_compute; reflexivity|reflexivity]. Qed.
Lemma spoilt_restorable :
  let w := snapshot_workspace Stopped None in
  restorable (λ l, l) fresh_image (uses_disk_image w) (image_path w) (restore_paths w "good") spoilt_disk.
Proof.
  intros w. split.
  - intros l. reflexivity.
  - reflexivity.
  - apply all_apartb_ok. vm_compute. reflexivity.
  - intros H. discriminate H.
  - split_and!; [intros H; discriminate H|intros H; discriminate H|vm_compute; reflexivity|vm_compute; reflexivity].
  - split_and!; intros H; vm_compute in H; discriminate H.
  - split; vm_compute; reflexivity.
  - split; apply tree_okb_ok; vm_compute; reflexivity.
Qed.


Definition two_snapshots : disk := snapshot_disk "x" (taken "b" "old" ++ taken "a" "older").
Definition one_snapshot : disk :=
  (gc_workspace_snapshots no_faults (λ l, l) (λ _, true) sample_parse (snapshot_workspace Stopped None) 1 two_snapshots).2.
Lemma sample_collected :
  gc_workspace_snapshots no_faults (λ l, l) (λ _, true) sample_parse (snapshot_workspace Stopped None) 1 two_snapshots
    = (Ok [mkInfo "a" "a" ["w"; "snapshots"; "a"]], one_snapshot).
Proof. apply ran; [vm_compute; reflexivity|reflexivity]. Qed.
Lemma sample_listed :
  list_workspace_snapshots (λ l, l) (λ _, true) sample_parse (snapshot_workspace Stopped None) (on_disk two_snapshots)
    = Ok [mkInfo "a" "a" ["w"; "snapshots"; "a"]; mkInfo "b" "b" ["w"; "snapshots"; "b"]].
Proof. vm_compute. reflexivity. Qed.

Lemma gc_keeps_newest_witness :
  view ["w"; "snapshots"; "b"] one_snapshot = view ["w"; "snapshots"; "b"] two_snapshots ∧
  view ["w"; "snapshots"; "a"] one_snapshot = ∅.
Proof.
  destruct (gc_keeps_newest no_faults (λ l, l) (λ _, true) sample_parse (λ l, reflexivity l) (snapshot_workspace Stopped None) 1 _
    two_snapshots _ one_snapshot sample_listed sample_collected) as (_ & _ & Hk & Hr).
  split.
  - apply (Hk (mkInfo "b" "b" ["w"; "snapshots"; "b"])). vm_compute. left.
  - apply (proj2 (Hr _ eq_refl) (mkInfo "a" "a" ["w"; "snapshots"; "a"])). left.
Defined.

(** A restore whose second move is refused returns without putting the file system back,
    and the backup it was moved to is removed on the way out: the file system is gone. *)
Lemma restore_loses_filesystem :
  let w := snapshot_workspace Stopped None in
  let refuse_upper := mkFaults (λ n, n =? 2) (λ _ _, false) (λ _ _, None) in
  let st := snapshot_disk "new" (taken "good" "old") in
  let '(res, st') := restore_snapshot_filesystem refuse_upper (λ l, l) fresh_image (λ _, true) w "good" st in
  is_ok res = false ∧ on_disk st !! ["w"; "fs"; "notes"] = Some (NFile "new") ∧
  on_disk st' !! ["w"; "fs"] = None ∧ on_disk st' !! ["w"; ".restore-backup"] = None.
Proof. vm_compute. repeat split. Qed.

(** Restoring a snapshot that does not exist stops the workspace, and leaves its record
    saying that it runs. *)
Lemma failed_restore_stops_workspace :
  let st := (sample_world None [snapshot_workspace Running (Some 42%Z)]).1 in
  let '(res, (reg, (host, _))) :=
    restore_workspace_snapshot no_faults (λ l, l) fresh_image (λ _, true) true Committed ended sample_stop "box" "web" "none"
      (st, (mkHost ∅ ∅ {[42%Z]}, snapshot_disk "new" [])) in
  is_ok res = false ∧ elements (sessions host) = [] ∧ status <$> find_workspace reg "s" "a" = Some Running.
Proof. vm_compute. repeat split. Qed.

(** An import that is to replace a snapshot removes it first: one that fails after that,
    here for a link in the archive, leaves neither the old nor the new snapshot whole. *)
Lemma import_replace_loses_snapshot :
  let w := snapshot_workspace Stopped None in
  let archive : files := list_to_map [([], NDir); (["fs"], NDir); (["fs"; "link"], NLink); (["home-upper"], NDir);
    (["snapshot.json"], NFile "good")] in
  let st := snapshot_disk "x" (taken "good" "old") in
  let '(res, st') := import_workspace_snapshot_archive no_faults (λ l, l) (λ _, true) sample_print sample_parse (λ _, NDir) w
    (Some archive) ["tmp"] None true st in
  is_ok res = false ∧ on_disk st !! ["w"; "snapshots"; "good"; "fs"; "notes"] = Some (NFile "old") ∧
  on_disk st' !! ["w"; "snapshots"; "good"; "fs"; "notes"] = None.
Proof. vm_compute. repeat split. Qed.
