(* ===== verification/Copy.v ===== *)
(** * Copies between host and workspace (src/src/workspace/cp)

    A copy out of a workspace unpacks an archive that the workspace wrote, so the archive may
    contain any paths, links and types.  It is unpacked into a staging directory beside the
    destination and moved into place at the end.  The kernel follows symbolic links when it
    resolves a path; [resolve] does so.  The [tar] crate is a host that writes an entry at its
    path and makes the directories above it.  A copy into a workspace runs commands inside it,
    whose exit codes are given by a host. *)
From S2P Require Import Prelude RustStr Paths FileTree.
#[local] Open Scope nat_scope.

(** ** Paths (path.rs) *)

Inductive Direction := HostToWorkspace | WorkspaceToHost.
#[export] Instance Direction_eq_dec : EqDecision Direction.
Proof. solve_decision. Defined.
Definition direction_parse (raw : string) : result Direction :=
  if bool_decide (raw = "host_to_workspace") then Ok HostToWorkspace
  else if bool_decide (raw = "workspace_to_host") then Ok WorkspaceToHost
  else bail "invalid workspace cp direction".

Definition normal (c : string) : bool := negb (bool_decide (c = "")) && negb (bool_decide (c = ".")) && negb (bool_decide (c = "..")).
(** [Path::file_name] and [Path::parent], as a text with the same components. *)
Definition path_file_name (p : string) : option string :=
  c ← list.last (path_components p); if normal c then Some c else None.
Definition path_text (l : list string) : string :=
  if bool_decide (l = [""]) then "/" else String.concat "/" l.
Definition path_parent (p : string) : option string :=
  match path_components p with
  | [] | [""] => None
  | l => Some (path_text (removelast l))
  end.

Definition validate_host_path (p : string) : result unit :=
  if bool_decide (p = "") then bail "path cannot be empty"
  else if bool_decide (p = "/") then bail "refusing to copy host root" else Ok tt.
Definition validate_workspace_path (p : string) : result unit :=
  if negb (starts_with "/" p) then bail "workspace path must be absolute"
  else if path_eq p "/" then bail "refusing to copy workspace root"
  else if bool_decide (".." ∈ path_components p) then bail "workspace path cannot contain '..'" else Ok tt.
Definition validate_direction_paths (src dst : string) (d : Direction) : result unit :=
  match d with
  | HostToWorkspace => validate_host_path src;; validate_workspace_path dst
  | WorkspaceToHost => validate_workspace_path src;; validate_host_path dst
  end.
Definition source_name (p : string) : result string :=
  match path_file_name p with Some n => Ok n | None => bail "source path has no filename" end.

Record DestinationPlan := mkPlan { plan_parent : string; rename_to : option string }.
Definition destination_plan (destination name : string) (destination_is_dir : bool) : result DestinationPlan :=
  if destination_is_dir then Ok (mkPlan destination None)
  else
    let parent := match path_parent destination with Some p => if bool_decide (p = "") then "/" else p | None => "/" end in
    match path_file_name destination with
    | Some n => Ok (mkPlan parent (if bool_decide (name = n) then None else Some n))
    | None => bail "destination has no filename"
    end.
Definition final_name (p : DestinationPlan) (name : string) : string := default name (rename_to p).
Definition final_path (p : DestinationPlan) (name : string) : string := path_join (plan_parent p) (final_name p name).

(** ** The host's file system *)

(** A link has the components of its target; those of an absolute one start with an empty one. *)
Inductive hnode := HFile (data : string) | HDir | HLink (to : list string) | HDevice | HSpecial.
#[export] Instance hnode_eq_dec : EqDecision hnode.
Proof. solve_decision. Defined.
Abbreviation host_fs := (gmap (list string) hnode).

Fixpoint resolve (fuel : nat) (st : host_fs) (base todo : path) : option path :=
  match fuel with
  | O => None
  | S n =>
      match todo with
      | [] => Some base
      | c :: rest =>
          if bool_decide (c = "") then resolve n st [] rest
          else if bool_decide (c = ".") then resolve n st base rest
          else if bool_decide (c = "..") then resolve n st (removelast base) rest
          else match st !! (base ++ [c]) with
               | Some (HLink to) => resolve n st base (to ++ rest)
               | _ => resolve n st (base ++ [c]) rest
               end
      end
  end.

Inductive tar_write := WFile (data : string) | WDir | WLink (to : list string).
(** One write of an unpacking: a file follows the last component, a directory and a link do not and
    are not made where something is. *)
Definition write_at (fuel : nat) (base q : path) (w : tar_write) (st : host_fs) : option host_fs :=
  match w with
  | WFile d =>
      p ← resolve fuel st base q;
      match st !! p with
      | Some HDir | Some (HLink _) => None
      | _ => if bool_decide (st !! removelast p = Some HDir) then Some (<[p := HFile d]> st) else None
      end
  | WDir | WLink _ =>
      c ← list.last q;
      p ← resolve fuel st base (removelast q);
      match st !! (p ++ [c]) with
      | Some HDir => match w with WDir => Some st | _ => None end
      | Some _ => None
      | None =>
          if bool_decide (st !! p = Some HDir) then
            Some (<[p ++ [c] := match w with WLink t => HLink t | _ => HDir end]> st)
          else None
      end
  end.
(** [symlink_metadata] of a path, which fails when the resolution does; the last component is not
    followed. *)
Definition lstat (fuel : nat) (base q : path) (st : host_fs) : option (option hnode) :=
  match list.last q with
  | None => Some (st !! base)
  | Some c => p ← resolve fuel st base (removelast q); Some (st !! (p ++ [c]))
  end.
Definition is_link (x : option hnode) : bool := match x with Some (HLink _) => true | _ => false end.

(** ** Archives (archive.rs) *)

Inductive tar_type := TRegular | TDirectory | TSymlink | TOther.
#[export] Instance tar_type_eq_dec : EqDecision tar_type.
Proof. solve_decision. Defined.
Record tar_entry := mkEntry {
  e_path : string;
  e_type : tar_type;
  e_size : Z;
  e_data : string;
  e_link : list string }.

Definition own_write (e : tar_entry) : tar_write :=
  match e_type e with TRegular => WFile (e_data e) | TSymlink => WLink (e_link e) | _ => WDir end.

Record cp_host := mkCp {
  loops : nat;                                          (** how many steps a resolution takes at most *)
  uuid : nat → string;
  mkdir_error : nat → bool;                             (** a [mkdirat] that fails for another reason *)
  can_open : path → bool;
  unpack_steps : tar_entry → list (path * tar_write);   (** what the [tar] crate does for an entry *)
  unpack_stops : nat → option nat;                      (** an unpacking that fails after some steps *)
  stat_fails : nat → path → bool;
  spawned : bool;
  archive : list (option tar_entry);                    (** the entries read; [None] is a read error *)
  tar_exit : option bool;                               (** whether [tar] succeeded; [None]: no answer *)
  rename_refused : bool;
  kept_of : path → bool }.                              (** what a failing removal leaves *)

Definition validate_archive_path (p : string) (name : string) : result (list string) :=
  match path_components p with
  | root :: rest =>
      if negb (normal root) then bail "workspace tar archive contains unsafe entry"
      else if negb (bool_decide (root = name)) then bail "workspace tar archive contains unexpected entry"
      else if forallb normal rest then Ok (root :: rest) else bail "workspace tar archive contains unsafe entry"
  | [] => bail "workspace tar archive contains unsafe entry"
  end.
Definition validate_archive_entry_type (t : tar_type) : result unit :=
  match t with TOther => bail "workspace tar archive contains unsupported entry type" | _ => Ok tt end.

Section host.
Context (h : cp_host).

(** Every prefix of the path below the stage: not a link, and no other trouble than absence. *)
Fixpoint no_links (k : nat) (stage checked rest : path) (st : host_fs) : bool :=
  match rest with
  | [] => true
  | c :: rest' =>
      let q := checked ++ [c] in
      negb (stat_fails h k q) && match lstat (loops h) stage q st with Some x => negb (is_link x) | None => false end &&
      no_links k stage q rest' st
  end.
Definition ensure_no_symlink_ancestors (k : nat) (stage q : path) (st : host_fs) : bool := no_links k stage [] q st.

(** [unpack_in]: its writes in order, up to the first that fails. *)
Fixpoint unpack_writes (stage : path) (l : list (path * tar_write)) (st : host_fs) : host_fs * bool :=
  match l with
  | [] => (st, true)
  | (q, w) :: rest =>
      match write_at (loops h) stage q w st with
      | Some st' => unpack_writes stage rest st'
      | None => (st, false)
      end
  end.
Definition unpack_in (k : nat) (stage : path) (e : tar_entry) (st : host_fs) : host_fs * bool :=
  match unpack_stops h k with
  | Some n => ((unpack_writes stage (take n (unpack_steps h e)) st).1, false)
  | None => unpack_writes stage (unpack_steps h e) st
  end.

(** [extract_workspace_archive_with_stats] from the [k]-th entry on. *)
Fixpoint extract_loop (k : nat) (stage : path) (name : string) (l : list (option tar_entry)) (seen : list path)
    (bytes files : Z) : stm host_fs (Z * Z) :=
  match l with
  | [] =>
      st ← get;
      match lstat (loops h) stage [name] st with
      | Some (Some _) => mret (bytes, files)
      | _ => throw "no such file or directory in the workspace"
      end
  | None :: _ => throw "failed to read workspace tar entry"
  | Some e :: rest =>
      q ← lift (validate_archive_path (e_path e) name);
      lift (validate_archive_entry_type (e_type e));;
      assert (negb (bool_decide (q ∈ seen))) "workspace tar archive contains duplicate entry";;
      st ← get;
      assert (ensure_no_symlink_ancestors k stage q st) "workspace tar archive writes through symlinked entry";;
      let '(st', ok) := unpack_in k stage e st in
      modify (λ _, st');;
      assert ok "failed to unpack workspace tar entry";;
      let file := bool_decide (e_type e = TRegular) in
      extract_loop (S k) stage name rest (q :: seen)
        (if file then sat_add64 bytes (e_size e) else bytes) (if file then sat_add64 files 1 else files)
  end.
Definition extract_workspace_archive_with_stats (stage : path) (name : string) : stm host_fs (Z * Z) :=
  extract_loop 0 stage name (archive h) [] 0 0.

(** ** Staging beside the destination (stream.rs, hostfs.rs) *)

(** [open_host_directory]: every component is opened below the one before, and no link is followed. *)
Fixpoint open_below (base : path) (l : list string) (st : host_fs) : option path :=
  match l with
  | [] => Some base
  | c :: rest =>
      if bool_decide (c = "") || bool_decide (c = ".") then open_below base rest st
      else if negb (normal c) then None
      else if can_open h (base ++ [c]) && bool_decide (st !! (base ++ [c]) = Some HDir)
           then open_below (base ++ [c]) rest st else None
  end.
Definition open_host_directory (p : string) : stm host_fs path :=
  assert (starts_with "/" p) "host destination parent must be absolute";;
  st ← get;
  match open_below [] (path_components p) st with Some d => mret d | None => throw "failed to securely open host destination directory" end.

Fixpoint make_stage (k : nat) (attempts : nat) (parent : path) : stm host_fs path :=
  match attempts with
  | O => throw "failed to allocate a unique host transfer staging directory"
  | S n =>
      let stage := parent ++ [".enclave-cp-" +:+ uuid h k] in
      st ← get;
      if mkdir_error h k then throw "failed to create host transfer staging directory"
      else if bool_decide (is_Some (st !! stage)) then make_stage (S k) n parent
      else modify (insert stage HDir);; mret stage
  end.
Definition staging_create (parent : string) : stm host_fs path := d ← open_host_directory parent; make_stage 0 16 d.
(** [Drop]: [remove_dir_all], its result ignored. *)
Definition staging_drop (stage : path) : stm host_fs unit :=
  modify (filter (λ kx, strip_path stage kx.1 = None ∨ kept_of h kx.1 = true)).
Definition ensure_host_entry_absent (parent : path) (name : string) : stm host_fs unit :=
  st ← get; assert (bool_decide (st !! (parent ++ [name]) = None)) "host destination already exists".
(** [renameat2] without replacing; the empty stage is removed after it, if that works. *)
Definition staging_commit (stage : path) (name target : string) : stm host_fs unit :=
  let parent := removelast stage in
  ensure_host_entry_absent parent target;;
  st ← get;
  assert (negb (rename_refused h) && bool_decide (is_Some (st !! (stage ++ [name])))) "failed to commit staged host transfer";;
  modify (move (stage ++ [name]) (parent ++ [target]));;
  modify (λ st, if bool_decide (subtree stage st = {[ [] := HDir ]}) then delete stage st else st).

(** ** Out of a workspace (transfer.rs) *)

(** From the staging directory on; leaving early drops the staging directory. *)
Definition transfer_staged (stage : path) (plan : DestinationPlan) (name : string) : stm host_fs (Z * Z) :=
  assert (spawned h) "failed to start workspace tar";;
  extracted ← catch (extract_workspace_archive_with_stats stage name);
  match tar_exit h with
  | None => throw "failed to wait for workspace tar"
  | Some success =>
      assert success "workspace tar failed";;
      stats ← lift (with_context "failed to validate workspace tar archive" extracted);
      staging_commit stage name (final_name plan name);;
      mret stats
  end.
Definition run_workspace_to_host (plan : DestinationPlan) (name : string) : stm host_fs (Z * Z) :=
  stage ← staging_create (plan_parent plan);
  r ← catch (transfer_staged stage plan name);
  match r with
  | Ok stats => mret stats
  | Err e => staging_drop stage;; lift (Err e)
  end.
End host.

(** ** The host's side of a request (path.rs, mod.rs) *)

(** [cwd] is where a relative path starts. *)
Definition validate_host_source (fuel : nat) (cwd : path) (p : string) (st : host_fs) : result Z :=
  match lstat fuel cwd (path_components p) st with
  | Some (Some (HFile d)) => Ok (Z.of_nat (String.length d))
  | Some (Some (HLink to)) => Ok (Z.of_nat (String.length (path_text to)))
  | Some (Some HDir) => Ok 0%Z
  | Some (Some _) => bail "refusing to copy unsupported host source type"
  | _ => bail "host source does not exist"
  end.
Fixpoint check_destination (fuel : nat) (cwd checked rest : path) (st : host_fs) : result unit :=
  match rest with
  | [] => Ok tt
  | c :: rest' =>
      match lstat fuel cwd (checked ++ [c]) st with
      | Some (Some (HLink _)) => bail "refusing to copy through symlinked host destination component"
      | Some (Some HDevice) => bail "refusing to overwrite host device node"
      | _ => check_destination fuel cwd (checked ++ [c]) rest' st
      end
  end.
Definition validate_host_destination (fuel : nat) (cwd : path) (p : string) (st : host_fs) : result unit :=
  check_destination fuel cwd [] (path_components p) st.
(** [Path::is_dir] *)
Definition host_is_dir (fuel : nat) (cwd : path) (p : string) (st : host_fs) : bool :=
  match resolve fuel st cwd (path_components p) with Some q => bool_decide (st !! q = Some HDir) | None => false end.

(** What the workspace answers about the source. *)
Record ws_source := mkSource { running : bool; touched : bool; plain_source : bool; source_is_dir : option bool }.
(** [copy_workspace_path_with_connection] from a workspace. *)
Definition copy_from_workspace (h : cp_host) (cwd : path) (src dst : string) (w : ws_source) (gzip : bool) : stm host_fs (Z * Z) :=
  lift (validate_direction_paths src dst WorkspaceToHost);;
  assert (running w) "start workspace first";;
  st ← get;
  lift (validate_host_destination (loops h) cwd dst st);;
  assert (touched w) "failed to record activity";;
  assert (plain_source w) "refusing to copy workspace source with special files";;
  is_dir ← lift (ok_or (source_is_dir w) (plain "failed to inspect workspace destination"));
  assert (negb (gzip && negb is_dir)) "--gzip is supported only for directory workspace copies";;
  let destination_is_dir := host_is_dir (loops h) cwd dst st in
  assert (negb (ends_with_slash dst && negb destination_is_dir && negb is_dir)) "destination is not an existing directory";;
  name ← lift (source_name src);
  plan ← lift (destination_plan dst name destination_is_dir);
  run_workspace_to_host h plan name.

(** The path whose mode and times are set after a file was copied into a workspace (archive.rs). *)
Definition restore_workspace_metadata (fuel : nat) (home_source : option string) (filesystem p : string) (st : host_fs) : result path :=
  match strip_path ["" ; "home"] (path_components p) with
  | None => bail "workspace staging path is outside /home"
  | Some relative =>
      ok_or (resolve fuel st [] (path_components (default filesystem home_source) ++ relative)) (plain "failed to restore workspace permissions")
  end.

(** ** Streaming a file (transfer.rs) *)

(** An answer of [splice] or [sendfile]: it may move some bytes, be interrupted, not be supported, or fail. *)
Inductive io := IoMove (n : Z) | IoInterrupted | IoUnsupported | IoFailed.
Definition STREAM_STEP : Z := 4 * 1024 * 1024.
(** [inside] bytes are left in the file; what is left of the file, what was moved, and the answers not used. *)
Fixpoint stream_loop (fallback : bool) (answers : list io) (inside moved expected : Z) : result bool * Z * Z * list io :=
  if (expected <=? moved)%Z then (Ok true, inside, moved, answers)
  else
    match answers with
    | [] => (bail "no answer", inside, moved, [])
    | IoMove n :: rest =>
        let amount := Z.min (Z.max 1 n) (Z.min inside (Z.min (expected - moved) STREAM_STEP)) in
        if (amount <=? 0)%Z then (bail "host source ended before expected size", inside, moved, rest)
        else stream_loop fallback rest (inside - amount)%Z (sat_add64 moved amount) expected
    | IoInterrupted :: rest => stream_loop fallback rest inside moved expected
    | IoUnsupported :: rest =>
        (if fallback then Ok false else bail "failed to stream host file with sendfile", inside, moved, rest)
    | IoFailed :: rest => (bail "failed to stream host file", inside, moved, rest)
    end.
Definition splice_to_pipe (answers : list io) (inside expected : Z) : result bool * Z * Z * list io :=
  stream_loop true answers inside 0 expected.
(** The result, and the bytes the pipe received. *)
Definition sendfile_to_pipe (answers : list io) (inside expected : Z) : result unit * Z :=
  let '(r, inside', moved, rest) := splice_to_pipe answers inside expected in
  match r with
  | Ok true => (Ok tt, moved)
  | Err e => (Err e, moved)
  | Ok false =>
      let '(r', _, moved', _) := stream_loop false rest inside' 0 expected in
      (match r' with Ok _ => Ok tt | Err e => Err e end, (moved + moved')%Z)
  end.

(** ** Waiting for a command (process.rs, stream.rs) *)

Definition POLLIN : Z := 1.
Definition POLLERR : Z := 8.
Definition POLLHUP : Z := 16.
Definition POLLNVAL : Z := 32.
Definition POLLRDHUP : Z := 8192.
(** What [poll] returns, the events it sets, and what a peek at the connection reads. *)
Definition client_disconnected (result revents peeked : Z) : bool :=
  if (result <=? 0)%Z then false
  else if negb (Z.land revents (Z.lor POLLRDHUP (Z.lor POLLHUP (Z.lor POLLERR POLLNVAL))) =? 0)%Z then true
  else if (Z.land revents POLLIN =? 0)%Z then false
  else (peeked =? 0)%Z.

Record child := mkChild { armed : bool; killed : bool; reaped : bool; pidfds : nat }.
(** A turn of the wait: the wait itself is interrupted or fails, or it ends; then whether the client is
    gone and whether the command has ended. *)
Inductive turn := Interrupted | WaitFailed | Woken (gone ended : bool).
Section wait.
(** Whether [wait] works, and the exit code it reports. *)
Context (wait_works : bool) (status : option Z).

Definition wait_child : stm child (option Z) :=
  assert wait_works "failed to wait for child process";;
  modify (λ c, mkChild (armed c) (killed c) true (pidfds c));; mret status.
(** [Child::kill] does nothing once the command was reaped. *)
Definition kill_child : stm child unit := modify (λ c, mkChild (armed c) (killed c || negb (reaped c)) (reaped c) (pidfds c)).
Definition close_pidfd : stm child unit := modify (λ c, mkChild (armed c) (killed c) (reaped c) (pred (pidfds c))).
Definition cancel_child : stm child (option Z) :=
  kill_child;; catch wait_child;; throw "workspace request client disconnected; command cancelled".

(** [None] after the last turn: the wait goes on. *)
Fixpoint poll_pidfd (turns : list turn) : stm child (option (option Z)) :=
  match turns with
  | [] => mret None
  | Interrupted :: rest => poll_pidfd rest
  | WaitFailed :: _ => close_pidfd;; throw "failed waiting for child or client disconnect"
  | Woken gone ended :: rest =>
      if gone then close_pidfd;; s ← cancel_child; mret (Some s)
      else if ended then close_pidfd;; s ← wait_child; mret (Some s)
      else poll_pidfd rest
  end.
Fixpoint poll_child (turns : list turn) : stm child (option (option Z)) :=
  match turns with
  | [] => mret None
  | (Interrupted | WaitFailed) :: _ => throw "failed to poll child process"
  | Woken gone ended :: rest =>
      if ended then s ← wait_child; mret (Some s)
      else if gone then s ← cancel_child; mret (Some s)
      else poll_child rest
  end.
Definition wait_for_child_or_disconnect (client has_pidfd : bool) (turns : list turn) : stm child (option (option Z)) :=
  if negb client then s ← wait_child; mret (Some s)
  else if has_pidfd then modify (λ c, mkChild (armed c) (killed c) (reaped c) (S (pidfds c)));; poll_pidfd turns
  else poll_child turns.
Definition guard_drop (c : child) : child :=
  if armed c then mkChild (armed c) (killed c || negb (reaped c)) (reaped c || wait_works) (pidfds c) else c.
(** [wait_child_output], and the drop of the guard when its caller leaves because of an error. *)
Definition wait_child_output (client has_pidfd stderr_read : bool) (turns : list turn) : stm child (option (option Z)) := λ c,
  match wait_for_child_or_disconnect client has_pidfd turns c with
  | (Ok None, c') => (Ok None, c')
  | (Ok (Some s), c') =>
      if stderr_read then (Ok (Some s), mkChild false (killed c') (reaped c') (pidfds c'))
      else (bail "failed to read child stderr", guard_drop c')
  | (Err e, c') => (Err e, guard_drop c')
  end.
End wait.

(** ** Commands inside a workspace (utility.rs) *)

(** Sandbox, workspace, runtime pid and start time, and the program. *)
Abbreviation utility_key := (string * string * Z * Z * string)%type.
Abbreviation utility_cache := (gmap (string * string * Z * Z * string) bool).
Definition UTILITY_CACHE_LIMIT : nat := 512.

(** The commands that ran, latest first, and the cache of the ones that need busybox. *)
Record ws := mkWs { cache : utility_cache; ran : list (list string) }.
Record ws_host := mkWsHost {
  exits : nat → list string → option (option Z);     (** no answer, or the exit code ([None]: a signal) *)
  oldest : utility_cache → utility_key;              (** the first key of the table *)
  ws_id : string * string * Z * Z }.

(** The shell looks for a pipe, a device or a socket. *)
Definition SPECIAL_FILES_SCRIPT : string :=
  let q := String "034" "" in
  "unsupported=$(find " +:+ q +:+ "$1" +:+ q +:+ " \( -type p -o -type b -o -type c -o -type s \) -print -quit) || exit 2; test -z "
    +:+ q +:+ "$unsupported" +:+ q.

Section workspace_side.
Context (h : ws_host).

Definition spawn_and_wait (cmd : list string) : stm ws (option Z) := λ st,
  let st' := mkWs (cache st) (cmd :: ran st) in
  match exits h (length (ran st)) cmd with
  | Some status => (Ok status, st')
  | None => (bail "failed to run workspace command", st')
  end.
Definition utility_uses_busybox (key : utility_key) (c : utility_cache) : bool := default false (c !! key).
Definition cache_utility_choice (key : utility_key) (uses_busybox : bool) (c : utility_cache) : utility_cache :=
  let c' := if (UTILITY_CACHE_LIMIT <=? base.size c) && negb (bool_decide (is_Some (c !! key))) then delete (oldest h c) c else c in
  <[key := uses_busybox]> c'.
Definition run_busybox_utility (cmd : list string) : stm ws (option Z) := spawn_and_wait ("/bin/busybox" :: cmd).
Definition cache_key (cmd : list string) : utility_key := (ws_id h, default "" (head cmd)).
Definition run_workspace_utility (cmd : list string) : stm ws (option Z) :=
  st ← get;
  if utility_uses_busybox (cache_key cmd) (cache st) then run_busybox_utility cmd
  else
    status ← spawn_and_wait cmd;
    let remember b := modify (λ st, mkWs (cache_utility_choice (cache_key cmd) b (cache st)) (ran st)) in
    if negb (bool_decide (status = Some 127%Z)) then remember false;; mret status
    else remember true;; run_busybox_utility cmd.
Definition ensure_transfer_success (status : option Z) : stm ws unit := assert (bool_decide (status = Some 0%Z)) "transfer failed".

(** ** The workspace's files (workspace_fs.rs) *)

Definition workspace_path_is_directory (p : string) : stm ws bool :=
  status ← run_workspace_utility ["test"; "-d"; p];
  if bool_decide (status = Some 0%Z) then mret true
  else if bool_decide (status = Some 1%Z) then mret false else throw "failed to inspect workspace destination".
Definition workspace_path_exists (p : string) : stm ws bool :=
  output ← run_workspace_utility ["test"; "-e"; p];
  if bool_decide (output = Some 0%Z) then mret true
  else
    symlink ← run_workspace_utility ["test"; "-L"; p];
    if bool_decide (symlink = Some 0%Z) then mret true
    else if bool_decide (output = Some 1%Z) && bool_decide (symlink = Some 1%Z) then mret false
    else throw "failed to inspect workspace destination".
Definition validate_workspace_source (p : string) : stm ws unit :=
  status ← run_workspace_utility ["sh"; "-c"; SPECIAL_FILES_SCRIPT; "sh"; p];
  if bool_decide (status = Some 0%Z) then mret tt
  else if bool_decide (status = Some 1%Z) then throw "refusing to copy workspace source with special files"
  else throw "failed to validate workspace source".
(** [prefix] is the part of the path already looked at. *)
Fixpoint check_prefixes (prefix : string) (l : list string) : stm ws unit :=
  match l with
  | [] => mret tt
  | c :: rest =>
      let p := if bool_decide (c = "") then "/" else path_join prefix c in
      (if path_eq p "/" then mret tt
       else status ← run_workspace_utility ["test"; "-L"; p];
            assert (negb (bool_decide (status = Some 0%Z))) "refusing to copy through symlinked workspace destination component");;
      check_prefixes p rest
  end.
Definition workspace_path_has_symlink (p : string) : stm ws unit := check_prefixes "" (path_components p).
Definition create_workspace_staging_directory (plan : DestinationPlan) (name unique : string) : stm ws string :=
  there ← workspace_path_exists (final_path plan name);
  assert (negb there) "workspace destination already exists";;
  let stage := path_join (plan_parent plan) (".enclave-cp-" +:+ unique) in
  status ← run_workspace_utility ["mkdir"; "--"; stage];
  ensure_transfer_success status;;
  mret stage.
Definition remove_workspace_staging_directory (stage : string) : stm ws unit :=
  catch (run_workspace_utility ["rm"; "-rf"; "--"; stage]);; mret tt.
Definition move_workspace_path (source target : string) : stm ws unit :=
  status ← run_workspace_utility ["mv"; "--"; source; target]; ensure_transfer_success status.

(** ** Into a workspace (transfer.rs) *)

(** What happens to the source on the host's side: its kind ([None]: it is gone), its metadata through
    links, the archive that was written ([None]: it failed) and how the command that receives it ended. *)
Record send := mkSend {
  regular : option bool;
  meta : option (bool * bool * Z);                (** a file, a directory, and its length *)
  receiver : bool;                                (** the receiving command was started *)
  answers : list io;
  inside : Z;
  written : option (Z * Z);
  received : option (option Z);
  restored : bool }.

Definition run_host_regular_file_to_workspace (s : send) (plan : DestinationPlan) (name : string) (bytes : Z) (stage : string) : stm ws (Z * Z) :=
  lift (ok_or (meta s) (plain "failed to stat host source"));;
  assert (receiver s) "failed to start workspace direct file writer";;
  let target := stage +:+ "/" +:+ name in
  lift (sendfile_to_pipe (answers s) (inside s) bytes).1;;
  status ← lift (ok_or (received s) (plain "failed to run workspace direct file writer"));
  ensure_transfer_success status;;
  assert (restored s) "failed to restore workspace permissions";;
  move_workspace_path target (final_path plan name);;
  mret (bytes, 1%Z).
Definition run_host_archive_to_workspace (s : send) (plan : DestinationPlan) (name : string) (stage : string) : stm ws (Z * Z) :=
  m ← lift (ok_or (meta s) (plain "failed to stat host source"));
  let '(is_file, is_dir, len) := m in
  assert (receiver s) "failed to start workspace tar";;
  stats ← lift (ok_or (written s) (plain "failed to archive host source"));
  status ← lift (ok_or (received s) (plain "failed to run workspace tar extractor"));
  ensure_transfer_success status;;
  assert (negb is_file || restored s) "failed to restore workspace permissions";;
  move_workspace_path (stage +:+ "/" +:+ name) (final_path plan name);;
  mret (if is_dir : bool then stats else (len, 1%Z)).
Definition run_host_to_workspace (s : send) (plan : DestinationPlan) (name : string) (bytes : Z) (unique : string) : stm ws (Z * Z) :=
  stage ← create_workspace_staging_directory plan name unique;
  is_regular ← lift (ok_or (regular s) (plain "host source does not exist"));
  r ← catch (if is_regular : bool then run_host_regular_file_to_workspace s plan name bytes stage
             else run_host_archive_to_workspace s plan name stage);
  remove_workspace_staging_directory stage;;
  lift r.

(** [copy_workspace_path_with_connection] into a workspace. *)
Definition copy_to_workspace (fuel : nat) (cwd : path) (hst : host_fs) (src dst : string) (is_running activity gzip : bool)
    (s : send) (unique : string) : stm ws (Z * Z) :=
  lift (validate_direction_paths src dst HostToWorkspace);;
  assert is_running "start workspace first";;
  bytes ← lift (validate_host_source fuel cwd src hst);
  assert activity "failed to record activity";;
  workspace_path_has_symlink dst;;
  let source_is_dir := host_is_dir fuel cwd src hst in
  assert (negb (gzip && negb source_is_dir)) "--gzip is supported only for directory workspace copies";;
  destination_is_dir ← workspace_path_is_directory dst;
  assert (negb (ends_with_slash dst && negb destination_is_dir && negb source_is_dir)) "destination is not an existing directory";;
  name ← lift (source_name src);
  plan ← lift (destination_plan dst name destination_is_dir);
  run_host_to_workspace s plan name bytes unique.
End workspace_side.

(** ** Resolution without links *)

(** No component of [q] below [base] is a link. *)
Fixpoint unlinked (st : host_fs) (base q : path) : bool :=
  match q with [] => true | c :: rest => negb (is_link (st !! (base ++ [c]))) && unlinked st (base ++ [c]) rest end.

Lemma normal_true c : normal c = true → bool_decide (c = "") = false ∧ bool_decide (c = ".") = false ∧ bool_decide (c = "..") = false.
Proof. unfold normal. intros [[?%negb_true_iff ?%negb_true_iff]%andb_true_iff ?%negb_true_iff]%andb_true_iff. done. Qed.
Lemma resolve_unlinked fuel st base q p : forallb normal q = true → unlinked st base q = true →
  resolve fuel st base q = Some p → p = base ++ q.
Proof.
  revert base q. induction fuel as [|fuel IH]; intros base q; [done|]. destruct q as [|c q]; cbn [resolve forallb unlinked].
  - intros _ _ [= <-]. by rewrite app_nil_r.
  - intros [(-> & -> & ->)%normal_true Hq]%andb_true_iff [Hl Hu]%andb_true_iff Hr.
    destruct (st !! (base ++ [c])) as [[]|]; try done; apply IH in Hr; try done; by rewrite Hr, <- app_assoc.
Qed.
Lemma unlinked_app st base q r : unlinked st base (q ++ r) = unlinked st base q && unlinked st (base ++ q) r.
Proof.
  revert base. induction q as [|c q IH]; intros base; cbn [app unlinked]; [by rewrite app_nil_r|].
  rewrite IH, <- app_assoc. by rewrite andb_assoc.
Qed.
Lemma no_links_unlinked h k stage checked rest st : forallb normal (checked ++ rest) = true → unlinked st stage checked = true →
  no_links h k stage checked rest st = true → unlinked st stage (checked ++ rest) = true.
Proof.
  revert checked. induction rest as [|c rest IH]; intros checked Hn Hu; [by rewrite app_nil_r|]. cbn [no_links].
  intros [[_ Hs]%andb_true_iff Hr]%andb_true_iff. unfold lstat in Hs. rewrite last_snoc, removelast_last in Hs.
  destruct (resolve (loops h) st stage checked) as [p|] eqn:E; [|done]. cbn in Hs.
  apply resolve_unlinked in E as ->; [|by rewrite forallb_app in Hn; apply andb_true_iff in Hn as [? _]|done].
  replace (checked ++ c :: rest) with ((checked ++ [c]) ++ rest) in * by (by rewrite <- app_assoc).
  apply IH; [done| |done]. rewrite unlinked_app, Hu. cbn [unlinked andb]. by rewrite Hs.
Qed.

(** ** One entry *)

(** What the [tar] crate promises: it writes an entry at its path and makes directories above it. *)
Definition unpacks_at_path (h : cp_host) : Prop := ∀ e q w, (q, w) ∈ unpack_steps h e →
  (q = path_components (e_path e) ∧ w = own_write e) ∨
  (w = WDir ∧ q ≠ [] ∧ ∃ c r, path_components (e_path e) = q ++ c :: r).

Lemma unlinked_insert st base q k x : is_link (Some x) = false → unlinked st base q = true → unlinked (<[k := x]> st) base q = true.
Proof.
  intros Hx. revert base. induction q as [|c q IH]; intros base; [done|]. cbn [unlinked]. intros [Hc Hq]%andb_true_iff.
  rewrite IH by done. destruct (decide (k = base ++ [c])) as [->|Hne]; [by rewrite lookup_insert_eq, Hx|by rewrite lookup_insert_ne, Hc].
Qed.
Lemma unlinked_insert_beyond st base q k x : length (base ++ q) < length k → unlinked st base q = true → unlinked (<[k := x]> st) base q = true.
Proof.
  revert base. induction q as [|c q IH]; intros base; [done|]. cbn [unlinked]. intros Hlen [Hc Hq]%andb_true_iff.
  rewrite length_app in Hlen. cbn [length] in Hlen. rewrite IH; [|rewrite !length_app; cbn; lia|done].
  rewrite lookup_insert_ne, Hc; [done|]. intros ->. rewrite length_app in Hlen. cbn in Hlen. lia.
Qed.
Lemma write_at_result fuel base q w st st' : forallb normal q = true → unlinked st base (removelast q) = true →
  (∀ d, w = WFile d → unlinked st base q = true) → write_at fuel base q w st = Some st' →
  st' = st ∨ ∃ x, st' = <[base ++ q := x]> st ∧ (is_link (Some x) = true → ∃ t, w = WLink t).
Proof.
  intros Hn Hu Hf. destruct w as [d| |t]; cbn [write_at].
  - intros (p & Hp & Hw)%bind_Some. apply resolve_unlinked in Hp as ->; [|done|by apply (Hf d)].
    right. exists (HFile d). destruct (st !! (base ++ q)) as [[]|]; try done; case_bool_decide; by simplify_eq.
  - intros (c & Hc & (p & Hp & Hw)%bind_Some)%bind_Some. apply last_Some in Hc as [q' ->]. rewrite removelast_last in *.
    apply resolve_unlinked in Hp as ->; [|by rewrite forallb_app in Hn; apply andb_true_iff in Hn as [? _]|done].
    rewrite <- app_assoc in Hw. destruct (st !! (base ++ q' ++ [c])) as [[]|]; try done; [left; congruence|].
    case_bool_decide; simplify_eq. right. by eexists.
  - intros (c & Hc & (p & Hp & Hw)%bind_Some)%bind_Some. apply last_Some in Hc as [q' ->]. rewrite removelast_last in *.
    apply resolve_unlinked in Hp as ->; [|by rewrite forallb_app in Hn; apply andb_true_iff in Hn as [? _]|done].
    rewrite <- app_assoc in Hw. destruct (st !! (base ++ q' ++ [c])) as [[]|]; try done.
    case_bool_decide; simplify_eq. right. eexists. split; [done|]. eauto.
Qed.

Section entry.
Context (h : cp_host) (base : path) (e : tar_entry).
Let Q := path_components (e_path e).
Context (HQ : forallb normal Q = true) (Hne : Q ≠ []).

(** What the check of an entry leaves true while it is unpacked. *)
Definition safe_for (st : host_fs) : Prop :=
  unlinked st base (removelast Q) = true ∧ ((∀ t, own_write e ≠ WLink t) → unlinked st base Q = true).

Lemma step_inside q w st st' : (q = Q ∧ w = own_write e) ∨ (w = WDir ∧ q ≠ [] ∧ ∃ c r, Q = q ++ c :: r) →
  safe_for st → write_at (loops h) base q w st = Some st' →
  safe_for st' ∧ ∀ k, strip_path (base ++ take 1 Q) k = None → st' !! k = st !! k.
Proof.
  intros Hstep [Hu Hown] Hw.
  assert (forallb normal q = true ∧ q ≠ [] ∧ ∃ r, Q = q ++ r) as (Hn & Hq & rest & Eq).
  { destruct Hstep as [[-> _]|(_ & Hq & c & r & Eq)]; [split_and!; [done..|]; exists []; by rewrite app_nil_r|].
    rewrite Eq, forallb_app in HQ. apply andb_true_iff in HQ as [? _]. eauto. }
  assert (unlinked st base (removelast q) = true) as Hu'.
  { destruct Hstep as [[-> _]|(_ & _ & c & r & Eq')]; [done|]. destruct (exists_last Hq) as (q0 & c0 & ->).
    rewrite removelast_last. rewrite Eq', <- app_assoc, removelast_app in Hu by done. rewrite unlinked_app in Hu.
    by apply andb_true_iff in Hu as [? _]. }
  assert (∀ d, w = WFile d → unlinked st base q = true) as Hfile.
  { intros d ->. destruct Hstep as [[-> Eo]|(? & _)]; [|done]. apply Hown. intros t. by rewrite <- Eo. }
  destruct (write_at_result _ _ _ _ _ _ Hn Hu' Hfile Hw) as [->|(x & -> & Hx)]; [done|]. split.
  - destruct (is_link (Some x)) eqn:El.
    + destruct (Hx eq_refl) as [t ->]. destruct Hstep as [[-> Eo]|(? & _)]; [|done]. split.
      * apply unlinked_insert_beyond; [|done]. destruct (exists_last Hne) as (q0 & c0 & E). rewrite E, removelast_last, !length_app. cbn. lia.
      * intros Hno. by destruct (Hno t).
    + split; [by apply unlinked_insert|]. intros Hno. by apply unlinked_insert, Hown.
  - intros k Hk. apply lookup_insert_ne. intros <-. rewrite Eq in Hk. destruct q as [|c q]; [done|]. cbn [app take] in Hk.
    replace (base ++ c :: q) with ((base ++ [c]) ++ q) in Hk by (by rewrite <- app_assoc). by rewrite strip_path_app in Hk.
Qed.
Lemma writes_inside l st : (∀ q w, (q, w) ∈ l → (q = Q ∧ w = own_write e) ∨ (w = WDir ∧ q ≠ [] ∧ ∃ c r, Q = q ++ c :: r)) →
  safe_for st → ∀ k, strip_path (base ++ take 1 Q) k = None → (unpack_writes h base l st).1 !! k = st !! k.
Proof.
  revert st. induction l as [|[q w] l IH]; intros st Hl Hs k Hk; [done|]. cbn [unpack_writes].
  destruct (write_at (loops h) base q w st) as [st'|] eqn:E; [|done].
  destruct (step_inside q w st st') as [Hs' Hk']; [apply Hl, list_elem_of_here|done|done|].
  rewrite IH; [by apply Hk'| |done|done]. intros q' w' Hin. apply Hl. by apply list_elem_of_further.
Qed.
Lemma unpack_inside n st : unpacks_at_path h → safe_for st →
  ∀ k, strip_path (base ++ take 1 Q) k = None → (unpack_in h n base e st).1 !! k = st !! k.
Proof.
  intros Hp Hs k Hk. unfold unpack_in. destruct (unpack_stops h n) as [m|]; cbn [fst]; apply writes_inside; try done.
  - intros q w Hin%elem_of_take. destruct Hin as (i & Hin%list_elem_of_lookup_2 & _). by apply Hp.
  - intros q w Hin. by apply Hp.
Qed.
End entry.

(** ** A whole archive *)

Lemma validate_archive_path_Ok p name q : validate_archive_path p name = Ok q →
  q = path_components p ∧ forallb normal q = true ∧ q ≠ [] ∧ take 1 q = [name].
Proof.
  unfold validate_archive_path. destruct (path_components p) as [|root rest]; [done|].
  destruct (normal root) eqn:Hr; cbn [negb]; [|done]. case_bool_decide as E; cbn [negb]; [|done].
  destruct (forallb normal rest) eqn:Hn; [|done]. intros [= <-]. cbn [forallb take]. rewrite Hr, Hn. by subst.
Qed.
Lemma checked_safe h n base e st : forallb normal (path_components (e_path e)) = true → path_components (e_path e) ≠ [] →
  ensure_no_symlink_ancestors h n base (path_components (e_path e)) st = true → safe_for base e st.
Proof.
  intros Hn Hne Hc. apply no_links_unlinked in Hc; [|done..]. cbn [app] in Hc. split; [|done].
  destruct (exists_last Hne) as (q & c & E). rewrite E in *. rewrite removelast_last. rewrite unlinked_app in Hc.
  by apply andb_true_iff in Hc as [? _].
Qed.
Lemma preserves_given {S A B} (P : S → Prop) (a : A) (f : A → stm S B) : preserves P (f a) → preserves P (lift (Ok a) ≫= f).
Proof. done. Qed.
Lemma preserves_at {S B} (P : S → Prop) (f : S → stm S B) : (∀ st, P st → P (f st st).2) → preserves P (@get S ≫= f).
Proof. done. Qed.
Lemma extract_inside (h : cp_host) (stage : path) (name : string) (n : nat) (l : list (option tar_entry)) (seen : list path) (bytes nfiles : Z) (st0 : host_fs) : unpacks_at_path h →
  preserves (λ st, ∀ k, strip_path (stage ++ [name]) k = None → st !! k = st0 !! k) (extract_loop h n stage name l seen bytes nfiles).
Proof.
  intros Hp. revert n seen bytes nfiles. induction l as [|[e|] l IH]; intros n seen bytes nfiles; cbn [extract_loop].
  - apply preserves_bind; [apply preserves_get|]. intros st. destruct (lstat _ _ _ _) as [[]|]; [apply preserves_ret|apply preserves_lift..].
  - destruct (validate_archive_path (e_path e) name) as [q|] eqn:Eq; [|by intros st Hst].
    apply validate_archive_path_Ok in Eq as (-> & Hn & Hne & Ht). apply preserves_given.
    apply preserves_bind; [apply preserves_lift|intros _]. apply preserves_bind; [apply preserves_assert|intros _].
    apply preserves_at. intros st Hst. unfold mbind at 1, stm_bind at 1, assert at 1.
    destruct (ensure_no_symlink_ancestors h n stage _ st) eqn:Ec; [|done]. unfold mret at 1, stm_ret at 1.
    apply checked_safe in Ec; [|done..]. pose proof (unpack_inside h stage e Hn Hne n st Hp Ec) as Hin. rewrite Ht in Hin.
    destruct (unpack_in h n stage e st) as [st1 ok]. cbn [fst] in Hin. unfold mbind at 1, stm_bind at 1, modify at 1.
    refine (preserves_bind _ _ _ (preserves_assert _ _ _) (λ _, IH _ _ _ _) st1 _).
    intros k Hk. by rewrite Hin, Hst.
  - apply preserves_lift.
Qed.
Lemma extract_Ok (h : cp_host) (stage : path) (name : string) (n : nat) (l : list (option tar_entry)) (seen : list path) (bytes nfiles : Z) (st : host_fs) r st' : extract_loop h n stage name l seen bytes nfiles st = (Ok r, st') →
  is_Some (st' !! (stage ++ [name])).
Proof.
  revert n seen bytes nfiles st. induction l as [|[e|] l IH]; intros n seen bytes nfiles st; cbn [extract_loop].
  - intros (st1 & ? & [-> ->]%get_Ok & H)%stm_bind_Ok. unfold lstat in H. cbn in H.
    destruct (resolve (loops h) st stage []) as [p|] eqn:E; cbn in H; [|by apply throw_Ok in H].
    apply resolve_unlinked in E as ->; [|done..]. rewrite app_nil_r in H.
    destruct (st !! (stage ++ [name])) as [x|] eqn:Ex; [|by apply throw_Ok in H]. apply mret_Ok in H as [_ ->]. rewrite Ex. eauto.
  - intros (q & ? & [_ ->]%lift_Ok & H)%stm_bind_Ok. apply stm_bind_Ok in H as (? & ? & [_ ->]%lift_Ok & H).
    apply stm_bind_Ok in H as (? & ? & (_ & _ & ->)%assert_Ok & H). apply stm_bind_Ok in H as (st1 & ? & [-> ->]%get_Ok & H).
    apply stm_bind_Ok in H as (? & ? & (_ & _ & ->)%assert_Ok & H). destruct (unpack_in h n stage e st) as [st1 ok].
    apply stm_bind_Ok in H as (? & ? & [_ ->]%modify_Ok & H). apply stm_bind_Ok in H as (? & ? & (_ & _ & ->)%assert_Ok & H).
    by apply IH in H.
  - by intros ?%throw_Ok.
Qed.

(** ** Out of a workspace *)

Lemma make_stage_result h k attempts parent st r st' : make_stage h k attempts parent st = (r, st') →
  match r with
  | Ok stage => ∃ i, stage = parent ++ [".enclave-cp-" +:+ uuid h i] ∧ st !! stage = None ∧ st' = <[stage := HDir]> st
  | Err _ => st' = st
  end.
Proof.
  revert k. induction attempts as [|n IH]; intros k; cbn [make_stage]; [by intros [= <- <-]|].
  unfold mbind at 1, stm_bind at 1, get at 1. destruct (mkdir_error h k); [by intros [= <- <-]|].
  case_bool_decide as E; [apply IH|]. unfold mbind, stm_bind, modify, mret, stm_ret. intros [= <- <-].
  exists k. split_and!; [done|by apply eq_None_not_Some|done].
Qed.
Lemma staging_create_result h parent st r st' : staging_create h parent st = (r, st') →
  match r with
  | Ok stage => ∃ d i, open_below h [] (path_components parent) st = Some d ∧
      stage = d ++ [".enclave-cp-" +:+ uuid h i] ∧ st !! stage = None ∧ st' = <[stage := HDir]> st
  | Err _ => st' = st
  end.
Proof.
  unfold staging_create, open_host_directory, mbind, stm_bind, assert, get.
  destruct (starts_with "/" parent); [|by intros [= <- <-]]. unfold mret at 1, stm_ret at 1.
  destruct (open_below h [] (path_components parent) st) as [d|]; [|by intros [= <- <-]]. unfold mret, stm_ret.
  intros H%make_stage_result. destruct r as [stage|]; [|done]. destruct H as (i & -> & Hn & ->). eauto 6.
Qed.

Lemma strip_self (p : path) : strip_path p p = Some [].
Proof. pose proof (strip_path_app p []) as H. by rewrite app_nil_r in H. Qed.
Lemma strip_sibling (d : path) a b : a ≠ b → strip_path (d ++ [a]) (d ++ [b]) = None.
Proof. intros Hab. apply strip_path_None. intros q E. rewrite <- app_assoc in E. by simplify_list_eq. Qed.
Lemma strip_below (p q k : path) : strip_path p k = None → strip_path (p ++ q) k = None.
Proof. rewrite !strip_path_None. intros H r ->. apply (H (q ++ r)). by rewrite app_assoc. Qed.

Lemma commit_result h d c name target st r st' : staging_commit h (d ++ [c]) name target st = (r, st') →
  match r with
  | Ok _ => st !! (d ++ [target]) = None ∧ is_Some (st !! ((d ++ [c]) ++ [name])) ∧
      (∀ k, strip_path (d ++ [c]) k = None → strip_path (d ++ [target]) k = None → st' !! k = st !! k) ∧
      (target ≠ c → subtree (d ++ [target]) st' = subtree ((d ++ [c]) ++ [name]) st)
  | Err _ => st' = st
  end.
Proof.
  unfold staging_commit, ensure_host_entry_absent, mbind, stm_bind, get, assert. rewrite removelast_last.
  case_bool_decide as Ht; [|by intros [= <- <-]]. unfold mret, stm_ret, modify.
  destruct (negb (rename_refused h)); [|by intros [= <- <-]]. case_bool_decide as Hn; [|by intros [= <- <-]]. cbn [andb].
  intros [= <- <-]. set (m := move _ _ st).
  assert (∀ k, k ≠ d ++ [c] → (if bool_decide (subtree (d ++ [c]) m = {[ [] := HDir ]}) then delete (d ++ [c]) m else m) !! k = m !! k) as Hd.
  { intros k Hk. case_bool_decide; [by apply lookup_delete_ne|done]. }
  split_and!; [done|done| |].
  - intros k H1 H2. rewrite Hd by (intros ->; by rewrite strip_self in H1).
    unfold m, move. rewrite lookup_graft, H2, !lookup_without, H2. by rewrite (strip_below _ [name] k H1).
  - intros Hne. rewrite <- (subtree_move_to ((d ++ [c]) ++ [name]) (d ++ [target]) st). apply subtree_ext. intros q.
    apply Hd. rewrite <- app_assoc. intros E. by simplify_list_eq.
Qed.

Lemma drop_result h stage st : let st' := (staging_drop h stage st).2 in
  (∀ k, strip_path stage k = None → st' !! k = st !! k) ∧ ((∀ k, kept_of h k = false) → ∀ q, st' !! (stage ++ q) = None).
Proof.
  cbn. split.
  - intros k Hk. destruct (st !! k) as [x|] eqn:E.
    + apply map_lookup_filter_Some. split; [done|by left].
    + apply map_lookup_filter_None. by left.
  - intros Hc q. apply map_lookup_filter_None. right. intros x _. cbn. rewrite strip_path_app, Hc. by intros [[=]|[=]].
Qed.
Lemma extract_confined h stage name st : unpacks_at_path h →
  let st1 := (extract_workspace_archive_with_stats h stage name st).2 in ∀ k, strip_path (stage ++ [name]) k = None → st1 !! k = st !! k.
Proof. intros Hp. exact (extract_inside h stage name 0 (archive h) [] 0 0 st Hp st (λ k _, eq_refl)). Qed.

Lemma transfer_result h d c plan name st r st2 : unpacks_at_path h → transfer_staged h (d ++ [c]) plan name st = (r, st2) →
  match r with
  | Err _ => ∀ k, strip_path (d ++ [c]) k = None → st2 !! k = st !! k
  | Ok stats => ∃ st1, extract_workspace_archive_with_stats h (d ++ [c]) name st = (Ok stats, st1) ∧
      (∀ k, strip_path ((d ++ [c]) ++ [name]) k = None → st1 !! k = st !! k) ∧ is_Some (st1 !! ((d ++ [c]) ++ [name])) ∧
      staging_commit h (d ++ [c]) name (final_name plan name) st1 = (Ok tt, st2)
  end.
Proof.
  intros Hp. pose proof (extract_confined h (d ++ [c]) name st Hp) as Hx.
  pose proof (λ x st1, extract_Ok h (d ++ [c]) name 0 (archive h) [] 0 0 st x st1) as Hk.
  unfold transfer_staged, mbind, stm_bind, assert, catch, lift, mret, stm_ret, throw, lift. destruct (spawned h); [|by intros [= <- <-]].
  assert (∀ k, strip_path (d ++ [c]) k = None → (extract_workspace_archive_with_stats h (d ++ [c]) name st).2 !! k = st !! k) as Hx'
    by (intros k Hout; by apply Hx, strip_below).
  change (extract_loop h 0 (d ++ [c]) name (archive h) [] 0 0 st) with (extract_workspace_archive_with_stats h (d ++ [c]) name st) in Hk.
  destruct (extract_workspace_archive_with_stats h (d ++ [c]) name st) as [x st1]. cbn [snd] in Hx, Hx'.
  destruct (tar_exit h) as [[]|]; [|by intros [= <- <-]..]. destruct x as [stats|e]; cbn [with_context]; [|by intros [= <- <-]].
  destruct (staging_commit h (d ++ [c]) name (final_name plan name) st1) as [[[]|e] st3] eqn:E; intros [= <- <-].
  - exists st1. split_and!; [done|done|by eapply Hk|done].
  - apply commit_result in E as ->. exact Hx'.
Qed.

Lemma run_out_confined (h : cp_host) (plan : DestinationPlan) (name : string) (st : host_fs) :
  unpacks_at_path h →
  let '(res, st') := run_workspace_to_host h plan name st in
  match res with
  | Err _ => st' = st ∨ ∃ d i,
      let stage := d ++ [".enclave-cp-" +:+ uuid h i] in
      st !! stage = None ∧ (∀ k, strip_path stage k = None → st' !! k = st !! k) ∧
      ((∀ k, kept_of h k = false) → ∀ q, st' !! (stage ++ q) = None)
  | Ok stats => ∃ d i st1,
      let stage := d ++ [".enclave-cp-" +:+ uuid h i] in
      let to := d ++ [final_name plan name] in
      open_below h [] (path_components (plan_parent plan)) st = Some d ∧ st !! stage = None ∧ st !! to = None ∧
      (∀ k, strip_path stage k = None → strip_path to k = None → st' !! k = st !! k) ∧
      extract_workspace_archive_with_stats h stage name (<[stage := HDir]> st) = (Ok stats, st1) ∧
      subtree to st' = subtree (stage ++ [name]) st1 ∧ is_Some (st' !! to)
  end.
Proof.
  intros Hp. unfold run_workspace_to_host. unfold mbind at 1, stm_bind at 1.
  destruct (staging_create h (plan_parent plan) st) as [[stage|e] st0] eqn:E; pose proof (staging_create_result _ _ _ _ _ E) as Hs; [|by left].
  destruct Hs as (d & i & Hd & -> & Hn & ->). set (c := ".enclave-cp-" +:+ uuid h i) in *.
  assert (∀ k, strip_path (d ++ [c]) k = None → <[d ++ [c] := HDir]> st !! k = st !! k) as H0.
  { intros k Hk. apply lookup_insert_ne. intros <-. by rewrite strip_self in Hk. }
  unfold mbind at 1, stm_bind at 1, catch at 1.
  destruct (transfer_staged h (d ++ [c]) plan name (<[d ++ [c] := HDir]> st)) as [[stats|e] st2] eqn:Et;
    apply transfer_result in Et; try done.
  - destruct Et as (st1 & Hx & Hc & Hk & (Ht & _ & Hrest & Hsub)%commit_result). cbn beta iota.
    assert (strip_path ((d ++ [c]) ++ [name]) (d ++ [c]) = None) as Hself.
    { apply strip_path_None. intros q Eq. apply (f_equal length) in Eq. rewrite !length_app in Eq. cbn in Eq. lia. }
    assert (final_name plan name ≠ c) as Hne.
    { intros Ec. rewrite Ec, Hc, lookup_insert_eq in Ht by done. done. }
    assert (strip_path (d ++ [c]) (d ++ [final_name plan name]) = None) as Hsib by (by apply strip_sibling).
    exists d, i, st1. fold c. split_and!; [done|done| | |done|by apply Hsub|].
    + rewrite <- Ht, Hc, H0; [done|done|by apply strip_below].
    + intros k H1 H2. rewrite Hrest, Hc, H0; [done|done|by apply strip_below|done|done].
    + specialize (Hsub Hne). apply (f_equal (lookup [])) in Hsub. rewrite !lookup_subtree, !app_nil_r in Hsub. by rewrite Hsub.
  - right. exists d, i. fold c. destruct (drop_result h (d ++ [c]) st2) as [H1 H2].
    unfold mbind, stm_bind, staging_drop, modify, lift in *. cbn in H1, H2. cbn beta iota.
    split_and!; [done| |done]. intros k Hk. by rewrite H1, Et, H0.
Qed.

(** C18: a copy out of a workspace stays where it belongs, whatever archive the workspace sends: with any
    paths, links, types and order of entries, and whatever fails on the way, nothing of the host
    changes but a staging directory that was not there before and, on success, the destination.
    A success never replaces anything: the destination was free, in a directory reached without
    following a link, and now holds what was unpacked.  After a failure the staging directory is
    gone, if removing it works. *)
Theorem copy_out_confined (h : cp_host) (cwd : path) (src dst : string) (w : ws_source) (gzip : bool) (st : host_fs) :
  unpacks_at_path h →
  let '(res, st') := copy_from_workspace h cwd src dst w gzip st in
  match res with
  | Err _ => st' = st ∨ ∃ d i,
      let stage := d ++ [".enclave-cp-" +:+ uuid h i] in
      st !! stage = None ∧ (∀ k, strip_path stage k = None → st' !! k = st !! k) ∧
      ((∀ k, kept_of h k = false) → ∀ q, st' !! (stage ++ q) = None)
  | Ok stats => ∃ name plan d i st1,
      let stage := d ++ [".enclave-cp-" +:+ uuid h i] in
      let to := d ++ [final_name plan name] in
      source_name src = Ok name ∧ destination_plan dst name (host_is_dir (loops h) cwd dst st) = Ok plan ∧
      open_below h [] (path_components (plan_parent plan)) st = Some d ∧ st !! stage = None ∧ st !! to = None ∧
      (∀ k, strip_path stage k = None → strip_path to k = None → st' !! k = st !! k) ∧
      extract_workspace_archive_with_stats h stage name (<[stage := HDir]> st) = (Ok stats, st1) ∧
      subtree to st' = subtree (stage ++ [name]) st1 ∧ is_Some (st' !! to)
  end.
Proof.
  intros Hp. unfold copy_from_workspace, mbind, stm_bind, lift, assert, get, throw, lift, mret, stm_ret.
  destruct (validate_direction_paths src dst WorkspaceToHost); [|by left]. destruct (running w); [|by left].
  destruct (validate_host_destination (loops h) cwd dst st); [|by left]. destruct (touched w); [|by left].
  destruct (plain_source w); [|by left]. destruct (ok_or _ _) as [is_dir|]; [|by left].
  destruct (negb (gzip && _)); [|by left]. destruct (negb (_ && _ && _)); [|by left].
  destruct (source_name src) as [name|]; [|by left]. destruct (destination_plan dst name _) as [plan|] eqn:Ed; [|by left].
  pose proof (run_out_confined h plan name st Hp) as Hr. destruct (run_workspace_to_host h plan name st) as [[stats|e] st']; [|done].
  destruct Hr as (d & i & st1 & Hr). exists name, plan, d, i, st1. done.
Qed.

(** ** Into a workspace *)

Create HintDb copy_bounded.
Section copy_in.
Context (h : ws_host).

(** The cache of program choices never grows beyond its limit. *)
Lemma cache_bounded key b c : (c ≠ ∅ → is_Some (c !! oldest h c)) → base.size c ≤ UTILITY_CACHE_LIMIT →
  base.size (cache_utility_choice h key b c) ≤ UTILITY_CACHE_LIMIT.
Proof.
  intros Hold Hs. unfold cache_utility_choice. destruct (c !! key) as [x|] eqn:Ek.
  - rewrite (bool_decide_true (is_Some (Some x))) by eauto. rewrite andb_false_r, map_size_insert, Ek. done.
  - rewrite bool_decide_false by (by intros [? [=]]). rewrite andb_true_r. destruct (UTILITY_CACHE_LIMIT <=? base.size c) eqn:El.
    + apply Nat.leb_le in El. destruct Hold as [y Hy]; [intros ->; rewrite map_size_empty in El; unfold UTILITY_CACHE_LIMIT in El; lia|].
      assert (delete (oldest h c) c !! key = None) as Hd by (rewrite lookup_delete_None; by right).
      rewrite map_size_insert, Hd, map_size_delete, Hy. unfold UTILITY_CACHE_LIMIT in *. lia.
    + apply Nat.leb_gt in El. rewrite map_size_insert, Ek. lia.
Qed.

Abbreviation bounded := (λ st : ws, base.size (cache st) ≤ UTILITY_CACHE_LIMIT).
Context (Hold : ∀ c : utility_cache, c ≠ ∅ → is_Some (c !! oldest h c)).
Lemma spawn_bounded cmd : preserves bounded (spawn_and_wait h cmd).
Proof. intros st Hst. unfold spawn_and_wait. by destruct (exits h (length (ran st)) cmd). Qed.
Lemma utility_bounded cmd : preserves bounded (run_workspace_utility h cmd).
Proof.
  apply preserves_bind; [apply preserves_get|]. intros st. destruct (utility_uses_busybox _ _); [apply spawn_bounded|].
  apply preserves_bind; [apply spawn_bounded|]. intros status. destruct (negb _); apply preserves_bind.
  1, 3: apply preserves_modify; intros st' Hst'; apply cache_bounded; [apply Hold|done].
  - intros _. apply preserves_ret.
  - intros _. apply spawn_bounded.
Qed.
Lemma catch_bounded {A} (m : stm ws A) : preserves bounded m → preserves bounded (catch m).
Proof. intros Hm st Hst. unfold catch. specialize (Hm st Hst). by destruct (m st). Qed.
Hint Resolve utility_bounded : copy_bounded.
Ltac bounded :=
  repeat first [ apply preserves_ret | apply preserves_assert | apply preserves_lift | apply preserves_get
               | solve [auto with copy_bounded] | apply catch_bounded | apply preserves_bind; [|intros] | case_match ].
Lemma exists_bounded p : preserves bounded (workspace_path_exists h p).
Proof. unfold workspace_path_exists, throw. bounded. Qed.
Lemma prefixes_bounded prefix l : preserves bounded (check_prefixes h prefix l).
Proof. revert prefix. induction l; intros prefix; cbn [check_prefixes]; bounded. Qed.
Hint Resolve exists_bounded prefixes_bounded : copy_bounded.
Lemma run_in_bounded s plan name bytes unique : preserves bounded (run_host_to_workspace h s plan name bytes unique).
Proof.
  unfold run_host_to_workspace, create_workspace_staging_directory, run_host_regular_file_to_workspace,
    run_host_archive_to_workspace, remove_workspace_staging_directory, move_workspace_path, ensure_transfer_success. bounded.
Qed.
Hint Resolve run_in_bounded : copy_bounded.
(** Every request leaves the cache within its limit. *)
Lemma copy_in_bounded fuel cwd hst src dst is_running activity gzip s unique :
  preserves bounded (copy_to_workspace h fuel cwd hst src dst is_running activity gzip s unique).
Proof. unfold copy_to_workspace, workspace_path_has_symlink, workspace_path_is_directory, throw. bounded. Qed.

(** A utility runs as itself or through busybox. *)
Lemma utility_last cmd st r st' : run_workspace_utility h cmd st = (r, st') →
  head (ran st') = Some cmd ∨ head (ran st') = Some ("/bin/busybox" :: cmd).
Proof.
  assert (∀ c st r st', spawn_and_wait h c st = (r, st') → ran st' = c :: ran st) as Hs.
  { intros c st0 r0 st1. unfold spawn_and_wait. by destruct (exits h _ c); intros [= <- <-]. }
  unfold run_workspace_utility, run_busybox_utility, mbind, stm_bind, get. destruct (utility_uses_busybox _ _).
  { intros ->%Hs. by right. }
  destruct (spawn_and_wait h cmd st) as [[status|e] st1] eqn:E; apply Hs in E.
  - destruct (negb _); unfold modify, mret, stm_ret; [intros [= <- <-]; left; cbn; by rewrite E|]. intros ->%Hs. by right.
  - intros [= <- <-]. left. by rewrite E.
Qed.
(** However a copy into a workspace ends, once its staging directory was made and the source was found the
    last command removes it. *)
Lemma copy_in_cleans_up s plan name bytes unique st stage st1 : regular s ≠ None →
  create_workspace_staging_directory h plan name unique st = (Ok stage, st1) →
  let st' := (run_host_to_workspace h s plan name bytes unique st).2 in
  head (ran st') = Some ["rm"; "-rf"; "--"; stage] ∨ head (ran st') = Some ["/bin/busybox"; "rm"; "-rf"; "--"; stage].
Proof.
  intros Hr E. unfold run_host_to_workspace, remove_workspace_staging_directory, catch, lift, mbind, stm_bind, mret, stm_ret. rewrite E.
  destruct (regular s) as [r|]; [|done]. cbn [ok_or].
  match goal with |- context [let (x, s') := ?m st1 in _] => destruct (m st1) as [r' st2] end.
  destruct (run_workspace_utility h ["rm"; "-rf"; "--"; stage] st2) as [r2 st3] eqn:Er. apply utility_last in Er. exact Er.
Qed.
End copy_in.

(** ** Streaming *)

Lemma stream_loop_moved fallback answers inside moved expected : (0 ≤ moved ≤ expected)%Z → (expected ≤ u64_max)%Z →
  let '(r, inside', moved', _) := stream_loop fallback answers inside moved expected in
  (moved ≤ moved' ≤ expected)%Z ∧ (inside' = inside - (moved' - moved))%Z ∧ (r = Ok true → moved' = expected) ∧
  (fallback = false → r ≠ Ok false).
Proof.
  revert inside moved. induction answers as [|a answers IH]; intros inside moved Hm He; cbn [stream_loop];
    destruct (expected <=? moved)%Z eqn:El; [apply Z.leb_le in El; split_and!; (lia || done)| |apply Z.leb_le in El; split_and!; (lia || done)|].
  { split_and!; (lia || done). }
  apply Z.leb_gt in El. destruct a as [n| | |].
  - destruct (_ <=? 0)%Z eqn:Ea; [split_and!; (lia || done)|]. apply Z.leb_gt in Ea.
    set (amount := Z.min (Z.max 1 n) (Z.min inside (Z.min (expected - moved) STREAM_STEP))) in *.
    assert (0 < amount ≤ expected - moved)%Z as Ham by (unfold amount; lia).
    assert (sat_add64 moved amount = moved + amount)%Z as -> by (unfold sat_add64; lia).
    specialize (IH (inside - amount)%Z (moved + amount)%Z ltac:(lia) He).
    destruct (stream_loop fallback answers _ _ expected) as [[[r i] m] l]. destruct IH as (H1 & H2 & H3 & H4). split_and!; (lia || done).
  - by apply IH.
  - split_and!; [lia|lia|lia|destruct fallback; by intros [=]|by intros ->].
  - split_and!; (lia || done).
Qed.
(** A file that is streamed successfully arrives whole: all of it by one call, or all of it after a first
    part when the other call has to take over. *)
Lemma streamed_whole answers inside expected received : (0 ≤ expected ≤ u64_max)%Z →
  sendfile_to_pipe answers inside expected = (Ok tt, received) → (expected ≤ received ≤ 2 * expected)%Z.
Proof.
  intros He. unfold sendfile_to_pipe, splice_to_pipe.
  pose proof (stream_loop_moved true answers inside 0 expected ltac:(lia) ltac:(lia)) as H1.
  destruct (stream_loop true answers inside 0 expected) as [[[r i] m] rest]. destruct H1 as (Hm & _ & Hd & _).
  destruct r as [[]|e]; [| |by intros [=]].
  - intros [= <-]. rewrite Hd by done. lia.
  - pose proof (stream_loop_moved false rest i 0 expected ltac:(lia) ltac:(lia)) as H2.
    destruct (stream_loop false rest i 0 expected) as [[[r' i'] m'] rest']. destruct H2 as (Hm' & _ & Hd' & Hf).
    destruct r' as [[]|e]; [|by specialize (Hf eq_refl)|by intros [=]]. intros [= <-]. rewrite Hd' by done. lia.
Qed.
(** When [splice] stops being supported after a first part, the fallback expects the whole size again: the
    pipe received all ten bytes of the file, and the copy fails. *)
Lemma partial_splice_fails :
  let '(r, received) := sendfile_to_pipe [IoMove 4; IoUnsupported; IoMove 6; IoMove 1] 10 10 in
  (∃ e, r = Err e) ∧ received = 10%Z.
Proof. vm_compute. eauto. Qed.

(** ** Waiting *)

Lemma poll_pidfd_result wait_works status turns c : wait_works = true → armed c = true →
  let '(r, c') := poll_pidfd wait_works status turns c in
  armed c' = true ∧ match r with
  | Ok None => c' = c ∧ Woken true true ∉ turns ∧ Woken true false ∉ turns ∧ Woken false true ∉ turns
  | Ok (Some s) => s = status ∧ reaped c' = true ∧ killed c' = killed c ∧ pidfds c' = pred (pidfds c)
  | Err _ => pidfds c' = pred (pidfds c)
  end.
Proof.
  intros -> Ha. induction turns as [|[| |[] []] turns IH]; cbn [poll_pidfd]; try by rewrite ?Ha.
  - split_and!; [done|done|by apply not_elem_of_nil..].
  - destruct (poll_pidfd true status turns c) as [[[s|]|e] c']; destruct IH as [H1 H2]; (split; [done|]); [done| |done].
    destruct H2 as (H2 & H3 & H4 & H5). split_and!; [done|rewrite elem_of_cons; by intros [[=]|?]..].
  - destruct (poll_pidfd true status turns c) as [[[s|]|e] c']; destruct IH as [H1 H2]; (split; [done|]); [done| |done].
    destruct H2 as (H2 & H3 & H4 & H5). split_and!; [done|rewrite elem_of_cons; by intros [[=]|?]..].
Qed.
Lemma poll_child_result wait_works status turns c : wait_works = true → armed c = true →
  let '(r, c') := poll_child wait_works status turns c in
  armed c' = true ∧ pidfds c' = pidfds c ∧ match r with
  | Ok None => c' = c
  | Ok (Some s) => s = status ∧ reaped c' = true ∧ killed c' = killed c
  | Err _ => True
  end.
Proof.
  intros -> Ha. induction turns as [|[| |[] []] turns IH]; cbn [poll_child]; try by rewrite ?Ha.
Qed.
(** However the wait for a command ends, the command is reaped, no descriptor of it stays open, and only a
    command whose result is not reported was killed. *)
Lemma child_never_left wait_works status client has_pidfd stderr_read turns : wait_works = true →
  let '(r, c) := wait_child_output wait_works status client has_pidfd stderr_read turns (mkChild true false false 0) in
  match r with
  | Ok None => reaped c = false ∧ killed c = false
  | Ok (Some s) => s = status ∧ reaped c = true ∧ killed c = false ∧ pidfds c = 0
  | Err _ => reaped c = true ∧ pidfds c = 0
  end.
Proof.
  intros Hw. unfold wait_child_output, wait_for_child_or_disconnect. destruct client; cbn [negb].
  2: { subst wait_works. by destruct stderr_read. }
  destruct has_pidfd.
  - unfold modify, mbind at 1, stm_bind at 1. cbn [armed killed reaped pidfds].
    pose proof (poll_pidfd_result wait_works status turns (mkChild true false false 1) Hw eq_refl) as Hp.
    destruct (poll_pidfd wait_works status turns _) as [[[s|]|e] c]; destruct Hp as [Ha Hp]; cbn [pidfds pred] in Hp.
    + destruct Hp as (-> & Hr & Hk & Hf). destruct stderr_read; cbn; [done|]. unfold guard_drop. by rewrite Ha, Hr, Hw.
    + destruct Hp as [-> _]. done.
    + unfold guard_drop. rewrite Ha, Hw, orb_true_r. done.
  - pose proof (poll_child_result wait_works status turns (mkChild true false false 0) Hw eq_refl) as Hp.
    destruct (poll_child wait_works status turns _) as [[[s|]|e] c]; destruct Hp as (Ha & Hf & Hp); cbn [pidfds] in Hf.
    + destruct Hp as (-> & Hr & Hk). destruct stderr_read; cbn; [done|]. unfold guard_drop. by rewrite Ha, Hr, Hw.
    + by rewrite Hp.
    + unfold guard_drop. rewrite Ha, Hw, orb_true_r. done.
Qed.

(** ** Examples *)

(** Directories above an entry, then the entry. *)
Definition plain_steps (e : tar_entry) : list (path * tar_write) :=
  let q := path_components (e_path e) in
  ((λ n, (take (S n) q, WDir)) <$> seq 0 (length q - 1)) ++ [(q, own_write e)].
Lemma plain_steps_at_path h : unpack_steps h = plain_steps → unpacks_at_path h.
Proof.
  intros Eh e q w. rewrite Eh. unfold plain_steps. set (Q := path_components (e_path e)).
  intros [(n & [= -> ->] & Hn)%list_elem_of_fmap|[= -> ->]%list_elem_of_singleton]%elem_of_app; [right|by left].
  apply list_elem_of_In, in_seq in Hn. split; [done|]. split.
  - intros E. apply (f_equal length) in E. rewrite length_take in E. cbn [length] in E. lia.
  - destruct (drop (S n) Q) as [|c r] eqn:Ed.
    + apply (f_equal length) in Ed. rewrite length_drop in Ed. cbn [length] in Ed. lia.
    + exists c, r. by rewrite <- Ed, take_drop.
Qed.

Definition sample_cp (l : list tar_entry) : cp_host :=
  mkCp 64 (λ _, "0f") (λ _, false) (λ _, true) plain_steps (λ _, None) (λ _ _, false) true (Some <$> l) (Some true) false (λ _, false).
Definition sample_source : ws_source := mkSource true true true (Some true).
Definition sample_host_fs : host_fs :=
  list_to_map [([], HDir); (["etc"], HDir); (["etc"; "passwd"], HFile "root"); (["srv"], HDir); (["srv"; "in"], HDir)].
(** A link to a directory of the host, and an entry below it. *)
Definition hostile : list tar_entry :=
  [mkEntry "out/" TDirectory 0 "" []; mkEntry "out/x" TSymlink 0 "" ["";"etc"]; mkEntry "out/x/passwd" TRegular 4 "evil" []].
Definition honest_archive : list tar_entry :=
  [mkEntry "out/" TDirectory 0 "" []; mkEntry "out/a/b" TRegular 3 "abc" []; mkEntry "out/l" TSymlink 0 "" [".."; ".."; "etc"]].

Lemma copy_out_confined_witness :
  let run l := copy_from_workspace (sample_cp l) [] "/home/out" "/srv/in" sample_source false sample_host_fs in
  (run hostile).1 ≠ Ok (4, 1)%Z ∧ (run hostile).2 !! ["etc"; "passwd"] = Some (HFile "root") ∧
  (run honest_archive).1 = Ok (3, 1)%Z ∧ (run honest_archive).2 !! ["etc"; "passwd"] = Some (HFile "root") ∧
  (run honest_archive).2 !! ["srv"; "in"; "out"; "a"; "b"] = Some (HFile "abc").
Proof.
  cbn zeta. split; [by vm_compute|]. split; [|split; [by vm_compute|split; [|by vm_compute]]].
  - pose proof (copy_out_confined (sample_cp hostile) [] "/home/out" "/srv/in" sample_source false sample_host_fs
      (plain_steps_at_path (sample_cp hostile) eq_refl)) as Hw.
    assert (∃ e, (copy_from_workspace (sample_cp hostile) [] "/home/out" "/srv/in" sample_source false sample_host_fs).1 = Err e)
      as [e He] by (eexists; by vm_compute).
    destruct (copy_from_workspace (sample_cp hostile) _ _ _ _ _ _) as [r st']. cbn [fst snd] in *. subst r.
    destruct Hw as [->|(d & i & Hn & Hk & _)]; [by vm_compute|]. rewrite Hk; [by vm_compute|].
    apply strip_path_None. intros q E. destruct d as [|a [|b d]]; [done|done|]. cbn in E. injection E as _ _ E. by destruct d.
  - by vm_compute.
Defined.

(** The daemon sets mode and times through a path of the workspace's own tree: a link the workspace put
    there leads to a file of the host. *)
Lemma metadata_follows_link :
  restore_workspace_metadata 64 (Some "/srv/home") "/srv/fs" "/home/.enclave-cp-0f/f"
    (<[["srv"; "home"; ".enclave-cp-0f"; "f"] := HLink [""; "etc"; "passwd"]]> sample_host_fs) = Ok ["etc"; "passwd"].
Proof. by vm_compute. Qed.

(** A source that is removed after the staging directory was made ends the copy at once, and the staging
    directory stays: its creation is the last command. *)
Lemma vanished_source_leaves_stage :
  let h := mkWsHost (λ _ cmd, Some (Some (if bool_decide (head cmd = Some "test") then 1 else 0)%Z)) (λ _, ("", "", 0%Z, 0%Z, "")) ("s", "w", 7%Z, 9%Z) in
  let '(r, st) := run_host_to_workspace h (mkSend None None true [] 0 None None true) (mkPlan "/home" None) "f" 3 "0f" (mkWs ∅ []) in
  (∃ e, r = Err e) ∧ head (ran st) = Some ["mkdir"; "--"; "/home/.enclave-cp-0f"].
Proof. vm_compute. eauto. Qed.
