(* ===== verification/Cgroup.v ===== *)
(** * Control groups and the limits of a running workspace (src/src/sandbox/cgroup,
    src/src/workspace/runtime_limits.rs, src/src/workspace/control/state/cgroups.rs)

    A control file is named by its directory and its file name.  What the kernel is told is the sequence of
    writes that it accepted; whether it accepts one may depend on all that went before.  The directories of
    the hierarchy, the address-space limits of the processes and the waits of a removal are the rest of the
    state. *)
From S2P Require Import Prelude RustStr Paths Types Registry.
From Stdlib Require Import QArith Qround.
#[local] Open Scope Z_scope.

Definition EBUSY : Z := 16.
Definition ENOTEMPTY : Z := 39.
Definition ENOENT : Z := 2.
Definition RLIM_INFINITY : Z := u64_max.
Definition CGROUP_ROOT : string := "/sys/fs/cgroup".
Definition MANAGED_CONTROLLERS : list string := ["memory"; "cpu"; "pids"].

(** What [remove_dir] answers. *)
Inductive rmdir_result := Removed | Refused (errno : Z).
Record control_write := mkWrite { w_dir : string; w_file : string; w_value : string }.

Record cg_host := mkCgHost {
  v2 : bool;                                           (** the unified hierarchy is mounted *)
  accepts : list control_write → control_write → bool; (** whether the kernel takes a write *)
  mkdir_ok : string → bool;
  rmdir : string → nat → rmdir_result;                 (** the answer to an attempt *)
  lingers : string → bool;                             (** the directory is seen after its removal *)
  cpus : Z;                                            (** [available_parallelism], one when it is unknown *)
  fl : Q → Q;                                          (** the rounding of an [f64] operation *)
  can_set_limit : Z → bool;
  process_matches : Z → Z → bool;
  refs_match : WorkspaceMetadata → Z → bool }.
Record cg := mkCg {
  dirs : gset string;
  writes : list control_write;
  address_space : gmap Z (Z * Z);                      (** soft and hard limit of the processes that can be inspected *)
  waited : list Z;                                     (** recorded cleanup retries, in milliseconds *)
  exhausted : list Z }.
Definition set_dirs (d : gset string) (s : cg) : cg := mkCg d (writes s) (address_space s) (waited s) (exhausted s).
Definition add_write (w : control_write) (s : cg) : cg := mkCg (dirs s) (writes s ++ [w]) (address_space s) (waited s) (exhausted s).
Definition set_address_space (pid : Z) (l : Z * Z) (s : cg) : cg := mkCg (dirs s) (writes s) (<[pid := l]> (address_space s)) (waited s) (exhausted s).
Definition record_retry (ms : Z) (s : cg) : cg := mkCg (dirs s) (writes s) (address_space s) (waited s ++ [ms]) (exhausted s).
Definition record_exhausted (errno : Z) (s : cg) : cg := mkCg (dirs s) (writes s) (address_space s) (waited s) (exhausted s ++ [errno]).

(** ** From limits to control values (config.rs, resource_limits.rs) *)

Definition DEFAULT_CPU_CGROUP_PERIOD_US : Z := 100000.
(** [f64::round]: half away from zero. *)
Definition round (q : Q) : Z := if Qle_bool 0 q then Qfloor (q + (1 # 2)) else - Qfloor (- q + (1 # 2)).
Record CgroupConfig := mkConfig { cc_memory : option Z; cpu_quota_us : option Z; cpu_period_us : Z; pids_max : option Z }.
Definition config_has_limits (c : CgroupConfig) : bool :=
  bool_decide (is_Some (cc_memory c)) || bool_decide (is_Some (cpu_quota_us c)) || bool_decide (is_Some (pids_max c)).
Definition limit_or_max (value : option Z) : string := match value with Some v => print_uint v | None => "max" end.
Definition cpu_value (c : CgroupConfig) : string :=
  match cpu_quota_us c with
  | Some quota => print_uint quota +:+ " " +:+ print_uint (cpu_period_us c)
  | None => "max " +:+ print_uint (cpu_period_us c)
  end.

(** ** Names (layout.rs, runtime_limits.rs) *)

Definition sandbox_cgroup_name (sandbox : string) : string := "enclave-sb-" +:+ sandbox.
Definition workspace_cgroup_name (sandbox workspace : string) : string := "enclave-ws-" +:+ sandbox +:+ "-" +:+ workspace.
Definition legacy_workspace_cgroup_name (pid : Z) : string := "enclave-ws-" +:+ print_uint pid.
Definition workspace_cgroup_path (sandbox workspace : string) : string :=
  path_join (path_join CGROUP_ROOT (sandbox_cgroup_name sandbox)) (workspace_cgroup_name sandbox workspace).
Definition existing_workspace_cgroup_path (s : cg) (sandbox workspace : string) : option string :=
  let p := workspace_cgroup_path sandbox workspace in if bool_decide (p ∈ dirs s) then Some p else None.
Definition cgroup_char (c : ascii) : bool := is_ascii_alphanumeric c || (c =? ".")%char || (c =? "_")%char || (c =? "-")%char.
Definition validate_cgroup_name (n : string) : result unit :=
  if bool_decide (n = "") then bail "cgroup name must not be empty"
  else if starts_with "/" n then bail "cgroup name must not be absolute"
  else if bool_decide (n = ".") || bool_decide (n = "..") || str_any (λ c, (c =? "/")%char) n || str_any (λ c, (c =? "\")%char) n
  then bail "cgroup name contains unsafe path components"
  else if negb (str_all cgroup_char n) then bail "cgroup name contains disallowed characters"
  else Ok tt.

(** [splitn(3, ':')], missing parts empty. *)
Fixpoint cut (c : ascii) (s : string) : string * string :=
  match s with
  | EmptyString => ("", "")
  | String a s' => if (a =? c)%char then ("", s') else let '(l, r) := cut c s' in (String a l, r)
  end.
Fixpoint trim_start_slashes (s : string) : string :=
  match s with String a s' => if (a =? "/")%char then trim_start_slashes s' else s | EmptyString => "" end.
(** The line of the unified hierarchy. *)
Definition unified_path (line : string) : option string :=
  let '(hierarchy, rest) := cut ":" line in
  let '(controllers, relative) := cut ":" rest in
  if negb (bool_decide (hierarchy = "0")) || negb (bool_decide (controllers = "")) then None
  else let trimmed := trim_start_slashes relative in
       Some (if bool_decide (trimmed = "") then CGROUP_ROOT else path_join CGROUP_ROOT trimmed).
Fixpoint first_unified (l : list string) : option string :=
  match l with [] => None | line :: rest => match unified_path line with Some p => Some p | None => first_unified rest end end.
(** [raw]: what /proc/<pid>/cgroup reads as. *)
Definition runtime_cgroup_path (raw : option string) : result (option string) :=
  raw ← ok_or raw (plain "failed to read /proc/<pid>/cgroup"); Ok (first_unified (lines raw)).
Definition available_controllers (raw : option string) : list string := match raw with Some r => split_whitespace r | None => [] end.
Definition cgroup_contains_pid (raw : option string) (pid : Z) : result bool :=
  contents ← ok_or raw (plain "failed to read cgroup.procs");
  Ok (existsb (λ line, bool_decide (trim line = print_uint pid)) (lines contents)).

(** ** Usage (stats.rs) *)

Record CgroupStats := mkStats {
  memory_current_bytes : option Z; memory_max_bytes : option string; pids_current : option Z; st_pids_max : option string; cpu_max : option string }.
Definition read_cgroup_u64 (raw : option string) : option Z := r ← raw; parse_uint u64_max (trim r).
Definition read_cgroup_string (raw : option string) : option string := trim <$> raw.
(** [raw]: what a file of the directory reads as. *)
Definition read_cgroup_stats (raw : string → option string) : CgroupStats :=
  mkStats (read_cgroup_u64 (raw "memory.current")) (read_cgroup_string (raw "memory.max")) (read_cgroup_u64 (raw "pids.current"))
    (read_cgroup_string (raw "pids.max")) (read_cgroup_string (raw "cpu.max")).
Definition stats_display (s : CgroupStats) : string :=
  "memory=" +:+ match memory_current_bytes s with Some v => print_uint v +:+ "B" | None => "unknown" end +:+
  "/" +:+ default "max" (memory_max_bytes s) +:+
  ", pids=" +:+ match pids_current s with Some v => print_uint v | None => "unknown" end +:+
  "/" +:+ default "max" (st_pids_max s) +:+ ", cpu_max=" +:+ default "max" (cpu_max s).

Section cgroups.
Context (h : cg_host).

Definition cpu_quota_from_machine_percent (percent : f64) (period_us : Z) : result Z :=
  _ ← validate_cpu_percent percent;
  match percent with
  | Finite p =>
      let quota := round (fl h (fl h (fl h (p / 100) * inject_Z (cpus h)) * inject_Z period_us)) in
      Ok (Z.min (Z.max quota 1) u64_max)
  | _ => bail "cpu_percent must be a finite number"
  end.
Definition from_limits (memory : option Z) (percent : option f64) (processes : option Z) : result CgroupConfig :=
  quota ← match percent with
          | Some v => q ← cpu_quota_from_machine_percent v DEFAULT_CPU_CGROUP_PERIOD_US; Ok (Some q)
          | None => Ok None
          end;
  Ok (mkConfig memory quota DEFAULT_CPU_CGROUP_PERIOD_US processes).

Definition write_cgroup_value (dir file value : string) : stm cg unit := λ s,
  let w := mkWrite dir file value in
  if accepts h (writes s) w then (Ok tt, add_write w s) else (bail "failed to write", s).
Definition apply_cgroup_limits (dir : string) (c : CgroupConfig) : stm cg unit :=
  if negb (v2 h) then mret tt
  else
    write_cgroup_value dir "memory.max" (limit_or_max (cc_memory c));;
    write_cgroup_value dir "cpu.max" (cpu_value c);;
    write_cgroup_value dir "pids.max" (limit_or_max (pids_max c)).
(** A controller that cannot be enabled is logged. *)
Fixpoint enable_controllers (dir : string) (controllers : list string) : stm cg unit :=
  match controllers with
  | [] => mret tt
  | c :: rest => catch (write_cgroup_value dir "cgroup.subtree_control" ("+" +:+ c));; enable_controllers dir rest
  end.
Definition enable_managed_controllers (dir : string) : stm cg unit := enable_controllers dir MANAGED_CONTROLLERS.

(** ** The directory tree (layout.rs) *)

Definition create_dir_all (parent path : string) : stm cg unit :=
  assert (mkdir_ok h path) "failed to create cgroup";; modify (λ s, set_dirs ({[parent; path]} ∪ dirs s) s).
Definition ensure_child_cgroup (parent n : string) (c : CgroupConfig) (create_if_empty enable_children : bool) : stm cg (option string) :=
  if negb (v2 h) then mret None
  else if negb (config_has_limits c) && negb create_if_empty then mret None
  else
    lift (validate_cgroup_name n);;
    enable_managed_controllers parent;;
    let path := path_join parent n in
    create_dir_all parent path;;
    apply_cgroup_limits path c;;
    (if enable_children then enable_managed_controllers path else mret tt);;
    mret (Some path).
Definition ensure_sandbox_cgroup (n : string) (c : CgroupConfig) (create_if_empty : bool) : stm cg (option string) :=
  ensure_child_cgroup CGROUP_ROOT n c create_if_empty true.
Definition ensure_workspace_cgroup (parent n : string) (c : CgroupConfig) (create_if_empty : bool) : stm cg (option string) :=
  ensure_child_cgroup parent n c create_if_empty false.

Definition CGROUP_REMOVE_ATTEMPTS : nat := 5.
Definition cgroup_removal_is_retryable (errno : Z) : bool := (errno =? ENOTEMPTY) || (errno =? EBUSY).
Fixpoint remove_attempts (left attempt : nat) (last_errno : Z) (path : string) : stm cg unit :=
  match left with
  | O => modify (record_exhausted last_errno);; throw "cgroup is still busy after 5 attempts; processes or child cgroups remain"
  | S left' =>
      match rmdir h path attempt with
      | Removed => modify (λ s, set_dirs (dirs s ∖ {[path]}) s);; assert (negb (lingers h path)) "cgroup remained after removal"
      | Refused errno =>
          if errno =? ENOENT then modify (λ s, set_dirs (dirs s ∖ {[path]}) s)
          else if cgroup_removal_is_retryable errno then
            (if (attempt + 1 <? CGROUP_REMOVE_ATTEMPTS)%nat then modify (record_retry (10 * (Z.of_nat attempt + 1))) else mret tt);;
            remove_attempts left' (S attempt) errno path
          else throw "failed to remove cgroup"
      end
  end.
Definition remove_cgroup_path (path : string) : stm cg unit :=
  present ← gets (λ s, bool_decide (path ∈ dirs s));
  if negb present then mret tt else remove_attempts CGROUP_REMOVE_ATTEMPTS 0 0 path.
Definition remove_workspace_cgroup (n : string) : stm cg unit :=
  lift (validate_cgroup_name n);; remove_cgroup_path (path_join CGROUP_ROOT n).

(** ** Members (process.rs) *)

Definition add_process_to_cgroup (dir : string) (pid : Z) : stm cg unit := write_cgroup_value dir "cgroup.procs" (print_uint pid).
(** [has_file]: whether the kernel offers the control. *)
Definition kill_cgroup_members (has_file : bool) (dir : string) : stm cg bool :=
  if negb (v2 h) then mret false else if negb has_file then mret false
  else write_cgroup_value dir "cgroup.kill" "1";; mret true.
Definition set_cgroup_frozen (has_file : bool) (dir : string) (frozen : bool) : stm cg bool :=
  if negb (v2 h) then mret false else if negb has_file then mret false
  else write_cgroup_value dir "cgroup.freeze" (if frozen then "1" else "0");; mret true.

(** ** The limits of a running workspace (runtime_limits.rs) *)

Definition sync_runtime_address_space (w : WorkspaceMetadata) (pid : Z) : stm cg unit := λ s,
  match address_space s !! pid with
  | None => (Ok tt, s)
  | Some (soft, hard) =>
      let wanted := default RLIM_INFINITY (memory_bytes (limits w)) in
      if soft =? wanted then (Ok tt, s)
      else if negb (can_set_limit h pid) then (bail_coded Internal "failed to set the address-space limit", s)
      else (Ok tt, set_address_space pid (wanted, hard) s)
  end.
Definition build_sandbox_cgroup_config (sb : SandboxMetadata) : result CgroupConfig :=
  from_limits (sb_memory_bytes (sb_limits sb)) (sb_cpu_percent (sb_limits sb)) (sb_max_processes (sb_limits sb)).
Definition build_workspace_cgroup_config (w : WorkspaceMetadata) : result CgroupConfig :=
  from_limits (memory_bytes (limits w)) (cpu_percent (limits w)) (max_processes (limits w)).
Definition cpu_percent_requires_cgroup (l : WorkspaceLimits) : bool := bool_decide (is_Some (cpu_percent l)).
Definition ensure_workspace_cgroup_hierarchy (sb : SandboxMetadata) (w : WorkspaceMetadata) (pid : Z) : stm cg unit :=
  sandbox_config ← lift (build_sandbox_cgroup_config sb);
  workspace_config ← lift (build_workspace_cgroup_config w);
  if has_limits (sb_limits sb) && negb (v2 h) then lift (bail_coded Unsupported "sandbox declares resource limits but cgroup v2 is unavailable")
  else if cpu_percent_requires_cgroup (limits w) && negb (v2 h) then lift (bail_coded Unsupported "workspace declares cpu_percent but cgroup v2 is unavailable")
  else if negb (v2 h) then mret tt
  else
    prepared ← ensure_sandbox_cgroup (sandbox_cgroup_name (sb_id sb)) sandbox_config true;
    sandbox_path ← lift (ok_or prepared (plain "failed to prepare sandbox cgroup"));
    found ← ensure_workspace_cgroup sandbox_path (workspace_cgroup_name (sb_id sb) (id w)) workspace_config true;
    match found with Some workspace_path => add_process_to_cgroup workspace_path pid | None => mret tt end;;
    catch (remove_workspace_cgroup (legacy_workspace_cgroup_name pid));;
    mret tt.
Definition apply_workspace_runtime_constraints (sb : SandboxMetadata) (w : WorkspaceMetadata) (pid : Z) : stm cg unit :=
  sync_runtime_address_space w pid;; ensure_workspace_cgroup_hierarchy sb w pid.

(** The pid of a workspace whose runtime is active. *)
Definition active_pid (w : WorkspaceMetadata) : option Z :=
  match status w, runtime_pid w, runtime_starttime_ticks w with
  | Running, Some pid, Some ticks => if process_matches h pid ticks && refs_match h w pid then Some pid else None
  | _, _, _ => None
  end.
Definition workspace_runtime_is_active (w : WorkspaceMetadata) : bool := bool_decide (is_Some (active_pid w)).
(** Its failure is logged. *)
Definition remove_sandbox_cgroup (sb : SandboxMetadata) : stm cg unit :=
  catch (remove_cgroup_path (path_join CGROUP_ROOT (sandbox_cgroup_name (sb_id sb))));; mret tt.
Definition remove_sandbox_cgroup_if_idle (e : RegistrySandbox) : stm cg unit :=
  if forallb (λ w, negb (may_have_runtime (status w))) (btree_values (workspaces e)) && negb (has_limits (sb_limits (metadata e)))
  then remove_sandbox_cgroup (metadata e) else mret tt.

(** [r]: the registry as it was read. *)
Definition sync_workspace_runtime_limits (r : Registry) (sandbox_selector workspace_selector : string) : stm cg WorkspaceMetadata :=
  sandbox_id ← lift (resolve_sandbox_id r sandbox_selector);
  sandbox ← lift (ok_or (sandboxes r !! sandbox_id) (plain "sandbox not found"));
  workspace_id ← lift (resolve_workspace_id sandbox workspace_selector);
  workspace ← lift (ok_or (workspaces sandbox !! workspace_id) (plain "workspace not found"));
  match active_pid workspace with
  | Some pid => apply_workspace_runtime_constraints (metadata sandbox) workspace pid
  | None => mret tt
  end;;
  mret workspace.
Fixpoint constrain_active (sb : SandboxMetadata) (l : list WorkspaceMetadata) : stm cg unit :=
  match l with
  | [] => mret tt
  | w :: rest =>
      match active_pid w with Some pid => apply_workspace_runtime_constraints sb w pid | None => mret tt end;;
      constrain_active sb rest
  end.
Definition sync_sandbox_runtime_limits (r : Registry) (sandbox_selector : string) : stm cg unit :=
  sandbox_id ← lift (resolve_sandbox_id r sandbox_selector);
  sandbox ← lift (ok_or (sandboxes r !! sandbox_id) (plain "sandbox not found"));
  let sb := metadata sandbox in
  let l := btree_values (workspaces sandbox) in
  if negb (bool_decide (sb_status sb = SbRunning)) then mret tt
  else if forallb (λ w, negb (workspace_runtime_is_active w)) l then
    config ← lift (build_sandbox_cgroup_config sb);
    if v2 h then
      if config_has_limits config then
        ensure_sandbox_cgroup (sandbox_cgroup_name (sb_id sb)) config true;; mret tt
      else remove_sandbox_cgroup sb
    else mret tt
  else constrain_active sb l.
End cgroups.

(** ** What the kernel is told *)

Definition told (t : list control_write) (s : cg) : cg := mkCg (dirs s) (writes s ++ t) (address_space s) (waited s) (exhausted s).
Definition limit_writes (dir : string) (c : CgroupConfig) : list control_write :=
  [mkWrite dir "memory.max" (limit_or_max (cc_memory c)); mkWrite dir "cpu.max" (cpu_value c);
   mkWrite dir "pids.max" (limit_or_max (pids_max c))].
Definition controller_writes (dir : string) : list control_write :=
  (λ c, mkWrite dir "cgroup.subtree_control" ("+" +:+ c)) <$> MANAGED_CONTROLLERS.
(** Every run adds writes of a kind. *)
Definition tells {A} (P : control_write → Prop) (m : stm cg A) : Prop := ∀ s, ∃ t, writes (m s).2 = writes s ++ t ∧ Forall P t.

Lemma told_app t1 t2 s : told t2 (told t1 s) = told (t1 ++ t2) s.
Proof. unfold told. cbn. by rewrite app_assoc. Qed.
Lemma tells_quiet {A} P (m : stm cg A) : (∀ s, writes (m s).2 = writes s) → tells P m.
Proof. intros H s. exists []. by rewrite H, app_nil_r. Qed.
Lemma tells_bind {A B} P (m : stm cg A) (f : A → stm cg B) : tells P m → (∀ a, tells P (f a)) → tells P (m ≫= f).
Proof.
  intros Hm Hf s. unfold mbind, stm_bind. destruct (Hm s) as (t & Ht & Hp). destruct (m s) as [[a|e] s1]; cbn [snd] in Ht; [|by exists t].
  destruct (Hf a s1) as (t' & Ht' & Hp'). exists (t ++ t'). rewrite Ht', Ht, app_assoc. split; [done|]. by apply Forall_app_2.
Qed.
Lemma tells_catch {A} P (m : stm cg A) : tells P m → tells P (catch m).
Proof. intros H s. unfold catch. destruct (H s) as (t & Ht & Hp). destruct (m s). by exists t. Qed.
Lemma tells_ret {A} P (a : A) : tells P (mret a : stm cg A).
Proof. by apply tells_quiet. Qed.
Lemma tells_lift {A} P (r : result A) : tells P (lift r : stm cg A).
Proof. by apply tells_quiet. Qed.
Lemma tells_modify P f : (∀ s, writes (f s) = writes s) → tells P (modify f).
Proof. intros H. by apply tells_quiet. Qed.
Lemma tells_assert P ok m : tells P (assert ok m).
Proof. apply tells_quiet. by destruct ok. Qed.
Lemma tells_if {A} P (b : bool) (m n : stm cg A) : tells P m → tells P n → tells P (if b then m else n).
Proof. by destruct b. Qed.
Create HintDb tells.
#[export] Hint Resolve tells_bind tells_catch tells_ret tells_lift tells_modify tells_assert tells_if : tells.

Section trace.
Context (h : cg_host).

Lemma tells_write (P : control_write → Prop) dir file value : P (mkWrite dir file value) → tells P (write_cgroup_value h dir file value).
Proof.
  intros Hp s. unfold write_cgroup_value. destruct (accepts h _ _); [by exists [mkWrite dir file value]; repeat constructor|].
  exists []. by rewrite app_nil_r.
Qed.
Lemma tells_controllers P dir l : (∀ v, P (mkWrite dir "cgroup.subtree_control" v)) → tells P (enable_controllers h dir l).
Proof. intros Hp. induction l as [|c l IH]; cbn; eauto using tells_write with tells. Qed.
Lemma tells_limits P dir c : (∀ f v, f ∈ ["memory.max"; "cpu.max"; "pids.max"] → P (mkWrite dir f v)) → tells P (apply_cgroup_limits h dir c).
Proof.
  intros Hp. unfold apply_cgroup_limits. apply tells_if; [auto with tells|].
  repeat (apply tells_bind; [|intros _]); apply tells_write, Hp; set_solver.
Qed.
Lemma tells_child P parent n c ce ch :
  (∀ v, P (mkWrite parent "cgroup.subtree_control" v)) → (∀ f v, f ≠ "cgroup.procs" → P (mkWrite (path_join parent n) f v)) →
  tells P (ensure_child_cgroup h parent n c ce ch).
Proof.
  intros Hp Hc. unfold ensure_child_cgroup, create_dir_all. do 2 (apply tells_if; [by auto with tells|]).
  apply tells_bind; [auto with tells|intros _]. apply tells_bind; [by apply tells_controllers|intros _].
  apply tells_bind; [auto with tells|intros _]. apply tells_bind; [|intros _; apply tells_bind; [|auto with tells]].
  - apply tells_limits. intros f v Hf. apply Hc. set_solver.
  - apply tells_if; [|auto with tells]. apply tells_controllers. intros v. by apply Hc.
Qed.
Lemma remove_attempts_quiet left attempt e path s : writes (remove_attempts h left attempt e path s).2 = writes s.
Proof.
  revert attempt e s. induction left as [|left IH]; intros attempt e s; cbn [remove_attempts]; [done|].
  destruct (rmdir h path attempt) as [|errno].
  { unfold mbind, stm_bind, modify, assert. by destruct (negb _). }
  destruct (errno =? ENOENT); [done|]. destruct (cgroup_removal_is_retryable errno); [|done].
  unfold mbind, stm_bind. destruct (_ <? _)%nat; cbn; by rewrite IH.
Qed.
Lemma tells_remove P path : tells P (remove_cgroup_path h path).
Proof.
  apply tells_quiet. intros s. unfold remove_cgroup_path, gets, mbind, stm_bind. destruct (negb _); [done|]. apply remove_attempts_quiet.
Qed.
Lemma tells_remove_workspace P n : tells P (remove_workspace_cgroup h n).
Proof. unfold remove_workspace_cgroup. eauto using tells_remove with tells. Qed.
Lemma tells_sync P w pid : tells P (sync_runtime_address_space h w pid).
Proof.
  apply tells_quiet. intros s. unfold sync_runtime_address_space. destruct (address_space s !! pid) as [[soft hard]|]; [|done].
  destruct (soft =? _); [done|]. by destruct (negb _).
Qed.

Lemma enable_controllers_spec dir l s : ∃ t, enable_controllers h dir l s = (Ok tt, told t s) ∧
  t `sublist_of` ((λ c, mkWrite dir "cgroup.subtree_control" ("+" +:+ c)) <$> l).
Proof.
  revert s. induction l as [|c l IH]; intros s; cbn [enable_controllers fmap list_fmap].
  { exists []. unfold told. rewrite app_nil_r. by destruct s. }
  unfold mbind, stm_bind, catch, write_cgroup_value. destruct (accepts h _ _).
  - destruct (IH (add_write (mkWrite dir "cgroup.subtree_control" ("+" +:+ c)) s)) as (t & -> & Ht).
    eexists (_ :: t). split; [|by apply sublist_skip]. unfold told, add_write. cbn. by rewrite <- app_assoc.
  - destruct (IH s) as (t & -> & Ht). exists t. split; [done|]. by apply sublist_cons.
Qed.
Lemma write_Ok dir file value s u s' : write_cgroup_value h dir file value s = (Ok u, s') → s' = told [mkWrite dir file value] s.
Proof. unfold write_cgroup_value. destruct (accepts h _ _); [|done]. by intros [= _ <-]. Qed.
Lemma apply_limits_Ok dir c s u s' : v2 h = true → apply_cgroup_limits h dir c s = (Ok u, s') → s' = told (limit_writes dir c) s.
Proof.
  intros Hv. unfold apply_cgroup_limits. rewrite Hv. cbn [negb]. intros (u1 & s1 & ->%write_Ok & H)%stm_bind_Ok.
  apply stm_bind_Ok in H as (u2 & s2 & ->%write_Ok & ->%write_Ok). by rewrite !told_app.
Qed.
Lemma ensure_child_Ok parent n c ch s res s' : v2 h = true → ensure_child_cgroup h parent n c true ch s = (Ok res, s') →
  validate_cgroup_name n = Ok tt ∧ res = Some (path_join parent n) ∧ ∃ t1 t2,
  t1 `sublist_of` controller_writes parent ∧ t2 `sublist_of` (if ch then controller_writes (path_join parent n) else []) ∧
  s' = set_dirs ({[parent; path_join parent n]} ∪ dirs s) (told (t1 ++ limit_writes (path_join parent n) c ++ t2) s).
Proof.
  intros Hv. unfold ensure_child_cgroup, enable_managed_controllers, create_dir_all. rewrite Hv, andb_false_r. cbn [negb].
  intros ([] & s0 & (Hn & ->)%lift_Ok & H)%stm_bind_Ok. destruct (enable_controllers_spec parent MANAGED_CONTROLLERS s) as (t1 & E1 & Ht1).
  apply stm_bind_Ok in H as (u & s1 & E & H). rewrite E1 in E. injection E as <- <-.
  apply stm_bind_Ok in H as (u & s2 & E2 & H). apply stm_bind_Ok in E2 as (u' & s3 & (_ & _ & ->)%assert_Ok & (_ & ->)%modify_Ok).
  apply stm_bind_Ok in H as (u4 & s4 & ->%apply_limits_Ok & H); [|done].
  apply stm_bind_Ok in H as (u5 & s5 & H5 & (-> & ->)%mret_Ok). split_and!; [done..|]. exists t1.
  destruct ch.
  - destruct (enable_controllers_spec (path_join parent n) MANAGED_CONTROLLERS
      (told (limit_writes (path_join parent n) c) (set_dirs ({[parent; path_join parent n]} ∪ dirs (told t1 s)) (told t1 s)))) as (t2 & E2 & Ht2).
    rewrite E2 in H5. injection H5 as _ <-. exists t2. split_and!; [done..|]. unfold told, set_dirs. cbn. by rewrite <- !app_assoc.
  - apply mret_Ok in H5 as [_ ->]. exists []. split_and!; [done..|]. unfold told, set_dirs. cbn. by rewrite <- ?app_assoc, ?app_nil_r.
Qed.

Lemma sync_spec w pid s r s' : sync_runtime_address_space h w pid s = (r, s') → dirs s' = dirs s ∧ writes s' = writes s ∧
  (∀ q, q ≠ pid → address_space s' !! q = address_space s !! q) ∧
  (∀ soft hard, address_space s !! pid = Some (soft, hard) →
     address_space s' !! pid = Some (if is_ok r then default RLIM_INFINITY (memory_bytes (limits w)) else soft, hard)).
Proof.
  unfold sync_runtime_address_space. destruct (address_space s !! pid) as [[soft hard]|] eqn:E; [|intros [= <- <-]; by rewrite E].
  destruct (Z.eqb_spec soft (default RLIM_INFINITY (memory_bytes (limits w)))) as [->|]; [intros [= <- <-]; naive_solver|].
  destruct (negb _); [intros [= <- <-]; naive_solver|]. intros [= <- <-]. cbn. split_and!; [done..| |].
  - intros q Hq. by rewrite lookup_insert_ne.
  - intros ?? [= <- <-]. by rewrite lookup_insert_eq.
Qed.
Lemma remove_attempts_address_space left attempt e path s : address_space (remove_attempts h left attempt e path s).2 = address_space s.
Proof.
  revert attempt e s. induction left as [|left IH]; intros attempt e s; cbn [remove_attempts]; [done|].
  destruct (rmdir h path attempt) as [|errno].
  { unfold mbind, stm_bind, modify, assert. by destruct (negb _). }
  destruct (errno =? ENOENT); [done|]. destruct (cgroup_removal_is_retryable errno); [|done].
  unfold mbind, stm_bind. destruct (_ <? _)%nat; cbn; by rewrite IH.
Qed.
Lemma remove_workspace_keeps n s : writes (remove_workspace_cgroup h n s).2 = writes s ∧
  address_space (remove_workspace_cgroup h n s).2 = address_space s.
Proof.
  unfold remove_workspace_cgroup, remove_cgroup_path, lift, gets, mbind, stm_bind. destruct (validate_cgroup_name n); [|done].
  destruct (negb _); [done|]. by rewrite remove_attempts_quiet, remove_attempts_address_space.
Qed.
Lemma catch_ret {A} (m : stm cg A) s : (catch m;; mret tt) s = (Ok tt, (m s).2).
Proof. unfold catch, mbind, stm_bind. by destruct (m s). Qed.

Lemma hierarchy_Ok sb w pid s u s' : v2 h = true → ensure_workspace_cgroup_hierarchy h sb w pid s = (Ok u, s') →
  let S := path_join CGROUP_ROOT (sandbox_cgroup_name (sb_id sb)) in
  let W := workspace_cgroup_path (sb_id sb) (id w) in
  ∃ cs cw t1 t2 t3, build_sandbox_cgroup_config h sb = Ok cs ∧ build_workspace_cgroup_config h w = Ok cw ∧
    t1 `sublist_of` controller_writes CGROUP_ROOT ∧ t2 `sublist_of` controller_writes S ∧ t3 `sublist_of` controller_writes S ∧
    validate_cgroup_name (sandbox_cgroup_name (sb_id sb)) = Ok tt ∧ validate_cgroup_name (workspace_cgroup_name (sb_id sb) (id w)) = Ok tt ∧
    writes s' = writes s ++ t1 ++ limit_writes S cs ++ t2 ++ t3 ++ limit_writes W cw ++ [mkWrite W "cgroup.procs" (print_uint pid)] ∧
    address_space s' = address_space s.
Proof.
  intros Hv. unfold ensure_workspace_cgroup_hierarchy. rewrite Hv, !andb_false_r. cbn [negb].
  intros (cs & s0 & (Hcs & ->)%lift_Ok & H)%stm_bind_Ok. apply stm_bind_Ok in H as (cw & s0 & (Hcw & ->)%lift_Ok & H).
  apply stm_bind_Ok in H as (res & s1 & (Hn & -> & t1 & t2 & Ht1 & Ht2 & ->)%ensure_child_Ok & H); [|done].
  apply stm_bind_Ok in H as (S & s2 & ([= <-] & ->)%lift_Ok & H).
  apply stm_bind_Ok in H as (res & s2 & (Hm & -> & t3 & t4 & Ht3 & Ht4 & ->)%ensure_child_Ok & H); [|done].
  apply sublist_nil_r in Ht4 as ->. apply stm_bind_Ok in H as (u1 & s3 & ->%write_Ok & H). rewrite catch_ret in H. injection H as _ <-.
  exists cs, cw, t1, t2, t3. split_and!; [done..| |]; rewrite ?(proj1 (remove_workspace_keeps _ _)), ?(proj2 (remove_workspace_keeps _ _)).
  - cbn. rewrite <- !app_assoc. done.
  - done.
Qed.
Lemma tells_step {A B} P (m : stm cg A) (f : A → stm cg B) s e s' : tells P m → (m ≫= f) s = (Err e, s') →
  (∀ a s1, f a s1 = (Err e, s') → ∃ t, writes s' = writes s1 ++ t ∧ Forall P t) → ∃ t, writes s' = writes s ++ t ∧ Forall P t.
Proof.
  intros Hm [H|(a & s1 & H & Hf)]%stm_bind_Err Hrest; destruct (Hm s) as (t & Ht & Hp); rewrite H in Ht; cbn [snd] in Ht; [by exists t|].
  destruct (Hrest a s1 Hf) as (t' & Ht' & Hp'). exists (t ++ t'). rewrite Ht', Ht, app_assoc. split; [done|]. by apply Forall_app_2.
Qed.
(** A hierarchy that cannot be set up leaves the process where it was. *)
Lemma hierarchy_Err sb w pid s e s' : ensure_workspace_cgroup_hierarchy h sb w pid s = (Err e, s') →
  ∃ t, writes s' = writes s ++ t ∧ Forall (λ x, w_file x ≠ "cgroup.procs") t.
Proof.
  unfold ensure_workspace_cgroup_hierarchy. intros H.
  eapply tells_step; [|exact H|]; [apply tells_lift|clear H; intros cs s1 H]. eapply tells_step; [|exact H|]; [apply tells_lift|clear H; intros cw s2 H].
  destruct (has_limits _ && _); [injection H as <- <-; exists []; by rewrite app_nil_r|].
  destruct (cpu_percent_requires_cgroup _ && _); [injection H as <- <-; exists []; by rewrite app_nil_r|]. destruct (negb (v2 h)); [done|].
  eapply tells_step; [|exact H|]; [by apply tells_child|clear H; intros p s3 H]. eapply tells_step; [|exact H|]; [apply tells_lift|clear H; intros S s4 H].
  eapply tells_step; [|exact H|]; [by apply tells_child|clear H; intros f s5 H].
  apply stm_bind_Err in H as [H|(u & s6 & _ & H)]; [|by rewrite catch_ret in H].
  destruct f as [W|]; [|done]. unfold add_process_to_cgroup, write_cgroup_value in H. destruct (accepts h _ _); [done|].
  injection H as _ <-. exists []. by rewrite app_nil_r.
Qed.
End trace.

(** Without the unified hierarchy nothing is written, and the limits that only it can enforce are refused. *)
Lemma hierarchy_without_v2 (h : cg_host) sb w pid s u s' : v2 h = false → ensure_workspace_cgroup_hierarchy h sb w pid s = (Ok u, s') →
  s' = s ∧ has_limits (sb_limits sb) = false ∧ cpu_percent_requires_cgroup (limits w) = false.
Proof.
  intros Hv. unfold ensure_workspace_cgroup_hierarchy. rewrite Hv. cbn [negb]. rewrite !andb_true_r.
  intros (cs & s0 & (_ & ->)%lift_Ok & H)%stm_bind_Ok. apply stm_bind_Ok in H as (cw & s0 & (_ & ->)%lift_Ok & H).
  destruct (has_limits _); [done|]. destruct (cpu_percent_requires_cgroup _); [done|]. by injection H as _ <-.
Qed.

(** C21: Limits come before membership.  When the limits of a workspace are applied to its runtime and this
    succeeds on a host with the unified hierarchy, the kernel was told, in this order and nothing else: controllers
    of the hierarchy, the limits of the sandbox, controllers of the sandbox, the limits of the workspace, and last
    the pid, each value being that of the record.  On a host without it the sandbox declares no limit and the
    workspace no CPU share, and nothing is told or joined: a memory or process limit of the workspace is then not
    enforced by a cgroup.  On both, where the address-space limit of the process can be read, its soft value
    becomes the record's and the hard one is as it was.  When it fails, no process was moved. *)
Theorem limits_before_join (h : cg_host) (sb : SandboxMetadata) (w : WorkspaceMetadata) (pid : Z) (s s' : cg) (r : result unit) :
  apply_workspace_runtime_constraints h sb w pid s = (r, s') →
  let S := path_join CGROUP_ROOT (sandbox_cgroup_name (sb_id sb)) in
  let W := workspace_cgroup_path (sb_id sb) (id w) in
  match r with
  | Ok _ => (if v2 h then
        ∃ cs cw t1 t2 t3, build_sandbox_cgroup_config h sb = Ok cs ∧ build_workspace_cgroup_config h w = Ok cw ∧
        t1 `sublist_of` controller_writes CGROUP_ROOT ∧ t2 `sublist_of` controller_writes S ∧ t3 `sublist_of` controller_writes S ∧
        writes s' = writes s ++ t1 ++ limit_writes S cs ++ t2 ++ t3 ++ limit_writes W cw ++ [mkWrite W "cgroup.procs" (print_uint pid)]
      else has_limits (sb_limits sb) = false ∧ cpu_percent_requires_cgroup (limits w) = false ∧ writes s' = writes s) ∧
      ∀ soft hard, address_space s !! pid = Some (soft, hard) →
        address_space s' !! pid = Some (default RLIM_INFINITY (memory_bytes (limits w)), hard)
  | Err _ => ∃ t, writes s' = writes s ++ t ∧ Forall (λ x, w_file x ≠ "cgroup.procs") t
  end.
Proof.
  intros H S W. unfold apply_workspace_runtime_constraints in H. apply stm_bind_cases in H as [(u & s1 & H1 & H2)|(e & H1 & ->)].
  - apply sync_spec in H1 as (Hd & Hw & Ho & Ha). destruct r as [u'|e]; rewrite <- Hw; [|by apply hierarchy_Err in H2].
    destruct (v2 h) eqn:Hv.
    + apply hierarchy_Ok in H2 as (cs & cw & t1 & t2 & t3 & Hcs & Hcw & Ht1 & Ht2 & Ht3 & _ & _ & Ht & Has); [|done].
      split; [by eauto 15|]. intros soft hard Hs. rewrite Has. by apply (Ha soft).
    + apply hierarchy_without_v2 in H2 as (-> & ? & ?); [|done]. split; [done|]. intros soft hard Hs. by apply (Ha soft).
  - apply sync_spec in H1 as (_ & -> & _). exists []. by rewrite app_nil_r.
Qed.

(** ** Quotas *)

Lemma inject_nonneg n : 0 ≤ n → (0 <= inject_Z n)%Q.
Proof. change (0 ≤ n → (inject_Z 0 <= inject_Z n)%Q). by rewrite <- Zle_Qle. Qed.
Lemma round_bounds q n : (0 <= q)%Q → (q <= inject_Z n)%Q → 0 ≤ round q ≤ n.
Proof.
  intros H0 Hn. unfold round. rewrite (proj2 (Qle_bool_iff 0 q) H0). split.
  - change 0 with (Qfloor (inject_Z 0)). apply Qfloor_resp_le. eapply Qle_trans; [exact H0|].
    rewrite <- (Qplus_0_r q) at 1. apply Qplus_le_r. done.
  - assert (Qfloor (q + (1 # 2)) < n + 1); [|lia]. rewrite Zlt_Qlt. eapply Qle_lt_trans; [apply Qfloor_le|].
    rewrite inject_Z_plus, (Qplus_comm q), (Qplus_comm (inject_Z n)). by apply Qplus_lt_le_compat.
Qed.
Lemma round_lower q n : 0 ≤ n → (inject_Z n <= q)%Q → n ≤ round q.
Proof.
  intros H0 Hn. unfold round. rewrite (proj2 (Qle_bool_iff 0 q)) by (eapply Qle_trans; [|exact Hn]; by apply inject_nonneg).
  rewrite <- (Qfloor_Z n). apply Qfloor_resp_le. eapply Qle_trans; [exact Hn|]. rewrite <- (Qplus_0_r q) at 1. by apply Qplus_le_r.
Qed.
(** What the rounding of an [f64] operation satisfies: it is monotone, and exact on the integers an [f64] represents. *)
Class F64Rounding (fl : Q → Q) := mkF64Rounding {
  fl_mono : ∀ x y, (x <= y)%Q → (fl x <= fl y)%Q;
  fl_exact : ∀ n, 0 ≤ n ≤ 2 ^ 53 → (fl (inject_Z n) == inject_Z n)%Q }.
#[export] Instance exact_rounding : F64Rounding (λ q, q).
Proof. by split. Qed.

Section quota.
Context (h : cg_host) `{!F64Rounding (fl h)}.

Lemma fl_between x n : (0 <= x)%Q → (x <= inject_Z n)%Q → n ≤ 2 ^ 53 → (0 <= fl h x)%Q ∧ (fl h x <= inject_Z n)%Q.
Proof.
  intros H0 Hx Hn. assert (0 ≤ n) as Hz. { rewrite Zle_Qle. by eapply Qle_trans. } split.
  - rewrite <- (fl_exact 0 ltac:(lia)). by apply fl_mono.
  - rewrite <- (fl_exact n ltac:(lia)). by apply fl_mono.
Qed.
Lemma mult_between (x : Q) n m : (0 <= x)%Q → (x <= inject_Z n)%Q → 0 ≤ m → (0 <= x * inject_Z m)%Q ∧ (x * inject_Z m <= inject_Z (n * m))%Q.
Proof.
  intros H0 Hx Hm. rewrite inject_Z_mult. assert (0 <= inject_Z m)%Q as Hq by (by apply inject_nonneg). split.
  - by apply Qmult_le_0_compat.
  - by apply Qmult_le_compat_r.
Qed.
Lemma fl_above x n : 0 ≤ n ≤ 2 ^ 53 → (inject_Z n <= x)%Q → (inject_Z n <= fl h x)%Q.
Proof. intros Hn Hx. rewrite <- (fl_exact n Hn). by apply fl_mono. Qed.
End quota.

(** A share of the machine becomes at least one microsecond and at most all processors of a period, however
    the arithmetic rounds; and the whole machine becomes exactly all of them. *)
Theorem cpu_quota_bounded (h : cg_host) (percent : f64) (period quota : Z) : F64Rounding (fl h) →
  1 ≤ cpus h → 1 ≤ period → cpus h * period ≤ 2 ^ 53 →
  cpu_quota_from_machine_percent h percent period = Ok quota →
  1 ≤ quota ≤ cpus h * period ∧ (percent = Finite (100 # 1) → quota = cpus h * period).
Proof.
  intros Hfl Hc Hp Hb. unfold cpu_quota_from_machine_percent. intros ([] & Hv & H)%bind_Ok.
  destruct (cpu_ok percent) as (p & -> & Hp0 & Hp1); [by rewrite Hv|]. injection H as <-.
  assert (cpus h ≤ 2 ^ 53) as Hn by nia.
  assert (0 <= p / 100 <= inject_Z 1)%Q as [Hq0 Hq1].
  { split; [apply Qle_shift_div_l|apply Qle_shift_div_r]; try done. rewrite Qmult_0_l. by apply Qlt_le_weak. }
  destruct (fl_between h (p / 100) 1 Hq0 Hq1) as [Ha0 Ha1]; [lia|].
  destruct (mult_between _ _ (cpus h) Ha0 Ha1) as [Hb0 Hb1]; [lia|]. rewrite Z.mul_1_l in Hb1.
  destruct (fl_between h _ _ Hb0 Hb1) as [Hc0 Hc1]; [lia|].
  destruct (mult_between _ _ period Hc0 Hc1) as [Hd0 Hd1]; [lia|].
  destruct (fl_between h _ _ Hd0 Hd1) as [He0 He1]; [lia|].
  pose proof (round_bounds _ _ He0 He1) as Hr. assert (2 ^ 53 ≤ u64_max) as Hu by done.
  split; [nia|]. intros [= ->]. match goal with |- Z.min (Z.max ?r 1) _ = _ => assert (cpus h * period ≤ r) end; [|nia].
  apply round_lower; [nia|]. apply fl_above; [done|nia|]. rewrite inject_Z_mult. apply Qmult_le_compat_r; [|apply inject_nonneg; lia].
  apply fl_above; [done|lia|]. rewrite <- (Qmult_1_l (inject_Z (cpus h))) at 1. apply Qmult_le_compat_r; [|apply inject_nonneg; lia].
  apply (fl_above h _ 1); [lia|done].
Qed.

(** ** Removal *)

Definition removal_waits : list Z := [10; 20; 30; 40].
(** Why an attempt, or all from one on, did not remove the directory. *)
Definition refusal (h : cg_host) (path : string) (from : nat) : Prop :=
  lingers h path = true ∨
  (∃ n errno, (n < CGROUP_REMOVE_ATTEMPTS)%nat ∧ rmdir h path n = Refused errno ∧ cgroup_removal_is_retryable errno = false) ∨
  (∀ n, (from ≤ n < CGROUP_REMOVE_ATTEMPTS)%nat → ∃ errno, rmdir h path n = Refused errno ∧ cgroup_removal_is_retryable errno = true).
Lemma no_wait (k : nat) (l : list Z) : ∃ ws, l = l ++ ws ∧ ws `prefix_of` drop k removal_waits.
Proof. exists []. split; [by rewrite app_nil_r|apply prefix_nil]. Qed.
Lemma remove_attempts_spec h left attempt e path s r s' : (left + attempt = CGROUP_REMOVE_ATTEMPTS)%nat →
  remove_attempts h left attempt e path s = (r, s') →
  (∃ ws, waited s' = waited s ++ ws ∧ ws `prefix_of` drop attempt removal_waits) ∧ dirs s' ∖ {[path]} = dirs s ∖ {[path]} ∧
  if is_ok r then path ∉ dirs s' else refusal h path attempt.
Proof.
  revert attempt e s. induction left as [|left IH]; intros attempt e s Hl; cbn [remove_attempts].
  { intros [= <- <-]. cbn. split_and!; [apply no_wait|done|]. do 2 right. intros n ?. lia. }
  destruct (rmdir h path attempt) as [|errno] eqn:Er.
  { unfold mbind, stm_bind, modify, assert. destruct (lingers h path) eqn:El; intros [= <- <-]; cbn; split_and!; [apply no_wait|set_solver| |apply no_wait|set_solver..].
    by left. }
  destruct (errno =? ENOENT); [intros [= <- <-]; cbn; split_and!; [apply no_wait|set_solver..]|].
  destruct (cgroup_removal_is_retryable errno) eqn:Ek; [|intros [= <- <-]; split_and!; [apply no_wait|done|]; right; left; exists attempt, errno; split_and!; [lia|done..]].
  assert (refusal h path (S attempt) → refusal h path attempt) as Hback.
  { intros [H|[H|H]]; [by left|by right; left|]. do 2 right. intros n Hn. destruct (decide (n = attempt)) as [->|]; [eauto|]. apply H. lia. }
  unfold mbind, stm_bind at 1. destruct (Nat.ltb_spec (attempt + 1) CGROUP_REMOVE_ATTEMPTS) as [Ha|Ha]; cbn [modify mret stm_ret];
    intros H; apply IH in H as ((ws & Hw & Hp) & Hd & Hr); [|lia| |lia].
  - split_and!; [|done|by destruct (is_ok r); auto]. exists (10 * (Z.of_nat attempt + 1) :: ws). cbn in Hw. rewrite Hw, <- app_assoc. split; [done|].
    unfold CGROUP_REMOVE_ATTEMPTS in Ha. do 4 (destruct attempt as [|attempt]; [by apply prefix_cons|]). lia.
  - split_and!; [|done|by destruct (is_ok r); auto]. exists ws. split; [done|]. unfold CGROUP_REMOVE_ATTEMPTS in *.
    assert (attempt = 4%nat) as -> by lia. by apply prefix_nil_inv in Hp as ->.
Qed.

(** A removal waits at most four times, 10, 20, 30 and 40 milliseconds, and touches no other group; what it
    reports as removed is gone, and it gives up only on a refusal that does not clear itself or after five
    refusals. *)
Theorem removal_bounded (h : cg_host) (path : string) (s s' : cg) (r : result unit) : remove_cgroup_path h path s = (r, s') →
  (∃ ws, waited s' = waited s ++ ws ∧ foldr Z.add 0 ws ≤ 100 ∧ ws `prefix_of` removal_waits) ∧ writes s' = writes s ∧
  dirs s' ∖ {[path]} = dirs s ∖ {[path]} ∧ if is_ok r then path ∉ dirs s' else refusal h path 0.
Proof.
  unfold remove_cgroup_path, gets, mbind, stm_bind. case_bool_decide as Hd; cbn [negb].
  - intros H. pose proof (remove_attempts_quiet h CGROUP_REMOVE_ATTEMPTS 0 0 path s) as Hw. rewrite H in Hw. cbn [snd] in Hw.
    apply remove_attempts_spec in H as ((ws & Hws & Hp) & Hds & Hr); [|done]. split_and!; [|done..]. exists ws. split_and!; [done| |done].
    destruct Hp as [k Hk]. unfold removal_waits in Hk. do 4 (destruct ws as [|? ws]; [by cbn|injection Hk as <- Hk]). by destruct ws.
  - intros [= <- <-]. cbn. split_and!; [|done..]. exists []. split_and!; [by rewrite app_nil_r|done|apply prefix_nil].
Qed.

(** ** Reading cgroupfs back *)

Definition unlines (l : list string) : string := foldr (λ x rest, x +:+ String "010" rest) "" l.
Definition plain_line (s : string) : Prop := free "010" s = true ∧ strip_suffix_char "013" s = None.
Lemma lines_unlines l : Forall plain_line l → lines (unlines l) = l.
Proof.
  intros Hl. unfold lines. assert (RustStr.split "010" (unlines l) = l ++ [""]) as ->.
  { induction Hl as [|x l [Hx _] Hl IH]; [done|]. change (unlines (x :: l)) with (x +:+ String "010" (unlines l)). rewrite split_app by done. by rewrite IH. }
  rewrite reverse_snoc, reverse_involutive.
  induction Hl as [|x l [_ Hx] Hl IH]; [done|]. cbn. unfold strip_cr at 1. rewrite Hx. cbn. by f_equal.
Qed.
Lemma no_suffix c s : free c s = true → strip_suffix_char c s = None.
Proof.
  intros Hf. destruct (strip_suffix_char c s) as [r|] eqn:E; [|done]. apply strip_suffix_char_Some in E as ->.
  unfold free in Hf. rewrite str_all_app in Hf. cbn in Hf. by rewrite Ascii.eqb_refl, andb_false_r in Hf.
Qed.
Lemma graphic_line s : str_all is_ascii_graphic s = true → plain_line s.
Proof.
  intros Hs. assert (∀ c, is_ascii_graphic c = false → free c s = true) as Hf.
  { intros c Hc. revert Hs. apply str_all_impl. intros a Ha. destruct (Ascii.eqb_spec a c) as [->|]; [congruence|done]. }
  split; [|apply no_suffix]; by apply Hf.
Qed.

(** A pid is found in the member list the kernel writes exactly when it is a member. *)
Theorem membership_read_back (pids : list Z) (pid : Z) : Forall (λ p, 0 ≤ p ≤ u32_max) pids → 0 ≤ pid ≤ u32_max →
  cgroup_contains_pid (Some (unlines (print_uint <$> pids))) pid = Ok (bool_decide (pid ∈ pids)).
Proof.
  intros Hp Hq. unfold cgroup_contains_pid. cbn [ok_or mbind result_bind]. f_equal. rewrite lines_unlines.
  2:{ apply Forall_fmap, list.Forall_forall. intros p _. apply graphic_line, digits_graphic, print_uint_digits. }
  induction Hp as [|p l Hp Hl IH]; [done|]. cbn [fmap list_fmap existsb]. rewrite IH, trim_graphic by apply digits_graphic, print_uint_digits.
  rewrite (bool_decide_ext _ (p = pid)).
  { rewrite <- bool_decide_or. apply bool_decide_ext. rewrite elem_of_cons. naive_solver. }
  split; [|by intros ->]. intros H. apply (f_equal (parse_uint u32_max)) in H. rewrite !parse_print_uint in H by lia. by injection H.
Qed.
Lemma membership_read_back_witness :
  Forall (λ p, 0 ≤ p ≤ u32_max) [12; 3] ∧ 0 ≤ 3 ≤ u32_max ∧
  cgroup_contains_pid (Some (unlines (print_uint <$> [12; 3]))) 3 = Ok (bool_decide (3 ∈ [12; 3])).
Proof.
  assert (Forall (λ p, 0 ≤ p ≤ u32_max) [12; 3]) as H by (repeat constructor; done). split; [done|]. split; [done|].
  by apply (membership_read_back [12; 3] 3).
Defined.

(** ** Names *)

Lemma cgroup_char_graphic c : cgroup_char c = true → is_ascii_graphic c = true.
Proof. revert c. by_byte. Qed.
Lemma valid_name n : validate_cgroup_name n = Ok tt → str_all cgroup_char n = true ∧ plain_name n = true.
Proof.
  unfold validate_cgroup_name, plain_name. case_bool_decide; [done|]. destruct (starts_with _ _); [done|]. repeat case_bool_decide; try done.
  cbn. destruct (str_any _ n || _); [done|]. destruct (str_all cgroup_char n) eqn:E; [|done]. intros _. split; [done|].
  rewrite !andb_true_r. revert E. apply str_all_impl. intros a Ha. destruct (Ascii.eqb_spec a "/") as [->|]; [by vm_compute in Ha|done].
Qed.
Lemma valid_free n c : validate_cgroup_name n = Ok tt → cgroup_char c = false → free c n = true.
Proof. intros [Hn _]%valid_name Hc. revert Hn. apply str_all_impl. intros a Ha. destruct (Ascii.eqb_spec a c) as [->|]; [congruence|done]. Qed.
Lemma ends_with_slash_join (base n : string) : n ≠ "" → free "/" n = true → ends_with_slash (base +:+ "/" +:+ n) = false.
Proof.
  intros Hn Hf. unfold ends_with_slash. destruct (strip_suffix_char "/" (base +:+ "/" +:+ n)) as [r|] eqn:E; [|done].
  apply strip_suffix_char_Some in E. apply (f_equal str_rev) in E. rewrite !str_rev_dist in E. unfold free in Hf. rewrite <- (str_all_rev _ n) in Hf.
  destruct (str_rev n) as [|a m] eqn:En; [|by injection E as -> _]. apply (f_equal str_rev) in En. by rewrite str_rev_involutive in En.
Qed.
Lemma workspace_cgroup_path_eq sb ws : validate_cgroup_name (sandbox_cgroup_name sb) = Ok tt →
  workspace_cgroup_path sb ws = CGROUP_ROOT +:+ "/" +:+ sandbox_cgroup_name sb +:+ "/" +:+ workspace_cgroup_name sb ws.
Proof.
  intros Hv. unfold workspace_cgroup_path. change (path_join CGROUP_ROOT (sandbox_cgroup_name sb)) with (CGROUP_ROOT +:+ "/" +:+ sandbox_cgroup_name sb).
  unfold path_join. change (starts_with "/" (workspace_cgroup_name sb ws)) with false. cbv iota. rewrite bool_decide_eq_false_2 by done.
  rewrite ends_with_slash_join; [|done|by apply valid_free]. by rewrite !str_app_assoc.
Qed.

(** The runtime of a workspace is recognised: whatever other hierarchies the kernel lists before it, a process in the group that
    holds the processes of a workspace is read as being there. *)
Theorem runtime_cgroup_recognised (before : list string) (sb ws : string) :
  Forall plain_line before → Forall (λ l, unified_path l = None) before →
  validate_cgroup_name (sandbox_cgroup_name sb) = Ok tt → validate_cgroup_name (workspace_cgroup_name sb ws) = Ok tt →
  runtime_cgroup_path (Some (unlines (before ++ ["0::/" +:+ sandbox_cgroup_name sb +:+ "/" +:+ workspace_cgroup_name sb ws]))) =
    Ok (Some (workspace_cgroup_path sb ws)).
Proof.
  intros Hl Hn Hs Hw. unfold runtime_cgroup_path. cbn [ok_or mbind result_bind]. f_equal. rewrite lines_unlines.
  - induction Hn as [|l before Hu Hn IH]; [by rewrite workspace_cgroup_path_eq|]. cbn [app first_unified]. rewrite Hu. apply IH. by inversion Hl.
  - apply Forall_app_2; [done|]. constructor; [|done]. apply graphic_line. rewrite !str_all_app.
    apply valid_name in Hs as [Hs _], Hw as [Hw _]. rewrite (str_all_impl _ _ _ cgroup_char_graphic Hs), (str_all_impl _ _ _ cgroup_char_graphic Hw). done.
Qed.
Lemma runtime_cgroup_recognised_witness :
  runtime_cgroup_path (Some (unlines (["12:cpu,cpuacct:/user"] ++ ["0::/" +:+ sandbox_cgroup_name "a1" +:+ "/" +:+ workspace_cgroup_name "a1" "b2"]))) =
    Ok (Some (workspace_cgroup_path "a1" "b2")).
Proof. apply (runtime_cgroup_recognised ["12:cpu,cpuacct:/user"] "a1" "b2"); [repeat constructor|repeat constructor|reflexivity..]. Defined.

(** ** Synchronising a sandbox *)

(** A write that moves a process moves the runtime of one of the workspaces into its own group. *)
Definition joins_own (h : cg_host) (sb : SandboxMetadata) (l : list WorkspaceMetadata) (x : control_write) : Prop :=
  w_file x = "cgroup.procs" → ∃ w pid, w ∈ l ∧ active_pid h w = Some pid ∧
    x = mkWrite (workspace_cgroup_path (sb_id sb) (id w)) "cgroup.procs" (print_uint pid).
Lemma Forall_controllers h sb l t dir : t `sublist_of` controller_writes dir → Forall (joins_own h sb l) t.
Proof.
  intros Ht%sublist_submseteq. apply list.Forall_forall. intros x Hx Hf. apply (elem_of_submseteq _ _ _ Hx) in Ht.
  apply list_elem_of_fmap in Ht as (c & -> & _). done.
Qed.
Lemma Forall_limits h sb l dir c : Forall (joins_own h sb l) (limit_writes dir c).
Proof. by repeat constructor. Qed.
Lemma constraints_join h sb l w pid : w ∈ l → active_pid h w = Some pid →
  tells (joins_own h sb l) (apply_workspace_runtime_constraints h sb w pid).
Proof.
  intros Hw Hp. apply tells_bind; [apply tells_sync|intros _ s]. destruct (v2 h) eqn:Hv.
  - destruct (ensure_workspace_cgroup_hierarchy h sb w pid s) as [[u|e] s'] eqn:E.
    + apply hierarchy_Ok in E as (cs & cw & t1 & t2 & t3 & _ & _ & Ht1 & Ht2 & Ht3 & _ & _ & Ht & _); [|done]. eexists. split; [exact Ht|].
      repeat apply Forall_app_2; eauto using Forall_controllers, Forall_limits. constructor; [|done]. intros _. by exists w, pid.
    + apply hierarchy_Err in E as (t & Ht & Hf). exists t. split; [done|]. eapply Forall_impl; [|exact Hf]. by intros x Hx ?.
  - revert s. change (tells (joins_own h sb l) (ensure_workspace_cgroup_hierarchy h sb w pid)). unfold ensure_workspace_cgroup_hierarchy. rewrite Hv. cbn [negb].
    apply tells_bind; [apply tells_lift|intros cs]. apply tells_bind; [apply tells_lift|intros cw]. do 2 (apply tells_if; [apply tells_lift|]). apply tells_ret.
Qed.
Lemma constrain_active_join h sb l l' : l' ⊆ l → tells (joins_own h sb l) (constrain_active h sb l').
Proof.
  induction l' as [|w l' IH]; intros Hl; cbn [constrain_active]; [apply tells_ret|]. apply tells_bind; [|intros _; apply IH; set_solver].
  destruct (active_pid h w) as [pid|] eqn:Ha; [|apply tells_ret]. apply constraints_join; set_solver.
Qed.

(** Bringing a sandbox's limits up to date moves only the runtimes the registry records as running, each
    into the group of its own workspace; a sandbox that is not running, or one that is unknown, changes nothing. *)
Theorem sync_moves_own_runtimes (h : cg_host) (r : Registry) (selector : string) (s s' : cg) (res : result unit) :
  sync_sandbox_runtime_limits h r selector s = (res, s') →
  s' = s ∨ ∃ sid e t, resolve_sandbox_id r selector = Ok sid ∧ sandboxes r !! sid = Some e ∧ sb_status (metadata e) = SbRunning ∧
    writes s' = writes s ++ t ∧ Forall (joins_own h (metadata e) (btree_values (workspaces e))) t.
Proof.
  unfold sync_sandbox_runtime_limits. intros [(sid & s1 & (Hr & ->)%lift_Ok & H)|(e & [= _ <-] & _)]%stm_bind_cases; [|by left].
  apply stm_bind_cases in H as [(e & s1 & (He%ok_or_Ok & ->)%lift_Ok & H)|(e & [= _ <-] & _)]; [|by left].
  cbv zeta in H. case_bool_decide as Hs; cbn [negb] in H; [|injection H as _ <-; by left]. right. exists sid, e.
  match type of H with ?m s = _ => assert (tells (joins_own h (metadata e) (btree_values (workspaces e))) m) as Ht end.
  { apply tells_if; [|by apply constrain_active_join]. apply tells_bind; [apply tells_lift|intros c]. apply tells_if; [|apply tells_ret].
    apply tells_if; [|unfold remove_sandbox_cgroup; eauto using tells_remove with tells].
    apply tells_bind; [|intros; apply tells_ret]. apply tells_child; [by intros v Hf|intros f v Hn Hf; by destruct Hn]. }
  destruct (Ht s) as (t & Ht' & Hf). rewrite H in Ht'. by exists t.
Qed.

(** ** Examples *)

Definition sample_cg_host : cg_host :=
  mkCgHost true (λ _ _, true) (λ _, true) (λ _ n, if (n <? 2)%nat then Refused EBUSY else Removed) (λ _, false) 4 (λ q, q) (λ _, true) (λ _ _, true) (λ _ _, true).
Definition sample_cg : cg := mkCg {[CGROUP_ROOT; "/sys/fs/cgroup/enclave-ws-42"]} [] {[42 := (RLIM_INFINITY, RLIM_INFINITY)]} [] [].
Definition limited_sandbox : SandboxMetadata :=
  mkSandbox "s" "dev" "bookworm" "" CachedRootfs "" "/t/s" "/t/s/rootfs" None "" "/t/s/workspaces" ""
    (mkSbLimits (Some (Finite (50 # 1))) None (Some 512) None None) SbRunning.
Definition limited_workspace : WorkspaceMetadata :=
  mkWorkspace "a" "s" "web" "" None None None "/t/s/workspaces/a" "" "" None "" "" "" "" "" [] None [] [] Running
    (Some 42) (Some 7) default_refs true false None None (mkWsLimits None None (Some 33554432) None None None) None.
Lemma limits_before_join_witness : v2 sample_cg_host = true ∧ ∃ s',
  apply_workspace_runtime_constraints sample_cg_host limited_sandbox limited_workspace 42 sample_cg = (Ok tt, s') ∧
  waited s' = [10; 20] ∧ address_space s' !! 42 = Some (33554432, RLIM_INFINITY).
Proof.
  split; [done|]. destruct (apply_workspace_runtime_constraints sample_cg_host limited_sandbox limited_workspace 42 sample_cg) as [r s'] eqn:E.
  assert (r = Ok tt ∧ waited s' = [10; 20]) as [-> Hw]. { vm_compute in E. injection E as <- <-. done. }
  exists s'. split_and!; [done..|].
  destruct (limits_before_join sample_cg_host limited_sandbox limited_workspace 42 sample_cg s' (Ok tt) E) as [_ Ha].
  apply (Ha RLIM_INFINITY). by vm_compute.
Defined.
Lemma cpu_quota_bounded_witness : cpu_quota_from_machine_percent sample_cg_host (Finite (100 # 1)) 100000 = Ok 400000 ∧
  400000 = cpus sample_cg_host * 100000.
Proof.
  assert (cpu_quota_from_machine_percent sample_cg_host (Finite (100 # 1)) 100000 = Ok 400000) as H by (by vm_compute). split; [exact H|].
  by apply (cpu_quota_bounded sample_cg_host (Finite (100 # 1)) 100000 400000 exact_rounding ltac:(by vm_compute) ltac:(lia) ltac:(by vm_compute) H).
Defined.
Lemma removal_bounded_witness : ∃ s', remove_cgroup_path sample_cg_host "/sys/fs/cgroup/enclave-ws-42" sample_cg = (Ok tt, s') ∧
  "/sys/fs/cgroup/enclave-ws-42" ∉ dirs s'.
Proof.
  destruct (remove_cgroup_path sample_cg_host "/sys/fs/cgroup/enclave-ws-42" sample_cg) as [r s'] eqn:E.
  assert (r = Ok tt) as -> by (vm_compute in E; by injection E as <- _). exists s'. split; [done|].
  by apply (removal_bounded sample_cg_host _ sample_cg s' (Ok tt) E).
Defined.
Definition limited_registry : Registry := with_sandboxes {["s" := mkEntry limited_sandbox {["a" := limited_workspace]}]} default_registry.
Lemma sync_moves_own_runtimes_witness : ∃ s',
  sync_sandbox_runtime_limits sample_cg_host limited_registry "dev" sample_cg = (Ok tt, s') ∧ s' ≠ sample_cg ∧
  ∃ sid e t, resolve_sandbox_id limited_registry "dev" = Ok sid ∧ sandboxes limited_registry !! sid = Some e ∧
    writes s' = writes sample_cg ++ t ∧ Forall (joins_own sample_cg_host (metadata e) (btree_values (workspaces e))) t.
Proof.
  destruct (sync_sandbox_runtime_limits sample_cg_host limited_registry "dev" sample_cg) as [r s'] eqn:E.
  assert (r = Ok tt ∧ waited s' = [10; 20]) as [-> Hw]. { vm_compute in E. injection E as <- <-. done. }
  assert (s' ≠ sample_cg) as Hne by (intros ->; done). exists s'. split; [done|]. split; [done|].
  destruct (sync_moves_own_runtimes sample_cg_host limited_registry "dev" sample_cg s' (Ok tt) E) as [Heq|(sid & e & t & Hr & He & _ & Hw' & Hf)];
    [by destruct Hne|by exists sid, e, t].
Defined.
