(* ===== verification/Sessions.v ===== *)
(** * Runtime processes (src/src/workspace/session/stop.rs, process)

    How a pid from a record is told apart from another process, when it may be
    signalled, and how a batch of runtimes is stopped.  The kernel's process table
    changes on its own, so it is a function of an observation counter that every
    read advances: a statement about all of them covers every timing. *)
From S2P Require Import Prelude RustStr Paths Cgroup.
Open Scope Z_scope.

(** What [/proc/<pid>] shows of a process. *)
Record proc := mkProc {
  proc_state : ascii;
  proc_ticks : Z;
  proc_group : option Z;
  proc_status : option (option Z);         (** the status file; its owner when that parses *)
  proc_cmdline : option string }.          (** [None] when it cannot be read *)

(** The run of one request: the next observation, the signals sent so far and the
    cgroups whose members were killed, each with the observation it came before. *)
Record trace := mkTrace { clock : nat; sent : list (nat * (Z * Z)); killed : list (nat * string) }.

Inductive SignalTarget := Signallable | Starting | ForeignOwner (owner_uid : Z).

Abbreviation target := (Z * option Z)%type.

Definition ENCLAVE_RUNTIME_CMDLINE_MARKERS : list string :=
  ["enclave-workspace-session"; "workspace-session-launch"; "workspace-session-init";
   "workspace-session-bootstrap"; "workspace-session-loop"].
Definition looks_like_enclave_runtime_cmdline (cmdline : string) : bool :=
  existsb (λ marker, str_contains marker cmdline) ENCLAVE_RUNTIME_CMDLINE_MARKERS.

Definition has_exited (p : proc) : bool :=
  bool_decide (proc_state p ∈ ["Z"%char; "X"%char; "x"%char]).

(** The host: the process table over time, the daemon's uid, and what the system
    calls answer. *)
Record process_host := mkProcesses {
  table : nat → Z → option proc;
  euid : Z;
  may_signal : Z → Z → bool;               (** [kill] succeeds or finds nobody *)
  cgroup_file : nat → Z → option string;   (** what [/proc/<pid>/cgroup] reads as *)
  cgroup_procs : nat → string → option string;   (** what a group's [cgroup.procs] reads as *)
  cgroup_v2 : bool;
  kill_file : string → bool;               (** the group has a [cgroup.kill] *)
  may_kill : string → bool;                (** which takes the write *)
  proc_dir : nat → option (list (option string)) }.   (** the entries of [/proc]; [None] inside for one that fails *)

Section processes.
Context (h : process_host).

Definition observe (pid : Z) : stm trace (option proc) := λ st,
  (Ok (table h (clock st) pid), mkTrace (S (clock st)) (sent st) (killed st)).

(** ** Identity (process/mod.rs) *)

Definition matches_record (ticks : option Z) (o : option proc) : bool :=
  match o with
  | Some p => negb (has_exited p) && match ticks with Some t => t =? proc_ticks p | None => true end
  | None => false
  end.
Definition process_matches (t : target) : stm trace bool := o ← observe t.1; mret (matches_record t.2 o).

Definition send_signal (pid signal : Z) : stm trace unit :=
  modify (λ st, mkTrace (clock st) (sent st ++ [(clock st, (pid, signal))]) (killed st));;
  assert (may_signal h pid signal) "failed to send signal".

Definition SIGTERM : Z := 15.
Definition SIGKILL : Z := 9.

(** [verify_signal_target]; [0] is root, which owns every process. *)
Definition check_cmdline (t : target) : stm trace SignalTarget :=
  o ← observe t.1;
  match o ≫= proc_cmdline with
  | Some c => mret (if looks_like_enclave_runtime_cmdline c then Signallable else Starting)
  | None =>
      alive ← process_matches t;
      if alive : bool then throw "failed to read cmdline" else mret Signallable
  end.
Definition verify_signal_target (t : target) : stm trace SignalTarget :=
  alive ← process_matches t;
  if negb alive then mret Signallable
  else
    o ← observe t.1;
    match o ≫= proc_status with
    | Some None => throw "failed to parse uid"
    | Some (Some owner) =>
        if negb (euid h =? 0) && negb (owner =? euid h) then mret (ForeignOwner owner) else check_cmdline t
    | None =>
        alive ← process_matches t;
        if alive : bool then throw "failed to read status" else mret Signallable
    end.

(** ** Sorting the targets of a stop (session/stop.rs) *)

Record StopTargets := mkStopTargets {
  signallable : list target;
  starting : list target;
  stopped : list target;
  unreadable : list target }.

(** One target goes into one bucket. *)
Definition classify (t : target) (s : StopTargets) : stm trace StopTargets := λ st,
  let '(r, st1) := process_matches t st in
  match r with
  | Ok true =>
      let '(v, st2) := verify_signal_target t st1 in
      (Ok match v with
          | Ok Signallable => mkStopTargets (signallable s ++ [t]) (starting s) (stopped s) (unreadable s)
          | Ok Starting => mkStopTargets (signallable s) (starting s ++ [t]) (stopped s) (unreadable s)
          | Ok (ForeignOwner _) => mkStopTargets (signallable s) (starting s) (stopped s ++ [t]) (unreadable s)
          | Err _ => mkStopTargets (signallable s) (starting s) (stopped s) (unreadable s ++ [t])
          end, st2)
  | _ => (Ok (mkStopTargets (signallable s) (starting s) (stopped s ++ [t]) (unreadable s)), st1)
  end.
Fixpoint sort_targets (l : list target) (s : StopTargets) : stm trace StopTargets :=
  match l with
  | [] => mret s
  | t :: l' => s' ← classify t s; sort_targets l' s'
  end.
Definition no_targets : StopTargets := mkStopTargets [] [] [] [].
Definition sort (l : list target) : stm trace StopTargets := sort_targets l no_targets.

(** [polls] is how often the command lines are read again before the deadline. *)
Fixpoint settle (polls : nat) (s : StopTargets) : stm trace StopTargets :=
  match polls with
  | O => mret s
  | S polls' =>
      if bool_decide (starting s = []) then mret s
      else
        x ← sort (starting s);
        settle polls' (mkStopTargets (signallable s ++ signallable x) (starting x ++ unreadable x)
                         (stopped s ++ stopped x) (unreadable s))
  end.

Definition resolve_unreadable (s : StopTargets) : stm trace StopTargets :=
  x ← sort_targets (unreadable s) (mkStopTargets (signallable s) (starting s) (stopped s) []);
  if bool_decide (unreadable x = []) then mret x
  else throw "session pid is alive and matches its record but could not be inspected".

(** ** Stopping a batch *)

Record BatchStopResult := mkBatchStop { stopped_pids : gset Z; failed_pids : gset Z }.

Fixpoint for_each {A} (f : A → stm trace unit) (l : list A) : stm trace unit :=
  match l with [] => mret tt | x :: l' => f x;; for_each f l' end.
Fixpoint collect_running_targets (l : list target) : stm trace (list target) :=
  match l with
  | [] => mret []
  | t :: l' => a ← process_matches t; rest ← collect_running_targets l'; mret (if a : bool then t :: rest else rest)
  end.

(** [runtime_cgroup_path] and [cgroup_contains_pid], each on what its file holds then. *)
Definition tick (st : trace) : trace := mkTrace (S (clock st)) (sent st) (killed st).
Definition cgroup_of (pid : Z) : stm trace (option string) := λ st,
  (runtime_cgroup_path (cgroup_file h (clock st) pid), tick st).
Definition cgroup_has (dir : string) (pid : Z) : stm trace (result bool) := λ st,
  (Ok (cgroup_contains_pid (cgroup_procs h (clock st) dir) pid), tick st).
(** [file_name().is_some_and(|name| name.starts_with("enclave-ws-"))]; no name of a
    path's root, or of [.] or [..], does. *)
Definition workspace_cgroup (dir : string) : bool :=
  match list.last (path_components dir) with Some name => starts_with "enclave-ws-" name | None => false end.
(** [kill_cgroup_members], which kills every process of the group. *)
Definition kill_members (dir : string) : stm trace bool :=
  if negb (cgroup_v2 h) then mret false
  else if negb (kill_file h dir) then mret false
  else
    modify (λ st, mkTrace (clock st) (sent st) (killed st ++ [(clock st, dir)]));;
    assert (may_kill h dir) "failed to kill processes";;
    mret true.

(** The group of the target is killed when it is a workspace's and the target is in it. *)
Definition kill_cgroup (pid : Z) : stm trace bool :=
  path ← cgroup_of pid;
  match path with
  | None => mret false
  | Some dir =>
      if workspace_cgroup dir then
        inside ← cgroup_has dir pid;
        if default false (result_ok inside) then kill_members dir else mret false
      else mret false
  end.
Definition kill_one (t : target) : stm trace unit :=
  cgroup_killed ← kill_cgroup t.1;
  if cgroup_killed : bool then mret tt else send_signal t.1 SIGKILL.
Definition kill_again (t : target) : stm trace unit := λ st,
  let '(v, st1) := verify_signal_target t st in
  match v with
  | Ok Signallable => send_signal t.1 SIGKILL st1
  | _ => (Ok tt, st1)
  end.

(** The last look at the signalled targets. *)
Definition mark_already_stopped (r : BatchStopResult) (t : target) : BatchStopResult :=
  mkBatchStop ({[t.1]} ∪ stopped_pids r) (failed_pids r).
Fixpoint mark_each (l : list target) (r : BatchStopResult) : stm trace BatchStopResult :=
  match l with
  | [] => mret r
  | t :: l' =>
      a ← process_matches t;
      mark_each l' (if a : bool then mkBatchStop (stopped_pids r) ({[t.1]} ∪ failed_pids r)
                    else mark_already_stopped r t)
  end.

(** The waits for an exit observe the processes too, which only advances the
    counter. *)
Definition wait_for_targets_to_exit (observations : nat) : stm trace unit :=
  modify (λ st, mkTrace (clock st + observations) (sent st) (killed st)).

(** Once the targets are sorted: signal, wait, kill what is left, and look again. *)
Definition stop_sorted (term kill again : nat) (s : StopTargets) : stm trace BatchStopResult :=
  let pending := signallable s in
  for_each (λ t : target, send_signal t.1 SIGTERM) pending;;
  wait_for_targets_to_exit term;;
  remaining ← collect_running_targets pending;
  for_each kill_one remaining;;
  wait_for_targets_to_exit kill;;
  still_running ← collect_running_targets pending;
  for_each kill_again still_running;;
  wait_for_targets_to_exit again;;
  mark_each pending (foldl mark_already_stopped (mkBatchStop ∅ ∅) (starting s ++ stopped s)).

Definition stop_sessions_batch (polls term kill again : nat) (targets : list target) : stm trace BatchStopResult :=
  sorted ← sort targets;
  settled ← settle polls sorted;
  s ← resolve_unreadable settled;
  stop_sorted term kill again s.

Definition stop_one_session (polls term kill again : nat) (t : target) : stm trace unit :=
  r ← stop_sessions_batch polls term kill again [t];
  if bool_decide (t.1 ∈ failed_pids r)
  then lift (bail_coded Timeout "workspace session did not exit after SIGTERM and SIGKILL") else mret tt.

(** ** Process groups (process/mod.rs) *)

Definition signal_group_member (pid pgid signal : Z) : stm trace unit :=
  o ← observe pid;
  if negb (match o with Some p => negb (has_exited p) | None => false end) then mret tt
  else
    g ← observe pid;
    if negb (bool_decide (g ≫= proc_group = Some pgid)) then mret tt
    else send_signal pid signal.

Fixpoint member_loop (pgid : Z) (entries : list (option string)) : stm trace (list Z) :=
  match entries with
  | [] => mret []
  | None :: _ => throw "failed to read an entry of /proc"
  | Some name :: rest =>
      match parse_uint 4294967295 name with
      | None => member_loop pgid rest
      | Some pid =>
          o ← observe pid;
          if match o with Some p => has_exited p | None => true end then member_loop pgid rest
          else
            g ← observe pid;
            if negb (bool_decide (g ≫= proc_group = Some pgid)) then member_loop pgid rest
            else
              members ← member_loop pgid rest;
              mret (pid :: members)
      end
  end.
Definition live_process_group_members (pgid : Z) : stm trace (list Z) :=
  if pgid <=? 1 then mret []
  else
    st ← get;
    entries ← lift (ok_or (proc_dir h (clock st)) (plain "failed to read /proc"));
    member_loop pgid entries.

Definition signal_process_group (leader_pid : Z) (starttime_ticks : option Z) (pgid signal : Z) : stm trace unit :=
  if (pgid <=? 1) || negb (leader_pid =? pgid) then throw "refusing to signal process group"
  else
    match starttime_ticks with
    | None => throw "refusing to signal process group: leader start time is unknown"
    | Some ticks =>
        alive ← process_matches (leader_pid, Some ticks);
        if alive : bool then send_signal (- pgid) signal
        else
          o ← observe leader_pid;
          assert (match o with Some p => has_exited p && (proc_ticks p =? ticks) | None => true end)
            "refusing to signal process group: leader changed identity";;
          members ← live_process_group_members pgid;
          for_each (λ pid, signal_group_member pid pgid signal) members
    end.
End processes.

(** ** Host names *)

Fixpoint hostname_loop (s : string) (out : string) (previous_dash : bool) : string :=
  match s with
  | EmptyString => out
  | String c s' =>
      let lowered := ascii_lower c in
      let '(out', dash) :=
        if is_ascii_alphanumeric lowered then (out +:+ String lowered "", false)
        else if negb previous_dash then (out +:+ "-", true) else (out, previous_dash) in
      if (63 <=? String.length out')%nat then out' else hostname_loop s' out' dash
  end.
(** [trim_matches] *)
Fixpoint trim_start_dash (s : string) : string :=
  match s with String c s' => if (c =? "-")%char then trim_start_dash s' else s | EmptyString => s end.
Definition trim_dashes (s : string) : string := str_rev (trim_start_dash (str_rev (trim_start_dash s))).
Definition workspace_runtime_hostname (name : string) : string :=
  let trimmed := trim_dashes (hostname_loop name "" false) in
  if bool_decide (trimmed = "") then "workspace" else trimmed.

(** * Who is signalled *)

Section signals.
Context (h : process_host) (lo : nat) (targets : list target).

(** Between the observations [lo] and [k] the target was seen to be gone, or seen as
    a runtime: its owner is the daemon's user, or the daemon is root, and its command
    line is a runtime's. *)
Definition vouched (k : nat) (t : target) : Prop :=
  (∃ i, (lo ≤ i < k)%nat ∧ matches_record t.2 (table h i t.1) = false) ∨
  (∃ i j owner c, (lo ≤ i < k)%nat ∧ (lo ≤ j < k)%nat ∧
    table h i t.1 ≫= proc_status = Some (Some owner) ∧ (euid h = 0 ∨ owner = euid h) ∧
    table h j t.1 ≫= proc_cmdline = Some c ∧ looks_like_enclave_runtime_cmdline c = true).

(** Before [k] the target was seen to be in the group, by its own account and by the
    group's, and the group is named as one of a workspace. *)
Definition own_group (k : nat) (t : target) (dir : string) : Prop :=
  workspace_cgroup dir = true ∧
  (∃ i, (lo ≤ i < k)%nat ∧ runtime_cgroup_path (cgroup_file h i t.1) = Ok (Some dir)) ∧
  (∃ i, (lo ≤ i < k)%nat ∧ cgroup_contains_pid (cgroup_procs h i dir) t.1 = Ok true).

Definition signals_vouched (st : trace) : Prop :=
  (∀ k pid signal, (k, (pid, signal)) ∈ sent st → ∃ t, t ∈ targets ∧ t.1 = pid ∧ vouched k t) ∧
  (∀ k dir, (k, dir) ∈ killed st → ∃ t, t ∈ targets ∧ vouched k t ∧ own_group k t dir).

(** [m] only lets time pass and signals only who is vouched for, from a state where
    [P] holds of the time; its answer satisfies [Q]. *)
Definition careful {A} (P : nat → Prop) (m : stm trace A) (Q : A → nat → Prop) : Prop :=
  ∀ st, (lo ≤ clock st)%nat → signals_vouched st → P (clock st) →
    (clock st ≤ clock (m st).2)%nat ∧ signals_vouched (m st).2 ∧ ∀ a, (m st).1 = Ok a → Q a (clock (m st).2).

Lemma careful_bind {A B} P Q R (m : stm trace A) (f : A → stm trace B) :
  careful P m Q → (∀ a, careful (Q a) (f a) R) → careful P (m ≫= f) R.
Proof.
  intros Hm Hf st Hlo Hs HP. destruct (Hm st Hlo Hs HP) as (H1 & H2 & H3). unfold mbind, stm_bind.
  destruct (m st) as [[a|e] st1]; cbn [fst snd] in *; [|done].
  destruct (Hf a st1 ltac:(lia) H2 (H3 a eq_refl)) as (? & ? & ?). split_and!; [lia|done|done].
Qed.
Lemma careful_ret {A} P (a : A) (Q : A → nat → Prop) : (∀ k, P k → Q a k) → careful P (mret a) Q.
Proof. intros H st Hlo Hs HP. split_and!; [done|done|]. intros a' [= <-]. by apply H. Qed.
Lemma careful_err {A} P e (Q : A → nat → Prop) : careful P (lift (Err e)) Q.
Proof. intros st Hlo Hs HP. by split_and!. Qed.
Lemma careful_weaken {A} P P' (m : stm trace A) (Q Q' : A → nat → Prop) :
  careful P m Q → (∀ k, P' k → P k) → (∀ a k, Q a k → Q' a k) → careful P' m Q'.
Proof. intros Hm HP HQ st Hlo Hs H'. destruct (Hm st Hlo Hs (HP _ H')) as (? & ? & ?). split_and!; auto. Qed.
(** What stays true as time passes survives. *)
Lemma careful_frame {A} P (m : stm trace A) Q (R : nat → Prop) :
  careful P m Q → (∀ k k', (k ≤ k')%nat → R k → R k') → careful (λ k, P k ∧ R k) m (λ a k, Q a k ∧ R k).
Proof.
  intros Hm HR st Hlo Hs [HP Hr]. destruct (Hm st Hlo Hs HP) as (? & ? & ?).
  split_and!; [done|done|]. intros a Ha. split; [auto|by eapply HR].
Qed.

Abbreviation anytime := (λ _ : nat, True).

Lemma observe_careful pid : careful anytime (observe h pid) (λ o k, ∃ i, (lo ≤ i < k)%nat ∧ o = table h i pid).
Proof.
  intros st Hlo Hs _. unfold observe; cbn. split_and!; [lia|done|]. intros o [= <-]. exists (clock st). split; [lia|done].
Qed.
Lemma process_matches_seen t :
  careful anytime (process_matches h t) (λ b k, ∃ i, (lo ≤ i < k)%nat ∧ matches_record t.2 (table h i t.1) = b).
Proof.
  unfold process_matches. eapply careful_bind; [apply observe_careful|]. intros o. apply careful_ret.
  intros k (i & Hi & ->). eauto.
Qed.
Lemma process_matches_careful t :
  careful anytime (process_matches h t) (λ b k, b = false → vouched k t).
Proof.
  eapply careful_weaken; [apply process_matches_seen|done|]. intros b k (i & Hi & ?) ->. left. eauto.
Qed.

Lemma vouched_mono t k k' : (k ≤ k')%nat → vouched k t → vouched k' t.
Proof.
  intros Hk [(i & Hi & H)|(i & j & o & c & Hi & Hj & H)]; [left; exists i; split; [lia|done]|right].
  exists i, j, o, c. split; [lia|]. split; [lia|done].
Qed.

(** The owner of [t] was seen to be acceptable before [k]. *)
Definition owned (t : target) (k : nat) : Prop :=
  ∃ i owner, (lo ≤ i < k)%nat ∧ table h i t.1 ≫= proc_status = Some (Some owner) ∧ (euid h = 0 ∨ owner = euid h).
Lemma owned_mono t k k' : (k ≤ k')%nat → owned t k → owned t k'.
Proof. intros Hk (i & o & Hi & H). exists i, o. split; [lia|done]. Qed.

Abbreviation answers t := (λ (v : SignalTarget) k, v = Signallable → vouched k t).

(** A process that went away while it was being read. *)
Lemma gone_careful t message :
  careful anytime (alive ← process_matches h t; if alive : bool then throw message else mret Signallable) (answers t).
Proof.
  eapply careful_bind; [apply process_matches_careful|]. intros [|]; [apply careful_err|].
  apply careful_ret. auto.
Qed.

Lemma check_cmdline_careful t : careful (owned t) (check_cmdline h t) (answers t).
Proof.
  unfold check_cmdline. eapply careful_bind.
  { eapply careful_weaken with (P := λ k, True ∧ owned t k); [|by split|intros a k H; exact H].
    apply careful_frame; [apply observe_careful|apply owned_mono]. }
  intros o. cbv beta. destruct (o ≫= proc_cmdline) as [c|] eqn:Ec.
  - apply careful_ret. intros k [(i & Hi & ->) (j & owner & Hj & Ho & Hw)] Hv. right.
    destruct (looks_like_enclave_runtime_cmdline c) eqn:E; [|done]. by exists j, i, owner, c.
  - eapply careful_weaken; [apply gone_careful|done|auto].
Qed.

Lemma verify_careful t : careful anytime (verify_signal_target h t) (answers t).
Proof.
  unfold verify_signal_target. eapply careful_bind; [apply process_matches_careful|].
  intros [|]; cbn [negb]; [|apply careful_ret; auto].
  eapply careful_bind; [eapply careful_weaken; [apply observe_careful|done|intros a k H; exact H]|].
  intros o. cbv beta. destruct (o ≫= proc_status) as [[owner|]|] eqn:Eo; [|apply careful_err|
    eapply careful_weaken; [apply gone_careful|done|auto]].
  destruct (negb (euid h =? 0) && negb (owner =? euid h)) eqn:Ew; [apply careful_ret; done|].
  eapply careful_weaken; [apply check_cmdline_careful| |auto].
  intros k (i & Hi & ->). exists i, owner. do 2 (split; [done|]).
  apply andb_false_iff in Ew as [Ew%negb_false_iff%Z.eqb_eq|Ew%negb_false_iff%Z.eqb_eq]; auto.
Qed.

(** The stop has a reason to leave the target alone: it was seen to be gone, or its
    inspection answered something other than a runtime of ours. *)
Definition given_up (k : nat) (t : target) : Prop :=
  (∃ i, (lo ≤ i < k)%nat ∧ matches_record t.2 (table h i t.1) = false) ∨
  (∃ st, (lo ≤ clock st ≤ k)%nat ∧ (verify_signal_target h t st).1 ≠ Ok Signallable).
Lemma given_up_mono t k k' : (k ≤ k')%nat → given_up k t → given_up k' t.
Proof. intros Hk [(i & Hi & H)|(st & Hi & H)]; [left; exists i|right; exists st]; (split; [lia|done]). Qed.

Definition buckets (s : StopTargets) : list target := signallable s ++ starting s ++ stopped s ++ unreadable s.

(** The targets [l], each in one bucket for a reason seen by [k]. *)
Definition sorted_ok (l : list target) (s : StopTargets) (k : nat) : Prop :=
  buckets s ≡ₚ l ∧ Forall (vouched k) (signallable s) ∧ Forall (given_up k) (starting s ++ stopped s ++ unreadable s).
Lemma sorted_ok_mono l s k k' : (k ≤ k')%nat → sorted_ok l s k → sorted_ok l s k'.
Proof.
  intros Hk (? & Hv & Hg). split; [done|]. split; eapply list.Forall_impl; [exact Hv|..|exact Hg|];
    intros t; [by apply vouched_mono|by apply given_up_mono].
Qed.

(** What [classify] does with each answer. *)
Lemma bucket_signallable l s t k : sorted_ok l s k → vouched k t →
  sorted_ok (l ++ [t]) (mkStopTargets (signallable s ++ [t]) (starting s) (stopped s) (unreadable s)) k.
Proof.
  intros (Hp & Hv & Hg) Ht. unfold sorted_ok, buckets in *; cbn. rewrite <- Hp, Forall_app, Forall_singleton.
  split; [solve_Permutation|done].
Qed.
Lemma bucket_given_up l s t k a b c : sorted_ok l s k → given_up k t → a ++ b ++ c = [t] →
  sorted_ok (l ++ [t]) (mkStopTargets (signallable s) (starting s ++ a) (stopped s ++ b) (unreadable s ++ c)) k.
Proof.
  intros (Hp & Hv & Hg) Ht E. unfold sorted_ok, buckets in *; cbn. rewrite <- Hp, <- E.
  split; [solve_Permutation|]. split; [done|].
  assert (Forall (given_up k) (a ++ b ++ c)) as Habc by (by rewrite E; apply Forall_singleton).
  rewrite !Forall_app in *. tauto.
Qed.

Lemma classify_careful l t s : careful (sorted_ok l s) (classify h t s) (sorted_ok (l ++ [t])).
Proof.
  intros st Hlo Hs Hok. unfold classify.
  generalize (process_matches_careful t st Hlo Hs I).
  assert (given_up (clock (process_matches h t st).2) t ∨ (process_matches h t st).1 = Ok true) as Hg1.
  { unfold process_matches, observe, mbind, stm_bind; cbn. destruct (matches_record t.2 _) eqn:E; [by right|].
    left; left. exists (clock st). split; [lia|done]. }
  destruct (process_matches h t st) as [r st1]; cbn [fst snd] in *; intros (C1 & S1 & _).
  apply (sorted_ok_mono _ _ _ (clock st1) C1) in Hok.
  assert (r = Ok true ∨ r ≠ Ok true) as [->|Hr] by (destruct r as [[|]|]; auto).
  - generalize (verify_careful t st1 ltac:(lia) S1 I).
    assert ((verify_signal_target h t st1).1 ≠ Ok Signallable → given_up (clock (verify_signal_target h t st1).2) t) as Hg2.
    { intros Hne. right. exists st1. split; [|done]. destruct (verify_careful t st1 ltac:(lia) S1 I) as (? & _). lia. }
    destruct (verify_signal_target h t st1) as [v st2]; cbn [fst snd] in *; intros (C2 & S2 & V2).
    apply (sorted_ok_mono _ _ _ (clock st2) C2) in Hok.
    split; [lia|]. split; [done|]. intros a [= <-].
    destruct v as [[| |o]|e].
    + apply bucket_signallable; [done|by apply (V2 Signallable)].
    + eapply (bucket_given_up _ _ _ _ [t] [] []) in Hok; [|by apply Hg2|done]. by rewrite !app_nil_r in Hok.
    + eapply (bucket_given_up _ _ _ _ [] [t] []) in Hok; [|by apply Hg2|done]. by rewrite !app_nil_r in Hok.
    + eapply (bucket_given_up _ _ _ _ [] [] [t]) in Hok; [|by apply Hg2|done]. by rewrite !app_nil_r in Hok.
  - destruct Hg1 as [Hg1|?]; [|done]. eapply (bucket_given_up _ _ _ _ [] [t] []) in Hok; [|done..].
    rewrite !app_nil_r in Hok. destruct r as [[|]|]; [done|..]; (do 2 (split; [done|]); by intros a [= <-]).
Qed.

Lemma sort_targets_careful l l' s : careful (sorted_ok l s) (sort_targets h l' s) (sorted_ok (l ++ l')).
Proof.
  revert l s. induction l' as [|t l' IH]; intros l s; cbn; [rewrite app_nil_r; by apply careful_ret|].
  eapply careful_bind; [apply classify_careful|]. intros s'.
  replace (l ++ t :: l') with ((l ++ [t]) ++ l') by (by rewrite <- app_assoc). apply IH.
Qed.
Lemma sort_careful l : careful anytime (sort h l) (sorted_ok l).
Proof.
  eapply careful_weaken; [apply (sort_targets_careful [])| |done]. intros k _. by split_and!.
Qed.

Lemma settle_careful polls l s : careful (sorted_ok l s) (settle h polls s) (sorted_ok l).
Proof.
  revert s. induction polls as [|polls IH]; intros s; cbn; [by apply careful_ret|].
  case_bool_decide; [by apply careful_ret|].
  eapply careful_bind; [eapply careful_weaken with (P := λ k, True ∧ sorted_ok l s k); [|by split|intros a k Q; exact Q];
    apply careful_frame; [apply sort_careful|by apply sorted_ok_mono]|].
  intros x. cbv beta. eapply careful_weaken; [apply IH| |done].
  intros k [(Px & Vx & Gx) (Ps & Vs & Gs)]. unfold sorted_ok, buckets in *; cbn.
  split_and!; [rewrite <- Ps, <- Px; solve_Permutation|by apply Forall_app_2|]. rewrite !Forall_app in *. tauto.
Qed.

Lemma resolve_careful l s : careful (sorted_ok l s) (resolve_unreadable h s) (sorted_ok l).
Proof.
  unfold resolve_unreadable. eapply careful_bind.
  - eapply careful_weaken; [eapply careful_frame with (R := λ _, buckets s ≡ₚ l);
      [apply (sort_targets_careful (signallable s ++ starting s ++ stopped s))|done]|..|intros x k Q; exact Q].
    intros k (Ps & Vs & Gs). split; [|done]. unfold sorted_ok, buckets in *; cbn. rewrite !app_nil_r.
    split; [done|]. rewrite !Forall_app in *. tauto.
  - intros x. cbv beta. case_bool_decide; [apply careful_ret|apply careful_err].
    intros k [(Px & Hx) Ps]. split; [|done]. rewrite Px, <- Ps. unfold buckets. by rewrite <- !app_assoc.
Qed.

(** ** The signals of a stop *)

Abbreviation pending_ok pending := (λ k, Forall (λ t : target, t ∈ targets ∧ vouched k t) pending).
Lemma pending_ok_mono pending k k' : (k ≤ k')%nat → pending_ok pending k → pending_ok pending k'.
Proof.
  intros Hk H. eapply list.Forall_impl; [exact H|]. intros t [? ?]. split; [done|]. by eapply vouched_mono.
Qed.

Lemma send_signal_careful (t : target) signal :
  careful (λ k, t ∈ targets ∧ vouched k t) (send_signal h t.1 signal) (λ _ _, True).
Proof.
  intros st Hlo Hs [Ht Hv]. unfold send_signal, modify, mbind, stm_bind; cbn.
  set (st' := mkTrace (clock st) _ _). assert (signals_vouched st') as Hs'.
  { split; [|by apply Hs]. intros k pid sg. unfold st'; cbn. rewrite elem_of_app, list_elem_of_singleton.
    intros [H|[= -> -> ->]]; [by eapply Hs|]. by exists t. }
  unfold assert. by destruct (may_signal h t.1 signal).
Qed.

(** A loop over pending targets signals only them. *)
Lemma for_each_careful (f : target → stm trace unit) l :
  (∀ t, careful (λ k, t ∈ targets ∧ vouched k t) (f t) (λ _ _, True)) →
  careful (pending_ok l) (for_each f l) (λ _ _, True).
Proof.
  intros Hf. induction l as [|t l IH]; cbn; [by apply careful_ret|].
  eapply careful_bind.
  - eapply careful_weaken; [eapply careful_frame with (R := pending_ok l); [apply Hf|by apply pending_ok_mono]|..|
      intros x k Q; exact Q]. intros k H. by apply list.Forall_cons in H.
  - intros []. eapply careful_weaken; [apply IH|by intros k [_ ?]|done].
Qed.

(** Time passes, and what does not depend on it stays. *)
Lemma careful_keep {A} (m : stm trace A) Q (R : nat → Prop) :
  careful anytime m Q → (∀ k k', (k ≤ k')%nat → R k → R k') → careful R m (λ a k, Q a k ∧ R k).
Proof.
  intros Hm HR. eapply careful_weaken; [apply (careful_frame _ _ _ R Hm HR)|by split|done].
Qed.

Lemma wait_careful n : careful anytime (wait_for_targets_to_exit n) (λ _ _, True).
Proof. intros st Hlo Hs _. unfold wait_for_targets_to_exit, modify; cbn. split_and!; [lia|done|done]. Qed.

Lemma collect_careful l : careful anytime (collect_running_targets h l) (λ x _, x ⊆ l).
Proof.
  induction l as [|t l IH]; cbn; [by apply careful_ret|]. eapply careful_bind; [apply process_matches_careful|].
  intros a. eapply careful_bind; [eapply careful_weaken; [apply IH|done|intros x k Q; exact Q]|].
  intros x. apply careful_ret. intros k Hx. destruct a; set_solver.
Qed.
Lemma pending_ok_incl pending l k : l ⊆ pending → pending_ok pending k → pending_ok l k.
Proof. rewrite !list.Forall_forall. set_solver. Qed.

(** Reading a file of a group lets time pass. *)
Lemma tick_careful {A} P (f : nat → result A) (Q : A → nat → Prop) :
  (∀ k a, (lo ≤ k)%nat → P k → f k = Ok a → Q a (S k)) → careful P (λ st, (f (clock st), tick st)) Q.
Proof. intros H st Hlo Hs HP. cbn. split; [lia|]. split; [exact Hs|]. intros a Ha. by apply H. Qed.

Lemma kill_members_careful t dir :
  careful (λ k, t ∈ targets ∧ vouched k t ∧ own_group k t dir) (kill_members h dir) (λ _ _, True).
Proof.
  intros st Hlo Hs HP. unfold kill_members. destruct (cgroup_v2 h); [|by split_and!]. destruct (kill_file h dir); [|by split_and!].
  unfold modify, mbind, stm_bind, assert. cbn [negb]. set (st' := mkTrace _ _ _). assert (signals_vouched st') as Hs'.
  { split; [by apply Hs|]. intros k d. unfold st'; cbn [killed]. rewrite elem_of_app, list_elem_of_singleton.
    intros [H|[= -> ->]]; [by eapply Hs|]. by exists t. }
  by destruct (may_kill h dir).
Qed.

Lemma kill_cgroup_careful t :
  careful (λ k, t ∈ targets ∧ vouched k t) (kill_cgroup h t.1) (λ _ k, t ∈ targets ∧ vouched k t).
Proof.
  set (R := λ k, t ∈ targets ∧ vouched k t).
  assert (∀ k k', (k ≤ k')%nat → R k → R k') as HR by (intros k k' Hk [? ?]; split; [done|by eapply vouched_mono]).
  unfold kill_cgroup. eapply careful_bind.
  - apply tick_careful with (P := R) (f := λ i, runtime_cgroup_path (cgroup_file h i t.1)) (Q := λ (p : option string) k, R k ∧ ∀ dir, p = Some dir →
      ∃ i, (lo ≤ i < k)%nat ∧ runtime_cgroup_path (cgroup_file h i t.1) = Ok (Some dir)).
    intros k p Hk HP E. split; [by apply (HR k); [lia|]|]. intros dir ->. exists k. split; [lia|done].
  - intros [dir|]; [|apply careful_ret; by intros k [? _]].
    destruct (workspace_cgroup dir) eqn:En; [|apply careful_ret; by intros k [? _]].
    eapply careful_bind.
    + apply tick_careful with (f := λ i, Ok (cgroup_contains_pid (cgroup_procs h i dir) t.1))
        (Q := λ (x : result bool) k, R k ∧ (x = Ok true → own_group k t dir)).
      intros k x Hk [HP Hp] [= <-]. split; [by apply (HR k); [lia|]|]. intros E.
      destruct (Hp dir eq_refl) as (i & Hi & Ei). split; [done|]. split; [exists i|exists k]; (split; [lia|done]).
    + intros [[|]|e]; cbn [result_ok default]; [|apply careful_ret; by intros k [? _]..].
      eapply careful_weaken; [eapply (careful_frame _ _ _ R); [apply (kill_members_careful t)|done]|..|by intros a k [_ ?]].
      intros k [[? ?] Ho]. split; [|done]. auto.
Qed.

Lemma kill_one_careful t : careful (λ k, t ∈ targets ∧ vouched k t) (kill_one h t) (λ _ _, True).
Proof.
  unfold kill_one. eapply careful_bind; [apply kill_cgroup_careful|].
  intros [|]; [by apply careful_ret|apply send_signal_careful].
Qed.
Lemma kill_again_careful t : careful (λ k, t ∈ targets ∧ vouched k t) (kill_again h t) (λ _ _, True).
Proof.
  intros st Hlo Hs [Ht Hv]. unfold kill_again. generalize (verify_careful t st Hlo Hs I).
  destruct (verify_signal_target h t st) as [[[]|e] st1]; cbn [fst snd]; intros (C1 & S1 & V1); try (by split_and!).
  destruct (send_signal_careful t SIGKILL st1) as (? & ? & ?); [lia|done|split; [done|by apply (V1 Signallable)]|].
  split_and!; [lia|done|done].
Qed.

(** ** What a stop reports *)

(** The target is reported stopped for a reason seen by [k], or reported as failed
    and seen alive. *)
Definition accounted (r : BatchStopResult) (k : nat) (t : target) : Prop :=
  (t.1 ∈ stopped_pids r ∧ given_up k t) ∨
  (t.1 ∈ failed_pids r ∧ ∃ i, (lo ≤ i < k)%nat ∧ matches_record t.2 (table h i t.1) = true).
Lemma accounted_mono r r' k k' t :
  (k ≤ k')%nat → stopped_pids r ⊆ stopped_pids r' → failed_pids r ⊆ failed_pids r' → accounted r k t → accounted r' k' t.
Proof.
  intros Hk Hs Hf [[? ?]|[? (i & Hi & ?)]]; [left; split; [set_solver|by eapply given_up_mono]|right].
  split; [set_solver|]. exists i. split; [lia|done].
Qed.

Lemma mark_each_careful l done_ r :
  careful (λ k, Forall (accounted r k) done_) (mark_each h l r) (λ r' k, Forall (accounted r' k) (done_ ++ l)).
Proof.
  revert done_ r. induction l as [|t l IH]; intros d r; cbn; [rewrite app_nil_r; by apply careful_ret|].
  eapply careful_bind; [apply careful_keep with (R := λ k, Forall (accounted r k) d); [apply process_matches_seen|]|].
  { intros k k' Hk H. eapply list.Forall_impl; [exact H|]. intros x. by apply accounted_mono. }
  intros a. cbv beta. replace (d ++ t :: l) with ((d ++ [t]) ++ l) by (by rewrite <- app_assoc).
  eapply careful_weaken; [apply (IH (d ++ [t]))| |done]. intros k [(i & Hi & Ha) Hd]. apply Forall_app_2; [|apply Forall_singleton].
  - eapply list.Forall_impl; [exact Hd|]. intros x. destruct a; apply accounted_mono; cbn; set_solver.
  - destruct a; [right|left]; cbn; (split; [set_solver|]); [|left]; by exists i.
Qed.

Lemma foldl_mark_stopped l r : stopped_pids (foldl mark_already_stopped r l) = list_to_set l.*1 ∪ stopped_pids r.
Proof. revert r. induction l as [|t l IH]; intros r; cbn; [set_solver|]. rewrite IH. cbn. set_solver. Qed.

(** One step of the second half, which runs on sorted targets. *)
Lemma sorted_step {A B} s (m : stm trace A) P (Q : A → Prop) (f : A → stm trace B) R :
  careful P m (λ a _, Q a) → (∀ k, sorted_ok targets s k → P k) →
  (∀ a, Q a → careful (sorted_ok targets s) (f a) R) → careful (sorted_ok targets s) (m ≫= f) R.
Proof.
  intros Hm HP Hf. eapply careful_bind.
  - eapply careful_weaken; [eapply careful_frame with (R := sorted_ok targets s);
      [exact Hm|intros ??; by apply sorted_ok_mono]|by split; auto|intros a k H; exact H].
  - intros a st Hlo Hs [Hq Hok]. by apply Hf.
Qed.
Lemma sorted_pending s k : sorted_ok targets s k → pending_ok (signallable s) k.
Proof.
  intros (Hp & Hv & _). rewrite list.Forall_forall in *. intros t Ht. split; [|by apply Hv].
  rewrite <- Hp. unfold buckets. set_solver.
Qed.

Lemma marked_accounted s k : sorted_ok targets s k →
  Forall (accounted (foldl mark_already_stopped (mkBatchStop ∅ ∅) (starting s ++ stopped s)) k) (starting s ++ stopped s).
Proof.
  intros (_ & _ & Hg). rewrite app_assoc, Forall_app in Hg. destruct Hg as [Hg _].
  rewrite list.Forall_forall in *. intros t Ht. left. split; [|by apply Hg].
  rewrite foldl_mark_stopped, elem_of_union, elem_of_list_to_set, list_elem_of_fmap. left. by exists t.
Qed.

Lemma stop_sorted_careful term kill again s : unreadable s = [] →
  careful (sorted_ok targets s) (stop_sorted h term kill again s) (λ r k, Forall (accounted r k) targets).
Proof.
  intros Hu. pose proof (sorted_pending s) as Hp. unfold stop_sorted.
  eapply sorted_step with (Q := λ _, True);
    [apply for_each_careful; intros t; apply send_signal_careful|exact Hp|intros _ _].
  eapply sorted_step with (Q := λ _, True); [apply wait_careful|done|intros _ _].
  eapply sorted_step; [apply collect_careful|done|intros remaining Hr].
  eapply sorted_step with (Q := λ _, True);
    [apply for_each_careful; intros t; apply kill_one_careful|intros k H; by eapply pending_ok_incl, Hp|intros _ _].
  eapply sorted_step with (Q := λ _, True); [apply wait_careful|done|intros _ _].
  eapply sorted_step; [apply collect_careful|done|intros still Hst].
  eapply sorted_step with (Q := λ _, True);
    [apply for_each_careful; intros t; apply kill_again_careful|intros k H; by eapply pending_ok_incl, Hp|intros _ _].
  eapply sorted_step with (Q := λ _, True); [apply wait_careful|done|intros _ _].
  intros st Hlo Hs Hok. destruct (mark_each_careful (signallable s) (starting s ++ stopped s) _ st Hlo Hs
    (marked_accounted s _ Hok)) as (? & ? & Hacc). split_and!; [done|done|]. intros r Ha. specialize (Hacc r Ha).
  destruct Hok as (Hperm & _). unfold buckets in Hperm. rewrite Hu, app_nil_r in Hperm.
  rewrite <- Hperm, Forall_app. rewrite Forall_app in Hacc. tauto.
Qed.

Lemma resolve_readable s st x st' : resolve_unreadable h s st = (Ok x, st') → unreadable x = [].
Proof.
  intros H. unfold resolve_unreadable in H. apply stm_bind_Ok in H as (y & st1 & _ & H).
  case_bool_decide; [by apply mret_Ok in H as [-> _]|by apply throw_Ok in H].
Qed.

Lemma nothing_sent : signals_vouched (mkTrace lo [] []).
Proof. split; [intros k pid signal Hin|intros k dir Hin]; cbn in Hin; by apply not_elem_of_nil in Hin. Qed.

Lemma stop_batch_careful polls term kill again :
  careful anytime (stop_sessions_batch h polls term kill again targets) (λ r k, Forall (accounted r k) targets).
Proof.
  unfold stop_sessions_batch. eapply careful_bind; [apply sort_careful|intros s].
  eapply careful_bind; [apply settle_careful|intros s1].
  intros st Hlo Hs Hok. generalize (resolve_careful _ _ st Hlo Hs Hok). unfold mbind, stm_bind.
  destruct (resolve_unreadable h s1 st) as [[x|e] st1] eqn:E; cbn [fst snd]; intros (C1 & S1 & R1); [|by split_and!].
  destruct (stop_sorted_careful term kill again x (resolve_readable _ _ _ _ E) st1) as (? & ? & ?);
    [lia|done|by apply R1|]. split; [etrans; [exact C1|done]|done].
Qed.
End signals.


(** * When a stop answers *)

(** A host whose process files can be read while the process is there, whose signals
    and cgroups answer, and where a process that is gone stays gone. *)
Definition responsive (h : process_host) : Prop :=
  (∀ k pid p, table h k pid = Some p → (∃ owner, proc_status p = Some (Some owner)) ∧ is_Some (proc_cmdline p)) ∧
  (∀ k k' (t : target), (k ≤ k')%nat → matches_record t.2 (table h k t.1) = false →
    matches_record t.2 (table h k' t.1) = false) ∧
  (∀ pid signal, may_signal h pid signal = true) ∧ 
  (∀ k pid, is_Some (cgroup_file h k pid)) ∧ (∀ dir, may_kill h dir = true).

Section answers.
Context (h : process_host) (Hresp : responsive h).

Definition total {A} (m : stm trace A) : Prop := ∀ st, ∃ a st', m st = (Ok a, st').
Lemma total_bind {A B} (m : stm trace A) (f : A → stm trace B) : total m → (∀ a, total (f a)) → total (m ≫= f).
Proof.
  intros Hm Hf st. destruct (Hm st) as (a & st1 & E). destruct (Hf a st1) as (b & st2 & E2).
  exists b, st2. unfold mbind, stm_bind. by rewrite E.
Qed.
Lemma total_ret {A} (a : A) : total (mret a).
Proof. intros st. by exists a, st. Qed.
Lemma process_matches_total t : total (process_matches h t).
Proof. intros st. unfold process_matches, observe, mbind, stm_bind. eexists _, _. reflexivity. Qed.

(** A process that could not be read is gone at the next look. *)
Lemma gone_total (t : target) message st k : (k ≤ clock st)%nat → table h k t.1 = None →
  ∃ st', (alive ← process_matches h t; if alive : bool then throw message else mret Signallable) st = (Ok Signallable, st').
Proof.
  intros Hk Hn. destruct Hresp as (_ & Hg & _). unfold process_matches, observe, mbind, stm_bind, mret, stm_ret.
  cbn. rewrite (Hg k (clock st) t Hk); [by eexists|]. by rewrite Hn.
Qed.
Lemma verify_total t : total (verify_signal_target h t).
Proof.
  unfold verify_signal_target. apply total_bind; [apply process_matches_total|]. intros [|]; [|apply total_ret].
  cbn [negb]. intros st. unfold mbind at 1, stm_bind at 1, observe.
  destruct (table h (clock st) t.1) as [p|] eqn:Ep; cbn.
  - destruct Hresp as (Hread & _). destruct (Hread _ _ _ Ep) as ((owner & ->) & _).
    destruct (negb _ && negb _); [by eexists _, _|]. unfold check_cmdline, mbind at 1, stm_bind at 1, observe. cbn [clock].
    destruct (table h (S (clock st)) t.1) as [q|] eqn:Eq; cbn.
    + destruct (Hread _ _ _ Eq) as (_ & (c & ->)). by eexists _, _.
    + destruct (gone_total t "failed to read cmdline" (mkTrace (S (S (clock st))) (sent st) (killed st)) (S (clock st)) ltac:(cbn; lia) Eq)
        as (st' & E). by eexists _, _.
  - destruct (gone_total t "failed to read status" (mkTrace (S (clock st)) (sent st) (killed st)) (clock st) ltac:(cbn; lia) Ep) as (st' & E).
    by eexists _, _.
Qed.

(** Nothing is unreadable on such a host. *)
Definition readable (m : stm trace StopTargets) : Prop := ∀ st, ∃ s st', m st = (Ok s, st') ∧ unreadable s = [].
Lemma sort_targets_readable l s : unreadable s = [] → readable (sort_targets h l s).
Proof.
  revert s. induction l as [|t l IH]; intros s Hs st; cbn; [by exists s, st|].
  unfold mbind, stm_bind, classify. destruct (process_matches_total t st) as ([|] & st1 & ->); [|by apply IH].
  destruct (verify_total t st1) as ([| |] & st2 & ->); by apply IH.
Qed.
Lemma settle_readable polls s : unreadable s = [] → readable (settle h polls s).
Proof.
  revert s. induction polls as [|n IH]; intros s Hs st; cbn; [by exists s, st|].
  case_bool_decide; [by exists s, st|]. unfold mbind, stm_bind, sort.
  destruct (sort_targets_readable (starting s) no_targets eq_refl st) as (x & st1 & -> & _). by apply IH.
Qed.

Lemma for_each_total {A} (f : A → stm trace unit) l : (∀ x, total (f x)) → total (for_each f l).
Proof. intros Hf. induction l; cbn; [apply total_ret|by apply total_bind]. Qed.
Lemma send_signal_total pid signal : total (send_signal h pid signal).
Proof.
  destruct Hresp as (_ & _ & Hs & _). unfold send_signal. intros st. unfold modify, mbind, stm_bind. rewrite Hs.
  by eexists _, _.
Qed.
Lemma wait_total n : total (wait_for_targets_to_exit n).
Proof. intros st. by eexists _, _. Qed.
Lemma collect_total l : total (collect_running_targets h l).
Proof.
  induction l; cbn; [apply total_ret|]. apply total_bind; [apply process_matches_total|intros].
  apply total_bind; [done|intros; apply total_ret].
Qed.
Lemma kill_one_total t : total (kill_one h t).
Proof.
  destruct Hresp as (_ & _ & _ & Hc & Hk). unfold kill_one. apply total_bind; [|intros [|]; [apply total_ret|apply send_signal_total]].
  unfold kill_cgroup. apply total_bind.
  - intros st. unfold cgroup_of, runtime_cgroup_path. destruct (Hc (clock st) t.1) as [raw ->]. by eexists _, _.
  - intros [dir|]; [|apply total_ret]. destruct (workspace_cgroup dir); [|apply total_ret].
    apply total_bind; [intros st; by eexists _, _|]. intros [[|]|e]; [|apply total_ret..].
    intros st. unfold kill_members. destruct (cgroup_v2 h); [|by eexists _, _]. destruct (kill_file h dir); [|by eexists _, _].
    unfold modify, mbind, stm_bind, assert. rewrite Hk. by eexists _, _.
Qed.
Lemma kill_again_total t : total (kill_again h t).
Proof.
  intros st. unfold kill_again. destruct (verify_total t st) as ([| |] & st1 & ->); [apply send_signal_total|..];
    by eexists _, _.
Qed.
Lemma mark_each_total l r : total (mark_each h l r).
Proof.
  revert r. induction l; intros r; cbn; [apply total_ret|]. apply total_bind; [apply process_matches_total|done].
Qed.
#[local] Hint Resolve total_bind total_ret send_signal_total wait_total collect_total kill_one_total kill_again_total
  mark_each_total for_each_total : core.

Lemma stop_sorted_total term kill again s : total (stop_sorted h term kill again s).
Proof. unfold stop_sorted. auto 30. Qed.
Lemma stop_batch_total polls term kill again targets : total (stop_sessions_batch h polls term kill again targets).
Proof.
  intros st. unfold stop_sessions_batch, mbind at 1, stm_bind at 1, sort.
  destruct (sort_targets_readable targets no_targets eq_refl st) as (s & st1 & -> & Hs).
  unfold mbind at 1, stm_bind at 1. destruct (settle_readable polls s Hs st1) as (s1 & st2 & -> & Hs1).
  unfold mbind at 1, stm_bind at 1. unfold resolve_unreadable. rewrite Hs1. cbn. apply stop_sorted_total.
Qed.
End answers.

(** A stop accounts for every runtime it was asked to stop.  When it answers, each
    target's pid is reported as failed, and was seen alive under its record, or it is
    reported as stopped, and was seen to be gone or inspected and found not to be a
    runtime of this daemon; and it does answer when the host's process files can be
    read and its signals and cgroups work. *)
Theorem stop_accounts_for_targets h lo targets polls term kill again :
  (∀ r st', stop_sessions_batch h polls term kill again targets (mkTrace lo [] []) = (Ok r, st') →
     Forall (accounted h lo r (clock st')) targets) ∧
  (responsive h → ∃ r st', stop_sessions_batch h polls term kill again targets (mkTrace lo [] []) = (Ok r, st')).
Proof.
  split; [|intros Hr; by apply stop_batch_total].
  intros r st' E. generalize (stop_batch_careful h lo targets polls term kill again (mkTrace lo [] [])).
  rewrite E. cbn. intros (_ & _ & H); [done|..|done|by apply H].
  apply nothing_sent.
Qed.

(** A runtime with pid 7 in the cgroup of its workspace, and its host. *)
Definition sample_cgroup : string := "0::/enclave-sb-s/enclave-ws-s-a".
Definition sample_proc : proc := mkProc "S" 40 (Some 7) (Some (Some 1000)) (Some "enclave-workspace-session").
Definition sample_host : process_host :=
  mkProcesses (λ k pid, if (pid =? 7) && (k <? 9)%nat then Some sample_proc else None) 1000 (λ _ _, true)
    (λ _ _, Some sample_cgroup) (λ _ _, Some "7") true (λ _, true) (λ _, true) (λ _, Some []).

Lemma stop_accounts_for_targets_witness :
  responsive sample_host ∧
  ∃ r st', stop_sessions_batch sample_host 3 2 2 2 [(7, Some 40)] (mkTrace 0 [] []) = (Ok r, st') ∧
    Forall (accounted sample_host 0 r (clock st')) [(7, Some 40)] ∧ 
    sent st' = [(4%nat, (7, SIGTERM))] ∧ killed st' = [(9%nat, "/sys/fs/cgroup/enclave-sb-s/enclave-ws-s-a")].
Proof.
  assert (responsive sample_host) as Hr.
  { split_and!; [| |done|by eexists|done].
    - intros k pid p. cbn. destruct (_ && _); [|done]. intros [= <-]. split; by eexists.
    - intros k k' [pid ticks] Hk. cbn. destruct (pid =? 7); [|done]. cbn.
      destruct (Nat.leb_spec k' 8); [|done]. destruct (Nat.leb_spec k 8); [done|lia]. }
  split; [done|]. destruct (stop_accounts_for_targets sample_host 0 [(7, Some 40)] 3 2 2 2) as [Ha Hok].
  destruct (Hok Hr) as (r & st' & E). exists r, st'. split; [done|]. split; [by apply Ha|].
  vm_compute in E. by injection E as <- <-.
Defined.

(** A runtime of the daemon's user that is alive at every observation: inside its
    [exec] at first, so its command line cannot be read and is then the launcher's,
    and a runtime from the tenth observation on. *)
Definition exec_host : process_host :=
  mkProcesses (λ k pid, if pid =? 7 then
      Some (mkProc "S" 40 (Some 7) (Some (Some 1000))
        (if (k <? 5)%nat then None else if (k <? 9)%nat then Some "enclave" else Some "enclave-workspace-session"))
    else None) 1000 (λ _ _, true) (λ _ _, Some sample_cgroup)
    (λ _ _, Some "7") true (λ _, true) (λ _, true) (λ _, Some []).

(** A runtime that could not be read on the first look gets no settle window.  The
    look it gets instead finds it still inside its [exec], and the stop reports the
    live runtime as stopped without sending it any signal, however long the settle
    deadline is. *)
Theorem unreadable_runtime_is_abandoned polls term kill again :
  let run := stop_sessions_batch exec_host polls term kill again [(7, Some 40)] (mkTrace 0 [] []) in
  run.1 = Ok (mkBatchStop {[7]} ∅) ∧ sent run.2 = [] ∧ ∀ k, matches_record (Some 40) (table exec_host k 7) = true.
Proof. destruct polls; (split; [reflexivity|split; reflexivity]). Qed.

(** ** Process groups *)

(** Steps that only look: no signal is sent, and time passes. *)
Definition quiet {A} (m : stm trace A) : Prop := ∀ st, sent (m st).2 = sent st ∧ (clock st ≤ clock (m st).2)%nat.

Section looking.
Context (h : process_host).

Lemma quiet_bind {A B} (m : stm trace A) (f : A → stm trace B) : quiet m → (∀ a, quiet (f a)) → quiet (m ≫= f).
Proof.
  intros Hm Hf st. destruct (Hm st) as [Hs Hc]. unfold mbind, stm_bind. destruct (m st) as [[a|e] st1]; cbn in *; [|done].
  destruct (Hf a st1) as [Hs' Hc']. rewrite Hs', Hs. split; [done|lia].
Qed.
Lemma quiet_same {A} (m : stm trace A) : (∀ st, (m st).2 = st) → quiet m.
Proof. intros H st. by rewrite H. Qed.
Lemma quiet_ret {A} (a : A) : quiet (mret a).
Proof. by apply quiet_same. Qed.
Lemma quiet_lift {A} (r : result A) : quiet (lift r).
Proof. by apply quiet_same. Qed.
Lemma quiet_throw {A} message : quiet (A := A) (throw message).
Proof. apply quiet_lift. Qed.
Lemma quiet_assert b message : quiet (assert b message).
Proof. destruct b; [apply quiet_ret|apply quiet_throw]. Qed.
Lemma quiet_get : quiet get.
Proof. by apply quiet_same. Qed.
Lemma quiet_observe pid : quiet (observe h pid).
Proof. intros st. cbn. split; [done|lia]. Qed.
Lemma quiet_matches t : quiet (process_matches h t).
Proof. apply quiet_bind; [apply quiet_observe|intros; apply quiet_ret]. Qed.

End looking.

Ltac looks :=
  repeat first [apply quiet_bind; [|intros] | apply quiet_observe | apply quiet_matches | apply quiet_ret | apply quiet_lift
    | apply quiet_throw | apply quiet_assert | apply quiet_get | case_match | progress cbv zeta ].

Lemma quiet_members h pgid : quiet (live_process_group_members h pgid).
Proof.
  unfold live_process_group_members. looks. clear. match goal with |- quiet (member_loop _ _ ?l) => induction l as [|[name|] l IH] end;
    cbn [member_loop]; looks; done.
Qed.

Section groups.
Context (h : process_host) (lo : nat) (pgid signal : Z) (earlier : list (nat * (Z * Z))).

(** A member of the group that was seen alive and in it before [k]. *)
Definition member_seen (k : nat) (pid : Z) : Prop :=
  ∃ i p j q, (lo ≤ i < k)%nat ∧ (lo ≤ j < k)%nat ∧ table h i pid = Some p ∧ has_exited p = false ∧
    table h j pid = Some q ∧ proc_group q = Some pgid.
Definition members_only (st : trace) : Prop :=
  (lo ≤ clock st)%nat ∧ ∀ k pid s, (k, (pid, s)) ∈ sent st → (k, (pid, s)) ∈ earlier ∨ s = signal ∧ member_seen k pid.

Lemma signal_group_member_only pid st : members_only st → members_only (signal_group_member h pid pgid signal st).2.
Proof.
  intros [Hlo Hs]. unfold signal_group_member, observe, mbind, stm_bind; cbn [clock sent].
  destruct (table h (clock st) pid) as [p|] eqn:Ep; [|split; [cbn; lia|done]].
  destruct (has_exited p) eqn:Ea; cbn [negb]; [split; [cbn; lia|done]|].
  destruct (negb _) eqn:Eg; [split; [cbn; lia|done]|]. apply negb_false_iff, bool_decide_eq_true in Eg. cbn [clock sent] in Eg |- *.
  destruct (table h (S (clock st)) pid) as [q|] eqn:Eq; [|done]. cbn in Eg.
  assert (members_only (mkTrace (S (S (clock st))) (sent st ++ [(S (S (clock st)), (pid, signal))]) (killed st))).
  { split; [cbn; lia|]. intros k pid' s. cbn. rewrite elem_of_app, list_elem_of_singleton.
    intros [?|[= -> -> ->]]; [by apply Hs|]. right. split; [done|].
    exists (clock st), p, (S (clock st)), q. split; [lia|]. split; [lia|done]. }
  unfold send_signal, modify, mbind, stm_bind, assert; cbn [clock sent]. by destruct (may_signal h pid signal).
Qed.
Lemma for_members_only l st :
  members_only st → members_only (for_each (λ pid, signal_group_member h pid pgid signal) l st).2.
Proof.
  revert st. induction l as [|pid l IH]; intros st Hst; cbn; [done|]. unfold mbind, stm_bind.
  generalize (signal_group_member_only pid st Hst). destruct (signal_group_member _ _ _ _ st) as [[a|e] st1]; cbn; auto.
Qed.
End groups.

(** The recorded leader is gone, or only its exited remains are there. *)
Definition leader_gone (ticks : option Z) (o : option proc) : Prop :=
  match o with Some p => has_exited p = true ∧ ticks = Some (proc_ticks p) | None => True end.

Lemma member_seen_weaken h lo lo' pgid k pid : (lo ≤ lo')%nat → member_seen h lo' pgid k pid → member_seen h lo pgid k pid.
Proof. intros Hle (i & p & j & q & Hi & Hj & H). exists i, p, j, q. split; [lia|]. split; [lia|done]. Qed.

(** What a group signal adds to the signals sent earlier. *)
Lemma signal_process_group_sent h leader ticks pgid signal st k pid s :
  (k, (pid, s)) ∈ sent (signal_process_group h leader ticks pgid signal st).2 →
  (k, (pid, s)) ∈ sent st ∨
  s = signal ∧ 1 < pgid ∧ leader = pgid ∧ is_Some ticks ∧
  ((pid = - pgid ∧ ∃ i, (clock st ≤ i < k)%nat ∧ matches_record ticks (table h i leader) = true) ∨
   (∃ i, (clock st ≤ i < k)%nat ∧ leader_gone ticks (table h i leader)) ∧ member_seen h (clock st) pgid k pid).
Proof.
  unfold signal_process_group. destruct (_ || _) eqn:Eg; [by left|].
  apply orb_false_iff in Eg as [Hg%Z.leb_gt Hl%negb_false_iff%Z.eqb_eq]. destruct ticks as [ticks|]; [|by left].
  unfold process_matches, observe, get, lift, mbind, stm_bind, mret, stm_ret. cbn [fst snd clock sent].
  destruct (matches_record (Some ticks) (table h (clock st) leader)) eqn:Em.
  - unfold send_signal, modify, mbind, stm_bind, assert; cbn [clock sent].
    assert ((k, (pid, s)) ∈ sent st ++ [(S (clock st), (- pgid, signal))] → (k, (pid, s)) ∈ sent st ∨
      s = signal ∧ 1 < pgid ∧ leader = pgid ∧ is_Some (Some ticks) ∧
      ((pid = - pgid ∧ ∃ i, (clock st ≤ i < k)%nat ∧ matches_record (Some ticks) (table h i leader) = true) ∨
       (∃ i, (clock st ≤ i < k)%nat ∧ leader_gone (Some ticks) (table h i leader)) ∧ member_seen h (clock st) pgid k pid)) as Hone.
    { rewrite elem_of_app, list_elem_of_singleton. intros [?|[= -> -> ->]]; [by left|]. right. do 3 (split; [done|]).
      split; [by eexists|]. left. split; [done|]. exists (clock st). split; [lia|done]. }
    destruct (may_signal _ _ _); exact Hone.
  - unfold assert. match goal with |- context [if ?b then mret () else _] => destruct b eqn:Egone end; [|by left].
    assert (leader_gone (Some ticks) (table h (S (clock st)) leader)) as Hgone.
    { cbn in Egone. unfold leader_gone. destruct (table h (S (clock st)) leader) as [p|]; [|done].
      apply andb_true_iff in Egone as [? ->%Z.eqb_eq]. done. }
    unfold mret, stm_ret.
    destruct (quiet_members h pgid (mkTrace (S (S (clock st))) (sent st) (killed st))) as [Hq Hc]. cbn [clock sent] in Hq, Hc.
    destruct (live_process_group_members h pgid _) as [[members|e] st1]; cbn [snd] in Hq, Hc; cbn [snd]; [|rewrite Hq; by left].
    intros Hin. destruct (for_members_only h (S (S (clock st))) pgid signal (sent st) members st1) as [_ Hm];
      [split; [lia|rewrite Hq; by left]|].
    apply Hm in Hin as [?|[-> Hin]]; [by left|]. right. do 3 (split; [done|]). split; [by eexists|]. right. split.
    + exists (S (clock st)). split; [|done]. destruct Hin as (i & p & j & q & Hi & _). lia.
    + eapply member_seen_weaken; [|exact Hin]. lia.
Qed.

(** A whole process group is signalled only while its leader is the recorded
    process: the leader's pid is the group, which is not init's or the caller's own,
    and it was seen alive with the recorded start time.  Otherwise the leader was seen
    gone and only single members are signalled, each seen alive and in the group; without
    a recorded start time nothing is. *)
Theorem group_signal_guarded h leader ticks pgid signal lo k pid s :
  (k, (pid, s)) ∈ sent (signal_process_group h leader ticks pgid signal (mkTrace lo [] [])).2 →
  s = signal ∧ 1 < pgid ∧ leader = pgid ∧ is_Some ticks ∧
  ((pid = - pgid ∧ ∃ i, (lo ≤ i < k)%nat ∧ matches_record ticks (table h i leader) = true) ∨
   (∃ i, (lo ≤ i < k)%nat ∧ leader_gone ticks (table h i leader)) ∧ member_seen h lo pgid k pid).
Proof. by intros [?%not_elem_of_nil|H]%signal_process_group_sent. Qed.

Lemma group_signal_guarded_witness :
  (1%nat, (-7, SIGTERM)) ∈ sent (signal_process_group sample_host 7 (Some 40) 7 SIGTERM (mkTrace 0 [] [])).2 ∧
  ∃ i, (0 ≤ i < 1)%nat ∧ matches_record (Some 40) (table sample_host i 7) = true.
Proof.
  assert ((1%nat, (-7, SIGTERM)) ∈ sent (signal_process_group sample_host 7 (Some 40) 7 SIGTERM (mkTrace 0 [] [])).2) as H
    by (vm_compute; by constructor).
  split; [exact H|]. destruct (group_signal_guarded _ _ _ _ _ _ _ _ _ H) as (_ & _ & _ & _ & [[_ Hi]|[Hi _]]); [exact Hi|].
  exists 0%nat. split; [lia|done].
Defined.

(** ** Host names *)

Definition hostname_char (c : ascii) : bool := is_ascii_digit c || is_ascii_lowercase c || (c =? "-")%char.

Lemma hostname_loop_ok s out dash : str_all hostname_char out = true → (String.length out < 63)%nat →
  str_all hostname_char (hostname_loop s out dash) = true ∧ (String.length (hostname_loop s out dash) ≤ 63)%nat.
Proof.
  revert out dash. induction s as [|c s IH]; intros out dash Ha Hl; cbn [hostname_loop]; [split; [done|lia]|].
  set (step := if is_ascii_alphanumeric (ascii_lower c) then _ else _).
  assert (str_all hostname_char step.1 = true ∧ (String.length step.1 ≤ S (String.length out))%nat) as [Ha' Hl'].
  { unfold step. destruct (is_ascii_alphanumeric _) eqn:Ec; [|destruct dash]; cbn [fst negb];
      rewrite ?str_all_app, ?str_length_app; cbn [str_all String.length]; rewrite ?Ha, ?andb_true_r; cbn;
      (split; [|lia]); [|done..]. clear -Ec. revert c Ec. by_byte. }
  destruct step as [out' dash']; cbn [fst] in *. destruct (Nat.leb_spec 63 (String.length out')); [split; [done|lia]|].
  by apply IH.
Qed.

Lemma trim_start_dash_suffix s : ∃ d, s = d +:+ trim_start_dash s.
Proof.
  induction s as [|c s [d IH]]; cbn; [by exists ""|]. destruct (_ =? _)%char; [|by exists ""].
  exists (String c d). cbn. by rewrite <- IH.
Qed.
Lemma trim_start_dash_head s : starts_with "-" (trim_start_dash s) = false.
Proof.
  induction s as [|c s IH]; cbn [trim_start_dash]; [done|]. destruct (Ascii.eqb_spec c "-") as [->|Hc]; [done|].
  unfold starts_with. cbn [strip_prefix]. rewrite Ascii.eqb_sym. by apply Ascii.eqb_neq in Hc as ->.
Qed.

(** A runtime's host name is a DNS label: between 1 and 63 characters, each a
    lowercase letter, a digit or a dash, with no dash at either end, whatever the name
    of the workspace. *)
Theorem hostname_is_label name :
  let label := workspace_runtime_hostname name in
  (1 ≤ String.length label ≤ 63)%nat ∧ str_all hostname_char label = true ∧
  starts_with "-" label = false ∧ starts_with "-" (str_rev label) = false.
Proof.
  cbv zeta. unfold workspace_runtime_hostname. case_bool_decide as Hn; [vm_compute; split; [lia|done]|].
  destruct (hostname_loop_ok name "" false) as [Ha Hl]; [done|cbn; lia|]. revert Hn Ha Hl.
  generalize (hostname_loop name "" false) as s. intros s. unfold trim_dashes.
  destruct (trim_start_dash_suffix s) as [d1 E1]. set (x := trim_start_dash s) in *.
  destruct (trim_start_dash_suffix (str_rev x)) as [d2 E2]. set (y := trim_start_dash (str_rev x)) in *.
  assert (x = str_rev y +:+ str_rev d2) as Ex.
  { rewrite <- (str_rev_involutive x), E2. apply str_rev_dist. }
  intros Hn Ha Hl. rewrite E1, Ex, !str_all_app in Ha. rewrite E1, Ex, !str_length_app in Hl.
  apply andb_true_iff in Ha as [_ [Ha _]%andb_true_iff]. split; [|split; [done|]].
  - destruct (str_rev y); [done|]. cbn in *. lia.
  - split; [|rewrite str_rev_involutive; apply trim_start_dash_head].
    pose proof (trim_start_dash_head s) as Hh. fold x in Hh. rewrite Ex in Hh.
    destruct (str_rev y) as [|c t]; [done|]. unfold starts_with in *. cbn [strip_prefix String.append] in *.
    by destruct (_ =? _)%char.
Qed.
