(* ===== verification/Journal.v ===== *)
(** * The operation journal (src/src/operation)

    One record per lifecycle operation, written before the host is touched and
    updated as the operation goes; the directory of records, what a restarted daemon
    does with the ones that were left open, and how the directory is kept bounded. *)
From S2P Require Import Prelude RustStr Types Registry Records.
Open Scope Z_scope.

(** ** Records (operation/record.rs) *)

Inductive OperationStatus := Planned | OpRunning | Succeeded | OpFailed.
#[export] Instance OperationStatus_eq_dec : EqDecision OperationStatus.
Proof. solve_decision. Defined.

Record OperationRecord := mkRecord {
  op_id : string;
  kind : string;
  target : string;
  op_status : OperationStatus;
  op_phase : string;
  op_started_at : string;
  updated_at : string;
  op_error : option string }.

Definition new_record (uuid k t now : string) : OperationRecord := mkRecord uuid k t Planned "planned" now now None.
Definition record_begin (phase now : string) (r : OperationRecord) : OperationRecord :=
  mkRecord (op_id r) (kind r) (target r) OpRunning phase (op_started_at r) now None.
Definition record_phase (phase now : string) (r : OperationRecord) : OperationRecord :=
  mkRecord (op_id r) (kind r) (target r) (op_status r) phase (op_started_at r) now (op_error r).
Definition record_succeed (now : string) (r : OperationRecord) : OperationRecord :=
  mkRecord (op_id r) (kind r) (target r) Succeeded "complete" (op_started_at r) now None.
Definition record_fail (error now : string) (r : OperationRecord) : OperationRecord :=
  mkRecord (op_id r) (kind r) (target r) OpFailed "failed" (op_started_at r) now (Some error).

(** [current] is the operation id of the request the thread serves. *)
Definition record_for (current : option string) (uuid k t now : string) : OperationRecord :=
  let r := new_record uuid k t now in
  mkRecord (default (op_id r) current) (kind r) (target r) (op_status r) (op_phase r) (op_started_at r)
    (updated_at r) (op_error r).

(** ** The journal of one operation (operation/journal.rs) *)

(** The [.json] files of the directory by name; [None] is one that cannot be read or
    parsed. *)
Abbreviation journal_dir := (gmap string (option OperationRecord)).

Definition persist_record (ok : bool) (r : OperationRecord) : stm journal_dir unit :=
  assert ok "failed to persist operation journal";;
  modify <[op_id r := Some r]>.

Definition journal_begin (ok : bool) (current : option string) (uuid k t now : string)
    : stm journal_dir OperationRecord :=
  let r := record_begin "starting" now (record_for current uuid k t now) in
  persist_record ok r;; mret r.
(** The note is taken in memory even when it cannot be written. *)
Definition journal_phase (ok : bool) (phase now : string) (r : OperationRecord) : stm journal_dir OperationRecord :=
  let r' := record_phase phase now r in persist_record ok r';; mret r'.
Definition journal_succeed (ok : bool) (now : string) (r : OperationRecord) : stm journal_dir OperationRecord :=
  let r' := record_succeed now r in persist_record ok r';; mret r'.
Definition journal_fail (ok : bool) (error now : string) (r : OperationRecord) : stm journal_dir OperationRecord :=
  let r' := record_fail error now r in persist_record ok r';; mret r'.

(** ** The directory (operation/store.rs) *)

Definition is_open (r : OperationRecord) : bool :=
  match op_status r with Planned | OpRunning => true | _ => false end.

(** [persists] answers whether a record can be written, by its id. *)
Fixpoint close_each (persists : string → bool) (reason now : string) (l : list (option OperationRecord))
    : stm journal_dir (list string) :=
  match l with
  | [] => mret []
  | Some r :: l' =>
      if is_open r then
        persist_record (persists (op_id r)) (record_fail reason now r);;
        rest ← close_each persists reason now l'; mret (op_id r :: rest)
      else close_each persists reason now l'
  | None :: l' => close_each persists reason now l'
  end.
Definition close_unfinished_records (persists : string → bool) (reason now : string) : stm journal_dir (list string) :=
  d ← get; close_each persists reason now (btree_values d).

Definition JOURNAL_TERMINAL_LIMIT : nat := 1000.

(** The outcomes of a removal: removed, already gone, or failed. *)
Inductive removal := Removed | Gone | Refused.
Fixpoint remove_each (removes : string → removal) (l : list (string * string)) : stm journal_dir nat :=
  match l with
  | [] => mret 0%nat
  | (_, path) :: l' =>
      match removes path with
      | Removed => modify (delete path);; n ← remove_each removes l'; mret (S n)
      | Gone => modify (delete path);; remove_each removes l'
      | Refused => throw "failed to remove journal record"
      end
  end.

(** The terminal records with their files, as the directory is read. *)
Definition terminal_files (d : journal_dir) : list (string * string) :=
  omap (λ p : string * option OperationRecord,
          match p.2 with Some r => if is_open r then None else Some (updated_at r, p.1) | None => None end)
    (btree_list d).
Definition newest_first (x y : string * string) : bool := str_le y.1 x.1.

Definition prune_terminal_records (removes : string → removal) : stm journal_dir nat :=
  d ← get;
  let terminal := terminal_files d in
  if (length terminal <=? JOURNAL_TERMINAL_LIMIT)%nat then mret 0%nat
  else remove_each removes (drop JOURNAL_TERMINAL_LIMIT (sort_by newest_first terminal)).

Definition newer (r : OperationRecord) (best : option OperationRecord) : bool :=
  match best with None => true | Some b => negb (str_le (updated_at r) (updated_at b)) end.
Definition latest (d : journal_dir) : option OperationRecord :=
  foldl (λ best x, match x with Some r => if newer r best then Some r else best | None => best end)
    None (btree_values d).

(** ** Closing what a dead daemon left open *)

(** Records are filed under their own id. *)
Definition journal_filed (d : journal_dir) : Prop := ∀ k r, d !! k = Some (Some r) → op_id r = k.

Lemma close_each_effect persists reason now l d closed d' :
  close_each persists reason now l d = (Ok closed, d') →
  closed = omap (λ x : option OperationRecord, r ← x; if is_open r then Some (op_id r) else None) l ∧
  (∀ k, k ∉ closed → d' !! k = d !! k) ∧
  (∀ k, k ∈ closed → ∃ r, Some r ∈ l ∧ op_id r = k ∧ d' !! k = Some (Some (record_fail reason now r))).
Proof.
  revert d closed. induction l as [|x l IH]; intros d closed H; cbn in H.
  { apply mret_Ok in H as [-> ->]. split_and!; [done..|]. by intros k []%not_elem_of_nil. }
  destruct x as [r|]; cbn.
  2:{ apply IH in H as (-> & H1 & H2). split_and!; [done..|]. intros k (r & ? & ?)%H2. exists r. set_solver. }
  destruct (is_open r).
  2:{ apply IH in H as (-> & H1 & H2). split_and!; [done..|]. intros k (r' & ? & ?)%H2. exists r'. set_solver. }
  apply stm_bind_Ok in H as (u & d1 & Hp & H). unfold persist_record in Hp.
  apply stm_bind_Ok in Hp as (u1 & d2 & Ha & Hp). apply assert_Ok in Ha as (_ & _ & ->).
  apply modify_Ok in Hp as [_ ->]. apply stm_bind_Ok in H as (rest & d3 & Hr & H). apply mret_Ok in H as [-> ->].
  apply IH in Hr as (Hrest & H1 & H2). rewrite <-Hrest. split_and!; [done| |].
  - intros k Hk. rewrite H1 by set_solver. apply lookup_insert_ne. set_solver.
  - intros k. destruct (decide (k ∈ rest)) as [Hin|Hn].
    + intros _. destruct (H2 k Hin) as (r' & ? & ? & ?). exists r'. set_solver.
    + intros [->|?]%elem_of_cons; [|done]. exists r. rewrite H1 by done. split; [by left|].
      split; [done|]. exact (lookup_insert_eq d (op_id r) _).
Qed.

(** After the daemon closed the journal of its predecessor nothing reads as in
    flight: every readable record has an outcome, exactly the open ones were
    closed, as failed with the given reason, and no other file changed. *)
Theorem close_leaves_nothing_open persists reason now d closed d' :
  journal_filed d → close_unfinished_records persists reason now d = (Ok closed, d') →
  (∀ k r, d' !! k = Some (Some r) → is_open r = false) ∧
  (∀ k, k ∈ closed ↔ ∃ r, d !! k = Some (Some r) ∧ is_open r = true) ∧
  (∀ k r, k ∈ closed → d !! k = Some (Some r) → d' !! k = Some (Some (record_fail reason now r))) ∧
  (∀ k, k ∉ closed → d' !! k = d !! k).
Proof.
  intros Hf H. unfold close_unfinished_records in H. apply stm_bind_Ok in H as (d0 & d1 & Hg & H).
  apply get_Ok in Hg as [-> ->]. apply close_each_effect in H as (Hc & H1 & H2).
  assert (∀ k, k ∈ closed ↔ ∃ r, d !! k = Some (Some r) ∧ is_open r = true) as Hiff.
  { intros k. rewrite Hc, list_elem_of_omap. setoid_rewrite elem_of_btree_values. split.
    - intros (x & [k' Hk] & (r & -> & Hr)%bind_Some). destruct (is_open r) eqn:Ho; [|done]. injection Hr as <-.
      exists r. by rewrite (Hf _ _ Hk).
    - intros (r & Hk & Ho). exists (Some r). split; [by exists k|]. cbn. rewrite Ho. by rewrite (Hf _ _ Hk). }
  assert (∀ k r, k ∈ closed → d !! k = Some (Some r) → d' !! k = Some (Some (record_fail reason now r))) as Hcl.
  { intros k r Hk Hr. destruct (H2 k Hk) as (r' & [k' Hk']%elem_of_btree_values & Hid & ->).
    pose proof (Hf _ _ Hk'). subst k. assert (k' = op_id r') as -> by done. congruence. }
  split_and!; [|done..]. intros k r Hk. destruct (decide (k ∈ closed)) as [Hin|Hn].
  - pose proof Hin as (r0 & Hr0 & _)%Hiff. rewrite (Hcl k r0 Hin Hr0) in Hk. by injection Hk as <-.
  - rewrite H1 in Hk by done. destruct (is_open r) eqn:Ho; [|done]. destruct Hn. apply Hiff. eauto.
Qed.

(** ** Keeping the directory bounded *)

Lemma elem_of_terminal d stamp path :
  (stamp, path) ∈ terminal_files d ↔ ∃ r, d !! path = Some (Some r) ∧ is_open r = false ∧ updated_at r = stamp.
Proof.
  unfold terminal_files. rewrite list_elem_of_omap. split.
  - intros ([k [r|]] & Hin%elem_of_btree_list & H); cbn in H; [|done]. destruct (is_open r) eqn:Ho; [done|].
    injection H as <- <-. eauto.
  - intros (r & Hr & Ho & <-). exists (path, Some r). rewrite elem_of_btree_list. split; [done|]. cbn. by rewrite Ho.
Qed.

Lemma NoDup_omap_paths (l : list (string * option OperationRecord)) :
  NoDup l.*1 →
  NoDup (omap (λ p : string * option OperationRecord,
           match p.2 with Some r => if is_open r then None else Some (updated_at r, p.1) | None => None end) l).*2.
Proof.
  induction l as [|[k x] l IH]; cbn; [constructor|]. intros [Hk Hl]%list.NoDup_cons.
  destruct x as [r|]; [|auto]. destruct (is_open r); [auto|]. cbn. apply list.NoDup_cons. split; [|auto].
  intros ([u p] & -> & ([k' x'] & Hin & Hx)%list_elem_of_omap)%list_elem_of_fmap. apply Hk. cbn in *.
  apply list_elem_of_fmap. exists (k', x'). split; [|done]. destruct x' as [r'|]; [|done].
  destruct (is_open r'); [done|]. by injection Hx as _ <-.
Qed.
Lemma NoDup_terminal_paths d : NoDup (terminal_files d).*2.
Proof. apply NoDup_omap_paths, NoDup_btree_keys. Qed.

Lemma remove_each_effect removes l d n d' :
  remove_each removes l d = (Ok n, d') →
  (n ≤ length l)%nat ∧ ∀ k, d' !! k = if decide (k ∈ l.*2) then None else d !! k.
Proof.
  revert d n. induction l as [|[u p] l IH]; intros d n H; cbn in H.
  { apply mret_Ok in H as [-> ->]. split; [done|]. intros k. by rewrite decide_False by apply not_elem_of_nil. }
  assert (∃ m, (n ≤ S m)%nat ∧ remove_each removes l (delete p d) = (Ok m, d')) as (m & Hm & Hrec).
  { destruct (removes p); [| |by apply throw_Ok in H];
      apply stm_bind_Ok in H as (v & d1 & H1 & H); apply modify_Ok in H1 as [_ ->].
    - apply stm_bind_Ok in H as (m & d2 & H2 & H). apply mret_Ok in H as [-> ->]. by exists m.
    - exists n. split; [lia|done]. }
  apply IH in Hrec as [H1 H2]. split; [cbn; lia|]. intros k. rewrite H2. cbn [fmap list_fmap snd].
  destruct (decide (k ∈ l.*2)); [rewrite decide_True by (by right); done|].
  destruct (decide (k = p)) as [->|Hne].
  - rewrite lookup_delete_eq, decide_True; [done|by left].
  - rewrite lookup_delete_ne by done. rewrite decide_False; [done|]. by intros [->|?]%elem_of_cons.
Qed.

Lemma newest_first_total x y : newest_first x y = true ∨ newest_first y x = true.
Proof. apply str_le_total. Qed.
Lemma newest_first_trans x y z : newest_first x y = true → newest_first y z = true → newest_first x z = true.
Proof. unfold newest_first. eauto using str_le_trans. Qed.

Lemma sorted_take_drop {A} (R : A → A → Prop) n (l : list A) x y :
  StronglySorted R l → x ∈ take n l → y ∈ drop n l → R x y.
Proof.
  revert l. induction n as [|n IH]; intros l Hs; [by intros []%not_elem_of_nil|].
  destruct Hs as [|a l Hl Ha]; cbn; [by intros []%not_elem_of_nil|].
  intros [->|Hx]%elem_of_cons Hy; [|by apply (IH l)].
  rewrite list.Forall_forall in Ha. apply Ha. rewrite <-(take_drop n l). apply elem_of_app. by right.
Qed.

(** Trimming the journal never costs recovery anything and keeps the newest: a
    file that is not a finished record stays as it is, nothing is changed but
    removed, at most a thousand finished records are left, and no finished record
    that was removed is newer than one that was kept. *)
Theorem prune_keeps_newest removes d n d' :
  prune_terminal_records removes d = (Ok n, d') →
  (∀ k v, d' !! k = Some v → d !! k = Some v) ∧
  (∀ k, d !! k = Some None → d' !! k = Some None) ∧
  (∀ k r, d !! k = Some (Some r) → is_open r = true → d' !! k = Some (Some r)) ∧
  (length (terminal_files d') ≤ JOURNAL_TERMINAL_LIMIT)%nat ∧
  (∀ k1 r1 k2 r2, d !! k1 = Some (Some r1) → d' !! k1 = None → d' !! k2 = Some (Some r2) → is_open r2 = false →
     str_le (updated_at r1) (updated_at r2) = true).
Proof.
  intros H. unfold prune_terminal_records in H. apply stm_bind_Ok in H as (d0 & d1 & Hg & H).
  apply get_Ok in Hg as [-> ->]. destruct (Nat.leb_spec (length (terminal_files d)) JOURNAL_TERMINAL_LIMIT) as [Hle|_].
  { apply mret_Ok in H as [_ ->]. split_and!; try done. congruence. }
  apply remove_each_effect in H as [_ Hd']. set (s := sort_by newest_first (terminal_files d)) in Hd'.
  assert (s ≡ₚ terminal_files d) as Hperm by apply sort_by_perm.
  assert (StronglySorted (λ x y, newest_first x y = true) s) as Hsorted
    by (apply sort_by_sorted; eauto using newest_first_total, newest_first_trans).
  assert (NoDup s.*2) as Hnd by (rewrite Hperm; apply NoDup_terminal_paths).
  assert (∀ k, k ∈ (drop JOURNAL_TERMINAL_LIMIT s).*2 → ∃ r, d !! k = Some (Some r) ∧ is_open r = false) as Hdrop.
  { intros k ([u p] & -> & Hin)%list_elem_of_fmap. apply subseteq_drop in Hin. rewrite Hperm in Hin.
    apply elem_of_terminal in Hin as (r & ? & ? & _). eauto. }
  assert (∀ u p, (u, p) ∈ s → d' !! p ≠ None → (u, p) ∈ take JOURNAL_TERMINAL_LIMIT s) as Htake.
  { intros u p Hin Hp. rewrite Hd' in Hp. destruct (decide _) as [|Hn]; [done|].
    rewrite <-(take_drop JOURNAL_TERMINAL_LIMIT s) in Hin. apply elem_of_app in Hin as [?|Hin]; [done|].
    destruct Hn. apply list_elem_of_fmap. by exists (u, p). }
  assert (∀ k v, d' !! k = Some v → d !! k = Some v) as Hsub by (intros k v; rewrite Hd'; by destruct (decide _)).
  split_and!.
  - done.
  - intros k Hk. rewrite Hd'. destruct (decide _) as [(r & Hr & _)%Hdrop|]; [congruence|done].
  - intros k r Hk Ho. rewrite Hd'. destruct (decide _) as [(r' & Hr & Ho')%Hdrop|]; [congruence|done].
  - transitivity (length (take JOURNAL_TERMINAL_LIMIT s)); [|rewrite length_take; lia].
    apply submseteq_length, NoDup_submseteq; [apply (NoDup_fmap_1 snd), NoDup_terminal_paths|].
    intros [u p] (r & Hr & Ho & Hu)%elem_of_terminal. apply Htake; [|congruence].
    rewrite Hperm. apply elem_of_terminal. exists r. auto.
  - intros k1 r1 k2 r2 H1 H1' H2 Ho2. rewrite Hd' in H1'. destruct (decide _) as [Hin|]; [|congruence].
    apply list_elem_of_fmap in Hin as ([u1 p1] & -> & Hin1).
    assert (u1 = updated_at r1) as ->.
    { pose proof (subseteq_drop _ _ _ Hin1) as Hs. rewrite Hperm in Hs.
      apply elem_of_terminal in Hs as (r & Hr & _ & <-). cbn in H1. congruence. }
    assert ((updated_at r2, k2) ∈ take JOURNAL_TERMINAL_LIMIT s) as Hin2.
    { apply Htake; [|congruence]. rewrite Hperm. apply elem_of_terminal. exists r2. auto. }
    exact (sorted_take_drop _ _ _ _ _ Hsorted Hin2 Hin1).
Qed.

(** The record an operator is shown is the newest one that can be read. *)
Lemma latest_newest d :
  match latest d with
  | None => ∀ k r, d !! k = Some (Some r) → False
  | Some b => (∃ k, d !! k = Some (Some b)) ∧
      ∀ k r, d !! k = Some (Some r) → str_le (updated_at r) (updated_at b) = true
  end.
Proof.
  unfold latest.
  assert (∀ l (best : option OperationRecord),
    match foldl (λ best x, match x with Some r => if newer r best then Some r else best | None => best end) best l with
    | None => best = None ∧ ∀ r, Some r ∈ l → False
    | Some b => (best = Some b ∨ Some b ∈ l) ∧
        (∀ r, best = Some r ∨ Some r ∈ l → str_le (updated_at r) (updated_at b) = true)
    end) as Hl.
  { assert (∀ x, str_le x x = true) as Hrefl by (intros x; by destruct (str_le_total x x)).
    induction l as [|x l IH]; intros best; cbn.
    { destruct best as [b|].
      - split; [by left|]. intros r [[= ->]|[]%not_elem_of_nil]. apply Hrefl.
      - split; [done|]. by intros r []%not_elem_of_nil. }
    specialize (IH (match x with Some r => if newer r best then Some r else best | None => best end)).
    destruct (foldl _ _ l) as [b|].
    - destruct IH as [Hb Hmax]. split.
      + destruct x as [r|]; [destruct (newer r best)|]; destruct Hb as [Hb|Hb]; set_solver.
      + intros r [->|[<-|Hr]%elem_of_cons]; [| |by apply Hmax; right].
        * destruct x as [r'|]; [|by apply Hmax; left]. destruct (newer r' (Some r)) eqn:En; [|by apply Hmax; left].
          cbn in En. apply negb_true_iff in En. eapply str_le_trans; [|by apply Hmax; left].
          destruct (str_le_total (updated_at r) (updated_at r')); [done|congruence].
        * destruct (newer r best) eqn:En; [by apply Hmax; left|]. destruct best as [b0|]; [|done]. cbn in En.
          apply negb_false_iff in En. eapply str_le_trans; [exact En|]. apply Hmax. by left.
    - destruct IH as [Hb Hn]. destruct x as [r|]; [destruct best; cbn in Hb; [destruct (negb _) in Hb|]; done|].
      split; [done|]. intros r [|Hr]%elem_of_cons; [done|by apply (Hn r)]. }
  specialize (Hl (btree_values d) None). destruct (foldl _ _ _) as [b|].
  - destruct Hl as [[?|Hin] Hmax]; [done|]. apply elem_of_btree_values in Hin. split; [done|].
    intros k r Hr. apply Hmax. right. apply elem_of_btree_values. eauto.
  - destruct Hl as [_ Hn]. intros k r Hr. apply (Hn r). apply elem_of_btree_values. eauto.
Qed.

(** An operation that runs another one loses its record to it.  Both journals of
    one request take the request's operation id, so the inner operation's record
    replaces the outer one's: once the inner one finished, the outer one, which is
    still running, has no open record left, and a daemon that restarts then closes
    nothing for it. *)
Theorem nested_journal_hides_outer d d1 d2 d3 outer inner done_ i u1 u2 k1 t1 k2 t2 n1 n2 n3 :
  journal_begin true (Some i) u1 k1 t1 n1 d = (Ok outer, d1) →
  journal_begin true (Some i) u2 k2 t2 n2 d1 = (Ok inner, d2) →
  journal_succeed true n3 inner d2 = (Ok done_, d3) →
  is_open outer = true ∧ d1 !! i = Some (Some outer) ∧
  d3 !! i = Some (Some done_) ∧ kind done_ = k2 ∧ is_open done_ = false ∧
  ∀ persists reason now closed d4, journal_filed d3 →
    close_unfinished_records persists reason now d3 = (Ok closed, d4) → i ∉ closed.
Proof.
  intros H1 H2 H3. injection H1 as <- <-. injection H2 as <- <-. injection H3 as <- <-.
  split_and!; [done|exact (lookup_insert_eq _ _ _)|exact (lookup_insert_eq _ _ _)|done|done|].
  intros persists reason now closed d4 Hf H. unfold close_unfinished_records in H.
  apply stm_bind_Ok in H as (d0 & d5 & Hg & H). apply get_Ok in Hg as [-> ->].
  apply close_each_effect in H as (-> & _). intros (x & [k Hk]%elem_of_btree_values & (r & -> & Hr)%bind_Some)%list_elem_of_omap.
  destruct (is_open r) eqn:Ho; [|done]. injection Hr as Hr. pose proof (Hf _ _ Hk) as Hid. rewrite Hid in Hr. subst k.
  rewrite (lookup_insert_eq _ _ _) in Hk. by injection Hk as <-.
Qed.

(** ** Concrete runs *)

Definition sample_record (i : string) (s : OperationStatus) : OperationRecord :=
  mkRecord i "workspace.start" "dev/web" s "launch" "t0" "t1" None.
Definition sample_journal : journal_dir :=
  list_to_map [("1", Some (sample_record "1" OpRunning)); ("2", Some (sample_record "2" Succeeded)); ("3", None)].

Lemma close_leaves_nothing_open_witness :
  ∃ d', close_unfinished_records (λ _, true) "the daemon restarted" "t2" sample_journal = (Ok ["1"], d') ∧
    ∀ k r, d' !! k = Some (Some r) → is_open r = false.
Proof.
  destruct (close_unfinished_records (λ _, true) "the daemon restarted" "t2" sample_journal) as [res d'] eqn:E.
  assert (res = Ok ["1"]) as -> by (vm_compute in E; by injection E as <- _).
  exists d'. split; [done|].
  refine (proj1 (close_leaves_nothing_open (λ _, true) "the daemon restarted" "t2" sample_journal ["1"] d' _ E)).
  intros k r. unfold sample_journal. cbn [list_to_map foldr curry uncurry fst snd].
  rewrite !lookup_insert_Some, lookup_empty. by intros [[<- [= <-]]|[_ [[<- [= <-]]|[_ [[<- [=]]|[_ [=]]]]]]].
Defined.

Lemma prune_keeps_newest_witness :
  ∃ n d', prune_terminal_records (λ _, Removed) sample_journal = (Ok n, d') ∧
    d' !! "1" = Some (Some (sample_record "1" OpRunning)) ∧ d' !! "3" = Some None.
Proof.
  destruct (prune_terminal_records (λ _, Removed) sample_journal) as [[n|] d'] eqn:E; [|by vm_compute in E].
  destruct (prune_keeps_newest (λ _, Removed) sample_journal n d' E) as (_ & H1 & H2 & _).
  exists n, d'. split; [done|]. split; [by apply H2|by apply H1].
Defined.

Lemma nested_journal_hides_outer_witness :
  ∃ outer d1 inner d2 r d3,
    journal_begin true (Some "op") "u1" "sandbox.destroy" "dev" "t0" ∅ = (Ok outer, d1) ∧
    journal_begin true (Some "op") "u2" "workspace.destroy" "dev/web" "t1" d1 = (Ok inner, d2) ∧
    journal_succeed true "t2" inner d2 = (Ok r, d3) ∧ is_open outer = true ∧
    d3 !! "op" = Some (Some r) ∧ kind r = "workspace.destroy" ∧ is_open r = false.
Proof.
  destruct (journal_begin true (Some "op") "u1" "sandbox.destroy" "dev" "t0" ∅) as [[outer|] d1] eqn:E1; [|done].
  destruct (journal_begin true (Some "op") "u2" "workspace.destroy" "dev/web" "t1" d1) as [[inner|] d2] eqn:E2; [|done].
  destruct (journal_succeed true "t2" inner d2) as [[r|] d3] eqn:E3; [|done].
  destruct (nested_journal_hides_outer _ _ _ _ _ _ _ _ _ _ _ _ _ _ _ _ _ E1 E2 E3) as (H1 & _ & H2 & H3 & H4 & _).
  by exists outer, d1, inner, d2, r, d3.
Defined.
