(* ===== verification/StateLock.v ===== *)
(** * Owning the state directory (src/src/daemon/state_lock.rs, active_operations.rs)

    One daemon owns a state directory: it holds an exclusive lock on the file
    [daemon.lock] and removes the file when it exits.  A lock is on an inode and a
    removal is by path, so a daemon that starts while another exits can lock a file that
    is no longer there.  Each daemon below takes one step at a time and all of them
    interleave, with crashes; a step is one system call on the path or the lock, with
    the calls on the daemon's own descriptor that follow it.  The second part is the table of running operations
    that shutdown waits for. *)
From S2P Require Import Prelude.

(** ** System calls *)

(** What is at the lock path: a regular file with its inode, or something else. *)
Inductive entry := Regular (inode : nat) | Other.
#[export] Instance entry_eq_dec : EqDecision entry.
Proof. solve_decision. Defined.
(** The path, and for each locked inode the daemon whose descriptor holds the lock. *)
Record lock_fs := mkLockFs { lock_path : option entry; flocks : gmap nat nat }.

Definition ACQUIRE_ATTEMPTS : nat := 4.

(** Where a daemon is in [acquire_state_lock] or in the drop of its lock, with the
    attempts it has left and the inode it has open. *)
Inductive phase :=
  | Inspect (left : nat)                   (** [symlink_metadata] before the open *)
  | OpenFile (left : nat)
  | TryLock (left inode : nat)             (** [flock] without blocking *)
  | Recheck (left inode : nat)             (** [symlink_metadata] after the lock *)
  | WriteRecord (inode : nat)
  | Held (inode : nat)                     (** [acquire_state_lock] has returned *)
  | DropInspect (inode : nat)
  | DropRemove (inode : nat)
  | DropUnlock (inode : nat).

Definition start_acquire : phase := Inspect (pred ACQUIRE_ATTEMPTS).

(** The descriptor is closed, which releases its lock. *)
Definition close_file (inode d : nat) (fs : lock_fs) : lock_fs :=
  if bool_decide (flocks fs !! inode = Some d) then mkLockFs (lock_path fs) (delete inode (flocks fs)) else fs.
(** [continue]: the next attempt, if there is one. *)
Definition retry (left : nat) : option phase := match left with O => None | S n => Some (Inspect n) end.

(** The next step of daemon [d]; [ok] is whether its calls succeed and [fresh] the
    inode of a file it creates.  The open is followed by the [fstat] of the descriptor, and the
    record is written by a truncation, a seek, two writes and a sync, which no other daemon
    takes part in.  [None] means the daemon has given up or
    finished. *)
Definition turn (fresh : nat) (ok : bool) (d : nat) (p : phase) (fs : lock_fs) : option phase * lock_fs :=
  match p with
  | Inspect n =>
      match lock_path fs with
      | Some Other => (None, fs)
      | _ => if ok then (Some (OpenFile n), fs) else (None, fs)
      end
  | OpenFile n =>
      if negb ok then (None, fs)
      else match lock_path fs with
           | None => (Some (TryLock n fresh), mkLockFs (Some (Regular fresh)) (flocks fs))
           | Some (Regular i) => (Some (TryLock n i), fs)
           | Some Other => (None, fs)
           end
  | TryLock n i =>
      match flocks fs !! i with
      | Some _ => (None, fs)
      | None => if ok then (Some (Recheck n i), mkLockFs (lock_path fs) (<[i := d]> (flocks fs))) else (None, fs)
      end
  | Recheck n i =>
      if negb ok then (None, close_file i d fs)
      else match lock_path fs with
           | Some (Regular j) => if bool_decide (i = j) then (Some (WriteRecord i), fs) else (retry n, close_file i d fs)
           | _ => (retry n, close_file i d fs)
           end
  | WriteRecord i => if ok then (Some (Held i), fs) else (None, close_file i d fs)
  | Held i => (Some (DropInspect i), fs)
  | DropInspect i =>
      if ok && bool_decide (lock_path fs = Some (Regular i)) then (Some (DropRemove i), fs) else (Some (DropUnlock i), fs)
  | DropRemove i => (Some (DropUnlock i), if ok then mkLockFs None (flocks fs) else fs)
  | DropUnlock i => (None, close_file i d fs)
  end.

(** ** Daemons *)

Record daemons := mkDaemons { lfs : lock_fs; procs : gmap nat phase }.
Definition no_daemons (at_path : option entry) : daemons := mkDaemons (mkLockFs at_path ∅) ∅.

(** The inode a daemon has open. *)
Definition open_inode (p : phase) : option nat :=
  match p with
  | Inspect _ | OpenFile _ => None
  | TryLock _ i | Recheck _ i | WriteRecord i | Held i | DropInspect i | DropRemove i | DropUnlock i => Some i
  end.
(** An inode number is given to a new file only when no file has it: none at the path,
    and none that a daemon has open. *)
Definition unused (i : nat) (s : daemons) : Prop :=
  lock_path (lfs s) ≠ Some (Regular i) ∧ ∀ d p, procs s !! d = Some p → open_inode p ≠ Some i.

Inductive daemon_step : daemons → daemons → Prop :=
  | step_spawn s d :
      procs s !! d = None → daemon_step s (mkDaemons (lfs s) (<[d := start_acquire]> (procs s)))
  | step_turn s d p fresh ok p' fs' :
      procs s !! d = Some p → unused fresh s → turn fresh ok d p (lfs s) = (p', fs') →
      daemon_step s (mkDaemons fs' (partial_alter (λ _, p') d (procs s)))
  | step_crash s d p :
      procs s !! d = Some p →
      daemon_step s (mkDaemons (default (lfs s) ((λ i, close_file i d (lfs s)) <$> open_inode p)) (delete d (procs s))).

(** ** At most one owner *)

(** The inode whose lock a daemon holds. *)
Definition locked_inode (p : phase) : option nat :=
  match p with
  | Recheck _ i | WriteRecord i | Held i | DropInspect i | DropRemove i | DropUnlock i => Some i
  | _ => None
  end.
(** Past the second look at the path, and before it is given up. *)
Definition owns (p : phase) : option nat :=
  match p with WriteRecord i | Held i | DropInspect i | DropRemove i => Some i | _ => None end.

Record lock_inv (s : daemons) : Prop := {
  inv_locks : ∀ i d, flocks (lfs s) !! i = Some d ↔ ∃ p, procs s !! d = Some p ∧ locked_inode p = Some i;
  inv_owner : ∀ d p i, procs s !! d = Some p → owns p = Some i → lock_path (lfs s) = Some (Regular i) }.

Lemma owns_locked p i : owns p = Some i → locked_inode p = Some i.
Proof. by destruct p. Qed.

(** Two owners are one daemon. *)
Lemma owner_unique s d1 d2 p1 p2 i1 i2 : lock_inv s →
  procs s !! d1 = Some p1 → procs s !! d2 = Some p2 → owns p1 = Some i1 → owns p2 = Some i2 → d1 = d2.
Proof.
  intros [L O] H1 H2 O1 O2. pose proof (O _ _ _ H1 O1) as E1. rewrite (O _ _ _ H2 O2) in E1. injection E1 as ->.
  assert (flocks (lfs s) !! i1 = Some d1) as F1 by (apply L; exists p1; auto using owns_locked).
  assert (flocks (lfs s) !! i1 = Some d2) as F2 by (apply L; exists p2; auto using owns_locked). congruence.
Qed.

Lemma lock_path_close i d fs : lock_path (close_file i d fs) = lock_path fs.
Proof. unfold close_file. by case_bool_decide. Qed.
Lemma flocks_close i d fs j : flocks (close_file i d fs) !! j =
  if bool_decide (i = j ∧ flocks fs !! i = Some d) then None else flocks fs !! j.
Proof.
  unfold close_file. case_bool_decide as H; case_bool_decide as H'; cbn.
  - destruct H' as [-> _]. by rewrite lookup_delete_eq.
  - rewrite lookup_delete_ne; [done|]. intros ->. by apply H'.
  - by destruct H'.
  - done.
Qed.

Section preservation.
Context (s : daemons) (d : nat).

(** Daemon [d] moves on to [p'] and the file system to [fs']: what is left to show. *)
Lemma lock_update p' fs' : lock_inv s →
  (∀ i e, flocks fs' !! i = Some e ↔ (e = d ∧ p' ≫= locked_inode = Some i) ∨ (e ≠ d ∧ flocks (lfs s) !! i = Some e)) →
  (∀ i, p' ≫= owns = Some i → lock_path fs' = Some (Regular i)) →
  lock_path fs' = lock_path (lfs s) ∨ (∀ e q, e ≠ d → procs s !! e = Some q → owns q = None) →
  lock_inv (mkDaemons fs' (partial_alter (λ _, p') d (procs s))).
Proof.
  intros [L O] Hf Ho Hp. split; cbn.
  - intros i e. rewrite Hf. destruct (decide (e = d)) as [->|Hne].
    + rewrite lookup_partial_alter_eq. destruct p' as [q|]; cbn; split.
      * intros [[_ H]|[? _]]; [by exists q|done].
      * intros (q' & [= <-] & H). by left.
      * intros [[_ [=]]|[? _]]; done.
      * intros (? & [=] & _).
    + rewrite lookup_partial_alter_ne by done. rewrite L. split; [intros [[-> _]|[_ H]]; done|by right].
  - intros e q i. destruct (decide (e = d)) as [->|Hne].
    + rewrite lookup_partial_alter_eq. destruct p' as [q'|]; [|done]. intros [= <-]. apply Ho.
    + rewrite lookup_partial_alter_ne by done. intros He Hq. destruct Hp as [->|Hp]; [by eapply O|].
      by rewrite (Hp e q Hne He) in Hq.
Qed.

Context (p : phase) (H : lock_inv s) (E : procs s !! d = Some p).

Lemma flocks_keep i e : flocks (lfs s) !! i = Some e ↔ (e = d ∧ locked_inode p = Some i) ∨ (e ≠ d ∧ flocks (lfs s) !! i = Some e).
Proof using E H.
  destruct (decide (e = d)) as [->|]; [|by split; [right|intros [[-> _]|[_ ?]]]].
  rewrite (inv_locks _ H). rewrite E. split.
  - intros (q & [= <-] & Hq). by left.
  - intros [[_ Hq]|[? _]]; [by exists p|done].
Qed.
Lemma flocks_release j i e : locked_inode p = Some j →
  flocks (close_file j d (lfs s)) !! i = Some e ↔ (e = d ∧ None = Some i) ∨ (e ≠ d ∧ flocks (lfs s) !! i = Some e).
Proof using E H.
  intros Hj. assert (flocks (lfs s) !! j = Some d) as Hd by (apply (inv_locks _ H); eauto).
  rewrite flocks_close. case_bool_decide as Hc; [destruct Hc as [<- _]|]; split; try done.
  - intros [[_ [=]]|[Hne He]]; congruence.
  - intros He. right. split; [|done]. intros ->. apply flocks_keep in He as [[_ He]|[? _]]; [|done].
    apply Hc. split; congruence.
  - intros [[_ [=]]|[_ He]]; done.
Qed.
Lemma others_own_nothing : owns p ≠ None → ∀ e q, e ≠ d → procs s !! e = Some q → owns q = None.
Proof using E H.
  intros Ho e q Hne He. destruct (owns q) as [j|] eqn:Eq; [|done]. destruct (owns p) as [i|] eqn:Ep; [|done].
  destruct Hne. by eapply owner_unique.
Qed.
End preservation.

Lemma turn_inv s d p fresh ok p' fs' : lock_inv s → procs s !! d = Some p → turn fresh ok d p (lfs s) = (p', fs') →
  lock_inv (mkDaemons fs' (partial_alter (λ _, p') d (procs s))).
Proof.
  intros H E T.
  assert (∀ q, locked_inode q = locked_inode p → (∀ i, owns q = Some i → lock_path (lfs s) = Some (Regular i)) →
    lock_inv (mkDaemons (lfs s) (partial_alter (λ _, Some q) d (procs s)))) as keep.
  { intros q Hq Ho. apply lock_update; [done| |done|by left]. intros i e. cbn. rewrite Hq. by apply flocks_keep. }
  assert (locked_inode p = None → lock_inv (mkDaemons (lfs s) (partial_alter (λ _, None) d (procs s)))) as stop.
  { intros Hq. apply lock_update; [done| |done|by left]. intros i e. cbn. rewrite <- Hq. by apply flocks_keep. }
  assert (∀ j q, locked_inode p = Some j → q ≫= locked_inode = None →
    lock_inv (mkDaemons (close_file j d (lfs s)) (partial_alter (λ _, q) d (procs s)))) as release.
  { intros j q Hj Hq. apply lock_update; [done| | |left; apply lock_path_close].
    - intros i e. rewrite Hq. by eapply flocks_release.
    - intros i Ho. destruct q as [q|]; [|done]. cbn in *. apply owns_locked in Ho. congruence. }
  assert (∀ n, retry n ≫= locked_inode = None) as Hretry by by intros [].
  destruct p as [n|n|n i|n i|i|i|i|i|i]; cbn [turn] in T.
  - destruct (lock_path (lfs s)) as [[]|], ok; injection T as <- <-; first [by apply keep|by apply stop].
  - destruct ok; cbn in T; [|injection T as <- <-; by apply stop].
    destruct (lock_path (lfs s)) as [[i|]|] eqn:Ep; injection T as <- <-; [by apply keep|by apply stop|].
    apply lock_update; [done| |done|right].
    + intros j e. cbn. by apply (flocks_keep s d (OpenFile n)).
    + intros e q _ He. destruct (owns q) as [j|] eqn:Eo; [|done]. by rewrite (inv_owner _ H _ _ _ He Eo) in Ep.
  - destruct (flocks (lfs s) !! i) eqn:Ef; [injection T as <- <-; by apply stop|].
    destruct ok; injection T as <- <-; [|by apply stop]. apply lock_update; [done| |done|by left]. intros j e. cbn.
    rewrite lookup_insert. case_decide as Hj; [subst j|].
    + rewrite Ef. split; [intros [= <-]; by left|intros [[-> _]|[_ [=]]]; done].
    + pose proof (flocks_keep s d _ H E j e) as K. cbn in K. split.
      * intros [[_ [=]]|Hx]%K. by right.
      * intros [[_ [= ->]]|[_ Hx]]; done.
  - destruct ok; cbn in T; [|injection T as <- <-; by apply release].
    destruct (lock_path (lfs s)) as [[j|]|] eqn:Ep; [|injection T as <- <-; by apply release..].
    case_bool_decide as Hj; injection T as <- <-; [subst j|by apply release]. apply keep; [done|]. cbn. congruence.
  - destruct ok; injection T as <- <-; [|by apply release]. apply keep; [done|]. intros j Hj. by eapply inv_owner.
  - injection T as <- <-. apply keep; [done|]. intros j Hj. by eapply inv_owner.
  - destruct (ok && _) eqn:Ec; injection T as <- <-; apply keep; try done. intros j Hj. by eapply inv_owner.
  - injection T as <- <-. destruct ok; [|by apply keep]. apply lock_update; [done| |done|right].
    + intros j e. cbn. by apply (flocks_keep s d (DropRemove i)).
    + by eapply others_own_nothing.
  - injection T as <- <-. by apply release.
Qed.

Lemma daemon_step_inv s s' : lock_inv s → daemon_step s s' → lock_inv s'.
Proof.
  intros H Hs. revert H. destruct Hs as [s0 d Hn|s0 d p fresh ok p' fs' Hp _ T|s0 d p Hp]; intros H.
  - apply (lock_update s0 d (Some start_acquire)); [done| |done|by left]. intros i e. cbn. split.
    + intros He. right. split; [|done]. intros ->. apply (inv_locks _ H) in He as (q & Hq & _). congruence.
    + intros [[_ [=]]|[_ ?]]; done.
  - by eapply turn_inv.
  - assert (open_inode p = None ∨ (∃ i, open_inode p = Some i ∧ locked_inode p = None) ∨
      ∃ i, open_inode p = Some i ∧ locked_inode p = Some i) as Ho by (destruct p; cbn; eauto).
    destruct Ho as [Ho|[(i & Ho & Hl)|(i & Ho & Hl)]]; rewrite Ho; cbn.
    + apply (lock_update s0 d None); [done| |done|by left]. intros i e. cbn.
      replace None with (locked_inode p) by by destruct p. by apply flocks_keep.
    + apply (lock_update s0 d None); [done| |done|left; apply lock_path_close]. intros j e. cbn. rewrite <- Hl at 1.
      rewrite flocks_close. case_bool_decide as Hc; [|by apply flocks_keep]. destruct Hc as [_ Hc].
      apply (flocks_keep s0 d p H Hp) in Hc as [[_ Hc]|[? _]]; [congruence|done].
    + apply (lock_update s0 d None); [done| |done|left; apply lock_path_close]. intros j e. cbn. by eapply flocks_release.
Qed.
Lemma daemons_inv at_path s : rtc daemon_step (no_daemons at_path) s → lock_inv s.
Proof.
  intros Hs. assert (lock_inv (no_daemons at_path)) as H0.
  { split; cbn; [|done]. intros i d. split; [done|]. by intros (p & ? & _). }
  revert H0. induction Hs; eauto using daemon_step_inv.
Qed.

(** C23: one daemon owns a state directory.  However daemons start, exit, crash and
    interleave, and whatever their system calls answer: at most one of them has acquired
    the lock and not begun to give it up, the file at the lock path is the file that
    daemon has locked, and so whoever opens the path while it runs is refused. *)
Theorem one_daemon_owns_state at_path s d i :
  rtc daemon_step (no_daemons at_path) s → procs s !! d = Some (Held i) →
  (∀ d' i', procs s !! d' = Some (Held i') → d' = d) ∧
  lock_path (lfs s) = Some (Regular i) ∧
  (∀ d' n fresh ok, (turn fresh ok d' (TryLock n i) (lfs s)).1 = None) ∧
  (∀ d' n fresh ok, ∃ o, turn fresh ok d' (OpenFile n) (lfs s) = (o, lfs s) ∧ (o = None ∨ o = Some (TryLock n i))).
Proof.
  intros Hs%daemons_inv Hd. pose proof (inv_owner _ Hs _ _ i Hd eq_refl) as Hp.
  assert (flocks (lfs s) !! i = Some d) as Hf by (apply (inv_locks _ Hs); eauto).
  split_and!; [|done|..].
  - intros d' i' Hd'. by eapply (owner_unique s d' d).
  - intros d' n fresh ok. cbn. by rewrite Hf.
  - intros d' n fresh ok. cbn. rewrite Hp. destruct ok; eauto.
Qed.

Lemma turn_alone fs p fresh ok p' fs' : turn fresh ok 0 p fs = (Some p', fs') →
  lock_path fs ≠ Some (Regular fresh) → open_inode p ≠ Some fresh →
  daemon_step (mkDaemons fs {[0%nat := p]}) (mkDaemons fs' {[0%nat := p']}).
Proof.
  intros T Hp Ho. replace {[0%nat := p']} with (partial_alter (λ _, Some p') 0%nat ({[0%nat := p]} : gmap nat phase))
    by reflexivity.
  pose proof (step_turn (mkDaemons fs {[0%nat := p]}) 0 p fresh ok (Some p') fs') as Hstep. apply Hstep; [done| |done].
  split; [done|]. cbn. intros d q [_ <-]%lookup_singleton_Some. done.
Qed.
(** A daemon starts, creates the file and acquires the lock. *)
Lemma one_daemon_owns_state_witness :
  ∃ s, rtc daemon_step (no_daemons None) s ∧ procs s !! 0%nat = Some (Held 5) ∧ lock_path (lfs s) = Some (Regular 5).
Proof.
  assert (rtc daemon_step (no_daemons None)
    (mkDaemons (mkLockFs (Some (Regular 5)) {[5%nat := 0%nat]}) {[0%nat := Held 5]})) as Hs.
  { eapply rtc_l; [by apply (step_spawn _ 0)|].
    do 2 (eapply rtc_l; [by eapply (turn_alone _ _ 5 true)|]).
    do 3 (eapply rtc_l; [by eapply (turn_alone _ _ 6 true)|]). apply rtc_refl. }
  eexists. split; [exact Hs|]. split; [done|]. by destruct (one_daemon_owns_state None _ 0 5 Hs eq_refl) as (_ & ? & _).
Defined.

(** ** Acquisition ends *)

(** The turns of one daemon until it holds the lock or has failed, while others change
    the file system between them. *)
Fixpoint acquire_run (d : nat) (answers : list (nat * bool * lock_fs)) (p : option phase) : option phase :=
  match p with
  | None | Some (Held _) => p
  | Some q => match answers with [] => p | (fresh, ok, fs) :: rest => acquire_run d rest (turn fresh ok d q fs).1 end
  end.

(** The turns of a daemon that is alone. *)
Fixpoint turns_alone (fresh d n : nat) (p : phase) (fs : lock_fs) : option phase * lock_fs :=
  match n with
  | O => (Some p, fs)
  | S n => match turn fresh true d p fs with (Some q, fs') => turns_alone fresh d n q fs' | r => r end
  end.

Definition turns_left (p : phase) : nat :=
  match p with
  | Inspect n => 4 * n + 5 | OpenFile n => 4 * n + 4 | TryLock n _ => 4 * n + 3 | Recheck n _ => 4 * n + 2 | WriteRecord _ => 1
  | _ => 0
  end.
Definition acquiring (p : phase) : bool :=
  match p with Inspect _ | OpenFile _ | TryLock _ _ | Recheck _ _ | WriteRecord _ => true | _ => false end.

Lemma turn_progress fresh ok d p fs q : acquiring p = true → (turn fresh ok d p fs).1 = Some q →
  (turns_left q < turns_left p)%nat ∧ (acquiring q = true ∨ ∃ i, q = Held i).
Proof.
  intros Hp Hq. destruct p as [n|n|n i|n i|i|i|i|i|i]; cbn in Hp; try done; cbn in Hq; clear Hp.
  all: repeat (case_match; cbn in Hq; try done); try (injection Hq as <-; cbn; split; [lia|by eauto]).
  all: destruct n; [done|]; injection Hq as <-; cbn; split; [lia|by left].
Qed.

(** The attempts among the turns: each starts with a look at the path. *)
Fixpoint attempts (d : nat) (answers : list (nat * bool * lock_fs)) (p : option phase) : nat :=
  match p with
  | None | Some (Held _) => 0
  | Some q =>
      match answers with
      | [] => 0
      | (fresh, ok, fs) :: rest =>
          (match q with Inspect _ => 1 | _ => 0 end) + attempts d rest (turn fresh ok d q fs).1
      end
  end.
Definition attempts_left (p : phase) : nat :=
  match p with Inspect n => S n | OpenFile n | TryLock n _ | Recheck n _ => n | _ => 0 end.
Lemma attempts_bounded d answers p : acquiring p = true → (attempts d answers (Some p) ≤ attempts_left p)%nat.
Proof.
  revert p. induction answers as [|[[fresh ok] fs] answers IH]; intros p Hp; [by destruct p; cbn; lia|].
  assert (attempts d ((fresh, ok, fs) :: answers) (Some p) =
    ((match p with Inspect _ => 1 | _ => 0 end) + attempts d answers (turn fresh ok d p fs).1)%nat) as -> by by destruct p.
  assert (∀ q, (turn fresh ok d p fs).1 = Some q →
    ((match p with Inspect _ => 1 | _ => 0 end) + attempts_left q ≤ attempts_left p)%nat) as Hl.
  { intros q Hq. destruct p as [n|n|n i|n i|i|i|i|i|i]; cbn in Hp; try done; cbn in Hq.
    all: repeat (case_match; cbn in Hq; try done); try (injection Hq as <-; cbn; lia).
    all: destruct n; [done|]; injection Hq as <-; cbn; lia. }
  destruct (turn fresh ok d p fs).1 as [q|] eqn:Eq; [|destruct answers, p; cbn in *; try done; lia].
  specialize (Hl q eq_refl). destruct (turn_progress _ _ _ _ _ _ Hp Eq) as [_ [Hq|[i ->]]].
  - specialize (IH q Hq). lia.
  - destruct answers; cbn in *; lia.
Qed.

Lemma run_ends d answers p : acquiring p = true ∨ (∃ i, p = Held i) → (turns_left p ≤ length answers)%nat →
  acquire_run d answers (Some p) = None ∨ ∃ i, acquire_run d answers (Some p) = Some (Held i).
Proof.
  revert p. induction answers as [|[[fresh ok] fs] answers IH]; intros p Hp Hl.
  { destruct Hp as [Hp|[i ->]]; [destruct p; cbn in *; done || lia|cbn; eauto]. }
  destruct Hp as [Hp|[i ->]]; [|cbn; eauto].
  assert (acquire_run d ((fresh, ok, fs) :: answers) (Some p) = acquire_run d answers (turn fresh ok d p fs).1) as ->
    by by destruct p.
  destruct (turn fresh ok d p fs).1 as [q|] eqn:Eq; [|destruct answers; by left].
  destruct (turn_progress _ _ _ _ _ _ Hp Eq) as [Hlt Hq]. apply IH; [done|]. cbn in Hl. lia.
Qed.

(** C24: acquiring the lock ends.  Whatever the system calls answer and however others
    replace the file meanwhile, the daemon makes at most four attempts, and after a number
    of steps that does not depend on them it has the lock or has failed.  On a directory
    whose lock path is free or a regular file, which nobody has locked and nobody else
    touches, it has the lock at its first attempt when its calls succeed. *)
Theorem acquire_ends d :
  (∀ answers, attempts d answers (Some start_acquire) ≤ ACQUIRE_ATTEMPTS)%nat ∧
  (∃ steps, ∀ answers, (steps ≤ length answers)%nat →
     acquire_run d answers (Some start_acquire) = None ∨ ∃ i, acquire_run d answers (Some start_acquire) = Some (Held i)) ∧
  (∀ n i fs, lock_path fs ≠ Some Other → (∀ j, flocks fs !! j = None) →
     ∃ steps j fs', turns_alone i d steps (Inspect n) fs = (Some (Held j), fs') ∧ flocks fs' !! j = Some d ∧
       lock_path fs' = Some (Regular j)).
Proof.
  split; [|split].
  - intros answers. by apply (attempts_bounded d answers start_acquire).
  - exists (turns_left start_acquire). intros answers. apply run_ends. by left.
  - intros n i [path locks] Hne Hl. cbn in Hne, Hl. exists 5%nat. destruct path as [[j|]|]; [exists j|done|exists i]; eexists.
    all: split; [cbn; rewrite Hl; cbn; by rewrite bool_decide_eq_true_2|cbn; by rewrite lookup_insert_eq].
Qed.

Lemma acquire_ends_witness :
  let refused := replicate 40 (0%nat, true, mkLockFs (Some (Regular 3)) {[3%nat := 9%nat]}) in
  (attempts 1 refused (Some start_acquire) ≤ 4)%nat ∧ acquire_run 1 refused (Some start_acquire) = None ∧
  ∃ steps j fs', turns_alone 7 1 steps (Inspect 0) (mkLockFs None ∅) = (Some (Held j), fs') ∧ flocks fs' !! j = Some 1%nat.
Proof.
  intros refused. destruct (acquire_ends 1) as (H1 & _ & H3). split; [apply H1|]. split; [by vm_compute|].
  destruct (H3 0%nat 7%nat (mkLockFs None ∅)) as (steps & j & fs' & E & Hf & _); [done|done|]. by exists steps, j, fs'.
Defined.

(** ** Running operations (active_operations.rs) *)

Record ActiveOperation := mkOperation { op_id : string; op_action : string; op_target : string }.
Abbreviation operations := (gmap string ActiveOperation).

Definition begin_operation (id action target : string) (m : operations) : operations :=
  <[id := mkOperation id action target]> m.
(** The drop of [ActiveOperationGuard], which knows the id only. *)
Definition end_operation (id : string) (m : operations) : operations := delete id m.
Definition in_flight (m : operations) : list ActiveOperation := (btree_list m).*2.

(** [wait_for_drain]: what the table is each time the wait wakes up, until the grace
    period is over. *)
Fixpoint wait_for_drain (m : operations) (later : list operations) : list ActiveOperation :=
  if bool_decide (m = ∅) then []
  else match later with [] => in_flight m | m' :: rest => wait_for_drain m' rest end.

(** The table next to the operations whose guards are alive.  [handle_client] begins an
    operation under the id its caller sent, before the caller is authorized, and the
    guard is dropped when the request ends, refused or done. *)
Record requests := mkRequests { table : operations; guards : list ActiveOperation }.
Definition begins (o : ActiveOperation) (r : requests) : requests :=
  mkRequests (begin_operation (op_id o) (op_action o) (op_target o) (table r)) (o :: guards r).
Inductive request_step : requests → requests → Prop :=
  | request_begins r o : op_id o ∉ op_id <$> guards r → request_step r (begins o r)
  | request_ends r l1 o l2 : guards r = l1 ++ o :: l2 →
      request_step r (mkRequests (end_operation (op_id o) (table r)) (l1 ++ l2)).

Definition accounted_for (r : requests) : Prop :=
  NoDup (op_id <$> guards r) ∧ ∀ id o, table r !! id = Some o ↔ o ∈ guards r ∧ op_id o = id.

Lemma request_step_accounted r r' : accounted_for r → request_step r r' → accounted_for r'.
Proof.
  intros Hr Hs. revert Hr. destruct Hs as [r [id a t] Hid|r l1 o l2 E]; intros [N T]; split; cbn.
  - by constructor.
  - intros id' o. unfold begin_operation. rewrite lookup_insert. case_decide as Hd; [subst id'|].
    + split; [intros [= <-]; split; [by left|done]|]. intros [[->|Hin]%elem_of_cons Ho]; [done|].
      destruct Hid. apply list_elem_of_fmap. by exists o.
    + rewrite T. split; [intros [? ?]; split; [by right|done]|]. intros [[->|Hin]%elem_of_cons Ho]; done.
  - rewrite E in N. rewrite fmap_app, fmap_cons in *. apply list.NoDup_app in N as (N1 & N2 & N3).
    apply list.NoDup_cons in N3 as [N3 N4]. apply list.NoDup_app. split_and!; [done| |done].
    intros x Hx Hy. apply (N2 x Hx). by right.
  - intros id o'. unfold end_operation. rewrite lookup_delete. rewrite E in N, T.
    rewrite fmap_app, fmap_cons in N. apply list.NoDup_app in N as (_ & N2 & N3). apply list.NoDup_cons in N3 as [N3 _].
    case_decide as Hd; [subst id|].
    + split; [done|]. intros [[Hin|Hin]%elem_of_app Ho].
      * destruct (N2 (op_id o)); [|by left]. apply list_elem_of_fmap. by exists o'.
      * destruct N3. apply list_elem_of_fmap. by exists o'.
    + rewrite T, !elem_of_app, elem_of_cons. split; [|tauto]. intros [[?|[->|?]] Ho]; [tauto|done|tauto].
Qed.

(** Requests with ids of their own are all seen: the operations in flight are exactly
    the guards alive, so a drain that reports nothing left had nothing running. *)
Theorem drain_reports_running r m later :
  rtc request_step (mkRequests ∅ []) r → list.last (m :: later) = Some (table r) →
  (∀ o, o ∈ in_flight (table r) ↔ o ∈ guards r) ∧
  (Forall (λ m, m ≠ ∅) (m :: later) → wait_for_drain m later = in_flight (table r)) ∧
  (later = [] → wait_for_drain m later = [] → guards r = []).
Proof.
  intros Hr Hm. assert (accounted_for r) as [N T].
  { assert (accounted_for (mkRequests ∅ [])) as H0.
    { split; [constructor|]. cbn. intros id o. split; [done|]. by intros [?%not_elem_of_nil _]. }
    revert H0. clear Hm. induction Hr; eauto using request_step_accounted. }
  assert (∀ o, o ∈ in_flight (table r) ↔ o ∈ guards r) as Hin.
  { intros o. unfold in_flight. rewrite list_elem_of_fmap. split.
    - intros ([id o'] & -> & Ho%elem_of_btree_list). by apply T in Ho as [? _].
    - intros Ho. exists (op_id o, o). split; [done|]. apply elem_of_btree_list. by apply T. }
  split; [done|]. split.
  - revert m Hm. induction later as [|m' later IH]; intros m Hm HF; cbn; apply list.Forall_cons in HF as [Hne HF];
      rewrite bool_decide_eq_false_2 by done; [by injection Hm as ->|by apply IH].
  - intros -> Hw. cbn in Hm. injection Hm as ->. destruct (guards r) as [|o l] eqn:Eg; [done|].
    assert (o ∈ in_flight (table r)) as Ho by (apply Hin; by left). cbn in Hw. case_bool_decide as He; [|].
    + rewrite He in Ho. by apply not_elem_of_nil in Ho.
    + rewrite Hw in Ho. by apply not_elem_of_nil in Ho.
Qed.

(** A request that sends the id of a running operation hides it: when the second
    request ends, if only because its caller was refused, the entry of the first is
    gone, and a shutdown does not wait for it. *)
Theorem shared_id_hides_operation r o o' later :
  accounted_for r → guards r = [o] → op_id o' = op_id o →
  let r' := begins o' r in
  let r'' := mkRequests (end_operation (op_id o') (table r')) [o] in
  guards r' = o' :: [o] ∧ wait_for_drain (table r'') later = [].
Proof.
  intros [_ T] Hg Hid. cbn. split; [by rewrite Hg|]. unfold begin_operation, end_operation. rewrite delete_insert_eq.
  assert (delete (op_id o') (table r) = ∅) as ->.
  { apply map_empty. intros id. rewrite lookup_delete_None. destruct (decide (op_id o' = id)) as [->|Hne]; [by left|right].
    destruct (table r !! id) as [x|] eqn:E; [|done]. apply T in E as [Hx <-]. rewrite Hg in Hx.
    apply list_elem_of_singleton in Hx as ->. done. }
  by destruct later.
Qed.
