(* ===== verification/Dispatch.v ===== *)
(** * Requests

    What happens to a request between the socket and its handler: the request line
    and the gates in front of dispatch (src/src/daemon/request.rs), the actions and
    their classification (src/src/daemon/dispatch/action.rs), the lease a request
    takes (src/src/daemon/dispatch/lease_scope.rs), and the reading of its parameters
    (src/src/daemon/dispatch/params.rs). *)
From S2P Require Import Prelude StateLock RustStr Json FileStore Policy Leases Limiters ExecQueue Types Registry Records Fleet Start Stop.
From Stdlib Require Import QArith.
Open Scope Z_scope.

(** ** Actions (dispatch/action.rs) *)

Inductive Action :=
  | APing | ADaemonHealth | ADaemonDoctor | ADaemonDoctorRepair | AInit | ASandboxCreate | ASandboxUpdate
  | ASandboxResize | ASandboxStart | ASandboxStop | ASandboxPause | ASandboxResume | ASandboxStatus
  | ASandboxDestroy | ASandboxWipe | ASandboxList | ASandboxRemove | ASandboxExecSetup | AProcessList
  | AWorkspaceCreate | AWorkspaceStart | AWorkspaceStartMany | AWorkspaceStop | AWorkspaceDestroy
  | AWorkspaceWipe | AWorkspaceStatus | AWorkspaceStats | AWorkspaceStatsList | AWorkspaceList
  | AWorkspaceRemove | AWorkspaceUpdate | AWorkspaceResize | AWorkspaceExec | AWorkspaceExecCancel
  | AWorkspaceCommandBegin | AWorkspaceCommandEnd | AWorkspaceJobsList | AWorkspaceCp
  | AWorkspacePortPublish | AWorkspacePortUnpublish | AWorkspacePortList | AWorkspaceRuntime
  | AWorkspaceLogs | AWorkspaceSnapshot | AWorkspaceSnapshotList | AWorkspaceRestore | AWorkspaceSnapshotGc
  | AWorkspaceSnapshotExport | AWorkspaceSnapshotImport | ARegistryRepair | APolicyGet | APolicySetDefault
  | APolicyAllow | APolicyDeny | APolicyClear | AShutdown.

#[export] Instance Action_eq_dec : EqDecision Action.
Proof. solve_decision. Defined.

(** [Action::parse], its table. *)
Definition action_table : list (string * Action) :=
  [("ping", APing); ("daemon.health", ADaemonHealth); ("daemon.doctor", ADaemonDoctor);
   ("daemon.doctor.repair", ADaemonDoctorRepair); ("init", AInit); ("sandbox.create", ASandboxCreate);
   ("sandbox.update", ASandboxUpdate); ("sandbox.resize", ASandboxResize);
   ("sandbox.start", ASandboxStart); ("sandbox.stop", ASandboxStop); ("sandbox.pause", ASandboxPause);
   ("sandbox.resume", ASandboxResume); ("sandbox.status", ASandboxStatus);
   ("sandbox.destroy", ASandboxDestroy); ("sandbox.wipe", ASandboxWipe); ("sandbox.list", ASandboxList);
   ("sandbox.remove", ASandboxRemove); ("sandbox.exec_setup", ASandboxExecSetup);
   ("process.list", AProcessList); ("workspace.create", AWorkspaceCreate);
   ("workspace.start", AWorkspaceStart); ("workspace.start_many", AWorkspaceStartMany);
   ("workspace.stop", AWorkspaceStop); ("workspace.destroy", AWorkspaceDestroy);
   ("workspace.wipe", AWorkspaceWipe); ("workspace.status", AWorkspaceStatus);
   ("workspace.stats", AWorkspaceStats); ("workspace.stats.list", AWorkspaceStatsList);
   ("workspace.list", AWorkspaceList); ("workspace.remove", AWorkspaceRemove);
   ("workspace.update", AWorkspaceUpdate); ("workspace.update_auth", AWorkspaceUpdate);
   ("workspace.resize", AWorkspaceResize); ("workspace.exec", AWorkspaceExec);
   ("workspace.exec.cancel", AWorkspaceExecCancel); ("workspace.command.begin", AWorkspaceCommandBegin);
   ("workspace.command.end", AWorkspaceCommandEnd); ("workspace.jobs.list", AWorkspaceJobsList);
   ("workspace.cp", AWorkspaceCp); ("workspace.port.publish", AWorkspacePortPublish);
   ("workspace.port.unpublish", AWorkspacePortUnpublish); ("workspace.port.list", AWorkspacePortList);
   ("workspace.runtime", AWorkspaceRuntime); ("workspace.logs", AWorkspaceLogs);
   ("workspace.snapshot", AWorkspaceSnapshot); ("workspace.snapshot.list", AWorkspaceSnapshotList);
   ("workspace.restore", AWorkspaceRestore); ("workspace.snapshot.gc", AWorkspaceSnapshotGc);
   ("workspace.snapshot.export", AWorkspaceSnapshotExport);
   ("workspace.snapshot.import", AWorkspaceSnapshotImport); ("registry.repair", ARegistryRepair);
   ("policy.get", APolicyGet); ("policy.set_default", APolicySetDefault); ("policy.allow", APolicyAllow);
   ("policy.deny", APolicyDeny); ("policy.clear", APolicyClear); ("shutdown", AShutdown)].

Definition parse (raw : string) : result Action :=
  ok_or (assoc raw action_table) (coded InvalidRequest "unknown action").

(** Actions on one sandbox, or on every workspace it holds. *)
Definition is_sandbox_lifecycle (a : Action) : bool :=
  match a with
  | ASandboxCreate | ASandboxUpdate | ASandboxResize | ASandboxStart | ASandboxStop | ASandboxPause
  | ASandboxResume | ASandboxDestroy | ASandboxRemove | ASandboxExecSetup | AWorkspaceStartMany => true
  | _ => false
  end.
(** Actions on one workspace. *)
Definition is_workspace_lifecycle (a : Action) : bool :=
  match a with
  | AWorkspaceCreate | AWorkspaceStart | AWorkspaceStop | AWorkspaceDestroy | AWorkspaceRemove
  | AWorkspaceUpdate | AWorkspaceResize | AWorkspaceRestore | AWorkspaceSnapshot | AWorkspaceSnapshotGc
  | AWorkspaceSnapshotExport | AWorkspaceSnapshotImport | AWorkspacePortPublish | AWorkspacePortUnpublish => true
  | _ => false
  end.
(** Actions on every sandbox, or on the registry itself. *)
Definition is_global_lifecycle (a : Action) : bool :=
  match a with
  | ASandboxWipe | AWorkspaceWipe | ARegistryRepair | ADaemonDoctorRepair => true
  | _ => false
  end.
Definition is_lifecycle (a : Action) : bool :=
  is_sandbox_lifecycle a || is_workspace_lifecycle a || is_global_lifecycle a.
Definition action_is_lifecycle (raw : string) : bool :=
  match parse raw with Ok a => is_lifecycle a | Err _ => false end.

(** ** Leases (dispatch/lease_scope.rs) *)

Definition selector_param (params : Value) (keys : list string) : option string :=
  find_map (λ key, value_get key params ≫= as_str) keys.

(** The registry as a request reads it; [None] when it cannot be read. *)
Definition resolve_sandbox_key (r : option Registry) (selector : string) : string :=
  match r with
  | Some reg => match resolve_sandbox_id reg selector with Ok sid => sid | Err _ => selector end
  | None => selector
  end.
Definition resolve_workspace_key (r : option Registry) (sandbox selector : string) : string :=
  match r with
  | Some reg => match workspace_metadata reg sandbox selector with Ok w => id w | Err _ => selector end
  | None => selector
  end.

(** The two reads are two transactions. *)
Definition scope_for (r1 r2 : option Registry) (action : Action) (params : Value) : option LeaseScope :=
  if is_global_lifecycle action then Some Global
  else if negb (is_sandbox_lifecycle action) && negb (is_workspace_lifecycle action) then None
  else
    match selector_param params ["sandbox"; "sandbox_id"; "name"] with
    | None => None
    | Some selector =>
        let sandbox := resolve_sandbox_key r1 selector in
        if is_sandbox_lifecycle action then Some (Sandbox sandbox)
        else
          match selector_param params ["workspace"; "workspace_id"; "name"] with
          | None => Some (Sandbox sandbox)
          | Some workspace => Some (Workspace sandbox (resolve_workspace_key r2 sandbox workspace))
          end
    end.

(** ** Parameters (dispatch/params.rs) *)

Definition invalid {A} (message : string) : result A := bail_coded InvalidRequest message.

Definition require_param_str (params : Value) (keys : list string) : result string :=
  ok_or (selector_param params keys) (coded InvalidRequest ("missing '" +:+ default "" (head keys) +:+ "'")).

Fixpoint strings_of (key : string) (l : list Value) : result (list string) :=
  match l with
  | [] => Ok []
  | v :: l' =>
      s ← ok_or (as_str v) (coded InvalidRequest ("'" +:+ key +:+ "' must hold strings"));
      rest ← strings_of key l'; Ok (s :: rest)
  end.
Definition parse_string_array (params : Value) (key : string) : result (list string) :=
  l ← ok_or (value_get key params ≫= as_array) (coded InvalidRequest ("missing '" +:+ key +:+ "' array"));
  strings_of key l.

(** [Value::as_f64]: an integer converts to the nearest float; the limits compare it
    with 0 and 100 only, which rounding does not cross. *)
Definition as_f64 (v : Value) : option f64 :=
  match v with Number n => Some (Finite (inject_Z n)) | Decimal q => Some (Finite q) | _ => None end.

(** A field that may be absent, [null], or a value. *)
Definition optional_field {A} (read : Value → option A) (params : Value) (key what : string)
    : result (option (option A)) :=
  match value_get key params with
  | None => Ok None
  | Some v => if is_null v then Ok (Some None)
              else x ← ok_or (read v) (coded InvalidRequest ("'" +:+ key +:+ "' must be " +:+ what)); Ok (Some (Some x))
  end.
Definition parse_optional_u64_field (params : Value) (key : string) : result (option (option Z)) :=
  optional_field as_u64 params key "an unsigned integer".
Definition parse_optional_f64_field (params : Value) (key : string) : result (option (option f64)) :=
  optional_field as_f64 params key "a number".
Definition parse_optional_bool_field (params : Value) (key : string) : result (option bool) :=
  match value_get key params with
  | None => Ok None
  | Some v => b ← ok_or (as_bool v) (coded InvalidRequest ("'" +:+ key +:+ "' must be a boolean")); Ok (Some b)
  end.

(** [checked_mul] *)
Definition checked_mul64 (a b : Z) : option Z := if a * b <=? u64_max then Some (a * b) else None.

Definition checked_megabytes (value : option Z) (key : string) : result (option Z) :=
  match value with
  | None => Ok None
  | Some v => b ← ok_or (checked_mul64 v 1048576) (coded InvalidRequest ("'" +:+ key +:+ "' is too large")); Ok (Some b)
  end.
Definition checked_optional_megabytes (value : option (option Z)) (key : string) : result (option (option Z)) :=
  match value with
  | None => Ok None
  | Some v => b ← checked_megabytes v key; Ok (Some b)
  end.

Definition parse_workspace_limits_create (params : Value) : result WorkspaceLimits :=
  let u64 key := value_get key params ≫= as_u64 in
  memory ← checked_megabytes (u64 "memory_mb") "memory_mb";
  disk ← checked_megabytes (u64 "disk_mb") "disk_mb";
  let l := mkWsLimits (u64 "cpu_seconds") (value_get "cpu_percent" params ≫= as_f64) memory (u64 "max_procs")
             (u64 "max_open_files") disk in
  match workspace_limits_validate l with
  | Ok _ => Ok l
  | Err _ => invalid "invalid workspace limits"
  end.

Definition parse_optional_disk_bytes (params : Value) : result (option Z) :=
  v ← parse_optional_u64_field params "disk_mb";
  checked_megabytes (default None v) "disk_mb".

Definition parse_optional_memory_bytes (params : Value) : result (option (option Z)) :=
  v ← parse_optional_u64_field params "memory_mb";
  memory ← checked_optional_megabytes v "memory_mb";
  _ ← match memory with Some (Some bytes) => validate_memory_bytes (Some bytes) | _ => Ok tt end;
  Ok memory.

Definition parse_workspace_limits_update (params : Value) : result WorkspaceLimitsUpdate :=
  m ← parse_optional_u64_field params "memory_mb"; memory ← checked_optional_megabytes m "memory_mb";
  d ← parse_optional_u64_field params "disk_mb"; disk ← checked_optional_megabytes d "disk_mb";
  clear ← parse_optional_bool_field params "clear_tmp_on_restart";
  keep ← parse_optional_bool_field params "keep_running";
  idle ← parse_optional_u64_field params "idle_stop_after_secs";
  destroy ← parse_optional_u64_field params "destroy_after_secs";
  secs ← parse_optional_u64_field params "cpu_seconds";
  cpu ← parse_optional_f64_field params "cpu_percent";
  procs ← parse_optional_u64_field params "max_procs";
  files ← parse_optional_u64_field params "max_open_files";
  Ok (mkWsUpdate clear keep idle destroy secs cpu memory procs files disk).

Definition parse_cleanup_mode (params : Value) : result CleanupMode :=
  force ← parse_optional_bool_field params "force";
  Ok (if bool_decide (force = Some true) then Force else Normal).

Definition parse_sandbox_limits_create (params : Value) : result SandboxLimits :=
  let u64 key := value_get key params ≫= as_u64 in
  memory ← checked_megabytes (u64 "memory_mb") "memory_mb";
  disk ← checked_megabytes (u64 "disk_mb") "disk_mb";
  let l := mkSbLimits (value_get "cpu_percent" params ≫= as_f64) memory (u64 "max_procs") disk
             (u64 "max_running_workspaces") in
  _ ← sandbox_limits_validate l;
  if bool_decide (max_running_workspaces l = Some 0) then invalid "max_running_workspaces must be greater than 0"
  else Ok l.

Definition parse_sandbox_limits_update (params : Value) : result SandboxLimitsUpdate :=
  cpu ← parse_optional_f64_field params "cpu_percent";
  m ← parse_optional_u64_field params "memory_mb"; memory ← checked_optional_megabytes m "memory_mb";
  procs ← parse_optional_u64_field params "max_procs";
  d ← parse_optional_u64_field params "disk_mb"; disk ← checked_optional_megabytes d "disk_mb";
  running ← parse_optional_u64_field params "max_running_workspaces";
  Ok (mkSbUpdate cpu memory procs disk running).

(** ** One request (daemon/request.rs) *)

Definition MAX_REQUEST_BYTES : nat := Nat.mul 64 1024.

(** What [read_line] got from the first [MAX_REQUEST_BYTES + 1] bytes. *)
Definition read_request_line (raw : string) : result (option string) :=
  if bool_decide (raw = "") || bool_decide (trim raw = "") then Ok None
  else if Nat.ltb MAX_REQUEST_BYTES (String.length raw) then bail "request exceeds maximum size"
  else match strip_suffix_char "010" raw with
       | Some _ => Ok (Some raw)
       | None => bail "request must be newline-terminated"
       end.

Definition operation_target (params : Value) : string :=
  match selector_param params ["sandbox"; "sandbox_id"; "name"], selector_param params ["workspace"; "workspace_id"] with
  | Some sandbox, Some workspace => sandbox +:+ "/" +:+ workspace
  | Some sandbox, None => sandbox
  | None, Some workspace => workspace
  | None, None => "-"
  end.

(** protocol.rs *)
Record Response := mkResponse {
  ok : bool;
  response_result : option Value;
  response_error : option error;
  response_code : option ErrorCode;
  response_operation_id : string }.
Definition response_ok (v : Value) (oid : string) : Response := mkResponse true (Some v) None None oid.
Definition err_code (c : ErrorCode) (e : error) (oid : string) : Response := mkResponse false None (Some e) (Some c) oid.

(** What the connection brings: the bytes that arrived, how they parse, the peer's
    credentials, the ids and the clocks. *)
Record connection := mkConnection {
  cn_line : option string;                 (** [None] when the socket cannot be read *)
  cn_decode : string → option Request;     (** [serde_json::from_str] *)
  cn_valid_id : string → bool;             (** [Uuid::parse_str] *)
  cn_new_id : string;
  cn_peer : option Z;
  cn_global_now : nat;
  cn_uid_now : nat }.

Definition operation_id_of (c : connection) (q : Request) : string :=
  match ExecQueue.operation_id q with Some i => if cn_valid_id c i then i else cn_new_id c | None => cn_new_id c end.

Section handle.
Context {raw S : Type} `{!TotalCodec Policy raw} (h : io) (dir : string).
(** The handlers, which run while the operation is registered. *)
Context (dispatch : Request → stm (operations * S) Value).

(** The limiter, the policy file, the table of running operations and the rest. *)
Abbreviation daemon := (RateLimiter * fstore raw Policy * (operations * S))%type.

(** The registration of a lifecycle request, and the drop of its guard. *)
Definition begin_active (oid : string) (q : Request) (active : operations) : operations :=
  if action_is_lifecycle (ExecQueue.action q)
  then begin_operation oid (ExecQueue.action q) (operation_target (ExecQueue.params q)) active else active.
Definition drop_active (oid : string) (q : Request) (active : operations) : operations :=
  if action_is_lifecycle (ExecQueue.action q) then end_operation oid active else active.

(** The gates a registered request passes, and its handler. *)
Definition gated (c : connection) (oid : string) (q : Request) : stm daemon (option Response) := λ st,
  let '(limiter, policy, s) := st in
  match cn_peer c with
  | None => (bail "failed to resolve peer uid", st)
  | Some uid =>
      let '(allowed, limiter') := allow (mkReq (cn_global_now c) (cn_uid_now c) uid) limiter in
      if negb allowed
      then (Ok (Some (err_code RateLimited (plain "rate limit exceeded") oid)), (limiter', policy, s))
      else
        let '(permit, policy') := authorize h dir uid (ExecQueue.action q) policy in
        match permit with
        | Err e => (Ok (Some (err_code PolicyDenied e oid)), (limiter', policy', s))
        | Ok _ =>
            let '(out, s') := dispatch q s in
            (Ok (Some (match out with
                       | Ok v => response_ok v oid
                       | Err e => err_code (code_of e) e oid
                       end)), (limiter', policy', s'))
        end
  end.

(** [handle_client], up to writing the response; [None] is a connection that is
    closed without one. *)
Definition handle_client (c : connection) : stm daemon (option Response) := λ st,
  match (l ← ok_or (cn_line c) (plain "failed to read request line"); read_request_line l) with
  | Err e => (Ok (Some (err_code InvalidRequest e (cn_new_id c))), st)
  | Ok None => (Ok None, st)
  | Ok (Some line) =>
      match cn_decode c line with
      | None => (Ok (Some (err_code InvalidRequest (plain "invalid request payload") (cn_new_id c))), st)
      | Some q =>
          let oid := operation_id_of c q in
          let '(limiter, policy, (active, s)) := st in
          let '(out, (limiter', policy', (active', s'))) :=
            gated c oid q (limiter, policy, (begin_active oid q active, s)) in
          (out, (limiter', policy', (drop_active oid q active', s')))
      end
  end.
End handle.

(** ** Every request passes the same gates *)

(** The line of the request, when one was read that is not too long and is complete. *)
Definition request_line (c : connection) : result (option string) :=
  l ← ok_or (cn_line c) (plain "failed to read request line"); read_request_line l.

Lemma drop_begin_active oid q active :
  drop_active oid q (begin_active oid q active) =
  if action_is_lifecycle (ExecQueue.action q) then delete oid active else active.
Proof.
  unfold drop_active, begin_active. destruct (action_is_lifecycle _); [|done].
  unfold end_operation, begin_operation. apply delete_insert_eq.
Qed.

(** C9: no request reaches its handler around the gates.  A request that gets a
    response is one of four.  Its line could not be read or did not parse, and it is
    answered as invalid under a new id with nothing changed.  It parsed and the rate
    limiter refused it, or it granted it and the policy did not authorize its peer, and the
    answer names that gate; the handlers' state is untouched, and the table of running
    operations lost at most an entry under the request's own id.  Or it passed both, and
    then the handler ran, while a lifecycle request was registered as running, and the
    answer is what the handler returned, under the category the failure carries.  The
    answer to a request that parsed carries the caller's operation id if that is valid. *)
Theorem requests_pass_every_gate {raw S} `{!TotalCodec Policy raw} h dir (dispatch : Request → stm (operations * S) Value)
    c limiter policy active s resp st' :
  handle_client h dir dispatch c (limiter, policy, (active, s)) = (Ok (Some resp), st') →
  (is_ok (request_line c) = false ∨ (∃ line, request_line c = Ok (Some line) ∧ cn_decode c line = None)) ∧
    st' = (limiter, policy, (active, s)) ∧ ok resp = false ∧
    response_code resp = Some InvalidRequest ∧ response_operation_id resp = cn_new_id c ∨
  ∃ line q uid, request_line c = Ok (Some line) ∧ cn_decode c line = Some q ∧ cn_peer c = Some uid ∧
    response_operation_id resp = operation_id_of c q ∧
    let granted := allow (mkReq (cn_global_now c) (cn_uid_now c) uid) limiter in
    let permit := authorize h dir uid (ExecQueue.action q) policy in
    if granted.1 && is_ok permit.1 then
      let run := dispatch q (begin_active (operation_id_of c q) q active, s) in
      st' = (granted.2, permit.2, (drop_active (operation_id_of c q) q run.2.1, run.2.2)) ∧
      match run.1 with
      | Ok v => ok resp = true ∧ response_result resp = Some v ∧ response_code resp = None
      | Err e => ok resp = false ∧ response_error resp = Some e ∧ response_code resp = Some (code_of e)
      end
    else
      ok resp = false ∧ response_code resp = Some (if granted.1 then PolicyDenied else RateLimited) ∧
      st'.2 = (if action_is_lifecycle (ExecQueue.action q) then delete (operation_id_of c q) active else active, s).
Proof.
  unfold handle_client. fold (request_line c).
  destruct (request_line c) as [[line|]|e] eqn:El; [|done|intros [= <- <-]; left; by split_and!; [left|..]].
  destruct (cn_decode c line) as [q|] eqn:Eq; [|intros [= <- <-]; left; split_and!; [right; by exists line|done..]].
  unfold gated. destruct (cn_peer c) as [uid|] eqn:Ep; [|done]. intros H. right. exists line, q, uid.
  destruct (allow _ limiter) as [[|] limiter']; cbn [negb andb fst snd] in *.
  2:{ injection H as <- <-. rewrite <- drop_begin_active. by split_and!. }
  destruct (authorize h dir uid _ policy) as [[u|e] policy']; cbn [is_ok fst snd] in *.
  2:{ injection H as <- <-. rewrite <- drop_begin_active. by split_and!. }
  destruct (dispatch q _) as [out [active' s']]; cbn [fst snd] in *. injection H as <- <-.
  split_and!; try done; by destruct out.
Qed.

(** ** Leases cover what the handler acts on *)

Lemma resolve_sandbox_key_Ok reg selector sid :
  resolve_sandbox_id reg selector = Ok sid → resolve_sandbox_key (Some reg) selector = sid.
Proof. intros H. unfold resolve_sandbox_key. by rewrite H. Qed.

(** The handlers look for the sandbox in these parameters, the bulk start and the two
    creates apart, and for the workspace in those. *)
Definition sandbox_keys : list string := ["sandbox"; "sandbox_id"].
Definition workspace_keys : list string := ["workspace"; "workspace_id"; "name"].

(** The requests on one recorded sandbox, on one recorded workspace, and on all of them,
    and the ones that read or run a command. *)
Definition sandbox_requests : list Action :=
  [ASandboxUpdate; ASandboxResize; ASandboxStart; ASandboxStop; ASandboxPause; ASandboxResume; ASandboxDestroy;
   ASandboxRemove; ASandboxExecSetup].
Definition workspace_requests : list Action :=
  [AWorkspaceStart; AWorkspaceStop; AWorkspaceDestroy; AWorkspaceRemove; AWorkspaceUpdate; AWorkspaceResize;
   AWorkspaceRestore; AWorkspaceSnapshot; AWorkspaceSnapshotGc; AWorkspaceSnapshotExport; AWorkspaceSnapshotImport;
   AWorkspacePortPublish; AWorkspacePortUnpublish].
Definition global_requests : list Action := [ASandboxWipe; AWorkspaceWipe; ARegistryRepair; ADaemonDoctorRepair].
Definition unleased_requests : list Action :=
  [APing; ADaemonHealth; ADaemonDoctor; AInit; ASandboxStatus; ASandboxList; AProcessList; AWorkspaceStatus;
   AWorkspaceStats; AWorkspaceStatsList; AWorkspaceList; AWorkspaceExec; AWorkspaceExecCancel; AWorkspaceCommandBegin;
   AWorkspaceCommandEnd; AWorkspaceJobsList; AWorkspaceCp; AWorkspacePortList; AWorkspaceRuntime; AWorkspaceLogs;
   AWorkspaceSnapshotList; APolicyGet; APolicySetDefault; APolicyAllow; APolicyDeny; APolicyClear; AShutdown].

Lemma selector_param_prefix params l l' x :
  selector_param params l = Some x → selector_param params (l ++ l') = Some x.
Proof.
  unfold selector_param. induction l as [|k l IH]; [done|]. cbn. by destruct (value_get k params ≫= as_str).
Qed.
Lemma workspace_metadata_by_id reg sandbox sid selector :
  resolve_sandbox_id reg sandbox = Ok sid → workspace_metadata reg sid selector = workspace_metadata reg sandbox selector.
Proof.
  intros Hr. unfold workspace_metadata, workspace_of, sandbox_of. rewrite Hr.
  apply Registry.resolve_sandbox_key in Hr as Hk. unfold resolve_sandbox_id at 1, resolve_in.
  by rewrite bool_decide_eq_true_2 by done.
Qed.


(** A create reads its sandbox from [sandbox_id] alone, the lease from [sandbox] first:
    a request that gives both holds the lease of another sandbox than it creates in. *)
Theorem create_lease_of_other_sandbox reg sandbox_id name other wname :
  let params := Object [("sandbox", Str other); ("sandbox_id", Str sandbox_id); ("name", Str wname)] in
  resolve_sandbox_id reg other = Ok name →
  require_param_str params ["sandbox_id"] = Ok sandbox_id ∧
  ∃ wid, scope_for (Some reg) (Some reg) AWorkspaceCreate params = Some (Workspace name wid).
Proof.
  intros params Hr. split; [done|]. eexists. unfold scope_for.
  change (selector_param params ["sandbox"; "sandbox_id"; "name"]) with (Some other).
  cbn [is_global_lifecycle is_sandbox_lifecycle is_workspace_lifecycle negb andb]. by rewrite (resolve_sandbox_key_Ok _ _ _ Hr).
Qed.

(** The bulk start, which the classification calls an operation on a whole
    sandbox, runs without any lease: its request names its sandbox in each item and
    not at the top level, where the lease looks for it. *)
Theorem bulk_start_takes_no_lease r1 r2 items :
  is_sandbox_lifecycle AWorkspaceStartMany = true ∧
  scope_for r1 r2 AWorkspaceStartMany (Object [("workspaces", Array items)]) = None.
Proof. done. Qed.

(** ** Actions *)

(** The first wire name of an action. *)
Definition action_name (a : Action) : string :=
  match filter (λ p : string * Action, p.2 = a) action_table with p :: _ => p.1 | [] => "" end.

Lemma assoc_elem {A} key (l : list (string * A)) v : assoc key l = Some v → (key, v) ∈ l.
Proof.
  induction l as [|[k x] l IH]; [done|]. cbn. case_bool_decide as H.
  - intros [= ->]. subst. by left.
  - intros Hv. right. by apply IH.
Qed.

Definition named_once (p q : string * Action) : bool :=
  negb (bool_decide (p.2 = q.2)) || bool_decide (p.2 = AWorkspaceUpdate) || bool_decide (p.1 = q.1).
Lemma action_table_named_once : forallb (λ p, forallb (named_once p) action_table) action_table = true.
Proof. by vm_compute. Qed.

(** Every action has a wire name that parses back to it, no two names but the
    two of [workspace.update] mean one action, and any other text is refused as an
    invalid request. *)
Theorem action_names_roundtrip :
  (∀ a, parse (action_name a) = Ok a) ∧
  (∀ s1 s2 a, parse s1 = Ok a → parse s2 = Ok a → a ≠ AWorkspaceUpdate → s1 = s2) ∧
  (∀ s, match parse s with Ok _ => s ∈ action_table.*1 | Err e => code_of e = InvalidRequest end).
Proof.
  split_and!.
  - intros a. destruct a; by vm_compute.
  - intros s1 s2 a H1%ok_or_Ok%assoc_elem H2%ok_or_Ok%assoc_elem Ha.
    pose proof action_table_named_once as Ht. rewrite forallb_forall in Ht.
    specialize (Ht _ (proj1 (list_elem_of_In _ _) H1)). cbn beta in Ht. rewrite forallb_forall in Ht.
    specialize (Ht _ (proj1 (list_elem_of_In _ _) H2)). unfold named_once in Ht. cbn [fst snd] in Ht.
    rewrite bool_decide_eq_true_2, bool_decide_eq_false_2 in Ht by done. by apply bool_decide_eq_true in Ht.
  - intros s. unfold parse. destruct (assoc s action_table) as [a|] eqn:E; cbn [ok_or]; [|done].
    apply assoc_elem in E. apply list_elem_of_fmap. by exists (s, a).
Qed.

(** ** Limits a request may set *)

Lemma as_u64_range v n : as_u64 v = Some n → 0 ≤ n ≤ u64_max.
Proof. destruct v; try done. cbn. destruct (_ && _) eqn:E; [|done]. intros [= <-]. lia. Qed.

Lemma u64_param params key n : value_get key params ≫= as_u64 = Some n → 0 ≤ n ≤ u64_max.
Proof. intros (v & _ & H)%bind_Some. by eapply as_u64_range. Qed.

Lemma checked_megabytes_Ok v key b :
  (∀ n, v = Some n → 0 ≤ n) → checked_megabytes v key = Ok b →
  ∀ n, b = Some n → ∃ mb, v = Some mb ∧ n = mb * 1048576 ∧ 0 ≤ n ≤ u64_max.
Proof.
  intros Hv H n ->. destruct v as [mb|]; [|done]. cbn in H. apply bind_Ok in H as (x & Hx & [= <-]).
  apply ok_or_Ok in Hx. unfold checked_mul64 in Hx. destruct (Z.leb_spec (mb * 1048576) u64_max); [|done].
  injection Hx as <-. exists mb. specialize (Hv mb eq_refl). split_and!; [done..|lia|done].
Qed.

(** A value the kernel interfaces can be given. *)
Definition limits_sound (cpu : option f64) (memory procs disk : option Z) : Prop :=
  (∀ v, cpu = Some v → ∃ q, v = Finite q ∧ (0 < q <= 100)%Q) ∧
  (∀ n, memory = Some n → MIN_MEMORY_BYTES ≤ n ≤ u64_max ∧ n mod 1048576 = 0) ∧
  (∀ n, procs = Some n → 0 ≤ n ≤ u64_max) ∧
  (∀ n, disk = Some n → 0 ≤ n ≤ u64_max ∧ n mod 1048576 = 0).

Lemma memory_ok v : is_ok (validate_memory_bytes v) = true → ∀ n, v = Some n → MIN_MEMORY_BYTES ≤ n.
Proof. intros H n ->. cbn in H. destruct (Z.ltb_spec n MIN_MEMORY_BYTES); done. Qed.

Lemma limits_sound_intro params cpu memory disk :
  is_ok (validate_optional_cpu cpu) = true → is_ok (validate_memory_bytes memory) = true →
  checked_megabytes (value_get "memory_mb" params ≫= as_u64) "memory_mb" = Ok memory →
  checked_megabytes (value_get "disk_mb" params ≫= as_u64) "disk_mb" = Ok disk →
  limits_sound cpu memory (value_get "max_procs" params ≫= as_u64) disk.
Proof.
  intros Hc Hm H1 H2. split_and!.
  - intros v ->. by apply cpu_ok.
  - intros n ->. pose proof (memory_ok _ Hm n eq_refl).
    apply checked_megabytes_Ok with (n := n) in H1 as (mb & _ & -> & ?); [|intros k Hk%u64_param; lia|done].
    split; [lia|]. by rewrite Z.mod_mul.
  - intros n Hn. by eapply u64_param.
  - intros n ->.
    apply checked_megabytes_Ok with (n := n) in H2 as (mb & _ & -> & ?); [|intros k Hk%u64_param; lia|done].
    split; [lia|]. by rewrite Z.mod_mul.
Qed.

(** C40: whatever JSON a create request brings, the limits it is accepted with can be
    represented and enforced: a finite CPU share within (0, 100], a memory limit of
    whole mebibytes that is at least 16 MiB and fits 64 bits, a disk size of whole
    mebibytes that fits 64 bits (a larger number of megabytes is refused, never
    wrapped), and no limit of zero running workspaces. *)
Theorem create_limits_sound params :
  (∀ l, parse_workspace_limits_create params = Ok l →
     limits_sound (cpu_percent l) (memory_bytes l) (max_processes l) (disk_bytes l)) ∧
  (∀ l, parse_sandbox_limits_create params = Ok l →
     limits_sound (sb_cpu_percent l) (sb_memory_bytes l) (sb_max_processes l) (sb_disk_bytes l) ∧
     ∀ n, max_running_workspaces l = Some n → 0 < n ≤ u64_max).
Proof.
  split; intros l H.
  - unfold parse_workspace_limits_create in H. apply bind_Ok in H as (memory & Hm & H).
    apply bind_Ok in H as (disk & Hd & H). unfold workspace_limits_validate in H. cbn [cpu_percent max_processes memory_bytes] in H.
    destruct (validate_optional_cpu _) as [u|] eqn:Ec; [|done]. cbn [mbind result_bind] in H.
    destruct (bool_decide _); [done|]. cbn [mbind result_bind] in H.
    destruct (validate_memory_bytes memory) as [u2|] eqn:Em; [|done]. injection H as <-.
    apply (limits_sound_intro params (value_get "cpu_percent" params ≫= as_f64) memory disk);
      [by rewrite Ec|by rewrite Em|done..].
  - unfold parse_sandbox_limits_create in H. apply bind_Ok in H as (memory & Hm & H).
    apply bind_Ok in H as (disk & Hd & H). unfold sandbox_limits_validate in H. cbn [sb_cpu_percent sb_memory_bytes max_running_workspaces] in H.
    destruct (validate_optional_cpu _) as [u|] eqn:Ec; [|done]. cbn [mbind result_bind] in H.
    destruct (validate_memory_bytes memory) as [u2|] eqn:Em; [|done]. cbn [mbind result_bind] in H.
    case_bool_decide as Hz; [done|]. injection H as <-. split.
    + apply (limits_sound_intro params (value_get "cpu_percent" params ≫= as_f64) memory disk);
      [by rewrite Ec|by rewrite Em|done..].
    + cbn. intros n Hn. pose proof (u64_param _ _ _ Hn). destruct (decide (n = 0)) as [->|]; [done|lia].
Qed.

(** A sandbox limit that is out of range is reported as an internal error, although
    the module says that everything it refuses is the caller's mistake. *)
Lemma sandbox_limit_error_is_internal :
  match parse_sandbox_limits_create (Object [("cpu_percent", Number 0)]),
        parse_workspace_limits_create (Object [("cpu_percent", Number 0)]) with
  | Err e1, Err e2 => code_of e1 = Internal ∧ code_of e2 = InvalidRequest
  | _, _ => False
  end.
Proof. by vm_compute. Qed.

(** ** Concrete runs *)

Definition sample_registry : Registry :=
  mkRegistry 1 0 {["s" := mkEntry (mkSandbox "s" "box" "stable" "" Debootstrap "t0" "/s" "/s/rootfs" None "" "" ""
    (mkSbLimits None None None None None) SbRunning) {["a" := sample_workspace "a" "web" Running None None]}]}.

Lemma create_lease_of_other_sandbox_witness :
  let params := Object [("sandbox", Str "box"); ("sandbox_id", Str "t"); ("name", Str "new")] in
  require_param_str params ["sandbox_id"] = Ok "t" ∧
  ∃ wid, scope_for (Some sample_registry) (Some sample_registry) AWorkspaceCreate params = Some (Workspace "s" wid).
Proof. by apply (create_lease_of_other_sandbox sample_registry "t" "s" "box" "new"). Defined.

(** A peer the policy denies, and the administrator. *)
Definition sample_connection (uid : Z) : connection :=
  mkConnection (Some ("{}" +:+ String "010" ""))
    (λ _, Some (mkRequest "workspace.stop" (Object []) (Some "op-1"))) (λ _, true) "op-2" (Some uid) 0%nat 0%nat.
Definition sample_dispatch (q : Request) : stm (operations * Z) Value := λ s, (Ok Null, (s.1, s.2 + 1)).

Lemma requests_pass_every_gate_witness :
  let run uid := handle_client (TotalCodec0 := identity_total Policy) sample_io "/s" sample_dispatch
    (sample_connection uid) (with_global_limit 0 60 10 100, sample_store (mkPolicy 1 false []), (∅, 0)) in
  (∃ resp st', run 7 = (Ok (Some resp), st') ∧ st'.2 = (∅, 0) ∧ response_code resp = Some PolicyDenied) ∧
  (∃ resp st', run 0 = (Ok (Some resp), st') ∧ st'.2 = (∅, 1) ∧ response_operation_id resp = "op-1").
Proof.
  intros run. split.
  - destruct (run 7) as [[[resp|]|] st'] eqn:E; [|by vm_compute in E..].
    exists resp, st'. split; [done|].
    destruct (requests_pass_every_gate (TotalCodec0 := identity_total Policy) _ _ _ _ _ _ _ _ _ _ E)
      as [([H|(line & H1 & H2)] & _)|(line & q & uid & _ & Hq & Hu & _ & H)]; [by vm_compute in H|done|].
    injection Hq as <-. injection Hu as <-. cbv zeta in H. vm_compute (andb _ _) in H. cbn iota in H.
    destruct H as (_ & H1 & H2). split; [rewrite H2|rewrite H1]; by vm_compute.
  - destruct (run 0) as [[[resp|]|] st'] eqn:E; [|by vm_compute in E..].
    exists resp, st'. split; [done|].
    destruct (requests_pass_every_gate (TotalCodec0 := identity_total Policy) _ _ _ _ _ _ _ _ _ _ E)
      as [([H|(line & H1 & H2)] & _)|(line & q & uid & _ & Hq & Hu & Hi & H)]; [by vm_compute in H|done|].
    injection Hq as <-. injection Hu as <-. cbv zeta in H. vm_compute (andb _ _) in H. cbn iota in H.
    destruct H as [-> _]. split; [by vm_compute|exact Hi].
Defined.
