(* ===== verification/DiskResize.v ===== *)
(** * Disk images (src/src/workspace/storage/resize.rs, ext4.rs)

    A workspace's disk is an image file with an ext4 file system in it, and a resize
    changes both through [truncate], [e2fsck] and [resize2fs].  The state is the length
    of the file and what its superblock says; what a tool answers and leaves behind is
    the host's. *)
From S2P Require Import Prelude RustStr Types Registry Records Fleet Start Stop Update.
Open Scope Z_scope.

(** ** The superblock (storage/ext4.rs) *)

Record Ext4Geometry := mkGeometry { block_size : Z; block_count : Z }.

Definition size_bytes (g : Ext4Geometry) : Z := sat_mul64 (block_count g) (block_size g).
Definition blocks_in (g : Ext4Geometry) (n : Z) : Z := n / block_size g.

Definition EXT4_SUPERBLOCK_MAGIC : Z := 61267.
Definition EXT4_SUPERBLOCK_SIZE : nat := 1024.
Definition EXT4_FEATURE_INCOMPAT_64BIT : Z := 128.

(** Little-endian reads of a buffer of bytes. *)
Definition byte_at (b : list Z) (offset : nat) : Z := default 0 (b !! offset).
Definition read_u16 (b : list Z) (offset : nat) : Z := byte_at b offset + 256 * byte_at b (offset + 1).
Definition read_u32 (b : list Z) (offset : nat) : Z :=
  byte_at b offset + 256 * byte_at b (offset + 1) + 65536 * byte_at b (offset + 2) + 16777216 * byte_at b (offset + 3).

Definition parse_geometry (superblock : list Z) : result Ext4Geometry :=
  if negb (read_u16 superblock 56 =? EXT4_SUPERBLOCK_MAGIC) then bail "not an ext2/3/4 filesystem"
  else
    let blocks_low := read_u32 superblock 4 in
    let log_block_size := read_u32 superblock 24 in
    if 6 <? log_block_size then bail "unsupported ext4 block size shift"
    else
      Ok (mkGeometry (Z.shiftl 1024 log_block_size)
            (if negb (Z.land (read_u32 superblock 96) EXT4_FEATURE_INCOMPAT_64BIT =? 0)
             then Z.lor blocks_low (Z.shiftl (read_u32 superblock 336) 32) else blocks_low)).

(** ** The image and the tools *)

(** The file's length, and its superblock when it holds a file system. *)
Record image := mkImage { img_bytes : Z; img_fs : option Ext4Geometry }.

(** [HostCommand::run]: the exit code, or an error when the tool could not be run to
    its end. *)
Inductive run := Exited (code : Z) | RunError.
Definition succeeded (r : run) : bool := match r with Exited c => c =? 0 | RunError => false end.

(** What the host answers to each step of one resize.  A [resize2fs] leaves the file
    system with some number of blocks, whatever it reports; a [truncate] that fails may
    have taken effect. *)
Record resize_tool := mkTool { tool_run : run; tool_left : Z → Z }.
Record truncate_tool := mkTruncate { truncate_run : run; truncate_took : bool }.
Record disk_host := mkDisk {
  dh_backend : bool;                       (** [ensure_disk_backend_available] *)
  dh_stat : bool;
  dh_is_file : bool;
  dh_unused : bool;                        (** [ensure_disk_image_not_in_use] *)
  dh_first_read : bool;
  dh_truncate : truncate_tool;
  dh_check : run;
  dh_geometry_read : bool;
  dh_minimum : run * string;               (** [resize2fs -P] and its output *)
  dh_resize : resize_tool;
  dh_verify_read : bool;
  dh_verify_stat : bool;
  dh_restore_truncate : truncate_tool;
  dh_restore_resize : resize_tool }.

Definition truncate_image (t : truncate_tool) (n : Z) : stm image unit :=
  modify (λ st, if succeeded (truncate_run t) || truncate_took t then mkImage n (img_fs st) else st);;
  assert (succeeded (truncate_run t)) "truncate failed".

(** [resize2fs], which does nothing without a file system. *)
Definition resize2fs (t : resize_tool) : stm image run := λ st,
  match img_fs st with
  | None => (Ok (match tool_run t with RunError => RunError | Exited _ => Exited 1 end), st)
  | Some g => (Ok (tool_run t), mkImage (img_bytes st) (Some (mkGeometry (block_size g) (tool_left t (block_count g)))))
  end.

Definition geometry (read : bool) : stm image Ext4Geometry :=
  st ← get;
  assert read "failed to open workspace disk image";;
  lift (ok_or (img_fs st) (plain "failed to read the filesystem")).
Definition filesystem_size (read : bool) : stm image Z := g ← geometry read; mret (size_bytes g).

(** ** The plan *)

Record PlannedDiskResize := mkPlanned { previous_bytes : Z; new_bytes : Z; image_bytes : Z }.
Definition is_change (p : PlannedDiskResize) : bool := negb (previous_bytes p =? new_bytes p).

Section resize.
Context (h : disk_host).

Definition validate_image (current new : Z) : stm image Z :=
  assert (dh_stat h) "failed to inspect workspace disk image";;
  assert (dh_is_file h) "workspace disk image is not a regular file";;
  st ← get;
  if img_bytes st <? current then throw "workspace disk image is smaller than its recorded allocation"
  else if (current <? new) && (new <? img_bytes st) then throw "already larger than the requested allocation"
  else if new <? current then
    g ← geometry (dh_first_read h);
    if img_bytes st <? size_bytes g then throw "the image is already inconsistent" else mret (img_bytes st)
  else mret (img_bytes st).

Definition plan_workspace_disk_resize (w : WorkspaceMetadata) (new : Z) : stm image PlannedDiskResize :=
  current ← lift (ok_or (disk_bytes (limits w)) (plain "workspace has no Enclave-managed disk allocation"));
  if bool_decide (is_Some (home_mount_source_path w)) then throw "workspace uses a host-backed directory"
  else if new <? MIN_DISK_BYTES then throw "workspace disk allocation is too small"
  else if new =? current then mret (mkPlanned current current 0)
  else
    assert (dh_backend h) "disk tools are not available";;
    bytes ← validate_image current new;
    mret (mkPlanned current new bytes).

(** ** Steps *)

Definition check_filesystem : stm image unit :=
  match dh_check h with
  | Exited c => assert ((c =? 0) || (c =? 1)) "failed to check workspace ext4 filesystem"
  | RunError => throw "failed to run e2fsck"
  end.

(** The last number after the colon of the line that names the minimum size. *)
Definition parse_minimum (stdout : string) : option Z :=
  line ← List.find (str_contains "minimum size") (lines stdout);
  let value := match rsplit_once ":" line with Some (_, r) => r | None => line end in
  word ← head (split_whitespace value);
  parse_uint u64_max word.
Definition minimum_filesystem_bytes (bs : Z) : stm image Z :=
  match (dh_minimum h).1 with
  | RunError => throw "failed to measure the smallest size of the filesystem"
  | Exited _ =>
      blocks ← lift (ok_or (parse_minimum (dh_minimum h).2) (plain "could not read the smallest size"));
      mret (sat_mul64 blocks bs)
  end.

Definition restore_image_size (previous : Z) : stm image unit :=
  truncate_image (dh_restore_truncate h) previous;;
  resize2fs (dh_restore_resize h);;
  mret tt.
(** The cause is reported whether or not the restore worked. *)
Definition restore_then {A} (previous : Z) (cause : error) : stm image A := λ st,
  let '(_, st') := restore_image_size previous st in (Err cause, st').

Definition grow_filesystem (previous new : Z) : stm image unit :=
  truncate_image (dh_truncate h) new;;
  on_error check_filesystem (restore_then previous);;
  r ← resize2fs (dh_resize h);
  match r with
  | RunError => throw "failed to grow ext4 filesystem"
  | Exited c =>
      if negb (c =? 0) then restore_then previous (plain "failed to grow its ext4 filesystem")
      else
        bytes ← filesystem_size (dh_verify_read h);
        if bytes <? new then restore_then previous (plain "filesystem below the requested size") else mret tt
  end.

Definition shrink_filesystem (previous new : Z) : stm image unit :=
  check_filesystem;;
  g ← geometry (dh_geometry_read h);
  let target_blocks := blocks_in g new in
  let target_bytes := sat_mul64 target_blocks (block_size g) in
  if target_bytes <? new then throw "allocation must be a multiple of the block size"
  else
    minimum ← minimum_filesystem_bytes (block_size g);
    if target_bytes <? minimum then throw "the filesystem holds too much data"
    else
      r ← resize2fs (dh_resize h);
      match r with
      | RunError => throw "failed to shrink ext4 filesystem"
      | Exited c =>
          if negb (c =? 0) then restore_then previous (plain "failed to shrink the ext4 filesystem")
          else
            on_error (truncate_image (dh_truncate h) target_bytes) (restore_then previous);;
            resized ← geometry (dh_verify_read h);
            assert (dh_verify_stat h) "failed to inspect workspace disk image";;
            st ← get;
            if negb (block_count resized =? target_blocks) || negb (img_bytes st =? target_bytes)
            then restore_then previous (plain "the image and its filesystem disagree") else mret tt
      end.

Definition resize_workspace_disk_allocation (w : WorkspaceMetadata) (new : Z) : stm image (Z * Z) :=
  plan ← plan_workspace_disk_resize w new;
  if negb (is_change plan) then mret (previous_bytes plan, new_bytes plan)
  else
    assert (dh_unused h) "workspace disk image is still in use";;
    (if previous_bytes plan <? new_bytes plan then grow_filesystem (image_bytes plan) (new_bytes plan)
     else shrink_filesystem (image_bytes plan) (new_bytes plan));;
    mret (previous_bytes plan, new_bytes plan).
End resize.

(** * What a superblock can say *)

Definition superblock_ok (b : list Z) : Prop := length b = EXT4_SUPERBLOCK_SIZE ∧ Forall (λ x, 0 ≤ x < 256) b.

Lemma byte_at_bound b i : Forall (λ x, 0 ≤ x < 256) b → 0 ≤ byte_at b i < 256.
Proof.
  intros H. unfold byte_at. destruct (b !! i) as [x|] eqn:E; cbn; [|lia].
  rewrite list.Forall_forall in H. apply H. by eapply list_elem_of_lookup_2.
Qed.
Lemma read_u32_bound b i : Forall (λ x, 0 ≤ x < 256) b → 0 ≤ read_u32 b i < 2 ^ 32.
Proof.
  intros H. unfold read_u32. pose proof (byte_at_bound b i H). pose proof (byte_at_bound b (i + 1) H).
  pose proof (byte_at_bound b (i + 2) H). pose proof (byte_at_bound b (i + 3) H). lia.
Qed.

(** A geometry a superblock can have: a power of two between 1 and 64 KiB as block
    size, and a count that fits 64 bits. *)
Definition geometry_ok (g : Ext4Geometry) : Prop :=
  0 < block_size g ≤ 65536 ∧ 0 ≤ block_count g ≤ u64_max.

Lemma parse_geometry_ok b g : superblock_ok b → parse_geometry b = Ok g → geometry_ok g.
Proof.
  intros [_ Hb] H. unfold parse_geometry in H. destruct (negb _); [done|].
  pose proof (read_u32_bound b 24 Hb). pose proof (read_u32_bound b 4 Hb). pose proof (read_u32_bound b 336 Hb).
  destruct (Z.ltb_spec 6 (read_u32 b 24)); [done|]. injection H as <-. split; cbn [block_size block_count].
  - rewrite Z.shiftl_mul_pow2 by lia. assert (1 ≤ 2 ^ read_u32 b 24 ≤ 2 ^ 6); [|lia].
    split; [apply (Z.pow_le_mono_r 2 0); lia|apply Z.pow_le_mono_r; lia].
  - destruct (negb _); [|unfold u64_max; lia]. unfold u64_max.
    assert (0 ≤ Z.lor (read_u32 b 4) (Z.shiftl (read_u32 b 336) 32) < 2 ^ 64); [|lia].
    rewrite Z.shiftl_mul_pow2 by lia. split; [apply Z.lor_nonneg; lia|].
    destruct (Z.eq_dec (Z.lor (read_u32 b 4) (read_u32 b 336 * 2 ^ 32)) 0) as [->|Hne]; [lia|].
    apply Z.log2_lt_pow2; [pose proof (proj2 (Z.lor_nonneg (read_u32 b 4) (read_u32 b 336 * 2 ^ 32))); lia|].
    rewrite Z.log2_lor by lia. apply Z.max_lub_lt.
    + destruct (Z.eq_dec (read_u32 b 4) 0) as [->|]; [done|]. apply Z.log2_lt_pow2; lia.
    + destruct (Z.eq_dec (read_u32 b 336 * 2 ^ 32) 0) as [->|]; [done|]. apply Z.log2_lt_pow2; lia.
Qed.

(** * What a resize leaves behind *)

(** The file holds its file system. *)
Definition consistent (st : image) : Prop := ∃ g, img_fs st = Some g ∧ geometry_ok g ∧ size_bytes g ≤ img_bytes st.

Lemma size_bytes_le g n : block_count g * block_size g ≤ n → size_bytes g ≤ n.
Proof. unfold size_bytes, sat_mul64. lia. Qed.

(** The rounding of a shrink: what is not refused is exact. *)
Lemma target_exact g new : geometry_ok g → 0 ≤ new → new ≤ sat_mul64 (blocks_in g new) (block_size g) →
  sat_mul64 (blocks_in g new) (block_size g) = new.
Proof.
  intros [Hs _] Hn. unfold sat_mul64, blocks_in. pose proof (Z.mul_div_le new (block_size g)). lia.
Qed.

Section outcomes.
Context (h : disk_host).

Lemma truncate_image_Ok t n st a st' :
  truncate_image t n st = (Ok a, st') → st' = mkImage n (img_fs st).
Proof.
  intros H. unfold truncate_image in H. apply stm_bind_Ok in H as (u & st1 & H1 & H). apply modify_Ok in H1 as [_ ->].
  apply assert_Ok in H as (_ & Hs & ->). by rewrite Hs.
Qed.
Lemma geometry_Ok r st g st' : geometry r st = (Ok g, st') → img_fs st = Some g ∧ st' = st.
Proof.
  intros H. unfold geometry in H. apply stm_bind_Ok in H as (s & st1 & H1 & H). apply get_Ok in H1 as [-> ->].
  apply stm_bind_Ok in H as (u & st1 & H1 & H). apply assert_Ok in H1 as (_ & _ & ->).
  by apply lift_Ok in H as [H%ok_or_Ok ->].
Qed.
Lemma check_filesystem_state st : (check_filesystem h st).2 = st.
Proof. unfold check_filesystem, assert. destruct (dh_check h); [|done]. by destruct (_ || _). Qed.
Lemma restore_then_Err {A} previous e st a st' : restore_then h (A := A) previous e st = (Ok a, st') → False.
Proof. unfold restore_then. by destruct (restore_image_size _ _ _). Qed.
Lemma restore_then_fails {A} previous e st : is_ok (restore_then h (A := A) previous e st).1 = false.
Proof. unfold restore_then. by destruct (restore_image_size _ _ _). Qed.

Lemma grow_Ok previous new st u st' :
  grow_filesystem h previous new st = (Ok u, st') →
  img_bytes st' = new ∧ ∃ g, img_fs st' = Some g ∧ new ≤ size_bytes g.
Proof.
  intros H. unfold grow_filesystem in H. apply stm_bind_Ok in H as (u1 & st1 & H1 & H).
  apply truncate_image_Ok in H1 as ->. apply stm_bind_Ok in H as (u2 & st2 & H2 & H).
  apply on_error_Ok in H2; [|intros; apply restore_then_fails].
  pose proof (check_filesystem_state (mkImage new (img_fs st))) as Hc. rewrite H2 in Hc. cbn in Hc. subst st2.
  apply stm_bind_Ok in H as (r & st3 & H3 & H). assert (img_bytes st3 = new) as Hb.
  { unfold resize2fs in H3. destruct (img_fs _); by injection H3 as _ <-. }
  destruct r as [c|]; [|by apply throw_Ok in H]. destruct (negb _); [by apply restore_then_Err in H|].
  apply stm_bind_Ok in H as (b & st4 & H4 & H). unfold filesystem_size in H4.
  apply stm_bind_Ok in H4 as (g & st5 & H5 & H4). apply geometry_Ok in H5 as [Hg ->]. apply mret_Ok in H4 as [-> ->].
  destruct (Z.ltb_spec (size_bytes g) new); [by apply restore_then_Err in H|]. apply mret_Ok in H as [_ ->]. eauto.
Qed.

Lemma resize2fs_block_size t st r st' g :
  resize2fs t st = (r, st') → img_fs st' = Some g → ∃ g0, img_fs st = Some g0 ∧ block_size g = block_size g0.
Proof.
  unfold resize2fs. destruct (img_fs st) as [g0|] eqn:E; intros H Hg.
  - injection H as _ <-. injection Hg as <-. by exists g0.
  - injection H as _ <-. by rewrite E in Hg.
Qed.

Lemma shrink_Ok previous new st u st' : (∀ g, img_fs st = Some g → geometry_ok g) → 0 ≤ new →
  shrink_filesystem h previous new st = (Ok u, st') →
  img_bytes st' = new ∧ ∃ g, img_fs st' = Some g ∧ size_bytes g = new.
Proof.
  intros Hok Hnew H. unfold shrink_filesystem in H. apply stm_bind_Ok in H as (u1 & st1 & H1 & H).
  pose proof (check_filesystem_state st) as Hc. rewrite H1 in Hc. cbn in Hc. subst st1.
  apply stm_bind_Ok in H as (g & st1 & H2 & H). apply geometry_Ok in H2 as [Hg ->]. specialize (Hok g Hg).
  destruct (Z.ltb_spec (sat_mul64 (blocks_in g new) (block_size g)) new) as [|Hle]; [by apply throw_Ok in H|].
  pose proof (target_exact g new Hok Hnew Hle) as Ht. rewrite Ht in H.
  apply stm_bind_Ok in H as (m & st1 & H3 & H). assert (st1 = st) as ->.
  { unfold minimum_filesystem_bytes in H3. destruct (dh_minimum h).1; [|by apply throw_Ok in H3].
    apply stm_bind_Ok in H3 as (b & s & H4 & H3). apply lift_Ok in H4 as [_ ->]. by apply mret_Ok in H3 as [_ ->]. }
  destruct (new <? m); [by apply throw_Ok in H|]. apply stm_bind_Ok in H as (r & st2 & H4 & H).
  destruct r as [c|]; [|by apply throw_Ok in H]. destruct (negb (c =? 0)); [by apply restore_then_Err in H|].
  apply stm_bind_Ok in H as (u2 & st3 & H5 & H). apply on_error_Ok in H5; [|intros; apply restore_then_fails].
  apply truncate_image_Ok in H5 as ->. apply stm_bind_Ok in H as (g' & st4 & H6 & H).
  apply geometry_Ok in H6 as [Hg' ->]. cbn in Hg'. apply stm_bind_Ok in H as (u3 & st4 & H7 & H).
  apply assert_Ok in H7 as (_ & _ & ->). apply stm_bind_Ok in H as (s & st4 & H7 & H). apply get_Ok in H7 as [-> ->].
  destruct (_ || _) eqn:Ev; [by apply restore_then_Err in H|]. apply mret_Ok in H as [_ ->]. cbn in *.
  apply orb_false_iff in Ev as [Eb%negb_false_iff%Z.eqb_eq _]. split; [done|]. exists g'. split; [done|].
  destruct (resize2fs_block_size _ _ _ _ _ H4 Hg') as (g0 & Hg0 & Hbs). rewrite Hg in Hg0. injection Hg0 as <-.
  unfold size_bytes. by rewrite Hbs, Eb.
Qed.

Lemma plan_Ok w new st p st' : plan_workspace_disk_resize h w new st = (Ok p, st') →
  st' = st ∧ new_bytes p = new ∧ disk_bytes (limits w) = Some (previous_bytes p) ∧ MIN_DISK_BYTES ≤ new ∧
  (is_change p = true → previous_bytes p ≠ new ∧ image_bytes p = img_bytes st ∧ previous_bytes p ≤ img_bytes st ∧
     (previous_bytes p < new → img_bytes st ≤ new)).
Proof.
  intros H. unfold plan_workspace_disk_resize in H. apply stm_bind_Ok in H as (c & st1 & H1 & H).
  apply lift_Ok in H1 as [Hc%ok_or_Ok ->]. destruct (bool_decide _); [by apply throw_Ok in H|].
  destruct (Z.ltb_spec new MIN_DISK_BYTES); [by apply throw_Ok in H|].
  destruct (Z.eqb_spec new c) as [->|Hne].
  { apply mret_Ok in H as [-> ->]. unfold is_change. cbn. by rewrite Z.eqb_refl. }
  apply stm_bind_Ok in H as (u & st1 & H1 & H). apply assert_Ok in H1 as (_ & _ & ->).
  apply stm_bind_Ok in H as (b & st1 & H1 & H). apply mret_Ok in H as [-> ->]. cbn.
  unfold validate_image in H1. apply stm_bind_Ok in H1 as (u1 & st2 & H2 & H1). apply assert_Ok in H2 as (_ & _ & ->).
  apply stm_bind_Ok in H1 as (u2 & st2 & H2 & H1). apply assert_Ok in H2 as (_ & _ & ->).
  apply stm_bind_Ok in H1 as (s & st2 & H2 & H1). apply get_Ok in H2 as [-> ->].
  destruct (Z.ltb_spec (img_bytes st) c); [by apply throw_Ok in H1|].
  destruct ((c <? new) && (new <? img_bytes st)) eqn:E; [by apply throw_Ok in H1|].
  assert (st1 = st ∧ b = img_bytes st) as [-> ->].
  { destruct (new <? c); [|by apply mret_Ok in H1 as [-> ->]]. apply stm_bind_Ok in H1 as (g & st2 & H2 & H1).
    apply geometry_Ok in H2 as [_ ->]. destruct (img_bytes st <? size_bytes g); [by apply throw_Ok in H1|]. by apply mret_Ok in H1 as [-> ->]. }
  split_and!; try done. intros _. split; [lia|]. split; [done|]. split; [lia|]. lia.
Qed.
End outcomes.

(** A host whose tools do what their manuals say: they run to their end, the superblock
    can be read back, a tool that reports a failure changed nothing, and a file system is
    never made larger than its file.  A [resize2fs] that reports success need not have
    reached the requested size. *)
Record orderly (h : disk_host) (g : Ext4Geometry) (len new : Z) : Prop := {
  resize_ran : tool_run (dh_resize h) ≠ RunError;
  verify_read : dh_verify_read h = true;
  verify_stat : dh_verify_stat h = true;
  truncate_honest : truncate_took (dh_truncate h) = false;
  resize_failed : succeeded (tool_run (dh_resize h)) = false → tool_left (dh_resize h) (block_count g) = block_count g;
  resize_fits : succeeded (tool_run (dh_resize h)) = true →
    0 ≤ tool_left (dh_resize h) (block_count g) ≤ u64_max ∧
    size_bytes (mkGeometry (block_size g) (tool_left (dh_resize h) (block_count g))) ≤ Z.max len new;
  restore_truncates : succeeded (truncate_run (dh_restore_truncate h)) = true;
  restore_fits : ∀ n, 0 ≤ n ≤ u64_max →
    0 ≤ tool_left (dh_restore_resize h) n ≤ u64_max ∧
    (tool_left (dh_restore_resize h) n = n ∨
     size_bytes (mkGeometry (block_size g) (tool_left (dh_restore_resize h) n)) ≤ len) }.

(** A grow that reports success reaches the requested size. *)
Definition grow_reaches (h : disk_host) (g : Ext4Geometry) (len new : Z) : Prop :=
  succeeded (tool_run (dh_resize h)) = true → len ≤ new →
  new ≤ size_bytes (mkGeometry (block_size g) (tool_left (dh_resize h) (block_count g))).

Section restoring.
Context (h : disk_host) (g : Ext4Geometry) (st : image) (new : Z).
Hypotheses (Hfs : img_fs st = Some g) (Hg : geometry_ok g) (Hsize : size_bytes g ≤ img_bytes st)
  (Ho : orderly h g (img_bytes st) new).

(** What every refused resize leaves: the file at its old length, and a file system
    that fits it. *)
Definition restored (st' : image) : Prop := img_bytes st' = img_bytes st ∧ consistent st'.
Lemma restored_same : restored st.
Proof. split; [done|]. by exists g. Qed.

Lemma restore_restores {A} e st1 n : 
  img_fs st1 = Some (mkGeometry (block_size g) n) → 0 ≤ n ≤ u64_max →
  size_bytes (mkGeometry (block_size g) n) ≤ img_bytes st →
  restored (restore_then h (A := A) (img_bytes st) e st1).2.
Proof.
  intros Hfs1 Hn Hs. destruct (restore_fits _ _ _ _ Ho n Hn) as [Hl Hr].
  unfold restore_then, restore_image_size, truncate_image, modify, assert, mbind, stm_bind.
  rewrite (restore_truncates _ _ _ _ Ho). cbn. unfold resize2fs. cbn. rewrite Hfs1. cbn.
  split; [done|]. eexists. split; [done|]. split; [split; cbn; [apply Hg|done]|]. cbn.
  destruct Hr as [->|Hr]; done.
Qed.
Lemma restore_length {A} e st1 : img_bytes (restore_then h (A := A) (img_bytes st) e st1).2 = img_bytes st.
Proof.
  unfold restore_then, restore_image_size, truncate_image, modify, assert, mbind, stm_bind.
  rewrite (restore_truncates _ _ _ _ Ho). cbn. unfold resize2fs. cbn. by destruct (img_fs st1).
Qed.
Lemma restore_unchanged {A} e st1 : img_fs st1 = Some g → restored (restore_then h (A := A) (img_bytes st) e st1).2.
Proof. intros H. apply (restore_restores e st1 (block_count g)); [by destruct g|apply Hg|by destruct g]. Qed.

(** The file system after [resize2fs], as it runs and as it does not. *)
Lemma resize2fs_run st1 : img_fs st1 = Some g →
  resize2fs (dh_resize h) st1 =
    (Ok (tool_run (dh_resize h)),
     mkImage (img_bytes st1) (Some (mkGeometry (block_size g) (tool_left (dh_resize h) (block_count g))))).
Proof. intros H. unfold resize2fs. by rewrite H. Qed.

Lemma check_cases st1 : check_filesystem h st1 = (Ok tt, st1) ∨ ∃ e, check_filesystem h st1 = (Err e, st1).
Proof. unfold check_filesystem, assert. destruct (dh_check h); [destruct (_ || _)|]; eauto. Qed.

Lemma grow_restores e st' : img_bytes st ≤ new →
  grow_filesystem h (img_bytes st) new st = (Err e, st') →
  img_bytes st' = img_bytes st ∧ (grow_reaches h g (img_bytes st) new → consistent st').
Proof.
  intros Hgrow H. enough (img_bytes st' = img_bytes st ∧ (consistent st' ∨ ¬ grow_reaches h g (img_bytes st) new)) by tauto.
  revert H. assert (∀ st0, restored st0 → img_bytes st0 = img_bytes st ∧ (consistent st0 ∨ ¬ grow_reaches h g (img_bytes st) new))
    as Hdone by (intros st0 [? ?]; auto).
  unfold grow_filesystem, truncate_image, modify, assert, mbind, stm_bind. cbn.
  rewrite (truncate_honest _ _ _ _ Ho), orb_false_r.
  destruct (succeeded (truncate_run (dh_truncate h))); cbn; [|intros [= _ <-]; apply Hdone, restored_same].
  set (st1 := mkImage new (img_fs st)). assert (img_fs st1 = Some g) as Hfs1 by done.
  unfold on_error. destruct (check_cases st1) as [->|[e1 ->]].
  - rewrite (resize2fs_run st1 Hfs1). destruct (tool_run (dh_resize h)) as [c|] eqn:Er; [|by destruct (resize_ran _ _ _ _ Ho)].
    pose proof (resize_failed _ _ _ _ Ho) as Hfail.
    rewrite Er in Hfail. cbn [succeeded] in *. destruct (c =? 0) eqn:Ec; cbn [negb].
    + unfold filesystem_size, geometry, get, assert, mbind, stm_bind. rewrite (verify_read _ _ _ _ Ho). cbn.
      destruct (Z.ltb_spec (size_bytes (mkGeometry (block_size g) (tool_left (dh_resize h) (block_count g)))) new) as [Hlt|]; [|done].
      intros H. apply (f_equal snd) in H. cbn [snd] in H. subst st'. split; [apply restore_length|]. right.
      intros Hreach. unfold grow_reaches in Hreach. rewrite Er in Hreach. cbn in Hreach. specialize (Hreach Ec Hgrow). lia.
    + intros H. pose proof (restore_unchanged (A := unit) (plain "failed to grow its ext4 filesystem")
        (mkImage new (Some g)) eq_refl) as Hr. rewrite (Hfail eq_refl) in H. destruct g as [bs n]; cbn in *.
      rewrite H in Hr. by apply Hdone.
  - intros H. pose proof (restore_unchanged (A := unit) e1 st1 Hfs1) as Hr.
    pose proof (restore_then_fails h (A := unit) (img_bytes st) e1 st1) as Hf.
    destruct (restore_then h (img_bytes st) e1 st1) as [[u|e2] s] eqn:E; [done|]. cbn [snd] in Hr. injection H as _ <-. by apply Hdone.
Qed.

(** The steps that only look. *)
Lemma geometry_Err r e st1 st' : geometry r st1 = (Err e, st') → st' = st1.
Proof.
  unfold geometry, get, assert, throw, lift, mbind, stm_bind. destruct r; [|by intros [= _ <-]].
  cbn. by intros [= _ <-].
Qed.
Lemma minimum_state bs st1 : (minimum_filesystem_bytes h bs st1).2 = st1.
Proof.
  unfold minimum_filesystem_bytes. destruct (dh_minimum h).1; [|done]. unfold mbind, stm_bind, lift. by destruct (ok_or _ _).
Qed.

Lemma shrink_restores e st' : 0 ≤ new < img_bytes st →
  shrink_filesystem h (img_bytes st) new st = (Err e, st') → restored st'.
Proof.
  intros Hshrink H. unfold shrink_filesystem in H.
  apply stm_bind_Err in H as [H|(u & st1 & H1 & H)].
  { pose proof (check_filesystem_state h st) as Hc. rewrite H in Hc. cbn in Hc. subst. apply restored_same. }
  pose proof (check_filesystem_state h st) as Hc. rewrite H1 in Hc. cbn in Hc. subst st1.
  apply stm_bind_Err in H as [H|(g' & st1 & H2 & H)]; [apply geometry_Err in H as ->; apply restored_same|].
  apply geometry_Ok in H2 as [Hg' ->]. rewrite Hfs in Hg'. injection Hg' as <-.
  set (target := sat_mul64 _ _) in H. destruct (target <? new); [injection H as _ <-; apply restored_same|].
  apply stm_bind_Err in H as [H|(m & st1 & H3 & H)].
  { pose proof (minimum_state (block_size g) st) as Hc. rewrite H in Hc. cbn in Hc. subst. apply restored_same. }
  pose proof (minimum_state (block_size g) st) as Hc. rewrite H3 in Hc. cbn in Hc. subst st1.
  destruct (target <? m); [injection H as _ <-; apply restored_same|].
  apply stm_bind_Err in H as [H|(r & st1 & H4 & H)]; [by rewrite resize2fs_run in H|].
  rewrite resize2fs_run in H4 by done. injection H4 as <- <-.
  pose proof (resize_failed _ _ _ _ Ho) as Hfail. pose proof (resize_fits _ _ _ _ Ho) as Hfits.
  set (n := tool_left (dh_resize h) (block_count g)) in *.
  destruct (tool_run (dh_resize h)) as [c|] eqn:Er; [|by destruct (resize_ran _ _ _ _ Ho)]. cbn [succeeded] in *.
  destruct (c =? 0); cbn [negb] in H; [clear Hfail|].
  2:{ rewrite (Hfail eq_refl) in H. eapply (f_equal snd) in H. cbn [snd] in H. subst st'.
      apply restore_unchanged. by destruct g. }
  destruct (Hfits eq_refl) as [Hn Hle]. assert (size_bytes (mkGeometry (block_size g) n) ≤ img_bytes st) as Hle' by lia.
  apply stm_bind_Err in H as [H|(u1 & st1 & H5 & H)].
  { unfold on_error in H. destruct (truncate_image _ _ _) as [[?|e1] s1] eqn:E1; [done|].
    apply (f_equal snd) in H. cbn [snd] in H. subst st'. apply (restore_restores e1 s1 n); try done.
    unfold truncate_image, modify, assert, mbind, stm_bind in E1. destruct (succeeded (truncate_run _) || _), (succeeded _);
      by injection E1 as _ <-. }
  apply on_error_Ok in H5; [|intros; apply restore_then_fails]. apply truncate_image_Ok in H5 as ->.
  apply stm_bind_Err in H as [H|(g2 & st1 & H5 & H)]; [by rewrite (verify_read _ _ _ _ Ho) in H|].
  apply geometry_Ok in H5 as [_ ->]. apply stm_bind_Err in H as [H|(u2 & st1 & H5 & H)];
    [by rewrite (verify_stat _ _ _ _ Ho) in H|]. apply assert_Ok in H5 as (_ & _ & ->).
  apply stm_bind_Err in H as [H|(s & st1 & H5 & H)]; [done|]. apply get_Ok in H5 as [-> ->].
  destruct (negb (_ =? _) || _); [|done]. apply (f_equal snd) in H. cbn [snd] in H. subst st'.
  by apply (restore_restores _ _ n).
Qed.
End restoring.

Lemma MIN_DISK_pos : 0 < MIN_DISK_BYTES.
Proof. done. Qed.

Lemma plan_Err h w new st e st' : plan_workspace_disk_resize h w new st = (Err e, st') → st' = st.
Proof.
  intros H. unfold plan_workspace_disk_resize in H.
  apply stm_bind_Err in H as [H|(c & st1 & H1 & H)]; [by injection H as _ <-|]. apply lift_Ok in H1 as [_ ->].
  destruct (bool_decide _); [by injection H as _ <-|]. destruct (new <? _); [by injection H as _ <-|].
  destruct (new =? c); [done|].
  assert (∀ b m s s', assert (S := image) b m s = (Err e, s') → s' = s) as Hassert.
  { intros b m s s'. unfold assert. destruct b; [done|]. by intros [= _ <-]. }
  apply stm_bind_Err in H as [H|(u & st1 & H1 & H)]; [by apply Hassert in H|]. apply assert_Ok in H1 as (_ & _ & ->).
  apply stm_bind_Err in H as [H|(b & st1 & H1 & H)]; [|done]. unfold validate_image in H.
  apply stm_bind_Err in H as [H|(u1 & st1 & H1 & H)]; [by apply Hassert in H|]. apply assert_Ok in H1 as (_ & _ & ->).
  apply stm_bind_Err in H as [H|(u2 & st1 & H1 & H)]; [by apply Hassert in H|]. apply assert_Ok in H1 as (_ & _ & ->).
  apply stm_bind_Err in H as [H|(s & st1 & H1 & H)]; [done|]. apply get_Ok in H1 as [-> ->].
  destruct (img_bytes st <? c); [by injection H as _ <-|]. destruct (_ && _); [by injection H as _ <-|].
  destruct (new <? c); [|done]. apply stm_bind_Err in H as [H|(g & st1 & H1 & H)]; [by apply geometry_Err in H|].
  apply geometry_Ok in H1 as [_ ->]. destruct (img_bytes st <? size_bytes g); [by injection H as _ <-|done].
Qed.


(** A grow that the file system does not follow all the way damages the image.
    [resize2fs] may stop below the end of the file, when what is left is too small for a
    block group; the resize then cuts the file back to its old length underneath the
    file system that has already grown past it, and unless a second [resize2fs] brings
    the file system down again, the image no longer holds it. *)
Theorem short_grow_cuts_filesystem h st g new n :
  img_fs st = Some g → img_bytes st < size_bytes (mkGeometry (block_size g) n) < new →
  truncate_run (dh_truncate h) = Exited 0 → dh_check h = Exited 0 →
  tool_run (dh_resize h) = Exited 0 → tool_left (dh_resize h) (block_count g) = n → dh_verify_read h = true →
  truncate_run (dh_restore_truncate h) = Exited 0 → tool_left (dh_restore_resize h) n = n →
  ∃ e st', grow_filesystem h (img_bytes st) new st = (Err e, st') ∧
    img_bytes st' = img_bytes st ∧ ¬ consistent st'.
Proof.
  intros Hfs [Hlo Hhi] Ht Hc Hr Hn Hv Hrt Hrr.
  exists (plain "filesystem below the requested size"), (mkImage (img_bytes st) (Some (mkGeometry (block_size g) n))).
  split.
  - unfold grow_filesystem, truncate_image, modify, assert, check_filesystem, assert, on_error, mbind, stm_bind.
    rewrite Ht, Hc. cbn. unfold resize2fs. cbn. rewrite Hfs. cbn. rewrite Hr, Hn. cbn.
    unfold filesystem_size, geometry, get, assert, lift, mbind, stm_bind. rewrite Hv. cbn.
    destruct (Z.ltb_spec (size_bytes (mkGeometry (block_size g) n)) new); [|lia].
    unfold restore_then, restore_image_size, truncate_image, modify, assert, mbind, stm_bind. rewrite Hrt. cbn.
    unfold resize2fs. cbn. by rewrite Hrr.
  - split; [done|]. intros (g' & [= <-] & _ & Hle). cbn in Hle. lia.
Qed.

(** A grow whose [resize2fs] could not be run to its end, because it exceeded its
    deadline, restores nothing: the file keeps the requested length although the resize
    failed and the record keeps the old one, and a later request for any size in between
    is refused. *)
Theorem unfinished_grow_is_kept h st w current new g :
  disk_bytes (limits w) = Some current → home_mount_source_path w = None → MIN_DISK_BYTES ≤ new →
  current ≤ img_bytes st → current < new → img_bytes st ≤ new → img_fs st = Some g →
  dh_backend h = true → dh_stat h = true → dh_is_file h = true → dh_unused h = true →
  truncate_run (dh_truncate h) = Exited 0 → dh_check h = Exited 0 → tool_run (dh_resize h) = RunError →
  ∃ e st', resize_workspace_disk_allocation h w new st = (Err e, st') ∧ img_bytes st' = new ∧
    ∀ h' size, current < size < new → is_ok (resize_workspace_disk_allocation h' w size st').1 = false.
Proof.
  intros Hd Hh Hmin Hcur Hlt Hle Hfs Hb Hs Hf Hu Ht Hc Hr. eexists _, _. split; [|split].
  - unfold resize_workspace_disk_allocation, plan_workspace_disk_resize, lift, mbind, stm_bind. rewrite Hd, Hh. cbn [ok_or].
    rewrite bool_decide_eq_false_2 by (intros [? [=]]). destruct (Z.ltb_spec new MIN_DISK_BYTES); [lia|].
    destruct (Z.eqb_spec new current); [lia|]. unfold assert. rewrite Hb. cbn [mret stm_ret].
    unfold validate_image, assert, get, mbind, stm_bind. rewrite Hs, Hf. cbn [mret stm_ret].
    destruct (Z.ltb_spec (img_bytes st) current); [lia|]. destruct (Z.ltb_spec current new); [|lia].
    destruct (Z.ltb_spec new (img_bytes st)); [lia|]. cbn [andb]. destruct (Z.ltb_spec new current); [lia|].
    cbn [mret stm_ret]. unfold is_change. cbn [previous_bytes new_bytes image_bytes].
    destruct (Z.eqb_spec current new); [lia|]. cbn [negb]. rewrite Hu. destruct (Z.ltb_spec current new); [|lia].
    unfold grow_filesystem, truncate_image, modify, assert, check_filesystem, assert, on_error, mbind, stm_bind.
    rewrite Ht, Hc. cbn. unfold resize2fs. cbn. rewrite Hfs. cbn. rewrite Hr. reflexivity.
  - reflexivity.
  - intros h' size Hsize. unfold resize_workspace_disk_allocation, mbind, stm_bind.
    destruct (plan_workspace_disk_resize h' w size _) as [[p|e] st1] eqn:E; [|done]. exfalso.
    apply plan_Ok in E as (_ & Hn & Hd' & _ & Hch). rewrite Hd in Hd'. injection Hd' as Hp.
    destruct Hch as (_ & _ & _ & Hup); [unfold is_change; rewrite Hn, <- Hp; destruct (Z.eqb_spec current size); [lia|done]|].
    cbn in Hup. lia.
Qed.

(** ** Concrete runs *)

(** A 64 MiB image whose file system fills it, and a host that grows a file system to
    [left] blocks, checks it with the exit code [check], and brings it back to 16384
    blocks when [back]. *)
Definition sample_geometry : Ext4Geometry := mkGeometry 4096 16384.
Definition sample_image : image := mkImage 67108864 (Some sample_geometry).
Definition sample_done : truncate_tool := mkTruncate (Exited 0) false.
Definition sample_disk (check resize : run) (left : Z) (back : bool) : disk_host :=
  mkDisk true true true true true sample_done check true (Exited 0, "Estimated minimum size of the filesystem: 900")
    (mkTool resize (λ n, if succeeded resize then left else n)) true true sample_done
    (mkTool (Exited (if back then 0 else 1)) (λ n, if back then 16384 else n)).
Definition sample_quota (bytes : Z) : WorkspaceMetadata :=
  mkWorkspace "a" "s" "web" "t0" None None None "/s/a" "" "/home" None "" "" "" "" ""
    [] None [] [] Stopped None None default_refs false false None None
    (mkWsLimits None None None None None (Some bytes)) None.


Lemma short_grow_cuts_filesystem_witness :
  ∃ e st', grow_filesystem (sample_disk (Exited 0) (Exited 0) 32768 false) 67108864 135266304 sample_image = (Err e, st') ∧
    img_bytes st' = 67108864 ∧ ¬ consistent st'.
Proof.
  apply (short_grow_cuts_filesystem (sample_disk (Exited 0) (Exited 0) 32768 false) sample_image sample_geometry
    135266304 32768); try reflexivity. vm_compute. split; reflexivity.
Defined.

Lemma unfinished_grow_is_kept_witness :
  ∃ e st', resize_workspace_disk_allocation (sample_disk (Exited 0) RunError 0 true) (sample_quota 67108864) 134217728
      sample_image = (Err e, st') ∧ img_bytes st' = 134217728 ∧
    ∀ h' size, 67108864 < size < 134217728 →
      is_ok (resize_workspace_disk_allocation h' (sample_quota 67108864) size st').1 = false.
Proof.
  apply (unfinished_grow_is_kept (sample_disk (Exited 0) RunError 0 true) sample_image (sample_quota 67108864) 67108864
    134217728 sample_geometry); try reflexivity; vm_compute; discriminate.
Defined.
