(* ===== verification/ProcFs.v ===== *)
(** * Kernel tables as text (src/src/fsutil/mounts.rs, workspace/session/process/mod.rs)

    The mount table and the process table are read as text.  This file models the
    parsers, who owns a mount, and the order in which mounts are taken down. *)
From S2P Require Import Prelude RustStr Paths Types Registry Records.

(** ** Octal escapes *)

(** [String::push] of [value as char]: a byte above 127 becomes a character of two
    bytes. *)
Definition push_char (n : nat) : string :=
  if (n <? 128)%nat then String (byte_of n) "" else String (byte_of (192 + n / 64)) (String (byte_of (128 + n mod 64)) "").

Definition octal_digit (c : ascii) : nat := (code c - 48)%nat.
(** The sum is computed in a [u8]. *)
Definition octal_value (a b c : ascii) : nat := ((octal_digit a * 64 + octal_digit b * 8 + octal_digit c) mod 256)%nat.

Fixpoint unescape_mountinfo_path (path : string) : string :=
  match path with
  | EmptyString => EmptyString
  | String e rest =>
      match rest with
      | String a (String b (String c rest')) =>
          if ((e =? "\")%char && is_ascii_digit a && is_ascii_digit b && is_ascii_digit c)%bool
          then push_char (octal_value a b c) +:+ unescape_mountinfo_path rest'
          else push_char (code e) +:+ unescape_mountinfo_path rest
      | _ => push_char (code e) +:+ unescape_mountinfo_path rest
      end
  end.

(** ** The mount table *)

Record MountInfoEntry := mkMount {
  mount_root : string;
  mountpoint : string;
  filesystem_type : string;
  mount_source : string }.

(** [str::split_once] on a string. *)
Fixpoint split_once (sep s : string) : option (string * string) :=
  match strip_prefix sep s with
  | Some rest => Some (EmptyString, rest)
  | None =>
      match s with
      | EmptyString => None
      | String c s' => match split_once sep s' with Some (l, r) => Some (String c l, r) | None => None end
      end
  end.

Definition parse_mountinfo_line (line : string) : option MountInfoEntry :=
  '(before, after) ← split_once " - " line;
  let before := split_whitespace before in
  root ← before !! 3%nat;
  point ← before !! 4%nat;
  let after := split_whitespace after in
  fstype ← after !! 0%nat;
  source ← after !! 1%nat;
  Some (mkMount (unescape_mountinfo_path root) (unescape_mountinfo_path point) fstype (unescape_mountinfo_path source)).

Definition parse_mountinfo (raw : string) : list MountInfoEntry := omap parse_mountinfo_line (lines raw).

Definition mounts_contain (entries : list MountInfoEntry) (path : string) : bool :=
  existsb (λ e, path_eq (mountpoint e) path) entries.

(** ** Ownership *)

(** [trim_end_matches('\n')] *)
Fixpoint strip_newlines (s : string) : string :=
  match s with String c s' => if (c =? "010")%char then strip_newlines s' else s | EmptyString => s end.
Definition trim_end_newlines (s : string) : string := str_rev (strip_newlines (str_rev s)).

(** The nearest ancestor, the path included, that is named [sandboxes]; its parent is
    the state directory. *)
Fixpoint state_root_rev (rev_components : list string) : option (list string) :=
  match rev_components with
  | [] => None
  | c :: up => if bool_decide (c = "sandboxes") then Some (reverse up) else state_root_rev up
  end.
Definition enclave_state_root (path : string) : option (list string) := state_root_rev (reverse (path_components path)).

Definition below (state : list string) (path : string) : bool :=
  bool_decide (take (length state) (path_components path) = state).

Definition OVERLAY_FILESYSTEM : string := "overlay".

Section ownership.
(** [/sys/block/<name>/loop/backing_file], when it can be read. *)
Context (backing_file : string → option string).

Definition loop_backing_file (source : string) : option string :=
  match path_components source with
  | [""; "dev"; name] =>
      number ← strip_prefix "loop" name;
      if bool_decide (number = "") || negb (str_all is_ascii_digit number) then None
      else
        raw ← backing_file name;
        let raw := trim_end_newlines raw in
        if bool_decide (raw = "") then None
        else Some (if starts_with "/" raw then raw else path_join "/" raw)
  | _ => None
  end.

Definition is_enclave_owned (state_dir : list string) (e : MountInfoEntry) : bool :=
  bool_decide (filesystem_type e = OVERLAY_FILESYSTEM) || below state_dir (mount_root e) ||
  match loop_backing_file (mount_source e) with Some b => below state_dir b | None => false end.

(** ** Mounts below a directory *)

Definition depth (e : MountInfoEntry) : nat := length (path_components (mountpoint e)).
Definition deeper (a b : MountInfoEntry) : bool := (depth b <=? depth a)%nat.

(** [dedup_by]: of neighbours at one mount point the first is kept. *)
Fixpoint dedup_points (previous : option string) (l : list MountInfoEntry) : list MountInfoEntry :=
  match l with
  | [] => []
  | e :: l' =>
      if match previous with Some p => path_eq (mountpoint e) p | None => false end
      then dedup_points previous l' else e :: dedup_points (Some (mountpoint e)) l'
  end.

Definition at_or_below_entries (entries : list MountInfoEntry) (root : string) : list MountInfoEntry :=
  dedup_points None (sort_by deeper (filter (λ e, path_starts_with (mountpoint e) root = true) entries)).

Definition describe_mount (e : MountInfoEntry) : string := mountpoint e +:+ " (source " +:+ mount_source e +:+ ")".

Definition foreign_mount (root : string) (e : MountInfoEntry) : bool :=
  negb match enclave_state_root root with Some state => is_enclave_owned state e | None => false end.
Definition foreign_at_or_below (entries : list MountInfoEntry) (root : string) : list string :=
  describe_mount <$> filter (λ e, foreign_mount root e = true) (at_or_below_entries entries root).
Definition owned_at_or_below (entries : list MountInfoEntry) (root : string) : list string :=
  match enclave_state_root root with
  | None => []
  | Some state => describe_mount <$> filter (λ e, is_enclave_owned state e = true) (at_or_below_entries entries root)
  end.
End ownership.

(** ** The process table *)

(** A byte in the middle of a character. *)
Definition continuation (c : ascii) : bool := ((128 <=? code c) && (code c <? 192))%nat.

(** [/proc/<pid>/stat]: the state and the start time. *)
Definition read_stat (raw : string) : result (ascii * Z) :=
  p ← ok_or (rsplit_once ")" raw) (plain "failed to parse stat format");
  rest ← match p.2 with
         | String _ rest =>
             if match rest with String c _ => continuation c | EmptyString => false end
             then bail "failed to parse stat fields" else Ok rest
         | EmptyString => bail "failed to parse stat fields"
         end;
  let fields := split_whitespace rest in
  if (length fields <? 20)%nat then bail "unexpected stat field count"
  else
    state ← ok_or (head fields ≫= λ f, match f with String c _ => Some c | EmptyString => None end)
              (plain "missing state field");
    ticks ← ok_or (fields !! 19%nat ≫= parse_uint u64_max) (plain "failed to parse starttime field");
    Ok (state, ticks).

(** [str::parse::<i32>] *)
Definition parse_i32 (s : string) : option Z :=
  match strip_prefix "-" s with
  | Some digits => match digits with String "+" _ => None | _ => Z.opp <$> parse_uint 2147483648 digits end
  | None => parse_uint 2147483647 s
  end.

(** [str::rsplit_once] on a string: around its last occurrence. *)
Fixpoint rsplit_once_str (sep s : string) : option (string * string) :=
  match s with
  | EmptyString => match strip_prefix sep s with Some rest => Some (EmptyString, rest) | None => None end
  | String c s' =>
      match rsplit_once_str sep s' with
      | Some (l, r) => Some (String c l, r)
      | None => match strip_prefix sep s with Some rest => Some (EmptyString, rest) | None => None end
      end
  end.

(** The process group of a process. *)
Definition process_group_id (raw : string) : result Z :=
  p ← ok_or (rsplit_once_str ") " raw) (plain "failed to parse stat");
  group ← ok_or (split_whitespace p.2 !! 2%nat) (plain "stat has no process-group field");
  ok_or (parse_i32 group) (plain "failed to parse the process-group field").

(** * Words *)

(** A field of a kernel table: printable, without white space. *)
Definition word (w : string) : bool := str_all is_ascii_graphic w && negb (bool_decide (w = "")).

(** Words with one space between them. *)
Fixpoint unwords (ws : list string) : string :=
  match ws with
  | [] => ""
  | [w] => w
  | w :: ws' => w +:+ String " " (unwords ws')
  end.

Lemma white_space_shape :
  forallb (λ w, match w with String b _ => negb (is_ascii_graphic b) | EmptyString => false end) white_space = true.
Proof. by vm_compute. Qed.

Lemma split_graphic fuel w cur rest :
  str_all is_ascii_graphic w = true → (String.length w ≤ fuel)%nat →
  split_whitespace_fuel fuel cur (w +:+ rest) =
    match w with EmptyString => split_whitespace_fuel fuel cur rest
    | _ => split_whitespace_fuel (fuel - String.length w) (cur +:+ w) rest end.
Proof.
  revert fuel cur. induction w as [|c w IH]; intros fuel cur Hw Hf; [done|].
  cbn in Hw. apply andb_true_iff in Hw as [Hc Hw]. cbn in Hf. destruct fuel as [|fuel]; [lia|].
  cbn [String.append split_whitespace_fuel]. rewrite first_strip_graphic by (exact white_space_shape || done).
  rewrite IH by (done || lia). cbn [String.length Nat.sub]. destruct w as [|d w]; cbn [String.length].
  - by rewrite Nat.sub_0_r.
  - by rewrite str_app_assoc.
Qed.

Lemma split_space fuel cur rest : split_whitespace_fuel (S fuel) cur (String " " rest) =
  word_end cur (split_whitespace_fuel fuel "" rest).
Proof. reflexivity. Qed.
Lemma split_newline fuel cur : split_whitespace_fuel (S fuel) cur (String "010" "") = word_end cur [].
Proof. by destruct fuel. Qed.
Lemma split_end fuel cur : split_whitespace_fuel fuel cur "" = word_end cur [].
Proof. by destruct fuel. Qed.

Lemma word_facts w : word w = true → str_all is_ascii_graphic w = true ∧ w ≠ "".
Proof. unfold word. by rewrite andb_true_iff, negb_true_iff, bool_decide_eq_false. Qed.
Lemma word_end_word w l : w ≠ "" → word_end w l = w :: l.
Proof. by destruct w. Qed.

(** Splitting gives the words back, also before the newline that ends a file. *)
Lemma split_unwords_fuel ws fuel (tail : string) :
  Forall (λ w, word w = true) ws → tail = "" ∨ tail = String "010" "" →
  (String.length (unwords ws +:+ tail) ≤ fuel)%nat →
  split_whitespace_fuel fuel "" (unwords ws +:+ tail) = ws.
Proof.
  intros Hws Htail. revert fuel. induction ws as [|w ws IH]; intros fuel Hf.
  { cbn in *. destruct Htail as [-> | ->]; [by rewrite split_end|]. destruct fuel; [cbn in Hf; lia|]. by rewrite split_newline. }
  apply list.Forall_cons in Hws as [[Hw Hne]%word_facts Hws]. specialize (IH Hws).
  destruct ws as [|v ws].
  - cbn [unwords] in *. rewrite str_length_app in Hf. rewrite split_graphic by (done || lia).
    destruct w as [|c w]; [done|]. set (cw := String c w) in *. cbn [String.append].
    destruct Htail as [-> | ->]; [by rewrite split_end|]. cbn [String.length] in Hf.
    destruct (fuel - String.length cw)%nat eqn:E; [lia|]. by rewrite split_newline.
  - change (unwords (w :: v :: ws)) with (w +:+ String " " (unwords (v :: ws))) in *.
    rewrite str_app_assoc in *. rewrite str_length_app in Hf. rewrite split_graphic by (done || lia).
    destruct w as [|c w]; [done|]. set (cw := String c w) in *. cbn [String.append] in *. cbn [String.length] in Hf.
    destruct (fuel - String.length cw)%nat as [|fuel'] eqn:E; [lia|]. rewrite split_space, word_end_word by done.
    f_equal. apply IH. lia.
Qed.
Lemma split_unwords ws : Forall (λ w, word w = true) ws → split_whitespace (unwords ws) = ws.
Proof.
  intros H. rewrite <- (str_app_nil_r (unwords ws)) at 1. apply split_unwords_fuel; [done|by left|done].
Qed.
Lemma split_unwords_line ws : Forall (λ w, word w = true) ws →
  split_whitespace (unwords ws +:+ String "010" "") = ws.
Proof. intros H. apply split_unwords_fuel; [done|by right|done]. Qed.

(** * The process table *)

Lemma rsplit_once_str_free (sep : string) c rest s :
  sep = String c rest → free c s = true → rsplit_once_str sep s = None.
Proof.
  intros ->. induction s as [|a s IH]; cbn; [done|]. intros [Ha Hs]%andb_true_iff. rewrite IH by done.
  apply negb_true_iff in Ha. by rewrite Ascii.eqb_sym, Ha.
Qed.
Lemma rsplit_once_str_app l r : free ")" r = true → rsplit_once_str ") " (l +:+ ") " +:+ r) = Some (l, r).
Proof.
  intros Hr. induction l as [|a l IH].
  - cbn. rewrite (rsplit_once_str_free ") " ")" " ") by done. done.
  - cbn [String.append rsplit_once_str]. change (l +:+ String ")" (String " " r)) with (l +:+ ") " +:+ r). by rewrite IH.
Qed.

Lemma free_app c (a b : string) : free c (a +:+ b) = free c a && free c b.
Proof. apply str_all_app. Qed.
Lemma free_unwords c ws : (c =? " ")%char = false → Forall (λ w, free c w = true) ws → free c (unwords ws) = true.
Proof.
  intros Hc. induction ws as [|w [|v ws] IH]; intros H; [done|by apply list.Forall_cons in H as [? _]|].
  apply list.Forall_cons in H as [Hw H]. change (unwords (w :: v :: ws)) with (w +:+ String " " (unwords (v :: ws))).
  rewrite free_app, Hw. cbn [andb]. unfold free at 1. cbn [str_all]. rewrite Ascii.eqb_sym, Hc. by apply IH.
Qed.

Lemma parse_i32_print n : (0 ≤ n ≤ 2147483647)%Z → parse_i32 (print_uint n) = Some n.
Proof.
  intros Hn. unfold parse_i32. destruct (strip_prefix "-" (print_uint n)) as [r|] eqn:E; [|by apply parse_print_uint].
  exfalso. pose proof (print_uint_digits n) as Hd. destruct (print_uint n) as [|c s]; [done|]. cbn [str_all] in Hd.
  apply andb_true_iff in Hd as [Hd _]. cbn [strip_prefix] in E. destruct (Ascii.eqb_spec "-" c) as [<-|]; done.
Qed.

(** The name of a process cannot confuse the reader of its [stat] line.  Whatever a
    program calls itself, parentheses, spaces and whole fake fields included, the state,
    the start time and the process group are read from the fields the kernel wrote
    after the name. *)
Theorem stat_name_is_ignored pid comm (fields : list string) state s0 ticks group :
  Forall (λ f, word f = true ∧ free ")" f = true) fields → (20 ≤ length fields)%nat →
  fields !! 0%nat = Some (String state s0) → fields !! 19%nat = Some (print_uint ticks) → (0 ≤ ticks ≤ u64_max)%Z →
  fields !! 2%nat = Some (print_uint group) → (0 ≤ group ≤ 2147483647)%Z →
  let raw := pid +:+ " (" +:+ comm +:+ ") " +:+ unwords fields +:+ String "010" "" in
  read_stat raw = Ok (state, ticks) ∧ process_group_id raw = Ok group.
Proof.
  intros Hf Hlen H0 H19 Ht H2 Hg raw.
  assert (Forall (λ w, word w = true) fields) as Hw by (eapply list.Forall_impl; [exact Hf|by intros ? []]).
  assert (free ")" (unwords fields +:+ String "010" "") = true) as Hfree.
  { rewrite free_app, free_unwords; [done|done|]. eapply list.Forall_impl; [exact Hf|by intros ? []]. }
  set (rest := unwords fields +:+ String "010" "") in *. pose proof (split_unwords_line fields Hw) as Hsplit. fold rest in Hsplit.
  assert (raw = (pid +:+ " (" +:+ comm) +:+ ") " +:+ rest) as Hraw by (unfold raw; by rewrite !str_app_assoc).
  split.
  - unfold read_stat. rewrite Hraw. change (") " +:+ rest) with (String ")" (String " " rest)).
    rewrite rsplit_once_app by exact Hfree. cbn [ok_or mbind result_bind snd].
    assert (∃ c r, rest = String c r ∧ continuation c = false) as (c & r & Er & Hc).
    { destruct fields as [|f fs]; [done|]. injection H0 as ->. apply list.Forall_cons in Hw as [[Hs _]%word_facts _].
      cbn in Hs. apply andb_true_iff in Hs as [Hs _]. unfold rest. destruct fs; cbn; eexists _, _; (split; [done|]);
        revert Hs; clear; revert state; by_byte. }
    rewrite Er, Hc, <- Er. cbn [mbind result_bind]. rewrite Hsplit. destruct (Nat.ltb_spec (length fields) 20); [lia|].
    rewrite H19. cbn [mbind option_bind]. rewrite parse_print_uint by done. destruct fields; [done|]. by injection H0 as ->.
  - unfold process_group_id. rewrite Hraw, rsplit_once_str_app by exact Hfree. cbn [ok_or mbind result_bind snd].
    rewrite Hsplit, H2. cbn [ok_or mbind result_bind]. by rewrite parse_i32_print.
Qed.

(** A process that calls itself [sh) R 1 9 9]. *)
Definition sample_fields : list string :=
  ["S"; "1"; "7"; "7"; "0"; "-1"; "4194560"; "0"; "0"; "0"; "0"; "0"; "0"; "0"; "0"; "20"; "0"; "1"; "0"; "4711"; "0"].
Lemma stat_name_is_ignored_witness :
  let raw := "7" +:+ " (" +:+ "sh) R 1 9 9" +:+ ") " +:+ unwords sample_fields +:+ String "010" "" in
  read_stat raw = Ok ("S"%char, 4711%Z) ∧ process_group_id raw = Ok 7%Z.
Proof.
  apply (stat_name_is_ignored "7" "sh) R 1 9 9" sample_fields "S" "" 4711 7); try reflexivity.
  - repeat (constructor; [split; reflexivity|]). constructor.
  - cbn. lia.
  - unfold u64_max. lia.
  - lia.
Defined.

(** * The mount table *)

(** How the kernel writes a path: a byte as itself, unless it is a backslash, or as a
    backslash and three octal digits. *)
Definition octal (n : nat) : string :=
  String "\" (String (byte_of (48 + n / 64)) (String (byte_of (48 + (n / 8) mod 8)) (String (byte_of (48 + n mod 8)) ""))).
Inductive escapes : string → string → Prop :=
  | escapes_nil : escapes "" ""
  | escapes_plain c s e : c ≠ "\"%char → escapes s e → escapes (String c s) (String c e)
  | escapes_octal c s e : escapes s e → escapes (String c s) (octal (code c) +:+ e).

Definition is_ascii (c : ascii) : bool := (code c <? 128)%nat.

Lemma unescape_plain c rest : c ≠ "\"%char →
  unescape_mountinfo_path (String c rest) = push_char (code c) +:+ unescape_mountinfo_path rest.
Proof.
  intros Hc%Ascii.eqb_neq. destruct rest as [|a [|b [|d rest]]]; cbn [unescape_mountinfo_path]; [done..|]. by rewrite Hc.
Qed.
Lemma octal_digits c :
  let x := byte_of (48 + code c / 64) in let y := byte_of (48 + (code c / 8) mod 8) in let z := byte_of (48 + code c mod 8) in
  is_ascii_digit x && is_ascii_digit y && is_ascii_digit z && (octal_value x y z =? code c)%nat = true.
Proof. revert c. by_byte. Qed.
Lemma unescape_octal c rest :
  unescape_mountinfo_path (octal (code c) +:+ rest) = push_char (code c) +:+ unescape_mountinfo_path rest.
Proof.
  pose proof (octal_digits c) as Hd. cbv zeta in Hd. unfold octal. cbn [String.append].
  set (x := byte_of (48 + code c / 64)) in *. set (y := byte_of (48 + (code c / 8) mod 8)) in *.
  set (z := byte_of (48 + code c mod 8)) in *.
  apply andb_true_iff in Hd as [[[Hx Hy]%andb_true_iff Hz]%andb_true_iff Hv%Nat.eqb_eq].
  change (unescape_mountinfo_path (String "\" (String x (String y (String z rest))))) with
    (if (("\" =? "\")%char && is_ascii_digit x && is_ascii_digit y && is_ascii_digit z)%bool
     then push_char (octal_value x y z) +:+ unescape_mountinfo_path rest
     else push_char (code "\") +:+ unescape_mountinfo_path (String x (String y (String z rest)))).
  by rewrite Hx, Hy, Hz, Hv.
Qed.
Lemma push_char_ascii c : is_ascii c = true → push_char (code c) = String c "".
Proof. revert c. by_byte. Qed.

(** Reading undoes writing, for ASCII paths. *)
Lemma unescape_escapes s e : escapes s e → str_all is_ascii s = true → unescape_mountinfo_path e = s.
Proof.
  induction 1 as [|c s e Hc _ IH|c s e _ IH]; [done|..]; cbn [str_all]; intros [Ha Hs]%andb_true_iff.
  - rewrite unescape_plain, push_char_ascii, IH by done. done.
  - rewrite unescape_octal, push_char_ascii, IH by done. done.
Qed.

Lemma strip_prefix_space sep c s : (c =? " ")%char = false → strip_prefix (String " " sep) (String c s) = None.
Proof. intros H. cbn [strip_prefix]. by rewrite Ascii.eqb_sym, H. Qed.

(** No field but the separator is a lone dash, so the first one found is it. *)
Lemma split_once_word w rest l r :
  free " " w = true → split_once " - " rest = Some (l, r) → split_once " - " (w +:+ rest) = Some (w +:+ l, r).
Proof.
  intros Hw Hs. induction w as [|c w IH]; [done|]. unfold free in Hw. cbn [str_all] in Hw.
  apply andb_true_iff in Hw as [Hc%negb_true_iff Hw]. cbn [String.append split_once].
  rewrite strip_prefix_space by done. by rewrite IH.
Qed.
Lemma word_no_dash (v rest : string) : word v = true → v ≠ "-" → free " " v = true →
  strip_prefix " - " (String " " (v +:+ rest)) = None.
Proof.
  intros [Hg Hne]%word_facts Hd Hf. destruct v as [|c v]; [done|].
  change (strip_prefix " - " (String " " (String c v +:+ rest))) with (strip_prefix "- " (String c (v +:+ rest))).
  cbn [strip_prefix]. destruct (Ascii.eqb_spec "-" c) as [<-|]; [|done]. destruct v as [|d v]; [done|].
  cbn [String.append strip_prefix].
  unfold free in Hf. cbn [str_all] in Hf. apply andb_true_iff in Hf as [_ [Hf%negb_true_iff _]%andb_true_iff].
  by rewrite Ascii.eqb_sym, Hf.
Qed.
Lemma word_free w : word w = true → free " " w = true.
Proof. intros [Hg _]%word_facts. eapply str_all_impl; [|exact Hg]. by_byte. Qed.

Lemma split_once_unwords ws rest :
  Forall (λ w, word w = true ∧ w ≠ "-") ws → ws ≠ [] →
  split_once " - " (unwords ws +:+ " - " +:+ rest) = Some (unwords ws, rest).
Proof.
  induction ws as [|w ws IH]; [done|]. intros Hall _. apply list.Forall_cons in Hall as [[Hw _] Hall].
  destruct ws as [|v ws].
  - cbn [unwords]. rewrite <- (str_app_nil_r w) at 2. apply split_once_word; [by apply word_free|done].
  - change (unwords (w :: v :: ws)) with (w +:+ String " " (unwords (v :: ws))). rewrite str_app_assoc.
    apply split_once_word; [by apply word_free|].
    change (String " " (unwords (v :: ws)) +:+ " - " +:+ rest) with (String " " (unwords (v :: ws) +:+ " - " +:+ rest)).
    apply list.Forall_cons in Hall as [[Hv Hd] Hall] .
    specialize (IH ltac:(by constructor) ltac:(done)).
    cbn [split_once]. replace (strip_prefix " - " (String " " (unwords (v :: ws) +:+ " - " +:+ rest))) with (@None string).
    + by rewrite IH.
    + symmetry. destruct ws as [|u ws]; [by apply word_no_dash; [..|apply word_free]|].
      change (unwords (v :: u :: ws)) with (v +:+ String " " (unwords (u :: ws))). rewrite str_app_assoc.
      by apply word_no_dash; [..|apply word_free].
Qed.

(** A line of the mount table is read as the kernel wrote it: with any optional
    fields before the separator and any options after it, and with the spaces and
    backslashes of its paths escaped, the mount's root, mount point, type and source
    come back, as long as the paths are ASCII. *)
Theorem mountinfo_line_roundtrip mid parent dev root point opts fstype source options root' point' source' :
  escapes root root' → escapes point point' → escapes source source' →
  str_all is_ascii (root +:+ point +:+ source) = true →
  Forall (λ w, word w = true ∧ w ≠ "-") (mid :: parent :: dev :: root' :: point' :: opts) →
  Forall (λ w, word w = true) (fstype :: source' :: options) →
  parse_mountinfo_line (unwords (mid :: parent :: dev :: root' :: point' :: opts) +:+ " - " +:+
                        unwords (fstype :: source' :: options))
    = Some (mkMount root point fstype source).
Proof.
  intros Hr Hp Hs Ha Hbefore Hafter. rewrite !str_all_app in Ha.
  apply andb_true_iff in Ha as [Ha1 [Ha2 Ha3]%andb_true_iff].
  unfold parse_mountinfo_line. rewrite split_once_unwords by done. cbn [mbind option_bind].
  rewrite (split_unwords (mid :: parent :: dev :: root' :: point' :: opts))
    by (eapply list.Forall_impl; [exact Hbefore|by intros ? []]).
  rewrite (split_unwords (fstype :: source' :: options)) by done. cbn [lookup list_lookup mbind option_bind].
  by rewrite (unescape_escapes _ _ Hr), (unescape_escapes _ _ Hp), (unescape_escapes _ _ Hs).
Qed.

Lemma mountinfo_line_roundtrip_witness :
  parse_mountinfo_line "36 35 98:0 / /mnt/my\040disk rw,noatime shared:1 - ext4 /dev/loop0 rw"
    = Some (mkMount "/" "/mnt/my disk" "ext4" "/dev/loop0").
Proof.
  apply (mountinfo_line_roundtrip "36" "35" "98:0" "/" "/mnt/my disk" ["rw,noatime"; "shared:1"] "ext4" "/dev/loop0" ["rw"]
    "/" "/mnt/my\040disk" "/dev/loop0"); [..|reflexivity| |].
  - repeat (apply escapes_plain; [done|]). constructor.
  - do 7 (apply escapes_plain; [done|]). apply (escapes_octal " " "disk" "disk").
    repeat (apply escapes_plain; [done|]). constructor.
  - repeat (apply escapes_plain; [done|]). constructor.
  - repeat (constructor; [by split|]). constructor.
  - repeat (constructor; [done|]). constructor.
Defined.

(** ** What is not ASCII *)

Lemma push_char_length n : String.length (push_char n) = if (n <? 128)%nat then 1%nat else 2%nat.
Proof. unfold push_char. by destruct (n <? 128)%nat. Qed.

(** A path without backslashes grows by one byte for each byte that is not ASCII. *)
Lemma unescape_length s : free "\" s = true →
  (String.length s ≤ String.length (unescape_mountinfo_path s))%nat ∧
  (str_all is_ascii s = false → String.length s < String.length (unescape_mountinfo_path s))%nat.
Proof.
  induction s as [|c s IH]; [done|]. intros Hf. unfold free in Hf. cbn [str_all] in Hf.
  apply andb_true_iff in Hf as [Hc%negb_true_iff%Ascii.eqb_neq Hf]. destruct (IH Hf) as [H1 H2].
  rewrite unescape_plain, str_length_app, push_char_length by done. cbn [String.length str_all].
  unfold is_ascii at 1. destruct (code c <? 128)%nat; cbn; [|lia]. split; [lia|]. intros Ha. specialize (H2 Ha). lia.
Qed.

(** A mount point whose path is not ASCII is not recognized.  The kernel writes such
    bytes as they are; the reader takes each for a character of its own, so the path it
    has in the table is longer than the real one.  A workspace below a directory with
    such a name is mounted, and reads as not mounted. *)
Theorem non_ascii_mountpoint_is_missed :
  (∀ path, free "\" path = true → str_all is_ascii path = false → unescape_mountinfo_path path ≠ path) ∧
  let dir := "/srv/" +:+ bytes [195; 169]%nat +:+ "t" in
  mounts_contain (parse_mountinfo ("36 35 7:0 / " +:+ dir +:+ " rw - ext4 /dev/loop0 rw" +:+ String "010" "")) dir = false ∧
  mounts_contain (parse_mountinfo ("36 35 7:0 / /srv/et rw - ext4 /dev/loop0 rw" +:+ String "010" "")) "/srv/et" = true.
Proof.
  split; [|split; by vm_compute]. intros path Hf Ha He. destruct (unescape_length path Hf) as [_ H]. specialize (H Ha).
  rewrite He in H. lia.
Qed.

(** * Mounts below a directory *)

Section below.
Context (backing_file : string → option string) (entries : list MountInfoEntry) (root : string).

Lemma dedup_sublist previous l : dedup_points previous l `sublist_of` l.
Proof.
  revert previous. induction l as [|e l IH]; intros previous; cbn; [done|].
  destruct (match previous with Some p => _ | None => _ end); [by apply sublist_cons|by apply sublist_skip].
Qed.
Lemma dedup_complete previous l e : e ∈ l →
  (∃ p, previous = Some p ∧ path_eq (mountpoint e) p = true) ∨
  ∃ e', e' ∈ dedup_points previous l ∧ path_eq (mountpoint e) (mountpoint e') = true.
Proof.
  revert previous. induction l as [|x l IH]; intros previous Hin; [by apply not_elem_of_nil in Hin|]. cbn.
  destruct (match previous with Some p => _ | None => _ end) eqn:E.
  - destruct previous as [p|]; [|done]. apply elem_of_cons in Hin as [->|Hin]; [by left; exists p|by apply IH].
  - right. apply elem_of_cons in Hin as [->|Hin].
    { exists x. split; [by left|]. unfold path_eq. by apply bool_decide_eq_true. }
    destruct (IH (Some (mountpoint x)) Hin) as [(p & [= <-] & Hp)|(e' & He' & Hp)].
    + exists x. split; [by left|done].
    + exists e'. split; [by right|done].
Qed.

Lemma StronglySorted_sublist {A} (R : A → A → Prop) l k : l `sublist_of` k → StronglySorted R k → StronglySorted R l.
Proof.
  induction 1 as [|x l k Hs IH|x l k Hs IH]; intros Hk; [done|..]; apply StronglySorted_inv in Hk as [Hk Hx]; [|by apply IH].
  constructor; [by apply IH|]. rewrite list.Forall_forall in *. intros y Hy. apply Hx. by eapply elem_of_sublist.
Qed.

Lemma deeper_total a b : deeper a b = true ∨ deeper b a = true.
Proof. unfold deeper. rewrite !Nat.leb_le. lia. Qed.

Lemma owned_foreign_perm {A} (f : A → bool) (l : list A) :
  filter (λ x, negb (f x) = true) l ++ filter (λ x, f x = true) l ≡ₚ l.
Proof.
  induction l as [|x l IH]; [done|]. rewrite !filter_cons. destruct (f x); cbn.
  - rewrite decide_False, decide_True by done. rewrite <- Permutation_middle. by rewrite IH.
  - rewrite decide_True, decide_False by done. cbn. by rewrite IH.
Qed.
End below.

(** The mounts below a directory are taken down from the inside out, and each is
    attributed to exactly one side.  The list holds a mount for every mount point at or
    below the directory, and nothing else; a mount comes before the ones it is mounted
    in; the mounts reported as Enclave's and as foreign together are the list, and without
    a state directory to prove it by, none is Enclave's. *)
Theorem mounts_below_inside_out backing_file entries root :
  let l := at_or_below_entries entries root in
  (∀ e, e ∈ l → e ∈ entries ∧ path_starts_with (mountpoint e) root = true) ∧
  (∀ e, e ∈ entries → path_starts_with (mountpoint e) root = true →
     ∃ e', e' ∈ l ∧ path_eq (mountpoint e) (mountpoint e') = true) ∧
  StronglySorted (λ a b, depth b ≤ depth a)%nat l ∧
  foreign_at_or_below backing_file entries root ++ owned_at_or_below backing_file entries root ≡ₚ (describe_mount <$> l) ∧
  (enclave_state_root root = None → owned_at_or_below backing_file entries root = []).
Proof.
  intros l. set (k := filter (λ e, path_starts_with (mountpoint e) root = true) entries).
  assert (sort_by deeper k ≡ₚ k) as Hperm by apply sort_by_perm. split; [|split; [|split; [|split]]].
  - intros e He. eapply elem_of_sublist in He; [|apply dedup_sublist]. change (e ∈ sort_by deeper k) in He. rewrite Hperm in He.
    unfold k in He. apply list_elem_of_filter in He as [? ?]. done.
  - intros e He Hp. destruct (dedup_complete None (sort_by deeper k) e) as [(p & [=] & _)|H]; [|done].
    rewrite Hperm. apply list_elem_of_filter. done.
  - eapply StronglySorted_sublist; [apply dedup_sublist|].
    assert (StronglySorted (λ a b, deeper a b = true) (sort_by deeper k)) as Hs.
    { apply sort_by_sorted; [apply deeper_total|]. intros a b c. unfold deeper. rewrite !Nat.leb_le. lia. }
    change (StronglySorted (λ a b, depth b ≤ depth a)%nat (sort_by deeper k)).
    revert Hs. generalize (sort_by deeper k). clear. intros m Hs. induction Hs as [|x r Hr IH Hx]; [constructor|]. constructor; [done|].
    eapply list.Forall_impl; [exact Hx|]. intros y. unfold deeper. by rewrite Nat.leb_le.
  - unfold foreign_at_or_below, owned_at_or_below, foreign_mount. fold l. destruct (enclave_state_root root) as [state|].
    + rewrite <- fmap_app. apply fmap_Permutation, owned_foreign_perm.
    + rewrite app_nil_r. apply fmap_Permutation. cbn.
      induction l as [|x r IH]; [done|]. rewrite filter_cons, decide_True by done. by rewrite IH.
  - intros Hn. unfold owned_at_or_below. by rewrite Hn.
Qed.
