(* ===== verification/TokenStore.v ===== *)
(** * The token store, its audit log and the injection of tokens (src/src/auth/storage, audit.rs,
    manager.rs, inject.rs, src/src/fsutil)

    The files of the state directory and of a workspace's tree are one map from paths to nodes with owner
    and mode; paths are resolved through links as in [Copy].  Every system call is numbered, and the host
    decides by its number whether it works, so the theorems cover every failure. *)
From S2P Require Import Prelude RustStr Paths Records ProcFs Text FileTree Auth Copy.
#[local] Open Scope nat_scope.

(** ** Files with owner and mode *)

Record fnode := mkNode { kind : hnode; uid : Z; mode : Z; mtime : Z }.
Record store := mkStore { files : gmap path fnode; calls : nat }.
Record store_host := mkStoreHost {
  steps : nat;                         (** how many steps a resolution takes at most *)
  euid : Z;
  new_dir_mode : Z;                    (** the mode of a created directory under the umask *)
  works : nat → bool;
  clock : nat → Z;
  torn : nat → nat;                    (** how much a failing write leaves *)
  unique : nat → string;               (** process, time and random part of a temporary name *)
  timestamp : nat → string }.

Definition is_dir (n : fnode) : bool := bool_decide (kind n = HDir).
Definition is_file (n : fnode) : bool := match kind n with HFile _ => true | _ => false end.
Definition is_symlink (n : fnode) : bool := match kind n with HLink _ => true | _ => false end.
Definition kinds (m : gmap path fnode) : host_fs := kind <$> m.
Definition with_mode (m : Z) (n : fnode) : fnode := mkNode (kind n) (uid n) m (mtime n).

Section host.
Context (h : store_host).

(** A system call; its number when it works. *)
Definition attempt (message : string) : stm store nat := λ st,
  (if works h (calls st) then Ok (calls st) else bail message, mkStore (files st) (S (calls st))).
Definition on_map (f : gmap path fnode → gmap path fnode) : stm store unit := modify (λ st, mkStore (f (files st)) (calls st)).

Definition real (st : store) (p : path) : option path := resolve (steps h) (kinds (files st)) [] p.
Definition node_at (st : store) (p : path) : option fnode := q ← real st p; files st !! q.
Definition path_exists (st : store) (p : path) : bool := bool_decide (is_Some (node_at st p)).
(** The last component is not followed. *)
Definition link_node (st : store) (p : path) : option fnode :=
  match list.last p with
  | None => files st !! []
  | Some c => q ← real st (removelast p); files st !! (q ++ [c])
  end.

Definition canonicalize (p : path) : stm store path :=
  attempt "failed to canonicalize";;
  st ← get;
  match real st p with
  | Some q => assert (bool_decide (is_Some (files st !! q))) "failed to canonicalize";; mret q
  | None => throw "failed to canonicalize"
  end.
Definition symlink_metadata (p : path) : stm store fnode :=
  attempt "failed to stat";; st ← get; lift (ok_or (link_node st p) (plain "failed to stat")).
Definition set_permissions (p : path) (m : Z) : stm store unit :=
  attempt "failed to set mode";;
  st ← get;
  match real st p with Some q => on_map (alter (with_mode m) q) | None => throw "failed to set mode" end.
Definition remove_file (p : path) : stm store unit :=
  attempt "failed to remove";;
  st ← get;
  match list.last p, real st (removelast p) with
  | Some c, Some q =>
      assert (match files st !! (q ++ [c]) with Some n => negb (is_dir n) | None => false end) "failed to remove";;
      on_map (delete (q ++ [c]))
  | _, _ => throw "failed to remove"
  end.

(** [create_dir_all] below [base]. *)
Fixpoint make_dirs (base rest : path) : stm store unit :=
  match rest with
  | [] => mret tt
  | c :: rest' =>
      st ← get;
      match resolve (steps h) (kinds (files st)) base [c] with
      | None => throw "failed to create directory"
      | Some q =>
          match files st !! q with
          | Some n => assert (is_dir n) "failed to create directory";; make_dirs q rest'
          | None =>
              assert (bool_decide (q = base ++ [c])) "failed to create directory";;
              k ← attempt "failed to create directory";
              on_map (insert q (mkNode HDir (euid h) (new_dir_mode h) (clock h k)));;
              make_dirs q rest'
          end
      end
  end.
Definition create_dir_all (p : path) : stm store unit := make_dirs [] p.

(** ** fsutil: permissions.rs, paths.rs, mod.rs *)

Definition ensure_secure_dir (p : path) : stm store unit :=
  create_dir_all p;;
  m ← symlink_metadata p;
  assert (is_dir m) "is not a directory";;
  assert (negb (is_symlink m)) "must not be a symlink";;
  assert (bool_decide (uid m = euid h)) "owner uid does not match current uid";;
  let md := Z.land (mode m) 4095 in
  assert (negb (negb (Z.land md 512 =? 0)%Z && negb (Z.land md 2 =? 0)%Z)) "has sticky bit set and is world-writable";;
  if negb (Z.land md 18 =? 0)%Z then set_permissions p 448 else mret tt.

Definition ensure_path_within (base_dir candidate : path) : stm store path :=
  base ← canonicalize base_dir;
  st ← get;
  target ← (if path_exists st candidate then canonicalize candidate
            else match list.last candidate with
                 | None => throw "has no parent directory"
                 | Some c => parent ← canonicalize (removelast candidate);
                             assert (normal c) "has no final path component";; mret (parent ++ [c])
                 end);
  assert (bool_decide (is_Some (strip_path base target))) "escapes base directory";;
  mret target.

(** The name of a temporary file beside [c]. *)
Definition temporary_path_for (k : nat) (c : string) : string := "." +:+ c +:+ ".tmp." +:+ unique h k.
Inductive Durability := Required | BestEffort.
Definition set_data (q : path) (d : string) : stm store unit :=
  on_map (alter (λ n, mkNode (HFile d) (uid n) (mode n) (mtime n)) q).
(** The temporary file, whole and with its mode; answers it and the path it is to be renamed to. *)
Definition fill_temp (p : path) (content : string) (m : Z) (durability : Durability) : stm store (path * path) :=
  c ← lift (ok_or (list.last p) (plain "has no parent directory"));
  let parent := removelast p in
  create_dir_all parent;;
  k ← attempt "failed to create temp file";
  st ← get;
  q ← lift (ok_or (real st parent) (plain "failed to create temp file"));
  let temp := q ++ [temporary_path_for k c] in
  assert (bool_decide (files st !! temp = None)) "failed to create temp file";;
  assert (match files st !! q with Some n => is_dir n | None => false end) "failed to create temp file";;
  on_map (insert temp (mkNode (HFile "") (euid h) m (clock h k)));;
  w ← catch (attempt "failed to write temp file");
  set_data temp (match w with Ok _ => content | Err _ => str_take (torn h k) content end);;
  lift w;;
  (match durability with Required => attempt "failed to fsync temp file";; mret tt | BestEffort => mret tt end);;
  attempt "failed to set mode";; on_map (alter (with_mode m) temp);;
  mret (temp, q ++ [c]).
Definition rename_temp (temp target : path) : stm store unit :=
  r ← catch (attempt "failed to atomically rename");
  st ← get;
  let blocked := match files st !! target with Some n => is_dir n | None => false end in
  if is_ok r && negb blocked
  then on_map (λ fs, match fs !! temp with Some n => <[target := n]> (delete temp fs) | None => fs end)
  else catch (attempt "failed to remove temp file" ≫= λ _, on_map (delete temp));; throw "failed to atomically rename".
Definition sync_parent (durability : Durability) : stm store unit :=
  match durability with
  | Required => attempt "failed to open directory";; attempt "failed to fsync directory";; mret tt
  | BestEffort => mret tt
  end.
Definition write_file_atomic_with (p : path) (content : string) (m : Z) (durability : Durability) : stm store unit :=
  filled ← fill_temp p content m durability;
  rename_temp filled.1 filled.2;;
  sync_parent durability.
Definition write_file_atomic (p : path) (content : string) (m : Z) : stm store unit := write_file_atomic_with p content m Required.

(** ** Permissions (storage/permissions.rs) *)

Definition validate_token_permissions (p : path) : stm store unit :=
  m ← symlink_metadata p;
  assert (negb (is_symlink m)) "refusing to use symlink token file";;
  assert (is_file m) "token path is not a regular file";;
  assert (bool_decide (uid m = euid h)) "token file must be owned by uid";;
  assert (Z.land (mode m) 511 =? 384)%Z "token file must have mode 0600".
Definition ensure_private_dir (p : path) : stm store unit :=
  create_dir_all p;;
  m ← symlink_metadata p;
  assert (negb (is_symlink m)) "must not be a symlink";;
  assert (is_dir m) "is not a directory";;
  assert (bool_decide (uid m = euid h)) "must be owned by uid";;
  if negb (Z.land (mode m) 511 =? 448)%Z then set_permissions p 448 else mret tt.
Definition validate_private_dir (p : path) : stm store unit :=
  m ← symlink_metadata p;
  assert (negb (is_symlink m)) "must not be a symlink";;
  assert (is_dir m) "is not a directory";;
  assert (bool_decide (uid m = euid h)) "must be owned by uid";;
  assert (Z.land (mode m) 511 =? 448)%Z "must have mode 0700".

(** ** Where tokens live (storage/paths.rs) *)

Definition AUTH_DIR_NAME : string := "auth".
Definition USERS_DIR_NAME : string := "users".
Definition auth_dir_if_exists (state_dir : path) : stm store (option path) :=
  st ← get;
  if negb (path_exists st state_dir) then mret None
  else
    base ← canonicalize state_dir;
    st ← get;
    if negb (path_exists st (base ++ [AUTH_DIR_NAME])) then mret None
    else auth_dir ← ensure_path_within base (base ++ [AUTH_DIR_NAME]); mret (Some auth_dir).
Definition ensure_auth_dir (state_dir : path) : stm store path :=
  create_dir_all state_dir;;
  ensure_secure_dir state_dir;;
  base ← canonicalize state_dir;
  create_dir_all (base ++ [AUTH_DIR_NAME]);;
  ensure_secure_dir (base ++ [AUTH_DIR_NAME]);;
  ensure_path_within base (base ++ [AUTH_DIR_NAME]).
Definition token_dir_if_exists (state_dir : path) (scope : TokenScope) : stm store (option path) :=
  found ← auth_dir_if_exists state_dir;
  match found with
  | None => mret None
  | Some auth_dir =>
      dir ← match scope with
            | SharedScope => mret (Some auth_dir)
            | UserScope u =>
                lift (validate_user_id u);;
                let user_dir := auth_dir ++ [USERS_DIR_NAME; u] in
                st ← get;
                if negb (path_exists st user_dir) then mret None
                else validate_private_dir user_dir;; mret (Some user_dir)
            end;
      match dir with
      | None => mret None
      | Some d => base ← canonicalize state_dir; found ← ensure_path_within base d; mret (Some found)
      end
  end.
Definition ensure_token_dir (state_dir : path) (scope : TokenScope) : stm store path :=
  auth_dir ← ensure_auth_dir state_dir;
  base ← canonicalize state_dir;
  dir ← match scope with
        | SharedScope => mret auth_dir
        | UserScope u =>
            lift (validate_user_id u);;
            ensure_private_dir (auth_dir ++ [USERS_DIR_NAME]);;
            ensure_private_dir (auth_dir ++ [USERS_DIR_NAME; u]);;
            mret (auth_dir ++ [USERS_DIR_NAME; u])
        end;
  ensure_path_within base dir.
Definition token_path (dir : path) (name : string) : result path :=
  validate_token_name name;; Ok (dir ++ [name +:+ ".token"]).

(** ** Tokens (storage/mod.rs) *)

Inductive StoreOutcome := Stored (p : path) | Exists (p : path).
Definition outcome_stored (o : StoreOutcome) : bool := match o with Stored _ => true | Exists _ => false end.
Definition store_token (state_dir : path) (scope : TokenScope) (name token : string) (force : bool) : stm store StoreOutcome :=
  lift (validate_token_name name);;
  dir ← ensure_token_dir state_dir scope;
  p ← lift (token_path dir name);
  st ← get;
  if path_exists st p && negb force then mret (Exists p)
  else write_file_atomic p token 384;; mret (Stored p).

Definition load_token (state_dir : path) (scope : TokenScope) (name : string) : stm store (option string) :=
  lift (validate_token_name name);;
  found ← token_dir_if_exists state_dir scope;
  match found with
  | None => mret None
  | Some dir =>
      p ← lift (token_path dir name);
      st ← get;
      if negb (path_exists st p) then mret None
      else
        validate_token_permissions p;;
        attempt "failed to read token file";;
        st ← get;
        match node_at st p with
        | Some (mkNode (HFile raw) _ _ _) => mret (Some (trim_end_newlines raw))
        | _ => throw "failed to read token file"
        end
  end.
Definition token_exists (state_dir : path) (scope : TokenScope) (name : string) : stm store bool :=
  lift (validate_token_name name);;
  found ← token_dir_if_exists state_dir scope;
  match found with
  | None => mret false
  | Some dir => p ← lift (token_path dir name); st ← get; mret (path_exists st p)
  end.
Definition delete_token (state_dir : path) (scope : TokenScope) (name : string) : stm store bool :=
  lift (validate_token_name name);;
  found ← token_dir_if_exists state_dir scope;
  match found with
  | None => mret false
  | Some dir =>
      p ← lift (token_path dir name);
      st ← get;
      if negb (path_exists st p) then mret false else remove_file p;; mret true
  end.

(** The tokens of a namespace; [order] is the order of the directory's entries. *)
Record StoredToken := mkStored { stored_name : string; stored_at : Z }.
Definition strip_suffix (suffix s : string) : option string :=
  let n := String.length s - String.length suffix in
  if bool_decide (String.substring n (String.length suffix) s = suffix) && (String.length suffix <=? String.length s)
  then Some (String.substring 0 n s) else None.
Definition entries_of (order : list string → list string) (dir : path) (st : store) : list string :=
  order (omap (λ kx, match strip_path dir kx.1 with Some [n] => Some n | _ => None end) (map_to_list (files st))).
Fixpoint list_loop (dir : path) (l : list string) : stm store (list StoredToken) :=
  match l with
  | [] => mret []
  | n :: rest =>
      match strip_suffix ".token" n with
      | None => list_loop dir rest
      | Some token_name =>
          checked ← catch (lift (validate_token_name token_name);; validate_token_permissions (dir ++ [n]));
          match checked with
          | Err _ => list_loop dir rest
          | Ok _ =>
              attempt "failed to stat token file";;
              st ← get;
              m ← lift (ok_or (node_at st (dir ++ [n])) (plain "failed to stat token file"));
              others ← list_loop dir rest;
              mret (mkStored token_name (mtime m) :: others)
          end
      end
  end.
Fixpoint dedup_tokens (l : list StoredToken) : list StoredToken :=
  match l with
  | a :: ((b :: _) as rest) => if bool_decide (stored_name a = stored_name b) then
        match dedup_tokens rest with _ :: rest' => a :: rest' | [] => [a] end else a :: dedup_tokens rest
  | l => l
  end.
Definition list_tokens (order : list string → list string) (state_dir : path) (scope : TokenScope) : stm store (list StoredToken) :=
  found ← token_dir_if_exists state_dir scope;
  match found with
  | None => mret []
  | Some dir =>
      attempt "failed to read auth directory";;
      st ← get;
      l ← list_loop dir (entries_of order dir st);
      mret (dedup_tokens (sort_by (λ x y, str_le (stored_name x) (stored_name y)) l))
  end.

(** ** The audit log (audit.rs) *)

Definition AUDIT_LOG_NAME : string := "audit.log".
Inductive AuditAction := Store | Revoke | Inject.
Record AuditEvent := mkEvent {
  ts : string; action : AuditAction; user : option string; provider : string; in_sandbox : option string; in_workspace : option string }.
Definition for_namespace (k : nat) (a : AuditAction) (u : option string) (p : string) : AuditEvent := mkEvent (timestamp h k) a u p None None.
Definition for_workspace (k : nat) (a : AuditAction) (u : option string) (p sandbox workspace : string) : AuditEvent :=
  mkEvent (timestamp h k) a u p (Some sandbox) (Some workspace).
Definition action_name (a : AuditAction) : string := match a with Store => "store" | Revoke => "revoke" | Inject => "inject" end.
Definition json_text (s : string) : string := String "034" (json_escape s +:+ String "034" "").
Definition json_pair (k v : string) : string := json_text k +:+ ":" +:+ json_text v.
(** One line of the log; absent fields are left out. *)
Definition event_json (e : AuditEvent) : string :=
  let optional k (v : option string) := match v with Some v => [json_pair k v] | None => [] end in
  "{" +:+ String.concat "," ([json_pair "ts" (ts e); json_pair "action" (action_name (action e))] ++ optional "user" (user e) ++
    [json_pair "provider" (provider e)] ++ optional "sandbox" (in_sandbox e) ++ optional "workspace" (in_workspace e)) +:+ "}".
Definition event_lines (l : list AuditEvent) : string := foldr (λ e rest, event_json e +:+ String "010" rest) "" l.

Definition validate_audit_log (p : path) : stm store unit :=
  m ← symlink_metadata p;
  assert (negb (is_symlink m)) "refusing to append to symlink audit log";;
  assert (is_file m) "audit log is not a regular file";;
  assert (bool_decide (uid m = euid h)) "audit log must be owned by uid";;
  assert (Z.land (mode m) 511 =? 384)%Z "audit log must have mode 0600".
(** Opening for appending follows a link and creates the file it leads to. *)
Definition append_file (p : path) (payload : string) : stm store unit :=
  k ← attempt "failed to open audit log";
  st ← get;
  q ← lift (ok_or (real st p) (plain "failed to open audit log"));
  (match files st !! q with
   | None => assert (match files st !! removelast q with Some n => is_dir n | None => false end) "failed to open audit log";;
             on_map (insert q (mkNode (HFile "") (euid h) 384 (clock h k)))
   | Some n => assert (is_file n) "failed to open audit log"
   end);;
  st ← get;
  let old := match files st !! q with Some (mkNode (HFile d) _ _ _) => d | _ => "" end in
  w ← catch (attempt "failed to append to audit log");
  set_data q (old +:+ match w with Ok _ => payload | Err _ => str_take (torn h k) payload end);;
  lift w;;
  attempt "failed to flush audit log";;
  mret tt.
Definition record_many (state_dir : path) (events : list AuditEvent) : stm store unit :=
  if bool_decide (events = []) then mret tt
  else
    auth_dir ← ensure_auth_dir state_dir;
    let p := auth_dir ++ [AUDIT_LOG_NAME] in
    st ← get;
    (if path_exists st p then validate_audit_log p else mret tt);;
    append_file p (event_lines events).

(** ** The manager (manager.rs) *)

Definition manager_store_token (state_dir : path) (scope : TokenScope) (name token : string) (force : bool) : stm store StoreOutcome :=
  outcome ← store_token state_dir scope name token force;
  st ← get;
  (if outcome_stored outcome then record_many state_dir [for_namespace (calls st) Store (user_id scope) name] else mret tt);;
  mret outcome.
Definition manager_delete_token (state_dir : path) (scope : TokenScope) (name : string) : stm store bool :=
  removed ← delete_token state_dir scope name;
  st ← get;
  (if removed : bool then record_many state_dir [for_namespace (calls st) Revoke (user_id scope) name] else mret tt);;
  mret removed.

(** ** Into a workspace (inject.rs) *)

(** [Some pid] for [/proc/<pid>/root]. *)
Definition is_workspace_namespace_root (p : string) : option string :=
  match path_components p with
  | [""; "proc"; pid; "root"] => if negb (bool_decide (pid = "")) && str_all is_ascii_digit pid then Some pid else None
  | _ => None
  end.
Fixpoint remove_providers (auth_dir : path) (l : list string) : stm store unit :=
  match l with
  | [] => mret tt
  | provider :: rest =>
      p ← lift (token_path auth_dir provider);
      st ← get;
      (if path_exists st p then remove_file p else mret tt);;
      remove_providers auth_dir rest
  end.
Fixpoint remove_env_files (env_dir : path) (l : list string) : stm store unit :=
  match l with
  | [] => mret tt
  | n :: rest =>
      attempt "failed to read directory";;
      st ← get;
      (if match node_at st (env_dir ++ [n]) with Some x => is_file x | None => false end then remove_file (env_dir ++ [n]) else mret tt);;
      remove_env_files env_dir rest
  end.
Fixpoint write_tokens (auth_dir : path) (l : list WorkspaceAuthToken) : stm store unit :=
  match l with
  | [] => mret tt
  | t :: rest =>
      p ← lift (token_path auth_dir (Auth.name t));
      write_file_atomic_with p (Auth.token t) 256 BestEffort;;
      write_tokens auth_dir rest
  end.
Fixpoint write_env_tokens (env_dir : path) (l : list WorkspaceAuthToken) : stm store unit :=
  match l with
  | [] => mret tt
  | t :: rest =>
      write_file_atomic_with (env_dir ++ [env_var t]) (Auth.token t) 256 BestEffort;;
      write_env_tokens env_dir rest
  end.
Definition write_workspace_auth (order : list string → list string) (workspace_rootfs : string)
    (tokens env_tokens : list WorkspaceAuthToken) : stm store unit :=
  assert (starts_with "/" workspace_rootfs) "workspace rootfs path must be absolute";;
  pid ← lift (ok_or (is_workspace_namespace_root workspace_rootfs) (plain "workspace rootfs path must be /proc/<pid>/root"));
  let auth_dir := ["proc"; pid; "root"; "run"; "enclave"; "auth"] in
  let env_dir := ["proc"; pid; "root"; "run"; "enclave"; "env"] in
  create_dir_all auth_dir;;
  create_dir_all env_dir;;
  remove_providers auth_dir supported_providers;;
  attempt "failed to read directory";;
  st ← get;
  q ← lift (ok_or (real st env_dir) (plain "failed to read directory"));
  remove_env_files env_dir (entries_of order q st);;
  write_tokens auth_dir tokens;;
  write_env_tokens env_dir env_tokens.

(** [WorkspaceAuthTarget] *)
Record WorkspaceAuthTarget := mkTarget { sandbox_id : string; workspace_id : string; owner : option string }.
(** Every load of a resolution has its own place among the calls. *)
Definition inject_workspace_auth (order : list string → list string) (state_dir : path) (at_call : TokenScope → string → nat)
    (workspace_rootfs : string) (target : WorkspaceAuthTarget) (auth_providers env_tokens : list string) : stm store (list WorkspaceAuthToken) :=
  st ← get;
  let load scope name := (load_token state_dir scope name (mkStore (files st) (at_call scope name))).1 in
  let '(providers, env) := injectable load (owner target) auth_providers env_tokens in
  write_workspace_auth order workspace_rootfs providers env;;
  mret (merge_channels providers env).
Definition audit_inject (state_dir : path) (target : WorkspaceAuthTarget) (providers : list string) : stm store unit :=
  st ← get;
  record_many state_dir ((λ p, for_workspace (calls st) Inject (owner target) p (sandbox_id target) (workspace_id target)) <$> providers).
Definition sync_workspace_auth (order : list string → list string) (state_dir : path) (at_call : TokenScope → string → nat)
    (workspace_rootfs : string) (target : WorkspaceAuthTarget) (auth_providers env_tokens : list string) : stm store unit :=
  injected ← inject_workspace_auth order state_dir at_call workspace_rootfs target auth_providers env_tokens;
  audit_inject state_dir target (Auth.name <$> injected).
End host.

(** * Lemmas *)

(** ** Resolution without links *)

Lemma resolve_clear (fuel : nat) (m : host_fs) (base q : path) : forallb normal q = true → unlinked m base q = true → length q < fuel →
  resolve fuel m base q = Some (base ++ q).
Proof.
  revert base q. induction fuel as [|fuel IH]; intros base q Hn Hu Hl; [lia|]. destruct q as [|c q]; cbn [resolve]; [by rewrite app_nil_r|].
  cbn [forallb unlinked length] in *. apply andb_true_iff in Hn as [(H1 & H2 & H3)%normal_true Hn], Hu as [Hc Hu].
  rewrite H1, H2, H3. destruct (m !! (base ++ [c])) as [[]|]; try done; rewrite IH by (done || lia); by rewrite <- app_assoc.
Qed.

Definition clear (st : store) (q : path) : Prop := forallb normal q = true ∧ unlinked (kinds (files st)) [] q = true.
Lemma clear_app (st : store) (q r : path) : clear st (q ++ r) ↔ clear st q ∧ forallb normal r = true ∧ unlinked (kinds (files st)) q r = true.
Proof. unfold clear. rewrite forallb_app, unlinked_app, !andb_true_iff. cbn. tauto. Qed.
Lemma clear_snoc (st : store) (q : path) (c : string) : clear st (q ++ [c]) ↔ clear st q ∧ normal c = true ∧ is_link (kinds (files st) !! (q ++ [c])) = false.
Proof. rewrite clear_app. cbn. rewrite !andb_true_r, negb_true_iff. tauto. Qed.

(** ** What a sequence of calls may do

    No link appears, a directory stays one under its owner and with its mode or 0700, and only the paths of
    [A] change. *)
Definition stays_dir (n n' : fnode) : Prop := kind n' = HDir ∧ uid n' = uid n ∧ (mode n' = mode n ∨ mode n' = 448%Z).
Record evolves (A : path → Prop) (st st' : store) : Prop := mkEvolves {
  ev_links : ∀ k, is_link (kinds (files st') !! k) = true → is_link (kinds (files st) !! k) = true;
  ev_dirs : ∀ k n, files st !! k = Some n → kind n = HDir → ∃ n', files st' !! k = Some n' ∧ stays_dir n n';
  ev_frame : ∀ k, ¬ A k → files st' !! k = files st !! k }.
Lemma evolves_same (A : path → Prop) (st st' : store) : files st' = files st → evolves A st st'.
Proof. intros E. split; rewrite E; [done| |done]. intros k n Hk Hd. exists n. repeat split; auto. Qed.
Lemma ev_trans (A : path → Prop) (st1 st2 st3 : store) : evolves A st1 st2 → evolves A st2 st3 → evolves A st1 st3.
Proof.
  intros [L1 D1 F1] [L2 D2 F2]. split; [auto| |].
  - intros k n Hk Hd. destruct (D1 k n Hk Hd) as (n2 & Hk2 & Hd2 & Hu2 & Hm2). destruct (D2 k n2 Hk2 Hd2) as (n3 & Hk3 & Hd3 & Hu3 & Hm3).
    exists n3. split; [done|]. split; [done|]. split; [congruence|]. destruct Hm3 as [->|]; auto.
  - intros k Hk. rewrite F2, F1; done.
Qed.
Lemma evolves_weaken (A B : path → Prop) (st st' : store) : (∀ k, A k → B k) → evolves A st st' → evolves B st st'.
Proof. intros HAB [L D F]. split; [done..|]. intros k Hk. apply F. auto. Qed.
Lemma unlinked_evolves (A : path → Prop) (st st' : store) (base q : path) : evolves A st st' → unlinked (kinds (files st)) base q = true → unlinked (kinds (files st')) base q = true.
Proof.
  intros Hev. revert base. induction q as [|c q IH]; intros base; [done|]. cbn [unlinked]. rewrite !andb_true_iff, !negb_true_iff.
  intros [Hc Hq]. split; [|by apply IH]. apply not_true_iff_false. intros Hl%(ev_links _ _ _ Hev). congruence.
Qed.
Lemma clear_evolves (A : path → Prop) (st st' : store) (q : path) : evolves A st st' → clear st q → clear st' q.
Proof. intros Hev [Hn Hu]. split; [done|]. by eapply unlinked_evolves. Qed.

Section acts.
Context (h : store_host) (A : path → Prop).

Definition does {X} (st : store) (m : stm store X) (Q : X → store → Prop) : Prop :=
  let '(r, st') := m st in evolves A st st' ∧ ∀ a, r = Ok a → Q a st'.
Lemma does_bind {X Y} (st : store) (m : stm store X) (f : X → stm store Y) Q R : does st m Q →
  (∀ a st', Q a st' → evolves A st st' → does st' (f a) R) → does st (m ≫= f) R.
Proof.
  unfold does, mbind, stm_bind. intros Hm Hf. destruct (m st) as [[a|e] st1]; destruct Hm as [Hev Hq]; [|by split].
  specialize (Hf a st1 (Hq a eq_refl) Hev). destruct (f a st1) as [r st2]. destruct Hf as [Hev2 Hr]. split; [by eapply ev_trans|done].
Qed.
Lemma does_weaken {X} (st : store) (m : stm store X) (Q R : X → store → Prop) : does st m Q →
  (∀ a st', Q a st' → evolves A st st' → R a st') → does st m R.
Proof. unfold does. destruct (m st) as [r st']. intros [? ?] ?. split; [done|]. auto. Qed.
Lemma does_ret {X} (st : store) (a : X) (Q : X → store → Prop) : Q a st → does st (mret a) Q.
Proof. intros HQ. split; [by apply evolves_same|]. by intros ? [= <-]. Qed.
Lemma does_lift {X} (st : store) (r : result X) (Q : X → store → Prop) : (∀ a, r = Ok a → Q a st) → does st (lift r) Q.
Proof. intros HQ. split; [by apply evolves_same|done]. Qed.
Lemma does_throw {X} (st : store) e (Q : X → store → Prop) : does st (throw e) Q.
Proof. by apply does_lift. Qed.
Lemma does_assert (st : store) b e (Q : unit → store → Prop) : (b = true → Q tt st) → does st (assert b e) Q.
Proof. destruct b; intros HQ; [by apply does_ret, HQ|apply does_throw]. Qed.
Lemma does_get {Y} (st : store) (f : store → stm store Y) R : does st (f st) R → does st (get ≫= f) R.
Proof. done. Qed.
Lemma does_attempt (st : store) e (Q : nat → store → Prop) : (∀ k st', files st' = files st → Q k st') → does st (attempt h e) Q.
Proof. intros HQ. split; [by apply evolves_same|]. intros a _. by apply HQ. Qed.
Lemma does_catch {X} (st : store) (m : stm store X) (Q : result X → store → Prop) (R : X → store → Prop) : does st m R →
  (∀ r st', (∀ a, r = Ok a → R a st') → evolves A st st' → m st = (r, st') → Q r st') → does st (catch m) Q.
Proof.
  unfold does, catch. destruct (m st) as [r st'] eqn:E. intros [Hev HR] HQ. split; [done|]. intros ? [= <-]. by apply HQ.
Qed.

(** A change of one path that is no directory, or that stays one. *)
Lemma does_map (st : store) (f : gmap path fnode → gmap path fnode) (q : path) (Q : unit → store → Prop) : A q →
  (∀ k, k ≠ q → f (files st) !! k = files st !! k) →
  is_link (kinds (f (files st)) !! q) = false ∨ f (files st) !! q = files st !! q →
  (∀ n, files st !! q = Some n → kind n = HDir → ∃ n', f (files st) !! q = Some n' ∧ stays_dir n n') →
  (∀ st', files st' = f (files st) → Q tt st') → does st (on_map f) Q.
Proof.
  intros HA Hf Hl Hd HQ. split; [|by intros [] _; apply HQ]. split; cbn [files].
  - intros k. destruct (decide (k = q)) as [->|Hk]; [|unfold kinds; by rewrite !lookup_fmap, Hf].
    destruct Hl as [Hl|Hl]; [congruence|]. unfold kinds. by rewrite !lookup_fmap, Hl.
  - intros k n Hk Hn. destruct (decide (k = q)) as [->|Hne]; [by apply Hd|]. exists n. rewrite Hf by done. repeat split; auto.
  - intros k Hk. apply Hf. by intros ->.
Qed.

Lemma real_clear (st : store) (p : path) : clear st p → length p < steps h → real h st p = Some p.
Proof. intros [Hn Hu] Hl. by apply resolve_clear. Qed.
Lemma real_sound (st : store) (p q : path) : clear st p → real h st p = Some q → q = p.
Proof. intros [Hn Hu] Hr. by apply resolve_unlinked in Hr. Qed.
Lemma link_node_clear (st : store) (p : path) m : clear st (removelast p) → link_node h st p = Some m → files st !! p = Some m.
Proof.
  unfold link_node. intros Hc. destruct (list.last p) as [c|] eqn:El.
  - intros (q & Hq & Hm)%bind_Some. apply real_sound in Hq as ->; [|done]. apply last_Some in El as [p' ->]. by rewrite removelast_last in Hm.
  - apply last_None in El as ->. done.
Qed.
Lemma does_canonicalize (st : store) (p : path) : clear st p →
  does st (canonicalize h p) (λ q st', q = p ∧ files st' = files st ∧ is_Some (files st !! p)).
Proof.
  intros Hc. eapply does_bind; [by apply (does_attempt st _ (λ _ st', files st' = files st))|]. intros ? st1 E _. apply does_get. unfold real. rewrite E.
  destruct (resolve _ _ _ _) as [q|] eqn:Hr; [|apply does_throw]. apply real_sound in Hr as ->; [|done].
  eapply does_bind; [apply (does_assert _ _ _ (λ _ st', files st' = files st ∧ is_Some (files st !! p)))|].
  - intros Hs%bool_decide_eq_true. done.
  - intros ? st2 [E2 Hs] _. by apply does_ret.
Qed.
Lemma does_symlink_metadata (st : store) (p : path) : clear st (removelast p) →
  does st (symlink_metadata h p) (λ m st', files st' = files st ∧ files st !! p = Some m).
Proof.
  intros Hc. eapply does_bind; [by apply (does_attempt st _ (λ _ st', files st' = files st))|]. intros ? st1 E _. apply does_get.
  apply does_lift. intros m Hm%ok_or_Ok. apply link_node_clear in Hm; [|unfold clear; by rewrite E]. by rewrite <- E.
Qed.
(** The mode of a directory. *)
Lemma does_set_permissions (st : store) (p : path) n : clear st p → A p → files st !! p = Some n → kind n = HDir →
  does st (set_permissions h p 448) (λ _ st', files st' !! p = Some (with_mode 448 n)).
Proof.
  intros Hc HA Hp Hd. eapply does_bind; [by apply (does_attempt st _ (λ _ st', files st' = files st))|]. intros ? st1 E _. apply does_get.
  unfold real. rewrite E. destruct (resolve _ _ _ _) as [q|] eqn:Hr; [|apply does_throw]. apply real_sound in Hr as ->; [|done].
  assert (alter (with_mode 448) p (files st1) !! p = Some (with_mode 448 n)) as Ea by (rewrite lookup_alter_eq, E, Hp; done).
  apply (does_map st1 _ p); [done|intros k Hk; by rewrite lookup_alter_ne| | |].
  - left. unfold kinds. rewrite lookup_fmap, Ea. cbn. by rewrite Hd.
  - intros n' Hn' _. rewrite E, Hp in Hn'. injection Hn' as <-. exists (with_mode 448 n). split; [done|]. repeat split; auto.
  - intros st' ->. done.
Qed.
(** Nothing but directories were made. *)
Definition dir_at (st : store) (d : path) : Prop := ∃ n, files st !! d = Some n ∧ kind n = HDir.
Definition only_dirs (st st' : store) : Prop := ∀ k, files st' !! k = files st !! k ∨ (files st !! k = None ∧ dir_at st' k).
Lemma only_dirs_same (st st' : store) : files st' = files st → only_dirs st st'.
Proof. intros E k. left. by rewrite E. Qed.
Lemma only_dirs_trans (st1 st2 st3 : store) : only_dirs st1 st2 → only_dirs st2 st3 → only_dirs st1 st3.
Proof.
  intros H12 H23 k. destruct (H12 k) as [E|[E Hd]].
  - destruct (H23 k) as [E'|[E' Hd']]; [left; congruence|right; split; [congruence|done]].
  - right. split; [done|]. destruct (H23 k) as [E'|[E' _]]; [unfold dir_at; by rewrite E'|]. destruct Hd as (n & Hn & _). congruence.
Qed.
Lemma does_make_dirs (st : store) (base rest : path) : clear st (base ++ removelast rest) →
  (∀ r1 c r2, rest = r1 ++ c :: r2 → A (base ++ r1 ++ [c])) → does st (make_dirs h base rest) (λ _ st', only_dirs st st').
Proof.
  revert st base. induction rest as [|c rest IH]; intros st base Hc HA; cbn [make_dirs]; [by apply does_ret, only_dirs_same|]. apply does_get.
  destruct (resolve _ _ base [c]) as [q|] eqn:Hr; [|apply does_throw].
  assert (rest ≠ [] → q = base ++ [c]) as Hq.
  { intros Hne. destruct rest as [|c' rest]; [done|]. cbn [removelast] in Hc. apply clear_app in Hc as (_ & Hn & Hu).
    cbn [forallb unlinked] in Hn, Hu. apply andb_true_iff in Hn as [Hn _], Hu as [Hu _].
    apply resolve_unlinked in Hr; [done|cbn; by rewrite Hn|cbn; by rewrite Hu]. }
  assert (∀ st', evolves A st st' → (rest = [] ∨ q = base ++ [c]) → does st' (make_dirs h q rest) (λ _ st'', only_dirs st' st'')) as Hnext.
  { intros st' Hev Hor. destruct rest as [|c' rest]; [by apply does_ret, only_dirs_same|]. destruct Hor as [|Hor]; [done|]. subst q. apply IH.
    - eapply clear_evolves; [done|]. rewrite <- app_assoc. exact Hc.
    - intros r1 x r2 E. rewrite <- app_assoc. apply (HA (c :: r1) x r2). by rewrite E. }
  destruct (files st !! q) as [n|] eqn:Eq.
  - eapply does_bind; [by apply does_assert with (Q := λ _ st', st' = st)|]. intros ? st1 -> Hev. apply Hnext; [done|].
    destruct rest; [by left|right; by apply Hq].
  - eapply does_bind; [apply does_assert with (Q := λ _ st', q = base ++ [c] ∧ st' = st); intros Hb%bool_decide_eq_true; done|].
    intros ? st1 [-> ->] Hev1. eapply does_bind; [by apply (does_attempt st _ (λ _ st', files st' = files st))|]. intros k st1 E Hev2.
    eapply does_bind.
    + apply (does_map st1 _ (base ++ [c])) with (Q := λ _ st2, only_dirs st st2); [by apply (HA [] c rest)|intros k' Hk; by rewrite lookup_insert_ne| |intros n' Hn' _; congruence|].
      { left. unfold kinds. by rewrite lookup_fmap, lookup_insert_eq. }
      intros st2 E2 k'. destruct (decide (k' = base ++ [c])) as [->|Hk']; [right; split; [done|]; unfold dir_at; rewrite E2, lookup_insert_eq; eauto|].
      left. by rewrite E2, lookup_insert_ne, E.
    + intros ? st2 Ho Hev3. eapply does_weaken; [apply Hnext; [by eapply ev_trans|by right]|]. intros ? st3 Ho3 _. exact (only_dirs_trans _ _ _ Ho Ho3).
Qed.

Definition private_dir (st : store) (d : path) : Prop :=
  ∃ n, files st !! d = Some n ∧ kind n = HDir ∧ uid n = euid h ∧ Z.land (mode n) 511 = 448%Z.
Lemma dir_at_evolves (B : path → Prop) (st st' : store) (d : path) : evolves B st st' → dir_at st d → dir_at st' d.
Proof. intros Hev (n & Hn & Hd). destruct (ev_dirs _ _ _ Hev d n Hn Hd) as (n' & Hn' & Hd' & _). by exists n'. Qed.
Lemma private_dir_evolves (B : path → Prop) (st st' : store) (d : path) : evolves B st st' → private_dir st d → private_dir st' d.
Proof.
  intros Hev (n & Hn & Hd & Hu & Hm). destruct (ev_dirs _ _ _ Hev d n Hn Hd) as (n' & Hn' & Hd' & Hu' & Hm'). exists n'.
  split_and!; [done..|congruence|]. by destruct Hm' as [->| ->].
Qed.
Lemma removelast_prefix (p : path) : removelast p `prefix_of` p.
Proof. destruct p as [|x p] using rev_ind; [by exists []|]. rewrite removelast_last. by exists [x]. Qed.
Lemma clear_prefix (st : store) (p q : path) : p `prefix_of` q → clear st q → clear st p.
Proof. intros [r ->] Hc. by apply clear_app in Hc as [? _]. Qed.
Lemma clear_dir (st : store) (p : path) : forallb normal p = true → clear st (removelast p) → dir_at st p → clear st p.
Proof.
  destruct p as [|x p] using rev_ind; [done|]. rewrite removelast_last. intros Hn Hc (n & Hk & Hd). apply clear_snoc.
  rewrite forallb_app in Hn. cbn in Hn. rewrite andb_true_r in Hn. apply andb_true_iff in Hn as [_ Hn].
  split_and!; [done..|]. unfold kinds. rewrite lookup_fmap, Hk. cbn. by rewrite Hd.
Qed.

Lemma does_create_dir_all (st : store) (d : path) : clear st (removelast d) → (∀ k, k `prefix_of` d → A k) →
  does st (create_dir_all h d) (λ _ st', only_dirs st st').
Proof.
  intros Hc HA. apply does_make_dirs; [done|]. intros r1 c r2 ->. apply HA. exists r2. cbn. by rewrite <- app_assoc.
Qed.

(** The checks of a directory that was just made: it is one, and no link leads to it. *)
Lemma does_ensure_secure_dir (st : store) (p : path) : forallb normal p = true → clear st (removelast p) → (∀ k, k `prefix_of` p → A k) →
  does st (ensure_secure_dir h p) (λ _ st', clear st' p ∧ dir_at st' p).
Proof.
  intros Hn Hc HA. eapply does_bind; [by apply does_create_dir_all|]. intros ? st1 _ Hev1.
  assert (clear st1 (removelast p)) as Hc1 by (by eapply clear_evolves).
  eapply does_bind; [by apply does_symlink_metadata|]. intros m st2 [E2 Hm] Hev2.
  eapply does_bind; [apply (does_assert st2 _ _ (λ _ st', kind m = HDir ∧ st' = st2)); by intros ?%bool_decide_eq_true|]. intros ? st3 [Hd ->] _.
  assert (dir_at st2 p) as Hd2 by (exists m; by rewrite E2).
  assert (clear st2 p) as Hc2 by (apply clear_dir; [done|by eapply clear_evolves|done]).
  do 3 (eapply does_bind; [apply (does_assert st2 _ _ (λ _ st', st' = st2)); done|]; intros ? ? -> _).
  destruct (negb _); [|by apply does_ret].
  eapply does_weaken; [apply (does_set_permissions st2 _ m); [done|by apply HA|by rewrite E2|done]|]. intros ? st' Hp Hev3.
  split; [by eapply clear_evolves|by eapply dir_at_evolves].
Qed.
Lemma does_ensure_private_dir (st : store) (p : path) : forallb normal p = true → clear st (removelast p) → (∀ k, k `prefix_of` p → A k) →
  does st (ensure_private_dir h p) (λ _ st', clear st' p ∧ private_dir st' p).
Proof.
  intros Hn Hc HA. eapply does_bind; [by apply does_create_dir_all|]. intros ? st1 _ Hev1.
  assert (clear st1 (removelast p)) as Hc1 by (by eapply clear_evolves).
  eapply does_bind; [by apply does_symlink_metadata|]. intros m st2 [E2 Hm] Hev2.
  eapply does_bind; [apply (does_assert st2 _ _ (λ _ st', st' = st2)); done|]; intros ? ? -> _.
  eapply does_bind; [apply (does_assert st2 _ _ (λ _ st', kind m = HDir ∧ st' = st2)); by intros ?%bool_decide_eq_true|]. intros ? st3 [Hd ->] _.
  eapply does_bind; [apply (does_assert st2 _ _ (λ _ st', uid m = euid h ∧ st' = st2)); by intros ?%bool_decide_eq_true|]. intros ? st3 [Hu ->] _.
  assert (clear st2 p) as Hc2 by (apply clear_dir; [done|by eapply clear_evolves|exists m; by rewrite E2]).
  destruct (negb _) eqn:Eb.
  - eapply does_weaken; [apply (does_set_permissions st2 _ m); [done|by apply HA|by rewrite E2|done]|]. intros ? st' Hp Hev3.
    split; [by eapply clear_evolves|]. by exists (with_mode 448 m).
  - apply does_ret. split; [done|]. exists m. rewrite E2. apply negb_false_iff, Z.eqb_eq in Eb. done.
Qed.
Lemma does_ensure_path_within (st : store) (b c : path) : clear st b → clear st c →
  does st (ensure_path_within h b c) (λ q st', q = c ∧ files st' = files st).
Proof.
  intros Hb Hc. eapply does_bind; [by apply does_canonicalize|]. intros ? st1 (-> & E1 & _) Hev1. apply does_get.
  assert (clear st1 c) as Hc1 by (by eapply clear_evolves).
  eapply does_bind with (Q := λ q st', q = c ∧ files st' = files st).
  - destruct (path_exists h st1 c).
    + eapply does_weaken; [by apply does_canonicalize|]. intros ? ? (-> & E & _) _. by rewrite E, E1.
    + destruct (list.last c) as [x|] eqn:El; [|apply does_throw]. apply last_Some in El as [c' ->]. rewrite removelast_last.
      eapply does_bind; [apply does_canonicalize; by apply clear_app in Hc1 as [? _]|]. intros ? st2 (-> & E2 & _) _.
      eapply does_bind; [apply (does_assert st2 _ _ (λ _ st', st' = st2)); done|]; intros ? ? -> _. apply does_ret. by rewrite E2, E1.
  - intros ? st2 [-> E2] _. eapply does_bind; [apply (does_assert st2 _ _ (λ _ st', st' = st2)); done|]; intros ? ? -> _. by apply does_ret.
Qed.

Definition auth_at (dir : path) : path := dir ++ [AUTH_DIR_NAME].
Definition tokens_dir (dir : path) (scope : TokenScope) : path :=
  auth_at dir ++ match scope with SharedScope => [] | UserScope u => [USERS_DIR_NAME; u] end.
Lemma user_id_normal u : validate_user_id u = Ok tt → normal u = true.
Proof.
  unfold validate_user_id, normal. case_bool_decide; [done|]. destruct (_ <? _); [done|]. case_bool_decide as Hd; [done|]. intros _.
  rewrite !bool_decide_false by tauto. done.
Qed.
Lemma does_ensure_auth_dir (st : store) (dir : path) : clear st dir → (∀ k, k `prefix_of` auth_at dir → A k) →
  does st (ensure_auth_dir h dir) (λ q st', q = auth_at dir ∧ clear st' (auth_at dir) ∧ dir_at st' (auth_at dir) ∧ dir_at st' dir).
Proof.
  intros Hc HA. assert (forallb normal (auth_at dir) = true) as Hn.
  { unfold auth_at. rewrite forallb_app. destruct Hc as [-> _]. done. }
  assert (∀ k, k `prefix_of` dir → A k) as HAd by (intros k Hk; apply HA; by apply prefix_app_r).
  eapply does_bind; [apply does_create_dir_all; [by eapply clear_prefix; [apply removelast_prefix|]|done]|]. intros ? st1 _ Hev1.
  eapply does_bind; [apply does_ensure_secure_dir; [apply Hc| |done]|].
  { eapply clear_prefix; [apply removelast_prefix|]. by eapply clear_evolves. }
  intros ? st2 [Hc2 Hd2] Hev2. eapply does_bind; [by apply does_canonicalize|]. intros ? st3 (-> & E3 & _) Hev3.
  assert (clear st3 (removelast (auth_at dir))) as Hc3 by (unfold auth_at; rewrite removelast_last; by eapply clear_evolves).
  eapply does_bind; [by apply does_create_dir_all|]. intros ? st4 _ Hev4. 
  eapply does_bind; [apply does_ensure_secure_dir; [done|by eapply clear_evolves|done]|]. intros ? st5 [Hc5 Hd5] Hev5.
  assert (evolves A st2 st5) as Hev by eauto using ev_trans.
  eapply does_weaken; [apply does_ensure_path_within; [by eapply clear_evolves|done]|]. intros q st6 [-> E6] Hev6.
  split_and!; [done|by eapply clear_evolves|by eapply dir_at_evolves|]. eapply dir_at_evolves; [exact Hev6|]. by eapply dir_at_evolves.
Qed.
Lemma prefix_snoc_inv (k q : path) (c : string) : k `prefix_of` (q ++ [c]) → k `prefix_of` q ∨ k = q ++ [c].
Proof.
  intros [r E]. destruct r as [|x r] using rev_ind; [right; by rewrite app_nil_r in E|]. left. rewrite app_assoc in E. apply app_inj_tail in E as [-> _]. by exists r.
Qed.
Lemma does_ensure_token_dir (st : store) (dir : path) (scope : TokenScope) : clear st dir →
  (∀ k, k `prefix_of` tokens_dir dir scope → A k) →
  does st (ensure_token_dir h dir scope) (λ q st', q = tokens_dir dir scope ∧ clear st' q ∧ dir_at st' q ∧ dir_at st' dir ∧
    dir_at st' (auth_at dir) ∧ ∀ u, scope = UserScope u → validate_user_id u = Ok tt ∧ private_dir st' q).
Proof.
  intros Hc HA. assert (∀ k, k `prefix_of` auth_at dir → A k) as HAa by (intros k Hk; apply HA; by apply prefix_app_r).
  eapply does_bind; [by apply does_ensure_auth_dir|]. intros ? st1 (-> & Hca & Hda & Hdd) Hev1.
  eapply does_bind; [apply does_canonicalize; by eapply clear_evolves|]. intros ? st2 (-> & E2 & _) Hev2.
  assert (clear st2 dir) as Hc2 by (eapply clear_evolves; [exact Hev2|]; by eapply clear_evolves).
  eapply does_bind with (Q := λ q st', q = tokens_dir dir scope ∧ clear st' q ∧ dir_at st' q ∧ evolves A st2 st' ∧
    ∀ u, scope = UserScope u → validate_user_id u = Ok tt ∧ private_dir st' q).
  - destruct scope as [|u].
    + apply does_ret. unfold tokens_dir. rewrite app_nil_r. split_and!; [done|by eapply clear_evolves|by eapply dir_at_evolves|by apply evolves_same|done].
    + eapply does_bind; [apply (does_lift st2 _ (λ _ st', validate_user_id u = Ok tt ∧ st' = st2)); by intros []|]. intros ? ? [Hu ->] _.
      assert (clear st2 (auth_at dir)) as Hca2 by (by eapply clear_evolves).
      eapply does_bind; [apply does_ensure_private_dir|].
      { rewrite forallb_app. destruct Hca2 as [-> _]. done. }
      { by rewrite removelast_last. }
      { intros k [r Hr]. apply HA. exists (r ++ [u]). unfold tokens_dir. by rewrite app_assoc, <- Hr, <- app_assoc. }
      intros ? st3 [Hc3 _] Hev3.
      eapply does_bind; [apply does_ensure_private_dir|].
      { destruct Hc3 as [Hn3 _]. rewrite forallb_app in *. cbn in *. rewrite (user_id_normal u Hu). by rewrite andb_true_r in *. }
      { replace (auth_at dir ++ [USERS_DIR_NAME; u]) with ((auth_at dir ++ [USERS_DIR_NAME]) ++ [u]) by (by rewrite <- app_assoc). by rewrite removelast_last. }
      { done. }
      intros ? st4 [Hc4 Hp4] Hev4. apply does_ret. split_and!; [done|done| |by eapply ev_trans|].
      * destruct Hp4 as (n & ? & ? & _). by exists n.
      * intros u' [= <-]. done.
  - intros ? st3 (-> & Hc3 & Hd3 & Hev3 & Hp3) _. eapply does_weaken; [apply does_ensure_path_within; [by eapply clear_evolves|done]|].
    intros ? st4 [-> E4] Hev4.
    assert (evolves A st1 st4) as Hev by eauto using ev_trans.
    split_and!; [done|by apply (clear_evolves _ _ _ _ Hev4)|by apply (dir_at_evolves _ _ _ _ Hev4)|by apply (dir_at_evolves _ _ _ _ Hev)|by apply (dir_at_evolves _ _ _ _ Hev)|].
    intros u Hu. destruct (Hp3 u Hu). split; [done|]. by apply (private_dir_evolves _ _ _ _ Hev4).
Qed.

Lemma temp_name_ne (k : nat) (c : string) : temporary_path_for h k c ≠ c.
Proof. intros E. apply (f_equal String.length) in E. unfold temporary_path_for in E. rewrite !str_length_app in E. cbn in E. lia. Qed.
Lemma snoc_ne (d : path) (a b : string) : a ≠ b → d ++ [a] ≠ d ++ [b].
Proof. intros Hab E. apply app_inj_tail in E as [_ E]. done. Qed.
Lemma node_not_link (st : store) (k : path) n : files st !! k = Some n → is_file n = true → is_link (kinds (files st) !! k) = false.
Proof. intros Hk Hf. unfold kinds. rewrite lookup_fmap, Hk. cbn. unfold is_file in Hf. by destruct (kind n). Qed.
Lemma file_not_dir n : is_file n = true → kind n = HDir → False.
Proof. unfold is_file. intros Hf Hd. by rewrite Hd in Hf. Qed.

(** A file that is there, as a temporary one, gets other content or another mode. *)
Lemma does_alter_file (st : store) (k : path) (f : fnode → fnode) n : A k → files st !! k = Some n → is_file n = true → is_file (f n) = true →
  does st (on_map (alter f k)) (λ _ st', files st' = alter f k (files st) ∧ files st' !! k = Some (f n)).
Proof.
  intros HA Hk Hn Hf. assert (alter f k (files st) !! k = Some (f n)) as Ea by (by rewrite lookup_alter_eq, Hk).
  apply (does_map st _ k); [done|intros k' Hk'; by rewrite lookup_alter_ne| | |].
  - left. unfold kinds. rewrite lookup_fmap, Ea. cbn. unfold is_file in Hf. by destruct (kind (f n)).
  - intros n' Hn' Hd. rewrite Hk in Hn'. injection Hn' as <-. by destruct (file_not_dir n).
  - by intros st' E; rewrite !E.
Qed.
Lemma does_delete_file (st : store) (k : path) n : A k → files st !! k = Some n → is_dir n = false →
  does st (on_map (delete k)) (λ _ st', files st' = delete k (files st)).
Proof.
  intros HA Hk Hn. apply (does_map st _ k); [done|intros k' Hk'; by rewrite lookup_delete_ne| | |done].
  - left. unfold kinds. by rewrite lookup_fmap, lookup_delete_eq.
  - intros n' Hn' Hd. rewrite Hk in Hn'. injection Hn' as <-. unfold is_dir in Hn. apply bool_decide_eq_false in Hn. done.
Qed.
Lemma does_insert_file (st : store) (k : path) n : A k → files st !! k = None → is_file n = true →
  does st (on_map (insert k n)) (λ _ st', files st' = <[k := n]> (files st)).
Proof.
  intros HA Hk Hn. apply (does_map st _ k); [done|intros k' Hk'; by rewrite lookup_insert_ne| | |done].
  - left. unfold kinds. rewrite lookup_fmap, lookup_insert_eq. cbn. unfold is_file in Hn. by destruct (kind n).
  - intros n' Hn' Hd. congruence.
Qed.
(** The rename of a file over another, or over a link. *)
Lemma does_rename (st : store) (s d : path) n : A s → A d → s ≠ d → files st !! s = Some n → is_file n = true →
  match files st !! d with Some x => is_dir x | None => false end = false →
  does st (on_map (λ fs, match fs !! s with Some n => <[d := n]> (delete s fs) | None => fs end))
    (λ _ st', files st' = <[d := n]> (delete s (files st))).
Proof.
  intros HAs HAd Hne Hs Hn Hd. unfold on_map, modify, does. cbn [files calls]. rewrite Hs. split; [|by intros [] _]. split; cbn [files].
  - intros k. unfold kinds. rewrite !lookup_fmap. destruct (decide (k = d)) as [->|Hkd].
    + rewrite lookup_insert_eq. cbn. unfold is_file in Hn. by destruct (kind n).
    + rewrite lookup_insert_ne by done. destruct (decide (k = s)) as [->|Hks]; [by rewrite lookup_delete_eq|]. by rewrite lookup_delete_ne.
  - intros k m Hk Hm. exists m. split; [|repeat split; auto]. assert (k ≠ s) by (intros ->; rewrite Hs in Hk; injection Hk as <-; by destruct (file_not_dir n)).
    assert (k ≠ d) by (intros ->; rewrite Hk in Hd; unfold is_dir in Hd; by apply bool_decide_eq_false in Hd).
    by rewrite lookup_insert_ne, lookup_delete_ne.
  - intros k Hk. rewrite lookup_insert_ne, lookup_delete_ne by (by intros ->). done.
Qed.
Lemma does_attempts (st : store) e : does st (attempt h e) (λ _ st', files st' = files st).
Proof. by apply does_attempt. Qed.

(** The temporary file before its rename: the whole content with its mode, beside nothing else. *)
Lemma does_fill (st : store) (d : path) (c content : string) (m : Z) (durability : Durability) : clear st d →
  (∀ k, k `prefix_of` d → A k) → (∀ k, A (d ++ [temporary_path_for h k c])) →
  does st (fill_temp h (d ++ [c]) content m durability) (λ x st', x.2 = d ++ [c] ∧ ∃ k, x.1 = d ++ [temporary_path_for h k c] ∧
    (∃ t, files st' !! x.1 = Some (mkNode (HFile content) (euid h) m t)) ∧ files st !! x.1 = None ∧
    ∀ k', k' ≠ x.1 → files st' !! k' = files st !! k' ∨ (files st !! k' = None ∧ dir_at st' k')).
Proof.
  intros Hc HAd HAt. unfold fill_temp. rewrite removelast_last, last_snoc.
  eapply does_bind; [apply (does_lift st _ (λ x st', x = c ∧ st' = st)); by intros ? [= <-]|]. intros ? ? [-> ->] _.
  eapply does_bind; [apply does_create_dir_all; [by eapply clear_prefix; [apply removelast_prefix|]|done]|]. intros ? st1 Ho1 Hev1.
  assert (clear st1 d) as Hc1 by (by eapply clear_evolves).
  eapply does_bind; [apply does_attempts|]. intros k st2 E2 Hev2. apply does_get.
  eapply does_bind; [apply (does_lift st2 _ (λ q st', q = d ∧ st' = st2))|].
  { intros q Hq%ok_or_Ok. split; [|done]. apply (real_sound st2); [by eapply clear_evolves|done]. }
  intros ? ? [-> ->] _. set (temp := d ++ [temporary_path_for h k c]).
  eapply does_bind; [apply (does_assert st2 _ _ (λ _ st', files st2 !! temp = None ∧ st' = st2)); by intros ?%bool_decide_eq_true|]. intros ? ? [Ht ->] _.
  eapply does_bind; [apply (does_assert st2 _ _ (λ _ st', st' = st2)); done|]; intros ? ? -> _.
  eapply does_bind; [by apply does_insert_file; [apply HAt| |]|]. intros ? st3 E3 Hev3.
  eapply does_bind; [apply (does_catch st3 _ (λ _ st', files st' = files st3) _ (does_attempts st3 _))|].
  { intros r st' _ _. unfold attempt. by intros [= <- <-]. }
  intros w st4 E4 Hev4. eapply does_bind.
  { apply does_alter_file with (n := mkNode (HFile "") (euid h) m (clock h k)); [apply HAt| |done|done]. by rewrite E4, E3, lookup_insert_eq. }
  cbn [uid mode mtime]. intros ? st5 [F5 E5] Hev5.
  eapply does_bind; [apply (does_lift st5 w (λ _ st', st' = st5 ∧ is_ok w = true)); by intros ? ->|]. intros ? ? [-> Hw] _. destruct w; [|done].
  eapply does_bind with (Q := λ _ st', files st' = files st5).
  { destruct durability; [|by apply does_ret]. eapply does_bind; [apply does_attempts|]. intros ? ? E ?. by apply does_ret. }
  intros ? st6 E6 Hev6. eapply does_bind; [apply does_attempts|]. intros ? st7 E7 Hev7.
  eapply does_bind.
  { eapply does_alter_file; [apply HAt|by rewrite E7, E6|done|done]. }
  cbn [with_mode kind uid mtime]. intros ? st8 [F8 E8] Hev8. apply does_ret. split; [done|]. exists k. cbn [fst snd]. fold temp.
  split_and!; [done|by eexists| |].
  - destruct (Ho1 temp) as [Eo|[Eo _]]; [|done]. rewrite <- Eo, <- E2. done.
  - intros k' Hk'. assert (files st8 !! k' = files st1 !! k') as Hrest.
    { by rewrite F8, lookup_alter_ne, E7, E6, F5, lookup_alter_ne, E4, E3, lookup_insert_ne, E2. }
    unfold dir_at. rewrite Hrest. apply Ho1.
Qed.
(** The rename: it happened, or the temporary file was removed or left and the rename answers an error. *)
Lemma does_rename_temp (st : store) (s d : path) n : A s → A d → s ≠ d → files st !! s = Some n → is_file n = true →
  does st (rename_temp h s d) (λ _ st', files st' = <[d := n]> (delete s (files st))).
Proof.
  intros HAs HAd Hne Hs Hn.
  eapply does_bind; [apply (does_catch st _ (λ _ st', files st' = files st) _ (does_attempts st _))|].
  { intros r st' _ _. unfold attempt. by intros [= <- <-]. }
  intros r st1 E1 Hev1. apply does_get. cbv beta zeta. destruct (is_ok r && negb _) eqn:Eb.
  - apply andb_true_iff in Eb as [_ Eb]. apply negb_true_iff in Eb.
    eapply does_weaken; [eapply does_rename; [done|done|done|by rewrite E1|done|done]|]. intros ? st' -> _. by rewrite E1.
  - eapply does_bind; [|intros; apply does_throw]. eapply (does_catch st1 _ (λ _ _, True) (λ _ _, True)); [|done].
    eapply does_bind; [apply does_attempts|]. intros ? st2 E2 _.
    eapply does_weaken; [eapply does_delete_file; [done|by rewrite E2, E1|]|done]. unfold is_file, is_dir in *. by destruct (kind n).
Qed.
Lemma does_sync_parent (st : store) (durability : Durability) : does st (sync_parent h durability) (λ _ st', files st' = files st).
Proof.
  destruct durability; [|by apply does_ret]. eapply does_bind; [apply does_attempts|]. intros ? st1 E1 ?.
  eapply does_bind; [apply does_attempts|]. intros ? st2 E2 ?. apply does_ret. by rewrite E2, E1.
Qed.

(** What an atomic write leaves on success: the whole content with its mode, beside nothing else. *)
Lemma does_write (st : store) (d : path) (c content : string) (m : Z) (durability : Durability) : clear st d →
  (∀ k, k `prefix_of` d → A k) → A (d ++ [c]) → (∀ k, A (d ++ [temporary_path_for h k c])) →
  does st (write_file_atomic_with h (d ++ [c]) content m durability)
    (λ _ st', (∃ t, files st' !! (d ++ [c]) = Some (mkNode (HFile content) (euid h) m t)) ∧
      ∀ k, k ≠ d ++ [c] → files st' !! k = files st !! k ∨ (files st !! k = None ∧ dir_at st' k)).
Proof.
  intros Hc HAd HAc HAt. eapply does_bind; [by apply does_fill|].
  intros [temp target] st1 (-> & k & -> & [t Ht] & Hn & Hf) Hev1. cbn [fst snd] in *.
  eapply does_bind; [eapply does_rename_temp; [apply HAt|done|apply snoc_ne, temp_name_ne|done|done]|].
  intros ? st2 E2 Hev2. eapply does_weaken; [apply does_sync_parent|]. intros ? st3 E3 _. rewrite E3, E2. split; [exists t; by rewrite lookup_insert_eq|].
  intros k' Hk'. unfold dir_at. rewrite E3, E2, lookup_insert_ne by done.
  destruct (decide (k' = d ++ [temporary_path_for h k c])) as [->|Hkt]; [left; by rewrite lookup_delete_eq|]. rewrite lookup_delete_ne by done. by apply Hf.
Qed.

Lemma does_remove_file (st : store) (d : path) (c : string) : clear st d → A (d ++ [c]) →
  does st (remove_file h (d ++ [c])) (λ _ st', files st' = delete (d ++ [c]) (files st)).
Proof.
  intros Hc HA. unfold remove_file. rewrite removelast_last, last_snoc. eapply does_bind; [apply does_attempts|]. intros ? st1 E1 Hev1. apply does_get.
  destruct (real h st1 d) as [q|] eqn:Eq; [|apply does_throw]. apply real_sound in Eq as ->; [|by eapply clear_evolves].
  eapply does_bind; [apply (does_assert st1 _ _ (λ _ st', st' = st1 ∧ ∃ n, files st1 !! (d ++ [c]) = Some n ∧ is_dir n = false))|].
  { destruct (files st1 !! (d ++ [c])) as [n|] eqn:En; [|done]. intros ?%negb_true_iff. eauto. }
  intros ? ? [-> (n & Hn & Hd)] _. eapply does_weaken; [by eapply does_delete_file|]. intros ? st2 -> _. by rewrite E1.
Qed.
Definition data_at (st : store) (p : path) : string := match files st !! p with Some (mkNode (HFile d) _ _ _) => d | _ => "" end.
Lemma does_append_file (st : store) (p : path) (payload : string) : clear st p → A p →
  does st (append_file h p payload) (λ _ st', data_at st' p = data_at st p +:+ payload).
Proof.
  intros Hc HA. eapply does_bind; [apply does_attempts|]. intros k st1 E1 Hev1. apply does_get.
  eapply does_bind; [apply (does_lift st1 _ (λ q st', q = p ∧ st' = st1))|].
  { intros q Hq%ok_or_Ok. split; [|done]. apply (real_sound st1); [by eapply clear_evolves|done]. }
  intros ? ? [-> ->] _.
  eapply does_bind with (Q := λ _ st', data_at st' p = data_at st p ∧ ∃ n, files st' !! p = Some n ∧ is_file n = true).
  { destruct (files st1 !! p) as [n|] eqn:Ep.
    - apply does_assert. intros Hf. split; [unfold data_at; by rewrite E1|eauto].
    - eapply does_bind; [by apply (does_assert st1 _ _ (λ _ st', st' = st1))|]. intros ? ? -> _.
      eapply does_weaken; [by apply does_insert_file|]. intros ? st2 E2 _. unfold data_at. rewrite E2, lookup_insert_eq, <- E1, Ep. eauto. }
  intros ? st2 (Ed & n & Hn & Hf) Hev2. apply does_get.
  eapply does_bind; [apply (does_catch st2 _ (λ _ st', files st' = files st2) _ (does_attempts st2 _))|].
  { intros r st' _ _. unfold attempt. by intros [= <- <-]. }
  intros w st3 E3 Hev3. eapply does_bind; [eapply does_alter_file; [done|by rewrite E3|done|done]|]. intros ? st4 [_ E4] Hev4.
  eapply does_bind; [apply (does_lift st4 w (λ _ st', st' = st4 ∧ is_ok w = true)); by intros ? ->|]. intros ? ? [-> Hw] _. destruct w; [|done].
  eapply does_bind; [apply does_attempts|]. intros ? st5 E5 _. apply does_ret. unfold data_at at 1. rewrite E5, E4. by rewrite <- Ed.
Qed.
End acts.

Lemma does_tight {X} (A B : path → Prop) (st : store) (m : stm store X) Q : (∀ k, A k → B k) → does A st m Q →
  does B st m (λ a st', Q a st' ∧ evolves A st st').
Proof.
  intros HAB. unfold does. destruct (m st) as [r st']. intros [Hev HQ]. split; [by eapply evolves_weaken|]. intros a Ha. split; [by apply HQ|done].
Qed.

(** ** What holds however a call ends *)

Definition settles {X} (st : store) (m : stm store X) (P : store → Prop) : Prop := P (m st).2.
Lemma settles_bind {X Y} (A : path → Prop) (st : store) (m : stm store X) (f : X → stm store Y) Q (P : store → Prop) : does A st m Q →
  (∀ st', evolves A st st' → P st') → (∀ a st', Q a st' → evolves A st st' → settles st' (f a) P) → settles st (m ≫= f) P.
Proof.
  unfold does, settles, mbind, stm_bind. intros Hm He Hf. destruct (m st) as [[a|e] st1]; destruct Hm as [Hev Hq]; [|by apply He].
  by apply (Hf a st1 (Hq a eq_refl)).
Qed.
Lemma settles_does {X} (A : path → Prop) (st : store) (m : stm store X) Q (P : store → Prop) : does A st m Q →
  (∀ st', evolves A st st' → P st') → settles st m P.
Proof. unfold does, settles. destruct (m st) as [r st']. intros [Hev _] HP. by apply HP. Qed.

(** An atomic write leaves the file as it was or with the whole content, whatever fails on the way. *)
Definition old_or_new (h : store_host) (p : path) (content : string) (m : Z) (st st' : store) : Prop :=
  files st' !! p = files st !! p ∨ ∃ t, files st' !! p = Some (mkNode (HFile content) (euid h) m t).
Lemma old_or_new_frame (h : store_host) (A : path → Prop) (p : path) (content : string) (m : Z) (st st1 st2 : store) : ¬ A p →
  old_or_new h p content m st st1 → evolves A st1 st2 → old_or_new h p content m st st2.
Proof. intros HA Ho Hev. unfold old_or_new. by rewrite (ev_frame _ _ _ Hev p HA). Qed.
Lemma settles_rename (h : store_host) (st : store) (s d : path) n : s ≠ d → files st !! s = Some n →
  settles st (rename_temp h s d) (λ st', files st' !! d = files st !! d ∨ files st' !! d = Some n).
Proof.
  intros Hne Hs. unfold settles, rename_temp, mbind, stm_bind, catch, get, attempt. cbn [files calls].
  destruct (is_ok _ && negb _); [right; unfold on_map, modify; cbn [fst snd files]; by rewrite Hs, lookup_insert_eq|left].
  cbn [files calls]. destruct (works h _); unfold on_map, modify, throw, lift, bail; cbn [fst snd files]; [|done]. by rewrite lookup_delete_ne.
Qed.
Lemma settles_write (h : store_host) (st : store) (d : path) (c content : string) (m : Z) (durability : Durability) : clear st d →
  settles st (write_file_atomic_with h (d ++ [c]) content m durability) (old_or_new h (d ++ [c]) content m st).
Proof.
  intros Hc. assert (∀ k, k `prefix_of` d → k ≠ d ++ [c]) as Hpre.
  { intros k [r E] ->. apply (f_equal length) in E. rewrite !length_app in E. cbn in E. lia. }
  eapply (settles_bind (λ k, k ≠ d ++ [c])); [apply does_fill; [done|done|intros k; apply snoc_ne, temp_name_ne]| |].
  { intros st' Hev. left. apply (ev_frame _ _ _ Hev). tauto. }
  intros [temp target] st1 (-> & k & -> & [t Ht] & _) Hev1. cbn [fst snd] in *.
  pose proof (settles_rename h st1 _ (d ++ [c]) _ (snoc_ne _ _ _ (temp_name_ne h k c)) Ht) as Hr.
  assert (files st1 !! (d ++ [c]) = files st !! (d ++ [c])) as E1 by (apply (ev_frame _ _ _ Hev1); tauto).
  unfold settles, mbind, stm_bind in *. destruct (rename_temp _ _ _ _) as [[[]|e] st2]; cbn [snd] in Hr.
  - pose proof (does_sync_parent h (λ _, False) st2 durability) as Hd. unfold does in Hd. destruct (sync_parent h durability st2) as [r st3].
    destruct Hd as [Hev _]. unfold old_or_new. cbn [snd]. rewrite (ev_frame _ _ _ Hev) by tauto. rewrite <- E1. destruct Hr as [->|Hr]; eauto.
  - unfold old_or_new. cbn [snd]. rewrite <- E1. destruct Hr as [->|Hr]; eauto.
Qed.

Section token_store.
Context (h : store_host) (dir : path).
Abbreviation log := (auth_at dir ++ [AUDIT_LOG_NAME]).
(** The paths the log's directory is made of, and the log. *)
Definition audit_paths (k : path) : Prop := k `prefix_of` auth_at dir ∨ k = log.
Lemma log_not_above (k : path) : k `prefix_of` auth_at dir → k ≠ log.
Proof. intros [r E] ->. apply (f_equal length) in E. rewrite !length_app in E. cbn in E. lia. Qed.

Lemma does_record_many (st : store) (events : list AuditEvent) : clear st dir → is_link (kinds (files st) !! log) = false →
  does audit_paths st (record_many h dir events) (λ _ st', data_at st' log = data_at st log +:+ event_lines events).
Proof.
  intros Hc Hl. unfold record_many. case_bool_decide as He; [subst; apply does_ret; by rewrite str_app_nil_r|].
  eapply does_bind.
  { eapply (does_tight (λ k, k `prefix_of` auth_at dir)); [by left|]. by apply does_ensure_auth_dir. }
  intros ? st1 ((-> & Hca & _ & _) & Hev0) Hev1. apply does_get.
  assert (is_link (kinds (files st1) !! log) = false) as Hl1.
  { apply not_true_iff_false. intros Hx%(ev_links _ _ _ Hev0). congruence. }
  assert (clear st1 log) as Hcl by (apply clear_snoc; done).
  eapply does_bind with (Q := λ _ st', files st' = files st1).
  { destruct (path_exists h st1 _); [|by apply does_ret]. eapply does_bind.
    { apply does_symlink_metadata. by rewrite removelast_last. }
    intros m st2 [E2 _] _. do 3 (eapply does_bind; [apply (does_assert _ st2 _ _ (λ _ st', st' = st2)); done|]; intros ? ? -> _).
    by apply does_assert. }
  intros ? st2 E2 Hev2. eapply does_weaken; [apply does_append_file; [unfold clear; by rewrite E2|by right]|].
  intros ? st3 E3 _. rewrite E3. f_equal. unfold data_at. rewrite E2, (ev_frame _ _ _ Hev0); [done|]. intros Hp. by apply log_not_above in Hp.
Qed.

(** ** Storing *)

Definition token_at (scope : TokenScope) (name : string) : path := tokens_dir dir scope ++ [name +:+ ".token"].
Definition store_paths (scope : TokenScope) (name : string) (k : path) : Prop :=
  k `prefix_of` tokens_dir dir scope ∨ k = token_at scope name ∨
  ∃ n, k = tokens_dir dir scope ++ [temporary_path_for h n (name +:+ ".token")].
(** The directories of a namespace, as a load finds them. *)
Definition ready (st : store) (scope : TokenScope) : Prop :=
  clear st (tokens_dir dir scope) ∧ dir_at st (tokens_dir dir scope) ∧ dir_at st dir ∧ dir_at st (auth_at dir) ∧
  ∀ u, scope = UserScope u → validate_user_id u = Ok tt ∧ private_dir h st (tokens_dir dir scope).
Lemma ready_evolves (B : path → Prop) (st st' : store) (scope : TokenScope) : evolves B st st' → ready st scope → ready st' scope.
Proof.
  intros Hev (H1 & H2 & H3 & H4 & H5). split_and!; [by eapply clear_evolves|by eapply dir_at_evolves..|].
  intros u Hu. destruct (H5 u Hu). split; [done|by eapply private_dir_evolves].
Qed.
Lemma snoc_not_above (k q : path) (c : string) : k `prefix_of` q → k ≠ q ++ [c].
Proof. intros [r E] ->. apply (f_equal length) in E. rewrite !length_app in E. cbn in E. lia. Qed.

Lemma does_store_token (st : store) (scope : TokenScope) (name token : string) (force : bool) : clear st dir →
  does (store_paths scope name) st (store_token h dir scope name token force) (λ o st',
    validate_token_name name = Ok tt ∧ ready st' scope ∧
    match o with
    | Stored p => p = token_at scope name ∧ ∃ t, files st' !! p = Some (mkNode (HFile token) (euid h) 384 t)
    | Exists p => p = token_at scope name ∧ force = false ∧ path_exists h st' p = true ∧
                  evolves (λ k, k `prefix_of` tokens_dir dir scope) st st'
    end).
Proof.
  intros Hc. eapply does_bind; [apply (does_lift _ st _ (λ _ st', st' = st ∧ validate_token_name name = Ok tt)); by intros []|]. intros ? ? [-> Hv] _.
  eapply does_bind.
  { eapply (does_tight (λ k, k `prefix_of` tokens_dir dir scope)); [by left|]. by apply does_ensure_token_dir. }
  intros ? st1 ((-> & Hcd & Hd & Hdd & Hda & Hp) & Hev0) Hev1.
  assert (ready st1 scope) as Hr by done.
  eapply does_bind; [apply (does_lift _ st1 _ (λ q st', q = token_at scope name ∧ st' = st1))|].
  { unfold token_path. rewrite Hv. by intros ? [= <-]. }
  intros ? ? [-> ->] _. apply does_get. destruct (path_exists h st1 _ && negb force) eqn:Eb.
  - apply andb_true_iff in Eb as [Eb ?%negb_true_iff]. apply does_ret. split_and!; done.
  - eapply does_bind; [apply does_write; [done|by left|by right; left|intros k; right; right; by exists k]|]. intros ? st2 [Ht _] Hev2. apply does_ret.
    split_and!; [done|by eapply ready_evolves|done|done].
Qed.

(** ** Reading *)

Definition calm (st : store) : Prop := ∀ n, calls st ≤ n → works h n = true.
Definition runs {X} (st : store) (m : stm store X) (a : X) : Prop := ∃ st', m st = (Ok a, st') ∧ files st' = files st ∧ calm st'.
Lemma runs_bind {X Y} (st : store) (m : stm store X) (f : X → stm store Y) a b : runs st m a →
  (∀ st', files st' = files st → calm st' → runs st' (f a) b) → runs st (m ≫= f) b.
Proof.
  intros (st1 & E1 & F1 & C1) Hf. destruct (Hf st1 F1 C1) as (st2 & E2 & F2 & C2). exists st2. unfold mbind, stm_bind. rewrite E1, E2, F2, F1. done.
Qed.
Lemma runs_ret {X} (st : store) (a : X) : calm st → runs st (mret a) a.
Proof. intros. by exists st. Qed.
Lemma runs_lift {X} (st : store) (r : result X) a : calm st → r = Ok a → runs st (lift r) a.
Proof. intros ? ->. by exists st. Qed.
Lemma runs_assert (st : store) b e : calm st → b = true → runs st (assert b e) tt.
Proof. intros ? ->. by exists st. Qed.
Lemma runs_get {Y} (st : store) (f : store → stm store Y) b : runs st (f st) b → runs st (get ≫= f) b.
Proof. done. Qed.
Lemma runs_attempt (st : store) e : calm st → runs st (attempt h e) (calls st).
Proof.
  intros Hc. exists (mkStore (files st) (S (calls st))). unfold attempt. rewrite Hc by lia. split_and!; [done..|]. intros n Hn. apply Hc. cbn in Hn. lia.
Qed.
Lemma clear_files (st st' : store) (p : path) : files st' = files st → clear st p → clear st' p.
Proof. unfold clear. by intros ->. Qed.
Lemma runs_canonicalize (st : store) (p : path) : calm st → clear st p → length p < steps h → is_Some (files st !! p) → runs st (canonicalize h p) p.
Proof.
  intros Hcalm Hc Hl Hs. eapply runs_bind; [by apply runs_attempt|]. intros st1 E1 C1. apply runs_get.
  rewrite (real_clear h st1 p) by (done || by eapply clear_files). eapply runs_bind; [apply runs_assert; [done|by rewrite E1, bool_decide_true]|].
  intros. by apply runs_ret.
Qed.
Lemma exists_clear (st : store) (p : path) : clear st p → length p < steps h → path_exists h st p = bool_decide (is_Some (files st !! p)).
Proof. intros Hc Hl. unfold path_exists, node_at. by rewrite (real_clear h st p) by done. Qed.
Lemma runs_symlink_metadata (st : store) (d : path) (c : string) m : calm st → clear st d → length d < steps h → files st !! (d ++ [c]) = Some m →
  runs st (symlink_metadata h (d ++ [c])) m.
Proof.
  intros Hcalm Hc Hl Hm. eapply runs_bind; [by apply runs_attempt|]. intros st1 E1 C1. apply runs_get. apply runs_lift; [done|].
  unfold link_node. rewrite last_snoc, removelast_last, (real_clear h st1 d) by (done || by eapply clear_files). cbn. by rewrite E1, Hm.
Qed.
Lemma runs_within (st : store) (b c : path) : calm st → clear st b → clear st c → length b < steps h → length c < steps h →
  is_Some (files st !! b) → is_Some (files st !! c) → b `prefix_of` c → runs st (ensure_path_within h b c) c.
Proof.
  intros Hcalm Hb Hc Hlb Hlc Hsb Hsc [r Er]. eapply runs_bind; [by apply runs_canonicalize|]. intros st1 E1 C1. apply runs_get.
  assert (clear st1 c) by (by eapply clear_files). rewrite exists_clear, bool_decide_true by (done || by rewrite E1).
  eapply runs_bind; [apply runs_canonicalize; [done..|by rewrite E1]|]. intros st2 E2 C2. eapply runs_bind; [apply runs_assert; [done|]|intros; by apply runs_ret].
  rewrite Er, strip_path_app. by rewrite bool_decide_true.
Qed.

Lemma dir_at_Some (st : store) (d : path) : dir_at st d → is_Some (files st !! d).
Proof. intros (n & -> & _). eauto. Qed.
Lemma ready_files (st st' : store) (scope : TokenScope) : files st' = files st → ready st scope → ready st' scope.
Proof. intros E. apply (ready_evolves (λ _, False)). by apply evolves_same. Qed.
Lemma runs_token_dir (st : store) (scope : TokenScope) : calm st → ready st scope → length dir + 4 < steps h →
  runs st (token_dir_if_exists h dir scope) (Some (tokens_dir dir scope)).
Proof.
  intros Hcalm Hr Hl. assert (ready st scope) as (Hc & Hd & Hdd & Hda & Hp) by done.
  assert (clear st (auth_at dir)) as Hca by (eapply clear_prefix; [apply prefix_app_r; reflexivity|exact Hc]).
  assert (clear st dir) as Hcd by (eapply clear_prefix; [apply prefix_app_r; reflexivity|exact Hca]).
  assert (length (auth_at dir) < steps h) as Hla by (unfold auth_at; rewrite length_app; cbn; lia).
  assert (length (tokens_dir dir scope) < steps h) as Hlt.
  { unfold tokens_dir, auth_at. rewrite !length_app. destruct scope; cbn; lia. }
  eapply runs_bind with (a := Some (auth_at dir)).
  - apply runs_get. rewrite exists_clear, bool_decide_true by (done || lia || by apply dir_at_Some).
    eapply runs_bind; [apply runs_canonicalize; [done|done|lia|by apply dir_at_Some]|]. intros st1 E1 C1. apply runs_get.
    assert (clear st1 (auth_at dir)) as Hca1 by (by eapply clear_files).
    fold (auth_at dir). rewrite exists_clear, bool_decide_true by (done || by rewrite E1; apply dir_at_Some).
    eapply runs_bind; [|intros; by apply runs_ret]. apply runs_within; [done|by eapply clear_files|done|lia|done|rewrite E1; by apply dir_at_Some..|].
    by apply prefix_app_r.
  - intros st1 E1 C1. assert (ready st1 scope) as (Hc1 & Hd1 & Hdd1 & Hda1 & Hp1) by (by eapply ready_files).
    eapply runs_bind with (a := Some (tokens_dir dir scope)).
    + destruct scope as [|u]; [unfold tokens_dir; rewrite app_nil_r; by apply runs_ret|]. destruct (Hp1 u eq_refl) as [Hu (n & Hn & Hk & Hm & Ho)].
      eapply runs_bind; [by apply runs_lift|]. intros st2 E2 C2. apply runs_get. fold (tokens_dir dir (UserScope u)).
      assert (clear st2 (tokens_dir dir (UserScope u))) as Hc2 by (by eapply clear_files).
      rewrite exists_clear, bool_decide_true by (done || (rewrite E2; by apply dir_at_Some)). cbn [negb].
      eapply runs_bind; [|intros; by apply runs_ret]. eapply runs_bind.
      { unfold tokens_dir in *. replace (auth_at dir ++ [USERS_DIR_NAME; u]) with ((auth_at dir ++ [USERS_DIR_NAME]) ++ [u]) in * by (by rewrite <- app_assoc).
        apply runs_symlink_metadata; [done|by apply clear_snoc in Hc2 as [? _]|unfold auth_at; rewrite !length_app; cbn; lia|by rewrite E2]. }
      intros st3 E3 C3. eapply runs_bind; [apply runs_assert; [done|unfold is_symlink; by rewrite Hk]|]. intros st4 E4 C4.
      eapply runs_bind; [apply runs_assert; [done|unfold is_dir; by rewrite bool_decide_true]|]. intros st5 E5 C5.
      eapply runs_bind; [apply runs_assert; [done|by rewrite bool_decide_true]|]. intros st6 E6 C6.
      apply runs_assert; [done|]. by apply Z.eqb_eq.
    + intros st2 E2 C2. assert (ready st2 scope) as (Hc2 & Hd2 & Hdd2 & _) by (apply (ready_files st); [congruence|done]).
      eapply runs_bind; [apply runs_canonicalize; [done|eapply clear_files; [exact E2|]; by eapply clear_files|lia|by apply dir_at_Some]|].
      intros st3 E3 C3. assert (ready st3 scope) as (Hc3 & Hd3 & Hdd3 & _) by (apply (ready_files st); [congruence|done]).
      eapply runs_bind; [|intros; by apply runs_ret]. apply runs_within; [done| |done|lia|done|by apply dir_at_Some..|].
      * eapply clear_prefix; [|exact Hc3]. unfold tokens_dir, auth_at. rewrite <- app_assoc. by apply prefix_app_r.
      * unfold tokens_dir, auth_at. rewrite <- app_assoc. by apply prefix_app_r.
Qed.
(** What a load answers once the directories are there. *)
Lemma load_ready (st : store) (scope : TokenScope) (name : string) : calm st → ready st scope → length dir + 4 < steps h →
  validate_token_name name = Ok tt → normal (name +:+ ".token") = true →
  match files st !! token_at scope name with
  | Some (mkNode (HFile raw) u m _) => u = euid h → m = 384%Z → (load_token h dir scope name st).1 = Ok (Some (trim_end_newlines raw))
  | None => (load_token h dir scope name st).1 = Ok None
  | _ => True
  end.
Proof.
  intros Hcalm Hr Hl Hv Hn.
  assert (length (token_at scope name) < steps h ∧ length (tokens_dir dir scope) < steps h) as [Hlt Hld].
  { unfold token_at, tokens_dir, auth_at. rewrite !length_app. destruct scope; cbn; lia. }
  assert (∀ a, runs st (load_token h dir scope name) a → (load_token h dir scope name st).1 = Ok a) as Hout by (by intros a (st' & -> & _)).
  assert (∀ a, (∀ st', files st' = files st → calm st' → runs st'
      (if negb (path_exists h st' (token_at scope name)) then mret None
       else validate_token_permissions h (token_at scope name);; attempt h "failed to read token file";; st ← get;
            match node_at h st (token_at scope name) with
            | Some (mkNode (HFile raw) _ _ _) => mret (Some (trim_end_newlines raw))
            | _ => throw "failed to read token file" end) a) → runs st (load_token h dir scope name) a) as Hgo.
  { intros a Ha. eapply runs_bind; [by apply runs_lift|]. intros st1 E1 C1.
    eapply runs_bind; [apply runs_token_dir; [done|by eapply ready_files|lia]|]. intros st2 E2 C2. cbn beta iota.
    eapply runs_bind; [apply runs_lift; [done|]; unfold token_path; by rewrite Hv|]. intros st3 E3 C3. apply runs_get. apply Ha; [congruence|done]. }
  destruct (files st !! token_at scope name) as [[[raw| | | |] u m t]|] eqn:Et; try done.
  - intros -> ->. apply Hout, Hgo. intros st1 E1 C1. assert (ready st1 scope) as (Hc1 & _) by (by eapply ready_files).
    assert (clear st1 (token_at scope name)) as Hct.
    { apply clear_snoc. split_and!; [done|done|]. unfold kinds. fold (token_at scope name). by rewrite lookup_fmap, E1, Et. }
    rewrite exists_clear, bool_decide_true by (done || by rewrite E1, Et). cbn [negb].
    eapply runs_bind.
    { eapply runs_bind; [apply runs_symlink_metadata; [done|done|done|by rewrite E1]|]. intros st2 E2 C2.
      do 3 (eapply runs_bind; [apply runs_assert; [done|cbn; by rewrite ?bool_decide_true]|]; intros ? ? ?). by apply runs_assert. }
    intros st2 E2 C2. eapply runs_bind; [by apply runs_attempt|]. intros st3 E3 C3. apply runs_get.
    unfold node_at. rewrite (real_clear h st3) by (done || (eapply clear_files; [|exact Hct]; congruence)). cbn. rewrite E3, E2, E1, Et. by apply runs_ret.
  - apply Hout, Hgo. intros st1 E1 C1. assert (ready st1 scope) as (Hc1 & _) by (by eapply ready_files).
    assert (clear st1 (token_at scope name)) as Hct.
    { apply clear_snoc. split_and!; [done|done|]. unfold kinds. fold (token_at scope name). by rewrite lookup_fmap, E1, Et. }
    rewrite exists_clear, bool_decide_false by (done || (rewrite E1, Et; by intros [? [=]])). by apply runs_ret.
Qed.

Lemma token_name_normal name : normal (name +:+ ".token") = true.
Proof.
  unfold normal. rewrite !bool_decide_false; [done|..]; intros E; apply (f_equal String.length) in E; rewrite str_length_app in E; cbn in E; lia.
Qed.
Lemma token_name_visible name s : validate_token_name name = Ok tt → name +:+ ".token" ≠ String "." s.
Proof. destruct name as [|c name]; [done|]. cbn. intros Hv E. injection E as -> _. done. Qed.
Lemma token_name_not_log name : name +:+ ".token" ≠ AUDIT_LOG_NAME.
Proof. intros E. destruct name as [|? [|? [|? [|? [|? [|? [|? [|? [|? [|? name]]]]]]]]]]; discriminate E. Qed.
Lemma token_name_not_users name : name +:+ ".token" ≠ USERS_DIR_NAME.
Proof. intros E. apply (f_equal String.length) in E. rewrite str_length_app in E. cbn in E. lia. Qed.
Lemma token_not_audit (s : TokenScope) (n : string) : ¬ audit_paths (token_at s n).
Proof.
  unfold audit_paths, token_at, tokens_dir. rewrite <- !app_assoc. intros [[r E]|E]; rewrite <- ?app_assoc in E.
  - apply (f_equal length) in E. rewrite !length_app in E. destruct s; cbn in E; lia.
  - apply app_inv_head in E. destruct s; cbn in E; simplify_eq. by destruct (token_name_not_log n).
Qed.
(** The files of two tokens are apart, also from what a store writes besides. *)
Lemma other_token_apart (s s' : TokenScope) (n n' : string) : (s', n') ≠ (s, n) → validate_token_name n' = Ok tt →
  ¬ store_paths s n (token_at s' n').
Proof.
  intros Hne Hv. unfold store_paths, token_at, tokens_dir. rewrite <- !app_assoc.
  intros [[r E]|[E|[k E]]]; rewrite <- ?app_assoc in E; apply app_inv_head in E.
  - destruct s, s'; cbn in E; simplify_eq. by destruct (token_name_not_users n').
  - destruct s as [|u], s' as [|u']; cbn in E; try done; injection E; intros; subst; apply Hne; f_equal; by eapply str_app_inj_r.
  - destruct s as [|u], s' as [|u']; cbn in E; try done; injection E; intros; subst; by eapply token_name_visible.
Qed.

Lemma does_manager_store (st : store) (scope : TokenScope) (name token : string) (force : bool) : clear st dir →
  is_link (kinds (files st) !! log) = false →
  does (λ k, store_paths scope name k ∨ audit_paths k) st (manager_store_token h dir scope name token force) (λ o st',
    validate_token_name name = Ok tt ∧ ready st' scope ∧
    match o with
    | Stored p => p = token_at scope name ∧ (∃ t, files st' !! p = Some (mkNode (HFile token) (euid h) 384 t)) ∧
        ∃ k, data_at st' log = data_at st log +:+ event_lines [for_namespace h k Store (user_id scope) name]
    | Exists p => p = token_at scope name ∧ force = false ∧ path_exists h st' p = true ∧
        evolves (λ k, k `prefix_of` tokens_dir dir scope) st st'
    end).
Proof.
  intros Hc Hl. eapply does_bind; [eapply (does_tight (store_paths scope name)); [by left|by apply does_store_token]|].
  intros o st1 ((Hv & Hr & Ho) & Hev0) Hev1. apply does_get. destruct o as [p|p]; cbn [outcome_stored].
  2: { eapply does_bind; [apply (does_ret _ st1 _ (λ _ st', st' = st1)); done|]. intros ? ? -> _. apply does_ret. done. }
  assert (is_link (kinds (files st1) !! log) = false) as Hl1 by (apply not_true_iff_false; intros Hx%(ev_links _ _ _ Hev0); congruence).
  assert (data_at st1 log = data_at st log) as Hlog.
  { unfold data_at. rewrite (ev_frame _ _ _ Hev0); [done|]. intros [Hp|[E|[n E]]].
    - destruct scope; unfold tokens_dir in Hp; [rewrite app_nil_r in Hp; by apply log_not_above in Hp|].
      destruct Hp as [r E]. unfold AUDIT_LOG_NAME, USERS_DIR_NAME in E. rewrite <- app_assoc in E. by apply app_inv_head in E.
    - unfold token_at, tokens_dir in E. rewrite <- app_assoc in E. apply app_inv_head in E.
      destruct scope; [injection E as E; by symmetry in E; apply token_name_not_log in E|done].
    - unfold tokens_dir in E. rewrite <- app_assoc in E. apply app_inv_head in E. by destruct scope. }
  eapply does_bind; [eapply (does_tight audit_paths); [by right|apply does_record_many; [by eapply clear_evolves|done]]|].
  intros ? st2 [Hd2 Hev2] _. apply does_ret. destruct Ho as [-> [t Ht]]. split_and!; [done|by eapply ready_evolves|done| |].
  - exists t. rewrite (ev_frame _ _ _ Hev2); [done|]. apply token_not_audit.
  - exists (calls st1). by rewrite Hd2, Hlog.
Qed.

(** Whatever fails, the token's file is the old one or the new one. *)
Lemma settles_store_token (st : store) (scope : TokenScope) (name token : string) (force : bool) : clear st dir →
  settles st (store_token h dir scope name token force) (old_or_new h (token_at scope name) token 384 st).
Proof.
  intros Hc. assert (∀ st', evolves (λ k, k `prefix_of` tokens_dir dir scope) st st' → old_or_new h (token_at scope name) token 384 st st') as Hframe.
  { intros st' Hev. left. apply (ev_frame _ _ _ Hev). intros Hp. by apply (snoc_not_above _ _ (name +:+ ".token")) in Hp. }
  eapply (settles_bind (λ k, k `prefix_of` tokens_dir dir scope)); [apply (does_lift _ st _ (λ _ st', st' = st ∧ validate_token_name name = Ok tt)); by intros []|done|].
  intros ? ? [-> Hv] _. eapply (settles_bind (λ k, k `prefix_of` tokens_dir dir scope)); [by apply does_ensure_token_dir|done|].
  intros ? st1 (-> & Hcd & _) Hev1. unfold token_path. rewrite Hv. unfold settles, mbind, stm_bind, lift, get. cbn [mbind result_bind].
  destruct (path_exists h st1 _ && negb force); [by apply Hframe|].
  pose proof (settles_write h st1 (tokens_dir dir scope) (name +:+ ".token") token 384 Required Hcd) as Hw. unfold settles in Hw.
  unfold write_file_atomic. destruct (write_file_atomic_with _ _ _ _ _ _) as [[[]|e] st2]; unfold mret, stm_ret; cbn [snd] in *; destruct Hw as [Hw|Hw]; try (by right);
    left; unfold token_at; rewrite Hw; apply (ev_frame _ _ _ Hev1); intros Hp; by apply (snoc_not_above _ _ (name +:+ ".token")) in Hp.
Qed.
Lemma settles_manager_store (st : store) (scope : TokenScope) (name token : string) (force : bool) : clear st dir →
  is_link (kinds (files st) !! log) = false →
  settles st (manager_store_token h dir scope name token force) (old_or_new h (token_at scope name) token 384 st).
Proof.
  intros Hc Hl. pose proof (settles_store_token st scope name token force Hc) as Hs. pose proof (does_store_token st scope name token force Hc) as Hd.
  unfold settles, does in *. unfold manager_store_token, mbind at 1, stm_bind at 1. destruct (store_token h dir scope name token force st) as [[o|e] st1]; [|done].
  destruct Hd as [Hev Ho]. cbn [snd] in Hs. eapply (settles_does audit_paths _ _ (λ _ _, True)).
  2: { intros st' Hev'. by eapply old_or_new_frame; [apply token_not_audit| |]. }
  apply does_get. destruct (outcome_stored o); [|by repeat apply does_ret].
  assert (is_link (kinds (files st1) !! log) = false) as Hl1 by (apply not_true_iff_false; intros Hx%(ev_links _ _ _ Hev); congruence).
  eapply does_bind; [apply does_record_many; [by eapply clear_evolves|done]|]. intros. by apply does_ret.
Qed.
(** Without force a token that is there is not replaced. *)
Lemma does_keep_token (st : store) (scope : TokenScope) (name token : string) n : clear st dir → length dir + 4 < steps h →
  files st !! token_at scope name = Some n → is_symlink n = false →
  does (λ k, k `prefix_of` tokens_dir dir scope) st (manager_store_token h dir scope name token false) (λ o _, o = Exists (token_at scope name)).
Proof.
  intros Hc Hlen Hn Hk. eapply does_bind with (Q := λ o _, o = Exists (token_at scope name)).
  2: { intros ? st1 -> _. apply does_get. eapply does_bind; [by apply (does_ret _ st1 _ (λ _ _, True))|]. intros. by apply does_ret. }
  eapply does_bind; [apply (does_lift _ st _ (λ _ st', st' = st ∧ validate_token_name name = Ok tt)); by intros []|]. intros ? ? [-> Hv] _.
  eapply does_bind; [by apply does_ensure_token_dir|]. intros ? st1 (-> & Hcd & _) Hev1.
  eapply does_bind; [apply (does_lift _ st1 _ (λ q st', q = token_at scope name ∧ st' = st1))|].
  { unfold token_path. rewrite Hv. by intros ? [= <-]. }
  intros ? ? [-> ->] _. apply does_get.
  assert (files st1 !! token_at scope name = Some n) as Hn1.
  { rewrite (ev_frame _ _ _ Hev1); [done|]. intros Hp. by apply (snoc_not_above _ _ (name +:+ ".token")) in Hp. }
  rewrite exists_clear, bool_decide_true; [by apply does_ret|by rewrite Hn1| |].
  - apply clear_snoc. split_and!; [done|apply token_name_normal|]. unfold kinds. fold (token_at scope name). rewrite lookup_fmap, Hn1. cbn.
    unfold is_symlink in Hk. by destruct (kind n).
  - unfold token_at, tokens_dir, auth_at. rewrite !length_app. destruct scope; cbn; lia.
Qed.
End token_store.

(** ** The store keeps its promise *)

(** C36: a token that was stored is the one a load of the same namespace and name returns, without its final
    line breaks, and its storing is one new line at the end of the audit log.  Without force a token that is
    there is never replaced: its file stays as it is and no call answers that it was stored; nothing is
    recorded then.  When storing fails, the token's file is the old one or holds the whole new token, never a
    part of it; the new one may then be there without its line in the log ([unrecorded_store]).  Whatever
    happens on the way, the file of no other token of any namespace changes.  The state directory is reached
    through no link, and the log is none. *)
Theorem stored_token_loads (h : store_host) (dir : path) (scope : TokenScope) (name token : string) (force : bool) (st : store) :
  clear st dir → is_link (kinds (files st) !! (auth_at dir ++ [AUDIT_LOG_NAME])) = false → length dir + 4 < steps h →
  let '(r, st') := manager_store_token h dir scope name token force st in
  (∀ scope' name', (scope', name') ≠ (scope, name) → validate_token_name name' = Ok tt →
     files st' !! token_at dir scope' name' = files st !! token_at dir scope' name') ∧
  (force = false → ∀ n, files st !! token_at dir scope name = Some n → is_symlink n = false →
     files st' !! token_at dir scope name = Some n ∧ ∀ o, r = Ok o → o = Exists (token_at dir scope name)) ∧
  match r with
  | Ok (Stored p) => p = token_at dir scope name ∧
      (calm h st' → (load_token h dir scope name st').1 = Ok (Some (trim_end_newlines token))) ∧
      ∃ k, data_at st' (auth_at dir ++ [AUDIT_LOG_NAME]) =
        data_at st (auth_at dir ++ [AUDIT_LOG_NAME]) +:+ event_lines [for_namespace h k Store (user_id scope) name]
  | Ok (Exists p) => force = false ∧ p = token_at dir scope name ∧ path_exists h st' p = true ∧
      files st' !! p = files st !! p ∧ data_at st' (auth_at dir ++ [AUDIT_LOG_NAME]) = data_at st (auth_at dir ++ [AUDIT_LOG_NAME])
  | Err _ => files st' !! token_at dir scope name = files st !! token_at dir scope name ∨
      ∃ t, files st' !! token_at dir scope name = Some (mkNode (HFile token) (euid h) 384 t)
  end.
Proof.
  intros Hc Hl Hs. pose proof (does_manager_store h dir st scope name token force Hc Hl) as Hd.
  pose proof (settles_manager_store h dir st scope name token force Hc Hl) as Hon.
  assert (force = false → ∀ n, files st !! token_at dir scope name = Some n → is_symlink n = false → does _ _ _ _) as Hkeep
    by (intros _ n; exact (does_keep_token h dir st scope name token n Hc Hs)).
  unfold does, settles in *. destruct (manager_store_token h dir scope name token force st) as [r st'] eqn:E. destruct Hd as [Hev HQ]. split_and!.
  { intros s n Hne Hv. apply (ev_frame _ _ _ Hev). pose proof (other_token_apart h dir scope s name n Hne Hv). pose proof (token_not_audit dir s n). tauto. }
  { intros -> n Hn Hk. specialize (Hkeep eq_refl n Hn Hk). rewrite E in Hkeep. destruct Hkeep as [Hevk Hok]. split; [|exact Hok].
    rewrite (ev_frame _ _ _ Hevk); [done|]. intros Hp. by apply (snoc_not_above _ _ (name +:+ ".token")) in Hp. }
  destruct r as [[p|p]|e]; [..|exact Hon]; specialize (HQ _ eq_refl) as (Hv & Hr & HQ).
  - destruct HQ as (-> & [t Ht] & Hlog). split_and!; [done| |done]. intros Hcalm.
    pose proof (load_ready h dir st' scope name Hcalm Hr Hs Hv (token_name_normal name)) as Hload. rewrite Ht in Hload. by apply Hload.
  - destruct HQ as (-> & Hf & Hex & Hev'). split_and!; [done..| |].
    + apply (ev_frame _ _ _ Hev'). intros Hp. by apply (snoc_not_above _ _ (name +:+ ".token")) in Hp.
    + unfold data_at. rewrite (ev_frame _ _ _ Hev'); [done|]. intros [r E']. unfold tokens_dir in E'. rewrite <- app_assoc in E'. apply app_inv_head in E'.
      by destruct scope.
Qed.

(** ** Revoking *)

Lemma does_token_dir_if_exists (A : path → Prop) (h : store_host) (dir : path) (st : store) (scope : TokenScope) : clear st (tokens_dir dir scope) →
  does A st (token_dir_if_exists h dir scope) (λ o st', files st' = files st ∧ (o = None ∨ o = Some (tokens_dir dir scope))).
Proof.
  intros Hc. assert (clear st (auth_at dir)) as Hca by (eapply clear_prefix; [apply prefix_app_r; reflexivity|exact Hc]).
  assert (clear st dir) as Hcd by (eapply clear_prefix; [apply prefix_app_r; reflexivity|exact Hca]).
  eapply does_bind with (Q := λ o st', files st' = files st ∧ (o = None ∨ o = Some (auth_at dir))).
  { apply does_get. destruct (path_exists h st dir); [cbn [negb]|apply does_ret; by auto].
    eapply does_bind; [by apply does_canonicalize|]. intros ? st1 (-> & E1 & _) _. apply does_get. fold (auth_at dir).
    destruct (path_exists h st1 _); [cbn [negb]|apply does_ret; by auto].
    eapply does_bind; [apply does_ensure_path_within; by eapply clear_files|]. intros ? st2 [-> E2] _. apply does_ret. rewrite E2, E1. auto. }
  intros found st1 [E1 [->| ->]] _; [apply does_ret; by auto|].
  eapply does_bind with (Q := λ o st', files st' = files st ∧ (o = None ∨ o = Some (tokens_dir dir scope))).
  { destruct scope as [|u]; [apply does_ret; unfold tokens_dir; rewrite app_nil_r; by auto|].
    eapply does_bind; [apply (does_lift A st1 _ (λ _ st', st' = st1)); done|]. intros ? ? -> _. apply does_get.
    fold (tokens_dir dir (UserScope u)). destruct (path_exists h st1 _); [cbn [negb]|apply does_ret; by auto].
    eapply does_bind with (Q := λ _ st', files st' = files st).
    - eapply does_bind; [apply does_symlink_metadata; eapply clear_files; [exact E1|]; eapply clear_prefix; [apply removelast_prefix|done]|].
      intros m st2 [E2 _] _. do 3 (eapply does_bind; [apply (does_assert A st2 _ _ (λ _ st', st' = st2)); done|]; intros ? ? -> _).
      apply does_assert. intros _. by rewrite E2.
    - intros ? st2 E2 _. apply does_ret. auto. }
  intros o st2 [E2 [->| ->]] _; [apply does_ret; by auto|].
  eapply does_bind; [apply does_canonicalize; apply (clear_files st); [congruence|done]|]. intros ? st3 (-> & E3 & _) _.
  eapply does_bind; [apply does_ensure_path_within; (apply (clear_files st); [congruence|done])|]. intros ? st4 [-> E4] _.
  apply does_ret. rewrite E4, E3, E2. auto.
Qed.
Lemma does_delete_token (h : store_host) (dir : path) (st : store) (scope : TokenScope) (name : string) : clear st (tokens_dir dir scope) →
  does (λ k, k = token_at dir scope name) st (delete_token h dir scope name) (λ removed st', validate_token_name name = Ok tt ∧
    files st' = if removed : bool then delete (token_at dir scope name) (files st) else files st).
Proof.
  intros Hc. eapply does_bind; [apply (does_lift _ st _ (λ _ st', st' = st ∧ validate_token_name name = Ok tt)); by intros []|]. intros ? ? [-> Hv] _.
  eapply does_bind; [by apply does_token_dir_if_exists|]. intros found st1 [E1 [->| ->]] _; [by apply does_ret|].
  eapply does_bind; [apply (does_lift _ st1 _ (λ q st', q = token_at dir scope name ∧ st' = st1))|].
  { unfold token_path. rewrite Hv. by intros ? [= <-]. }
  intros ? ? [-> ->] _. apply does_get. destruct (path_exists h st1 _); [cbn [negb]|by apply does_ret].
  eapply does_bind; [apply does_remove_file; [by eapply clear_files|done]|]. intros ? st2 E2 _. apply does_ret. by rewrite E2, E1.
Qed.

(** A token that was revoked is gone from the store and a load finds none, its revocation is one new line
    at the end of the audit log, and every other file of the state directory is as it was; when there was
    nothing to revoke, nothing changed at all. *)
Theorem revoked_token_gone (h : store_host) (dir : path) (scope : TokenScope) (name : string) (st : store) :
  clear st (tokens_dir dir scope) → is_link (kinds (files st) !! (auth_at dir ++ [AUDIT_LOG_NAME])) = false → length dir + 4 < steps h →
  let '(r, st') := manager_delete_token h dir scope name st in
  (∀ k, k ≠ token_at dir scope name → ¬ audit_paths dir k → files st' !! k = files st !! k) ∧
  match r with
  | Ok true => files st' !! token_at dir scope name = None ∧
      (calm h st' → ready h dir st' scope → (load_token h dir scope name st').1 = Ok None) ∧
      ∃ k, data_at st' (auth_at dir ++ [AUDIT_LOG_NAME]) =
        data_at st (auth_at dir ++ [AUDIT_LOG_NAME]) +:+ event_lines [for_namespace h k Revoke (user_id scope) name]
  | Ok false => files st' = files st
  | Err _ => True
  end.
Proof.
  intros Hc Hl Hs. assert (clear st dir) as Hcd.
  { eapply clear_prefix; [|exact Hc]. unfold tokens_dir, auth_at. rewrite <- app_assoc. by apply prefix_app_r. }
  assert (does (λ k, k = token_at dir scope name ∨ audit_paths dir k) st (manager_delete_token h dir scope name) (λ removed st',
    validate_token_name name = Ok tt ∧ if removed : bool then files st' !! token_at dir scope name = None ∧
      ∃ k, data_at st' (auth_at dir ++ [AUDIT_LOG_NAME]) =
        data_at st (auth_at dir ++ [AUDIT_LOG_NAME]) +:+ event_lines [for_namespace h k Revoke (user_id scope) name] else files st' = files st)) as Hd.
  { eapply does_bind; [eapply (does_tight (λ k, k = token_at dir scope name)); [by left|by apply does_delete_token]|].
    intros removed st1 [[Hv E1] Hev0] Hev1. apply does_get. destruct removed.
    2: { eapply does_bind; [apply (does_ret _ st1 _ (λ _ st', st' = st1)); done|]. intros ? ? -> _. by apply does_ret. }
    assert (token_at dir scope name ≠ auth_at dir ++ [AUDIT_LOG_NAME]) as Hne.
    { intros E. unfold token_at, tokens_dir in E. rewrite <- app_assoc in E. apply app_inv_head in E. destruct scope; [injection E as E; by apply token_name_not_log in E|done]. }
    eapply does_bind; [eapply (does_tight (audit_paths dir)); [by right|apply does_record_many; [by eapply clear_evolves|]]|].
    { apply not_true_iff_false. intros Hx%(ev_links _ _ _ Hev0). congruence. }
    intros ? st2 [Hd2 Hev2] _. apply does_ret. split_and!; [done| |].
    - rewrite (ev_frame _ _ _ Hev2); [by rewrite E1, lookup_delete_eq|]. intros [[r E]|E]; [|done].
      unfold token_at, tokens_dir in E. rewrite <- app_assoc in E. apply (f_equal length) in E. rewrite !length_app in E. destruct scope; cbn in E; lia.
    - exists (calls st1). rewrite Hd2. f_equal. unfold data_at. by rewrite E1, lookup_delete_ne. }
  unfold does in Hd. destruct (manager_delete_token h dir scope name st) as [r st']. destruct Hd as [Hev HQ]. split.
  { intros k H1 H2. apply (ev_frame _ _ _ Hev). tauto. }
  destruct r as [[]|e]; [..|done]; specialize (HQ _ eq_refl) as [Hv HQ]; [|done]. destruct HQ as [Hn Hlog]. split_and!; [done| |done].
  intros Hcalm Hr. pose proof (load_ready h dir st' scope name Hcalm Hr Hs Hv (token_name_normal name)) as Hload. by rewrite Hn in Hload.
Qed.

(** ** Injecting *)

Definition no_file (st : store) (k : path) : Prop := ∀ n, files st !! k = Some n → is_file n = false.
Definition shrinks (st st' : store) : Prop := ∀ k, files st' !! k = files st !! k ∨ files st' !! k = None.
Lemma shrinks_same (st st' : store) : files st' = files st → shrinks st st'.
Proof. intros E k. left. by rewrite E. Qed.
Lemma shrinks_trans (st1 st2 st3 : store) : shrinks st1 st2 → shrinks st2 st3 → shrinks st1 st3.
Proof. intros H1 H2 k. destruct (H2 k) as [E|E]; [|by right]. rewrite E. apply H1. Qed.
Lemma shrinks_delete (st st' : store) (k : path) : files st' = delete k (files st) → shrinks st st'.
Proof. intros E k'. rewrite E. destruct (decide (k' = k)) as [->|Hk]; [right; by rewrite lookup_delete_eq|left; by rewrite lookup_delete_ne]. Qed.
Lemma no_file_shrinks (st st' : store) (k : path) : shrinks st st' → no_file st k → no_file st' k.
Proof. intros Hs Hn n Hk. destruct (Hs k) as [E|E]; [|congruence]. apply Hn. congruence. Qed.

(** What a sequence of writes into [d] leaves: names and contents of [l]. *)
Definition has_file (h : store_host) (st : store) (k : path) (v : string) : Prop := ∃ t, files st !! k = Some (mkNode (HFile v) (euid h) 256 t).
Definition wrote (h : store_host) (d : path) (l : list (string * string)) (st st' : store) : Prop :=
  (∀ k, files st' !! k = files st !! k ∨ (files st !! k = None ∧ dir_at st' k) ∨ ∃ c v, (c, v) ∈ l ∧ k = d ++ [c] ∧ has_file h st' k v) ∧
  ∀ c v, (c, v) ∈ l → ∃ v', (c, v') ∈ l ∧ has_file h st' (d ++ [c]) v'.
Lemma wrote_nil (h : store_host) (d : path) (st : store) : wrote h d [] st st.
Proof. split; [by left|]. by intros c v ?%not_elem_of_nil. Qed.
Lemma wrote_cons (h : store_host) (d : path) (c v : string) (l : list (string * string)) (st st1 st2 : store) : has_file h st1 (d ++ [c]) v →
  (∀ k, k ≠ d ++ [c] → files st1 !! k = files st !! k ∨ (files st !! k = None ∧ dir_at st1 k)) → wrote h d l st1 st2 → wrote h d ((c, v) :: l) st st2.
Proof.
  intros Hv Hrest [H1 H2]. split.
  - intros k. destruct (decide (k = d ++ [c])) as [->|Hk].
    + right. right. destruct (H1 (d ++ [c])) as [E|[[E _]|(c' & v' & Hin & E & Hf)]].
      * exists c, v. split; [apply list_elem_of_here|]. split; [done|]. unfold has_file. by rewrite E.
      * destruct Hv as [x Hx]. congruence.
      * exists c', v'. split; [by apply list_elem_of_further|done].
    + destruct (H1 k) as [E|[[E Hd]|(c' & v' & Hin & E & Hf)]].
      * destruct (Hrest k Hk) as [E'|[E' Hd]]; [left; congruence|right; left]. split; [done|]. unfold dir_at. by rewrite E.
      * destruct (Hrest k Hk) as [E'|[E' (n & Hn & _)]]; [|congruence]. right. left. split; [congruence|done].
      * right. right. exists c', v'. split; [by apply list_elem_of_further|done].
  - intros c' v' [[= -> ->]|Hin]%elem_of_cons.
    + destruct (H1 (d ++ [c])) as [E|[[E _]|(c' & v' & Hin & E & Hf)]].
      * exists v. split; [apply list_elem_of_here|]. unfold has_file. by rewrite E.
      * destruct Hv as [x Hx]. congruence.
      * apply app_inj_tail in E as [_ <-]. exists v'. split; [by apply list_elem_of_further|done].
    + destruct (H2 c' v' Hin) as (w & Hw & Hf). exists w. split; [by apply list_elem_of_further|done].
Qed.

Section inject.
Context (h : store_host) (pid : string).
Definition ws_dir (c : string) : path := ["proc"; pid; "root"; "run"; "enclave"; c].
(** The two directories, what leads to them, and what is directly in them. *)
Definition inject_paths (k : path) : Prop :=
  ∃ c, (c = "auth" ∨ c = "env") ∧ (k `prefix_of` ws_dir c ∨ ∃ n, k = ws_dir c ++ [n]).
Lemma inject_prefix (c : string) (k : path) : c = "auth" ∨ c = "env" → k `prefix_of` ws_dir c → inject_paths k.
Proof. intros. exists c. auto. Qed.
Lemma inject_entry (c n : string) : c = "auth" ∨ c = "env" → inject_paths (ws_dir c ++ [n]).
Proof. intros. exists c. eauto. Qed.

Lemma file_clear (st : store) (d : path) (c : string) n : clear st d → normal c = true → files st !! (d ++ [c]) = Some n → is_file n = true → clear st (d ++ [c]).
Proof. intros Hc Hn Hk Hf. apply clear_snoc. split_and!; [done..|]. by eapply node_not_link. Qed.
Lemma does_remove_providers (st : store) (l : list string) : clear st (ws_dir "auth") → 7 < steps h →
  does inject_paths st (remove_providers h (ws_dir "auth") l) (λ _ st', shrinks st st' ∧ ∀ p, p ∈ l → no_file st' (ws_dir "auth" ++ [p +:+ ".token"])).
Proof.
  intros Hc Hs. revert st Hc. induction l as [|p l IH]; intros st Hc; cbn [remove_providers].
  { apply does_ret. split; [by apply shrinks_same|]. by intros p ?%not_elem_of_nil. }
  eapply does_bind; [apply (does_lift _ st _ (λ q st', q = ws_dir "auth" ++ [p +:+ ".token"] ∧ st' = st))|].
  { intros q (u & _ & [= <-])%bind_Ok. done. }
  intros ? ? [-> ->] _. apply does_get.
  eapply does_bind with (Q := λ _ st', shrinks st st' ∧ no_file st' (ws_dir "auth" ++ [p +:+ ".token"])).
  - destruct (path_exists h st _) eqn:Ex.
    + eapply does_weaken; [apply does_remove_file; [done|apply inject_entry; by auto]|]. intros ? st1 E1 _. split; [exact (shrinks_delete _ _ _ E1)|].
      intros n. rewrite E1, lookup_delete_eq. done.
    + apply does_ret. split; [by apply shrinks_same|]. intros n Hn. destruct (is_file n) eqn:Ef; [|done].
      rewrite exists_clear, bool_decide_true in Ex; [done|by eauto|by eapply file_clear; [done|apply token_name_normal|..]|cbn; lia].
  - intros ? st1 [Hs1 Hn1] Hev1. eapply does_weaken; [apply IH; by eapply clear_evolves|]. intros ? st2 [Hs2 Hn2] _.
    split; [by eapply shrinks_trans|]. intros p' [->|Hp']%elem_of_cons; [by eapply no_file_shrinks|by apply Hn2].
Qed.
Lemma does_remove_env (st : store) (l : list string) : clear st (ws_dir "env") → 7 < steps h → (∀ c, c ∈ l → normal c = true) →
  does inject_paths st (remove_env_files h (ws_dir "env") l) (λ _ st', shrinks st st' ∧ ∀ c, c ∈ l → no_file st' (ws_dir "env" ++ [c])).
Proof.
  intros Hc Hs. revert st Hc. induction l as [|c l IH]; intros st Hc Hn; cbn [remove_env_files].
  { apply does_ret. split; [by apply shrinks_same|]. by intros p ?%not_elem_of_nil. }
  eapply does_bind; [apply does_attempts|]. intros ? st0 E0 Hev0. apply does_get.
  assert (clear st0 (ws_dir "env")) as Hc0 by (by eapply clear_evolves).
  eapply does_bind with (Q := λ _ st', shrinks st st' ∧ no_file st' (ws_dir "env" ++ [c])).
  - destruct (match node_at h st0 _ with Some x => is_file x | None => false end) eqn:Ex.
    + eapply does_weaken; [apply does_remove_file; [done|apply inject_entry; by auto]|]. intros ? st1 E1 _. rewrite E0 in E1. split; [exact (shrinks_delete _ _ _ E1)|].
      intros n. rewrite E1, lookup_delete_eq. done.
    + apply does_ret. split; [by apply shrinks_same|]. intros n Hk. destruct (is_file n) eqn:Ef; [|done].
      unfold node_at in Ex. rewrite real_clear in Ex; [cbn [mbind option_bind] in Ex; rewrite Hk in Ex; congruence| |cbn; lia].
      eapply file_clear; [done|apply Hn, list_elem_of_here|done|done].
  - intros ? st1 [Hs1 Hn1] Hev1. eapply does_weaken; [apply IH; [by eapply clear_evolves|intros; by apply Hn, list_elem_of_further]|]. intros ? st2 [Hs2 Hn2] _.
    split; [by eapply shrinks_trans|]. intros p' [->|Hp']%elem_of_cons; [by eapply no_file_shrinks|by apply Hn2].
Qed.
Lemma does_write_entry (st : store) (c n v : string) : c = "auth" ∨ c = "env" → clear st (ws_dir c) →
  does inject_paths st (write_file_atomic_with h (ws_dir c ++ [n]) v 256 BestEffort) (λ _ st', has_file h st' (ws_dir c ++ [n]) v ∧
    ∀ k, k ≠ ws_dir c ++ [n] → files st' !! k = files st !! k ∨ (files st !! k = None ∧ dir_at st' k)).
Proof. intros Hc Hcl. apply does_write; [done|intros; by eapply inject_prefix|by apply inject_entry|intros; by apply inject_entry]. Qed.
Lemma does_write_tokens (st : store) (l : list WorkspaceAuthToken) : clear st (ws_dir "auth") →
  does inject_paths st (write_tokens h (ws_dir "auth") l) (λ _ st', wrote h (ws_dir "auth") ((λ t, (Auth.name t +:+ ".token", Auth.token t)) <$> l) st st').
Proof.
  revert st. induction l as [|t l IH]; intros st Hc; cbn [write_tokens]; [apply does_ret, wrote_nil|].
  eapply does_bind; [apply (does_lift _ st _ (λ q st', q = ws_dir "auth" ++ [Auth.name t +:+ ".token"] ∧ st' = st))|].
  { intros q (u & _ & [= <-])%bind_Ok. done. }
  intros ? ? [-> ->] _. eapply does_bind; [apply does_write_entry; [by left|done]|]. intros ? st1 [H1 H2] Hev1.
  eapply does_weaken; [apply IH; by eapply clear_evolves|]. intros ? st2 Hw _. rewrite fmap_cons. by eapply wrote_cons.
Qed.
Lemma does_write_env (st : store) (l : list WorkspaceAuthToken) : clear st (ws_dir "env") →
  does inject_paths st (write_env_tokens h (ws_dir "env") l) (λ _ st', wrote h (ws_dir "env") ((λ t, (env_var t, Auth.token t)) <$> l) st st').
Proof.
  revert st. induction l as [|t l IH]; intros st Hc; cbn [write_env_tokens]; [apply does_ret, wrote_nil|].
  eapply does_bind; [apply does_write_entry; [by right|done]|]. intros ? st1 [H1 H2] Hev1.
  eapply does_weaken; [apply IH; by eapply clear_evolves|]. intros ? st2 Hw _. rewrite fmap_cons. by eapply wrote_cons.
Qed.

(** What the workspace finds afterwards. *)
Definition injected (st : store) (tokens env : list WorkspaceAuthToken) : Prop :=
  (∀ p, p ∈ supported_providers → p ∉ Auth.name <$> tokens → no_file st (ws_dir "auth" ++ [p +:+ ".token"])) ∧
  (∀ t, t ∈ tokens → ∃ t', t' ∈ tokens ∧ Auth.name t' = Auth.name t ∧ has_file h st (ws_dir "auth" ++ [Auth.name t +:+ ".token"]) (Auth.token t')) ∧
  (∀ c n, files st !! (ws_dir "env" ++ [c]) = Some n → is_file n = true → ∃ t, t ∈ env ∧ env_var t = c ∧ kind n = HFile (Auth.token t)) ∧
  (∀ t, t ∈ env → ∃ t', t' ∈ env ∧ env_var t' = env_var t ∧ has_file h st (ws_dir "env" ++ [env_var t]) (Auth.token t')).
Lemma has_file_not_same (st st' : store) (k : path) (v : string) (l : list (string * string)) (d : path) : has_file h st k v → wrote h d l st st' →
  (∀ c, k ≠ d ++ [c]) → has_file h st' k v.
Proof.
  intros Hf [H1 _] Hk. destruct (H1 k) as [E|[[E _]|(c & x & _ & E & _)]]; [unfold has_file; by rewrite E|destruct Hf as [? ?]; congruence|by apply Hk in E].
Qed.
Lemma no_file_wrote (st st' : store) (k : path) (l : list (string * string)) (d : path) : no_file st k → wrote h d l st st' →
  (∀ c v, (c, v) ∈ l → k ≠ d ++ [c]) → no_file st' k.
Proof.
  intros Hf [H1 _] Hk n Hn. destruct (H1 k) as [E|[[_ (m & Hm & Hd)]|(c & x & Hin & E & _)]].
  - apply Hf. congruence.
  - unfold is_file. assert (n = m) as -> by congruence. by rewrite Hd.
  - by apply Hk in Hin.
Qed.
Lemma entries_elem (order : list string → list string) (d : path) (st : store) (c : string) n : (∀ l, order l ≡ₚ l) →
  files st !! (d ++ [c]) = Some n → c ∈ entries_of order d st.
Proof.
  intros Ho Hn. unfold entries_of. rewrite Ho. apply list_elem_of_omap. exists (d ++ [c], n). split; [by apply elem_of_map_to_list|]. cbn. by rewrite strip_path_app.
Qed.
Lemma entries_inv (order : list string → list string) (d : path) (st : store) (c : string) : (∀ l, order l ≡ₚ l) →
  c ∈ entries_of order d st → ∃ n, files st !! (d ++ [c]) = Some n.
Proof.
  intros Ho. unfold entries_of. rewrite Ho. intros ([k n] & Hk%elem_of_map_to_list & E)%list_elem_of_omap. cbn in E.
  destruct (strip_path d k) as [[|x []]|] eqn:Es; try done. injection E as ->. apply strip_path_Some in Es as ->. by exists n.
Qed.
Lemma dirs_apart (a b : string) : ws_dir "auth" ++ [a] ≠ ws_dir "env" ++ [b].
Proof. intros E. discriminate E. Qed.

Lemma does_write_workspace_auth (order : list string → list string) (rootfs : string) (tokens env : list WorkspaceAuthToken) (st : store) :
  is_workspace_namespace_root rootfs = Some pid → (∀ l, order l ≡ₚ l) → 7 < steps h →
  clear st (ws_dir "auth") → clear st (ws_dir "env") → (∀ c n, files st !! (ws_dir "env" ++ [c]) = Some n → normal c = true) →
  does inject_paths st (write_workspace_auth h order rootfs tokens env) (λ _ st', injected st' tokens env).
Proof.
  intros Hp Ho Hs Hca Hce Hnames. unfold write_workspace_auth. rewrite Hp. cbn [ok_or].
  eapply does_bind; [apply (does_assert _ st _ _ (λ _ st', st' = st)); done|]. intros ? ? -> _.
  eapply does_bind; [apply (does_lift _ st _ (λ x st', x = pid ∧ st' = st)); by intros ? [= <-]|]. intros ? ? [-> ->] _.
  change (["proc"; pid; "root"; "run"; "enclave"; "auth"]) with (ws_dir "auth"). change (["proc"; pid; "root"; "run"; "enclave"; "env"]) with (ws_dir "env").
  cbv zeta. eapply does_bind; [eapply (does_tight (λ k, k `prefix_of` ws_dir "auth")); [intros; by eapply (inject_prefix "auth"); [left|]|]|].
  { apply does_create_dir_all; [by eapply clear_prefix; [apply removelast_prefix|]|done]. }
  intros ? st1 [_ Hf1] Hev1.
  eapply does_bind; [eapply (does_tight (λ k, k `prefix_of` ws_dir "env")); [intros; by eapply (inject_prefix "env"); [right|]|]|].
  { apply does_create_dir_all; [eapply clear_prefix; [apply removelast_prefix|by eapply clear_evolves]|done]. }
  intros ? st2 [_ Hf2] Hev2. assert (evolves inject_paths st st2) as Hev12 by (by eapply ev_trans).
  eapply does_bind; [apply does_remove_providers; [by apply (clear_evolves _ _ _ _ Hev12)|done]|]. intros ? st3 [Hs3 Hn3] Hev3.
  eapply does_bind; [apply does_attempts|]. intros ? st4 E4 Hev4. apply does_get.
  assert (evolves inject_paths st st4) as Hev14 by (by eapply ev_trans; [|eapply ev_trans]).
  assert (clear st4 (ws_dir "env")) as Hce4 by (by apply (clear_evolves _ _ _ _ Hev14)).
  eapply does_bind; [apply (does_lift _ st4 _ (λ q st', q = ws_dir "env" ∧ st' = st4))|].
  { intros q Hq%ok_or_Ok. split; [|done]. by apply (real_sound h st4). }
  intros ? ? [-> ->] _. eapply does_bind; [apply does_remove_env; [done|done|]|].
  { intros c [n Hn]%entries_inv; [|done]. rewrite E4 in Hn. destruct (Hs3 (ws_dir "env" ++ [c])) as [E|E]; [|congruence].
    rewrite E, (ev_frame _ _ _ Hf2), (ev_frame _ _ _ Hf1) in Hn; [by apply (Hnames c n)|..]; intros [r Er]; apply (f_equal length) in Er; cbn in Er; lia. }
  intros ? st5 [Hs5 Hn5] Hev5.
  eapply does_bind; [apply does_write_tokens|]. { apply (clear_evolves _ _ _ _ Hev5), (clear_evolves _ _ _ _ Hev14), Hca. }
  intros ? st6 Hw6 Hev6.
  eapply does_weaken; [apply does_write_env|]. { apply (clear_evolves _ _ _ _ Hev6), (clear_evolves _ _ _ _ Hev5), Hce4. }
  intros ? st7 Hw7 _. unfold injected. split_and!.
  - intros p Hp1 Hp2. eapply no_file_wrote; [|exact Hw7|intros c v _; apply dirs_apart].
    eapply no_file_wrote; [|exact Hw6|].
    + eapply no_file_shrinks; [exact Hs5|]. intros n. rewrite E4. by apply Hn3.
    + intros c v (t & [= -> ->] & Ht)%list_elem_of_fmap E. apply app_inj_tail in E as [_ E]. apply str_app_inj_r in E as ->.
      apply Hp2, list_elem_of_fmap. by exists t.
  - intros t Ht. destruct Hw6 as [H1 H2]. destruct (H2 (Auth.name t +:+ ".token") (Auth.token t)) as (v & (t' & [= E ->] & Ht')%list_elem_of_fmap & Hf).
    { apply list_elem_of_fmap. by exists t. }
    exists t'. split_and!; [done|by apply str_app_inj_r in E|]. eapply has_file_not_same; [exact Hf|exact Hw7|intros; apply dirs_apart].
  - intros c n Hn Hf. destruct Hw7 as [H1 _]. destruct (H1 (ws_dir "env" ++ [c])) as [E|[[_ (m & Hm & Hd)]|(c' & v & (t & [= -> ->] & Ht)%list_elem_of_fmap & E & [x Hx])]].
    + exfalso. assert (no_file st6 (ws_dir "env" ++ [c])) as Hno; [|rewrite Hno in Hf; [done|congruence]].
      eapply no_file_wrote; [|exact Hw6|intros c' v _ E'; symmetry in E'; by apply dirs_apart in E'].
      intros m Hm. assert (c ∈ entries_of order (ws_dir "env") st4) as Hin.
      { destruct (Hs5 (ws_dir "env" ++ [c])) as [E5|E5]; [|congruence]. rewrite E5 in Hm. by eapply entries_elem. }
      by apply (Hn5 c Hin).
    + exfalso. assert (n = m) as -> by congruence. by apply (file_not_dir m).
    + apply app_inj_tail in E as [_ ->]. exists t. split_and!; [done..|]. assert (n = mkNode (HFile (Auth.token t)) (euid h) 256 x) as -> by congruence. done.
  - intros t Ht. destruct Hw7 as [_ H2]. destruct (H2 (env_var t) (Auth.token t)) as (v & (t' & [= E ->] & Ht')%list_elem_of_fmap & Hf).
    { apply list_elem_of_fmap. by exists t. }
    exists t'. split_and!; [done|by symmetry|exact Hf].
Qed.
End inject.

(** C37: after the tokens of a workspace were written into it, it finds exactly those: every resolved token under
    its name, no file of a provider that resolved to nothing, as after a revocation, and no other file in the
    environment directory.  Whether that succeeds or not, and whatever links are among the entries of the two
    directories, nothing else of the host changes.  That holds while [run/enclave/auth] and [run/enclave/env]
    and the directories above them are no links themselves; [linked_injection_escapes] is what happens when the
    workspace made them links. *)
Theorem injected_exactly (h : store_host) (pid : string) (order : list string → list string) (dir : path) (at_call : TokenScope → string → nat)
    (rootfs : string) (target : WorkspaceAuthTarget) (auth_providers env_tokens : list string) (st : store) :
  is_workspace_namespace_root rootfs = Some pid → (∀ l, order l ≡ₚ l) → 7 < steps h →
  clear st (ws_dir pid "auth") → clear st (ws_dir pid "env") → (∀ c n, files st !! (ws_dir pid "env" ++ [c]) = Some n → normal c = true) →
  let load scope name := (load_token h dir scope name (mkStore (files st) (at_call scope name))).1 in
  let '(tokens, env) := injectable load (owner target) auth_providers env_tokens in
  let '(r, st') := inject_workspace_auth h order dir at_call rootfs target auth_providers env_tokens st in
  (∀ k, ¬ inject_paths pid k → files st' !! k = files st !! k) ∧
  match r with Ok l => l = merge_channels tokens env ∧ injected h pid st' tokens env | Err _ => True end.
Proof.
  intros Hp Ho Hs Ha He Hn. cbn zeta. unfold inject_workspace_auth, get. unfold mbind at 1, stm_bind at 1.
  destruct (injectable _ (owner target) auth_providers env_tokens) as [tokens env].
  pose proof (does_write_workspace_auth h pid order rootfs tokens env st Hp Ho Hs Ha He Hn) as Hd. unfold does in Hd. unfold mbind, stm_bind.
  destruct (write_workspace_auth h order rootfs tokens env st) as [[[]|e] st']; destruct Hd as [Hev HQ]; unfold mret, stm_ret.
  - split; [intros k Hk; by apply (ev_frame _ _ _ Hev)|]. split; [done|by apply (HQ tt)].
  - split; [intros k Hk; by apply (ev_frame _ _ _ Hev)|done].
Qed.

(** ** Examples *)

Definition sample_store_host : store_host := mkStoreHost 64 0 493 (λ _, true) Z.of_nat (λ _, 0) (λ _, "7.1.a") (λ _, "2026-01-01T00:00:00Z").
Definition sdir (m : Z) : fnode := mkNode HDir 0 m 0.
Definition sample_store : store :=
  mkStore (list_to_map [([], sdir 493); (["state"], sdir 448); (["proc"], sdir 493); (["proc"; "7"], sdir 493); (["proc"; "7"; "root"], sdir 493);
    (["proc"; "7"; "root"; "run"], sdir 493); (["proc"; "7"; "root"; "run"; "enclave"], sdir 493);
    (["proc"; "7"; "root"; "run"; "enclave"; "auth"], sdir 448); (["proc"; "7"; "root"; "run"; "enclave"; "env"], sdir 448);
    (["proc"; "7"; "root"; "run"; "enclave"; "env"; "OLD"], mkNode (HFile "stale") 0 256 0)]) 0.
Definition after_store : store := (manager_store_token sample_store_host ["state"] (UserScope "ann") "github" "s3cret" false sample_store).2.

Lemma stored_token_loads_witness :
  (manager_store_token sample_store_host ["state"] (UserScope "ann") "github" "s3cret" false sample_store).1 =
    Ok (Stored ["state"; "auth"; "users"; "ann"; "github.token"]) ∧
  (load_token sample_store_host ["state"] (UserScope "ann") "github" after_store).1 = Ok (Some "s3cret") ∧
  (load_token sample_store_host ["state"] SharedScope "github" after_store).1 = Ok None.
Proof.
  split; [by vm_compute|]. split; [|by vm_compute].
  pose proof (stored_token_loads sample_store_host ["state"] (UserScope "ann") "github" "s3cret" false sample_store
    ltac:(split; by vm_compute) ltac:(by vm_compute) ltac:(cbn; lia)) as Hw.
  assert ((manager_store_token sample_store_host ["state"] (UserScope "ann") "github" "s3cret" false sample_store).1 =
    Ok (Stored ["state"; "auth"; "users"; "ann"; "github.token"])) as E by (by vm_compute).
  unfold after_store. destruct (manager_store_token _ _ _ _ _ _ _) as [r st']. cbn [fst snd] in *. subst r.
  destruct Hw as (_ & _ & _ & Hload & _). by apply Hload.
Defined.
Lemma revoked_token_gone_witness :
  let '(r, st') := manager_delete_token sample_store_host ["state"] (UserScope "ann") "github" after_store in
  r = Ok true ∧ files st' !! ["state"; "auth"; "users"; "ann"; "github.token"] = None.
Proof.
  pose proof (revoked_token_gone sample_store_host ["state"] (UserScope "ann") "github" after_store
    ltac:(split; by vm_compute) ltac:(by vm_compute) ltac:(cbn; lia)) as Hw.
  assert ((manager_delete_token sample_store_host ["state"] (UserScope "ann") "github" after_store).1 = Ok true) as E by (by vm_compute).
  destruct (manager_delete_token _ _ _ _ _) as [r st']. cbn [fst] in E. subst r. destruct Hw as (_ & Hn & _). split; [done|exact Hn].
Defined.
Lemma names_normal (st : store) (d : path) :
  forallb (λ kx, match strip_path d kx.1 with Some [x] => normal x | _ => true end) (map_to_list (files st)) = true →
  ∀ c n, files st !! (d ++ [c]) = Some n → normal c = true.
Proof.
  intros Hall c n Hn. rewrite forallb_forall in Hall. specialize (Hall (d ++ [c], n)). cbn [fst] in Hall. rewrite strip_path_app in Hall.
  apply Hall. by apply list_elem_of_In, elem_of_map_to_list.
Qed.
Lemma injected_exactly_witness :
  let '(r, st') := inject_workspace_auth sample_store_host id ["state"] (λ _ _, 100) "/proc/7/root" (mkTarget "s" "w" (Some "ann")) ["github"] [] after_store in
  r = Ok [mkToken "github" "GITHUB_TOKEN" "s3cret"] ∧ no_file st' (ws_dir "7" "env" ++ ["OLD"]).
Proof.
  assert (∀ c n, files after_store !! (ws_dir "7" "env" ++ [c]) = Some n → normal c = true) as Hnames.
  { apply names_normal. by vm_compute. }
  pose proof (injected_exactly sample_store_host "7" id ["state"] (λ _ _, 100) "/proc/7/root" (mkTarget "s" "w" (Some "ann")) ["github"] [] after_store
    ltac:(by vm_compute) (λ l, Permutation_refl l) ltac:(cbn; lia) ltac:(split; by vm_compute) ltac:(split; by vm_compute) Hnames) as Hw.
  cbv zeta in Hw. destruct (injectable _ _ _ _) as [tokens env] eqn:Ei.
  assert ((tokens, env) = ([mkToken "github" "GITHUB_TOKEN" "s3cret"], [])) as [= -> ->] by (rewrite <- Ei; by vm_compute).
  clear Ei Hnames.
  assert ((inject_workspace_auth sample_store_host id ["state"] (λ _ _, 100) "/proc/7/root" (mkTarget "s" "w" (Some "ann")) ["github"] [] after_store).1 =
    Ok [mkToken "github" "GITHUB_TOKEN" "s3cret"]) as E by (by vm_compute).
  destruct (inject_workspace_auth _ _ _ _ _ _ _ _ _) as [r st']. cbn [fst] in E. subst r. destruct Hw as (_ & _ & _ & _ & Henv & _).
  split; [done|]. intros n Hn. destruct (is_file n) eqn:Ef; [|done]. destruct (Henv "OLD" n Hn Ef) as (t & Ht & _). exfalso. exact (not_elem_of_nil _ Ht).
Defined.

(** A workspace that replaced its two directories by links to directories of the host: refreshing its tokens
    succeeds, writes the token into the first and removes the files of the second. *)
Lemma linked_injection_escapes :
  let st := mkStore (<[["etc"] := sdir 493]> (<[["etc"; "passwd"] := mkNode (HFile "root") 0 420 0]> (<[["srv"] := sdir 493]>
    (<[["proc"; "7"; "root"; "run"; "enclave"; "auth"] := mkNode (HLink [""; "srv"]) 0 511 0]>
    (<[["proc"; "7"; "root"; "run"; "enclave"; "env"] := mkNode (HLink [""; "etc"]) 0 511 0]>
      (delete ["proc"; "7"; "root"; "run"; "enclave"; "env"; "OLD"] (files after_store))))))) 0 in
  let '(r, st') := inject_workspace_auth sample_store_host id ["state"] (λ _ _, 100) "/proc/7/root" (mkTarget "s" "w" (Some "ann")) ["github"] [] st in
  is_ok r = true ∧ files st !! ["srv"; "github.token"] = None ∧ data_at st' ["srv"; "github.token"] = "s3cret" ∧
  files st' !! ["etc"; "passwd"] = None.
Proof. by vm_compute. Qed.
(** A log that is a link leading nowhere is not seen as existing, so it is not refused; opening it creates the
    file it leads to. *)
Lemma dangling_log_followed :
  let st := mkStore (<[["state"; "auth"] := sdir 448]> (<[["state"; "auth"; "audit.log"] := mkNode (HLink [".."; ".."; "proc"; "log"]) 0 511 0]> (files sample_store))) 0 in
  let '(r, st') := manager_store_token sample_store_host ["state"] SharedScope "github" "s3cret" false st in
  is_ok r = true ∧ files st !! ["proc"; "log"] = None ∧ is_Some (files st' !! ["proc"; "log"]).
Proof. vm_compute. eauto. Qed.
(** When only the log cannot be written, storing fails and the token is stored all the same, with no line about it. *)
Lemma unrecorded_store :
  let h := mkStoreHost 64 0 493 (λ n, n <? 16) Z.of_nat (λ _, 0) (λ _, "7.1.a") (λ _, "2026-01-01T00:00:00Z") in
  let '(r, st') := manager_store_token h ["state"] SharedScope "github" "s3cret" false sample_store in
  is_ok r = false ∧ data_at st' ["state"; "auth"; "github.token"] = "s3cret" ∧ data_at st' ["state"; "auth"; "audit.log"] = "".
Proof. by vm_compute. Qed.
