(* ===== verification/Deadlines.v ===== *)
(** * Deadlines and their overrides (src/src/deadlines.rs, the limits of src/src/hostcmd/mod.rs)

    Durations are numbers of milliseconds.  The environment is a function from variables to values, read when
    a deadline is used; the variables that were already warned about are the state. *)
From S2P Require Import Prelude RustStr.
#[local] Open Scope Z_scope.

Inductive Unit := Milliseconds | Seconds.
Record Deadline := mkDeadline { dl_name : string; variable : string; value : Z; dl_default : Z; max : Z; overridden : bool }.

Definition parse_amount (raw : string) (unit : Unit) : option Z :=
  let trimmed := trim raw in
  if bool_decide (trimmed = "") || negb (str_all is_ascii_digit trimmed) then None
  else amount ← parse_uint u64_max trimmed; Some (match unit with Milliseconds => amount | Seconds => amount * 1000 end).

(** Warns once per variable. *)
Definition warn_once (v : string) (warned : list string) : list string := if bool_decide (v ∈ warned) then warned else warned ++ [v].
Definition resolve_from (name v : string) (unit : Unit) (default max : Z) (configured : option string) : stm (list string) Deadline :=
  match configured with
  | None => mret (mkDeadline name v default default max false)
  | Some raw =>
      match parse_amount raw unit with
      | Some amount => if negb (amount =? 0) then mret (mkDeadline name v (Z.min amount max) default max true)
                       else modify (warn_once v);; mret (mkDeadline name v default default max false)
      | None => modify (warn_once v);; mret (mkDeadline name v default default max false)
      end
  end.

Definition DEFAULT_TIMEOUT : Z := 30 * 1000.
Definition MAX_TIMEOUT : Z := 3600 * 1000.
Section table.
Context (env : string → option string).
Definition resolve (name v : string) (unit : Unit) (default max : Z) : stm (list string) Deadline := resolve_from name v unit default max (env v).
Definition session_ready := resolve "session_ready" "ENCLAVE_SESSION_READY_MS" Milliseconds 5000 (120 * 1000).
Definition runtime_exec_settle := resolve "runtime_exec_settle" "ENCLAVE_RUNTIME_EXEC_SETTLE_MS" Milliseconds 500 (30 * 1000).
Definition runtime_term_grace := resolve "runtime_term_grace" "ENCLAVE_RUNTIME_TERM_GRACE_MS" Milliseconds 500 (30 * 1000).
Definition runtime_kill_grace := resolve "runtime_kill_grace" "ENCLAVE_RUNTIME_KILL_GRACE_MS" Milliseconds 500 (30 * 1000).
Definition loop_detach := resolve "loop_detach" "ENCLAVE_LOOP_DETACH_MS" Milliseconds 2000 (60 * 1000).
Definition helper_start := resolve "helper_start" "ENCLAVE_HELPER_START_MS" Milliseconds 5000 (60 * 1000).
Definition helper_response := resolve "helper_response" "ENCLAVE_HELPER_RESPONSE_TIMEOUT_SECS" Seconds (60 * 60 * 1000) (24 * 60 * 60 * 1000).
Definition host_command := resolve "host_command" "ENCLAVE_HOST_COMMAND_TIMEOUT_SECS" Seconds DEFAULT_TIMEOUT MAX_TIMEOUT.
Definition daemon_shutdown_grace := resolve "daemon_shutdown_grace" "ENCLAVE_SHUTDOWN_GRACE_SECS" Seconds (30 * 1000) (600 * 1000).
Fixpoint all_of (l : list (stm (list string) Deadline)) : stm (list string) (list Deadline) :=
  match l with [] => mret [] | m :: rest => d ← m; ds ← all_of rest; mret (d :: ds) end.
(** What daemon health reports. *)
Definition describe_all : stm (list string) (list Deadline) :=
  all_of [session_ready; runtime_exec_settle; runtime_term_grace; runtime_kill_grace; loop_detach; helper_start; host_command; daemon_shutdown_grace].
Definition table : list (stm (list string) Deadline) :=
  [session_ready; runtime_exec_settle; runtime_term_grace; runtime_kill_grace; loop_detach; helper_start; helper_response; host_command; daemon_shutdown_grace].
End table.
(** [HostCommand::new] and [HostCommand::timeout]. *)
Definition configured_timeout (env : string → option string) : stm (list string) Z := d ← host_command env; mret (value d).
Definition with_timeout (requested : Z) : Z := Z.min requested MAX_TIMEOUT.

Lemma parse_amount_bound raw unit amount : parse_amount raw unit = Some amount → 0 ≤ amount.
Proof.
  unfold parse_amount. destruct (_ || _); [done|]. intros (x & Hx%parse_uint_bound & [= <-])%bind_Some. destruct unit; lia.
Qed.
Lemma resolve_bounded env name v unit default max w : 0 < default ≤ max →
  ∃ d w', resolve env name v unit default max w = (Ok d, w') ∧ 0 < value d ≤ max ∧ Deadlines.max d = max ∧ variable d = v ∧
    (overridden d = false → value d = default) ∧
    (overridden d = true ↔ ∃ raw amount, env v = Some raw ∧ parse_amount raw unit = Some amount ∧ amount ≠ 0 ∧ value d = Z.min amount max) ∧
    (∀ x, x ∈ w' → x ∈ w ∨ x = v).
Proof.
  intros Hd. unfold resolve, resolve_from.
  assert (∀ x, x ∈ warn_once v w → x ∈ w ∨ x = v) as Hw.
  { intros x. unfold warn_once. case_bool_decide; [by left|]. rewrite elem_of_app, list_elem_of_singleton. tauto. }
  destruct (env v) as [raw|] eqn:Ee; [destruct (parse_amount raw unit) as [amount|] eqn:Ea; [destruct (negb _) eqn:Ez|]|]; unfold modify, mret, stm_ret, mbind, stm_bind;
    eexists _, _; (split; [reflexivity|]); cbn [value Deadlines.max variable overridden].
  - apply parse_amount_bound in Ea as Hb. apply negb_true_iff, Z.eqb_neq in Ez. split_and!; try (lia || done); [|by left]. split; [|done]. intros _. eauto 10.
  - apply negb_false_iff, Z.eqb_eq in Ez as ->. split_and!; try (lia || done). split; [done|]. intros (r & a & [= <-] & Ha & Hn & _). congruence.
  - split_and!; try (lia || done). split; [done|]. intros (r & a & [= <-] & Ha & _). congruence.
  - split_and!; try (lia || done); [|by left]. split; [done|]. by intros (r & a & [=] & _).
Qed.

(** Every wait of the lifecycle is bounded whatever the environment says: its value is positive and at most
    its ceiling, it is the default unless the variable holds a positive number, and then that number in the
    variable's unit, cut at the ceiling. *)
Theorem deadlines_bounded (env : string → option string) (m : stm (list string) Deadline) (w : list string) : m ∈ table env →
  ∃ d w', m w = (Ok d, w') ∧ 0 < value d ≤ max d ∧ (overridden d = false → value d = dl_default d) ∧
    (overridden d = true → ∃ raw unit amount, env (variable d) = Some raw ∧ parse_amount raw unit = Some amount ∧ 0 < amount ∧ value d = Z.min amount (max d)).
Proof.
  assert (∀ name v unit default mx, 0 < default ≤ mx → ∃ d w', resolve env name v unit default mx w = (Ok d, w') ∧ 0 < value d ≤ max d ∧
    (overridden d = false → value d = dl_default d) ∧
    (overridden d = true → ∃ raw unit amount, env (variable d) = Some raw ∧ parse_amount raw unit = Some amount ∧ 0 < amount ∧ value d = Z.min amount (max d))) as Hr.
  { intros name v unit default mx Hd. destruct (resolve_bounded env name v unit default mx w Hd) as (d & w' & E & Hb & Em & Ev & Hn & Ho & _).
    exists d, w'. rewrite Em. split_and!; [done|lia|lia| |].
    - intros Hf. rewrite Hn by done. revert E. unfold resolve, resolve_from. destruct (env v); [destruct (parse_amount _ _); [destruct (negb _)|]|]; by intros [= <- _].
    - intros Ht. apply Ho in Ht as (raw & amount & E1 & E2 & E3 & E4). exists raw, unit, amount. apply parse_amount_bound in E2 as Hb'. rewrite Ev. split_and!; (done || lia). }
  unfold table. intros Hin. repeat (apply elem_of_cons in Hin as [->|Hin]; [apply Hr; unfold DEFAULT_TIMEOUT, MAX_TIMEOUT; lia|]). by apply not_elem_of_nil in Hin.
Qed.
Lemma deadlines_bounded_witness :
  ∃ d w', helper_response (λ _, Some " 999999 ") [] = (Ok d, w') ∧ 0 < value d ≤ max d ∧ value d = 86400000.
Proof.
  destruct (deadlines_bounded (λ _, Some " 999999 ") (helper_response (λ _, Some " 999999 ")) []) as (d & w' & E & Hb & _).
  - unfold table. rewrite !elem_of_cons. tauto.
  - exists d, w'. split; [done|]. split; [done|]. vm_compute in E. by injection E as <- <-.
Defined.
(** The report of daemon health leaves out the deadline of a helper's answer. *)
Lemma helper_response_not_reported env w : match describe_all env w with
  | (Ok l, _) => "helper_response" ∉ dl_name <$> l
  | _ => False
  end.
Proof.
  assert (∀ name v unit default mx w, ∃ d w', resolve env name v unit default mx w = (Ok d, w') ∧ dl_name d = name) as Hn.
  { intros. unfold resolve, resolve_from. destruct (env v); [destruct (parse_amount _ _); [destruct (negb _)|]|]; unfold modify, mret, stm_ret, mbind, stm_bind; eauto. }
  assert (∀ l names w, Forall2 (λ m n, ∀ w, ∃ d w', m w = (Ok d, w') ∧ dl_name d = n) l names → ∃ ds w', all_of l w = (Ok ds, w') ∧ dl_name <$> ds = names) as Hall.
  { intros l names w0 Hl. revert w0. induction Hl as [|m n l names Hm Hl IH]; intros w0; [by exists [], w0|]. cbn [all_of]. unfold mbind, stm_bind.
    destruct (Hm w0) as (d & w1 & -> & Hd). destruct (IH w1) as (ds & w2 & -> & Hds). exists (d :: ds), w2. cbn [fmap list_fmap]. by rewrite Hd, Hds. }
  unfold describe_all. edestruct Hall as (ds & w' & -> & ->); [repeat (constructor; [intros; apply Hn|]); constructor|]. apply (bool_decide_unpack _). by vm_compute.
Qed.
