(* ===== verification/Confine.v ===== *)
(** * What confines a workspace: capabilities and the system call filter
    (src/src/workspace/session/security/capabilities.rs), the user namespace
    (src/src/workspace/session/userns) and the cache of namespace descriptors
    (src/src/workspace/session/namespace_cache.rs)

    The filter is a program of the kernel's packet filter machine, which [bpf] runs as documented; the
    numbers of system calls are those of x86_64. *)
From S2P Require Import Prelude RustStr.
#[local] Open Scope Z_scope.

(** ** The filter machine *)

Record sock_filter := mkInsn { insn_code : Z; jt : nat; jf : nat; k : Z }.
(** What a filter looks at: offset 0 is the number, offset 4 the architecture. *)
Record seccomp_data := mkData { nr : Z; arch : Z }.

Definition BPF_LD_W_ABS : Z := 32.
Definition BPF_JMP_JEQ_K : Z := 21.
Definition BPF_RET_K : Z := 6.
Definition load (d : seccomp_data) (offset : Z) : option Z :=
  if offset =? 0 then Some (nr d) else if offset =? 4 then Some (arch d) else None.
(** The value a program returns; a jump skips instructions, and a program that runs over its end is refused. *)
Fixpoint bpf (fuel : nat) (d : seccomp_data) (a : Z) (l : list sock_filter) : option Z :=
  match fuel, l with
  | S fuel', i :: rest =>
      if insn_code i =? BPF_LD_W_ABS then a' ← load d (k i); bpf fuel' d a' rest
      else if insn_code i =? BPF_JMP_JEQ_K then bpf fuel' d a (drop (if a =? k i then jt i else jf i) rest)
      else if insn_code i =? BPF_RET_K then Some (k i)
      else None
  | _, _ => None
  end.
Definition run_filter (l : list sock_filter) (d : seccomp_data) : option Z := bpf (length l) d 0 l.

(** ** The filter (capabilities.rs) *)

Definition AUDIT_ARCH_X86_64 : Z := 0xC000003E.
Definition SECCOMP_RET_ALLOW : Z := 0x7fff0000.
Definition SECCOMP_RET_ERRNO : Z := 0x00050000.
Definition SECCOMP_RET_KILL_PROCESS : Z := 0x80000000.
Definition EPERM : Z := 1.
Definition SYS_mount : Z := 165.
Definition SYS_clone3 : Z := 435.
(** In the order of the source: acct, add_key, bpf, delete_module, finit_module, fsconfig, fsopen, fsmount,
    init_module, io_uring_enter, io_uring_register, io_uring_setup, kcmp, kexec_file_load, kexec_load, keyctl,
    mknod, mknodat, mount, mount_setattr, move_mount, name_to_handle_at, open_by_handle_at, open_tree,
    perf_event_open, personality, pivot_root, process_vm_readv, process_vm_writev, ptrace, quotactl, reboot,
    request_key, setns, swapoff, swapon, syslog, umount2, unshare, userfaultfd. *)
Definition denied_syscalls (allow_clone3 : bool) : list Z :=
  [163; 248; 321; 176; 313; 431; 430; 432; 175; 426; 427; 425; 312; 320; 246; 250; 133; 259; SYS_mount; 442; 429; 303; 304; 428;
   298; 135; 155; 310; 311; 101; 179; 169; 249; 308; 168; 167; 103; 166; 272; 323] ++
  (if allow_clone3 then [] else [SYS_clone3]).

Definition stmt (code k : Z) : sock_filter := mkInsn code 0 0 k.
Definition jump (code k : Z) (jt jf : nat) : sock_filter := mkInsn code jt jf k.
Definition deny_action : Z := Z.lor SECCOMP_RET_ERRNO EPERM.
Definition deny (syscall : Z) : list sock_filter := [jump BPF_JMP_JEQ_K syscall 0 1; stmt BPF_RET_K deny_action].
Definition seccomp_filter (allow_clone3 : bool) : list sock_filter :=
  [stmt BPF_LD_W_ABS 4; jump BPF_JMP_JEQ_K AUDIT_ARCH_X86_64 1 0; stmt BPF_RET_K SECCOMP_RET_KILL_PROCESS; stmt BPF_LD_W_ABS 0] ++
  (denied_syscalls allow_clone3 ≫= deny) ++ [stmt BPF_RET_K SECCOMP_RET_ALLOW].

(** ** Capabilities *)

Definition EXEC_CAPABILITIES : list Z := [0; 1; 3; 5; 6; 7; 10].
(** Two words of 32 capabilities for each set. *)
Record CapUserData := mkCaps { effective : Z; permitted : Z; inheritable : Z }.
Record process := mkProcess {
  bounding : gset Z;
  caps : CapUserData * CapUserData;
  no_new_privs : bool;
  filters : list (list sock_filter) }.
Record kernel := mkKernel {
  cap_last_cap : option string;               (** the text of /proc/sys/kernel/cap_last_cap *)
  can_drop : Z → bool;
  can_capset : bool;
  can_set_no_new_privs : bool;
  can_filter : bool }.

Definition read_cap_last_cap (text : option string) : option Z := raw ← text; parse_uint u32_max (trim raw).

Section kernel.
Context (h : kernel).

Fixpoint drop_bounding (n : nat) (cap : Z) (keep : list Z) : stm process unit :=
  match n with
  | O => mret tt
  | S n' =>
      (if bool_decide (cap ∈ keep) then mret tt
       else assert (can_drop h cap) "failed to drop capability from bounding set";;
            modify (λ p, mkProcess (bounding p ∖ {[ cap ]}) (caps p) (no_new_privs p) (filters p)));;
      drop_bounding n' (cap + 1) keep
  end.
Definition add_cap (mask : Z) (c : CapUserData) : CapUserData :=
  mkCaps (Z.lor (effective c) mask) (Z.lor (permitted c) mask) (Z.lor (inheritable c) mask).
Definition no_caps : CapUserData := mkCaps 0 0 0.
(** [None]: a capability beyond the two words. *)
Fixpoint cap_words (keep : list Z) (data : CapUserData * CapUserData) : option (CapUserData * CapUserData) :=
  match keep with
  | [] => Some data
  | cap :: rest =>
      let mask := Z.shiftl 1 (cap mod 32) in
      if cap / 32 =? 0 then cap_words rest (add_cap mask data.1, data.2)
      else if cap / 32 =? 1 then cap_words rest (data.1, add_cap mask data.2)
      else None
  end.
Definition apply_capability_policy (keep : list Z) : stm process unit :=
  let last_cap := default 40 (read_cap_last_cap (cap_last_cap h)) in
  drop_bounding (S (Z.to_nat last_cap)) 0 keep;;
  data ← lift (ok_or (cap_words keep (no_caps, no_caps)) (plain "capability out of range"));
  assert (can_capset h) "capset failed";;
  modify (λ p, mkProcess (bounding p) data (no_new_privs p) (filters p)).
Definition set_no_new_privs : stm process unit :=
  assert (can_set_no_new_privs h) "failed to set no_new_privs";;
  modify (λ p, mkProcess (bounding p) (caps p) true (filters p)).
Definition install_seccomp_filter (allow_clone3 : bool) : stm process unit :=
  assert (can_filter h) "failed to install seccomp filter";;
  modify (λ p, mkProcess (bounding p) (caps p) (no_new_privs p) (seccomp_filter allow_clone3 :: filters p)).
Definition apply_exec_restrictions : stm process unit :=
  apply_capability_policy EXEC_CAPABILITIES;; set_no_new_privs;; install_seccomp_filter true.
Definition apply_session_restrictions : stm process unit :=
  apply_capability_policy [];; set_no_new_privs;; install_seccomp_filter false.
End kernel.

(** ** The user namespace (userns/mod.rs, subid.rs) *)

Definition REQUIRED_SUBID_COUNT : Z := 65536.
Record IdMapRange := mkRange { inner_start : Z; outer_start : Z; count : Z }.
Record UserNamespacePlan := mkPlan { plan_owner : string; uid_map : IdMapRange; gid_map : IdMapRange }.
Inductive UserNamespaceMode := Enabled (plan : UserNamespacePlan) | Disabled.
Record SubordinateIdRange := mkSub { owner : string; sub_start : Z; sub_count : Z }.

Definition parse_sub_line (line : string) : result (option SubordinateIdRange) :=
  let trimmed := trim line in
  if bool_decide (trimmed = "") || starts_with "#" trimmed then Ok None
  else
    match split ":" trimmed with
    | owner :: start :: count :: rest =>
        s ← ok_or (parse_uint u32_max start) (plain "invalid start value");
        c ← ok_or (parse_uint u32_max count) (plain "invalid count value");
        if bool_decide (rest = []) then Ok (Some (mkSub owner s c)) else bail "too many fields"
    | _ :: start :: [] => ok_or (parse_uint u32_max start) (plain "invalid start value");; bail "invalid line"
    | _ => bail "invalid line"
    end.
Fixpoint parse_sub_lines (l : list string) : result (list SubordinateIdRange) :=
  match l with
  | [] => Ok []
  | line :: rest =>
      r ← parse_sub_line line;
      others ← parse_sub_lines rest;
      Ok (match r with Some x => x :: others | None => others end)
  end.
Definition parse_subordinate_id_file (raw : option string) : result (list SubordinateIdRange) :=
  text ← ok_or raw (plain "failed to read");
  ranges ← parse_sub_lines (lines text);
  if bool_decide (length ranges = 0%nat) then bail "no entries found; configure subordinate id ranges" else Ok ranges.

Definition push_owner_candidate (owners : list string) (value : string) : list string :=
  let trimmed := trim value in
  if negb (bool_decide (trimmed = "")) && negb (bool_decide (trimmed ∈ owners)) then owners ++ [trimmed] else owners.
(** The override, the effective user and the three variables, in this order. *)
Record user_env := mkUserEnv { override : option string; effective_user : option string; env_names : list (option string) }.
Definition preferred_owners_with_effective_user (e : user_env) : list string :=
  foldl (λ owners v, match v with Some x => push_owner_candidate owners x | None => owners end) []
    (override e :: effective_user e :: env_names e).
Definition choose_owner (e : user_env) (uid_ranges gid_ranges : list SubordinateIdRange) : result string :=
  let common := filter (λ o, o ∈ owner <$> gid_ranges) (remove_dups (owner <$> uid_ranges)) in
  if bool_decide (common = []) then bail "no common owner exists"
  else match list_find (λ o, o ∈ common) (preferred_owners_with_effective_user e) with
       | Some (_, o) => Ok o
       | None =>
           if bool_decide ("root" ∈ common) then Ok "root"
           else match common with
                | [o] => Ok o
                | _ => bail "unable to choose a subordinate id owner automatically"
                end
       end.
Definition subordinate_user_namespace_plan_from_ranges (e : user_env) (uid_ranges gid_ranges : list SubordinateIdRange) : result UserNamespacePlan :=
  o ← choose_owner e uid_ranges gid_ranges;
  u ← ok_or (snd <$> list_find (λ r, owner r = o) uid_ranges) (plain "missing subuid range");
  g ← ok_or (snd <$> list_find (λ r, owner r = o) gid_ranges) (plain "missing subgid range");
  if Z.min (sub_count u) (sub_count g) <? REQUIRED_SUBID_COUNT then bail "subordinate id range is too small"
  else Ok (mkPlan o (mkRange 0 (sub_start u) REQUIRED_SUBID_COUNT) (mkRange 0 (sub_start g) REQUIRED_SUBID_COUNT)).
Definition subordinate_user_namespace_plan (e : user_env) (subuid subgid : option string) : result UserNamespacePlan :=
  u ← parse_subordinate_id_file subuid;
  g ← parse_subordinate_id_file subgid;
  subordinate_user_namespace_plan_from_ranges e u g.
Definition root_can_use_subordinate_plan (p : UserNamespacePlan) : bool := bool_decide (plan_owner p = "root").
Definition detect_user_namespace_mode_uncached (euid : Z) (e : user_env) (subuid subgid : option string) : result UserNamespaceMode :=
  if euid =? 0 then
    match subordinate_user_namespace_plan e subuid subgid with
    | Ok plan => if root_can_use_subordinate_plan plan then Ok (Enabled plan) else Ok Disabled
    | Err _ => Ok Disabled
    end
  else plan ← subordinate_user_namespace_plan e subuid subgid; Ok (Enabled plan).
(** The first answer is kept for the life of the daemon. *)
Definition detect_user_namespace_mode (euid : Z) (e : user_env) (subuid subgid : option string) : stm (option UserNamespaceMode) UserNamespaceMode :=
  cached ← get;
  match cached with
  | Some mode => mret mode
  | None =>
      mode ← lift (detect_user_namespace_mode_uncached euid e subuid subgid);
      modify (λ _, Some mode);; mret mode
  end.

(** ** Namespace descriptors (namespace_cache.rs) *)

Definition CACHE_LIMIT : nat := 256.
Abbreviation cache_key := (Z * Z)%type.
Record CachedHandles := mkHandles { identity : list string; descriptors : list Z }.
Abbreviation ns_cache := (gmap (Z * Z) CachedHandles).
Record ns_host := mkNsHost {
  alive : bool;                                        (** the pid has this start time *)
  current : option (list string);                      (** its namespaces, as links *)
  open_handles : option (list Z);
  victim : ns_cache → cache_key;                       (** the first key of the table *)
  can_duplicate : bool }.
Definition evict (h : ns_host) (c : ns_cache) : ns_cache := if (CACHE_LIMIT <? base.size c)%nat then delete (victim h c) c else c.
Definition duplicate_for_child (h : ns_host) (key : cache_key) : stm ns_cache (list Z) :=
  assert (alive h) "workspace runtime pid is not alive";;
  id ← lift (ok_or (current h) (plain "failed to read namespaces"));
  cache ← get;
  (if bool_decide (identity <$> cache !! key = Some id) then mret tt
   else fds ← lift (ok_or (open_handles h) (plain "failed to open namespaces")); modify (insert key (mkHandles id fds)));;
  modify (evict h);;
  cache ← get;
  entry ← lift (ok_or (cache !! key) (plain "namespace descriptor cache entry disappeared"));
  assert (can_duplicate h) "failed to duplicate namespace descriptor";;
  mret (descriptors entry).
Definition invalidate (pid : Z) (starttime : option Z) (c : ns_cache) : ns_cache :=
  match starttime with Some t => delete (pid, t) c | None => c end.

(** * Lemmas *)

(** ** The filter's verdict *)

Lemma bpf_ld n d a o rest : bpf (S n) d a (stmt BPF_LD_W_ABS o :: rest) = a' ← load d o; bpf n d a' rest.
Proof. done. Qed.
Lemma bpf_jeq n d a x t f rest : bpf (S n) d a (jump BPF_JMP_JEQ_K x t f :: rest) = bpf n d a (drop (if a =? x then t else f) rest).
Proof. done. Qed.
Lemma bpf_ret n d a v rest : bpf (S n) d a (stmt BPF_RET_K v :: rest) = Some v.
Proof. done. Qed.
Lemma deny_chain (d : seccomp_data) (a : Z) (l : list Z) (rest : list sock_filter) (r : option Z) (m : nat) :
  (1 ≤ m)%nat → (∀ n, (m ≤ n)%nat → bpf n d a rest = r) → ∀ fuel, (m + length l ≤ fuel)%nat →
  bpf fuel d a ((l ≫= deny) ++ rest) = if bool_decide (a ∈ l) then Some deny_action else r.
Proof.
  intros Hm Hr. induction l as [|x l IH]; intros fuel Hf.
  { rewrite bool_decide_false by apply not_elem_of_nil. apply Hr. cbn in Hf. lia. }
  cbn [length] in Hf. destruct fuel as [|[|fuel]]; [lia|lia|]. rewrite bind_cons, <- app_assoc. cbn [deny app]. rewrite bpf_jeq. destruct (a =? x) eqn:E.
  - apply Z.eqb_eq in E as ->. by rewrite bool_decide_true by apply list_elem_of_here.
  - apply Z.eqb_neq in E. cbn [drop]. rewrite IH by lia. destruct (decide (a ∈ l)) as [Hin|Hin].
    + rewrite !bool_decide_true; [done|by apply list_elem_of_further|done].
    + rewrite !bool_decide_false; [done| |done]. by intros [->|?]%elem_of_cons.
Qed.
(** The kernel kills another architecture, refuses the listed calls and allows every other. *)
Definition verdict (denied : list Z) (d : seccomp_data) : Z :=
  if arch d =? AUDIT_ARCH_X86_64 then if bool_decide (nr d ∈ denied) then deny_action else SECCOMP_RET_ALLOW else SECCOMP_RET_KILL_PROCESS.
Lemma filter_verdict (allow_clone3 : bool) (d : seccomp_data) :
  run_filter (seccomp_filter allow_clone3) d = Some (verdict (denied_syscalls allow_clone3) d).
Proof.
  unfold run_filter, seccomp_filter, verdict. set (l := denied_syscalls allow_clone3).
  assert (length l ≤ length (l ≫= deny))%nat as Hl.
  { clear. induction l as [|x l IH]; [done|]. rewrite bind_cons, length_app. cbn [deny length] in *. lia. }
  cbn [app length]. rewrite length_app. cbn [length]. rewrite bpf_ld. cbn [load Z.eqb Pos.eqb mbind option_bind]. rewrite bpf_jeq.
  destruct (arch d =? AUDIT_ARCH_X86_64); cbn [drop]; [|by rewrite bpf_ret]. rewrite bpf_ld. cbn [load Z.eqb mbind option_bind].
  rewrite (deny_chain d (nr d) l _ (Some SECCOMP_RET_ALLOW) 1); [by case_bool_decide|lia| |lia]. intros [|n] Hn; [lia|]. by rewrite bpf_ret.
Qed.

(** ** Capabilities *)

Section confined.
Context (h : kernel).
Abbreviation last_cap := (default 40 (read_cap_last_cap (cap_last_cap h))).
Lemma drop_bounding_Ok n cap keep p u p' : drop_bounding h n cap keep p = (Ok u, p') →
  caps p' = caps p ∧ no_new_privs p' = no_new_privs p ∧ filters p' = filters p ∧ bounding p' ⊆ bounding p ∧
  ∀ c, cap ≤ c < cap + Z.of_nat n → c ∈ bounding p' → c ∈ keep.
Proof.
  revert cap p. induction n as [|n IH]; intros cap p; cbn [drop_bounding].
  { intros [_ ->]%mret_Ok. split_and!; [done..|]. lia. }
  intros (u1 & p1 & H1 & H2)%stm_bind_Ok. apply IH in H2 as (E1 & E2 & E3 & Hsub & Hk).
  case_bool_decide as Hc.
  - apply mret_Ok in H1 as [_ ->]. split_and!; [done..|]. intros c Hr Hin. destruct (decide (c = cap)) as [->|Hne]; [done|]. apply Hk; [lia|done].
  - apply stm_bind_Ok in H1 as (u2 & p2 & [_ H1]%assert_Ok & [_ ->]%modify_Ok). destruct H1 as [_ ->]. cbn in *.
    split_and!; [done..|set_solver|]. intros c Hr Hin. destruct (decide (c = cap)) as [->|Hne]; [set_solver|]. apply Hk; [lia|done].
Qed.

(** The bits of a set of words. *)
Definition has_cap (f : CapUserData → Z) (w : CapUserData * CapUserData) (c : Z) : bool :=
  if c <? 32 then Z.testbit (f w.1) c else Z.testbit (f w.2) (c - 32).
Definition exactly (w : CapUserData * CapUserData) (keep : list Z) : Prop :=
  ∀ c, 0 ≤ c < 64 → has_cap effective w c = bool_decide (c ∈ keep) ∧ has_cap permitted w c = bool_decide (c ∈ keep) ∧
    has_cap inheritable w c = bool_decide (c ∈ keep).
Lemma testbit_mask a c i : 0 ≤ c → 0 ≤ i → Z.testbit (Z.lor a (Z.shiftl 1 c)) i = Z.testbit a i || (i =? c).
Proof. intros Hc Hi. rewrite Z.lor_spec, Z.shiftl_1_l, Z.pow2_bits_eqb by done. by rewrite (Z.eqb_sym c i). Qed.
Lemma cap_words_bits keep w0 w : Forall (λ c, 0 ≤ c) keep → cap_words keep w0 = Some w →
  ∀ f, (f = effective ∨ f = permitted ∨ f = inheritable) → ∀ c, 0 ≤ c < 64 → has_cap f w c = has_cap f w0 c || bool_decide (c ∈ keep).
Proof.
  intros Hpos. revert w0. induction Hpos as [|x keep Hx Hpos IH]; intros w0 Hw f Hf c Hc; cbn [cap_words] in Hw.
  { injection Hw as <-. rewrite bool_decide_false by apply not_elem_of_nil. by rewrite orb_false_r. }
  assert (∀ b, b || bool_decide (c ∈ x :: keep) = (b || (c =? x)) || bool_decide (c ∈ keep)) as Hin.
  { intros b. rewrite <- orb_assoc. f_equal. destruct (c =? x) eqn:E.
    - apply Z.eqb_eq in E as ->. rewrite bool_decide_true by apply list_elem_of_here. done.
    - apply Z.eqb_neq in E. cbn. apply bool_decide_ext. rewrite elem_of_cons. naive_solver. }
  rewrite Hin. destruct (x / 32 =? 0) eqn:E0; [|destruct (x / 32 =? 1) eqn:E1; [|done]].
  - apply Z.eqb_eq in E0. assert (x < 32 ∧ x mod 32 = x) as [Hlt Hm] by (split; [|apply Z.mod_small]; pose proof (Z.div_mod x 32); pose proof (Z.mod_pos_bound x 32); lia).
    rewrite (IH _ Hw f Hf c Hc). f_equal. unfold has_cap. cbn [fst snd]. destruct (c <? 32) eqn:Ec.
    + rewrite Hm. destruct Hf as [->|[->| ->]]; cbn [add_cap effective permitted inheritable]; by rewrite testbit_mask by lia.
    + apply Z.ltb_ge in Ec. assert (c =? x = false) as -> by (apply Z.eqb_neq; lia). by rewrite orb_false_r.
  - apply Z.eqb_eq in E1. assert (32 ≤ x < 64 ∧ x mod 32 = x - 32) as [Hlt Hm] by (pose proof (Z.div_mod x 32); pose proof (Z.mod_pos_bound x 32); lia).
    rewrite (IH _ Hw f Hf c Hc). f_equal. unfold has_cap. cbn [fst snd]. destruct (c <? 32) eqn:Ec.
    + apply Z.ltb_lt in Ec. assert (c =? x = false) as -> by (apply Z.eqb_neq; lia). by rewrite orb_false_r.
    + apply Z.ltb_ge in Ec. rewrite Hm. assert (c =? x = (c - 32 =? x - 32)) as -> by (destruct (Z.eqb_spec c x), (Z.eqb_spec (c - 32) (x - 32)); lia || done).
      destruct Hf as [->|[->| ->]]; cbn [add_cap effective permitted inheritable]; by rewrite testbit_mask by lia.
Qed.
Lemma policy_Ok keep p u p' : Forall (λ c, 0 ≤ c) keep → apply_capability_policy h keep p = (Ok u, p') →
  exactly (caps p') keep ∧ bounding p' ⊆ bounding p ∧ (∀ c, 0 ≤ c ≤ last_cap → c ∈ bounding p' → c ∈ keep) ∧
  no_new_privs p' = no_new_privs p ∧ filters p' = filters p.
Proof.
  intros Hpos (u1 & p1 & H1 & (data & p2 & [Hd ->]%lift_Ok & (u2 & p3 & (_ & _ & ->)%assert_Ok & [_ ->]%modify_Ok)%stm_bind_Ok)%stm_bind_Ok)%stm_bind_Ok.
  apply drop_bounding_Ok in H1 as (E1 & E2 & E3 & Hsub & Hk). apply ok_or_Ok in Hd. cbn.
  split_and!; [|done| |done|done].
  - intros c Hc. assert (∀ f, f = effective ∨ f = permitted ∨ f = inheritable → has_cap f data c = bool_decide (c ∈ keep)) as Hb.
    { intros f Hf. rewrite (cap_words_bits keep _ data Hpos Hd f Hf c Hc). replace (has_cap f (no_caps, no_caps) c) with false; [done|].
      unfold has_cap. cbn [fst snd]. destruct Hf as [->|[->| ->]]; destruct (c <? 32); cbn; by rewrite Z.bits_0. }
    split_and!; apply Hb; auto.
  - intros c Hc Hin. apply (Hk c); [|done]. unfold last_cap in *. lia.
Qed.
End confined.

(** C19: a command or a session whose restrictions were applied holds exactly the capabilities of its policy in
    every set (a session none), can acquire no other known to the kernel, can gain no privilege by running a
    program, and the installed filter answers every system call as specified: another architecture kills the
    process, a listed call is refused, any other is allowed. *)
Theorem workspace_confined (h : kernel) (session : bool) (p p' : process) (u : unit) :
  (if session then apply_session_restrictions h p else apply_exec_restrictions h p) = (Ok u, p') →
  let keep := if session then [] else EXEC_CAPABILITIES in
  exactly (caps p') keep ∧ bounding p' ⊆ bounding p ∧
  (∀ c, 0 ≤ c ≤ default 40 (read_cap_last_cap (cap_last_cap h)) → c ∈ bounding p' → c ∈ keep) ∧
  no_new_privs p' = true ∧
  ∃ prog, filters p' = prog :: filters p ∧ ∀ d, run_filter prog d = Some (verdict (denied_syscalls (negb session)) d).
Proof.
  intros H. assert (∃ p1, apply_capability_policy h (if session then [] else EXEC_CAPABILITIES) p = (Ok tt, p1) ∧
    p' = mkProcess (bounding p1) (caps p1) true (seccomp_filter (negb session) :: filters p1)) as (p1 & H1 & ->).
  { destruct session; apply stm_bind_Ok in H as ([] & p1 & H1 & ([] & p2 & H2 & H3)%stm_bind_Ok); exists p1; (split; [done|]);
      apply stm_bind_Ok in H2 as ([] & p3 & (_ & _ & ->)%assert_Ok & [_ ->]%modify_Ok);
      apply stm_bind_Ok in H3 as ([] & p3 & (_ & _ & ->)%assert_Ok & [_ ->]%modify_Ok); done. }
  apply policy_Ok in H1 as (Hc & Hs & Hk & _ & Hf); [|destruct session; repeat constructor; lia]. cbn. split_and!; [done..|].
  exists (seccomp_filter (negb session)). rewrite Hf. split; [done|]. apply filter_verdict.
Qed.

(** ** The user namespace *)

Lemma find_Some {A} (P : A → Prop) `{∀ x, Decision (P x)} (l : list A) x : snd <$> list_find P l = Some x → x ∈ l ∧ P x.
Proof. destruct (list_find P l) as [[i y]|] eqn:E; [|done]. intros [= ->]. apply list_find_Some in E as (Hl & HP & _). split; [|done]. by eapply list_elem_of_lookup_2. Qed.
(** The ids a plan maps are delegated to its owner. *)
Definition delegated (ranges : list SubordinateIdRange) (o : string) (m : IdMapRange) : Prop :=
  ∃ r, r ∈ ranges ∧ owner r = o ∧ inner_start m = 0 ∧ count m = REQUIRED_SUBID_COUNT ∧
    ∀ i, 0 ≤ i < count m → sub_start r ≤ outer_start m + i < sub_start r + sub_count r.
Lemma plan_delegated e u g plan : subordinate_user_namespace_plan_from_ranges e u g = Ok plan →
  delegated u (plan_owner plan) (uid_map plan) ∧ delegated g (plan_owner plan) (gid_map plan).
Proof.
  intros (o & Ho & (ru & [Hu1 Hu2]%ok_or_Ok%find_Some & (rg & [Hg1 Hg2]%ok_or_Ok%find_Some & H)%bind_Ok)%bind_Ok)%bind_Ok.
  destruct (_ <? _) eqn:E; [done|]. apply Z.ltb_ge in E. injection H as <-. cbn. split; [exists ru|exists rg]; (split_and!; [done..|]); cbn; intros; lia.
Qed.
Lemma parse_sub_line_bounds line r : parse_sub_line line = Ok (Some r) → 0 ≤ sub_start r ≤ u32_max ∧ 0 ≤ sub_count r ≤ u32_max.
Proof.
  unfold parse_sub_line. destruct (_ || _); [done|]. destruct (split _ _) as [|o [|s [|c rest]]]; [done|done|by destruct (ok_or _ _)|].
  intros (x & Hs%ok_or_Ok%parse_uint_bound & (y & Hc%ok_or_Ok%parse_uint_bound & H)%bind_Ok)%bind_Ok. case_bool_decide; [|done]. by injection H as <-.
Qed.
Lemma parse_sub_lines_bounds l rs : parse_sub_lines l = Ok rs → Forall (λ r, 0 ≤ sub_start r ≤ u32_max ∧ 0 ≤ sub_count r ≤ u32_max) rs.
Proof.
  revert rs. induction l as [|line l IH]; intros rs; cbn [parse_sub_lines]; [intros [= <-]; constructor|].
  intros (r & Hr & (others & Ho & [= <-])%bind_Ok)%bind_Ok. apply IH in Ho. destruct r; [|done]. constructor; [by eapply parse_sub_line_bounds|done].
Qed.

(** A session is launched in a user namespace only with ids that /etc/subuid and /etc/subgid delegate to one
    owner, 65536 of each from inner id 0 on, and for a daemon run by root only with ids delegated to root; a
    daemon of another user never falls back to a session without a user namespace. *)
Theorem user_namespace_delegated (euid : Z) (e : user_env) (subuid subgid : option string) (mode : UserNamespaceMode) :
  detect_user_namespace_mode_uncached euid e subuid subgid = Ok mode →
  match mode with
  | Enabled plan => ∃ u g, parse_subordinate_id_file subuid = Ok u ∧ parse_subordinate_id_file subgid = Ok g ∧
      delegated u (plan_owner plan) (uid_map plan) ∧ delegated g (plan_owner plan) (gid_map plan) ∧
      Forall (λ r, 0 ≤ sub_start r ≤ u32_max ∧ 0 ≤ sub_count r ≤ u32_max) (u ++ g) ∧ (euid = 0 → plan_owner plan = "root")
  | Disabled => euid = 0
  end.
Proof.
  assert (∀ plan, subordinate_user_namespace_plan e subuid subgid = Ok plan → (euid = 0 → plan_owner plan = "root") →
    ∃ u g, parse_subordinate_id_file subuid = Ok u ∧ parse_subordinate_id_file subgid = Ok g ∧
      delegated u (plan_owner plan) (uid_map plan) ∧ delegated g (plan_owner plan) (gid_map plan) ∧
      Forall (λ r, 0 ≤ sub_start r ≤ u32_max ∧ 0 ≤ sub_count r ≤ u32_max) (u ++ g) ∧ (euid = 0 → plan_owner plan = "root")) as Hplan.
  { intros plan (u & Hu & (g & Hg & Hp)%bind_Ok)%bind_Ok Hroot. exists u, g. destruct (plan_delegated _ _ _ _ Hp). split_and!; [done..| |done].
    apply Forall_app. split; [apply bind_Ok in Hu as (t & _ & (r & Hr & Hx)%bind_Ok)|apply bind_Ok in Hg as (t & _ & (r & Hr & Hx)%bind_Ok)];
      apply parse_sub_lines_bounds in Hr; case_bool_decide; try done; by injection Hx as ->. }
  unfold detect_user_namespace_mode_uncached. destruct (euid =? 0) eqn:E.
  - apply Z.eqb_eq in E. destruct (subordinate_user_namespace_plan e subuid subgid) as [plan|] eqn:Ep; [|by intros [= <-]].
    destruct (root_can_use_subordinate_plan plan) eqn:Er; intros [= <-]; [|done]. apply Hplan; [done|]. intros _. by apply bool_decide_eq_true in Er.
  - apply Z.eqb_neq in E. intros (plan & Hp & [= <-])%bind_Ok. by apply Hplan.
Qed.

(** ** Namespace descriptors *)

(** The descriptors a command gets were opened for the namespaces the runtime is in now. *)
Lemma handles_match_identity h key c fds c' : duplicate_for_child h key c = (Ok fds, c') →
  alive h = true ∧ ∃ entry, c' !! key = Some entry ∧ Some (identity entry) = current h ∧ descriptors entry = fds.
Proof.
  intros (u & c1 & (_ & Ha & ->)%assert_Ok & (id & c2 & [Hid%ok_or_Ok ->]%lift_Ok & (cache & c3 & [-> ->]%get_Ok & (u2 & c4 & H4 & H)%stm_bind_Ok)%stm_bind_Ok)%stm_bind_Ok)%stm_bind_Ok.
  assert (∃ entry, c4 !! key = Some entry ∧ identity entry = id) as (e4 & He4 & Hi4).
  { case_bool_decide as Hb.
    - apply mret_Ok in H4 as [_ ->]. destruct (c !! key) as [x|]; [|done]. injection Hb as <-. by exists x.
    - apply stm_bind_Ok in H4 as (f & c5 & [_ ->]%lift_Ok & [_ ->]%modify_Ok). exists (mkHandles id f). by rewrite lookup_insert_eq. }
  apply stm_bind_Ok in H as (u5 & c5 & [_ ->]%modify_Ok & (cache & c6 & [-> ->]%get_Ok & (entry & c7 & [He%ok_or_Ok ->]%lift_Ok & (u8 & c8 & (_ & _ & ->)%assert_Ok & [-> ->]%mret_Ok)%stm_bind_Ok)%stm_bind_Ok)%stm_bind_Ok).
  split; [done|]. exists entry. split; [done|]. split; [|done]. rewrite Hid. f_equal.
  unfold evict in He. destruct (_ <? _)%nat; [apply lookup_delete_Some in He as [_ He]|]; congruence.
Qed.
(** The cache keeps at most its limit of entries. *)
Lemma ns_cache_bounded h key c : (∀ c : ns_cache, c ≠ ∅ → is_Some (c !! victim h c)) → (base.size c ≤ CACHE_LIMIT)%nat →
  (base.size (duplicate_for_child h key c).2 ≤ CACHE_LIMIT)%nat.
Proof.
  intros Hv Hc.
  assert (∀ c4 : ns_cache, (base.size c4 ≤ S CACHE_LIMIT)%nat → (base.size (evict h c4) ≤ CACHE_LIMIT)%nat) as Hevict.
  { intros c4 H4. unfold evict. destruct (_ <? _)%nat eqn:E; [apply Nat.ltb_lt in E|apply Nat.ltb_ge in E; lia].
    destruct (Hv c4) as [x Hx]; [intros ->; rewrite map_size_empty in E; unfold CACHE_LIMIT in E; lia|]. rewrite map_size_delete, Hx. lia. }
  unfold duplicate_for_child, mbind, stm_bind, assert, lift, get, modify. destruct (alive h); [|done]. cbn [ok_or mret stm_ret].
  destruct (current h) as [ids|]; [|done]. cbn [ok_or]. case_bool_decide as Hb.
  - cbn [mret stm_ret]. specialize (Hevict c ltac:(lia)). destruct (evict h c !! key); cbn [ok_or]; [|done]. by destruct (can_duplicate h).
  - destruct (open_handles h) as [f|]; [|done]. cbn [ok_or]. set (c4 := <[key := mkHandles ids f]> c).
    assert (base.size c4 ≤ S CACHE_LIMIT)%nat as H4 by (unfold c4; rewrite map_size_insert; destruct (c !! key); unfold id; lia).
    specialize (Hevict c4 H4). destruct (evict h c4 !! key); cbn [ok_or]; [|done]. by destruct (can_duplicate h).
Qed.

(** ** Examples *)

Definition sample_kernel : kernel := mkKernel (Some ("40" +:+ String "010" "")) (λ _, true) true true true.
Definition root_process : process := mkProcess (list_to_set (seqZ 0 41)) (mkCaps (2 ^ 32 - 1) (2 ^ 32 - 1) 0, mkCaps 511 511 0) false [].
Lemma workspace_confined_witness :
  let '(r, p') := apply_exec_restrictions sample_kernel root_process in
  r = Ok tt ∧ exactly (caps p') EXEC_CAPABILITIES ∧ bounding p' = list_to_set EXEC_CAPABILITIES ∧
  (λ prog, run_filter prog (mkData SYS_mount AUDIT_ARCH_X86_64)) <$> filters p' = [Some deny_action].
Proof.
  destruct (apply_exec_restrictions sample_kernel root_process) as [r p'] eqn:E. assert (r = Ok tt) as ->.
  { assert ((apply_exec_restrictions sample_kernel root_process).1 = Ok tt) as Hr by (by vm_compute). by rewrite E in Hr. }
  destruct (workspace_confined sample_kernel false root_process p' tt E) as (Hc & _ & _ & _ & prog & Hf & Hv).
  split; [done|]. split; [exact Hc|]. split.
  - assert ((apply_exec_restrictions sample_kernel root_process).2 = p') as <- by (by rewrite E). apply leibniz_equiv_iff. by vm_compute.
  - rewrite Hf. cbn [fmap list_fmap]. rewrite Hv. by vm_compute.
Defined.
Lemma user_namespace_delegated_witness :
  ∃ plan, detect_user_namespace_mode_uncached 1000 (mkUserEnv None (Some "ann") []) (Some "ann:100000:65536") (Some "ann:200000:65536") = Ok (Enabled plan) ∧
  outer_start (gid_map plan) = 200000 ∧ plan_owner plan = "ann".
Proof.
  destruct (detect_user_namespace_mode_uncached 1000 (mkUserEnv None (Some "ann") []) (Some "ann:100000:65536") (Some "ann:200000:65536")) as [[plan|]|] eqn:E; [|by vm_compute in E|by vm_compute in E].
  exists plan. split; [done|]. destruct (user_namespace_delegated _ _ _ _ _ E) as (u & g & Hu & Hg & _ & (r & Hr & Ho & _ & _ & Hi) & _).
  vm_compute in E. by injection E as <-.
Defined.

(** The 32-bit interface of the same architecture sets bit 30 of the number: its mount is allowed. *)
Lemma other_interface_allowed : run_filter (seccomp_filter false) (mkData (0x40000000 + SYS_mount) AUDIT_ARCH_X86_64) = Some SECCOMP_RET_ALLOW.
Proof. by vm_compute. Qed.
(** The entry that was just opened may be the one evicted: the command then fails although nothing is wrong. *)
Lemma own_entry_evicted c : base.size c = CACHE_LIMIT → c !! (7, 9) = None →
  ∃ e, (duplicate_for_child (mkNsHost true (Some ["n"]) (Some [3]) (λ _, (7, 9)) true) (7, 9) c).1 = Err e.
Proof.
  intros Hs Hn. unfold duplicate_for_child, mbind, stm_bind, assert, lift, get, modify. cbn [alive current open_handles ok_or mret stm_ret]. rewrite Hn.
  rewrite bool_decide_false by done. set (c' := <[(7, 9) := _]> c).
  assert (evict (mkNsHost true (Some ["n"]) (Some [3]) (λ _, (7, 9)) true) c' !! (7, 9) = None) as ->; [|eexists; reflexivity].
  unfold evict, c'. rewrite map_size_insert_None, Hs by done. rewrite (proj2 (Nat.ltb_lt CACHE_LIMIT (S CACHE_LIMIT))) by lia. by rewrite lookup_delete_eq.
Qed.
