(* ===== verification/SandboxCache.v ===== *)
(** * The caches of a sandbox: root file systems (src/src/sandbox/cache) and finished setup commands
    (src/src/sandbox/setup_cache.rs)

    A cached root file system is what the host says about its directories; its content digest is given by
    the host.  The index file holds a value the daemon encoded, or nothing readable. *)
From S2P Require Import Prelude RustStr Paths Types Registry Records Auth.
#[local] Open Scope Z_scope.

(** ** The index (index.rs) *)

Record CacheFingerprint := mkFp { device : Z; inode : Z; fp_size : Z; modified_seconds : Z; modified_nanos : Z }.
#[export] Instance CacheFingerprint_eq_dec : EqDecision CacheFingerprint.
Proof. solve_decision. Defined.
Record CacheEntry := mkCacheEntry {
  ce_key : string; ce_path : string; ce_fingerprint : CacheFingerprint; ce_suite : string; ce_architecture : string;
  ce_source : string; ce_created_at : string; ce_digest : string; ce_tool_version : string }.
Record CacheIndex := mkIndex { ci_version : Z; ci_entries : list CacheEntry }.
Definition default_index : CacheIndex := mkIndex 0 [].

(** ** What the host says about a directory (fingerprint.rs) *)

(** Device, inode, length and modification time of [bin], [etc] or [usr] below a path, when it is a directory. *)
Record cache_host := mkCacheHost {
  cache_root : string;
  is_cache_dir : bool;
  listing : option (list (string * bool));            (** names below the cache root, and whether each is a directory *)
  dir_meta : string → string → option CacheFingerprint;
  digest : string → option string;                    (** [None]: a file could not be read *)
  arch_name : string;
  tool : string;
  now : string;
  can_write : bool }.
Definition REQUIRED_ROOTFS_DIRS : list string := ["bin"; "etc"; "usr"].

(** The index file: absent, unreadable, or an index. *)
Inductive index_file := NoIndex | BadIndex | Index (i : CacheIndex).

Section cache.
Context (h : cache_host).

Definition has_required_dirs (p : string) : bool := forallb (λ n, bool_decide (is_Some (dir_meta h p n))) REQUIRED_ROOTFS_DIRS.
Definition combine (a b : CacheFingerprint) : CacheFingerprint :=
  mkFp (Z.lxor (device a) (device b)) (Z.lxor (inode a) (inode b)) (sat_add64 (fp_size a) (fp_size b))
       (Z.lxor (modified_seconds a) (modified_seconds b)) (Z.lxor (modified_nanos a) (modified_nanos b)).
Definition fingerprint (p : string) : result CacheFingerprint :=
  values ← mapM (λ n, ok_or (dir_meta h p n) (plain "failed to stat")) REQUIRED_ROOTFS_DIRS;
  Ok (foldl combine (mkFp 0 0 0 0 0) values).
Definition content_digest (p : string) : result string := ok_or (digest h p) (plain "failed to read").
Definition read (f : index_file) : result CacheIndex :=
  match f with Index i => Ok i | BadIndex => bail "invalid index" | NoIndex => bail "no such file" end.
Definition persist (i : CacheIndex) : stm index_file unit :=
  assert (can_write h) "failed to write rootfs cache index";; modify (λ _, Index i).
Definition entry_path (name : string) : string := path_join (cache_root h) name.
Definition new_entry (key p : string) : result CacheEntry :=
  f ← fingerprint p;
  d ← content_digest p;
  Ok (mkCacheEntry key p f key (arch_name h) p (now h) d (tool h)).

(** ** The cache (mod.rs) *)

Definition by_key (l : list CacheEntry) : list CacheEntry := sort_by (λ a b, str_le (ce_key a) (ce_key b)) l.
Fixpoint rebuild_loop (l : list (string * bool)) : result (list CacheEntry) :=
  match l with
  | [] => Ok []
  | (n, d) :: rest =>
      if negb d || negb (has_required_dirs (entry_path n)) then rebuild_loop rest
      else e ← new_entry n (entry_path n); others ← rebuild_loop rest; Ok (e :: others)
  end.
Definition rebuild : stm index_file unit :=
  entries ← (if is_cache_dir h then l ← lift (ok_or (listing h) (plain "failed to read rootfs cache")); lift (rebuild_loop l) else mret []);
  persist (mkIndex 1 (by_key entries)).
Fixpoint adopt_loop (l : list (string * bool)) (entries : list CacheEntry) (adopted : nat) : result (list CacheEntry * nat) :=
  match l with
  | [] => Ok (entries, adopted)
  | (n, d) :: rest =>
      if negb d || negb (has_required_dirs (entry_path n)) then adopt_loop rest entries adopted
      else if existsb (λ e, bool_decide (ce_key e = n) && path_eq (ce_path e) (entry_path n)) entries then adopt_loop rest entries adopted
      else e ← new_entry n (entry_path n); adopt_loop rest (entries ++ [e]) (S adopted)
  end.
Definition adopt_unindexed_entries : stm index_file unit :=
  f ← get;
  i ← lift (read f);
  l ← lift (ok_or (listing h) (plain "failed to read rootfs cache"));
  r ← lift (adopt_loop l (ci_entries i) 0);
  if bool_decide (r.2 = 0%nat) then mret tt else persist (mkIndex 1 (by_key r.1)).
Definition ensure : stm index_file unit :=
  f ← get;
  match f with NoIndex => rebuild | _ => adopt_unindexed_entries end.
Definition register (key p : string) : stm index_file unit :=
  f ← get;
  let i := match read f with Ok i => i | Err _ => default_index end in
  let kept := filter (λ e, ce_key e ≠ key) (ci_entries i) in
  entries ← (if has_required_dirs p then e ← lift (new_entry key p); mret (kept ++ [e]) else mret kept);
  persist (mkIndex 1 (by_key entries)).

(** ** Verdicts (verdict.rs) *)

Inductive CacheVerdict := Hit | IndexUnreadable | NotRegistered | MissingRequiredDirectories | ContentsChanged.
Definition is_hit (v : CacheVerdict) : bool := match v with Hit => true | _ => false end.
Definition entry_for (i : CacheIndex) (key p : string) : option CacheEntry :=
  snd <$> list_find (λ e, ce_key e = key ∧ path_eq (ce_path e) p = true) (ci_entries i).
Definition evaluate (f : index_file) (key p : string) : CacheVerdict :=
  match read f with
  | Err _ => IndexUnreadable
  | Ok i =>
      match entry_for i key p with
      | None => NotRegistered
      | Some e =>
          if negb (has_required_dirs p) then MissingRequiredDirectories
          else if match fingerprint p with Ok c => bool_decide (c = ce_fingerprint e) | Err _ => false end then Hit
          else ContentsChanged
      end
  end.
Definition content_identity (f : index_file) (p : string) : option string :=
  i ← match read f with Ok i => Some i | Err _ => None end;
  d ← ce_digest <$> (snd <$> list_find (λ e, path_eq (ce_path e) p = true) (ci_entries i));
  if bool_decide (d = "") then None else Some d.
End cache.

(** ** Setup commands (setup_cache.rs) *)

Definition KEY_SCHEME : string := "enclave-setup-key-v2".
(** What a key depends on: the fields, the identity of the root file system and the commands in order. *)
Record setup_inputs := mkSetup { version : string; sandbox : string; suite : string; mirror : string; method : string; identity : string; commands : list string }.
Definition terminated (s : string) : string := s +:+ String "000" "".
Definition key_bytes (x : setup_inputs) : string :=
  foldr (λ s rest, terminated s +:+ rest) "" [KEY_SCHEME; version x; sandbox x; suite x; mirror x; method x; identity x] +:+
  foldr (λ c rest, String "255" (c +:+ rest)) "" (commands x).
(** The hash is a parameter: sixty-four hexadecimal characters of the bytes. *)
Definition key_for (sha256 : string → string) (x : setup_inputs) : string := sha256 (key_bytes x).
(** The identity of a cached layer is its digest, of another directory what the host says about it. *)
Definition rootfs_identity (recorded : option string) (lower : option string) (rootfs : string) (directory_identity : string → string) : string :=
  match lower, recorded with
  | Some _, Some d => "cache:" +:+ d
  | _, _ => directory_identity (default rootfs lower)
  end.

Definition is_hexdigit (c : ascii) : bool := is_ascii_digit c || in_range "a" "f" c || in_range "A" "F" c.
Definition marker_path (sandbox_path digest : string) (index : Z) : result string :=
  if negb (Nat.eqb (String.length digest) 64) || negb (str_all is_hexdigit digest) then bail "setup digest must be a 64-character hexadecimal value"
  else Ok (path_join (path_join sandbox_path "runtime/setup-cache") (digest +:+ "-" +:+ print_uint index +:+ ".done")).
Definition is_complete (sandbox_path digest : string) (index : Z) (markers : gset string) : result bool :=
  p ← marker_path sandbox_path digest index; Ok (bool_decide (p ∈ markers)).
Definition mark_complete (writable : bool) (sandbox_path digest : string) (index : Z) : stm (gset string) unit :=
  p ← lift (marker_path sandbox_path digest index);
  assert writable "failed to create setup cache";;
  modify (λ m, {[ p ]} ∪ m).

(** * Lemmas *)

(** ** Keys *)

Lemma delimited_inj (a : ascii) (s s' r r' : string) : free a s = true → free a s' = true →
  (r = "" ∨ ∃ t, r = String a t) → (r' = "" ∨ ∃ t, r' = String a t) → s +:+ r = s' +:+ r' → s = s' ∧ r = r'.
Proof.
  revert s'. induction s as [|c s IH]; intros s' Hs Hs' Hr Hr' E.
  - destruct s' as [|c' s']; [done|]. exfalso. cbn in E, Hs'. apply andb_true_iff in Hs' as [Hc _].
    destruct Hr as [->|[t ->]]; [done|]. injection E as <- _. by rewrite Ascii.eqb_refl in Hc.
  - cbn in Hs. apply andb_true_iff in Hs as [Hc Hs]. destruct s' as [|c' s'].
    + exfalso. cbn in E. destruct Hr' as [->|[t ->]]; [done|]. injection E as -> _. by rewrite Ascii.eqb_refl in Hc.
    + cbn in Hs'. apply andb_true_iff in Hs' as [_ Hs']. cbn in E. injection E as <- E. destruct (IH s' Hs Hs' Hr Hr' E) as [-> ->]. done.
Qed.
Lemma terminated_inj (s s' r r' : string) : free "000" s = true → free "000" s' = true → terminated s +:+ r = terminated s' +:+ r' → s = s' ∧ r = r'.
Proof.
  intros Hs Hs'. unfold terminated. rewrite !str_app_assoc. cbn. intros E.
  destruct (delimited_inj "000" s s' _ _ Hs Hs' ltac:(right; eauto) ltac:(right; eauto) E) as [-> Er]. by injection Er as ->.
Qed.
Lemma command_list_head (l : list string) : foldr (λ c rest, String "255" (c +:+ rest)) "" l = "" ∨ ∃ t, foldr (λ c rest, String "255" (c +:+ rest)) "" l = String "255" t.
Proof. destruct l; cbn; eauto. Qed.
Lemma command_list_inj (l l' : list string) : Forall (λ c, free "255" c = true) l → Forall (λ c, free "255" c = true) l' →
  foldr (λ c rest, String "255" (c +:+ rest)) "" l = foldr (λ c rest, String "255" (c +:+ rest)) "" l' → l = l'.
Proof.
  intros Hl. revert l'. induction Hl as [|c l Hc Hl IH]; intros l' Hl' E; destruct Hl' as [|c' l' Hc' Hl']; try done. cbn in E. injection E as E.
  destruct (delimited_inj "255" c c' _ _ Hc Hc' (command_list_head l) (command_list_head l') E) as [-> Er]. by rewrite (IH l' Hl' Er).
Qed.
(** The strings of the daemon hold no zero byte and are UTF-8, in which the byte 255 does not occur. *)
Definition plain_inputs (x : setup_inputs) : Prop :=
  Forall (λ s, free "000" s = true) [version x; sandbox x; suite x; mirror x; method x; identity x] ∧ Forall (λ c, free "255" c = true) (commands x).

(** Two setups have the same key only if they agree on everything a setup depends on: version, sandbox,
    suite, mirror, method, identity of the root file system, and the commands, their number and order; the
    hash is assumed to have no collision. *)
Theorem setup_key_covers_inputs (sha256 : string → string) (x y : setup_inputs) : (∀ a b, sha256 a = sha256 b → a = b) →
  plain_inputs x → plain_inputs y → key_for sha256 x = key_for sha256 y → x = y.
Proof.
  intros Hinj [Hx Hcx] [Hy Hcy] E%Hinj. unfold key_bytes in E. cbn [foldr] in E. rewrite !str_app_assoc in E.
  repeat match goal with H : Forall _ (_ :: _) |- _ => apply list.Forall_cons in H as [? H] end.
  apply terminated_inj in E as [_ E]; [|done..].
  do 6 (apply terminated_inj in E as [? E]; [|done..]). cbn in E.
  apply command_list_inj in E; [|done..]. destruct x, y; cbn in *. by subst.
Qed.

(** ** Markers *)

Lemma marker_suffix (base rel : string) : starts_with "/" rel = false → ∃ p, path_join base rel = p +:+ rel ∧ ∀ rel', starts_with "/" rel' = false → path_join base rel' = p +:+ rel'.
Proof.
  intros Hr. unfold path_join. rewrite Hr. case_bool_decide; [exists ""; split; [done|intros ? ->; done]|].
  destruct (ends_with_slash base); [exists base; split; [done|intros ? ->; done]|]. exists (base +:+ "/").
  split; [by rewrite str_app_assoc|]. intros rel' ->. by rewrite str_app_assoc.
Qed.
Lemma str_app_same_length (a a' b b' : string) : String.length a = String.length a' → a +:+ b = a' +:+ b' → a = a' ∧ b = b'.
Proof.
  revert a'. induction a as [|c a IH]; intros [|c' a'] Hl E; try done. cbn in E. injection E as -> E. injection Hl as Hl. by destruct (IH a' Hl E) as [-> ->].
Qed.
Lemma hex_not_slash (d : string) (r : string) : String.length d = 64%nat → str_all is_hexdigit d = true → starts_with "/" (d +:+ r) = false.
Proof.
  destruct d as [|c d]; [done|]. cbn [str_all]. intros _ [Hc _]%andb_true_iff. unfold starts_with. cbn [String.append strip_prefix].
  revert Hc. by destruct c as [[] [] [] [] [] [] [] []]; vm_compute.
Qed.
Lemma marker_path_inj (sp d d' : string) (i i' : Z) p : 0 ≤ i ≤ u64_max → 0 ≤ i' ≤ u64_max → marker_path sp d i = Ok p → marker_path sp d' i' = Ok p → d = d' ∧ i = i'.
Proof.
  intros Hi Hi'. unfold marker_path. destruct (_ || _) eqn:E1; [done|]. destruct (negb (Nat.eqb (String.length d') 64) || _) eqn:E2; [done|].
  apply orb_false_iff in E1 as [L1%negb_false_iff%Nat.eqb_eq X1%negb_false_iff], E2 as [L2%negb_false_iff%Nat.eqb_eq X2%negb_false_iff].
  intros H1 H2. rewrite <- H1 in H2. clear H1. set (x := d +:+ "-" +:+ print_uint i +:+ ".done") in *. set (x' := d' +:+ "-" +:+ print_uint i' +:+ ".done") in *.
  assert (path_join (path_join sp "runtime/setup-cache") x' = path_join (path_join sp "runtime/setup-cache") x) as E by congruence. clear H2. symmetry in E.
  destruct (marker_suffix (path_join sp "runtime/setup-cache") x) as (q & Eq & Hq); [by apply hex_not_slash|].
  rewrite Eq, Hq in E by (by apply hex_not_slash). apply str_app_same_length in E as [_ E]; [|done].
  unfold x, x' in E. apply str_app_same_length in E as [Ed E]; [|congruence]. split; [done|]. apply str_app_same_length in E as [_ E]; [|done]. apply str_app_inj_r in E.
  assert (parse_uint u64_max (print_uint i) = parse_uint u64_max (print_uint i')) as Ep by congruence. rewrite !parse_print_uint in Ep by done. by injection Ep.
Qed.
(** A command marked as finished is found finished, and no other one of the sandbox is. *)
Lemma mark_complete_exact (w : bool) (sp d d' : string) (i i' : Z) (m m' : gset string) u : 0 ≤ i ≤ u64_max → 0 ≤ i' ≤ u64_max →
  mark_complete w sp d i m = (Ok u, m') →
  is_complete sp d' i' m' = if bool_decide (d' = d ∧ i' = i) then Ok true else is_complete sp d' i' m.
Proof.
  intros Hi Hi' (p & m1 & [Hp ->]%lift_Ok & (u2 & m2 & (_ & _ & ->)%assert_Ok & [_ ->]%modify_Ok)%stm_bind_Ok)%stm_bind_Ok.
  unfold is_complete. case_bool_decide as Hb; [destruct Hb as [-> ->]; rewrite Hp; cbn; by rewrite bool_decide_true by set_solver|].
  destruct (marker_path sp d' i') as [p'|] eqn:Hp'; [|done]. cbn. f_equal. apply bool_decide_ext.
  assert (p' ≠ p) by (intros ->; destruct (marker_path_inj sp d' d i' i p); [done..|]; tauto). set_solver.
Qed.

(** ** The index *)

Section index.
Context (h : cache_host).
Lemma by_key_elem (l : list CacheEntry) e : e ∈ by_key l ↔ e ∈ l.
Proof. unfold by_key. by rewrite sort_by_perm. Qed.
Lemma entry_for_Some i key p e : entry_for i key p = Some e → e ∈ ci_entries i ∧ ce_key e = key ∧ path_eq (ce_path e) p = true.
Proof.
  unfold entry_for. destruct (list_find _ _) as [[n x]|] eqn:E; [|done]. intros [= ->]. apply list_find_Some in E as (Hl & [? ?] & _).
  split; [by eapply list_elem_of_lookup_2|done].
Qed.
Lemma entry_for_elem i key p e : e ∈ ci_entries i → ce_key e = key → path_eq (ce_path e) p = true → is_Some (entry_for i key p).
Proof.
  intros He Hk Hp. unfold entry_for. destruct (list_find_elem_of (λ e, ce_key e = key ∧ path_eq (ce_path e) p = true) (ci_entries i) e He (conj Hk Hp)) as [[n x] ->]. cbn. eauto.
Qed.
Lemma path_eq_refl p : path_eq p p = true.
Proof. unfold path_eq. by rewrite bool_decide_true. Qed.
Lemma new_entry_Ok key p e : new_entry h key p = Ok e → ce_key e = key ∧ ce_path e = p ∧ fingerprint h p = Ok (ce_fingerprint e).
Proof. by intros (f & Hf & (d & _ & [= <-])%bind_Ok)%bind_Ok. Qed.

(** Every complete directory of the list is in the index afterwards, and what was there stays. *)
Lemma adopt_loop_Ok l entries n entries' n' : adopt_loop h l entries n = Ok (entries', n') →
  (∀ e, e ∈ entries → e ∈ entries') ∧ (n ≤ n')%nat ∧ (n' = n → entries' = entries) ∧
  ∀ x, (x, true) ∈ l → has_required_dirs h (entry_path h x) = true → ∃ e, e ∈ entries' ∧ ce_key e = x ∧ path_eq (ce_path e) (entry_path h x) = true.
Proof.
  revert entries n. induction l as [|[y d] l IH]; intros entries n; cbn [adopt_loop].
  { intros [= <- <-]. split_and!; [done|done|done|]. by intros x ?%not_elem_of_nil. }
  destruct (negb d || _) eqn:Eb.
  { intros H%IH. destruct H as (H1 & H2 & H3 & H4). split_and!; [done..|]. intros x [[= -> <-]|Hx]%elem_of_cons Hd; [|by apply H4]. by rewrite Hd in Eb. }
  apply orb_false_iff in Eb as [Ed _]. apply negb_false_iff in Ed as ->. destruct (existsb _ entries) eqn:Ex.
  - intros H%IH. destruct H as (H1 & H2 & H3 & H4). split_and!; [done..|]. intros x [[= ->]|Hx]%elem_of_cons Hd; [|by apply H4].
    apply existsb_exists in Ex as (e & He%list_elem_of_In & [Hk%bool_decide_eq_true Hp]%andb_true_iff). exists e. auto.
  - intros (e & (Hk & Hp & _)%new_entry_Ok & H%IH)%bind_Ok. destruct H as (H1 & H2 & H3 & H4). split_and!; [|lia|lia|].
    + intros x Hx. apply H1, elem_of_app. by left.
    + intros x [[= ->]|Hx]%elem_of_cons Hd; [|by apply H4]. exists e. split_and!; [apply H1, elem_of_app; right; by apply list_elem_of_singleton|done|rewrite Hp; apply path_eq_refl].
Qed.
Lemma rebuild_loop_Ok l entries : rebuild_loop h l = Ok entries →
  ∀ x, (x, true) ∈ l → has_required_dirs h (entry_path h x) = true → ∃ e, e ∈ entries ∧ ce_key e = x ∧ path_eq (ce_path e) (entry_path h x) = true.
Proof.
  revert entries. induction l as [|[y d] l IH]; intros entries; cbn [rebuild_loop]; [by intros _ x ?%not_elem_of_nil|].
  destruct (negb d || _) eqn:Eb.
  { intros H x [[= -> <-]|Hx]%elem_of_cons Hd; [|by apply (IH _ H)]. by rewrite Hd in Eb. }
  intros (e & (Hk & Hp & _)%new_entry_Ok & (others & Ho & [= <-])%bind_Ok)%bind_Ok x [[= -> <-]|Hx]%elem_of_cons Hd.
  - exists e. split_and!; [apply list_elem_of_here|done|rewrite Hp; apply path_eq_refl].
  - destruct (IH _ Ho x Hx Hd) as (e' & He' & Hrest). exists e'. split; [by apply list_elem_of_further|done].
Qed.
(** After the check of the index no complete directory of the cache is unknown. *)
Lemma ensure_registers f u f' x l : is_cache_dir h = true → listing h = Some l → ensure h f = (Ok u, f') → (x, true) ∈ l →
  has_required_dirs h (entry_path h x) = true → evaluate h f' x (entry_path h x) ≠ NotRegistered.
Proof.
  intros Hd Hl H Hx Hr. assert (∃ i e, f' = Index i ∧ e ∈ ci_entries i ∧ ce_key e = x ∧ path_eq (ce_path e) (entry_path h x) = true) as (i & e & -> & He & Hk & Hp).
  { apply stm_bind_Ok in H as (f0 & f1 & [-> ->]%get_Ok & H). destruct f as [| |i].
    - unfold rebuild in H. rewrite Hd, Hl in H. apply stm_bind_Ok in H as (es & f2 & (l' & f3 & [[= <-]%ok_or_Ok ->]%lift_Ok & [Hes ->]%lift_Ok)%stm_bind_Ok & (u1 & f4 & (_ & _ & ->)%assert_Ok & [_ ->]%modify_Ok)%stm_bind_Ok).
      destruct (rebuild_loop_Ok l es Hes x Hx Hr) as (e & He & Hrest). exists (mkIndex 1 (by_key es)), e. split; [done|]. split; [by apply by_key_elem|done].
    - by apply stm_bind_Ok in H as (f0 & f1 & [-> ->]%get_Ok & (i & f2 & [[=] ->]%lift_Ok & _)%stm_bind_Ok).
    - apply stm_bind_Ok in H as (f0 & f1 & [-> ->]%get_Ok & (i' & f2 & [[= <-] ->]%lift_Ok & (l' & f3 & [Hl'%ok_or_Ok ->]%lift_Ok & ([es n] & f4 & [Hes ->]%lift_Ok & H)%stm_bind_Ok)%stm_bind_Ok)%stm_bind_Ok).
      rewrite Hl in Hl'. injection Hl' as <-. apply adopt_loop_Ok in Hes as (_ & _ & Hsame & Hes). destruct (Hes x Hx Hr) as (e & He & Hrest). cbn [snd fst] in H.
      case_bool_decide as Hn.
      + apply mret_Ok in H as [_ ->]. exists i, e. rewrite Hsame in He by done. done.
      + apply stm_bind_Ok in H as (u1 & f5 & (_ & _ & ->)%assert_Ok & [_ ->]%modify_Ok). exists (mkIndex 1 (by_key es)), e. split; [done|]. split; [by apply by_key_elem|done]. }
  unfold evaluate. cbn [read]. destruct (entry_for_elem i x (entry_path h x) e He Hk Hp) as [e' ->]. rewrite Hr. cbn [negb]. by destruct (match fingerprint h _ with Ok _ => _ | Err _ => _ end).
Qed.
(** A root file system that was registered and did not change is reused. *)
Lemma registered_is_hit f key p u f' : has_required_dirs h p = true → register h key p f = (Ok u, f') → evaluate h f' key p = Hit.
Proof.
  intros Hd (f0 & f1 & [-> ->]%get_Ok & (es & f2 & H & (u1 & f3 & (_ & _ & ->)%assert_Ok & [_ ->]%modify_Ok)%stm_bind_Ok)%stm_bind_Ok)%stm_bind_Ok.
  rewrite Hd in H. apply stm_bind_Ok in H as (e & f3 & [Hnew ->]%lift_Ok & [-> ->]%mret_Ok).
  destruct (new_entry_Ok key p e Hnew) as (Hk & Hp & Hf). unfold evaluate. cbn [read]. set (i := mkIndex 1 _).
  assert (e ∈ ci_entries i) as He by (apply by_key_elem, elem_of_app; right; by apply list_elem_of_singleton).
  destruct (entry_for_elem i key p e He Hk) as [e' He']; [rewrite Hp; apply path_eq_refl|]. rewrite He'.
  apply entry_for_Some in He' as (Hin & Hk' & _). apply by_key_elem, elem_of_app in Hin as [Hin| ->%list_elem_of_singleton].
  - apply list_elem_of_filter in Hin as [Hne _]. done.
  - rewrite Hd. cbn [negb]. rewrite Hf. by rewrite bool_decide_true.
Qed.
End index.
(** The verdict looks at three directories only: whatever changed below them, a root file system with the same
    numbers for those is a hit. *)
Lemma contents_not_compared h h' f key p : dir_meta h' p = dir_meta h p → evaluate h' f key p = evaluate h f key p.
Proof. intros E. unfold evaluate, has_required_dirs, fingerprint. by rewrite E. Qed.

(** ** Examples *)

Definition sample_setup (cmds : list string) : setup_inputs := mkSetup "1.0" "dev" "stable" "http://deb" "debootstrap" "cache:ab" cmds.
Lemma setup_key_covers_inputs_witness : key_for (λ s, s) (sample_setup ["a"; "b"]) ≠ key_for (λ s, s) (sample_setup ["ab"]).
Proof.
  intros E. apply (setup_key_covers_inputs (λ s, s)) in E; [by injection E|done|split; repeat constructor|split; repeat constructor].
Defined.
