(* ===== verification/Firewall.v ===== *)
(** * The firewall (src/src/network/nat)

    The rules the daemon keeps in the host's firewall: for each workspace interface a rule
    in two chains that drops what does not come from the workspace's address, and the
    rules of the bridge itself.  A chain is a list of rules, a rule the list of its
    arguments in the form [iptables -S] prints; [iptables] itself is a host whose
    commands may fail, and a listing is the list of its lines. *)
From S2P Require Import Prelude RustStr Text Ipam ProcFs.
#[local] Open Scope nat_scope.

Abbreviation args := (list string).
Abbreviation ruleset := (gmap (string * string) (list (list string))).

Record rule_host := mkRules {
  canon : list string → list string;            (** the form a rule is kept in *)
  print_value : string → string;                (** how a listing writes an argument *)
  declarations : string → list string;          (** the lines of a listing that are no rules *)
  outcome : nat → option (option string);       (** a command that does not do its work: not run, or failed with a text *)
  missing_text : string;                        (** what it says when no such rule exists *)
  partial : bool;                               (** whether a rejected script keeps the lines before *)
  parse_line : string → option (string * string * list string);
                                                (** how a restore reads a line: verb, chain, rule *)
  seen : nat → list string → list string;       (** the lines of an output that are captured *)
  available : string → bool;                    (** the [iptables] binaries there are *)
  forwarding : bool }.                          (** [net.ipv4.ip_forward] *)

(** [runs] counts the commands; [detected] is the binary that was found. *)
Record firewall := mkFirewall { rules : ruleset; runs : nat; detected : option string }.

Definition chain (m : ruleset) (table name : string) : list args := default [] (m !! (table, name)).
Definition set_chain (table name : string) (l : list args) (m : ruleset) : ruleset := <[(table, name) := l]> m.

(** ** Arguments (primitives/mod.rs, primitives/batch.rs) *)

Definition RULE_COMMENT_PREFIX : string := "enclave:".
Definition comment_args (owner : string) : args := ["-m"; "comment"; "--comment"; RULE_COMMENT_PREFIX +:+ owner].

Definition push_arg (pending : bool) (current : string) (rest : list string) : list string :=
  if pending then current :: rest else rest.
Fixpoint split_rule_args_fuel (fuel : nat) (s current : string) (quoted pending : bool) : list string :=
  match fuel, s with
  | O, _ | _, EmptyString => push_arg pending current []
  | S n, String c s' =>
      if code c =? 34 then split_rule_args_fuel n s' current (negb quoted) true
      else
        match (if quoted then None else first_strip white_space s) with
        | Some rest => push_arg pending current (split_rule_args_fuel n rest (if pending then "" else current) quoted false)
        | None => split_rule_args_fuel n s' (current +:+ String c "") quoted true
        end
  end.
Definition split_rule_args (rule : string) : list string := split_rule_args_fuel (String.length rule) rule "" false false.

Definition plain_byte (c : ascii) : bool :=
  is_ascii_alphanumeric c || bool_decide (c ∈ ["-"; "_"; "."; "/"; ":"; "!"; "="]%char).
Fixpoint escape_quotes (s : string) : string :=
  match s with
  | EmptyString => EmptyString
  | String c s' => if (code c =? 92) || (code c =? 34) then String (byte_of 92) (String c (escape_quotes s'))
                   else String c (escape_quotes s')
  end.
Definition quote_restore_argument (argument : string) : string :=
  if negb (bool_decide (argument = "")) && str_all plain_byte argument then argument
  else bytes [34] +:+ escape_quotes argument +:+ bytes [34].
Definition restore_binary_for (iptables : string) : string :=
  if bool_decide (iptables = "iptables") then "iptables-restore" else iptables +:+ "-restore".

(** The lines of a restore script. *)
Definition restore_line (verb name position : string) (rule : args) : string :=
  verb +:+ " " +:+ name +:+ position +:+ String.concat "" ((λ a, " " +:+ quote_restore_argument a) <$> rule).

(** ** Messages (primitives/rules.rs) *)

Definition is_rule_already_exists_error (stderr : string) : bool :=
  let msg := to_ascii_lowercase (from_utf8_lossy stderr) in
  str_contains "rule already exists" msg || str_contains "rule is duplicated" msg ||
  (str_contains "file exists" msg && str_contains "rule in chain" msg).
Definition is_rule_missing_error (stderr : string) : bool :=
  let msg := to_ascii_lowercase (from_utf8_lossy stderr) in
  str_contains "no chain/target/match by that name" msg || str_contains "does a matching rule exist in that chain" msg.

Fixpoint delete_first (r : args) (l : list args) : option (list args) :=
  match l with
  | [] => None
  | x :: l' => if bool_decide (x = r) then Some l' else cons x <$> delete_first r l'
  end.

Section iptables.
Context (h : rule_host).

(** ** Commands *)

(** [HostCommand::run] of a command with an effect: the text it fails with, if it does. *)
Definition run (effect : ruleset → option ruleset) : stm firewall (option string) := λ st,
  let st' := mkFirewall (rules st) (S (runs st)) (detected st) in
  match outcome h (runs st) with
  | Some None => (bail "failed to run iptables", st')
  | Some (Some stderr) => (Ok (Some stderr), st')
  | None =>
      match effect (rules st) with
      | Some m => (Ok None, mkFirewall m (S (runs st)) (detected st))
      | None => (Ok (Some (missing_text h)), st')
      end
  end.

Definition check_effect (table name : string) (rule : args) (m : ruleset) : option ruleset :=
  if bool_decide (canon h rule ∈ chain m table name) then Some m else None.
Definition append_effect (table name : string) (rule : args) (m : ruleset) : option ruleset :=
  Some (set_chain table name (chain m table name ++ [canon h rule]) m).
Definition insert_effect (table name : string) (rule : args) (m : ruleset) : option ruleset :=
  Some (set_chain table name (canon h rule :: chain m table name) m).
Definition delete_effect (table name : string) (rule : args) (m : ruleset) : option ruleset :=
  l ← delete_first (canon h rule) (chain m table name); Some (set_chain table name l m).

(** [iptables-restore --noflush]: the lines of the table [filter] in order, up to the first that
    is rejected. *)
Definition line_effect (line : string) (m : ruleset) : option ruleset :=
  match parse_line h line with
  | Some (verb, name, rule) =>
      if bool_decide (verb = "-I") then insert_effect "filter" name rule m
      else if bool_decide (verb = "-D") then delete_effect "filter" name rule m else None
  | None => None
  end.
Fixpoint script (lines : list string) (m : ruleset) : ruleset * bool :=
  match lines with
  | [] => (m, true)
  | line :: rest => match line_effect line m with Some m' => script rest m' | None => (m, false) end
  end.
Definition restore (lines : list string) : stm firewall (option string) := λ st,
  let st' := mkFirewall (rules st) (S (runs st)) (detected st) in
  match outcome h (runs st) with
  | Some None => (bail "failed to run iptables-restore", st')
  | Some (Some stderr) => (Ok (Some stderr), st')
  | None =>
      match script lines (rules st) with
      | (m, true) => (Ok None, mkFirewall m (S (runs st)) (detected st))
      | (m, false) => (Ok (Some (missing_text h)), mkFirewall (if partial h then m else rules st) (S (runs st)) (detected st))
      end
  end.

Definition rule_text (r : args) : string := String.concat " " (print_value h <$> r).
Definition rule_line (name : string) (r : args) : string := "-A " +:+ name +:+ " " +:+ rule_text r.
Definition listing (table : string) (m : ruleset) : list string :=
  declarations h table ++
  (kl ← map_to_list m; if bool_decide (kl.1.1 = table) then rule_line kl.1.2 <$> kl.2 else []).
(** [iptables -t <table> -S], checked. *)
Definition list_table (table : string) : stm firewall (list string) := λ st,
  let st' := mkFirewall (rules st) (S (runs st)) (detected st) in
  match outcome h (runs st) with
  | Some _ => (bail "failed to list firewall rules", st')
  | None => (Ok (seen h (runs st) (listing table (rules st))), st')
  end.

(** Only a binary that was found is remembered. *)
Definition probe_iptables : option string := head (filter (λ b, available h b = true) ["iptables-nft"; "iptables-legacy"; "iptables"]).
Definition detect_iptables : stm firewall string :=
  st ← get;
  match detected st with
  | Some binary => mret binary
  | None =>
      match probe_iptables with
      | Some binary => modify (λ st, mkFirewall (rules st) (runs st) (Some binary));; mret binary
      | None => throw "no iptables binary found"
      end
  end.

(** ** One rule at a time (primitives/rules.rs) *)

Definition ensure_rule (table name : string) (rule : args) (insert_first : bool) : stm firewall unit :=
  check ← run (check_effect table name rule);
  match check with
  | None => mret tt
  | Some _ =>
      output ← run (if insert_first then insert_effect table name rule else append_effect table name rule);
      match output with
      | None => mret tt
      | Some stderr => assert (is_rule_already_exists_error stderr) "failed to add rule"
      end
  end.
Definition delete_rule (table name : string) (rule : args) : stm firewall unit :=
  output ← run (delete_effect table name rule);
  match output with
  | None => mret tt
  | Some stderr => assert (is_rule_missing_error stderr) "failed to remove rule"
  end.
Definition remove_filter_rule (name : string) (rule : args) : stm firewall unit := delete_rule "filter" name rule.

(** ** Several rules at once (primitives/batch.rs) *)

Definition insert_filter_rules_first (l : list (string * args)) : stm firewall unit :=
  match l with
  | [] => mret tt
  | _ =>
      output ← restore ((λ p, restore_line "-I" p.1 " 1" p.2) <$> reverse l);
      assert (bool_decide (output = None)) "failed to add rules"
  end.
Definition delete_filter_rules (l : list (string * args)) : stm firewall unit :=
  match l with
  | [] => mret tt
  | _ =>
      output ← restore ((λ p, restore_line "-D" p.1 "" p.2) <$> l);
      assert (bool_decide (output = None)) "failed to delete rules"
  end.

End iptables.

(** ** Rules of a class and all others *)

Lemma chain_set t n l m t' n' :
  chain (set_chain t n l m) t' n' = if decide ((t', n') = (t, n)) then l else chain m t' n'.
Proof.
  unfold chain, set_chain. case_decide as E; [by rewrite E, lookup_insert_eq|by rewrite lookup_insert_ne].
Qed.

Lemma delete_first_elem r l l' : delete_first r l = Some l' → r ∈ l ∧ ∀ x, x ∈ l' → x ∈ l.
Proof.
  revert l'. induction l as [|y l IH]; intros l'; cbn; [done|]. case_bool_decide as E.
  - intros [= <-]. subst. split; [apply list_elem_of_here|]. intros x Hx. by apply list_elem_of_further.
  - intros (k & Hk & ->)%fmap_Some. destruct (IH _ Hk) as [Hr Hin]. split; [by apply list_elem_of_further|].
    intros x [ ->|Hx]%elem_of_cons; [apply list_elem_of_here|apply list_elem_of_further; auto].
Qed.
Lemma delete_first_filter (P : args → Prop) `{!∀ r, Decision (P r)} r l l' :
  ¬ P r → delete_first r l = Some l' → filter P l' = filter P l.
Proof.
  intros Hr. revert l'. induction l as [|y l IH]; intros l'; cbn [delete_first]; [done|]. case_bool_decide as E.
  - intros [= <-]. subst. by rewrite list.filter_cons_False.
  - intros (k & Hk & ->)%fmap_Some. rewrite !list.filter_cons. by rewrite (IH _ Hk).
Qed.

(** A class of rules: table, chain and rule. *)
Abbreviation rule_class := (string → string → list string → bool).

(** The rules of a chain that are not in the class, in order. *)
Definition foreign (P : rule_class) (m : ruleset) (t n : string) : list args := filter (λ r, P t n r = false) (chain m t n).

(** From [m0] to [m] no rule outside [P] came or went, and what is new is in [Q]. *)
Record evolves (P Q : rule_class) (m0 m : ruleset) : Prop := {
  evolves_foreign : ∀ t n, foreign P m t n = foreign P m0 t n;
  evolves_new : ∀ t n r, r ∈ chain m t n → r ∈ chain m0 t n ∨ Q t n r = true }.

Lemma evolves_refl P Q m : evolves P Q m m.
Proof. split; [done|by left]. Qed.
Lemma evolves_trans P Q m1 m2 m3 : evolves P Q m1 m2 → evolves P Q m2 m3 → evolves P Q m1 m3.
Proof.
  intros [F1 N1] [F2 N2]. split; [intros t n; by rewrite F2, F1|].
  intros t n r [Hr|Hr]%N2; [by apply N1|by right].
Qed.
Lemma evolves_add P Q m t n r l : P t n r = true → Q t n r = true → l = r :: chain m t n ∨ l = chain m t n ++ [r] →
  evolves P Q m (set_chain t n l m).
Proof.
  intros HP HQ Hl. split.
  - intros t' n'. unfold foreign. rewrite chain_set. case_decide as E; [|done]. injection E as -> ->.
    destruct Hl as [ ->| ->]; [by rewrite list.filter_cons_False by (by rewrite HP)|].
    rewrite list.filter_app, (list.filter_cons_False _ r []) by (by rewrite HP). by rewrite list.filter_nil, app_nil_r.
  - intros t' n' x. rewrite chain_set. case_decide as E; [|by left]. injection E as -> ->.
    destruct Hl as [ ->| ->]; [intros [ ->|?]%elem_of_cons|intros [?| ->%list_elem_of_singleton]%elem_of_app]; auto.
Qed.
Lemma evolves_delete P Q h m t n rule m' : P t n (canon h rule) = true → delete_effect h t n rule m = Some m' →
  evolves P Q m m'.
Proof.
  unfold delete_effect. intros HP (l & Hl & [= <-])%bind_Some. split.
  - intros t' n'. unfold foreign. rewrite chain_set. case_decide as E; [|done]. injection E as -> ->.
    apply (delete_first_filter (λ r, P t n r = false) (canon h rule)); [by rewrite HP|done].
  - intros t' n' x. rewrite chain_set. case_decide as E; [|by left]. injection E as -> ->.
    intros Hx. left. by apply (delete_first_elem _ _ _ Hl).
Qed.

Section commands.
Context (h : rule_host) (P Q : rule_class) (m0 : ruleset).

(** Runs that only add rules of [Q] and only remove rules of [P]. *)
Abbreviation keeps := (preserves (λ st : firewall, evolves P Q m0 (rules st))).

Lemma run_keeps effect : (∀ m m', effect m = Some m' → evolves P Q m m') → keeps (run h effect).
Proof.
  intros He st Hst. unfold run. destruct (outcome h (runs st)) as [[e|]|]; [done..|].
  destruct (effect (rules st)) as [m|] eqn:E; [|done]. cbn. eauto using evolves_trans.
Qed.
Lemma list_keeps t : keeps (list_table h t).
Proof. intros st Hst. unfold list_table. by destruct (outcome h (runs st)). Qed.
Lemma detect_keeps : keeps (detect_iptables h).
Proof.
  intros st Hst. unfold detect_iptables, mbind, stm_bind, get. cbn. destruct (detected st); [done|]. by destruct (probe_iptables h).
Qed.
Lemma catch_keeps {A} (m : stm firewall A) : keeps m → keeps (catch m).
Proof. intros Hm st Hst. unfold catch. specialize (Hm st Hst). by destruct (m st). Qed.

Lemma script_keeps lines m m' ok : (∀ line m m', line ∈ lines → line_effect h line m = Some m' → evolves P Q m m') →
  script h lines m = (m', ok) → evolves P Q m m'.
Proof.
  revert m. induction lines as [|line rest IH]; intros m Hl; cbn; [by intros [= <- _]; apply evolves_refl|].
  destruct (line_effect h line m) as [m1|] eqn:E; [|by intros [= <- _]; apply evolves_refl].
  intros Hs. eapply evolves_trans; [apply (Hl line); [apply list_elem_of_here|done]|].
  apply (IH m1); [|done]. intros l x x' Hin. apply Hl. by apply list_elem_of_further.
Qed.
Lemma restore_keeps lines : (∀ line m m', line ∈ lines → line_effect h line m = Some m' → evolves P Q m m') →
  keeps (restore h lines).
Proof.
  intros Hl st Hst. unfold restore. destruct (outcome h (runs st)) as [[e|]|]; [done..|].
  destruct (script h lines (rules st)) as [m ok] eqn:E. pose proof (script_keeps _ _ _ _ Hl E) as He.
  destruct ok; cbn; [by eapply evolves_trans|]. destruct (partial h); [by eapply evolves_trans|done].
Qed.
Lemma delete_rule_keeps t n rule : P t n (canon h rule) = true → keeps (delete_rule h t n rule).
Proof.
  intros HP. apply preserves_bind; [apply run_keeps; intros m m'; by apply evolves_delete|].
  intros [e|]; [apply preserves_assert|apply preserves_ret].
Qed.
End commands.

(** ** Listings *)

(** What the daemon relies on: the lines of a listing that are no rules do not look like one,
    an output is captured whole, and a restore reads back the lines it is given. *)
Record honest (h : rule_host) : Prop := {
  no_rule_declared : ∀ t line, line ∈ declarations h t → starts_with "-A " (trim line) = false ∧ starts_with "-A " line = false;
  sees_all : ∀ n l, seen h n l = l;
  reads_insert : ∀ name rule, str_all plain_byte name = true → name ≠ "" →
    parse_line h (restore_line "-I" name " 1" rule) = Some ("-I", name, rule);
  reads_delete : ∀ name rule, str_all plain_byte name = true → name ≠ "" →
    parse_line h (restore_line "-D" name "" rule) = Some ("-D", name, rule) }.

(** The rules of a table that a listing shows so that they can be named again, in chains
    without a blank in their name. *)
Record legible (h : rule_host) (m : ruleset) : Prop := {
  reads_back : ∀ t n r, r ∈ chain m t n → canon h (split_rule_args (rule_text h r)) = r ∧ trim (rule_line h n r) = rule_line h n r;
  plain_names : ∀ t n, chain m t n ≠ [] → free " " n = true }.

Lemma legible_name h m t n r : legible h m → r ∈ chain m t n → free " " n = true.
Proof. intros Hm Hr. apply (plain_names _ _ Hm t). intros E. rewrite E in Hr. by apply not_elem_of_nil in Hr. Qed.

Lemma strip_prefix_app p s t : strip_prefix (p +:+ s) (p +:+ t) = strip_prefix s t.
Proof. induction p as [|c p IH]; cbn; [done|]. by rewrite Ascii.eqb_refl. Qed.
Lemma strip_prefix_weaken p q s : starts_with p s = false → strip_prefix (p +:+ q) s = None.
Proof.
  unfold starts_with. revert s. induction p as [|c p IH]; intros [|a s]; cbn; try done.
  destruct (c =? a)%char; [apply IH|done].
Qed.
Lemma strip_word n n' s : free " " n = true → free " " n' = true →
  strip_prefix (n +:+ " ") (n' +:+ String " " s) = if bool_decide (n' = n) then Some s else None.
Proof.
  revert n'. induction n as [|c n IH]; intros [|c' n']; cbn [free str_all String.append strip_prefix]; try done.
  - intros _ [Hc _]%andb_true_iff. rewrite Ascii.eqb_sym. by destruct (c' =? " ")%char.
  - intros [Hc _]%andb_true_iff _. by destruct (c =? " ")%char.
  - intros [_ Hn]%andb_true_iff [_ Hn']%andb_true_iff. rewrite (IH n') by done.
    destruct (Ascii.eqb_spec c c') as [<-|Hne].
    + case_bool_decide; case_bool_decide; naive_solver.
    + rewrite bool_decide_false; [done|congruence].
Qed.
Lemma split_once_char c n s : free c n = true → split_once (String c "") (n +:+ String c s) = Some (n, s).
Proof.
  induction n as [|a n IH]; cbn [free str_all String.append split_once strip_prefix]; [by rewrite Ascii.eqb_refl|].
  intros [Ha Hn]%andb_true_iff. rewrite Ascii.eqb_sym. destruct (a =? c)%char; [done|]. by rewrite IH.
Qed.
Lemma strip_rule h n n' r : free " " n = true → free " " n' = true →
  strip_prefix ("-A " +:+ n +:+ " ") (rule_line h n' r) = if bool_decide (n' = n) then Some (rule_text h r) else None.
Proof. intros Hn Hn'. unfold rule_line. rewrite strip_prefix_app. by apply strip_word. Qed.

Lemma bind_at_key {A B} (g : (string * string) * A → list B) (l : list ((string * string) * A)) k :
  (∀ k' x', (k', x') ∈ l → k' ≠ k → g (k', x') = []) → NoDup l.*1 →
  (∀ x, (k, x) ∈ l → l ≫= g = g (k, x)) ∧ (k ∉ l.*1 → l ≫= g = []).
Proof.
  induction l as [|[k' x'] l IH]; cbn [fmap list_fmap fst]; intros Hg; [by split; [intros x ?%not_elem_of_nil|]|].
  intros [Hk Hl]%list.NoDup_cons. destruct IH as [IH1 IH2]; [set_solver|done|]. cbn [mbind list_bind]. split.
  - intros x [[= <- <-]|Hin]%elem_of_cons; [by rewrite IH2, app_nil_r|].
    rewrite Hg; [by apply IH1|apply list_elem_of_here|]. intros ->. apply Hk. apply list_elem_of_fmap. by exists (k, x).
  - intros Hn. apply not_elem_of_cons in Hn as [Hne Hn]. rewrite Hg; [by apply IH2|apply list_elem_of_here|done].
Qed.
Lemma bind_map_key {A B} (g : (string * string) * A → list B) (m : gmap (string * string) A) k :
  (∀ k' x', m !! k' = Some x' → k' ≠ k → g (k', x') = []) → map_to_list m ≫= g = from_option (λ x, g (k, x)) [] (m !! k).
Proof.
  intros Hg. destruct (bind_at_key g (map_to_list m) k) as [H1 H2].
  { intros k' x' ?%elem_of_map_to_list. by apply Hg. } { apply NoDup_fst_map_to_list. }
  destruct (m !! k) as [x|] eqn:E; cbn; [by apply H1, elem_of_map_to_list|]. apply H2.
  intros ([k' x] & -> & Hx%elem_of_map_to_list)%list_elem_of_fmap. cbn in E. congruence.
Qed.

Lemma omap_bind {A B C} (f : B → option C) (g : A → list B) l : omap f (l ≫= g) = l ≫= (λ a, omap f (g a)).
Proof. induction l as [|a l IH]; [done|]. cbn [mbind list_bind]. by rewrite omap_app, IH. Qed.
Lemma omap_none {A B} (f : A → option B) l : (∀ a, a ∈ l → f a = None) → omap f l = [].
Proof.
  induction l as [|a l IH]; [done|]. intros Hf. cbn. rewrite Hf by apply list_elem_of_here.
  apply IH. intros b Hb. apply Hf. by apply list_elem_of_further.
Qed.

(** The rules of one chain in a listing. *)
Lemma listing_chain {B} (h : rule_host) m t n (f : string → option B) :
  (∀ line, line ∈ declarations h t → f line = None) →
  (∀ n' r, r ∈ chain m t n' → n' ≠ n → f (rule_line h n' r) = None) →
  omap f (listing h t m) = omap (λ r, f (rule_line h n r)) (chain m t n).
Proof.
  intros Hd Hf. unfold listing. rewrite omap_app, omap_bind, omap_none by done. cbn [app].
  rewrite (bind_map_key _ _ (t, n)).
  - unfold chain. destruct (m !! (t, n)) as [l|]; cbn; [|done]. rewrite bool_decide_true by done.
    induction l as [|r l IH]; [done|]. cbn. by rewrite <- IH.
  - intros [t' n'] l Hl Hne. cbn. case_bool_decide as E; [subst t'|done]. apply omap_none.
    intros line (r & -> & Hr)%list_elem_of_fmap. apply Hf; [|congruence]. unfold chain. by rewrite Hl.
Qed.
Lemma elem_listing {B} (h : rule_host) m t (f : string → option B) x : (∀ line, line ∈ declarations h t → f line = None) →
  x ∈ omap f (listing h t m) ↔ ∃ n r, r ∈ chain m t n ∧ f (rule_line h n r) = Some x.
Proof.
  intros Hd. rewrite list_elem_of_omap. unfold listing. setoid_rewrite elem_of_app. setoid_rewrite list_elem_of_bind. split.
  - intros (line & [Hl|([[t' n] l] & Hl & Hk%elem_of_map_to_list)] & Hx); [by rewrite Hd in Hx|].
    cbn in Hl. case_bool_decide as E; [subst t'|by apply not_elem_of_nil in Hl].
    apply list_elem_of_fmap in Hl as (r & -> & Hr). exists n, r. split; [|done]. unfold chain. by rewrite Hk.
  - intros (n & r & Hr & Hx). exists (rule_line h n r). split; [|done]. right. unfold chain in Hr.
    destruct (m !! (t, n)) as [l|] eqn:E; [|by apply not_elem_of_nil in Hr]. exists ((t, n), l).
    split; [|by apply elem_of_map_to_list]. cbn [fst snd]. rewrite bool_decide_true by done. by apply list_elem_of_fmap_2.
Qed.

Lemma legible_evolves h P Q m0 m : legible h m0 →
  (∀ t n r, Q t n r = true → canon h (split_rule_args (rule_text h r)) = r ∧ trim (rule_line h n r) = rule_line h n r ∧ free " " n = true) →
  evolves P Q m0 m → legible h m.
Proof.
  intros [Hr Hp] HQ [_ He]. split.
  - intros t n r [?|?%HQ]%He; [by apply (Hr t)|tauto].
  - intros t n Hn. destruct (chain m t n) as [|r l] eqn:E; [done|].
    destruct (He t n r) as [Hin|?%HQ]; [rewrite E; apply list_elem_of_here| |tauto].
    apply (Hp t). intros E'. rewrite E' in Hin. by apply not_elem_of_nil in Hin.
Qed.

Lemma list_table_Ok h t st l st' : list_table h t st = (Ok l, st') → l = seen h (runs st) (listing h t (rules st)) ∧ rules st' = rules st.
Proof. unfold list_table. destruct (outcome h (runs st)); [by intros [=]|]. by intros [= <- <-]. Qed.
Lemma detect_rules h st r st' : detect_iptables h st = (r, st') → rules st' = rules st ∧ runs st' = runs st.
Proof.
  unfold detect_iptables, mbind, stm_bind, get, modify, mret, stm_ret, throw, lift. cbn.
  destruct (detected st); [by intros [= <- <-]|]. by destruct (probe_iptables h); intros [= <- <-].
Qed.

Lemma no_foreign_left P m t n : (∀ r, r ∈ chain m t n → P t n r = false) → chain m t n = foreign P m t n.
Proof.
  unfold foreign. induction (chain m t n) as [|r l IH]; intros Hl; [done|].
  rewrite list.filter_cons_True by (apply Hl, list_elem_of_here). rewrite <- IH; [done|].
  intros x Hx. apply Hl. by apply list_elem_of_further.
Qed.

Lemma filter_fmap_omap {A B} (f : A → bool) (g : A → B) (l : list A) :
  omap (λ a, if f a then Some (g a) else None) l = g <$> filter (λ a, f a = true) l.
Proof.
  induction l as [|a l IH]; [done|]. rewrite list.filter_cons. cbn [omap list_omap]. rewrite IH.
  by destruct (f a); case_decide.
Qed.

(** ** Printed rules read back *)

(** A word: printable, without quotes or blanks. *)
Definition is_word (a : string) : bool := negb (bool_decide (a = "")) && str_all (λ c, is_ascii_graphic c && negb (code c =? 34)) a.
Definition quoted_word (a : string) : string := bytes [34] +:+ a +:+ bytes [34].

Lemma split_fuel_word w k s cur q : str_all (λ c, is_ascii_graphic c && negb (code c =? 34)) w = true →
  split_rule_args_fuel (String.length w + k) (w +:+ s) cur q true = split_rule_args_fuel k s (cur +:+ w) q true.
Proof.
  revert cur. induction w as [|c w IH]; intros cur; cbn [str_all]; [by rewrite str_app_nil_r|].
  intros [[Hc Hq]%andb_true_iff Hw]%andb_true_iff. apply negb_true_iff in Hq.
  cbn [String.length Nat.add String.append split_rule_args_fuel]. rewrite Hq.
  destruct q; [|rewrite first_strip_graphic by (done || by vm_compute)]; by rewrite IH, str_app_assoc.
Qed.
Lemma split_fuel_plain a k s : is_word a = true →
  split_rule_args_fuel (String.length a + k) (a +:+ s) "" false false = split_rule_args_fuel k s a false true.
Proof.
  unfold is_word. intros [Hne Ha]%andb_true_iff. destruct a as [|c a]; [done|]. cbn [str_all] in Ha.
  apply andb_true_iff in Ha as [[Hc Hq]%andb_true_iff Ha]. apply negb_true_iff in Hq.
  cbn [String.length Nat.add String.append split_rule_args_fuel]. rewrite Hq, first_strip_graphic by (done || by vm_compute).
  by rewrite split_fuel_word.
Qed.
Lemma split_fuel_quoted a k s : is_word a = true →
  split_rule_args_fuel (String.length (quoted_word a) + k) (quoted_word a +:+ s) "" false false = split_rule_args_fuel k s a false true.
Proof.
  unfold is_word, quoted_word. intros [_ Ha]%andb_true_iff.
  replace (String.length (bytes [34] +:+ a +:+ bytes [34]) + k) with (S (String.length a + S k))
    by (rewrite !str_length_app; cbn; lia).
  rewrite !str_app_assoc. cbn [bytes fold_right String.append]. cbn [split_rule_args_fuel].
  change (code (byte_of 34) =? 34) with true. cbn [negb]. by rewrite split_fuel_word.
Qed.
Definition prints_words (h : rule_host) : Prop :=
  ∀ a, is_word a = true → print_value h a = a ∨ print_value h a = quoted_word a.
Lemma split_fuel_printed h a k s : prints_words h → is_word a = true →
  split_rule_args_fuel (String.length (print_value h a) + k) (print_value h a +:+ s) "" false false = split_rule_args_fuel k s a false true.
Proof. intros Hp Ha. destruct (Hp a Ha) as [->| ->]; [by apply split_fuel_plain|by apply split_fuel_quoted]. Qed.

(** A rule of words is read back as it was printed. *)
Lemma split_printed h r : prints_words h → forallb is_word r = true → split_rule_args (rule_text h r) = r.
Proof.
  intros Hp. unfold split_rule_args, rule_text. induction r as [|a r IH]; [done|]. cbn [forallb].
  intros [Ha Hr]%andb_true_iff. cbn [fmap list_fmap]. destruct r as [|b r]; cbn [fmap list_fmap String.concat].
  - pose proof (split_fuel_printed h a 0 "" Hp Ha) as E. rewrite str_app_nil_r, Nat.add_0_r in E. by rewrite E.
  - rewrite str_length_app, split_fuel_printed by done. cbn [String.append String.length].
    specialize (IH Hr). cbn [fmap list_fmap String.concat] in IH.
    change (a :: split_rule_args_fuel (String.length (String.concat " " (print_value h b :: (print_value h <$> r))))
      (String.concat " " (print_value h b :: (print_value h <$> r))) "" false false = a :: b :: r).
    by f_equal.
Qed.

(** Text between printable characters is not trimmed. *)
Lemma trim_ends a s c : is_ascii_graphic a = true → is_ascii_graphic c = true →
  trim (String a (s +:+ String c "")) = String a (s +:+ String c "").
Proof.
  intros Ha Hc. unfold trim, trim_start. cbn [String.length trim_start_fuel].
  rewrite first_strip_graphic by (done || by vm_compute). unfold trim_end.
  change (String a (s +:+ String c "")) with (String a s +:+ String c "") at 1 2. rewrite str_rev_snoc.
  rewrite str_length_app. cbn [String.length]. rewrite Nat.add_1_r. cbn [trim_start_fuel].
  rewrite first_strip_graphic by (done || by vm_compute).
  rewrite <- str_rev_snoc. change (String a s +:+ String c "") with (String a (s +:+ String c "")). apply str_rev_involutive.
Qed.
Lemma word_last a : is_word a = true → ∃ s c, a = s +:+ String c "" ∧ is_ascii_graphic c = true.
Proof.
  unfold is_word. intros [Hne Ha]%andb_true_iff. revert Hne Ha. induction a as [|c a IH]; [done|]. intros _.
  cbn [str_all]. intros [[Hc _]%andb_true_iff Ha]%andb_true_iff. destruct a as [|d a]; [by exists "", c|].
  destruct IH as (s & e & -> & He); [done..|]. by exists (String c s), e.
Qed.
Lemma printed_last h a : prints_words h → is_word a = true → ∃ s c, print_value h a = s +:+ String c "" ∧ is_ascii_graphic c = true.
Proof.
  intros Hp Ha. destruct (Hp a Ha) as [->| ->]; [by apply word_last|].
  exists (bytes [34] +:+ a), (byte_of 34). unfold quoted_word. by rewrite str_app_assoc.
Qed.
Lemma trim_rule_line h n r : prints_words h → forallb is_word r = true → r ≠ [] → trim (rule_line h n r) = rule_line h n r.
Proof.
  intros Hp Hr Hne. assert (∃ s c, rule_text h r = s +:+ String c "" ∧ is_ascii_graphic c = true) as (s & c & E & Hc).
  { unfold rule_text. induction r as [|a r IH]; [done|]. cbn [forallb] in Hr. apply andb_true_iff in Hr as [Ha Hr].
    destruct r as [|b r]; [by apply printed_last|]. destruct IH as (s & c & E & Hc); [done..|]. cbn [fmap list_fmap String.concat] in *.
    exists (print_value h a +:+ " " +:+ s), c. rewrite E. by rewrite !str_app_assoc. }
  unfold rule_line. rewrite E. change ("-A " +:+ n +:+ " " +:+ s +:+ String c "") with (String "-" ("A " +:+ n +:+ " " +:+ s +:+ String c "")).
  rewrite <- (str_app_assoc " "), <- (str_app_assoc n), <- (str_app_assoc "A "). by apply trim_ends.
Qed.

(** ** A reader of restore scripts

    Words separated by blanks, quotes around a value, a backslash before a character inside
    quotes: the quoting of the scripts is read back by it. *)

Fixpoint restore_words (s current : string) (quoted escaped pending : bool) : list string :=
  match s with
  | EmptyString => push_arg pending current []
  | String c s' =>
      if escaped then restore_words s' (current +:+ String c "") quoted false true
      else if code c =? 34 then restore_words s' current (negb quoted) false true
      else if quoted && (code c =? 92) then restore_words s' current quoted true true
      else if negb quoted && (code c =? 32) then push_arg pending current (restore_words s' "" quoted false false)
      else restore_words s' (current +:+ String c "") quoted false true
  end.

Lemma plain_byte_code c : plain_byte c = true → (code c =? 34) = false ∧ (code c =? 32) = false.
Proof. destruct c as [[] [] [] [] [] [] [] []]; vm_compute; auto. Qed.
Lemma restore_words_plain w s cur p : str_all plain_byte w = true → w ≠ "" ∨ p = true →
  restore_words (w +:+ s) cur false false p = restore_words s (cur +:+ w) false false true.
Proof.
  revert cur p. induction w as [|c w IH]; intros cur p; cbn [str_all].
  - intros _ [?| ->]; [done|]. by rewrite str_app_nil_r.
  - intros [[H34 H32]%plain_byte_code Hw]%andb_true_iff _. cbn [String.append restore_words]. rewrite H34, H32.
    cbn [andb negb]. rewrite IH by auto. by rewrite str_app_assoc.
Qed.
Lemma restore_words_escaped a s cur :
  restore_words (escape_quotes a +:+ bytes [34] +:+ s) cur true false true = restore_words s (cur +:+ a) false false true.
Proof.
  revert cur. induction a as [|c a IH]; intros cur; cbn [escape_quotes].
  - cbn [String.append bytes fold_right restore_words]. change (code (byte_of 34) =? 34) with true. by rewrite str_app_nil_r.
  - destruct ((code c =? 92) || (code c =? 34)) eqn:E; cbn [String.append restore_words].
    + change (code (byte_of 92) =? 34) with false. change (code (byte_of 92) =? 92) with true. cbn [andb].
      rewrite IH. by rewrite str_app_assoc.
    + apply orb_false_iff in E as [-> ->]. cbn [andb negb]. rewrite IH. by rewrite str_app_assoc.
Qed.
(** What a restore reads for a quoted argument is the argument. *)
Lemma restore_reads_argument a s cur p :
  restore_words (" " +:+ quote_restore_argument a +:+ s) cur false false p = push_arg p cur (restore_words s a false false true).
Proof.
  cbn [String.append restore_words]. change (code " " =? 34) with false. change (code " " =? 32) with true. cbn [andb negb].
  f_equal. unfold quote_restore_argument. case_bool_decide as Ha; cbn [negb andb].
  - subst a. rewrite !str_app_assoc. cbn [escape_quotes String.append bytes fold_right restore_words].
    change (code (byte_of 34) =? 34) with true. done.
  - destruct (str_all plain_byte a) eqn:E; [by rewrite restore_words_plain by auto|].
    rewrite !str_app_assoc. cbn [bytes fold_right String.append]. cbn [restore_words].
    change (code (byte_of 34) =? 34) with true. cbn [negb]. apply (restore_words_escaped a s "").
Qed.
Lemma restore_reads_rule rule cur : 
  restore_words (String.concat "" ((λ a, " " +:+ quote_restore_argument a) <$> rule)) cur false false true = cur :: rule.
Proof.
  revert cur. induction rule as [|a rule IH]; intros cur; [done|].
  assert (String.concat "" ((λ a, " " +:+ quote_restore_argument a) <$> (a :: rule)) =
          " " +:+ quote_restore_argument a +:+ String.concat "" ((λ a, " " +:+ quote_restore_argument a) <$> rule)) as ->.
  { destruct rule; cbn [fmap list_fmap String.concat]; rewrite ?str_app_nil_r; [done|]. by rewrite str_app_assoc. }
  rewrite restore_reads_argument. cbn [push_arg]. by rewrite IH.
Qed.

Definition read_restore_line (line : string) : option (string * string * args) :=
  match restore_words line "" false false false with
  | verb :: name :: rest =>
      if bool_decide (verb = "-I") then match rest with one :: rule => Some (verb, name, rule) | [] => None end
      else Some (verb, name, rest)
  | _ => None
  end.
Lemma read_insert name rule : str_all plain_byte name = true → name ≠ "" →
  read_restore_line (restore_line "-I" name " 1" rule) = Some ("-I", name, rule).
Proof.
  intros Hn Hne. unfold read_restore_line, restore_line. rewrite (restore_words_plain "-I") by (done || by left).
  cbn [String.append restore_words]. change (code " " =? 34) with false. change (code " " =? 32) with true. cbn [andb negb push_arg].
  rewrite (restore_words_plain name) by auto. cbn [String.append restore_words].
  change (code " " =? 34) with false. change (code " " =? 32) with true. cbn [andb negb push_arg restore_words].
  change (code "1" =? 34) with false. change (code "1" =? 32) with false. cbn [andb negb].
  by rewrite restore_reads_rule.
Qed.
Lemma read_delete name rule : str_all plain_byte name = true → name ≠ "" →
  read_restore_line (restore_line "-D" name "" rule) = Some ("-D", name, rule).
Proof.
  intros Hn Hne. unfold read_restore_line, restore_line. rewrite (restore_words_plain "-D") by (done || by left).
  cbn [String.append restore_words]. change (code " " =? 34) with false. change (code " " =? 32) with true. cbn [andb negb push_arg].
  rewrite (restore_words_plain name) by auto. cbn [String.append]. by rewrite restore_reads_rule.
Qed.

(** ** An example host *)

Definition legible_b (h : rule_host) (m : ruleset) : bool :=
  forallb (λ kl, free " " kl.1.2 &&
    forallb (λ r, bool_decide (canon h (split_rule_args (rule_text h r)) = r) &&
                  bool_decide (trim (rule_line h kl.1.2 r) = rule_line h kl.1.2 r)) kl.2) (map_to_list m).
Lemma legible_check h m : legible_b h m = true → legible h m.
Proof.
  unfold legible_b. rewrite forallb_forall. intros Hb.
  assert (∀ t n l, m !! (t, n) = Some l → free " " n = true ∧ ∀ r, r ∈ l →
    canon h (split_rule_args (rule_text h r)) = r ∧ trim (rule_line h n r) = rule_line h n r) as Hk.
  { intros t n l Hl%elem_of_map_to_list%list_elem_of_In. apply Hb, andb_true_iff in Hl as [Hn Hl].
    split; [done|]. rewrite forallb_forall in Hl. intros r Hr%list_elem_of_In.
    by apply Hl, andb_true_iff in Hr as [?%bool_decide_eq_true ?%bool_decide_eq_true]. }
  split; intros t n; unfold chain; destruct (m !! (t, n)) as [l|] eqn:E; cbn [default from_option].
  - intros r Hr. exact (proj2 (Hk t n l E) r Hr).
  - by intros r ?%not_elem_of_nil.
  - intros _. exact (proj1 (Hk t n l E)).
  - done.
Qed.

Lemma rules_check (f : rule_class) m : forallb (λ kl, forallb (f kl.1.1 kl.1.2) kl.2) (map_to_list m) = true →
  ∀ t n r, r ∈ chain m t n → f t n r = true.
Proof.
  rewrite forallb_forall. intros Hb t n r. unfold chain. destruct (m !! (t, n)) as [l|] eqn:E; cbn [default from_option].
  - apply elem_of_map_to_list, list_elem_of_In, Hb in E. rewrite forallb_forall in E. intros Hr%list_elem_of_In. by apply E.
  - by intros ?%not_elem_of_nil.
Qed.

(** A negated source is kept first. *)
Definition source_first (r : args) : args :=
  match r with
  | a :: i :: b :: c :: ip :: rest =>
      if bool_decide ((a, b, c) = ("-i", "!", "-s")) then b :: c :: ip :: a :: i :: rest else r
  | _ => r
  end.
Definition sample_rules (o : nat → option (option string)) (w : nat → list string → list string) : rule_host :=
  mkRules source_first (λ a, a) (λ t, ["-P INPUT ACCEPT"; "-P FORWARD ACCEPT"; "-N DOCKER"]) o
    "iptables: Bad rule (does a matching rule exist in that chain?)." true read_restore_line w
    (λ b, bool_decide (b = "iptables")) true.
Lemma sample_honest o : honest (sample_rules o (λ _ l, l)).
Proof.
  split; [|done|intros name rule; apply read_insert|intros name rule; apply read_delete].
  intros t line Hl. cbn [declarations sample_rules] in Hl.
  repeat (apply elem_of_cons in Hl as [->|Hl]; [by vm_compute|]). by apply not_elem_of_nil in Hl.
Qed.
