(* ===== verification/AntiSpoof.v ===== *)
(** * Anti-spoofing rules (src/src/network/nat/anti_spoof)

    The rule a workspace's interface has in the chains [INPUT] and [FORWARD] of the table
    [filter]: packets that enter through the interface with another source than the
    workspace's address are dropped.  Installing looks at a listing and inserts what is
    missing in one restore; removing deletes what a listing shows, in one restore or rule
    by rule, and lists again to see that nothing is left. *)
From S2P Require Import Prelude RustStr Text ProcFs Firewall.
#[local] Open Scope nat_scope.

(** ** Recognition (recognize.rs) *)

Fixpoint any2 (f : string → string → bool) (l : list string) : bool :=
  match l with a :: ((b :: _) as l') => f a b || any2 f l' | _ => false end.
Fixpoint any3 (f : string → string → string → bool) (l : list string) : bool :=
  match l with a :: ((b :: c :: _) as l') => f a b c || any3 f l' | _ => false end.
Definition same (a b : string) : bool := bool_decide (a = b).

Definition is_anti_spoof_rule (rule veth_host assigned_ip : string) : bool :=
  let l := split_rule_args rule in
  any2 (λ a b, same a "-j" && same b "DROP") l &&
  (any2 (λ a b, same a "-i" && same b veth_host) l &&
   any3 (λ a b c, same a "!" && same b "-s" && same c (assigned_ip +:+ "/32")) l).

Definition ANTI_SPOOF_CHAINS : list string := ["INPUT"; "FORWARD"].
Definition anti_spoof_rules (dump : list string) (veth_host assigned_ip : string) : list (string * string) :=
  name ← ANTI_SPOOF_CHAINS;
  omap (λ line, match strip_prefix ("-A " +:+ name +:+ " ") line with
                | Some rule => if is_anti_spoof_rule rule veth_host assigned_ip then Some (name, rule) else None
                | None => None
                end) dump.
Definition chains_with_anti_spoof_rule (dump : list string) (veth_host assigned_ip : string) : list string :=
  foldl (λ l p, if bool_decide (p.1 ∈ l) then l else l ++ [p.1]) [] (anti_spoof_rules dump veth_host assigned_ip).
Definition anti_spoof_rule_args (veth_host assigned_ip : string) (owner : option string) : args :=
  ["-i"; veth_host; "!"; "-s"; assigned_ip +:+ "/32"] ++ from_option comment_args [] owner ++ ["-j"; "DROP"].

Section anti_spoof.
Context (h : rule_host).

(** ** Operations (mod.rs) *)

Definition anti_spoof_chains_present (veth_host assigned_ip : string) : stm firewall (list string) :=
  dump ← list_table h "filter"; mret (chains_with_anti_spoof_rule dump veth_host assigned_ip).

Definition ensure_workspace_anti_spoofing (veth_host assigned_ip workspace_id : string) : stm firewall unit :=
  detect_iptables h;;
  present ← anti_spoof_chains_present veth_host assigned_ip;
  let rule := anti_spoof_rule_args veth_host assigned_ip (Some workspace_id) in
  insert_filter_rules_first h
    ((if bool_decide ("INPUT" ∈ present) then [] else [("INPUT", rule)]) ++
     (if bool_decide ("FORWARD" ∈ present) then [] else [("FORWARD", rule)])).

Definition verify_anti_spoofing_absent (veth_host assigned_ip : string) : stm firewall unit :=
  remaining ← anti_spoof_chains_present veth_host assigned_ip;
  assert (bool_decide (remaining = [])) "anti-spoofing rule still exists after removal".

(** [attempts] are the attempts left. *)
Definition REMOVE_ATTEMPTS : nat := 3.
Fixpoint remove_filter_rule_with_retry (attempts : nat) (name : string) (rule : args) : stm firewall unit :=
  match attempts with
  | O => throw "failed to remove the rule"
  | S n =>
      r ← catch (remove_filter_rule h name rule);
      match r with
      | Ok _ => mret tt
      | Err e => if n =? 0 then lift (Err e) else remove_filter_rule_with_retry n name rule
      end
  end.
Fixpoint remove_each (l : list (string * args)) : stm firewall unit :=
  match l with
  | [] => mret tt
  | p :: rest => remove_filter_rule_with_retry REMOVE_ATTEMPTS p.1 p.2;; remove_each rest
  end.
Definition remove_listed_anti_spoof_rules (dump : list string) (veth_host assigned_ip : string) : stm firewall unit :=
  match anti_spoof_rules dump veth_host assigned_ip with
  | [] => mret tt
  | listed =>
      let owned := (λ p, (p.1, split_rule_args p.2)) <$> listed in
      batch ← catch (delete_filter_rules h owned);
      match batch with Ok _ => mret tt | Err _ => remove_each owned end
  end.
Definition remove_workspace_anti_spoofing (veth_host assigned_ip : string) : stm firewall unit :=
  detect_iptables h;;
  dump ← list_table h "filter";
  remove_listed_anti_spoof_rules dump veth_host assigned_ip;;
  verify_anti_spoofing_absent veth_host assigned_ip.

(** ** What a listing shows *)

Section interface.
Context (v ip : string) (H : honest h).

(** The rules of this interface. *)
Definition spoof_rule (r : args) : bool := is_anti_spoof_rule (rule_text h r) v ip.
Definition mine (t n : string) (r : args) : bool :=
  bool_decide (t = "filter") && (bool_decide (n ∈ ANTI_SPOOF_CHAINS) && spoof_rule r).
Definition none (t n : string) (r : args) : bool := false.

Lemma chain_listing m n : legible h m → free " " n = true →
  omap (λ line, match strip_prefix ("-A " +:+ n +:+ " ") line with
                | Some rule => if is_anti_spoof_rule rule v ip then Some (n, rule) else None
                | None => None
                end) (listing h "filter" m) =
  (λ r, (n, rule_text h r)) <$> filter (λ r, spoof_rule r = true) (chain m "filter" n).
Proof.
  intros Hm Hn. rewrite (listing_chain h m "filter" n), <- filter_fmap_omap.
  - apply list_omap_ext. apply list.Forall_Forall2_diag, list.Forall_true. intros r.
    rewrite strip_rule by done. by rewrite bool_decide_true.
  - intros line Hl. by rewrite strip_prefix_weaken by (by apply (no_rule_declared _ H) in Hl as [_ ?]).
  - intros n' r Hr Hne. rewrite strip_rule by (done || by eapply legible_name).
    by rewrite bool_decide_false.
Qed.
Lemma anti_listing m : legible h m →
  anti_spoof_rules (listing h "filter" m) v ip =
  (n ← ANTI_SPOOF_CHAINS; (λ r, (n, rule_text h r)) <$> filter (λ r, spoof_rule r = true) (chain m "filter" n)).
Proof.
  intros Hm. unfold anti_spoof_rules, ANTI_SPOOF_CHAINS. cbn [mbind list_bind].
  by rewrite !chain_listing by done.
Qed.
Lemma elem_anti_listing m n s : legible h m → (n, s) ∈ anti_spoof_rules (listing h "filter" m) v ip ↔
  ∃ r, s = rule_text h r ∧ r ∈ chain m "filter" n ∧ mine "filter" n r = true.
Proof.
  intros Hm. rewrite anti_listing, list_elem_of_bind by done. unfold mine. setoid_rewrite list_elem_of_fmap.
  setoid_rewrite list_elem_of_filter. split.
  - intros (? & (r & [= -> ->] & Hr & Hin) & Hn). exists r. rewrite !bool_decide_true by done. by rewrite Hr.
  - intros (r & -> & Hin & [_ [Hn%bool_decide_eq_true Hr]%andb_true_iff]%andb_true_iff). exists n. eauto.
Qed.

Lemma chains_elem l n : n ∈ foldl (λ l p, if bool_decide (p.1 ∈ l) then l else l ++ [p.1]) [] (l : list (string * string)) ↔ n ∈ l.*1.
Proof.
  enough (∀ acc, n ∈ foldl (λ l p, if bool_decide (p.1 ∈ l) then l else l ++ [p.1]) acc l ↔ n ∈ acc ∨ n ∈ l.*1) as ->.
  { rewrite elem_of_nil. naive_solver. }
  induction l as [|p l IH]; intros acc; cbn [foldl fmap list_fmap]; [rewrite elem_of_nil; naive_solver|].
  rewrite IH, elem_of_cons. case_bool_decide; [set_solver|]. rewrite elem_of_app, list_elem_of_singleton. naive_solver.
Qed.

(** ** Removing *)

Lemma legible_none m0 m : legible h m0 → evolves mine none m0 m → legible h m.
Proof. intros Hm He. by apply (legible_evolves h mine none m0). Qed.

Section removing.
Context (m0 : ruleset) (Hm0 : legible h m0).
Abbreviation keeps := (preserves (λ st : firewall, evolves mine none m0 (rules st))).

Lemma retry_keeps k n rule : mine "filter" n (canon h rule) = true → keeps (remove_filter_rule_with_retry k n rule).
Proof.
  intros Hr. induction k as [|k IH]; [apply preserves_lift|]. cbn [remove_filter_rule_with_retry].
  apply preserves_bind; [by apply catch_keeps, delete_rule_keeps|]. intros [u|e]; [apply preserves_ret|].
  destruct (k =? 0); [apply preserves_lift|exact IH].
Qed.
Lemma remove_each_keeps l : (∀ n rule, (n, rule) ∈ l → mine "filter" n (canon h rule) = true) → keeps (remove_each l).
Proof.
  induction l as [|[n rule] l IH]; intros Hl; [apply preserves_ret|]. cbn [remove_each fst snd].
  apply preserves_bind; [by apply retry_keeps, Hl, list_elem_of_here|]. intros _. apply IH.
  intros n' r Hr. apply Hl. by apply list_elem_of_further.
Qed.
Lemma mine_plain n r : mine "filter" n r = true → str_all plain_byte n = true ∧ n ≠ "".
Proof.
  intros [_ [Hn%bool_decide_eq_true _]%andb_true_iff]%andb_true_iff. unfold ANTI_SPOOF_CHAINS in Hn.
  apply elem_of_cons in Hn as [->|Hn%list_elem_of_singleton]; [done|]. by subst.
Qed.
Lemma delete_line_effect n rule m : mine "filter" n (canon h rule) = true →
  line_effect h (restore_line "-D" n "" rule) m = delete_effect h "filter" n rule m.
Proof. intros [Hp Hn]%mine_plain. unfold line_effect. by rewrite (reads_delete _ H) by done. Qed.
Lemma delete_all_keeps l : (∀ n rule, (n, rule) ∈ l → mine "filter" n (canon h rule) = true) → keeps (delete_filter_rules h l).
Proof.
  intros Hl. unfold delete_filter_rules. destruct l as [|p l]; [apply preserves_ret|].
  apply preserves_bind; [apply restore_keeps|intros o; apply preserves_assert].
  intros line m m' ([n rule] & -> & Hin)%list_elem_of_fmap. apply Hl in Hin. cbn [fst snd].
  rewrite delete_line_effect by done. by apply evolves_delete.
Qed.

Lemma listed_mine m n rule : legible h m →
  (n, rule) ∈ ((λ p, (p.1, split_rule_args p.2)) <$> anti_spoof_rules (listing h "filter" m) v ip) →
  mine "filter" n (canon h rule) = true.
Proof.
  intros Hm ([n' s] & [= -> ->] & (r & -> & Hin & Hr)%elem_anti_listing)%list_elem_of_fmap; [|done]. cbn.
  by destruct (reads_back _ _ Hm _ _ _ Hin) as [-> _].
Qed.
Lemma remove_listed_keeps m : legible h m → keeps (remove_listed_anti_spoof_rules (listing h "filter" m) v ip).
Proof.
  intros Hm. pose proof (listed_mine m) as Hl. unfold remove_listed_anti_spoof_rules.
  destruct (anti_spoof_rules _ v ip) as [|p l] eqn:E; [apply preserves_ret|].
  apply preserves_bind; [by apply catch_keeps, delete_all_keeps; intros; apply Hl|].
  intros [u|e]; [apply preserves_ret|]. by apply remove_each_keeps; intros; apply Hl.
Qed.
End removing.

Lemma verify_keeps m0 : preserves (λ st, evolves mine none m0 (rules st)) (verify_anti_spoofing_absent v ip).
Proof.
  apply preserves_bind; [|intros r; apply preserves_assert].
  apply preserves_bind; [apply list_keeps|intros d; apply preserves_ret].
Qed.
Lemma remove_keeps m0 : legible h m0 →
  preserves (λ st, evolves mine none m0 (rules st)) (remove_workspace_anti_spoofing v ip).
Proof.
  intros Hm. apply preserves_bind; [apply detect_keeps|]. intros _ st Hst. unfold mbind at 1, stm_bind at 1.
  pose proof (list_keeps h mine none m0 "filter" st Hst) as Hl.
  destruct (list_table h "filter" st) as [[dump|e] st1] eqn:E; [|done]. apply list_table_Ok in E as [-> _].
  rewrite (sees_all _ H).
  apply (preserves_bind _ _ _ (remove_listed_keeps m0 (rules st) (legible_none m0 _ Hm Hst)) (λ _, verify_keeps m0) st1 Hl).
Qed.

Lemma verified_absent st st' : legible h (rules st) → verify_anti_spoofing_absent v ip st = (Ok tt, st') →
  rules st' = rules st ∧ ∀ n r, r ∈ chain (rules st) "filter" n → mine "filter" n r = false.
Proof.
  intros Hm. unfold verify_anti_spoofing_absent, anti_spoof_chains_present.
  intros (l & st1 & (dump & st2 & [-> E]%list_table_Ok & [-> ->]%mret_Ok)%stm_bind_Ok & (_ & Hl & ->)%assert_Ok)%stm_bind_Ok.
  split; [done|]. intros n r Hr. destruct (mine "filter" n r) eqn:Hmine; [|done]. apply bool_decide_eq_true in Hl.
  rewrite (sees_all _ H) in Hl. exfalso. apply (not_elem_of_nil n). rewrite <- Hl.
  apply chains_elem, list_elem_of_fmap. exists (n, rule_text h r). split; [done|].
  apply elem_anti_listing; eauto.
Qed.

(** *** A run without failing commands *)

Lemma delete_head (f : args → bool) x xs l : filter (λ r, f r = true) l = x :: xs →
  ∃ l', delete_first x l = Some l' ∧ filter (λ r, f r = true) l' = xs.
Proof.
  induction l as [|y l IH]; [done|]. rewrite list.filter_cons. cbn [delete_first]. case_decide as E.
  - intros [= <- <-]. rewrite bool_decide_true by done. by exists l.
  - intros Hx. destruct (IH Hx) as (l' & Hl & Hf). rewrite bool_decide_false.
    + exists (y :: l'). rewrite Hl. split; [done|]. by rewrite list.filter_cons_False.
    + intros ->. assert (x ∈ x :: xs) as Hin by apply list_elem_of_here. rewrite <- Hx in Hin.
      by apply list_elem_of_filter in Hin as [? _].
Qed.

Lemma script_chain n rest xs m : n ∈ ANTI_SPOOF_CHAINS → legible h m →
  filter (λ r, spoof_rule r = true) (chain m "filter" n) = xs →
  ∃ m', script h (((λ r, restore_line "-D" n "" (split_rule_args (rule_text h r))) <$> xs) ++ rest) m = script h rest m' ∧
        evolves mine none m m' ∧ filter (λ r, spoof_rule r = true) (chain m' "filter" n) = [] ∧
        (∀ n', n' ≠ n → chain m' "filter" n' = chain m "filter" n').
Proof.
  intros Hn. revert m. induction xs as [|x xs IH]; intros m Hm Hx; [exists m; eauto using evolves_refl|].
  destruct (delete_head _ _ _ _ Hx) as (l' & Hl & Hf).
  assert (x ∈ chain m "filter" n ∧ spoof_rule x = true) as [Hin Hs].
  { assert (x ∈ x :: xs) as Hin by apply list_elem_of_here. rewrite <- Hx in Hin. by apply list_elem_of_filter in Hin as [? ?]. }
  destruct (reads_back _ _ Hm _ _ _ Hin) as [Hc _].
  assert (mine "filter" n (canon h (split_rule_args (rule_text h x))) = true) as Hmine.
  { rewrite Hc. unfold mine. by rewrite !bool_decide_true, Hs by done. }
  assert (delete_effect h "filter" n (split_rule_args (rule_text h x)) m = Some (set_chain "filter" n l' m)) as Hd
    by (unfold delete_effect; by rewrite Hc, Hl).
  pose proof (evolves_delete mine none h m _ _ _ _ Hmine Hd) as He.
  destruct (IH (set_chain "filter" n l' m)) as (m' & Hs' & He' & Hf' & Hrest).
  { by apply (legible_none m). } { rewrite chain_set. by rewrite decide_True. }
  exists m'. split_and!; [|by eapply evolves_trans|done|].
  - cbn [fmap list_fmap app script]. by rewrite delete_line_effect, Hd.
  - intros n' Hn'. rewrite Hrest, chain_set by done. rewrite decide_False; [done|congruence].
Qed.

Lemma script_removes m : legible h m →
  ∃ m', script h ((λ p, restore_line "-D" p.1 "" p.2) <$>
          ((λ p, (p.1, split_rule_args p.2)) <$> anti_spoof_rules (listing h "filter" m) v ip)) m = (m', true) ∧
        evolves mine none m m' ∧ ∀ n r, r ∈ chain m' "filter" n → mine "filter" n r = false.
Proof.
  intros Hm. rewrite anti_listing by done. unfold ANTI_SPOOF_CHAINS. cbn [mbind list_bind].
  rewrite app_nil_r, !fmap_app, <- !list_fmap_compose. unfold compose. cbn [fst snd].
  set (F := (λ r, restore_line "-D" "FORWARD" "" (split_rule_args (rule_text h r))) <$> _).
  destruct (script_chain "INPUT" F _ m ltac:(set_solver) Hm eq_refl) as (m1 & -> & He1 & Hf1 & Hr1).
  rewrite <- (app_nil_r F). subst F. rewrite <- (Hr1 "FORWARD") by done.
  destruct (script_chain "FORWARD" [] _ m1 ltac:(set_solver) (legible_none _ _ Hm He1) eq_refl) as (m2 & -> & He2 & Hf2 & Hr2).
  exists m2. split_and!; [done|by eapply evolves_trans|]. intros n r Hr.
  destruct (mine "filter" n r) eqn:E; [|done]. unfold mine in E.
  apply andb_true_iff in E as [_ [Hn%bool_decide_eq_true Hs]%andb_true_iff].
  assert (filter (λ r, spoof_rule r = true) (chain m2 "filter" n) = []) as Hnil.
  { unfold ANTI_SPOOF_CHAINS in Hn. apply elem_of_cons in Hn as [->|Hn%list_elem_of_singleton]; [by rewrite Hr2|by subst]. }
  exfalso. apply (not_elem_of_nil r). rewrite <- Hnil. by apply list_elem_of_filter.
Qed.

Lemma remove_listed_done st : legible h (rules st) → (∀ k, outcome h k = None) →
  ∃ st', remove_listed_anti_spoof_rules (listing h "filter" (rules st)) v ip st = (Ok tt, st') ∧
         evolves mine none (rules st) (rules st') ∧ ∀ n r, r ∈ chain (rules st') "filter" n → mine "filter" n r = false.
Proof.
  intros Hm Hrun. destruct (script_removes (rules st) Hm) as (m' & Hs & He & Hgone).
  unfold remove_listed_anti_spoof_rules. destruct (anti_spoof_rules _ v ip) as [|p l] eqn:E.
  - cbn in Hs. injection Hs as <-. by exists st.
  - eexists. unfold mbind, stm_bind, catch, delete_filter_rules, restore. cbn [fmap list_fmap] in Hs |- *.
    unfold mbind, stm_bind. rewrite Hrun, Hs. split; [done|]. done.
Qed.
Lemma verify_passes st : legible h (rules st) → (∀ k, outcome h k = None) →
  (∀ n r, r ∈ chain (rules st) "filter" n → mine "filter" n r = false) → (verify_anti_spoofing_absent v ip st).1 = Ok tt.
Proof.
  intros Hm Hrun Hgone. unfold verify_anti_spoofing_absent, anti_spoof_chains_present, mbind, stm_bind, list_table.
  rewrite Hrun, (sees_all _ H). unfold chains_with_anti_spoof_rule.
  destruct (anti_spoof_rules _ v ip) as [|[n s'] l] eqn:E; [done|].
  assert ((n, s') ∈ (n, s') :: l) as Hin by apply list_elem_of_here. rewrite <- E in Hin.
  apply elem_anti_listing in Hin as (r & _ & Hin & Hr); [|done]. by rewrite (Hgone _ _ Hin) in Hr.
Qed.
Lemma remove_succeeds st : legible h (rules st) → (∀ k, outcome h k = None) → detected st ≠ None ∨ probe_iptables h ≠ None →
  (remove_workspace_anti_spoofing v ip st).1 = Ok tt.
Proof.
  intros Hm Hrun Hb. unfold remove_workspace_anti_spoofing. unfold mbind at 1, stm_bind at 1.
  destruct (detect_iptables h st) as [[b|e] st1] eqn:E.
  - apply detect_rules in E as [Er _]. unfold mbind at 1, stm_bind at 1, list_table at 1. rewrite Hrun, (sees_all _ H), Er.
    unfold mbind at 1, stm_bind at 1.
    destruct (remove_listed_done (mkFirewall (rules st) (S (runs st1)) (detected st1)) Hm Hrun) as (st' & Hd & He & Hgone).
    cbn [rules] in Hd. rewrite Hd. apply verify_passes; [by apply (legible_none (rules st))|done..].
  - unfold detect_iptables, mbind, stm_bind, get, modify, mret, stm_ret, throw, lift in E. cbn in E.
    destruct (detected st); [done|]. by destruct (probe_iptables h), Hb.
Qed.

(** ** Installing *)

(** The chains without a rule of this interface. *)
Definition lacks (m : ruleset) (n : string) : bool := bool_decide (filter (λ r, spoof_rule r = true) (chain m "filter" n) = []).
Lemma present_lacks m n : legible h m → n ∈ ANTI_SPOOF_CHAINS →
  bool_decide (n ∈ chains_with_anti_spoof_rule (listing h "filter" m) v ip) = negb (lacks m n).
Proof.
  intros Hm Hn. unfold lacks. rewrite <- bool_decide_not. apply bool_decide_ext. unfold chains_with_anti_spoof_rule.
  rewrite chains_elem, list_elem_of_fmap. split.
  - intros ([n' s'] & -> & (r & _ & Hr & [_ [_ Hs]%andb_true_iff]%andb_true_iff)%elem_anti_listing) Hnil; [|done].
    apply (not_elem_of_nil r). rewrite <- Hnil. by apply list_elem_of_filter.
  - intros Hl. destruct (filter _ _) as [|r l] eqn:E; [done|].
    assert (r ∈ r :: l) as Hr by apply list_elem_of_here. rewrite <- E in Hr. apply list_elem_of_filter in Hr as [Hs Hr].
    exists (n, rule_text h r). split; [done|]. apply elem_anti_listing; [done|]. exists r. unfold mine.
    by rewrite !bool_decide_true, Hs by done.
Qed.

(** What is missing, inserted at the head of its chain. *)
Definition with_rule (c : args) (m : ruleset) : ruleset :=
  foldl (λ m' n, if lacks m n then set_chain "filter" n (c :: chain m' "filter" n) m' else m') m (reverse ANTI_SPOOF_CHAINS).
Lemma with_rule_chain c m t n :
  chain (with_rule c m) t n =
  if bool_decide (t = "filter") && (bool_decide (n ∈ ANTI_SPOOF_CHAINS) && lacks m n) then c :: chain m t n else chain m t n.
Proof.
  clear H. unfold with_rule, ANTI_SPOOF_CHAINS. change (reverse ["INPUT"; "FORWARD"]) with ["FORWARD"; "INPUT"]. cbn [foldl].
  destruct (decide (t = "filter")) as [->|Ht].
  - rewrite (bool_decide_true ("filter" = "filter")) by done. cbn [andb].
    destruct (decide (n = "INPUT")) as [->|Hi]; [|destruct (decide (n = "FORWARD")) as [->|Hf]].
    + rewrite (bool_decide_true ("INPUT" ∈ _)) by set_solver. cbn [andb].
      by destruct (lacks m "FORWARD"), (lacks m "INPUT"); rewrite ?chain_set; repeat case_decide; simplify_eq.
    + rewrite (bool_decide_true ("FORWARD" ∈ _)) by set_solver. cbn [andb].
      by destruct (lacks m "FORWARD"), (lacks m "INPUT"); rewrite ?chain_set; repeat case_decide; simplify_eq.
    + rewrite (bool_decide_false (n ∈ _)) by set_solver. cbn [andb].
      by destruct (lacks m "FORWARD"), (lacks m "INPUT"); rewrite ?chain_set; repeat case_decide; simplify_eq.
  - rewrite (bool_decide_false (t = "filter")) by done. cbn [andb].
    by destruct (lacks m "FORWARD"), (lacks m "INPUT"); rewrite ?chain_set; repeat case_decide; simplify_eq.
Qed.

Lemma insert_line_effect n rule m : n ∈ ANTI_SPOOF_CHAINS →
  line_effect h (restore_line "-I" n " 1" rule) m = Some (set_chain "filter" n (canon h rule :: chain m "filter" n) m).
Proof.
  intros Hn. unfold line_effect. rewrite (reads_insert _ H); [done|..];
    unfold ANTI_SPOOF_CHAINS in Hn; apply elem_of_cons in Hn as [->|Hn%list_elem_of_singleton]; by subst.
Qed.
Lemma insert_missing ws m k d : legible h m →
  let rule := anti_spoof_rule_args v ip (Some ws) in
  let present := chains_with_anti_spoof_rule (listing h "filter" m) v ip in
  let r := insert_filter_rules_first h
    ((if bool_decide ("INPUT" ∈ present) then [] else [("INPUT", rule)]) ++
     (if bool_decide ("FORWARD" ∈ present) then [] else [("FORWARD", rule)])) (mkFirewall m k d) in
  (r.1 = Ok tt ∧ rules r.2 = with_rule (canon h rule) m) ∨ ((∃ e, r.1 = Err e) ∧ rules r.2 = m ∧ outcome h k ≠ None).
Proof.
  intros Hm. cbn zeta. rewrite !present_lacks by (done || set_solver). unfold with_rule, ANTI_SPOOF_CHAINS.
  change (reverse ["INPUT"; "FORWARD"]) with ["FORWARD"; "INPUT"]. cbn [foldl].
  destruct (lacks m "INPUT"), (lacks m "FORWARD"); cbn [negb app insert_filter_rules_first]; [| | |by left];
    unfold mbind, stm_bind, restore; cbn [runs rules];
    (destruct (outcome h k) as [[e|]|] eqn:Ho; [right; split_and!; [by eexists|done|done]..|]);
    rewrite ?reverse_cons; cbn [reverse rev_append app fmap list_fmap fst snd script];
    rewrite !insert_line_effect by set_solver; left; split; done.
Qed.

Lemma ensure_spec ws st : legible h (rules st) →
  let '(res, st') := ensure_workspace_anti_spoofing v ip ws st in
  (res = Ok tt ∧ rules st' = with_rule (canon h (anti_spoof_rule_args v ip (Some ws))) (rules st)) ∨
  ((∃ e, res = Err e) ∧ rules st' = rules st ∧ ((∃ k, outcome h k ≠ None) ∨ detected st = None ∧ probe_iptables h = None)).
Proof.
  intros Hm. unfold ensure_workspace_anti_spoofing, anti_spoof_chains_present. unfold mbind at 1, stm_bind at 1.
  destruct (detect_iptables h st) as [[b|e] st1] eqn:E.
  - apply detect_rules in E as [Er _]. unfold mbind, stm_bind, list_table.
    destruct (outcome h (runs st1)) eqn:Ho.
    + right. split_and!; [by eexists|done|]. left. exists (runs st1). by rewrite Ho.
    + unfold mret at 1, stm_ret at 1. rewrite (sees_all _ H). rewrite <- Er in Hm.
      destruct (insert_missing ws (rules st1) (S (runs st1)) (detected st1) Hm) as [[Hr Hs]|(Hr & Hs & Ho')].
      all: cbn zeta in Hr, Hs; destruct (insert_filter_rules_first h _ _) as [res st']; cbn [fst snd] in *; rewrite <- Er.
      * by left.
      * right. split_and!; [done..|]. left. eauto.
  - pose proof E as [Er _]%detect_rules. right. split_and!; [by eexists|done|]. right.
    unfold detect_iptables, mbind, stm_bind, get, modify, mret, stm_ret, throw, lift in E. cbn in E.
    destruct (detected st); [done|]. by destruct (probe_iptables h).
Qed.
End interface.
End anti_spoof.

(** ** The rule that is installed is recognized *)

Lemma any2_app f l a b l' : f a b = true → any2 f (l ++ a :: b :: l') = true.
Proof.
  intros Hf. induction l as [|x l IH]; [cbn; by rewrite Hf|]. destruct l as [|y l]; cbn in *; by rewrite IH, orb_true_r.
Qed.
Lemma any3_app f l a b c l' : f a b c = true → any3 f (l ++ a :: b :: c :: l') = true.
Proof.
  intros Hf. induction l as [|x l IH]; [cbn; by rewrite Hf|]. destruct l as [|y [|z l]]; cbn in *; by rewrite IH, orb_true_r.
Qed.
Lemma installed_recognized h v ip ws : prints_words h → is_word v = true → is_word (ip +:+ "/32") = true →
  is_word (RULE_COMMENT_PREFIX +:+ ws) = true →
  spoof_rule h v ip (source_first (anti_spoof_rule_args v ip (Some ws))) = true.
Proof.
  intros Hp Hv Hip Hws. unfold spoof_rule, is_anti_spoof_rule.
  change (source_first _) with ["!"; "-s"; ip +:+ "/32"; "-i"; v; "-m"; "comment"; "--comment"; RULE_COMMENT_PREFIX +:+ ws; "-j"; "DROP"].
  rewrite split_printed; [|done|].
  - rewrite (any2_app _ ["!"; "-s"; ip +:+ "/32"; "-i"; v; "-m"; "comment"; "--comment"; RULE_COMMENT_PREFIX +:+ ws] "-j" "DROP" []) by done.
    rewrite (any2_app _ ["!"; "-s"; ip +:+ "/32"] "-i" v
      ["-m"; "comment"; "--comment"; RULE_COMMENT_PREFIX +:+ ws; "-j"; "DROP"]) by (unfold same; by rewrite !bool_decide_true).
    rewrite (any3_app _ [] "!" "-s" (ip +:+ "/32")
      ("-i" :: v :: ["-m"; "comment"; "--comment"; RULE_COMMENT_PREFIX +:+ ws; "-j"; "DROP"])) by (unfold same; by rewrite !bool_decide_true). done.
  - cbn [forallb]. rewrite Hv, Hip, Hws. done.
Qed.

(** What installing leaves: other rules as they were, and a table that can still be read. *)
Section installing.
Context (h : rule_host) (v ip ws : string) (H : honest h) (Hp : prints_words h).
Context (Hv : is_word v = true) (Hip : is_word (ip +:+ "/32") = true) (Hws : is_word (RULE_COMMENT_PREFIX +:+ ws) = true).
Let rule := anti_spoof_rule_args v ip (Some ws).
Context (Hc : canon h rule = source_first rule) (Hcc : canon h (source_first rule) = source_first rule).
Definition installed (t n : string) (r : args) : bool :=
  bool_decide (t = "filter") && (bool_decide (n ∈ ANTI_SPOOF_CHAINS) && bool_decide (r = source_first rule)).

Lemma rule_recognized : spoof_rule h v ip (source_first rule) = true.
Proof. by apply installed_recognized. Qed.
Lemma with_rule_evolves m : evolves (mine h v ip) installed m (with_rule h v ip (source_first rule) m).
Proof.
  split.
  - intros t n. unfold foreign. rewrite with_rule_chain. destruct (_ && _) eqn:E; [|done].
    apply andb_true_iff in E as [Ht [Hn _]%andb_true_iff]. rewrite list.filter_cons_False; [done|].
    unfold mine. rewrite Ht, Hn. cbn [andb]. by rewrite rule_recognized.
  - intros t n r. rewrite with_rule_chain. destruct (_ && _) eqn:E; [|by left].
    apply andb_true_iff in E as [Ht [Hn _]%andb_true_iff]. intros [->|?]%elem_of_cons; [right|by left].
    unfold installed. rewrite Ht, Hn. cbn [andb]. by apply bool_decide_eq_true.
Qed.
Lemma installed_legible t n r : installed t n r = true →
  canon h (split_rule_args (rule_text h r)) = r ∧ trim (rule_line h n r) = rule_line h n r ∧ free " " n = true.
Proof.
  unfold installed. intros [_ [Hn%bool_decide_eq_true ->%bool_decide_eq_true]%andb_true_iff]%andb_true_iff.
  assert (forallb is_word (source_first rule) = true) as Hw.
  { change (source_first rule) with ["!"; "-s"; ip +:+ "/32"; "-i"; v; "-m"; "comment"; "--comment"; RULE_COMMENT_PREFIX +:+ ws; "-j"; "DROP"].
    cbn [forallb]. by rewrite Hv, Hip, Hws. }
  rewrite split_printed, trim_rule_line by done. split_and!; [done..|].
  unfold ANTI_SPOOF_CHAINS in Hn. apply elem_of_cons in Hn as [->|Hn%list_elem_of_singleton]; [done|]. by subst.
Qed.
Lemma ensure_evolves st : legible h (rules st) →
  let '(res, st') := ensure_workspace_anti_spoofing h v ip ws st in
  evolves (mine h v ip) installed (rules st) (rules st') ∧ legible h (rules st').
Proof.
  intros Hm. pose proof (ensure_spec h v ip H ws st Hm) as Hs. fold rule in Hs. rewrite Hc in Hs.
  destruct (ensure_workspace_anti_spoofing h v ip ws st) as [res st'].
  assert (evolves (mine h v ip) installed (rules st) (rules st')) as He.
  { destruct Hs as [[_ ->]|(_ & -> & _)]; [apply with_rule_evolves|apply evolves_refl]. }
  split; [done|]. by apply (legible_evolves h (mine h v ip) installed (rules st)); [|apply installed_legible|].
Qed.
Lemma ensure_recognized st st' : legible h (rules st) → ensure_workspace_anti_spoofing h v ip ws st = (Ok tt, st') →
  ∀ n, n ∈ ANTI_SPOOF_CHAINS → ∃ r, r ∈ chain (rules st') "filter" n ∧ mine h v ip "filter" n r = true.
Proof.
  intros Hm E n Hn. pose proof (ensure_spec h v ip H ws st Hm) as Hs. rewrite E in Hs. fold rule in Hs.
  destruct Hs as [[_ ->]|([e [=]] & _)]. rewrite Hc, with_rule_chain.
  rewrite (bool_decide_true ("filter" = "filter")), (bool_decide_true (n ∈ _)) by done. cbn [andb]. unfold mine.
  destruct (lacks h v ip (rules st) n) eqn:El.
  - exists (source_first rule). split; [apply list_elem_of_here|]. rewrite !bool_decide_true by done. cbn [andb]. apply rule_recognized.
  - apply bool_decide_eq_false in El. destruct (filter _ _) as [|r l] eqn:Ef; [done|].
    assert (r ∈ r :: l) as Hin by apply list_elem_of_here. rewrite <- Ef in Hin.
    apply list_elem_of_filter in Hin as [Hr Hin]. exists r. by rewrite !bool_decide_true, Hr.
Qed.
End installing.

(** Installing the anti-spoofing rule of an interface puts it at the head of each of the chains
    [INPUT] and [FORWARD] that has no such rule yet and changes nothing else, so afterwards both
    chains have a rule that is recognized as this interface's.  When it fails, nothing was
    changed; without a failing command it does not fail. *)
Theorem anti_spoofing_installed (h : rule_host) (v ip ws : string) (st : firewall) :
  honest h → prints_words h → legible h (rules st) →
  is_word v = true → is_word (ip +:+ "/32") = true → is_word (RULE_COMMENT_PREFIX +:+ ws) = true →
  let c := canon h (anti_spoof_rule_args v ip (Some ws)) in
  c = source_first (anti_spoof_rule_args v ip (Some ws)) →
  let '(res, st') := ensure_workspace_anti_spoofing h v ip ws st in
  match res with
  | Ok _ =>
      (∀ t n, chain (rules st') t n =
        if bool_decide (t = "filter") && (bool_decide (n ∈ ANTI_SPOOF_CHAINS) && lacks h v ip (rules st) n)
        then c :: chain (rules st) t n else chain (rules st) t n) ∧
      ∀ n, n ∈ ANTI_SPOOF_CHAINS → ∃ r, r ∈ chain (rules st') "filter" n ∧ mine h v ip "filter" n r = true
  | Err _ => rules st' = rules st ∧ ((∃ k, outcome h k ≠ None) ∨ detected st = None ∧ probe_iptables h = None)
  end.
Proof.
  intros H Hp Hm Hv Hip Hws c Hc. pose proof (ensure_spec h v ip H ws st Hm) as Hs. fold c in Hs.
  pose proof (ensure_recognized h v ip ws H Hp Hv Hip Hws Hc st) as Hr.
  destruct (ensure_workspace_anti_spoofing h v ip ws st) as [res st']. destruct Hs as [[-> Hrules]|([e ->] & Hrules & Hf)]; [|done].
  split; [intros t n; rewrite Hrules; apply with_rule_chain|]. by apply Hr.
Qed.

Lemma remove_exact h v ip : honest h → ∀ st, legible h (rules st) →
  let '(res, st') := remove_workspace_anti_spoofing h v ip st in
  res = Ok tt → ∀ t n, chain (rules st') t n = foreign (mine h v ip) (rules st) t n.
Proof.
  intros H st Hm. pose proof (remove_keeps h v ip H _ Hm st (evolves_refl _ _ _)) as He.
  destruct (remove_workspace_anti_spoofing h v ip st) as [res st'] eqn:E. cbn [snd] in He.
  intros -> t n. destruct He as [He Hn]. rewrite <- He. apply no_foreign_left.
  unfold remove_workspace_anti_spoofing in E.
  apply stm_bind_Ok in E as (b & st1 & [Hd _]%detect_rules & E).
  apply stm_bind_Ok in E as (dump & st2 & [-> Hl]%list_table_Ok & E).
  apply stm_bind_Ok in E as (u & st3 & Hrm & Hv). rewrite (sees_all _ H) in Hrm.
  assert (legible h (rules st3)) as Hm3.
  { apply (legible_none h v ip (rules st1)); [by rewrite Hd|].
    pose proof (remove_listed_keeps h v ip H (rules st1) (rules st1) ltac:(by rewrite Hd) st2) as Hk.
    rewrite Hrm in Hk. apply Hk. rewrite Hl. apply evolves_refl. }
  destruct (verified_absent h v ip H st3 st' Hm3 Hv) as [-> Hgone]. intros r Hr.
  destruct (decide (t = "filter")) as [->|Ht]; [by apply Hgone|]. unfold mine. by rewrite bool_decide_false.
Qed.

(** Removing the anti-spoofing rules of an interface touches no other rule: every chain of
    every table keeps its other rules in their order, whatever commands fail.  When it reports
    success, exactly the interface's rules are gone, however many copies there were and in
    whatever argument order or with whatever comment they were installed.  And it does report
    success when a binary is there and no command fails. *)
Theorem spoof_rules_removed (h : rule_host) (v ip : string) (st : firewall) :
  honest h → legible h (rules st) →
  let '(res, st') := remove_workspace_anti_spoofing h v ip st in
  (∀ t n, foreign (mine h v ip) (rules st') t n = foreign (mine h v ip) (rules st) t n) ∧
  (res = Ok tt → ∀ t n, chain (rules st') t n = foreign (mine h v ip) (rules st) t n) ∧
  ((∀ k, outcome h k = None) → detected st ≠ None ∨ probe_iptables h ≠ None → res = Ok tt).
Proof.
  intros H Hm. pose proof (remove_keeps h v ip H _ Hm st (evolves_refl _ _ _)) as He.
  pose proof (remove_succeeds h v ip H st Hm) as Hs. pose proof (remove_exact h v ip H st Hm) as Hx.
  destruct (remove_workspace_anti_spoofing h v ip st) as [res st']. split_and!; [apply He|done..].
Qed.

Definition spoof_args (v ip ws : string) : args := source_first (anti_spoof_rule_args v ip (Some ws)).
Definition sample_fw : firewall :=
  mkFirewall {[ ("filter", "INPUT") := [["-i"; "lo"; "-j"; "ACCEPT"]; spoof_args "veth-10-0a1b2c" "10.200.0.10" "ws-a";
                                        ["!"; "-s"; "10.200.0.10/32"; "-i"; "veth-10-0a1b2c"; "-j"; "DROP"]];
                ("filter", "FORWARD") := [spoof_args "veth-11-00ff00" "10.200.0.11" "ws-b";
                                          spoof_args "veth-10-0a1b2c" "10.200.0.10" "ws-a"] ]} 0 None.
Definition busy_first (k : nat) : option (option string) :=
  if k =? 1 then Some (Some "iptables-restore: line 2 failed") else None.

Lemma spoof_rules_removed_witness :
  let '(res, st') := remove_workspace_anti_spoofing (sample_rules busy_first (λ _ l, l)) "veth-10-0a1b2c" "10.200.0.10" sample_fw in
  res = Ok tt ∧
  chain (rules st') "filter" "FORWARD" = foreign (mine (sample_rules busy_first (λ _ l, l)) "veth-10-0a1b2c" "10.200.0.10")
                                           (rules sample_fw) "filter" "FORWARD".
Proof.
  pose proof (spoof_rules_removed (sample_rules busy_first (λ _ l, l)) "veth-10-0a1b2c" "10.200.0.10" sample_fw
    (sample_honest _) ltac:(apply legible_check; by vm_compute)) as Hw.
  assert ((remove_workspace_anti_spoofing (sample_rules busy_first (λ _ l, l)) "veth-10-0a1b2c" "10.200.0.10" sample_fw).1 = Ok tt)
    as Hr by by vm_compute.
  destruct (remove_workspace_anti_spoofing _ _ _ sample_fw) as [res st']. cbn in Hr.
  destruct Hw as (_ & Hw & _). split; [done|]. by apply Hw.
Defined.

(** A listing that is lost proves absence: the removal reports success and the rules stay. *)
Lemma lost_listing_passes :
  let h := sample_rules (λ _, None) (λ _ _, []) in
  let '(res, st') := remove_workspace_anti_spoofing h "veth-10-0a1b2c" "10.200.0.10" sample_fw in
  res = Ok tt ∧ spoof_args "veth-10-0a1b2c" "10.200.0.10" "ws-a" ∈ chain (rules st') "filter" "INPUT".
Proof. vm_compute. split; [done|]. apply list_elem_of_further, list_elem_of_here. Qed.

Lemma anti_spoofing_installed_witness :
  let h := sample_rules (λ _, None) (λ _ l, l) in
  let '(res, st') := ensure_workspace_anti_spoofing h "veth-11-00ff00" "10.200.0.11" "ws-b" sample_fw in
  match res with
  | Ok _ => chain (rules st') "filter" "INPUT" = spoof_args "veth-11-00ff00" "10.200.0.11" "ws-b" :: chain (rules sample_fw) "filter" "INPUT"
  | Err _ => False
  end.
Proof.
  cbn zeta.
  pose proof (anti_spoofing_installed (sample_rules (λ _, None) (λ _ l, l)) "veth-11-00ff00" "10.200.0.11" "ws-b" sample_fw
    (sample_honest _) (λ a _, or_introl eq_refl) ltac:(apply legible_check; by vm_compute) eq_refl eq_refl eq_refl eq_refl) as Hw.
  destruct (ensure_workspace_anti_spoofing _ _ _ _ sample_fw) as [[u|e] st'].
  - destruct Hw as [Hw _]. rewrite Hw. by vm_compute.
  - destruct Hw as (_ & [[k Hk]|[_ Hb]]); [by destruct Hk|]. by vm_compute in Hb.
Defined.

(** A rule that drops less than the installed one is taken for it. *)
Lemma narrow_rule_recognized :
  is_anti_spoof_rule "! -s 10.200.0.10/32 -i veth-10-0a1b2c -p tcp -j DROP" "veth-10-0a1b2c" "10.200.0.10" = true.
Proof. by vm_compute. Qed.
