(* ===== verification/BridgeRules.v ===== *)
(** * The rules of the bridge (src/src/network/nat/forwarding.rs, inventory.rs)

    The shared rules of the bridge carry the comment [enclave:bridge].  Ensuring them
    retires tagged rules of another shape, adds what is missing (drops at the head of
    their chain, accepts at its end), deletes the untagged shape of earlier releases and
    lists the tables again. *)
From S2P Require Import Prelude RustStr Text ProcFs Firewall.
#[local] Open Scope nat_scope.

(** ** Owned rules (inventory.rs) *)

Record OwnedRule := mkOwned { owned_table : string; owned_chain : string; owner : string; owned_text : string }.

Definition owned_rule_owner (rule : string) : option string :=
  '(_, comment) ← split_once "--comment" rule;
  let comment := trim_start comment in
  let comment := default comment (strip_prefix (bytes [34]) comment) in
  let comment := from_option fst comment (split_once (bytes [34]) comment) in
  let comment := default "" (head (split_whitespace comment)) in
  owner ← strip_prefix RULE_COMMENT_PREFIX comment;
  if bool_decide (owner = "") then None else Some owner.

Definition parse_owned_rule (line : string) : option OwnedRule :=
  rest ← strip_prefix "-A " (trim line);
  '(name, rule) ← split_once " " rest;
  owner ← owned_rule_owner rule;
  Some (mkOwned "" name owner rule).
Definition parse_owned_rules (output : list string) : list OwnedRule := omap parse_owned_rule output.
Definition RULE_TABLES : list string := ["filter"; "nat"].

(** ** The rules of the bridge (forwarding.rs) *)

Definition BRIDGE_NAME : string := "enclave0".
Definition SUBNET_CIDR : string := "10.200.0.0/24".
Definition METADATA_IPV4_CIDR : string := "169.254.169.254/32".
Definition BRIDGE_RULE_OWNER : string := "bridge".

Record BridgeRule := mkBridgeRule {
  br_table : string;
  br_chain : string;
  insert_first : bool;
  br_args : args;
  legacy_args : args;
  description : string }.
Record BridgeRuleSpec := mkSpec {
  spec_table : string;
  spec_chain : string;
  spec_first : bool;
  matches : args;
  target : string;
  spec_description : string }.

Definition bridge_rule_specs : list BridgeRuleSpec :=
  [ mkSpec "filter" "INPUT" true ["-i"; BRIDGE_NAME; "-m"; "addrtype"; "--dst-type"; "LOCAL"] "DROP"
      "block workspace access to host-local services";
    mkSpec "filter" "FORWARD" true ["-i"; BRIDGE_NAME; "-o"; BRIDGE_NAME] "DROP"
      "block workspace-to-workspace forwarding on enclave bridge";
    mkSpec "filter" "FORWARD" true ["-s"; SUBNET_CIDR; "-d"; METADATA_IPV4_CIDR] "DROP"
      "block workspace access to cloud metadata endpoint";
    mkSpec "filter" "FORWARD" false ["-s"; SUBNET_CIDR] "ACCEPT"
      "allow outbound forwarding from enclave subnet";
    mkSpec "filter" "FORWARD" false ["-d"; SUBNET_CIDR; "-m"; "conntrack"; "--ctstate"; "RELATED,ESTABLISHED"] "ACCEPT"
      "allow established return traffic to enclave subnet";
    mkSpec "nat" "POSTROUTING" false ["-s"; SUBNET_CIDR] "MASQUERADE"
      "masquerade workspace traffic" ].
Definition bridge_rule (spec : BridgeRuleSpec) : BridgeRule :=
  mkBridgeRule (spec_table spec) (spec_chain spec) (spec_first spec)
    (matches spec ++ comment_args BRIDGE_RULE_OWNER ++ ["-j"; target spec])
    (matches spec ++ ["-j"; target spec]) (spec_description spec).
Definition bridge_rules : list BridgeRule := bridge_rule <$> bridge_rule_specs.

Definition is_current (rules : list BridgeRule) (rule : OwnedRule) : bool :=
  existsb (λ current, bool_decide (br_table current = owned_table rule) && bool_decide (br_chain current = owned_chain rule)
                      && bool_decide (br_args current = split_rule_args (owned_text rule))) rules.
(** Tagged bridge rules that are not among [rules]. *)
Definition stale_bridge_rules (rules : list BridgeRule) (owned : list OwnedRule) : list OwnedRule :=
  filter (λ rule, negb (is_current rules rule) = true) (filter (λ rule, owner rule = BRIDGE_RULE_OWNER) owned).

Section bridge_rules.
Context (h : rule_host).

(** ** The bridge rules *)

Definition list_owned_rules_in_table (table : string) : stm firewall (list OwnedRule) :=
  output ← list_table h table;
  mret ((λ r, mkOwned table (owned_chain r) (owner r) (owned_text r)) <$> parse_owned_rules output).
Fixpoint list_owned_in (tables : list string) : stm firewall (list OwnedRule) :=
  match tables with
  | [] => mret []
  | table :: rest => l ← list_owned_rules_in_table table; l' ← list_owned_in rest; mret (l ++ l')
  end.
Definition list_owned_rules_across_tables : stm firewall (list OwnedRule) := list_owned_in RULE_TABLES.
Definition list_owned_rules : stm firewall (list OwnedRule) := detect_iptables h;; list_owned_rules_across_tables.
Definition remove_owned_rule (rule : OwnedRule) : stm firewall unit :=
  detect_iptables h;; delete_rule h (owned_table rule) (owned_chain rule) (split_rule_args (owned_text rule)).

Fixpoint delete_owned (l : list OwnedRule) : stm firewall unit :=
  match l with
  | [] => mret tt
  | r :: rest => delete_rule h (owned_table r) (owned_chain r) (split_rule_args (owned_text r));; delete_owned rest
  end.
Definition retire_stale_bridge_rules (rules : list BridgeRule) : stm firewall unit :=
  owned ← list_owned_rules_across_tables; delete_owned (stale_bridge_rules rules owned).
Definition remove_legacy_bridge_rule (rule : BridgeRule) : stm firewall unit :=
  delete_rule h (br_table rule) (br_chain rule) (legacy_args rule).
Definition verify_bridge_rules (rules : list BridgeRule) : stm firewall unit :=
  present ← list_owned_rules_across_tables;
  assert (forallb (λ rule, existsb (λ o, is_current [rule] o) present) rules) "shared bridge firewall rules are incomplete".
Definition ensure_ipv4_forwarding : stm firewall unit := assert (forwarding h) "IPv4 forwarding is disabled".

Fixpoint ensure_each (l : list BridgeRule) : stm firewall unit :=
  match l with
  | [] => mret tt
  | rule :: rest =>
      ensure_rule h (br_table rule) (br_chain rule) (br_args rule) (insert_first rule);;
      remove_legacy_bridge_rule rule;;
      ensure_each rest
  end.
Definition ensure_nat : stm firewall unit :=
  ensure_ipv4_forwarding;;
  detect_iptables h;;
  retire_stale_bridge_rules bridge_rules;;
  ensure_each bridge_rules;;
  verify_bridge_rules bridge_rules.
Fixpoint remove_legacy_each (l : list BridgeRule) : stm firewall unit :=
  match l with
  | [] => mret tt
  | rule :: rest => remove_legacy_bridge_rule rule;; remove_legacy_each rest
  end.
Definition remove_nat : stm firewall unit :=
  detect_iptables h;; retire_stale_bridge_rules [];; remove_legacy_each bridge_rules.

(** ** What the inventory shows *)

Section inventory.
Context (H : honest h).

Lemma parse_rule_line m t n r : legible h m → r ∈ chain m t n →
  parse_owned_rule (rule_line h n r) = (λ o, mkOwned "" n o (rule_text h r)) <$> owned_rule_owner (rule_text h r).
Proof.
  intros Hm Hr. unfold parse_owned_rule. destruct (reads_back _ _ Hm _ _ _ Hr) as [_ ->]. unfold rule_line.
  change (strip_prefix "-A " ("-A " +:+ n +:+ " " +:+ rule_text h r)) with (Some (n +:+ String " " (rule_text h r))).
  cbn [mbind option_bind]. rewrite (split_once_char " ") by (by eapply legible_name). cbn. by destruct (owned_rule_owner _).
Qed.
Lemma elem_owned m t o : legible h m →
  o ∈ parse_owned_rules (listing h t m) ↔
  ∃ r, r ∈ chain m t (owned_chain o) ∧ owned_rule_owner (rule_text h r) = Some (owner o) ∧ owned_table o = "" ∧ owned_text o = rule_text h r.
Proof.
  intros Hm. unfold parse_owned_rules. rewrite elem_listing.
  - split.
    + intros (n & r & Hr & Ho). rewrite (parse_rule_line m t) in Ho by done.
      apply fmap_Some in Ho as (w & Hw & ->). exists r. done.
    + intros (r & Hr & Ho & Ht & Hx). exists (owned_chain o), r. split; [done|]. rewrite (parse_rule_line m t), Ho by done.
      destruct o; cbn in *. by subst.
  - intros line Hl. unfold parse_owned_rule. apply (no_rule_declared _ H) in Hl as [Hl _]. unfold starts_with in Hl.
    by destruct (strip_prefix "-A " (trim line)).
Qed.

(** The rules with an owner in the tables. *)
Definition owned_in (tables : list string) (m : ruleset) (o : OwnedRule) : Prop :=
  owned_table o ∈ tables ∧ ∃ r, r ∈ chain m (owned_table o) (owned_chain o) ∧
    owned_rule_owner (rule_text h r) = Some (owner o) ∧ owned_text o = rule_text h r.
Lemma list_owned_Ok tables st l st' : legible h (rules st) → list_owned_in tables st = (Ok l, st') →
  rules st' = rules st ∧ ∀ o, o ∈ l ↔ owned_in tables (rules st) o.
Proof.
  revert st l st'. induction tables as [|t tables IH]; intros st l st' Hm; cbn [list_owned_in].
  - intros [-> ->]%mret_Ok. split; [done|]. intros o. unfold owned_in. rewrite !elem_of_nil. naive_solver.
  - intros (l1 & st1 & (out & st2 & [-> E2]%list_table_Ok & [-> ->]%mret_Ok)%stm_bind_Ok & E)%stm_bind_Ok.
    rewrite (sees_all _ H) in E. apply stm_bind_Ok in E as (l2 & st3 & [E3 Hl]%IH & [-> ->]%mret_Ok); [|by rewrite E2].
    rewrite E2 in Hl. split; [by rewrite E3|]. intros o. rewrite elem_of_app, Hl, list_elem_of_fmap. unfold owned_in.
    setoid_rewrite elem_owned; [|done]. setoid_rewrite elem_of_cons. split.
    + intros [(o' & -> & r & Hr & Ho & _ & Hx)|[Ht Hr]]; cbn; [|by auto]. split; [by left|]. eauto.
    + intros [[Ht|Ht] (r & Hr & Ho & Hx)]; [|by right; eauto]. left. rewrite Ht in Hr.
      exists (mkOwned "" (owned_chain o) (owner o) (owned_text o)). split; [destruct o; cbn in *; by subst|]. cbn. eauto 6.
Qed.
End inventory.

(** ** Ensuring keeps other rules *)

Definition at_chain (t n : string) (b : BridgeRule) : bool := bool_decide (br_table b = t) && bool_decide (br_chain b = n).
(** The rules the daemon installs, and those it may retire. *)
Definition current (t n : string) (r : args) : bool := existsb (λ b, at_chain t n b && bool_decide (r = br_args b)) bridge_rules.
Definition bridge_owned (t n : string) (r : args) : bool :=
  (bool_decide (t ∈ RULE_TABLES) && bool_decide (owned_rule_owner (rule_text h r) = Some BRIDGE_RULE_OWNER)) ||
  existsb (λ b, at_chain t n b && (bool_decide (r = br_args b) || bool_decide (r = legacy_args b))) bridge_rules.

(** The shared rules are in the order a listing prints. *)
Definition bridge_canonical : Prop :=
  Forall (λ b, canon h (br_args b) = br_args b ∧ canon h (legacy_args b) = legacy_args b) bridge_rules.

Section ensuring.
Context (H : honest h) (Hp : prints_words h) (Hc : bridge_canonical).

Lemma bridge_canon b : b ∈ bridge_rules → canon h (br_args b) = br_args b ∧ canon h (legacy_args b) = legacy_args b.
Proof. revert b. apply list.Forall_forall, Hc. Qed.
Lemma bridge_words : forallb (λ b, forallb is_word (br_args b) && free " " (br_chain b) && bool_decide (br_table b ∈ RULE_TABLES)
    && bool_decide (br_args b ≠ [])) bridge_rules = true.
Proof. clear. by vm_compute. Qed.
Lemma bridge_word b : b ∈ bridge_rules → forallb is_word (br_args b) = true ∧ free " " (br_chain b) = true ∧ br_table b ∈ RULE_TABLES ∧ br_args b ≠ [].
Proof.
  intros Hb%list_elem_of_In. pose proof bridge_words as Hw. rewrite forallb_forall in Hw.
  by apply Hw, andb_true_iff in Hb as [[[? ?]%andb_true_iff ?%bool_decide_eq_true]%andb_true_iff ?%bool_decide_eq_true].
Qed.
Lemma at_chain_true t n b : at_chain t n b = true ↔ br_table b = t ∧ br_chain b = n.
Proof. unfold at_chain. by rewrite andb_true_iff, !bool_decide_eq_true. Qed.
Lemma current_elem t n r : current t n r = true ↔ ∃ b, b ∈ bridge_rules ∧ br_table b = t ∧ br_chain b = n ∧ r = br_args b.
Proof.
  unfold current. rewrite existsb_exists. setoid_rewrite andb_true_iff. setoid_rewrite at_chain_true.
  setoid_rewrite bool_decide_eq_true. setoid_rewrite <- list_elem_of_In. naive_solver.
Qed.
Lemma current_legible t n r : current t n r = true →
  canon h (split_rule_args (rule_text h r)) = r ∧ trim (rule_line h n r) = rule_line h n r ∧ free " " n = true.
Proof.
  intros (b & Hb & _ & <- & ->)%current_elem. destruct (bridge_word b Hb) as (Hw & Hn & _ & Hne).
  rewrite split_printed, trim_rule_line by done. split_and!; [by apply bridge_canon|done..].
Qed.
Lemma owned_of_bridge b r : b ∈ bridge_rules → r = br_args b ∨ r = legacy_args b → bridge_owned (br_table b) (br_chain b) r = true.
Proof.
  intros Hb Hr. unfold bridge_owned. apply orb_true_iff. right. apply existsb_exists. exists b.
  rewrite <- list_elem_of_In. split; [done|]. apply andb_true_iff. rewrite at_chain_true, orb_true_iff, !bool_decide_eq_true. naive_solver.
Qed.
Lemma legible_current m0 m : legible h m0 → evolves bridge_owned current m0 m → legible h m.
Proof. intros Hm. apply legible_evolves; [done|]. apply current_legible. Qed.

Section keeping.
Context (m0 : ruleset).
Abbreviation keeps := (preserves (λ st : firewall, evolves bridge_owned current m0 (rules st))).

Lemma ensure_rule_keeps b : b ∈ bridge_rules → keeps (ensure_rule h (br_table b) (br_chain b) (br_args b) (insert_first b)).
Proof.
  intros Hb. destruct (bridge_canon b Hb) as [Ha _].
  assert (bridge_owned (br_table b) (br_chain b) (br_args b) = true) as HP by (apply owned_of_bridge; auto).
  assert (current (br_table b) (br_chain b) (br_args b) = true) as HQ by (apply current_elem; eauto 6).
  apply preserves_bind.
  { apply run_keeps. intros m m'. unfold check_effect. case_bool_decide; [intros [= <-]; apply evolves_refl|done]. }
  intros [e|]; [|apply preserves_ret]. apply preserves_bind; [|intros [e'|]; [apply preserves_assert|apply preserves_ret]].
  apply run_keeps. intros m m'. unfold insert_effect, append_effect. rewrite Ha.
  destruct (insert_first b); intros [= <-]; eapply evolves_add; eauto.
Qed.
Lemma remove_legacy_keeps b : b ∈ bridge_rules → keeps (remove_legacy_bridge_rule b).
Proof.
  intros Hb. apply delete_rule_keeps. destruct (bridge_canon b Hb) as [_ ->]. apply owned_of_bridge; auto.
Qed.
Lemma ensure_each_keeps l : (∀ b, b ∈ l → b ∈ bridge_rules) → keeps (ensure_each l).
Proof.
  induction l as [|b l IH]; intros Hl; [apply preserves_ret|]. cbn [ensure_each].
  apply preserves_bind; [apply ensure_rule_keeps, Hl, list_elem_of_here|]. intros _.
  apply preserves_bind; [apply remove_legacy_keeps, Hl, list_elem_of_here|]. intros _. apply IH.
  intros b' Hb'. apply Hl. by apply list_elem_of_further.
Qed.
Lemma remove_legacy_each_keeps l : (∀ b, b ∈ l → b ∈ bridge_rules) → keeps (remove_legacy_each l).
Proof.
  induction l as [|b l IH]; intros Hl; [apply preserves_ret|]. cbn [remove_legacy_each].
  apply preserves_bind; [apply remove_legacy_keeps, Hl, list_elem_of_here|]. intros _. apply IH.
  intros b' Hb'. apply Hl. by apply list_elem_of_further.
Qed.
Lemma delete_owned_keeps m l : legible h m → (∀ o, o ∈ l → owned_in RULE_TABLES m o ∧ owner o = BRIDGE_RULE_OWNER) → keeps (delete_owned l).
Proof.
  intros Hm. induction l as [|o l IH]; intros Hl; [apply preserves_ret|]. cbn [delete_owned].
  apply preserves_bind; [|intros _; apply IH; intros o' Ho'; apply Hl; by apply list_elem_of_further].
  destruct (Hl o) as [[Ht (r & Hr & Ho & ->)] Hw]; [apply list_elem_of_here|]. apply delete_rule_keeps.
  destruct (reads_back _ _ Hm _ _ _ Hr) as [-> _]. unfold bridge_owned. rewrite Ho, Hw, !bool_decide_true by done. done.
Qed.
Lemma list_owned_keeps tables : keeps (list_owned_in tables).
Proof.
  induction tables as [|t tables IH]; [apply preserves_ret|]. cbn [list_owned_in]. apply preserves_bind.
  - apply preserves_bind; [apply list_keeps|intros; apply preserves_ret].
  - intros l. apply preserves_bind; [apply IH|intros; apply preserves_ret].
Qed.
Lemma retire_keeps rs : legible h m0 → keeps (retire_stale_bridge_rules rs).
Proof.
  intros Hm st Hst. unfold retire_stale_bridge_rules, mbind, stm_bind.
  pose proof (list_owned_keeps RULE_TABLES st Hst) as Hl. unfold list_owned_rules_across_tables.
  destruct (list_owned_in RULE_TABLES st) as [[l|e] st1] eqn:E; [|done].
  apply list_owned_Ok in E as [_ El]; [|done|by apply (legible_current m0)].
  apply (delete_owned_keeps (rules st)); [by apply (legible_current m0)| |done].
  intros o [_ [Ho Hin]%list_elem_of_filter]%list_elem_of_filter. split; [by apply El|done].
Qed.
End keeping.

Lemma ensure_nat_keeps m0 : legible h m0 → preserves (λ st, evolves bridge_owned current m0 (rules st)) ensure_nat.
Proof.
  intros Hm. apply preserves_bind; [apply preserves_assert|intros _]. apply preserves_bind; [apply detect_keeps|intros _].
  apply preserves_bind; [by apply retire_keeps|intros _]. apply preserves_bind; [by apply ensure_each_keeps|intros _].
  apply preserves_bind; [apply list_owned_keeps|intros l; apply preserves_assert].
Qed.
Lemma remove_nat_keeps m0 : legible h m0 → preserves (λ st, evolves bridge_owned current m0 (rules st)) remove_nat.
Proof.
  intros Hm. apply preserves_bind; [apply detect_keeps|intros _].
  apply preserves_bind; [by apply retire_keeps|intros _]. by apply remove_legacy_each_keeps.
Qed.

Lemma verified_present st st' : legible h (rules st) → verify_bridge_rules bridge_rules st = (Ok tt, st') →
  rules st' = rules st ∧ ∀ b, b ∈ bridge_rules → br_args b ∈ chain (rules st) (br_table b) (br_chain b).
Proof.
  intros Hm. unfold verify_bridge_rules.
  intros (l & st1 & [E Hl]%list_owned_Ok & (_ & Hv & ->)%assert_Ok)%stm_bind_Ok; [|done..]. split; [done|]. intros b Hb.
  rewrite forallb_forall in Hv. pose proof Hb as Hb'%list_elem_of_In. apply Hv in Hb'.
  apply existsb_exists in Hb' as (o & Ho%list_elem_of_In%Hl & Hcur). unfold is_current in Hcur. cbn [existsb] in Hcur.
  rewrite orb_false_r, !andb_true_iff, !bool_decide_eq_true in Hcur. destruct Hcur as [[-> ->] Ha].
  destruct Ho as [_ (r & Hr & _ & Ht)]. destruct (reads_back _ _ Hm _ _ _ Hr) as [Ec _].
  rewrite <- Ht, <- Ha in Ec. destruct (bridge_canon b Hb) as [Eb _]. by rewrite <- Eb, Ec.
Qed.

(** *** Runs in which every command works *)

Definition calm (st : firewall) : Prop :=
  (∀ k, outcome h k = None) ∧ is_rule_missing_error (missing_text h) = true ∧ forwarding h = true ∧
  (detected st ≠ None ∨ probe_iptables h ≠ None).

Lemma run_calm effect st : (∀ k, outcome h k = None) →
  run h effect st = match effect (rules st) with
                    | Some m => (Ok None, mkFirewall m (S (runs st)) (detected st))
                    | None => (Ok (Some (missing_text h)), mkFirewall (rules st) (S (runs st)) (detected st))
                    end.
Proof. intros Ho. unfold run. by rewrite Ho. Qed.
Lemma list_owned_calm tables st : (∀ k, outcome h k = None) → legible h (rules st) →
  ∃ l st', list_owned_in tables st = (Ok l, st') ∧ rules st' = rules st ∧ detected st' = detected st ∧ ∀ o, o ∈ l ↔ owned_in tables (rules st) o.
Proof.
  intros Ho Hm. assert (∃ l st', list_owned_in tables st = (Ok l, st') ∧ detected st' = detected st) as (l & st' & E & Hd).
  { clear Hm. revert st. induction tables as [|t tables IH]; intros st; cbn [list_owned_in]; [eauto|].
    unfold mbind, stm_bind, list_owned_rules_in_table, mbind, stm_bind, list_table. rewrite Ho. cbn.
    destruct (IH (mkFirewall (rules st) (S (runs st)) (detected st))) as (l & st' & -> & Hd). eauto. }
  pose proof (list_owned_Ok H _ _ _ _ Hm E) as [Er Hl]. eauto 8.
Qed.

(** One rule is ensured: added when it is not there, then one copy of its untagged shape deleted. *)
Definition ensured (m : ruleset) (b : BridgeRule) : ruleset :=
  let t := br_table b in
  let n := br_chain b in
  let m1 := if bool_decide (br_args b ∈ chain m t n) then m
            else set_chain t n (if insert_first b then br_args b :: chain m t n else chain m t n ++ [br_args b]) m in
  match delete_first (legacy_args b) (chain m1 t n) with Some l => set_chain t n l m1 | None => m1 end.
Lemma ensure_each_calm l st : (∀ k, outcome h k = None) → is_rule_missing_error (missing_text h) = true →
  (∀ b, b ∈ l → b ∈ bridge_rules) →
  ∃ st', ensure_each l st = (Ok tt, st') ∧ rules st' = foldl ensured (rules st) l ∧ detected st' = detected st.
Proof.
  intros Ho Hmiss. revert st. induction l as [|b l IH]; intros st Hl; cbn [ensure_each foldl]; [eauto|].
  destruct (bridge_canon b ltac:(apply Hl, list_elem_of_here)) as [Ea El].
  assert (∃ st1, ensure_rule h (br_table b) (br_chain b) (br_args b) (insert_first b) st = (Ok tt, st1) ∧ detected st1 = detected st ∧
    rules st1 = (if bool_decide (br_args b ∈ chain (rules st) (br_table b) (br_chain b)) then rules st
      else set_chain (br_table b) (br_chain b) (if insert_first b then br_args b :: chain (rules st) (br_table b) (br_chain b)
             else chain (rules st) (br_table b) (br_chain b) ++ [br_args b]) (rules st))) as (st1 & E1 & D1 & R1).
  { unfold ensure_rule, mbind, stm_bind. rewrite run_calm by done. unfold check_effect. rewrite Ea.
    case_bool_decide; [eauto|]. rewrite run_calm by done. unfold insert_effect, append_effect. cbn [rules]. rewrite Ea.
    destruct (insert_first b); eauto. }
  unfold mbind at 1, stm_bind at 1. rewrite E1.
  assert (∃ st2, remove_legacy_bridge_rule b st1 = (Ok tt, st2) ∧ detected st2 = detected st1 ∧ rules st2 = ensured (rules st) b)
    as (st2 & E2 & D2 & R2).
  { unfold remove_legacy_bridge_rule, delete_rule, mbind, stm_bind. rewrite run_calm by done. unfold delete_effect, ensured. rewrite El, <- R1.
    destruct (delete_first (legacy_args b) (chain (rules st1) (br_table b) (br_chain b))); cbn; [eauto|]. rewrite Hmiss. cbn. eauto. }
  unfold mbind, stm_bind. rewrite E2. destruct (IH st2) as (st' & E' & R' & D').
  { intros b' Hb'. apply Hl. by apply list_elem_of_further. }
  exists st'. by rewrite E', R', R2, D', D2, D1.
Qed.

(** A listing shows the tag of the shared rules. *)
Definition bridge_tagged : Prop := Forall (λ b, owned_rule_owner (rule_text h (br_args b)) = Some BRIDGE_RULE_OWNER) bridge_rules.
(** Every tagged rule of the bridge is one of this release. *)
Definition no_stale (m : ruleset) : Prop := ∀ t n r, t ∈ RULE_TABLES → r ∈ chain m t n →
  owned_rule_owner (rule_text h r) = Some BRIDGE_RULE_OWNER → current t n r = true.

Lemma filter_nothing {A} (P : A → Prop) `{!∀ a, Decision (P a)} l : (∀ a, a ∈ l → ¬ P a) → filter P l = [].
Proof.
  clear H Hp Hc. induction l as [|a l IH]; intros Hl; [done|]. rewrite list.filter_cons_False by (apply Hl, list_elem_of_here).
  apply IH. intros x Hx. apply Hl. by apply list_elem_of_further.
Qed.
Lemma stale_nil m l : no_stale m → (∀ o, o ∈ l → owned_in RULE_TABLES m o) → stale_bridge_rules bridge_rules l = [].
Proof.
  intros Hs Hl. apply filter_nothing. intros o [Ho [Ht (r & Hr & Hw & Htext)]%Hl]%list_elem_of_filter.
  rewrite Ho in Hw. apply (Hs _ _ _ Ht Hr), current_elem in Hw as (b & Hb & Et & En & ->).
  intros Hn%negb_true_iff. assert (is_current bridge_rules o = true) as Hcur; [|congruence].
  apply existsb_exists. exists b. rewrite <- list_elem_of_In. split; [done|].
  rewrite Et, En, Htext, split_printed, !bool_decide_true by (done || by apply bridge_word). done.
Qed.
Lemma ensure_nat_run st : calm st → legible h (rules st) → bridge_tagged → no_stale (rules st) →
  let m := foldl ensured (rules st) bridge_rules in
  (∀ b, b ∈ bridge_rules → br_args b ∈ chain m (br_table b) (br_chain b)) →
  ∃ st', ensure_nat st = (Ok tt, st') ∧ rules st' = m ∧ calm st'.
Proof.
  intros (Ho & Hmiss & Hf & Hb) Hm Htag Hs m Hall.
  assert (∃ b st1, detect_iptables h st = (Ok b, st1) ∧ rules st1 = rules st ∧ detected st1 ≠ None) as (b & st1 & E1 & R1 & D1).
  { unfold detect_iptables, mbind, stm_bind, get. cbn. destruct (detected st) as [b|] eqn:E; [exists b, st; by rewrite E|].
    destruct (probe_iptables h) as [b|]; [|by destruct Hb]. cbn. by eexists _, _. }
  rewrite <- R1 in Hm, Hs. destruct (list_owned_calm RULE_TABLES st1 Ho Hm) as (l & st2 & E2 & R2 & D2 & Hl).
  destruct (ensure_each_calm bridge_rules st2 Ho Hmiss (λ b Hb, Hb)) as (st3 & E3 & R3 & D3).
  assert (rules st3 = m) as R3' by (by rewrite R3, R2, R1).
  assert (legible h (rules st3)) as Hm3.
  { apply (legible_current (rules st2)); [by rewrite R2|]. pose proof (ensure_each_keeps (rules st2) bridge_rules (λ b Hb, Hb) st2) as Hk.
    rewrite E3 in Hk. apply Hk, evolves_refl. }
  destruct (list_owned_calm RULE_TABLES st3 Ho Hm3) as (l' & st4 & E4 & R4 & D4 & Hl').
  exists st4. split_and!.
  - unfold ensure_nat, ensure_ipv4_forwarding. rewrite Hf. unfold mbind, stm_bind, assert at 1. cbn [mret stm_ret].
    rewrite E1. unfold retire_stale_bridge_rules, mbind, stm_bind, list_owned_rules_across_tables. rewrite E2.
    rewrite (stale_nil (rules st1)) by (done || by intros; apply Hl). cbn [delete_owned mret stm_ret].
    rewrite E3. unfold verify_bridge_rules, mbind, stm_bind, list_owned_rules_across_tables. rewrite E4.
    unfold assert. assert (forallb (λ rule, existsb (λ o, is_current [rule] o) l') bridge_rules = true) as ->; [|done].
    apply forallb_forall. intros b' Hb'%list_elem_of_In. apply existsb_exists. pose proof (bridge_word b' Hb') as (Hw & _ & Ht & _).
    exists (mkOwned (br_table b') (br_chain b') BRIDGE_RULE_OWNER (rule_text h (br_args b'))). rewrite <- list_elem_of_In. split.
    + apply Hl'. split; [done|]. exists (br_args b'). cbn [owned_table owned_chain owner owned_text]. rewrite R3'. split_and!; [by apply Hall| |done].
      unfold bridge_tagged in Htag. rewrite list.Forall_forall in Htag. by apply Htag.
    + unfold is_current. cbn [existsb owned_table owned_chain owned_text]. by rewrite split_printed, !bool_decide_true.
  - by rewrite R4.
  - unfold calm. rewrite D4, D3, D2. auto.
Qed.

(** *** From a firewall without shared rules *)

Fixpoint apart (l : list BridgeRule) : bool :=
  match l with
  | [] => true
  | b :: l' =>
      bool_decide (br_args b ≠ legacy_args b) &&
      forallb (λ b', negb (at_chain (br_table b) (br_chain b) b') ||
                     (bool_decide (br_args b' ≠ br_args b) && bool_decide (legacy_args b' ≠ br_args b))) l' && apart l'
  end.
Definition heads (t n : string) (l : list BridgeRule) : list args :=
  reverse (br_args <$> filter (λ b, at_chain t n b && insert_first b = true) l).
Definition tails (t n : string) (l : list BridgeRule) : list args :=
  br_args <$> filter (λ b, at_chain t n b && negb (insert_first b) = true) l.

Lemma delete_first_absent r l : r ∉ l → delete_first r l = None.
Proof.
  clear H Hp Hc. induction l as [|x l IH]; [done|]. intros [Hx Hl]%not_elem_of_cons. cbn [delete_first].
  rewrite bool_decide_false by done. by rewrite IH.
Qed.
Lemma heads_cons t n b l : heads t n (b :: l) = heads t n l ++ (if at_chain t n b && insert_first b then [br_args b] else []).
Proof.
  unfold heads. rewrite list.filter_cons. destruct (at_chain t n b && insert_first b); case_decide; try done.
  - by rewrite fmap_cons, reverse_cons.
  - by rewrite app_nil_r.
Qed.
Lemma tails_cons t n b l : tails t n (b :: l) = (if at_chain t n b && negb (insert_first b) then [br_args b] else []) ++ tails t n l.
Proof. unfold tails. rewrite list.filter_cons. by destruct (at_chain t n b && negb (insert_first b)); case_decide. Qed.

Lemma ensured_fresh l m : apart l = true →
  (∀ b, b ∈ l → br_args b ∉ chain m (br_table b) (br_chain b) ∧ legacy_args b ∉ chain m (br_table b) (br_chain b)) →
  ∀ t n, chain (foldl ensured m l) t n = heads t n l ++ chain m t n ++ tails t n l.
Proof.
  clear H Hp Hc. revert m. induction l as [|b l IH]; intros m Ha Hm t n; [by rewrite app_nil_r|].
  cbn [apart] in Ha. apply andb_true_iff in Ha as [[Hab%bool_decide_eq_true Hl]%andb_true_iff Ha].
  rewrite forallb_forall in Hl. destruct (Hm b ltac:(apply list_elem_of_here)) as [Hb Hleg].
  set (C := chain m (br_table b) (br_chain b)) in *.
  assert (ensured m b = set_chain (br_table b) (br_chain b) (if insert_first b then br_args b :: C else C ++ [br_args b]) m) as Ee.
  { unfold ensured. fold C. rewrite (bool_decide_false (_ ∈ C)) by done. rewrite delete_first_absent; [done|].
    rewrite chain_set, decide_True by done. clear -Hab Hleg. destruct (insert_first b); set_solver. }
  cbn [foldl]. rewrite Ee, IH; [|done|].
  - rewrite chain_set, heads_cons, tails_cons. destruct (at_chain t n b) eqn:E; cbn [andb].
    + apply at_chain_true in E as [<- <-]. rewrite decide_True by done. fold C.
      destruct (insert_first b); cbn [negb app]; by rewrite <- ?app_assoc, ?app_nil_r.
    + rewrite decide_False; [by rewrite app_nil_r|]. intros [= -> ->]. unfold at_chain in E. by rewrite !bool_decide_true in E.
  - intros b' Hb'. destruct (Hm b') as [H1 H2]; [by apply list_elem_of_further|]. rewrite chain_set.
    case_decide as E; [|done]. injection E as E1 E2. apply list_elem_of_In, Hl in Hb'.
    assert (at_chain (br_table b) (br_chain b) b' = true) as Hat by (by apply at_chain_true). rewrite Hat in Hb'. cbn [negb orb] in Hb'.
    apply andb_true_iff in Hb' as [N1%bool_decide_eq_true N2%bool_decide_eq_true]. rewrite E1, E2 in H1, H2. fold C in H1, H2.
    clear -N1 N2 H1 H2. destruct (insert_first b); set_solver.
Qed.
Lemma bridge_apart : apart bridge_rules = true.
Proof. clear. by vm_compute. Qed.

(** Every shared rule is there, its untagged shape is not. *)
Definition settled (m : ruleset) : Prop := ∀ b, b ∈ bridge_rules →
  br_args b ∈ chain m (br_table b) (br_chain b) ∧ legacy_args b ∉ chain m (br_table b) (br_chain b).
Lemma ensured_settled l m : settled m → (∀ b, b ∈ l → b ∈ bridge_rules) → foldl ensured m l = m.
Proof.
  clear H Hp Hc. intros Hm. induction l as [|b l IH]; intros Hl; [done|]. cbn [foldl].
  destruct (Hm b) as [H1 H2]; [apply Hl, list_elem_of_here|].
  assert (ensured m b = m) as ->; [|apply IH; intros b' Hb'; apply Hl; by apply list_elem_of_further].
  unfold ensured. rewrite bool_decide_true by done. by rewrite delete_first_absent.
Qed.

(** No rule that this release or an earlier one would call its own. *)
Definition unclaimed (m : ruleset) : Prop := ∀ t n r, r ∈ chain m t n → bridge_owned t n r = false.
Lemma unclaimed_fresh m : unclaimed m → ∀ b, b ∈ bridge_rules →
  br_args b ∉ chain m (br_table b) (br_chain b) ∧ legacy_args b ∉ chain m (br_table b) (br_chain b).
Proof.
  clear H Hp Hc. intros Hm b Hb. split; intros Hin; apply Hm in Hin;
    rewrite owned_of_bridge in Hin; auto; done.
Qed.
Lemma unclaimed_no_stale m : unclaimed m → no_stale m.
Proof.
  clear H Hp Hc. intros Hm t n r Ht Hr Hw. apply Hm in Hr. unfold bridge_owned in Hr.
  by rewrite Hw, !bool_decide_true in Hr.
Qed.
Lemma elem_added t n r : r ∈ heads t n bridge_rules ∨ r ∈ tails t n bridge_rules ↔ current t n r = true.
Proof.
  clear H Hp Hc. rewrite current_elem. unfold heads, tails. rewrite elem_of_reverse, !list_elem_of_fmap.
  setoid_rewrite list_elem_of_filter. setoid_rewrite andb_true_iff. setoid_rewrite at_chain_true. split.
  - intros [(b & -> & [[Ht Hn] _] & Hb)|(b & -> & [[Ht Hn] _] & Hb)]; eauto 6.
  - intros (b & Hb & Ht & Hn & ->). destruct (insert_first b) eqn:E; [left|right]; exists b; by rewrite ?E.
Qed.
Lemma legacy_never_current : forallb (λ b, negb (current (br_table b) (br_chain b) (legacy_args b))) bridge_rules = true.
Proof. clear. by vm_compute. Qed.

Lemma fresh_chain m t n : unclaimed m →
  chain (foldl ensured m bridge_rules) t n = heads t n bridge_rules ++ chain m t n ++ tails t n bridge_rules.
Proof. intros Hm. apply ensured_fresh; [apply bridge_apart|by apply unclaimed_fresh]. Qed.
Lemma elem_fresh m t n r : unclaimed m → r ∈ chain (foldl ensured m bridge_rules) t n ↔ r ∈ chain m t n ∨ current t n r = true.
Proof. intros Hm. rewrite fresh_chain, !elem_of_app, <- elem_added by done. tauto. Qed.
Lemma fresh_settled m : unclaimed m → settled (foldl ensured m bridge_rules) ∧ no_stale (foldl ensured m bridge_rules).
Proof.
  intros Hm. split.
  - intros b Hb. rewrite !elem_fresh by done. split; [right; apply current_elem; eauto 6|].
    intros [Hl|Hl]; [by destruct (unclaimed_fresh m Hm b Hb)|]. pose proof legacy_never_current as Hn. rewrite forallb_forall in Hn.
    apply list_elem_of_In, Hn in Hb. by rewrite Hl in Hb.
  - intros t n r Ht Hr Hw. apply elem_fresh in Hr as [Hr|Hr]; [|done..]. by apply (unclaimed_no_stale m).
Qed.
End ensuring.
End bridge_rules.

(** Whatever commands fail, setting the shared rules up and tearing them down leave every rule of
    somebody else in its chain and in its order.  A setup that reports success left every shared
    rule in its chain. *)
Theorem bridge_rules_respect_host (h : rule_host) (st : firewall) :
  honest h → prints_words h → bridge_canonical h → legible h (rules st) →
  (∀ t n, foreign (bridge_owned h) (rules (ensure_nat h st).2) t n = foreign (bridge_owned h) (rules st) t n) ∧
  (∀ t n, foreign (bridge_owned h) (rules (remove_nat h st).2) t n = foreign (bridge_owned h) (rules st) t n) ∧
  ((ensure_nat h st).1 = Ok tt → ∀ b, b ∈ bridge_rules →
     br_args b ∈ chain (rules (ensure_nat h st).2) (br_table b) (br_chain b)).
Proof.
  intros H Hp Hc Hm. pose proof (ensure_nat_keeps h H Hp Hc _ Hm st (evolves_refl _ _ _)) as He.
  split_and!; [apply He|apply (remove_nat_keeps h H Hp Hc _ Hm st (evolves_refl _ _ _))|].
  destruct (ensure_nat h st) as [res st'] eqn:E. cbn [fst snd] in *. intros ->. unfold ensure_nat in E.
  apply stm_bind_Ok in E as (u1 & st1 & (_ & _ & ->)%assert_Ok & E).
  apply stm_bind_Ok in E as (u2 & st2 & [R2 _]%detect_rules & E).
  apply stm_bind_Ok in E as (u3 & st3 & E3 & E). apply stm_bind_Ok in E as (u4 & st4 & E4 & E).
  assert (evolves (bridge_owned h) current (rules st) (rules st4)) as H4.
  { pose proof (retire_keeps h H Hp Hc (rules st) bridge_rules Hm st2) as K3. rewrite E3, R2 in K3.
    pose proof (ensure_each_keeps h Hc (rules st) bridge_rules (λ b Hb, Hb) st3) as K4. rewrite E4 in K4.
    apply K4, K3, evolves_refl. }
  destruct (verified_present h H Hc st4 st') as [-> Hv]; [by eapply legible_current|done|done].
Qed.

(** C22: on a firewall with no rule of Enclave's, setup succeeds when every command works, and the chains
    are then exactly: the drops at the head, what was there before, the accepts and the masquerade
    at the end.  Running it again succeeds and changes nothing. *)
Theorem bridge_rules_installed (h : rule_host) (st : firewall) :
  honest h → prints_words h → bridge_canonical h → bridge_tagged h → legible h (rules st) → calm h st → unclaimed h (rules st) →
  ∃ st', ensure_nat h st = (Ok tt, st') ∧
    (∀ t n, chain (rules st') t n = heads t n bridge_rules ++ chain (rules st) t n ++ tails t n bridge_rules) ∧
    ∃ st'', ensure_nat h st' = (Ok tt, st'') ∧ rules st'' = rules st'.
Proof.
  intros H Hp Hc Htag Hm Hcalm Hun. destruct (fresh_settled h _ Hun) as [Hset Hns].
  destruct (ensure_nat_run h H Hp Hc st Hcalm Hm Htag) as (st' & E & R & Hcalm').
  { by apply unclaimed_no_stale. } { intros b Hb. by apply Hset. }
  exists st'. split; [done|]. split; [intros t n; rewrite R; by apply (fresh_chain h)|].
  assert (legible h (rules st')) as Hm'.
  { apply (legible_current h Hp Hc (rules st)); [done|].
    pose proof (ensure_nat_keeps h H Hp Hc _ Hm st (evolves_refl _ _ _)) as He. by rewrite E in He. }
  rewrite <- R in Hset, Hns.
  destruct (ensure_nat_run h H Hp Hc st' Hcalm' Hm' Htag Hns) as (st'' & E' & R' & _).
  { intros b Hb. rewrite ensured_settled by done. by apply Hset. }
  exists st''. split; [done|]. rewrite R'. by rewrite ensured_settled.
Qed.

Definition bare_fw : firewall :=
  mkFirewall {[ ("filter", "FORWARD") := [["-i"; "docker0"; "-j"; "DOCKER"]]; ("nat", "POSTROUTING") := [] ]} 0 None.
Definition works : rule_host := sample_rules (λ _, None) (λ _ l, l).
(** The fourth command does not run. *)
Definition breaks : rule_host := sample_rules (λ k, if k =? 3 then Some None else None) (λ _ l, l).

Lemma sample_canonical o w : bridge_canonical (sample_rules o w).
Proof. unfold bridge_canonical. cbn. repeat (apply list.Forall_cons; split; [done|]). apply list.Forall_nil_2. Qed.

Lemma bridge_rules_respect_host_witness :
  (ensure_nat breaks bare_fw).1 ≠ Ok tt ∧
  foreign (bridge_owned breaks) (rules (ensure_nat breaks bare_fw).2) "filter" "FORWARD" = [["-i"; "docker0"; "-j"; "DOCKER"]].
Proof.
  split; [by vm_compute|].
  destruct (bridge_rules_respect_host breaks bare_fw (sample_honest _) (λ a _, or_introl eq_refl) (sample_canonical _ _)
    ltac:(apply legible_check; by vm_compute)) as [-> _]. by vm_compute.
Defined.
Lemma bridge_rules_installed_witness :
  ∃ st', ensure_nat works bare_fw = (Ok tt, st') ∧
    chain (rules st') "filter" "FORWARD" =
      [["-s"; "10.200.0.0/24"; "-d"; "169.254.169.254/32"; "-m"; "comment"; "--comment"; "enclave:bridge"; "-j"; "DROP"];
       ["-i"; "enclave0"; "-o"; "enclave0"; "-m"; "comment"; "--comment"; "enclave:bridge"; "-j"; "DROP"];
       ["-i"; "docker0"; "-j"; "DOCKER"];
       ["-s"; "10.200.0.0/24"; "-m"; "comment"; "--comment"; "enclave:bridge"; "-j"; "ACCEPT"];
       ["-d"; "10.200.0.0/24"; "-m"; "conntrack"; "--ctstate"; "RELATED,ESTABLISHED"; "-m"; "comment"; "--comment"; "enclave:bridge"; "-j"; "ACCEPT"]].
Proof.
  destruct (bridge_rules_installed works bare_fw (sample_honest _) (λ a _, or_introl eq_refl) (sample_canonical _ _))
    as (st' & E & Hc & _).
  - unfold bridge_tagged. repeat (apply list.Forall_cons; split; [by vm_compute|]). apply list.Forall_nil_2.
  - apply legible_check. by vm_compute.
  - split_and!; [done|by vm_compute|done|]. right. by vm_compute.
  - intros t n r Hr. apply negb_true_iff. revert t n r Hr. apply rules_check. by vm_compute.
  - exists st'. split; [done|]. rewrite Hc. by vm_compute.
Defined.
