(* ===== verification/Network.v ===== *)
(** * The host network (src/src/network: veth.rs, bridge.rs, teardown.rs, cleanup.rs, mod.rs)

    The interfaces of the host by name, with the bridge they belong to, beside the firewall.
    A workspace's interface is named after its address and its id, is built in one batch of
    [ip] commands and is recognized by its name and its membership of the bridge.  A batch
    runs its commands in order up to the first that fails; a command may also not be run at
    all, be refused, or report success without effect. *)
From Stdlib Require Import ZArith.
From S2P Require Import Prelude RustStr Text Ipam ProcFs Firewall AntiSpoof BridgeRules.
#[local] Open Scope nat_scope.

Record link := mkLink { master : option string; isolated : bool; link_up : bool; addresses : list string }.
Record net := mkNet { links : gmap string link; fw : firewall; ready : bool; calls : nat }.

(** What becomes of a command or batch. *)
Inductive fate :=
  | Runs
  | NotRun
  | Refused (done_before : nat) (stderr : string)
  | Ghost.

Record net_host := mkNetHost {
  rule_side : rule_host;
  ip_fate : nat → fate;
  kernel_text : string;                          (** what [ip] says when the kernel refuses *)
  sysfs : bool;                                  (** whether [/sys/class/net] can be inspected *)
  netns_output : nat → option (bool * string);   (** a batch in a workspace's namespace: its status and output *)
  show_addresses : gmap string link → string;    (** [ip -o -4 addr show] *)
  show_device : gmap string link → string → string; (** [ip addr show dev] *)
  ipv6_writable : bool;                          (** whether the IPv6 switch of the bridge can be written *)
  dns_provisioned : bool }.                      (** the files of the root file system (dns.rs) *)

(** ** Names (veth.rs) *)

Fixpoint fnv_fold (s : string) (hash : Z) : Z :=
  match s with
  | EmptyString => hash
  | String c s' => fnv_fold s' (Z.lxor ((hash * 16777619) mod 4294967296) (Z.of_nat (code c)))
  end.
Definition workspace_id_hash (workspace_id : string) : Z := Z.land (fnv_fold workspace_id 2166136261) 16777215.
Fixpoint hex_digits (k : nat) (n : Z) (acc : string) : string :=
  match k with
  | O => acc
  | S k' => hex_digits k' (n / 16)%Z (String (hex_char (Z.to_nat (n mod 16)%Z)) acc)
  end.
Definition workspace_hash (workspace_id : string) : string := hex_digits 6 (workspace_id_hash workspace_id) "".
Definition veth_names (host_octet : Z) (workspace_id : string) : string * string :=
  ("veth-" +:+ print_uint host_octet +:+ "-" +:+ workspace_hash workspace_id, "eth0").

Definition is_ascii_hexdigit (c : ascii) : bool := is_ascii_digit c || in_range "a" "f" c || in_range "A" "F" c.
Definition hash_from_name (name : string) : option string :=
  rest ← strip_prefix "veth-" name;
  '(octet, hash) ← split_once "-" rest;
  if bool_decide (octet = "") || (3 <? String.length octet) || negb (str_all is_ascii_digit octet)
     || negb (String.length hash =? 6) || negb (str_all is_ascii_hexdigit hash)
  then None else Some hash.
Definition is_enclave_veth_name (name : string) : bool := bool_decide (is_Some (hash_from_name name)).
Definition octet_from_veth_name (name : string) : option Z :=
  hash_from_name name;;
  rest ← strip_prefix "veth-" name;
  '(octet, _) ← split_once "-" rest;
  parse_uint u8_max octet.

(** ** What the host shows *)

Definition is_present (name : string) (st : net) : bool := bool_decide (is_Some (links st !! name)).
Definition is_bridge_member (name : string) (st : net) : bool := bool_decide ((links st !! name) ≫= master = Some BRIDGE_NAME).
Definition interface_is_workspace_veth (name : string) (st : net) : bool := is_enclave_veth_name name && is_bridge_member name st.

Definition default_route_output_has_route (stdout iface gateway_ip : string) : bool :=
  existsb (λ line, str_contains "default" line && str_contains gateway_ip line && str_contains iface line) (lines stdout).

(** The field after [inet]. *)
Fixpoint after_inet (fields : list string) : option string :=
  match fields with
  | [] => None
  | f :: rest => if bool_decide (f = "inet") then head rest else after_inet rest
  end.
Definition parse_ipv4_addresses (output : string) : list string :=
  omap (λ line, after_inet (split_whitespace line)) (lines output).
Definition ends_with_colon (s : string) : bool := bool_decide (is_Some (strip_suffix_char ":" s)).
Definition parse_address_line (line : string) : option (string * string) :=
  match split_whitespace line with
  | index :: interface :: fields =>
      if ends_with_colon index then address ← after_inet fields; Some (interface, address) else None
  | _ => None
  end.
Definition parse_ipv4_addresses_by_interface (output : string) : list (string * string) := omap parse_address_line (lines output).
Definition parse_subnet_conflicts (output : string) : list (string * string) :=
  filter (λ p, is_in_subnet p.2 = true) (filter (λ p, p.1 ≠ BRIDGE_NAME) (parse_ipv4_addresses_by_interface output)).

(** ** Commands *)

Inductive ip_command :=
  | LinkAddVeth (name peer : string) (pid : nat)
  | LinkAddBridge (name : string)
  | LinkSetMaster (name bridge : string)
  | LinkSetIsolated (name : string)
  | LinkSetUp (name : string)
  | LinkSetDown (name : string)
  | LinkDelete (name : string)
  | AddrAdd (address name : string).

Definition on_link (name : string) (f : link → link) (m : gmap string link) : option (gmap string link) :=
  l ← m !! name; Some (<[name := f l]> m).
Definition ip_effect (c : ip_command) (m : gmap string link) : option (gmap string link) :=
  match c with
  | LinkAddVeth name _ _ | LinkAddBridge name =>
      match m !! name with Some _ => None | None => Some (<[name := mkLink None false false []]> m) end
  | LinkSetMaster name bridge =>
      match m !! bridge with
      | Some _ => on_link name (λ l, mkLink (Some bridge) (isolated l) (link_up l) (addresses l)) m
      | None => None
      end
  | LinkSetIsolated name =>
      l ← m !! name;
      match master l with Some _ => on_link name (λ l, mkLink (master l) true (link_up l) (addresses l)) m | None => None end
  | LinkSetUp name => on_link name (λ l, mkLink (master l) (isolated l) true (addresses l)) m
  | LinkSetDown name => on_link name (λ l, mkLink (master l) (isolated l) false (addresses l)) m
  | LinkDelete name => m !! name;; Some (delete name m)
  | AddrAdd address name => on_link name (λ l, mkLink (master l) (isolated l) (link_up l) (addresses l ++ [address])) m
  end.
(** The commands in order, up to the first that fails. *)
Fixpoint ip_batch (cmds : list ip_command) (m : gmap string link) : gmap string link * bool :=
  match cmds with
  | [] => (m, true)
  | c :: rest => match ip_effect c m with Some m' => ip_batch rest m' | None => (m, false) end
  end.

Section host.
Context (h : net_host).

(** [HostCommand::run]: the text a failing batch prints, if it fails. *)
Definition run_ip_batch (cmds : list ip_command) : stm net (option string) := λ st,
  let leave m := mkNet m (fw st) (ready st) (S (calls st)) in
  match ip_fate h (calls st) with
  | NotRun => (bail "failed to run network batch command", leave (links st))
  | Ghost => (Ok None, leave (links st))
  | Refused k stderr => (Ok (Some stderr), leave (ip_batch (take k cmds) (links st)).1)
  | Runs => let '(m, ok) := ip_batch cmds (links st) in (Ok (if ok then None else Some (kernel_text h)), leave m)
  end.
Definition run_ip (c : ip_command) : stm net unit :=
  output ← run_ip_batch [c]; assert (bool_decide (output = None)) "ip failed".
Definition on_fw {A} (m : stm firewall A) : stm net A := λ st,
  let '(r, f) := m (fw st) in (r, mkNet (links st) f (ready st) (calls st)).

(** ** Building an interface (veth.rs) *)

Definition interface_exists (name : string) : stm net bool :=
  st ← get; assert (sysfs h) "failed to inspect interface";; mret (is_present name st).
Definition host_veth_batch (host peer : string) (pid : nat) : list ip_command :=
  [LinkAddVeth host peer pid; LinkSetMaster host BRIDGE_NAME; LinkSetIsolated host; LinkSetUp host].
(** The status of the batch is not looked at. *)
Definition configure_host_veth (host peer : string) (pid : nat) : stm net unit :=
  run_ip_batch (host_veth_batch host peer pid);; mret tt.
Definition GATEWAY_IP : string := "10.200.0.1".
Definition configure_workspace_netns (pid : nat) (interface workspace_ip : string) : stm net unit := λ st,
  let st' := mkNet (links st) (fw st) (ready st) (S (calls st)) in
  match netns_output h (calls st) with
  | None => (bail "failed to configure network namespace", st')
  | Some (success, stdout) =>
      assert (success && default_route_output_has_route stdout interface GATEWAY_IP)
        "workspace network namespace did not install the expected route" st'
  end.
Definition setup_workspace_networking (pid : nat) (workspace_ip veth_host veth_peer : string) : stm net unit :=
  present ← interface_exists veth_host;
  (if present : bool then
     st ← get;
     assert (interface_is_workspace_veth veth_host st) "interface already exists on the host and is not a workspace interface";;
     run_ip (LinkDelete veth_host)
   else mret tt);;
  result ← catch (configure_host_veth veth_host veth_peer pid;; configure_workspace_netns pid veth_peer workspace_ip);
  match result with
  | Ok _ => mret tt
  | Err e =>
      cleanup ← catch (run_ip (LinkDelete veth_host));
      lift (Err (context (match cleanup with
                          | Ok _ => "cleaned up partial veth setup"
                          | Err _ => "failed to clean up partial veth setup"
                          end) e))
  end.

(** ** Removing an interface (teardown.rs) *)

Definition is_retryable_delete_error (stderr : string) : bool :=
  let message := to_ascii_lowercase stderr in
  str_contains "resource busy" message || str_contains "temporarily unavailable" message ||
  str_contains "operation in progress" message.
Definition verify_veth_absent (veth_host : string) : stm net unit :=
  st ← get; assert (negb (is_present veth_host st)) "veth is still present after deletion".
(** [attempts] are the attempts left. *)
Fixpoint delete_veth (attempts : nat) (veth_host : string) : stm net unit :=
  match attempts with
  | O => throw "veth deletion loop always returns or errors"
  | S n =>
      output ← run_ip_batch [LinkDelete veth_host];
      match output with
      | None => verify_veth_absent veth_host
      | Some stderr =>
          st ← get;
          if negb (is_present veth_host st) then mret tt
          else if negb (is_retryable_delete_error (trim stderr)) || (n =? 0) then throw "ip link delete failed"
          else delete_veth n veth_host
      end
  end.
Definition MAX_ATTEMPTS : nat := 3.
Definition remove_veth (veth_host : string) : stm net unit :=
  st ← get;
  if negb (interface_is_workspace_veth veth_host st) then mret tt
  else if negb (is_present veth_host st) then mret tt
  else delete_veth MAX_ATTEMPTS veth_host.

(** ** Tearing a workspace network down (cleanup.rs) *)

Record NetworkCleanupReport := mkNetReport {
  report_workspace : string;
  report_ip : string;
  report_veth : option string;
  anti_spoof_rules_absent : bool;
  veth_absent : bool;
  failures : list (string * string) }.
Definition is_complete (r : NetworkCleanupReport) : bool :=
  bool_decide (is_Some (report_veth r)) && anti_spoof_rules_absent r && veth_absent r && bool_decide (failures r = []).

(** [{error:#}]: the messages from the outermost in. *)
Definition error_chain (e : error) : string := String.concat ": " ((λ l, match l with LPlain m | LCoded _ m => m end) <$> e).
Definition failure_of {A} (resource : string) (r : result A) : list (string * string) :=
  match r with Ok _ => [] | Err e => [(resource, error_chain e)] end.
Definition teardown_workspace_network (assigned_ip workspace_id : string) : stm net NetworkCleanupReport :=
  match parse_host_octet assigned_ip with
  | None => mret (mkNetReport workspace_id assigned_ip None false false [("workspace-ip", "invalid Enclave workspace IP")])
  | Some host_octet =>
      let veth_host := (veth_names host_octet workspace_id).1 in
      rules ← catch (on_fw (remove_workspace_anti_spoofing (rule_side h) veth_host assigned_ip));
      veth ← catch (remove_veth veth_host);
      mret (mkNetReport workspace_id assigned_ip (Some veth_host) (is_ok rules) (is_ok veth)
              (failure_of "anti-spoofing-rules" rules ++ failure_of "veth" veth))
  end.

(** ** The bridge (bridge.rs) *)

Definition assign_bridge_address : stm net unit := run_ip (AddrAdd (GATEWAY_IP +:+ "/24") BRIDGE_NAME).
Definition ensure_bridge_up : stm net unit := run_ip (LinkSetUp BRIDGE_NAME).
Definition disable_ipv6 : stm net unit := assert (ipv6_writable h) "failed to disable IPv6 on interface".
(** [run] of a command that only prints: not run at all, or its output. *)
Definition run_show (show : gmap string link → string) (checked : bool) : stm net string := λ st,
  let st' := mkNet (links st) (fw st) (ready st) (S (calls st)) in
  match ip_fate h (calls st) with
  | NotRun => (bail "failed to run ip", st')
  | Refused _ _ => if checked then (bail "failed to list host IPv4 addresses", st') else (Ok "", st')
  | Runs | Ghost => (Ok (show (links st)), st')
  end.
Definition ensure_bridge_address : stm net unit :=
  stdout ← run_show (λ m, show_device h m BRIDGE_NAME) false;
  let l := parse_ipv4_addresses stdout in
  if bool_decide (GATEWAY_IP +:+ "/24" ∈ l) then mret tt
  else if existsb (starts_with "10.200.0.") l then throw "bridge has an incompatible Enclave subnet address"
  else if negb (bool_decide (l = [])) then throw "bridge already exists with incompatible IPv4 address(es)"
  else assign_bridge_address.
Definition subnet_conflicts : stm net (list (string * string)) :=
  output ← run_show (show_addresses h) true; mret (parse_subnet_conflicts output).
Definition ensure_subnet_available : stm net unit :=
  conflicts ← subnet_conflicts; assert (bool_decide (conflicts = [])) "Enclave subnet is already in use".
Definition ensure_bridge : stm net unit :=
  ensure_subnet_available;;
  st ← get;
  if is_present BRIDGE_NAME st then ensure_bridge_address;; ensure_bridge_up;; disable_ipv6
  else run_ip (LinkAddBridge BRIDGE_NAME);; assign_bridge_address;; ensure_bridge_up;; disable_ipv6.
Definition bridge_members (st : net) : list string :=
  (filter (λ p, bool_decide (master p.2 = Some BRIDGE_NAME) = true) (map_to_list (links st))).*1.
Definition remove_bridge_if_idle : stm net bool :=
  st ← get;
  if negb (is_present BRIDGE_NAME st) then mret true
  else if negb (bool_decide (bridge_members st = [])) then mret false
  else run_ip (LinkSetDown BRIDGE_NAME);; run_ip (LinkDelete BRIDGE_NAME);; mret true.

(** ** The whole (mod.rs) *)

Definition set_ready (b : bool) : stm net unit := modify (λ st, mkNet (links st) (fw st) b (calls st)).
Definition ensure_host_networking : stm net unit :=
  st ← get;
  if ready st && is_present BRIDGE_NAME st then mret tt
  else ensure_bridge;; on_fw (ensure_nat (rule_side h));; set_ready true.

Definition attach_workspace_network (pid : nat) (ip workspace_id : string) (host_octet : Z) : stm net unit :=
  let '(veth_host, veth_peer) := veth_names host_octet workspace_id in
  result ← catch (setup_workspace_networking pid ip veth_host veth_peer;;
                  on_fw (ensure_workspace_anti_spoofing (rule_side h) veth_host ip workspace_id);;
                  assert (dns_provisioned h) "failed to provision DNS for workspace");
  match result with
  | Ok _ => mret tt
  | Err e =>
      cleanup ← teardown_workspace_network ip workspace_id;
      lift (Err (if is_complete cleanup then e else context "workspace network rollback incomplete" e))
  end.
Definition setup_reserved_workspace_network (pid : nat) (reserved_ip workspace_id : string) : stm net string :=
  ensure_host_networking;;
  match parse_host_octet reserved_ip with
  | None => throw "reserved workspace address is not inside the Enclave subnet"
  | Some host_octet => attach_workspace_network pid reserved_ip workspace_id host_octet;; mret reserved_ip
  end.

(** The octets that interfaces of other daemons hold. *)
Definition host_veth_octets_held_by_others (own_hashes : gset string) (st : net) : gset Z :=
  if sysfs h then
    list_to_set (omap octet_from_veth_name
      (filter (λ name, match hash_from_name name with Some hash => bool_decide (hash ∉ own_hashes) | None => false end = true)
        (filter (λ name, is_bridge_member name st = true)
          (filter (λ name, is_enclave_veth_name name = true) (map_to_list (links st)).*1))))
  else ∅.

Definition cleanup_host_networking : stm net unit :=
  removed ← catch remove_bridge_if_idle;
  match removed with
  | Ok true => catch (on_fw (remove_nat (rule_side h)));; set_ready false
  | _ => mret tt
  end.
End host.

(** ** Names *)

Lemma hex_digits_length k n acc : String.length (hex_digits k n acc) = k + String.length acc.
Proof. revert n acc. induction k as [|k IH]; intros n acc; [done|]. cbn [hex_digits]. rewrite IH. cbn. lia. Qed.
Lemma hex_char_digit n : n < 16 → is_ascii_hexdigit (hex_char n) = true.
Proof. intros Hn. do 16 (destruct n as [|n]; [done|]). lia. Qed.
Lemma hex_digits_hex k n acc : str_all is_ascii_hexdigit acc = true → str_all is_ascii_hexdigit (hex_digits k n acc) = true.
Proof.
  revert n acc. induction k as [|k IH]; intros n acc Ha; [done|]. cbn [hex_digits]. apply IH. cbn [str_all]. rewrite Ha, hex_char_digit; [done|].
  pose proof (Z.mod_pos_bound n 16). lia.
Qed.
Lemma octet_text (o : Z) : (0 ≤ o < 256)%Z → 1 ≤ String.length (print_uint o) ≤ 3.
Proof.
  intros Ho. pose proof (parse_octet_print o Ho) as Hp. unfold parse_octet in Hp.
  destruct (_ && _) eqn:E in Hp; [|done]. apply andb_true_iff in E as [[E1%Nat.leb_le E2%Nat.leb_le]%andb_true_iff _]. done.
Qed.
Lemma split_name (o : Z) (s : string) : split_once "-" (print_uint o +:+ "-" +:+ s) = Some (print_uint o, s).
Proof. apply (split_once_char "-"). apply digits_free; [done|apply print_uint_digits]. Qed.
Lemma strip_veth (s : string) : strip_prefix "veth-" ("veth-" +:+ s) = Some s.
Proof. done. Qed.
Lemma hash_of_veth (o : Z) (id : string) : (0 ≤ o < 256)%Z → hash_from_name (veth_names o id).1 = Some (workspace_hash id).
Proof.
  intros Ho. pose proof (octet_text o Ho) as Hl. unfold hash_from_name, veth_names. cbn [fst].
  rewrite strip_veth. cbn [mbind option_bind]. rewrite split_name. cbn [mbind option_bind].
  unfold workspace_hash. rewrite print_uint_digits, hex_digits_length, hex_digits_hex by done.
  rewrite bool_decide_false by apply print_uint_not_empty. by rewrite (proj2 (Nat.ltb_ge _ _)) by lia.
Qed.

Lemma octet_of_veth (o : Z) (id : string) : (0 ≤ o < 256)%Z → octet_from_veth_name (veth_names o id).1 = Some o.
Proof.
  intros Ho. unfold octet_from_veth_name. rewrite hash_of_veth by done. unfold veth_names. cbn [fst mbind option_bind].
  rewrite strip_veth. cbn [mbind option_bind]. rewrite split_name. cbn [mbind option_bind].
  apply parse_print_uint. unfold u8_max. lia.
Qed.

(** The name of a workspace's interface determines the address it was built for and the hash of the
    workspace's id, and is never longer than the fifteen characters the kernel allows. *)
Theorem veth_name_roundtrip (o : Z) (id : string) : (0 ≤ o < 256)%Z →
  octet_from_veth_name (veth_names o id).1 = Some o ∧
  hash_from_name (veth_names o id).1 = Some (workspace_hash id) ∧
  String.length (veth_names o id).1 ≤ 15.
Proof.
  intros Ho. split_and!; [by apply octet_of_veth|by apply hash_of_veth|].
  pose proof (octet_text o Ho). unfold veth_names, workspace_hash. cbn [fst].
  rewrite !str_length_app, hex_digits_length. cbn [String.length]. lia.
Qed.
Lemma veth_name_roundtrip_witness : octet_from_veth_name (veth_names 254 "ws-demo-0011223344ff").1 = Some 254%Z.
Proof. apply veth_name_roundtrip. lia. Defined.

(** ** What an operation on one interface touches *)

Definition target (c : ip_command) : string :=
  match c with
  | LinkAddVeth n _ _ | LinkAddBridge n | LinkSetMaster n _ | LinkSetIsolated n | LinkSetUp n | LinkSetDown n | LinkDelete n | AddrAdd _ n => n
  end.
Lemma on_link_other v f m m' n : on_link v f m = Some m' → n ≠ v → m' !! n = m !! n.
Proof. unfold on_link. intros (l & _ & [= <-])%bind_Some Hn. by rewrite lookup_insert_ne. Qed.
Lemma ip_effect_other c m m' n : ip_effect c m = Some m' → n ≠ target c → m' !! n = m !! n.
Proof.
  destruct c; cbn [ip_effect target]; try (by apply on_link_other).
  - destruct (m !! name); [done|]. intros [= <-] Hn. by rewrite lookup_insert_ne.
  - destruct (m !! name); [done|]. intros [= <-] Hn. by rewrite lookup_insert_ne.
  - destruct (m !! bridge); [apply on_link_other|done].
  - intros (l & _ & Hl)%bind_Some. destruct (master l); [exact (on_link_other _ _ _ _ n Hl)|done].
  - intros (l & _ & [= <-])%bind_Some Hn. by rewrite lookup_delete_ne.
Qed.
Lemma ip_batch_other v cmds m n : Forall (λ c, target c = v) cmds → n ≠ v → (ip_batch cmds m).1 !! n = m !! n.
Proof.
  intros Hc Hn. revert m. induction Hc as [|c cmds Hv _ IH]; intros m; [done|]. cbn [ip_batch].
  destruct (ip_effect c m) as [m'|] eqn:E; [|done]. rewrite IH. apply (ip_effect_other c); [done|]. by rewrite Hv.
Qed.

(** Only the interface [v] may differ, and not the firewall. *)
Definition only_link (v : string) (st st' : net) : Prop :=
  fw st' = fw st ∧ ready st' = ready st ∧ ∀ n, n ≠ v → links st' !! n = links st !! n.
Lemma only_link_refl v st : only_link v st st.
Proof. done. Qed.
Lemma only_link_trans v st1 st2 st3 : only_link v st1 st2 → only_link v st2 st3 → only_link v st1 st3.
Proof. intros (F1 & R1 & L1) (F2 & R2 & L2). split_and!; [congruence..|]. intros n Hn. by rewrite L2, L1. Qed.
Section touching.
Context (h : net_host) (v : string) (st0 : net).
Abbreviation only := (preserves (only_link v st0)).
Lemma batch_only cmds : Forall (λ c, target c = v) cmds → only (run_ip_batch h cmds).
Proof.
  intros Hc st Hst. apply (only_link_trans v st0 st); [done|]. unfold run_ip_batch.
  destruct (ip_fate h (calls st)) as [| |k e|]; cbn; [|done| |done].
  - destruct (ip_batch cmds (links st)) as [m ok] eqn:E. split_and!; [done..|]. intros n Hn. cbn.
    pose proof (ip_batch_other v cmds (links st) n Hc Hn) as Ho. by rewrite E in Ho.
  - split_and!; [done..|]. intros n Hn. cbn. apply (ip_batch_other v); [by apply Forall_take|done].
Qed.
Lemma run_ip_only c : target c = v → only (run_ip h c).
Proof. intros Hv. apply preserves_bind; [apply batch_only; by constructor|]. intros o. apply preserves_assert. Qed.
Lemma get_only {A} (f : net → stm net A) : (∀ st, only (f st)) → only (get ≫= f).
Proof. intros Hf. apply preserves_bind; [apply preserves_get|done]. Qed.
Lemma catch_only {A} (m : stm net A) : only m → only (catch m).
Proof. intros Hm st Hst. unfold catch. specialize (Hm st Hst). by destruct (m st). Qed.
Lemma delete_veth_only k : only (delete_veth h k v).
Proof.
  induction k as [|k IH]; [apply preserves_lift|]. cbn [delete_veth].
  apply preserves_bind; [apply batch_only; by constructor|]. intros [e|]; apply get_only; intros st; [|apply preserves_assert].
  destruct (negb (is_present v st)); [apply preserves_ret|]. destruct (_ || _); [apply preserves_lift|exact IH].
Qed.
Lemma remove_veth_only : only (remove_veth h v).
Proof.
  apply get_only. intros st. destruct (negb _); [apply preserves_ret|]. destruct (negb _); [apply preserves_ret|apply delete_veth_only].
Qed.
Lemma netns_only pid peer ip : only (configure_workspace_netns h pid peer ip).
Proof.
  intros st Hst. unfold configure_workspace_netns. destruct (netns_output h (calls st)) as [[ok out]|]; [|done].
  by apply preserves_assert.
Qed.
Lemma setup_only pid ip peer : only (setup_workspace_networking h pid ip v peer).
Proof.
  apply preserves_bind; [apply get_only; intros st; apply preserves_bind; [apply preserves_assert|intros; apply preserves_ret]|].
  intros present. apply preserves_bind.
  { destruct present; [|apply preserves_ret]. apply get_only. intros st.
    apply preserves_bind; [apply preserves_assert|intros _; by apply run_ip_only]. }
  intros _. apply preserves_bind.
  { apply catch_only, preserves_bind; [|intros _; apply netns_only].
    apply preserves_bind; [apply batch_only|intros o; apply preserves_ret]. unfold host_veth_batch. by repeat constructor. }
  intros [u|e]; [apply preserves_ret|]. apply preserves_bind; [by apply catch_only, run_ip_only|intros c; apply preserves_lift].
Qed.
End touching.

(** ** Removing *)

Lemma is_present_false v st : is_present v st = false ↔ links st !! v = None.
Proof. unfold is_present. rewrite bool_decide_eq_false. destruct (links st !! v); split; intros; [|done..]. exfalso. eauto. Qed.
Lemma delete_batch_result h v st r st' : run_ip_batch h [LinkDelete v] st = (r, st') →
  links st' = links st ∨ links st' = delete v (links st).
Proof.
  assert (∀ cmds, cmds = [LinkDelete v] ∨ cmds = [] →
    (ip_batch cmds (links st)).1 = links st ∨ (ip_batch cmds (links st)).1 = delete v (links st)) as Hb.
  { intros ? [->| ->]; [|by left]. cbn. destruct (links st !! v); cbn; auto. }
  unfold run_ip_batch. destruct (ip_fate h (calls st)) as [| |k e|].
  - destruct (ip_batch [LinkDelete v] (links st)) as [m ok] eqn:E. specialize (Hb _ (or_introl eq_refl)). rewrite E in Hb. by intros [= _ <-].
  - intros [= _ <-]. by left.
  - intros [= _ <-]. cbn [links]. apply Hb. destruct k as [|k]; [by right|]. left. by destruct k.
  - intros [= _ <-]. by left.
Qed.
Lemma delete_veth_result h v k st res st' : delete_veth h k v st = (res, st') →
  (res = Ok tt → links st' !! v = None) ∧ (links st' !! v = None ∨ links st' = links st).
Proof.
  revert st. induction k as [|k IH]; intros st; cbn [delete_veth]; [intros [= <- <-]; split; [done|by right]|].
  unfold mbind at 1, stm_bind at 1.
  destruct (run_ip_batch h [LinkDelete v] st) as [[o|e] st1] eqn:E; pose proof (delete_batch_result _ _ _ _ _ E) as Hl.
  - assert (links st1 !! v = None ∨ links st1 = links st) as Hl' by (destruct Hl as [->| ->]; [by right|left; by rewrite lookup_delete_eq]).
    destruct o as [stderr|]; unfold verify_veth_absent, get, mbind, stm_bind, assert, mret, stm_ret, throw, lift.
    + destruct (negb (is_present v st1)) eqn:P.
      { apply negb_true_iff, is_present_false in P. intros [= <- <-]. auto. }
      destruct (_ || _); [intros [= <- <-]; auto; done|]. intros [H1 H2]%IH. split; [done|]. destruct H2 as [?| ->]; auto.
    + destruct (negb (is_present v st1)) eqn:P; intros [= <- <-]; [|done]. apply negb_true_iff, is_present_false in P. auto.
  - intros [= <- <-]. split; [done|]. destruct Hl as [->| ->]; [by right|left; by rewrite lookup_delete_eq].
Qed.
Lemma member_present v st : interface_is_workspace_veth v st = true → is_Some (links st !! v).
Proof.
  unfold interface_is_workspace_veth, is_bridge_member. intros [_ Hm%bool_decide_eq_true]%andb_true_iff.
  apply bind_Some in Hm as (l & -> & _). eauto.
Qed.
Lemma remove_veth_result h v st res st' : remove_veth h v st = (res, st') →
  (interface_is_workspace_veth v st = false → res = Ok tt ∧ st' = st) ∧
  (res = Ok tt → interface_is_workspace_veth v st' = false) ∧
  (links st' !! v = None ∨ links st' = links st) ∧
  ((∀ k, ip_fate h k = Runs) → res = Ok tt).
Proof.
  unfold remove_veth, mbind, stm_bind, get.
  destruct (interface_is_workspace_veth v st) eqn:W; cbn [negb]; [|intros [= <- <-]; auto].
  destruct (member_present v st W) as [l Hl]. unfold is_present. rewrite Hl, bool_decide_true by done. cbn [negb].
  intros Hd. pose proof (delete_veth_result _ _ _ _ _ _ Hd) as [H1 H2]. split_and!; [done| |done|].
  - intros Hn%H1. destruct (interface_is_workspace_veth v st') eqn:W'; [|done]. apply member_present in W' as [? ?]. congruence.
  - intros Hf. unfold MAX_ATTEMPTS in Hd. cbn [delete_veth] in Hd. unfold mbind, stm_bind, run_ip_batch in Hd. rewrite Hf in Hd.
    cbn [ip_batch ip_effect] in Hd. rewrite Hl in Hd. cbn in Hd. unfold verify_veth_absent, mbind, stm_bind, get, assert, is_present in Hd. cbn in Hd.
    rewrite lookup_delete_eq in Hd. by injection Hd as <- _.
Qed.

Lemma teardown_facts (h : net_host) (ip id : string) (o : Z) (st : net) :
  honest (rule_side h) → legible (rule_side h) (rules (fw st)) → parse_host_octet ip = Some o →
  let v := (veth_names o id).1 in
  let own := mine (rule_side h) v ip in
  ∃ r st', teardown_workspace_network h ip id st = (Ok r, st') ∧
      (∀ n, n ≠ v → links st' !! n = links st !! n) ∧
      (interface_is_workspace_veth v st = false → links st' = links st) ∧
      (∀ t n, foreign own (rules (fw st')) t n = foreign own (rules (fw st)) t n) ∧
      (anti_spoof_rules_absent r = true → ∀ t n, chain (rules (fw st')) t n = foreign own (rules (fw st)) t n) ∧
      (veth_absent r = true → interface_is_workspace_veth v st' = false) ∧
      is_complete r = anti_spoof_rules_absent r && veth_absent r ∧
      ((∀ k, ip_fate h k = Runs) → (∀ k, outcome (rule_side h) k = None) →
       detected (fw st) ≠ None ∨ probe_iptables (rule_side h) ≠ None → is_complete r = true).
Proof.
  intros H Hm Hoct v own. unfold teardown_workspace_network. rewrite Hoct. fold v. unfold mbind, stm_bind, catch, on_fw, mret, stm_ret.
  pose proof (remove_keeps (rule_side h) v ip H _ Hm (fw st) (evolves_refl _ _ _)) as He.
  pose proof (remove_succeeds (rule_side h) v ip H (fw st) Hm) as Hs.
  pose proof (remove_exact (rule_side h) v ip H (fw st) Hm) as Hx.
  destruct (remove_workspace_anti_spoofing (rule_side h) v ip (fw st)) as [rr f]. cbn [fst snd] in He, Hs, Hx.
  set (st1 := mkNet (links st) f (ready st) (calls st)).
  pose proof (remove_veth_only h v st1 st1 (only_link_refl _ _)) as Ho.
  destruct (remove_veth h v st1) as [rv st'] eqn:E. cbn [snd] in Ho. destruct Ho as (Hf & _ & Hl).
  destruct (remove_veth_result h v st1 rv st' E) as (H1 & H2 & H3 & H4). eexists _, _. split; [done|].
  rewrite Hf. split_and!; [done| |apply He| | | |].
  - intros Hw. by destruct (H1 Hw) as [_ ->].
  - cbn [anti_spoof_rules_absent]. destruct rr as [[]|e]; [|done]. intros _. by apply Hx.
  - cbn [veth_absent]. destruct rv as [[]|e]; [|done]. intros _. by apply H2.
  - unfold is_complete. destruct rr as [[]|], rv as [[]|]; cbn; rewrite ?andb_false_r; done.
  - intros Hr Hc Hd. rewrite Hs, H4 by done. unfold is_complete. done.
Qed.

(** Tearing a workspace's network down touches nothing but the workspace's own interface and its
    rules: other interfaces stay as they are, every other firewall rule keeps its place, and an
    interface that has the name but is not on the bridge is left alone.  What the report claims is
    so: rules reported absent are gone, and after an interface is reported absent no interface of
    that name is on the bridge.  The report is complete exactly when both are reported absent, and
    it is when every command works. *)
Theorem teardown_reports_truth (h : net_host) (ip id : string) (st : net) :
  honest (rule_side h) → legible (rule_side h) (rules (fw st)) →
  let '(res, st') := teardown_workspace_network h ip id st in
  match res, parse_host_octet ip with
  | Ok r, Some o =>
      let v := (veth_names o id).1 in
      let own := mine (rule_side h) v ip in
      (∀ n, n ≠ v → links st' !! n = links st !! n) ∧
      (interface_is_workspace_veth v st = false → links st' = links st) ∧
      (∀ t n, foreign own (rules (fw st')) t n = foreign own (rules (fw st)) t n) ∧
      (anti_spoof_rules_absent r = true → ∀ t n, chain (rules (fw st')) t n = foreign own (rules (fw st)) t n) ∧
      (veth_absent r = true → interface_is_workspace_veth v st' = false) ∧
      is_complete r = anti_spoof_rules_absent r && veth_absent r ∧
      ((∀ k, ip_fate h k = Runs) → (∀ k, outcome (rule_side h) k = None) →
       detected (fw st) ≠ None ∨ probe_iptables (rule_side h) ≠ None → is_complete r = true)
  | Ok r, None => st' = st ∧ is_complete r = false
  | Err _, _ => False
  end.
Proof.
  intros H Hm. destruct (parse_host_octet ip) as [o|] eqn:Ho.
  - destruct (teardown_facts h ip id o st H Hm Ho) as (r & st' & -> & Hfacts). exact Hfacts.
  - unfold teardown_workspace_network. by rewrite Ho.
Qed.

(** ** Attaching *)

Lemma word_app a b : is_word a = true → is_word b = true → is_word (a +:+ b) = true.
Proof.
  unfold is_word. intros [Ha1 Ha2]%andb_true_iff [Hb1 Hb2]%andb_true_iff. rewrite str_all_app, Ha2, Hb2. by destruct a.
Qed.
Lemma word_of (f : ascii → bool) s : (∀ c, f c = true → is_ascii_graphic c && negb (code c =? 34) = true) →
  str_all f s = true → s ≠ "" → is_word s = true.
Proof.
  intros Hf Hs Hne. unfold is_word. rewrite bool_decide_false by done. cbn [negb andb]. clear Hne.
  induction s as [|c s IH]; [done|]. cbn [str_all] in *. apply andb_true_iff in Hs as [Hc Hs]. by rewrite Hf, IH.
Qed.
Lemma digit_graphic c : is_ascii_digit c = true → is_ascii_graphic c && negb (code c =? 34) = true.
Proof. destruct c as [[] [] [] [] [] [] [] []]; by vm_compute. Qed.
Lemma hex_graphic c : is_ascii_hexdigit c = true → is_ascii_graphic c && negb (code c =? 34) = true.
Proof. destruct c as [[] [] [] [] [] [] [] []]; by vm_compute. Qed.
Lemma veth_word (o : Z) (id : string) : is_word (veth_names o id).1 = true.
Proof.
  unfold veth_names. cbn [fst]. apply (word_app "veth-"); [done|]. apply word_app.
  { apply (word_of is_ascii_digit); [apply digit_graphic|apply print_uint_digits|apply print_uint_not_empty]. }
  apply (word_app "-"); [done|]. apply (word_of is_ascii_hexdigit); [apply hex_graphic|by apply hex_digits_hex|].
  unfold workspace_hash. intros E. apply (f_equal String.length) in E. by rewrite hex_digits_length in E.
Qed.

(** With commands that run, building an interface leaves none or one on the bridge. *)
Definition settled (v : string) (st : net) : Prop := links st !! v = None ∨ is_bridge_member v st = true.
Lemma batch_builds (h : net_host) (v peer : string) (pid : nat) (st : net) : (∀ k, ip_fate h k = Runs) → v ≠ BRIDGE_NAME →
  is_present BRIDGE_NAME st = true → links st !! v = None →
  ∃ st', run_ip_batch h (host_veth_batch v peer pid) st = (Ok None, st') ∧ is_bridge_member v st' = true.
Proof.
  intros Hr Hv [b Hb]%bool_decide_eq_true Hn. unfold run_ip_batch, host_veth_batch. rewrite Hr. cbn [ip_batch ip_effect]. rewrite Hn.
  rewrite (lookup_insert_ne _ v BRIDGE_NAME), Hb by done. unfold on_link. rewrite lookup_insert_eq. cbn [mbind option_bind]. rewrite insert_insert_eq.
  rewrite !lookup_insert_eq. cbn [mbind option_bind master]. rewrite insert_insert_eq, lookup_insert_eq. cbn [mbind option_bind]. rewrite insert_insert_eq.
  eexists. split; [done|]. unfold is_bridge_member. cbn [links]. by rewrite lookup_insert_eq, bool_decide_true.
Qed.
Lemma delete_runs (h : net_host) (v : string) (st : net) : (∀ k, ip_fate h k = Runs) → links (run_ip h (LinkDelete v) st).2 !! v = None.
Proof.
  intros Hr. unfold run_ip, run_ip_batch, mbind, stm_bind. rewrite Hr. cbn [ip_batch ip_effect].
  destruct (links st !! v) eqn:E; cbn; [by rewrite lookup_delete_eq|done].
Qed.
Lemma setup_settled (h : net_host) (v peer ip : string) (pid : nat) (st : net) : (∀ k, ip_fate h k = Runs) → v ≠ BRIDGE_NAME →
  is_present BRIDGE_NAME st = true → is_present v st = false → settled v (setup_workspace_networking h pid ip v peer st).2.
Proof.
  intros Hr Hv Hb Hn. pose proof Hn as Hn'. apply is_present_false in Hn'. destruct (batch_builds h v peer pid st Hr Hv Hb Hn') as (st1 & E1 & Hm).
  unfold setup_workspace_networking, interface_exists, get, mbind, stm_bind. unfold assert at 1. destruct (sysfs h); [|by left].
  unfold mret, stm_ret. rewrite Hn. unfold catch at 1. unfold configure_host_veth, mbind, stm_bind. rewrite E1. unfold mret, stm_ret.
  assert (links (configure_workspace_netns h pid peer ip st1).2 = links st1) as El.
  { unfold configure_workspace_netns. destruct (netns_output h (calls st1)) as [[ok out]|]; [|done]. unfold assert. by destruct (ok && _). }
  destruct (configure_workspace_netns h pid peer ip st1) as [[[]|e] st2]; cbn [snd] in El.
  - right. unfold is_bridge_member in *. cbn [snd]. by rewrite El.
  - left. pose proof (delete_runs h v st2 Hr) as Hd. unfold catch. destruct (run_ip h (LinkDelete v) st2) as [rc st3]. exact Hd.
Qed.
Lemma teardown_link (h : net_host) (ip id : string) (o : Z) (st : net) : parse_host_octet ip = Some o →
  let v := (veth_names o id).1 in let st' := (teardown_workspace_network h ip id st).2 in links st' !! v = None ∨ links st' = links st.
Proof.
  intros Ho v. unfold teardown_workspace_network. rewrite Ho. fold v. unfold mbind, stm_bind, catch, on_fw, mret, stm_ret. cbv zeta.
  destruct (remove_workspace_anti_spoofing _ _ _ _) as [rr f]. destruct (remove_veth h v _) as [rv st'] eqn:E.
  by apply remove_veth_result in E as (_ & _ & ? & _).
Qed.

(** What the firewall is expected to do with the rule of a workspace. *)
Record rule_fits (h : rule_host) (v ip id : string) : Prop := {
  fits_honest : honest h;
  fits_prints : prints_words h;
  fits_ip : is_word (ip +:+ "/32") = true;
  fits_id : is_word (RULE_COMMENT_PREFIX +:+ id) = true;
  fits_canon : canon h (anti_spoof_rule_args v ip (Some id)) = source_first (anti_spoof_rule_args v ip (Some id));
  fits_stable : canon h (source_first (anti_spoof_rule_args v ip (Some id))) = source_first (anti_spoof_rule_args v ip (Some id)) }.

Lemma veth_not_bridge (o : Z) (id : string) : (veth_names o id).1 ≠ BRIDGE_NAME.
Proof. done. Qed.

Section attaching.
Context (h : net_host) (ip id : string) (o : Z).
Let v := (veth_names o id).1.
Let own := mine (rule_side h) v ip.
Context (Hfit : rule_fits (rule_side h) v ip id).

(** The interface and its rules are all that may differ. *)
Definition around (st st' : net) : Prop :=
  (∀ n, n ≠ v → links st' !! n = links st !! n) ∧
  (∀ t n, foreign own (rules (fw st')) t n = foreign own (rules (fw st)) t n) ∧ legible (rule_side h) (rules (fw st')).

Lemma attach_body pid peer st res st' : legible (rule_side h) (rules (fw st)) →
  (setup_workspace_networking h pid ip v peer;;
   on_fw (ensure_workspace_anti_spoofing (rule_side h) v ip id);;
   assert (dns_provisioned h) "failed to provision DNS for workspace") st = (res, st') →
  around st st' ∧ links st' = links (setup_workspace_networking h pid ip v peer st).2 ∧
  (res = Ok tt → ∀ n, n ∈ ANTI_SPOOF_CHAINS → ∃ r, r ∈ chain (rules (fw st')) "filter" n ∧ own "filter" n r = true).
Proof.
  intros Hm. destruct Hfit as [H Hp Hip Hid Hc Hcc]. pose proof (veth_word o id) as Hv. fold v in Hv.
  pose proof (setup_only h v st pid ip peer st (only_link_refl _ _)) as Hs. unfold mbind, stm_bind.
  destruct (setup_workspace_networking h pid ip v peer st) as [[u|e] st1]; cbn [snd] in Hs; destruct Hs as (Hf & _ & Hl).
  2: { intros [= <- <-]. split; [|done]. unfold around. rewrite Hf. auto. }
  cbn [snd]. unfold on_fw. rewrite <- Hf in Hm.
  pose proof (ensure_evolves (rule_side h) v ip id H Hp Hv Hip Hid Hc Hcc (fw st1) Hm) as He.
  pose proof (ensure_recognized (rule_side h) v ip id H Hp Hv Hip Hid Hc (fw st1)) as Hr.
  destruct (ensure_workspace_anti_spoofing (rule_side h) v ip id (fw st1)) as [re f]. destruct He as [He Hm'].
  assert (around st (mkNet (links st1) f (ready st1) (calls st1))) as Ha.
  { split_and!; [done| |done]. cbn [fw]. rewrite <- Hf. intros t n. apply He. }
  destruct re as [[]|e]; [|by intros [= <- <-]]. unfold assert, mret, stm_ret, throw, lift. specialize (Hr f Hm eq_refl).
  destruct (dns_provisioned h); by intros [= <- <-].
Qed.
Lemma attach_result pid st res st' : legible (rule_side h) (rules (fw st)) → parse_host_octet ip = Some o →
  attach_workspace_network h pid ip id o st = (res, st') →
  (∀ n, n ≠ v → links st' !! n = links st !! n) ∧
  (∀ t n, foreign own (rules (fw st')) t n = foreign own (rules (fw st)) t n) ∧
  match res with
  | Ok _ => ∀ n, n ∈ ANTI_SPOOF_CHAINS → ∃ r, r ∈ chain (rules (fw st')) "filter" n ∧ own "filter" n r = true
  | Err e => head e = Some (LPlain "workspace network rollback incomplete") ∨
             (interface_is_workspace_veth v st' = false ∧
              ((∀ k, ip_fate h k = Runs) → is_present BRIDGE_NAME st = true → is_present v st = false → is_present v st' = false) ∧
              ∀ t n, chain (rules (fw st')) t n = foreign own (rules (fw st)) t n)
  end.
Proof.
  intros Hm Ho. unfold attach_workspace_network. fold v. change (veth_names o id) with (v, "eth0").
  cbn beta iota. unfold mbind at 1, stm_bind at 1, catch at 1.
  destruct ((setup_workspace_networking h pid ip v "eth0";; _) st) as [r1 st1] eqn:E.
  destruct (attach_body pid "eth0" st r1 st1 Hm E) as [(Hl & Hfg & Hm1) [Hlinks Hok]].
  destruct r1 as [[]|e]; [intros [= <- <-]; split_and!; auto|].
  destruct Hfit as [H _ _ _ _ _].
  destruct (teardown_facts h ip id o st1 H Hm1 Ho) as (r & st2 & Et & Hl2 & _ & Hf2 & Hrules & Hveth & Hcomp & _).
  fold v own in Hl2, Hf2, Hrules, Hveth. unfold mbind, stm_bind. rewrite Et. unfold lift. intros [= <- <-]. split_and!.
  - intros n Hn. by rewrite Hl2, Hl.
  - intros t n. by rewrite Hf2, Hfg.
  - destruct (is_complete r) eqn:Ec; [|by left]. right. symmetry in Hcomp. apply andb_true_iff in Hcomp as [E1 E2].
    split_and!; [by apply Hveth| |intros t n; by rewrite Hrules, Hfg].
    intros Hr Hb Hn. pose proof (setup_settled h v "eth0" ip pid st Hr (veth_not_bridge o id) Hb Hn) as Hset. unfold settled, is_bridge_member in Hset.
    rewrite <- Hlinks in Hset. pose proof (teardown_link h ip id o st1 Ho) as Ht. cbv zeta in Ht. rewrite Et in Ht. fold v in Ht.
    apply is_present_false. destruct Ht as [?|Ht]; [done|]. cbn [snd] in Ht. rewrite Ht. destruct Hset as [|Hset]; [done|].
    specialize (Hveth E2). unfold interface_is_workspace_veth, is_bridge_member in Hveth. rewrite Ht, Hset, andb_true_r in Hveth.
    unfold is_enclave_veth_name, v in Hveth. rewrite hash_of_veth in Hveth by (by apply (parse_host_octet_range ip)). done.
Qed.
End attaching.

(** C20: attaching a workspace's network never changes another interface or another firewall rule.  When
    it succeeds, both chains have the rule that drops packets with another source than the
    workspace's address.  When it fails, either the error says that the rollback is incomplete, or
    no interface of the workspace is on the bridge and every chain is what it was without the
    workspace's rules; when moreover every [ip] command is carried out, the bridge was there and the
    interface was not, no interface of that name is left at all ([interface_left_off_bridge] is what
    a refused batch and a refused deletion leave).  Assumed of the firewall is that it does what its
    answers say and lists its rules in the form it is given them. *)
Theorem attach_rolls_back (h : net_host) (pid : nat) (ip id : string) (o : Z) (st : net) :
  let v := (veth_names o id).1 in
  let own := mine (rule_side h) v ip in
  rule_fits (rule_side h) v ip id → legible (rule_side h) (rules (fw st)) → parse_host_octet ip = Some o →
  let '(res, st') := attach_workspace_network h pid ip id o st in
  (∀ n, n ≠ v → links st' !! n = links st !! n) ∧
  (∀ t n, foreign own (rules (fw st')) t n = foreign own (rules (fw st)) t n) ∧
  match res with
  | Ok _ => ∀ n, n ∈ ANTI_SPOOF_CHAINS → ∃ r, r ∈ chain (rules (fw st')) "filter" n ∧ own "filter" n r = true
  | Err e => head e = Some (LPlain "workspace network rollback incomplete") ∨
             (interface_is_workspace_veth v st' = false ∧
              ((∀ k, ip_fate h k = Runs) → is_present BRIDGE_NAME st = true → is_present v st = false → is_present v st' = false) ∧
              ∀ t n, chain (rules (fw st')) t n = foreign own (rules (fw st)) t n)
  end.
Proof.
  intros v own Hfit Hm Ho. destruct (attach_workspace_network h pid ip id o st) as [res st'] eqn:E.
  exact (attach_result h ip id o Hfit pid st res st' Hm Ho E).
Qed.

(** ** Addresses in use elsewhere *)

Lemma held_elem h own_hashes st o : sysfs h = true →
  o ∈ host_veth_octets_held_by_others h own_hashes st ↔
  ∃ name hash, is_bridge_member name st = true ∧ hash_from_name name = Some hash ∧ hash ∉ own_hashes ∧ octet_from_veth_name name = Some o.
Proof.
  intros Hs. unfold host_veth_octets_held_by_others. rewrite Hs, elem_of_list_to_set, list_elem_of_omap.
  setoid_rewrite list_elem_of_filter. setoid_rewrite list_elem_of_filter. setoid_rewrite list_elem_of_filter. split.
  - intros (name & (Hh & Hb & Hn & _) & Ho). destruct (hash_from_name name) as [hash|] eqn:E; [|done].
    apply bool_decide_eq_true in Hh. eauto 8.
  - intros (name & hash & Hb & Hh & Hnot & Ho). exists name. split; [|done]. rewrite Hh. split_and!; [by apply bool_decide_eq_true|done| |].
    + unfold is_enclave_veth_name. apply bool_decide_eq_true. rewrite Hh. eauto.
    + unfold is_bridge_member in Hb. apply bool_decide_eq_true, bind_Some in Hb as (l & Hl & _).
      apply list_elem_of_fmap. exists (name, l). split; [done|]. by apply elem_of_map_to_list.
Qed.

(** An address allocated with what the bridge shows counted as used is the address of no other
    daemon's workspace on the bridge, though neither daemon's registry knows the other's. *)
Theorem allocation_avoids_other_daemons (h : net_host) (own_hashes : gset string) (used : gset Z) (st : net) (ip : string) :
  sysfs h = true →
  allocate_ip (used ∪ host_veth_octets_held_by_others h own_hashes st) = Ok ip →
  ∀ o id, (0 ≤ o < 256)%Z → is_bridge_member (veth_names o id).1 st = true → workspace_hash id ∉ own_hashes →
  parse_host_octet ip ≠ Some o.
Proof.
  intros Hs (o' & Ho' & _ & Hn)%allocate_ip_Ok o id Hr Hb Hh. rewrite Ho'. intros [= ->]. apply Hn, elem_of_union. right.
  apply held_elem; [done|]. exists (veth_names o id).1, (workspace_hash id). split_and!; [done|by apply hash_of_veth|done|by apply octet_of_veth].
Qed.

(** ** Examples *)

Definition sample_nh (f : nat → fate) (out : bool * string) : net_host :=
  mkNetHost (sample_rules (λ _, None) (λ _ l, l)) f "RTNETLINK answers: File exists" true (λ _, Some out) (λ _, "") (λ _ _, "") true true.
Definition good_route : bool * string := (true, "default via 10.200.0.1 dev eth0 ").
Definition other_daemon : string := (veth_names 10 "ws-other-aa00bb11cc22").1.
Definition sample_net : net :=
  mkNet {[ BRIDGE_NAME := mkLink None false true ["10.200.0.1/24"]; other_daemon := mkLink (Some BRIDGE_NAME) true true [];
           "eth0" := mkLink None false true ["192.0.2.7/24"] ]} sample_fw true 0.

Lemma sample_fits o : rule_fits (sample_rules o (λ _ l, l)) (veth_names 12 "ws-new-001122334455").1 "10.200.0.12" "ws-new-001122334455".
Proof. split; [apply sample_honest|by left|by vm_compute..]. Qed.
Lemma sample_legible o : legible (sample_rules o (λ _ l, l)) (rules (fw sample_net)).
Proof. apply legible_check. by vm_compute. Qed.

Lemma teardown_reports_truth_witness :
  let '(res, st') := teardown_workspace_network (sample_nh (λ _, Runs) good_route) "10.200.0.10" "ws-other-aa00bb11cc22" sample_net in
  ∃ r, res = Ok r ∧ is_complete r = true ∧ interface_is_workspace_veth other_daemon st' = false ∧ links st' !! "eth0" = links sample_net !! "eth0".
Proof.
  pose proof (teardown_reports_truth (sample_nh (λ _, Runs) good_route) "10.200.0.10" "ws-other-aa00bb11cc22" sample_net
    (sample_honest _) (sample_legible _)) as Hw.
  destruct (teardown_workspace_network _ _ _ sample_net) as [[r|e] st']; [|done].
  change (parse_host_octet "10.200.0.10") with (Some 10%Z) in Hw. destruct Hw as (Hl & _ & _ & _ & Hv & Hc & Hd).
  exists r. assert (is_complete r = true) as Hcomp by (apply Hd; [done..|right; by vm_compute]).
  split_and!; [done|done| |by apply Hl; vm_compute]. apply Hv. rewrite Hc in Hcomp. by apply andb_true_iff in Hcomp as [_ ?].
Defined.

Lemma attach_rolls_back_witness :
  let '(res, st') := attach_workspace_network (sample_nh (λ _, Runs) (false, "")) 42 "10.200.0.12" "ws-new-001122334455" 12 sample_net in
  res ≠ Ok tt ∧ links st' !! other_daemon = links sample_net !! other_daemon.
Proof.
  pose proof (attach_rolls_back (sample_nh (λ _, Runs) (false, "")) 42 "10.200.0.12" "ws-new-001122334455" 12 sample_net
    (sample_fits _) (sample_legible _) ltac:(by vm_compute)) as Hw.
  assert ((attach_workspace_network (sample_nh (λ _, Runs) (false, "")) 42 "10.200.0.12" "ws-new-001122334455" 12 sample_net).1 ≠ Ok tt)
    as Hr by by vm_compute.
  destruct (attach_workspace_network _ _ _ _ _ sample_net) as [res st']. destruct Hw as [Hl _].
  split; [done|]. apply Hl. by vm_compute.
Defined.

Lemma allocation_avoids_other_daemons_witness :
  ∃ ip, allocate_ip ({[11%Z]} ∪ host_veth_octets_held_by_others (sample_nh (λ _, Runs) good_route) ∅ sample_net) = Ok ip ∧
        parse_host_octet ip ≠ Some 10%Z.
Proof.
  assert (allocate_ip ({[11%Z]} ∪ host_veth_octets_held_by_others (sample_nh (λ _, Runs) good_route) ∅ sample_net) = Ok "10.200.0.12") as E
    by by vm_compute.
  exists "10.200.0.12". split; [done|].
  apply (allocation_avoids_other_daemons (sample_nh (λ _, Runs) good_route) ∅ {[11%Z]} sample_net _ eq_refl E 10 "ws-other-aa00bb11cc22"); [lia|by vm_compute|].
  apply not_elem_of_empty.
Defined.

(** The status of the batch that builds the interface is not looked at: with a kernel that refuses
    port isolation, attaching succeeds and leaves an interface that is neither isolated nor up. *)
Lemma attach_without_isolation :
  let h := sample_nh (λ k, if k =? 0 then Refused 2 "RTNETLINK answers: Operation not supported" else Runs) good_route in
  let '(res, st') := attach_workspace_network h 42 "10.200.0.12" "ws-new-001122334455" 12 sample_net in
  res = Ok tt ∧ links st' !! (veth_names 12 "ws-new-001122334455").1 = Some (mkLink (Some BRIDGE_NAME) false false []).
Proof. by vm_compute. Qed.

(** The batch is refused after its first command and the deletion is refused too: attaching fails, its error
    does not say that the rollback is incomplete, and the interface is left, off the bridge. *)
Lemma interface_left_off_bridge :
  let h := sample_nh (λ k, match k with 0 => Refused 1 "RTNETLINK answers: No buffer space available"
                                      | 2 => Refused 0 "RTNETLINK answers: Device or resource busy" | _ => Runs end) (false, "") in
  let '(res, st') := attach_workspace_network h 42 "10.200.0.12" "ws-new-001122334455" 12 sample_net in
  match res with Ok _ => False | Err e => head e ≠ Some (LPlain "workspace network rollback incomplete") end ∧
  links st' !! (veth_names 12 "ws-new-001122334455").1 = Some (mkLink None false false []).
Proof. by vm_compute. Qed.
(** A teardown reports an interface absent that it refused to delete. *)
Lemma foreign_interface_reported_absent :
  let v := (veth_names 12 "ws-new-001122334455").1 in
  let st := mkNet (<[v := mkLink None false true []]> (links sample_net)) sample_fw true 0 in
  let '(res, st') := teardown_workspace_network (sample_nh (λ _, Runs) good_route) "10.200.0.12" "ws-new-001122334455" st in
  (is_complete <$> res) = Ok true ∧ is_present v st' = true.
Proof. by vm_compute. Qed.

(** A bridge with members is kept, and the shared rules with it. *)
Lemma busy_bridge_kept h st : is_present BRIDGE_NAME st = true → bridge_members st ≠ [] →
  cleanup_host_networking h st = (Ok tt, st).
Proof.
  intros Hp Hm. unfold cleanup_host_networking, remove_bridge_if_idle, catch, mbind, stm_bind, get. rewrite Hp. cbn [negb].
  by rewrite bool_decide_false.
Qed.
(** A host that already uses the subnet is refused before anything is changed. *)
Lemma conflict_changes_nothing h st : ready st && is_present BRIDGE_NAME st = false →
  parse_subnet_conflicts (show_addresses h (links st)) ≠ [] →
  let '(res, st') := ensure_host_networking h st in
  (∃ e, res = Err e) ∧ links st' = links st ∧ fw st' = fw st ∧ ready st' = ready st.
Proof.
  intros Hr Hc. unfold ensure_host_networking, mbind, stm_bind, get. rewrite Hr.
  unfold ensure_bridge, ensure_subnet_available, subnet_conflicts, run_show, mbind, stm_bind.
  destruct (ip_fate h (calls st)); unfold mret, stm_ret, bail, assert; rewrite ?bool_decide_false by done; cbn; eauto 6.
Qed.
