(* ===== verification/Helpers.v ===== *)
(** * Command helpers (src/src/workspace/session/persistent/mod.rs)

    A command runs under a helper process that is taken from a pool or started for it,
    and publishes a marker that names the helper while it runs.  A cancel kills the
    helpers the markers name.  The pool and the markers are shared by all requests of a
    workspace: the system below is every interleaving of the sections each of them runs
    under a lock. *)
From S2P Require Import Prelude.

(** ** The pool *)

(** A helper's pid and start time. *)
Abbreviation helper := (Z * Z)%type.

(** [idle] is a stack, its top first. *)
Record HelperPoolState := mkPool {
  idle : list helper;
  active : list helper;
  starting : nat;
  closed : bool }.
Definition new_pool : HelperPoolState := mkPool [] [] 0 false.

(** What one turn of [acquire] under the lock comes to. *)
Inductive turn :=
  | Stopping                               (** the pool is closed *)
  | Got (h : helper)
  | Dead (h : helper)                      (** an idle helper that has exited: kill its group, try again *)
  | Full                                   (** over the configured limit *)
  | Start.

Definition over_limit (limit : option nat) (s : HelperPoolState) : bool :=
  match limit with Some n => (n <=? length (active s) + starting s)%nat | None => false end.

Definition acquire_turn (alive : helper → bool) (limit : option nat) (s : HelperPoolState) : turn * HelperPoolState :=
  if closed s then (Stopping, s)
  else
    match idle s with
    | h :: rest =>
        if alive h then (Got h, mkPool rest (active s ++ [h]) (starting s) (closed s))
        else (Dead h, mkPool rest (active s) (starting s) (closed s))
    | [] =>
        if over_limit limit s then (Full, s)
        else (Start, mkPool [] (active s) (S (starting s)) (closed s))
    end.

(** The end of [acquire] once [start_helper] returned; the answer is whether the caller
    has the helper. *)
Definition acquire_started (started : option helper) (s : HelperPoolState) : option helper * HelperPoolState :=
  let s := mkPool (idle s) (active s) (pred (starting s)) (closed s) in
  match started with
  | None => (None, s)
  | Some h => if closed s then (None, s) else (Some h, mkPool (idle s) (active s ++ [h]) (starting s) (closed s))
  end.

Definition IDLE_HELPER_LIMIT : nat := 2.

Definition release_helper (alive : helper → bool) (h : helper) (reusable : bool) (s : HelperPoolState) : HelperPoolState :=
  let active' := filter (λ a, a ≠ h) (active s) in
  if reusable && negb (closed s) && (length (idle s) <? IDLE_HELPER_LIMIT)%nat && alive h
  then mkPool (h :: idle s) active' (starting s) (closed s)
  else mkPool (idle s) active' (starting s) (closed s).

Definition close_pool (s : HelperPoolState) : HelperPoolState := mkPool [] [] (starting s) true.

(** ** Commands and cancels *)

(** Where a request is: in the loop of [acquire], in [start_helper], with a helper but
    before its marker, running, or about to release. *)
Inductive phase :=
  | Acquiring
  | Starting
  | Holding (h : helper)
  | Running (h : helper) (marker : option nat)
  | Releasing (h : helper) (reusable : bool).

Definition held (p : phase) : option helper :=
  match p with Holding h | Running h _ | Releasing h _ => Some h | _ => None end.

(** The marker files by their ids, with the helper each names; [cancelled] are the
    helpers killed by a cancel that retired their marker, [spawned] and [used] what was ever there. *)
Record system := mkSystem {
  pool : HelperPoolState;
  requests : list phase;
  markers : gmap nat helper;
  cancelled : gset helper;
  spawned : gset helper;
  used : gset nat }.
Definition initial_system : system := mkSystem new_pool [] ∅ ∅ ∅ ∅.

(** The end of a command ([run_on_helper]): its marker decides with its outcome. *)
Definition finish_marker (h : helper) (marker : option nat) (m : gmap nat helper) : option bool * gmap nat helper :=
  match marker with
  | None => (Some true, m)
  | Some i =>
      match m !! i with
      | None => (Some false, m)
      | Some h' => if bool_decide (h' = h) then (Some true, delete i m) else (None, m)
      end
  end.

Definition after_turn (t : turn) : list phase :=
  match t with
  | Stopping | Full => []
  | Got h => [Holding h]
  | Dead _ => [Acquiring]
  | Start => [Starting]
  end.

(** The helpers of the markers a cancel removed; it ignores a removal that fails, and
    removes none when it fails. *)
Definition killed (gone : gset nat) (m : gmap nat helper) : gset helper := map_img (filter (λ p, p.1 ∈ gone) m).

Section system.
(** [confirmed]: no publication of a marker reports a failure with the marker file in
    place, as one does when the directory cannot be synced after the rename or the lock not
    be released. *)
Context (limit : option nat) (confirmed : bool).

(** Every step replaces one request [p] in place by what comes after it; a start brings
    a process with an identity not seen before, a marker an id not seen before. *)
Inductive helper_step : system → system → Prop :=
  | step_request s :
      helper_step s (mkSystem (pool s) (Acquiring :: requests s) (markers s) (cancelled s) (spawned s) (used s))
  | step_acquire s l1 l2 alive t p' :
      requests s = l1 ++ Acquiring :: l2 → acquire_turn alive limit (pool s) = (t, p') →
      helper_step s (mkSystem p' (l1 ++ after_turn t ++ l2) (markers s) (cancelled s) (spawned s) (used s))
  | step_started s l1 l2 h o p' :
      requests s = l1 ++ Starting :: l2 → h ∉ spawned s → acquire_started (Some h) (pool s) = (o, p') →
      helper_step s (mkSystem p' (l1 ++ match o with Some h => [Holding h] | None => [] end ++ l2)
                       (markers s) (cancelled s) ({[h]} ∪ spawned s) (used s))
  | step_start_failed s l1 l2 o p' :
      requests s = l1 ++ Starting :: l2 → acquire_started None (pool s) = (o, p') →
      helper_step s (mkSystem p' (l1 ++ l2) (markers s) (cancelled s) (spawned s) (used s))
  | step_publish s l1 l2 h i :
      requests s = l1 ++ Holding h :: l2 → i ∉ used s →
      helper_step s (mkSystem (pool s) (l1 ++ [Running h (Some i)] ++ l2) (<[i := h]> (markers s)) (cancelled s)
                       (spawned s) ({[i]} ∪ used s))
  | step_publish_failed s l1 l2 h :
      requests s = l1 ++ Holding h :: l2 →
      helper_step s (mkSystem (pool s) (l1 ++ [Running h None] ++ l2) (markers s) (cancelled s) (spawned s) (used s))
  | step_publish_unconfirmed s l1 l2 h i :
      confirmed = false → requests s = l1 ++ Holding h :: l2 → i ∉ used s →
      helper_step s (mkSystem (pool s) (l1 ++ [Running h None] ++ l2) (<[i := h]> (markers s)) (cancelled s)
                       (spawned s) ({[i]} ∪ used s))
  | step_finish s l1 l2 h m healthy retired m' :
      requests s = l1 ++ Running h m :: l2 → finish_marker h m (markers s) = (retired, m') →
      helper_step s (mkSystem (pool s) (l1 ++ [Releasing h (healthy && default false retired)] ++ l2) m' (cancelled s)
                       (spawned s) (used s))
  | step_finish_failed s l1 l2 h i :
      requests s = l1 ++ Running h (Some i) :: l2 →
      helper_step s (mkSystem (pool s) (l1 ++ [Releasing h false] ++ l2) (markers s) (cancelled s) (spawned s) (used s))
  | step_release s l1 l2 h r alive :
      requests s = l1 ++ Releasing h r :: l2 →
      helper_step s (mkSystem (release_helper alive h r (pool s)) (l1 ++ l2) (markers s) (cancelled s) (spawned s) (used s))
  | step_close s :
      helper_step s (mkSystem (close_pool (pool s)) (requests s) (markers s) (cancelled s) (spawned s) (used s))
  | step_cancel s gone :
      helper_step s (mkSystem (pool s) (requests s) (filter (λ p, p.1 ∉ gone) (markers s))
                       (killed gone (markers s) ∪ cancelled s) (spawned s) (used s)).

(** ** The invariant *)

Definition holders (s : system) : list helper := omap held (requests s).
Definition is_starting (p : phase) : bool := match p with Starting => true | _ => false end.
Definition starters (s : system) : nat := length (filter (λ p, is_starting p = true) (requests s)).

(** A request that has the helper [h] named by marker [i] is the one that published it,
    or has given the helper up. *)
Definition names (i : nat) (h : helper) (p : phase) : Prop :=
  held p = Some h → p = Running h (Some i) ∨ p = Releasing h false.
(** A request whose helper was cancelled has lost its marker, or given the helper up. *)
Definition lost (m : gmap nat helper) (h : helper) (p : phase) : Prop :=
  held p = Some h → (∃ i, p = Running h (Some i) ∧ m !! i = None) ∨ p = Releasing h false.

Record helper_inv (s : system) : Prop := {
  inv_distinct : NoDup (idle (pool s) ++ holders s);
  inv_open : closed (pool s) = false → active (pool s) ≡ₚ holders s ∧ starting (pool s) = starters s;
  inv_closed : closed (pool s) = true → idle (pool s) = [];
  inv_markers : ∀ i h, markers s !! i = Some h → h ∉ idle (pool s) ∧ Forall (names i h) (requests s);
  inv_cancelled : ∀ h, h ∈ cancelled s → h ∉ idle (pool s) ∧ Forall (lost (markers s) h) (requests s);
  inv_spawned : ∀ h, h ∈ idle (pool s) ++ holders s ∨ h ∈ map_img (M := gmap nat helper) (SA := gset helper) (markers s) ∨ h ∈ cancelled s → h ∈ spawned s;
  inv_used : (∀ i, is_Some (markers s !! i) → i ∈ used s) ∧
    Forall (λ p, ∀ h i, p = Running h (Some i) → i ∈ used s) (requests s);
  inv_idle : (length (idle (pool s)) ≤ IDLE_HELPER_LIMIT)%nat;
  inv_limit : ∀ n, limit = Some n → closed (pool s) = false →
    (length (idle (pool s)) + length (active (pool s)) + starting (pool s) ≤ n)%nat }.

Lemma initial_inv : helper_inv initial_system.
Proof.
  split; cbn; try done; try constructor; try done; try lia.
  - intros h. set_solver.
  - intros i [? [=]].
Qed.

Lemma holders_split s l1 p l2 : requests s = l1 ++ p :: l2 →
  holders s ≡ₚ option_list (held p) ++ omap held l1 ++ omap held l2.
Proof.
  intros E. unfold holders. rewrite E, omap_app. cbn. destruct (held p); cbn; [|done]. by rewrite Permutation_middle.
Qed.
Lemma starters_split s l1 p l2 : requests s = l1 ++ p :: l2 →
  starters s = ((if is_starting p then 1 else 0) + length (filter (λ p, is_starting p = true) (l1 ++ l2)))%nat.
Proof.
  intros E. unfold starters. rewrite E, !list.filter_app, !length_app, filter_cons. destruct (is_starting p); cbn.
  - rewrite decide_True by done. cbn. lia.
  - by rewrite decide_False by done.
Qed.

(** A step that replaces a request by another with the same helper and leaves the pool
    alone keeps what does not depend on the markers. *)
Lemma replace_inv s s' l1 p q l2 :
  helper_inv s → requests s = l1 ++ p :: l2 → requests s' = l1 ++ q :: l2 → held q = held p →
  is_starting p = false → is_starting q = false → pool s' = pool s → cancelled s' = cancelled s → spawned s' = spawned s →
  (∀ i h, markers s' !! i = Some h → h ∉ idle (pool s) ∧ names i h q ∧ Forall (names i h) (l1 ++ l2) ∧ h ∈ spawned s) →
  (∀ h, h ∈ cancelled s → lost (markers s') h q ∧ Forall (lost (markers s') h) (l1 ++ l2)) →
  (∀ i, is_Some (markers s' !! i) → i ∈ used s') →
  (∀ h i, q = Running h (Some i) → i ∈ used s') → used s ⊆ used s' → helper_inv s'.
Proof.
  intros [D O C M X S U I L] E E' Hh Hp Hq Hpool Hcan Hsp HM HX HU1 HU2 Hsub.
  assert (holders s' ≡ₚ holders s) as Hhold.
  { rewrite (holders_split _ _ _ _ E), (holders_split _ _ _ _ E'), Hh. done. }
  assert (starters s' = starters s) as Hst.
  { rewrite (starters_split _ _ _ _ E), (starters_split _ _ _ _ E'), Hp, Hq. done. }
  split; rewrite ?Hpool, ?Hcan, ?Hsp.
  - by rewrite Hhold.
  - intros Hc. rewrite Hhold, Hst. by apply O.
  - done.
  - intros i h Hi. destruct (HM i h Hi) as (? & Hn & Hf & _). split; [done|]. rewrite E'.
    rewrite Forall_app in *. split; [apply Hf|constructor; [done|apply Hf]].
  - intros h Hi. destruct (HX h Hi) as [Hl Hf]. split; [by apply X|]. rewrite E'.
    rewrite Forall_app in *. split; [apply Hf|constructor; [done|apply Hf]].
  - intros h. rewrite Hhold. intros [H|[(i & Hi)%elem_of_map_img|H]]; [apply S; by left| |apply S; by do 2 right].
    by destruct (HM i h Hi) as (_ & _ & _ & ?).
  - split; [done|]. destruct U as [_ U]. rewrite E in U. rewrite E'. rewrite Forall_app in *.
    destruct U as [U1 U2]. apply list.Forall_cons in U2 as [_ U2]. split; [|constructor].
    + eapply list.Forall_impl; [exact U1|]. intros x Hx h i Hr. eauto.
    + done.
    + eapply list.Forall_impl; [exact U2|]. intros x Hx h i Hr. eauto.
  - done.
  - done.
Qed.
(** The helper of a request is in nobody else's hands. *)
Lemma held_once s l1 p l2 h : helper_inv s → requests s = l1 ++ p :: l2 → held p = Some h →
  h ∉ idle (pool s) ∧ Forall (λ x, held x ≠ Some h) (l1 ++ l2) ∧ h ∈ spawned s.
Proof.
  intros H E Hp. destruct H as [D _ _ _ _ S _ _ _]. pose proof (holders_split _ _ _ _ E) as Hh. rewrite Hp in Hh. cbn in Hh.
  split_and!.
  - intros Hi. apply list.NoDup_app in D as (_ & D & _). apply (D h Hi). rewrite Hh. by left.
  - rewrite Hh in D. apply list.NoDup_app in D as (_ & _ & D). apply list.NoDup_cons in D as [D _].
    rewrite <- omap_app in D. apply list.Forall_forall. intros x Hx Hxh. apply D. apply list_elem_of_omap. eauto.
  - apply S. left. rewrite Hh. set_solver.
Qed.
Lemma inv_others s l1 p l2 : helper_inv s → requests s = l1 ++ p :: l2 →
  (∀ i h, markers s !! i = Some h → h ∉ idle (pool s) ∧ names i h p ∧ Forall (names i h) (l1 ++ l2)) ∧
  (∀ h, h ∈ cancelled s → lost (markers s) h p ∧ Forall (lost (markers s) h) (l1 ++ l2)) ∧
  Forall (λ p, ∀ h i, p = Running h (Some i) → i ∈ used s) (l1 ++ l2).
Proof.
  intros [_ _ _ M X _ [_ U] _ _] E. rewrite E in U. rewrite Forall_app, list.Forall_cons in U. split_and!.
  - intros i h Hi. destruct (M i h Hi) as [? Hn]. rewrite E, Forall_app, list.Forall_cons in Hn. rewrite Forall_app. tauto.
  - intros h Hi. destruct (X h Hi) as [_ Hn]. rewrite E, Forall_app, list.Forall_cons in Hn. rewrite Forall_app. tauto.
  - rewrite Forall_app. tauto.
Qed.
Lemma marker_spawned s i h : helper_inv s → markers s !! i = Some h → h ∈ spawned s.
Proof. intros [_ _ _ _ _ S _ _ _] Hi. apply S. right; left. apply elem_of_map_img. by exists i. Qed.

Lemma publish_inv s l1 l2 h i : helper_inv s → requests s = l1 ++ Holding h :: l2 → i ∉ used s →
  helper_inv (mkSystem (pool s) (l1 ++ [Running h (Some i)] ++ l2) (<[i := h]> (markers s)) (cancelled s)
                (spawned s) ({[i]} ∪ used s)).
Proof.
  intros H E Hi. destruct (held_once _ _ _ _ h H E eq_refl) as (Hidle & Hother & Hsp).
  destruct (inv_others _ _ _ _ H E) as (HM & HX & HU). pose proof (inv_used _ H) as [Hused _].
  eapply (replace_inv s); try done; cbn.
  - intros j h'. rewrite lookup_insert_Some. intros [[<- <-]|[Hne Hj]].
    + split_and!; [done|by left|..|done]. eapply list.Forall_impl; [exact Hother|]. by intros x Hx ?.
    + destruct (HM j h' Hj) as (? & Hn & ?). split_and!; [done| |done|by eapply marker_spawned].
      intros [= ->]. by destruct (Hn eq_refl).
  - intros h' Hc. destruct (HX h' Hc) as [Hn Hl]. split.
    + intros [= ->]. by destruct (Hn eq_refl) as [(? & ? & _)|].
    + rewrite list.Forall_forall in *. intros x Hx Hxh. destruct (Hl x Hx Hxh) as [(j & -> & Hj)| ->]; [left|by right].
      exists j. split; [done|]. rewrite lookup_insert_ne; [done|]. intros ->. apply Hi. by eapply (HU _ Hx).
  - intros j. rewrite lookup_insert_is_Some. intros [<-|[_ ?]]; set_solver.
  - intros h' j [= <- <-]. set_solver.
  - set_solver.
Qed.

Lemma publish_failed_inv s l1 l2 h : helper_inv s → requests s = l1 ++ Holding h :: l2 →
  helper_inv (mkSystem (pool s) (l1 ++ [Running h None] ++ l2) (markers s) (cancelled s) (spawned s) (used s)).
Proof.
  intros H E. destruct (inv_others _ _ _ _ H E) as (HM & HX & HU). eapply (replace_inv s); try done; cbn.
  - intros j h' Hj. destruct (HM j h' Hj) as (? & Hn & ?). split_and!; [done| |done|by eapply marker_spawned].
    intros [= ->]. by destruct (Hn eq_refl).
  - intros h' Hc. destruct (HX h' Hc) as [Hn Hl]. split; [|done].
    intros [= ->]. by destruct (Hn eq_refl) as [(? & ? & _)|].
  - apply (inv_used _ H).
Qed.

Lemma give_up_inv s l1 l2 h m : helper_inv s → requests s = l1 ++ Running h m :: l2 →
  helper_inv (mkSystem (pool s) (l1 ++ [Releasing h false] ++ l2) (markers s) (cancelled s) (spawned s) (used s)).
Proof.
  intros H E. destruct (inv_others _ _ _ _ H E) as (HM & HX & HU). eapply (replace_inv s); try done; cbn.
  - intros j h' Hj. destruct (HM j h' Hj) as (? & Hn & ?). split_and!; [done| |done|by eapply marker_spawned].
    intros [= ->]. by right.
  - intros h' Hc. destruct (HX h' Hc) as [Hn Hl]. split; [|done]. intros [= ->]. by right.
  - apply (inv_used _ H).
Qed.

Lemma finish_inv s l1 l2 h m healthy retired m' : helper_inv s → requests s = l1 ++ Running h m :: l2 →
  finish_marker h m (markers s) = (retired, m') →
  helper_inv (mkSystem (pool s) (l1 ++ [Releasing h (healthy && default false retired)] ++ l2) m' (cancelled s)
                (spawned s) (used s)).
Proof.
  intros H E Hf. destruct (inv_others _ _ _ _ H E) as (HM & HX & HU). unfold finish_marker in Hf.
  destruct m as [i|].
  - destruct (markers s !! i) as [h'|] eqn:Ei; [|injection Hf as <- <-; cbn; rewrite andb_false_r; by eapply give_up_inv].
    case_bool_decide as Hh; [|injection Hf as <- <-; cbn; rewrite andb_false_r; by eapply give_up_inv].
    subst h'. injection Hf as <- <-. cbn [default Datatypes.id from_option]. eapply (replace_inv s); try done; cbn.
    + intros j h'. rewrite lookup_delete_Some. intros [Hne Hj]. destruct (HM j h' Hj) as (? & Hn & ?).
      split_and!; [done| |done|by eapply marker_spawned]. intros [= ->]. by destruct (Hn eq_refl) as [[= ->]|].
    + intros h' Hc. destruct (HX h' Hc) as [Hn Hl]. split.
      * intros [= ->]. destruct (Hn eq_refl) as [(j & [= <-] & Hj)|?]; [congruence|done].
      * eapply list.Forall_impl; [exact Hl|]. intros x Hx Hxh. destruct (Hx Hxh) as [(j & -> & Hj)| ->]; [left|by right].
        exists j. split; [done|]. rewrite lookup_delete_None. by right.
    + intros j [x Hx]. apply lookup_delete_Some in Hx as [_ Hx]. apply (inv_used _ H). eauto.
  - injection Hf as <- <-. eapply (replace_inv s); try done; cbn.
    + intros j h' Hj. destruct (HM j h' Hj) as (? & Hn & ?). split_and!; [done| |done|by eapply marker_spawned].
      intros [= ->]. by destruct (Hn eq_refl).
    + intros h' Hc. destruct (HX h' Hc) as [Hn Hl]. split; [|done].
      intros [= ->]. by destruct (Hn eq_refl) as [(? & ? & _)|].
    + apply (inv_used _ H).
Qed.
(** A helper no marker names and no cancel killed. *)
Definition clean (s : system) (h : helper) : Prop := (∀ i, markers s !! i ≠ Some h) ∧ h ∉ cancelled s.

Lemma idle_clean s h : helper_inv s → h ∈ idle (pool s) → clean s h.
Proof.
  intros H Hi. split.
  - intros i Hm. by destruct (inv_markers _ H i h Hm).
  - intros Hc. by destruct (inv_cancelled _ H h Hc).
Qed.
Lemma unseen_clean s h : helper_inv s → h ∉ spawned s → clean s h.
Proof.
  intros H Hn. split.
  - intros i Hm. apply Hn. by eapply marker_spawned.
  - intros Hc. apply Hn, (inv_spawned _ H). by do 2 right.
Qed.
Lemma reusable_clean s l1 l2 h : helper_inv s → requests s = l1 ++ Releasing h true :: l2 → clean s h.
Proof.
  intros H E. destruct (inv_others _ _ _ _ H E) as (HM & HX & _). split.
  - intros i Hm. destruct (HM i h Hm) as (_ & Hn & _). by destruct (Hn eq_refl).
  - intros Hc. destruct (HX h Hc) as [Hn _]. by destruct (Hn eq_refl) as [(? & ? & _)|].
Qed.

(** A step that changes the pool and leaves the markers alone. *)
Lemma reshape_inv s s' : helper_inv s → markers s' = markers s → cancelled s' = cancelled s → used s' = used s →
  spawned s ⊆ spawned s' →
  (∀ p, p ∈ requests s' → p ∈ requests s ∨ held p = None ∨ ∃ h, p = Holding h ∧ clean s h) →
  (∀ h, h ∈ idle (pool s') → clean s h) →
  NoDup (idle (pool s') ++ holders s') →
  (∀ h, h ∈ idle (pool s') ++ holders s' → h ∈ spawned s') →
  (closed (pool s') = false → active (pool s') ≡ₚ holders s' ∧ starting (pool s') = starters s') →
  (closed (pool s') = true → idle (pool s') = []) →
  (length (idle (pool s')) ≤ IDLE_HELPER_LIMIT)%nat →
  (∀ n, limit = Some n → closed (pool s') = false →
     (length (idle (pool s')) + length (active (pool s')) + starting (pool s') ≤ n)%nat) →
  helper_inv s'.
Proof.
  intros H HM HX HU Hsp Hreq Hidle Hnd Hin Hopen Hclosed Hlen Hlim. split; try done.
  - intros i h. rewrite HM. intros Hi. split; [intros Hc; by apply Hidle in Hc as [Hc _]; destruct (Hc i)|].
    apply list.Forall_forall. intros p Hp Hh. destruct (Hreq p Hp) as [Hold|[Hnone|(h' & -> & Hc & _)]].
    + destruct (inv_markers _ H i h Hi) as [_ Hall]. rewrite list.Forall_forall in Hall. by apply Hall.
    + by rewrite Hnone in Hh.
    + injection Hh as ->. by destruct (Hc i).
  - intros h. rewrite HX, HM. intros Hi. split; [intros Hc; by apply Hidle in Hc as [_ Hc]|].
    apply list.Forall_forall. intros p Hp Hh. destruct (Hreq p Hp) as [Hold|[Hnone|(h' & -> & _ & Hc)]].
    + destruct (inv_cancelled _ H h Hi) as [_ Hall]. rewrite list.Forall_forall in Hall. by apply Hall.
    + by rewrite Hnone in Hh.
    + by injection Hh as ->.
  - intros h. rewrite HM, HX. intros [Hh|[Hh|Hh]]; [by apply Hin|..]; apply Hsp, (inv_spawned _ H); auto.
  - rewrite HM, HU. split; [apply (inv_used _ H)|]. apply list.Forall_forall. intros p Hp h i ->.
    destruct (Hreq _ Hp) as [Hold|[[=]|(h' & [=] & _)]]. destruct (inv_used _ H) as [_ Hu].
    rewrite list.Forall_forall in Hu. by eapply (Hu _ Hold).
Qed.

Lemma pool_spawned s h : helper_inv s → h ∈ idle (pool s) ++ holders s → h ∈ spawned s.
Proof. intros H Hh. apply (inv_spawned _ H). by left. Qed.
Lemma request_elem s l1 p l2 x : requests s = l1 ++ p :: l2 → x ∈ l1 ++ l2 → x ∈ requests s.
Proof. intros ->. set_solver. Qed.

Lemma close_inv s : helper_inv s →
  helper_inv (mkSystem (close_pool (pool s)) (requests s) (markers s) (cancelled s) (spawned s) (used s)).
Proof.
  intros H. apply (reshape_inv s); try done; cbn.
  - by left.
  - intros h Hh. by apply not_elem_of_nil in Hh.
  - destruct H as [D _ _ _ _ _ _ _ _]. by apply list.NoDup_app in D as (_ & _ & ?).
  - intros h Hh. apply pool_spawned; [done|]. set_solver.
  - lia.
Qed.

Lemma cancel_inv s gone : helper_inv s →
  helper_inv (mkSystem (pool s) (requests s) (filter (λ p, p.1 ∉ gone) (markers s))
                (killed gone (markers s) ∪ cancelled s) (spawned s) (used s)).
Proof.
  intros H. destruct H as [D O C M X S [U1 U2] I L]. split; try done; cbn.
  - intros i h [Hi _]%map_lookup_filter_Some. by apply M.
  - intros h [(i & [Hi Hg]%map_lookup_filter_Some)%elem_of_map_img|Hc]%elem_of_union.
    + destruct (M i h Hi) as [? Hn]. split; [done|]. eapply list.Forall_impl; [exact Hn|]. intros p Hp Hh.
      destruct (Hp Hh) as [->| ->]; [|by right]. left. exists i. split; [done|].
      apply map_lookup_filter_None_2. right. intros x _ Hx. by apply Hx.
    + destruct (X h Hc) as [? Hl]. split; [done|]. eapply list.Forall_impl; [exact Hl|]. intros p Hp Hh.
      destruct (Hp Hh) as [(i & -> & Hi)| ->]; [|by right]. left. exists i. split; [done|].
      apply map_lookup_filter_None_2. by left.
  - intros h [Hh|[(i & [Hi _]%map_lookup_filter_Some)%elem_of_map_img|
        [(i & [Hi _]%map_lookup_filter_Some)%elem_of_map_img|Hh]%elem_of_union]];
      [apply S; by left| | |apply S; auto]; apply S; right; left; apply elem_of_map_img; by exists i.
  - split; [|done]. intros i [h [Hi _]%map_lookup_filter_Some]. apply U1. by exists h.
Qed.

Lemma request_inv s : helper_inv s →
  helper_inv (mkSystem (pool s) (Acquiring :: requests s) (markers s) (cancelled s) (spawned s) (used s)).
Proof.
  intros H. apply (reshape_inv s); try done; cbn; try (apply H).
  - intros p [->|Hp]%elem_of_cons; auto.
  - intros h Hh. by apply idle_clean.
  - intros h Hh. by apply pool_spawned.
Qed.
Definition count_starting (l : list phase) : nat := length (filter (λ p, is_starting p = true) l).

(** One request moves and the pool with it. *)
Lemma move_inv s l1 p l2 P q sp : helper_inv s → requests s = l1 ++ p :: l2 → spawned s ⊆ sp →
  (∀ x, x ∈ q → held x = None ∨ ∃ h, x = Holding h ∧ clean s h) →
  (∀ h, h ∈ idle P → clean s h) →
  let others := omap held l1 ++ omap held l2 in
  NoDup (idle P ++ omap held q ++ others) →
  (∀ h, h ∈ idle P ++ omap held q ++ others → h ∈ sp) →
  (closed P = false → active P ≡ₚ omap held q ++ others ∧ starting P = count_starting q + count_starting (l1 ++ l2))%nat →
  (closed P = true → idle P = []) → (length (idle P) ≤ IDLE_HELPER_LIMIT)%nat →
  (∀ n, limit = Some n → closed P = false → (length (idle P) + length (active P) + starting P ≤ n)%nat) →
  helper_inv (mkSystem P (l1 ++ q ++ l2) (markers s) (cancelled s) sp (used s)).
Proof.
  intros H E Hsp Hq Hidle others Hnd Hin Hopen Hclosed Hlen Hlim.
  assert (holders (mkSystem P (l1 ++ q ++ l2) (markers s) (cancelled s) sp (used s)) ≡ₚ omap held q ++ others) as Hh.
  { unfold holders, others. cbn. rewrite !omap_app. solve_Permutation. }
  apply (reshape_inv s); try done; cbn [requests pool spawned].
  - intros x. rewrite !elem_of_app. intros [Hx|[Hx|Hx]]; [left; rewrite E; set_solver|right; by apply Hq|left; rewrite E; set_solver].
  - by rewrite Hh.
  - intros h. rewrite Hh. apply Hin.
  - intros Hc. destruct (Hopen Hc) as [Ha Hs]. rewrite Hh. split; [done|]. rewrite Hs. unfold starters, count_starting.
    cbn [requests]. rewrite !list.filter_app, !length_app. lia.
Qed.

Lemma moved_open s l1 p l2 : helper_inv s → requests s = l1 ++ p :: l2 → closed (pool s) = false →
  active (pool s) ≡ₚ option_list (held p) ++ omap held l1 ++ omap held l2 ∧
  starting (pool s) = ((if is_starting p then 1 else 0) + count_starting (l1 ++ l2))%nat.
Proof.
  intros H E Hc. destruct (inv_open _ H Hc) as [Ha Hs].
  rewrite Ha, Hs, (holders_split _ _ _ _ E), (starters_split _ _ _ _ E). done.
Qed.
Lemma moved_distinct s l1 p l2 : helper_inv s → requests s = l1 ++ p :: l2 →
  NoDup (idle (pool s) ++ option_list (held p) ++ omap held l1 ++ omap held l2) ∧
  ∀ h, h ∈ idle (pool s) ++ option_list (held p) ++ omap held l1 ++ omap held l2 → h ∈ spawned s.
Proof.
  intros H E. split.
  - rewrite <- (holders_split _ _ _ _ E). apply H.
  - intros h. rewrite <- (holders_split _ _ _ _ E). by apply pool_spawned.
Qed.

Lemma acquire_inv s l1 l2 alive t P : helper_inv s → requests s = l1 ++ Acquiring :: l2 →
  acquire_turn alive limit (pool s) = (t, P) →
  helper_inv (mkSystem P (l1 ++ after_turn t ++ l2) (markers s) (cancelled s) (spawned s) (used s)).
Proof.
  intros H E Ht. destruct (moved_distinct _ _ _ _ H E) as [D S]. cbn in D, S.
  pose proof (moved_open _ _ _ _ H E) as O. cbn in O. pose proof (inv_idle _ H) as I. pose proof (inv_limit _ H) as L.
  pose proof (λ h, idle_clean s h H) as Hclean.
  unfold acquire_turn in Ht. destruct (closed (pool s)) eqn:Ec.
  { injection Ht as <- <-. eapply move_inv; try done; cbn; rewrite ?Ec; try done; [set_solver|]. intros _. by apply H. }
  destruct (O eq_refl) as [Ha Hs]. destruct (idle (pool s)) as [|h rest] eqn:Ei.
  - destruct (over_limit limit (pool s)) eqn:Eo; injection Ht as <- <-.
    + eapply move_inv; try done; cbn; rewrite ?Ec, ?Ei; try done; set_solver.
    + eapply move_inv; try done; cbn; rewrite ?Ec; try done.
      * intros x ->%list_elem_of_singleton. by left.
      * intros _. split; [done|]. by rewrite Hs.
      * intros n Hn _. unfold over_limit in Eo. rewrite Hn in Eo. apply Nat.leb_gt in Eo. lia.
  - cbn in I. destruct (alive h); injection Ht as <- <-; (eapply move_inv; try done); cbn; rewrite ?Ec; try done.
    + intros x ->%list_elem_of_singleton. right. exists h. split; [done|]. apply Hclean. by left.
    + intros x Hx. apply Hclean. by right.
    + rewrite <- Permutation_middle. done.
    + intros x Hx. apply S. rewrite <- Permutation_middle in Hx. done.
    + intros _. split; [|done]. rewrite Ha. by rewrite <- Permutation_cons_append.
    + lia.
    + intros n Hn _. specialize (L n Hn eq_refl). cbn in L. rewrite length_app. cbn. lia.
    + intros x ->%list_elem_of_singleton. by left.
    + intros x Hx. apply Hclean. by right.
    + by apply list.NoDup_cons in D as [_ D].
    + intros x Hx. apply S. by right.
    + lia.
    + intros n Hn _. specialize (L n Hn eq_refl). cbn in L. lia.
Qed.

Lemma started_inv s l1 l2 h o P : helper_inv s → requests s = l1 ++ Starting :: l2 → h ∉ spawned s →
  acquire_started (Some h) (pool s) = (o, P) →
  helper_inv (mkSystem P (l1 ++ match o with Some h => [Holding h] | None => [] end ++ l2)
                (markers s) (cancelled s) ({[h]} ∪ spawned s) (used s)).
Proof.
  intros H E Hh Ht. destruct (moved_distinct _ _ _ _ H E) as [D S]. cbn in D, S.
  pose proof (moved_open _ _ _ _ H E) as O. cbn in O. pose proof (inv_idle _ H) as I. pose proof (inv_limit _ H) as L.
  pose proof (λ h, idle_clean s h H) as Hclean. unfold acquire_started in Ht. cbn in Ht.
  destruct (closed (pool s)) eqn:Ec; injection Ht as <- <-; (eapply move_inv; try done); cbn; rewrite ?Ec; try done.
  - set_solver.
  - set_solver.
  - set_solver.
  - intros _. by apply H.
  - set_solver.
  - intros x ->%list_elem_of_singleton. right. exists h. split; [done|]. by apply unseen_clean.
  - rewrite <- Permutation_middle. constructor; [|done]. intros Hx. by apply Hh, S.
  - intros x. rewrite <- Permutation_middle. intros [->|Hx]%elem_of_cons; [set_solver|]. apply elem_of_union_r. by apply S.
  - intros _. destruct (O eq_refl) as [Ha Hs]. rewrite Hs. split; [|done]. rewrite Ha. by rewrite <- Permutation_cons_append.
  - intros n Hn _. specialize (L n Hn eq_refl). destruct (O eq_refl) as [_ Hs]. rewrite Hs in *. rewrite length_app. cbn in *. lia.
Qed.

Lemma start_failed_inv s l1 l2 o P : helper_inv s → requests s = l1 ++ Starting :: l2 →
  acquire_started None (pool s) = (o, P) →
  helper_inv (mkSystem P (l1 ++ l2) (markers s) (cancelled s) (spawned s) (used s)).
Proof.
  intros H E Ht. destruct (moved_distinct _ _ _ _ H E) as [D S]. cbn in D, S.
  pose proof (moved_open _ _ _ _ H E) as O. cbn in O. pose proof (inv_limit _ H) as L.
  injection Ht as <- <-. apply (move_inv s l1 Starting l2 _ []); try done; cbn.
  - set_solver.
  - intros h Hi. by apply idle_clean.
  - intros Hc. destruct (O Hc) as [Ha ->]. done.
  - apply H.
  - apply H.
  - intros n Hn Hc. specialize (L n Hn Hc). lia.
Qed.

Lemma filter_others (h : helper) (l : list helper) : h ∉ l → filter (λ a, a ≠ h) l = l.
Proof.
  induction l as [|x l IH]; [done|]. rewrite not_elem_of_cons. intros [Hx Hl].
  rewrite filter_cons, decide_True by done. by rewrite IH.
Qed.

Lemma release_inv s l1 l2 h r alive : helper_inv s → requests s = l1 ++ Releasing h r :: l2 →
  helper_inv (mkSystem (release_helper alive h r (pool s)) (l1 ++ l2) (markers s) (cancelled s) (spawned s) (used s)).
Proof.
  intros H E. destruct (moved_distinct _ _ _ _ H E) as [D S]. cbn in D, S.
  pose proof (moved_open _ _ _ _ H E) as O. cbn in O. pose proof (inv_limit _ H) as L.
  set (others := omap held l1 ++ omap held l2) in *.
  assert (closed (pool s) = false → filter (λ a, a ≠ h) (active (pool s)) ≡ₚ others) as Hact.
  { intros Hc. destruct (O Hc) as [-> _]. apply list.NoDup_app in D as (_ & _ & D). apply list.NoDup_cons in D as [D _].
    rewrite filter_cons, decide_False by (intros ?; done). by rewrite filter_others. }
  unfold release_helper. destruct (_ && alive h) eqn:Ek.
  - apply andb_true_iff in Ek as [[[Hr Hc%negb_true_iff]%andb_true_iff Hlen%Nat.ltb_lt]%andb_true_iff _]. subst r.
    apply (move_inv s l1 _ l2 _ [] _ H E); try done; cbn.
    + set_solver.
    + intros x [->|Hx]%elem_of_cons; [by eapply reusable_clean|by apply idle_clean].
    + by rewrite Permutation_middle.
    + intros x Hx. apply S. by rewrite <- Permutation_middle.
    + intros _. destruct (O Hc) as [_ Hs]. split; [by apply Hact|done].
    + by rewrite Hc.
    + intros n Hn _. specialize (L n Hn Hc). rewrite (Hact Hc). destruct (O Hc) as [Ha _]. rewrite Ha in L. cbn in L. lia.
  - apply (move_inv s l1 _ l2 _ [] _ H E); try done; cbn.
    + set_solver.
    + intros x Hx. by apply idle_clean.
    + apply list.NoDup_app in D as (D1 & D2 & D3). apply list.NoDup_cons in D3 as [_ D3]. apply list.NoDup_app.
      split_and!; [done| |done]. intros x Hx Hin. apply (D2 x Hx). by right.
    + intros x Hx. apply S. set_solver.
    + intros Hc. destruct (O Hc) as [_ Hs]. split; [by apply Hact|done].
    + apply H.
    + apply H.
    + intros n Hn Hc. specialize (L n Hn Hc). rewrite (Hact Hc). destruct (O Hc) as [Ha _]. rewrite Ha in L. cbn in L. lia.
Qed.

Lemma helper_step_inv s s' : confirmed = true → helper_inv s → helper_step s s' → helper_inv s'.
Proof.
  intros Hc H Hs. destruct Hs; try congruence; eauto using request_inv, acquire_inv, started_inv, start_failed_inv, publish_inv,
    publish_failed_inv, finish_inv, give_up_inv, release_inv, close_inv, cancel_inv.
Qed.
Lemma helper_steps_inv s s' : confirmed = true → rtc helper_step s s' → helper_inv s → helper_inv s'.
Proof. intros Hc. induction 1; eauto using helper_step_inv. Qed.
End system.

(** The system without its markers.  What becomes of the pool and of the requests does not
    depend on them: each step is then one in which nothing was published. *)
Definition forget (p : phase) : phase := match p with Running h _ => Running h None | q => q end.
Definition without_markers (s : system) : system := mkSystem (pool s) (forget <$> requests s) ∅ ∅ (spawned s) ∅.

Lemma forget_split s l1 p l2 : requests s = l1 ++ p :: l2 →
  requests (without_markers s) = (forget <$> l1) ++ forget p :: (forget <$> l2).
Proof. intros E. cbn. by rewrite E, fmap_app, fmap_cons. Qed.

Lemma without_markers_step limit confirmed s s' :
  helper_step limit confirmed s s' → rtc (helper_step limit true) (without_markers s) (without_markers s').
Proof.
  intros Hs. destruct Hs as [s|s l1 l2 alive t p' E Ht|s l1 l2 h o p' E Hh Ho|s l1 l2 o p' E Ho|s l1 l2 h i E Hi|s l1 l2 h E|
    s l1 l2 h i Hc E Hi|s l1 l2 h m healthy retired m' E Hm|s l1 l2 h i E|s l1 l2 h r alive E|s|s gone];
    try apply forget_split in E as E'; unfold without_markers at 2; cbn [pool requests spawned]; rewrite ?fmap_app, ?fmap_cons.
  - apply rtc_once. apply (step_request limit true (without_markers s)).
  - apply rtc_once. replace (forget <$> after_turn t) with (after_turn t) by by destruct t.
    by eapply (step_acquire limit true (without_markers s)).
  - apply rtc_once. replace (forget <$> match o with Some h => [Holding h] | None => [] end)
      with (match o with Some h => [Holding h] | None => [] end) by by destruct o.
    by eapply (step_started limit true (without_markers s)).
  - apply rtc_once. by eapply (step_start_failed limit true (without_markers s)).
  - apply rtc_once. by eapply (step_publish_failed limit true (without_markers s)).
  - apply rtc_once. by eapply (step_publish_failed limit true (without_markers s)).
  - apply rtc_once. by eapply (step_publish_failed limit true (without_markers s)).
  - apply rtc_once. pose proof (step_finish limit true (without_markers s) _ _ h None (healthy && default false retired)
      (Some true) ∅ E' eq_refl) as Hf. cbn in Hf. by rewrite andb_true_r in Hf.
  - apply rtc_once. exact (step_finish limit true (without_markers s) _ _ h None false (Some true) ∅ E' eq_refl).
  - apply rtc_once. by eapply (step_release limit true (without_markers s)).
  - apply rtc_once. apply (step_close limit true (without_markers s)).
  - done.
Qed.
Lemma without_markers_reach limit confirmed s :
  rtc (helper_step limit confirmed) initial_system s → rtc (helper_step limit true) initial_system (without_markers s).
Proof.
  intros Hs. change initial_system with (without_markers initial_system) at 1.
  induction Hs as [|s1 s2 s3 H _ IH]; [done|]. etrans; [by eapply without_markers_step|exact IH].
Qed.
Lemma without_markers_same s : holders (without_markers s) = holders s ∧ starters (without_markers s) = starters s.
Proof.
  unfold holders, starters. cbn. induction (requests s) as [|p l [IH1 IH2]]; [done|]. split.
  - destruct p; cbn; by rewrite IH1.
  - rewrite fmap_cons, !filter_cons. destruct p; cbn; repeat case_decide; cbn; congruence.
Qed.

(** C34: a pooled helper is free.  However requests for commands, their ends, cancels and
    the stop of the workspace interleave, and whatever publications of markers fail: a helper in
    the pool is used by nobody and is there once, and the pool stays within its bounds: at
    most two idle helpers, and with a limit configured never more helpers, idle, busy and
    starting, than that.  And as long as no publication reports a failure with its marker file in
    place, a pooled helper is named by no marker, so no cancel will kill it, and was killed
    by none.  (Otherwise the marker stays while its helper is pooled:
    [unconfirmed_marker_names_pooled].) *)
Theorem pooled_helpers_are_free limit confirmed s :
  rtc (helper_step limit confirmed) initial_system s →
  NoDup (idle (pool s) ++ holders s) ∧
  (length (idle (pool s)) ≤ IDLE_HELPER_LIMIT)%nat ∧
  (closed (pool s) = true → idle (pool s) = []) ∧
  (∀ n, limit = Some n → closed (pool s) = false →
     (length (idle (pool s)) + length (holders s) + starters s ≤ n)%nat) ∧
  (confirmed = true → ∀ h, h ∈ idle (pool s) → (∀ i, markers s !! i ≠ Some h) ∧ h ∉ cancelled s).
Proof.
  intros Hs. assert (helper_inv limit (without_markers s)) as H
    by (eapply helper_steps_inv; [done|by eapply without_markers_reach|apply initial_inv]).
  destruct (without_markers_same s) as [Hh Hst]. rewrite <- Hh, <- Hst. split; [apply H|]. split; [apply H|].
  split; [apply H|]. split.
  - intros n Hn Hc. destruct (inv_open _ _ H Hc) as [Ha Hp]. pose proof (inv_limit _ _ H n Hn Hc) as Hl.
    by rewrite Ha, Hp in Hl.
  - intros -> h Hi. assert (helper_inv limit s) as H' by (by eapply helper_steps_inv; [| |apply initial_inv]).
    by apply (idle_clean limit).
Qed.

(** A publication that reports a failure with its marker in place strands the marker: the
    command runs without one, its helper goes back to the pool, and a cancel kills the
    helper there, or while it runs another command. *)
Theorem unconfirmed_marker_names_pooled :
  ∃ s h i, rtc (helper_step None false) initial_system s ∧ h ∈ idle (pool s) ∧ markers s !! i = Some h.
Proof.
  set (h := (7, 40)%Z : helper).
  exists (mkSystem (mkPool [h] [] 0 false) [] {[1%nat := h]} ∅ {[h]} {[1%nat]}), h, 1%nat.
  split; [|split; [by left|done]].
  eapply rtc_l; [apply step_request|].
  eapply rtc_l; [by apply (step_acquire _ _ _ [] [] (λ _, true))|].
  eapply rtc_l; [by apply (step_started _ _ _ [] [] h)|].
  eapply rtc_l; [by apply (step_publish_unconfirmed _ _ _ [] [] h 1%nat)|].
  eapply rtc_l; [by apply (step_finish _ _ _ [] [] h None true)|].
  eapply rtc_l; [by apply (step_release _ _ _ [] [] h true (λ _, true))|].
  match goal with |- rtc _ ?a ?b => replace a with b; [done|] end.
  by vm_compute.
Qed.

(** One command runs under a new helper, is cancelled, and its helper is not kept. *)
Lemma pooled_helpers_are_free_witness :
  ∃ s, rtc (helper_step (Some 1%nat) true) initial_system s ∧ (7, 40)%Z ∈ cancelled s ∧ idle (pool s) = [] ∧
    ((7, 40)%Z ∈ idle (pool s) → (7, 40)%Z ∉ cancelled s).
Proof.
  eexists. assert (rtc (helper_step (Some 1%nat) true) initial_system
    (mkSystem new_pool [] ∅ {[(7, 40)%Z]} ({[(7, 40)%Z]} ∪ ∅) ({[0%nat]} ∪ ∅))) as Hs.
  { eapply rtc_l; [apply step_request|].
    eapply rtc_l; [by apply (step_acquire _ _ _ [] [] (λ _, true))|].
    eapply rtc_l; [by apply (step_started _ _ _ [] [] (7, 40)%Z)|].
    eapply rtc_l; [by apply (step_publish _ _ _ [] [] (7, 40)%Z 0)|].
    eapply rtc_l; [apply (step_cancel _ _ _ {[0%nat]})|].
    eapply rtc_l; [by apply (step_finish _ _ _ [] [] (7, 40)%Z (Some 0%nat) true)|].
    eapply rtc_l; [by apply (step_release _ _ _ [] [] (7, 40)%Z false (λ _, true))|].
    vm_compute. apply rtc_refl. }
  split; [exact Hs|]. destruct (pooled_helpers_are_free (Some 1%nat) true _ Hs) as (_ & _ & _ & _ & Hidle).
  split; [cbn; set_solver|]. split; [done|]. intros Hi. by apply (Hidle eq_refl).
Defined.
