(* ===== verification/Cancel.v ===== *)
(** * Cancelling commands (src/src/workspace/cancel.rs)

    A running command is named by a marker file that holds the pid and the start time of
    its helper.  A cancel runs under the workspace's cancel lock: it reads and validates
    every marker, kills the process groups they name, waits for them to be gone, and
    removes the markers. *)
From S2P Require Import Prelude RustStr Sessions ProcFs.
#[local] Open Scope Z_scope.

(** The marker files by name, next to the run of the request. *)
Abbreviation cancel_state := (trace * gmap string string)%type.
Definition on_trace {A} (m : stm trace A) : stm cancel_state A := λ st, let '(r, t) := m st.1 in (r, (t, st.2)).

(** ** Markers *)

Definition marker_text (helper_pid starttime_ticks : Z) : string :=
  print_uint helper_pid +:+ " " +:+ print_uint starttime_ticks +:+ String "010" "".

(** [publish_command_marker], with the new id of the command. *)
Definition publish_command_marker (written : bool) (path : string) (helper_pid starttime_ticks : Z)
    : stm cancel_state (string * string) :=
  assert written "failed to write marker";;
  modify (λ st, (st.1, <[path := marker_text helper_pid starttime_ticks]> st.2));;
  mret (path, marker_text helper_pid starttime_ticks).

(** [finish_command_marker]: whether the marker was still there to retire. *)
Definition finish_command_marker (removed : bool) (marker : string * string) : stm cancel_state bool :=
  st ← get;
  match st.2 !! marker.1 with
  | None => mret false
  | Some current =>
      if negb (bool_decide (current = marker.2)) then throw "command marker changed while the command ran"
      else
        assert removed "failed to remove marker";;
        modify (λ st, (st.1, delete marker.1 st.2));;
        mret true
  end.

Definition parse_identity (raw : string) : result (Z * Z) :=
  match split_whitespace raw with
  | [] => bail "missing helper pid"
  | p :: rest =>
      pid ← ok_or (parse_uint 4294967295 p) (plain "invalid helper pid");
      match rest with
      | [] => bail "missing helper start time"
      | t :: rest =>
          ticks ← ok_or (parse_uint u64_max t) (plain "invalid helper start time");
          match rest with [] => Ok (pid, ticks) | _ => bail "unexpected extra field" end
      end
  end.

(** [as i32] of a [u32]. *)
Definition as_i32 (x : Z) : Z := if x <? 2147483648 then x else x - 4294967296.

Record LockedCommandMarker := mkLocked {
  marker_path : string;
  marker_raw : string;
  helper_pid : Z;
  helper_starttime_ticks : Z;
  live : bool }.

Record CancelOutcome := mkOutcome { cancelled : bool; already_finished : bool }.

Section cancel.
Context (h : process_host).

Definition validate_identity (pid ticks : Z) : stm trace unit :=
  if pid <=? 1 then throw "refusing to signal pid"
  else
    o ← observe h pid;
    if match o with Some p => negb (proc_ticks p =? ticks) | None => false end
    then throw "refusing to signal pid: it changed identity"
    else
      alive ← process_matches h (pid, Some ticks);
      if alive : bool then
        o ← observe h pid;
        group ← lift (ok_or (o ≫= proc_group) (plain "failed to inspect helper process group"));
        assert (group =? as_i32 pid) "refusing to cancel helper: not the leader of its process group"
      else mret tt.

(** [process_group_has_members]: entries that cannot be read are skipped. *)
Fixpoint any_member (pgid : Z) (entries : list (option string)) : stm trace bool :=
  match entries with
  | [] => mret false
  | None :: rest => any_member pgid rest
  | Some name :: rest =>
      match parse_uint 4294967295 name with
      | None => any_member pgid rest
      | Some pid =>
          g ← observe h pid;
          if negb (bool_decide (g ≫= proc_group = Some pgid)) then any_member pgid rest
          else
            o ← observe h pid;
            if match o with Some p => has_exited p | None => true end then any_member pgid rest else mret true
      end
  end.
Definition process_group_has_members (pgid ticks : Z) : stm trace bool :=
  if pgid <=? 1 then mret false
  else
    o ← observe h pgid;
    if match o with Some p => negb (proc_ticks p =? ticks) | None => false end then mret false
    else
      st ← get;
      match proc_dir h (clock st) with None => mret false | Some entries => any_member pgid entries end.

Definition marker_is_live_values (pid ticks : Z) : stm trace bool :=
  alive ← process_matches h (pid, Some ticks);
  if alive : bool then mret true else process_group_has_members (as_i32 pid) ticks.

(** [listed]: the marker directory could be read; [readable]: a marker could be opened,
    locked and read. *)
Context (listed : bool) (readable : string → bool).

Fixpoint lock_each (files : list (string * string)) : stm trace (list LockedCommandMarker) :=
  match files with
  | [] => mret []
  | (path, raw) :: rest =>
      assert (readable path) "failed to read marker";;
      identity ← lift (parse_identity raw);
      validate_identity identity.1 identity.2;;
      alive ← marker_is_live_values identity.1 identity.2;
      markers ← lock_each rest;
      mret (mkLocked path raw identity.1 identity.2 alive :: markers)
  end.

Definition lock_command_markers (files : list (string * string)) : stm trace (list LockedCommandMarker) :=
  assert listed "failed to read the marker directory";;
  lock_each files.

Fixpoint signal_markers (markers : list LockedCommandMarker) : stm trace unit :=
  match markers with
  | [] => mret tt
  | m :: rest =>
      (if live m then signal_process_group h (helper_pid m) (Some (helper_starttime_ticks m)) (as_i32 (helper_pid m)) SIGKILL
       else mret tt);;
      signal_markers rest
  end.

Fixpoint any_live (markers : list LockedCommandMarker) : stm trace bool :=
  match markers with
  | [] => mret false
  | m :: rest =>
      alive ← (if live m then marker_is_live_values (helper_pid m) (helper_starttime_ticks m) else mret false);
      if alive : bool then mret true else any_live rest
  end.
(** [polls] is how often the groups are looked at before the deadline. *)
Fixpoint confirm_gone (polls : nat) (markers : list LockedCommandMarker) : stm trace unit :=
  alive ← any_live markers;
  if negb alive then mret tt
  else match polls with O => throw "command process group survived SIGKILL" | S n => confirm_gone n markers end.

(** [remove_marker_if_unchanged]; a removal that fails is ignored. *)
Definition remove_marker (removes : string → bool) (m : LockedCommandMarker) (files : gmap string string) : gmap string string :=
  if bool_decide (files !! marker_path m = Some (marker_raw m)) && removes (marker_path m)
  then delete (marker_path m) files else files.

Definition cancel_locked (polls : nat) (removes : string → bool) : stm cancel_state CancelOutcome :=
  st ← get;
  markers ← on_trace (lock_command_markers (btree_list st.2));
  if bool_decide (markers = []) then mret (mkOutcome false true)
  else
    let any := existsb live markers in
    (if any then on_trace (signal_markers markers);; on_trace (confirm_gone polls markers) else mret tt);;
    modify (λ st, (st.1, foldr (remove_marker removes) st.2 markers));;
    mret (mkOutcome any (negb any)).
End cancel.

(** * What a cancel does *)

Section looking.
Context (h : process_host) (listed : bool) (readable : string → bool).

Lemma quiet_validate pid ticks : quiet (validate_identity h pid ticks).
Proof. unfold validate_identity. looks. Qed.
Lemma quiet_any_member pgid entries : quiet (any_member h pgid entries).
Proof. induction entries as [|[name|] entries IH]; cbn [any_member]; looks; done. Qed.
Lemma quiet_live pid ticks : quiet (marker_is_live_values h pid ticks).
Proof. unfold marker_is_live_values, process_group_has_members. looks; apply quiet_any_member. Qed.
Lemma quiet_lock files : quiet (lock_command_markers h listed readable files).
Proof.
  apply quiet_bind; [apply quiet_assert|intros _].
  induction files as [|[path raw] files IH]; cbn [lock_each]; [apply quiet_ret|].
  repeat (apply quiet_bind; [first [apply quiet_assert|apply quiet_lift|apply quiet_validate|apply quiet_live|done]|intros]).
  apply quiet_ret.
Qed.
Lemma quiet_any markers : quiet (any_live h markers).
Proof.
  induction markers as [|m markers IH]; cbn; [apply quiet_ret|].
  apply quiet_bind; [destruct (live m); [apply quiet_live|apply quiet_ret]|]. intros [|]; [apply quiet_ret|done].
Qed.
Lemma quiet_confirm polls markers : quiet (confirm_gone h polls markers).
Proof.
  induction polls as [|n IH]; cbn; (apply quiet_bind; [apply quiet_any|]); intros [|]; cbn;
    [apply quiet_throw|apply quiet_ret|done|apply quiet_ret].
Qed.

(** The markers that were locked are the files, each with a valid identity. *)
Lemma lock_Ok files st markers st' : lock_command_markers h listed readable files st = (Ok markers, st') →
  Forall2 (λ f m, marker_path m = f.1 ∧ marker_raw m = f.2 ∧
    parse_identity f.2 = Ok (helper_pid m, helper_starttime_ticks m) ∧ 1 < helper_pid m) files markers.
Proof.
  intros (u & st0 & _ & H)%stm_bind_Ok. revert st0 markers st' H.
  induction files as [|[path raw] files IH]; intros st0 markers st' H; cbn in H.
  { apply mret_Ok in H as [-> _]. constructor. }
  apply stm_bind_Ok in H as (u' & st1' & _ & H).
  apply stm_bind_Ok in H as ([pid ticks] & st1 & H1 & H). apply lift_Ok in H1 as [Hp ->].
  apply stm_bind_Ok in H as (u2 & st2 & H2 & H). apply stm_bind_Ok in H as (alive & st3 & H3 & H).
  apply stm_bind_Ok in H as (rest & st4 & H4 & H). apply mret_Ok in H as [-> _]. constructor; [|by eapply IH].
  split; [done|]. split; [done|]. split; [done|]. cbn. cbn in H2. unfold validate_identity in H2.
  destruct (Z.leb_spec pid 1); [by apply throw_Ok in H2|done].
Qed.

(** A group was killed because this marker named it. *)
Definition killed_for (lo : nat) (markers : list LockedCommandMarker) (k : nat) (pid s : Z) : Prop :=
  s = SIGKILL ∧ ∃ m, m ∈ markers ∧
    ((pid = - helper_pid m ∧ ∃ i, (lo ≤ i < k)%nat ∧
        matches_record (Some (helper_starttime_ticks m)) (table h i (helper_pid m)) = true) ∨
     (∃ i, (lo ≤ i < k)%nat ∧ leader_gone (Some (helper_starttime_ticks m)) (table h i (helper_pid m))) ∧
     member_seen h lo (helper_pid m) k pid).

Lemma signal_group_clock leader ticks pgid signal st :
  (clock st ≤ clock (signal_process_group h leader ticks pgid signal st).2)%nat.
Proof.
  unfold signal_process_group. destruct (_ || _); [cbn; lia|]. destruct ticks as [ticks|]; [|cbn; lia].
  unfold process_matches, observe, get, lift, mbind, stm_bind, mret, stm_ret. cbn [fst snd clock sent].
  destruct (matches_record _ _).
  - unfold send_signal, modify, mbind, stm_bind, assert. destruct (may_signal _ _ _); cbn; lia.
  - unfold assert. match goal with |- context [if ?b then mret () else _] => destruct b end; [|cbn; lia].
    unfold mret, stm_ret.
    destruct (quiet_members h pgid (mkTrace (S (S (clock st))) (sent st) (killed st))) as [Hq Hc]. cbn [clock sent] in Hq, Hc.
    destruct (live_process_group_members h pgid _) as [[members|e] st1]; cbn [snd] in *; [|lia].
    destruct (for_members_only h (clock st) pgid signal (sent st1) members st1) as [Hc' _];
      [split; [lia|by left]|done].
Qed.

Lemma signal_markers_sent lo all markers st : markers ⊆ all → Forall (λ m, 1 < helper_pid m) markers → (lo ≤ clock st)%nat →
  let st' := (signal_markers h markers st).2 in
  (lo ≤ clock st')%nat ∧ ∀ k pid s, (k, (pid, s)) ∈ sent st' → (k, (pid, s)) ∈ sent st ∨ killed_for lo all k pid s.
Proof.
  revert st. induction markers as [|m markers IH]; intros st Hsub Hpid Hlo; [by split; [|by left]|].
  apply list.Forall_cons in Hpid as [Hm Hpid]. cbn [signal_markers].
  set (act := if live m then _ else _).
  assert ((lo ≤ clock (act st).2)%nat ∧
    ∀ k pid s, (k, (pid, s)) ∈ sent (act st).2 → (k, (pid, s)) ∈ sent st ∨ killed_for lo all k pid s) as [Hc Hs].
  { unfold act. destruct (live m); [|by split; [|by left]].
    split; [etrans; [exact Hlo|apply signal_group_clock]|]. intros k pid s.
    intros [?|(-> & _ & Hpg & _ & H)]%signal_process_group_sent; [by left|]. right. rewrite <- Hpg in H.
    split; [done|]. exists m. split; [apply Hsub; by left|]. destruct H as [[-> (i & Hi & Hmr)]|[(i & Hi & Hg) H]].
    - left. split; [done|]. exists i. split; [lia|done].
    - right. split; [exists i; split; [lia|done]|by eapply member_seen_weaken]. }
  unfold mbind, stm_bind. destruct (act st) as [[u|e] st1]; cbn [snd] in *; [|by split].
  destruct (IH st1) as [Hc' Hs']; [set_solver|done|done|]. split; [done|]. intros k pid s Hin.
  apply Hs' in Hin as [Hin|]; [by apply Hs in Hin|by right].
Qed.
End looking.

Lemma on_trace_result {A} (m : stm trace A) st : on_trace m st = ((m st.1).1, ((m st.1).2, st.2)).
Proof. unfold on_trace. by destruct (m st.1). Qed.

Lemma remove_markers_incl removes markers files path raw :
  foldr (remove_marker removes) files markers !! path = Some raw → files !! path = Some raw.
Proof.
  induction markers as [|m markers IH]; cbn; [done|]. unfold remove_marker at 1.
  destruct (_ && _); [|done]. rewrite lookup_delete_Some. intros [_ ?]. auto.
Qed.

(** The cancel once its markers are locked. *)
Definition cancel_markers (h : process_host) (polls : nat) (markers : list LockedCommandMarker) : stm trace unit :=
  if existsb live markers then signal_markers h markers;; confirm_gone h polls markers else mret tt.

Lemma cancel_markers_sent h polls lo markers st : Forall (λ m, 1 < helper_pid m) markers → (lo ≤ clock st)%nat → sent st = [] →
  ∀ k pid s, (k, (pid, s)) ∈ sent (cancel_markers h polls markers st).2 → killed_for h lo markers k pid s.
Proof.
  intros Hpid Hlo Hnil k pid s. unfold cancel_markers. destruct (existsb live markers); [|cbn; rewrite Hnil; by intros ?%not_elem_of_nil].
  destruct (signal_markers_sent h lo markers markers st ltac:(done) Hpid Hlo) as [_ Hs]. unfold mbind, stm_bind.
  destruct (signal_markers h markers st) as [[u|e] st1]; cbn [snd] in *.
  - destruct (quiet_confirm h polls markers st1) as [-> _]. intros [Hin|?]%Hs; [|done]. rewrite Hnil in Hin. by apply not_elem_of_nil in Hin.
  - intros [Hin|?]%Hs; [|done]. rewrite Hnil in Hin. by apply not_elem_of_nil in Hin.
Qed.

Lemma cancel_locked_cases h listed readable polls removes t files :
  let lock := lock_command_markers h listed readable (btree_list files) t in
  match lock.1 with
  | Err e => cancel_locked h listed readable polls removes (t, files) = (Err e, (lock.2, files))
  | Ok markers =>
      let run := cancel_markers h polls markers lock.2 in
      (markers = [] ∧ cancel_locked h listed readable polls removes (t, files) = (Ok (mkOutcome false true), (lock.2, files))) ∨
      match run.1 with
      | Err e => cancel_locked h listed readable polls removes (t, files) = (Err e, (run.2, files))
      | Ok _ => ∃ o, cancel_locked h listed readable polls removes (t, files) = (Ok o, (run.2, foldr (remove_marker removes) files markers))
      end
  end.
Proof.
  cbv zeta. unfold cancel_locked, get, mbind, stm_bind. cbn [fst snd]. rewrite on_trace_result. cbn [fst snd].
  destruct (lock_command_markers h listed readable (btree_list files) t) as [[markers|e] t1]; cbn [fst snd]; [|done].
  case_bool_decide as Hm; [by left|]. right. unfold cancel_markers. destruct (existsb live markers).
  - unfold mbind, stm_bind. rewrite on_trace_result. cbn [fst snd].
    destruct (signal_markers h markers t1) as [[u|e] t2]; cbn [fst snd]; [|done]. rewrite on_trace_result. cbn [fst snd].
    destruct (confirm_gone h polls markers t2) as [[u2|e] t3]; cbn [fst snd]; [|done]. by eexists.
  - cbn. by eexists.
Qed.

(** C33: a cancel kills only the helpers its markers name, and validates all of them
    first.  Every signal is a kill for a marker file of the workspace, sent to the group
    of a helper seen alive under the recorded start time, or, when the helper itself was
    seen gone, to a process seen alive in the group of that number; if any marker cannot be parsed, nothing is signalled and every marker is kept;
    a cancel that fails keeps the markers, and none is ever changed or added. *)
Theorem cancel_kills_named_helpers h listed readable polls removes lo files res st' :
  cancel_locked h listed readable polls removes (mkTrace lo [] [], files) = (res, st') →
  (∀ k pid s, (k, (pid, s)) ∈ sent st'.1 → s = SIGKILL ∧
     ∃ path raw leader ticks, files !! path = Some raw ∧ parse_identity raw = Ok (leader, ticks) ∧ 1 < leader ∧
       ((pid = - leader ∧ ∃ i, (lo ≤ i < k)%nat ∧ matches_record (Some ticks) (table h i leader) = true) ∨
        (∃ i, (lo ≤ i < k)%nat ∧ leader_gone (Some ticks) (table h i leader)) ∧ member_seen h lo leader k pid)) ∧
  ((∃ path raw, files !! path = Some raw ∧ is_ok (parse_identity raw) = false) →
     sent st'.1 = [] ∧ st'.2 = files ∧ is_ok res = false) ∧
  (is_ok res = false → st'.2 = files) ∧
  (∀ path raw, st'.2 !! path = Some raw → files !! path = Some raw).
Proof.
  intros H. pose proof (cancel_locked_cases h listed readable polls removes (mkTrace lo [] []) files) as Hc. cbv zeta in Hc.
  destruct (quiet_lock h listed readable (btree_list files) (mkTrace lo [] [])) as [Hsent Hclock]. cbn [sent clock] in Hsent, Hclock.
  destruct (lock_command_markers h listed readable (btree_list files) (mkTrace lo [] [])) as [[markers|e] t1] eqn:El; cbn [fst snd] in *.
  2:{ rewrite Hc in H. injection H as <- <-. cbn. rewrite Hsent. split_and!; try done. by intros ? ? ? ?%not_elem_of_nil. }
  apply lock_Ok in El. assert (Forall (λ m, 1 < helper_pid m) markers) as Hpid.
  { apply list.Forall_forall. intros m Hm. apply list_elem_of_lookup in Hm as [i Hi].
    destruct (Forall2_lookup_r _ _ _ _ _ El Hi) as (f & _ & _ & _ & _ & ?). done. }
  assert (¬ ∃ path raw, files !! path = Some raw ∧ is_ok (parse_identity raw) = false) as Hgood.
  { intros (path & raw & Hf%elem_of_btree_list & Hbad). apply list_elem_of_lookup in Hf as [i Hi].
    destruct (Forall2_lookup_l _ _ _ _ _ El Hi) as (m & _ & _ & _ & Hp & _). cbn in Hp. by rewrite Hp in Hbad. }
  assert (∀ k pid s, killed_for h lo markers k pid s → s = SIGKILL ∧
     ∃ path raw leader ticks, files !! path = Some raw ∧ parse_identity raw = Ok (leader, ticks) ∧ 1 < leader ∧
       ((pid = - leader ∧ ∃ i, (lo ≤ i < k)%nat ∧ matches_record (Some ticks) (table h i leader) = true) ∨
        (∃ i, (lo ≤ i < k)%nat ∧ leader_gone (Some ticks) (table h i leader)) ∧ member_seen h lo leader k pid)) as Hkilled.
  { intros k pid s (-> & m & Hm & Hk). split; [done|]. apply list_elem_of_lookup in Hm as [i Hi].
    destruct (Forall2_lookup_r _ _ _ _ _ El Hi) as ([path raw] & Hf & _ & _ & Hp & Hgt). cbn in Hp.
    apply list_elem_of_lookup_2, elem_of_btree_list in Hf. by exists path, raw, (helper_pid m), (helper_starttime_ticks m). }
  pose proof (cancel_markers_sent h polls lo markers t1 Hpid Hclock Hsent) as Hrun.
  destruct Hc as [[-> Hc]|Hc].
  { rewrite Hc in H. injection H as <- <-. cbn. rewrite Hsent. split_and!; try done. by intros ? ? ? ?%not_elem_of_nil. }
  destruct (cancel_markers h polls markers t1) as [[u|e] t2]; cbn [fst snd] in *.
  - destruct Hc as [o Hc]. rewrite Hc in H. injection H as <- <-. cbn [fst snd]. split_and!; [by eauto|done|done|].
    intros path raw. apply remove_markers_incl.
  - rewrite Hc in H. injection H as <- <-. cbn [fst snd]. split_and!; [by eauto|done|done|done].
Qed.

Lemma cancel_kills_named_helpers_witness :
  ∃ st', cancel_locked sample_host true (λ _, true) 9 (λ _, true) (mkTrace 0 [] [], {["m" := marker_text 7 40]}) = (Ok (mkOutcome true false), st') ∧
    st'.2 = ∅ ∧ (∃ k, (k, (-7, SIGKILL)) ∈ sent st'.1) ∧
    ∀ k pid s, (k, (pid, s)) ∈ sent st'.1 → s = SIGKILL.
Proof.
  destruct (cancel_locked sample_host true (λ _, true) 9 (λ _, true) (mkTrace 0 [] [], {["m" := marker_text 7 40]})) as [res st'] eqn:E.
  pose proof (cancel_kills_named_helpers _ _ _ _ _ _ _ _ _ E) as [H _]. vm_compute in E. injection E as <- <-.
  eexists. split; [reflexivity|]. split; [reflexivity|]. split; [|intros k pid s Hin; by apply H in Hin as [-> _]].
  eexists. cbn. by left.
Defined.

(** A marker says what was published. *)
Lemma marker_roundtrip pid ticks : 0 ≤ pid ≤ 4294967295 → 0 ≤ ticks ≤ u64_max →
  parse_identity (marker_text pid ticks) = Ok (pid, ticks).
Proof.
  intros Hp Ht. unfold parse_identity, marker_text.
  assert (∀ n, word (print_uint n) = true) as Hw.
  { intros n. unfold word. rewrite andb_true_iff, negb_true_iff, bool_decide_eq_false. split; [|apply print_uint_not_empty].
    eapply str_all_impl; [|apply print_uint_digits]. by_byte. }
  pose proof (split_unwords_line [print_uint pid; print_uint ticks]) as Hs. cbn [unwords] in Hs.
  rewrite str_app_assoc in Hs. cbn [String.append] in Hs. change (" " +:+ print_uint ticks +:+ String "010" "") with
    (String " " (print_uint ticks +:+ String "010" "")). rewrite Hs by (repeat constructor; apply Hw).
  cbn [mbind result_bind]. by rewrite !parse_print_uint by done.
Qed.
