(* ===== verification/Lifecycle.v ===== *)
(** * The whole lifecycle

    Every request that changes the registry's records, as one relation, and what
    holds of the registry after any sequence of them.  The transactions of one
    request are separated by whatever other requests did ([before]); the
    relation asks of those only that they were steps of the fleet themselves,
    which is what the theorem shows of each request.  In the strict reading it
    also asks that nobody reserves another address for a workspace while it is
    being started, which the leases see to for every request but
    [workspace.start_many]. *)
From S2P Require Import FileTree Snapshots.
From S2P Require Import Prelude Ipam Ports Types Registry Records Fleet Start Stop Update Sandbox Teardown Activity Sweeper.
Open Scope Z_scope.

(** A snapshot restore, as far as the records and the sessions go; [d] is the disk it
    finds. *)
Definition restored (f : faults) (shuffle : list (string * node) → list (string * node)) (fresh : files)
    (within : path → bool) (t : txn_host) (session : stop_answer) (hs : stop_host) (sb ws nm : string) (d : disk)
    (st : world) : world :=
  let '(_, (r, (host, _))) :=
    restore_workspace_snapshot f shuffle fresh within (reachable t) (saved t) session hs sb ws nm
      ((before t st).1, ((before t st).2, d)) in (r, host).

Inductive lifecycle_op {M : Mode} (st : world) : world → Prop :=
  | op_start h sb ws :
      start_env h sb ws st → lifecycle_op st (start_workspace_with_security h sb ws st).2
  | op_stop h sb ws :
      stop_env h → lifecycle_op st (stop_workspace_with_certificate h sb ws st).2
  | op_stop_batch h selector :
      batch_env h → lifecycle_op st (stop_running_workspaces_in_sandbox h selector st).2
  | op_destroy read journal succeed host mode sb ws :
      env_safe read → (∀ n, attempt_env (host n)) →
      lifecycle_op st (destroy_workspace_with_mode read journal succeed host mode sb ws st).2
  | op_create h sb nm o :
      create_env h → lifecycle_op st (create_workspace_with_options h sb nm o st).2
  | op_update t storage persist sb ws u :
      env_safe t → lifecycle_op st (update_workspace_definition t storage persist sb ws u st).2
  | op_resize h sb ws disk memory :
      Forall env_safe [rh_plan h; rh_memory h; rh_mark h; rh_stopped h; rh_disk h; rh_reread h;
        rh_reserve h; rh_commit h; rh_rollback h] →
      (∀ image, rh_image h = Some image → 0 ≤ image.2) →
      (∀ p, strict = true → read_resize_plan sb ws (before (rh_plan h) st).1 = Ok p →
         keeps_reservation (plan_sandbox_id p) (plan_workspace_id p) (rh_commit h)) →
      lifecycle_op st (resize_workspace_with_security h sb ws disk memory st).2
  | op_create_sandbox h nm su mi method l :
      (∀ budget, sb_disk_bytes l = Some budget → 0 ≤ budget) → env_safe (sc_commit h) →
      lifecycle_op st (create_sandbox_with_options h nm su mi method l st).2
  | op_sandbox_limits t persist selector u :
      env_safe t → lifecycle_op st (write_txn t (update_sandbox_limits persist selector u) st).2
  | op_start_sandbox h selector :
      Forall env_safe [ss_mark h; ss_commit h; ss_rollback h] → lifecycle_op st (start_sandbox h selector st).2
  | op_stop_sandbox h selector :
      Forall env_safe [sp_mark h; sp_read h; sp_commit h] → lifecycle_op st (stop_sandbox h selector st).2
  | op_pause h selector :
      Forall env_safe [fz_read h; fz_commit h] → lifecycle_op st (pause_sandbox h selector st).2
  | op_resume h selector :
      Forall env_safe [fz_read h; fz_commit h] → lifecycle_op st (resume_sandbox h selector st).2
  | op_destroy_all read host mode :
      env_safe read → (∀ sid wid n, attempt_env (host sid wid n)) →
      lifecycle_op st (destroy_all_workspaces read host mode st).2
  | op_destroy_sandbox h selector mode :
      sandbox_destroy_env h → lifecycle_op st (destroy_sandbox_with_mode h selector mode st).2
  | op_reconcile h t host :
      env_safe (sh_read h) → (∀ sid, env_safe (sh_write h sid)) → env_safe t →
      lifecycle_op st (reconcile_runtime_state h t host st).2
  | op_sweep parse policy now h a :
      sweep_env h → lifecycle_op st (sweep_at parse policy now h (st, a)).2.1
  | op_restore f shuffle fresh within t session hs sb ws nm d :
      env_safe t → lifecycle_op st (restored f shuffle fresh within t session hs sb ws nm d st)
  | op_touch t persist stamp kind sid wid :
      env_safe t → lifecycle_op st (write_txn t (touch persist stamp kind sid wid) st).2
  | op_touch_registry t stamp kind sid wid :
      env_safe t → lifecycle_op st (write_txn t (touch_registry_only stamp kind sid wid) st).2.

#[export] Hint Resolve start_workspace_steps stop_workspace_safe destroy_workspace_safe create_workspace_safe
  update_definition_safe resize_steps create_sandbox_safe start_sandbox_safe stop_sandbox_safe
  freeze_transition_safe reconcile_runtime_state_safe stop_batch_safe destroy_sandbox_safe destroy_all_safe : enclave.

Lemma on_world_Ok {A} (m : stm world A) st a st' :
  Snapshots.on_world m st = (Ok a, st') → m (st.1, st.2.1) = (Ok a, (st'.1, st'.2.1)).
Proof. unfold Snapshots.on_world. destruct (m _) as [r [reg host]]. by intros [= -> <-]. Qed.

Lemma restored_steps {M : Mode} f shuffle fresh within t session hs sb ws nm d st :
  env_safe t → fleet_ok st.1 → rtc fleet_step st.1 (restored f shuffle fresh within t session hs sb ws nm d st).1.
Proof.
  intros Ht Hok. etrans; [by apply Ht|].
  assert (fleet_ok (before t st).1) as Hok1 by by eapply fleet_steps_ok; [apply Ht|].
  unfold restored. generalize dependent (before t st). intros [r host] Hok1. cbn [fst snd] in *.
  unfold restore_workspace_snapshot, transact. destruct (reachable t); cbn [negb]; [|done].
  match goal with |- context [ ?op (r, (host, d)) ] => destruct (op (r, (host, d))) as [[w|e] [r1 [host1 d1]]] eqn:E end;
    [|done].
  assert (rtc fleet_step r r1) as Hs.
  2:{ destruct (negb _); [done|]. destruct (saved t); [done|..]; cbn; (etrans; [exact Hs|]); apply rtc_once; by apply step_same. }
  apply stm_bind_Ok in E as (r0 & st1 & E0 & E). apply get_Ok in E0 as [-> ->].
  apply stm_bind_Ok in E as ([[[sid wid] e] w0] & st1 & E0 & E). apply lift_Ok in E0 as [_ ->].
  apply stm_bind_Ok in E as (u & st1 & E0 & E). apply lift_Ok in E0 as [_ ->].
  apply stm_bind_Ok in E as (u1 & st1 & E1 & E). apply stm_bind_Ok in E as (u2 & st2 & E2 & E).
  apply on_world_Ok, get_workspace_Ok in E as [E _].
  assert (st2.1 = st1.1) as Hd by (unfold on_snapshots in E2; destruct (restore_snapshot_filesystem _ _ _ _ _ _ _);
    by injection E2 as _ <-).
  injection E as -> _. rewrite Hd. clear E2 Hd. destruct (may_have_runtime (status w0)); [|by apply mret_Ok in E1 as [_ ->]].
  apply stm_bind_Ok in E1 as (u3 & st3 & E3 & E1). apply on_world_Ok in E1.
  assert (st3.1 = r) as Hr.
  { destruct (runtime_pid w0) as [p|]; [|by apply mret_Ok in E3 as [_ ->]]. apply on_world_Ok in E3.
    pose proof (stop_session_registry session p (r, host)) as Hr. cbn in E3; by rewrite E3 in Hr. }
  rewrite <- Hr. apply (set_workspace_stopped_refines hs sid wid _ _ _ E1). by cbn; rewrite Hr.
Qed.

(** Each request is a sequence of the steps the fleet allows. *)
Lemma lifecycle_op_steps {M : Mode} st st' : lifecycle_op st st' → fleet_ok st.1 → rtc fleet_step st.1 st'.1.
Proof.
  intros H Hok. destruct H; unfold pause_sandbox, resume_sandbox;
    match goal with
    | |- rtc _ _ (start_workspace_with_security _ _ _ _).2.1 => by apply start_workspace_steps
    | |- rtc _ _ (resize_workspace_with_security _ _ _ _ _ _).2.1 => by apply resize_steps
    | |- rtc _ _ (sweep_at ?p ?q ?n ?h (?st, ?a)).2.1.1 => by apply (sweep_at_safe p q n h H (st, a))
    | |- rtc _ _ (restored _ _ _ _ _ _ _ _ _ _ _ _).1 => by apply restored_steps
    | |- rtc _ _ (?m _).2.1 => enough (fleet_safe m) as Hs by (by apply Hs); auto with enclave
    end.
Qed.

Lemma lifecycle_ok {M : Mode} st st' : rtc lifecycle_op st st' → fleet_ok st.1 → fleet_ok st'.1.
Proof.
  induction 1 as [|st1 st2 st3 H _ IH]; [done|]. intros Hok. apply IH.
  by eapply fleet_steps_ok; [apply lifecycle_op_steps|].
Qed.

(** C1: from an empty registry, whatever requests run, in whatever order,
    interleaved in whatever way, failed ones included, at every point: a record
    is stored under its own id; no sandbox has two workspaces of one name; and
    the disk its workspaces are allocated is within the sandbox's budget.  If
    moreover nobody reserves another address for a workspace while it is being
    started, no two workspaces of the fleet hold one address.  The requests are
    all those that change the records, but for the repair, which replaces the
    registry by what the directories say. *)
Theorem lifecycle_keeps_fleet (no_second_start : bool) st st' :
  st.1 = default_registry → rtc (lifecycle_op (M := no_second_start)) st st' →
  (∀ sid e, sandboxes st'.1 !! sid = Some e → sb_id (metadata e) = sid ∧
     (∀ wid w, workspaces e !! wid = Some w → id w = wid) ∧
     (∀ wid1 wid2 w1 w2, workspaces e !! wid1 = Some w1 → workspaces e !! wid2 = Some w2 →
        name w1 = name w2 → wid1 = wid2) ∧
     (∀ budget, sb_disk_bytes (sb_limits (metadata e)) = Some budget →
        sandbox_workspace_disk_bytes e ≤ budget)) ∧
  (no_second_start = true → ∀ sid1 wid1 sid2 wid2 w1 w2 o,
     find_workspace st'.1 sid1 wid1 = Some w1 → find_workspace st'.1 sid2 wid2 = Some w2 →
     octet_of w1 = Some o → octet_of w2 = Some o → sid1 = sid2 ∧ wid1 = wid2).
Proof.
  intros H0 Hrun. assert (fleet_ok (M := no_second_start) st'.1) as [H1 H2 H3 H4 H5 H6].
  { eapply (lifecycle_ok (M := no_second_start)); [done|]. rewrite H0. apply fleet_ok_default. }
  split; [|intros Hs sid1 wid1 sid2 wid2 w1 w2 o; by apply H6]. intros sid e He. split_and!; eauto. by eapply H2.
Qed.

(** A first session: a sandbox is created and started, two workspaces are created
    in it and both are started. *)
Definition sample_create_sandbox : sandbox_create_host :=
  mkSbCreate true true "/state" "1" true (Some None) true true "2024-01-01T00:00:00Z" true sample_txn.
Definition sample_start_sandbox : sandbox_start_host :=
  mkSbStart true true sample_txn true true true true sample_txn true sample_txn true true true true.
Definition sample_create (random : string) : create_host :=
  mkCreateHost None None sample_txn random (Some ("/state/sandboxes/dev-1/workspaces/" +:+ random)) true (Some None)
    "2024-01-01T00:00:00Z" "2024-01-01T00:00:00Z" true true sample_txn.
Definition sample_options : WorkspaceCreateOptions :=
  mkCreate (mkWsLimits None None None None None (Some MIN_DISK_BYTES)) None [] None [] [] false false None None.

Definition sample_session : world :=
  let st := (default_registry, mkHost ∅ ∅ ∅) in
  let st := (create_sandbox_with_options sample_create_sandbox "dev" "bookworm" "http://deb.debian.org/debian"
               CachedRootfs (mkSbLimits None None None (Some (2 * MIN_DISK_BYTES)) None) st).2 in
  let st := (start_sandbox sample_start_sandbox "dev" st).2 in
  let st := (create_workspace_with_options (sample_create "2") "dev" "web" sample_options st).2 in
  let st := (create_workspace_with_options (sample_create "3") "dev" "db" sample_options st).2 in
  let st := (start_workspace_with_security (sample_start true true) "dev" "web" st).2 in
  (start_workspace_with_security (sample_start true true) "dev" "db" st).2.

Lemma env_safe_sample {M : Mode} : env_safe sample_txn.
Proof. by intros st _. Qed.
Lemma start_env_sample {M : Mode} sb ws st : start_env (sample_start true true) sb ws st.
Proof.
  do 7 (split; [apply env_safe_sample|]). intros sid wid m s _ _ st1 w' Hw Hs. by exists w'.
Qed.

Lemma lifecycle_keeps_fleet_witness :
  ∃ w1 w2, find_workspace sample_session.1 "dev-1" "web-2" = Some w1 ∧
    find_workspace sample_session.1 "dev-1" "db-3" = Some w2 ∧
    status w1 = Running ∧ status w2 = Running ∧ is_Some (octet_of w1) ∧ octet_of w1 ≠ octet_of w2.
Proof.
  assert (rtc (lifecycle_op (M := true)) (default_registry, mkHost ∅ ∅ ∅) sample_session) as Hrun.
  { unfold sample_session. do 2 (eapply rtc_r; [|apply op_start, start_env_sample]).
    do 2 (eapply rtc_r; [|apply op_create; split; apply env_safe_sample]).
    eapply rtc_r; [|apply op_start_sandbox; repeat constructor; apply env_safe_sample].
    apply rtc_once, op_create_sandbox; [by intros b [= <-]|apply env_safe_sample]. }
  destruct (lifecycle_keeps_fleet true (default_registry, mkHost ∅ ∅ ∅) _ eq_refl Hrun) as [_ Haddr].
  specialize (Haddr eq_refl).
  destruct (find_workspace sample_session.1 "dev-1" "web-2") as [w1|] eqn:E1; [|by vm_compute in E1].
  destruct (find_workspace sample_session.1 "dev-1" "db-3") as [w2|] eqn:E2; [|by vm_compute in E2].
  assert (status w1 = Running ∧ status w2 = Running ∧ is_Some (octet_of w1)) as (H1 & H2 & [o Ho])
    by (clear -E1 E2; vm_compute in E1, E2; injection E1 as <-; injection E2 as <-; vm_compute; eauto).
  exists w1, w2. refine (conj eq_refl (conj eq_refl (conj H1 (conj H2 (conj (mk_is_Some _ _ Ho) _))))). intros Heq. rewrite Ho in Heq.
  destruct (Haddr _ _ _ _ _ _ _ E1 E2 Ho (eq_sym Heq)) as [_ [=]].
Defined.
