(* ===== verification/Handlers.v ===== *)
(** * Request handlers (src/src/daemon/dispatch/)

    A handler reads its parameters, calls the operations of the workspace and sandbox
    layers, and keeps the daemon's own resources, the published ports and the live jobs,
    in step with them.  The operations are an interface ([operations]) with what their
    files prove of them as its law ([SafeOperations]); the handlers are verified against
    the interface, and the operations of the development implement it. *)
From S2P Require Import Prelude RustStr Json Ports Types Registry Records Fleet Start Stop Update Sandbox Teardown.
From S2P Require Import Activity Dispatch Publish Lifecycle.
Open Scope Z_scope.

(** The reading of the fleet's steps that asks nothing of addresses. *)
#[local] Instance any_address : Mode := false.

(** The records, the publisher and the jobs. *)
Abbreviation daemon := (world * publisher * Activity)%type.

Definition on_world {A} (m : stm world A) : stm daemon A := λ st,
  let '(r, w) := m st.1.1 in (r, (w, st.1.2, st.2)).
Definition on_ports {A} (m : stm publisher A) : stm daemon A := λ st,
  let '(r, p) := m st.1.2 in (r, (st.1.1, p, st.2)).
Definition on_jobs {A} (m : stm Activity A) : stm daemon A := λ st,
  let '(r, a) := m st.2 in (r, (st.1, a)).

(** ** The operations the handlers call *)

(** Operations a handler calls more than once, and its reads of the registry, are
    numbered in the order of its calls. *)
Record operations := mkOps {
  o_read : nat → txn_host;
  o_start : string → string → stm world WorkspaceMetadata;
  o_stop : string → string → stm world WorkspaceMetadata;
  o_destroy : CleanupMode → string → string → stm world (string * list RetainedResource);
  o_create : string → string → WorkspaceCreateOptions → stm world WorkspaceMetadata;
  o_update : nat → string → string → WorkspaceDefinitionUpdate → stm world WorkspaceMetadata;
  o_resize : string → string → option Z → option (option Z) → stm world WorkspaceResizeResult;
  o_destroy_all : CleanupMode → stm world BatchDestroyReport;
  o_stop_batch : string → stm world (list string);
  o_start_sandbox : string → stm world SandboxMetadata;
  o_stop_sandbox : string → stm world SandboxMetadata;
  o_pause : string → stm world SandboxMetadata;
  o_resume : string → stm world SandboxMetadata;
  o_destroy_sandbox : CleanupMode → string → stm world (string * list RetainedResource);
  o_touch : nat → ActivityKind → string → string → stm world unit;
  o_sync : nat → string → string → stm world unit;   (** [sync_workspace_runtime_limits] *)
  o_create_sandbox : string → string → string → BootstrapMethod → SandboxLimits → stm world SandboxMetadata;
  o_sandbox_limits : string → SandboxLimitsUpdate → stm world SandboxMetadata;
  o_sync_sandbox : string → stm world unit;           (** [sync_sandbox_runtime_limits] *)
  o_detach : WorkspaceMetadata → string → option Z → bool → option JobRecord;  (** [spawn_workspace_command_detached] *)
  o_jobs : job_host;
  o_alive : Z → option Z → bool;                      (** [session_process_matches] *)
  o_free : nat → PublishedPortSpec → bool }.          (** the host ports that can be bound *)

(** What the handlers rely on: an operation takes only steps the fleet allows. *)
Class SafeOperations (o : operations) : Prop := {
  safe_read n : env_safe (o_read o n);
  safe_start sb ws : fleet_safe (o_start o sb ws);
  safe_stop sb ws : fleet_safe (o_stop o sb ws);
  safe_destroy mode sb ws : fleet_safe (o_destroy o mode sb ws);
  safe_create sb nm opts : fleet_safe (o_create o sb nm opts);
  safe_update n sb ws u : fleet_safe (o_update o n sb ws u);
  safe_resize sb ws d m : fleet_safe (o_resize o sb ws d m);
  safe_destroy_all mode : fleet_safe (o_destroy_all o mode);
  safe_stop_batch sb : fleet_safe (o_stop_batch o sb);
  safe_start_sandbox sb : fleet_safe (o_start_sandbox o sb);
  safe_stop_sandbox sb : fleet_safe (o_stop_sandbox o sb);
  safe_pause sb : fleet_safe (o_pause o sb);
  safe_resume sb : fleet_safe (o_resume o sb);
  safe_destroy_sandbox mode sb : fleet_safe (o_destroy_sandbox o mode sb);
  safe_touch n k sid wid : fleet_safe (o_touch o n k sid wid);
  safe_sync n sid wid : fleet_safe (o_sync o n sid wid);
  safe_create_sandbox nm su mi method l :
    (∀ budget, sb_disk_bytes l = Some budget → 0 ≤ budget) → fleet_safe (o_create_sandbox o nm su mi method l);
  safe_sandbox_limits sb u : fleet_safe (o_sandbox_limits o sb u);
  safe_sync_sandbox sb : fleet_safe (o_sync_sandbox o sb) }.

(** [WorkspaceLimitsUpdate::is_empty] *)
Definition limits_update_is_empty (u : WorkspaceLimitsUpdate) : bool :=
  match u with mkWsUpdate None None None None None None None None None None => true | _ => false end.

Definition sandbox_update_is_empty (u : SandboxLimitsUpdate) : bool :=
  match u with mkSbUpdate None None None None None => true | _ => false end.

(** ** Parameters *)

(** workspace_definition.rs *)
Fixpoint parse_specs (raw : list string) : result (list PublishedPortSpec) :=
  match raw with
  | [] => Ok []
  | r :: raw' => spec ← spec_parse r; rest ← parse_specs raw'; Ok (spec :: rest)
  end.
Definition parse_published_ports (params : Value) (key : string) : result (option (list PublishedPortSpec)) :=
  match value_get key params with
  | None => Ok None
  | Some _ => raw ← parse_string_array params key; specs ← parse_specs raw; Ok (Some specs)
  end.

(** [params.get(key).map(|_| parse(params, key)).transpose()] *)
Definition when_present {A} (params : Value) (key : string) (parse : result A) : result (option A) :=
  match value_get key params with None => Ok None | Some _ => a ← parse; Ok (Some a) end.

(** workspace_handlers/create.rs *)
Definition parse_create_options (params : Value) : result WorkspaceCreateOptions :=
  limits ← parse_workspace_limits_create params;
  auth ← when_present params "auth" (parse_string_array params "auth");
  tokens ← when_present params "env_tokens" (parse_string_array params "env_tokens");
  ports ← parse_published_ports params "ports";
  clear_tmp ← when_present params "clear_tmp_on_restart" (parse_optional_bool_field params "clear_tmp_on_restart");
  Ok (mkCreate limits (value_get "path" params ≫= as_str) (default [] auth) (value_get "owner" params ≫= as_str)
        (default [] tokens) (default [] ports) (default false (default None clear_tmp))
        (default false (value_get "keep_running" params ≫= as_bool))
        (value_get "idle_stop_after_secs" params ≫= as_u64) (value_get "destroy_after_secs" params ≫= as_u64)).

(** workspace_handlers/definition.rs *)
Definition parse_owner (params : Value) : result (option (option string)) :=
  match value_get "owner" params with
  | None => Ok None
  | Some Null => Ok (Some None)
  | Some (Str s) => Ok (Some (Some s))
  | Some _ => bail "owner must be a string or null"
  end.
Definition parse_definition_update (params : Value) : result WorkspaceDefinitionUpdate :=
  auth ← when_present params "auth" (parse_string_array params "auth");
  owner ← parse_owner params;
  tokens ← when_present params "env_tokens" (parse_string_array params "env_tokens");
  ports ← parse_published_ports params "ports";
  limits ← parse_workspace_limits_update params;
  Ok (mkDefinitionUpdate auth owner tokens ports limits).

(** sandbox/types.rs *)
Definition DEFAULT_DEBIAN_SUITE : string := "bookworm".
Definition DEFAULT_DEBIAN_MIRROR : string := "http://deb.debian.org/debian".

(** workspace_handlers/batch.rs: the fields of a JSON object. *)
Definition dropped_nulls : list string :=
  ["cpu_seconds"; "cpu_percent"; "memory_mb"; "max_procs"; "max_open_files"; "keep_running"; "idle_stop_after_secs";
   "destroy_after_secs"; "path"].
Definition remove_field (key : string) (fields : list (string * Value)) : list (string * Value) :=
  filter (λ f, f.1 ≠ key) fields.
Definition insert_field (key : string) (v : Value) (fields : list (string * Value)) : list (string * Value) :=
  (key, v) :: remove_field key fields.
Definition existing_workspace_update (spec : Value) (sandbox workspace : string) : Value :=
  match spec with
  | Object fields =>
      let kept := filter (λ f, ¬ (f.1 ∈ dropped_nulls ∧ is_null f.2 = true)) fields in
      Object (insert_field "workspace" (Str workspace)
                (insert_field "sandbox" (Str sandbox) (remove_field "disk_mb" kept)))
  | _ => spec
  end.

(** ** Transitions (transition.rs) *)

Definition ABSENT : string := "absent".
Definition UNKNOWN : string := "unknown".
Record Transition := mkTransition { tr_target : string; previous_state : string; current_state : string }.

Section handlers.
Context (o : operations).

Definition metadata_of (n : nat) (sb ws : string) : stm daemon WorkspaceMetadata :=
  on_world (read_txn (o_read o n) (λ r, workspace_metadata r sb ws)).
Definition sandbox_status (n : nat) (sb : string) : stm daemon SandboxStatus :=
  on_world (read_txn (o_read o n) (λ r, p ← sandbox_of r sb; Ok (sb_status (metadata p.2)))).
Definition workspaces_of (n : nat) (sb : option string) : stm daemon (list WorkspaceMetadata) :=
  on_world (read_txn (o_read o n) (λ r, list_workspaces r sb)).

Definition workspace_state_before (n : nat) (sb ws : string) : stm daemon string :=
  r ← catch (metadata_of n sb ws);
  mret match r with Ok w => status_as_str (status w) | Err _ => UNKNOWN end.
Definition sandbox_state_before (n : nat) (sb : string) : stm daemon string :=
  r ← catch (sandbox_status n sb);
  mret match r with Ok s => sandbox_status_as_str s | Err _ => UNKNOWN end.

Definition sandbox_param (params : Value) : stm daemon string := lift (require_param_str params ["sandbox"; "sandbox_id"]).
Definition workspace_param (params : Value) : stm daemon string :=
  lift (require_param_str params ["workspace"; "workspace_id"; "name"]).

Definition clear_ports (w : WorkspaceMetadata) : stm daemon unit :=
  on_ports (clear_workspace_ports (sandbox_id w) (id w)).
Definition apply_ports (n : nat) (w : WorkspaceMetadata) (ip : string) (mode : PublishMode)
    : stm daemon (list PublishedPortStatus) :=
  on_ports (apply_workspace_ports (o_free o n) (sandbox_id w) (id w) ip (published_ports w) mode).

(** ** Ports and definitions (workspace_definition.rs) *)

Definition ensure_workspace_ports_started (w : WorkspaceMetadata) : stm daemon WorkspaceMetadata :=
  if bool_decide (published_ports w = []) then mret w
  else
    ip ← lift (ok_or (assigned_ip w) (plain "started without networking; cannot publish declared ports"));
    lift (ok_or (runtime_pid w) (plain "running without a runtime pid; restart it before publishing ports"));;
    r ← catch (apply_ports 0 w ip Strict);
    match r with
    | Err e => clear_ports w;; catch (on_world (o_stop o (sandbox_id w) (id w)));; lift (Err e)
    | Ok _ => on_world (o_touch o 1 Request (sandbox_id w) (id w));; mret w
    end.

Definition rollback_update (w : WorkspaceMetadata) : WorkspaceDefinitionUpdate :=
  mkDefinitionUpdate (Some (auth_providers w)) (Some (owner w)) (Some (env_tokens w)) (Some (published_ports w))
    (mkWsUpdate (Some (clear_tmp_on_restart w)) (Some (keep_running w)) (Some (idle_stop_after_secs w))
       (Some (destroy_after_secs w)) (Some (cpu_seconds (limits w))) (Some (cpu_percent (limits w)))
       (Some (memory_bytes (limits w))) (Some (max_processes (limits w))) (Some (max_open_files (limits w))) None).

Definition rollback_workspace_definition_update (previous : WorkspaceMetadata) : stm daemon unit :=
  catch (on_world (o_update o 1 (sandbox_id previous) (id previous) (rollback_update previous)));;
  catch (on_world (o_sync o 1 (sandbox_id previous) (id previous)));;
  if is_running (status previous) then
    match assigned_ip previous with
    | Some ip =>
        match runtime_pid previous with
        | None => clear_ports previous
        | Some _ => catch (apply_ports 1 previous ip Strict);; mret tt
        end
    | None => clear_ports previous
    end
  else clear_ports previous.

Definition update_workspace_definition_with_runtime (sb ws : string) (u : WorkspaceDefinitionUpdate)
    : stm daemon WorkspaceMetadata :=
  current ← metadata_of 0 sb ws;
  updated ← on_world (o_update o 0 sb ws u);
  synced ← (if limits_update_is_empty (du_limits u) then mret (Ok tt)
            else catch (on_world (o_sync o 0 (sandbox_id updated) (id updated))));
  match synced with
  | Err e => rollback_workspace_definition_update current;; lift (Err e)
  | Ok _ =>
      if bool_decide (du_published_ports u = None) then metadata_of 1 (sandbox_id updated) (id updated)
      else
        applied ←
          (if is_running (status updated) then
             ip ← lift (ok_or (assigned_ip updated) (plain "running without networking; restart it before publishing ports"));
             lift (ok_or (runtime_pid updated) (plain "running without a runtime pid; restart it before publishing ports"));;
             catch (apply_ports 0 updated ip Strict)
           else clear_ports updated;; mret (Ok []));
        match applied with
        | Err e => rollback_workspace_definition_update current;; lift (Err e)
        | Ok _ =>
            on_world (o_touch o 0 Request (sandbox_id updated) (id updated));;
            metadata_of 1 (sandbox_id updated) (id updated)
        end
  end.

Definition no_limits : WorkspaceLimitsUpdate := mkWsUpdate None None None None None None None None None None.
Definition ports_update (ports : list PublishedPortSpec) : WorkspaceDefinitionUpdate :=
  mkDefinitionUpdate None None None (Some ports) no_limits.
Definition workspace_port_statuses (w : WorkspaceMetadata) : stm daemon (list PublishedPortStatus) :=
  st ← get;
  mret (merge_published_port_statuses (published_ports w) (workspace_statuses (sandbox_id w) (id w) st.1.2)).

(** ports.rs *)
Definition dispatch_workspace_port_publish (params : Value) : stm daemon (list PublishedPortStatus) :=
  sb ← sandbox_param params;
  ws ← workspace_param params;
  raw ← lift (require_param_str params ["spec"]);
  spec ← lift (spec_parse raw);
  current ← metadata_of 2 sb ws;
  let desired := if bool_decide (spec ∈ published_ports current) then published_ports current
                 else published_ports current ++ [spec] in
  lift (validate_published_ports desired);;
  updated ← update_workspace_definition_with_runtime sb ws (ports_update desired);
  on_world (o_touch o 2 Request (sandbox_id updated) (id updated));;
  workspace_port_statuses updated.
Definition dispatch_workspace_port_unpublish (params : Value) : stm daemon (list PublishedPortStatus) :=
  sb ← sandbox_param params;
  ws ← workspace_param params;
  raw ← lift (require_param_str params ["binding"]);
  binding ← lift (binding_parse raw);
  current ← metadata_of 2 sb ws;
  let desired := filter (λ spec, spec_binding spec ≠ binding) (published_ports current) in
  assert (negb (length desired =? length (published_ports current))%nat) "workspace has no published port bound there";;
  updated ← update_workspace_definition_with_runtime sb ws (ports_update desired);
  on_world (o_touch o 2 Request (sandbox_id updated) (id updated));;
  workspace_port_statuses updated.

Definition dispatch_workspace_port_list (params : Value) : stm daemon (list PublishedPortStatus) :=
  sb ← sandbox_param params;
  ws ← workspace_param params;
  w ← metadata_of 0 sb ws;
  workspace_port_statuses w.

(** ** One workspace (workspace_handlers/lifecycle.rs) *)

Definition workspace_start (params : Value) : stm daemon (Transition * WorkspaceMetadata) :=
  sb ← sandbox_param params;
  ws ← workspace_param params;
  previous ← workspace_state_before 0 sb ws;
  w ← on_world (o_start o sb ws);
  on_world (o_touch o 0 Request (sandbox_id w) (id w));;
  w ← ensure_workspace_ports_started w;
  mret (mkTransition (id w) previous "running", w).

Definition workspace_stop (params : Value) : stm daemon Transition :=
  sb ← sandbox_param params;
  ws ← workspace_param params;
  previous ← workspace_state_before 0 sb ws;
  w ← on_world (o_stop o sb ws);
  catch (on_jobs (cancel_running_for_workspace (o_jobs o) (sandbox_id w) (id w) "workspace stopped"));;
  on_jobs (modify (prune_terminal_jobs (sandbox_id w) (id w)));;
  clear_ports w;;
  st ← get;
  assert (negb (has_active_workspace_ports (sandbox_id w) (id w) st.1.2)) "workspace stop left resources behind";;
  mret (mkTransition (id w) previous "stopped").

Definition workspace_destroy (params : Value) : stm daemon (Transition * list RetainedResource) :=
  sb ← sandbox_param params;
  ws ← workspace_param params;
  w ← metadata_of 0 sb ws;
  mode ← lift (parse_cleanup_mode params);
  report ← on_world (o_destroy o mode sb ws);
  clear_ports w;;
  mret (mkTransition report.1 (status_as_str (status w)) ABSENT, report.2).

(** [remove] *)
Definition workspace_remove (params : Value) : stm daemon Transition :=
  sb ← sandbox_param params;
  ws ← workspace_param params;
  w ← metadata_of 0 sb ws;
  on_world (o_destroy o Normal sb ws);;
  clear_ports w;;
  mret (mkTransition ws (status_as_str (status w)) ABSENT).

(** workspace_handlers/create.rs *)
Definition dispatch_workspace_create (params : Value) : stm daemon (Transition * WorkspaceMetadata) :=
  sb ← lift (require_param_str params ["sandbox_id"]);
  nm ← lift (require_param_str params ["name"]);
  opts ← lift (parse_create_options params);
  w ← on_world (o_create o sb nm opts);
  started ← on_world (o_start o sb (id w));
  started ← ensure_workspace_ports_started started;
  mret (mkTransition (id started) ABSENT "running", started).

(** workspace_handlers/definition.rs *)
Definition dispatch_workspace_update (params : Value) : stm daemon unit :=
  sb ← sandbox_param params;
  ws ← workspace_param params;
  u ← lift (parse_definition_update params);
  update_workspace_definition_with_runtime sb ws u;;
  mret tt.

Definition dispatch_workspace_resize (params : Value) : stm daemon WorkspaceResizeResult :=
  sb ← sandbox_param params;
  ws ← workspace_param params;
  new_disk ← lift (parse_optional_disk_bytes params);
  new_memory ← lift (parse_optional_memory_bytes params);
  if bool_decide (new_disk = None ∧ new_memory = None) then throw "workspace.resize requires 'disk_mb' or 'memory_mb'"
  else
    current ← metadata_of 0 sb ws;
    let disk_changes := match new_disk with
                        | Some n => negb (bool_decide (disk_bytes (limits current) = Some n)) | None => false end in
    (if is_running (status current) && disk_changes then clear_ports current else mret tt);;
    result ← on_world (o_resize o sb ws new_disk new_memory);
    (if rs_restarted result
     then w ← metadata_of 1 sb (rs_workspace_id result); ensure_workspace_ports_started w;; mret tt
     else mret tt);;
    mret result.

(** workspace_handlers/batch.rs: one item of a batch, a workspace that exists already
    being brought up to its definition instead. *)
Definition start_or_create (spec : Value) : stm daemon WorkspaceMetadata :=
  r ← catch (dispatch_workspace_create spec);
  match r with
  | Ok (_, w) => mret w
  | Err e =>
      sb ← lift (require_param_str spec ["sandbox_id"]);
      ws ← lift (require_param_str spec ["name"]);
      l ← workspaces_of 3 (Some sb);
      if negb (existsb (λ w, bool_decide (name w = ws) || bool_decide (id w = ws)) l) then lift (Err e)
      else
        dispatch_workspace_update (existing_workspace_update spec sb ws);;
        started ← workspace_start (Object [("sandbox", Str sb); ("workspace", Str ws)]);
        mret started.2
  end.
Definition dispatch_workspace_start_many_item (spec : Value) : stm daemon WorkspaceMetadata :=
  started ← start_or_create spec;
  match value_get "run" spec ≫= as_str with
  | None => mret started
  | Some command =>
      job ← lift (ok_or (o_detach o started command (value_get "run_ttl_secs" spec ≫= as_u64)
                           (default false (value_get "run_keep_running" spec ≫= as_bool)))
                        (plain "failed to launch run command"));
      on_world (o_touch o 3 Process (sandbox_id started) (id started));;
      on_jobs (modify (update_job job));;
      mret started
  end.

(** The loops that withdraw the ports of several workspaces. *)
Fixpoint clear_each (keep : WorkspaceMetadata → bool) (l : list WorkspaceMetadata) : stm daemon unit :=
  match l with
  | [] => mret tt
  | w :: l' => (if keep w then mret tt else clear_ports w);; clear_each keep l'
  end.

(** workspace_handlers/wipe.rs *)
Definition dispatch_workspace_wipe (params : Value) : stm daemon BatchDestroyReport :=
  mode ← lift (parse_cleanup_mode params);
  l ← workspaces_of 0 None;
  report ← on_world (o_destroy_all o mode);
  clear_each (λ w, negb (bool_decide (id w ∈ br_removed report))) l;;
  assert (bool_decide (br_errors report = [])) "workspace wipe completed with errors";;
  mret report.

(** ** Sandboxes (sandbox_handlers.rs) *)

Definition dispatch_sandbox_create (params : Value) : stm daemon Transition :=
  nm ← lift (require_param_str params ["name"]);
  let suite := default DEFAULT_DEBIAN_SUITE (value_get "suite" params ≫= as_str) in
  let mirror := default DEFAULT_DEBIAN_MIRROR (value_get "mirror" params ≫= as_str) in
  method ← lift (bootstrap_from_str (default "debootstrap" (value_get "bootstrap_method" params ≫= as_str)));
  limits ← lift (parse_sandbox_limits_create params);
  m ← on_world (o_create_sandbox o nm suite mirror method limits);
  started ← on_world (o_start_sandbox o (sb_id m));
  mret (mkTransition (sb_id started) ABSENT "running").

Definition dispatch_sandbox_update (params : Value) : stm daemon SandboxMetadata :=
  sb ← sandbox_param params;
  limits ← lift (parse_sandbox_limits_update params);
  if sandbox_update_is_empty limits then throw "sandbox.update requires at least one limit field"
  else
    updated ← on_world (o_sandbox_limits o sb limits);
    on_world (o_sync_sandbox o (sb_id updated));;
    mret updated.

(** The sandbox as it is now, and its limits before. *)
Definition dispatch_sandbox_resize (params : Value) : stm daemon (SandboxMetadata * SandboxLimits) :=
  sb ← sandbox_param params;
  limits ← lift (parse_sandbox_limits_update params);
  if sandbox_update_is_empty limits then throw "sandbox.resize requires at least one of 'memory_mb', 'disk_mb', or 'max_procs'"
  else
    previous ← on_world (read_txn (o_read o 0) (λ r, p ← sandbox_of r sb; Ok (sb_limits (metadata p.2))));
    updated ← on_world (o_sandbox_limits o sb limits);
    on_world (o_sync_sandbox o (sb_id updated));;
    mret (updated, previous).

Definition dispatch_sandbox_start (params : Value) : stm daemon Transition :=
  sb ← sandbox_param params;
  previous ← sandbox_state_before 0 sb;
  s ← sandbox_status 1 sb;
  m ← (if bool_decide (s = SbPaused) then on_world (o_resume o sb) else on_world (o_start_sandbox o sb));
  mret (mkTransition (sb_id m) previous "running").

Definition resume_if_paused (sb : string) : stm daemon unit :=
  s ← sandbox_status 1 sb;
  if bool_decide (s = SbPaused) then on_world (o_resume o sb);; mret tt else mret tt.

Definition dispatch_sandbox_stop (params : Value) : stm daemon Transition :=
  sb ← sandbox_param params;
  previous ← sandbox_state_before 0 sb;
  resume_if_paused sb;;
  l ← workspaces_of 2 (Some sb);
  failed ← on_world (o_stop_batch o sb);
  if negb (bool_decide (failed = [])) then throw "sandbox stop: failed to stop workspaces"
  else
    clear_each (λ w, negb (is_running (status w))) l;;
    m ← on_world (o_stop_sandbox o sb);
    mret (mkTransition (sb_id m) previous "stopped").

Definition dispatch_sandbox_pause (params : Value) : stm daemon Transition :=
  sb ← sandbox_param params;
  previous ← sandbox_state_before 0 sb;
  m ← on_world (o_pause o sb);
  l ← workspaces_of 1 (Some sb);
  clear_each (λ w, negb (is_running (status w))) l;;
  mret (mkTransition (sb_id m) previous "paused").

(** The loop of a resume: the ports of each running workspace again, with the names of
    those that could not be published. *)
Fixpoint republish_each (n : nat) (l : list WorkspaceMetadata) : stm daemon (list string) :=
  match l with
  | [] => mret []
  | w :: l' =>
      failures ←
        (if is_running (status w) && negb (bool_decide (published_ports w = [])) then
           match assigned_ip w, runtime_pid w with
           | None, _ => mret [name w +:+ ": missing workspace IP"]
           | _, None => mret [name w +:+ ": missing runtime PID"]
           | Some ip, Some _ =>
               statuses ← apply_ports n w ip BestEffort;
               mret ((λ s, name w +:+ ": " +:+ default "port publication failed" (status_error s)) <$>
                       filter (λ s, status_state s = Failed) statuses)
           end
         else mret []);
      rest ← republish_each (S n) l';
      mret (failures ++ rest)
  end.
Definition dispatch_sandbox_resume (params : Value) : stm daemon (Transition * list string) :=
  sb ← sandbox_param params;
  previous ← sandbox_state_before 0 sb;
  m ← on_world (o_resume o sb);
  l ← workspaces_of 1 (Some sb);
  failures ← republish_each 0 l;
  mret (mkTransition (sb_id m) previous "running", failures).

Definition dispatch_sandbox_destroy (params : Value) : stm daemon (Transition * list RetainedResource * list string) :=
  sb ← sandbox_param params;
  mode ← lift (parse_cleanup_mode params);
  previous ← sandbox_state_before 0 sb;
  resume_if_paused sb;;
  l ← workspaces_of 2 (Some sb);
  failed ← on_world (o_stop_batch o sb);
  if negb (bool_decide (failed = [])) && negb (is_force mode)
  then throw "sandbox destroy aborted because workspace cleanup did not complete"
  else
    clear_each (λ _, false) l;;
    report ← on_world (o_destroy_sandbox o mode sb);
    mret (mkTransition report.1 previous ABSENT, report.2, failed).

Definition dispatch_sandbox_remove (params : Value) : stm daemon Transition :=
  sb ← sandbox_param params;
  previous ← sandbox_state_before 0 sb;
  removed ← on_world (o_destroy_sandbox o Normal sb);
  mret (mkTransition removed.1 previous ABSENT).

(** ** Start-up (daemon/ports.rs) *)

Definition holds_ports (r : Registry) (w : WorkspaceMetadata) : bool :=
  existsb (λ e, bool_decide (sb_status (metadata e) = SbRunning) && bool_decide (sb_id (metadata e) = sandbox_id w))
    (btree_values (sandboxes r)).
Fixpoint reconcile_each (r : Registry) (n : nat) (l : list WorkspaceMetadata) : stm daemon unit :=
  match l with
  | [] => mret tt
  | w :: l' =>
      (if negb (is_running (status w)) || bool_decide (published_ports w = []) || negb (holds_ports r w) then mret tt
       else
         match runtime_pid w with
         | None => mret tt
         | Some pid =>
             if negb (o_alive o pid (runtime_starttime_ticks w)) then mret tt
             else
               match assigned_ip w with
               | None => mret tt
               | Some ip =>
                   apply_ports n w ip BestEffort;;
                   on_jobs (refresh_jobs_for_workspace (o_jobs o) (sandbox_id w) (id w))
               end
         end);;
      reconcile_each r (S n) l'
  end.
Definition reconcile_published_ports : stm daemon unit :=
  r ← on_world (read_txn (o_read o 0) Ok);
  l ← workspaces_of 1 None;
  reconcile_each r 0 l.
End handlers.

(** The wipe of every sandbox, each destroyed by a request of its own. *)
Record SandboxWipeReport := mkSandboxWipe {
  wr_removed : list string; wr_errors : list string; wr_retained : list (string * list RetainedResource) }.
Fixpoint wipe_each (each : string → operations) (mode : CleanupMode) (sids : list string) : stm daemon SandboxWipeReport :=
  match sids with
  | [] => mret (mkSandboxWipe [] [] [])
  | sid :: sids' =>
      r ← catch (dispatch_sandbox_destroy (each sid) (Object [("sandbox", Str sid); ("force", Bool (is_force mode))]));
      rest ← wipe_each each mode sids';
      mret match r with
           | Ok (_, kept, _) =>
               mkSandboxWipe (sid :: wr_removed rest) (wr_errors rest)
                 (if bool_decide (kept = []) then wr_retained rest else (sid, kept) :: wr_retained rest)
           | Err e => mkSandboxWipe (wr_removed rest) ((sid +:+ ": " +:+ error_text e) :: wr_errors rest) (wr_retained rest)
           end
  end.
Definition dispatch_sandbox_wipe (o : operations) (each : string → operations) (params : Value) : stm daemon SandboxWipeReport :=
  mode ← lift (parse_cleanup_mode params);
  sids ← on_world (read_txn (o_read o 0) (λ r, Ok ((λ e, sb_id (metadata e)) <$> btree_values (sandboxes r))));
  wipe_each each mode sids.

(** * What the handlers keep *)

(** The records obey the fleet's rules and the publisher knows its listeners. *)
Definition ports_ok (s : publisher) : Prop := ∀ key, pub_inv key [] s.
Definition daemon_safe {A} (m : stm daemon A) : Prop := ∀ st,
  fleet_ok st.1.1.1 → ports_ok st.1.2 → fleet_ok (m st).2.1.1.1 ∧ ports_ok (m st).2.1.2.

Create HintDb daemon.

Section safety.
Context (o : operations) `{!SafeOperations o}.

Lemma daemon_safe_bind {A B} (m : stm daemon A) (f : A → stm daemon B) :
  daemon_safe m → (∀ a, daemon_safe (f a)) → daemon_safe (m ≫= f).
Proof.
  intros Hm Hf st H1 H2. destruct (Hm st H1 H2) as [H3 H4]. unfold mbind, stm_bind.
  destruct (m st) as [[a|e] st']; [by apply Hf|done].
Qed.
Lemma daemon_safe_same {A} (m : stm daemon A) : (∀ st, (m st).2.1 = st.1) → daemon_safe m.
Proof. intros H st H1 H2. by rewrite H. Qed.
Lemma daemon_safe_ret {A} (a : A) : daemon_safe (mret a).
Proof. by apply daemon_safe_same. Qed.
Lemma daemon_safe_lift {A} (r : result A) : daemon_safe (lift r).
Proof. by apply daemon_safe_same. Qed.
Lemma daemon_safe_get : daemon_safe get.
Proof. by apply daemon_safe_same. Qed.
Lemma daemon_safe_assert b message : daemon_safe (assert b message).
Proof. apply daemon_safe_same. by destruct b. Qed.
Lemma daemon_safe_throw {A} message : daemon_safe (A := A) (throw message).
Proof. by apply daemon_safe_same. Qed.
Lemma daemon_safe_jobs {A} (m : stm Activity A) : daemon_safe (on_jobs m).
Proof. apply daemon_safe_same. intros st. unfold on_jobs. by destruct (m st.2). Qed.
Lemma daemon_safe_catch {A} (m : stm daemon A) : daemon_safe m → daemon_safe (catch m).
Proof. intros H st H1 H2. destruct (H st H1 H2). unfold catch. by destruct (m st). Qed.
Lemma daemon_safe_world {A} (m : stm world A) : fleet_safe m → daemon_safe (on_world m).
Proof.
  intros H st H1 H2. specialize (H st.1.1 H1). unfold on_world. destruct (m st.1.1) as [r w]. cbn in *.
  split; [by eapply fleet_steps_ok|done].
Qed.
Lemma daemon_safe_clear w : daemon_safe (clear_ports w).
Proof.
  intros st H1 H2. unfold clear_ports, on_ports. destruct (clear_inv (sandbox_id w) (id w) st.1.2 (H2 _)) as (s & E & Hs & _).
  rewrite E. cbn. split; [done|]. intros key. by eapply pub_inv_key.
Qed.
Lemma daemon_safe_apply n w ip mode : daemon_safe (apply_ports o n w ip mode).
Proof.
  intros st H1 H2. unfold apply_ports, on_ports. destruct (apply_workspace_ports _ _ _ _ _ _ _) as [r s] eqn:E. cbn.
  split; [done|]. intros key. apply (apply_spec _ _ _ _ _ _ _ _ _ (H2 _)) in E as [Hs _]. by eapply pub_inv_key.
Qed.
Lemma daemon_safe_read {A} n (f : Registry → result A) : daemon_safe (on_world (read_txn (o_read o n) f)).
Proof. apply daemon_safe_world, fleet_safe_read, safe_read. Qed.
End safety.
#[export] Hint Resolve daemon_safe_ret daemon_safe_lift daemon_safe_get daemon_safe_assert daemon_safe_throw daemon_safe_jobs
  daemon_safe_catch daemon_safe_clear daemon_safe_apply daemon_safe_read : daemon.
#[export] Hint Resolve safe_start safe_stop safe_destroy safe_create safe_update safe_resize safe_destroy_all safe_stop_batch
  safe_start_sandbox safe_stop_sandbox safe_pause safe_resume safe_destroy_sandbox safe_touch safe_sync safe_sandbox_limits
  safe_sync_sandbox daemon_safe_world : daemon.

Ltac keeps := repeat first [ apply daemon_safe_bind; [|intros] | solve [eauto with daemon] | case_match | progress cbv zeta ].

Section handlers_safe.
Context (o : operations) `{!SafeOperations o}.

Lemma metadata_of_safe n sb ws : daemon_safe (metadata_of o n sb ws).
Proof. unfold metadata_of. keeps. Qed.
Lemma sandbox_status_safe n sb : daemon_safe (sandbox_status o n sb).
Proof. unfold sandbox_status. keeps. Qed.
Lemma workspaces_of_safe n sb : daemon_safe (workspaces_of o n sb).
Proof. unfold workspaces_of. keeps. Qed.
#[local] Hint Resolve metadata_of_safe sandbox_status_safe workspaces_of_safe : daemon.
Lemma workspace_state_before_safe n sb ws : daemon_safe (workspace_state_before o n sb ws).
Proof. unfold workspace_state_before. keeps. Qed.
Lemma sandbox_state_before_safe n sb : daemon_safe (sandbox_state_before o n sb).
Proof. unfold sandbox_state_before. keeps. Qed.
Lemma resume_if_paused_safe sb : daemon_safe (resume_if_paused o sb).
Proof. unfold resume_if_paused. keeps. Qed.
Lemma ensure_ports_safe w : daemon_safe (ensure_workspace_ports_started o w).
Proof. unfold ensure_workspace_ports_started. keeps. Qed.
Lemma rollback_safe w : daemon_safe (rollback_workspace_definition_update o w).
Proof. unfold rollback_workspace_definition_update. keeps. Qed.
#[local] Hint Resolve workspace_state_before_safe sandbox_state_before_safe resume_if_paused_safe ensure_ports_safe
  rollback_safe : daemon.
Lemma update_with_runtime_safe sb ws u : daemon_safe (update_workspace_definition_with_runtime o sb ws u).
Proof. unfold update_workspace_definition_with_runtime. keeps. Qed.
Lemma clear_each_safe keep l : daemon_safe (clear_each keep l).
Proof. induction l; cbn; keeps. Qed.
Lemma republish_each_safe l n : daemon_safe (republish_each o n l).
Proof. revert n. induction l; intros n; cbn; keeps. Qed.
Lemma reconcile_each_safe r l n : daemon_safe (reconcile_each o r n l).
Proof. revert n. induction l; intros n; cbn; keeps. Qed.
#[local] Hint Resolve update_with_runtime_safe clear_each_safe republish_each_safe reconcile_each_safe : daemon.

Lemma workspace_start_safe params : daemon_safe (workspace_start o params).
Proof. unfold workspace_start, sandbox_param, workspace_param. keeps. Qed.
Lemma workspace_create_safe params : daemon_safe (dispatch_workspace_create o params).
Proof. unfold dispatch_workspace_create. keeps. Qed.
Lemma workspace_update_safe params : daemon_safe (dispatch_workspace_update o params).
Proof. unfold dispatch_workspace_update, sandbox_param, workspace_param. keeps. Qed.
#[local] Hint Resolve workspace_start_safe workspace_create_safe workspace_update_safe : daemon.
Lemma start_or_create_safe spec : daemon_safe (start_or_create o spec).
Proof. unfold start_or_create. keeps. Qed.

(** A disk budget that is parsed is not negative. *)
Lemma parsed_budget params l b : parse_sandbox_limits_create params = Ok l → sb_disk_bytes l = Some b → 0 ≤ b.
Proof.
  intros H. unfold parse_sandbox_limits_create in H. apply bind_Ok in H as (memory & _ & H).
  apply bind_Ok in H as (disk & Hd & H). apply bind_Ok in H as (u & _ & H). case_bool_decide; [done|]. injection H as <-.
  cbn. intros Hb. apply checked_megabytes_Ok with (n := b) in Hd as (mb & _ & _ & ?); [lia| |done].
  intros k Hk%u64_param. lia.
Qed.
Lemma daemon_safe_bind_lift {A B} (r : result A) (f : A → stm daemon B) :
  (∀ a, r = Ok a → daemon_safe (f a)) → daemon_safe (lift r ≫= f).
Proof. intros H st H1 H2. destruct r as [a|e]; [by apply (H a eq_refl)|done]. Qed.
Lemma sandbox_create_safe params : daemon_safe (dispatch_sandbox_create o params).
Proof.
  unfold dispatch_sandbox_create. do 2 (apply daemon_safe_bind; [auto with daemon|intros; cbv zeta]).
  apply daemon_safe_bind_lift. intros l Hl. apply daemon_safe_bind; [|intros; keeps].
  apply daemon_safe_world, safe_create_sandbox. intros b. by eapply parsed_budget.
Qed.
#[local] Hint Resolve start_or_create_safe sandbox_create_safe : daemon.

Lemma sandbox_destroy_request_safe params : daemon_safe (dispatch_sandbox_destroy o params).
Proof. unfold dispatch_sandbox_destroy, sandbox_param. keeps. Qed.

(** A request of the daemon, from its parameters to its answer. *)
Inductive handled (st : daemon) : daemon → Prop :=
  | handled_start params : handled st (workspace_start o params st).2
  | handled_stop params : handled st (workspace_stop o params st).2
  | handled_destroy params : handled st (workspace_destroy o params st).2
  | handled_remove params : handled st (workspace_remove o params st).2
  | handled_create params : handled st (dispatch_workspace_create o params st).2
  | handled_start_item spec : handled st (dispatch_workspace_start_many_item o spec st).2
  | handled_resize params : handled st (dispatch_workspace_resize o params st).2
  | handled_wipe params : handled st (dispatch_workspace_wipe o params st).2
  | handled_update params : handled st (dispatch_workspace_update o params st).2
  | handled_publish params : handled st (dispatch_workspace_port_publish o params st).2
  | handled_unpublish params : handled st (dispatch_workspace_port_unpublish o params st).2
  | handled_port_list params : handled st (dispatch_workspace_port_list o params st).2
  | handled_sandbox_create params : handled st (dispatch_sandbox_create o params st).2
  | handled_sandbox_update params : handled st (dispatch_sandbox_update o params st).2
  | handled_sandbox_resize params : handled st (dispatch_sandbox_resize o params st).2
  | handled_sandbox_start params : handled st (dispatch_sandbox_start o params st).2
  | handled_sandbox_stop params : handled st (dispatch_sandbox_stop o params st).2
  | handled_sandbox_pause params : handled st (dispatch_sandbox_pause o params st).2
  | handled_sandbox_resume params : handled st (dispatch_sandbox_resume o params st).2
  | handled_sandbox_destroy params : handled st (dispatch_sandbox_destroy o params st).2
  | handled_sandbox_remove params : handled st (dispatch_sandbox_remove o params st).2
  | handled_startup : handled st (reconcile_published_ports o st).2.

Lemma handled_safe st st' : handled st st' → fleet_ok st.1.1.1 → ports_ok st.1.2 → fleet_ok st'.1.1.1 ∧ ports_ok st'.1.2.
Proof.
  intros H.
  destruct H; match goal with |- _ → _ → fleet_ok (?m st).2.1.1.1 ∧ _ => enough (daemon_safe m) as Hm by exact (Hm st) end.
  - keeps.
  - unfold workspace_stop, sandbox_param, workspace_param. keeps.
  - unfold workspace_destroy, sandbox_param, workspace_param. keeps.
  - unfold workspace_remove, sandbox_param, workspace_param. keeps.
  - keeps.
  - unfold dispatch_workspace_start_many_item. keeps.
  - unfold dispatch_workspace_resize, sandbox_param, workspace_param. keeps.
  - unfold dispatch_workspace_wipe. keeps.
  - keeps.
  - unfold dispatch_workspace_port_publish, workspace_port_statuses, sandbox_param, workspace_param. keeps.
  - unfold dispatch_workspace_port_unpublish, workspace_port_statuses, sandbox_param, workspace_param. keeps.
  - unfold dispatch_workspace_port_list, workspace_port_statuses, sandbox_param, workspace_param. keeps.
  - apply sandbox_create_safe.
  - unfold dispatch_sandbox_update, sandbox_param. keeps.
  - unfold dispatch_sandbox_resize, sandbox_param. keeps.
  - unfold dispatch_sandbox_start, sandbox_param. keeps.
  - unfold dispatch_sandbox_stop, sandbox_param. keeps.
  - unfold dispatch_sandbox_pause, sandbox_param. keeps.
  - unfold dispatch_sandbox_resume, sandbox_param. keeps.
  - apply sandbox_destroy_request_safe.
  - unfold dispatch_sandbox_remove, sandbox_param. keeps.
  - unfold reconcile_published_ports. keeps.
Qed.
End handlers_safe.

Lemma wipe_each_safe each mode sids : (∀ sid, SafeOperations (each sid)) → daemon_safe (wipe_each each mode sids).
Proof.
  intros He. induction sids as [|sid sids IH]; cbn [wipe_each]; [auto with daemon|].
  apply daemon_safe_bind; [apply daemon_safe_catch, sandbox_destroy_request_safe|intros r]; [done|].
  apply daemon_safe_bind; [done|auto with daemon].
Qed.
Lemma sandbox_wipe_safe o each params :
  SafeOperations o → (∀ sid, SafeOperations (each sid)) → daemon_safe (dispatch_sandbox_wipe o each params).
Proof.
  intros Ho He. unfold dispatch_sandbox_wipe. apply daemon_safe_bind; [auto with daemon|intros mode].
  apply daemon_safe_bind; [by apply daemon_safe_read|intros sids]. by apply wipe_each_safe.
Qed.

(** ** The operations of the development implement the interface *)

Record op_hosts := mkOpHosts {
  oh_read : nat → txn_host;
  oh_start : start_host;
  oh_stop : stop_op_host;
  oh_destroy : txn_host * bool * bool * (nat → attempt_host);
  oh_create : create_host;
  oh_update : nat → txn_host * bool * bool;
  oh_resize : resize_host;
  oh_destroy_all : txn_host * (string → string → nat → attempt_host);
  oh_batch : batch_host;
  oh_start_sandbox : sandbox_start_host;
  oh_stop_sandbox : sandbox_stop_host;
  oh_pause : sandbox_freeze_host;
  oh_resume : sandbox_freeze_host;
  oh_destroy_sandbox : sandbox_destroy_host;
  oh_touch : nat → txn_host * bool * string;
  oh_sync : nat → txn_host * bool;
  oh_create_sandbox : sandbox_create_host;
  oh_sandbox_limits : txn_host * bool;
  oh_sync_sandbox : txn_host * bool;
  oh_detach : WorkspaceMetadata → string → option Z → bool → option JobRecord;
  oh_jobs : job_host;
  oh_alive : Z → option Z → bool;
  oh_free : nat → PublishedPortSpec → bool }.

Definition implemented (h : op_hosts) : operations :=
  mkOps (oh_read h)
    (start_workspace_with_security (oh_start h))
    (stop_workspace_with_certificate (oh_stop h))
    (let '(read, journal, succeed, attempts) := oh_destroy h in destroy_workspace_with_mode read journal succeed attempts)
    (create_workspace_with_options (oh_create h))
    (λ n, let '(t, storage, persist) := oh_update h n in update_workspace_definition t storage persist)
    (resize_workspace_with_security (oh_resize h))
    (destroy_all_workspaces (oh_destroy_all h).1 (oh_destroy_all h).2)
    (stop_running_workspaces_in_sandbox (oh_batch h))
    (start_sandbox (oh_start_sandbox h))
    (stop_sandbox (oh_stop_sandbox h))
    (pause_sandbox (oh_pause h))
    (resume_sandbox (oh_resume h))
    (λ mode sb, destroy_sandbox_with_mode (oh_destroy_sandbox h) sb mode)
    (λ n kind sid wid, let '(t, persist, stamp) := oh_touch h n in write_txn t (touch persist stamp kind sid wid);; mret tt)
    (λ n sid wid, let '(t, applied) := oh_sync h n in
       read_txn t (λ r, workspace_metadata r sid wid);; assert applied "failed to apply runtime limits")
    (create_sandbox_with_options (oh_create_sandbox h))
    (λ sb u, write_txn (oh_sandbox_limits h).1 (update_sandbox_limits (oh_sandbox_limits h).2 sb u))
    (λ sb, read_txn (oh_sync_sandbox h).1 (λ r, sandbox_of r sb);; assert (oh_sync_sandbox h).2 "failed to apply runtime limits")
    (oh_detach h)
    (oh_jobs h) (oh_alive h) (oh_free h).

(** Other requests take steps of the fleet between the transactions. *)
Record hosts_env (h : op_hosts) : Prop := {
  he_read n : env_safe (oh_read h n);
  he_start : Forall env_safe [sh_resolve (oh_start h); rf_txn (sh_refresh (oh_start h)); sh_release (oh_start h);
    sh_reserve (oh_start h); sh_commit (oh_start h); sh_rollback (oh_start h);
    sh_sweep (oh_start h)];
  he_stop : stop_env (oh_stop h);
  he_destroy : env_safe (oh_destroy h).1.1.1 ∧ ∀ n, attempt_env ((oh_destroy h).2 n);
  he_create : create_env (oh_create h);
  he_update n : env_safe (oh_update h n).1.1;
  he_resize : Forall env_safe [rh_plan (oh_resize h); rh_memory (oh_resize h); rh_mark (oh_resize h); rh_stopped (oh_resize h);
    rh_disk (oh_resize h); rh_reread (oh_resize h); rh_reserve (oh_resize h); rh_commit (oh_resize h); rh_rollback (oh_resize h)];
  he_resize_image image : rh_image (oh_resize h) = Some image → 0 ≤ image.2;
  he_destroy_all : env_safe (oh_destroy_all h).1 ∧ ∀ sid wid n, attempt_env ((oh_destroy_all h).2 sid wid n);
  he_batch : batch_env (oh_batch h);
  he_start_sandbox : Forall env_safe [ss_mark (oh_start_sandbox h); ss_commit (oh_start_sandbox h); ss_rollback (oh_start_sandbox h)];
  he_stop_sandbox : Forall env_safe [sp_mark (oh_stop_sandbox h); sp_read (oh_stop_sandbox h); sp_commit (oh_stop_sandbox h)];
  he_pause : Forall env_safe [fz_read (oh_pause h); fz_commit (oh_pause h)];
  he_resume : Forall env_safe [fz_read (oh_resume h); fz_commit (oh_resume h)];
  he_destroy_sandbox : sandbox_destroy_env (oh_destroy_sandbox h);
  he_touch n : env_safe (oh_touch h n).1.1;
  he_sync n : env_safe (oh_sync h n).1;
  he_create_sandbox : env_safe (sc_commit (oh_create_sandbox h));
  he_sandbox_limits : env_safe (oh_sandbox_limits h).1;
  he_sync_sandbox : env_safe (oh_sync_sandbox h).1 }.

#[export] Instance implemented_safe h : hosts_env h → SafeOperations (implemented h).
Proof.
  intros [H1 H2 H4 [H5 H5'] H6 H7 H8 H9 [H11 H11'] H12 H13 H14 H15 H16 H17 H18 H19 H20 H21 H22].
  split; intros; cbn; try solve [eauto using stop_workspace_safe, create_workspace_safe, stop_batch_safe,
    start_sandbox_safe, stop_sandbox_safe, freeze_transition_safe, destroy_sandbox_safe, destroy_all_safe].
  - intros st Hst. apply start_workspace_steps; [|done]. repeat (apply list.Forall_cons in H2 as [? H2]).
    do 7 (split; [done|]). done.
  - destruct (oh_destroy h) as [[[read journal] succeed] attempts]. by apply destroy_workspace_safe.
  - destruct (oh_update h n) as [[t storage] persist] eqn:E. apply update_definition_safe. specialize (H7 n). by rewrite E in H7.
  - intros st Hst. by apply resize_steps.
  - destruct (oh_touch h n) as [[t persist] stamp] eqn:E. specialize (H18 n). rewrite E in H18.
    apply fleet_safe_bind; [|auto with enclave]. apply fleet_safe_write; [done|apply touch_refines].
  - destruct (oh_sync h n) as [t applied] eqn:E. specialize (H19 n). rewrite E in H19.
    apply fleet_safe_bind; auto with enclave.
  - by apply create_sandbox_safe.
  - apply fleet_safe_write; [done|apply update_sandbox_limits_refines].
  - apply fleet_safe_bind; auto with enclave.
Qed.

(** ** Every sequence of requests *)

Inductive serves (st : daemon) : daemon → Prop :=
  | serves_request h st' : hosts_env h → handled (implemented h) st st' → serves st st'
  | serves_wipe h each params : hosts_env h → (∀ sid, hosts_env (each sid)) →
      serves st (dispatch_sandbox_wipe (implemented h) (implemented ∘ each) params st).2.

Lemma ports_ok_filed s : ports_ok s →
  ∀ a p, listening s !! a = Some p ↔ pub_address p = a ∧ ∃ l, active s !! pub_key p = Some l ∧ p ∈ l.
Proof.
  intros H a p. rewrite (inv_sockets _ _ _ (H ("", ""))). split; (intros [? Hp]; split; [done|]); [|by right].
  by destruct Hp as [?%not_elem_of_nil|].
Qed.

Lemma serves_keep host jobs st :
  rtc serves (default_registry, host, new_publisher, jobs) st → fleet_ok st.1.1.1 ∧ ports_ok st.1.2.
Proof.
  intros Hrun.
  assert (fleet_ok (default_registry, host, new_publisher, jobs).1.1.1 ∧ ports_ok (default_registry, host, new_publisher, jobs).1.2)
    as H0 by (split; [apply fleet_ok_default|intros key; apply new_publisher_inv]).
  revert H0. induction Hrun as [|st1 st2 st3 Hs _ IH]; [done|]. intros [H1 H2]. apply IH.
  destruct Hs as [h st' Hh Hs|h each params Hh He].
  - eapply handled_safe; [|exact Hs|done|done]. by apply implemented_safe.
  - apply sandbox_wipe_safe; [by apply implemented_safe|intros sid; by apply implemented_safe|done|done].
Qed.

(** Requests keep the daemon consistent.  From an empty state directory, whatever
    requests for workspaces, ports, definitions and sandboxes are handled one after the
    other, with whatever parameters, failures and changes of the records by others: the
    records obey the fleet's rules, those on addresses apart, and the host ports the daemon
    listens on are exactly those it has filed under a workspace, each of them once. *)
Lemma requests_keep_daemon host jobs st :
  rtc serves (default_registry, host, new_publisher, jobs) st →
  fleet_ok st.1.1.1 ∧
  (∀ a p, listening st.1.2 !! a = Some p ↔ pub_address p = a ∧ ∃ l, active st.1.2 !! pub_key p = Some l ∧ p ∈ l) ∧
  (∀ k l p, active st.1.2 !! k = Some l → p ∈ l → pub_key p = k ∧ NoDup l).
Proof.
  intros [Hf Hp]%serves_keep.
  split; [done|]. split; [by apply ports_ok_filed|]. intros k l p Hl Hin.
  split; [by eapply (inv_filed _ _ _ (Hp k))|by eapply (inv_some _ _ _ (Hp k))].
Qed.

(** ** Ports follow their workspace *)

Section ports.
Context (o : operations).

Lemma on_world_ports {A} (m : stm world A) st : (on_world m st).2.1.2 = st.1.2.
Proof. unfold on_world. by destruct (m st.1.1). Qed.
Lemma on_jobs_ports {A} (m : stm Activity A) st : (on_jobs m st).2.1 = st.1.
Proof. unfold on_jobs. by destruct (m st.2). Qed.

(** Steps that leave the publisher alone. *)
Definition off_ports {A} (m : stm daemon A) : Prop := ∀ st, (m st).2.1.2 = st.1.2.
Lemma off_bind {A B} (m : stm daemon A) (f : A → stm daemon B) : off_ports m → (∀ a, off_ports (f a)) → off_ports (m ≫= f).
Proof.
  intros Hm Hf st. specialize (Hm st). unfold mbind, stm_bind. destruct (m st) as [[a|e] st']; [|done]. by rewrite Hf.
Qed.
Lemma off_same {A} (m : stm daemon A) : (∀ st, (m st).2 = st) → off_ports m.
Proof. intros H st. by rewrite H. Qed.
Lemma off_lift {A} (r : result A) : off_ports (lift r).
Proof. by apply off_same. Qed.
Lemma off_ret {A} (a : A) : off_ports (mret a).
Proof. by apply off_same. Qed.
Lemma off_assert b m : off_ports (assert b m).
Proof. apply off_same. by destruct b. Qed.
Lemma off_world {A} (m : stm world A) : off_ports (on_world m).
Proof. intros st. apply on_world_ports. Qed.
Lemma off_jobs {A} (m : stm Activity A) : off_ports (on_jobs m).
Proof. intros st. by rewrite on_jobs_ports. Qed.
Lemma off_catch {A} (m : stm daemon A) : off_ports m → off_ports (catch m).
Proof. intros H st. specialize (H st). unfold catch. by destruct (m st). Qed.
End ports.
#[export] Hint Resolve off_lift off_ret off_assert off_world off_jobs off_catch : daemon.
Ltac stays := repeat first [ apply off_bind; [|intros] | solve [eauto with daemon] | case_match | progress cbv zeta ].

Section ports_theorems.
Context (o : operations).

Lemma state_before_off n sb ws : off_ports (workspace_state_before o n sb ws).
Proof. unfold workspace_state_before, metadata_of. stays. Qed.

Lemma clear_ports_result w st : ports_ok st.1.2 → ∃ s, clear_ports w st = (Ok tt, (st.1.1, s, st.2)) ∧ ports_ok s ∧
  active s = delete (sandbox_id w, id w) (active st.1.2) ∧ failed s = delete (sandbox_id w, id w) (failed st.1.2).
Proof.
  intros H. destruct (clear_inv (sandbox_id w) (id w) st.1.2 (H _)) as (s & E & Hs & Ha & Hf). exists s.
  unfold clear_ports, on_ports. rewrite E. split; [done|]. split; [|done]. intros key. by eapply pub_inv_key.
Qed.

Lemma ensure_ports_served w0 w st st' :
  ports_ok st.1.2 → ensure_workspace_ports_started o w0 st = (Ok w, st') → published_ports w ≠ [] →
  ∃ ip l, assigned_ip w = Some ip ∧ active st'.1.2 !! (sandbox_id w, id w) = Some l ∧
    pub_spec <$> l = published_ports w ∧ Forall (λ p, pub_ip p = ip) l ∧
    ∀ k, k ≠ (sandbox_id w, id w) → active st'.1.2 !! k = active st.1.2 !! k.
Proof.
  intros Hok H Hp. unfold ensure_workspace_ports_started in H. case_bool_decide; [by apply mret_Ok in H as [<- _]|].
  apply stm_bind_Ok in H as (ip & st1 & H1 & H). apply lift_Ok in H1 as [Hip ->].
  apply stm_bind_Ok in H as (pid & st1 & H1 & H). apply lift_Ok in H1 as [_ ->].
  unfold mbind, stm_bind, catch at 1, apply_ports, on_ports in H.
  destruct (apply_workspace_ports _ _ _ _ _ _ _) as [r s] eqn:E in H. destruct r as [statuses|e].
  - pose proof (on_world_ports (o_touch o 1 Request (sandbox_id w0) (id w0)) (st.1.1, s, st.2)) as P.
    destruct (on_world _ _) as [[u|e] st2]; [|done]. injection H as <- <-. cbn in P. rewrite P.
    apply (apply_spec _ _ _ _ _ _ _ _ _ (Hok _)) in E as (_ & Ho & new & bad & _ & Hi & Hs & _ & Ha & _).
    destruct (Hs eq_refl) as [_ Hnew]. exists ip, new. split; [by destruct (assigned_ip w0); [injection Hip as <-|]|].
    split; [|split_and!; [done..|]; intros k Hk; by apply Ho].
    destruct (active s !! _) as [l|]; cbn in Ha; [by subst|]. by subst.
  - destruct (clear_ports w0 _) as [[u1|e1] st2]; [|done]. destruct (catch _ st2) as [[u2|e2] st3]; done.
Qed.


(** A workspace that starts is reachable.  A start that succeeds for a workspace with
    declared ports leaves a listener for each of them, in order, all forwarding to the
    address the workspace runs at, and touches no other workspace's ports. *)
Theorem start_serves_ports params t w st st' :
  ports_ok st.1.2 → workspace_start o params st = (Ok (t, w), st') → published_ports w ≠ [] →
  ∃ ip l, assigned_ip w = Some ip ∧ active st'.1.2 !! (sandbox_id w, id w) = Some l ∧
    pub_spec <$> l = published_ports w ∧ Forall (λ p, pub_ip p = ip) l ∧
    ∀ k, k ≠ (sandbox_id w, id w) → active st'.1.2 !! k = active st.1.2 !! k.
Proof.
  intros Hok H Hp. unfold workspace_start in H.
  apply stm_bind_Ok in H as (sb & st1 & H1 & H). apply lift_Ok in H1 as [_ ->].
  apply stm_bind_Ok in H as (ws & st1 & H1 & H). apply lift_Ok in H1 as [_ ->].
  apply stm_bind_Ok in H as (prev & st1 & H1 & H). pose proof (state_before_off 0 sb ws st) as P1. rewrite H1 in P1. cbn in P1.
  apply stm_bind_Ok in H as (w1 & st2 & H2 & H). pose proof (on_world_ports (o_start o sb ws) st1) as P2. rewrite H2 in P2. cbn in P2.
  apply stm_bind_Ok in H as (u3 & st3 & H3 & H).
  pose proof (on_world_ports (o_touch o 0 Request (sandbox_id w1) (id w1)) st2) as P3. rewrite H3 in P3. cbn in P3.
  apply stm_bind_Ok in H as (w2 & st4 & H4 & H). apply mret_Ok in H as [[= _ ->] ->].
  assert (st3.1.2 = st.1.2) as P by congruence. rewrite <- P in Hok |- *. by apply (ensure_ports_served w1).
Qed.
End ports_theorems.

(** ** Concrete runs *)

(** A host on which everything works, but for the check of a new disk size as given. *)
Definition hosts_with (plan : bool) : op_hosts :=
  mkOpHosts (λ _, sample_txn) (sample_start true true) (sample_stop_op true) (sample_txn, true, true, λ _, sample_attempt)
    (sample_create "2") (λ _, (sample_txn, true, true))
    (mkResizeHost None sample_txn plan sample_txn true true sample_txn true ended sample_txn sample_stop true None sample_txn
       true true sample_txn sample_txn ∅ true (mkLaunch true true (Some (42, 7)) true true true ended) sample_txn true true ended
       sample_txn sample_stop)
    (sample_txn, λ _ _ _, sample_attempt) (sample_batch []) sample_start_sandbox
    (mkSbStop true true sample_txn true true sample_txn true sample_txn true true true true)
    (mkFreeze true sample_txn true true sample_txn true true) (mkFreeze true sample_txn true true sample_txn true true)
    (sample_destroy true) (λ _, (sample_txn, true, "2024-01-03T00:00:00Z")) (λ _, (sample_txn, true)) sample_create_sandbox
    (sample_txn, true) (sample_txn, true) (λ _ _ _ _, None) sample_jobs (λ _ _, true) (λ _ _, true).

Definition sample_hosts : op_hosts := hosts_with true.

Lemma sample_hosts_env : hosts_env sample_hosts.
Proof.
  split; intros; cbn; try discriminate; repeat first [ apply env_safe_sample | split | constructor ];
    intros; apply env_safe_sample || (intros ? ? ? ?; by eexists).
Qed.

(** A daemon with nothing in it; a sandbox is created in it, and a workspace with a
    published port in that. *)
Definition sample_daemon : daemon := (default_registry, mkHost ∅ ∅ ∅, new_publisher, mkActivity ∅ ∅ ∅ ∅).
Definition sample_box : Value := Object [("name", Str "dev"); ("bootstrap_method", Str "cached_rootfs")].
Definition sample_web : Value :=
  Object [("sandbox_id", Str "dev"); ("name", Str "web"); ("disk_mb", Number 64); ("ports", Array [Str "127.0.0.1:8080:80/tcp"])].
Definition sample_target : Value := Object [("sandbox", Str "dev"); ("workspace", Str "web")].
Definition sample_served : daemon :=
  let o := implemented sample_hosts in (dispatch_workspace_create o sample_web (dispatch_sandbox_create o sample_box sample_daemon).2).2.

Lemma sample_served_run : rtc serves sample_daemon sample_served.
Proof.
  eapply rtc_r; [apply rtc_once|]; apply (serves_request _ sample_hosts), handled_sandbox_create || apply (serves_request _ sample_hosts), handled_create;
    apply sample_hosts_env.
Qed.
Lemma sample_served_ports : ports_ok sample_served.1.2.
Proof. exact (proj2 (serves_keep _ _ _ sample_served_run)). Qed.

Lemma sample_port_filed : rtc serves sample_daemon sample_served ∧
  ∃ p, listening sample_served.1.2 !! ("127.0.0.1", 8080) = Some p ∧ ∃ l, active sample_served.1.2 !! pub_key p = Some l ∧ p ∈ l.
Proof.
  split; [exact sample_served_run|].
  destruct (requests_keep_daemon _ _ _ sample_served_run) as (_ & Hl & _). specialize (Hl ("127.0.0.1", 8080)).
  destruct (listening sample_served.1.2 !! ("127.0.0.1", 8080)) as [p|] eqn:E; [|vm_compute in E; discriminate E].
  exists p. split; [reflexivity|]. exact (proj2 (proj1 (Hl p) eq_refl)).
Defined.


Lemma start_serves_ports_witness :
  let stopped := (workspace_stop (implemented sample_hosts) sample_target sample_served).2 in
  ∃ w st', (∃ t, workspace_start (implemented sample_hosts) sample_target stopped = (Ok (t, w), st')) ∧
    ∃ l, active st'.1.2 !! (sandbox_id w, id w) = Some l ∧ pub_spec <$> l = [mkSpec "127.0.0.1" 8080 80 "tcp"].
Proof.
  intros stopped. assert (ports_ok stopped.1.2) as Hok.
  { apply (serves_keep (mkHost ∅ ∅ ∅) (mkActivity ∅ ∅ ∅ ∅)). eapply rtc_r; [apply sample_served_run|].
    apply (serves_request _ sample_hosts); [apply sample_hosts_env|apply handled_stop]. }
  destruct (workspace_start (implemented sample_hosts) sample_target stopped) as [[[t w]|e] st'] eqn:E; [|vm_compute in E; discriminate E].
  assert (published_ports w = [mkSpec "127.0.0.1" 8080 80 "tcp"]) as Hw by (vm_compute in E; injection E as _ <- _; reflexivity).
  exists w, st'. split; [exists t; reflexivity|].
  destruct (start_serves_ports _ _ _ _ _ _ Hok E) as (ip & l & _ & Ha & Hl & _); [rewrite Hw; discriminate|].
  exists l. rewrite Hw in Hl. exact (conj Ha Hl).
Defined.

(** ** Ports that do not follow their workspace *)

(** Removing a sandbox destroys its workspaces and leaves their listeners, as the
    request never speaks to the publisher. *)
Lemma sandbox_remove_leaks_listeners :
  let '(r, st) := dispatch_sandbox_remove (implemented sample_hosts) (Object [("sandbox", Str "dev")]) sample_served in
  is_ok r = true ∧ sandboxes st.1.1.1 = ∅ ∧ is_Some (listening st.1.2 !! ("127.0.0.1", 8080)).
Proof. vm_compute. split; [done|]. split; [done|]. by eexists. Qed.

(** A resize that is refused before anything was stopped has already withdrawn the ports
    of the workspace, which goes on running without them. *)
Lemma resize_refused_drops_ports :
  let '(r, st) := dispatch_workspace_resize (implemented (hosts_with false))
                    (Object [("sandbox", Str "dev"); ("workspace", Str "web"); ("disk_mb", Number 32)]) sample_served in
  is_ok r = false ∧ status <$> find_workspace st.1.1.1 "dev-1" "web-2" = Some Running ∧ listening st.1.2 = ∅.
Proof. by vm_compute. Qed.
