(* ===== verification/Repair.v ===== *)
(** * Registry repair

    Rebuilding the registry from the sandboxes tree (src/src/registry/repair):
    the scan of the tree, what it removes, and the reconciliation of the record
    with what the scan found.

    A directory of the tree is what the scan asks the filesystem about it; what
    the scan does to the tree (directories removed, metadata rewritten) is its
    state. *)
From S2P Require Import Prelude RustStr Paths FileStore Ports Types Registry Records Fleet Start Sandbox.
Open Scope Z_scope.

(** ** The tree *)

Record ws_dir := mkWsDir {
  wd_path : string;
  wd_is_dir : bool;
  wd_name : option string;                         (** the file name, when it is UTF-8 *)
  wd_creating : bool;                              (** [creation_in_progress] *)
  wd_json : option (option WorkspaceMetadata);     (** [workspace.json]: present, readable *)
  wd_runtime : option string;                      (** [find_orphan_runtime] *)
  wd_mounted : bool;                               (** [path_contains_mount] *)
  wd_remove : bool;
  wd_persist : bool }.

Record sb_dir := mkSbDir {
  sd_path : string;
  sd_is_dir : bool;
  sd_name : option string;
  sd_creating : bool;
  sd_json : option (option SandboxMetadata);
  sd_within : bool;                                (** [ensure_path_within] of the rootfs *)
  sd_rootfs : bool;
  sd_layout : bool;
  sd_mounted : bool;
  sd_remove : bool;
  sd_persist : bool;
  sd_workspaces_dir : bool;
  sd_workspaces : list ws_dir }.

Record RetainedOrphan := mkOrphan {
  ro_sandbox_id : string;
  ro_workspace_id : string;
  ro_workspace_dir : string;
  ro_runtime : string }.

Record scan_state := mkScan {
  removed : list string;
  written_sandboxes : list (string * SandboxMetadata);
  written_workspaces : list (string * WorkspaceMetadata);
  retained_orphans : list RetainedOrphan }.

(** [remove_orphan_directory] *)
Definition remove_orphan_directory (path : string) (mounted removable : bool) : stm scan_state unit :=
  assert (negb mounted) "refusing to remove orphaned directory while it or a descendant is still mounted";;
  assert removable "failed to remove orphaned directory";;
  modify (λ s, mkScan (removed s ++ [path]) (written_sandboxes s) (written_workspaces s) (retained_orphans s)).

(** Bail in strict mode, otherwise go on. *)
Definition lenient (strict : bool) (message : string) : stm scan_state unit := assert (negb strict) message.

(** ** Workspaces (repair/scan/workspace.rs) *)

Definition with_location (wid sid path : string) (w : WorkspaceMetadata) : WorkspaceMetadata :=
  mkWorkspace wid sid (name w) (created_at w) (last_request_at w)
    (last_process_activity_at w) (last_stopped_at w) path (filesystem_path w)
    (filesystem_mount_target w) (home_mount_source_path w) (sandbox_rootfs_path w)
    (overlay_home_base_path w) (overlay_home_upper_path w) (overlay_home_work_path w)
    (overlay_home_merged_path w) (auth_providers w) (owner w) (env_tokens w) (published_ports w) (status w)
    (runtime_pid w) (runtime_starttime_ticks w) (namespace_refs w) (clear_tmp_on_restart w) (keep_running w)
    (idle_stop_after_secs w) (destroy_after_secs w) (limits w) (assigned_ip w).

(** A path that is empty or names another directory becomes the directory's. *)
Definition located (recorded actual : string) : string :=
  if bool_decide (recorded = "") then actual else if path_eq recorded actual then recorded else actual.

Definition adopt_workspace (strict : bool) (sid dir_name : string) (d : ws_dir) (w : WorkspaceMetadata)
    : stm scan_state WorkspaceMetadata :=
  (if bool_decide (id w = dir_name) then mret tt
   else lenient strict "strict repair failed: workspace id does not match dir");;
  (if bool_decide (sandbox_id w = sid) then mret tt
   else lenient strict "strict repair failed: workspace sandbox mismatch");;
  (if bool_decide (workspace_path w = "") || path_eq (workspace_path w) (wd_path d) then mret tt
   else lenient strict "strict repair failed: workspace path mismatch");;
  let w' := with_location dir_name sid (located (workspace_path w) (wd_path d)) w in
  let changed := negb (bool_decide (id w' = id w) && bool_decide (sandbox_id w' = sandbox_id w) &&
                       bool_decide (workspace_path w' = workspace_path w)) in
  (if negb strict && changed then
     assert (wd_persist d) "failed to persist normalized metadata";;
     modify (λ s, mkScan (removed s) (written_sandboxes s)
                    (written_workspaces s ++ [(wd_path d +:+ "/workspace.json", w')]) (retained_orphans s))
   else mret tt);;
  mret w'.

(** One turn of the loop: the record the directory contributes. *)
Definition scan_workspace (strict : bool) (sid : string) (known : option RegistrySandbox) (d : ws_dir)
    : stm scan_state (option (string * WorkspaceMetadata)) :=
  if negb (wd_is_dir d) then mret None
  else match wd_name d with
  | None => lenient strict "strict repair failed: workspace directory name is not valid utf-8";; mret None
  | Some dir_name =>
      let known_workspace := match known with
                             | Some e => bool_decide (is_Some (workspaces e !! dir_name))
                             | None => false end in
      if negb known_workspace && wd_creating d then mret None
      else match wd_json d with
      | None =>
          match wd_runtime d with
          | Some runtime =>
              modify (λ s, mkScan (removed s) (written_sandboxes s) (written_workspaces s)
                             (retained_orphans s ++ [mkOrphan sid dir_name (wd_path d) runtime]));;
              mret None
          | None =>
              lenient strict "strict repair failed: missing workspace metadata";;
              remove_orphan_directory (wd_path d) (wd_mounted d) (wd_remove d);;
              mret None
          end
      | Some None =>
          lenient strict "invalid json metadata";;
          remove_orphan_directory (wd_path d) (wd_mounted d) (wd_remove d);;
          mret None
      | Some (Some w) =>
          w' ← adopt_workspace strict sid dir_name d w;
          mret (Some (id w', w'))
      end
  end.

(** The loop over a directory's entries, collecting what they contribute. *)
Fixpoint scan_entries {D A} (entry : D → stm scan_state (option (string * A))) (l : list D) (acc : gmap string A)
    : stm scan_state (gmap string A) :=
  match l with
  | [] => mret acc
  | d :: l' =>
      r ← entry d;
      scan_entries entry l' (match r with Some (k, a) => <[k := a]> acc | None => acc end)
  end.

Definition scan_workspaces (strict : bool) (sid : string) (readable : bool) (known : option RegistrySandbox)
    (l : list ws_dir) : stm scan_state (gmap string WorkspaceMetadata) :=
  assert readable "failed to read the workspaces directory";;
  scan_entries (scan_workspace strict sid known) l ∅.

(** ** Sandboxes (repair/scan/mod.rs) *)

Definition with_sb_location (sid path : string) (m : SandboxMetadata) : SandboxMetadata :=
  mkSandbox sid (sb_name m) (suite m) (mirror m) (bootstrap_method m) (sb_created_at m) path
    (rootfs_path m) (rootfs_lower_path m) (mounted_rootfs_path m) (workspaces_path m) (home_base_path m)
    (sb_limits m) (sb_status m).

Definition same_locations (a b : SandboxMetadata) : bool :=
  bool_decide (sb_id a = sb_id b) && bool_decide (sandbox_path a = sandbox_path b) &&
  bool_decide (mounted_rootfs_path a = mounted_rootfs_path b) &&
  bool_decide (workspaces_path a = workspaces_path b) && bool_decide (home_base_path a = home_base_path b).

Definition adopt_sandbox (strict : bool) (known : option RegistrySandbox) (dir_name : string) (d : sb_dir)
    (m : SandboxMetadata) : stm scan_state (option (string * RegistrySandbox)) :=
  (if bool_decide (sb_id m = dir_name) then mret tt
   else lenient strict "strict repair failed: sandbox id does not match dir");;
  (if bool_decide (sandbox_path m = "") || path_eq (sandbox_path m) (sd_path d) then mret tt
   else lenient strict "strict repair failed: sandbox path mismatch");;
  let m' := normalize_sandbox_metadata (with_sb_location dir_name (located (sandbox_path m) (sd_path d)) m) in
  assert (sd_within d) "rootfs path escapes the sandbox directory";;
  if negb (sd_rootfs d) then
    lenient strict "strict repair failed: missing sandbox rootfs";;
    remove_orphan_directory (sd_path d) (sd_mounted d) (sd_remove d);;
    mret None
  else
    assert (sd_layout d) "failed to create sandbox layout";;
    (if negb strict && negb (same_locations m m') then
       assert (sd_persist d) "failed to persist normalized metadata";;
       modify (λ s, mkScan (removed s) (written_sandboxes s ++ [(sd_path d +:+ "/sandbox.json", m')])
                      (written_workspaces s) (retained_orphans s))
     else mret tt);;
    ws ← scan_workspaces strict (sb_id m') (sd_workspaces_dir d) known (sd_workspaces d);
    mret (Some (sb_id m', mkEntry m' ws)).

Definition scan_sandbox (strict : bool) (r : Registry) (d : sb_dir)
    : stm scan_state (option (string * RegistrySandbox)) :=
  if negb (sd_is_dir d) then mret None
  else match sd_name d with
  | None => lenient strict "strict repair failed: sandbox directory name is not valid utf-8";; mret None
  | Some dir_name =>
      if bool_decide (dir_name = "rootfs-cache") then mret None
      else
        let known := sandboxes r !! dir_name in
        if bool_decide (known = None) && sd_creating d then mret None
        else match sd_json d with
        | None =>
            lenient strict "strict repair failed: missing sandbox metadata";;
            remove_orphan_directory (sd_path d) (sd_mounted d) (sd_remove d);;
            mret None
        | Some None =>
            lenient strict "invalid json metadata";;
            remove_orphan_directory (sd_path d) (sd_mounted d) (sd_remove d);;
            mret None
        | Some (Some m) => adopt_sandbox strict known dir_name d m
        end
  end.

(** [dirs] is what [read_dir] of the sandboxes tree yields; [None] when it cannot
    be read. *)
Definition scan_on_disk (strict : bool) (r : Registry) (dirs : option (list sb_dir))
    : stm scan_state (gmap string RegistrySandbox) :=
  l ← lift (ok_or dirs (plain "failed to read the sandboxes directory"));
  scan_entries (scan_sandbox strict r) l ∅.

(** ** Reconciling the record (repair/mod.rs) *)

(** A field the two copies disagree about, with both values. *)
Inductive Difference :=
  | DiffSandboxStatus (registry disk : SandboxStatus)
  | DiffStatus (registry disk : WorkspaceStatus)
  | DiffPid (registry disk : option Z)
  | DiffStarttime (registry disk : option Z)
  | DiffIp (registry disk : option string).

Record MetadataDisagreement := mkDisagreement {
  md_sandbox_id : string;
  md_workspace_id : option string;
  differences : list Difference;
  adopted : string }.

Record RepairReport := mkReport {
  added_sandboxes : Z;
  removed_sandboxes : Z;
  added_workspaces : Z;
  removed_workspaces : Z;
  migrated_from_version : option Z;
  report_orphans : list RetainedOrphan;
  metadata_disagreements : list MetadataDisagreement }.

Definition count_report (asb rsb aws rws : Z) (l : list MetadataDisagreement) (rep : RepairReport) : RepairReport :=
  mkReport (added_sandboxes rep + asb) (removed_sandboxes rep + rsb) (added_workspaces rep + aws)
    (removed_workspaces rep + rws) (migrated_from_version rep) (report_orphans rep)
    (metadata_disagreements rep ++ l).

Definition ADOPTED_FROM_DISK : string := "disk".

(** [if a != b { push(..) }] *)
Definition push_if {A} `{EqDecision A} (d : A → A → Difference) (a b : A) : list Difference :=
  if bool_decide (a = b) then [] else [d a b].

Definition workspace_state_differences (known disk : WorkspaceMetadata) : list Difference :=
  push_if DiffStatus (status known) (status disk) ++
  push_if DiffPid (runtime_pid known) (runtime_pid disk) ++
  push_if DiffStarttime (runtime_starttime_ticks known) (runtime_starttime_ticks disk) ++
  push_if DiffIp (assigned_ip known) (assigned_ip disk).

Definition disagreement (sid : string) (wid : option string) (l : list Difference) : list MetadataDisagreement :=
  if bool_decide (l = []) then [] else [mkDisagreement sid wid l ADOPTED_FROM_DISK].

(** The loop over the workspaces of a discovered sandbox. *)
Fixpoint reconcile_workspaces (sid : string) (l : list (string * WorkspaceMetadata))
    (existing : gmap string WorkspaceMetadata) (rep : RepairReport)
    : gmap string WorkspaceMetadata * RepairReport :=
  match l with
  | [] => (existing, rep)
  | (wid, w) :: l' =>
      let rep := match existing !! wid with
                 | Some known => count_report 0 0 0 0 (disagreement sid (Some wid) (workspace_state_differences known w)) rep
                 | None => count_report 0 0 1 0 [] rep
                 end in
      reconcile_workspaces sid l' (<[wid := w]> existing) rep
  end.

(** The loops that remove what the scan did not find. *)
Definition remove_stale {A} (found : gmap string A) (existing : gmap string A) : gmap string A * list (string * A) :=
  let stale := filter (λ p, found !! p.1 = None) (btree_list existing) in
  (foldr (λ p m, delete p.1 m) existing stale, stale).

Definition reconcile_existing (sid : string) (found existing : RegistrySandbox) (rep : RepairReport)
    : RegistrySandbox * RepairReport :=
  let rep := count_report 0 0 0 0 (disagreement sid None
               (push_if DiffSandboxStatus (sb_status (metadata existing)) (sb_status (metadata found)))) rep in
  let '(ws, rep) := reconcile_workspaces sid (btree_list (workspaces found)) (workspaces existing) rep in
  let '(ws, stale) := remove_stale (workspaces found) ws in
  (mkEntry (metadata found) ws, count_report 0 0 0 (Z.of_nat (length stale)) [] rep).

Fixpoint reconcile_sandboxes (l : list (string * RegistrySandbox)) (existing : gmap string RegistrySandbox)
    (rep : RepairReport) : gmap string RegistrySandbox * RepairReport :=
  match l with
  | [] => (existing, rep)
  | (sid, found) :: l' =>
      let '(e, rep) := match existing !! sid with
                       | Some e => reconcile_existing sid found e rep
                       | None => (found, count_report 1 0 (Z.of_nat (base.size (workspaces found))) 0 [] rep)
                       end in
      reconcile_sandboxes l' (<[sid := e]> existing) rep
  end.

Definition workspace_count (l : list (string * RegistrySandbox)) : nat :=
  sum_list_with (λ p, base.size (workspaces p.2)) l.

Definition reconcile (r : Registry) (discovered : gmap string RegistrySandbox) (rep : RepairReport)
    : Registry * RepairReport :=
  let '(s, rep) := reconcile_sandboxes (btree_list discovered) (sandboxes r) rep in
  let '(s, stale) := remove_stale discovered s in
  (with_sandboxes s r,
   count_report 0 (Z.of_nat (length stale)) 0 (Z.of_nat (workspace_count stale)) [] rep).

(** ** The staging tree of creates (repair/orphan.rs) *)

Definition STAGING_GRACE : Z := 60.

(** A directory of the staging tree, and one of its kinds; [None] inside a list is an
    entry that cannot be read. *)
Record staging_dir := mkStaging {
  sg_path : string;
  sg_is_dir : bool;
  sg_creating : bool;                  (** [creation_in_progress] *)
  sg_age : option Z;                   (** [directory_age], in seconds *)
  sg_mounted : bool;
  sg_remove : bool }.
Record staging_kind := mkStagingKind { sk_is_dir : bool; sk_entries : option (list (option staging_dir)) }.

Fixpoint sweep_staging (l : list (option staging_dir)) : stm scan_state unit :=
  match l with
  | [] => mret tt
  | None :: _ => throw "failed to read an entry of the staging tree"
  | Some d :: l' =>
      (if negb (sg_is_dir d) || sg_creating d then mret tt
       else
         age ← lift (ok_or (sg_age d) (plain "failed to inspect a staging directory"));
         if age <? STAGING_GRACE then mret tt
         else remove_orphan_directory (sg_path d) (sg_mounted d) (sg_remove d));;
      sweep_staging l'
  end.
Fixpoint sweep_kinds (l : list (option staging_kind)) : stm scan_state unit :=
  match l with
  | [] => mret tt
  | None :: _ => throw "failed to read an entry of the staging tree"
  | Some k :: l' =>
      match (if sk_is_dir k then sk_entries k else None) with Some entries => sweep_staging entries | None => mret tt end;;
      sweep_kinds l'
  end.
Definition remove_stale_creation_staging (kinds : option (list (option staging_kind))) : stm scan_state unit :=
  match kinds with Some l => sweep_kinds l | None => mret tt end.

(** ** The whole repair *)

Section repair.
Context {raw : Type} `{!Codec Registry raw}.
Abbreviation store := (fstore raw Registry).
Implicit Types (dir : string).

(** [declared_registry_version]: the [version] member of a file that is JSON,
    which [declared] reads. *)
Definition declared_registry_version (h : registry_io) (declared : raw → option Z) dir (st : store) : option Z :=
  if rio_read h then f ← files st !! registry_path dir; declared (content f) else None.

Record repair_host := mkRepairHost {
  rp_io : registry_io;
  rp_declared : raw → option Z;
  rp_tree : bool;                      (** the sandboxes directory exists or can be made *)
  rp_dirs : option (list sb_dir);
  rp_staging : option (list (option staging_kind)) }.

(** What repair starts from: the registry, or an empty one when the file is corrupt
    but not a newer release's. *)
Definition load_for_repair (h : repair_host) dir : stm store (Registry * list MigrationStep) := λ st,
  match load_registry_with_migrations (rp_io h) dir st with
  | (Ok loaded, st') => (Ok loaded, st')
  | (Err _, st') =>
      match declared_registry_version (rp_io h) (rp_declared h) dir st' with
      | Some v => (_ ← validate_registry_version v; Ok (default_registry, []), st')
      | None => (Ok (default_registry, []), st')
      end
  end.

Definition on_scan {A} (m : stm scan_state A) : stm (store * scan_state) A := λ st,
  let '(res, s) := m st.2 in (res, (st.1, s)).
(** The failure of the staging sweep is logged. *)
Definition sweep_ignored (h : repair_host) : stm (store * scan_state) unit := λ st,
  (Ok tt, (st.1, (remove_stale_creation_staging (rp_staging h) st.2).2)).

Definition repair_registry (h : repair_host) dir (strict : bool) : stm (store * scan_state) RepairReport :=
  on_fst (ensure_registry (rp_io h) dir);;
  with_file_lock (rio_lock (rp_io h)) (rio_unlock (rp_io h))
    (loaded ← on_fst (load_for_repair h dir);
     on_fst (assert (rp_tree h) "failed to create the sandboxes directory");;
     discovered ← on_scan (scan_on_disk strict loaded.1 (rp_dirs h));
     st ← get;
     let rep := mkReport 0 0 0 0 (step_from <$> head loaded.2) (retained_orphans st.2) [] in
     sweep_ignored h;;
     let '(registry, rep) := reconcile loaded.1 discovered rep in
     on_fst (save_registry_unlocked (rp_io h) dir registry);;
     on_fst (update_cache (rp_io h) dir registry);;
     mret rep).
End repair.

(** ** The record is the tree *)

Lemma remove_stale_lookup {A} (found existing : gmap string A) k :
  (remove_stale found existing).1 !! k = if decide (found !! k = None) then None else existing !! k.
Proof.
  unfold remove_stale. cbn [fst].
  assert (∀ l : list (string * A), foldr (λ p m, delete p.1 m) existing l !! k =
    if decide (k ∈ l.*1) then None else existing !! k) as Hl.
  { induction l as [|[k' a] l IH]; cbn; [done|]. destruct (decide (k' = k)) as [->|Hne].
    - rewrite lookup_delete_eq. rewrite decide_True; [done|left].
    - rewrite lookup_delete_ne by done. rewrite IH. apply decide_ext. set_solver. }
  rewrite Hl. case_decide as Hin; case_decide as Hf; try done.
  - apply list_elem_of_fmap in Hin as ([k' a] & -> & [Hn _]%list_elem_of_filter). done.
  - destruct (existing !! k) as [a|] eqn:Ha; [|done]. exfalso. apply Hin, list_elem_of_fmap.
    exists (k, a). split; [done|]. apply list_elem_of_filter. split; [done|]. by apply elem_of_btree_list.
Qed.

Lemma reconcile_workspaces_lookup sid l existing rep k :
  NoDup l.*1 →
  (reconcile_workspaces sid l existing rep).1 !! k
    = match (list_to_map l : gmap string WorkspaceMetadata) !! k with Some w => Some w | None => existing !! k end.
Proof.
  revert existing rep. induction l as [|[wid w] l IH]; intros existing rep Hnd; [done|].
  cbn in Hnd. apply list.NoDup_cons in Hnd as [Hni Hnd]. cbn [reconcile_workspaces]. rewrite IH by done.
  cbn [list_to_map foldr]. destruct (decide (k = wid)) as [->|Hne].
  - rewrite !lookup_insert_eq. by rewrite not_elem_of_list_to_map_1.
  - by rewrite !lookup_insert_ne by done.
Qed.

(** What one side holds that the other does not. *)
Definition workspaces_at (s : gmap string RegistrySandbox) (sid : string) : gmap string WorkspaceMetadata :=
  match s !! sid with Some e => workspaces e | None => ∅ end.
Definition gained (before after : gmap string RegistrySandbox) : nat :=
  sum_list_with (λ p, base.size (workspaces p.2 ∖ workspaces_at before p.1)) (btree_list after).

Lemma length_missing {A} (found m : gmap string A) :
  length (filter (λ p, found !! p.1 = None) (btree_list m)) = base.size (m ∖ found).
Proof.
  rewrite <-length_map_to_list. apply Permutation_length, NoDup_Permutation.
  - apply list.NoDup_filter. rewrite btree_list_perm. apply NoDup_map_to_list.
  - apply NoDup_map_to_list.
  - intros [k a]. rewrite list_elem_of_filter, elem_of_btree_list, elem_of_map_to_list, lookup_difference_Some.
    cbn. tauto.
Qed.

(** The disagreements between two copies of a sandbox, its own record first. *)
Definition workspace_disagreements (sid : string) (l : list (string * WorkspaceMetadata))
    (existing : gmap string WorkspaceMetadata) : list MetadataDisagreement :=
  l ≫= λ p, match existing !! p.1 with
            | Some known => disagreement sid (Some p.1) (workspace_state_differences known p.2)
            | None => []
            end.
Definition sandbox_disagreements (sid : string) (found existing : RegistrySandbox) : list MetadataDisagreement :=
  disagreement sid None (push_if DiffSandboxStatus (sb_status (metadata existing)) (sb_status (metadata found))) ++
  workspace_disagreements sid (btree_list (workspaces found)) (workspaces existing).
Definition all_disagreements (l : list (string * RegistrySandbox)) (existing : gmap string RegistrySandbox)
    : list MetadataDisagreement :=
  l ≫= λ p, match existing !! p.1 with Some e => sandbox_disagreements p.1 p.2 e | None => [] end.

Lemma remove_stale_count {A} (found existing : gmap string A) :
  length (remove_stale found existing).2 = base.size (existing ∖ found).
Proof. apply length_missing. Qed.

Lemma filter_ext_in {A} (P Q : A → Prop) `{!∀ x, Decision (P x), !∀ x, Decision (Q x)} (l : list A) :
  (∀ x, x ∈ l → P x ↔ Q x) → filter P l = filter Q l.
Proof.
  induction l as [|x l IH]; intros Hpq; [done|]. rewrite !filter_cons, IH by (intros; apply Hpq; by right).
  assert (P x ↔ Q x) by (apply Hpq; left). destruct (decide (P x)), (decide (Q x)); tauto.
Qed.

Lemma bind_ext_in {A B} (f g : A → list B) (l : list A) : (∀ x, x ∈ l → f x = g x) → l ≫= f = l ≫= g.
Proof.
  induction l as [|x l IH]; intros H; [done|]. cbn. rewrite H by left. f_equal. apply IH. intros y Hy. apply H. by right.
Qed.

Lemma sum_ext_in {A} (f g : A → nat) (l : list A) :
  (∀ x, x ∈ l → f x = g x) → sum_list_with f l = sum_list_with g l.
Proof.
  induction l as [|x l IH]; intros H; [done|]. cbn. rewrite H by left. f_equal. apply IH. intros y Hy. apply H. by right.
Qed.

Lemma fresh_key {A B} (l : list (string * A)) (m : gmap string B) k b k' a :
  k ∉ l.*1 → (k', a) ∈ l → <[k := b]> m !! k' = m !! k'.
Proof.
  intros Hk Hin. rewrite lookup_insert_ne; [done|]. intros ->. apply Hk, list_elem_of_fmap. by exists (k', a).
Qed.

Lemma count_report_0 rep : count_report 0 0 0 0 [] rep = rep.
Proof. destruct rep. unfold count_report. cbn. by rewrite !Z.add_0_r, app_nil_r. Qed.

Lemma count_report_add a b c d l a' b' c' d' l' rep :
  count_report a b c d l (count_report a' b' c' d' l' rep) = count_report (a' + a) (b' + b) (c' + c) (d' + d) (l' ++ l) rep.
Proof. unfold count_report. cbn. by rewrite !Z.add_assoc, app_assoc. Qed.

Lemma reconcile_workspaces_report sid l existing rep :
  NoDup l.*1 →
  (reconcile_workspaces sid l existing rep).2
    = count_report 0 0 (Z.of_nat (length (filter (λ p, existing !! p.1 = None) l))) 0
        (workspace_disagreements sid l existing) rep.
Proof.
  revert existing rep. induction l as [|[wid w] l IH]; intros existing rep Hnd; cbn in Hnd.
  { symmetry. apply count_report_0. }
  apply list.NoDup_cons in Hnd as [Hni Hnd]. cbn [reconcile_workspaces]. rewrite IH by done.
  rewrite (filter_ext_in (λ p, <[wid := w]> existing !! p.1 = None) (λ p, existing !! p.1 = None))
    by (intros [k a] Hin; cbn; by rewrite (fresh_key l existing wid w k a)).
  unfold workspace_disagreements. rewrite (bind_ext_in _ (λ p, match existing !! p.1 with
      | Some known => disagreement sid (Some p.1) (workspace_state_differences known p.2) | None => [] end) l)
    by (intros [k a] Hin; cbn; by rewrite (fresh_key l existing wid w k a)).
  cbn [mbind list_bind fst snd]. rewrite filter_cons. cbn [fst].
  case_decide as Hx; destruct (existing !! wid); try done; rewrite count_report_add; f_equal. cbn [length]. lia.
Qed.

Lemma list_to_map_btree {A} (m : gmap string A) : list_to_map (btree_list m) = m.
Proof. rewrite (list_to_map_proper _ (map_to_list m)); [apply list_to_map_to_list|apply NoDup_btree_keys|apply btree_list_perm]. Qed.

(** One sandbox both sides know: the entry becomes the scanned one. *)
Lemma reconcile_existing_exact sid found existing rep :
  reconcile_existing sid found existing rep
    = (found, count_report 0 0 (Z.of_nat (base.size (workspaces found ∖ workspaces existing)))
                (Z.of_nat (base.size (workspaces existing ∖ workspaces found)))
                (sandbox_disagreements sid found existing) rep).
Proof.
  unfold reconcile_existing. set (rep1 := count_report 0 0 0 0 _ rep).
  pose proof (reconcile_workspaces_report sid (btree_list (workspaces found)) (workspaces existing) rep1
    (NoDup_btree_keys _)) as Hrep.
  assert (∀ k, (reconcile_workspaces sid (btree_list (workspaces found)) (workspaces existing) rep1).1 !! k
    = match workspaces found !! k with Some w => Some w | None => workspaces existing !! k end) as Hws.
  { intros k. rewrite reconcile_workspaces_lookup by apply NoDup_btree_keys. by rewrite list_to_map_btree. }
  destruct (reconcile_workspaces _ _ _ _) as [ws rep2]. cbn in Hrep, Hws. subst rep2.
  pose proof (remove_stale_count (workspaces found) ws) as Hc.
  pose proof (remove_stale_lookup (workspaces found) ws) as Hl.
  destruct (remove_stale (workspaces found) ws) as [ws' stale]. cbn in Hc, Hl.
  assert (ws' = workspaces found) as ->.
  { apply map_eq. intros k. rewrite Hl, Hws. case_decide as Hk; [done|]. by destruct (workspaces found !! k). }
  assert (ws ∖ workspaces found = workspaces existing ∖ workspaces found) as Hd.
  { apply map_eq. intros k. rewrite !lookup_difference, Hws. by destruct (workspaces found !! k). }
  rewrite Hd in Hc. rewrite length_missing, Hc. destruct found as [m ws0]. f_equal. unfold rep1.
  rewrite !count_report_add. cbn [Z.add]. rewrite ?Z.add_0_r, app_nil_r. done.
Qed.

Lemma reconcile_sandboxes_exact l existing rep :
  NoDup l.*1 →
  (∀ k, (reconcile_sandboxes l existing rep).1 !! k
     = match (list_to_map l : gmap string RegistrySandbox) !! k with Some e => Some e | None => existing !! k end) ∧
  (reconcile_sandboxes l existing rep).2
    = count_report (Z.of_nat (length (filter (λ p, existing !! p.1 = None) l))) 0
        (Z.of_nat (sum_list_with (λ p, base.size (workspaces p.2 ∖ workspaces_at existing p.1)) l))
        (Z.of_nat (sum_list_with (λ p, base.size (workspaces_at existing p.1 ∖ workspaces p.2)) l))
        (all_disagreements l existing) rep.
Proof.
  revert existing rep. induction l as [|[sid found] l IH]; intros existing rep Hnd; cbn in Hnd.
  { split; [done|]. symmetry. apply count_report_0. }
  apply list.NoDup_cons in Hnd as [Hni Hnd]. cbn [reconcile_sandboxes].
  assert (match existing !! sid with
      | Some e => reconcile_existing sid found e rep
      | None => (found, count_report 1 0 (Z.of_nat (base.size (workspaces found))) 0 [] rep) end
    = (found, count_report (if existing !! sid is None then 1 else 0) 0
         (Z.of_nat (base.size (workspaces found ∖ workspaces_at existing sid)))
         (Z.of_nat (base.size (workspaces_at existing sid ∖ workspaces found)))
         (match existing !! sid with Some e => sandbox_disagreements sid found e | None => [] end) rep)) as ->.
  { unfold workspaces_at. destruct (existing !! sid) as [e|]; [apply reconcile_existing_exact|].
    by rewrite map_difference_empty, map_empty_difference, map_size_empty. }
  assert (∀ k a, (k, a) ∈ l → workspaces_at (<[sid := found]> existing) k = workspaces_at existing k) as Hat.
  { intros k a Hin. unfold workspaces_at. by rewrite (fresh_key l _ _ _ _ a). }
  destruct (IH (<[sid := found]> existing) (count_report (if existing !! sid is None then 1 else 0) 0
         (Z.of_nat (base.size (workspaces found ∖ workspaces_at existing sid)))
         (Z.of_nat (base.size (workspaces_at existing sid ∖ workspaces found)))
         (match existing !! sid with Some e => sandbox_disagreements sid found e | None => [] end) rep) Hnd) as [H1 ->].
  split.
  - intros k. rewrite H1. cbn [list_to_map foldr]. destruct (decide (k = sid)) as [->|Hne].
    + rewrite !lookup_insert_eq. by rewrite not_elem_of_list_to_map_1.
    + by rewrite !lookup_insert_ne by done.
  - rewrite count_report_add.
    rewrite (filter_ext_in (λ p, <[sid := found]> existing !! p.1 = None) (λ p, existing !! p.1 = None))
      by (intros [k a] Hin; cbn; by rewrite (fresh_key l existing sid found k a)).
    unfold all_disagreements. rewrite (bind_ext_in _ (λ p, match existing !! p.1 with
        | Some e => sandbox_disagreements p.1 p.2 e | None => [] end) l)
      by (intros [k a] Hin; cbn; by rewrite (fresh_key l existing sid found k a)).
    rewrite (sum_ext_in _ (λ p, base.size (workspaces p.2 ∖ workspaces_at existing p.1)) l)
      by (intros [k a] Hin; cbn; by rewrite (Hat k a)).
    rewrite (sum_ext_in (λ p, base.size (workspaces_at (<[sid := found]> existing) p.1 ∖ workspaces p.2))
      (λ p, base.size (workspaces_at existing p.1 ∖ workspaces p.2)) l)
      by (intros [k a] Hin; cbn; by rewrite (Hat k a)).
    cbn [mbind list_bind sum_list_with fst snd]. rewrite filter_cons, !Nat2Z.inj_add. cbn [fst].
    f_equal. case_decide as Hx; destruct (existing !! sid); try done. cbn [length]. lia.
Qed.

Lemma sum_list_with_app' {A} (f : A → nat) l1 l2 :
  sum_list_with f (l1 ++ l2) = (sum_list_with f l1 + sum_list_with f l2)%nat.
Proof. induction l1; cbn; lia. Qed.
Lemma sum_list_with_fmap' {A B} (f : B → nat) (g : A → B) l : sum_list_with f (g <$> l) = sum_list_with (λ x, f (g x)) l.
Proof. induction l; cbn; congruence. Qed.
Lemma sum_list_with_0 {A} (f : A → nat) (l : list A) : (∀ x, x ∈ l → f x = 0%nat) → sum_list_with f l = 0%nat.
Proof. intros H. rewrite (sum_ext_in f (λ _, 0%nat) l H). clear H. by induction l. Qed.

Lemma NoDup_keys_filter {A} (P : string * A → Prop) `{!∀ p, Decision (P p)} (l : list (string * A)) :
  NoDup l.*1 → NoDup (filter P l).*1.
Proof.
  induction l as [|p l IH]; [done|]. cbn [fmap list_fmap]. intros [Hn Hl]%list.NoDup_cons. rewrite filter_cons.
  case_decide; [|auto]. cbn. apply list.NoDup_cons. split; [|auto]. intros (q & Hq & Hin)%list_elem_of_fmap.
  apply Hn, list_elem_of_fmap. apply list_elem_of_filter in Hin as [_ Hin]. eauto.
Qed.

(** The workspaces lost in sandboxes both sides know, and with the sandboxes only
    the registry knew, are the ones the registry had and the tree has not. *)
Lemma lost_workspaces (found before after : gmap string RegistrySandbox) :
  (∀ k, after !! k = match found !! k with Some e => Some e | None => before !! k end) →
  (sum_list_with (λ p, base.size (workspaces_at before p.1 ∖ workspaces p.2)) (btree_list found) +
   workspace_count (remove_stale found after).2)%nat = gained found before.
Proof.
  intros Hafter. unfold gained, workspace_count.
  set (h k := base.size (workspaces_at before k ∖ workspaces_at found k)).
  set (stale := (remove_stale found after).2).
  assert (∀ k e, (k, e) ∈ stale ↔ before !! k = Some e ∧ found !! k = None) as Hstale.
  { intros k e. unfold stale, remove_stale. cbn [snd]. rewrite list_elem_of_filter, elem_of_btree_list, Hafter. cbn.
    destruct (found !! k); naive_solver. }
  assert (NoDup stale.*1) as Hnd.
  { unfold stale, remove_stale. cbn [snd]. generalize (NoDup_btree_keys after). unfold btree_keys.
    generalize (btree_list after). apply NoDup_keys_filter. }
  rewrite (sum_ext_in _ (λ p, h p.1) (btree_list found)).
  2:{ intros [k e] Hin%elem_of_btree_list. unfold h, workspaces_at. cbn. by rewrite Hin. }
  rewrite (sum_ext_in _ (λ p, h p.1) stale).
  2:{ intros [k e] [Hb Hf]%Hstale. unfold h, workspaces_at. cbn. by rewrite Hb, Hf, map_difference_empty. }
  rewrite (sum_ext_in _ (λ p, h p.1) (btree_list before)).
  2:{ intros [k e] Hin%elem_of_btree_list. unfold h, workspaces_at. cbn. by rewrite Hin. }
  rewrite <-!(sum_list_with_fmap' h fst), <-sum_list_with_app'.
  set (extra := filter (λ k, before !! k = None) (btree_keys found)).
  rewrite (sum_list_with_perm h _ (extra ++ (btree_list before).*1)).
  { rewrite sum_list_with_app', (sum_list_with_0 h extra); [done|].
    intros k [Hk _]%list_elem_of_filter. unfold h, workspaces_at. by rewrite Hk, map_empty_difference. }
  assert (∀ (m : gmap string RegistrySandbox) k, k ∈ btree_keys m ↔ is_Some (m !! k)) as Hkeys.
  { intros m k. unfold btree_keys. rewrite list_elem_of_fmap. split.
    - intros ([k' e] & -> & Hin%elem_of_btree_list). by exists e.
    - intros [e He]. exists (k, e). by rewrite elem_of_btree_list. }
  assert (∀ k, k ∈ stale.*1 ↔ is_Some (before !! k) ∧ found !! k = None) as Hsk.
  { intros k. rewrite list_elem_of_fmap. split.
    - intros ([k' e] & -> & [Hb Hf]%Hstale). split; [by exists e|done].
    - intros [[e He] Hf]. exists (k, e). by rewrite Hstale. }
  apply NoDup_Permutation.
  - apply list.NoDup_app. split_and!; [apply NoDup_btree_keys| |done].
    intros k Hk%Hkeys [_ Hf]%Hsk. rewrite Hf in Hk. by destruct Hk.
  - apply list.NoDup_app. split_and!; [apply list.NoDup_filter, NoDup_btree_keys| |apply NoDup_btree_keys].
    intros k [Hn _]%list_elem_of_filter Hk%Hkeys. rewrite Hn in Hk. by destruct Hk.
  - intros k. change ((btree_list found).*1) with (btree_keys found).
    change ((btree_list before).*1) with (btree_keys before).
    rewrite !elem_of_app, Hsk, Hkeys, Hkeys. unfold extra. rewrite list_elem_of_filter, Hkeys.
    destruct (found !! k), (before !! k); naive_solver.
Qed.

Lemma reconcile_registry r discovered rep :
  (reconcile r discovered rep).1 = mkRegistry (version r) (generation r) discovered.
Proof.
  unfold reconcile.
  destruct (reconcile_sandboxes_exact (btree_list discovered) (sandboxes r) rep (NoDup_btree_keys _)) as [Hs _].
  destruct (reconcile_sandboxes _ _ _) as [s rep1]. cbn in Hs. rewrite list_to_map_btree in Hs.
  pose proof (remove_stale_lookup discovered s) as Hl.
  destruct (remove_stale discovered s) as [s' stale]. cbn in Hl |- *. unfold with_sandboxes. f_equal.
  apply map_eq. intros k. rewrite Hl, Hs. case_decide as Hk; [done|]. by destruct (discovered !! k).
Qed.

(** Repair leaves the registry describing the scanned tree and nothing else,
    and its report is exact: it counts the sandboxes and workspaces one side had
    and the other had not, and lists, in order, every record whose lifecycle
    fields the two copies disagreed about.  The version and generation stay. *)
Theorem repair_rebuilds r discovered rep :
  let '(r', rep') := reconcile r discovered rep in
  r' = mkRegistry (version r) (generation r) discovered ∧
  added_sandboxes rep' = added_sandboxes rep + Z.of_nat (base.size (discovered ∖ sandboxes r)) ∧
  removed_sandboxes rep' = removed_sandboxes rep + Z.of_nat (base.size (sandboxes r ∖ discovered)) ∧
  added_workspaces rep' = added_workspaces rep + Z.of_nat (gained (sandboxes r) discovered) ∧
  removed_workspaces rep' = removed_workspaces rep + Z.of_nat (gained discovered (sandboxes r)) ∧
  metadata_disagreements rep' =
    metadata_disagreements rep ++ all_disagreements (btree_list discovered) (sandboxes r).
Proof.
  pose proof (reconcile_registry r discovered rep) as Hr. unfold reconcile in *.
  destruct (reconcile_sandboxes_exact (btree_list discovered) (sandboxes r) rep (NoDup_btree_keys _)) as [Hs Hrep].
  destruct (reconcile_sandboxes _ _ _) as [s rep1]. cbn in Hs, Hrep. subst rep1.
  rewrite list_to_map_btree in Hs.
  pose proof (lost_workspaces discovered (sandboxes r) s Hs) as Hlost.
  pose proof (remove_stale_count discovered s) as Hc.
  destruct (remove_stale discovered s) as [s' stale]. cbn in Hc, Hlost, Hr.
  assert (s ∖ discovered = sandboxes r ∖ discovered) as Hd.
  { apply map_eq. intros k. rewrite !lookup_difference, Hs. by destruct (discovered !! k). }
  rewrite Hd in Hc. rewrite count_report_add, length_missing, Hc. unfold count_report. cbn.
  rewrite app_nil_r. unfold gained, workspace_count in *. split_and!; try lia; done.
Qed.

(** ** What the scan may touch *)

(** A directory the scan may remove: no mount below it, not being created unless the
    registry already has it, and metadata that is missing, with no live runtime found for
    a workspace, or that cannot be read; a sandbox also when its rootfs is gone. *)
Definition unowned_workspace (known : option RegistrySandbox) (d : ws_dir) : Prop :=
  wd_mounted d = false ∧
  (wd_creating d = false ∨ ∃ e k, known = Some e ∧ wd_name d = Some k ∧ is_Some (workspaces e !! k)) ∧
  (wd_json d = None ∧ wd_runtime d = None ∨ wd_json d = Some None).
Definition unowned_sandbox (r : Registry) (d : sb_dir) : Prop :=
  sd_mounted d = false ∧
  (sd_creating d = false ∨ ∃ k, sd_name d = Some k ∧ is_Some (sandboxes r !! k)) ∧
  (sd_json d = None ∨ sd_json d = Some None ∨ sd_rootfs d = false).

Inductive removable (r : Registry) (dirs : list sb_dir) : string → Prop :=
  | removable_sandbox d : d ∈ dirs → unowned_sandbox r d → removable r dirs (sd_path d)
  | removable_workspace d w k : d ∈ dirs → sd_name d = Some k → w ∈ sd_workspaces d →
      unowned_workspace (sandboxes r !! k) w → removable r dirs (wd_path w).

(** What a scan that began at [s0] has done: removed only what [Q] allows, and
    nothing at all when it is strict. *)
Definition scan_inv (strict : bool) (Q : string → Prop) (s0 s : scan_state) : Prop :=
  (∀ path, path ∈ removed s → path ∈ removed s0 ∨ Q path) ∧
  (strict = true → removed s = removed s0 ∧ written_sandboxes s = written_sandboxes s0 ∧
                   written_workspaces s = written_workspaces s0).

Lemma preserves_guard {S A} (P : S → Prop) ok m (k : stm S A) :
  (ok = true → preserves P k) → preserves P (assert ok m;; k).
Proof. intros H st Hst. destruct ok; cbn; [|done]. by apply H. Qed.

Section scan_effects.
Context (strict : bool) (Q : string → Prop) (s0 : scan_state).
Abbreviation P := (scan_inv strict Q s0).

Lemma remove_orphan_inv path mounted removable :
  strict = false → (mounted = false → Q path) → preserves P (remove_orphan_directory path mounted removable).
Proof.
  intros Hs HQ. unfold remove_orphan_directory. apply preserves_guard. intros Hm%negb_true_iff.
  apply preserves_bind; [auto with enclave|intros _]. apply preserves_modify. intros s [H1 H2].
  split; [|by rewrite Hs]. cbn. intros p [Hp| ->%list_elem_of_singleton]%elem_of_app; [auto|]. right. by apply HQ.
Qed.

Lemma lenient_inv {A} message (k : stm scan_state A) :
  (strict = false → preserves P k) → preserves P (lenient strict message;; k).
Proof. intros H. apply preserves_guard. intros Hs%negb_true_iff. auto. Qed.

Lemma checked_inv (b : bool) message : preserves P (if b then mret tt else lenient strict message).
Proof. unfold lenient. destruct b; auto with enclave. Qed.
Hint Resolve checked_inv : enclave.

Lemma adopt_workspace_inv sid dir_name d w : preserves P (adopt_workspace strict sid dir_name d w).
Proof.
  unfold adopt_workspace. do 3 (apply preserves_bind; [auto with enclave|intros _]).
  apply preserves_bind; [|auto with enclave]. destruct strict eqn:Hs; cbn [negb andb]; [auto with enclave|].
  destruct (negb _); [|auto with enclave]. apply preserves_bind; [auto with enclave|intros _].
  apply preserves_modify. intros s [H1 _]. by split.
Qed.

Lemma scan_workspace_inv sid known d :
  (strict = false → unowned_workspace known d → Q (wd_path d)) →
  preserves P (scan_workspace strict sid known d).
Proof.
  intros HQ. unfold scan_workspace. destruct (negb (wd_is_dir d)); [auto with enclave|].
  destruct (wd_name d) as [k|] eqn:Hk; [|apply lenient_inv; auto with enclave].
  set (kn := match known with Some _ => _ | None => _ end).
  destruct (negb kn && wd_creating d) eqn:Hc; [auto with enclave|].
  assert (wd_creating d = false ∨ ∃ e k, known = Some e ∧ wd_name d = Some k ∧ is_Some (workspaces e !! k)) as Hown.
  { apply andb_false_iff in Hc as [Hc%negb_false_iff|Hc]; [right|by left]. unfold kn in Hc.
    destruct known as [e|]; [|done]. apply bool_decide_eq_true in Hc. exists e, k. auto. }
  destruct (wd_json d) as [[w|]|] eqn:Hj.
  - apply preserves_bind; [apply adopt_workspace_inv|auto with enclave].
  - apply lenient_inv. intros Hs. apply preserves_bind; [|auto with enclave].
    apply remove_orphan_inv; [done|]. intros Hm. apply HQ; [done|]. split_and!; auto.
  - destruct (wd_runtime d) eqn:Hr.
    + apply preserves_bind; [|auto with enclave]. apply preserves_modify. intros s1 [H1 H2]. by split.
    + apply lenient_inv. intros Hs. apply preserves_bind; [|auto with enclave].
      apply remove_orphan_inv; [done|]. intros Hm. apply HQ; [done|]. split_and!; auto.
Qed.

Lemma scan_entries_inv {D A} (entry : D → stm scan_state (option (string * A))) l acc :
  (∀ d, d ∈ l → preserves P (entry d)) → preserves P (scan_entries entry l acc).
Proof.
  revert acc. induction l as [|d l IH]; intros acc H; cbn; [auto with enclave|].
  apply preserves_bind; [apply H; left|]. intros o. apply IH. intros d' Hd. apply H. by right.
Qed.

Lemma scan_sandbox_inv r d dirs :
  (strict = false → ∀ path, removable r dirs path → Q path) → d ∈ dirs →
  preserves P (scan_sandbox strict r d).
Proof.
  intros HQ Hd. unfold scan_sandbox. destruct (negb (sd_is_dir d)); [auto with enclave|].
  destruct (sd_name d) as [k|] eqn:Hk; [|apply lenient_inv; auto with enclave].
  case_bool_decide; [auto with enclave|].
  destruct (bool_decide _ && sd_creating d) eqn:Hc; [auto with enclave|].
  assert (sd_creating d = false ∨ ∃ k, sd_name d = Some k ∧ is_Some (sandboxes r !! k)) as Hown.
  { apply andb_false_iff in Hc as [Hc%bool_decide_eq_false|Hc]; [right|by left]. exists k. split; [done|].
    by apply not_eq_None_Some. }
  assert (sd_json d = None ∨ sd_json d = Some None ∨ sd_rootfs d = false → strict = false →
    preserves P (remove_orphan_directory (sd_path d) (sd_mounted d) (sd_remove d))) as Hrm.
  { intros Hno Hs. apply remove_orphan_inv; [done|]. intros Hm. apply HQ; [done|]. apply removable_sandbox; [done|].
    split_and!; auto. }
  destruct (sd_json d) as [[m|]|] eqn:Hj;
    [|apply lenient_inv; intros Hs; apply preserves_bind; auto with enclave..].
  unfold adopt_sandbox. do 3 (apply preserves_bind; [auto with enclave|intros _]).
  destruct (negb (sd_rootfs d)) eqn:Hr.
  { apply lenient_inv. intros Hs. apply preserves_bind; [|auto with enclave]. apply Hrm; [|done].
    right. right. by apply negb_true_iff. }
  apply preserves_bind; [auto with enclave|intros _]. apply preserves_bind.
  { destruct strict eqn:Hs; cbn [negb andb]; [auto with enclave|]. destruct (negb (same_locations _ _)); [|auto with enclave].
    apply preserves_bind; [auto with enclave|intros _]. apply preserves_modify. intros s [H1 _]. by split. }
  intros _. apply preserves_bind; [|auto with enclave]. unfold scan_workspaces.
  apply preserves_bind; [auto with enclave|intros _]. apply scan_entries_inv. intros w Hw.
  apply scan_workspace_inv. intros Hs Hu. apply HQ; [done|]. by eapply removable_workspace.
Qed.
End scan_effects.

(** ** What the scan finds *)

(** A directory with readable metadata that no running create owns. *)
Definition kept_workspace (known : option RegistrySandbox) (d : ws_dir) (k : string) : Prop :=
  wd_is_dir d = true ∧ wd_name d = Some k ∧
  (wd_creating d = false ∨ ∃ e, known = Some e ∧ is_Some (workspaces e !! k)) ∧
  ∃ w, wd_json d = Some (Some w).
Definition kept_sandbox (r : Registry) (d : sb_dir) (k : string) : Prop :=
  sd_is_dir d = true ∧ sd_name d = Some k ∧ k ≠ "rootfs-cache" ∧
  (sd_creating d = false ∨ is_Some (sandboxes r !! k)) ∧ sd_rootfs d = true ∧
  ∃ m, sd_json d = Some (Some m).

Lemma scan_entries_Ok {D A} (entry : D → stm scan_state (option (string * A))) l acc s m s' :
  scan_entries entry l acc s = (Ok m, s') →
  (∀ k a, m !! k = Some a → acc !! k = Some a ∨ ∃ d s1 s2, d ∈ l ∧ entry d s1 = (Ok (Some (k, a)), s2)) ∧
  (∀ k, is_Some (acc !! k) → is_Some (m !! k)) ∧
  (∀ d k, d ∈ l → (∀ s1 o s2, entry d s1 = (Ok o, s2) → ∃ a, o = Some (k, a)) → is_Some (m !! k)).
Proof.
  revert acc s. induction l as [|d l IH]; intros acc s H; cbn in H.
  { stm_inv H. split_and!; [auto|done|]. intros d k Hd. by apply not_elem_of_nil in Hd. }
  apply stm_bind_Ok in H as (o & s1 & H1 & H). apply IH in H as (Hin & Hacc & Hall). split_and!.
  - intros k a Hk. apply Hin in Hk as [Hk|(d' & s2 & s3 & Hd & Hr)].
    + destruct o as [[k' a']|]; [|auto]. destruct (decide (k = k')) as [->|Hne].
      * rewrite lookup_insert_eq in Hk. simplify_eq. right. exists d, s, s1. split; [left|done].
      * rewrite lookup_insert_ne in Hk by done. auto.
    + right. exists d', s2, s3. split; [by right|done].
  - intros k Hk. apply Hacc. destruct o as [[k' a']|]; [|done]. destruct (decide (k = k')) as [->|Hne].
    + rewrite lookup_insert_eq. by eexists.
    + by rewrite lookup_insert_ne by done.
  - intros d' k [->|Hd]%elem_of_cons Hr; [|by eapply Hall].
    apply Hr in H1 as [a ->]. apply Hacc. rewrite lookup_insert_eq. by eexists.
Qed.

Lemma adopt_workspace_Ok strict sid k d w s w' s' :
  adopt_workspace strict sid k d w s = (Ok w', s') → id w' = k ∧ sandbox_id w' = sid.
Proof.
  unfold adopt_workspace. intros H. do 4 apply stm_bind_Ok in H as (? & ? & _ & H). by stm_inv H.
Qed.

Lemma scan_workspace_Ok strict sid known d s o s' :
  scan_workspace strict sid known d s = (Ok o, s') →
  (∀ k w, o = Some (k, w) → wd_name d = Some k ∧ id w = k ∧ sandbox_id w = sid) ∧
  (∀ k, kept_workspace known d k → ∃ w, o = Some (k, w)).
Proof.
  unfold scan_workspace. destruct (wd_is_dir d) eqn:Hdir; cbn [negb].
  2:{ intros H. stm_inv H. split; [done|]. intros k (? & _). congruence. }
  destruct (wd_name d) as [k0|] eqn:Hn.
  2:{ intros H. apply stm_bind_Ok in H as (? & ? & _ & H). stm_inv H. split; [done|]. intros k (_ & ? & _). congruence. }
  set (kn := match known with Some _ => _ | None => _ end).
  destruct (negb kn && wd_creating d) eqn:Hc.
  { intros H. stm_inv H. split; [done|]. intros k (_ & Hk & Hown & _).
    apply andb_true_iff in Hc as [Hc1%negb_true_iff Hc2]. destruct Hown as [?|(e & -> & He)]; [congruence|].
    rewrite Hn in Hk. injection Hk as <-. unfold kn in Hc1. by apply bool_decide_eq_false in Hc1. }
  assert ((wd_json d = None ∨ wd_json d = Some None) →
    (∀ k w, None = Some (k, w) → Some k0 = Some k ∧ id w = k ∧ sandbox_id w = sid) ∧
    (∀ k, kept_workspace known d k → ∃ w : WorkspaceMetadata, None = Some (k, w))) as Hnone.
  { intros Hj. split; [done|]. intros k (_ & _ & _ & w & Hw). destruct Hj; congruence. }
  destruct (wd_json d) as [[w|]|] eqn:Hj; intros H.
  - apply stm_bind_Ok in H as (w' & s1 & H1 & H). apply adopt_workspace_Ok in H1 as [Hid Hsid]. stm_inv H.
    split.
    + intros k w0 [= <- <-]. by rewrite Hid.
    + intros k (_ & Hk & _). rewrite Hn in Hk. injection Hk as <-. rewrite Hid. by eexists.
  - do 2 apply stm_bind_Ok in H as (? & ? & _ & H). stm_inv H. apply Hnone; auto.
  - destruct (wd_runtime d).
    + apply stm_bind_Ok in H as (? & ? & _ & H). stm_inv H. apply Hnone; auto.
    + do 2 apply stm_bind_Ok in H as (? & ? & _ & H). stm_inv H. apply Hnone; auto.
Qed.

(** What one sandbox directory contributes. *)
Definition entry_ok (r : Registry) (d : sb_dir) (k : string) (e : RegistrySandbox) : Prop :=
  sd_name d = Some k ∧ sb_id (metadata e) = k ∧
  (∀ wid w, workspaces e !! wid = Some w → id w = wid ∧ sandbox_id w = k) ∧
  (∀ w wid, w ∈ sd_workspaces d → kept_workspace (sandboxes r !! k) w wid → is_Some (workspaces e !! wid)).

Lemma scan_workspaces_Ok strict sid b known l s m s' :
  scan_workspaces strict sid b known l s = (Ok m, s') →
  (∀ wid w, m !! wid = Some w → id w = wid ∧ sandbox_id w = sid) ∧
  (∀ d wid, d ∈ l → kept_workspace known d wid → is_Some (m !! wid)).
Proof.
  intros H. unfold scan_workspaces in H. apply stm_bind_Ok in H as (? & ? & _ & H).
  apply scan_entries_Ok in H as (Hin & _ & Hall). split.
  - intros wid w [Hw|(d & s1 & s2 & _ & Hd)]%Hin; [done|].
    apply scan_workspace_Ok in Hd as [Hd _]. by destruct (Hd wid w).
  - intros d wid Hd Hk. apply (Hall d); [done|]. intros s1 o s2 Ho.
    apply scan_workspace_Ok in Ho as [_ Ho]. by apply Ho.
Qed.

Lemma adopt_sandbox_Ok strict r k d m s o s' :
  sd_name d = Some k →
  adopt_sandbox strict (sandboxes r !! k) k d m s = (Ok o, s') →
  (∀ k' e, o = Some (k', e) → k' = k ∧ entry_ok r d k e) ∧ (sd_rootfs d = true → is_Some o).
Proof.
  intros Hn H. unfold adopt_sandbox in H. do 3 apply stm_bind_Ok in H as (? & ? & _ & H).
  destruct (sd_rootfs d); cbn [negb] in H.
  - do 2 apply stm_bind_Ok in H as (? & ? & _ & H). apply stm_bind_Ok in H as (ws & s1 & H1 & H).
    apply scan_workspaces_Ok in H1 as [Hids Hkept]. stm_inv H. split; [|by eexists].
    intros k' e [= <- <-]. by split_and!.
  - do 2 apply stm_bind_Ok in H as (? & ? & _ & H). stm_inv H. by split.
Qed.

Lemma scan_sandbox_Ok strict r d s o s' :
  scan_sandbox strict r d s = (Ok o, s') →
  (∀ k e, o = Some (k, e) → entry_ok r d k e) ∧ (∀ k, kept_sandbox r d k → ∃ e, o = Some (k, e)).
Proof.
  intros H. unfold scan_sandbox in H.
  assert (o = None → (∀ k, kept_sandbox r d k → False) →
    (∀ k e, o = Some (k, e) → entry_ok r d k e) ∧ (∀ k, kept_sandbox r d k → ∃ e, o = Some (k, e))) as Hnone
    by (intros -> Hno; split; [done|intros k Hk; by destruct (Hno k)]).
  destruct (sd_is_dir d) eqn:Hdir; cbn [negb] in H; [|stm_inv H; apply Hnone; [done|intros k (? & _); congruence]].
  destruct (sd_name d) as [k0|] eqn:Hn.
  2:{ apply stm_bind_Ok in H as (? & ? & _ & H). stm_inv H. apply Hnone; [done|]. intros k (_ & ? & _). congruence. }
  destruct (bool_decide (k0 = "rootfs-cache")) eqn:Hcache.
  { stm_inv H. apply Hnone; [done|]. intros k (_ & ? & ? & _). apply bool_decide_eq_true in Hcache. congruence. }
  destruct (bool_decide _ && sd_creating d) eqn:Hc.
  { stm_inv H. apply Hnone; [done|]. intros k (_ & Hk & _ & Hown & _). rewrite Hn in Hk. injection Hk as <-.
    apply andb_true_iff in Hc as [Hc1%bool_decide_eq_true Hc2]. rewrite Hc1, Hc2 in Hown.
    by destruct Hown as [|[? ?]]. }
  destruct (sd_json d) as [[m|]|] eqn:Hj.
  - apply adopt_sandbox_Ok in H as [H1 H2]; [|done]. split.
    + intros k e Ho. by destruct (H1 k e Ho) as [-> ?].
    + intros k (_ & Hk & _ & _ & Hr & _). rewrite Hn in Hk. injection Hk as <-. destruct (H2 Hr) as [[k' e] ->].
      destruct (H1 k' e eq_refl) as [-> _]. by eexists.
  - do 2 apply stm_bind_Ok in H as (? & ? & _ & H). stm_inv H. apply Hnone; [done|].
    intros k (_ & _ & _ & _ & _ & m & Hm). congruence.
  - do 2 apply stm_bind_Ok in H as (? & ? & _ & H). stm_inv H. apply Hnone; [done|].
    intros k (_ & _ & _ & _ & _ & m & Hm). congruence.
Qed.

(** C31: what repair's scan of the tree removes, rewrites and finds.  Whatever its
    outcome, it removes only directories below which nothing is mounted, which no running
    create owns unless the registry records them, and which are one of: a workspace with no
    metadata file and no live runtime found for it, a workspace or a sandbox whose metadata
    cannot be read, a sandbox with no metadata file, or a sandbox whose rootfs is gone.  In
    strict mode it removes and rewrites nothing.  When it succeeds, what it returns
    holds every record under its own id, and among them every sandbox directory with readable
    metadata and a rootfs, with every workspace directory in it with readable metadata.  (A
    workspace whose metadata cannot be read is removed without asking for its
    runtime: [unreadable_live_workspace_removed].) *)
Theorem scan_respects_owners strict r dirs s res s' :
  NoDup (sd_name <$> dirs) → scan_on_disk strict r (Some dirs) s = (res, s') →
  (∀ path, path ∈ removed s' → path ∈ removed s ∨ strict = false ∧ removable r dirs path) ∧
  (strict = true → removed s' = removed s ∧ written_sandboxes s' = written_sandboxes s ∧
                   written_workspaces s' = written_workspaces s) ∧
  (∀ discovered, res = Ok discovered →
    (∀ sid e, discovered !! sid = Some e → sb_id (metadata e) = sid ∧
       ∀ wid w, workspaces e !! wid = Some w → id w = wid ∧ sandbox_id w = sid) ∧
    (∀ d sid, d ∈ dirs → kept_sandbox r d sid → ∃ e, discovered !! sid = Some e ∧
       ∀ w wid, w ∈ sd_workspaces d → kept_workspace (sandboxes r !! sid) w wid → is_Some (workspaces e !! wid))).
Proof.
  intros Hnd H.
  assert (scan_inv strict (λ path, strict = false ∧ removable r dirs path) s s') as [H1 H2].
  { replace s' with (scan_on_disk strict r (Some dirs) s).2 by by rewrite H.
    unfold scan_on_disk. cbn. apply (scan_entries_inv strict _ s); [|by split; [auto|]].
    intros d Hd. apply (scan_sandbox_inv _ _ _ r d dirs); auto. }
  split_and!; [done|done|]. intros discovered ->. unfold scan_on_disk in H. apply stm_bind_Ok in H as (l & s1 & Hl & H).
  stm_inv Hl. injection Hl as <-. apply scan_entries_Ok in H as (Hin & _ & Hall). split.
  - intros sid e [He|(d & s2 & s3 & _ & Hd)]%Hin; [done|].
    apply scan_sandbox_Ok in Hd as [Hd _]. by destruct (Hd sid e eq_refl) as (_ & ? & ? & _).
  - intros d sid Hd Hk. destruct (Hall d sid Hd) as [e He].
    { intros s2 o s3 Ho. apply scan_sandbox_Ok in Ho as [_ Ho]. by apply Ho. }
    exists e. split; [done|]. apply Hin in He as [He|(d' & s2 & s3 & Hd' & Hr)]; [done|].
    apply scan_sandbox_Ok in Hr as [Hr _]. destruct (Hr sid e eq_refl) as (Hn & _ & _ & Hkept).
    assert (d' = d) as ->; [|done].
    destruct Hk as (_ & Hn2 & _). apply list_elem_of_lookup in Hd as [i Hi], Hd' as [j Hj].
    assert (i = j) as -> by (eapply NoDup_lookup; [done|by rewrite list_lookup_fmap, Hi; cbn; rewrite Hn2|
      by rewrite list_lookup_fmap, Hj; cbn; rewrite Hn]). congruence.
Qed.

(** A workspace whose metadata file is damaged is removed although its runtime is alive: the
    scan looks for the runtime only when there is no metadata file. *)
Theorem unreadable_live_workspace_removed sid known d k runtime s :
  wd_is_dir d = true → wd_name d = Some k → wd_creating d = false → wd_json d = Some None →
  wd_runtime d = Some runtime → wd_mounted d = false → wd_remove d = true →
  let '(res, s') := scan_workspace false sid known d s in
  res = Ok None ∧ removed s' = removed s ++ [wd_path d] ∧ retained_orphans s' = retained_orphans s.
Proof.
  intros H1 H2 H3 H4 H5 H6 H7. unfold scan_workspace. rewrite H1, H2, H3, H4, andb_false_r.
  unfold remove_orphan_directory. by rewrite H6, H7.
Qed.

(** The staging sweep removes only directories that no running create owns, that are at
    least a minute old and below which nothing is mounted; it touches nothing else. *)
Definition stale_staging (kinds : list (option staging_kind)) (path : string) : Prop :=
  ∃ k entries d age, Some k ∈ kinds ∧ sk_is_dir k = true ∧ sk_entries k = Some entries ∧ Some d ∈ entries ∧
    sg_path d = path ∧ sg_creating d = false ∧ sg_age d = Some age ∧ STAGING_GRACE ≤ age ∧ sg_mounted d = false.

Lemma sweep_staging_inv strict Q s0 l : strict = false →
  (∀ d age, Some d ∈ l → sg_creating d = false → sg_age d = Some age → STAGING_GRACE ≤ age → sg_mounted d = false → Q (sg_path d)) →
  preserves (scan_inv strict Q s0) (sweep_staging l).
Proof.
  intros Hs. induction l as [|[d|] l IH]; intros HQ; cbn; [auto with enclave| |by intros st Hst].
  apply preserves_bind; [|intros _; apply IH; intros d' age Hd; apply (HQ d' age); by right].
  destruct (negb (sg_is_dir d) || sg_creating d) eqn:E; [auto with enclave|]. apply orb_false_iff in E as [_ Hc].
  destruct (sg_age d) as [age|] eqn:Ea; cbn [ok_or]; [|by intros st Hst].
  assert (preserves (scan_inv strict Q s0) (if age <? STAGING_GRACE then mret tt
    else remove_orphan_directory (sg_path d) (sg_mounted d) (sg_remove d))) as Hone; [|exact Hone].
  destruct (Z.ltb_spec age STAGING_GRACE); [auto with enclave|]. apply remove_orphan_inv; [done|]. intros Hm.
  apply (HQ d age); [by left|done..].
Qed.

Theorem staging_sweep_guarded kinds s path :
  path ∈ removed (remove_stale_creation_staging (Some kinds) s).2 → path ∈ removed s ∨ stale_staging kinds path.
Proof.
  enough (∀ l, l ⊆ kinds → preserves (scan_inv false (stale_staging kinds) s) (sweep_kinds l)) as H.
  { destruct (H kinds ltac:(done) s) as [Hr _]; [by split; [auto|]|]. apply Hr. }
  induction l as [|[k|] l IH]; intros Hl; cbn; [auto with enclave| |by intros st Hst].
  apply preserves_bind; [|intros _; apply IH; set_solver].
  destruct (sk_is_dir k) eqn:Hd; [|auto with enclave]. destruct (sk_entries k) as [entries|] eqn:He; [|auto with enclave].
  apply sweep_staging_inv; [done|]. intros d age Hin ????. exists k, entries, d, age. split_and!; [set_solver|done..].
Qed.

(** ** What adopting the tree can undo *)

Lemma find_reconciled r discovered rep sid wid :
  find_workspace (reconcile r discovered rep).1 sid wid = (e ← discovered !! sid; workspaces e !! wid).
Proof. by rewrite reconcile_registry. Qed.

(** Repair forgets activity.  A request's activity is stamped in the registry
    only, so the copy on disk is older; a repair that runs next, as one does for
    every sandbox created, puts the older copy back and the stamp is gone. *)
Theorem repair_forgets_activity r h sid wid w discovered stamp kind rep :
  find_workspace r sid wid = Some w → (e ← discovered !! sid; workspaces e !! wid) = Some w →
  let touched_registry := (touch_registry_only stamp kind sid wid (r, h)).2.1 in
  (∃ w1, find_workspace touched_registry sid wid = Some w1 ∧ last_request_at w1 = Some stamp) ∧
  find_workspace (reconcile touched_registry discovered rep).1 sid wid = Some w.
Proof.
  intros Hw Hd touched_registry. split; [|by rewrite find_reconciled].
  exists (touched kind stamp w). split; [|by destruct kind].
  unfold touched_registry, touch_registry_only, mbind, stm_bind. cbn. rewrite Hw. cbn.
  rewrite find_set_workspace, decide_True; [done|]. apply find_workspace_Some in Hw as (e & ? & _). split_and!; try done.
Qed.

(** Repair breaks a start in flight.  The launch writes its running record to
    the workspace's directory before it commits it; a repair in between adopts
    that record, and the commit, which would have succeeded, is refused. *)
Theorem repair_breaks_start r h sid wid w prepared discovered rep :
  find_workspace r sid wid = Some w → status w = Starting → status prepared = Running →
  (e ← discovered !! sid; workspaces e !! wid) = Some prepared →
  is_ok (commit_runtime prepared sid wid (r, h)).1 = true ∧
  is_ok (commit_runtime prepared sid wid ((reconcile r discovered rep).1, h)).1 = false.
Proof.
  intros Hw Hs Hp Hd. unfold commit_runtime, get_sandbox, get_workspace, mbind, stm_bind. cbn -[reconcile].
  rewrite find_reconciled, Hw, Hd. apply find_workspace_Some in Hw as (e & -> & _). split.
  - cbn. by rewrite Hs.
  - destruct (sandboxes (reconcile r discovered rep).1 !! sid); cbn; [|done]. by rewrite Hp.
Qed.

Definition sample_report : RepairReport := mkReport 0 0 0 0 None [] [].
Definition sample_tree (ws : list WorkspaceMetadata) : gmap string RegistrySandbox :=
  sandboxes (sample_world None ws).1.

Lemma repair_forgets_activity_witness :
  let w := sample_workspace "a" "web" Running (Some 42) (Some "10.200.0.10") in
  let r := (touch_registry_only "2024-05-05T00:00:00Z" Request "s" "a" (sample_world None [w])).2.1 in
  find_workspace (reconcile r (sample_tree [w]) sample_report).1 "s" "a" = Some w ∧ last_request_at w = None.
Proof.
  intros w r. split; [|by vm_compute].
  destruct (sample_world None [w]) as [r0 h] eqn:E. unfold r.
  apply (repair_forgets_activity r0 h "s" "a" w (sample_tree [w]) "2024-05-05T00:00:00Z" Request sample_report);
    injection E as <- <-; by vm_compute.
Defined.

Lemma repair_breaks_start_witness :
  let starting := sample_workspace "a" "web" Starting None (Some "10.200.0.10") in
  let prepared := sample_workspace "a" "web" Running (Some 42) (Some "10.200.0.10") in
  let h := mkHost ∅ ∅ ∅ in
  let r := (sample_world None [starting]).1 in
  is_ok (commit_runtime prepared "s" "a" (r, h)).1 = true ∧
  is_ok (commit_runtime prepared "s" "a" ((reconcile r (sample_tree [prepared]) sample_report).1, h)).1 = false.
Proof.
  intros starting prepared h r.
  apply (repair_breaks_start r h "s" "a" starting prepared (sample_tree [prepared]) sample_report); by vm_compute.
Defined.

Lemma unreadable_live_workspace_removed_witness :
  let d := mkWsDir "/t/s/live" true (Some "live") false (Some None) (Some "pid 7") false true true in
  removed (scan_workspace false "s" None d (mkScan [] [] [] [])).2 = ["/t/s/live"].
Proof.
  intros d. pose proof (unreadable_live_workspace_removed "s" None d "live" "pid 7" (mkScan [] [] [] [])) as H.
  destruct (scan_workspace false "s" None d (mkScan [] [] [] [])) as [res s'].
  by destruct H as (_ & H & _).
Defined.

(** A tree with a sandbox, a workspace of it, a directory whose metadata is gone,
    and one whose metadata is gone but whose runtime lives. *)
Definition sample_ws_dir : ws_dir :=
  mkWsDir "/t/s/a" true (Some "a") false
    (Some (Some (sample_workspace "a" "web" Stopped None None))) None false true true.
Definition sample_sb_dir : sb_dir :=
  mkSbDir "/t/s" true (Some "s") false (Some (Some (sample_sandbox None))) true true true false true true true
    [sample_ws_dir; mkWsDir "/t/s/old" true (Some "old") false None None false true true;
     mkWsDir "/t/s/live" true (Some "live") false None (Some "pid 7") false true true].
Abbreviation sample_dirs := [sample_sb_dir].

Lemma scan_respects_owners_witness :
  ∃ discovered s', scan_on_disk false default_registry (Some sample_dirs) (mkScan [] [] [] []) = (Ok discovered, s') ∧
    removed s' = ["/t/s/old"] ∧ length (retained_orphans s') = 1%nat ∧
    removable default_registry sample_dirs "/t/s/old" ∧
    ∃ e, discovered !! "s" = Some e ∧ is_Some (workspaces e !! "a").
Proof.
  destruct (scan_on_disk false default_registry (Some sample_dirs) (mkScan [] [] [] [])) as [[discovered|err] s'] eqn:E;
    [|by vm_compute in E].
  assert (NoDup (sd_name <$> sample_dirs)) as Hnd by by apply NoDup_singleton.
  destruct (scan_respects_owners false default_registry sample_dirs _ _ _ Hnd E) as (Hrm & _ & Hok).
  destruct (Hok _ eq_refl) as [_ Hkept].
  assert (removed s' = ["/t/s/old"] ∧ length (retained_orphans s') = 1%nat) as [H1 H2]
    by (clear -E; vm_compute in E; by injection E as _ <-).
  exists discovered, s'. split_and!; try done.
  - destruct (Hrm "/t/s/old") as [Hin|[_ ?]]; [rewrite H1; left|by apply not_elem_of_nil in Hin|done].
  - destruct (Hkept sample_sb_dir "s") as (e & He & Hw); [left| |].
    + split_and!; try done; [by left|by eexists].
    + exists e. split; [done|]. apply (Hw sample_ws_dir); [left|].
      split_and!; try done; [by left|by eexists].
Defined.
