(* ===== verification/Client.v ===== *)
(** * The client of the daemon (src/src/client.rs, [verify_secure_socket] of src/src/fsutil/permissions.rs)

    A request is written as one line and its answer read as one line, however the bytes arrive.  The JSON
    reader and writer are parameters; durations are numbers of milliseconds. *)
From S2P Require Import Prelude RustStr Text Json Types Auth Exec Deadlines.
#[local] Open Scope Z_scope.

Definition JSON_ESCAPE_WORST_CASE : Z := 6.
Definition MAX_RESPONSE_BYTES : Z := 2 * MAX_HELPER_OUTPUT_BYTES * JSON_ESCAPE_WORST_CASE + 64 * 1024.
Definition CLIENT_IO_TIMEOUT : Z := 300 * 1000.
Definition DAEMON_RESPONSE_MARGIN : Z := 30 * 1000.
Record ResponsePayload := mkPayload {
  rp_ok : bool; rp_result : option Value; rp_error : option string; rp_code : option ErrorCode; rp_operation_id : option string }.

(** ** Reaching the daemon *)

Inductive DaemonUnreachable := SocketMissing | ConnectionFailed (refused : bool).
(** An error of the client: one that means that nothing was reached, or any other. *)
Inductive client_error := UnreachableError (u : DaemonUnreachable) | OtherError (e : error).
Definition is_daemon_unreachable (e : client_error) : bool := match e with UnreachableError _ => true | OtherError _ => false end.
Definition unreachable_display (u : DaemonUnreachable) : string :=
  match u with
  | SocketMissing => "daemon socket not found. Start daemon with `enclave daemon start`."
  | ConnectionFailed true => "daemon socket has nothing listening on it, so a previous daemon exited without cleaning up. Start daemon with `enclave daemon start`."
  | ConnectionFailed false => "failed to connect to daemon"
  end.
Record socket_meta := mkSocketMeta { sm_symlink : bool; sm_socket : bool; sm_uid : Z; sm_mode : Z }.
Definition verify_secure_socket (euid : Z) (meta : option socket_meta) : result unit :=
  m ← ok_or meta (plain "failed to stat socket");
  if sm_symlink m then bail "socket path must not be a symlink"
  else if negb (sm_socket m) then bail "path is not a unix socket"
  else if negb (sm_uid m =? euid) then bail "socket is owned by another uid"
  else if negb (Z.land (Z.land (sm_mode m) 511) 18 =? 0) then bail "socket is group/world writable"
  else Ok tt.

Inductive connect_result := Connected | ConnectRefused | ConnectError.
Record client_host := mkClientHost {
  ch_exists : bool;
  ch_euid : Z;
  ch_meta : option socket_meta;
  ch_connect : connect_result;
  ch_timeouts : bool;                  (** the timeouts could be set *)
  ch_write : bool;                     (** the request could be written *)
  ch_answers : list read_answer }.     (** what reading the answer yields; a timeout is [ReadBlock] *)
Definition connect_daemon (h : client_host) : client_error + unit :=
  if negb (ch_exists h) then inl (UnreachableError SocketMissing)
  else match verify_secure_socket (ch_euid h) (ch_meta h) with
       | Err e => inl (OtherError e)
       | Ok _ =>
           match ch_connect h with
           | ConnectRefused => inl (UnreachableError (ConnectionFailed true))
           | ConnectError => inl (UnreachableError (ConnectionFailed false))
           | Connected => if ch_timeouts h then inr tt else inl (OtherError (plain "failed to set daemon read timeout"))
           end
       end.

(** ** The request and its answer *)

Definition request_read_timeout (env : string → option string) (action : string) (params : Value) : stm (list string) Z :=
  let background := default false (value_get "background" params ≫= as_bool) in
  if bool_decide (action = "workspace.exec") && negb background
  then d ← helper_response env; mret (value d + DAEMON_RESPONSE_MARGIN)
  else mret CLIENT_IO_TIMEOUT.
(** A line with its break, when the text has one. *)
Fixpoint through_newline (s : string) : option string :=
  match s with
  | EmptyString => None
  | String c s' => if (c =? "010")%char then Some (String c "") else String c <$> through_newline s'
  end.
(** [read_line] on the stream, cut at [limit] bytes. *)
Fixpoint read_line (limit : Z) (answers : list read_answer) (line : string) : result string :=
  match answers with
  | [] | ReadBlock :: _ | ReadFailed :: _ => bail "failed reading daemon response"
  | ReadEof :: _ => Ok line
  | ReadInterrupted :: rest => read_line limit rest line
  | ReadData s :: rest =>
      let piece := str_take (Z.to_nat (limit - str_len line)) s in
      match through_newline piece with
      | Some l => Ok (line +:+ l)
      | None => let line' := line +:+ piece in if limit <=? str_len line' then Ok line' else read_line limit rest line'
      end
  end.
Definition read_response_line (answers : list read_answer) : result string :=
  line ← read_line (MAX_RESPONSE_BYTES + 1) answers "";
  if negb (is_utf8 line) then bail "failed reading daemon response"
  else if bool_decide (trim line = "") then bail "daemon returned empty response"
  else if MAX_RESPONSE_BYTES <? str_len line then bail "daemon response exceeded maximum size"
  else match strip_suffix_char "010" line with None => bail "daemon response was not newline-terminated" | Some _ => Ok line end.
(** The state: the operation id of the last answer. *)
Definition parse_response_payload (decode : string → option ResponsePayload) (line : string) : stm (option string) Value :=
  response ← lift (ok_or (decode line) (plain "invalid daemon response payload"));
  modify (λ _, rp_operation_id response);;
  if rp_ok response then mret (default Null (rp_result response))
  else
    let message := default "daemon returned an unknown error" (rp_error response) in
    let rendered := match rp_operation_id response with Some i => message +:+ " (operation " +:+ i +:+ ")" | None => message end in
    match rp_code response with Some c => lift (bail_coded c rendered) | None => throw rendered end.
Definition send_request (h : client_host) (decode : string → option ResponsePayload) (last : option string) : (client_error + Value) * option string :=
  match connect_daemon h with
  | inl e => (inl e, last)
  | inr _ =>
      if negb (ch_write h) then (inl (OtherError (plain "failed to write")), last)
      else match read_response_line (ch_answers h) with
           | Err e => (inl (OtherError e), last)
           | Ok line => match parse_response_payload decode line last with
                        | (Ok v, last') => (inr v, last')
                        | (Err e, last') => (inl (OtherError e), last')
                        end
           end
  end.

(** ** What the client is told *)

Lemma through_newline_app (s t : string) : free "010" s = true → through_newline (s +:+ String "010" t) = Some (s +:+ String "010" "").
Proof.
  induction s as [|c s IH]; cbn; [done|]. intros [Hc Hs]%andb_true_iff. destruct (c =? "010")%char; [done|]. by rewrite IH.
Qed.
Lemma through_newline_free (s : string) : free "010" s = true → through_newline s = None.
Proof. induction s as [|c s IH]; cbn; [done|]. intros [Hc Hs]%andb_true_iff. destruct (c =? "010")%char; [done|]. by rewrite IH. Qed.
Lemma str_app_split (p q a b : string) : p +:+ q = a +:+ b → (∃ k, a = p +:+ k ∧ q = k +:+ b) ∨ (∃ c k, p = a +:+ String c k ∧ b = String c k +:+ q).
Proof.
  revert a. induction p as [|c p IH]; intros a E; [by left; exists a|]. destruct a as [|d a]; [right; by exists c, p|].
  injection E as -> E. destruct (IH a E) as [(k & -> & ->)|(c & k & -> & ->)]; [left; by exists k|right; by exists c, k].
Qed.
(** Pieces of a line: they hold its bytes in order, and the last one its break and whatever follows. *)
Lemma read_line_pieces limit pieces (line rest : string) acc : free "010" line = true →
  str_len (acc +:+ line) < limit → foldr String.append "" pieces = line +:+ String "010" rest → 
  read_line limit (ReadData <$> pieces) acc = Ok (acc +:+ line +:+ String "010" "").
Proof.
  revert line acc. induction pieces as [|p pieces IH]; intros line acc Hf Hl E; cbn [foldr fmap list_fmap read_line] in *; [by destruct line|].
  rewrite str_len_app in Hl. apply str_app_split in E as [(k & -> & E)|(c & k & -> & E)].
  - unfold free in Hf. rewrite str_all_app in Hf. apply andb_true_iff in Hf as [Hp Hk]. rewrite str_len_app in Hl. pose proof (str_len_pos k) as Hk0.
    rewrite str_take_all by (unfold str_len in *; lia). rewrite through_newline_free by done. rewrite str_len_app.
    destruct (Z.leb_spec limit (str_len acc + str_len p)); [lia|]. change ((fix go l := match l with [] => [] | x :: l' => ReadData x :: go l' end) pieces) with (ReadData <$> pieces).
    rewrite (IH k); [by rewrite !str_app_assoc|done|rewrite !str_len_app; lia|done].
  - injection E as <- E. assert (∃ t, str_take (Z.to_nat (limit - str_len acc)) (line +:+ String "010" k) = line +:+ String "010" t) as [t ->].
    { rewrite str_take_app_any, str_take_all by (unfold str_len in *; lia).
      destruct (Z.to_nat (limit - str_len acc) - String.length line)%nat eqn:En; [unfold str_len in *; lia|]. by eexists. }
    by rewrite through_newline_app.
Qed.

(** However the line of an answer is cut into reads, the client reads exactly it: it reports the result of the
    daemon when there was one, and otherwise an error with the category the daemon gave. *)
Theorem answer_reported (h : client_host) (decode : string → option ResponsePayload) (last : option string) (pieces : list string)
    (line rest : string) (payload : ResponsePayload) :
  connect_daemon h = inr tt → ch_write h = true → ch_answers h = ReadData <$> pieces →
  foldr String.append "" pieces = line +:+ String "010" rest → free "010" line = true → str_len line < MAX_RESPONSE_BYTES →
  strict_utf8 line → trim (line +:+ String "010" "") ≠ "" → decode (line +:+ String "010" "") = Some payload →
  (send_request h decode last).2 = rp_operation_id payload ∧
  match (send_request h decode last).1 with
  | inr v => rp_ok payload = true ∧ v = default Null (rp_result payload)
  | inl e => rp_ok payload = false ∧ is_daemon_unreachable e = false ∧ ∃ e', e = OtherError e' ∧ code_of e' = default Internal (rp_code payload)
  end.
Proof.
  intros Hc Hw Ha Hp Hf Hl Hu Ht Hd. unfold send_request. rewrite Hc, Hw, Ha. cbn [negb].
  assert (read_response_line (ReadData <$> pieces) = Ok (line +:+ String "010" "")) as ->.
  { unfold read_response_line. rewrite (read_line_pieces _ pieces line rest) by (done || (change ("" +:+ line) with line; lia)). cbn [mbind result_bind String.append].
    rewrite strict_is_utf8 by (apply strict_utf8_app; [done|by apply ascii_strict]). cbn [negb]. rewrite bool_decide_eq_false_2 by done.
    rewrite str_len_app. destruct (Z.ltb_spec MAX_RESPONSE_BYTES (str_len line + str_len (String "010" ""))) as [Hx|_]; [change (str_len (String "010" "")) with 1 in Hx; lia|].
    destruct (strip_suffix_char "010" (line +:+ String "010" "")) eqn:Es; [done|]. exfalso. clear -Es. revert Es. induction line as [|c l IH]; [done|].
    cbn. destruct (l +:+ String "010" "") eqn:El; [by destruct l|]. destruct (strip_suffix_char _ _); [done|by apply IH]. }
  unfold parse_response_payload, lift, modify, mbind, stm_bind, ok_or. rewrite Hd.
  destruct (rp_ok payload); [done|]. destruct (rp_code payload); cbn; split_and!; try done; by eexists.
Qed.
Definition sample_payload : ResponsePayload := mkPayload false None (Some "busy") (Some Conflict) (Some "op1").
Definition sample_client : client_host := mkClientHost true 0 (Some (mkSocketMeta false true 0 384)) Connected true true [ReadData "{"; ReadData ("}" +:+ String "010" "")].
Lemma answer_reported_witness :
  (send_request sample_client (λ _, Some sample_payload) None).2 = Some "op1" ∧
  ∃ e, (send_request sample_client (λ _, Some sample_payload) None).1 = inl (OtherError e) ∧ code_of e = Conflict.
Proof.
  destruct (answer_reported sample_client (λ _, Some sample_payload) None ["{"; "}" +:+ String "010" ""] "{}" "" sample_payload) as [H1 H2];
    [done|done|done|done|done|by vm_compute|by apply ascii_strict|by vm_compute|done|].
  split; [exact H1|]. destruct (send_request sample_client (λ _, Some sample_payload) None) as [[e|v] l]; [|by destruct H2].
  destruct H2 as (_ & _ & e' & -> & He). by exists e'.
Defined.

(** A client waits for a command longer than the daemon does, whatever the deadline is set to. *)
Theorem client_outlives_deadline (env : string → option string) (params : Value) (w : list string) :
  default false (value_get "background" params ≫= as_bool) = false →
  ∃ d w', helper_response env w = (Ok d, w') ∧
    request_read_timeout env "workspace.exec" params w = (Ok (value d + DAEMON_RESPONSE_MARGIN), w') ∧ value d < value d + DAEMON_RESPONSE_MARGIN.
Proof.
  intros Hb. unfold request_read_timeout. rewrite Hb, bool_decide_eq_true_2 by done. cbn [andb negb].
  destruct (resolve_bounded env "helper_response" "ENCLAVE_HELPER_RESPONSE_TIMEOUT_SECS" Seconds (60 * 60 * 1000) (24 * 60 * 60 * 1000) w) as (d & w' & H & _); [lia|].
  exists d, w'. change (resolve env _ _ _ _ _ w) with (helper_response env w) in H. split; [done|]. unfold mbind, stm_bind. rewrite H. split; [done|].
  unfold DAEMON_RESPONSE_MARGIN. lia.
Qed.
Lemma client_outlives_deadline_witness : ∃ d w', helper_response (λ _, Some "7200") [] = (Ok d, w') ∧ value d = 7200000 ∧
  request_read_timeout (λ _, Some "7200") "workspace.exec" Null [] = (Ok (value d + DAEMON_RESPONSE_MARGIN), w').
Proof.
  destruct (client_outlives_deadline (λ _, Some "7200") Null [] eq_refl) as (d & w' & Hd & Hr & _). exists d, w'. split; [exact Hd|].
  split; [vm_compute in Hd; by injection Hd as <- _|exact Hr].
Defined.

Fixpoint str_times (n : nat) (s : string) : string := match n with O => "" | S n' => s +:+ str_times n' s end.
Lemma str_times_length n s : String.length (str_times n s) = (n * String.length s)%nat.
Proof. induction n as [|n IH]; [done|]. cbn [str_times]. rewrite str_length_app, IH. lia. Qed.
Lemma scrub_times n fuel : (n ≤ fuel)%nat → scrub_loop fuel ["a"] (str_times n "a") = Some (str_times n REDACTED).
Proof.
  revert n. induction fuel as [|fuel IH]; intros [|n] Hn; try done; [lia|]. cbn [str_times].
  change ("a" +:+ str_times n "a") with (String "a" (str_times n "a")). cbn [scrub_loop]. change (longest_match ["a"] (String "a" (str_times n "a"))) with (Some "a").
  cbv iota. change (str_drop (String.length "a") (String "a" (str_times n "a"))) with (str_times n "a"). rewrite IH by lia. done.
Qed.
Lemma escape_times n : json_escape (str_times n REDACTED) = str_times n REDACTED.
Proof. induction n as [|n IH]; [done|]. cbn [str_times]. by rewrite json_escape_app, IH. Qed.

(** The ceiling of an answer counts six bytes for a captured byte, but what is captured is scrubbed before it
    is sent: a token of one character makes ten of each of its occurrences, so that a command may run and its
    answer be refused for its size, whatever else it holds. *)
Theorem scrubbed_answer_exceeds_ceiling : ∃ captured scrubbed,
  str_len captured ≤ MAX_HELPER_OUTPUT_BYTES ∧ scrub_secrets captured ["a"] = Some scrubbed ∧
  MAX_RESPONSE_BYTES < str_len (json_string scrubbed) + str_len (json_string scrubbed).
Proof.
  assert (∃ n, Z.of_nat n = MAX_HELPER_OUTPUT_BYTES) as [n Hn] by (exists (Z.to_nat MAX_HELPER_OUTPUT_BYTES); by apply Z2Nat.id).
  exists (str_times n "a"), (str_times n REDACTED). split_and!.
  - unfold str_len. rewrite str_times_length. cbn. lia.
  - apply scrub_times. rewrite str_times_length. cbn. lia.
  - unfold json_string. rewrite escape_times, !str_len_app. unfold str_len. rewrite str_times_length. cbn [String.length quote]. unfold MAX_RESPONSE_BYTES, JSON_ESCAPE_WORST_CASE. change MAX_HELPER_OUTPUT_BYTES with 16777216 in *.
    change (String.length REDACTED) with 10%nat. lia.
Qed.
