(* ===== verification/Config.v ===== *)
(** * Configuration: the config file, its defaults and the Enclavefile (src/src/config.rs,
    src/src/commands/config_defaults.rs, src/src/cli/daemon.rs, src/src/enclavefile.rs)

    A parsed command line is its values and, for each argument, where the value came from.  The TOML reader is
    a parameter. *)
From S2P Require Import Prelude RustStr Paths Text Json Types Ports Auth Registry Records Fleet Sandbox Sweeper Exec Dispatch Handlers.
From Stdlib Require Import QArith_base.
#[local] Open Scope Z_scope.

(** ** The config file (config.rs) *)

Record FileConfig := mkFileConfig {
  fc_socket : option string; fc_state_dir : option string; fc_pid_file : option string; fc_debootstrap_binary : option string;
  fc_apparmor : option string; fc_selinux : option string; fc_suite : option string; fc_mirror : option string;
  fc_wait_secs : option Z; fc_bootstrap_method : option string; fc_idle_stop : option Z; fc_destroy_after : option Z;
  fc_cpu_percent : option f64; fc_max_processes : option Z; fc_task_count : option Z; fc_detached : option Z;
  fc_max_running : option Z; fc_sweep_interval : option Z; fc_sweep_enabled : option bool; fc_evict_idle : option bool }.
Definition default_file_config : FileConfig :=
  mkFileConfig None None None None None None None None None None None None None None None None None None None None.

Definition bad_label (value : string) : bool := bool_decide (trim value = "") || has_control value.
Definition check_label (label : string) (value : option string) : result unit :=
  match value with
  | Some v => if bad_label v then bail (label +:+ " must be a non-empty label without control characters") else Ok tt
  | None => Ok tt
  end.
Definition validate_file_config (c : FileConfig) : result unit :=
  check_label "workspace_apparmor_profile" (fc_apparmor c);;
  check_label "workspace_selinux_label" (fc_selinux c);;
  validate_debootstrap_inputs (default DEFAULT_DEBIAN_SUITE (fc_suite c)) (default DEFAULT_DEBIAN_MIRROR (fc_mirror c));;
  match fc_cpu_percent c with Some v => validate_cpu_percent v | None => Ok tt end;;
  if bool_decide (fc_max_processes c = Some 0) then bail "default_workspace_max_processes must be greater than 0"
  else if bool_decide (fc_task_count c = Some 0) then bail "task_count_threshold must be greater than 0"
  else if bool_decide (fc_max_running c = Some 0) then bail "max_running_workspaces must be greater than 0"
  else if bool_decide (fc_sweep_interval c = Some 0) then bail "sweep_interval_secs must be greater than 0"
  else Ok tt.
Definition resolve_config_path (env : string → option string) (explicit : option string) : option string :=
  match explicit with
  | Some p => Some p
  | None =>
      match env "XDG_CONFIG_HOME" with
      | Some home => Some (path_join (path_join home "enclave") "config.toml")
      | None =>
          match env "HOME" with
          | Some home => Some (path_join (path_join (path_join home ".config") "enclave") "config.toml")
          | None => None
          end
      end
  end.
(** [file]: the content of a path, when it exists ([None]: it cannot be read). *)
Definition load_config (env : string → option string) (file : string → option (option string)) (toml : string → option FileConfig)
    (explicit : option string) : result FileConfig :=
  match resolve_config_path env explicit with
  | None => Ok default_file_config
  | Some p =>
      match file p with
      | None => if bool_decide (is_Some explicit) then bail "config file not found (specified via --config)" else Ok default_file_config
      | Some content =>
          raw ← ok_or content (plain "failed to read config");
          parsed ← ok_or (toml raw) (plain "failed to parse config");
          with_context "invalid values in config" (validate_file_config parsed);;
          Ok parsed
      end
  end.

(** ** The command line (cli/daemon.rs, cli/common.rs) *)

Inductive ValueSource := DefaultValue | EnvVariable | CommandLine.
#[export] Instance ValueSource_eq_dec : EqDecision ValueSource.
Proof. solve_decision. Defined.
Inductive ArgMatches := Matches (source : string → option ValueSource) (sub : option (string * ArgMatches)).
Definition value_source (m : ArgMatches) (arg : string) : option ValueSource := let 'Matches source _ := m in source arg.
Definition subcommand (m : ArgMatches) : option (string * ArgMatches) := let 'Matches _ sub := m in sub.

(** [RunArgs], and [StartArgs] without its wait. *)
Record DaemonArgs := mkDaemonArgs {
  da_state_dir : string; da_pid_file : string; da_debootstrap_binary : string; da_apparmor : option string; da_selinux : option string;
  da_idle_stop : option Z; da_destroy_after : option Z; da_cpu_percent : option f64; da_max_processes : option Z;
  da_task_count : Z; da_detached : Z; da_max_running : option Z; da_sweep_interval : Z; da_sweep_enabled : bool; da_evict_idle : bool }.
(** The arguments of [create] that the config file can fill in. *)
Record CreateArgs := mkCreateArgs { ca_suite : string; ca_mirror : string; ca_bootstrap_method : BootstrapMethod }.
Inductive RootfsCommands := Export (state_dir : string) | Import (state_dir : string) | Fetch (state_dir : string).
Inductive DaemonCommands := DaemonRun (args : DaemonArgs) | DaemonStart (args : DaemonArgs) (wait_secs : Z) | DaemonStop | DaemonStatus.
(** [OtherCommand]: a command the config file has nothing for. *)
Inductive Commands := CmdDaemon (c : DaemonCommands) | CmdCreate (args : CreateArgs) | CmdRootfs (c : RootfsCommands) | OtherCommand.
(** The arguments the config file can fill in. *)
Record Cli := mkCli { cli_socket : string; command : Commands }.

(** ** Filling in the config file (config_defaults.rs) *)

Fixpoint nested_subcommand_matches (current : ArgMatches) (chain : list string) : option ArgMatches :=
  match chain with
  | [] => Some current
  | n :: rest =>
      match subcommand current with
      | Some (sub_name, sub_matches) => if bool_decide (sub_name = n) then nested_subcommand_matches sub_matches rest else None
      | None => None
      end
  end.
Definition arg_uses_default (m : ArgMatches) (arg : string) : bool := bool_decide (value_source m arg = Some DefaultValue).
Definition arg_uses_default_opt (m : option ArgMatches) (arg : string) : bool :=
  match m ≫= λ m, value_source m arg with Some s => bool_decide (s = DefaultValue) | None => false end.
Definition arg_is_unset_opt (m : option ArgMatches) (arg : string) : bool :=
  match m ≫= λ m, value_source m arg with Some _ => false | None => true end.

(** [if arg_uses_default_opt(..) { if let Some(v) = .. { *x = v } }] *)
Definition fill {A} (m : option ArgMatches) (arg : string) (mine : A) (theirs : option A) : A :=
  if arg_uses_default_opt m arg then default mine theirs else mine.
(** [if arg_is_unset_opt(..) { if let Some(v) = .. { *x = Some(v) } }] *)
Definition fill_label {A} (m : option ArgMatches) (arg : string) (mine theirs : option A) : option A :=
  if arg_is_unset_opt m arg then match theirs with Some v => Some v | None => mine end else mine.
(** [if arg_is_unset_opt(..) { x.clone_from(..) }] *)
Definition fill_option {A} (m : option ArgMatches) (arg : string) (mine theirs : option A) : option A :=
  if arg_is_unset_opt m arg then theirs else mine.

Definition apply_state_dir_default (m : option ArgMatches) (f : FileConfig) (state_dir : string) : string :=
  fill m "state_dir" state_dir (fc_state_dir f).
Definition apply_daemon_common_defaults (m : option ArgMatches) (f : FileConfig) (a : DaemonArgs) : DaemonArgs :=
  mkDaemonArgs (fill m "state_dir" (da_state_dir a) (fc_state_dir f)) (fill m "pid_file" (da_pid_file a) (fc_pid_file f))
    (fill m "debootstrap_binary" (da_debootstrap_binary a) (fc_debootstrap_binary f))
    (fill_label m "workspace_apparmor_profile" (da_apparmor a) (fc_apparmor f))
    (fill_label m "workspace_selinux_label" (da_selinux a) (fc_selinux f))
    (fill_option m "idle_stop_after_secs" (da_idle_stop a) (fc_idle_stop f))
    (fill_option m "destroy_after_secs" (da_destroy_after a) (fc_destroy_after f))
    (fill_option m "default_workspace_cpu_percent" (da_cpu_percent a) (fc_cpu_percent f))
    (fill_option m "default_workspace_max_processes" (da_max_processes a) (fc_max_processes f))
    (da_task_count a) (da_detached a) (fill_option m "max_running_workspaces" (da_max_running a) (fc_max_running f))
    (da_sweep_interval a) (da_sweep_enabled a) (da_evict_idle a).
Definition apply_sweep_defaults (m : option ArgMatches) (f : FileConfig) (a : DaemonArgs) : DaemonArgs :=
  mkDaemonArgs (da_state_dir a) (da_pid_file a) (da_debootstrap_binary a) (da_apparmor a) (da_selinux a) (da_idle_stop a)
    (da_destroy_after a) (da_cpu_percent a) (da_max_processes a)
    (fill m "task_count_threshold" (da_task_count a) (fc_task_count f))
    (fill m "detached_process_threshold" (da_detached a) (fc_detached f)) (da_max_running a)
    (fill m "sweep_interval_secs" (da_sweep_interval a) (fc_sweep_interval f))
    (fill m "sweep_enabled" (da_sweep_enabled a) (fc_sweep_enabled f)) (fill m "evict_idle" (da_evict_idle a) (fc_evict_idle f)).
Definition apply_create_defaults (m : option ArgMatches) (f : FileConfig) (a : CreateArgs) : CreateArgs :=
  mkCreateArgs (fill m "suite" (ca_suite a) (fc_suite f)) (fill m "mirror" (ca_mirror a) (fc_mirror f))
    (fill m "bootstrap_method" (ca_bootstrap_method a) (fc_bootstrap_method f ≫= λ s, result_ok (bootstrap_from_str s))).
Definition apply_config_defaults (m : ArgMatches) (f : FileConfig) (c : Cli) : Cli :=
  let nested := nested_subcommand_matches m in
  mkCli (if arg_uses_default m "socket" then default (cli_socket c) (fc_socket f) else cli_socket c)
    (match command c with
     | CmdDaemon (DaemonRun a) =>
         let sub := nested ["daemon"; "run"] in
         CmdDaemon (DaemonRun (apply_sweep_defaults sub f (apply_daemon_common_defaults sub f a)))
     | CmdDaemon (DaemonStart a w) =>
         let sub := nested ["daemon"; "start"] in
         CmdDaemon (DaemonStart (apply_sweep_defaults sub f (apply_daemon_common_defaults sub f a)) (fill sub "wait_secs" w (fc_wait_secs f)))
     | CmdCreate a => CmdCreate (apply_create_defaults (nested ["create"]) f a)
     | CmdRootfs (Export d) => CmdRootfs (Export (apply_state_dir_default (nested ["rootfs"; "export"]) f d))
     | CmdRootfs (Import d) => CmdRootfs (Import (apply_state_dir_default (nested ["rootfs"; "import"]) f d))
     | CmdRootfs (Fetch d) => CmdRootfs (Fetch (apply_state_dir_default (nested ["rootfs"; "fetch"]) f d))
     | (CmdDaemon DaemonStop | CmdDaemon DaemonStatus | OtherCommand) as other => other
     end).

(** The policy a daemon takes from its arguments (daemon/mod.rs). *)
Definition policy_of_args (a : DaemonArgs) : IdlePolicy :=
  mkPolicy (da_idle_stop a) (da_destroy_after a) (da_cpu_percent a) (da_max_processes a) (da_task_count a) (da_detached a) (da_max_running a)
    (Z.max (da_sweep_interval a) 1 * 1000000000) (da_sweep_enabled a) (da_evict_idle a).

(** ** Starting a daemon (commands/daemon/start.rs, autostart.rs) *)

(** [daemon_policy_args], as pairs of a flag and its value.  [print]: how a percentage is written. *)
Definition opt_flag {A} (flag : string) (render : A → string) (v : option A) : list (string * string) :=
  match v with Some x => [(flag, render x)] | None => [] end.
Definition print_bool (b : bool) : string := if b then "true" else "false".
Definition daemon_policy_args (print : f64 → string) (a : DaemonArgs) : list (string * string) :=
  [("sweep_interval_secs", print_uint (da_sweep_interval a)); ("task_count_threshold", print_uint (da_task_count a));
   ("detached_process_threshold", print_uint (da_detached a))] ++
  opt_flag "idle_stop_after_secs" print_uint (da_idle_stop a) ++ opt_flag "destroy_after_secs" print_uint (da_destroy_after a) ++
  opt_flag "default_workspace_cpu_percent" print (da_cpu_percent a) ++
  opt_flag "default_workspace_max_processes" print_uint (da_max_processes a) ++
  opt_flag "max_running_workspaces" print_uint (da_max_running a) ++
  [("sweep_enabled", print_bool (da_sweep_enabled a)); ("evict_idle", print_bool (da_evict_idle a))].
(** The flags of the detached [daemon run]. *)
Definition child_flags (print : f64 → string) (a : DaemonArgs) : list (string * string) :=
  [("state_dir", da_state_dir a); ("pid_file", da_pid_file a); ("debootstrap_binary", da_debootstrap_binary a)] ++
  opt_flag "workspace_apparmor_profile" (λ s, s) (da_apparmor a) ++ daemon_policy_args print a ++
  opt_flag "workspace_selinux_label" (λ s, s) (da_selinux a).

(** What [daemon run] and [daemon start] read their flags as (the attributes of [RunArgs] and [StartArgs]): a
    flag that is given is parsed, one that is not has its default or stays unset. *)
Fixpoint flag_value (flags : list (string * string)) (flag : string) : option string :=
  match flags with
  | [] => None
  | (k, v) :: rest => if bool_decide (k = flag) then Some v else flag_value rest flag
  end.
Definition read_flag {A} (parse : string → option A) (flags : list (string * string)) (flag : string) (dflt : A) : option A :=
  match flag_value flags flag with Some s => parse s | None => Some dflt end.
Definition read_option {A} (parse : string → option A) (flags : list (string * string)) (flag : string) : option (option A) :=
  match flag_value flags flag with Some s => Some <$> parse s | None => Some None end.
Definition parse_bool (s : string) : option bool :=
  if bool_decide (s = "true") then Some true else if bool_decide (s = "false") then Some false else None.
Definition parse_non_empty_arg (s : string) : option string := if bool_decide (s = "") || has_control s then None else Some s.
Definition parse_u64 : string → option Z := parse_uint u64_max.
(** [parse]: how a percentage is read; the default paths are given. *)
Definition run_args (parse : string → option f64) (state_dir pid_file : string) (flags : list (string * string)) : option DaemonArgs :=
  d ← read_flag Some flags "state_dir" state_dir;
  p ← read_flag Some flags "pid_file" pid_file;
  b ← read_flag Some flags "debootstrap_binary" "debootstrap";
  apparmor ← read_option parse_non_empty_arg flags "workspace_apparmor_profile";
  selinux ← read_option parse_non_empty_arg flags "workspace_selinux_label";
  idle ← read_option parse_u64 flags "idle_stop_after_secs";
  destroy ← read_option parse_u64 flags "destroy_after_secs";
  cpu ← read_option parse flags "default_workspace_cpu_percent";
  processes ← read_option parse_u64 flags "default_workspace_max_processes";
  tasks ← read_flag parse_u64 flags "task_count_threshold" 1024;
  detached ← read_flag parse_u64 flags "detached_process_threshold" 32;
  running ← read_option parse_u64 flags "max_running_workspaces";
  interval ← read_flag parse_u64 flags "sweep_interval_secs" 30;
  enabled ← read_flag parse_bool flags "sweep_enabled" true;
  evict ← read_flag parse_bool flags "evict_idle" true;
  Some (mkDaemonArgs d p b apparmor selinux idle destroy cpu processes tasks detached running interval enabled evict).
(** Where each argument's value came from. *)
Definition DEFAULTED : list string :=
  ["state_dir"; "pid_file"; "debootstrap_binary"; "task_count_threshold"; "detached_process_threshold"; "sweep_interval_secs"; "sweep_enabled"; "evict_idle"].
Definition flag_source (flags : list (string * string)) (flag : string) : option ValueSource :=
  match flag_value flags flag with
  | Some _ => Some CommandLine
  | None => if bool_decide (flag ∈ DEFAULTED) then Some DefaultValue else None
  end.
(** A [daemon run] or [daemon start] as the entry point runs it: the flags, then the config file. *)
Definition resolved_args (parse : string → option f64) (state_dir pid_file : string) (f : FileConfig) (flags : list (string * string)) : option DaemonArgs :=
  a ← run_args parse state_dir pid_file flags;
  let m := Some (Matches (flag_source flags) None) in
  Some (apply_sweep_defaults m f (apply_daemon_common_defaults m f a)).

(** [configure_automatic_start_defaults] *)
Definition auto_start_defaults (state_dir pid_file : string) (f : FileConfig) : DaemonArgs * Z :=
  (mkDaemonArgs (default state_dir (fc_state_dir f)) (default pid_file (fc_pid_file f)) (default "debootstrap" (fc_debootstrap_binary f))
     (fc_apparmor f) (fc_selinux f) (fc_idle_stop f) (fc_destroy_after f) (fc_cpu_percent f) (fc_max_processes f)
     (default 1024 (fc_task_count f)) (default 32 (fc_detached f)) (fc_max_running f) (default 30 (fc_sweep_interval f))
     (default true (fc_sweep_enabled f)) (default true (fc_evict_idle f)),
   default 5 (fc_wait_secs f)).
Definition default_auto_start_defaults (state_dir pid_file : string) : DaemonArgs * Z :=
  (mkDaemonArgs state_dir pid_file "debootstrap" None None None None None None 1024 32 None 30 true true, 5).

Inductive ping_answer := Pong | Unreachable | PingError (e : error).
(** A poll of the wait: whether the daemon answered, and whether the child had exited ([None]: that could not be asked). *)
Record start_poll := mkPoll { answered : bool; exited : option bool }.
Record start_host := mkStartHost {
  sh_ping : ping_answer;
  sh_state_dir : bool; sh_runtime_dir : bool; sh_pid_dir : bool;   (** [prepare_service_dir] *)
  sh_exe : bool; sh_rotated : bool; sh_log : bool; sh_spawned : bool;
  sh_polls : list start_poll }.                                    (** until the wait is over *)
Fixpoint await_ready (polls : list start_poll) : result unit :=
  match polls with
  | [] => bail "daemon did not become ready"
  | p :: rest =>
      if answered p then Ok tt
      else match exited p with
           | None => bail "failed to wait for the daemon"
           | Some true => bail "daemon exited early"
           | Some false => await_ready rest
           end
  end.
(** The state: the daemons that were launched, by their flags. *)
Definition launches := list (list (string * string)).
Definition start_daemon (h : start_host) (print : f64 → string) (a : DaemonArgs) : stm launches unit :=
  match sh_ping h with
  | Pong => mret tt
  | _ =>
      assert (sh_state_dir h) "failed to prepare the state directory";;
      assert (sh_runtime_dir h) "failed to prepare the runtime directory";;
      assert (sh_pid_dir h) "failed to prepare the pid directory";;
      assert (sh_exe h) "failed to determine current executable path";;
      assert (sh_rotated h) "failed to rotate daemon log";;
      assert (sh_log h) "failed to open daemon log";;
      assert (sh_spawned h) "failed to start daemon process";;
      modify (λ l, l ++ [child_flags print a]);;
      lift (await_ready (sh_polls h))
  end.
Definition destructive_actions : list string :=
  ["sandbox.destroy"; "sandbox.remove"; "sandbox.wipe"; "workspace.destroy"; "workspace.remove"; "workspace.wipe"; "registry.repair"; "daemon.doctor.repair"].
Definition destructive_action_requires_explicit_start (action : string) : bool := bool_decide (action ∈ destructive_actions).
(** [defaults]: what the entry point remembered. *)
Definition ensure_daemon_running_for_action (h : start_host) (print : f64 → string) (state_dir pid_file : string)
    (defaults : option (DaemonArgs * Z)) (explicit : bool) (action : string) : stm launches unit :=
  match sh_ping h with
  | Pong => mret tt
  | PingError e => lift (Err e)
  | Unreachable =>
      if destructive_action_requires_explicit_start action && negb explicit then throw "requires a running daemon"
      else start_daemon h print (default (default_auto_start_defaults state_dir pid_file) defaults).1
  end.
Definition ensure_daemon_running (h : start_host) (print : f64 → string) (state_dir pid_file : string)
    (defaults : option (DaemonArgs * Z)) (explicit : bool) : stm launches unit :=
  ensure_daemon_running_for_action h print state_dir pid_file defaults explicit "non_destructive".

(** ** The Enclavefile (enclavefile.rs) *)

Record SandboxSection := mkSandboxSection {
  ss_name : string; ss_suite : string; ss_mirror : option string; ss_bootstrap_method : BootstrapMethod; ss_memory_mb : option Z;
  ss_cpu_percent : option f64; ss_max_procs : option Z; ss_disk_mb : option Z; ss_max_running : option Z; ss_setup : list string }.
Record WorkspaceSection := mkWorkspaceSection {
  ws_name : string; ws_run : option string; ws_path : option string; ws_workspace_dir : option string; ws_cpu_seconds : option Z;
  ws_cpu_percent : option f64; ws_memory_mb : option Z; ws_max_procs : option Z; ws_max_open_files : option Z; ws_disk_mb : option Z;
  ws_clear_tmp : bool; ws_keep_running : bool; ws_idle_stop : option Z; ws_destroy_after : option Z; ws_run_ttl : option Z;
  ws_run_keep_running : bool; ws_auth : list string; ws_owner : option string; ws_env_tokens : list string; ws_ports : list string }.
Record Enclavefile := mkEnclavefile { ef_sandbox : SandboxSection; ef_workspace : gmap string WorkspaceSection }.

Definition prefixed {A} (r : result A) (message : string) : result unit := match r with Ok _ => Ok tt | Err _ => bail message end.
Definition check_all {A} (f : A → result unit) (l : list A) : result unit := _ ← mapM f l; Ok tt.
Definition blank_dir (p : option string) : bool := match p with Some s => bool_decide (trim s = "") | None => false end.
Definition validate_workspace_section (w : WorkspaceSection) : result unit :=
  (if bool_decide (ws_name w = "") then bail "Enclavefile: workspace name must not be empty" else Ok tt);;
  match ws_cpu_percent w with Some v => prefixed (validate_cpu_percent v) "Enclavefile: workspace cpu_percent is invalid" | None => Ok tt end;;
  (if blank_dir (ws_path w) then bail "Enclavefile: workspace path must not be empty" else Ok tt);;
  (if blank_dir (ws_workspace_dir w) then bail "Enclavefile: workspace workspace_dir must not be empty" else Ok tt);;
  (if bool_decide (is_Some (ws_path w)) && bool_decide (is_Some (ws_workspace_dir w))
   then bail "Enclavefile: workspace cannot define both path and workspace_dir" else Ok tt);;
  match ws_owner w with Some o => prefixed (validate_user_id o) "Enclavefile: workspace owner is invalid" | None => Ok tt end;;
  check_all (λ p, prefixed (ok_or (provider_env_var (to_ascii_lowercase (trim p))) []) "Enclavefile: unsupported provider") (ws_auth w);;
  check_all (λ t, prefixed (validate_env_token_name (to_ascii_uppercase (trim t))) "Enclavefile: invalid token") (ws_env_tokens w);;
  parsed ← mapM (λ p, match spec_parse p with Ok x => Ok x | Err _ => bail "Enclavefile: invalid port" end) (ws_ports w);
  prefixed (validate_published_ports parsed) "Enclavefile: workspace ports is invalid".
Definition validate_enclavefile (e : Enclavefile) : result unit :=
  let s := ef_sandbox e in
  (if bool_decide (ss_name s = "") then bail "Enclavefile: sandbox.name must not be empty" else Ok tt);;
  (if bool_decide (ss_suite s = "") then bail "Enclavefile: sandbox.suite must not be empty" else Ok tt);;
  prefixed (validate_debootstrap_inputs (ss_suite s) (default DEFAULT_DEBIAN_MIRROR (ss_mirror s))) "Enclavefile: sandbox is invalid";;
  match ss_cpu_percent s with Some v => prefixed (validate_cpu_percent v) "Enclavefile: sandbox.cpu_percent is invalid" | None => Ok tt end;;
  (if bool_decide (ss_max_running s = Some 0) then bail "Enclavefile: sandbox.max_running_workspaces must be greater than 0" else Ok tt);;
  check_all validate_workspace_section (btree_values (ef_workspace e)).
Definition parse_enclavefile (toml : string → option Enclavefile) (content : string) : result Enclavefile :=
  e ← ok_or (toml content) (plain "failed to parse Enclavefile");
  validate_enclavefile e;;
  Ok e.
Definition load_enclavefile (toml : string → option Enclavefile) (content : option string) : result Enclavefile :=
  c ← ok_or content (plain "failed to read Enclavefile"); parse_enclavefile toml c.
(** [parent]: the directory of the Enclavefile, when its path has one; [canonical]: a path resolved, and
    whether it is a directory. *)
Definition resolve_workspace_host_dir (parent : option string) (canonical : string → option (string * bool)) (raw field : string) : result string :=
  let trimmed := trim raw in
  if bool_decide (trimmed = "") then bail (field +:+ " must not be empty")
  else
    base ← ok_or parent (plain "failed to determine Enclavefile parent directory");
    resolved ← ok_or (canonical (if starts_with "/" trimmed then trimmed else path_join base trimmed)) (plain "failed to resolve");
    if negb resolved.2 then bail (field +:+ " must resolve to an existing directory") else Ok resolved.1.

(** ** The detached daemon runs with what was resolved *)

Lemma flag_value_app l1 l2 k : flag_value (l1 ++ l2) k = match flag_value l1 k with Some v => Some v | None => flag_value l2 k end.
Proof. induction l1 as [|[k' v] l1 IH]; cbn; [done|]. by case_bool_decide. Qed.
Lemma flag_value_opt {A} flag (render : A → string) v k : flag_value (opt_flag flag render v) k = if bool_decide (flag = k) then render <$> v else None.
Proof. destruct v; cbn; by case_bool_decide. Qed.

Definition in_u64 (n : Z) : Prop := 0 ≤ n ≤ u64_max.
Definition opt_all {A} (P : A → Prop) (o : option A) : Prop := match o with Some x => P x | None => True end.
Definition good_label (s : string) : Prop := parse_non_empty_arg s = Some s.
(** Arguments that can be written as flags and read back. *)
Definition printable_args (a : DaemonArgs) : Prop :=
  opt_all good_label (da_apparmor a) ∧ opt_all good_label (da_selinux a) ∧ opt_all in_u64 (da_idle_stop a) ∧ opt_all in_u64 (da_destroy_after a) ∧
  opt_all in_u64 (da_max_processes a) ∧ in_u64 (da_task_count a) ∧ in_u64 (da_detached a) ∧ opt_all in_u64 (da_max_running a) ∧ in_u64 (da_sweep_interval a).
Lemma parse_print_u64 n : in_u64 n → parse_u64 (print_uint n) = Some n.
Proof. apply parse_print_uint. Qed.
Lemma parse_print_bool b : parse_bool (print_bool b) = Some b.
Proof. by destruct b. Qed.
Lemma read_option_back {A} (parse : string → option A) (render : A → string) flags flag v :
  flag_value flags flag = render <$> v → opt_all (λ x, parse (render x) = Some x) v → read_option parse flags flag = Some v.
Proof. intros H Hv. unfold read_option. rewrite H. destruct v as [x|]; [|done]. cbn in *. by rewrite Hv. Qed.
Lemma read_flag_back {A} (parse : string → option A) (render : A → string) flags flag dflt v :
  flag_value flags flag = Some (render v) → parse (render v) = Some v → read_flag parse flags flag dflt = Some v.
Proof. intros H Hv. unfold read_flag. by rewrite H. Qed.

Lemma option_u64 v : opt_all in_u64 v → opt_all (λ x, parse_u64 (print_uint x) = Some x) v.
Proof. destruct v; [apply parse_print_u64|done]. Qed.

Section detached.
Context (print : f64 → string) (parse : string → option f64) (parse_print : ∀ x, parse (print x) = Some x).

Ltac child_flag := unfold child_flags, daemon_policy_args; rewrite !flag_value_app, !flag_value_opt; cbn [flag_value];
  repeat (match goal with |- context [bool_decide (?x = ?y)] => let b := eval vm_compute in (bool_decide (x = y)) in change (bool_decide (x = y)) with b end);
  cbv iota; repeat (match goal with |- context [_ <$> ?o] => lazymatch o with Some _ => fail | None => fail | _ => destruct o end end); done.
Lemma child_label a k v : k = "workspace_apparmor_profile" ∧ v = da_apparmor a ∨ k = "workspace_selinux_label" ∧ v = da_selinux a →
  flag_value (child_flags print a) k = (λ s, s) <$> v.
Proof. intros [[-> ->]|[-> ->]]; child_flag. Qed.
Lemma child_option a k v : k = "idle_stop_after_secs" ∧ v = da_idle_stop a ∨ k = "destroy_after_secs" ∧ v = da_destroy_after a ∨
  k = "default_workspace_max_processes" ∧ v = da_max_processes a ∨ k = "max_running_workspaces" ∧ v = da_max_running a →
  flag_value (child_flags print a) k = print_uint <$> v.
Proof. intros [[-> ->]|[[-> ->]|[[-> ->]|[-> ->]]]]; child_flag. Qed.
Lemma child_cpu a : flag_value (child_flags print a) "default_workspace_cpu_percent" = print <$> da_cpu_percent a.
Proof. child_flag. Qed.
Lemma child_path a k v : k = "state_dir" ∧ v = da_state_dir a ∨ k = "pid_file" ∧ v = da_pid_file a ∨ k = "debootstrap_binary" ∧ v = da_debootstrap_binary a →
  flag_value (child_flags print a) k = Some v.
Proof. intros [[-> ->]|[[-> ->]|[-> ->]]]; child_flag. Qed.
Lemma child_number a k v : k = "task_count_threshold" ∧ v = da_task_count a ∨ k = "detached_process_threshold" ∧ v = da_detached a ∨
  k = "sweep_interval_secs" ∧ v = da_sweep_interval a → flag_value (child_flags print a) k = Some (print_uint v).
Proof. intros [[-> ->]|[[-> ->]|[-> ->]]]; child_flag. Qed.
Lemma child_bool a k v : k = "sweep_enabled" ∧ v = da_sweep_enabled a ∨ k = "evict_idle" ∧ v = da_evict_idle a →
  flag_value (child_flags print a) k = Some (print_bool v).
Proof. intros [[-> ->]|[-> ->]]; child_flag. Qed.

Lemma run_args_child sd pf a : printable_args a → run_args parse sd pf (child_flags print a) = Some a.
Proof.
  intros (Ha & Hs & Hi & Hd & Hp & Ht & Hdt & Hr & Hw). unfold run_args.
  rewrite (read_flag_back Some (λ s, s) _ "state_dir" _ (da_state_dir a)) by (done || (apply child_path; tauto)).
  rewrite (read_flag_back Some (λ s, s) _ "pid_file" _ (da_pid_file a)) by (done || (apply child_path; tauto)).
  rewrite (read_flag_back Some (λ s, s) _ "debootstrap_binary" _ (da_debootstrap_binary a)) by (done || (apply child_path; tauto)).
  rewrite (read_option_back parse_non_empty_arg (λ s, s) _ "workspace_apparmor_profile" (da_apparmor a)) by (done || (apply child_label; tauto)).
  rewrite (read_option_back parse_non_empty_arg (λ s, s) _ "workspace_selinux_label" (da_selinux a)) by (done || (apply child_label; tauto)).
  rewrite (read_option_back parse_u64 print_uint _ "idle_stop_after_secs" (da_idle_stop a)) by ((apply child_option; tauto) || by apply option_u64).
  rewrite (read_option_back parse_u64 print_uint _ "destroy_after_secs" (da_destroy_after a)) by ((apply child_option; tauto) || by apply option_u64).
  rewrite (read_option_back parse_u64 print_uint _ "default_workspace_max_processes" (da_max_processes a)) by ((apply child_option; tauto) || by apply option_u64).
  rewrite (read_option_back parse_u64 print_uint _ "max_running_workspaces" (da_max_running a)) by ((apply child_option; tauto) || by apply option_u64).
  rewrite (read_option_back parse print _ "default_workspace_cpu_percent" (da_cpu_percent a)) by (apply child_cpu || (destruct (da_cpu_percent a); [apply parse_print|done])).
  rewrite (read_flag_back parse_u64 print_uint _ "task_count_threshold" _ (da_task_count a)) by ((apply child_number; tauto) || by apply parse_print_u64).
  rewrite (read_flag_back parse_u64 print_uint _ "detached_process_threshold" _ (da_detached a)) by ((apply child_number; tauto) || by apply parse_print_u64).
  rewrite (read_flag_back parse_u64 print_uint _ "sweep_interval_secs" _ (da_sweep_interval a)) by ((apply child_number; tauto) || by apply parse_print_u64).
  rewrite (read_flag_back parse_bool print_bool _ "sweep_enabled" _ (da_sweep_enabled a)) by ((apply child_bool; tauto) || apply parse_print_bool).
  rewrite (read_flag_back parse_bool print_bool _ "evict_idle" _ (da_evict_idle a)) by ((apply child_bool; tauto) || apply parse_print_bool).
  by destruct a.
Qed.

Lemma not_defaulted k : bool_decide (k ∈ DEFAULTED) = false → k ∉ DEFAULTED.
Proof. apply bool_decide_eq_false_1. Qed.
Abbreviation sources flags := (Some (Matches (flag_source flags) None)).
Lemma fill_given {A} flags k (mine : A) theirs v : flag_value flags k = Some v → fill (sources flags) k mine theirs = mine.
Proof. intros H. unfold fill, arg_uses_default_opt, flag_source. cbn. by rewrite H. Qed.
Lemma unset_iff flags k : k ∉ DEFAULTED → arg_is_unset_opt (sources flags) k = bool_decide (flag_value flags k = None).
Proof.
  intros Hk. unfold arg_is_unset_opt, flag_source. cbn. destruct (flag_value flags k); [done|]. by rewrite bool_decide_eq_false_2.
Qed.
Lemma fill_option_again {A} p (r : A → string) flags flags' k mine theirs : k ∉ DEFAULTED → read_option p flags k = Some mine →
  let x := fill_option (sources flags) k mine theirs in flag_value flags' k = r <$> x → fill_option (sources flags') k x theirs = x.
Proof.
  intros Hk Hm x Hx. unfold fill_option. rewrite unset_iff by done. rewrite Hx. case_bool_decide as Hn; [|done].
  destruct x as [y|] eqn:Ex; [done|]. subst x. unfold fill_option in Ex. rewrite unset_iff in Ex by done.
  unfold read_option in Hm. destruct (flag_value flags k) as [v|]; cbn in Ex; [|done]. destruct (p v); naive_solver.
Qed.
Lemma fill_label_again {A} p (r : A → string) flags flags' k mine theirs : k ∉ DEFAULTED → read_option p flags k = Some mine →
  let x := fill_label (sources flags) k mine theirs in flag_value flags' k = r <$> x → fill_label (sources flags') k x theirs = x.
Proof.
  intros Hk Hm x Hx. unfold fill_label. rewrite unset_iff by done. rewrite Hx. case_bool_decide as Hn; [|done].
  destruct x as [y|] eqn:Ex; [done|]. subst x. unfold fill_label in Ex. rewrite unset_iff in Ex by done.
  unfold read_option in Hm. destruct (flag_value flags k) as [v|]; cbn in Ex; [destruct (p v); naive_solver|]. by destruct theirs.
Qed.

(** A config file whose values are in the range of their types. *)
Definition printable_file (f : FileConfig) : Prop :=
  opt_all good_label (fc_apparmor f) ∧ opt_all good_label (fc_selinux f) ∧ opt_all in_u64 (fc_idle_stop f) ∧ opt_all in_u64 (fc_destroy_after f) ∧
  opt_all in_u64 (fc_max_processes f) ∧ opt_all in_u64 (fc_task_count f) ∧ opt_all in_u64 (fc_detached f) ∧ opt_all in_u64 (fc_max_running f) ∧
  opt_all in_u64 (fc_sweep_interval f).
Lemma read_option_all {A} (p : string → option A) (P : A → Prop) flags k v : (∀ s x, p s = Some x → P x) → read_option p flags k = Some v → opt_all P v.
Proof. intros Hp. unfold read_option. destruct (flag_value flags k) as [s|]; [|by intros [= <-]]. destruct (p s) eqn:E; [|done]. intros [= <-]. cbn. eauto. Qed.
Lemma read_flag_all {A} (p : string → option A) (P : A → Prop) flags k d v : (∀ s x, p s = Some x → P x) → P d → read_flag p flags k d = Some v → P v.
Proof. intros Hp Hd. unfold read_flag. destruct (flag_value flags k) as [s|]; [apply Hp|by intros [= <-]]. Qed.
Lemma parse_u64_range s n : parse_u64 s = Some n → in_u64 n.
Proof. apply parse_uint_bound. Qed.
Lemma parse_label_good s t : parse_non_empty_arg s = Some t → good_label t.
Proof. unfold parse_non_empty_arg. intros H. assert (t = s) as -> by (destruct (_ || _); naive_solver). exact H. Qed.
Lemma fill_all {A} (P : A → Prop) m k mine theirs : P mine → opt_all P theirs → P (fill m k mine theirs).
Proof. unfold fill. destruct (arg_uses_default_opt m k), theirs; done. Qed.
Lemma fill_option_all {A} (P : A → Prop) m k mine theirs : opt_all P mine → opt_all P theirs → opt_all P (fill_option m k mine theirs).
Proof. unfold fill_option. by destruct (arg_is_unset_opt m k). Qed.
Lemma fill_label_all {A} (P : A → Prop) m k mine theirs : opt_all P mine → opt_all P theirs → opt_all P (fill_label m k mine theirs).
Proof. unfold fill_label. destruct (arg_is_unset_opt m k), theirs; done. Qed.

Lemma run_args_inv sd pf flags a : run_args parse sd pf flags = Some a →
  read_flag Some flags "state_dir" sd = Some (da_state_dir a) ∧
  read_flag Some flags "pid_file" pf = Some (da_pid_file a) ∧
  read_flag Some flags "debootstrap_binary" "debootstrap" = Some (da_debootstrap_binary a) ∧
  read_flag parse_u64 flags "task_count_threshold" 1024 = Some (da_task_count a) ∧
  read_flag parse_u64 flags "detached_process_threshold" 32 = Some (da_detached a) ∧
  read_flag parse_u64 flags "sweep_interval_secs" 30 = Some (da_sweep_interval a) ∧
  read_flag parse_bool flags "sweep_enabled" true = Some (da_sweep_enabled a) ∧
  read_flag parse_bool flags "evict_idle" true = Some (da_evict_idle a) ∧
  read_option parse_non_empty_arg flags "workspace_apparmor_profile" = Some (da_apparmor a) ∧
  read_option parse_non_empty_arg flags "workspace_selinux_label" = Some (da_selinux a) ∧
  read_option parse_u64 flags "idle_stop_after_secs" = Some (da_idle_stop a) ∧
  read_option parse_u64 flags "destroy_after_secs" = Some (da_destroy_after a) ∧
  read_option parse flags "default_workspace_cpu_percent" = Some (da_cpu_percent a) ∧
  read_option parse_u64 flags "default_workspace_max_processes" = Some (da_max_processes a) ∧
  read_option parse_u64 flags "max_running_workspaces" = Some (da_max_running a).
Proof. unfold run_args. intros H. do 15 (apply bind_Some in H as (? & ? & H)). injection H as <-. cbn. tauto. Qed.
Lemma resolved_printable sd pf f flags a : printable_file f → resolved_args parse sd pf f flags = Some a → printable_args a.
Proof.
  intros (Fa & Fs & Fi & Fd & Fp & Ft & Fdt & Fr & Fw) (a0 & H & [= <-])%bind_Some.
  apply run_args_inv in H as (_ & _ & _ & Ht & Hdt & Hw & _ & _ & Ha & Hs & Hi & Hd & _ & Hp & Hr).
  assert (∀ v, v = 1024 ∨ v = 32 ∨ v = 30 → in_u64 v) as Hdef by (intros v Hv; unfold in_u64, u64_max; lia).
  pose proof (λ k v, read_option_all _ _ flags k v parse_label_good) as Lab. pose proof (λ k v, read_option_all _ _ flags k v parse_u64_range) as Opt.
  pose proof (λ k d v Hd, read_flag_all _ _ flags k d v parse_u64_range (Hdef d Hd)) as Num.
  unfold printable_args. cbn. split_and!.
  1-2: apply fill_label_all; [by eapply Lab|done]. 1-3: apply fill_option_all; [by eapply Opt|done].
  1-2: apply fill_all; [eapply Num; [|done]; tauto|done]. 1: apply fill_option_all; [by eapply Opt|done].
  apply fill_all; [eapply Num; [|done]; tauto|done].
Qed.
End detached.

(** However a daemon's flags and config file combine, the detached process that [daemon start] launches runs
    with exactly the arguments [daemon start] resolved, when it reads the same config file: what was given is
    passed on, and what was not is found again. *)
Theorem detached_daemon_same_args (print : f64 → string) (parse : string → option f64) (sd pf : string) (f : FileConfig)
    (flags : list (string * string)) (a : DaemonArgs) :
  (∀ x, parse (print x) = Some x) → printable_file f → resolved_args parse sd pf f flags = Some a →
  resolved_args parse sd pf f (child_flags print a) = Some a.
Proof.
  intros Hpp Hf Ha. pose proof (resolved_printable parse sd pf f flags a Hf Ha) as Hpa. unfold resolved_args.
  rewrite run_args_child by done. cbn [mbind option_bind]. f_equal.
  apply bind_Some in Ha as (a0 & H0 & [= E]). apply run_args_inv in H0 as (_ & _ & _ & _ & _ & _ & _ & _ & Hap & Hse & Hi & Hd & Hc & Hp & Hr).
  unfold apply_sweep_defaults, apply_daemon_common_defaults. cbn [da_state_dir da_pid_file da_debootstrap_binary da_apparmor da_selinux da_idle_stop
    da_destroy_after da_cpu_percent da_max_processes da_task_count da_detached da_max_running da_sweep_interval da_sweep_enabled da_evict_idle].
  rewrite (fill_given _ "state_dir" _ _ _ (child_path print a "state_dir" (da_state_dir a) ltac:(tauto))).
  rewrite (fill_given _ "pid_file" _ _ _ (child_path print a "pid_file" (da_pid_file a) ltac:(tauto))).
  rewrite (fill_given _ "debootstrap_binary" _ _ _ (child_path print a "debootstrap_binary" (da_debootstrap_binary a) ltac:(tauto))).
  rewrite (fill_given _ "task_count_threshold" _ _ _ (child_number print a "task_count_threshold" (da_task_count a) ltac:(tauto))).
  rewrite (fill_given _ "detached_process_threshold" _ _ _ (child_number print a "detached_process_threshold" (da_detached a) ltac:(tauto))).
  rewrite (fill_given _ "sweep_interval_secs" _ _ _ (child_number print a "sweep_interval_secs" (da_sweep_interval a) ltac:(tauto))).
  rewrite (fill_given _ "sweep_enabled" _ _ _ (child_bool print a "sweep_enabled" (da_sweep_enabled a) ltac:(tauto))).
  rewrite (fill_given _ "evict_idle" _ _ _ (child_bool print a "evict_idle" (da_evict_idle a) ltac:(tauto))).
  assert (∀ A p (r : A → string) k (proj : DaemonArgs → option A) theirs, k ∉ DEFAULTED → read_option p flags k = Some (proj a0) →
    proj a = fill_option (Some (Matches (flag_source flags) None)) k (proj a0) theirs → flag_value (child_flags print a) k = r <$> proj a →
    fill_option (Some (Matches (flag_source (child_flags print a)) None)) k (proj a) theirs = proj a) as Hopt.
  { intros A p r k proj theirs Hk Hm Hx Hv. rewrite Hx in Hv |- *. by eapply fill_option_again. }
  assert (∀ k (proj : DaemonArgs → option string) theirs, k ∉ DEFAULTED → read_option parse_non_empty_arg flags k = Some (proj a0) →
    proj a = fill_label (Some (Matches (flag_source flags) None)) k (proj a0) theirs → flag_value (child_flags print a) k = (λ s, s) <$> proj a →
    fill_label (Some (Matches (flag_source (child_flags print a)) None)) k (proj a) theirs = proj a) as Hlab.
  { intros k proj theirs Hk Hm Hx Hv. rewrite Hx in Hv |- *. by eapply fill_label_again. }
  rewrite (Hlab "workspace_apparmor_profile" da_apparmor (fc_apparmor f) (not_defaulted "workspace_apparmor_profile" eq_refl) Hap (f_equal da_apparmor (eq_sym E)) (child_label print a "workspace_apparmor_profile" (da_apparmor a) ltac:(tauto))).
  rewrite (Hlab "workspace_selinux_label" da_selinux (fc_selinux f) (not_defaulted "workspace_selinux_label" eq_refl) Hse (f_equal da_selinux (eq_sym E)) (child_label print a "workspace_selinux_label" (da_selinux a) ltac:(tauto))).
  rewrite (Hopt _ parse_u64 print_uint "idle_stop_after_secs" da_idle_stop (fc_idle_stop f) (not_defaulted "idle_stop_after_secs" eq_refl) Hi (f_equal da_idle_stop (eq_sym E)) (child_option print a "idle_stop_after_secs" (da_idle_stop a) ltac:(tauto))).
  rewrite (Hopt _ parse_u64 print_uint "destroy_after_secs" da_destroy_after (fc_destroy_after f) (not_defaulted "destroy_after_secs" eq_refl) Hd (f_equal da_destroy_after (eq_sym E)) (child_option print a "destroy_after_secs" (da_destroy_after a) ltac:(tauto))).
  rewrite (Hopt _ parse_u64 print_uint "default_workspace_max_processes" da_max_processes (fc_max_processes f) (not_defaulted "default_workspace_max_processes" eq_refl) Hp (f_equal da_max_processes (eq_sym E)) (child_option print a "default_workspace_max_processes" (da_max_processes a) ltac:(tauto))).
  rewrite (Hopt _ parse_u64 print_uint "max_running_workspaces" da_max_running (fc_max_running f) (not_defaulted "max_running_workspaces" eq_refl) Hr (f_equal da_max_running (eq_sym E)) (child_option print a "max_running_workspaces" (da_max_running a) ltac:(tauto))).
  rewrite (Hopt _ parse print "default_workspace_cpu_percent" da_cpu_percent (fc_cpu_percent f) (not_defaulted "default_workspace_cpu_percent" eq_refl) Hc (f_equal da_cpu_percent (eq_sym E)) (child_cpu print a)).
  by destruct a.
Qed.
Definition sample_file : FileConfig :=
  mkFileConfig None (Some "/opt/state") None None (Some "enclave") None None None (Some 9) None (Some 900) None None (Some 512) None (Some 16) None None (Some false) None.
(** One way to write percentages: in binary, by their position in an enumeration. *)
Fixpoint bits_of (p : positive) : string :=
  match p with xH => "" | xO q => String "0" (bits_of q) | xI q => String "1" (bits_of q) end.
Fixpoint of_bits (s : string) : positive :=
  match s with EmptyString => xH | String c s' => if (c =? "0")%char then xO (of_bits s') else xI (of_bits s') end.
Definition f64_code (x : f64) : bool * bool + Z * positive :=
  match x with NaN => inl (true, true) | Infinite b => inl (false, b) | Finite q => inr (Qnum q, Qden q) end.
Definition f64_decode (x : bool * bool + Z * positive) : f64 :=
  match x with inl (true, _) => NaN | inl (false, b) => Infinite b | inr (n, d) => Finite (Qmake n d) end.
Definition sample_print (x : f64) : string := bits_of (encode (f64_code x)).
Definition sample_parse (s : string) : option f64 := f64_decode <$> decode (of_bits s).
Lemma sample_parse_print x : sample_parse (sample_print x) = Some x.
Proof.
  unfold sample_parse, sample_print. assert (∀ p, of_bits (bits_of p) = p) as -> by (intros p; induction p as [p IH|p IH|]; cbn; by rewrite ?IH).
  rewrite decode_encode. by destruct x as [|b|[n d]].
Defined.
Definition sample_flags : list (string * string) := [("task_count_threshold", "7"); ("destroy_after_secs", "60")].
Lemma detached_daemon_same_args_witness : ∃ a,
  resolved_args sample_parse "/s" "/p" sample_file sample_flags = Some a ∧ da_state_dir a = "/opt/state" ∧ da_destroy_after a = Some 60 ∧
  resolved_args sample_parse "/s" "/p" sample_file (child_flags sample_print a) = Some a.
Proof.
  assert (printable_file sample_file) as Hf by (unfold printable_file, opt_all, in_u64; cbn; split_and!; done).
  eexists. split; [reflexivity|]. split; [done|]. split; [done|].
  by apply (detached_daemon_same_args sample_print sample_parse "/s" "/p" sample_file sample_flags _ sample_parse_print Hf).
Defined.

(** A config file named on the command line of [daemon start] is not named on that of the daemon it
    launches, which therefore reads the config file of the environment: a window that only that file sets
    applies to a daemon started with another. *)
Theorem named_config_not_passed_on (print : f64 → string) (parse : string → option f64) (sd pf : string) : (∀ x, parse (print x) = Some x) →
  ∃ named found a b, resolved_args parse sd pf named [] = Some a ∧ da_idle_stop a = None ∧
    resolved_args parse sd pf found (child_flags print a) = Some b ∧ da_idle_stop b = Some 60.
Proof.
  intros Hpp. exists default_file_config,
    (mkFileConfig None None None None None None None None None None (Some 60) None None None None None None None None None).
  set (a := mkDaemonArgs sd pf "debootstrap" None None None None None None 1024 32 None 30 true true).
  exists a. eexists. split; [done|]. split; [done|]. unfold resolved_args. rewrite run_args_child; [by split|done|]. unfold printable_args, in_u64, a; cbn. by split_and!.
Qed.

(** A daemon that a command starts by itself has the arguments of [daemon start] without flags. *)
Theorem auto_start_like_start (parse : string → option f64) (sd pf : string) (f : FileConfig) :
  resolved_args parse sd pf f [] = Some (auto_start_defaults sd pf f).1 ∧
  default_auto_start_defaults sd pf = auto_start_defaults sd pf default_file_config.
Proof. split; [|done]. destruct f as [????[|][|]]; done. Qed.

(** A config file that is accepted is one a daemon starts with: the policy it gives is accepted too. *)
Theorem accepted_config_starts (sd pf : string) (f : FileConfig) : validate_file_config f = Ok tt →
  policy_validate (policy_of_args (auto_start_defaults sd pf f).1) = Ok tt.
Proof.
  unfold validate_file_config. intros (u1 & _ & H)%bind_Ok. apply bind_Ok in H as (u2 & _ & H). apply bind_Ok in H as (u3 & _ & H).
  apply bind_Ok in H as ([] & Hc & H). repeat case_bool_decide; try done. unfold policy_validate. cbn. rewrite Hc. cbn.
  rewrite !bool_decide_eq_false_2 by done. destruct (Z.eqb_spec (default 1024 (fc_task_count f)) 0) as [He|_]; [destruct (fc_task_count f); cbn in He; congruence|].
  destruct (Z.eqb_spec (Z.max (default 30 (fc_sweep_interval f)) 1 * 1000000000) 0); [lia|done].
Qed.
Lemma accepted_config_starts_witness : validate_file_config sample_file = Ok tt ∧
  policy_validate (policy_of_args (auto_start_defaults "/s" "/p" sample_file).1) = Ok tt.
Proof. assert (validate_file_config sample_file = Ok tt) as H by (by vm_compute). split; [exact H|]. by apply (accepted_config_starts "/s" "/p" sample_file). Defined.

(** When the variable that names the configuration home is set, the file below it is the only one looked for:
    with none there, the file below the home directory is not read. *)
Theorem config_search_does_not_fall_through (env : string → option string) (file : string → option (option string))
    (toml : string → option FileConfig) (dir : string) : env "XDG_CONFIG_HOME" = Some dir →
  file (path_join (path_join dir "enclave") "config.toml") = None → load_config env file toml None = Ok default_file_config.
Proof. intros He Hf. unfold load_config, resolve_config_path. by rewrite He, Hf. Qed.
Lemma config_search_does_not_fall_through_witness :
  load_config (λ v, if bool_decide (v = "HOME") then Some "/root" else Some "/etc/xdg")
    (λ p, if bool_decide (p = "/root/.config/enclave/config.toml") then Some (Some "") else None) (λ _, Some sample_file) None = Ok default_file_config.
Proof.
  by apply (config_search_does_not_fall_through (λ v, if bool_decide (v = "HOME") then Some "/root" else Some "/etc/xdg")
    (λ p, if bool_decide (p = "/root/.config/enclave/config.toml") then Some (Some "") else None) (λ _, Some sample_file) "/etc/xdg").
Defined.

Lemma await_ready_Ok polls : is_ok (await_ready polls) = true → Exists (λ p, answered p = true) polls.
Proof. induction polls as [|[[] [[]|]] ps IH]; try done; [by left..|]. intros H. right. by apply IH. Qed.
Lemma assert_Err {S} ok m (st : S) e st' : assert ok m st = (Err e, st') → st' = st.
Proof. destruct ok; [done|]. by intros [= _ <-]. Qed.
Lemma start_daemon_spec h print a l r l' : sh_ping h ≠ Pong → start_daemon h print a l = (r, l') →
  (l' = l ∧ is_ok r = false) ∨ (l' = l ++ [child_flags print a] ∧ r = await_ready (sh_polls h)).
Proof.
  intros Hp H. unfold start_daemon in H. destruct (sh_ping h); [done|..].
  all: do 7 (apply stm_bind_cases in H as [(? & ? & (_ & _ & ->)%assert_Ok & H)|(? & ->%assert_Err & ->)]; [|by left]).
  all: injection H as <- <-; by right.
Qed.

(** A command that deletes state starts no daemon unless asked to; any command starts at most one, only when
    nothing is listening, and with the remembered arguments; and it succeeds only when a daemon answered. *)
Theorem daemon_started_only_when_allowed (h : start_host) (print : f64 → string) (sd pf : string) (defaults : option (DaemonArgs * Z))
    (explicit : bool) (action : string) (l l' : launches) (r : result unit) :
  ensure_daemon_running_for_action h print sd pf defaults explicit action l = (r, l') →
  (l' = l ∨ l' = l ++ [child_flags print (default (default_auto_start_defaults sd pf) defaults).1] ∧ sh_ping h = Unreachable ∧
    (action ∈ destructive_actions → explicit = true)) ∧
  (is_ok r = true → sh_ping h = Pong ∨ Exists (λ p, answered p = true) (sh_polls h)).
Proof.
  unfold ensure_daemon_running_for_action. destruct (sh_ping h) eqn:Hp; [intros [= <- <-]; tauto| |intros [= <- <-]; by split; [left|]].
  unfold destructive_action_requires_explicit_start. case_bool_decide as Ha; [destruct explicit|]; cbn [negb andb]; [|intros [= <- <-]; by split; [left|]|].
  all: intros [[-> Hr]|[-> ->]]%start_daemon_spec; [split; [by left|congruence]| |congruence]; split; [right; tauto|intros Hr; right; by apply await_ready_Ok].
Qed.
Definition sample_start : start_host := mkStartHost Unreachable true true true true true true true [mkPoll false (Some false); mkPoll true (Some false)].
Lemma daemon_started_only_when_allowed_witness : ∃ l',
  ensure_daemon_running_for_action sample_start sample_print "/s" "/p" None true "sandbox.destroy" [] = (Ok tt, l') ∧ l' ≠ [] ∧
  (sh_ping sample_start = Pong ∨ Exists (λ p, answered p = true) (sh_polls sample_start)).
Proof.
  eexists. split; [reflexivity|]. split; [done|].
  by apply (daemon_started_only_when_allowed sample_start sample_print "/s" "/p" None true "sandbox.destroy" [] _ (Ok tt) eq_refl).
Defined.

(** ** What an accepted Enclavefile declares *)

Lemma check_all_Ok {A} (f : A → result unit) l : check_all f l = Ok tt ↔ Forall (λ x, f x = Ok tt) l.
Proof.
  unfold check_all. split.
  - intros (us & H & _)%bind_Ok. revert us H. induction l as [|x l IH]; intros us H; [constructor|]. cbn in H.
    apply bind_Ok in H as ([] & Hx & H). apply bind_Ok in H as (us' & H & _). constructor; [done|]. by eapply IH.
  - intros H. assert (∃ us, mapM f l = Ok us) as [us ->]; [|done]. induction H as [|x l Hx Hl [us IH]]; [by exists []|].
    cbn. rewrite Hx. cbn. rewrite IH. by eexists.
Qed.
Lemma prefixed_Ok {A} (r : result A) m : prefixed r m = Ok tt ↔ is_ok r = true.
Proof. by destruct r. Qed.
Lemma guard_Ok (b : bool) m : (if b then bail m else Ok tt) = Ok tt ↔ b = false.
Proof. by destruct b. Qed.
Lemma mapM_parse {A} (f : string → result A) m (l : list string) xs : mapM (λ p, match f p with Ok x => Ok x | Err _ => bail m end) l = Ok xs →
  Forall2 (λ p x, f p = Ok x) l xs.
Proof.
  revert xs. induction l as [|p l IH]; intros xs H; cbn in H; [injection H as <-; constructor|].
  apply bind_Ok in H as (x & Hx & H). apply bind_Ok in H as (ys & Hys & [= <-]). constructor; [by destruct (f p); simplify_eq|by apply IH].
Qed.
(** What a section that is accepted promises: the names under which its resources are made are usable, every
    token it asks for can be resolved, and its ports are specifications that bind different sockets. *)
Definition usable_section (w : WorkspaceSection) : Prop :=
  ws_name w ≠ "" ∧ (∀ v, ws_cpu_percent w = Some v → ∃ q, v = Finite q ∧ (0 < q <= 100)%Q) ∧
  (ws_path w = None ∨ ws_workspace_dir w = None) ∧ (∀ d, ws_path w = Some d ∨ ws_workspace_dir w = Some d → trim d ≠ "") ∧
  (∀ o, ws_owner w = Some o → free "/" o = true ∧ o ≠ "" ∧ o ≠ "." ∧ o ≠ "..") ∧
  (∀ p, p ∈ ws_auth w → is_Some (provider_env_var (to_ascii_lowercase (trim p)))) ∧
  (∀ t, t ∈ ws_env_tokens w → validate_env_token_name (to_ascii_uppercase (trim t)) = Ok tt) ∧
  ∃ specs, Forall2 (λ p x, spec_parse p = Ok x) (ws_ports w) specs ∧ NoDup (spec_binding <$> specs).
Lemma section_usable w : validate_workspace_section w = Ok tt → usable_section w.
Proof.
  unfold validate_workspace_section, blank_dir. intros ([] & Hn%guard_Ok & H)%bind_Ok. apply bind_Ok in H as ([] & Hc & H).
  apply bind_Ok in H as ([] & Hp%guard_Ok & H). apply bind_Ok in H as ([] & Hd%guard_Ok & H). apply bind_Ok in H as ([] & Hb%guard_Ok & H).
  apply bind_Ok in H as ([] & Ho & H). apply bind_Ok in H as ([] & Ha%check_all_Ok & H). apply bind_Ok in H as ([] & Ht%check_all_Ok & H).
  apply bind_Ok in H as (specs & Hs%mapM_parse & Hv%prefixed_Ok). unfold usable_section. split_and!.
  - by apply bool_decide_eq_false in Hn.
  - intros v Hv'. rewrite Hv' in Hc. apply prefixed_Ok, cpu_ok in Hc as (q & -> & ?). by exists q.
  - destruct (ws_path w); [|by left]. right. by destruct (ws_workspace_dir w).
  - intros d [E|E]; rewrite E in *; [by apply bool_decide_eq_false in Hp|by apply bool_decide_eq_false in Hd].
  - intros o Ho'. rewrite Ho' in Ho. apply prefixed_Ok, is_ok_true in Ho as [[] Ho]. split; [by apply user_id_free|by apply user_id_plain].
  - intros p Hin. rewrite list.Forall_forall in Ha. specialize (Ha p Hin). cbn beta in Ha. apply prefixed_Ok in Ha. by destruct (provider_env_var _).
  - intros t Hin. rewrite list.Forall_forall in Ht. specialize (Ht t Hin). cbn beta in Ht. apply prefixed_Ok, is_ok_true in Ht as [[] Ht]. done.
  - exists specs. split; [done|]. apply is_ok_true in Hv as [[] Hv]. by apply validate_ports_iff.
Qed.

(** An Enclavefile that is read declares a sandbox that can be bootstrapped and workspaces that are usable. *)
Theorem enclavefile_usable (toml : string → option Enclavefile) (content : string) (e : Enclavefile) :
  parse_enclavefile toml content = Ok e →
  ss_name (ef_sandbox e) ≠ "" ∧ ss_max_running (ef_sandbox e) ≠ Some 0 ∧
  validate_debootstrap_inputs (ss_suite (ef_sandbox e)) (default DEFAULT_DEBIAN_MIRROR (ss_mirror (ef_sandbox e))) = Ok tt ∧
  ∀ k w, ef_workspace e !! k = Some w → usable_section w.
Proof.
  unfold parse_enclavefile. intros (e' & _ & H)%bind_Ok. apply bind_Ok in H as ([] & H & [= <-]). unfold validate_enclavefile in H.
  apply bind_Ok in H as ([] & Hn%guard_Ok & H). apply bind_Ok in H as ([] & _ & H). apply bind_Ok in H as ([] & Hm%prefixed_Ok & H).
  apply bind_Ok in H as ([] & _ & H). apply bind_Ok in H as ([] & Hr%guard_Ok & Hw%check_all_Ok). split_and!.
  - by apply bool_decide_eq_false in Hn.
  - by apply bool_decide_eq_false in Hr.
  - by apply is_ok_true in Hm as [[] Hm].
  - intros k w Hk. apply section_usable. rewrite list.Forall_forall in Hw. apply Hw, elem_of_btree_values. eauto.
Qed.
Definition sample_section (procs : option Z) : WorkspaceSection :=
  mkWorkspaceSection "api" None None (Some "./project") None (Some (Finite (Qmake 25 1))) None procs None None false false None None None false
    ["github"] (Some "alice") ["ENCLAVE_TOKEN"] ["127.0.0.1:3001:3000/tcp"].
Definition sample_enclavefile (procs : option Z) : Enclavefile :=
  mkEnclavefile (mkSandboxSection "devbox" "bookworm" None Debootstrap None None None None None []) {["api" := sample_section procs]}.
Lemma enclavefile_usable_witness : parse_enclavefile (λ _, Some (sample_enclavefile None)) "" = Ok (sample_enclavefile None) ∧
  usable_section (sample_section None).
Proof.
  assert (parse_enclavefile (λ _, Some (sample_enclavefile None)) "" = Ok (sample_enclavefile None)) as H by (by vm_compute). split; [exact H|].
  by apply (enclavefile_usable (λ _, Some (sample_enclavefile None)) "" (sample_enclavefile None) H) with "api".
Defined.

(** An Enclavefile is accepted with limits that no workspace can be created with: a process limit of zero is
    refused by the daemon, after the sandbox was built. *)
Theorem declared_limit_refused_late : ∃ e w,
  parse_enclavefile (λ _, Some e) "" = Ok e ∧ ef_workspace e !! "api" = Some w ∧ ws_max_procs w = Some 0 ∧
  ∀ params, value_get "max_procs" params = Some (Number 0) → is_err (parse_workspace_limits_create params) = true.
Proof.
  exists (sample_enclavefile (Some 0)), (sample_section (Some 0)). split_and!; [by vm_compute|done|done|]. intros params Hp.
  unfold parse_workspace_limits_create. cbv zeta. destruct (checked_megabytes _ "memory_mb"); cbn [mbind result_bind]; [|reflexivity].
  destruct (checked_megabytes _ "disk_mb"); cbn [mbind result_bind]; [|reflexivity].
  unfold workspace_limits_validate. cbn [cpu_percent max_processes]. rewrite Hp. cbn [mbind option_bind]. by destruct (validate_optional_cpu _).
Qed.
